(* ===== verification/_CoqProject ===== *)
-Q . S2P
Prelude.v
State.v
Varint.v
Runs.v
Crc.v
Chunks.v
BlockTable.v
Wal.v
Records.v
HashTable.v
FlatIndex.v
Reserve.v
FlatRead.v
FlatSection.v
OrdIndex.v
Superblock.v
Blob.v
BlobScan.v
BlobCache.v
BlobPlan.v
SegmentWriter.v
SegmentHolds.v
SegmentFinish.v
SegmentRead.v
Segment.v
Fences.v
Merge.v
Names.v
Bloom.v
Inputs.v
Compact.v
CompactHolds.v
CompactRun.v
Epochs.v
Arena.v
MemTable.v
MemIndex.v
MemHolds.v
MemTotal.v
Manifest.v
Seg.v
Lz4.v
Lz4Fast.v
Lz4Enc.v
Sparse.v
SparsePlan.v
SparseHolds.v
SparseRead.v
StoreRead.v
StoreHolds.v
Store.v
