(* ===== verification/Prelude.v ===== *)
(** * Supdb: a verification development

    Supdb is a key-value store: writes go to a write-ahead log and a table in
    memory, which is sealed to an immutable segment file; a segment is served
    in place, from a mapping or from ranged reads of an object, through the
    index at the end of the file. This library models the table, the log, the
    segments and their merges, the code that makes bytes and reads them back,
    and proves that what was written is what is read.

    ** How the code is modelled

    A [u8] is a [Byte.byte] and a slice a list of them; a wider integer is a
    [Z] with its wrap-around written out ([w16], [w32], [w64]), its checked and
    saturating operations named after the source's ([cadd], [cmul], [csub],
    [sadd], [ssub]). An index is a [Z]; a slice expression is [get_range],
    a write through one [put_range], a subscript [get_at], and each answers
    [None] where the source panics. A Rust [Option] is an [option] and a
    [Result] the [result] of this file; where one function both panics and
    fails, it answers [option (result A)]. A loop that is not structural takes
    fuel, and the theorem about it says that the fuel its caller hands it is
    enough: [replay] hands as much as the file has bytes ([wal_replay_total]),
    [uvarint]s ten rounds, binary searches the width of their interval, a
    probe the table's capacity, [pieces] the section's length. A function that
    fills a buffer it was given returns the buffer. A callback is the list of
    what it is handed; [with_extent_then] and [read_exts_then] of [Blob] take the
    callback itself, and are proved to be the list where it reads nothing.

    Code outside the repository is an argument: the LZ4 coder and decoder, the
    CPU's CRC instruction, and, for values read from the process, the
    fence's density, the [CHECKSUMS] switch, the clock and the address a file
    is mapped at, on which alignment depends. What is assumed of them is a
    hypothesis of the theorem: a decoder undoes the coder; the CPU's
    instruction computes the CRC of eight bytes; a mapping is eight-aligned.

    ** The files, and what they model

    - [Prelude]: bytes, widths, slices, lists by [Z] index, ordered keys, the
      binary search, fuel; the automation ([zlen], [layout], [puts]).
    - [Varint]: the LEB128 coders of [src/src/index.rs] and [src/src/db.rs].
    - [Runs]: the extent of [src/src/index.rs], [encode_run], [each_value], the
      run's length ahead of writing it ([src/src/reserve.rs]).
    - [Crc]: CRC-32C of [src/src/block.rs]: tables, scalar and CPU path, resume
      and combine.
    - [Chunks]: the block builder and the chunked form of [src/src/block.rs].
    - [BlockTable]: the table of blocks, [src/src/flatindex.rs], read in place.
    - [Wal]: the log of [src/src/db.rs]: frames, batches, commits, recycling,
      replay.
    - [Records]: a section's records, full and compact.
    - [HashTable]: the hash, the fills, the probe.
    - [FlatIndex], [FlatRead], [FlatSection]: the section of
      [src/src/flatindex.rs]: its header and checksum row and parse; every read
      of a parsed section; the trailer's layout and what a section holds.
    - [Reserve]: the head-reserve planner, [src/src/reserve.rs].
    - [OrdIndex]: the compressed ordered index, [src/src/ordindex.rs].
    - [Superblock]: the superblock and its extension ([src/src/db.rs]) and the
      reader's plan of what to fetch ([src/src/blob.rs]).
    - [State]: the state monad of the writer and the reader, and its weakest
      preconditions.
    - [Blob]: the whole-index reader of [src/src/blob.rs]: opening, checked and
      cached reads of extents, values by key and rank, plans, counts, scans;
      [BlobCache] proves its cached reads against a stateless answer, [BlobPlan]
      its plans, [BlobScan] its two scan loops against one another.
    - [Sparse]: the reader of [src/src/blob.rs] that keeps the fence alone: the
      plans of its open, the pieces it checks as it first reads them, the walk of
      a range of the dictionary; [SparsePlan]: its plans; [SparseHolds]: the walk
      over a section as it was written; [SparseRead]: a segment opened so.
    - [SegmentWriter]: the segment writer of [src/src/db.rs], a monad over its
      state; [SegmentHolds]: what it leaves, key by key; [SegmentFinish]: the
      file it makes; [SegmentRead]: the reader over that file; [Segment]:
      [write_sorted] and the reader together.
    - [Fences]: the key ranges of partitions and pieces, which merges may run
      together, and the slicer that cuts a merge's keys into partitions;
      [Merge]: the walk of a merge's inputs; [Names]: the names of files, which
      carry ids, covered sequences and fences; [Bloom]: the blocked Bloom filter of
      a segment ([src/src/db.rs]).
    - [Epochs], [Arena], [MemTable]: readers' pins and the commit marks, the
      arenas, the table in memory; [MemIndex], [MemHolds], [MemTotal]: its hash
      index, what it answers, and that its writes return.
    - [Manifest]: both slots of the manifest, written and read; [Seg]: a segment
      opened by its name, and what it says it may hold.
    - [Lz4], [Lz4Fast], [Lz4Enc]: the LZ4 blocks of [src/src/db/zlz4.rs]: the
      decoder that checks every bound, the decoder whose moves are unchecked, and
      the encoder with its chains and its two parses.
    - [Inputs]: a segment opened for a merge, proved to be its puts; [Compact]:
      the piece writer, the emitter, [compact_run] and [tier_run] over a directory
      of files; [CompactHolds]: what the two passes read and write, key by key and
      piece by piece; [CompactRun]: the runs, end to end.
    - [StoreRead]: a published state, the order of its segments, a point read
      and a count over partition, pieces, frozen tables and live table;
      [StoreHolds]: what they answer. [Store]: the writer over its log and
      table, its commits, transactions, and the replay of an open.

    The writer calls the encoders of [Runs], [Chunks], [Records], [BlockTable],
    [HashTable] and [FlatIndex]; the readers parse their bytes. The components
    meet in records of laws: [writable], what a writer hands the trailer, and
    [holds], what a parsed section promises its reader ([FlatSection]);
    [sound], what the reader needs of a file for its memory to be safe
    ([BlobCache]); and [serves], what a reader promises of a file ([Segment]).

    ** What the theorems show

    - The log: replay of a log as written, crashed at any byte, is a
      whole number of batches, at least the committed ones; replay of any bytes
      returns, while no sequence passes the last of 64 bits, where the sum the
      source takes ends the process; a gap of sequence is an error and not a
      shorter log.
    - The store: whatever is appended, put, deleted and committed, a crash that
      cuts the last commit's write at any byte leaves a log that opens to the
      state of a commit, the last one's or that before it ([crash_recovers]); a
      read of a published state answers what its segments and tables, oldest
      first, add up to, and a count their number ([store_reads]); the
      segments' order is their age for any key ([segments_aged]); what a
      transaction reads is what a reader finds once it commits
      ([txn_reads_commit]).
    - Segments, end to end: for any input the format can hold, the writer
      neither panics nor refuses, the reader opens what it wrote, and every
      read, from any state earlier reads left, is the values that were put
      ([segment_roundtrip]).
    - The reader: of a sound object a cached read, of at least one byte and made
      when no other is under way, answers what a fresh one would; a plan covers
      the bytes a read then asks for; the fast scan is the general one. Two
      theorems are of what it gets wrong, runs of no bytes and a read made in
      the callback of another ([blob_reentry_stale]); two lemmas show a block in
      chunks that are not [CHUNK] and a directory no checksum covers. The reader without the
      index asks for nothing outside its plans ([sparse_walk_planned]), and over a
      segment as written opens from its head and hands on the entries of a range,
      no more and no fewer ([sparse_segment]).
    - Sections: what is streamed parses, holds the entries it was made of and no
      others, by rank, key and seek; its checksum row verifies and covers every
      byte; a damaged fence costs time and not answers; the readers agree.
    - The ordered index: round trip, exact seeks with ties, bounded windows.
    - Codecs: varints, runs, records, blocks, tables, superblocks round-trip and
      decoders of arbitrary bytes stay in bounds.
    - The planner: exact where the keys are known, an upper bound without an
      inline limit, and short with one ([from_totals_short]).
    - Merges: the walk shows each distinct key of its inputs once, in order, with
      every input that holds it, in both its forms; the slices it is cut into
      tile the keys and their fences hold them; the fences a merge rewrites are
      the closure of those it was asked for; a file name says what it was given;
      a merged partition answers of every key of its fence what its inputs together
      answer, and a merged piece stands for its inputs among any others
      ([merge_answers], [tier_masks]); a Bloom filter denies no key it was built of, and is exactly its bits.
    - The table: it answers what the writes it took add up to, and a reader
      bounded by a commit what that commit covers ([table_answers]); its
      operations return within the bounds stated ([writes_return]); three
      theorems are of what no bound guards: empty and oversized values, long
      keys. A pinned reader's structures are not freed under it, nothing waits for
      readers that have left, and a commit's three words are read as one.
    - The manifest: a write that a crash cuts leaves the one before it readable,
      in either slot ([manifest_atomic]). A segment opens by its name, with its
      index beside it, torn or missing, and answers its puts ([seg_opens]).
    - LZ4 blocks: the fast decoder reads and writes inside its buffers and is the
      careful one, of any bytes ([fast_is_careful]); a group decodes to itself
      whatever the effort and the groups before it ([lz4_roundtrip]), but for more
      than four steps ahead ([lazy_steps_corrupt]).
    - The checksum's paths agree, and resuming and combining are what they say.
    - The superblock: a torn slot costs nothing but the newest generation; only
      what the writer makes decodes.

    ** Not modelled

    The concurrent engine of [src/src/db.rs] (the seal's thread, snapshots and
    the forms scans walk, direct runs and the tables of theirs, the rotation of
    the log, upkeep); the merge's other arm, which hashes every key; the compressed pages
    ([src/src/db/], but for their LZ4 blocks), the blocks-first finish and [plan_inline]; input and output themselves, the file system, telemetry
    counters and process memory; [src/bench] and the bindings. The state of the
    filesystem is its bytes: a crash is a prefix of what was written, and
    durability is what a caller synced. *)

From Stdlib Require Export Lia ZArith Bool Strings.Byte Strings.String.
From stdpp Require Export base numbers list.

#[global] Open Scope string_scope.
#[global] Open Scope list_scope.
#[global] Open Scope Z_scope.
#[global] Set Default Goal Selector "!".

(** ** Bytes

    A [u8] of the source is a [Byte.byte]; [b2z] is its numeric value and
    [z2b] the truncating cast [as u8]. *)

Abbreviation bytes := (list byte).

Definition b2z (b : byte) : Z := Z.of_N (Byte.to_N b).
Definition z2b (z : Z) : byte :=
  match Byte.of_N (Z.to_N (z mod 256)) with Some b => b | None => x00 end.

Lemma b2z_range b : 0 <= b2z b < 256.
Proof. unfold b2z. pose proof (Byte.to_N_bounded b). lia. Qed.

Lemma z2b_b2z b : z2b (b2z b) = b.
Proof.
  unfold z2b. pose proof (b2z_range b). rewrite Z.mod_small by lia.
  unfold b2z. rewrite N2Z.id, Byte.of_to_N. done.
Qed.

Lemma b2z_z2b z : b2z (z2b z) = z mod 256.
Proof.
  unfold z2b, b2z. pose proof (Z.mod_pos_bound z 256 ltac:(lia)).
  destruct (Byte.of_N (Z.to_N (z mod 256))) eqn:E.
  - apply Byte.to_of_N in E. rewrite E. lia.
  - apply Byte.of_N_None_iff in E. lia.
Qed.

Lemma b2z_inj a b : b2z a = b2z b -> a = b.
Proof. intros H. rewrite <- (z2b_b2z a), <- (z2b_b2z b), H. done. Qed.

Lemma z2b_mod z : z2b (z mod 256) = z2b z.
Proof. unfold z2b. rewrite Z.mod_mod by lia. done. Qed.

#[export] Instance byte_eq_dec : EqDecision byte.
Proof. intros a b. apply (Byte.byte_eq_dec a b). Defined.

Definition byte_eqb (a b : byte) : bool := b2z a =? b2z b.

Lemma byte_eqb_eq a b : byte_eqb a b = true <-> a = b.
Proof.
  unfold byte_eqb. rewrite Z.eqb_eq. split; [apply b2z_inj | by intros ->].
Qed.

(** ** Machine integers: the values a [u16], [u32], [u64] holds, and the
    checked and wrapping operations the source uses on them. *)

Definition U16 : Z := 2 ^ 16.
Definition U32 : Z := 2 ^ 32.
Definition U64 : Z := 2 ^ 64.

Definition w16 (z : Z) : Z := z mod U16.
Definition w32 (z : Z) : Z := z mod U32.
Definition w64 (z : Z) : Z := z mod U64.

(** [checked_add], [checked_mul] on a 64-bit [usize] or [u64]. *)
Definition cadd (a b : Z) : option Z := if a + b <? U64 then Some (a + b) else None.
Definition cmul (a b : Z) : option Z := if a * b <? U64 then Some (a * b) else None.
(** [a - b] where the source would panic below zero. *)
Definition csub (a b : Z) : option Z := if b <=? a then Some (a - b) else None.
(** [saturating_add] on a 64-bit [usize]. *)
Definition sadd (a b : Z) : Z := Z.min (a + b) (U64 - 1).
(** [saturating_sub]. *)
Definition ssub (a b : Z) : Z := Z.max 0 (a - b).
(** [div_ceil] for a positive divisor. *)
Definition div_ceil (a b : Z) : Z := (a + b - 1) / b.
(** [align_up(n, to)] for [to] a power of two: [(n + to - 1) & !(to - 1)]. *)
Definition align_up (n to : Z) : Z := (n + to - 1) / to * to.

Lemma cadd_Some a b c : cadd a b = Some c <-> c = a + b /\ a + b < U64.
Proof. unfold cadd. destruct (Z.ltb_spec (a + b) U64); naive_solver lia. Qed.

Lemma cmul_Some a b c : cmul a b = Some c <-> c = a * b /\ a * b < U64.
Proof. unfold cmul. destruct (Z.ltb_spec (a * b) U64); naive_solver lia. Qed.

Lemma div_ceil_spec a b : 0 < b -> 0 <= a -> b * (div_ceil a b) < a + b /\ a <= b * div_ceil a b.
Proof. intros. unfold div_ceil. Z.to_euclidean_division_equations; nia. Qed.

Lemma align_up_spec n to : 0 < to -> n <= align_up n to < n + to /\ align_up n to mod to = 0.
Proof.
  intros. unfold align_up. split.
  - Z.to_euclidean_division_equations; nia.
  - apply Z.mod_mul. lia.
Qed.

Lemma align_up_mono n m to : 0 < to -> n <= m -> align_up n to <= align_up m to.
Proof. intros. unfold align_up. apply Z.mul_le_mono_nonneg_r; [lia|]. apply Z.div_le_mono; lia. Qed.

Lemma align_up_id n to : 0 < to -> n mod to = 0 -> align_up n to = n.
Proof.
  intros ? Hm. unfold align_up. rewrite (Z.div_mod n to) at 1 by lia. rewrite Hm.
  replace ((to * (n / to) + 0 + to - 1) / to) with (n / to);
    [pose proof (Z.div_mod n to); lia|].
  apply (Z.div_unique _ _ _ (to - 1)); lia.
Qed.

(** ** Slices: a [&[u8]] is a [list byte]; indices are [Z]. *)

Definition Zlen {A} (l : list A) : Z := Z.of_nat (length l).

(** [b.get(lo..hi)]. *)
Definition get_range {A} (l : list A) (lo hi : Z) : option (list A) :=
  if (0 <=? lo) && (lo <=? hi) && (hi <=? Zlen l)
  then Some (take (Z.to_nat (hi - lo)) (drop (Z.to_nat lo) l)) else None.

(** [b.get(i)]. *)
Definition get_at {A} (l : list A) (i : Z) : option A :=
  if (0 <=? i) && (i <? Zlen l) then l !! Z.to_nat i else None.

(** [b.get(lo..)]. *)
Definition get_from {A} (l : list A) (lo : Z) : option (list A) :=
  if (0 <=? lo) && (lo <=? Zlen l) then Some (drop (Z.to_nat lo) l) else None.

(** [n] zero bytes. *)
Definition zeros (n : Z) : bytes := replicate (Z.to_nat n) x00.

Section zlen.
Context {A : Type}.
Implicit Types l : list A.

Lemma Zlen_nil : Zlen (@nil A) = 0. Proof. done. Qed.
Lemma Zlen_cons x l : Zlen (x :: l) = 1 + Zlen l.
Proof. unfold Zlen. simpl. lia. Qed.
Lemma Zlen_app l1 l2 : Zlen (l1 ++ l2) = Zlen l1 + Zlen l2.
Proof. unfold Zlen. rewrite length_app. lia. Qed.
Lemma Zlen_nonneg l : 0 <= Zlen l. Proof. unfold Zlen. lia. Qed.
Lemma Zlen_take n l : Zlen (take n l) = Z.min (Z.of_nat n) (Zlen l).
Proof. unfold Zlen. rewrite length_take. lia. Qed.
Lemma Zlen_drop n l : Zlen (drop n l) = Z.max 0 (Zlen l - Z.of_nat n).
Proof. unfold Zlen. rewrite length_drop. lia. Qed.
Lemma Zlen_replicate n (x : A) : Zlen (replicate n x) = Z.of_nat n.
Proof. unfold Zlen. rewrite length_replicate. done. Qed.
Lemma Zlen_zero_nil l : Zlen l = 0 -> l = [].
Proof. unfold Zlen. destruct l; [done|]. simpl. lia. Qed.
Lemma Zlen_reverse l : Zlen (reverse l) = Zlen l.
Proof. unfold Zlen. by rewrite length_reverse. Qed.
Lemma Zlen_map {B} (f : A -> B) l : Zlen (map f l) = Zlen l.
Proof. unfold Zlen. by rewrite length_map. Qed.
Lemma Zlen_to_nat l : Z.to_nat (Zlen l) = length l.
Proof. unfold Zlen. lia. Qed.
End zlen.

Lemma Zlen_zeros n : 0 <= n -> Zlen (zeros n) = n.
Proof. intros. unfold zeros. rewrite Zlen_replicate. lia. Qed.

Lemma zeros_add a b : 0 <= a -> 0 <= b -> zeros (a + b) = zeros a ++ zeros b.
Proof. intros. unfold zeros. rewrite Z2Nat.inj_add by lia. apply replicate_add. Qed.

Create Rewrite HintDb zlen.
#[export] Hint Rewrite @Zlen_nil @Zlen_cons @Zlen_app @Zlen_take @Zlen_drop
  @Zlen_replicate @Zlen_reverse @Zlen_map @Zlen_to_nat : zlen.
#[export] Hint Rewrite Zlen_zeros using lia : zlen.

(** The empty list's length alone. *)
Create Rewrite HintDb znil.
#[export] Hint Rewrite @Zlen_nil : znil.
Ltac znil := autorewrite with znil in *.

(** Normalise lengths, then linear arithmetic. *)
Ltac zlen := autorewrite with zlen in *; try lia.

Section ranges.
Context {A : Type}.
Implicit Types l a b c : list A.

Lemma get_range_Some l lo hi r :
  get_range l lo hi = Some r <->
  0 <= lo <= hi /\ hi <= Zlen l /\ r = take (Z.to_nat (hi - lo)) (drop (Z.to_nat lo) l).
Proof.
  unfold get_range.
  destruct (Z.leb_spec 0 lo), (Z.leb_spec lo hi), (Z.leb_spec hi (Zlen l)); naive_solver lia.
Qed.

Lemma get_range_len l lo hi r : get_range l lo hi = Some r -> Zlen r = hi - lo.
Proof. intros (?&?&->)%get_range_Some. zlen. Qed.

(** The workhorse of every layout proof: a range that is exactly one
    part of a concatenation reads back that part. *)
Lemma get_range_app a b c lo hi :
  lo = Zlen a -> hi = Zlen a + Zlen b -> get_range (a ++ b ++ c) lo hi = Some b.
Proof.
  intros -> ->. pose proof (Zlen_nonneg a). pose proof (Zlen_nonneg b). pose proof (Zlen_nonneg c).
  apply get_range_Some. repeat split; try (zlen; fail).
  replace (Zlen a + Zlen b - Zlen a) with (Zlen b) by lia.
  rewrite !Zlen_to_nat, drop_app_length, take_app_length. done.
Qed.

Lemma get_range_all l : get_range l 0 (Zlen l) = Some l.
Proof.
  rewrite <- (app_nil_r l) at 1. change (l ++ []) with ([] ++ l ++ []).
  apply get_range_app; [done | rewrite Zlen_nil; lia].
Qed.

Lemma get_range_split l lo hi r :
  get_range l lo hi = Some r -> exists a c, l = a ++ r ++ c /\ lo = Zlen a /\ hi = Zlen a + Zlen r.
Proof.
  intros (?&?&->)%get_range_Some.
  exists (take (Z.to_nat lo) l), (drop (Z.to_nat (hi - lo)) (drop (Z.to_nat lo) l)).
  rewrite !take_drop. split; [done|]. zlen.
Qed.

Lemma get_range_app_r a b lo hi r :
  get_range b lo hi = Some r -> get_range (a ++ b) (Zlen a + lo) (Zlen a + hi) = Some r.
Proof.
  intros (x & y & -> & -> & ->)%get_range_split.
  rewrite app_assoc. apply get_range_app; zlen.
Qed.

Lemma get_range_app_l a b lo hi r :
  get_range a lo hi = Some r -> get_range (a ++ b) lo hi = Some r.
Proof.
  intros (x & y & -> & -> & ->)%get_range_split.
  rewrite <- !app_assoc. apply get_range_app; zlen.
Qed.

(** A range of a range. *)
Lemma get_range_sub l lo hi r lo' hi' r' :
  get_range l lo hi = Some r -> get_range r lo' hi' = Some r' ->
  get_range l (lo + lo') (lo + hi') = Some r'.
Proof.
  intros (x & y & -> & -> & ->)%get_range_split H.
  apply get_range_app_r, get_range_app_l, H.
Qed.

Lemma get_at_lookup l (i : nat) : get_at l (Z.of_nat i) = l !! i.
Proof.
  unfold get_at. rewrite (proj2 (Z.leb_le 0 _)), Nat2Z.id by lia. cbn [andb].
  destruct (Z.ltb_spec (Z.of_nat i) (Zlen l)); [done|]. symmetry. apply lookup_ge_None. unfold Zlen in *. lia.
Qed.

Lemma get_at_Some l i x : get_at l i = Some x <-> 0 <= i /\ l !! Z.to_nat i = Some x.
Proof.
  unfold get_at. destruct (Z.leb_spec 0 i), (Z.ltb_spec i (Zlen l)); simpl; try naive_solver lia.
  split; [done|]. intros [? Hl%lookup_lt_Some]. unfold Zlen in *. lia.
Qed.

Lemma get_at_None l i : get_at l i = None <-> i < 0 \/ Zlen l <= i.
Proof.
  unfold get_at. destruct (Z.leb_spec 0 i), (Z.ltb_spec i (Zlen l)); simpl; try naive_solver lia.
  rewrite lookup_ge_None. unfold Zlen in *. lia.
Qed.

Lemma get_at_app_mid a x c i : i = Zlen a -> get_at (a ++ x :: c) i = Some x.
Proof.
  intros ->. apply get_at_Some. split; [apply Zlen_nonneg|].
  rewrite Zlen_to_nat. by apply list_lookup_middle.
Qed.

Lemma get_at_is_Some l i : 0 <= i < Zlen l -> exists x, get_at l i = Some x.
Proof. intros. destruct (get_at l i) eqn:E; [eauto|]. apply get_at_None in E. lia. Qed.

Lemma get_from_Some l lo r :
  get_from l lo = Some r <-> 0 <= lo <= Zlen l /\ r = drop (Z.to_nat lo) l.
Proof.
  unfold get_from. destruct (Z.leb_spec 0 lo), (Z.leb_spec lo (Zlen l)); naive_solver lia.
Qed.

Lemma get_from_app a b lo : lo = Zlen a -> get_from (a ++ b) lo = Some b.
Proof.
  intros ->. pose proof (Zlen_nonneg a). pose proof (Zlen_nonneg b). apply get_from_Some.
  split; [zlen|]. rewrite Zlen_to_nat. by rewrite drop_app_length.
Qed.
End ranges.

(** In-place writes: [dst[at..at + src.len()].copy_from_slice(src)], [None]
    where Rust panics. *)
Definition put_range {A} (dst : list A) (at_ : Z) (src : list A) : option (list A) :=
  if (0 <=? at_) && (at_ + Zlen src <=? Zlen dst)
  then Some (take (Z.to_nat at_) dst ++ src ++ drop (Z.to_nat (at_ + Zlen src)) dst) else None.

Lemma put_range_app {A} (a b c s : list A) at_ :
  at_ = Zlen a -> Zlen s = Zlen b -> put_range (a ++ b ++ c) at_ s = Some (a ++ s ++ c).
Proof.
  intros -> Hl. unfold put_range.
  pose proof (Zlen_nonneg a). pose proof (Zlen_nonneg c). pose proof (Zlen_nonneg b).
  rewrite (proj2 (Z.leb_le 0 (Zlen a))) by lia.
  rewrite (proj2 (Z.leb_le (Zlen a + Zlen s) _)) by zlen. simpl. f_equal.
  rewrite Zlen_to_nat, take_app_length. f_equal. f_equal.
  rewrite app_assoc. replace (Z.to_nat (Zlen a + Zlen s)) with (length (a ++ b))
    by (rewrite length_app; unfold Zlen in *; lia).
  by rewrite drop_app_length.
Qed.

(** ** Little-endian and big-endian words *)

Fixpoint le_bytes (n : nat) (z : Z) : bytes :=
  match n with O => [] | S n => z2b z :: le_bytes n (z / 256) end.

Fixpoint le_val (l : bytes) : Z :=
  match l with [] => 0 | b :: l => b2z b + 256 * le_val l end.

(** [to_le_bytes] at the three widths, [to_be_bytes] and its inverse. *)
Definition le16 (z : Z) : bytes := le_bytes 2 z.
Definition le32 (z : Z) : bytes := le_bytes 4 z.
Definition le64 (z : Z) : bytes := le_bytes 8 z.
Definition be64 (z : Z) : bytes := reverse (le_bytes 8 z).
Definition be_val (l : bytes) : Z := le_val (reverse l).

Lemma length_le_bytes n z : length (le_bytes n z) = n.
Proof. revert z. induction n; intros; simpl; auto. Qed.
Lemma Zlen_le_bytes n z : Zlen (le_bytes n z) = Z.of_nat n.
Proof. unfold Zlen. by rewrite length_le_bytes. Qed.
Lemma Zlen_le16 z : Zlen (le16 z) = 2. Proof. apply Zlen_le_bytes. Qed.
Lemma Zlen_le32 z : Zlen (le32 z) = 4. Proof. apply Zlen_le_bytes. Qed.
Lemma Zlen_le64 z : Zlen (le64 z) = 8. Proof. apply Zlen_le_bytes. Qed.
Lemma Zlen_be64 z : Zlen (be64 z) = 8.
Proof. unfold be64. rewrite Zlen_reverse. apply Zlen_le_bytes. Qed.
#[export] Hint Rewrite Zlen_le_bytes Zlen_le16 Zlen_le32 Zlen_le64 Zlen_be64 : zlen.

Lemma le_val_range l : 0 <= le_val l < 256 ^ Zlen l.
Proof.
  induction l as [|b l IH]; [done|]. cbn [le_val]. rewrite Zlen_cons.
  pose proof (b2z_range b). pose proof (Zlen_nonneg l).
  rewrite Z.pow_add_r by lia. lia.
Qed.

Lemma le_val_le_bytes n z : le_val (le_bytes n z) = z mod 256 ^ Z.of_nat n.
Proof.
  revert z. induction n as [|n IH]; intros z; cbn [le_val le_bytes].
  - simpl. by rewrite Z.mod_1_r.
  - rewrite IH, b2z_z2b, Nat2Z.inj_succ, Z.pow_succ_r by lia.
    rewrite Z.rem_mul_r by lia. lia.
Qed.

Lemma le_bytes_le_val l : le_bytes (length l) (le_val l) = l.
Proof.
  induction l as [|b l IH]; [done|]. cbn [le_val le_bytes length].
  pose proof (b2z_range b). f_equal.
  - rewrite <- z2b_mod. replace ((b2z b + 256 * le_val l) mod 256) with (b2z b).
    + apply z2b_b2z.
    + rewrite Z.mul_comm, Z.mod_add by lia. rewrite Z.mod_small; lia.
  - replace ((b2z b + 256 * le_val l) / 256) with (le_val l); [done|].
    rewrite Z.mul_comm, Z.div_add by lia. rewrite Z.div_small; lia.
Qed.

Lemma le_val_inj a b : length a = length b -> le_val a = le_val b -> a = b.
Proof. intros Hl Hv. rewrite <- (le_bytes_le_val a), <- (le_bytes_le_val b), Hl, Hv. done. Qed.

Lemma le_val_app a b : le_val (a ++ b) = le_val a + 256 ^ Zlen a * le_val b.
Proof.
  induction a as [|x a IH]; [change (Zlen (@nil byte)) with 0; cbn [app le_val]; lia|].
  cbn [app le_val]. rewrite IH, Zlen_cons, Z.pow_add_r by (pose proof (Zlen_nonneg a); lia). lia.
Qed.

Lemma le_val_le16 z : 0 <= z < U16 -> le_val (le16 z) = z.
Proof. intros. unfold le16. rewrite le_val_le_bytes. by rewrite Z.mod_small. Qed.
Lemma le_val_le32 z : 0 <= z < U32 -> le_val (le32 z) = z.
Proof. intros. unfold le32. rewrite le_val_le_bytes. by rewrite Z.mod_small. Qed.
Lemma le_val_le64 z : 0 <= z < U64 -> le_val (le64 z) = z.
Proof. intros. unfold le64. rewrite le_val_le_bytes. by rewrite Z.mod_small. Qed.
Lemma be_val_be64 z : 0 <= z < U64 -> be_val (be64 z) = z.
Proof. intros. unfold be_val, be64. rewrite reverse_involutive. by apply le_val_le64. Qed.

(** [rd_u16], [rd_u32], [rd_u64] of [flatindex.rs]: bounds-checked reads. *)
Definition rd_u16 (b : bytes) (at_ : Z) : option Z := le_val <$> get_range b at_ (at_ + 2).
Definition rd_u32 (b : bytes) (at_ : Z) : option Z := le_val <$> get_range b at_ (at_ + 4).
Definition rd_u64 (b : bytes) (at_ : Z) : option Z := le_val <$> get_range b at_ (at_ + 8).

Lemma rd_range (k : Z) b at_ v : 0 <= k ->
  le_val <$> get_range b at_ (at_ + k) = Some v -> 0 <= v < 256 ^ k.
Proof.
  intros Hk H. apply fmap_Some in H as (r & Hr & ->). pose proof (le_val_range r).
  apply get_range_len in Hr. by replace k with (Zlen r) by lia.
Qed.
Lemma rd_u16_range b at_ v : rd_u16 b at_ = Some v -> 0 <= v < U16.
Proof. intros H. by apply (rd_range 2) in H. Qed.
Lemma rd_u32_range b at_ v : rd_u32 b at_ = Some v -> 0 <= v < U32.
Proof. intros H. by apply (rd_range 4) in H. Qed.
Lemma rd_u64_range b at_ v : rd_u64 b at_ = Some v -> 0 <= v < U64.
Proof. intros H. by apply (rd_range 8) in H. Qed.

Lemma rd_u16_app a v c at_ : at_ = Zlen a -> 0 <= v < U16 -> rd_u16 (a ++ le16 v ++ c) at_ = Some v.
Proof.
  intros -> ?. unfold rd_u16. rewrite (get_range_app a (le16 v) c) by (zlen; done).
  by rewrite <- (le_val_le16 v) at 2.
Qed.
Lemma rd_u32_app a v c at_ : at_ = Zlen a -> 0 <= v < U32 -> rd_u32 (a ++ le32 v ++ c) at_ = Some v.
Proof.
  intros -> ?. unfold rd_u32. rewrite (get_range_app a (le32 v) c) by (zlen; done).
  by rewrite <- (le_val_le32 v) at 2.
Qed.
(** A word read is the bytes it was read from. *)
Lemma rd_u64_bytes b at_ v : rd_u64 b at_ = Some v -> get_range b at_ (at_ + 8) = Some (le64 v).
Proof.
  unfold rd_u64. destruct (get_range b at_ (at_ + 8)) as [r|] eqn:E; [|done]. intros [= <-]. pose proof (get_range_len _ _ _ _ E) as Hl.
  unfold le64. rewrite <- (le_bytes_le_val r) at 1. do 2 f_equal. unfold Zlen in Hl. lia.
Qed.

Lemma rd_u64_app a v c at_ : at_ = Zlen a -> 0 <= v < U64 -> rd_u64 (a ++ le64 v ++ c) at_ = Some v.
Proof.
  intros -> ?. unfold rd_u64. rewrite (get_range_app a (le64 v) c) by (zlen; done).
  by rewrite <- (le_val_le64 v) at 2.
Qed.

(** ** The order of keys: [<[u8] as Ord>::cmp], lexicographic on bytes *)

Fixpoint bcmp (a b : bytes) : comparison :=
  match a, b with
  | [], [] => Eq
  | [], _ :: _ => Lt
  | _ :: _, [] => Gt
  | x :: a, y :: b =>
      match b2z x ?= b2z y with Eq => bcmp a b | c => c end
  end.

Definition blt (a b : bytes) : Prop := bcmp a b = Lt.
Definition ble (a b : bytes) : Prop := bcmp a b <> Gt.
Definition bltb (a b : bytes) : bool := match bcmp a b with Lt => true | _ => false end.
Definition bleb (a b : bytes) : bool := match bcmp a b with Gt => false | _ => true end.
Fixpoint beqb (a b : bytes) : bool :=
  match a, b with
  | [], [] => true
  | x :: a, y :: b => byte_eqb x y && beqb a b
  | _, _ => false
  end.

Lemma beqb_eq a b : beqb a b = true <-> a = b.
Proof.
  revert b. induction a as [|x a IH]; destruct b; simpl; try (split; congruence).
  rewrite andb_true_iff, byte_eqb_eq, IH. naive_solver.
Qed.

Lemma beqb_refl a : beqb a a = true.
Proof. by apply beqb_eq. Qed.

Lemma beqb_spec a b : reflect (a = b) (beqb a b).
Proof. apply iff_reflect. symmetry. apply beqb_eq. Qed.

Lemma bcmp_eq a b : bcmp a b = Eq <-> a = b.
Proof.
  revert b. induction a as [|x a IH]; destruct b as [|y b]; simpl; try (split; congruence).
  destruct (Z.compare_spec (b2z x) (b2z y)) as [E|E|E].
  - apply b2z_inj in E as ->. rewrite IH. naive_solver.
  - split; [done|]. intros [= -> ->]. lia.
  - split; [done|]. intros [= -> ->]. lia.
Qed.

Lemma bcmp_refl a : bcmp a a = Eq.
Proof. by apply bcmp_eq. Qed.

Lemma bcmp_antisym a b : bcmp b a = CompOpp (bcmp a b).
Proof.
  revert b. induction a as [|x a IH]; destruct b as [|y b]; simpl; auto.
  rewrite Z.compare_antisym. destruct (b2z x ?= b2z y); simpl; auto.
Qed.

Lemma blt_trans a b c : blt a b -> blt b c -> blt a c.
Proof.
  unfold blt. revert b c. induction a as [|x a IH]; destruct b as [|y b], c as [|z c]; simpl; try done.
  destruct (Z.compare_spec (b2z x) (b2z y)), (Z.compare_spec (b2z y) (b2z z)),
    (Z.compare_spec (b2z x) (b2z z)); try lia; try done. apply IH.
Qed.

Lemma blt_irrefl a : ~ blt a a.
Proof. unfold blt. by rewrite bcmp_refl. Qed.

Lemma blt_asym a b : blt a b -> ~ blt b a.
Proof. unfold blt. rewrite (bcmp_antisym a b). by destruct (bcmp a b). Qed.

Lemma ble_not_lt a b : ble a b <-> ~ blt b a.
Proof. unfold ble, blt. rewrite (bcmp_antisym a b). destruct (bcmp a b); simpl; naive_solver. Qed.

Lemma ble_cases a b : ble a b <-> blt a b \/ a = b.
Proof. unfold ble, blt. rewrite <- bcmp_eq. destruct (bcmp a b); naive_solver. Qed.

Lemma blt_le a b : blt a b -> ble a b.
Proof. rewrite ble_cases. auto. Qed.

Lemma ble_refl a : ble a a.
Proof. unfold ble. by rewrite bcmp_refl. Qed.

Lemma blt_or_le a b : blt a b \/ ble b a.
Proof. unfold ble, blt. rewrite (bcmp_antisym a b). destruct (bcmp a b); simpl; auto. Qed.

Lemma blt_le_trans a b c : blt a b -> ble b c -> blt a c.
Proof. rewrite ble_cases. intros ? [?| ->]; eauto using blt_trans. Qed.

Lemma ble_lt_trans a b c : ble a b -> blt b c -> blt a c.
Proof. rewrite ble_cases. intros [?| ->] ?; eauto using blt_trans. Qed.

Lemma ble_trans a b c : ble a b -> ble b c -> ble a c.
Proof. rewrite !ble_cases. intros [?| ->] [?| ->]; eauto using blt_trans. Qed.

Lemma ble_antisym a b : ble a b -> ble b a -> a = b.
Proof. rewrite !ble_cases. intros [H| ->] [H'| ?]; auto. by destruct (blt_asym a b). Qed.

Lemma bltb_spec a b : reflect (blt a b) (bltb a b).
Proof. unfold bltb, blt. destruct (bcmp a b); by constructor. Qed.

Lemma bleb_spec a b : reflect (ble a b) (bleb a b).
Proof. unfold bleb, ble. destruct (bcmp a b); constructor; congruence. Qed.

Lemma blt_nil a : ~ blt a [].
Proof. by destruct a. Qed.

Lemma ble_nil a : ble [] a.
Proof. by destruct a. Qed.

#[export] Instance bytes_lt_dec a b : Decision (blt a b).
Proof. unfold blt. apply _. Defined.

Create HintDb border.
#[export] Hint Resolve blt_trans blt_le ble_refl blt_le_trans ble_lt_trans ble_trans ble_nil : border.

(** ** Bit operations *)

Lemma land_disjoint a b s : 0 <= s -> 0 <= a < 2 ^ s -> Z.land a (Z.shiftl b s) = 0.
Proof.
  intros Hs Ha. apply Z.bits_inj'. intros n Hn. rewrite Z.land_spec, Z.bits_0.
  destruct (Z.lt_ge_cases n s).
  - rewrite Z.shiftl_spec_low by lia. apply andb_false_r.
  - rewrite (proj1 (Z.bounded_iff_bits_nonneg s a Hs ltac:(lia)) ltac:(lia) n ltac:(lia)). done.
Qed.

(** Two numbers that share no bit: [|] and [^] are [+]. *)
Lemma lor_disjoint_add a b s : 0 <= s -> 0 <= a < 2 ^ s -> Z.lor a (Z.shiftl b s) = a + b * 2 ^ s.
Proof.
  intros Hs Ha. rewrite <- (Z.shiftl_mul_pow2 b s) by lia.
  pose proof (Z.add_lor_land a (Z.shiftl b s)). pose proof (land_disjoint a b s Hs Ha). lia.
Qed.

Lemma lxor_disjoint_add a b s : 0 <= s -> 0 <= a < 2 ^ s -> Z.lxor a (Z.shiftl b s) = a + b * 2 ^ s.
Proof.
  intros Hs Ha. rewrite <- (Z.shiftl_mul_pow2 b s) by lia.
  symmetry. by apply Z.add_nocarry_lxor, land_disjoint.
Qed.

Lemma land_ones_mod a n : 0 <= n -> Z.land a (2 ^ n - 1) = a mod 2 ^ n.
Proof. intros. rewrite <- Z.land_ones by lia. by rewrite Z.ones_equiv, Z.sub_1_r. Qed.

Lemma lor_range a b n : 0 <= n -> 0 <= a < 2 ^ n -> 0 <= b < 2 ^ n -> 0 <= Z.lor a b < 2 ^ n.
Proof.
  intros Hn Ha Hb. apply Z.bounded_iff_bits_nonneg'; [lia | apply Z.lor_nonneg; lia |].
  intros l Hl. rewrite Z.lor_spec.
  rewrite (proj1 (Z.bounded_iff_bits_nonneg n a Hn ltac:(lia)) ltac:(lia) l Hl).
  by rewrite (proj1 (Z.bounded_iff_bits_nonneg n b Hn ltac:(lia)) ltac:(lia) l Hl).
Qed.

Lemma lxor_range a b n : 0 <= n -> 0 <= a < 2 ^ n -> 0 <= b < 2 ^ n -> 0 <= Z.lxor a b < 2 ^ n.
Proof.
  intros Hn Ha Hb. apply Z.bounded_iff_bits_nonneg'; [lia | apply Z.lxor_nonneg; lia |].
  intros l Hl. rewrite Z.lxor_spec.
  rewrite (proj1 (Z.bounded_iff_bits_nonneg n a Hn ltac:(lia)) ltac:(lia) l Hl).
  by rewrite (proj1 (Z.bounded_iff_bits_nonneg n b Hn ltac:(lia)) ltac:(lia) l Hl).
Qed.

Lemma land_range a b n : 0 <= n -> 0 <= a < 2 ^ n -> 0 <= b -> 0 <= Z.land a b < 2 ^ n.
Proof.
  intros Hn Ha Hb. apply Z.bounded_iff_bits_nonneg'; [lia | apply Z.land_nonneg; lia |].
  intros l Hl. rewrite Z.land_spec.
  by rewrite (proj1 (Z.bounded_iff_bits_nonneg n a Hn ltac:(lia)) ltac:(lia) l Hl).
Qed.

Lemma shiftr_range a b n : 0 <= b -> 0 <= a < 2 ^ n -> 0 <= Z.shiftr a b < 2 ^ n.
Proof.
  intros Hb Ha. rewrite Z.shiftr_div_pow2 by lia.
  pose proof (Z.pow_pos_nonneg 2 b ltac:(lia) Hb). split.
  - apply Z.div_pos; lia.
  - apply Z.div_lt_upper_bound; [lia|]. nia.
Qed.

(** ** Fallible code

    [Result<T>] of the source, an error named by its message. *)

Inductive result (A : Type) : Type :=
| Ok (a : A)
| Err (msg : string).
Arguments Ok {A} a.
Arguments Err {A} msg.

Definition is_ok {A} (r : result A) : bool := match r with Ok _ => true | Err _ => false end.

Definition rbind {A B} (m : result A) (k : A -> result B) : result B :=
  match m with Ok a => k a | Err e => Err e end.
Definition ok_or {A} (o : option A) (msg : string) : result A :=
  match o with Some a => Ok a | None => Err msg end.

Declare Scope result_scope.
Delimit Scope result_scope with res.
Notation "'let*' p := m 'in' k" := (rbind m (fun x => match x with p => k end))
  (at level 200, p strict pattern, m at level 100, k at level 200,
   format "'[' 'let*'  p  :=  m  'in' ']' '//' k") : result_scope.
#[global] Open Scope result_scope.

(** [if c { return Err(msg) }], then the rest. *)
Definition guard_err {A} (c : bool) (msg : string) (k : result A) : result A :=
  if c then Err msg else k.

(** ** [chunks_exact] *)

Fixpoint chunks_exact_go {A} (fuel w : nat) (l : list A) : list (list A) :=
  match fuel with
  | O => []
  | S fuel => if decide (w <= length l)%nat then take w l :: chunks_exact_go fuel w (drop w l) else []
  end.

(** [l.chunks_exact(w)], for a positive width: what is left over is dropped. *)
Definition chunks_exact {A} (w : nat) (l : list A) : list (list A) := chunks_exact_go (length l) w l.

Lemma chunks_exact_go_concat {A} (w : nat) (vs : list (list A)) fuel :
  (0 < w)%nat -> Forall (fun v => length v = w) vs -> (length (concat vs) <= fuel)%nat ->
  chunks_exact_go fuel w (concat vs) = vs.
Proof.
  intros Hw Hvs. revert fuel. induction Hvs as [|v vs Hv _ IH]; intros fuel Hf.
  - destruct fuel; simpl; [done|]. rewrite decide_False; [done|]. simpl. lia.
  - simpl in *. rewrite length_app in Hf. destruct fuel; [lia|].
    cbn [chunks_exact_go]. rewrite decide_True by (rewrite length_app; lia).
    rewrite <- Hv, take_app_length, drop_app_length, Hv, IH by lia. done.
Qed.

Lemma chunks_exact_concat {A} (w : nat) (vs : list (list A)) :
  (0 < w)%nat -> Forall (fun v => length v = w) vs -> chunks_exact w (concat vs) = vs.
Proof. intros. by apply chunks_exact_go_concat. Qed.

Lemma land_pow2 c k : 0 <= k -> Z.land c (2 ^ k) = if Z.testbit c k then 2 ^ k else 0.
Proof.
  intros Hk. apply Z.bits_inj'. intros n Hn. rewrite Z.land_spec.
  destruct (decide (n = k)) as [->|Hne].
  - rewrite Z.pow2_bits_true by lia. destruct (Z.testbit c k).
    + by rewrite Z.pow2_bits_true by lia.
    + by rewrite Z.bits_0.
  - rewrite (Z.pow2_bits_false k n) by lia. rewrite andb_false_r.
    destruct (Z.testbit c k); [by rewrite Z.pow2_bits_false by lia | by rewrite Z.bits_0].
Qed.

Lemma testbit_small a n k : 0 <= n <= k -> 0 <= a < 2 ^ n -> Z.testbit a k = false.
Proof.
  intros Hk Ha. apply (proj1 (Z.bounded_iff_bits_nonneg n a ltac:(lia) ltac:(lia)) ltac:(lia)). lia.
Qed.

(** ** Loops that can stop: a fold in [option], and the loop
    [for (i, s) in srcs.iter().enumerate() { dst[base + w * i..][..w].copy_from_slice(s) }] *)

Fixpoint ofold {S A} (f : S -> A -> option S) (l : list A) (s : S) : option S :=
  match l with [] => Some s | a :: l => s' ← f s a; ofold f l s' end.

Lemma ofold_ext {S A} (f g : S -> A -> option S) l s : (forall s a, a ∈ l -> f s a = g s a) -> ofold f l s = ofold g l s.
Proof.
  revert s. induction l as [|a l IH]; intros s H; [done|]. cbn. rewrite H by left. destruct (g s a); [|done].
  apply IH. intros s' x Hx. apply H. by right.
Qed.

Lemma fold_left_ext {S A} (f g : S -> A -> S) l s : (forall s a, a ∈ l -> f s a = g s a) -> fold_left f l s = fold_left g l s.
Proof. revert s. induction l as [|a l IH]; intros s H; [done|]. cbn. rewrite H by left. apply IH. intros s' x Hx. apply H. by right. Qed.

Lemma ofold_app {S A} (f : S -> A -> option S) l1 l2 s :
  ofold f (l1 ++ l2) s = (s' ← ofold f l1 s; ofold f l2 s').
Proof. revert s. induction l1 as [|a l1 IH]; intros s; [done|]. simpl. by destruct (f s a); simpl. Qed.

Fixpoint put_each {A} (dst : list A) (base w : Z) (srcs : list (list A)) : option (list A) :=
  match srcs with
  | [] => Some dst
  | s :: srcs => dst ← put_range dst base s; put_each dst (base + w) w srcs
  end.

Lemma Zlen_concat {A} (w : Z) (vs : list (list A)) : Forall (fun v => Zlen v = w) vs -> Zlen (concat vs) = w * Zlen vs.
Proof. induction 1 as [|v vs Hv _ IH]; [unfold Zlen; simpl; lia|]. cbn in *. rewrite Zlen_app, Zlen_cons. lia. Qed.

Lemma Zlen_split {A} (l : list A) (n : Z) : 0 <= n <= Zlen l -> exists a b, l = a ++ b /\ Zlen a = n.
Proof.
  intros H. exists (take (Z.to_nat n) l), (drop (Z.to_nat n) l). rewrite take_drop. split; [done|]. zlen.
Qed.

(** Consecutive writes replace the region they cover with what was
    written. *)
Lemma put_each_app {A} (a b c : list A) base w srcs :
  base = Zlen a -> Forall (fun v => Zlen v = w) srcs -> Zlen b = w * Zlen srcs ->
  put_each (a ++ b ++ c) base w srcs = Some (a ++ concat srcs ++ c).
Proof.
  intros Hbase Hs. revert a b base Hbase. induction Hs as [|s srcs Hs _ IH]; intros a b base -> Hb; simpl.
  - rewrite Zlen_nil in Hb. by rewrite (Zlen_zero_nil b) by lia.
  - cbn in Hs. rewrite Zlen_cons in Hb. pose proof (Zlen_nonneg srcs). pose proof (Zlen_nonneg s).
    assert (0 <= w * Zlen srcs) by (apply Z.mul_nonneg_nonneg; lia).
    destruct (Zlen_split b (Zlen s)) as (b1 & b2 & -> & Hb1); [lia|].
    rewrite <- app_assoc, (put_range_app a b1 (b2 ++ c) s) by done. cbn [option_bind mbind].
    rewrite (app_assoc a s), (IH (a ++ s) b2); [by rewrite <- !app_assoc|zlen|].
    rewrite Zlen_app in Hb. lia.
Qed.

Lemma put_range_Some {A} (dst : list A) at_ src r : put_range dst at_ src = Some r <->
  exists a b c, dst = a ++ b ++ c /\ r = a ++ src ++ c /\ at_ = Zlen a /\ Zlen b = Zlen src.
Proof.
  split.
  - unfold put_range. destruct (Z.leb_spec 0 at_), (Z.leb_spec (at_ + Zlen src) (Zlen dst)); try done. simpl.
    intros [= <-]. pose proof (Zlen_nonneg src).
    destruct (Zlen_split dst at_) as (a & b & -> & Ha); [lia|].
    rewrite Zlen_app in *. destruct (Zlen_split b (Zlen src)) as (b1 & c & -> & Hb); [lia|].
    exists a, b1, c. split; [done|]. rewrite <- Ha, Zlen_to_nat, take_app_length. split; [|done].
    f_equal. f_equal. rewrite <- Hb, app_assoc. replace (Z.to_nat (Zlen a + Zlen b1)) with (length (a ++ b1))
      by (rewrite length_app; unfold Zlen; lia). by rewrite drop_app_length.
  - intros (a & b & c & -> & -> & -> & H). by apply put_range_app.
Qed.

Lemma put_range_here {A} (b c s : list A) : Zlen s = Zlen b -> put_range (b ++ c) 0 s = Some (s ++ c).
Proof. apply (put_range_app [] b c). done. Qed.

Lemma put_range_app_l {A} (a b s : list A) at_ r : put_range a at_ s = Some r -> put_range (a ++ b) at_ s = Some (r ++ b).
Proof.
  intros (x & y & z & -> & -> & -> & H)%put_range_Some. rewrite <- !app_assoc. by apply put_range_app.
Qed.

Lemma put_range_len {A} (dst : list A) at_ src r : put_range dst at_ src = Some r -> Zlen r = Zlen dst.
Proof. intros (a & b & c & -> & -> & -> & H)%put_range_Some. rewrite !Zlen_app. lia. Qed.

Lemma put_range_is_Some {A} (dst : list A) at_ src : 0 <= at_ -> at_ + Zlen src <= Zlen dst ->
  is_Some (put_range dst at_ src).
Proof.
  intros. unfold put_range. rewrite (proj2 (Z.leb_le 0 at_)), (proj2 (Z.leb_le (at_ + _) _)) by lia. by eexists.
Qed.

Lemma put_range_get {A} (dst : list A) at_ src r i : put_range dst at_ src = Some r ->
  get_at r i = if decide (at_ <= i < at_ + Zlen src) then get_at src (i - at_) else get_at dst i.
Proof.
  intros (a & b & c & -> & -> & -> & H)%put_range_Some. unfold get_at. rewrite !Zlen_app.
  pose proof (Zlen_nonneg a). pose proof (Zlen_nonneg b). pose proof (Zlen_nonneg c).
  destruct (Z.leb_spec 0 i); cbn [andb]; [|rewrite decide_False by lia; done].
  case_decide as Hd.
  - rewrite (proj2 (Z.ltb_lt _ _)), (proj2 (Z.leb_le _ _)), (proj2 (Z.ltb_lt (i - Zlen a) _)) by lia. simpl.
    rewrite lookup_app_r by (unfold Zlen in *; lia). rewrite lookup_app_l by (unfold Zlen in *; lia).
    f_equal. unfold Zlen. lia.
  - rewrite H. case_match; [|done]. destruct (decide (i < Zlen a)).
    + by rewrite !lookup_app_l by (unfold Zlen in *; lia).
    + rewrite !lookup_app_r by (unfold Zlen in *; lia). f_equal. unfold Zlen in *. lia.
Qed.

Lemma get_range_get {A} (l : list A) lo hi r i : get_range l lo hi = Some r -> 0 <= i < hi - lo ->
  get_at r i = get_at l (lo + i).
Proof.
  intros (x & y & -> & -> & ->)%get_range_split Hi. unfold get_at. rewrite !Zlen_app.
  pose proof (Zlen_nonneg x). pose proof (Zlen_nonneg y).
  rewrite (proj2 (Z.leb_le 0 _)), (proj2 (Z.leb_le 0 _)), !(proj2 (Z.ltb_lt _ _)) by lia. simpl.
  rewrite lookup_app_r by (unfold Zlen in *; lia). rewrite lookup_app_l by (unfold Zlen in *; lia).
  f_equal. unfold Zlen. lia.
Qed.

Lemma get_range_is_Some {A} (l : list A) lo hi : 0 <= lo <= hi -> hi <= Zlen l -> exists r, get_range l lo hi = Some r.
Proof. intros. eexists. by apply get_range_Some. Qed.

(** Two lists that agree at every index are the same. *)
Lemma get_at_ext {A} (a b : list A) : Zlen a = Zlen b -> (forall i, 0 <= i < Zlen a -> get_at a i = get_at b i) -> a = b.
Proof.
  intros Hl H. apply list_eq. intros i. destruct (decide (i < length a)%nat) as [Hi|Hi].
  - specialize (H (Z.of_nat i) ltac:(unfold Zlen; lia)). unfold get_at in H.
    rewrite (proj2 (Z.leb_le 0 _)), !(proj2 (Z.ltb_lt _ _)) in H by (unfold Zlen in *; lia).
    cbn [andb] in H. by rewrite Nat2Z.id in H.
  - rewrite !lookup_ge_None_2; [done|unfold Zlen in *; lia|lia].
Qed.

(** ** Tables: fixed-width entries back to back, and offsets of parts *)

Lemma concat_get_range {A} (a c : list A) vs i v :
  get_at vs i = Some v ->
  get_range (a ++ concat vs ++ c) (Zlen a + Zlen (concat (take (Z.to_nat i) vs)))
    (Zlen a + Zlen (concat (take (Z.to_nat i) vs)) + Zlen v) = Some v.
Proof.
  intros [Hi Hv]%get_at_Some. apply take_drop_middle in Hv. rewrite <- Hv at 1.
  rewrite concat_app. cbn [concat]. rewrite <- !app_assoc, (app_assoc a).
  apply get_range_app; rewrite Zlen_app; lia.
Qed.

Lemma Zlen_concat_take {A} (w : Z) (vs : list (list A)) i : Forall (fun v => Zlen v = w) vs -> 0 <= i <= Zlen vs ->
  Zlen (concat (take (Z.to_nat i) vs)) = w * i.
Proof. intros H Hi. rewrite (Zlen_concat w) by by apply Forall_take. rewrite Zlen_take. f_equal. lia. Qed.

Lemma get_at_lt {A} (l : list A) i x : get_at l i = Some x -> 0 <= i < Zlen l.
Proof. intros H. pose proof (get_at_None l i). destruct (decide (0 <= i < Zlen l)); [done|]. naive_solver lia. Qed.

Lemma get_range_table {A} (w : Z) (a c : list A) vs i v at_ :
  Forall (fun v => Zlen v = w) vs -> get_at vs i = Some v -> at_ = Zlen a + w * i ->
  get_range (a ++ concat vs ++ c) at_ (at_ + w) = Some v.
Proof.
  intros Hf Hv ->. pose proof (concat_get_range a c vs i v Hv) as H. pose proof (get_at_lt _ _ _ Hv).
  rewrite (Zlen_concat_take w) in H by (done || lia).
  replace (Zlen v) with w in H; [done|]. apply get_at_Some in Hv as [_ Hv].
  rewrite Forall_lookup in Hf. symmetry. by eapply Hf.
Qed.

Lemma get_at_map {A B} (f : A -> B) l i : get_at (map f l) i = f <$> get_at l i.
Proof.
  unfold get_at. rewrite Zlen_map. destruct (_ && _); [|done]. apply list_lookup_fmap.
Qed.

Lemma rd_u32_table a c ws i w at_ :
  get_at ws i = Some w -> 0 <= w < U32 -> at_ = Zlen a + 4 * i ->
  rd_u32 (a ++ concat (map le32 ws) ++ c) at_ = Some w.
Proof.
  intros Hw Hr Hat. unfold rd_u32. rewrite (get_range_table 4 a c _ i (le32 w)); try done.
  - cbn. f_equal. by apply le_val_le32.
  - apply Forall_forall. intros x (y & -> & _)%list_elem_of_fmap. apply Zlen_le32.
  - by rewrite get_at_map, Hw.
Qed.

Lemma Zlen_concat_le32 ws : Zlen (concat (map le32 ws)) = 4 * Zlen ws.
Proof.
  rewrite (Zlen_concat 4), Zlen_map; [done|].
  apply Forall_forall. intros x (y & -> & _)%list_elem_of_fmap. apply Zlen_le32.
Qed.
#[export] Hint Rewrite Zlen_concat_le32 : zlen.

Lemma rd_u64_table a c ws i w at_ :
  get_at ws i = Some w -> 0 <= w < U64 -> at_ = Zlen a + 8 * i ->
  rd_u64 (a ++ concat (map le64 ws) ++ c) at_ = Some w.
Proof.
  intros Hw Hr Hat. unfold rd_u64. rewrite (get_range_table 8 a c _ i (le64 w)); try done.
  - cbn. f_equal. by apply le_val_le64.
  - apply Forall_forall. intros x (y & -> & _)%list_elem_of_fmap. apply Zlen_le64.
  - by rewrite get_at_map, Hw.
Qed.

Lemma Zlen_concat_le64 ws : Zlen (concat (map le64 ws)) = 8 * Zlen ws.
Proof.
  rewrite (Zlen_concat 8), Zlen_map; [done|].
  apply Forall_forall. intros x (y & -> & _)%list_elem_of_fmap. apply Zlen_le64.
Qed.
#[export] Hint Rewrite Zlen_concat_le64 : zlen.

Lemma Zlen_seqZ m n : 0 <= n -> Zlen (seqZ m n) = n.
Proof. intros. unfold Zlen. rewrite length_seqZ. lia. Qed.

Lemma get_at_seqZ m n i : 0 <= i < n -> get_at (seqZ m n) i = Some (m + i).
Proof. intros. apply get_at_Some. split; [lia|]. apply lookup_seqZ. lia. Qed.

Lemma rd_u32_is_Some b at_ : 0 <= at_ -> at_ + 4 <= Zlen b -> exists v, rd_u32 b at_ = Some v.
Proof.
  intros. destruct (get_range_is_Some b at_ (at_ + 4)) as [r Hr]; [lia..|].
  exists (le_val r). unfold rd_u32. by rewrite Hr.
Qed.

Lemma rd_u32_sub l lo hi r j v : get_range l lo hi = Some r -> rd_u32 r j = Some v -> rd_u32 l (lo + j) = Some v.
Proof.
  intros Hr H. unfold rd_u32 in *. apply fmap_Some in H as (w & Hw & ->).
  rewrite <- Z.add_assoc. by rewrite (get_range_sub _ _ _ _ _ _ _ Hr Hw).
Qed.

(** ** Reading the fields of a layout

    A read past the first part of a concatenation is a read of the rest;
    [layout] walks a read to the part it lands on. *)

Lemma get_range_skip {A} (x l : list A) lo hi : Zlen x <= lo ->
  get_range (x ++ l) lo hi = get_range l (lo - Zlen x) (hi - Zlen x).
Proof.
  intros H. pose proof (Zlen_nonneg x). unfold get_range. rewrite Zlen_app.
  destruct (Z.leb_spec lo hi), (Z.leb_spec (lo - Zlen x) (hi - Zlen x)); try lia; [|by rewrite !andb_false_r].
  destruct (Z.leb_spec hi (Zlen x + Zlen l)), (Z.leb_spec (hi - Zlen x) (Zlen l)); try lia; [|by rewrite !andb_false_r].
  rewrite !(proj2 (Z.leb_le 0 _)) by lia. cbn [andb]. f_equal. f_equal; [f_equal; lia|].
  rewrite drop_app_ge by (unfold Zlen in *; lia). f_equal. unfold Zlen in *. lia.
Qed.

Lemma get_range_here {A} (x l : list A) lo hi : lo = 0 -> hi = Zlen x -> get_range (x ++ l) lo hi = Some x.
Proof. intros -> ->. apply (get_range_app [] x l); done. Qed.

Lemma get_range_end {A} (x : list A) lo hi : lo = 0 -> hi = Zlen x -> get_range x lo hi = Some x.
Proof. intros -> ->. apply get_range_all. Qed.

Lemma get_at_skip {A} (x l : list A) i : Zlen x <= i -> get_at (x ++ l) i = get_at l (i - Zlen x).
Proof.
  intros H. pose proof (Zlen_nonneg x). unfold get_at. rewrite Zlen_app.
  rewrite !(proj2 (Z.leb_le 0 _)) by lia. cbn [andb].
  destruct (Z.ltb_spec i (Zlen x + Zlen l)), (Z.ltb_spec (i - Zlen x) (Zlen l)); try lia; [|done].
  rewrite lookup_app_r by (unfold Zlen in *; lia). f_equal. unfold Zlen in *. lia.
Qed.

Lemma get_at_here {A} (x : A) l i : i = 0 -> get_at (x :: l) i = Some x.
Proof. intros ->. by apply (get_at_app_mid [] x l). Qed.

Lemma get_at_keep {A} (a b : list A) i : i < Zlen a -> get_at (a ++ b) i = get_at a i.
Proof.
  intros Hi. destruct (Z.lt_ge_cases i 0).
  - rewrite (proj2 (get_at_None _ _)) by lia. symmetry. apply get_at_None. lia.
  - destruct (get_at_is_Some a i ltac:(lia)) as [x Hx]. rewrite Hx. apply get_at_Some in Hx as [? Hx].
    apply get_at_Some. split; [done|]. by apply lookup_app_l_Some.
Qed.

Lemma get_at_cons {A} (x : A) l i : 1 <= i -> get_at (x :: l) i = get_at l (i - 1).
Proof. intros H. change (x :: l) with ([x] ++ l). rewrite get_at_skip by (unfold Zlen; cbn; lia). done. Qed.

Lemma get_at_here_app {A} (x : A) l i : i = 0 -> get_at ([x] ++ l) i = Some x.
Proof. apply get_at_here. Qed.

Lemma get_from_skip {A} (x l : list A) lo : Zlen x <= lo -> get_from (x ++ l) lo = get_from l (lo - Zlen x).
Proof.
  intros H. pose proof (Zlen_nonneg x). unfold get_from. rewrite Zlen_app.
  rewrite !(proj2 (Z.leb_le 0 _)) by lia. cbn [andb].
  destruct (Z.leb_spec lo (Zlen x + Zlen l)), (Z.leb_spec (lo - Zlen x) (Zlen l)); try lia; [|done].
  f_equal. rewrite drop_app_ge by (unfold Zlen in *; lia). f_equal. unfold Zlen in *. lia.
Qed.

Lemma get_from_here {A} (l : list A) lo : lo = 0 -> get_from l lo = Some l.
Proof. intros ->. by apply (get_from_app [] l). Qed.

Lemma rd_u16_skip x l i : Zlen x <= i -> rd_u16 (x ++ l) i = rd_u16 l (i - Zlen x).
Proof. intros. unfold rd_u16. rewrite get_range_skip by done. by replace (i + 2 - Zlen x) with (i - Zlen x + 2) by lia. Qed.
Lemma get_range_keep {A} (a b : list A) lo hi : hi <= Zlen a -> get_range (a ++ b) lo hi = get_range a lo hi.
Proof.
  intros Hhi. destruct (get_range a lo hi) as [r|] eqn:E; [by apply get_range_app_l|].
  unfold get_range in *. rewrite Zlen_app. pose proof (Zlen_nonneg b).
  destruct (Z.leb_spec 0 lo), (Z.leb_spec lo hi); cbn [andb] in *; try done.
  rewrite (proj2 (Z.leb_le hi (Zlen a))) in E by lia. done.
Qed.
Lemma get_range_join {A} (l : list A) a b c x y : get_range l a b = Some x -> get_range l b c = Some y -> get_range l a c = Some (x ++ y).
Proof.
  intros (p & q & -> & -> & ->)%get_range_split Hy. pose proof (Zlen_nonneg x). rewrite get_range_skip, get_range_skip in Hy by lia.
  replace (Zlen p + Zlen x - Zlen p - Zlen x) with 0 in Hy by lia. apply get_range_split in Hy as (u & q' & -> & Hu & Hc).
  apply symmetry, Zlen_zero_nil in Hu as ->. cbn [app] in *. rewrite (app_assoc x y q'). apply get_range_app; [done|]. rewrite Zlen_app. znil. lia.
Qed.
Lemma rd_u32_keep a b i : i + 4 <= Zlen a -> rd_u32 (a ++ b) i = rd_u32 a i.
Proof. intros H. unfold rd_u32. by rewrite get_range_keep. Qed.
Lemma rd_u64_keep a b i : i + 8 <= Zlen a -> rd_u64 (a ++ b) i = rd_u64 a i.
Proof. intros H. unfold rd_u64. by rewrite get_range_keep. Qed.
Lemma rd_u32_skip x l i : Zlen x <= i -> rd_u32 (x ++ l) i = rd_u32 l (i - Zlen x).
Proof. intros. unfold rd_u32. rewrite get_range_skip by done. by replace (i + 4 - Zlen x) with (i - Zlen x + 4) by lia. Qed.
Lemma rd_u64_skip x l i : Zlen x <= i -> rd_u64 (x ++ l) i = rd_u64 l (i - Zlen x).
Proof. intros. unfold rd_u64. rewrite get_range_skip by done. by replace (i + 8 - Zlen x) with (i - Zlen x + 8) by lia. Qed.

Lemma rd_u16_here v l i : i = 0 -> 0 <= v < U16 -> rd_u16 (le16 v ++ l) i = Some v.
Proof. intros -> ?. by apply (rd_u16_app [] v l). Qed.
Lemma rd_u32_here v l i : i = 0 -> 0 <= v < U32 -> rd_u32 (le32 v ++ l) i = Some v.
Proof. intros -> ?. by apply (rd_u32_app [] v l). Qed.
Lemma rd_u64_here v l i : i = 0 -> 0 <= v < U64 -> rd_u64 (le64 v ++ l) i = Some v.
Proof. intros -> ?. by apply (rd_u64_app [] v l). Qed.
Lemma rd_u16_end v i : i = 0 -> 0 <= v < U16 -> rd_u16 (le16 v) i = Some v.
Proof. intros. rewrite <- (app_nil_r (le16 v)). by apply rd_u16_here. Qed.
Lemma rd_u32_end v i : i = 0 -> 0 <= v < U32 -> rd_u32 (le32 v) i = Some v.
Proof. intros. rewrite <- (app_nil_r (le32 v)). by apply rd_u32_here. Qed.
Lemma rd_u64_end v i : i = 0 -> 0 <= v < U64 -> rd_u64 (le64 v) i = Some v.
Proof. intros. rewrite <- (app_nil_r (le64 v)). by apply rd_u64_here. Qed.

(** Lengths in a side condition. *)
Ltac zlia := autorewrite with zlen; lia.

(** [layout side]: [side] closes the bounds of the values read. *)
Ltac layout side :=
  repeat first
    [ rewrite rd_u16_here by (zlia || side) | rewrite rd_u32_here by (zlia || side)
    | rewrite rd_u64_here by (zlia || side)
    | rewrite rd_u16_end by (zlia || side) | rewrite rd_u32_end by (zlia || side)
    | rewrite rd_u64_end by (zlia || side)
    | rewrite get_at_here_app by zlia
    | rewrite rd_u16_skip by zlia | rewrite rd_u32_skip by zlia | rewrite rd_u64_skip by zlia
    | rewrite get_at_skip by zlia ];
  cbn [option_bind mbind].

Fixpoint enumerate {A} (i : Z) (l : list A) : list (Z * A) :=
  match l with [] => [] | x :: l => (i, x) :: enumerate (i + 1) l end.

(** A write past the first part of a concatenation is a write in the rest;
    [puts] walks a write to the part it lands on. *)
Lemma put_range_skip {A} (x l s : list A) at_ : Zlen x <= at_ ->
  put_range (x ++ l) at_ s = app x <$> put_range l (at_ - Zlen x) s.
Proof.
  intros H. pose proof (Zlen_nonneg x). unfold put_range. rewrite Zlen_app.
  rewrite !(proj2 (Z.leb_le 0 _)) by lia. cbn [andb].
  destruct (Z.leb_spec (at_ + Zlen s) (Zlen x + Zlen l)), (Z.leb_spec (at_ - Zlen x + Zlen s) (Zlen l)); try lia; [|done].
  pose proof (Zlen_nonneg s). cbn. f_equal. rewrite take_app_ge, drop_app_ge by (unfold Zlen in *; lia).
  rewrite <- app_assoc. f_equal. f_equal; [f_equal; unfold Zlen in *; lia|].
  f_equal. f_equal. unfold Zlen in *. lia.
Qed.

Lemma put_range_here' {A} (b c s : list A) at_ : at_ = 0 -> Zlen s = Zlen b -> put_range (b ++ c) at_ s = Some (s ++ c).
Proof. intros ->. apply put_range_here. Qed.

Lemma put_range_end {A} (b s : list A) at_ : at_ = 0 -> Zlen s = Zlen b -> put_range b at_ s = Some s.
Proof. intros -> H. pose proof (put_range_here b [] s H) as Hp. by rewrite !app_nil_r in Hp. Qed.

Ltac puts :=
  repeat rewrite put_range_skip by zlia;
  first [ rewrite put_range_here' by zlia | rewrite put_range_end by zlia ];
  cbn [fmap option_fmap option_map option_bind mbind].

(** The checked sums and products at the head of the goal do not
    overflow. *)
Ltac checked side :=
  repeat (match goal with
    | |- mbind _ (cmul ?a ?b) = _ =>
        let H := fresh in assert (cmul a b = Some (a * b)) as H by (apply cmul_Some; split; [reflexivity|side]);
        rewrite H; clear H
    | |- mbind _ (cadd ?a ?b) = _ =>
        let H := fresh in assert (cadd a b = Some (a + b)) as H by (apply cadd_Some; split; [reflexivity|side]);
        rewrite H; clear H
    end; cbn [option_bind mbind]).

(** ** Binary search

    [while lo < hi { mid = lo + (hi - lo) / 2; if less(mid) { lo = mid + 1 }
    else { hi = mid } }]: every turn narrows the range. *)
Fixpoint bsearch_go (fuel : nat) (less : Z -> bool) (lo hi : Z) : Z :=
  match fuel with
  | O => lo
  | S fuel =>
      if lo <? hi then
        let mid := lo + (hi - lo) / 2 in
        if less mid then bsearch_go fuel less (mid + 1) hi else bsearch_go fuel less lo mid
      else lo
  end.

Definition bsearch (less : Z -> bool) (lo hi : Z) : Z := bsearch_go (Z.to_nat (hi - lo)) less lo hi.

Lemma bsearch_go_range fuel less lo hi : lo <= hi -> lo <= bsearch_go fuel less lo hi <= hi.
Proof.
  revert lo hi. induction fuel as [|fuel IH]; intros lo hi H; cbn [bsearch_go]; [lia|].
  destruct (Z.ltb_spec lo hi); [|lia]. pose proof (Z.div_pos (hi - lo) 2 ltac:(lia) ltac:(lia)).
  assert ((hi - lo) / 2 < hi - lo) by (apply Z.div_lt_upper_bound; lia).
  destruct (less _); [specialize (IH (lo + (hi - lo) / 2 + 1) hi)|specialize (IH lo (lo + (hi - lo) / 2))]; lia.
Qed.

Lemma bsearch_range less lo hi : lo <= hi -> lo <= bsearch less lo hi <= hi.
Proof. apply bsearch_go_range. Qed.

(** Where [less] holds up to a point and not from it, that point. *)
Lemma bsearch_go_point fuel less lo hi p : lo <= p <= hi -> hi - lo <= Z.of_nat fuel ->
  (forall i, lo <= i < p -> less i = true) -> (forall i, p <= i < hi -> less i = false) ->
  bsearch_go fuel less lo hi = p.
Proof.
  revert lo hi. induction fuel as [|fuel IH]; intros lo hi Hp Hf Ht Hn; cbn [bsearch_go]; [lia|].
  destruct (Z.ltb_spec lo hi); [|lia]. set (mid := lo + (hi - lo) / 2).
  pose proof (Z.div_pos (hi - lo) 2 ltac:(lia) ltac:(lia)).
  assert ((hi - lo) / 2 < hi - lo) by (apply Z.div_lt_upper_bound; lia).
  destruct (Z.lt_ge_cases mid p).
  - rewrite Ht by (unfold mid in *; lia). apply IH; try (unfold mid in *; lia); intros i Hi; [apply Ht|apply Hn]; unfold mid in *; lia.
  - rewrite Hn by (unfold mid in *; lia). apply IH; try (unfold mid in *; lia); intros i Hi; [apply Ht|apply Hn]; unfold mid in *; lia.
Qed.

Lemma bsearch_point less lo hi p : lo <= p <= hi ->
  (forall i, lo <= i < p -> less i = true) -> (forall i, p <= i < hi -> less i = false) -> bsearch less lo hi = p.
Proof. intros. apply bsearch_go_point; try done. lia. Qed.

(** More turns than the range is wide change nothing: the loop ended. *)
Lemma bsearch_go_fuel fuel k less lo hi : hi - lo <= Z.of_nat fuel ->
  bsearch_go (fuel + k) less lo hi = bsearch_go fuel less lo hi.
Proof.
  revert lo hi. induction fuel as [|fuel IH]; intros lo hi Hf; cbn [bsearch_go Nat.add].
  - destruct k; cbn [bsearch_go]; [done|]. by rewrite (proj2 (Z.ltb_ge _ _)) by lia.
  - destruct (Z.ltb_spec lo hi); [|done]. pose proof (Z.div_pos (hi - lo) 2 ltac:(lia) ltac:(lia)).
    assert ((hi - lo) / 2 < hi - lo) by (apply Z.div_lt_upper_bound; lia). destruct (less _); apply IH; lia.
Qed.

(** ** Keys in order *)

(** A run of keys strictly ascending. *)
Definition ascending (keys : list bytes) : Prop :=
  forall i j a b, i < j -> get_at keys i = Some a -> get_at keys j = Some b -> blt a b.

(** The first rank whose key is not less than [key], over [n] ranks that
    [key_at] reads. *)
Definition lower_bound_at (key_at : Z -> option bytes) (n : Z) (key : bytes) (r : Z) : Prop :=
  0 <= r <= n /\
  (forall i, 0 <= i < r -> exists k, key_at i = Some k /\ blt k key) /\
  (forall i, r <= i < n -> exists k, key_at i = Some k /\ ble key k).

Lemma lower_bound_unique f n key r1 r2 : lower_bound_at f n key r1 -> lower_bound_at f n key r2 -> r1 = r2.
Proof.
  intros (H1 & L1 & G1) (H2 & L2 & G2). destruct (Z.lt_trichotomy r1 r2) as [H|[H|H]]; [|done|].
  - destruct (G1 r1) as (k & Hk & Hle); [lia|]. destruct (L2 r1) as (k' & Hk' & Hlt); [lia|].
    exfalso. rewrite Hk in Hk'. injection Hk' as <-. by apply ble_not_lt in Hle.
  - destruct (G2 r2) as (k & Hk & Hle); [lia|]. destruct (L1 r2) as (k' & Hk' & Hlt); [lia|].
    exfalso. rewrite Hk in Hk'. injection Hk' as <-. by apply ble_not_lt in Hle.
Qed.

(** The comparison every search makes: a key that will not read is not
    less. *)
Definition less_than (key_at : Z -> option bytes) (key : bytes) (i : Z) : bool :=
  match key_at i with Some k => bltb k key | None => false end.

Lemma lower_bound_exists keys key : ascending keys -> exists r, lower_bound_at (get_at keys) (Zlen keys) key r.
Proof.
  induction keys as [|k keys IH] using rev_ind; intros Ha.
  - exists 0. znil. split; [lia|]. split; intros i Hi; lia.
  - destruct IH as (r & Hr & Hl & Hg).
    { intros i j a b Hij Hi Hj. apply (Ha i j a b Hij); apply get_at_Some in Hi as [? Hi], Hj as [? Hj]; apply get_at_Some;
        (split; [lia|]); by apply lookup_app_l_Some. }
    pose proof (Zlen_nonneg keys).
    assert (forall i x, get_at keys i = Some x -> get_at (keys ++ [k]) i = Some x) as Hmono.
    { intros i x [? Hx]%get_at_Some. apply get_at_Some. split; [done|]. by apply lookup_app_l_Some. }
    rewrite Zlen_app. change (Zlen [k]) with 1. destruct (decide (r = Zlen keys /\ blt k key)) as [[-> Hk]|Hno].
    + exists (Zlen keys + 1). split; [lia|]. split; [|intros; lia]. intros i Hi.
      destruct (decide (i = Zlen keys)) as [->|]; [exists k; by rewrite get_at_app_mid|].
      destruct (Hl i) as (x & Hx & ?); [lia|]. exists x. eauto.
    + exists r. split; [lia|]. split; [intros i Hi; destruct (Hl i Hi) as (x & Hx & ?); eauto|].
      intros i Hi. destruct (decide (i = Zlen keys)) as [->|].
      * exists k. split; [by apply get_at_app_mid|]. destruct (decide (r = Zlen keys)) as [->|].
        { apply ble_not_lt. naive_solver. }
        destruct (Hg r) as (x & Hx & Hle); [lia|]. apply blt_le. eapply ble_lt_trans; [exact Hle|].
        apply (Ha r (Zlen keys)); [lia|by apply Hmono|by apply get_at_app_mid].
      * destruct (Hg i) as (x & Hx & ?); [lia|]. exists x. eauto.
Qed.

(** A search of a window the answer lies in finds it. *)
Lemma bsearch_lower_bound f n key r lo hi : lower_bound_at f n key r -> 0 <= lo -> lo <= r <= hi -> hi <= n ->
  bsearch (less_than f key) lo hi = r.
Proof.
  intros (Hr & Hl & Hg) Hlo Hin Hhi. apply bsearch_point; [done| |]; intros i Hi; unfold less_than.
  - destruct (Hl i) as (k & -> & Hk); [lia|]. by destruct (bltb_spec k key).
  - destruct (Hg i) as (k & -> & Hk); [lia|]. destruct (bltb_spec k key); [|done]. by apply ble_not_lt in Hk.
Qed.

(** ** Parts laid end to end *)

(** Where each part starts, and where the last ends. *)
Fixpoint starts (at_ : Z) (keys : list bytes) : list Z :=
  match keys with [] => [at_] | k :: keys => at_ :: starts (at_ + Zlen k) keys end.

Lemma Zlen_starts a keys : Zlen (starts a keys) = Zlen keys + 1.
Proof. revert a. induction keys as [|k keys IH]; intros a; [done|]. cbn [starts]. rewrite !Zlen_cons, IH. lia. Qed.

Lemma get_at_starts a keys i : 0 <= i <= Zlen keys -> get_at (starts a keys) i = Some (a + Zlen (concat (take (Z.to_nat i) keys))).
Proof.
  revert a i. induction keys as [|k keys IH]; intros a i Hi.
  - rewrite (@Zlen_nil bytes) in Hi. replace i with 0 by lia. cbn. by rewrite Z.add_0_r.
  - rewrite Zlen_cons in Hi. cbn [starts]. destruct (decide (i = 0)) as [->|].
    + rewrite get_at_here by done. change (take (Z.to_nat 0) (k :: keys)) with (@nil bytes). cbn. by rewrite Z.add_0_r.
    + change (a :: starts (a + Zlen k) keys) with ([a] ++ starts (a + Zlen k) keys).
      rewrite get_at_skip by (change (Zlen [a]) with 1; lia). change (Zlen [a]) with 1. rewrite IH by lia.
      replace (Z.to_nat i) with (S (Z.to_nat (i - 1))) by lia. cbn [take concat]. rewrite Zlen_app. f_equal. lia.
Qed.

Lemma starts_last a keys : starts a keys = take (length keys) (starts a keys) ++ [a + Zlen (concat keys)].
Proof.
  revert a. induction keys as [|k keys IH]; intros a; cbn.
  - by rewrite Z.add_0_r.
  - f_equal. rewrite Zlen_app, Z.add_assoc. apply IH.
Qed.

(** The part between two of its starts. *)
Lemma starts_range (keys : list bytes) i k : get_at keys i = Some k ->
  get_range (concat keys) (Zlen (concat (take (Z.to_nat i) keys))) (Zlen (concat (take (Z.to_nat (i + 1)) keys))) = Some k.
Proof.
  intros Hk. pose proof (concat_get_range [] [] keys i k Hk) as Hg. rewrite !app_nil_r in Hg. cbn [app] in Hg.
  pose proof (get_at_lt _ _ _ Hk). apply get_at_Some in Hk as [_ Hk]. replace (Z.to_nat (i + 1)) with (S (Z.to_nat i)) by lia.
  rewrite (take_S_r _ _ _ Hk), concat_app. cbn [concat]. rewrite app_nil_r, Zlen_app. exact Hg.
Qed.

Lemma Zlen_concat_take_le (keys : list bytes) n : 0 <= Zlen (concat (take n keys)) <= Zlen (concat keys).
Proof.
  rewrite <- (take_drop n keys) at 3. rewrite concat_app, Zlen_app. pose proof (Zlen_nonneg (concat (drop n keys))).
  pose proof (Zlen_nonneg (concat (take n keys))). lia.
Qed.

(** ** Ranges of a buffer written to *)

Lemma get_put_same {A} (dst : list A) at_ src r : put_range dst at_ src = Some r -> get_range r at_ (at_ + Zlen src) = Some src.
Proof. intros (a & b & c & -> & -> & -> & H)%put_range_Some. by apply get_range_app. Qed.

Lemma get_put_apart {A} (dst : list A) at_ src r lo hi : put_range dst at_ src = Some r -> hi <= at_ \/ at_ + Zlen src <= lo ->
  get_range r lo hi = get_range dst lo hi.
Proof.
  intros Hp Hd. pose proof (put_range_len _ _ _ _ Hp) as Hl. unfold get_range. rewrite Hl.
  destruct ((0 <=? lo) && (lo <=? hi) && (hi <=? Zlen dst)) eqn:E; [|done]. apply andb_true_iff in E as [[E1%Z.leb_le E2%Z.leb_le]%andb_true_iff E3%Z.leb_le].
  destruct (get_range_is_Some r lo hi) as [x Hx]; [lia..|]. destruct (get_range_is_Some dst lo hi) as [y Hy]; [lia..|].
  pose proof Hx as (_ & _ & <-)%get_range_Some. pose proof Hy as (_ & _ & <-)%get_range_Some. f_equal.
  pose proof (get_range_len _ _ _ _ Hx). pose proof (get_range_len _ _ _ _ Hy). apply get_at_ext; [lia|]. intros i Hi.
  rewrite (get_range_get _ _ _ _ i Hx), (get_range_get _ _ _ _ i Hy) by lia. rewrite (put_range_get _ _ _ _ _ Hp). by rewrite decide_False by lia.
Qed.
