(* ===== verification/State.v ===== *)
(** * State, errors and panics

    The monad of the source's methods that change [&mut self] and answer a
    [Result]: [None] where the source panics, and otherwise what it returned
    and the state it left, an error's state included. With it the rules that
    run a program to its postcondition. *)

From S2P Require Import Prelude.

Definition SM (S A : Type) : Type := S -> option (result A * S).

Section monad.
Context {S : Type}.

Definition ret {A} (a : A) : SM S A := fun s => Some (Ok a, s).
Definition fail {A} (msg : string) : SM S A := fun s => Some (Err msg, s).
Definition bind {A B} (m : SM S A) (k : A -> SM S B) : SM S B := fun s =>
  match m s with
  | None => None
  | Some (Ok a, s) => k a s
  | Some (Err e, s) => Some (Err e, s)
  end.
Definition gets {A} (f : S -> A) : SM S A := fun s => Some (Ok (f s), s).
Definition modify (f : S -> S) : SM S unit := fun s => Some (Ok tt, f s).
(** A slice or a subtraction that panics. *)
Definition expect {A} (o : option A) : SM S A := fun s => match o with Some a => Some (Ok a, s) | None => None end.
(** A [Result], [?]. *)
Definition lift {A} (r : result A) : SM S A := fun s => Some (r, s).
Definition require {A} (o : option A) (msg : string) : SM S A := match o with Some a => ret a | None => fail msg end.
Definition refuse_if (c : bool) (msg : string) : SM S unit := if c then fail msg else ret tt.

(** ** What a program does when it succeeds *)

Definition wp {A} (m : SM S A) (Q : A -> S -> Prop) (s : S) : Prop :=
  match m s with Some (Ok a, s') => Q a s' | _ => False end.

Lemma wp_run {A} (m : SM S A) Q s : wp m Q s <-> exists a s', m s = Some (Ok a, s') /\ Q a s'.
Proof. unfold wp. destruct (m s) as [[[a|e] s']|]; naive_solver. Qed.

Lemma wp_bind {A B} (m : SM S A) (k : A -> SM S B) Q s : wp m (fun a => wp (k a) Q) s -> wp (bind m k) Q s.
Proof. unfold wp, bind. by destruct (m s) as [[[a|e] s']|]. Qed.

Lemma bind_runs {A B} (m : SM S A) (k : A -> SM S B) s a s' : m s = Some (Ok a, s') -> bind m k s = k a s'.
Proof. intros H. unfold bind. by rewrite H. Qed.

(** Two programs that do the same first, and the same with what it gave. *)
Lemma bind_same {A B} (m m' : SM S A) (k k' : A -> SM S B) s : m s = m' s -> (forall a s', m' s = Some (Ok a, s') -> k a s' = k' a s') -> bind m k s = bind m' k' s.
Proof. intros H Hk. unfold bind. rewrite H. destruct (m' s) as [[[a|e] s']|] eqn:E; [by apply Hk|done|done]. Qed.

Lemma wp_mono {A} (m : SM S A) (P Q : A -> S -> Prop) s : wp m P s -> (forall a s', P a s' -> Q a s') -> wp m Q s.
Proof. unfold wp. destruct (m s) as [[[a|e] s']|]; auto. Qed.

Lemma wp_expect {A} (o : option A) a (Q : A -> S -> Prop) s : o = Some a -> Q a s -> wp (expect o) Q s.
Proof. by intros ->. Qed.

Lemma wp_require {A} (o : option A) msg a (Q : A -> S -> Prop) s : o = Some a -> Q a s -> wp (require o msg) Q s.
Proof. by intros ->. Qed.

Lemma wp_pass (c : bool) msg (Q : unit -> S -> Prop) s : c = false -> Q tt s -> wp (refuse_if c msg) Q s.
Proof. by intros ->. Qed.

Lemma wp_lift {A} (r : result A) a (Q : A -> S -> Prop) s : r = Ok a -> Q a s -> wp (lift r) Q s.
Proof. by intros ->. Qed.
End monad.

Declare Scope state_scope.
Delimit Scope state_scope with state.
Notation "'do*' p := m 'in' k" := (bind m (fun x => match x with p => k end))
  (at level 200, p strict pattern, m at level 100, k at level 200,
   format "'[' 'do*'  p  :=  m  'in' ']' '//' k") : state_scope.

(** One step of a program: a read or a write of the state. *)
Ltac step := apply wp_bind; unfold wp at 1; cbn [gets modify ret].
