(* ===== verification/Varint.v ===== *)
(** * Varints: [put_uvarint] and [get_uvarint], both definitions of them

    [src/src/index.rs] has the pair every run, record and index is written
    with; [src/src/db.rs] has a second pair of the log's own, whose reader
    answers [None] where the first stops at the end of its buffer.
    [src/src/reserve.rs] and [src/src/blob.rs] each size a varint without
    writing it. The theorems hold the four to one another. *)

From S2P Require Import Prelude.

Module Index.

(** The [while v >= 0x80] loop. A [u64] has at most ten 7-bit groups, so
    ten turns are enough ([put_go_fuel]). *)
Fixpoint put_go (fuel : nat) (out : bytes) (v : Z) : bytes :=
  match fuel with
  | O => out
  | S fuel =>
      if 0x80 <=? v then put_go fuel (out ++ [z2b (Z.lor (v mod 256) 0x80)]) (Z.shiftr v 7)
      else out ++ [z2b v]
  end.

Definition put_uvarint (out : bytes) (v : Z) : bytes := put_go 10 out v.

(** The loop of [get_uvarint], from [*pos] with [v] and [shift]: it stops
    at the end of the buffer, at a byte below 0x80, or when the shift
    reaches 64. *)
Fixpoint get_go (fuel : nat) (buf : bytes) (pos v shift : Z) : Z * Z :=
  match fuel with
  | O => (v, pos)
  | S fuel =>
      match get_at buf pos with
      | None => (v, pos)
      | Some b =>
          let v := Z.lor v (w64 (Z.shiftl (Z.land (b2z b) 0x7f) shift)) in
          if b2z b <? 0x80 then (v, pos + 1)
          else if 64 <=? shift + 7 then (v, pos + 1)
          else get_go fuel buf (pos + 1) v (shift + 7)
      end
  end.

(** The value and the new [*pos]. *)
Definition get_uvarint (buf : bytes) (pos : Z) : Z * Z := get_go 10 buf pos 0 0.

End Index.

Module Log.

(** [db.rs]'s writer: the low seven bits first, the test after the shift. *)
Fixpoint put_go (fuel : nat) (out : bytes) (v : Z) : bytes :=
  match fuel with
  | O => out
  | S fuel =>
      let b := Z.land v 0x7f in
      let v := Z.shiftr v 7 in
      if v =? 0 then out ++ [z2b b] else put_go fuel (out ++ [z2b (Z.lor b 0x80)]) v
  end.

Definition put_uvarint (out : bytes) (v : Z) : bytes := put_go 10 out v.

Fixpoint get_go (fuel : nat) (buf : bytes) (p v shift : Z) : option (Z * Z) :=
  match fuel with
  | O => None
  | S fuel =>
      match get_at buf p with
      | None => None
      | Some b =>
          let v := Z.lor v (w64 (Z.shiftl (Z.land (b2z b) 0x7f) shift)) in
          if Z.land (b2z b) 0x80 =? 0 then Some (v, p + 1)
          else if 63 <? shift + 7 then None
          else get_go fuel buf (p + 1) v (shift + 7)
      end
  end.

Definition get_uvarint (buf : bytes) (p : Z) : option (Z * Z) := get_go 10 buf p 0 0.

End Log.

(** [reserve::uvarint_len] and [blob::varint_len]: one loop, written twice. *)
Fixpoint uvarint_len_go (fuel : nat) (v n : Z) : Z :=
  match fuel with
  | O => n
  | S fuel => if 0x80 <=? v then uvarint_len_go fuel (Z.shiftr v 7) (n + 1) else n
  end.

Definition uvarint_len (v : Z) : Z := uvarint_len_go 10 v 1.
Definition varint_len (v : Z) : Z := uvarint_len_go 10 v 1.

(** ** The groups of a varint, as a function of the value alone *)

Fixpoint groups (fuel : nat) (v : Z) : bytes :=
  match fuel with
  | O => []
  | S fuel => if 0x80 <=? v then z2b (v mod 128 + 128) :: groups fuel (v / 128) else [z2b v]
  end.

Abbreviation uvarint v := (groups 10 v).

Lemma lor_0x80 v : Z.lor (v mod 128) 0x80 = v mod 128 + 128.
Proof.
  pose proof (Z.mod_pos_bound v 128 ltac:(lia)).
  pose proof (lor_disjoint_add (v mod 128) 1 7 ltac:(lia) ltac:(lia)) as H'. simpl in H'. done.
Qed.

Lemma lor_low_0x80 v : z2b (Z.lor (v mod 256) 0x80) = z2b (v mod 128 + 128).
Proof.
  assert (Hm : v mod 256 = v mod 128 + 128 * ((v / 128) mod 2))
    by (change 256 with (128 * 2); by rewrite Z.rem_mul_r by lia).
  pose proof (Z.mod_pos_bound v 128 ltac:(lia)). pose proof (Z.mod_pos_bound (v / 128) 2 ltac:(lia)).
  rewrite <- lor_0x80. f_equal. rewrite Hm.
  assert ((v / 128) mod 2 = 0 \/ (v / 128) mod 2 = 1) as [E|E] by lia; rewrite E.
  - f_equal; lia.
  - rewrite Z.mul_1_r, <- (lor_0x80 v), <- Z.lor_assoc, Z.lor_diag. done.
Qed.

Lemma shiftr_7 v : Z.shiftr v 7 = v / 128.
Proof. by rewrite Z.shiftr_div_pow2 by lia. Qed.

Lemma put_go_groups fuel out v : Index.put_go fuel out v = out ++ groups fuel v.
Proof.
  revert out v. induction fuel as [|fuel IH]; intros out v; simpl.
  - by rewrite app_nil_r.
  - case_match; [|done]. rewrite IH, lor_low_0x80, shiftr_7, <- app_assoc. done.
Qed.

Lemma put_uvarint_app out v : Index.put_uvarint out v = out ++ uvarint v.
Proof. apply put_go_groups. Qed.

(** Ten turns are as good as any more for a [u64]. *)
Lemma groups_fuel fuel v : 0 <= v < 128 ^ Z.of_nat fuel -> forall k, (0 < fuel)%nat -> groups (fuel + k) v = groups fuel v.
Proof.
  revert v. induction fuel as [|fuel IH]; intros v Hv k Hf; [lia|].
  cbn [Nat.add groups]. destruct (Z.leb_spec 0x80 v); [|done]. f_equal.
  destruct (decide (fuel = O)) as [->|]; [simpl in Hv; lia|].
  apply IH; [|lia]. rewrite Nat2Z.inj_succ, Z.pow_succ_r in Hv by lia.
  split; [apply Z.div_pos; lia | apply Z.div_lt_upper_bound; lia].
Qed.

Lemma put_go_fuel k out v : 0 <= v < U64 -> Index.put_go (10 + k) out v = Index.put_uvarint out v.
Proof.
  intros Hv. unfold Index.put_uvarint. rewrite !put_go_groups. f_equal.
  apply groups_fuel; [unfold U64 in Hv; change (128 ^ Z.of_nat 10) with (2 ^ 70); lia | lia].
Qed.

Lemma groups_len fuel v n : (0 < fuel)%nat -> 0 <= v < 128 ^ Z.of_nat fuel ->
  uvarint_len_go fuel v n = n - 1 + Zlen (groups fuel v).
Proof.
  revert v n. induction fuel as [|fuel IH]; intros v n Hf Hv; [lia|]. simpl.
  destruct (Z.leb_spec 0x80 v); [|zlen].
  destruct (decide (fuel = O)) as [->|]; [simpl in Hv; lia|].
  rewrite shiftr_7, IH, Zlen_cons; [lia|lia|].
  rewrite Nat2Z.inj_succ, Z.pow_succ_r in Hv by lia.
  split; [apply Z.div_pos; lia | apply Z.div_lt_upper_bound; lia].
Qed.

Lemma u64_groups v : 0 <= v < U64 -> 0 <= v < 128 ^ Z.of_nat 10.
Proof. unfold U64. change (128 ^ Z.of_nat 10) with (2 ^ 70). lia. Qed.

Lemma uvarint_len_pos v : 1 <= Zlen (uvarint v) <= 10.
Proof.
  enough (forall f v, 1 <= Zlen (groups (S f) v) <= Z.of_nat (S f)) as H by apply (H 9%nat v).
  clear v. intros f. induction f as [|f IH]; intros v.
  - cbn [groups]. case_match; zlen.
  - change (groups (S (S f)) v) with
      (if 0x80 <=? v then z2b (v mod 128 + 128) :: groups (S f) (v / 128) else [z2b v]).
    specialize (IH (v / 128)). case_match; zlen.
Qed.

(** ** Reading the groups back *)

(** One group's contribution: the shift never loses a bit of a value that
    fits 64 bits. *)
Lemma step_value acc v shift : 0 <= shift -> 0 <= acc < 2 ^ shift ->
  0 <= v -> acc + v * 2 ^ shift < U64 ->
  Z.lor acc (w64 (Z.shiftl (v mod 128) shift)) = acc + v mod 128 * 2 ^ shift /\
  acc + v mod 128 * 2 ^ shift < 2 ^ (shift + 7) /\
  acc + v mod 128 * 2 ^ shift + v / 128 * 2 ^ (shift + 7) = acc + v * 2 ^ shift.
Proof.
  intros Hs Ha Hv Hb. pose proof (Z.mod_pos_bound v 128 ltac:(lia)).
  pose proof (Z.mod_le v 128 ltac:(lia) ltac:(lia)).
  pose proof (Z.pow_pos_nonneg 2 shift ltac:(lia) Hs).
  assert (v mod 128 * 2 ^ shift <= v * 2 ^ shift) by nia.
  unfold w64. rewrite Z.mod_small by (rewrite Z.shiftl_mul_pow2 by lia; nia).
  rewrite lor_disjoint_add by lia. rewrite Z.pow_add_r by lia. change (2 ^ 7) with 128.
  split; [done|]. split; [nia|]. pose proof (Z.div_mod v 128 ltac:(lia)). nia.
Qed.

Lemma group_byte v : 0x80 <= v ->
  Z.land (b2z (z2b (v mod 128 + 128))) 0x7f = v mod 128 /\
  (b2z (z2b (v mod 128 + 128)) <? 0x80) = false /\
  (Z.land (b2z (z2b (v mod 128 + 128))) 0x80 =? 0) = false.
Proof.
  intros. pose proof (Z.mod_pos_bound v 128 ltac:(lia)).
  rewrite b2z_z2b, Z.mod_small by lia. split; [|split].
  - rewrite (land_ones_mod _ 7) by lia. change (2 ^ 7) with 128.
    rewrite <- (Z.mul_1_l 128) at 2. rewrite Z.mod_add by lia. by rewrite Z.mod_mod.
  - apply Z.ltb_ge. lia.
  - rewrite <- lor_0x80, Z.land_lor_distr_l. apply Z.eqb_neq. intros E.
    apply Z.lor_eq_0_iff in E as [_ E]. done.
Qed.

Lemma last_byte v : 0 <= v < 0x80 ->
  Z.land (b2z (z2b v)) 0x7f = v mod 128 /\ (b2z (z2b v) <? 0x80) = true /\
  (Z.land (b2z (z2b v)) 0x80 =? 0) = true.
Proof.
  intros. rewrite b2z_z2b, (Z.mod_small v 256) by lia. split; [|split].
  - by rewrite (land_ones_mod _ 7) by lia.
  - apply Z.ltb_lt. lia.
  - apply Z.eqb_eq. apply Z.bits_inj'. intros n Hn. rewrite Z.land_spec, Z.bits_0.
    destruct (decide (n = 7)) as [->|].
    + by rewrite (proj1 (Z.bounded_iff_bits_nonneg 7 v ltac:(lia) ltac:(lia)) ltac:(lia) 7 ltac:(lia)).
    + change 0x80 with (2 ^ 7). rewrite Z.pow2_bits_false by lia. apply andb_false_r.
Qed.

(** The reader of [index.rs] over groups laid anywhere in a buffer. *)
Lemma get_go_groups fuel a c v acc shift pos :
  0 <= shift -> 0 <= acc < 2 ^ shift -> 0 <= v < 128 ^ Z.of_nat fuel -> (0 < fuel)%nat ->
  shift + 7 * Z.of_nat fuel <= 70 -> acc + v * 2 ^ shift < U64 -> pos = Zlen a ->
  Index.get_go fuel (a ++ groups fuel v ++ c) pos acc shift =
    (acc + v * 2 ^ shift, pos + Zlen (groups fuel v)).
Proof.
  revert a v acc shift pos. induction fuel as [|fuel IH]; intros a v acc shift pos Hs Ha Hv Hf Hsf Hb ->; [lia|].
  pose proof (step_value acc v shift Hs Ha ltac:(lia) Hb) as (Hlor & Hlt & Hsum).
  cbn [groups]. destruct (Z.leb_spec 0x80 v) as [Hge|Hsmall].
  - pose proof (group_byte v Hge) as (H1 & H2 & _). cbn [Index.get_go].
    rewrite <- app_comm_cons, get_at_app_mid by done. rewrite H1, H2, Hlor.
    destruct (decide (fuel = O)) as [->|Hnz]; [simpl in Hv; lia|].
    assert (Hv' : 0 <= v / 128 < 128 ^ Z.of_nat fuel).
    { rewrite Nat2Z.inj_succ, Z.pow_succ_r in Hv by lia.
      split; [apply Z.div_pos; lia | apply Z.div_lt_upper_bound; lia]. }
    pose proof (Z.pow_pos_nonneg 2 shift ltac:(lia) Hs). pose proof (Z.mod_pos_bound v 128 ltac:(lia)).
    assert (shift + 7 < 64) as Hlt64.
    { (* the value still has a group above this one *)
      assert (1 <= v / 128) by (apply Z.div_le_lower_bound; lia).
      apply (Z.pow_lt_mono_r_iff 2); [lia..|]. unfold U64 in Hb.
      pose proof (Z.pow_pos_nonneg 2 (shift + 7) ltac:(lia) ltac:(lia)). nia. }
    rewrite (proj2 (Z.leb_gt 64 (shift + 7))) by done.
    replace (a ++ z2b (v mod 128 + 128) :: groups fuel (v / 128) ++ c)
      with ((a ++ [z2b (v mod 128 + 128)]) ++ groups fuel (v / 128) ++ c)
      by (rewrite <- !app_assoc; done).
    rewrite IH; [|lia|nia|lia|lia|lia|lia|zlen].
    rewrite Hsum, Zlen_cons. f_equal. lia.
  - pose proof (last_byte v ltac:(lia)) as (H1 & H2 & _). cbn [Index.get_go].
    rewrite <- app_comm_cons, get_at_app_mid by done. rewrite H1, H2, Hlor. zlen.
    f_equal. rewrite (Z.mod_small v) by lia. done.
Qed.

Lemma get_put_uvarint out c v : 0 <= v < U64 ->
  Index.get_uvarint (out ++ uvarint v ++ c) (Zlen out) = (v, Zlen out + Zlen (uvarint v)).
Proof.
  intros Hv. unfold Index.get_uvarint.
  rewrite (get_go_groups 10 out c v 0 0 (Zlen out)); try lia; [f_equal; lia | by apply u64_groups].
Qed.

(** ** The log's pair is the index's *)

Lemma log_put_go fuel out v : 0 <= v < 128 ^ Z.of_nat fuel -> Log.put_go fuel out v = out ++ groups fuel v.
Proof.
  revert out v. induction fuel as [|fuel IH]; intros out v Hv; simpl; [by rewrite app_nil_r|].
  change 0x7f with (2 ^ 7 - 1). rewrite land_ones_mod by lia. change (2 ^ 7) with 128.
  rewrite shiftr_7, lor_0x80. rewrite Nat2Z.inj_succ, Z.pow_succ_r in Hv by lia.
  destruct (Z.eqb_spec (v / 128) 0) as [E|E], (Z.leb_spec 0x80 v).
  - apply Z.div_small_iff in E; lia.
  - by rewrite Z.mod_small by lia.
  - rewrite IH, <- app_assoc; [done|].
    split; [apply Z.div_pos; lia | apply Z.div_lt_upper_bound; lia].
  - by rewrite Z.div_small in E by lia.
Qed.

Lemma log_put_uvarint out v : 0 <= v < U64 -> Log.put_uvarint out v = Index.put_uvarint out v.
Proof. intros. rewrite put_uvarint_app. by apply log_put_go, u64_groups. Qed.

Lemma high_bit b : (Z.land (b2z b) 0x80 =? 0) = (b2z b <? 0x80).
Proof. destruct b; reflexivity. Qed.

Lemma log_get_go fuel buf p v shift r :
  Log.get_go fuel buf p v shift = Some r -> Index.get_go fuel buf p v shift = r.
Proof.
  revert p v shift. induction fuel as [|fuel IH]; intros p v shift; simpl; [done|].
  destruct (get_at buf p) as [b|]; [|done]. rewrite high_bit.
  destruct (b2z b <? 0x80); [congruence|].
  destruct (Z.ltb_spec 63 (shift + 7)), (Z.leb_spec 64 (shift + 7)); try lia; [done|]. apply IH.
Qed.

(** What the log's reader answers, the index's reader answers too. *)
Lemma log_get_uvarint buf p r : Log.get_uvarint buf p = Some r -> Index.get_uvarint buf p = r.
Proof. apply log_get_go. Qed.

(** The position moves forward, and never past the buffer's end. *)
Lemma get_go_pos fuel buf p v shift v' p' : Index.get_go fuel buf p v shift = (v', p') ->
  0 <= p -> p <= p' <= Z.max p (Zlen buf).
Proof.
  revert p v shift. induction fuel as [|fuel IH]; intros p v shift; simpl; [intros [= -> ->]; lia|].
  destruct (get_at buf p) as [b|] eqn:E; [|intros [= -> ->]; lia].
  assert (p < Zlen buf) by (apply Z.nle_gt; intros ?; by rewrite (proj2 (get_at_None buf p)) in E by lia).
  repeat case_match; try (intros [= <- <-]; lia). intros H' ?. apply IH in H'; lia.
Qed.

Lemma get_uvarint_pos buf p v' p' : Index.get_uvarint buf p = (v', p') ->
  0 <= p -> p <= p' <= Z.max p (Zlen buf).
Proof. apply get_go_pos. Qed.

(** Inside the buffer a varint takes at least one byte. *)
Lemma get_go_adv fuel buf p v shift v' p' : Index.get_go (S fuel) buf p v shift = (v', p') ->
  0 <= p < Zlen buf -> p < p' <= Zlen buf.
Proof.
  intros H Hp. pose proof (get_go_pos _ _ _ _ _ _ _ H ltac:(lia)). split; [|lia]. cbn [Index.get_go] in H.
  destruct (get_at_is_Some buf p Hp) as [b Hb]. rewrite Hb in H.
  repeat case_match; try (simplify_eq; lia). apply get_go_pos in H; lia.
Qed.

Lemma get_uvarint_adv buf p v' p' : Index.get_uvarint buf p = (v', p') ->
  0 <= p < Zlen buf -> p < p' <= Zlen buf.
Proof. apply get_go_adv. Qed.

Lemma get_go_range fuel buf p v shift v' p' : Index.get_go fuel buf p v shift = (v', p') ->
  0 <= v < U64 -> 0 <= v' < U64.
Proof.
  revert p v shift. induction fuel as [|fuel IH]; intros p v shift; simpl; [by intros [= -> ->]|].
  destruct (get_at buf p) as [b|]; [|by intros [= -> ->]].
  intros Hg Hv. assert (0 <= Z.lor v (w64 (Z.shiftl (Z.land (b2z b) 127) shift)) < U64).
  { apply lor_range; [lia|done|]. apply Z.mod_pos_bound. done. }
  repeat case_match; simplify_eq; eauto.
Qed.

Lemma get_uvarint_range buf p v' p' : Index.get_uvarint buf p = (v', p') -> 0 <= v' < U64.
Proof. intros H. by eapply get_go_range in H. Qed.

Lemma log_get_groups fuel a c v acc shift pos :
  0 <= v < 128 ^ Z.of_nat fuel -> (0 < fuel)%nat -> 0 <= shift ->
  shift + 7 * Z.of_nat fuel <= 70 -> v * 2 ^ shift < U64 -> pos = Zlen a ->
  is_Some (Log.get_go fuel (a ++ groups fuel v ++ c) pos acc shift).
Proof.
  revert a v acc shift pos. induction fuel as [|fuel IH]; intros a v acc shift pos Hv Hf Hs Hsf Hb ->; [lia|].
  cbn [groups]. destruct (Z.leb_spec 0x80 v) as [Hge|Hsmall]; cbn [Log.get_go];
    rewrite <- app_comm_cons, get_at_app_mid by done.
  - pose proof (group_byte v Hge) as (_ & _ & ->).
    destruct (decide (fuel = O)) as [->|Hnz]; [simpl in Hv; lia|].
    assert (1 <= v / 128) by (apply Z.div_le_lower_bound; lia).
    pose proof (Z.div_mod v 128 ltac:(lia)). pose proof (Z.mod_pos_bound v 128 ltac:(lia)).
    pose proof (Z.pow_pos_nonneg 2 shift ltac:(lia) Hs).
    pose proof (Z.pow_add_r 2 shift 7 Hs ltac:(lia)) as Hpow. change (2 ^ 7) with 128 in Hpow.
    assert (v / 128 * 2 ^ (shift + 7) < U64) by nia.
    assert (shift + 7 < 64) by (apply (Z.pow_lt_mono_r_iff 2); [lia..|]; unfold U64 in *; nia).
    rewrite (proj2 (Z.ltb_ge 63 (shift + 7))) by lia.
    replace (a ++ z2b (v mod 128 + 128) :: groups fuel (v / 128) ++ c)
      with ((a ++ [z2b (v mod 128 + 128)]) ++ groups fuel (v / 128) ++ c)
      by (rewrite <- !app_assoc; done).
    apply IH; [|lia..|zlen]. rewrite Nat2Z.inj_succ, Z.pow_succ_r in Hv by lia.
    split; [lia | apply Z.div_lt_upper_bound; lia].
  - pose proof (last_byte v ltac:(lia)) as (_ & _ & ->). eauto.
Qed.

Lemma log_get_put_uvarint out c v : 0 <= v < U64 ->
  Log.get_uvarint (out ++ uvarint v ++ c) (Zlen out) = Some (v, Zlen out + Zlen (uvarint v)).
Proof.
  intros Hv. destruct (log_get_groups 10 out c v 0 0 (Zlen out)) as [r Hr]; try lia; [by apply u64_groups|].
  pose proof (log_get_uvarint _ _ _ Hr) as H. rewrite get_put_uvarint in H by done. rewrite H. exact Hr.
Qed.

(** ** The codec, whole *)

(** every [u64] written by [put_uvarint] after any bytes and before any
    others reads back as itself, ending where it ends, by both readers of
    the source; the log's writer writes the same bytes; and the two
    functions that size a varint without writing it are its length. *)
Theorem uvarint_roundtrip out rest v : 0 <= v < U64 ->
  let enc := Index.put_uvarint out v in
  Index.get_uvarint (enc ++ rest) (Zlen out) = (v, Zlen enc) /\
  Log.get_uvarint (enc ++ rest) (Zlen out) = Some (v, Zlen enc) /\
  Log.put_uvarint out v = enc /\
  uvarint_len v = Zlen enc - Zlen out /\ varint_len v = Zlen enc - Zlen out.
Proof.
  intros Hv enc. unfold enc. rewrite log_put_uvarint, !put_uvarint_app, <- !app_assoc by done.
  rewrite get_put_uvarint, log_get_put_uvarint, Zlen_app by done.
  unfold uvarint_len, varint_len. rewrite groups_len by (lia || by apply u64_groups).
  repeat split; lia.
Qed.

Lemma uvarint_roundtrip_witness :
  (0 <= 300 < U64) /\ Index.get_uvarint (Index.put_uvarint [x01] 300 ++ [xff]) 1 = (300, 3).
Proof.
  split; [unfold U64; lia|].
  exact (proj1 (uvarint_roundtrip [x01] [xff] 300 ltac:(unfold U64; lia))).
Defined.

#[global] Arguments groups : simpl never.
#[global] Arguments Index.put_uvarint : simpl never.
#[global] Arguments Index.get_uvarint : simpl never.
