(* ===== verification/Runs.v ===== *)
(** * Runs: a key's values as one extent of bytes

    [src/src/index.rs]: the extent [Ext], the list of extents [Extents], the
    encoder [encode_run] and the one decoder [each_value] every reader
    shares. [src/src/reserve.rs]'s [run_len] sizes a run without writing
    it. A run is fixed (values of one non-zero width, back to back) or
    prefixed (a varint length before each value). *)

From S2P Require Import Prelude Varint.

(** ** Extents *)

Record Ext := mkExt {
  e_block : Z;
  e_off : Z;
  e_len : Z;
  e_last : Z;
  e_count : Z
}.

Definition TOMBSTONE : Z := Z.shiftl 1 31.
Definition FIXED : Z := Z.shiftl 1 30.
Definition INLINE : Z := U32 - 1.

(** Every field a [u32]. *)
Definition ext_ok (e : Ext) : Prop :=
  (0 <= e_block e < U32) /\ (0 <= e_off e < U32) /\ (0 <= e_len e < U32) /\
  (0 <= e_last e < U32) /\ (0 <= e_count e < U32).

Definition is_fixed (e : Ext) : bool := negb (Z.land (e_count e) FIXED =? 0).
Definition is_tombstone (e : Ext) : bool := negb (Z.land (e_count e) TOMBSTONE =? 0).
Definition is_inline (e : Ext) : bool := e_block e =? INLINE.
(** [self.count & !(TOMBSTONE | FIXED)], the complement taken on 32 bits. *)
Definition records (e : Ext) : Z := Z.land (e_count e) (Z.lxor (U32 - 1) (Z.lor TOMBSTONE FIXED)).

Definition fixed_width (e : Ext) : option Z :=
  if negb (is_fixed e) then None
  else
    let n := records e in
    if (n =? 0) || negb (e_len e mod n =? 0) then None
    else Some (e_len e / n).

#[export] Instance Ext_eq_dec : EqDecision Ext.
Proof. solve_decision. Defined.

(** [Exts]: borrowed from the mapping, or the one rebuilt from a compact
    record's header; either reads as a slice. *)
Inductive Exts :=
| Borrowed (s : list Ext)
| One (e : Ext).

Definition exts_deref (x : Exts) : list Ext :=
  match x with Borrowed s => s | One e => [e] end.

(** [Extents] of a single key, inline until it needs more than one. *)
Inductive Extents :=
| ENone
| EOne (e : Ext)
| EMany (v : list Ext).

Definition extents_push (x : Extents) (e : Ext) : Extents :=
  match x with
  | ENone => EOne e
  | EOne first => EMany [first; e]
  | EMany v => EMany (v ++ [e])
  end.

Definition extents_slice (x : Extents) : list Ext :=
  match x with ENone => [] | EOne e => [e] | EMany v => v end.

(** ** Decoding: [each_value]

    The values handed to the callback, in order, and the result: the
    callback has run for every value before the one that is damaged. *)

(** The [while p < run.len()] loop. Each turn's varint takes a byte, so the
    run's length bounds the turns ([each_go_fuel]). *)
Fixpoint each_go (fuel : nat) (run : bytes) (p n : Z) : list bytes * result Z :=
  match fuel with
  | O => ([], Ok n)
  | S fuel =>
      if negb (p <? Zlen run) then ([], Ok n)
      else
        let '(len, p) := Index.get_uvarint run p in
        match cadd p len with
        | None => ([], Err "record length overflows")
        | Some e =>
            if Zlen run <? e then ([], Err "record runs past the end of its extent")
            else match get_range run p e with
                 | None => ([], Err "unreachable")
                 | Some v => let '(vs, r) := each_go fuel run e (n + 1) in (v :: vs, r)
                 end
        end
  end.

Definition each_value (run : bytes) (e : Ext) : list bytes * result Z :=
  if is_fixed e then
    match fixed_width e with
    | None => ([], Err "fixed run's length is not a multiple of its count")
    | Some w =>
        if negb (Zlen run =? e_len e) || (w =? 0)
        then ([], Err "fixed run does not match its extent")
        else let vs := chunks_exact (Z.to_nat w) run in (vs, Ok (Zlen vs))
    end
  else each_go (S (length run)) run 0 0.

(** ** Encoding: [encode_run] *)

Definition run_fixed (lens : list Z) : bool :=
  match lens with
  | [] => false
  | l0 :: _ => (0 <? l0) && forallb (fun l => l =? l0) lens
  end.

(** The [for &l in lens] loop over the values still to place; [None] where
    slicing [values] would panic. *)
Fixpoint encode_go (values : bytes) (lens : list Z) (at_ last : Z) (out : bytes) : option (bytes * Z) :=
  match lens with
  | [] => Some (out, last)
  | l :: lens =>
      let last := w32 (Zlen out) in
      let out := Index.put_uvarint out l in
      v ← get_range values at_ (at_ + l);
      encode_go values lens (at_ + l) last (out ++ v)
  end.

(** The bytes left in [out], the offset of the last value and the flag. *)
Definition encode_run (values : bytes) (lens : list Z) : option (bytes * (Z * Z)) :=
  if run_fixed lens
  then Some (values, (w32 (w32 (w32 (Zlen lens) - 1) * hd 0 lens), FIXED))
  else '(out, last) ← encode_go values lens 0 0 []; Some (out, (last, 0)).

(** [reserve::run_len]. *)
Definition run_len (value_lens : list Z) : Z :=
  if run_fixed value_lens then Zlen value_lens * hd 0 value_lens
  else fold_right (fun l s => uvarint_len l + l + s) 0 value_lens.

(** The count word a segment writer assembles in [end_with]:
    [self.records | flag | tombstone]. *)
Definition count_word (records flag : Z) (tombstone : bool) : Z :=
  Z.lor (Z.lor records flag) (if tombstone then TOMBSTONE else 0).

(** ** The count word's three parts *)

Lemma FIXED_pow : FIXED = 2 ^ 30. Proof. done. Qed.
Lemma TOMB_pow : TOMBSTONE = 2 ^ 31. Proof. done. Qed.

Lemma count_word_bits n (fixed tomb : bool) k : 0 <= n < 2 ^ 30 -> 0 <= k ->
  Z.testbit (count_word n (if fixed then FIXED else 0) tomb) k =
    if decide (k = 30) then fixed else if decide (k = 31) then tomb else Z.testbit n k.
Proof.
  intros Hn Hk. unfold count_word. rewrite !Z.lor_spec.
  assert (H : forall (b : bool) m, 0 <= m -> Z.testbit (if b then 2 ^ m else 0) k = b && bool_decide (k = m)).
  { intros b m ?. destruct b; [|by rewrite Z.bits_0]. destruct (decide (k = m)) as [->|].
    - rewrite Z.pow2_bits_true by lia. by rewrite bool_decide_true.
    - rewrite Z.pow2_bits_false by lia. by rewrite bool_decide_false. }
  rewrite FIXED_pow, TOMB_pow, !H by lia.
  destruct (decide (k = 30)) as [->|]; [|destruct (decide (k = 31)) as [->|]].
  - rewrite (testbit_small n 30) by lia. rewrite bool_decide_true by done.
    rewrite bool_decide_false by lia. by destruct fixed, tomb.
  - rewrite (testbit_small n 30) by lia. rewrite bool_decide_false by lia.
    rewrite bool_decide_true by done. by destruct fixed, tomb.
  - rewrite !bool_decide_false by lia. by rewrite !andb_false_r, !orb_false_r.
Qed.

Section count_word.
Context (n : Z) (fixed tomb : bool) (Hn : 0 <= n < 2 ^ 30).
Let c := count_word n (if fixed then FIXED else 0) tomb.

Lemma count_word_fixed : negb (Z.land c FIXED =? 0) = fixed.
Proof.
  rewrite FIXED_pow, land_pow2 by lia. unfold c. rewrite count_word_bits by lia.
  by destruct fixed.
Qed.

Lemma count_word_tomb : negb (Z.land c TOMBSTONE =? 0) = tomb.
Proof.
  rewrite TOMB_pow, land_pow2 by lia. unfold c. rewrite count_word_bits by lia.
  by destruct tomb.
Qed.

Lemma count_word_records : Z.land c (Z.lxor (U32 - 1) (Z.lor TOMBSTONE FIXED)) = n.
Proof.
  change (Z.lxor (U32 - 1) (Z.lor TOMBSTONE FIXED)) with (2 ^ 30 - 1).
  rewrite land_ones_mod by lia. apply Z.bits_inj'. intros k Hk.
  destruct (Z.lt_ge_cases k 30).
  - rewrite Z.mod_pow2_bits_low by lia. unfold c. rewrite count_word_bits by lia.
    by rewrite !decide_False by lia.
  - rewrite Z.mod_pow2_bits_high by lia. by rewrite (testbit_small n 30) by lia.
Qed.

Lemma count_word_range : 0 <= c < U32.
Proof.
  apply lor_range; [lia| |by destruct tomb]. apply lor_range; [lia|lia|by destruct fixed].
Qed.
End count_word.

(** ** The prefixed form *)

(** The bytes a prefixed run of [vs] is. *)
Fixpoint prefixed (vs : list bytes) : bytes :=
  match vs with [] => [] | v :: vs => uvarint (Zlen v) ++ v ++ prefixed vs end.

Lemma prefixed_app a b : prefixed (a ++ b) = prefixed a ++ prefixed b.
Proof. induction a as [|v a IH]; [done|]. simpl. by rewrite IH, !app_assoc. Qed.

Definition u32_lens (vs : list bytes) : Prop := Forall (fun v => Zlen v < U32) vs.

(** Where the last value's record starts, after [last] for the values
    before. *)
Fixpoint last_start (at_ last : Z) (vs : list bytes) : Z :=
  match vs with
  | [] => last
  | v :: vs => last_start (at_ + Zlen (uvarint (Zlen v)) + Zlen v) (w32 at_) vs
  end.

Lemma encode_go_prefixed pre vs last out :
  encode_go (pre ++ concat vs) (map Zlen vs) (Zlen pre) last out =
  Some (out ++ prefixed vs, last_start (Zlen out) last vs).
Proof.
  revert pre last out. induction vs as [|v vs IH]; intros pre last out; simpl; [by rewrite app_nil_r|].
  rewrite put_uvarint_app, (get_range_app pre v (concat vs)) by done. simpl.
  rewrite app_assoc, <- Zlen_app, IH. rewrite <- !app_assoc. repeat f_equal. zlen.
Qed.

Lemma last_start_app at_ last vs v : 0 <= at_ -> at_ + Zlen (prefixed vs) < U32 ->
  last_start at_ last (vs ++ [v]) = at_ + Zlen (prefixed vs).
Proof.
  revert at_ last. induction vs as [|x vs IH]; intros at_ last Ha Hb; simpl in *.
  - rewrite Zlen_nil in *. rewrite Z.add_0_r in *. by apply Z.mod_small.
  - rewrite !Zlen_app in *. pose proof (Zlen_nonneg x). pose proof (Zlen_nonneg (uvarint (Zlen x))).
    rewrite IH; lia.
Qed.

Lemma prefixed_len_pos v vs : 1 <= Zlen (prefixed (v :: vs)).
Proof.
  simpl. pose proof (uvarint_len_pos (Zlen v)). zlen.
  pose proof (Zlen_nonneg v). pose proof (Zlen_nonneg (prefixed vs)). lia.
Qed.

(** Decoding from the middle of a prefixed run hands out what is left. *)
Lemma each_go_prefixed pre vs fuel n : u32_lens vs -> Zlen (pre ++ prefixed vs) < U32 ->
  (Z.to_nat (Zlen (prefixed vs)) < fuel)%nat ->
  each_go fuel (pre ++ prefixed vs) (Zlen pre) n = (vs, Ok (n + Zlen vs)).
Proof.
  intros Hvs. revert pre fuel n. induction Hvs as [|v vs Hv _ IH]; intros pre fuel n Hb Hf.
  - destruct fuel; [simpl in Hf; lia|]. cbn [each_go prefixed]. rewrite app_nil_r, Z.ltb_irrefl.
    simpl. do 2 f_equal. zlen.
  - destruct fuel as [|fuel]; [lia|]. cbn [each_go].
    pose proof (prefixed_len_pos v vs) as Hpos.
    rewrite (proj2 (Z.ltb_lt (Zlen pre) _)) by (rewrite Zlen_app; lia). cbn [negb prefixed].
    pose proof (Zlen_nonneg v). pose proof (Zlen_nonneg pre). pose proof (Zlen_nonneg (prefixed vs)).
    pose proof (uvarint_len_pos (Zlen v)).
    rewrite get_put_uvarint by (unfold U64, U32 in *; lia).
    cbn [prefixed] in *. rewrite !Zlen_app in *.
    rewrite (proj2 (cadd_Some _ _ _)) by (split; [done | unfold U32, U64 in *; lia]).
    rewrite (proj2 (Z.ltb_ge _ _)) by lia.
    replace (pre ++ uvarint (Zlen v) ++ v ++ prefixed vs)
      with ((pre ++ uvarint (Zlen v)) ++ v ++ prefixed vs) by (rewrite <- !app_assoc; done).
    rewrite get_range_app by (rewrite Zlen_app; done).
    replace ((pre ++ uvarint (Zlen v)) ++ v ++ prefixed vs)
      with ((pre ++ uvarint (Zlen v) ++ v) ++ prefixed vs) by (rewrite <- !app_assoc; done).
    replace (Zlen pre + Zlen (uvarint (Zlen v)) + Zlen v) with (Zlen (pre ++ uvarint (Zlen v) ++ v)) by zlen.
    rewrite IH; [|rewrite !Zlen_app; lia|lia].
    rewrite Zlen_cons. by replace (n + 1 + Zlen vs) with (n + (1 + Zlen vs)) by lia.
Qed.

(** More fuel than the run has bytes changes nothing: the loop ended. *)
Lemma each_go_fuel run fuel p n k : 0 <= p -> Zlen run - p < Z.of_nat fuel ->
  each_go (fuel + k) run p n = each_go fuel run p n.
Proof.
  revert p n. induction fuel as [|fuel IH]; intros p n Hp Hf; simpl.
  - destruct k; simpl; [done|]. rewrite (proj2 (Z.ltb_ge _ _)) by lia. done.
  - destruct (Z.ltb_spec p (Zlen run)); simpl; [|done].
    destruct (Index.get_uvarint run p) as [len q] eqn:E.
    pose proof (get_uvarint_adv _ _ _ _ E ltac:(lia)).
    pose proof (get_uvarint_range _ _ _ _ E).
    destruct (cadd q len) as [en|] eqn:Ec; [|done]. apply cadd_Some in Ec as [-> _].
    destruct (Zlen run <? q + len); [done|]. destruct (get_range run q (q + len)); [|done].
    by rewrite IH by lia.
Qed.

(** ** The codec, both forms *)

Definition all_width (w : Z) (vs : list bytes) : Prop := Forall (fun v => Zlen v = w) vs.

Lemma run_fixed_true vs : run_fixed (map Zlen vs) = true ->
  exists v vs', vs = v :: vs' /\ 0 < Zlen v /\ all_width (Zlen v) vs.
Proof.
  destruct vs as [|v vs]; [done|]. cbn [map run_fixed]. intros [Hp Hf]%andb_true_iff.
  apply Z.ltb_lt in Hp. exists v, vs. split; [done|]. split; [done|].
  rewrite forallb_forall in Hf. apply list.Forall_forall. intros x Hx. apply Z.eqb_eq, Hf.
  change (Zlen v :: map Zlen vs) with (map Zlen (v :: vs)).
  apply in_map. by apply list_elem_of_In.
Qed.

Lemma concat_width w vs : all_width w vs -> Zlen (concat vs) = Zlen vs * w.
Proof. induction 1 as [|v vs Hv _ IH]; [done|]. simpl. rewrite Zlen_app, Zlen_cons, IH. lia. Qed.

Lemma concat_le_prefixed vs : Zlen (concat vs) <= Zlen (prefixed vs).
Proof.
  induction vs as [|v vs IH]; simpl; [lia|]. rewrite !Zlen_app.
  pose proof (Zlen_nonneg (uvarint (Zlen v))). lia.
Qed.

Lemma prefixed_u32_lens vs : Zlen (prefixed vs) < U32 -> u32_lens vs.
Proof.
  induction vs as [|v vs IH]; intros Hb; constructor; simpl in Hb; rewrite !Zlen_app in Hb;
    pose proof (Zlen_nonneg (uvarint (Zlen v))); pose proof (Zlen_nonneg (prefixed vs)); pose proof (Zlen_nonneg v); [lia|].
  apply IH. lia.
Qed.

Lemma run_len_prefixed vs : Forall (fun v => Zlen v < U32) vs ->
  fold_right (fun l s => uvarint_len l + l + s) 0 (map Zlen vs) = Zlen (prefixed vs).
Proof.
  induction 1 as [|v vs Hv _ IH]; [done|]. cbn [map fold_right prefixed]. rewrite IH, !Zlen_app.
  unfold uvarint_len. pose proof (Zlen_nonneg v).
  rewrite groups_len by (lia || (apply u64_groups; unfold U32, U64 in *; lia)). lia.
Qed.

(** The extent a writer records for a run of [vs]. *)
Definition run_ext (blk off : Z) (run : bytes) (last flag : Z) (vs : list bytes) (tomb : bool) : Ext :=
  mkExt blk off (Zlen run) last (count_word (Zlen vs) flag tomb).

Section codec.
Context (vs : list bytes) (blk off : Z) (tomb : bool).
Context (Hn : Zlen vs < 2 ^ 30) (Hb : Zlen (prefixed vs) < U32).

Lemma fixed_decodes v vs' last : vs = v :: vs' -> 0 < Zlen v -> all_width (Zlen v) vs ->
  each_value (concat vs) (run_ext blk off (concat vs) last FIXED vs tomb) = (vs, Ok (Zlen vs)).
Proof.
  intros Hv Hp Hw. pose proof (Zlen_nonneg vs). pose proof (concat_width _ _ Hw) as Hc.
  assert (1 <= Zlen vs) by (rewrite Hv, Zlen_cons; pose proof (Zlen_nonneg vs'); lia).
  unfold each_value, fixed_width, is_fixed, records. cbn [run_ext e_count e_len].
  rewrite (count_word_fixed (Zlen vs) true tomb ltac:(lia)).
  rewrite (count_word_records (Zlen vs) true tomb ltac:(lia)). cbn [negb].
  rewrite Z.eqb_refl, Hc, (Z.mul_comm (Zlen vs)), Z.mod_mul, Z.div_mul by lia.
  rewrite (proj2 (Z.eqb_neq (Zlen vs) 0)) by lia. cbn [orb negb Z.eqb].
  rewrite (proj2 (Z.eqb_neq (Zlen v) 0)) by lia.
  rewrite chunks_exact_concat; [done | lia |].
  eapply Forall_impl; [exact Hw|]. intros x Hx. cbn in Hx. unfold Zlen in *. lia.
Qed.

Lemma prefixed_decodes last :
  each_value (prefixed vs) (run_ext blk off (prefixed vs) last 0 vs tomb) = (vs, Ok (Zlen vs)).
Proof.
  unfold each_value, is_fixed. cbn [run_ext e_count]. pose proof (Zlen_nonneg vs).
  rewrite (count_word_fixed (Zlen vs) false tomb ltac:(lia)).
  apply (each_go_prefixed [] vs); [by apply prefixed_u32_lens | done | unfold Zlen; lia].
Qed.
End codec.

Lemma run_codec vs blk off tomb :
  Zlen vs < 2 ^ 30 -> Zlen (prefixed vs) < U32 ->
  exists run last flag,
    encode_run (concat vs) (map Zlen vs) = Some (run, (last, flag)) /\
    let e := run_ext blk off run last flag vs tomb in
    each_value run e = (vs, Ok (Zlen vs)) /\
    records e = Zlen vs /\ is_tombstone e = tomb /\
    run_len (map Zlen vs) = Zlen run /\
    (forall vs0 v, vs = vs0 ++ [v] ->
       exists head, run = head ++ (if is_fixed e then v else uvarint (Zlen v) ++ v) /\ Zlen head = last).
Proof.
  intros Hn Hb. pose proof (Zlen_nonneg vs). unfold encode_run, run_len.
  destruct (run_fixed (map Zlen vs)) eqn:Hf.
  - apply run_fixed_true in Hf as (v & vs' & Hv & Hp & Hw).
    pose proof (concat_le_prefixed vs). pose proof (concat_width _ _ Hw) as Hc.
    eexists _, _, _. split; [done|]. cbn zeta. split; [by eapply fixed_decodes|].
    unfold records, is_tombstone, is_fixed. cbn [run_ext e_count].
    rewrite (count_word_fixed _ true), (count_word_tomb _ true), (count_word_records _ true) by lia.
    rewrite Zlen_map, Hv. cbn [map hd]. rewrite <- Hv.
    split; [done|]. split; [done|]. split; [lia|]. intros vs0 x Hx. exists (concat vs0).
    rewrite Hx, concat_app in *. simpl in *. rewrite app_nil_r in *. split; [done|].
    apply Forall_app in Hw as [Hw [Hx' _]%Forall_cons]. rewrite (concat_width _ _ Hw).
    rewrite Zlen_app, Zlen_cons, Zlen_nil in *. pose proof (Zlen_nonneg vs0).
    unfold w32, U32 in *.
    rewrite (Z.mod_small (_ + _)) by lia. rewrite (Z.mod_small (_ - 1)) by lia. rewrite Z.mod_small; nia.
  - pose proof (encode_go_prefixed [] vs 0 []) as He. cbn [app] in He. rewrite Zlen_nil in He.
    rewrite He. cbn [option_bind mbind].
    eexists _, _, _. split; [done|]. cbn zeta. split; [by apply prefixed_decodes|].
    unfold records, is_tombstone, is_fixed. cbn [run_ext e_count].
    rewrite (count_word_fixed _ false), (count_word_tomb _ false), (count_word_records _ false) by lia.
    split; [done|]. split; [done|]. split; [apply run_len_prefixed, prefixed_u32_lens; done|].
    intros vs0 v ->. exists (prefixed vs0). rewrite prefixed_app in *. simpl in *. rewrite app_nil_r in *.
    split; [done|]. rewrite Zlen_app in Hb. pose proof (Zlen_nonneg (uvarint (Zlen v) ++ v)).
    rewrite last_start_app; rewrite ?Zlen_nil; lia.
Qed.

(** What [encode_run] writes for any list of values, [each_value] hands
    back, value for value and in order, from the extent the writer records
    for it, whatever its tombstone flag; the extent's record count is the
    number of values; its [last] is where the newest value's record begins;
    and [reserve::run_len] is the length of the run. The bounds are the
    format's own: a count of 30 bits and a run a [u32] addresses. *)
Theorem run_roundtrip vs blk off tomb :
  Zlen vs < 2 ^ 30 -> Zlen (prefixed vs) < U32 ->
  exists run last flag,
    encode_run (concat vs) (map Zlen vs) = Some (run, (last, flag)) /\
    let e := run_ext blk off run last flag vs tomb in
    each_value run e = (vs, Ok (Zlen vs)) /\
    records e = Zlen vs /\ is_tombstone e = tomb /\
    run_len (map Zlen vs) = Zlen run /\
    (forall vs0 v, vs = vs0 ++ [v] ->
       exists head, run = head ++ (if is_fixed e then v else uvarint (Zlen v) ++ v) /\ Zlen head = last).
Proof. apply run_codec. Qed.

Lemma run_roundtrip_witness :
  exists run last flag, encode_run [x61; x62; x63] [1; 2] = Some (run, (last, flag)) /\ Zlen run = 5.
Proof.
  destruct (run_roundtrip [[x61]; [x62; x63]] 0 0 true ltac:(vm_compute; done) ltac:(vm_compute; done))
    as (run & last & flag & He & _ & _ & _ & Hl & _).
  exists run, last, flag. split; [exact He|]. rewrite <- Hl. reflexivity.
Defined.

Lemma each_go_bounds fuel run p n vs r : each_go fuel run p n = (vs, r) -> 0 <= p <= Zlen run ->
  Zlen (concat vs) <= Zlen run - p /\ (forall m, r = Ok m -> m = n + Zlen vs).
Proof.
  revert p n vs r. induction fuel as [|fuel IH]; intros p n vs r; cbn [each_go].
  { intros [= <- <-] ?. simpl. rewrite !Zlen_nil. split; [lia|]. intros m [= ->]. rewrite ?Zlen_nil. lia. }
  destruct (Z.ltb_spec p (Zlen run)) as [Hp|]; cbn [negb];
    [|intros [= <- <-] ?; simpl; rewrite !Zlen_nil; split; [lia|]; intros m [= ->]; rewrite ?Zlen_nil; lia].
  destruct (Index.get_uvarint run p) as [len q] eqn:E. intros H ?.
  pose proof (get_uvarint_adv _ _ _ _ E ltac:(lia)). pose proof (get_uvarint_range _ _ _ _ E).
  destruct (cadd q len) as [en|] eqn:Ec; [|simplify_eq; simpl; rewrite !Zlen_nil; split; [lia|done]].
  apply cadd_Some in Ec as [-> _].
  destruct (Z.ltb_spec (Zlen run) (q + len)); [simplify_eq; simpl; rewrite !Zlen_nil; split; [lia|done]|].
  destruct (get_range run q (q + len)) as [v|] eqn:Er; [|simplify_eq; simpl; rewrite !Zlen_nil; split; [lia|done]].
  destruct (each_go fuel run (q + len) (n + 1)) as [vs' r'] eqn:Eg. simplify_eq.
  apply IH in Eg as [Hl Hr]; [|lia]. apply get_range_len in Er. simpl. rewrite Zlen_app, Zlen_cons.
  split; [lia|]. intros m ->. rewrite (Hr m eq_refl). lia.
Qed.

Lemma chunks_exact_le w (l : bytes) : Zlen (concat (chunks_exact w l)) <= Zlen l.
Proof.
  unfold chunks_exact. generalize (length l) as fuel. intros fuel. revert l.
  induction fuel as [|fuel IH]; intros l; simpl; [apply Zlen_nonneg|].
  case_decide; simpl; [|apply Zlen_nonneg]. specialize (IH (drop w l)).
  rewrite Zlen_app. rewrite Zlen_drop in IH. rewrite Zlen_take. unfold Zlen in *. lia.
Qed.

(** On any bytes whatever, damaged or not, the decoder ends within the
    fuel it is given, and it never hands out a byte that is not of the run:
    what it hands out, prefixes included, fits in the run. *)
Theorem each_value_bounded run e :
  (forall k, each_go (S (length run) + k) run 0 0 = each_go (S (length run)) run 0 0) /\
  Zlen (concat (fst (each_value run e))) <= Zlen run /\
  (forall n, snd (each_value run e) = Ok n -> n = Zlen (fst (each_value run e))).
Proof.
  pose proof (Zlen_nonneg run). split; [|split].
  - intros k. apply each_go_fuel; unfold Zlen; lia.
  - unfold each_value. destruct (is_fixed e).
    + repeat case_match; simpl; try apply Zlen_nonneg. apply chunks_exact_le.
    + destruct (each_go _ run 0 0) as [vs r] eqn:E. apply each_go_bounds in E as [E _]; [simpl; lia|lia..].
  - unfold each_value. intros n. destruct (is_fixed e).
    + repeat case_match; simpl; intros; simplify_eq; done.
    + destruct (each_go _ run 0 0) as [vs r] eqn:E. simpl. apply each_go_bounds in E as [_ E]; [|lia..].
      intros ->. specialize (E n eq_refl). lia.
Qed.
