(* ===== verification/Crc.v ===== *)
(** * CRC-32C: the checksum every stored byte is covered by

    [src/src/block.rs], lines 23 to 270: the tables, the slice-by-8 scalar
    path, the two hardware paths, resuming a finished CRC, and combining the
    CRCs of two inputs into that of their concatenation. The specification
    all of them are held to is the bit-serial register [crc_spec]. The CRC
    instructions of x86-64 and AArch64 are parameters of the hardware paths,
    with their documented behaviour as hypotheses. *)

From S2P Require Import Prelude.

Definition CASTAGNOLI : Z := 0x82F63B78.

(** ** The code *)

(** The body of the table's inner loop: one bit of the register. *)
Definition crc_bit (c : Z) : Z :=
  if negb (Z.land c 1 =? 0) then Z.lxor CASTAGNOLI (Z.shiftr c 1) else Z.shiftr c 1.

(** [t[0]]: eight turns of it on each byte. *)
Definition crc_table0 : list Z := map (fun i => Nat.iter 8 crc_bit (Z.of_nat i)) (seq 0 256).

Definition tab (t : list Z) (i : Z) : Z := nth (Z.to_nat i) t 0.

(** [t[j]] from [t[j - 1]]. *)
Definition crc_table_next (prev : list Z) : list Z :=
  map (fun p => Z.lxor (Z.shiftr p 8) (tab crc_table0 (Z.land p 0xff))) prev.

Definition build_crc_tables : list (list Z) :=
  map (fun j => Nat.iter j crc_table_next crc_table0) (seq 0 8).

Definition CRC_TABLES (j : nat) (i : Z) : Z := tab (nth j build_crc_tables []) i.

Definition byte_at (c : Z) (s : Z) : Z := Z.land (Z.shiftr c s) 0xff.

(** One turn of the slice-by-8 loop, on the eight bytes [w]. *)
Definition crc_word (c : Z) (w : bytes) : Z :=
  let lo := Z.lxor (le_val (take 4 w)) c in
  let hi := le_val (drop 4 w) in
  Z.lxor (Z.lxor (Z.lxor (Z.lxor (Z.lxor (Z.lxor (Z.lxor
    (CRC_TABLES 7 (byte_at lo 0)) (CRC_TABLES 6 (byte_at lo 8))) (CRC_TABLES 5 (byte_at lo 16)))
    (CRC_TABLES 4 (byte_at lo 24))) (CRC_TABLES 3 (byte_at hi 0))) (CRC_TABLES 2 (byte_at hi 8)))
    (CRC_TABLES 1 (byte_at hi 16))) (CRC_TABLES 0 (byte_at hi 24)).

(** One turn of the loop over the bytes left. *)
Definition crc_byte (c : Z) (b : byte) : Z :=
  Z.lxor (CRC_TABLES 0 (Z.land (Z.lxor c (b2z b)) 0xff)) (Z.shiftr c 8).

(** [data.as_chunks::<8>()]: the words, then the rest. *)
Definition as_chunks8 (data : bytes) : list bytes * bytes :=
  let n := (length data / 8)%nat in
  (chunks_exact 8 (take (n * 8) data), drop (n * 8) data).

Definition FINAL : Z := 0xFFFFFFFF.

Definition crc32c_scalar (init : Z) (data : bytes) : Z :=
  let '(words, rest) := as_chunks8 data in
  Z.lxor (fold_left crc_byte rest (fold_left crc_word words init)) FINAL.

(** The hardware paths, over the two instructions of the machine: one takes
    eight bytes as a little-endian word, one takes a byte. On x86-64 the
    first's register is 64 bits wide, truncated before the rest. *)
Section hardware.
Context (crc32_u64 : Z -> Z -> Z) (crc32_u8 : Z -> byte -> Z).

Definition crc32c_hw (init : Z) (data : bytes) : Z :=
  let '(words, rest) := as_chunks8 data in
  let c := fold_left (fun c w => crc32_u64 c (le_val w)) words init in
  Z.lxor (fold_left crc32_u8 rest (w32 c)) FINAL.

(** The feature flag decides; whether it is cached does not show. *)
Definition crc32_from (has_crc : bool) (init : Z) (data : bytes) : Z :=
  if has_crc then crc32c_hw init data else crc32c_scalar init data.
End hardware.

Definition crc32 (data : bytes) : Z := crc32c_scalar FINAL data.
Definition crc32_resume (prev : Z) (data : bytes) : Z := crc32c_scalar (Z.lxor prev FINAL) data.

(** [gf2_times]: a 32-bit vector has 32 turns. The matrix is indexed by the
    turn, so below 32. *)
Fixpoint gf2_go (fuel : nat) (mat : list Z) (vec : Z) (i : nat) (sum : Z) : Z :=
  match fuel with
  | O => sum
  | S fuel =>
      if vec =? 0 then sum
      else gf2_go fuel mat (Z.shiftr vec 1) (S i)
             (if negb (Z.land vec 1 =? 0) then Z.lxor sum (nth i mat 0) else sum)
  end.

Definition gf2_times (mat : list Z) (vec : Z) : Z := gf2_go 32 mat vec 0 0.
Definition gf2_square (mat : list Z) : list Z := map (gf2_times mat) mat.

(** The operator for one zero bit: the polynomial, then the powers of two. *)
Definition crc_odd : list Z := CASTAGNOLI :: map (fun i => Z.shiftl 1 (Z.of_nat i)) (seq 0 31).

Definition crc_shift (k : nat) : list Z :=
  Nat.iter k gf2_square (gf2_square (gf2_square (gf2_square crc_odd))).

Definition crc32c_shift_matrices : list (list Z) := map crc_shift (seq 0 64).

Fixpoint combine_go (fuel : nat) (shifts : list (list Z)) (c n : Z) (k : nat) : Z :=
  match fuel with
  | O => c
  | S fuel =>
      if n =? 0 then c
      else combine_go fuel shifts
             (if negb (Z.land n 1 =? 0) then gf2_times (nth k shifts []) c else c)
             (Z.shiftr n 1) (S k)
  end.

Definition crc32_combine (crc1 crc2 len2 : Z) : Z :=
  if len2 =? 0 then crc1
  else Z.lxor (combine_go 64 crc32c_shift_matrices crc1 len2 0) crc2.

(** ** The specification: a bit-serial register *)

Definition spec_byte (c : Z) (b : byte) : Z := Nat.iter 8 crc_bit (Z.lxor c (b2z b)).
Definition spec_state (c : Z) (data : bytes) : Z := fold_left spec_byte data c.
Definition crc_spec (data : bytes) : Z := Z.lxor (spec_state FINAL data) FINAL.

(** ** The register is linear over xor *)

Lemma land_1_odd c : negb (Z.land c 1 =? 0) = Z.odd c.
Proof.
  change 1 with (2 ^ 1 - 1) at 1. rewrite land_ones_mod by lia. change (2 ^ 1) with 2.
  rewrite Zmod_odd. by destruct (Z.odd c).
Qed.

Lemma crc_bit_alt c : crc_bit c = Z.lxor (Z.shiftr c 1) (if Z.odd c then CASTAGNOLI else 0).
Proof.
  unfold crc_bit. rewrite land_1_odd. destruct (Z.odd c); [apply Z.lxor_comm | by rewrite Z.lxor_0_r].
Qed.

(** Rearrange an xor of four. *)
Lemma lxor_4 a b c d : Z.lxor (Z.lxor a b) (Z.lxor c d) = Z.lxor (Z.lxor a c) (Z.lxor b d).
Proof.
  rewrite !Z.lxor_assoc. f_equal. rewrite <- !Z.lxor_assoc. f_equal. apply Z.lxor_comm.
Qed.

Definition linear (f : Z -> Z) : Prop := forall a b, f (Z.lxor a b) = Z.lxor (f a) (f b).

Lemma crc_bit_linear : linear crc_bit.
Proof.
  intros a b. rewrite !crc_bit_alt, Z.shiftr_lxor, lxor_4. f_equal.
  rewrite <- !Z.bit0_odd, Z.lxor_spec. by destruct (Z.testbit a 0), (Z.testbit b 0).
Qed.

Lemma iter_linear f n : linear f -> linear (Nat.iter n f).
Proof. intros Hf a b. induction n as [|n IH]; [done|]. simpl. by rewrite IH, Hf. Qed.

(** [n] bits of the register. *)
Abbreviation bits n := (Nat.iter n crc_bit).

Lemma bits_linear n : linear (bits n).
Proof. apply iter_linear, crc_bit_linear. Qed.

Lemma linear_0 f : linear f -> f 0 = 0.
Proof. intros Hf. pose proof (Hf 0 0) as H. rewrite !Z.lxor_nilpotent in H. done. Qed.

Lemma crc_bit_range c : 0 <= c < U32 -> 0 <= crc_bit c < U32.
Proof.
  intros. rewrite crc_bit_alt. apply lxor_range; [lia| apply shiftr_range; [lia|done] |].
  by destruct (Z.odd c).
Qed.

Lemma bits_range n c : 0 <= c < U32 -> 0 <= bits n c < U32.
Proof. intros. induction n; simpl; auto using crc_bit_range. Qed.

(** A bit above the lowest is shifted down, and nothing else happens. *)
Lemma bits_shiftl n m x : (n <= m)%nat -> bits n (Z.shiftl x (Z.of_nat m)) = Z.shiftl x (Z.of_nat (m - n)).
Proof.
  revert m. induction n as [|n IH]; intros m Hm; [by rewrite Nat.sub_0_r|].
  simpl. rewrite IH by lia. rewrite crc_bit_alt.
  replace (Z.of_nat (m - n)) with (Z.of_nat (m - S n) + 1) by lia.
  rewrite <- Z.bit0_odd, Z.shiftl_spec_low by lia. rewrite Z.lxor_0_r.
  rewrite <- Z.shiftl_shiftl, <- (Z.shiftl_opp_r _ 1), Z.shiftl_shiftl by lia.
  f_equal; lia.
Qed.

Lemma bits_add n m c : bits (n + m) c = bits n (bits m c).
Proof. apply Nat.iter_add. Qed.

(** Splitting a value at a byte boundary. *)
Lemma split_at s c : 0 <= s -> c = Z.lxor (Z.land c (Z.ones s)) (Z.shiftl (Z.shiftr c s) s).
Proof.
  intros Hs. apply Z.bits_inj'. intros n Hn. rewrite Z.lxor_spec, Z.land_spec.
  destruct (Z.lt_ge_cases n s).
  - rewrite Z.shiftl_spec_low, Z.ones_spec_low by lia. by rewrite andb_true_r, xorb_false_r.
  - rewrite Z.shiftl_spec_high, Z.ones_spec_high, Z.shiftr_spec by lia. rewrite andb_false_r, xorb_false_l.
    f_equal. lia.
Qed.

(** The table holds eight bits of the register; the rest of the register
    shifts down beside it. *)
Lemma bits_8_split c : bits 8 c = Z.lxor (bits 8 (Z.land c 0xff)) (Z.shiftr c 8).
Proof.
  rewrite (split_at 8 c) at 1 by lia. rewrite bits_linear. f_equal.
  pose proof (bits_shiftl 8 8 (Z.shiftr c 8) ltac:(lia)) as H. change (Z.of_nat 8) with 8 in H.
  by rewrite H.
Qed.

(** ** The tables *)

Lemma nth_map_lt {A B} (f : A -> B) l n da db : (n < length l)%nat -> nth n (map f l) db = f (nth n l da).
Proof. intros. rewrite (nth_indep _ db (f da)) by (by rewrite length_map). apply map_nth. Qed.

Lemma crc_table0_spec i : 0 <= i < 256 -> tab crc_table0 i = bits 8 i.
Proof.
  intros Hi. unfold tab, crc_table0.
  rewrite (nth_map_lt _ _ _ O) by (rewrite length_seq; lia). rewrite seq_nth by lia. f_equal. lia.
Qed.

Lemma land_ff_range c : 0 <= Z.land c 0xff < 256.
Proof.
  change 0xff with (2 ^ 8 - 1). rewrite land_ones_mod by lia. by apply Z.mod_pos_bound.
Qed.

Lemma crc_tables_spec j : (j < 8)%nat -> forall i, 0 <= i < 256 -> CRC_TABLES j i = bits (8 * (j + 1)) i.
Proof.
  intros Hj. unfold CRC_TABLES, build_crc_tables.
  rewrite (nth_map_lt _ _ _ O) by (rewrite length_seq; lia). rewrite seq_nth by lia.
  rewrite Nat.add_0_l. clear Hj.
  assert (forall j, length (Nat.iter j crc_table_next crc_table0) = 256%nat) as Hl.
  { intros k. induction k as [|k IH]; [done|]. simpl. unfold crc_table_next. by rewrite length_map. }
  induction j as [|j IH]; intros i Hi; [by apply crc_table0_spec|].
  change (Nat.iter (S j) crc_table_next crc_table0) with (crc_table_next (Nat.iter j crc_table_next crc_table0)).
  unfold tab, crc_table_next at 1. rewrite (nth_map_lt _ _ _ 0) by (rewrite Hl; lia).
  change (nth _ (Nat.iter j crc_table_next crc_table0) 0) with (tab (Nat.iter j crc_table_next crc_table0) i).
  rewrite IH by done. rewrite crc_table0_spec by apply land_ff_range.
  rewrite Z.lxor_comm, <- bits_8_split, <- bits_add. f_equal. lia.
Qed.

(** ** The scalar path computes the register *)

Lemma crc_byte_spec c b : 0 <= c -> crc_byte c b = spec_byte c b.
Proof.
  intros Hc. unfold crc_byte, spec_byte. rewrite (crc_tables_spec 0) by (lia || apply land_ff_range).
  rewrite (bits_8_split (Z.lxor c (b2z b))), Z.shiftr_lxor. f_equal.
  replace (Z.shiftr (b2z b) 8) with 0; [by rewrite Z.lxor_0_r|].
  rewrite Z.shiftr_div_pow2 by lia. pose proof (b2z_range b). by rewrite Z.div_small.
Qed.

(** Feeding bytes one at a time is feeding their little-endian word. *)
Lemma spec_state_word c w : spec_state c w = bits (8 * length w) (Z.lxor c (le_val w)).
Proof.
  revert c. induction w as [|b w IH] using rev_ind; intros c; [by rewrite Z.lxor_0_r|].
  unfold spec_state in *. rewrite fold_left_app. cbn [fold_left]. rewrite IH. unfold spec_byte.
  rewrite length_app, le_val_app. cbn [le_val length]. rewrite Z.mul_0_r, Z.add_0_r.
  replace (8 * (length w + 1))%nat with (8 + 8 * length w)%nat by lia. rewrite bits_add. f_equal.
  assert (le_val w + 256 ^ Zlen w * b2z b = Z.lxor (le_val w) (Z.shiftl (b2z b) (Z.of_nat (8 * length w)))) as ->.
  { pose proof (le_val_range w).
    assert (2 ^ Z.of_nat (8 * length w) = 256 ^ Zlen w) as Hp
      by (rewrite Nat2Z.inj_mul, Z.pow_mul_r by lia; done).
    rewrite lxor_disjoint_add; lia. }
  rewrite <- Z.lxor_assoc, (bits_linear _ _ (Z.shiftl _ _)). f_equal. rewrite bits_shiftl by lia. by rewrite Nat.sub_diag, Z.shiftl_0_r.
Qed.

(** The four bytes of a 32-bit word, each by its own table. *)
Lemma bits_bytes m x : 0 <= x < U32 ->
  bits (32 + m) x = Z.lxor (Z.lxor (Z.lxor (bits (32 + m) (byte_at x 0)) (bits (24 + m) (byte_at x 8)))
    (bits (16 + m) (byte_at x 16))) (bits (8 + m) (byte_at x 24)).
Proof.
  intros Hx.
  assert (x = Z.lxor (Z.lxor (Z.lxor (byte_at x 0) (Z.shiftl (byte_at x 8) 8))
                (Z.shiftl (byte_at x 16) 16)) (Z.shiftl (byte_at x 24) 24)) as E.
  { assert (forall k y, 0 <= k -> Z.shiftr y k = Z.lxor (byte_at y k) (Z.shiftl (Z.shiftr y (k + 8)) 8)) as Hs.
    { intros k y Hk. rewrite (split_at 8 (Z.shiftr y k)) at 1 by lia. by rewrite Z.shiftr_shiftr by lia. }
    rewrite <- (Z.shiftr_0_r x) at 1. rewrite (Hs 0) by lia. rewrite (Hs 8), (Hs 16), (Hs 24) by lia.
    replace (Z.shiftr x (24 + 8)) with 0
      by (rewrite Z.shiftr_div_pow2 by lia; symmetry; apply Z.div_small; exact Hx).
    rewrite Z.shiftl_0_l, Z.lxor_0_r, !Z.shiftl_lxor, !Z.shiftl_shiftl, !Z.lxor_assoc by lia. done. }
  rewrite E at 1. rewrite !bits_linear.
  assert (forall j n y, (Z.of_nat j = n) -> bits (j + (32 - j) + m) (Z.shiftl y n) = bits (32 - j + m) y) as Hb.
  { intros j n y <-. replace (j + (32 - j) + m)%nat with ((32 - j + m) + j)%nat by lia.
    rewrite bits_add, bits_shiftl by lia. by rewrite Nat.sub_diag, Z.shiftl_0_r. }
  by rewrite (Hb 8%nat 8), (Hb 16%nat 16), (Hb 24%nat 24) by lia.
Qed.

Lemma byte_at_range x s : 0 <= byte_at x s < 256.
Proof. apply land_ff_range. Qed.

Lemma crc_word_spec c w : 0 <= c < U32 -> length w = 8%nat -> crc_word c w = spec_state c w.
Proof.
  intros Hc Hw. rewrite spec_state_word, Hw. unfold crc_word. cbv zeta.
  rewrite !crc_tables_spec by (lia || apply byte_at_range).
  pose proof (le_val_range (take 4 w)) as H1. pose proof (le_val_range (drop 4 w)) as H2.
  assert (Zlen (take 4 w) = 4 /\ Zlen (drop 4 w) = 4) as [E1 E2] by (zlen; unfold Zlen; lia).
  rewrite E1 in H1. rewrite E2 in H2. change (256 ^ 4) with U32 in *.
  rewrite <- (take_drop 4 w) at 9. rewrite le_val_app, E1.
  change (256 ^ 4) with (2 ^ 32). rewrite (Z.mul_comm (2 ^ 32)), <- lxor_disjoint_add by (done || lia).
  rewrite <- Z.lxor_assoc, (bits_linear _ _ (Z.shiftl _ _)), (Z.lxor_comm c).
  assert (bits (8 * 8) (Z.shiftl (le_val (drop 4 w)) 32) = bits 32 (le_val (drop 4 w))) as ->.
  { change (8 * 8)%nat with (32 + 32)%nat. rewrite bits_add.
    pose proof (bits_shiftl 32 32 (le_val (drop 4 w)) ltac:(lia)) as Hs.
    rewrite Nat.sub_diag, Z.shiftl_0_r in Hs. change (Z.of_nat 32) with 32 in Hs. by rewrite Hs. }
  pose proof (bits_bytes 32 (Z.lxor (le_val (take 4 w)) c) ltac:(apply lxor_range; [lia|done..])) as Hlo.
  pose proof (bits_bytes 0 (le_val (drop 4 w)) H2) as Hhi.
  cbn [Nat.add Nat.mul] in *. rewrite Hlo, Hhi, !Z.lxor_assoc. done.
Qed.

Lemma spec_state_range c d : 0 <= c < U32 -> 0 <= spec_state c d < U32.
Proof.
  revert c. induction d as [|b d IH]; intros c Hc; [done|]. apply IH. unfold spec_byte.
  apply bits_range, lxor_range; [lia|done|]. pose proof (b2z_range b). unfold U32. lia.
Qed.

Lemma spec_state_app c a b : spec_state c (a ++ b) = spec_state (spec_state c a) b.
Proof. apply fold_left_app. Qed.

Lemma chunks_exact_parts {A} (w : nat) (l : list A) n : (0 < w)%nat -> length l = (n * w)%nat ->
  concat (chunks_exact w l) = l /\ Forall (fun v => length v = w) (chunks_exact w l).
Proof.
  intros Hw. unfold chunks_exact. generalize (Nat.le_refl (length l)). generalize (length l) at 2 4 5 as fuel.
  intros fuel. revert l n. induction fuel as [|fuel IH]; intros l n Hf Hl.
  - destruct l; [by split|simpl in Hf; lia].
  - cbn [chunks_exact_go]. destruct n as [|n].
    + destruct l; [|simpl in Hl; lia]. rewrite decide_False by (simpl; lia). by split.
    + rewrite decide_True by lia. cbn [concat].
      destruct (IH (drop w l) n) as [E F]; [rewrite length_drop; lia..|].
      rewrite E, take_drop. split; [done|]. constructor; [rewrite length_take; lia|done].
Qed.

Lemma as_chunks8_parts data words rest : as_chunks8 data = (words, rest) ->
  data = concat words ++ rest /\ Forall (fun w => length w = 8%nat) words.
Proof.
  intros H. replace words with (fst (as_chunks8 data)) by (by rewrite H).
  replace rest with (snd (as_chunks8 data)) by (by rewrite H). clear H. unfold as_chunks8. cbn [fst snd].
  destruct (chunks_exact_parts 8 (take (length data / 8 * 8) data) (length data / 8)) as [E F];
    [lia|rewrite length_take; pose proof (Nat.div_mod (length data) 8); lia|].
  rewrite E, take_drop. done.
Qed.

(** Any word step that agrees with the register on words, and any byte step
    that agrees on bytes, compute the register over a buffer. *)
Lemma sliced_spec fw fb words rest c : 0 <= c < U32 ->
  (forall c w, 0 <= c < U32 -> length w = 8%nat -> fw c w = spec_state c w) ->
  (forall c b, 0 <= c < U32 -> fb c b = spec_byte c b) ->
  Forall (fun w => length w = 8%nat) words ->
  fold_left fb rest (w32 (fold_left fw words c)) = spec_state c (concat words ++ rest) /\
  0 <= fold_left fw words c < U32.
Proof.
  intros Hc Hfw Hfb Hw. revert c Hc. induction Hw as [|w words Hlen _ IH]; intros c Hc.
  - cbn [fold_left concat app]. unfold w32. rewrite Z.mod_small by done. split; [|done].
    revert c Hc. induction rest as [|b rest IH]; intros c Hc; [done|]. simpl. rewrite Hfb by done.
    apply IH. by apply (spec_state_range c [b]).
  - cbn [fold_left concat]. rewrite Hfw, <- app_assoc, spec_state_app by done. by apply IH, spec_state_range.
Qed.

Lemma crc32c_scalar_spec init data : 0 <= init < U32 ->
  crc32c_scalar init data = Z.lxor (spec_state init data) FINAL.
Proof.
  intros Hi. unfold crc32c_scalar. destruct (as_chunks8 data) as [words rest] eqn:E.
  apply as_chunks8_parts in E as [-> Hw]. f_equal.
  destruct (sliced_spec crc_word crc_byte words rest init) as [Hs Hr]; try done.
  - apply crc_word_spec.
  - intros c b Hc. apply crc_byte_spec. lia.
  - rewrite <- Hs. unfold w32. by rewrite Z.mod_small.
Qed.

Lemma crc32_spec data : crc32 data = crc_spec data.
Proof. by apply crc32c_scalar_spec. Qed.

(** What Intel's and Arm's manuals state of the CRC-32C instructions: a
    byte or an eight-byte word into the bit-serial register. *)
Definition crc_u64_documented (crc32_u64 : Z -> Z -> Z) : Prop :=
  forall c v, 0 <= c < U32 -> crc32_u64 c v = bits 64 (Z.lxor c v).
Definition crc_u8_documented (crc32_u8 : Z -> byte -> Z) : Prop :=
  forall c b, 0 <= c < U32 -> crc32_u8 c b = bits 8 (Z.lxor c (b2z b)).

(** The table-driven slice-by-8 path computes the bit-serial CRC-32C of
    any data from any 32-bit state, and so does the hardware path wherever
    the machine's instructions do what their manual says: the two
    implementations cannot diverge, whichever the feature flag picks. *)
Theorem crc_paths_agree crc32_u64 crc32_u8 has_crc init data :
  crc_u64_documented crc32_u64 -> crc_u8_documented crc32_u8 -> 0 <= init < U32 ->
  crc32c_scalar init data = Z.lxor (spec_state init data) FINAL /\
  crc32_from crc32_u64 crc32_u8 has_crc init data = crc32c_scalar init data.
Proof.
  intros Hw Hb Hi. split; [by apply crc32c_scalar_spec|]. destruct has_crc; [|done].
  rewrite crc32c_scalar_spec by done. unfold crc32_from, crc32c_hw.
  destruct (as_chunks8 data) as [words rest] eqn:E. apply as_chunks8_parts in E as [-> Hl]. f_equal.
  apply (sliced_spec (fun c w => crc32_u64 c (le_val w)) crc32_u8); try done.
  intros c w Hc Hlen. rewrite spec_state_word, Hlen. by apply Hw.
Qed.

Lemma crc_paths_agree_witness :
  crc32_from (fun c v => bits 64 (Z.lxor c v)) (fun c b => bits 8 (Z.lxor c (b2z b))) true FINAL
    (list_byte_of_string "123456789") = 0xE3069283.
Proof.
  rewrite (proj2 (crc_paths_agree _ _ true FINAL (list_byte_of_string "123456789")
    (fun c v _ => eq_refl) (fun c b _ => eq_refl) ltac:(vm_compute; done))).
  vm_compute. reflexivity.
Defined.

(** ** Shifting a CRC past zero bytes, as a product of matrices *)

(** [mat] is the matrix of [f]: its rows are [f] of the powers of two. *)
Definition matrix_of (mat : list Z) (f : Z -> Z) : Prop :=
  length mat = 32%nat /\ forall i, (i < 32)%nat -> nth i mat 0 = f (2 ^ Z.of_nat i).

Lemma low_bit_split v : 0 <= v -> v = Z.lxor (if Z.odd v then 1 else 0) (Z.shiftl (Z.shiftr v 1) 1).
Proof.
  intros Hv. rewrite (split_at 1 v) at 1 by lia. f_equal.
  change (Z.ones 1) with (2 ^ 1 - 1). rewrite land_ones_mod by lia. change (2 ^ 1) with 2. apply Zmod_odd.
Qed.

Lemma gf2_go_spec fuel mat f v i sum : linear f -> matrix_of mat f -> (fuel + i = 32)%nat -> 0 <= v < 2 ^ Z.of_nat fuel ->
  gf2_go fuel mat v i sum = Z.lxor sum (f (Z.shiftl v (Z.of_nat i))).
Proof.
  intros Hf [_ Hm]. revert v i sum. induction fuel as [|fuel IH]; intros v i sum Hi Hv; cbn [gf2_go].
  - assert (v = 0) as -> by (simpl in Hv; lia). rewrite Z.shiftl_0_l, (linear_0 f Hf). by rewrite Z.lxor_0_r.
  - destruct (Z.eqb_spec v 0) as [->|Hnz].
    { rewrite Z.shiftl_0_l, (linear_0 f Hf). by rewrite Z.lxor_0_r. }
    rewrite land_1_odd. rewrite Nat2Z.inj_succ, Z.pow_succ_r in Hv by lia.
    rewrite IH; [|lia|rewrite Z.shiftr_div_pow2 by lia; change (2 ^ 1) with 2;
      split; [apply Z.div_pos; lia | apply Z.div_lt_upper_bound; lia]].
    rewrite (low_bit_split v) at 3 by lia. rewrite Z.shiftl_lxor, Hf.
    rewrite (Z.shiftl_shiftl (Z.shiftr v 1) 1 (Z.of_nat i)) by lia.
    replace (1 + Z.of_nat i) with (Z.of_nat (S i)) by lia.
    rewrite <- Z.lxor_assoc. f_equal. destruct (Z.odd v).
    + rewrite Hm by lia. f_equal. f_equal. rewrite Z.shiftl_mul_pow2 by lia. lia.
    + rewrite Z.shiftl_0_l, (linear_0 f Hf). by rewrite Z.lxor_0_r.
Qed.

Lemma gf2_times_spec mat f v : linear f -> matrix_of mat f -> 0 <= v < U32 -> gf2_times mat v = f v.
Proof.
  intros Hf Hm Hv. unfold gf2_times. rewrite (gf2_go_spec _ _ f) by done.
  by rewrite Z.lxor_0_l, Z.shiftl_0_r.
Qed.

(** Squaring a matrix doubles the turns. *)
Lemma gf2_square_spec mat n : matrix_of mat (bits n) -> matrix_of (gf2_square mat) (bits (n + n)).
Proof.
  intros Hm. destruct (Hm) as [Hl Hr]. split; [by unfold gf2_square; rewrite length_map|].
  intros i Hi. unfold gf2_square. rewrite (nth_map_lt _ _ _ 0) by lia. rewrite Hr by done.
  assert (0 <= 2 ^ Z.of_nat i < U32)
    by (split; [apply Z.pow_nonneg; lia | apply Z.pow_lt_mono_r; lia]).
  rewrite (gf2_times_spec _ (bits n)) by (done || apply bits_linear || by apply bits_range).
  by rewrite bits_add.
Qed.

Lemma crc_odd_spec : matrix_of crc_odd (bits 1).
Proof.
  split; [done|]. intros i Hi. do 32 (destruct i as [|i]; [reflexivity|]). lia.
Qed.

Lemma crc_shift_spec k : matrix_of (crc_shift k) (bits (2 ^ k * 8)).
Proof.
  unfold crc_shift. induction k as [|k IH].
  - change (2 ^ 0 * 8)%nat with (((1 + 1) + (1 + 1)) + ((1 + 1) + (1 + 1)))%nat.
    do 3 apply gf2_square_spec. apply crc_odd_spec.
  - replace (2 ^ S k * 8)%nat with (2 ^ k * 8 + 2 ^ k * 8)%nat by (simpl; lia).
    by apply gf2_square_spec in IH.
Qed.

Lemma nth_shift k : (k < 64)%nat -> nth k crc32c_shift_matrices [] = crc_shift k.
Proof.
  intros Hk. unfold crc32c_shift_matrices. rewrite (nth_map_lt _ _ _ O) by (rewrite length_seq; lia).
  by rewrite seq_nth by lia.
Qed.

(** [m] zero bytes past the register, the count kept as a number too large
    for the loop to run bit by bit. *)
Definition zero_bytes (m : Z) (c : Z) : Z := Nat.iter (Z.to_nat m * 8) crc_bit c.

Lemma combine_go_spec fuel c n k : 0 <= c < U32 -> 0 <= n < 2 ^ Z.of_nat fuel -> (fuel + k = 64)%nat ->
  combine_go fuel crc32c_shift_matrices c n k = zero_bytes (n * 2 ^ Z.of_nat k) c.
Proof.
  revert c n k. induction fuel as [|fuel IH]; intros c n k Hc Hn Hk; cbn [combine_go].
  - by assert (n = 0) as -> by (simpl in Hn; lia).
  - destruct (Z.eqb_spec n 0) as [->|Hnz]; [done|].
    rewrite land_1_odd, nth_shift by lia. rewrite Nat2Z.inj_succ, Z.pow_succ_r in Hn by lia.
    rewrite Z.shiftr_div_pow2 by lia. change (2 ^ 1) with 2.
    pose proof (Z.div_mod n 2 ltac:(lia)) as Hd. rewrite Zmod_odd in Hd.
    assert (0 <= n / 2 < 2 ^ Z.of_nat fuel)
      by (split; [apply Z.div_pos; lia | apply Z.div_lt_upper_bound; lia]).
    pose proof (Z.pow_pos_nonneg 2 (Z.of_nat k) ltac:(lia) ltac:(lia)) as Hp.
    assert (2 ^ Z.of_nat (S k) = 2 * 2 ^ Z.of_nat k) as HS by (rewrite Nat2Z.inj_succ, Z.pow_succ_r; lia).
    assert (Z.to_nat (2 ^ Z.of_nat k) = 2 ^ k)%nat as HN
      by (apply Nat2Z.inj; rewrite Z2Nat.id, Nat2Z.inj_pow by lia; done).
    rewrite IH by (lia || (destruct (Z.odd n); [|done];
      rewrite (gf2_times_spec _ _ _ (bits_linear _) (crc_shift_spec k)) by done; by apply bits_range)).
    unfold zero_bytes. destruct (Z.odd n).
    + rewrite (gf2_times_spec _ _ _ (bits_linear _) (crc_shift_spec k)) by done.
      rewrite <- bits_add. f_equal. rewrite Hd at 2. rewrite HS. nia.
    + f_equal. rewrite Hd at 2. rewrite HS. f_equal. nia.
Qed.

(** The register's state enters a message as a xor with its zeros. *)
Lemma spec_state_lxor x y d : spec_state (Z.lxor x y) d = Z.lxor (spec_state x d) (zero_bytes (Zlen d) y).
Proof.
  rewrite !spec_state_word. unfold zero_bytes.
  replace (Z.to_nat (Zlen d) * 8)%nat with (8 * length d)%nat by (unfold Zlen; lia).
  rewrite <- bits_linear. f_equal. rewrite !Z.lxor_assoc. f_equal. apply Z.lxor_comm.
Qed.

Lemma lxor_cancel a b : Z.lxor (Z.lxor a b) b = a.
Proof. by rewrite Z.lxor_assoc, Z.lxor_nilpotent, Z.lxor_0_r. Qed.

Lemma crc32_range d : 0 <= crc32 d < U32.
Proof.
  rewrite crc32_spec. apply lxor_range; [lia|by apply spec_state_range|done].
Qed.

Lemma crc32_combine_app a b : Zlen b < U64 -> crc32_combine (crc32 a) (crc32 b) (Zlen b) = crc32 (a ++ b).
Proof.
  intros Hb. unfold crc32_combine. destruct (Z.eqb_spec (Zlen b) 0) as [E|E].
  { apply Zlen_zero_nil in E as ->. by rewrite app_nil_r. }
  pose proof (Zlen_nonneg b).
  rewrite combine_go_spec by (lia || apply crc32_range || done). rewrite Z.mul_1_r.
  rewrite !crc32_spec. unfold crc_spec. rewrite spec_state_app.
  rewrite <- Z.lxor_assoc. f_equal. rewrite Z.lxor_comm, <- spec_state_lxor. f_equal.
  by rewrite Z.lxor_comm, lxor_cancel.
Qed.

Lemma crc32_resume_app a b : crc32_resume (crc32 a) b = crc32 (a ++ b).
Proof.
  pose proof (crc32_range a). unfold crc32_resume. rewrite crc32c_scalar_spec by (apply lxor_range; [lia|done..]).
  rewrite !crc32_spec. unfold crc_spec. by rewrite lxor_cancel, spec_state_app.
Qed.

(** A finished CRC can be resumed over more data, and the CRCs of two
    inputs combine into the CRC of their concatenation from the second's
    length alone, for every length a [u64] holds: the 64 matrices the code
    builds are the shifts by every power of two, and the pieces of one pass
    give the whole's checksum. Zero is the empty input's CRC for both. *)
Theorem crc_resume_combine a b :
  Zlen b < U64 ->
  crc32_combine (crc32 a) (crc32 b) (Zlen b) = crc32 (a ++ b) /\
  crc32_resume (crc32 a) b = crc32 (a ++ b) /\
  crc32_resume 0 b = crc32 b /\ crc32_combine 0 (crc32 b) (Zlen b) = crc32 b.
Proof.
  intros Hb. split; [by apply crc32_combine_app|]. split; [apply crc32_resume_app|].
  split; [exact (crc32_resume_app [] b) | exact (crc32_combine_app [] b Hb)].
Qed.

Lemma crc_resume_combine_witness :
  crc32_combine (crc32 [x61; x62]) (crc32 [x63]) 1 = crc32 [x61; x62; x63].
Proof. exact (proj1 (crc_resume_combine [x61; x62] [x63] ltac:(vm_compute; done))). Defined.

#[global] Opaque crc32.
