(* ===== verification/Chunks.v ===== *)
(** * Blocks: building them, compressing them in chunks, reading a range

    [src/src/block.rs], lines 270 to 525: a block's location, the builder
    that fills one, the chunk directory a compressed block carries and the
    reader that decodes only the chunks a range touches. The LZ4 coder is
    the crate [lz4_flex]: its two functions are parameters, and the theorem
    that reads back what was written assumes what its documentation states,
    that decompressing what it compressed gives the input. *)

From S2P Require Import Prelude Crc.

Record BlockLoc := mkBlockLoc {
  bl_off : Z;
  bl_stored : Z;
  bl_uncompressed : Z;
  bl_cap : Z;
  bl_chunked : bool;
  bl_crc : Z;
  bl_chunk_crc : bool;
  bl_solo : bool
}.

Definition is_plain (b : BlockLoc) : bool := bl_stored b =? bl_uncompressed b.

(** ** The builder *)

Record BlockBuilder := mkBuilder { bb_buf : bytes; bb_cap : Z }.

Definition builder_new (cap : Z) : BlockBuilder := mkBuilder [] cap.
Definition builder_len (b : BlockBuilder) : Z := Zlen (bb_buf b).
Definition builder_is_empty (b : BlockBuilder) : bool := builder_len b =? 0.

Definition would_overflow (b : BlockBuilder) (n : Z) : bool :=
  negb (builder_is_empty b) && (bb_cap b <? builder_len b + n).

(** The new builder and the extent's offset in the block. *)
Definition builder_push (b : BlockBuilder) (extent : bytes) : BlockBuilder * Z :=
  (mkBuilder (bb_buf b ++ extent) (bb_cap b), w32 (builder_len b)).

Definition builder_take (b : BlockBuilder) : BlockBuilder * bytes :=
  (mkBuilder [] (bb_cap b), bb_buf b).

(** ** Per-chunk checksums beside a plain block *)

Definition CHUNK : Z := 4096.
Definition MAX_CHUNK_CRCS : Z := 16.

(** [bytes.chunks(w)]: the last one may be short. *)
Fixpoint chunks_go (fuel : nat) (w : nat) (l : bytes) : list bytes :=
  match fuel with
  | O => []
  | S fuel => match l with [] => [] | _ => take w l :: chunks_go fuel w (drop w l) end
  end.
Definition chunks (w : Z) (l : bytes) : list bytes := chunks_go (length l) (Z.to_nat w) l.

(** The row: one checksum a chunk, zeros past the last. *)
Definition chunk_crcs (b : bytes) : option (list Z) :=
  let n := div_ceil (Zlen b) CHUNK in
  if (n =? 0) || (MAX_CHUNK_CRCS <? n) then None
  else let cs := map crc32 (chunks CHUNK b) in
       Some (cs ++ replicate (Z.to_nat (MAX_CHUNK_CRCS - Zlen cs)) 0).

(** ** The chunk directory *)

Definition chunk_header_len (n : Z) : Z := 8 + 4 * (n + 1) + 4 * n.

Section lz4.
Context (lz4_compress : bytes -> bytes).
(** Source and destination to the destination after the call and whether
    it succeeded. *)
Context (lz4_decompress_into : bytes -> bytes -> bytes * bool).

Definition compress (src : bytes) : option bytes :=
  let out := lz4_compress src in
  if Zlen out <? Zlen src then Some out else None.

(** One turn of the loop over the chunks: [out], [starts], [crcs]. [sums]
    is the process-wide [CHECKSUMS] switch. *)
Definition write_chunk (src : bytes) (chunk header : Z) (sums : bool)
    (st : bytes * list Z * list Z) (i : Z) : option (bytes * list Z * list Z) :=
  let '(out, starts, crcs) := st in
  let starts := starts ++ [w32 (Zlen out - header)] in
  raw ← get_range src (i * chunk) (Z.min ((i + 1) * chunk) (Zlen src));
  let before := length out in
  let out := out ++ match compress raw with Some c => c | None => raw end in
  Some (out, starts, crcs ++ [if sums then crc32 (drop before out) else 0]).

(** [None] where the source panics: a chunk size of zero. *)
Definition write_chunked_sz (src : bytes) (chunk : Z) (sums : bool) : option bytes :=
  if chunk =? 0 then None
  else
    let n := div_ceil (Zlen src) chunk in
    let header := chunk_header_len n in
    let out := le32 chunk ++ le32 n in
    let out := out ++ zeros (header - Zlen out) in
    '(out, starts, crcs) ← ofold (write_chunk src chunk header sums) (seqZ 0 n) (out, [], []);
    let starts := starts ++ [w32 (Zlen out - header)] in
    out ← put_each out 8 4 (map le32 starts);
    let crc_base := 8 + 4 * (n + 1) in
    put_each out crc_base 4 (map le32 crcs).

(** One chunk of the read: [inl] stops with an error and the destination
    as it stands, [inr] goes on; [None] where the source panics. *)
Definition read_chunk (blk : bytes) (uncompressed cs header crc_base : Z) (verify : bool)
    (dst : bytes) (i : Z) : option (bytes * result unit) :=
  s0 ← rd_u32 blk (8 + 4 * i);
  s1 ← rd_u32 blk (8 + 4 * (i + 1));
  if (s1 <? s0) || (Zlen blk <? header + s1) then Some (dst, Err "chunk offsets out of range")
  else
    raw ← get_range blk (header + s0) (header + s1);
    c ← rd_u32 blk (crc_base + 4 * i);
    if verify && negb (crc32 raw =? c) then Some (dst, Err "chunk checksum mismatch")
    else
      let lo := i * cs in
      let hi := Z.min ((i + 1) * cs) uncompressed in
      if hi <? lo then None
      else
        slot ← get_range dst lo hi;
        if Zlen raw =? hi - lo then
          dst ← put_range dst lo raw; Some (dst, Ok tt)
        else
          let '(slot, ok) := lz4_decompress_into raw slot in
          dst ← put_range dst lo slot;
          Some (dst, if ok then Ok tt else Err "lz4").

Fixpoint read_chunks (blk : bytes) (uncompressed cs header crc_base : Z) (verify : bool)
    (ixs : list Z) (dst : bytes) : option (bytes * result unit) :=
  match ixs with
  | [] => Some (dst, Ok tt)
  | i :: ixs =>
      '(dst, r) ← read_chunk blk uncompressed cs header crc_base verify dst i;
      match r with
      | Err e => Some (dst, Err e)
      | Ok _ => read_chunks blk uncompressed cs header crc_base verify ixs dst
      end
  end.

Definition read_chunked_range (blk : bytes) (uncompressed a b : Z) (dst : bytes) (verify : bool)
    : option (bytes * result unit) :=
  if Zlen blk <? 8 then Some (dst, Err "truncated header")
  else
    cs ← rd_u32 blk 0;
    n ← rd_u32 blk 4;
    if (cs =? 0) || (n =? 0) || (Z.shiftl 1 20 <? n) then Some (dst, Err "implausible chunk directory")
    else
      let header := chunk_header_len n in
      if Zlen blk <? header then Some (dst, Err "directory extends past the block")
      else
        let crc_base := 8 + 4 * (n + 1) in
        let first := a / cs in
        let last := ssub b 1 / cs in
        read_chunks blk uncompressed cs header crc_base verify
          (seqZ first (Z.min last (n - 1) - first + 1)) dst.
End lz4.

(** ** What the row of a plain block holds *)

Lemma chunks_go_spec fuel w (l : bytes) : (0 < w)%nat -> (length l <= fuel)%nat ->
  Zlen (chunks_go fuel w l) = div_ceil (Zlen l) (Z.of_nat w) /\
  forall j, 0 <= j -> j * Z.of_nat w < Zlen l ->
    get_at (chunks_go fuel w l) j = get_range l (j * Z.of_nat w) (Z.min ((j + 1) * Z.of_nat w) (Zlen l)).
Proof.
  intros Hw. revert l. induction fuel as [|fuel IH]; intros l Hl.
  - destruct l; [|cbn in Hl; lia]. split; [unfold div_ceil; cbn [chunks_go]; rewrite Z.div_small by (unfold Zlen; cbn [length]; lia); done|]. intros j ? Hj. unfold Zlen in Hj; cbn [length] in Hj; lia.
  - cbn [chunks_go]. destruct l as [|b l']; [split; [unfold div_ceil; cbn [chunks_go]; rewrite Z.div_small by (unfold Zlen; cbn [length]; lia); done|]; intros j ? Hj; unfold Zlen in Hj; cbn [length] in Hj; lia|].
    set (l := b :: l') in *. assert (0 < Zlen l) as H0 by (unfold Zlen, l; cbn; lia).
    destruct (IH (drop w l)) as [H1 H2]; [rewrite length_drop; unfold l in *; cbn in *; lia|]. rewrite Zlen_drop in H1, H2. split.
    + rewrite Zlen_cons, H1. unfold div_ceil. destruct (Z.le_gt_cases (Zlen l) (Z.of_nat w)).
      * rewrite Z.max_l, (Z.div_small (0 + _ - 1)) by lia. replace (Zlen l + Z.of_nat w - 1) with (Zlen l - 1 + 1 * Z.of_nat w) by lia.
        rewrite Z.div_add, Z.div_small by lia. lia.
      * rewrite Z.max_r by lia. replace (Zlen l + Z.of_nat w - 1) with (Zlen l - Z.of_nat w + Z.of_nat w - 1 + 1 * Z.of_nat w) by lia.
        rewrite Z.div_add by lia. lia.
    + intros j Hj Hjl. destruct (Z.eq_dec j 0) as [->|].
      * rewrite get_at_here by done. symmetry. apply get_range_Some. rewrite Z.mul_0_l. split; [lia|]. split; [lia|]. change (drop (Z.to_nat 0) l) with l.
        destruct (Z.le_gt_cases (Zlen l) (Z.of_nat w)); [rewrite !take_ge by (unfold Zlen in *; lia); done|]. f_equal. lia.
      * rewrite get_at_cons, H2 by nia. destruct (get_range_is_Some l (j * Z.of_nat w) (Z.min ((j + 1) * Z.of_nat w) (Zlen l))) as [r Hr]; [lia..|].
        rewrite Hr. replace ((j - 1 + 1) * Z.of_nat w) with (j * Z.of_nat w) by lia. rewrite Z.max_r by nia.
        rewrite <- (take_drop w l) in Hr at 1. rewrite get_range_skip in Hr by (rewrite Zlen_take; nia).
        rewrite Zlen_take in Hr. rewrite <- Hr. f_equal; nia.
Qed.

Lemma chunk_crcs_spec b row : chunk_crcs b = Some row ->
  Zlen row = MAX_CHUNK_CRCS /\ forall j, 0 <= j -> j * CHUNK < Zlen b ->
    exists p, get_range b (j * CHUNK) (Z.min ((j + 1) * CHUNK) (Zlen b)) = Some p /\ get_at row j = Some (crc32 p).
Proof.
  unfold chunk_crcs. destruct (Z.eqb_spec (div_ceil (Zlen b) CHUNK) 0) as [|H0]; [done|]. cbn [orb]. destruct (Z.ltb_spec MAX_CHUNK_CRCS (div_ceil (Zlen b) CHUNK)) as [|Hm]; [done|].
  intros [= <-]. destruct (chunks_go_spec (length b) (Z.to_nat CHUNK) b) as [H1 H2]; [unfold CHUNK; lia|lia|]. fold (chunks CHUNK b) in H1, H2. rewrite Z2Nat.id in H1, H2 by done.
  split; [rewrite Zlen_app, Zlen_replicate, Zlen_map; lia|]. intros j Hj Hjb.
  destruct (get_range_is_Some b (j * CHUNK) (Z.min ((j + 1) * CHUNK) (Zlen b))) as [p Hp]; [unfold CHUNK in *; lia..|]. exists p. split; [done|].
  pose proof (H2 j Hj Hjb) as Hg. rewrite Hp in Hg. rewrite get_at_keep, get_at_map, Hg; [done|].
  rewrite Zlen_map. by eapply get_at_lt.
Qed.

Lemma chunk_crcs_range b row : chunk_crcs b = Some row -> Forall (fun c => 0 <= c < U32) row.
Proof.
  unfold chunk_crcs. destruct (_ || _); [done|]. intros [= <-]. apply Forall_app. split.
  - apply Forall_map, Forall_forall. intros x _. apply crc32_range.
  - apply Forall_replicate. unfold U32. lia.
Qed.

(** ** What the writer lays out *)

(** The offsets the parts [ss] start at, from [o]. *)
Fixpoint offsets (o : Z) (ss : list bytes) : list Z :=
  match ss with [] => [] | s :: ss => w32 o :: offsets (o + Zlen s) ss end.

Lemma Zlen_offsets o ss : Zlen (offsets o ss) = Zlen ss.
Proof. revert o. induction ss as [|s ss IH]; intros o; [done|]. simpl. by rewrite !Zlen_cons, IH. Qed.

Lemma get_offsets o ss i : 0 <= o -> 0 <= i <= Zlen ss -> o + Zlen (concat ss) < U32 ->
  get_at (offsets o ss ++ [w32 (o + Zlen (concat ss))]) i = Some (o + Zlen (concat (take (Z.to_nat i) ss))).
Proof.
  revert o i. induction ss as [|s ss IH]; intros o i Ho Hi Hb.
  - assert (i = 0) as -> by (znil; lia). simpl in *. znil. rewrite Z.add_0_r in *.
    unfold w32. by rewrite Z.mod_small by lia.
  - simpl in *. rewrite Zlen_app, Zlen_cons in *. pose proof (Zlen_nonneg s). pose proof (Zlen_nonneg (concat ss)).
    destruct (decide (i = 0)) as [->|].
    + change (take (Z.to_nat 0) (s :: ss)) with (@nil bytes). simpl. znil. rewrite Z.add_0_r.
      apply get_at_Some. split; [lia|]. simpl. unfold w32. by rewrite Z.mod_small by lia.
    + specialize (IH (o + Zlen s) (i - 1) ltac:(lia) ltac:(lia) ltac:(lia)).
      rewrite Z.add_assoc. apply get_at_Some in IH as [_ IH]. apply get_at_Some. split; [lia|].
      replace (Z.to_nat i) with (S (Z.to_nat (i - 1))) by lia. simpl. rewrite IH, Zlen_app. f_equal. lia.
Qed.

Section layout.
Context (lz4_compress : bytes -> bytes) (lz4_decompress_into : bytes -> bytes -> bytes * bool).
Context (src : bytes) (chunk : Z) (sums : bool).
Context (Hchunk : 0 < chunk).

Let n := div_ceil (Zlen src) chunk.

Definition stored (raw : bytes) : bytes :=
  match compress lz4_compress raw with Some c => c | None => raw end.
Definition piece (i : Z) : bytes :=
  default [] (get_range src (i * chunk) (Z.min ((i + 1) * chunk) (Zlen src))).
Definition sum_of (s : bytes) : Z := if sums then crc32 s else 0.
Definition stored_chunks (ixs : list Z) : list bytes := map (fun i => stored (piece i)) ixs.

Lemma piece_ok i : 0 <= i < n ->
  get_range src (i * chunk) (Z.min ((i + 1) * chunk) (Zlen src)) = Some (piece i) /\ i * chunk < Zlen src.
Proof.
  intros Hi. pose proof (Zlen_nonneg src). pose proof (div_ceil_spec (Zlen src) chunk Hchunk ltac:(lia)).
  assert (i * chunk < Zlen src) by (unfold n in Hi; nia). split; [|done].
  unfold piece. destruct (get_range_is_Some src (i * chunk) (Z.min ((i + 1) * chunk) (Zlen src)))
    as [r Hr]; [nia|lia|]. by rewrite Hr.
Qed.

Lemma write_loop hdr header ixs body starts crcs :
  header = Zlen hdr -> Forall (fun i => 0 <= i < n) ixs ->
  ofold (write_chunk lz4_compress src chunk header sums) ixs (hdr ++ body, starts, crcs) =
  Some (hdr ++ body ++ concat (stored_chunks ixs), starts ++ offsets (Zlen body) (stored_chunks ixs),
        crcs ++ map sum_of (stored_chunks ixs)).
Proof.
  intros Hh Hi. revert body starts crcs. induction Hi as [|i ixs Hi _ IH]; intros body starts crcs.
  - simpl. by rewrite !app_nil_r.
  - cbn [ofold write_chunk]. destruct (piece_ok i Hi) as [Hp _]. rewrite Hp. cbn [option_bind mbind].
    change (match compress lz4_compress (piece i) with Some c => c | None => piece i end) with (stored (piece i)).
    rewrite drop_app_length, <- app_assoc, IH. cbn [stored_chunks map concat offsets].
    replace (Zlen (hdr ++ body) - header) with (Zlen body) by zlen.
    rewrite !Zlen_app, <- !app_assoc. done.
Qed.

(** The block, whole. *)
Definition chunked_bytes : bytes :=
  let ss := stored_chunks (seqZ 0 n) in
  let starts := offsets 0 ss ++ [w32 (Zlen (concat ss))] in
  (le32 chunk ++ le32 n) ++ concat (map le32 starts) ++ concat (map le32 (map sum_of ss)) ++ concat ss.

Lemma n_nonneg : 0 <= n.
Proof. pose proof (Zlen_nonneg src). pose proof (div_ceil_spec (Zlen src) chunk Hchunk ltac:(lia)). unfold n. nia. Qed.

Lemma Zlen_stored : Zlen (stored_chunks (seqZ 0 n)) = n.
Proof. unfold stored_chunks. rewrite Zlen_map. apply Zlen_seqZ, n_nonneg. Qed.

Lemma write_chunked_bytes : write_chunked_sz lz4_compress src chunk sums = Some chunked_bytes.
Proof.
  pose proof n_nonneg as Hn. unfold write_chunked_sz. rewrite (proj2 (Z.eqb_neq chunk 0)) by lia.
  fold n. cbv zeta. set (header := chunk_header_len n). set (hdr := (le32 chunk ++ le32 n) ++ zeros _).
  assert (Zlen (le32 chunk ++ le32 n) = 8) as H8 by zlen.
  assert (Zlen hdr = header) as Hh by (unfold hdr, header, chunk_header_len; zlen).
  rewrite <- (app_nil_r hdr), write_loop; [|done|apply Forall_seqZ; lia].
  cbn [option_bind mbind app]. znil. rewrite ?app_nil_r. set (ss := stored_chunks (seqZ 0 n)).
  replace (Zlen (hdr ++ concat ss) - header) with (Zlen (concat ss)) by zlen.
  set (starts := offsets 0 ss ++ [w32 (Zlen (concat ss))]).
  assert (Zlen starts = n + 1) as Hs by (unfold starts; rewrite Zlen_app, Zlen_offsets; unfold ss; rewrite Zlen_stored; done).
  assert (hdr = (le32 chunk ++ le32 n) ++ zeros (4 * (n + 1)) ++ zeros (4 * n)) as ->.
  { unfold hdr, zeros. f_equal. rewrite <- replicate_add. f_equal. unfold header, chunk_header_len. rewrite H8. lia. }
  assert (forall l, Forall (fun v : bytes => Zlen v = 4) (map le32 l)) as H4.
  { intros l. apply Forall_forall. intros x (y & -> & _)%list_elem_of_fmap. apply Zlen_le32. }
  rewrite <- !app_assoc, (app_assoc (le32 chunk)).
  rewrite put_each_app; [|lia|apply H4|zlen]. cbn [option_bind mbind].
  rewrite (app_assoc (le32 chunk ++ le32 n)), put_each_app.
  - unfold chunked_bytes. cbv zeta. by rewrite <- !app_assoc.
  - rewrite Zlen_app, H8, Zlen_concat_le32, Hs. lia.
  - apply H4.
  - unfold ss. rewrite !Zlen_map, Zlen_stored. zlen.
Qed.
End layout.

(** ** Reading back what the writer laid out *)

(** [lz4_flex]'s contract: decompressing into a slice of the input's length
    what it compressed gives the input. *)
Definition lz4_roundtrips (c : bytes -> bytes) (d : bytes -> bytes -> bytes * bool) : Prop :=
  forall x dst, Zlen dst = Zlen x -> d (c x) dst = (x, true).

Section read.
Context (lz4_compress : bytes -> bytes) (lz4_decompress_into : bytes -> bytes -> bytes * bool).
Context (Hlz4 : lz4_roundtrips lz4_compress lz4_decompress_into).
Context (src : bytes) (chunk : Z) (sums verify : bool).
Context (Hchunk : 0 < chunk < U32) (Hsums : verify = true -> sums = true).

Let n := div_ceil (Zlen src) chunk.
Let blk := chunked_bytes lz4_compress src chunk sums.
Let ss := stored_chunks lz4_compress src chunk (seqZ 0 n).
Let header := chunk_header_len n.
Context (Hn : 0 < n <= Z.shiftl 1 20) (Hblk : Zlen blk < U32).

Let starts := offsets 0 ss ++ [w32 (Zlen (concat ss))].

Lemma blk_alt : blk = (le32 chunk ++ le32 n) ++ concat (map le32 starts) ++
  concat (map le32 (map (sum_of sums) ss)) ++ concat ss.
Proof. done. Qed.

Lemma ss_len : Zlen ss = n.
Proof. apply Zlen_stored. lia. Qed.

Lemma starts_len : Zlen starts = n + 1.
Proof. unfold starts. rewrite Zlen_app, Zlen_offsets, ss_len. done. Qed.

Lemma blk_len : Zlen blk = header + Zlen (concat ss).
Proof.
  rewrite blk_alt, !Zlen_app, !Zlen_concat_le32, Zlen_map, starts_len, ss_len, !Zlen_le32.
  unfold header, chunk_header_len. lia.
Qed.

Lemma ss_get i : 0 <= i < n -> get_at ss i = Some (stored lz4_compress (piece src chunk i)).
Proof. intros Hi. unfold ss, stored_chunks. rewrite get_at_map, get_at_seqZ by done. done. Qed.

Lemma concat_take_le i : Zlen (concat (take i ss)) <= Zlen (concat ss).
Proof.
  rewrite <- (take_drop i ss) at 2. rewrite concat_app, Zlen_app.
  pose proof (Zlen_nonneg (concat (drop i ss))). lia.
Qed.

Lemma rd_start i : 0 <= i <= n -> rd_u32 blk (8 + 4 * i) = Some (Zlen (concat (take (Z.to_nat i) ss))).
Proof.
  intros Hi. rewrite blk_alt. pose proof blk_len as Hb. pose proof (concat_take_le (Z.to_nat i)).
  pose proof (Zlen_nonneg (concat (take (Z.to_nat i) ss))).
  assert (0 < header) by (unfold header, chunk_header_len; lia).
  apply (rd_u32_table _ _ _ i); [|lia|zlen].
  unfold starts. pose proof (get_offsets 0 ss i) as Hg. rewrite !Z.add_0_l in Hg.
  rewrite Hg; [done|lia|rewrite ss_len; lia|lia].
Qed.

Lemma rd_sum i : 0 <= i < n ->
  rd_u32 blk (8 + 4 * (n + 1) + 4 * i) = Some (sum_of sums (stored lz4_compress (piece src chunk i))).
Proof.
  intros Hi. rewrite blk_alt, app_assoc. apply (rd_u32_table _ _ _ i).
  - by rewrite get_at_map, ss_get.
  - unfold sum_of. destruct sums; [apply crc32_range|done].
  - rewrite !Zlen_app, Zlen_concat_le32, starts_len, !Zlen_le32. lia.
Qed.

Lemma get_stored i s0 s1 : 0 <= i < n ->
  s0 = Zlen (concat (take (Z.to_nat i) ss)) -> s1 = Zlen (concat (take (Z.to_nat (i + 1)) ss)) ->
  s0 <= s1 /\ header + s1 <= Zlen blk /\
  get_range blk (header + s0) (header + s1) = Some (stored lz4_compress (piece src chunk i)).
Proof.
  intros Hi -> ->. pose proof (ss_get i Hi) as Hs.
  pose proof (concat_get_range (take (Z.to_nat header) blk) [] ss i _ Hs) as Hg. rewrite app_nil_r in Hg.
  pose proof (proj1 (get_at_Some _ _ _) Hs) as [_ Hl].
  replace (Z.to_nat (i + 1)) with (S (Z.to_nat i)) by lia.
  rewrite (take_S_r _ _ _ Hl), concat_app, Zlen_app. cbn [concat]. rewrite app_nil_r.
  set (st := stored lz4_compress (piece src chunk i)) in *. pose proof (Zlen_nonneg st).
  assert (take (Z.to_nat header) blk ++ concat ss = blk) as E.
  { rewrite blk_alt, !app_assoc. f_equal. apply take_app_length'.
    rewrite <- Zlen_to_nat. f_equal. rewrite !Zlen_app, !Zlen_concat_le32, Zlen_map, starts_len, ss_len, !Zlen_le32.
    unfold header, chunk_header_len. lia. }
  rewrite E in Hg. pose proof blk_len as Hb. pose proof (concat_take_le (S (Z.to_nat i))) as Hle.
  rewrite (take_S_r _ _ _ Hl), concat_app, Zlen_app in Hle. cbn [concat] in Hle. rewrite app_nil_r in Hle.
  assert (Zlen (take (Z.to_nat header) blk) = header) as Eh.
  { pose proof (Zlen_nonneg (concat ss)). assert (0 <= header) by (unfold header, chunk_header_len; lia).
    rewrite Zlen_take, Z2Nat.id by done. lia. }
  rewrite Eh in Hg. split; [lia|]. split; [fold st in Hle; lia|]. by rewrite Z.add_assoc.
Qed.

Lemma stored_cases raw : Zlen (stored lz4_compress raw) < Zlen raw /\ stored lz4_compress raw = lz4_compress raw
  \/ stored lz4_compress raw = raw.
Proof.
  unfold stored, compress. destruct (Z.ltb_spec (Zlen (lz4_compress raw)) (Zlen raw)); [left; split; [lia|done] | by right].
Qed.

(** One chunk lands its piece of the source in its place. *)
Lemma read_chunk_ok i dst : 0 <= i < n -> Zlen src <= Zlen dst ->
  exists dst', put_range dst (i * chunk) (piece src chunk i) = Some dst' /\
    read_chunk lz4_decompress_into blk (Zlen src) chunk header (8 + 4 * (n + 1)) verify dst i = Some (dst', Ok tt).
Proof.
  intros Hi Hd. destruct (piece_ok src chunk ltac:(lia) i Hi) as [Hp Hlt].
  pose proof (get_range_len _ _ _ _ Hp) as Hlen.
  assert (0 <= i * chunk <= Z.min ((i + 1) * chunk) (Zlen src)) as Hr by nia.
  destruct (put_range_is_Some dst (i * chunk) (piece src chunk i)) as [dst' Hput]; [lia..|].
  exists dst'. split; [done|]. unfold read_chunk. rewrite !rd_start by lia. cbn [option_bind mbind].
  destruct (get_stored i _ _ Hi eq_refl eq_refl) as (H1 & H2 & H3).
  rewrite (proj2 (Z.ltb_ge _ _) H1), (proj2 (Z.ltb_ge _ _) H2). cbn [orb]. rewrite H3, rd_sum by done.
  cbn [option_bind mbind]. pose proof (stored_cases (piece src chunk i)) as Hcases.
  set (st := stored lz4_compress (piece src chunk i)) in *.
  assert (verify && negb (crc32 st =? sum_of sums st) = false) as ->.
  { unfold sum_of. destruct verify; [|done]. rewrite Hsums by done. by rewrite Z.eqb_refl. }
  cbv zeta. rewrite (proj2 (Z.ltb_ge _ _)) by lia.
  destruct (get_range_is_Some dst (i * chunk) (Z.min ((i + 1) * chunk) (Zlen src))) as [slot Hslot]; [lia..|].
  rewrite Hslot. cbn [option_bind mbind]. rewrite <- Hlen.
  destruct Hcases as [[Hs1 Hs2]|Hs].
  - rewrite (proj2 (Z.eqb_neq _ _)) by lia. rewrite Hs2, Hlz4.
    + rewrite Hput. done.
    + apply get_range_len in Hslot. lia.
  - rewrite Hs, Z.eqb_refl, Hput. done.
Qed.

Lemma read_loop k i dst : 0 <= i -> i + Z.of_nat k <= n -> Zlen src <= Zlen dst ->
  exists dst', read_chunks lz4_decompress_into blk (Zlen src) chunk header (8 + 4 * (n + 1)) verify
      (seqZ i (Z.of_nat k)) dst = Some (dst', Ok tt) /\ Zlen dst' = Zlen dst /\
    forall j, get_at dst' j = if decide (i * chunk <= j < Z.min ((i + Z.of_nat k) * chunk) (Zlen src))
                              then get_at src j else get_at dst j.
Proof.
  revert i dst. induction k as [|k IH]; intros i dst Hi Hk Hd.
  - exists dst. split; [done|]. split; [done|]. intros j. rewrite decide_False by lia. done.
  - rewrite seqZ_cons by lia. cbn [read_chunks].
    destruct (read_chunk_ok i dst ltac:(lia) Hd) as (d1 & Hput & ->). cbn [option_bind mbind].
    pose proof (put_range_len _ _ _ _ Hput) as Hl.
    destruct (IH (Z.succ i) d1 ltac:(lia) ltac:(lia) ltac:(lia)) as (d2 & Hr & Hl2 & Hg).
    replace (Z.pred (Z.of_nat (S k))) with (Z.of_nat k) by lia. exists d2. split; [exact Hr|]. split; [lia|].
    intros j. rewrite Hg, (put_range_get _ _ _ _ _ Hput).
    destruct (piece_ok src chunk ltac:(lia) i ltac:(lia)) as [Hp Hlt].
    pose proof (get_range_len _ _ _ _ Hp) as Hlen.
    rewrite Nat2Z.inj_succ. replace (Z.succ i + Z.of_nat k) with (i + Z.succ (Z.of_nat k)) by lia.
    assert ((i + 1) * chunk <= (i + Z.succ (Z.of_nat k)) * chunk) by nia.
    replace (Z.succ i * chunk) with ((i + 1) * chunk) by lia.
    rewrite Hlen. repeat case_decide; try done; try lia.
    rewrite (get_range_get _ _ _ _ _ Hp) by lia. f_equal. lia.
Qed.

Lemma read_chunked_ok a b dst : 0 <= a < b -> b <= Zlen src -> Zlen src <= Zlen dst ->
  exists dst', read_chunked_range lz4_decompress_into blk (Zlen src) a b dst verify = Some (dst', Ok tt) /\
    Zlen dst' = Zlen dst /\
    forall j, get_at dst' j = if decide (a / chunk * chunk <= j < Z.min (((b - 1) / chunk + 1) * chunk) (Zlen src))
                              then get_at src j else get_at dst j.
Proof.
  intros Ha Hb Hd. unfold read_chunked_range. pose proof blk_len as Hbl.
  assert (8 <= header) by (unfold header, chunk_header_len; lia).
  pose proof (Zlen_nonneg (concat ss)).
  rewrite (proj2 (Z.ltb_ge (Zlen blk) 8)) by lia.
  assert (rd_u32 blk 0 = Some chunk) as ->.
  { rewrite blk_alt, <- app_assoc. apply (rd_u32_app [] chunk); [done|lia]. }
  assert (rd_u32 blk 4 = Some n) as ->.
  { rewrite blk_alt, <- app_assoc. apply rd_u32_app; [by zlen|]. change (Z.shiftl 1 20) with (2 ^ 20) in Hn. unfold U32. lia. }
  cbn [option_bind mbind]. rewrite !(proj2 (Z.eqb_neq _ 0)), (proj2 (Z.ltb_ge (Z.shiftl 1 20) n)) by lia.
  cbn [orb]. fold header. rewrite (proj2 (Z.ltb_ge (Zlen blk) header)) by lia.
  cbv zeta. unfold ssub. rewrite Z.max_r by lia.
  pose proof (div_ceil_spec (Zlen src) chunk ltac:(lia) ltac:(lia)) as [Hn1 Hn2]. fold n in Hn1, Hn2.
  assert ((b - 1) / chunk < n) by (apply Z.div_lt_upper_bound; lia).
  assert (a / chunk <= (b - 1) / chunk) by (apply Z.div_le_mono; lia).
  assert (0 <= a / chunk) by (apply Z.div_pos; lia).
  rewrite Z.min_l by lia.
  destruct (read_loop (Z.to_nat ((b - 1) / chunk - a / chunk + 1)) (a / chunk) dst) as (d & Hr & Hl & Hg); [lia..|].
  rewrite Z2Nat.id in Hr, Hg by lia. exists d. split; [exact Hr|]. split; [done|].
  intros j. rewrite Hg. by replace (a / chunk + ((b - 1) / chunk - a / chunk + 1)) with ((b - 1) / chunk + 1) by lia.
Qed.
End read.

(** A block of more chunks than the reader believes of a directory. *)
Lemma read_too_many c d src chunk sums verify a b dst : 0 < chunk < U32 -> Z.shiftl 1 20 < div_ceil (Zlen src) chunk ->
  Zlen (chunked_bytes c src chunk sums) < U32 ->
  read_chunked_range d (chunked_bytes c src chunk sums) (Zlen src) a b dst verify = Some (dst, Err "implausible chunk directory").
Proof.
  intros Hc Hn Hb. unfold read_chunked_range. set (n := div_ceil (Zlen src) chunk) in *. change (Z.shiftl 1 20) with 1048576 in *.
  destruct (Z.leb_spec U32 n) as [Hbig|Hsmall].
  { exfalso. rewrite blk_alt in Hb. fold n in Hb. rewrite !Zlen_app, !Zlen_concat_le32, Zlen_map in Hb. unfold n in Hb, Hbig. rewrite Zlen_stored in Hb by lia.
    pose proof (Zlen_nonneg (offsets 0 (stored_chunks c src chunk (seqZ 0 (div_ceil (Zlen src) chunk))))). rewrite Zlen_app in Hb.
    pose proof (Zlen_nonneg (concat (stored_chunks c src chunk (seqZ 0 (div_ceil (Zlen src) chunk))))). pose proof (Zlen_nonneg (le32 chunk)). pose proof (Zlen_nonneg (le32 (div_ceil (Zlen src) chunk))).
    pose proof (Zlen_nonneg [w32 (Zlen (concat (stored_chunks c src chunk (seqZ 0 (div_ceil (Zlen src) chunk)))))]). lia. }
  rewrite (blk_alt c src chunk sums) in *. fold n in Hb |- *. rewrite Zlen_app in *. rewrite <- !app_assoc.
  set (rest := concat (map le32 _) ++ _) in *. rewrite (proj2 (Z.ltb_ge _ 8)) by (rewrite !Zlen_app, !Zlen_le32; pose proof (Zlen_nonneg rest); lia).
  assert (rd_u32 (le32 chunk ++ le32 n ++ rest) 0 = Some chunk) as -> by (apply (rd_u32_app [] chunk); [done|lia]).
  assert (rd_u32 (le32 chunk ++ le32 n ++ rest) 4 = Some n) as -> by (apply rd_u32_app; [by zlen|lia]).
  cbn [option_bind mbind]. rewrite (proj2 (Z.ltb_lt 1048576 n)) by lia. by rewrite orb_true_r.
Qed.

(** C22: a block compressed in chunks, no more of them than two to the
    twentieth and all in four gigabytes, by a coder its decoder undoes, reads back, over any range, what was compressed: the bytes of
    [a..b] are the source's, and no byte of the destination outside the chunks
    the range touches is written. It holds for any chunk size that makes no
    more chunks, and for chunks that compress and chunks that do not, whether
    or not the reader verifies, as long as it verifies only what was
    checksummed. The writer makes a block of more chunks all the same, and
    the reader refuses every range of one: in chunks of [CHUNK] a block has
    more only past four gigabytes. *)
Theorem chunked_range_roundtrip lz4_compress lz4_decompress_into src chunk sums verify blk a b dst :
  lz4_roundtrips lz4_compress lz4_decompress_into ->
  0 < chunk < U32 -> (verify = true -> sums = true) ->
  write_chunked_sz lz4_compress src chunk sums = Some blk -> Zlen blk < U32 ->
  0 <= a < b -> b <= Zlen src -> Zlen src <= Zlen dst ->
  if div_ceil (Zlen src) chunk <=? Z.shiftl 1 20 then
    exists dst', read_chunked_range lz4_decompress_into blk (Zlen src) a b dst verify = Some (dst', Ok tt) /\
      get_range dst' a b = get_range src a b /\ Zlen dst' = Zlen dst /\
      forall j, ~ (a / chunk * chunk <= j < Z.min (((b - 1) / chunk + 1) * chunk) (Zlen src)) ->
        get_at dst' j = get_at dst j
  else read_chunked_range lz4_decompress_into blk (Zlen src) a b dst verify = Some (dst, Err "implausible chunk directory").
Proof.
  intros Hlz4 Hc Hs Hw Hb Ha Hbs Hd. rewrite write_chunked_bytes in Hw by lia. injection Hw as <-.
  pose proof (div_ceil_spec (Zlen src) chunk ltac:(lia) ltac:(lia)).
  destruct (Z.leb_spec (div_ceil (Zlen src) chunk) (Z.shiftl 1 20)) as [Hn|Hn]; [|by apply read_too_many].
  destruct (read_chunked_ok _ _ Hlz4 src chunk sums verify Hc Hs ltac:(nia) Hb a b dst Ha Hbs Hd) as (d & Hr & Hl & Hg).
  exists d. split; [exact Hr|]. split; [|split; [done|intros j Hj; by rewrite Hg, decide_False]].
  destruct (get_range_is_Some d a b) as [r Hr1]; [lia..|].
  destruct (get_range_is_Some src a b) as [r' Hr2]; [lia..|]. rewrite Hr1, Hr2. f_equal.
  pose proof (get_range_len _ _ _ _ Hr1). pose proof (get_range_len _ _ _ _ Hr2).
  apply get_at_ext; [lia|]. intros i Hi.
  rewrite (get_range_get _ _ _ _ _ Hr1), (get_range_get _ _ _ _ _ Hr2), Hg by lia.
  rewrite decide_True; [done|].
  pose proof (Z.div_mod a chunk ltac:(lia)). pose proof (Z.mod_pos_bound a chunk ltac:(lia)).
  pose proof (Z.div_mod (b - 1) chunk ltac:(lia)). pose proof (Z.mod_pos_bound (b - 1) chunk ltac:(lia)). lia.
Qed.

(** A coder for the witnesses: it stores a marker before its input, so it
    never compresses, and drops it. *)
Definition marker_compress (x : bytes) : bytes := xff :: x.
Definition marker_decompress (x dst : bytes) : bytes * bool :=
  match x with _ :: x => (x, Zlen x =? Zlen dst) | [] => (dst, false) end.

Lemma chunked_range_roundtrip_witness :
  lz4_roundtrips marker_compress marker_decompress /\
  exists blk dst', write_chunked_sz marker_compress (list_byte_of_string "abcdefgh") 3 true = Some blk /\
    read_chunked_range marker_decompress blk 8 4 6 (zeros 8) true = Some (dst', Ok tt) /\
    get_range dst' 4 6 = Some (list_byte_of_string "ef").
Proof.
  assert (lz4_roundtrips marker_compress marker_decompress) as Hlz4
    by (intros x dst H; cbn; by rewrite H, Z.eqb_refl).
  split; [exact Hlz4|].
  destruct (write_chunked_sz marker_compress (list_byte_of_string "abcdefgh") 3 true) as [blk|] eqn:Hw;
    [|vm_compute in Hw; discriminate Hw].
  assert (Zlen blk < U32) as Hb by (vm_compute in Hw; injection Hw as <-; vm_compute; reflexivity).
  destruct (chunked_range_roundtrip marker_compress marker_decompress (list_byte_of_string "abcdefgh") 3 true true
    blk 4 6 (zeros 8) Hlz4 ltac:(by vm_compute) ltac:(done) Hw Hb
    ltac:(by vm_compute) ltac:(by vm_compute) ltac:(by vm_compute)) as (dst' & Hr & Hg & _).
  exists blk, dst'. split; [reflexivity|]. split; [exact Hr|exact Hg].
Defined.

(** ** Damaged directories *)

(** [lz4_flex] writes into the slice it is given: it cannot change its
    length. *)
Definition lz4_in_place (d : bytes -> bytes -> bytes * bool) : Prop :=
  forall x dst, Zlen (fst (d x dst)) = Zlen dst.

(** What the reader checked of the chunks it returned: the directory's own
    checksum of the bytes it decoded. *)
Definition chunk_verified (blk : bytes) (i : Z) : Prop :=
  exists n s0 s1 raw, rd_u32 blk 4 = Some n /\ rd_u32 blk (8 + 4 * i) = Some s0 /\
    rd_u32 blk (8 + 4 * (i + 1)) = Some s1 /\
    get_range blk (chunk_header_len n + s0) (chunk_header_len n + s1) = Some raw /\
    rd_u32 blk (8 + 4 * (n + 1) + 4 * i) = Some (crc32 raw).

(** The reader stopped with an error. *)
Ltac stops := eexists _, _; split; [reflexivity|]; split; [done|intros; discriminate].

Section damage.
Context (lz4_decompress_into : bytes -> bytes -> bytes * bool) (Hd : lz4_in_place lz4_decompress_into).
Context (blk : bytes) (uncompressed cs n : Z) (verify : bool).
Context (Hn : rd_u32 blk 4 = Some n) (Hn0 : 0 <= n) (Hcs : 0 < cs) (Hlen : chunk_header_len n <= Zlen blk).

Lemma read_chunk_safe i dst : 0 <= i < n -> i * cs <= uncompressed -> uncompressed <= Zlen dst ->
  exists dst' r, read_chunk lz4_decompress_into blk uncompressed cs (chunk_header_len n) (8 + 4 * (n + 1))
      verify dst i = Some (dst', r) /\ Zlen dst' = Zlen dst /\
    (verify = true -> r = Ok tt -> chunk_verified blk i).
Proof.
  intros Hi Hu Hdst. unfold read_chunk. unfold chunk_header_len in Hlen.
  destruct (rd_u32_is_Some blk (8 + 4 * i)) as [s0 Hs0]; [lia..|]. rewrite Hs0. cbn [option_bind mbind].
  destruct (rd_u32_is_Some blk (8 + 4 * (i + 1))) as [s1 Hs1]; [lia..|]. rewrite Hs1. cbn [option_bind mbind].
  pose proof (rd_u32_range _ _ _ Hs0).
  destruct (Z.ltb_spec s1 s0), (Z.ltb_spec (Zlen blk) (chunk_header_len n + s1)); cbn [orb]; [stops..|].
  destruct (get_range_is_Some blk (chunk_header_len n + s0) (chunk_header_len n + s1)) as [raw Hraw];
    [unfold chunk_header_len in *; lia..|]. rewrite Hraw. cbn [option_bind mbind].
  destruct (rd_u32_is_Some blk (8 + 4 * (n + 1) + 4 * i)) as [c Hc]; [lia..|]. rewrite Hc. cbn [option_bind mbind].
  destruct (verify && negb (crc32 raw =? c)) eqn:Ev; [stops|].
  assert (verify = true -> chunk_verified blk i) as Hv.
  { intros ->. apply negb_false_iff, Z.eqb_eq in Ev. subst c. exists n, s0, s1, raw. done. }
  cbv zeta. rewrite (proj2 (Z.ltb_ge _ _)) by nia.
  destruct (get_range_is_Some dst (i * cs) (Z.min ((i + 1) * cs) uncompressed)) as [slot Hslot]; [nia|lia|].
  rewrite Hslot. cbn [option_bind mbind]. pose proof (get_range_len _ _ _ _ Hslot) as Hsl.
  destruct (Z.eqb_spec (Zlen raw) (Z.min ((i + 1) * cs) uncompressed - i * cs)) as [E|E].
  - destruct (put_range_is_Some dst (i * cs) raw) as [d' Hp]; [nia|lia|]. rewrite Hp. cbn [option_bind mbind].
    exists d', (Ok tt). split; [done|]. split; [by eapply put_range_len|auto].
  - pose proof (Hd raw slot) as Hd'. destruct (lz4_decompress_into raw slot) as [slot' ok]. cbn [fst] in Hd'.
    destruct (put_range_is_Some dst (i * cs) slot') as [d' Hp]; [nia|lia|]. rewrite Hp. cbn [option_bind mbind].
    eexists d', _. split; [done|]. split; [by eapply put_range_len|auto].
Qed.

Lemma read_chunks_safe ixs dst : Forall (fun i => 0 <= i < n /\ i * cs <= uncompressed) ixs -> uncompressed <= Zlen dst ->
  exists dst' r, read_chunks lz4_decompress_into blk uncompressed cs (chunk_header_len n) (8 + 4 * (n + 1))
      verify ixs dst = Some (dst', r) /\ Zlen dst' = Zlen dst /\
    (verify = true -> r = Ok tt -> Forall (chunk_verified blk) ixs).
Proof.
  intros Hi. revert dst. induction Hi as [|i ixs [Hi Hu] _ IH]; intros dst Hdst.
  - exists dst, (Ok tt). by repeat split.
  - cbn [read_chunks]. destruct (read_chunk_safe i dst Hi Hu Hdst) as (d1 & r & -> & Hl & Hv). cbn [option_bind mbind].
    destruct r as [[]|e]; [|by exists d1, (Err e)].
    destruct (IH d1) as (d2 & r2 & -> & Hl2 & Hv2); [lia|]. exists d2, r2. split; [done|]. split; [lia|].
    intros Hver Hr. constructor; auto.
Qed.
End damage.

(** Whatever the block's bytes are, overwritten or damaged, reading a
    range inside the declared length never panics: the reader returns, with
    an error or with a destination of the same length, and when it verifies
    and succeeds every chunk the range touches carries the checksum the
    directory records for it. *)
Theorem chunked_read_safe lz4_decompress_into blk uncompressed a b dst verify :
  lz4_in_place lz4_decompress_into -> 0 <= a <= b -> b <= uncompressed -> uncompressed <= Zlen dst ->
  exists dst' r, read_chunked_range lz4_decompress_into blk uncompressed a b dst verify = Some (dst', r) /\
    Zlen dst' = Zlen dst /\
    (verify = true -> r = Ok tt -> exists cs n, rd_u32 blk 0 = Some cs /\ rd_u32 blk 4 = Some n /\ 0 < cs /\
       forall i, a / cs <= i <= ssub b 1 / cs -> i < n -> chunk_verified blk i).
Proof.
  intros Hd Ha Hb Hdst. unfold read_chunked_range. destruct (Z.ltb_spec (Zlen blk) 8); [stops|].
  destruct (rd_u32_is_Some blk 0) as [cs Hcs]; [lia..|]. rewrite Hcs. cbn [option_bind mbind].
  destruct (rd_u32_is_Some blk 4) as [n Hn]; [lia..|]. rewrite Hn. cbn [option_bind mbind].
  pose proof (rd_u32_range _ _ _ Hcs). pose proof (rd_u32_range _ _ _ Hn).
  destruct (Z.eqb_spec cs 0), (Z.eqb_spec n 0), (Z.ltb_spec (Z.shiftl 1 20) n); cbn [orb]; try stops; [].
  destruct (Z.ltb_spec (Zlen blk) (chunk_header_len n)); [stops|]. cbv zeta.
  assert (0 <= a / cs) by (apply Z.div_pos; lia).
  destruct (read_chunks_safe lz4_decompress_into Hd blk uncompressed cs n verify Hn ltac:(lia) ltac:(lia) ltac:(lia)
    (seqZ (a / cs) (Z.min (ssub b 1 / cs) (n - 1) - a / cs + 1)) dst) as (d & r & Hr & Hl & Hv); [|done|].
  - apply Forall_seqZ. intros i Hi. split; [lia|].
    assert (i <= ssub b 1 / cs) as Hle by lia. unfold ssub in Hle.
    assert (i * cs <= Z.max 0 (b - 1)); [|lia].
    transitivity (Z.max 0 (b - 1) / cs * cs); [nia|]. rewrite Z.mul_comm. apply Z.mul_div_le. lia.
  - exists d, r. split; [exact Hr|]. split; [done|]. intros Hver Hok. exists cs, n.
    split; [done|]. split; [done|]. split; [lia|]. intros i Hi1 Hi2. specialize (Hv Hver Hok).
    rewrite Forall_seqZ in Hv. apply Hv. lia.
Qed.

Lemma chunked_read_safe_witness :
  exists dst' r, read_chunked_range (fun _ d => (d, true)) (zeros 40) 8 2 4 (zeros 8) true = Some (dst', r).
Proof.
  destruct (chunked_read_safe (fun _ d => (d, true)) (zeros 40) 8 2 4 (zeros 8) true) as (d & r & Hr & _);
    try (vm_compute; done).
  exists d, r. exact Hr.
Defined.
