(* ===== verification/BlockTable.v ===== *)
(** * The block table: where every block is, as the file holds it

    [src/src/flatindex.rs], lines 2831 to 3044: the entry [BlockRec] laid
    over the file's bytes, the table [encode_blocks] writes (a header, one
    entry a block, one row of chunk checksums a block) and the view
    [MappedBlocks] a reader takes of it without copying. An address is the
    section's base address plus an offset, so alignment is a condition on
    both. The layout is the little-endian machine's, which is the only one a
    reader opens a file on. *)

From S2P Require Import Prelude Chunks.

Definition BLK_MAGIC : Z := 0x4B4C4253.
Definition BLK_HEADER : Z := 16.
(** [size_of] and [align_of] of the [repr(C)] struct below. *)
Definition BLK_ENTRY : Z := 32.
Definition BLK_ALIGN : Z := 8.
Definition CRC_ROW : Z := MAX_CHUNK_CRCS * 4.

Record BlockRec := mkBlockRec {
  br_off : Z;
  br_stored : Z;
  br_uncompressed : Z;
  br_cap : Z;
  br_crc : Z;
  br_flags : byte
}.

Definition b2n (b : bool) : Z := if b then 1 else 0.

Definition to_loc (r : BlockRec) : BlockLoc :=
  let flag k := negb (Z.land (b2z (br_flags r)) k =? 0) in
  mkBlockLoc (br_off r) (br_stored r) (br_uncompressed r) (br_cap r) (flag 2) (br_crc r) (flag 4) (flag 1).

Definition rec_of (b : BlockLoc) : BlockRec :=
  mkBlockRec (bl_off b) (bl_stored b) (bl_uncompressed b) (bl_cap b) (bl_crc b)
    (z2b (Z.lor (Z.lor (b2n (bl_solo b)) (Z.shiftl (b2n (bl_chunked b)) 1)) (Z.shiftl (b2n (bl_chunk_crc b)) 2))).

(** The struct's bytes, in declaration order, its padding zero. *)
Definition rec_bytes (r : BlockRec) : bytes :=
  le64 (br_off r) ++ le32 (br_stored r) ++ le32 (br_uncompressed r) ++ le32 (br_cap r) ++
  le32 (br_crc r) ++ [br_flags r] ++ zeros 7.

(** The struct read over 32 bytes. *)
Definition rec_at (b : bytes) : option BlockRec :=
  off ← rd_u64 b 0;
  stored ← rd_u32 b 8;
  uncompressed ← rd_u32 b 12;
  cap ← rd_u32 b 16;
  crc ← rd_u32 b 20;
  flags ← get_at b 24;
  Some (mkBlockRec off stored uncompressed cap crc flags).

Definition block_table_len (blocks : Z) : Z := BLK_HEADER + blocks * BLK_ENTRY + blocks * CRC_ROW.

(** The body of the loop over the blocks: the entry, then the row. [None]
    where a slice would panic. *)
Definition encode_block (chunk_crcs : list (list Z)) (crcs_off : Z) (out : bytes) (ib : Z * BlockLoc) : option bytes :=
  let '(i, b) := ib in
  out ← put_range out (BLK_HEADER + i * BLK_ENTRY) (rec_bytes (rec_of b));
  match get_at chunk_crcs i with
  | None => Some out
  | Some row => put_each out (crcs_off + i * CRC_ROW) 4 (map le32 row)
  end.

Definition encode_blocks (blocks : list BlockLoc) (chunk_crcs : list (list Z)) : option bytes :=
  let n := Zlen blocks in
  let crcs_off := BLK_HEADER + n * BLK_ENTRY in
  let out := zeros (block_table_len n) in
  out ← put_range out 0 (le32 BLK_MAGIC);
  out ← put_range out 4 (le32 BLK_ENTRY);
  out ← put_range out 8 (le64 n);
  ofold (encode_block chunk_crcs crcs_off) (enumerate 0 blocks) out.

Record MappedBlocks := mkMapped { mb_off : Z; mb_n : Z }.

Definition is_block_section (sec : bytes) : bool :=
  match rd_u32 sec 0 with Some m => m =? BLK_MAGIC | None => false end.

(** [base] is the address the section is mapped at. *)
Definition aligned (base off : Z) : bool := (base + off) mod BLK_ALIGN =? 0.

Definition mapped_parse (base : Z) (sec : bytes) : option MappedBlocks :=
  magic ← rd_u32 sec 0;
  if negb (magic =? BLK_MAGIC) then None
  else
    entry ← rd_u32 sec 4;
    if negb (entry =? BLK_ENTRY) then None
    else
      n ← rd_u64 sec 8;
      len ← cmul n BLK_ENTRY;
      fin ← cadd BLK_HEADER len;
      _ ← get_range sec BLK_HEADER fin;
      if negb (aligned base BLK_HEADER) then None else Some (mkMapped BLK_HEADER n).

Definition mapped_len (m : MappedBlocks) : Z := mb_n m.

Definition mapped_get (base : Z) (m : MappedBlocks) (sec : bytes) (i : Z) : option BlockLoc :=
  if mb_n m <=? i then None
  else
    len ← cmul i BLK_ENTRY;
    at_ ← cadd (mb_off m) len;
    fin ← cadd at_ BLK_ENTRY;
    b ← get_range sec at_ fin;
    if negb (aligned base at_) then None
    else to_loc <$> rec_at b.

Definition mapped_chunk_crc (m : MappedBlocks) (sec : bytes) (i j : Z) : option Z :=
  if (mb_n m <=? i) || (MAX_CHUNK_CRCS <=? j) then None
  else
    len ← cmul (mb_n m) BLK_ENTRY;
    base ← cadd (mb_off m) len;
    row ← cmul i CRC_ROW;
    at_ ← cadd base row;
    at_ ← cadd at_ (j * 4);
    rd_u32 sec at_.

(** [decode_blocks]: the loop over the indices, stopping where [get] does. *)
Definition decode_blocks (base : Z) (sec : bytes) : option (list BlockLoc) :=
  m ← mapped_parse base sec;
  ofold (fun out i => b ← mapped_get base m sec i; Some (out ++ [b])) (seqZ 0 (mapped_len m)) [].

(** ** An entry round-trips *)

Definition loc_ok (b : BlockLoc) : Prop :=
  0 <= bl_off b < U64 /\ 0 <= bl_stored b < U32 /\ 0 <= bl_uncompressed b < U32 /\
  0 <= bl_cap b < U32 /\ 0 <= bl_crc b < U32.

Lemma flags_roundtrip b : loc_ok b -> to_loc (rec_of b) = b.
Proof.
  intros _. unfold to_loc, rec_of. cbn. destruct b as [o s u c ch crc cc so]. cbn.
  by destruct so, ch, cc.
Qed.

Lemma Zlen_rec_bytes r : Zlen (rec_bytes r) = BLK_ENTRY.
Proof. unfold rec_bytes, BLK_ENTRY. zlen. Qed.

Lemma rec_roundtrip b : loc_ok b -> rec_at (rec_bytes (rec_of b)) = Some (rec_of b).
Proof.
  intros (H1 & H2 & H3 & H4 & H5). unfold rec_at, rec_bytes.
  set (f := br_flags (rec_of b)). cbn [rec_of br_off br_stored br_uncompressed br_cap br_crc].
  layout done. done.
Qed.

(** ** The table, whole *)

Section table.
Context (chunk_crcs : list (list Z)).
Context (Hrows : Forall (fun r => Zlen r = MAX_CHUNK_CRCS) chunk_crcs).

Definition row_bytes (i : Z) : bytes :=
  match get_at chunk_crcs i with Some row => concat (map le32 row) | None => zeros CRC_ROW end.
Definition entry_bytes (b : BlockLoc) : bytes := rec_bytes (rec_of b).

Lemma Zlen_row i : Zlen (row_bytes i) = CRC_ROW.
Proof.
  unfold row_bytes. destruct (get_at chunk_crcs i) as [row|] eqn:E; [|apply Zlen_zeros; done].
  apply get_at_Some in E as [_ E]. rewrite Forall_lookup in Hrows. apply Hrows in E.
  rewrite Zlen_concat_le32, E. done.
Qed.

Lemma encode_loop blocks hdr es rs i n : Zlen hdr = BLK_HEADER -> Zlen es = i * BLK_ENTRY -> Zlen rs = i * CRC_ROW ->
  n = i + Zlen blocks ->
  ofold (encode_block chunk_crcs (BLK_HEADER + n * BLK_ENTRY)) (enumerate i blocks)
    (hdr ++ es ++ zeros (Zlen blocks * BLK_ENTRY) ++ rs ++ zeros (Zlen blocks * CRC_ROW)) =
  Some (hdr ++ es ++ concat (map entry_bytes blocks) ++ rs ++ concat (map row_bytes (seqZ i (Zlen blocks)))).
Proof.
  intros Hh. revert es rs i. induction blocks as [|b blocks IH]; intros es rs i He Hr Hn.
  - simpl. by rewrite !app_nil_r.
  - pose proof (Zlen_nonneg blocks). pose proof (Zlen_rec_bytes (rec_of b)) as Hb. pose proof (Zlen_row i) as Hri.
    cbn [enumerate ofold encode_block]. rewrite Zlen_cons in Hn |- *.
    unfold BLK_HEADER, BLK_ENTRY, CRC_ROW, MAX_CHUNK_CRCS in *.
    replace ((1 + Zlen blocks) * 32) with (32 + Zlen blocks * 32) by lia.
    replace ((1 + Zlen blocks) * (16 * 4)) with (64 + Zlen blocks * 64) by lia.
    rewrite !zeros_add, <- !app_assoc by lia. rewrite (app_assoc hdr es).
    rewrite put_range_app by (rewrite ?Hb; zlen). cbn [option_bind mbind].
    assert (match get_at chunk_crcs i with
            | Some row => put_each ((hdr ++ es) ++ rec_bytes (rec_of b) ++ zeros (Zlen blocks * 32) ++ rs ++ zeros 64 ++
                zeros (Zlen blocks * 64)) (16 + n * 32 + i * (16 * 4)) 4 (map le32 row)
            | None => Some ((hdr ++ es) ++ rec_bytes (rec_of b) ++ zeros (Zlen blocks * 32) ++ rs ++ zeros 64 ++
                zeros (Zlen blocks * 64)) end
          = Some (hdr ++ (es ++ rec_bytes (rec_of b)) ++ zeros (Zlen blocks * 32) ++ (rs ++ row_bytes i) ++
                zeros (Zlen blocks * (16 * 4)))) as ->.
    { replace (Zlen blocks * (16 * 4)) with (Zlen blocks * 64) by lia. unfold row_bytes in *.
      destruct (get_at chunk_crcs i) as [row|] eqn:Eg; [|by rewrite <- !app_assoc].
      rewrite Zlen_concat_le32 in Hri.
      rewrite !app_assoc, <- (app_assoc _ (zeros 64)). rewrite put_each_app.
      - by rewrite <- !app_assoc.
      - rewrite !Zlen_app, Zlen_zeros by lia. lia.
      - apply Forall_forall. intros x (y & -> & _)%list_elem_of_fmap. apply Zlen_le32.
      - rewrite Zlen_map. zlen. }
    cbn [option_bind mbind]. rewrite IH; [|rewrite Zlen_app; lia..|lia].
    cbn [map concat]. rewrite (seqZ_cons i (1 + Zlen blocks)) by lia. cbn [map concat].
    replace (Z.pred (1 + Zlen blocks)) with (Zlen blocks) by lia.
    change (Z.succ i) with (i + 1). by rewrite <- !app_assoc.
Qed.

Definition table_bytes (blocks : list BlockLoc) : bytes :=
  (le32 BLK_MAGIC ++ le32 BLK_ENTRY ++ le64 (Zlen blocks)) ++ concat (map entry_bytes blocks) ++
  concat (map row_bytes (seqZ 0 (Zlen blocks))).

Lemma encode_blocks_bytes blocks : encode_blocks blocks chunk_crcs = Some (table_bytes blocks).
Proof.
  pose proof (Zlen_nonneg blocks). unfold encode_blocks, block_table_len. cbv zeta.
  rewrite !zeros_add by (unfold BLK_ENTRY, CRC_ROW, BLK_HEADER, MAX_CHUNK_CRCS; lia).
  set (es := zeros (Zlen blocks * BLK_ENTRY)). set (rs := zeros (Zlen blocks * CRC_ROW)).
  change (zeros BLK_HEADER) with (zeros 4 ++ zeros 4 ++ zeros 8). rewrite <- !app_assoc.
  rewrite (put_range_here (zeros 4)) by zlen. cbn [option_bind mbind].
  rewrite (put_range_app (le32 BLK_MAGIC) (zeros 4)) by (done || zlen). cbn [option_bind mbind].
  rewrite app_assoc, (put_range_app _ (zeros 8)) by (zlen). cbn [option_bind mbind].
  rewrite <- app_assoc, (app_assoc (le32 BLK_ENTRY)), (app_assoc (le32 BLK_MAGIC)).
  rewrite <- (app_nil_l (es ++ rs)), <- (app_nil_l rs). unfold es, rs.
  rewrite (encode_loop blocks (le32 BLK_MAGIC ++ le32 BLK_ENTRY ++ le64 (Zlen blocks)) [] [] 0 (Zlen blocks));
    [done|unfold BLK_HEADER; zlia|done|done|lia].
Qed.

Lemma map_entries_width blocks : Forall (fun v => Zlen v = BLK_ENTRY) (map entry_bytes blocks).
Proof. apply Forall_forall. intros x (y & -> & _)%list_elem_of_fmap. apply Zlen_rec_bytes. Qed.

Lemma map_rows_width ixs : Forall (fun v => Zlen v = CRC_ROW) (map row_bytes ixs).
Proof. apply Forall_forall. intros x (y & -> & _)%list_elem_of_fmap. apply Zlen_row. Qed.

Lemma Zlen_blk_table blocks : Zlen (table_bytes blocks) = block_table_len (Zlen blocks).
Proof.
  pose proof (Zlen_nonneg blocks). unfold table_bytes. rewrite !Zlen_app.
  rewrite (Zlen_concat _ _ (map_entries_width blocks)), (Zlen_concat _ _ (map_rows_width _)), !Zlen_map.
  rewrite Zlen_seqZ by lia. unfold block_table_len. zlen. unfold BLK_HEADER. lia.
Qed.

(** What a table read in place answers: every field of every entry, and
    every checksum. [aligned base BLK_HEADER] is the mapping's. *)
Context (blocks : list BlockLoc) (base : Z).
Context (Hlocs : Forall loc_ok blocks) (Hlen : block_table_len (Zlen blocks) < U64).
Context (Hbase : aligned base BLK_HEADER = true).

Lemma mapped_parse_table : mapped_parse base (table_bytes blocks) = Some (mkMapped BLK_HEADER (Zlen blocks)).
Proof.
  pose proof (Zlen_nonneg blocks). unfold block_table_len, BLK_ENTRY, CRC_ROW, MAX_CHUNK_CRCS, BLK_HEADER in Hlen.
  assert (is_Some (get_range (table_bytes blocks) BLK_HEADER (BLK_HEADER + Zlen blocks * BLK_ENTRY))) as [r Hr].
  { pose proof (Zlen_blk_table blocks) as Ht. unfold block_table_len, CRC_ROW, MAX_CHUNK_CRCS in Ht.
    destruct (get_range_is_Some (table_bytes blocks) BLK_HEADER (BLK_HEADER + Zlen blocks * BLK_ENTRY)) as [r Hr];
      [unfold BLK_HEADER, BLK_ENTRY in *; lia..|]. by exists r. }
  unfold mapped_parse. unfold table_bytes in *. rewrite <- !app_assoc in *. layout ltac:(first [done | unfold U64 in *; lia]).
  rewrite !Z.eqb_refl. cbn [negb].
  cbn [option_bind mbind]. rewrite (proj2 (cmul_Some _ _ _)) by (split; [done|unfold BLK_ENTRY, U64 in *; lia]).
  cbn [option_bind mbind]. rewrite (proj2 (cadd_Some _ _ _)) by (split; [done|unfold BLK_HEADER, BLK_ENTRY, U64 in *; lia]).
  cbn [option_bind mbind]. rewrite Hr. cbn [option_bind mbind]. by rewrite Hbase.
Qed.

Lemma mapped_get_table i b : get_at blocks i = Some b ->
  mapped_get base (mkMapped BLK_HEADER (Zlen blocks)) (table_bytes blocks) i = Some b.
Proof.
  intros Hb. pose proof (get_at_lt _ _ _ Hb). unfold mapped_get. cbn [mb_n mb_off].
  unfold block_table_len, CRC_ROW, MAX_CHUNK_CRCS in Hlen. unfold BLK_ENTRY, BLK_HEADER in *.
  rewrite (proj2 (Z.leb_gt _ _)) by lia.
  checked ltac:(unfold U64 in *; lia).
  unfold table_bytes. rewrite (get_range_table 32 _ _ _ i (entry_bytes b)); first last.
  - zlen.
  - by rewrite get_at_map, Hb.
  - apply map_entries_width.
  - cbn [option_bind mbind].
    assert (aligned base (16 + i * 32) = true) as ->.
    { unfold aligned, BLK_ALIGN in *. apply Z.eqb_eq in Hbase. apply Z.eqb_eq.
      replace (base + (16 + i * 32)) with (base + 16 + (i * 4) * 8) by lia. by rewrite Z.mod_add. }
    cbn [negb]. unfold entry_bytes. assert (loc_ok b).
    { apply get_at_Some in Hb as [_ Hb]. rewrite Forall_lookup in Hlocs. by eapply Hlocs. }
    rewrite rec_roundtrip by done. cbn. by rewrite flags_roundtrip.
Qed.

Lemma mapped_crc_table i j row c : i < Zlen blocks -> get_at chunk_crcs i = Some row -> get_at row j = Some c ->
  0 <= c < U32 ->
  mapped_chunk_crc (mkMapped BLK_HEADER (Zlen blocks)) (table_bytes blocks) i j = Some c.
Proof.
  intros Hi Hr Hc Hcr. pose proof (get_at_lt _ _ _ Hr). pose proof (get_at_lt _ _ _ Hc).
  assert (Zlen row = 16) as Hrow.
  { pose proof (proj1 (get_at_Some _ _ _) Hr) as [_ Hl]. rewrite Forall_lookup in Hrows. by eapply Hrows. }
  unfold mapped_chunk_crc. cbn [mb_n mb_off]. unfold block_table_len, CRC_ROW, MAX_CHUNK_CRCS in *.
  unfold BLK_ENTRY, BLK_HEADER in *.
  rewrite !(proj2 (Z.leb_gt _ _)) by lia. cbn [orb].
  checked ltac:(unfold U64 in *; lia).
  assert (get_range (table_bytes blocks) (16 + Zlen blocks * 32 + i * (16 * 4)) (16 + Zlen blocks * 32 + i * (16 * 4) + CRC_ROW)
          = Some (row_bytes i)) as Hg.
  { unfold table_bytes. rewrite app_assoc, <- (app_nil_r (concat (map row_bytes _))).
    apply (get_range_table CRC_ROW _ _ _ i); [apply map_rows_width| |].
    - rewrite get_at_map, get_at_seqZ by lia. done.
    - rewrite !Zlen_app, (Zlen_concat _ _ (map_entries_width blocks)), Zlen_map. unfold BLK_ENTRY, CRC_ROW, MAX_CHUNK_CRCS. zlen. }
  unfold row_bytes in Hg. rewrite Hr in Hg. rewrite (Z.mul_comm j).
  apply (rd_u32_sub _ _ _ _ _ _ Hg).
  pose proof (rd_u32_table [] [] row j c (4 * j) Hc Hcr ltac:(znil; lia)) as Hj. by rewrite app_nil_r in Hj.
Qed.
End table.

Lemma is_block_table crcs blocks : is_block_section (table_bytes crcs blocks) = true.
Proof. unfold is_block_section, table_bytes. rewrite <- !app_assoc. layout done. apply Z.eqb_refl. Qed.

(** A loop that pushes what [g] answers at each index collects a list that
    [g] indexes. *)
Lemma collect_all {A} (g : Z -> option A) (l : list A) : (forall i, 0 <= i -> g i = get_at l i) ->
  ofold (fun out i => b ← g i; Some (out ++ [b])) (seqZ 0 (Zlen l)) [] = Some l.
Proof.
  intros Hg. enough (forall a b, l = a ++ b ->
    ofold (fun out i => b ← g i; Some (out ++ [b])) (seqZ (Zlen a) (Zlen b)) a = Some l) as H by by apply (H [] l).
  intros a b. revert a. induction b as [|x b IH]; intros a ->.
  - cbn. by rewrite app_nil_r.
  - rewrite Zlen_cons, seqZ_cons by (pose proof (Zlen_nonneg b); lia). cbn [ofold].
    rewrite Hg by apply Zlen_nonneg. rewrite get_at_app_mid by done. cbn [option_bind mbind].
    replace (Z.succ (Zlen a)) with (Zlen (a ++ [x])) by zlen.
    replace (Z.pred (1 + Zlen b)) with (Zlen b) by lia. apply IH. by rewrite <- app_assoc.
Qed.

(** The table a writer encodes is, byte for byte, as long as
    [block_table_len] said before a block existed, and read in place it
    answers every block's location, every chunk's checksum, and nothing for
    a block past the last; [decode_blocks] copies out the same list. A
    writer's locations and rows are what the types hold, and the mapping is
    8-aligned where the entries start. *)
Theorem block_table_roundtrip blocks crcs base :
  Forall loc_ok blocks -> Forall (fun r => Zlen r = MAX_CHUNK_CRCS /\ Forall (fun c => 0 <= c < U32) r) crcs ->
  block_table_len (Zlen blocks) < U64 -> aligned base BLK_HEADER = true ->
  exists sec m, encode_blocks blocks crcs = Some sec /\ Zlen sec = block_table_len (Zlen blocks) /\
    is_block_section sec = true /\
    mapped_parse base sec = Some m /\ mapped_len m = Zlen blocks /\
    (forall i, 0 <= i -> mapped_get base m sec i = get_at blocks i) /\
    (forall i j row, i < Zlen blocks -> get_at crcs i = Some row -> 0 <= j -> mapped_chunk_crc m sec i j = get_at row j) /\
    decode_blocks base sec = Some blocks.
Proof.
  intros Hl Hr Hlen Hb. assert (Forall (fun r => Zlen r = MAX_CHUNK_CRCS) crcs) as Hr1
    by (eapply Forall_impl; [exact Hr|]; by intros ? []).
  assert (mapped_parse base (table_bytes crcs blocks) = Some (mkMapped BLK_HEADER (Zlen blocks))) as Hp
    by by apply mapped_parse_table.
  assert (forall i, 0 <= i -> mapped_get base (mkMapped BLK_HEADER (Zlen blocks)) (table_bytes crcs blocks) i = get_at blocks i) as Hg.
  { intros i Hi. destruct (get_at blocks i) as [b|] eqn:E; [by apply mapped_get_table|].
    apply get_at_None in E as [E|E]; [lia|]. unfold mapped_get. cbn [mb_n]. by rewrite (proj2 (Z.leb_le _ _)). }
  eexists _, _. split; [by apply encode_blocks_bytes|]. split; [by apply Zlen_blk_table|].
  split; [by apply is_block_table|]. split; [exact Hp|]. split; [done|]. split; [exact Hg|]. split.
  - intros i j row Hi Hrow Hj. destruct (get_at row j) as [c|] eqn:E.
    + pose proof (proj1 (get_at_Some _ _ _) Hrow) as [_ Hrl]. rewrite Forall_lookup in Hr. destruct (Hr _ _ Hrl) as [_ Hcs].
      rewrite Forall_lookup in Hcs. pose proof (proj1 (get_at_Some _ _ _) E) as [_ Hcl].
      eapply mapped_crc_table; eauto.
    + pose proof (proj1 (get_at_Some _ _ _) Hrow) as [_ Hrl]. rewrite Forall_lookup in Hr. destruct (Hr _ _ Hrl) as [Hrl' _].
      apply get_at_None in E as [E|E]; [lia|]. unfold mapped_chunk_crc.
      rewrite (proj2 (Z.leb_le MAX_CHUNK_CRCS j)) by lia. by rewrite orb_true_r.
  - unfold decode_blocks. rewrite Hp. cbn [option_bind mbind mapped_len mb_n]. by apply collect_all.
Qed.

Lemma block_table_roundtrip_witness :
  exists sec, encode_blocks [mkBlockLoc 4096 10 20 16 true 7 true false] [seqZ 100 16] = Some sec /\
    decode_blocks 0 sec = Some [mkBlockLoc 4096 10 20 16 true 7 true false].
Proof.
  destruct (block_table_roundtrip [mkBlockLoc 4096 10 20 16 true 7 true false] [seqZ 100 16] 0)
    as (sec & m & He & _ & _ & _ & _ & _ & _ & Hd).
  - repeat constructor; vm_compute; done.
  - constructor; [|constructor]. split; [reflexivity|]. apply Forall_seqZ. unfold U32. lia.
  - vm_compute. reflexivity.
  - reflexivity.
  - exists sec. split; [exact He|exact Hd].
Defined.
