(* ===== verification/Wal.v ===== *)
(** * The write-ahead log

    [src/src/db.rs], [Wal]: a log file's header and kind byte, the frames
    [frame] appends, the commit frame that closes a batch, the file behind
    them, and [replay], which a database opens by. A batch's records are
    covered by the CRC its commit frame carries, every CRC is mixed with a
    seed of the file's own, and replay applies a batch only at a commit frame
    both of whose CRCs verify.

    The file is its bytes; [w_written] is where the handle's next write
    lands, [w_synced] how far the last barrier reached. The calls that can
    only fail in the operating system are taken to succeed. *)

From S2P Require Import Prelude Varint Crc.

Definition FRAME_HEADER : Z := 8.

(** The header: a name and a kind byte. *)
Definition WAL_HEAD : bytes := list_byte_of_string "SUPDBWL".
Definition WAL_CHAINED : byte := x04.
Definition WAL_LOOSE : byte := x05.
Definition WAL_MAGIC : bytes := WAL_HEAD ++ [WAL_CHAINED].

Definition wal_header (kind : byte) : bytes := WAL_HEAD ++ [kind].

Definition wal_kind (header : bytes) : option byte :=
  if (Zlen header <? Zlen WAL_MAGIC) || negb (beqb (take 7 header) WAL_HEAD) then None
  else match get_at header (Zlen WAL_HEAD) with
       | Some k => if byte_eqb k WAL_CHAINED || byte_eqb k WAL_LOOSE then Some k else None
       | None => None
       end.

(** splitmix64's finaliser, cut to 32 bits. *)
Definition wal_seed (id : Z) : Z :=
  let z := w64 (id + 0x9E3779B97F4A7C15) in
  let z := w64 (Z.lxor z (Z.shiftr z 30) * 0xBF58476D1CE4E5B9) in
  let z := w64 (Z.lxor z (Z.shiftr z 27) * 0x94D049BB133111EB) in
  w32 (Z.lxor z (Z.shiftr z 31)).

Definition WAL_PUT : byte := x00.
Definition WAL_DEL : byte := x01.
Definition WAL_COMMIT : byte := x02.

Record Wal := mkWal {
  w_file : bytes;
  w_seq : Z;
  w_pending : bytes;
  w_written : Z;
  w_synced : Z;
  w_seed : Z;
  w_loose : bool;
  w_dropped : Z
}.

(** Bytes written at the handle's position, over what is there and past its
    end. *)
Definition write_at (file : bytes) (at_ : Z) (b : bytes) : bytes :=
  take (Z.to_nat at_) file ++ b ++ drop (Z.to_nat (at_ + Zlen b)) file.

(** ** The file *)

Definition wal_create (id : Z) (kind : byte) : Wal :=
  mkWal (wal_header kind) 0 [] (Zlen WAL_MAGIC) 0 (wal_seed id) (byte_eqb kind WAL_LOOSE) 0.

(** The zeros land one page-sized write at a time, and the handle goes back
    to where it was. Each turn writes at least a byte. *)
Fixpoint prefill_go (fuel : nat) (file : bytes) (at_ total : Z) : bytes :=
  match fuel with
  | O => file
  | S fuel =>
      if at_ <? total then
        let n := Z.min 4096 (total - at_) in
        prefill_go fuel (write_at file at_ (zeros n)) (at_ + n) total
      else file
  end.

Definition wal_prefill (w : Wal) (total : Z) : Wal :=
  mkWal (prefill_go (Z.to_nat total) (w_file w) (w_written w) total) (w_seq w) (w_pending w) (w_written w)
    (w_synced w) (w_seed w) (w_loose w) (w_dropped w).

(** The spare's old bytes stay after the fresh header. *)
Definition wal_recycle (spare : bytes) (id : Z) (kind : byte) : Wal :=
  mkWal (write_at spare 0 (wal_header kind)) 0 [] (Zlen WAL_MAGIC) 0 (wal_seed id) (byte_eqb kind WAL_LOOSE) 0.

(** [file] is what is there, empty where the file is new. *)
Definition wal_open_append (file : bytes) (id seq : Z) : option Wal :=
  if Zlen file =? 0 then
    Some (mkWal WAL_MAGIC seq [] (Zlen WAL_MAGIC) 0 (wal_seed id) false 0)
  else
    head ← get_range file 0 8;
    let loose := match wal_kind head with Some k => byte_eqb k WAL_LOOSE | None => false end in
    let synced := if Zlen file =? Zlen WAL_MAGIC then 0 else Zlen file in
    Some (mkWal file seq [] (Zlen file) synced (wal_seed id) loose 0).

(** ** Frames *)

Definition set_pending (w : Wal) (pending : bytes) (seq : Z) : Wal :=
  mkWal (w_file w) seq pending (w_written w) (w_synced w) (w_seed w) (w_loose w) (w_dropped w).

(** [None] where a slice would panic; [frame_bytes] says it never does. *)
Definition wal_frame (w : Wal) (kind : byte) (key value : bytes) : option Wal :=
  let pending := w_pending w in
  let batch_crc := if byte_eqb kind WAL_COMMIT then Z.lxor (crc32 pending) (w_seed w) else 0 in
  let body_at := Zlen pending + FRAME_HEADER in
  let pending := pending ++ zeros FRAME_HEADER in
  let pending := pending ++ le64 (w_seq w) in
  let pending := pending ++ [kind] in
  let pending :=
    if byte_eqb kind WAL_COMMIT then pending ++ le32 batch_crc
    else
      let pending := Log.put_uvarint pending (Zlen key) in
      let pending := pending ++ key in
      if byte_eqb kind WAL_PUT then pending ++ value else pending in
  let body_len := w32 (Zlen pending - body_at) in
  body ← get_from pending body_at;
  let crc := if byte_eqb kind WAL_COMMIT then Z.lxor (crc32 body) (w_seed w) else 0 in
  pending ← put_range pending (body_at - 8) (le32 body_len);
  pending ← put_range pending (body_at - 4) (le32 crc);
  Some (set_pending w pending (w_seq w + 1)).

Definition wal_append (w : Wal) (key value : bytes) : option Wal := wal_frame w WAL_PUT key value.
Definition wal_delete (w : Wal) (key : bytes) : option Wal := wal_frame w WAL_DEL key [].

Definition wal_mark_commit (w : Wal) : option Wal :=
  if negb (Zlen (w_pending w) =? 0) then wal_frame w WAL_COMMIT [] [] else Some w.

Definition wal_write (w : Wal) : Wal :=
  if Zlen (w_pending w) =? 0 then w
  else mkWal (write_at (w_file w) (w_written w) (w_pending w)) (w_seq w) []
         (w_written w + Zlen (w_pending w)) (w_synced w) (w_seed w) (w_loose w) (w_dropped w).

Definition wal_sync (w : Wal) : Wal :=
  mkWal (w_file w) (w_seq w) (w_pending w) (w_written w) (w_written w) (w_seed w) (w_loose w) (w_dropped w).

Definition PAGE : Z := 4096.

(** What leaves the page cache is the range's bounds; the file does not
    change. *)
Definition wal_drop_synced (w : Wal) (stride : Z) : Wal :=
  if stride =? 0 then w
  else
    let floor := Z.land (w_synced w) (Z.lxor (U64 - 1) (PAGE - 1)) in
    if Z.min (w_dropped w + stride) (U64 - 1) <=? floor
    then mkWal (w_file w) (w_seq w) (w_pending w) (w_written w) (w_synced w) (w_seed w) (w_loose w) floor
    else w.

Definition wal_frames_unsynced (w : Wal) : bool := Z.max (w_synced w) (Zlen WAL_MAGIC) <? w_written w.

(** The kind byte rewritten through a handle of its own. *)
Definition wal_chain (w : Wal) : Wal :=
  if negb (w_loose w) then w
  else mkWal (write_at (w_file w) (Zlen WAL_HEAD) [WAL_CHAINED]) (w_seq w) (w_pending w) (w_written w)
         (w_synced w) (w_seed w) false (w_dropped w).

(** ** Replay *)

(** A record of the batch being read: its kind, its sequence, and where its
    key and its value lie. *)
Record item := mkItem { it_kind : byte; it_seq : Z; it_ks : Z; it_ke : Z; it_ve : Z }.

(** A record applied. *)
Record applied := mkApplied { ap_kind : byte; ap_key : bytes; ap_value : bytes }.

Record rstate := mkR {
  r_p : Z;
  r_next : Z;
  r_committed : Z;
  r_valid : Z;
  r_batch : list item;
  r_start : Z;
  r_out : list applied
}.

(** One turn of the walk: on to the next frame, the walk's end, or a return
    from inside it. [Panic] is a slice out of range. *)
Inductive step :=
| Next (st : rstate)
| Break
| Return (r : result (Z * Z * bool))
| Panic.

Definition or_panic {A} (o : option A) (k : A -> step) : step :=
  match o with Some a => k a | None => Panic end.

(** [batch.iter().map(seq).chain(once(seq)).find(|s| s >= from)]. *)
Definition first_applied (from : Z) (batch : list item) (seq : Z) : option Z :=
  List.find (fun s => from <=? s) (map it_seq batch ++ [seq]).

Definition gap_msg : string := "wal sequence gap: a durable record is missing".

(** The sequence check over a batch's records, the commit's own included by
    the caller: the next sequence, or the gap. [None] is the last sequence
    there is, which has no next. *)
Fixpoint check_seqs (from next : Z) (seqs : list Z) : option (result Z) :=
  match seqs with
  | [] => Some (Ok next)
  | s :: seqs =>
      if from <=? s then if negb (s =? next) then Some (Err gap_msg) else next ← cadd s 1; check_seqs from next seqs
      else check_seqs from next seqs
  end.

Fixpoint apply_batch (buf : bytes) (from : Z) (batch : list item) (out : list applied) : option (list applied) :=
  match batch with
  | [] => Some out
  | it :: batch =>
      if from <=? it_seq it then
        key ← get_range buf (it_ks it) (it_ke it);
        value ← get_range buf (it_ke it) (it_ve it);
        apply_batch buf from batch (out ++ [mkApplied (it_kind it) key value])
      else apply_batch buf from batch out
  end.

(** The commit arm. *)
Definition replay_commit (buf : bytes) (seed from : Z) (loose : bool) (st : rstate)
    (body : bytes) (seq crc fin : Z) : step :=
  if negb (Z.lxor (crc32 body) seed =? crc) || negb (Zlen body =? 13) then Break
  else
    or_panic (rd_u32 body 9) (fun want =>
    or_panic (get_range buf (r_start st) (r_p st)) (fun recs =>
    if negb (Z.lxor (crc32 recs) seed =? want) then Break
    else if loose && (r_committed st =? from) &&
            match first_applied from (r_batch st) seq with Some s => negb (s =? r_next st) | None => false end
    then Return (Ok (from, Zlen WAL_MAGIC, true))
    else
      or_panic (check_seqs from (r_next st) (map it_seq (r_batch st) ++ [seq])) (fun next =>
      match next with
      | Err m => Return (Err m)
      | Ok next =>
          or_panic (apply_batch buf from (r_batch st) (r_out st)) (fun out =>
          Next (mkR fin next next fin [] fin out))
      end))).

(** The record arm. *)
Definition replay_record (st : rstate) (body : bytes) (kind : byte) (seq crc body_at fin : Z) : step :=
  if negb (crc =? 0) then Break
  else
    match Log.get_uvarint body 9 with
    | None => Break
    | Some (klen, q) =>
        match cadd q klen with
        | None => Break
        | Some kend =>
            if Zlen body <? kend then Break
            else if byte_eqb kind WAL_DEL && negb (kend =? Zlen body) then Break
            else Next (mkR fin (r_next st) (r_committed st) (r_valid st)
                   (r_batch st ++ [mkItem kind seq (body_at + q) (body_at + kend) fin]) (r_start st) (r_out st))
        end
    end.

Definition replay_step (buf : bytes) (seed from : Z) (loose : bool) (st : rstate) : step :=
  let p := r_p st in
  or_panic (rd_u32 buf p) (fun len =>
  or_panic (rd_u32 buf (p + 4)) (fun crc =>
  let body_at := p + FRAME_HEADER in
  match cadd body_at len with
  | None => Break
  | Some fin =>
      if (Zlen buf <? fin) || (len <? 9) then Break
      else
        or_panic (get_range buf body_at fin) (fun body =>
        or_panic (rd_u64 body 0) (fun seq =>
        or_panic (get_at body 8) (fun kind =>
        if byte_eqb kind WAL_COMMIT then replay_commit buf seed from loose st body seq crc fin
        else if byte_eqb kind WAL_PUT || byte_eqb kind WAL_DEL then replay_record st body kind seq crc body_at fin
        else Break)))
  end)).

(** The walk. Every turn passes a frame of at least seventeen bytes, so the
    buffer's length is fuel enough ([replay_total]). The answer is what was
    applied, and the result; [None] is a panic. *)
Fixpoint replay_go (fuel : nat) (buf : bytes) (seed from : Z) (loose : bool) (st : rstate)
    : option (list applied * result (Z * Z * bool)) :=
  match fuel with
  | O => None
  | S fuel =>
      if Zlen buf - r_p st <? FRAME_HEADER then Some (r_out st, Ok (r_committed st, r_valid st, false))
      else
        match replay_step buf seed from loose st with
        | Next st => replay_go fuel buf seed from loose st
        | Break => Some (r_out st, Ok (r_committed st, r_valid st, false))
        | Return r => Some (r_out st, r)
        | Panic => None
        end
  end.

Definition not_wal : string := "not a supdb WAL: the header is missing or from an older format".

(** [b.starts_with(p)]. *)
Definition starts_with (b p : bytes) : bool := beqb (take (length p) b) p.

(** [file] is [None] where there is no such file. *)
Definition wal_replay (file : option bytes) (id from : Z) (first : bool)
    : option (list applied * result (Z * Z * bool)) :=
  let seed := wal_seed id in
  match file with
  | None => Some ([], Ok (from, 0, false))
  | Some buf =>
      if Zlen buf =? 0 then Some ([], Ok (from, 0, false))
      else if Zlen buf <? Zlen WAL_MAGIC then
        if starts_with WAL_HEAD (take (Nat.min (length buf) (length WAL_HEAD)) buf)
        then Some ([], Ok (from, 0, false)) else Some ([], Err not_wal)
      else
        match wal_kind (take (length WAL_MAGIC) buf) with
        | None => Some ([], Err not_wal)
        | Some kind =>
            let loose := byte_eqb kind WAL_LOOSE && negb first in
            let p := Zlen WAL_MAGIC in
            replay_go (S (length buf)) buf seed from loose (mkR p from from p [] p [])
        end
  end.

(** ** The bytes of a log, as a function of what was written *)

Inductive op :=
| PutOp (key value : bytes)
| DelOp (key : bytes).

Definition op_kind (o : op) : byte := match o with PutOp _ _ => WAL_PUT | DelOp _ => WAL_DEL end.
Definition op_key (o : op) : bytes := match o with PutOp k _ | DelOp k => k end.
Definition op_value (o : op) : bytes := match o with PutOp _ v => v | DelOp _ => [] end.
Definition op_applied (o : op) : applied := mkApplied (op_kind o) (op_key o) (op_value o).

Definition body_bytes (seq : Z) (kind : byte) (payload : bytes) : bytes := le64 seq ++ [kind] ++ payload.
Definition frame_bytes (crc : Z) (body : bytes) : bytes := le32 (Zlen body) ++ le32 crc ++ body.

Definition op_body (seq : Z) (o : op) : bytes :=
  body_bytes seq (op_kind o) (uvarint (Zlen (op_key o)) ++ op_key o ++ op_value o).
Definition op_frame (seq : Z) (o : op) : bytes := frame_bytes 0 (op_body seq o).

Fixpoint recs_bytes (seq : Z) (ops : list op) : bytes :=
  match ops with [] => [] | o :: ops => op_frame seq o ++ recs_bytes (seq + 1) ops end.

Definition commit_frame (seed seq : Z) (recs : bytes) : bytes :=
  let body := body_bytes seq WAL_COMMIT (le32 (Z.lxor (crc32 recs) seed)) in
  frame_bytes (Z.lxor (crc32 body) seed) body.

Definition batch_bytes (seed seq : Z) (ops : list op) : bytes :=
  recs_bytes seq ops ++ commit_frame seed (seq + Zlen ops) (recs_bytes seq ops).

Fixpoint log_bytes (seed seq : Z) (batches : list (list op)) : bytes :=
  match batches with
  | [] => []
  | ops :: batches => batch_bytes seed seq ops ++ log_bytes seed (seq + Zlen ops + 1) batches
  end.

(** A frame's length fits its [u32], its sequence its [u64]. *)
Definition op_ok (o : op) : Prop := Zlen (op_key o) + Zlen (op_value o) < U32 - 19.
Definition batch_ok (ops : list op) : Prop := ops <> [] /\ Forall op_ok ops.

Lemma Zlen_frame crc body : Zlen (frame_bytes crc body) = 8 + Zlen body.
Proof. unfold frame_bytes. zlia. Qed.

Lemma Zlen_body seq kind payload : Zlen (body_bytes seq kind payload) = 9 + Zlen payload.
Proof. unfold body_bytes. zlia. Qed.

Lemma op_body_len seq o : op_ok o -> 10 <= Zlen (op_body seq o) < U32.
Proof.
  unfold op_ok, op_body. intros H. rewrite Zlen_body, !Zlen_app.
  pose proof (uvarint_len_pos (Zlen (op_key o))). pose proof (Zlen_nonneg (op_key o)).
  pose proof (Zlen_nonneg (op_value o)). lia.
Qed.

(** ** The writer writes those bytes *)

(** The two words patched into the space left for them. *)
Lemma frame_patch pending body crc :
  (pending ← put_range (pending ++ zeros 8 ++ body) (Zlen pending) (le32 (Zlen body));
   put_range pending (Zlen pending - Zlen body - 8 + 4) (le32 crc)) =
  Some (pending ++ frame_bytes crc body).
Proof.
  change (zeros 8) with (zeros 4 ++ zeros 4). rewrite <- !app_assoc.
  rewrite put_range_app by (done || zlia). cbn [option_bind mbind].
  rewrite (app_assoc pending (le32 _)). rewrite put_range_app by zlia.
  unfold frame_bytes. by rewrite <- !app_assoc.
Qed.

Lemma wal_frame_bytes w kind key value payload : Zlen key < U64 ->
  payload = (if byte_eqb kind WAL_COMMIT then le32 (Z.lxor (crc32 (w_pending w)) (w_seed w))
             else uvarint (Zlen key) ++ key ++ (if byte_eqb kind WAL_PUT then value else [])) ->
  Zlen payload < U32 - 9 ->
  let body := body_bytes (w_seq w) kind payload in
  let crc := if byte_eqb kind WAL_COMMIT then Z.lxor (crc32 body) (w_seed w) else 0 in
  wal_frame w kind key value = Some (set_pending w (w_pending w ++ frame_bytes crc body) (w_seq w + 1)).
Proof.
  intros Hk Hp Hl body crc. unfold wal_frame. unfold FRAME_HEADER. cbv zeta.
  set (full := if byte_eqb kind WAL_COMMIT then _ else _).
  assert (full = w_pending w ++ zeros 8 ++ body) as Hfull.
  { unfold full, body, body_bytes. rewrite Hp. pose proof (Zlen_nonneg key).
    destruct (byte_eqb kind WAL_COMMIT); [by rewrite <- !app_assoc|].
    rewrite log_put_uvarint, put_uvarint_app by lia.
    destruct (byte_eqb kind WAL_PUT); rewrite <- !app_assoc; [done|by rewrite app_nil_r]. }
  rewrite Hfull. rewrite app_assoc, get_from_app by (zlia). rewrite <- app_assoc. cbn [option_bind mbind].
  pose proof (Zlen_body (w_seq w) kind payload) as Hb. fold body in Hb. pose proof (Zlen_nonneg payload).
  rewrite !Zlen_app, Zlen_zeros by lia.
  replace (w32 (Zlen (w_pending w) + (8 + Zlen body) - (Zlen (w_pending w) + 8))) with (Zlen body)
    by (unfold w32; rewrite Z.mod_small; lia).
  replace (Zlen (w_pending w) + 8 - 8) with (Zlen (w_pending w)) by lia.
  pose proof (frame_patch (w_pending w) body crc) as Hf.
  destruct (put_range (w_pending w ++ zeros 8 ++ body) (Zlen (w_pending w)) (le32 (Zlen body))) as [b1|] eqn:E; [|done].
  cbn [option_bind mbind] in *. apply put_range_len in E. rewrite !Zlen_app, Zlen_zeros in E by lia.
  replace (Zlen (w_pending w) + 8 - 4) with (Zlen b1 - Zlen body - 8 + 4) by lia. fold crc. by rewrite Hf.
Qed.

Definition wal_op (w : Wal) (o : op) : option Wal :=
  match o with PutOp k v => wal_append w k v | DelOp k => wal_delete w k end.

Lemma wal_op_bytes w o : op_ok o ->
  wal_op w o = Some (set_pending w (w_pending w ++ op_frame (w_seq w) o) (w_seq w + 1)).
Proof.
  intros Ho. pose proof (op_body_len (w_seq w) o Ho) as Hl. unfold op_body in Hl. rewrite Zlen_body in Hl.
  unfold op_ok in Ho. pose proof (Zlen_nonneg (op_value o)).
  destruct o as [k v|k]; cbn [wal_op op_key op_value op_kind] in *.
  - apply (wal_frame_bytes w WAL_PUT k v (uvarint (Zlen k) ++ k ++ v)); [unfold U32, U64 in *; lia|done|lia].
  - apply (wal_frame_bytes w WAL_DEL k [] (uvarint (Zlen k) ++ k ++ [])); [unfold U32, U64 in *; lia|done|lia].
Qed.

(** One batch: its records, its commit frame, one write. *)
Definition wal_batch (w : Wal) (ops : list op) : option Wal :=
  w ← ofold wal_op ops w;
  w ← wal_mark_commit w;
  Some (wal_write w).

Lemma wal_ops_bytes ops w : Forall op_ok ops ->
  ofold wal_op ops w = Some (set_pending w (w_pending w ++ recs_bytes (w_seq w) ops) (w_seq w + Zlen ops)).
Proof.
  intros Hops. revert w. induction Hops as [|o ops Ho _ IH]; intros w.
  - cbn. destruct w. cbn. rewrite app_nil_r. znil. by rewrite Z.add_0_r.
  - cbn [ofold recs_bytes]. rewrite wal_op_bytes by done. cbn [option_bind mbind]. rewrite IH. cbn.
    rewrite (Zlen_cons o), <- app_assoc. unfold set_pending. cbn. do 2 f_equal. lia.
Qed.

Lemma recs_nonempty seq ops : ops <> [] -> 0 < Zlen (recs_bytes seq ops).
Proof.
  destruct ops as [|o ops]; [done|]. intros _. cbn [recs_bytes]. rewrite Zlen_app. unfold op_frame.
  rewrite Zlen_frame. pose proof (Zlen_nonneg (op_body seq o)). pose proof (Zlen_nonneg (recs_bytes (seq + 1) ops)). lia.
Qed.

Lemma wal_batch_bytes w ops : batch_ok ops -> w_pending w = [] ->
  wal_batch w ops = Some (mkWal (write_at (w_file w) (w_written w) (batch_bytes (w_seed w) (w_seq w) ops))
    (w_seq w + Zlen ops + 1) [] (w_written w + Zlen (batch_bytes (w_seed w) (w_seq w) ops))
    (w_synced w) (w_seed w) (w_loose w) (w_dropped w)).
Proof.
  intros [Hne Hops] Hp. unfold wal_batch. rewrite wal_ops_bytes, Hp by done. cbn [option_bind mbind app].
  unfold wal_mark_commit. cbn [set_pending w_pending]. pose proof (recs_nonempty (w_seq w) ops Hne) as Hr.
  rewrite (proj2 (Z.eqb_neq _ 0)) by lia. cbn [negb].
  rewrite (wal_frame_bytes _ WAL_COMMIT [] [] (le32 (Z.lxor (crc32 (recs_bytes (w_seq w) ops)) (w_seed w)))); [|done|done|done].
  cbn [option_bind mbind]. unfold set_pending, wal_write. cbn [w_pending w_seq w_seed w_file w_written w_synced w_loose w_dropped].
  change (byte_eqb WAL_COMMIT WAL_COMMIT) with true. cbv iota.
  rewrite (proj2 (Z.eqb_neq _ 0)); [done|]. rewrite Zlen_app, Zlen_frame, Zlen_body.
  pose proof (Zlen_nonneg (le32 (Z.lxor (crc32 (recs_bytes (w_seq w) ops)) (w_seed w)))). lia.
Qed.

(** ** The walk over one frame *)

(** A whole frame at [p]: its length, its crc, its body. *)
Lemma step_frame pre crc body post seed from loose st seq kind payload :
  r_p st = Zlen pre -> body = body_bytes seq kind payload -> Zlen body < U32 -> 0 <= crc < U32 -> 0 <= seq < U64 ->
  Zlen (pre ++ frame_bytes crc body ++ post) < U64 ->
  let buf := pre ++ frame_bytes crc body ++ post in
  let fin := Zlen pre + 8 + Zlen body in
  replay_step buf seed from loose st =
    if byte_eqb kind WAL_COMMIT then replay_commit buf seed from loose st body seq crc fin
    else if byte_eqb kind WAL_PUT || byte_eqb kind WAL_DEL then replay_record st body kind seq crc (Zlen pre + 8) fin
    else Break.
Proof.
  intros Hp Hb Hl Hc Hs Hu buf fin. unfold replay_step. cbv zeta. rewrite Hp. unfold FRAME_HEADER.
  pose proof (Zlen_nonneg body). pose proof (Zlen_nonneg pre). pose proof (Zlen_nonneg post).
  assert (buf = pre ++ le32 (Zlen body) ++ le32 crc ++ body ++ post) as E
    by (unfold buf, frame_bytes; by rewrite <- !app_assoc).
  assert (Zlen buf = Zlen pre + 8 + Zlen body + Zlen post) as Hbl by (rewrite E; zlia).
  assert (rd_u32 buf (Zlen pre) = Some (Zlen body)) as -> by (rewrite E; layout lia; done).
  assert (rd_u32 buf (Zlen pre + 4) = Some crc) as -> by (rewrite E; layout lia; done).
  cbn [or_panic]. fold buf in Hu.
  rewrite (proj2 (cadd_Some _ _ _)) by (split; [reflexivity|lia]). fold fin.
  rewrite (proj2 (Z.ltb_ge (Zlen buf) fin)) by (unfold fin; lia).
  assert (9 <= Zlen body) by (rewrite Hb, Zlen_body; pose proof (Zlen_nonneg payload); lia).
  rewrite (proj2 (Z.ltb_ge _ 9)) by done. cbn [orb].
  assert (get_range buf (Zlen pre + 8) fin = Some body) as ->.
  { rewrite E, app_assoc, app_assoc. apply get_range_app; unfold fin; zlia. }
  cbn [or_panic].
  assert (rd_u64 body 0 = Some seq) as -> by (rewrite Hb; unfold body_bytes; layout lia; done).
  cbn [or_panic].
  assert (get_at body 8 = Some kind) as -> by (rewrite Hb; unfold body_bytes; layout lia; done).
  done.
Qed.

(** Where a record's key and value lie. *)
Definition item_of (pos seq : Z) (o : op) : item :=
  let ks := pos + 8 + 9 + Zlen (uvarint (Zlen (op_key o))) in
  mkItem (op_kind o) seq ks (ks + Zlen (op_key o)) (pos + Zlen (op_frame seq o)).

Lemma op_kind_record o : byte_eqb (op_kind o) WAL_COMMIT = false /\
  byte_eqb (op_kind o) WAL_PUT || byte_eqb (op_kind o) WAL_DEL = true.
Proof. by destruct o. Qed.

Lemma step_record pre o seq post seed from loose st :
  r_p st = Zlen pre -> op_ok o -> 0 <= seq < U64 -> Zlen (pre ++ op_frame seq o ++ post) < U64 ->
  replay_step (pre ++ op_frame seq o ++ post) seed from loose st =
  Next (mkR (Zlen pre + Zlen (op_frame seq o)) (r_next st) (r_committed st) (r_valid st)
    (r_batch st ++ [item_of (Zlen pre) seq o]) (r_start st) (r_out st)).
Proof.
  intros Hp Ho Hs Hu. pose proof (op_body_len seq o Ho) as Hl. pose proof (op_kind_record o) as [Hk1 Hk2].
  unfold op_frame in *. rewrite (step_frame pre 0 (op_body seq o) post seed from loose st seq (op_kind o) _ Hp eq_refl) by
    (done || lia). cbv zeta. rewrite Hk1, Hk2. unfold replay_record. cbn [negb Z.eqb].
  pose proof (Zlen_nonneg (op_key o)). pose proof (Zlen_nonneg (op_value o)).
  set (u := uvarint (Zlen (op_key o))). pose proof (Zlen_nonneg u).
  assert (Zlen (op_body seq o) = 9 + (Zlen u + (Zlen (op_key o) + Zlen (op_value o)))) as Hbl
    by (unfold op_body; rewrite Zlen_body, !Zlen_app; done).
  assert (Log.get_uvarint (op_body seq o) 9 = Some (Zlen (op_key o), 9 + Zlen u)) as ->.
  { unfold op_body, body_bytes. rewrite app_assoc.
    rewrite <- (log_get_put_uvarint (le64 seq ++ [op_kind o]) (op_key o ++ op_value o)) by (unfold U32, U64 in *; lia).
    f_equal; zlia. }
  rewrite (proj2 (cadd_Some _ _ _)) by (split; [reflexivity|unfold U32, U64 in *; lia]).
  rewrite (proj2 (Z.ltb_ge _ _)) by lia.
  assert (byte_eqb (op_kind o) WAL_DEL && negb (9 + Zlen u + Zlen (op_key o) =? Zlen (op_body seq o)) = false) as ->.
  { destruct o as [k v|k]; cbn [op_kind op_key op_value] in *; [done|]. znil. rewrite Hbl.
    by rewrite (proj2 (Z.eqb_eq _ _)) by lia. }
  unfold item_of, op_frame. fold u. rewrite Zlen_frame. rewrite <- !Z.add_assoc. done.
Qed.

(** What the item's offsets read back. *)
Lemma item_reads pre o seq post :
  get_range (pre ++ op_frame seq o ++ post) (it_ks (item_of (Zlen pre) seq o)) (it_ke (item_of (Zlen pre) seq o)) = Some (op_key o) /\
  get_range (pre ++ op_frame seq o ++ post) (it_ke (item_of (Zlen pre) seq o)) (it_ve (item_of (Zlen pre) seq o)) = Some (op_value o).
Proof.
  unfold item_of. cbn [it_ks it_ke it_ve]. set (u := uvarint (Zlen (op_key o))).
  assert (Zlen (op_frame seq o) = 17 + Zlen u + Zlen (op_key o) + Zlen (op_value o)) as Hl
    by (unfold op_frame, op_body; rewrite Zlen_frame, Zlen_body, !Zlen_app; fold u; lia).
  assert (pre ++ op_frame seq o ++ post =
    (pre ++ le32 (Zlen (op_body seq o)) ++ le32 0 ++ le64 seq ++ [op_kind o] ++ u) ++ op_key o ++ op_value o ++ post) as ->
    by (unfold op_frame, frame_bytes, op_body, body_bytes; fold u; rewrite <- !app_assoc; done).
  set (p1 := pre ++ le32 (Zlen (op_body seq o)) ++ le32 0 ++ le64 seq ++ [op_kind o] ++ u).
  assert (Zlen p1 = Zlen pre + 8 + 9 + Zlen u) as Hp1 by (unfold p1; zlia).
  split; [apply get_range_app; lia|]. rewrite app_assoc. apply get_range_app; rewrite Zlen_app; lia.
Qed.

(** A walk that goes on. *)
Lemma go_next fuel buf seed from loose st st' : FRAME_HEADER <= Zlen buf - r_p st ->
  replay_step buf seed from loose st = Next st' ->
  replay_go (S fuel) buf seed from loose st = replay_go fuel buf seed from loose st'.
Proof. intros H1 H2. cbn [replay_go]. rewrite (proj2 (Z.ltb_ge _ _)) by done. by rewrite H2. Qed.

(** The items of a batch whose records start at [pos]. *)
Fixpoint items_of (pos seq : Z) (ops : list op) : list item :=
  match ops with [] => [] | o :: ops => item_of pos seq o :: items_of (pos + Zlen (op_frame seq o)) (seq + 1) ops end.

Lemma go_records ops pre seq post fuel seed from loose st :
  r_p st = Zlen pre -> Forall op_ok ops -> 0 <= seq -> seq + Zlen ops <= U64 ->
  Zlen (pre ++ recs_bytes seq ops ++ post) < U64 ->
  replay_go (length ops + fuel) (pre ++ recs_bytes seq ops ++ post) seed from loose st =
  replay_go fuel (pre ++ recs_bytes seq ops ++ post) seed from loose
    (mkR (Zlen pre + Zlen (recs_bytes seq ops)) (r_next st) (r_committed st) (r_valid st)
       (r_batch st ++ items_of (Zlen pre) seq ops) (r_start st) (r_out st)).
Proof.
  intros Hp Hops. revert pre seq st Hp. induction Hops as [|o ops Ho _ IH]; intros pre seq st Hp Hs Hle Hu.
  - cbn. destruct st; cbn in *. subst. rewrite app_nil_r. znil. by rewrite Z.add_0_r.
  - cbn [recs_bytes length Nat.add items_of] in *. rewrite (Zlen_cons o) in Hle. pose proof (Zlen_nonneg ops).
    rewrite <- !app_assoc in *.
    erewrite go_next; [|rewrite Hp, !Zlen_app; unfold op_frame at 1; rewrite Zlen_frame; unfold FRAME_HEADER;
      pose proof (op_body_len seq o Ho); pose proof (Zlen_nonneg (recs_bytes (seq + 1) ops)); pose proof (Zlen_nonneg post); lia
      |apply step_record; [exact Hp|done|lia|done]].
    rewrite (app_assoc pre). rewrite IH; [|cbn; by rewrite Zlen_app|lia|lia|by rewrite <- app_assoc].
    cbn [r_p r_next r_committed r_valid r_batch r_start r_out]. rewrite !Zlen_app, <- !app_assoc. cbn [app].
    by rewrite Z.add_assoc.
Qed.

(** ** A whole batch *)

(** Applying ops numbered from [seq]: those at or past [from]. *)
Fixpoint ops_applied (from seq : Z) (ops : list op) : list applied :=
  match ops with
  | [] => []
  | o :: ops => (if from <=? seq then [op_applied o] else []) ++ ops_applied from (seq + 1) ops
  end.

Lemma items_seqs pos seq ops : map it_seq (items_of pos seq ops) = seqZ seq (Zlen ops).
Proof.
  revert pos seq. induction ops as [|o ops IH]; intros pos seq; [done|].
  rewrite (Zlen_cons o), seqZ_cons by (pose proof (Zlen_nonneg ops); lia). cbn [items_of map]. f_equal. rewrite IH.
  f_equal; lia.
Qed.

Lemma check_seqs_run from seq n : 0 <= n -> seq + n < U64 ->
  check_seqs from (Z.max from seq) (seqZ seq n) = Some (Ok (Z.max from (seq + n))).
Proof.
  intros Hn. revert seq. apply (natlike_ind (fun n => forall seq, seq + n < U64 -> check_seqs from (Z.max from seq) (seqZ seq n) = Some (Ok (Z.max from (seq + n)))));
    [|clear n Hn; intros n Hn IH|done]; intros seq Hlt.
  - by rewrite Z.add_0_r.
  - rewrite seqZ_cons by lia. cbn [check_seqs]. replace (Z.pred (Z.succ n)) with n by lia.
    replace (seq + Z.succ n) with (Z.succ seq + n) by lia. rewrite <- IH by lia.
    destruct (Z.leb_spec from seq).
    + rewrite (Z.max_r from seq), Z.eqb_refl by lia. cbn [negb]. rewrite (proj2 (cadd_Some seq 1 (seq + 1))) by lia. cbn [option_bind mbind]. f_equal. lia.
    + f_equal. lia.
Qed.

Lemma apply_items pre seq ops post from out :
  apply_batch (pre ++ recs_bytes seq ops ++ post) from (items_of (Zlen pre) seq ops) out = Some (out ++ ops_applied from seq ops).
Proof.
  revert pre seq out. induction ops as [|o ops IH]; intros pre seq out; cbn [items_of apply_batch ops_applied recs_bytes].
  - by rewrite app_nil_r.
  - rewrite <- app_assoc. destruct (item_reads pre o seq (recs_bytes (seq + 1) ops ++ post)) as [-> ->].
    cbn [option_bind mbind]. rewrite (app_assoc pre), <- Zlen_app, !IH. cbn [item_of it_seq it_kind].
    destruct (from <=? seq); [by rewrite <- app_assoc|done].
Qed.

Lemma crc_seed_range b seed : 0 <= seed < U32 -> 0 <= Z.lxor (crc32 b) seed < U32.
Proof. intros. apply lxor_range; [lia|apply crc32_range|done]. Qed.

(** The commit frame of a batch that is there whole. *)
Lemma step_commit pre seq ops post seed from loose st :
  0 <= seed < U32 -> 0 <= seq -> seq + Zlen ops < U64 ->
  let recs := recs_bytes seq ops in
  let buf := pre ++ batch_bytes seed seq ops ++ post in
  let fin := Zlen pre + Zlen (batch_bytes seed seq ops) in
  Zlen buf < U64 -> r_p st = Zlen pre + Zlen recs -> r_start st = Zlen pre ->
  r_batch st = items_of (Zlen pre) seq ops ->
  replay_step buf seed from loose st =
    if loose && (r_committed st =? from) &&
       match first_applied from (r_batch st) (seq + Zlen ops) with Some s => negb (s =? r_next st) | None => false end
    then Return (Ok (from, Zlen WAL_MAGIC, true))
    else match check_seqs from (r_next st) (seqZ seq (Zlen ops + 1)) with
         | None => Panic
         | Some (Err m) => Return (Err m)
         | Some (Ok next) => Next (mkR fin next next fin [] fin (r_out st ++ ops_applied from seq ops))
         end.
Proof.
  intros Hseed Hs Hlt recs buf fin Hu Hp Hst Hb. pose proof (Zlen_nonneg ops).
  set (want := Z.lxor (crc32 recs) seed). set (body := body_bytes (seq + Zlen ops) WAL_COMMIT (le32 want)).
  assert (Zlen body = 13) as Hbl by (unfold body; rewrite Zlen_body, Zlen_le32; done).
  assert (buf = (pre ++ recs) ++ frame_bytes (Z.lxor (crc32 body) seed) body ++ post) as E
    by (unfold buf, batch_bytes, commit_frame; fold recs want body; by rewrite <- !app_assoc).
  pose proof (step_frame (pre ++ recs) (Z.lxor (crc32 body) seed) body post seed from loose st (seq + Zlen ops) WAL_COMMIT
    (le32 want) ltac:(rewrite Zlen_app; lia) eq_refl ltac:(rewrite Hbl; done) (crc_seed_range _ _ Hseed) ltac:(lia)) as Hstep.
  cbv zeta in Hstep. rewrite <- E in Hstep. rewrite Hstep by done. change (byte_eqb WAL_COMMIT WAL_COMMIT) with true. cbv iota.
  unfold replay_commit. rewrite Z.eqb_refl, Hbl. cbn [negb orb Z.eqb].
  assert (rd_u32 body 9 = Some want) as -> by (unfold body, body_bytes; layout ltac:(by apply crc_seed_range); done).
  cbn [or_panic].
  assert (get_range buf (r_start st) (r_p st) = Some recs) as ->
    by (rewrite Hst, Hp; unfold buf, batch_bytes; rewrite <- app_assoc; by apply get_range_app).
  cbn [or_panic]. fold want. rewrite Z.eqb_refl. cbn [negb].
  destruct (loose && _ && _); [done|].
  assert (map it_seq (r_batch st) ++ [seq + Zlen ops] = seqZ seq (Zlen ops + 1)) as ->
    by (rewrite Hb, items_seqs, seqZ_app by lia; done).
  destruct (check_seqs from (r_next st) _) as [[next|m]|]; [|done|done]. cbn [or_panic]. rewrite Hb.
  unfold buf, batch_bytes at 1. rewrite <- app_assoc, apply_items. cbn [or_panic].
  assert (Zlen (pre ++ recs) + 8 + 13 = fin) as ->; [|done].
  unfold fin, batch_bytes, commit_frame. fold recs want body. rewrite !Zlen_app, Zlen_frame, Hbl. lia.
Qed.

(** ** A whole log, then a torn tail *)

Fixpoint log_applied (from seq : Z) (batches : list (list op)) : list applied :=
  match batches with
  | [] => []
  | ops :: batches => ops_applied from seq ops ++ log_applied from (seq + Zlen ops + 1) batches
  end.

Fixpoint log_end (seq : Z) (batches : list (list op)) : Z :=
  match batches with [] => seq | ops :: batches => log_end (seq + Zlen ops + 1) batches end.

Fixpoint log_frames (batches : list (list op)) : nat :=
  match batches with [] => 0 | ops :: batches => length ops + 1 + log_frames batches end.

Lemma log_end_ge seq batches : seq <= log_end seq batches.
Proof.
  revert seq. induction batches as [|ops batches IH]; intros seq; cbn; [lia|].
  pose proof (Zlen_nonneg ops). specialize (IH (seq + Zlen ops + 1)). lia.
Qed.

(** The walk between batches: nothing read of the next one yet. *)
Definition between (from pos seq valid : Z) (out : list applied) : rstate :=
  mkR pos (Z.max from seq) (Z.max from seq) valid [] pos out.

(** The boundary's loose rule does not fire where the next sequence is the
    one expected. *)
Lemma first_applied_run from seq n : 0 <= n ->
  match List.find (fun s => from <=? s) (seqZ seq (n + 1)) with
  | Some s => negb (s =? Z.max from seq) | None => false end = false.
Proof.
  intros Hn. revert seq. apply (natlike_ind (fun n => forall seq,
    match List.find (fun s => from <=? s) (seqZ seq (n + 1)) with
    | Some s => negb (s =? Z.max from seq) | None => false end = false)); [|clear n Hn; intros n Hn IH|done]; intros seq.
  - rewrite seqZ_cons by lia. cbn [List.find]. destruct (Z.leb_spec from seq); [|done].
    by rewrite Z.max_r, Z.eqb_refl by lia.
  - rewrite seqZ_cons by lia. cbn [List.find]. destruct (Z.leb_spec from seq).
    + by rewrite Z.max_r, Z.eqb_refl by lia.
    + replace (Z.pred (Z.succ n + 1)) with (n + 1) by lia. specialize (IH (Z.succ seq)).
      by replace (Z.max from (Z.succ seq)) with (Z.max from seq) in IH by lia.
Qed.

Lemma go_batch pre seq ops post fuel seed from loose valid out :
  0 <= seed < U32 -> 0 <= seq -> seq + Zlen ops + 1 < U64 -> Forall op_ok ops ->
  Zlen (pre ++ batch_bytes seed seq ops ++ post) < U64 ->
  let pos := Zlen pre + Zlen (batch_bytes seed seq ops) in
  replay_go (length ops + 1 + fuel) (pre ++ batch_bytes seed seq ops ++ post) seed from loose
    (between from (Zlen pre) seq valid out) =
  replay_go fuel (pre ++ batch_bytes seed seq ops ++ post) seed from loose
    (between from pos (seq + Zlen ops + 1) pos (out ++ ops_applied from seq ops)).
Proof.
  intros Hseed Hs Hlt Hops Hu pos. pose proof (Zlen_nonneg ops). pose proof (Zlen_nonneg post).
  pose proof (go_records ops pre seq (commit_frame seed (seq + Zlen ops) (recs_bytes seq ops) ++ post) (S fuel) seed from loose
    (between from (Zlen pre) seq valid out) eq_refl Hops Hs ltac:(lia)) as Hr.
  rewrite (app_assoc (recs_bytes seq ops)) in Hr. fold (batch_bytes seed seq ops) in Hr. specialize (Hr Hu).
  replace (length ops + 1 + fuel)%nat with (length ops + S fuel)%nat by lia. rewrite Hr.
  set (st := mkR _ _ _ _ _ _ _). apply go_next.
  - unfold st, FRAME_HEADER. cbn [r_p]. unfold batch_bytes, commit_frame. rewrite !Zlen_app, Zlen_frame, Zlen_body.
    pose proof (Zlen_nonneg (le32 (Z.lxor (crc32 (recs_bytes seq ops)) seed))). lia.
  - pose proof (step_commit pre seq ops post seed from loose st Hseed Hs ltac:(lia) Hu eq_refl eq_refl eq_refl) as Hc.
    cbv zeta in Hc. rewrite Hc. unfold st, first_applied. cbn [between r_next r_batch r_committed r_out app].
    rewrite items_seqs. pose proof (first_applied_run from seq (Zlen ops) ltac:(lia)) as Hf.
    rewrite seqZ_app in Hf by lia. change (seqZ (seq + Zlen ops) 1) with [seq + Zlen ops] in Hf. rewrite Hf, andb_false_r.
    rewrite check_seqs_run by lia. unfold between, pos. do 2 f_equal; lia.
Qed.

Lemma go_log batches pre seq post fuel seed from loose valid out :
  0 <= seed < U32 -> 0 <= seq -> log_end seq batches < U64 -> Forall (Forall op_ok) batches ->
  Zlen (pre ++ log_bytes seed seq batches ++ post) < U64 -> valid = Zlen pre ->
  let pos := Zlen pre + Zlen (log_bytes seed seq batches) in
  replay_go (log_frames batches + fuel) (pre ++ log_bytes seed seq batches ++ post) seed from loose
    (between from (Zlen pre) seq valid out) =
  replay_go fuel (pre ++ log_bytes seed seq batches ++ post) seed from loose
    (between from pos (log_end seq batches) pos (out ++ log_applied from seq batches)).
Proof.
  intros Hseed Hs Hle Hops. revert pre seq valid out Hs Hle.
  induction Hops as [|ops batches Ho _ IH]; intros pre seq valid out Hs Hle Hu -> pos; unfold pos.
  - cbn. znil. by rewrite Z.add_0_r, app_nil_r.
  - cbn [log_bytes log_frames log_end log_applied] in *. pose proof (Zlen_nonneg ops).
    pose proof (log_end_ge (seq + Zlen ops + 1) batches). rewrite <- !app_assoc in *.
    rewrite <- Nat.add_assoc, go_batch by (done || lia).
    rewrite (app_assoc pre), <- (Zlen_app pre), IH; [|lia|lia|by rewrite <- app_assoc|done].
    rewrite !Zlen_app, <- !app_assoc. by rewrite Z.add_assoc.
Qed.

(** A frame cut anywhere short of its end ends the walk. *)
Lemma go_torn pre body crc k seed from loose fuel st : r_p st = Zlen pre -> Zlen body < U32 -> 0 <= crc < U32 ->
  Zlen pre + U32 + 8 < U64 -> 0 <= k < 8 + Zlen body ->
  replay_go (S fuel) (pre ++ take (Z.to_nat k) (frame_bytes crc body)) seed from loose st =
    Some (r_out st, Ok (r_committed st, r_valid st, false)).
Proof.
  intros Hp Hl Hc Hu Hk. cbn [replay_go]. set (buf := pre ++ _).
  assert (Zlen buf = Zlen pre + k) as Hbl by (unfold buf; rewrite Zlen_app, Zlen_take, Zlen_frame; lia).
  rewrite Hp, Hbl. unfold FRAME_HEADER. destruct (Z.ltb_spec (Zlen pre + k - Zlen pre) 8); [done|].
  assert (exists cut, buf = pre ++ le32 (Zlen body) ++ le32 crc ++ cut) as [cut E].
  { exists (take (Z.to_nat (k - 8)) body). unfold buf, frame_bytes. f_equal. rewrite app_assoc.
    rewrite take_app_ge by (rewrite length_app; unfold le32; rewrite !length_le_bytes; lia).
    rewrite <- app_assoc. do 3 f_equal. rewrite length_app. unfold le32. rewrite !length_le_bytes. lia. }
  unfold replay_step. cbv zeta. rewrite Hp. pose proof (Zlen_nonneg body). pose proof (Zlen_nonneg pre).
  assert (rd_u32 buf (Zlen pre) = Some (Zlen body)) as -> by (rewrite E; layout lia; done).
  assert (rd_u32 buf (Zlen pre + 4) = Some crc) as -> by (rewrite E; layout lia; done).
  cbn [or_panic]. unfold FRAME_HEADER. rewrite (proj2 (cadd_Some _ _ _)) by (split; [reflexivity|lia]).
  rewrite Hbl. by rewrite (proj2 (Z.ltb_lt (Zlen pre + k) _)) by lia.
Qed.

(** A batch cut anywhere short of its end is lost whole. *)
Lemma go_torn_batch ops pre seq k seed from loose fuel st : r_p st = Zlen pre -> Forall op_ok ops ->
  0 <= seed < U32 -> 0 <= seq -> seq + Zlen ops < U64 ->
  Zlen pre + Zlen (recs_bytes seq ops) + U32 + 8 < U64 ->
  forall recs0, let whole := recs_bytes seq ops ++ commit_frame seed (seq + Zlen ops) recs0 in
  0 <= k < Zlen whole -> (Z.to_nat k < fuel)%nat ->
  replay_go fuel (pre ++ take (Z.to_nat k) whole) seed from loose st =
    Some (r_out st, Ok (r_committed st, r_valid st, false)).
Proof.
  intros Hp Hops. revert pre seq k fuel st Hp.
  induction Hops as [|o ops Ho _ IH]; intros pre seq k fuel st Hp Hseed Hs Hlt Hu recs0 whole Hk Hf; unfold whole in *.
  - destruct fuel; [lia|]. cbn [recs_bytes app] in *. unfold commit_frame in *. rewrite Zlen_frame in Hk.
    apply go_torn; first [done | by apply crc_seed_range | rewrite ?Zlen_body, ?Zlen_le32; znil; unfold U32 in *; lia].
  - destruct fuel as [|fuel]; [lia|]. cbn [recs_bytes] in *. pose proof (op_body_len seq o Ho) as Hol.
    rewrite (Zlen_cons o) in *. pose proof (Zlen_nonneg ops). rewrite <- app_assoc in *.
    assert (Zlen (op_frame seq o) = 8 + Zlen (op_body seq o)) as Hfl by apply Zlen_frame.
    rewrite !Zlen_app in Hu. pose proof (Zlen_nonneg (recs_bytes (seq + 1) ops)). pose proof (Zlen_nonneg pre).
    destruct (Z.lt_ge_cases k (Zlen (op_frame seq o))) as [Hshort|Hwhole].
    + rewrite take_app_le by (unfold Zlen in *; lia). apply go_torn; try done; lia.
    + rewrite take_app_ge by (unfold Zlen in *; lia).
      replace (Z.to_nat k - length (op_frame seq o))%nat with (Z.to_nat (k - Zlen (op_frame seq o))) by (unfold Zlen; lia).
      replace (seq + (1 + Zlen ops)) with (seq + 1 + Zlen ops) in * by lia.
      set (rest := take _ _).
      assert (Zlen rest <= Zlen (recs_bytes (seq + 1) ops) + U32).
      { unfold rest. rewrite Zlen_take, Zlen_app. unfold commit_frame. rewrite Zlen_frame, Zlen_body, Zlen_le32. unfold U32. lia. }
      erewrite go_next; [|rewrite Hp, !Zlen_app; unfold FRAME_HEADER; pose proof (Zlen_nonneg rest); lia
        |apply step_record; [exact Hp|done|lia|rewrite !Zlen_app; lia]].
      rewrite app_assoc. unfold rest. rewrite IH; try done; try lia.
      * cbn. by rewrite Zlen_app.
      * rewrite Zlen_app. lia.
      * rewrite Zlen_app in Hk. lia.
Qed.

Lemma wal_seed_range id : 0 <= wal_seed id < U32.
Proof. apply Z.mod_pos_bound. done. Qed.

Lemma wal_kind_header kind : kind = WAL_CHAINED \/ kind = WAL_LOOSE -> wal_kind (wal_header kind) = Some kind.
Proof. intros [->| ->]; done. Qed.

Lemma log_frames_le batches seed seq : (log_frames batches <= length (log_bytes seed seq batches))%nat.
Proof.
  assert (forall ops seq, (length ops <= length (recs_bytes seq ops))%nat) as Hr.
  { intros ops. induction ops as [|o ops IH]; intros s; [done|]. cbn [recs_bytes]. rewrite length_app. specialize (IH (s + 1)).
    assert (Zlen (op_frame s o) = 8 + Zlen (op_body s o)) by apply Zlen_frame. pose proof (Zlen_nonneg (op_body s o)).
    unfold Zlen in *. cbn [length]. lia. }
  revert seq. induction batches as [|ops batches IH]; intros seq; [done|]. cbn [log_frames log_bytes]. unfold batch_bytes.
  rewrite !length_app. specialize (IH (seq + Zlen ops + 1)). specialize (Hr ops seq).
  assert (8 <= Zlen (commit_frame seed (seq + Zlen ops) (recs_bytes seq ops))).
  { unfold commit_frame. rewrite Zlen_frame. pose proof (Zlen_nonneg (body_bytes (seq + Zlen ops) WAL_COMMIT (le32 (Z.lxor (crc32 (recs_bytes seq ops)) seed)))). lia. }
  unfold Zlen in *. lia.
Qed.

(** The log a file holds: its header, whole batches, then a batch cut short
    (or nothing). *)
Definition log_file (id : Z) (kind : byte) (seq : Z) (batches : list (list op)) (torn : list op) (k : Z) : bytes :=
  wal_header kind ++ log_bytes (wal_seed id) seq batches ++
  take (Z.to_nat k) (batch_bytes (wal_seed id) (log_end seq batches) torn).

Lemma wal_replay_log id from first kind seq batches torn k :
  kind = WAL_CHAINED \/ kind = WAL_LOOSE ->
  Forall (Forall op_ok) batches -> Forall op_ok torn ->
  0 <= seq <= from -> log_end seq batches + Zlen torn < U64 ->
  0 <= k < Zlen (batch_bytes (wal_seed id) (log_end seq batches) torn) ->
  Zlen (wal_header kind ++ log_bytes (wal_seed id) seq batches) + Zlen (batch_bytes (wal_seed id) (log_end seq batches) torn)
    + U32 + 8 < U64 ->
  wal_replay (Some (log_file id kind seq batches torn k)) id from first =
    Some (log_applied from seq batches,
          Ok (Z.max from (log_end seq batches),
              Zlen (wal_header kind ++ log_bytes (wal_seed id) seq batches), false)).
Proof.
  intros Hkind Hops Htorn Hs Hle Hk Hu. unfold wal_replay, log_file. pose proof (wal_seed_range id) as Hseed.
  set (tail := take _ _). pose proof (Zlen_nonneg torn).
  assert (Zlen (wal_header kind) = 8) as Hh by done.
  pose proof (Zlen_nonneg (log_bytes (wal_seed id) seq batches)). pose proof (Zlen_nonneg tail). pose proof (log_end_ge seq batches).
  assert (Zlen tail <= Zlen (batch_bytes (wal_seed id) (log_end seq batches) torn)) by (unfold tail; rewrite Zlen_take; lia).
  rewrite !Zlen_app in *. change (Zlen WAL_MAGIC) with 8.
  rewrite (proj2 (Z.eqb_neq _ 0)), (proj2 (Z.ltb_ge _ 8)) by lia.
  change (length WAL_MAGIC) with (length (wal_header kind)). rewrite take_app_length, wal_kind_header by done. cbv iota zeta.
  set (loose := byte_eqb kind WAL_LOOSE && negb first). set (buf := wal_header kind ++ _).
  replace (mkR 8 from from 8 [] 8 []) with (between from (Zlen (wal_header kind)) seq (Zlen (wal_header kind)) [])
    by (unfold between; rewrite Hh, Z.max_l by lia; done).
  pose proof (log_frames_le batches (wal_seed id) seq) as Hfr.
  assert (Zlen tail = k) as Htl by (unfold tail; rewrite Zlen_take; lia).
  assert (exists fuel, S (length buf) = log_frames batches + fuel /\ Z.to_nat k < fuel)%nat as (fuel & Hfuel & Hkf).
  { exists (S (length buf) - log_frames batches)%nat. unfold buf. rewrite !length_app. unfold Zlen in Htl. lia. }
  rewrite Hfuel. unfold buf. rewrite go_log by (rewrite ?Zlen_app; (done || lia)).
  rewrite app_assoc. unfold tail, batch_bytes.
  set (st := between _ _ _ _ _).
  assert (r_p st = Zlen (wal_header kind ++ log_bytes (wal_seed id) seq batches)) as Hp by (unfold st, between; cbn [r_p]; by rewrite Zlen_app).
  pose proof (go_torn_batch torn (wal_header kind ++ log_bytes (wal_seed id) seq batches) (log_end seq batches) k (wal_seed id) from loose
    fuel st Hp Htorn Hseed ltac:(lia) ltac:(lia)) as Hgo.
  rewrite !Zlen_app in Hgo.
  assert (Zlen (recs_bytes (log_end seq batches) torn) <= Zlen (batch_bytes (wal_seed id) (log_end seq batches) torn)) as Hrl.
  { unfold batch_bytes. rewrite Zlen_app. pose proof (Zlen_nonneg (commit_frame (wal_seed id) (log_end seq batches + Zlen torn) (recs_bytes (log_end seq batches) torn))). lia. }
  rewrite (Hgo ltac:(lia) (recs_bytes (log_end seq batches) torn) Hk Hkf). done.
Qed.

(** C4: opening a log that holds any batches, followed by any part short of
    the whole of the next one, applies the records of every whole batch, in
    order, that are at or past the sequence asked for, and nothing of the
    torn one; it answers the sequence that follows the last commit and the
    length of the file up to it, which is what the caller truncates to. It
    holds whether the file heads the chain or follows another, loosely or
    not, as long as nothing before the file's first sequence is missing. *)
Theorem wal_replay_whole_batches id from first kind seq batches torn k :
  kind = WAL_CHAINED \/ kind = WAL_LOOSE ->
  Forall (Forall op_ok) batches -> Forall op_ok torn ->
  0 <= seq <= from -> log_end seq batches + Zlen torn < U64 ->
  0 <= k < Zlen (batch_bytes (wal_seed id) (log_end seq batches) torn) ->
  Zlen (wal_header kind ++ log_bytes (wal_seed id) seq batches) + Zlen (batch_bytes (wal_seed id) (log_end seq batches) torn)
    + U32 + 8 < U64 ->
  wal_replay (Some (log_file id kind seq batches torn k)) id from first =
    Some (log_applied from seq batches,
          Ok (Z.max from (log_end seq batches),
              Zlen (wal_header kind ++ log_bytes (wal_seed id) seq batches), false)).
Proof. apply wal_replay_log. Qed.

Lemma wal_replay_whole_batches_witness :
  exists seed, wal_seed 7 = seed /\
  wal_replay (Some (log_file 7 WAL_LOOSE 3 [[PutOp [x61] [x62]; DelOp [x63]]] [PutOp [x64] []] 20)) 7 4 false =
    Some ([mkApplied WAL_DEL [x63] []], Ok (6, 68, false)).
Proof.
  exists (wal_seed 7). split; [reflexivity|].
  rewrite (wal_replay_whole_batches 7 4 false WAL_LOOSE 3 [[PutOp [x61] [x62]; DelOp [x63]]] [PutOp [x64] []] 20).
  - vm_compute. reflexivity.
  - right. reflexivity.
  - repeat constructor.
  - repeat constructor.
  - lia.
  - vm_compute. reflexivity.
  - vm_compute. split; [discriminate|reflexivity].
  - vm_compute. reflexivity.
Defined.

(** ** Writing, then reading: end to end *)

Lemma write_at_end file at_ b tail : at_ = Zlen file -> write_at (file ++ tail) at_ b = file ++ b ++ drop (length b) tail.
Proof.
  intros ->. unfold write_at. rewrite Zlen_to_nat, take_app_length. do 2 f_equal.
  rewrite drop_app_ge by (unfold Zlen; lia). f_equal. unfold Zlen. lia.
Qed.

Lemma wal_batches_bytes batches w file tail :
  Forall batch_ok batches -> w_pending w = [] -> w_file w = file ++ tail -> w_written w = Zlen file ->
  exists tail', ofold wal_batch batches w =
    Some (mkWal ((file ++ log_bytes (w_seed w) (w_seq w) batches) ++ tail') (log_end (w_seq w) batches) []
      (Zlen (file ++ log_bytes (w_seed w) (w_seq w) batches)) (w_synced w) (w_seed w) (w_loose w) (w_dropped w)) /\
    tail' = drop (length (log_bytes (w_seed w) (w_seq w) batches)) tail.
Proof.
  intros Hb. revert w file tail. induction Hb as [|ops batches Ho _ IH]; intros w file tail Hp Hf Hw.
  - exists tail. cbn. split; [|done]. destruct w. cbn in *. subst. by rewrite app_nil_r.
  - cbn [ofold]. rewrite wal_batch_bytes, Hf, write_at_end by done. cbn [option_bind mbind].
    set (b := batch_bytes (w_seed w) (w_seq w) ops). rewrite app_assoc.
    edestruct (IH (mkWal ((file ++ b) ++ drop (length b) tail) (w_seq w + Zlen ops + 1) [] (w_written w + Zlen b) (w_synced w)
      (w_seed w) (w_loose w) (w_dropped w)) (file ++ b) (drop (length b) tail)) as (t & Hr & Ht);
      [done|done|cbn; rewrite Zlen_app; lia|].
    cbn [w_seed w_seq w_synced w_loose w_dropped w_file w_written] in *. exists t. split.
    + rewrite Hr. cbn [log_bytes log_end]. fold b. by rewrite !(app_assoc file).
    + rewrite Ht. cbn [log_bytes]. fold b. rewrite length_app, drop_drop. done.
Qed.

(** C25: what a new log is written, batch by batch, replay reads back: every
    operation of every batch, in order, and the length and the sequence the
    writer itself has reached, so the reopened log appends where the writer
    would have. *)
Theorem wal_write_replay id kind first batches :
  kind = WAL_CHAINED \/ kind = WAL_LOOSE -> Forall batch_ok batches ->
  Zlen (wal_header kind ++ log_bytes (wal_seed id) 0 batches) + U32 + U32 < U64 -> log_end 0 batches + 1 < U64 ->
  exists w, ofold wal_batch batches (wal_create id kind) = Some w /\
    wal_replay (Some (w_file w)) id 0 first =
      Some (map op_applied (concat batches), Ok (w_seq w, w_written w, false)).
Proof.
  intros Hk Hb Hu Hle. pose proof (Zlen_nonneg (log_bytes (wal_seed id) 0 batches)).
  destruct (wal_batches_bytes batches (wal_create id kind) (wal_header kind) []) as (t & Hr & Ht);
    [done|done|by rewrite app_nil_r|by destruct Hk as [->| ->]|].
  rewrite Hr. eexists. split; [reflexivity|]. cbn [w_file w_seq w_written wal_create w_seed] in *.
  rewrite drop_nil in Ht. subst t. rewrite app_nil_r.
  pose proof (wal_replay_log id 0 first kind 0 batches [] 0 Hk) as Hw. unfold log_file in Hw.
  change (take (Z.to_nat 0) _) with (@nil byte) in Hw. rewrite app_nil_r in Hw.
  rewrite Hw; clear Hw.
  - do 2 f_equal.
    + clear Hr Hb Hu Hle. assert (forall seq ops, 0 <= seq -> ops_applied 0 seq ops = map op_applied ops) as Ho.
      { intros seq ops. revert seq. induction ops as [|o ops IH]; intros seq Hs; [done|]. cbn [ops_applied map].
        rewrite (proj2 (Z.leb_le 0 seq)), IH by lia. done. }
      assert (forall seq, 0 <= seq -> log_applied 0 seq batches = map op_applied (concat batches)) as Hl; [|by apply Hl].
      induction batches as [|ops batches IH]; intros seq Hs; [done|]. cbn [log_applied concat].
      pose proof (Zlen_nonneg ops). rewrite Ho, IH, map_app by (done || lia || (cbn [log_bytes]; apply Zlen_nonneg)). done.
    + do 3 f_equal. pose proof (log_end_ge 0 batches). lia.
  - eapply Forall_impl; [exact Hb|]. by intros ops [].
  - constructor.
  - lia.
  - znil. lia.
  - unfold batch_bytes. cbn [recs_bytes app]. unfold commit_frame. rewrite Zlen_frame, Zlen_body. zlia.
  - unfold batch_bytes. cbn [recs_bytes app]. unfold commit_frame. rewrite Zlen_frame, Zlen_body, Zlen_le32. unfold U32 in *. lia.
Qed.

Lemma wal_write_replay_witness :
  exists w, ofold wal_batch [[PutOp [x61] [x62]]; [DelOp [x61]; PutOp [] []]] (wal_create 1 WAL_CHAINED) = Some w /\
    wal_replay (Some (w_file w)) 1 0 true =
      Some ([mkApplied WAL_PUT [x61] [x62]; mkApplied WAL_DEL [x61] []; mkApplied WAL_PUT [] []], Ok (w_seq w, w_written w, false)).
Proof.
  apply (wal_write_replay 1 WAL_CHAINED true [[PutOp [x61] [x62]]; [DelOp [x61]; PutOp [] []]]).
  - left. reflexivity.
  - repeat constructor; discriminate.
  - vm_compute. reflexivity.
  - vm_compute. reflexivity.
Defined.

(** ** A gap at the file's start *)

(** Where the first batch a file holds begins past the sequence the
    chain has reached, nothing of the file is applied. Under a chained
    header, or where the file heads the chain, that is a durable record
    lost and the open refuses; under a loose one that another file precedes,
    it is where the log ends, and the file is cut back to its header. *)
Theorem wal_replay_gap id from first kind seq ops rest :
  kind = WAL_CHAINED \/ kind = WAL_LOOSE -> batch_ok ops -> 0 <= from < seq -> seq + Zlen ops < U64 ->
  let buf := wal_header kind ++ batch_bytes (wal_seed id) seq ops ++ rest in
  Zlen buf < U64 ->
  wal_replay (Some buf) id from first =
    Some ([], if byte_eqb kind WAL_LOOSE && negb first then Ok (from, Zlen WAL_MAGIC, true) else Err gap_msg).
Proof.
  intros Hkind [Hne Hops] Hs Hlt buf Hu. unfold wal_replay. pose proof (wal_seed_range id) as Hseed.
  assert (Zlen (wal_header kind) = 8) as Hh by done.
  assert (8 <= Zlen buf) by (unfold buf; rewrite Zlen_app; pose proof (Zlen_nonneg (batch_bytes (wal_seed id) seq ops ++ rest)); lia).
  change (Zlen WAL_MAGIC) with 8 at 1 2 3. rewrite (proj2 (Z.eqb_neq _ 0)), (proj2 (Z.ltb_ge _ 8)) by lia.
  assert (take (length WAL_MAGIC) buf = wal_header kind) as ->
    by (unfold buf; change (length WAL_MAGIC) with (length (wal_header kind)); apply take_app_length).
  rewrite wal_kind_header by done. cbv iota zeta. set (loose := byte_eqb kind WAL_LOOSE && negb first).
  pose proof (Zlen_nonneg ops). pose proof (recs_nonempty seq ops Hne) as Hrpos.
  set (st := mkR _ _ _ _ _ _ _).
  set (commit := commit_frame (wal_seed id) (seq + Zlen ops) (recs_bytes seq ops)).
  assert (buf = wal_header kind ++ recs_bytes seq ops ++ commit ++ rest) as E
    by (unfold buf, batch_bytes; fold commit; by rewrite <- !app_assoc).
  assert (8 <= Zlen commit) by (unfold commit, commit_frame; rewrite Zlen_frame;
    match goal with |- 8 <= 8 + Zlen ?b => pose proof (Zlen_nonneg b) end; lia).
  assert (exists fuel, S (length buf) = length ops + S fuel)%nat as [fuel ->].
  { exists (length buf - length ops)%nat. pose proof (log_frames_le [ops] (wal_seed id) seq) as Hf. cbn [log_frames log_bytes] in Hf.
    rewrite app_nil_r in Hf. unfold buf. rewrite !length_app. lia. }
  rewrite E, go_records; [|done|done|lia|lia|by rewrite <- E]. rewrite <- E. clear E. cbn [replay_go].
  set (st1 := mkR _ _ _ _ _ _ _).
  assert (Zlen buf = 8 + (Zlen (recs_bytes seq ops) + Zlen commit + Zlen rest)) as Hbl
    by (unfold buf, batch_bytes; fold commit; rewrite !Zlen_app, Hh; lia).
  pose proof (Zlen_nonneg rest).
  rewrite (proj2 (Z.ltb_ge _ _)) by (unfold st1, FRAME_HEADER; cbn [r_p]; lia).
  pose proof (step_commit (wal_header kind) seq ops rest (wal_seed id) from loose st1 Hseed ltac:(lia) Hlt) as Hc.
  cbv zeta in Hc. fold buf in Hc. rewrite Hc; try done; clear Hc.
  assert (List.find (fun s => from <=? s) (seqZ seq (Zlen ops + 1)) = Some seq /\
    check_seqs from from (seqZ seq (Zlen ops + 1)) = Some (Err gap_msg)) as [Hf Hcs].
  { rewrite seqZ_cons by lia. cbn [List.find check_seqs]. rewrite (proj2 (Z.leb_le from seq)) by lia.
    by rewrite (proj2 (Z.eqb_neq seq from)) by lia. }
  unfold first_applied, st1. cbn [r_batch r_next r_committed r_out st app]. rewrite items_seqs.
  replace (seqZ seq (Zlen ops) ++ [seq + Zlen ops]) with (seqZ seq (Zlen ops + 1)) by (rewrite seqZ_app by lia; done).
  rewrite Hf, Hcs, Z.eqb_refl, (proj2 (Z.eqb_neq seq from)), andb_true_r by lia. cbn [negb].
  rewrite andb_true_r. by destruct loose.
Qed.

Lemma wal_replay_gap_witness :
  wal_replay (Some (wal_header WAL_LOOSE ++ batch_bytes (wal_seed 9) 5 [DelOp [x61]] ++ [x00])) 9 3 false =
    Some ([], Ok (3, 8, true)).
Proof.
  apply (wal_replay_gap 9 3 false WAL_LOOSE 5 [DelOp [x61]] [x00]).
  - right. reflexivity.
  - repeat constructor. discriminate.
  - lia.
  - vm_compute. reflexivity.
  - vm_compute. reflexivity.
Defined.

(** ** Any bytes at all *)

(** What holds of the walk on a file of any bytes: it is inside the file,
    and what it has applied is no more than the sequences it has passed. *)
Record walk_ok (buf : bytes) (from : Z) (st : rstate) : Prop := {
  ok_start : 0 <= r_start st <= r_p st;
  ok_p : r_p st <= Zlen buf;
  ok_batch : Forall (fun it => 0 <= it_ks it <= it_ke it /\ it_ke it <= it_ve it <= Zlen buf) (r_batch st);
  ok_next : r_next st = r_committed st;
  ok_valid : 0 <= r_valid st <= Zlen buf;
  ok_out : from + Zlen (r_out st) <= r_committed st;
  ok_seq : r_next st + Zlen (r_batch st) <= from + r_p st
}.

(** How many of a list of sequences are at or past [from]. *)
Definition count_from (from : Z) (seqs : list Z) : Z := Zlen (List.filter (fun s => from <=? s) seqs).

Lemma check_seqs_count from seqs next : next + Zlen seqs < U64 ->
  exists r, check_seqs from next seqs = Some r /\ match r with Ok next' => next' = next + count_from from seqs /\ count_from from seqs <= Zlen seqs | Err _ => True end.
Proof.
  unfold count_from. revert next. induction seqs as [|s seqs IH]; intros next; cbn [check_seqs List.filter].
  - intros _. eexists. split; [reflexivity|]. znil. lia.
  - rewrite (Zlen_cons s seqs). intros Hlt. pose proof (Zlen_nonneg seqs). destruct (from <=? s).
    + destruct (Z.eqb_spec s next) as [->|]; cbn [negb]; [|by eexists]. rewrite (proj2 (cadd_Some next 1 (next + 1))) by lia. cbn [option_bind mbind].
      destruct (IH (next + 1)) as (r & -> & Hr); [lia|]. exists r. split; [done|]. destruct r; [|done]. rewrite (Zlen_cons next). lia.
    + destruct (IH next) as (r & -> & Hr); [lia|]. exists r. split; [done|]. destruct r; [|done]. lia.
Qed.

Lemma apply_batch_safe buf from batch out :
  Forall (fun it => 0 <= it_ks it <= it_ke it /\ it_ke it <= it_ve it <= Zlen buf) batch ->
  exists out', apply_batch buf from batch out = Some out' /\ Zlen out' = Zlen out + count_from from (map it_seq batch).
Proof.
  unfold count_from. intros H. revert out. induction H as [|it batch (H1 & H2) _ IH]; intros out; cbn [apply_batch map List.filter].
  - exists out. split; [done|]. znil. lia.
  - destruct (from <=? it_seq it); [|apply IH].
    destruct (get_range_is_Some buf (it_ks it) (it_ke it)) as [k ->]; [lia..|].
    destruct (get_range_is_Some buf (it_ke it) (it_ve it)) as [v ->]; [lia..|]. cbn [option_bind mbind].
    destruct (IH (out ++ [mkApplied (it_kind it) k v])) as (o & -> & Ho). exists o. split; [done|].
    rewrite Ho, Zlen_app, (Zlen_cons (it_seq it)). change (Zlen [mkApplied (it_kind it) k v]) with 1. lia.
Qed.

(** What one turn does on any bytes. *)
Definition step_ok (buf : bytes) (from : Z) (st : rstate) (s : step) : Prop :=
  match s with
  | Next st' => walk_ok buf from st' /\ r_p st < r_p st'
  | Break => True
  | Return (Ok (next, valid, _)) => from + Zlen (r_out st) <= next <= from + Zlen buf /\ valid = Zlen WAL_MAGIC
  | Return (Err _) => True
  | Panic => False
  end.

Lemma commit_safe buf seed from loose st body seq crc fin : from + Zlen buf < U64 -> walk_ok buf from st ->
  r_p st < fin <= Zlen buf -> step_ok buf from st (replay_commit buf seed from loose st body seq crc fin).
Proof.
  intros HU [Hs Hp Hb Hn Hv Ho Hq] Hf. unfold replay_commit.
  destruct (negb (Z.lxor (crc32 body) seed =? crc)); [done|]. cbn [orb].
  destruct (Z.eqb_spec (Zlen body) 13) as [Hl|]; [|done]. cbn [negb].
  destruct (rd_u32_is_Some body 9) as [want ->]; [lia..|]. cbn [or_panic].
  destruct (get_range_is_Some buf (r_start st) (r_p st)) as [recs ->]; [lia..|]. cbn [or_panic].
  destruct (negb _); [done|].
  destruct (loose && (r_committed st =? from) && _) eqn:El.
  - cbn. apply andb_true_iff in El as [[_ El]%andb_true_iff _]. apply Z.eqb_eq in El.
    split; [|done]. pose proof (Zlen_nonneg (r_out st)). lia.
  - destruct (check_seqs_count from (map it_seq (r_batch st) ++ [seq]) (r_next st)) as (r & -> & Ec); [rewrite Zlen_app, Zlen_map; change (Zlen [seq]) with 1; lia|].
    cbn [or_panic]. destruct r as [next|]; [|done]. destruct Ec as [Ec Ecl]. rewrite Zlen_app, Zlen_map in Ecl. change (Zlen [seq]) with 1 in Ecl. destruct (apply_batch_safe buf from (r_batch st) (r_out st) Hb) as (o & -> & Ho2).
    cbn [or_panic step_ok]. split; [|cbn; lia]. split; cbn; try done; try lia; try (rewrite Zlen_nil; lia).
    rewrite Ho2. unfold count_from in *. rewrite List.filter_app, Zlen_app in Ec.
    pose proof (Zlen_nonneg (List.filter (fun s => from <=? s) [seq])). lia.
Qed.

Lemma record_safe buf from st body kind seq crc fin : walk_ok buf from st -> 0 <= r_p st ->
  fin = r_p st + 8 + Zlen body -> fin <= Zlen buf ->
  step_ok buf from st (replay_record st body kind seq crc (r_p st + 8) fin).
Proof.
  intros [Hs Hp Hb Hn Hv Ho Hq] Hp0 -> Hf. unfold replay_record. destruct (negb (crc =? 0)); [done|].
  destruct (Log.get_uvarint body 9) as [[klen q]|] eqn:Eg; [|done]. apply log_get_uvarint in Eg.
  pose proof (get_uvarint_range _ _ _ _ Eg). pose proof (get_uvarint_pos _ _ _ _ Eg ltac:(lia)).
  destruct (cadd q klen) as [kend|] eqn:Ec; [|done]. apply cadd_Some in Ec as [-> _].
  destruct (Z.ltb_spec (Zlen body) (q + klen)); [done|]. destruct (byte_eqb kind WAL_DEL && _); [done|].
  pose proof (Zlen_nonneg body). cbn [step_ok]. split; [|cbn; lia]. split; cbn; try lia.
  - apply Forall_app. split; [done|]. constructor; [|constructor]. cbn. lia.
  - rewrite Zlen_app, (Zlen_cons _ []), Zlen_nil. lia.
Qed.

Lemma step_safe buf seed from loose st : from + Zlen buf < U64 -> walk_ok buf from st -> FRAME_HEADER <= Zlen buf - r_p st ->
  step_ok buf from st (replay_step buf seed from loose st).
Proof.
  intros HU Hok Hlen. pose proof Hok as [Hs Hp _ _ _ _ _]. unfold FRAME_HEADER in *. unfold replay_step. cbv zeta.
  destruct (rd_u32_is_Some buf (r_p st)) as [len Hrl]; [lia..|]. rewrite Hrl. cbn [or_panic].
  destruct (rd_u32_is_Some buf (r_p st + 4)) as [crc ->]; [lia..|]. cbn [or_panic]. unfold FRAME_HEADER.
  destruct (cadd (r_p st + 8) len) as [fin|] eqn:Ec; [|done]. apply cadd_Some in Ec as [-> _].
  destruct (Z.ltb_spec (Zlen buf) (r_p st + 8 + len)), (Z.ltb_spec len 9); cbn [orb]; try done.
  destruct (get_range_is_Some buf (r_p st + 8) (r_p st + 8 + len)) as [body Hbody]; [lia..|]. rewrite Hbody.
  pose proof (get_range_len _ _ _ _ Hbody). cbn [or_panic].
  destruct (get_range_is_Some body 0 8) as [sb Hsb]; [lia..|].
  assert (rd_u64 body 0 = Some (le_val sb)) as -> by (unfold rd_u64; change (0 + 8) with 8; by rewrite Hsb). cbn [or_panic].
  destruct (get_at_is_Some body 8) as [kind ->]; [lia|]. cbn [or_panic].
  destruct (byte_eqb kind WAL_COMMIT); [apply commit_safe; [done|done|lia]|].
  destruct (byte_eqb kind WAL_PUT || _); [|done]. apply record_safe; (done || lia).
Qed.

Lemma go_safe buf seed from loose fuel st : from + Zlen buf < U64 -> walk_ok buf from st -> (Z.to_nat (Zlen buf - r_p st) < fuel)%nat ->
  8 <= Zlen buf ->
  exists out r, replay_go fuel buf seed from loose st = Some (out, r) /\
    match r with Ok (next, valid, _) => from + Zlen out <= next <= from + Zlen buf /\ 0 <= valid <= Zlen buf | Err _ => True end.
Proof.
  intros HU Hok Hf H8. revert st Hok Hf. induction fuel as [|fuel IH]; intros st Hok Hf; [lia|]. cbn [replay_go].
  pose proof Hok as [Hs Hp _ Hn Hv Ho Hq]. pose proof (Zlen_nonneg (r_batch st)). destruct (Z.ltb_spec (Zlen buf - r_p st) FRAME_HEADER).
  - eexists _, _. split; [reflexivity|]. cbn. lia.
  - pose proof (step_safe buf seed from loose st HU Hok ltac:(done)) as Hstep.
    destruct (replay_step buf seed from loose st) as [st'| |r|]; cbn [step_ok] in Hstep; [| | |done].
    + destruct Hstep as [Hok' Hlt]. apply IH; [done|]. pose proof (ok_p _ _ _ Hok'). lia.
    + eexists _, _. split; [reflexivity|]. cbn. lia.
    + eexists _, _. split; [reflexivity|]. destruct r as [[[n v] b]|]; [|done]. destruct Hstep as [H1 ->].
      change (Zlen WAL_MAGIC) with 8. lia.
Qed.

(** C33: replay ends on any bytes a file may hold, so long as the sequence
    asked for is not within the file's length of the last there is, two to the
    sixty-four: it takes no slice out of range, no sequence passes the last,
    and the walk's fuel never runs out. What it applied is at most one record
    for each sequence between the one asked for and the one it answers, and
    the length it answers is inside the file. *)
Theorem wal_replay_total buf id from first : from + Zlen buf < U64 ->
  exists out r, wal_replay (Some buf) id from first = Some (out, r) /\
    match r with
    | Ok (next, valid, _) => from + Zlen out <= next <= from + Zlen buf /\ 0 <= valid <= Zlen buf
    | Err _ => True
    end.
Proof.
  intros HU. unfold wal_replay. change (Zlen WAL_MAGIC) with 8. pose proof (Zlen_nonneg buf).
  destruct (Z.eqb_spec (Zlen buf) 0); [eexists _, _; split; [reflexivity|]; unfold Zlen in *; simpl; lia|].
  destruct (Z.ltb_spec (Zlen buf) 8).
  { destruct (starts_with _ _); eexists _, _; (split; [reflexivity|]); [unfold Zlen in *; simpl; lia|done]. }
  destruct (wal_kind _) as [kind|]; [|by eexists _, _].
  apply go_safe; [done| |unfold Zlen; cbn; lia|done]. split; cbn; try lia; [done|unfold Zlen; simpl; lia|unfold Zlen; simpl; lia].
Qed.

Lemma wal_replay_total_witness : exists out r, wal_replay (Some (wal_header WAL_LOOSE ++ batch_bytes (wal_seed 9) 5 [DelOp [x61]] ++ [x00])) 9 5 false = Some (out, Ok r).
Proof.
  destruct (wal_replay_total (wal_header WAL_LOOSE ++ batch_bytes (wal_seed 9) 5 [DelOp [x61]] ++ [x00]) 9 5 false) as (out & [r|m] & H & _);
    [vm_compute; reflexivity|by exists out, r|exfalso; vm_compute in H; discriminate].
Defined.

(** The last sequence, checksummed and whole, ends the process where sums are
    checked: it is what the bound is of. *)
Example last_sequence_panics : wal_replay (Some (wal_header WAL_LOOSE ++ frame_bytes (Z.lxor (crc32 (body_bytes (U64 - 1) WAL_COMMIT (le32 (Z.lxor (crc32 []) (wal_seed 9))))) (wal_seed 9))
  (body_bytes (U64 - 1) WAL_COMMIT (le32 (Z.lxor (crc32 []) (wal_seed 9)))))) 9 (U64 - 1) true = None.
Proof. vm_compute. reflexivity. Qed.
