(* ===== verification/Records.v ===== *)
(** * Records: one key of a section, written and read in place

    [src/src/flatindex.rs], lines 480 to 1010: the layout of a record (key
    length, extent count, key, extents, inline tail, each part padded to
    four bytes), the compact form whose single inline run is described by a
    four-byte header, the writers of both and the readers that borrow a
    record where it lies. [base] is the address of the buffer a reader is
    given: an extent array is borrowed only where it is 4-aligned. *)

From S2P Require Import Prelude Varint Runs.

Definition REC_ALIGN : Z := 4.
Definition EXT_BYTES : Z := 20.
Definition COMPACT : Z := 0x8000.
Definition COMPACT_RUN : Z := Z.shiftl 1 14.
Definition C_FIXED : Z := Z.shiftl 1 14.
Definition C_TOMB : Z := Z.shiftl 1 15.
Definition RECORD_KEY_AT : Z := 4.
Definition U16_MAX : Z := 65535.

(** ** Sizes *)

Definition record_len (klen next : Z) : Z := align_up (4 + klen) REC_ALIGN + next * EXT_BYTES.
Definition record_len_tail (klen next tail : Z) : Z := record_len klen next + align_up tail REC_ALIGN.

Definition compacts (exts : list Ext) : bool :=
  match exts with
  | [e] => is_inline e && (e_off e =? 0) && (e_len e <? COMPACT_RUN)
  | _ => false
  end.

Definition record_len_compact (klen run : Z) : Z := align_up (4 + klen) REC_ALIGN + 4 + align_up run REC_ALIGN.

Definition record_len_exts (klen : Z) (exts : list Ext) (tail : Z) : Z :=
  if compacts exts then record_len_compact klen tail else record_len_tail klen (Zlen exts) tail.

Definition segment_record_len (klen run : Z) (inline compact : bool) : Z :=
  if compact && inline && (run <? COMPACT_RUN) then record_len_compact klen run
  else record_len_tail klen 1 (if inline then run else 0).

Definition record_len_for (klen : Z) (exts : list Ext) (tail : Z) (compact : bool) : option Z :=
  if (U16_MAX <? klen) || (COMPACT <=? Zlen exts) then None
  else Some (if compact && compacts exts then record_len_compact klen tail
             else record_len_tail klen (Zlen exts) tail).

Definition record_tail_at (klen : Z) (exts : list Ext) (compact : bool) : Z :=
  let at_ := align_up (4 + klen) REC_ALIGN in
  if compact && compacts exts then at_ + 4 else at_ + Zlen exts * EXT_BYTES.

(** ** The compact header *)

Definition compact_header (e : Ext) : bytes :=
  let c := w16 (records e) in
  let c := if is_fixed e then Z.lor c C_FIXED else c in
  let c := if is_tombstone e then Z.lor c C_TOMB else c in
  le16 (w16 (e_len e)) ++ le16 c.

(** The walk over the prefixes of all records but the last. *)
Fixpoint walk_prefixes (n : nat) (run : bytes) (p : Z) : option Z :=
  match n with
  | O => Some p
  | S n =>
      let '(l, p) := Index.get_uvarint run p in
      p ← cadd p l;
      if Zlen run <=? p then None else walk_prefixes n run p
  end.

Definition compact_ext (h run : bytes) : option Ext :=
  len ← rd_u16 h 0;
  c ← rd_u16 h 2;
  let recs := Z.land c (Z.lxor (U16 - 1) (Z.lor C_FIXED C_TOMB)) in
  let fixed := negb (Z.land c C_FIXED =? 0) in
  if negb (Zlen run =? len) || (Z.max len 1 <? recs) then None
  else
    last ← (if recs <=? 1 then Some 0
            else if fixed then
              if negb (len mod recs =? 0) then None else Some (w32 ((recs - 1) * (len / recs)))
            else w32 <$> walk_prefixes (Z.to_nat (recs - 1)) run 0);
    Some (mkExt INLINE 0 len last
      (Z.lor (Z.lor recs (if fixed then FIXED else 0)) (if negb (Z.land c C_TOMB =? 0) then TOMBSTONE else 0))).

(** ** Writing *)

Definition ext_bytes (e : Ext) : bytes :=
  le32 (e_block e) ++ le32 (e_off e) ++ le32 (e_len e) ++ le32 (e_last e) ++ le32 (e_count e).

(** [rec[a..b].fill(0)] *)
Definition fill0 (rec : bytes) (a b : Z) : option bytes := if b <? a then None else put_range rec a (zeros (b - a)).

(** The loop that lays the extents, one field at a time. *)
Fixpoint put_exts (rec : bytes) (at_ : Z) (exts : list Ext) : option (bytes * Z) :=
  match exts with
  | [] => Some (rec, at_)
  | e :: exts =>
      rec ← put_range rec at_ (le32 (e_block e));
      rec ← put_range rec (at_ + 4) (le32 (e_off e));
      rec ← put_range rec (at_ + 8) (le32 (e_len e));
      rec ← put_range rec (at_ + 12) (le32 (e_last e));
      rec ← put_range rec (at_ + 16) (le32 (e_count e));
      put_exts rec (at_ + EXT_BYTES) exts
  end.

(** The record and the tail's offset within it; [None] where a slice would
    panic. *)
Definition record_into (rec key : bytes) (exts : list Ext) (tail : bytes) (compact : bool) : option (bytes * Z) :=
  rec ← put_range rec 0 (le16 (w16 (Zlen key)));
  rec ← put_range rec RECORD_KEY_AT key;
  let at_ := align_up (4 + Zlen key) REC_ALIGN in
  rec ← fill0 rec (4 + Zlen key) at_;
  if compact && compacts exts then
    rec ← put_range rec 2 (le16 COMPACT);
    rec ← put_range rec at_ (match exts with e :: _ => compact_header e | [] => [] end);
    rec ← put_range rec (at_ + 4) tail;
    rec ← fill0 rec (at_ + 4 + Zlen tail) (Zlen rec);
    Some (rec, at_ + 4)
  else
    rec ← put_range rec 2 (le16 (w16 (Zlen exts)));
    '(rec, at_) ← put_exts rec at_ exts;
    rec ← put_range rec at_ tail;
    rec ← fill0 rec (at_ + Zlen tail) (Zlen rec);
    Some (rec, at_).

(** The bytes appended to, the record's length, the tail's offset. *)
Definition stream_record_tail_at (out key : bytes) (exts : list Ext) (tail : bytes) (compact : bool)
    : option (bytes * (Z * Z)) :=
  len ← record_len_for (Zlen key) exts (Zlen tail) compact;
  '(rec, tail_at) ← record_into (zeros len) key exts tail compact;
  Some (out ++ rec, (len, tail_at)).

Definition stream_record_as (out key : bytes) (exts : list Ext) (tail : bytes) (compact : bool) : option (bytes * Z) :=
  '(out, (len, _)) ← stream_record_tail_at out key exts tail compact; Some (out, len).

Definition stream_record (out key : bytes) (exts : list Ext) (tail : bytes) : option (bytes * Z) :=
  stream_record_as out key exts tail true.

(** ** Reading *)

Definition ext_of_bytes (b : bytes) : option Ext :=
  block ← rd_u32 b 0; off ← rd_u32 b 4; len ← rd_u32 b 8; last ← rd_u32 b 12; count ← rd_u32 b 16;
  Some (mkExt block off len last count).

(** [from_raw_parts]: [n] extents over the bytes they lie in. *)
Definition exts_of_bytes (b : bytes) : option (list Ext) := mapM ext_of_bytes (chunks_exact 20 b).

(** How far the inline runs reach into the tail. *)
Fixpoint tail_extent (exts : list Ext) (tail_len : Z) : option Z :=
  match exts with
  | [] => Some tail_len
  | e :: exts =>
      if is_inline e then n ← cadd (e_off e) (e_len e); tail_extent exts (Z.max tail_len n)
      else tail_extent exts tail_len
  end.

Definition is_aligned (addr to : Z) : bool := addr mod to =? 0.

(** [base] is the address of [rest]. *)
Definition parse_record_tail (base : Z) (header rest : bytes) : option (Exts * bytes * Z) :=
  n ← rd_u16 header 2;
  if negb (Z.land n COMPACT =? 0) then
    if negb (n =? COMPACT) then None
    else
      h ← get_range rest 0 4;
      len ← rd_u16 h 0;
      fin ← cadd 4 len;
      tail ← get_range rest 4 fin;
      e ← compact_ext h tail;
      Some (One e, tail, 4 + len)
  else
    size ← cmul n EXT_BYTES;
    b ← get_range rest 0 size;
    if negb (is_aligned base 4) then None
    else
      exts ← exts_of_bytes b;
      tail_len ← tail_extent exts 0;
      let t_at := n * EXT_BYTES in
      fin ← cadd t_at tail_len;
      tail ← get_range rest t_at fin;
      Some (Borrowed exts, tail, t_at + tail_len).

Definition parse_record (base : Z) (buf : bytes) (off : Z) : option (bytes * Exts * bytes * Z) :=
  klen ← rd_u16 buf off;
  h_end ← cadd off 4;
  header ← get_range buf off h_end;
  key ← get_range buf (off + 4) (off + 4 + klen);
  e_at ← cadd off (align_up (4 + klen) REC_ALIGN);
  rest ← get_from buf e_at;
  '(exts, tail, used) ← parse_record_tail (base + e_at) header rest;
  Some (key, exts, tail, align_up (e_at + used - off) REC_ALIGN).

Definition record_key (buf : bytes) (off : Z) : option bytes :=
  klen ← rd_u16 buf off;
  n ← rd_u16 buf (off + 2);
  if negb (Z.land n COMPACT =? 0) && negb (n =? COMPACT) then None
  else get_range buf (off + 4) (off + 4 + klen).

Definition record_key_next (base : Z) (buf : bytes) (off : Z) : option (bytes * Z) :=
  if Zlen buf <? off then None
  else
    klen ← rd_u16 buf off;
    n ← rd_u16 buf (off + 2);
    if n =? COMPACT then
      key ← get_range buf (off + 4) (off + 4 + klen);
      run ← rd_u16 buf (off + align_up (4 + klen) REC_ALIGN);
      next ← cadd off (record_len_compact klen run);
      if next <=? Zlen buf then Some (key, next) else None
    else
      '(key, _, _, len) ← parse_record base buf off;
      next ← cadd off len;
      if next <=? Zlen buf then Some (key, next) else None.

(** ** The record's bytes *)

Definition pad (n : Z) : bytes := zeros (align_up n REC_ALIGN - n).

Definition exts_part (exts : list Ext) (compact : bool) : bytes :=
  if compact && compacts exts then match exts with e :: _ => compact_header e | [] => [] end
  else concat (map ext_bytes exts).

Definition count_part (exts : list Ext) (compact : bool) : Z :=
  if compact && compacts exts then COMPACT else Zlen exts.

Definition record_bytes (key : bytes) (exts : list Ext) (tail : bytes) (compact : bool) : bytes :=
  le16 (Zlen key) ++ le16 (count_part exts compact) ++ key ++ pad (4 + Zlen key) ++
  exts_part exts compact ++ tail ++ pad (Zlen tail).

Lemma align4 n : n <= align_up n 4 < n + 4 /\ align_up n 4 mod 4 = 0.
Proof. by apply align_up_spec. Qed.

Lemma Zlen_pad n : Zlen (pad n) = align_up n 4 - n.
Proof. unfold pad, REC_ALIGN. pose proof (align4 n). apply Zlen_zeros. lia. Qed.

Lemma Zlen_ext_bytes e : Zlen (ext_bytes e) = 20.
Proof. unfold ext_bytes. zlia. Qed.

Lemma Zlen_exts exts : Zlen (concat (map ext_bytes exts)) = 20 * Zlen exts.
Proof.
  rewrite (Zlen_concat 20), Zlen_map; [done|]. apply Forall_forall.
  intros x (y & -> & _)%list_elem_of_fmap. apply Zlen_ext_bytes.
Qed.

Lemma Zlen_compact_header e : Zlen (compact_header e) = 4.
Proof. unfold compact_header. zlia. Qed.
#[export] Hint Rewrite Zlen_pad Zlen_ext_bytes Zlen_exts Zlen_compact_header : zlen.

Lemma compacts_inv exts : compacts exts = true ->
  exists e, exts = [e] /\ is_inline e = true /\ e_off e = 0 /\ e_len e < COMPACT_RUN.
Proof.
  destruct exts as [|e [|e' exts]]; try done. cbn. intros [[H1 H2]%andb_true_iff H3]%andb_true_iff.
  exists e. apply Z.eqb_eq in H2. apply Z.ltb_lt in H3. done.
Qed.

Lemma Zlen_exts_part exts compact : Zlen (exts_part exts compact) =
  if compact && compacts exts then 4 else 20 * Zlen exts.
Proof.
  unfold exts_part. destruct (compact && compacts exts) eqn:E; [|apply Zlen_exts].
  apply andb_true_iff in E as [_ E]. apply compacts_inv in E as (e & -> & _). apply Zlen_compact_header.
Qed.

Lemma Zlen_record key exts tail compact len : record_len_for (Zlen key) exts (Zlen tail) compact = Some len ->
  Zlen (record_bytes key exts tail compact) = len.
Proof.
  unfold record_len_for. destruct (_ || _); [done|]. intros [= <-]. unfold record_bytes.
  rewrite !Zlen_app, Zlen_exts_part, !Zlen_pad, !Zlen_le16.
  unfold record_len_compact, record_len_tail, record_len, REC_ALIGN, EXT_BYTES.
  destruct (compact && compacts exts); lia.
Qed.

(** ** The writer lays those bytes *)

(** A write over a region of the right length, found by the parts before
    it. *)
Lemma put_mid {A} (a b c s : list A) at_ : Zlen s = Zlen b -> at_ = Zlen a -> put_range (a ++ b ++ c) at_ s = Some (a ++ s ++ c).
Proof. intros. by apply put_range_app. Qed.

Lemma put_exts_bytes exts a c at_ : at_ = Zlen a ->
  put_exts (a ++ zeros (20 * Zlen exts) ++ c) at_ exts = Some (a ++ concat (map ext_bytes exts) ++ c, at_ + 20 * Zlen exts).
Proof.
  revert a at_. induction exts as [|e exts IH]; intros a at_ ->; cbn [put_exts map concat].
  - znil. by rewrite Z.mul_0_r, Z.add_0_r.
  - pose proof (Zlen_nonneg exts). rewrite (Zlen_cons e). replace (20 * (1 + Zlen exts)) with (4 + (4 + (4 + (4 + (4 + 20 * Zlen exts))))) by lia.
    rewrite !zeros_add by lia. rewrite <- !app_assoc.
    rewrite put_mid by zlia. cbn [option_bind mbind].
    rewrite (app_assoc a), put_mid by zlia. cbn [option_bind mbind].
    rewrite (app_assoc (a ++ _)), put_mid by zlia. cbn [option_bind mbind].
    rewrite (app_assoc ((a ++ _) ++ _)), put_mid by zlia. cbn [option_bind mbind].
    rewrite (app_assoc (((a ++ _) ++ _) ++ _)), put_mid by zlia. cbn [option_bind mbind].
    rewrite (app_assoc ((((a ++ _) ++ _) ++ _) ++ _)), IH by (unfold EXT_BYTES; zlia).
    unfold ext_bytes, EXT_BYTES. rewrite <- !app_assoc. f_equal. f_equal. lia.
Qed.

Lemma fill0_mid a b c lo hi : lo = Zlen a -> hi = Zlen a + Zlen b -> fill0 (a ++ b ++ c) lo hi = Some (a ++ zeros (Zlen b) ++ c).
Proof.
  intros -> ->. pose proof (Zlen_nonneg b). unfold fill0. rewrite (proj2 (Z.ltb_ge _ _)) by lia.
  replace (Zlen a + Zlen b - Zlen a) with (Zlen b) by lia. apply put_mid; zlia.
Qed.

Lemma fill0_end a b lo hi : lo = Zlen a -> hi = Zlen a + Zlen b -> fill0 (a ++ b) lo hi = Some (a ++ zeros (Zlen b)).
Proof. intros. rewrite <- (app_nil_r b), fill0_mid by (rewrite ?app_nil_r; done). by rewrite !app_nil_r. Qed.

(** The writer's slices, found in a record cut into its parts. *)
Lemma record_into_bytes key exts tail compact len :
  record_len_for (Zlen key) exts (Zlen tail) compact = Some len -> Zlen exts < U16 ->
  record_into (zeros len) key exts tail compact =
    Some (record_bytes key exts tail compact, record_tail_at (Zlen key) exts compact).
Proof.
  intros Hlen Hn. unfold record_len_for in Hlen. destruct (Z.ltb_spec U16_MAX (Zlen key)) as [|Hk]; [done|].
  cbn [orb] in Hlen. destruct (COMPACT <=? Zlen exts); [done|]. injection Hlen as <-.
  pose proof (Zlen_nonneg key). pose proof (Zlen_nonneg tail). pose proof (Zlen_nonneg exts).
  pose proof (align4 (4 + Zlen key)). pose proof (align4 (Zlen tail)).
  set (p1 := align_up (4 + Zlen key) 4 - (4 + Zlen key)). set (p2 := align_up (Zlen tail) 4 - Zlen tail).
  assert (align_up (4 + Zlen key) 4 = 4 + Zlen key + p1 /\ 0 <= p1) as [Hp1 Hp1n] by (unfold p1; lia).
  assert (0 <= p2) as Hp2n by (unfold p2; lia).
  set (x := if compact && compacts exts then 4 else 20 * Zlen exts).
  assert ((if compact && compacts exts then record_len_compact (Zlen key) (Zlen tail)
           else record_len_tail (Zlen key) (Zlen exts) (Zlen tail)) = 2 + (2 + (Zlen key + (p1 + (x + (Zlen tail + p2)))))) as ->.
  { unfold record_len_compact, record_len_tail, record_len, x, p1, p2, REC_ALIGN, EXT_BYTES.
    destruct (compact && compacts exts); lia. }
  rewrite !zeros_add by (unfold x; destruct (compact && compacts exts); lia).
  unfold record_into, fill0. cbv zeta. unfold RECORD_KEY_AT, REC_ALIGN, w16. rewrite Hp1.
  rewrite (Z.mod_small (Zlen key)) by (unfold U16_MAX, U16 in *; lia).
  do 2 puts. rewrite (proj2 (Z.ltb_ge _ _)) by lia. puts.
  unfold record_bytes, exts_part, count_part, record_tail_at, pad, REC_ALIGN. fold p1 p2. rewrite Hp1.
  replace (zeros (4 + Zlen key + p1 - (4 + Zlen key))) with (zeros p1) by (f_equal; lia).
  unfold x. destruct (compact && compacts exts) eqn:E.
  - apply andb_true_iff in E as [_ E]. apply compacts_inv in E as (e & -> & _).
    do 3 puts. rewrite !Zlen_app, !Zlen_le16, !Zlen_zeros, Zlen_compact_header by lia.
    rewrite (proj2 (Z.ltb_ge _ _)) by lia. puts. do 2 f_equal. repeat (f_equal; try lia).
  - puts. rewrite (Z.mod_small (Zlen exts)) by lia.
    rewrite (app_assoc _ (zeros p1)), (app_assoc _ (key ++ zeros p1)), (app_assoc (le16 (Zlen key))).
    rewrite put_exts_bytes by zlia. rewrite <- !app_assoc. cbn [option_bind mbind].
    puts. rewrite !Zlen_app, !Zlen_le16, !Zlen_zeros, Zlen_exts by lia.
    rewrite (proj2 (Z.ltb_ge _ _)) by lia. puts. unfold EXT_BYTES. do 2 f_equal; [|lia]. repeat (f_equal; try lia).
Qed.

Lemma stream_record_bytes out key exts tail compact len :
  record_len_for (Zlen key) exts (Zlen tail) compact = Some len ->
  stream_record_tail_at out key exts tail compact =
    Some (out ++ record_bytes key exts tail compact, (len, record_tail_at (Zlen key) exts compact)).
Proof.
  intros H. unfold stream_record_tail_at. rewrite H. cbn [option_bind mbind].
  rewrite (record_into_bytes _ _ _ _ _ H); [done|]. unfold record_len_for in H.
  destruct (Z.leb_spec COMPACT (Zlen exts)); [by rewrite orb_true_r in H|]. unfold COMPACT, U16 in *. lia.
Qed.

(** ** The compact header stands for its extent *)

(** What the extent of a run the writer made holds: the run is inline, and
    the rest is what [encode_run] reported of [vs]. *)
Definition coherent (e : Ext) (run : bytes) : Prop :=
  exists vs last flag tomb, encode_run (concat vs) (map Zlen vs) = Some (run, (last, flag)) /\
    Zlen vs < 2 ^ 30 /\ Zlen (prefixed vs) < U32 /\ e = run_ext INLINE 0 run last flag vs tomb.

Lemma walk_prefixed vs v pre : Zlen (pre ++ prefixed (vs ++ [v])) < U32 ->
  walk_prefixes (length vs) (pre ++ prefixed (vs ++ [v])) (Zlen pre) = Some (Zlen (pre ++ prefixed vs)).
Proof.
  revert pre. induction vs as [|x vs IH]; intros pre Hb; cbn [walk_prefixes length prefixed app].
  - by rewrite app_nil_r.
  - cbn [prefixed app] in Hb. rewrite !Zlen_app in Hb. pose proof (Zlen_nonneg x). pose proof (Zlen_nonneg pre).
    pose proof (uvarint_len_pos (Zlen x)).
    assert (1 <= Zlen (prefixed (vs ++ [v]))) by (destruct vs; apply prefixed_len_pos).
    rewrite get_put_uvarint by (unfold U32, U64 in *; lia).
    rewrite (proj2 (cadd_Some _ _ _)) by (split; [reflexivity|unfold U32, U64 in *; lia]). cbn [option_bind mbind].
    rewrite (proj2 (Z.leb_gt _ _)) by (rewrite !Zlen_app; lia).
    replace (pre ++ uvarint (Zlen x) ++ x ++ prefixed (vs ++ [v]))
      with ((pre ++ uvarint (Zlen x) ++ x) ++ prefixed (vs ++ [v])) by (by rewrite <- !app_assoc).
    replace (Zlen pre + Zlen (uvarint (Zlen x)) + Zlen x) with (Zlen (pre ++ uvarint (Zlen x) ++ x)) by (rewrite !Zlen_app; lia).
    rewrite IH by (rewrite !Zlen_app; lia). by rewrite <- !app_assoc.
Qed.

Lemma prefixed_count vs : Zlen vs <= Zlen (prefixed vs).
Proof.
  induction vs as [|v vs IH]; [done|]. cbn [prefixed]. rewrite (Zlen_cons v), !Zlen_app.
  pose proof (uvarint_len_pos (Zlen v)). pose proof (Zlen_nonneg v). lia.
Qed.

(** The header's three parts, for a count below the two flags. *)
Lemma compact_word n (fixed tomb : bool) : 0 <= n < 2 ^ 14 ->
  let c := if tomb then Z.lor (if fixed then Z.lor n C_FIXED else n) C_TOMB else if fixed then Z.lor n C_FIXED else n in
  0 <= c < U16 /\ Z.land c (Z.lxor (U16 - 1) (Z.lor C_FIXED C_TOMB)) = n /\
  negb (Z.land c C_FIXED =? 0) = fixed /\ negb (Z.land c C_TOMB =? 0) = tomb.
Proof.
  intros Hn c. change (Z.lxor (U16 - 1) (Z.lor C_FIXED C_TOMB)) with (2 ^ 14 - 1).
  change C_FIXED with (2 ^ 14) in *. change C_TOMB with (2 ^ 15) in *.
  assert (forall k, 0 <= k -> Z.testbit c k = if decide (k = 14) then fixed else if decide (k = 15) then tomb else Z.testbit n k) as Hbits.
  { intros k Hk. unfold c. assert (forall j, Z.testbit (2 ^ j) k = bool_decide (k = j /\ 0 <= j)) as Hp.
    { intros j. case_bool_decide as Hd; [destruct Hd as [-> ?]; by apply Z.pow2_bits_true|].
      destruct (decide (0 <= j)); [apply Z.pow2_bits_false; lia|]. rewrite Z.pow_neg_r by lia. apply Z.bits_0. }
    assert (Z.testbit n 14 = false) by (apply (testbit_small n 14); lia).
    assert (Z.testbit n 15 = false) by (apply (testbit_small n 14); lia).
    destruct fixed, tomb; rewrite ?Z.lor_spec, ?Hp; repeat case_decide; subst; repeat case_bool_decide; try lia;
      rewrite ?orb_false_r, ?orb_true_r; try done. }
  split; [|split; [|split]].
  - unfold c. change U16 with (2 ^ 16). destruct fixed, tomb; repeat apply lor_range; lia.
  - rewrite land_ones_mod by lia. apply Z.bits_inj'. intros k Hk. destruct (Z.lt_ge_cases k 14).
    + rewrite Z.mod_pow2_bits_low, Hbits by lia. by rewrite !decide_False by lia.
    + rewrite Z.mod_pow2_bits_high by lia. by rewrite (testbit_small n 14) by lia.
  - rewrite land_pow2, Hbits, decide_True by lia. by destruct fixed.
  - rewrite land_pow2, Hbits, decide_False, decide_True by lia. by destruct tomb.
Qed.

Lemma compact_ext_header e run : coherent e run -> Zlen run < COMPACT_RUN -> compact_ext (compact_header e) run = Some e.
Proof.
  intros (vs & last & flag & tomb & He & Hn & Hb & ->) Hr.
  destruct (run_codec vs INLINE 0 tomb Hn Hb) as (run' & last' & flag' & He' & _ & Hrec & Ht & _ & Hlast).
  rewrite He in He'. injection He' as <- <- <-. cbv zeta in *. set (e := run_ext INLINE 0 run last flag vs tomb) in *.
  change COMPACT_RUN with (2 ^ 14) in Hr. pose proof (Zlen_nonneg run). pose proof (Zlen_nonneg vs).
  (* the two forms *)
  assert (exists fixed : bool, flag = (if fixed then FIXED else 0) /\ is_fixed e = fixed /\ Zlen vs <= Zlen run /\
    (fixed = true -> exists v vs', vs = v :: vs' /\ all_width (Zlen v) vs /\ 0 < Zlen v /\ Zlen run = Zlen vs * Zlen v) /\
    (fixed = false -> run = prefixed vs /\ last = last_start 0 0 vs)) as (fixed & Hflag & Hfix & Hcnt & Hft & Hff).
  { unfold encode_run in He. destruct (run_fixed (map Zlen vs)) eqn:Hf.
    - injection He as <- <- <-. exists true. apply run_fixed_true in Hf as (v & vs' & Hv & Hp & Hw).
      pose proof (concat_width _ _ Hw) as Hc. split; [done|]. split; [apply (count_word_fixed _ true); lia|].
      split; [nia|]. split; [|done]. intros _. by exists v, vs'.
    - pose proof (encode_go_prefixed [] vs 0 []) as Hgo. cbn [app] in Hgo. rewrite Zlen_nil in Hgo.
      rewrite Hgo in He. cbn [option_bind mbind] in He. injection He as <- <- <-. exists false. split; [done|].
      split; [apply (count_word_fixed _ false); lia|]. split; [apply prefixed_count|]. split; [done|]. by intros _. }
  assert (0 <= records e < 2 ^ 14) as Hrange by lia.
  pose (c := if tomb then Z.lor (if fixed then Z.lor (records e) C_FIXED else records e) C_TOMB
             else if fixed then Z.lor (records e) C_FIXED else records e).
  pose proof (compact_word (records e) fixed tomb Hrange) as Hw. cbv zeta in Hw. fold c in Hw.
  destruct Hw as (Hw1 & Hw2 & Hw3 & Hw4).
  unfold compact_ext, compact_header. cbv zeta. change (e_len e) with (Zlen run). unfold w16.
  rewrite (Z.mod_small (Zlen run)), (Z.mod_small (records e)), Hfix, Ht by (unfold U16; lia).
  fold c.
  layout ltac:(unfold U16; lia). rewrite Hw2, Hw3, Hw4, Z.eqb_refl. cbn [negb orb].
  rewrite (proj2 (Z.ltb_ge _ _)) by lia. rewrite Hrec.
  assert ((if Zlen vs <=? 1 then Some 0
           else if fixed then if negb (Zlen run mod Zlen vs =? 0) then None else Some (w32 ((Zlen vs - 1) * (Zlen run / Zlen vs)))
           else w32 <$> walk_prefixes (Z.to_nat (Zlen vs - 1)) run 0) = Some last) as ->.
  { destruct vs as [|v0 vs0 _] using rev_ind.
    { destruct fixed; [destruct (Hft eq_refl) as (? & ? & ? & _); done|]. destruct (Hff eq_refl) as [_ ->]. done. }
    destruct (Hlast vs0 v0 eq_refl) as (head & Hhead & <-). rewrite Hfix in Hhead.
    rewrite Zlen_app in *. change (Zlen [v0]) with 1 in *. pose proof (Zlen_nonneg vs0). pose proof (Zlen_nonneg head).
    destruct (Z.leb_spec (Zlen vs0 + 1) 1) as [Hle1|Hgt1].
    - assert (vs0 = []) as -> by (apply Zlen_zero_nil; lia). f_equal.
      destruct fixed; [destruct (Hft eq_refl) as (v & vs' & [= -> _] & _ & _ & Hrl)|destruct (Hff eq_refl) as [Hrp _]].
      + rewrite (@Zlen_nil bytes) in Hrl; apply (f_equal Zlen) in Hhead. rewrite Zlen_app in Hhead. lia.
      + apply (f_equal Zlen) in Hhead. rewrite Hrp in Hhead. cbn [prefixed app] in Hhead. rewrite !Zlen_app in Hhead. znil. lia.
    - destruct fixed.
      + destruct (Hft eq_refl) as (v & vs' & Hv & Hw & Hp & Hrl).
        assert (Zlen v0 = Zlen v) as Hv0 by (apply Forall_app in Hw as [_ Hw]; by inversion Hw).
        apply (f_equal Zlen) in Hhead. rewrite Zlen_app in Hhead.
        rewrite Hrl, (Z.mul_comm (Zlen vs0 + 1)), Z.mod_mul, Z.div_mul by lia. cbn [negb Z.eqb].
        f_equal. unfold w32. rewrite Z.mod_small by (unfold U32; nia). nia.
      + destruct (Hff eq_refl) as [Hrp _]. replace (Z.to_nat (Zlen vs0 + 1 - 1)) with (length vs0) by (unfold Zlen; lia).
        rewrite Hrp. pose proof (walk_prefixed vs0 v0 []) as Hwalk. cbn [app] in Hwalk. rewrite Zlen_nil in Hwalk.
        rewrite Hwalk by done. cbn. f_equal. unfold w32.
        assert (0 <= Zlen (prefixed vs0) <= Zlen run) by (rewrite Hrp, prefixed_app, Zlen_app;
          pose proof (Zlen_nonneg (prefixed [v0])); pose proof (Zlen_nonneg (prefixed vs0)); lia).
        apply (f_equal Zlen) in Hhead. rewrite Hrp, prefixed_app, !Zlen_app in Hhead. cbn [prefixed] in Hhead.
        rewrite !Zlen_app in Hhead. znil. rewrite Z.mod_small by (unfold U32 in *; lia). lia. }
  cbn [option_bind mbind]. unfold e, run_ext, count_word. rewrite Hflag. done.
Qed.

(** ** Reading back what was written *)

Lemma ext_roundtrip e : ext_ok e -> ext_of_bytes (ext_bytes e) = Some e.
Proof.
  intros (H1 & H2 & H3 & H4 & H5). unfold ext_of_bytes, ext_bytes. layout done. by destruct e.
Qed.

Lemma exts_roundtrip exts : Forall ext_ok exts -> exts_of_bytes (concat (map ext_bytes exts)) = Some exts.
Proof.
  intros H. unfold exts_of_bytes. rewrite chunks_exact_concat; [|lia|].
  - induction H as [|e exts He _ IH]; [done|]. cbn [map mapM]. rewrite ext_roundtrip, IH by done. done.
  - apply Forall_forall. intros x (y & -> & _)%list_elem_of_fmap.
    pose proof (Zlen_ext_bytes y). unfold Zlen in *. lia.
Qed.

(** A record a writer is asked for: its extents are what the types hold, the
    tail is what its inline runs cover, and a record that will be compact
    holds the run its extent describes. *)
Definition record_ok (key : bytes) (exts : list Ext) (tail : bytes) (compact : bool) : Prop :=
  Forall ext_ok exts /\ is_Some (record_len_for (Zlen key) exts (Zlen tail) compact) /\
  (if compact && compacts exts then exists e, exts = [e] /\ coherent e tail
   else tail_extent exts 0 = Some (Zlen tail)).

(** What a reader makes of it. *)
Definition exts_read (exts : list Ext) (compact : bool) : Exts :=
  if compact && compacts exts then match exts with e :: _ => One e | [] => Borrowed [] end else Borrowed exts.

Lemma exts_read_deref exts compact : exts_deref (exts_read exts compact) = exts.
Proof.
  unfold exts_read. destruct (compact && compacts exts) eqn:E; [|done].
  apply andb_true_iff in E as [_ E]. by apply compacts_inv in E as (e & -> & _).
Qed.

Lemma record_ok_len key exts tail compact : record_ok key exts tail compact ->
  Zlen key <= U16_MAX /\ Zlen exts < COMPACT /\
  record_len_for (Zlen key) exts (Zlen tail) compact = Some (Zlen (record_bytes key exts tail compact)).
Proof.
  intros (_ & [len Hl] & _). pose proof (Zlen_record _ _ _ _ _ Hl) as ->. rewrite Hl.
  unfold record_len_for in Hl. destruct (Z.ltb_spec U16_MAX (Zlen key)), (Z.leb_spec COMPACT (Zlen exts)); try done.
Qed.

Lemma count_part_range exts compact : Zlen exts < COMPACT -> 0 <= count_part exts compact < U16.
Proof.
  intros H. unfold count_part. pose proof (Zlen_nonneg exts). unfold COMPACT, U16 in *. destruct (_ && _); lia.
Qed.

Lemma coherent_len e run : coherent e run -> e_len e = Zlen run.
Proof. by intros (vs & last & flag & tomb & _ & _ & _ & ->). Qed.

(** The part past the key, wherever it is read from. *)
Lemma parse_tail_bytes base key exts tail compact rest :
  record_ok key exts tail compact -> is_aligned base 4 = true -> Zlen rest + Zlen tail < U32 ->
  parse_record_tail base (le16 (Zlen key) ++ le16 (count_part exts compact)) (exts_part exts compact ++ tail ++ rest) =
    Some (exts_read exts compact, tail, Zlen (exts_part exts compact) + Zlen tail).
Proof.
  intros Hok Hbase Hlen. pose proof Hok as (Hexts & _ & Htail). destruct (record_ok_len _ _ _ _ Hok) as (Hk & Hn & _).
  pose proof (count_part_range exts compact Hn). unfold parse_record_tail. layout lia.
  pose proof (Zlen_nonneg exts). pose proof (Zlen_nonneg tail). pose proof (Zlen_nonneg rest).
  unfold count_part, exts_part, exts_read in *. destruct (compact && compacts exts) eqn:E.
  - change (negb (Z.land COMPACT COMPACT =? 0)) with true. cbv iota. rewrite Z.eqb_refl. cbn [negb].
    destruct Htail as (e & -> & Hco). apply andb_true_iff in E as [_ E].
    apply compacts_inv in E as (e' & [= <-] & _ & _ & Hl). pose proof (coherent_len _ _ Hco) as Hel. rewrite Hel in Hl.
    rewrite get_range_here by zlia. cbn [option_bind mbind].
    assert (rd_u16 (compact_header e) 0 = Some (Zlen tail)) as ->.
    { unfold compact_header. rewrite Hel. unfold w16. rewrite Z.mod_small by (unfold U16, COMPACT_RUN in *; change (Z.shiftl 1 14) with 16384 in *; lia).
      layout ltac:(unfold U16, COMPACT_RUN in *; change (Z.shiftl 1 14) with 16384 in *; lia). done. }
    cbn [option_bind mbind]. checked ltac:(unfold U32, U64 in *; lia).
    rewrite get_range_skip, get_range_here by zlia. cbn [option_bind mbind].
    rewrite compact_ext_header by done. cbn [option_bind mbind]. by rewrite Zlen_compact_header.
  - assert (Z.land (Zlen exts) COMPACT = 0) as ->.
    { change COMPACT with (2 ^ 15). rewrite land_pow2 by lia. rewrite (testbit_small _ 15); [done|lia|unfold COMPACT in Hn; lia]. }
    cbn [negb Z.eqb]. unfold EXT_BYTES. unfold COMPACT in Hn. checked ltac:(unfold U64; lia).
    rewrite get_range_here by zlia. cbn [option_bind mbind]. rewrite Hbase. cbn [negb].
    rewrite exts_roundtrip by done. cbn [option_bind mbind]. rewrite Htail. cbn [option_bind mbind].
    checked ltac:(unfold U32, U64 in *; lia). rewrite get_range_skip, get_range_here by zlia. cbn [option_bind mbind].
    rewrite Zlen_exts. by rewrite (Z.mul_comm 20).
Qed.

Section parse.
Context (key : bytes) (exts : list Ext) (tail : bytes) (compact : bool) (Hok : record_ok key exts tail compact).
Context (pre post : bytes) (base : Z).
Let rec := record_bytes key exts tail compact.
Let buf := pre ++ rec ++ post.
Context (Hbuf : Zlen buf < U32) (Halign : is_aligned (base + Zlen pre) 4 = true).

Lemma rec_parts : buf = pre ++ le16 (Zlen key) ++ le16 (count_part exts compact) ++ key ++ pad (4 + Zlen key) ++
  exts_part exts compact ++ tail ++ pad (Zlen tail) ++ post.
Proof. unfold buf, rec, record_bytes. by rewrite <- !app_assoc. Qed.

Lemma rec_heads : rd_u16 buf (Zlen pre) = Some (Zlen key) /\ rd_u16 buf (Zlen pre + 2) = Some (count_part exts compact) /\
  get_range buf (Zlen pre + 4) (Zlen pre + 4 + Zlen key) = Some key.
Proof.
  destruct (record_ok_len _ _ _ _ Hok) as (Hk & Hn & _). pose proof (count_part_range exts compact Hn).
  pose proof (Zlen_nonneg key). rewrite rec_parts. unfold U16_MAX in Hk.
  split; [|split]; [layout ltac:(unfold U16 in *; lia); done..|].
  rewrite !(app_assoc _ _ (key ++ _)). apply get_range_app; zlia.
Qed.

Lemma rec_bound : Zlen pre + Zlen rec + Zlen post = Zlen buf.
Proof. unfold buf. rewrite !Zlen_app. lia. Qed.

Lemma rec_len_parts : Zlen rec = align_up (4 + Zlen key) 4 + Zlen (exts_part exts compact) + align_up (Zlen tail) 4.
Proof. unfold rec, record_bytes. rewrite !Zlen_app, !Zlen_pad, !Zlen_le16. lia. Qed.

Lemma parse_record_bytes : parse_record base buf (Zlen pre) = Some (key, exts_read exts compact, tail, Zlen rec).
Proof.
  destruct rec_heads as (H1 & H2 & H3). unfold parse_record. rewrite H1. cbn [option_bind mbind].
  pose proof rec_bound as Hb. pose proof rec_len_parts as Hr. pose proof (Zlen_nonneg pre). pose proof (Zlen_nonneg post).
  pose proof (align4 (4 + Zlen key)) as Ha. pose proof (align4 (Zlen tail)) as Ht. pose proof (Zlen_nonneg key).
  pose proof (Zlen_nonneg tail). pose proof (Zlen_nonneg (exts_part exts compact)).
  checked ltac:(unfold U32, U64 in *; lia).
  assert (get_range buf (Zlen pre) (Zlen pre + 4) = Some (le16 (Zlen key) ++ le16 (count_part exts compact))) as ->.
  { rewrite rec_parts, (app_assoc (le16 (Zlen key))). apply get_range_app; zlia. }
  cbn [option_bind mbind]. rewrite H3. cbn [option_bind mbind]. unfold REC_ALIGN.
  checked ltac:(unfold U32, U64 in *; lia).
  assert (get_from buf (Zlen pre + align_up (4 + Zlen key) 4) = Some (exts_part exts compact ++ tail ++ pad (Zlen tail) ++ post)) as ->.
  { rewrite rec_parts. rewrite !(get_from_skip _ _ _) by zlia. apply get_from_here. zlia. }
  cbn [option_bind mbind]. rewrite (parse_tail_bytes (base + (Zlen pre + align_up (4 + Zlen key) 4)) key exts tail compact).
  - cbn [option_bind mbind]. do 2 f_equal. rewrite Hr.
    destruct (Z.eq_dec (Zlen (exts_part exts compact) mod 4) 0) as [Hm|Hm].
    + set (x := align_up (4 + Zlen key) 4) in *. set (y := Zlen (exts_part exts compact)) in *.
      replace (Zlen pre + x + (y + Zlen tail) - Zlen pre) with (x + y + Zlen tail) by lia.
      destruct Ha as [_ Ha]. unfold align_up. apply Z.mod_divide in Ha as [a Ha]; [|lia]. apply Z.mod_divide in Hm as [b Hm]; [|lia].
      rewrite Ha, Hm. replace (a * 4 + b * 4 + Zlen tail + 4 - 1) with (Zlen tail + 4 - 1 + (a + b) * 4) by lia.
      rewrite Z.div_add by lia. lia.
    + exfalso. apply Hm. rewrite Zlen_exts_part. destruct (_ && _); [done|]. 
      replace (20 * Zlen exts) with (5 * Zlen exts * 4) by lia. apply Z.mod_mul. lia.
  - exact Hok.
  - unfold is_aligned in *. apply Z.eqb_eq in Halign. apply Z.eqb_eq. rewrite Z.add_assoc.
    rewrite Z.add_mod, Halign, (proj2 Ha) by lia. done.
  - rewrite Zlen_app, Zlen_pad. lia.
Qed.

Lemma record_key_bytes : record_key buf (Zlen pre) = Some key.
Proof.
  destruct rec_heads as (H1 & H2 & H3). unfold record_key. rewrite H1. cbn [option_bind mbind]. rewrite H2.
  cbn [option_bind mbind]. destruct (record_ok_len _ _ _ _ Hok) as (_ & Hn & _). pose proof (Zlen_nonneg exts).
  assert (negb (Z.land (count_part exts compact) COMPACT =? 0) && negb (count_part exts compact =? COMPACT) = false) as ->; [|done].
  unfold count_part. destruct (compact && compacts exts); [by rewrite Z.eqb_refl, andb_false_r|].
  change COMPACT with (2 ^ 15) in *. rewrite land_pow2 by lia. by rewrite (testbit_small _ 15) by lia.
Qed.

Lemma record_key_next_bytes : record_key_next base buf (Zlen pre) = Some (key, Zlen pre + Zlen rec).
Proof.
  destruct rec_heads as (H1 & H2 & H3). unfold record_key_next. pose proof rec_bound as Hb. pose proof (Zlen_nonneg post).
  pose proof (Zlen_nonneg rec). rewrite (proj2 (Z.ltb_ge _ _)) by lia. rewrite H1. cbn [option_bind mbind]. rewrite H2.
  cbn [option_bind mbind]. destruct (record_ok_len _ _ _ _ Hok) as (_ & Hn & Hl).
  destruct (compact && compacts exts) eqn:E.
  - unfold count_part. rewrite E, Z.eqb_refl, H3. cbn [option_bind mbind].
    pose proof rec_len_parts as Hr. rewrite Zlen_exts_part, E in Hr. pose proof (align4 (4 + Zlen key)).
    pose proof (proj2 (proj2 Hok)) as Htail. rewrite E in Htail. destruct Htail as (e & He & Hco).
    pose proof E as E'. apply andb_true_iff in E' as [_ E']. apply compacts_inv in E' as (e' & He' & _ & _ & Hel).
    rewrite He in He'. injection He' as <-.
    rewrite (coherent_len _ _ Hco) in Hel. change COMPACT_RUN with 16384 in Hel. pose proof (Zlen_nonneg tail). pose proof (Zlen_nonneg key).
    assert (rd_u16 buf (Zlen pre + align_up (4 + Zlen key) REC_ALIGN) = Some (Zlen tail)) as ->.
    { rewrite rec_parts. unfold exts_part. rewrite E, He. unfold compact_header, REC_ALIGN. rewrite (coherent_len _ _ Hco).
      unfold w16 at 1. rewrite Z.mod_small by (unfold U16; lia). rewrite <- !app_assoc. layout ltac:(unfold U16; lia). done. }
    cbn [option_bind mbind]. unfold record_len_compact, REC_ALIGN.
    replace (align_up (4 + Zlen key) 4 + 4 + align_up (Zlen tail) 4) with (Zlen rec) by lia.
    checked ltac:(unfold U32, U64 in *; lia). by rewrite (proj2 (Z.leb_le _ _)) by lia.
  - unfold count_part at 1. rewrite E. rewrite (proj2 (Z.eqb_neq _ _)) by lia.
    rewrite parse_record_bytes. cbn [option_bind mbind]. checked ltac:(unfold U32, U64 in *; lia).
    by rewrite (proj2 (Z.leb_le _ _)) by lia.
Qed.
End parse.

(** The two readers agree on the key of a record that parses. *)
Lemma parse_record_key base buf off key exts tail len :
  parse_record base buf off = Some (key, exts, tail, len) -> record_key buf off = Some key.
Proof.
  unfold parse_record, record_key. destruct (rd_u16 buf off) as [klen|]; [|done]. cbn [option_bind mbind].
  destruct (cadd off 4) as [h|] eqn:Eh; [|done]. cbn [option_bind mbind]. apply cadd_Some in Eh as [-> _].
  destruct (get_range buf off (off + 4)) as [header|] eqn:Hh; [|done]. cbn [option_bind mbind].
  destruct (get_range buf (off + 4) (off + 4 + klen)) as [k|]; [|done]. cbn [option_bind mbind].
  destruct (cadd off _) as [e_at|]; [|done]. cbn [option_bind mbind]. destruct (get_from buf e_at) as [rest|]; [|done].
  cbn [option_bind mbind]. destruct (parse_record_tail _ _ _) as [[[x t] u]|] eqn:Et; [|done]. cbn. intros [= <- _ _ _].
  unfold parse_record_tail in Et. destruct (rd_u16 header 2) as [n|] eqn:En; [|done]. cbn [option_bind mbind] in Et.
  assert (rd_u16 buf (off + 2) = Some n) as ->.
  { unfold rd_u16 in *. apply fmap_Some in En as (w & Hw & ->). rewrite <- Z.add_assoc. by rewrite (get_range_sub _ _ _ _ _ _ _ Hh Hw). }
  cbn. destruct (Z.land n COMPACT =? 0); [done|]. by destruct (n =? COMPACT).
Qed.

(** C23: a record written after any bytes and before any others reads back as
    it was written: its key, its extents (rebuilt exactly from the four-byte
    header where the record is compact), its tail and the bytes it spans,
    which is where the next record begins and is what every sizing function
    said. The three readers agree on it, and the writer reports where the
    tail lies. [out] lies 4-aligned in memory. *)
Theorem record_roundtrip out key exts tail compact post base :
  record_ok key exts tail compact -> is_aligned (base + Zlen out) 4 = true ->
  Zlen (out ++ record_bytes key exts tail compact ++ post) < U32 ->
  exists out' len tail_at,
    stream_record_tail_at out key exts tail compact = Some (out', (len, tail_at)) /\
    record_len_for (Zlen key) exts (Zlen tail) compact = Some len /\
    Zlen out' = Zlen out + len /\ tail_at = record_tail_at (Zlen key) exts compact /\
    get_range (out' ++ post) (Zlen out + tail_at) (Zlen out + tail_at + Zlen tail) = Some tail /\
    parse_record base (out' ++ post) (Zlen out) = Some (key, exts_read exts compact, tail, len) /\
    exts_deref (exts_read exts compact) = exts /\
    record_key (out' ++ post) (Zlen out) = Some key /\
    record_key_next base (out' ++ post) (Zlen out) = Some (key, Zlen out').
Proof.
  intros Hok Ha Hu. destruct (record_ok_len _ _ _ _ Hok) as (Hk & Hn & Hl).
  pose proof (Zlen_record _ _ _ _ _ Hl) as Hrl.
  exists (out ++ record_bytes key exts tail compact), (Zlen (record_bytes key exts tail compact)), (record_tail_at (Zlen key) exts compact).
  split; [by apply stream_record_bytes|]. split; [exact Hl|]. split; [apply Zlen_app|]. split; [done|].
  rewrite <- app_assoc. split.
  { rewrite rec_parts. pose proof (align4 (4 + Zlen key)). pose proof (Zlen_exts_part exts compact) as He.
    rewrite !(app_assoc _ _ (tail ++ _)). unfold record_tail_at, REC_ALIGN, EXT_BYTES.
    apply get_range_app; autorewrite with zlen; rewrite He; destruct (compact && compacts exts); lia. }
  split; [by apply parse_record_bytes|]. split; [apply exts_read_deref|].
  split; [by apply record_key_bytes|]. rewrite Zlen_app. by apply record_key_next_bytes.
Qed.

(** The extent of a tombstoned run of two values, inline. *)
Definition sample_ext : Ext := run_ext INLINE 0 [x01; x61; x02; x62; x63] 2 0 [[x61]; [x62; x63]] true.

Lemma sample_coherent : coherent sample_ext [x01; x61; x02; x62; x63].
Proof. exists [[x61]; [x62; x63]], 2, 0, true. repeat split. Qed.

Lemma record_roundtrip_witness :
  exists out', stream_record [x00; x00; x00; x00] [x6b] [sample_ext] [x01; x61; x02; x62; x63] = Some (out', 20) /\
    record_key_next 0 (out' ++ []) 4 = Some ([x6b], 24).
Proof.
  destruct (record_roundtrip [x00; x00; x00; x00] [x6b] [sample_ext] [x01; x61; x02; x62; x63] true [] 0)
    as (out' & len & tail_at & Hs & Hl & Hlen & _ & _ & _ & _ & _ & Hnext).
  - split; [|split].
    + constructor; [|constructor]. vm_compute. repeat split; discriminate.
    + vm_compute. by eexists.
    + exists sample_ext. split; [reflexivity|exact sample_coherent].
  - reflexivity.
  - vm_compute. reflexivity.
  - vm_compute in Hl. injection Hl as <-. exists out'. rewrite Hlen in Hnext.
    split; [|exact Hnext]. unfold stream_record, stream_record_as. rewrite Hs. reflexivity.
Defined.
