(* ===== verification/HashTable.v ===== *)
(** * The hash table of a section: how a key's slot is chosen and found

    [src/src/flatindex.rs]: the key hash, the table's capacity, the fill that
    places every key by linear probing (plain, and with the lookahead that
    asks for keys ahead of placing them), and the probe a lookup walks. A
    slot is eight bytes: a tag of the hash above a record offset, all zero
    where empty. *)

From S2P Require Import Prelude.

Definition SLOT : Z := 8.
Definition HASH_LOAD_NUM : Z := 3.
Definition HASH_LOAD_DEN : Z := 4.
Definition FILL_AHEAD : Z := 16.

(** FNV-1a's loop, 64 bits, with the source's multiplier: [0x1000000001b3],
    where the published prime is [0x100000001b3]. *)
Definition key_hash (key : bytes) : Z :=
  fold_left (fun h b => w64 (Z.lxor h (b2z b) * 0x1000000001b3)) key 0xcbf29ce484222325.

(** The doubling loop; sixty-four turns pass any [usize]. *)
Fixpoint hash_cap_go (fuel : nat) (cap want : Z) : option Z :=
  match fuel with
  | O => None
  | S fuel => if cap <? want then cap ← cmul cap 2; hash_cap_go fuel cap want else Some cap
  end.

Definition hash_cap_for (keys : Z) : option Z :=
  want ← cmul keys HASH_LOAD_DEN;
  cap ← hash_cap_go 65 1 (div_ceil want HASH_LOAD_NUM);
  Some (Z.max cap 16).

Definition slot_tag (h : Z) : Z := Z.land (Z.lor (Z.shiftr h 56) 1) 0xff.

(** [FlatIndex::slot_value]: what a slot holds for a key and its record. *)
Definition pack (h off : Z) : Z := Z.lor (Z.shiftl (slot_tag h) 56) off.
Definition slot_value (hash_of : bytes -> Z) (key : bytes) (rel : Z) : Z := pack (hash_of key) rel.

(** The probe loop of [place]: [None] where it would not end, or a slice
    would panic. It visits [mask + 1] slots before it repeats itself. *)
Fixpoint place_go (fuel : nat) (t : bytes) (mask packed s : Z) : option bytes :=
  match fuel with
  | O => None
  | S fuel =>
      let a := s * SLOT in
      w ← get_range t a (a + 8);
      if beqb w (zeros 8) then put_range t a (le64 packed)
      else place_go fuel t mask packed (Z.land (s + 1) mask)
  end.

Definition place (t : bytes) (mask h off : Z) : option bytes :=
  place_go (Z.to_nat (mask + 1)) t mask (pack h off) (Z.land h mask).

(** [fill_hash], over the closure [at_] that answers a key's hash and record
    offset and whose own state is [S]. *)
Section fill.
Context {S : Type} (at_ : S -> Z -> S * (Z * Z)).

Definition fill_plain (t : bytes) (mask n : Z) (st : S) : option (S * bytes) :=
  ofold (fun '(st, t) i =>
    let '(st, (h, off)) := at_ st i in
    t ← place t mask h off; Some (st, t)) (seqZ 0 n) (st, t).

Definition ring_set (ring : list (Z * Z)) (i : Z) (x : Z * Z) : list (Z * Z) := <[Z.to_nat i := x]> ring.

(** The ring filled with the first keys; the prefetches read nothing. *)
Definition ring_fill (n : Z) (st : S) : S * list (Z * Z) :=
  fold_left (fun '(st, ring) i => let '(st, x) := at_ st i in (st, ring_set ring i x))
    (seqZ 0 (Z.min n FILL_AHEAD)) (st, replicate (Z.to_nat FILL_AHEAD) (0, 0)).

Definition fill_ahead (t : bytes) (mask n : Z) (st : S) : option (S * bytes) :=
  let '(st, ring) := ring_fill n st in
  '(st, ring, t) ← ofold (fun '(st, ring, t) i =>
    '(h, off) ← ring !! Z.to_nat (i mod FILL_AHEAD);
    let '(st, ring) :=
      if i + FILL_AHEAD <? n
      then let '(st, next) := at_ st (i + FILL_AHEAD) in (st, ring_set ring (i mod FILL_AHEAD) next)
      else (st, ring) in
    t ← place t mask h off; Some (st, ring, t)) (seqZ 0 n) (st, ring, t);
  Some (st, t).

Definition fill_hash (t : bytes) (mask n : Z) (st : S) (lookahead : bool) : option (S * bytes) :=
  if lookahead then fill_ahead t mask n st else fill_plain t mask n st.
End fill.

(** The probe of a lookup, over what [test] answers for the record a slot
    with the right tag points at: the loop is bounded by the capacity. *)
Fixpoint probe_go {A} (fuel : nat) (hash : bytes) (mask tag s : Z) (test : Z -> Z -> option A) : option A :=
  match fuel with
  | O => None
  | S fuel =>
      packed ← rd_u64 hash (s * SLOT);
      if packed =? 0 then None
      else
        match (if Z.shiftr packed 56 =? tag then test s (Z.land packed 0x00ffffffffffffff) else None) with
        | Some r => Some r
        | None => probe_go fuel hash mask tag (Z.land (s + 1) mask) test
        end
  end.

Definition probe {A} (hash : bytes) (hash_cap h : Z) (test : Z -> Z -> option A) : option A :=
  probe_go (Z.to_nat hash_cap) hash (hash_cap - 1) (slot_tag h) (Z.land h (hash_cap - 1)) test.

(** Callers that answer alike fill alike. *)
Lemma fill_hash_ext {S : Type} (f g : S -> Z -> S * (Z * Z)) t mask n st look : (forall s i, 0 <= i < n -> f s i = g s i) ->
  fill_hash f t mask n st look = fill_hash g t mask n st look.
Proof.
  intros H. unfold fill_hash, fill_ahead, fill_plain. destruct look.
  - assert (ring_fill f n st = ring_fill g n st) as -> by (apply fold_left_ext; intros [s r] a Ha%elem_of_seqZ; rewrite H by lia; done).
    destruct (ring_fill g n st) as [st' ring]. rewrite (ofold_ext _ (fun '(st, ring, t) i =>
      '(h, off) ← ring !! Z.to_nat (i mod FILL_AHEAD);
      let '(st, ring) := if i + FILL_AHEAD <? n then let '(st, next) := g st (i + FILL_AHEAD) in (st, ring_set ring (i mod FILL_AHEAD) next) else (st, ring) in
      t ← place t mask h off; Some (st, ring, t))); [done|].
    intros [[s r] u] i Hi%elem_of_seqZ. destruct (r !! _) as [[h off]|]; [|done]. cbn [option_bind mbind].
    destruct (Z.ltb_spec (i + FILL_AHEAD) n); [|done]. rewrite H by (unfold FILL_AHEAD in *; lia). done.
  - apply ofold_ext. intros [s u] i Hi%elem_of_seqZ. rewrite H by lia. done.
Qed.

(** ** The capacity *)

Lemma hash_cap_go_spec fuel cap want k : 0 <= k -> cap = 2 ^ k -> (64 - k < Z.of_nat fuel) -> want <= 2 ^ 63 -> k <= 63 ->
  exists j, hash_cap_go fuel cap want = Some (2 ^ j) /\ k <= j /\ want <= 2 ^ j /\ (j = k \/ 2 ^ (j - 1) < want).
Proof.
  revert cap k. induction fuel as [|fuel IH]; intros cap k Hk -> Hf Hw Hk63; [lia|]. cbn [hash_cap_go].
  destruct (Z.ltb_spec (2 ^ k) want).
  - assert (k < 63) by (apply (Z.pow_lt_mono_r_iff 2); lia).
    assert (2 ^ k * 2 = 2 ^ (k + 1)) as E by (rewrite Z.pow_add_r by lia; lia).
    assert (2 ^ (k + 1) <= 2 ^ 63) by (apply Z.pow_le_mono_r; lia).
    rewrite (proj2 (cmul_Some _ _ _)) by (split; [exact (eq_sym E)|unfold U64; lia]). cbn [option_bind mbind].
    destruct (IH (2 ^ (k + 1)) (k + 1)) as (j & Hj & Hkj & Hwj & Hor); [lia|done|lia|done|lia|].
    exists j. split; [done|]. split; [lia|]. split; [done|]. right. destruct Hor as [->|?]; [|done].
    by replace (k + 1 - 1) with k by lia.
  - exists k. split; [done|]. split; [lia|]. split; [done|]. by left.
Qed.

(** A power of two, never more than three quarters full, never more than
    twice what that asks for (or sixteen). *)
Lemma hash_cap_for_spec keys : 0 <= keys < 2 ^ 60 ->
  exists k, 4 <= k <= 62 /\ hash_cap_for keys = Some (2 ^ k) /\ 4 * keys <= 3 * 2 ^ k /\
    (k = 4 \/ 3 * 2 ^ (k - 1) < 4 * keys).
Proof.
  intros Hk. unfold hash_cap_for, HASH_LOAD_DEN, HASH_LOAD_NUM.
  rewrite (proj2 (cmul_Some _ _ _)) by (split; [reflexivity|unfold U64; lia]). cbn [option_bind mbind].
  pose proof (div_ceil_spec (keys * 4) 3 ltac:(lia) ltac:(lia)) as [H1 H2]. set (want := div_ceil (keys * 4) 3) in *.
  destruct (hash_cap_go_spec 65 1 want 0) as (j & -> & Hj & Hw & Hor); [lia|done|lia|lia|lia|]. cbn [option_bind mbind].
  destruct (Z.lt_ge_cases j 4).
  - exists 4. assert (2 ^ j <= 2 ^ 3) by (apply Z.pow_le_mono_r; lia). rewrite Z.max_r by lia.
    split; [lia|]. split; [done|]. split; [|by left]. change (2 ^ 4) with 16. lia.
  - exists j. assert (2 ^ 4 <= 2 ^ j) by (apply Z.pow_le_mono_r; lia). rewrite Z.max_l by lia.
    assert (2 ^ (j - 1) < want) as Hlt by (destruct Hor as [->|?]; [lia|done]).
    split; [split; [lia|]|].
    { apply Z.nlt_ge. intros Hc. assert (2 ^ 62 <= 2 ^ (j - 1)) by (apply Z.pow_le_mono_r; lia). lia. }
    split; [done|]. split; [lia|]. right. lia.
Qed.

(** ** The table as its slots *)

Definition table (slots : list Z) : bytes := concat (map le64 slots).
Definition slots_ok (slots : list Z) : Prop := Forall (fun v => 0 <= v < U64) slots.

Lemma Forall_le64 slots : Forall (fun v => Zlen v = 8) (map le64 slots).
Proof. apply Forall_forall. intros x (y & -> & _)%list_elem_of_fmap. apply Zlen_le64. Qed.

Lemma Zlen_table slots : Zlen (table slots) = 8 * Zlen slots.
Proof. unfold table. by rewrite (Zlen_concat 8 _ (Forall_le64 slots)), Zlen_map. Qed.

Lemma table_get slots s v : get_at slots s = Some v -> get_range (table slots) (s * 8) (s * 8 + 8) = Some (le64 v).
Proof.
  intros H. pose proof (get_range_table 8 [] [] (map le64 slots) s (le64 v) (s * 8) (Forall_le64 slots)) as Hg.
  cbn [app] in Hg. rewrite app_nil_r in Hg. apply Hg; [by rewrite get_at_map, H|znil; lia].
Qed.

Lemma table_rd slots s v : slots_ok slots -> get_at slots s = Some v -> rd_u64 (table slots) (s * SLOT) = Some v.
Proof.
  intros Hok H. unfold rd_u64, SLOT. rewrite (table_get _ _ _ H). cbn. f_equal. apply le_val_le64.
  apply get_at_Some in H as [_ H]. unfold slots_ok in Hok. rewrite Forall_lookup in Hok. by eapply Hok.
Qed.

Lemma le64_zero v : 0 <= v < U64 -> beqb (le64 v) (zeros 8) = (v =? 0).
Proof.
  intros Hv. destruct (Z.eqb_spec v 0) as [->|Hne]; [done|].
  destruct (beqb_spec (le64 v) (zeros 8)) as [E|]; [|done]. apply (f_equal le_val) in E.
  rewrite le_val_le64 in E by done. by change (le_val (zeros 8)) with 0 in E.
Qed.

Lemma table_put slots s v p : get_at slots s = Some v -> put_range (table slots) (s * 8) (le64 p) = Some (table (<[Z.to_nat s := p]> slots)).
Proof.
  intros H. pose proof (proj1 (get_at_Some _ _ _) H) as [Hs Hl]. pose proof (take_drop_middle _ _ _ Hl) as Hm.
  unfold table. rewrite <- Hm at 1. rewrite map_app. cbn [map]. rewrite concat_app. cbn [concat].
  assert (Zlen (concat (map le64 (take (Z.to_nat s) slots))) = s * 8) as Hlen.
  { pose proof (Zlen_table (take (Z.to_nat s) slots)) as Ht. unfold table in Ht. rewrite Ht, Zlen_take.
    pose proof (get_at_lt _ _ _ H). lia. }
  rewrite put_range_app by (rewrite ?Zlen_le64; lia). f_equal.
  rewrite insert_take_drop by (by eapply lookup_lt_Some). rewrite map_app. cbn [map]. by rewrite concat_app.
Qed.

(** ** Probing a table of a power of two *)

Section probing.
Context (k : Z) (Hk : 0 <= k < 63).
Let cap := 2 ^ k.

Lemma cap_pos : 0 < cap. Proof. apply Z.pow_pos_nonneg; lia. Qed.

Lemma land_mask x : Z.land x (cap - 1) = x mod cap.
Proof. apply land_ones_mod. lia. Qed.

(** The slot [d] steps past home. *)
Definition nth_slot (h d : Z) : Z := (h + d) mod 2 ^ k.

Lemma nth_slot_range h d : 0 <= nth_slot h d < cap.
Proof. apply Z.mod_pos_bound, cap_pos. Qed.

Lemma nth_slot_next h d : Z.land (nth_slot h d + 1) (cap - 1) = nth_slot h (d + 1).
Proof.
  rewrite land_mask. unfold nth_slot. fold cap. pose proof cap_pos. rewrite Z.add_mod_idemp_l by lia. f_equal. lia.
Qed.

Lemma nth_slot_0 h : Z.land h (cap - 1) = nth_slot h 0.
Proof. rewrite land_mask. unfold nth_slot. by rewrite Z.add_0_r. Qed.

Context (slots : list Z) (Hlen : Zlen slots = cap) (Hok : slots_ok slots).

Lemma slot_is h d : exists v, get_at slots (nth_slot h d) = Some v /\ 0 <= v < U64.
Proof.
  destruct (get_at_is_Some slots (nth_slot h d)) as [v Hv]; [rewrite Hlen; apply nth_slot_range|].
  exists v. split; [done|]. apply get_at_Some in Hv as [_ Hv]. unfold slots_ok in Hok. rewrite Forall_lookup in Hok. by eapply Hok.
Qed.

(** The insert probe stops at the first empty slot. *)
Lemma place_go_first fuel h d e packed : 0 <= d <= e -> e - d < Z.of_nat fuel ->
  get_at slots (nth_slot h e) = Some 0 ->
  exists e', d <= e' <= e /\ get_at slots (nth_slot h e') = Some 0 /\
    (forall d', d <= d' < e' -> get_at slots (nth_slot h d') <> Some 0) /\
    place_go fuel (table slots) (cap - 1) packed (nth_slot h d) =
      Some (table (<[Z.to_nat (nth_slot h e') := packed]> slots)).
Proof.
  revert d. induction fuel as [|fuel IH]; intros d Hd Hf He; [lia|]. cbn [place_go].
  destruct (slot_is h d) as (v & Hv & Hvr). unfold SLOT. rewrite (table_get _ _ _ Hv). cbn [option_bind mbind].
  rewrite le64_zero by done. destruct (Z.eqb_spec v 0) as [->|Hne].
  - exists d. split; [lia|]. split; [done|]. split; [intros; lia|]. by rewrite (table_put _ _ _ _ Hv).
  - assert (d <> e) by congruence. rewrite nth_slot_next.
    destruct (IH (d + 1)) as (e' & H1 & H2 & H3 & H4); [lia|lia|done|].
    exists e'. split; [lia|]. split; [done|]. split; [|done]. intros d' Hd'.
    destruct (decide (d' = d)) as [->|]; [congruence|]. apply H3. lia.
Qed.

(** The lookup probe: up to the first slot where [test] answers, it passes
    slots that are occupied and answer nothing. *)
Lemma probe_go_found {A} fuel h tag (test : Z -> Z -> option A) d e r v : 0 <= d <= e -> e - d < Z.of_nat fuel ->
  (forall d', d <= d' < e -> forall w, get_at slots (nth_slot h d') = Some w -> w <> 0 /\
     (Z.shiftr w 56 = tag -> test (nth_slot h d') (Z.land w 0x00ffffffffffffff) = None)) ->
  get_at slots (nth_slot h e) = Some v -> v <> 0 -> Z.shiftr v 56 = tag ->
  test (nth_slot h e) (Z.land v 0x00ffffffffffffff) = Some r ->
  probe_go fuel (table slots) (cap - 1) tag (nth_slot h d) test = Some r.
Proof.
  revert d. induction fuel as [|fuel IH]; intros d Hd Hf Hbefore Hv Hne Htag Htest; [lia|]. cbn [probe_go].
  destruct (slot_is h d) as (w & Hw & Hwr). rewrite (table_rd _ _ _ Hok Hw). cbn [option_bind mbind].
  destruct (decide (d = e)) as [->|Hlt].
  - rewrite Hv in Hw. injection Hw as <-. rewrite (proj2 (Z.eqb_neq _ _)) by done. by rewrite Htag, Z.eqb_refl, Htest.
  - destruct (Hbefore d ltac:(lia) w Hw) as [Hw0 Hwt]. rewrite (proj2 (Z.eqb_neq _ _)) by done.
    rewrite nth_slot_next.
    assert ((if Z.shiftr w 56 =? tag then test (nth_slot h d) (Z.land w 0x00ffffffffffffff) else None) = None) as ->.
    { destruct (Z.eqb_spec (Z.shiftr w 56) tag); auto. }
    apply IH; try done; try lia. intros d' Hd'. apply Hbefore. lia.
Qed.

Lemma probe_go_none {A} fuel h tag (test : Z -> Z -> option A) d :
  (forall s w, get_at slots s = Some w -> w <> 0 -> Z.shiftr w 56 = tag -> test s (Z.land w 0x00ffffffffffffff) = None) ->
  probe_go fuel (table slots) (cap - 1) tag (nth_slot h d) test = None.
Proof.
  intros Ht. revert d. induction fuel as [|fuel IH]; intros d; [done|]. cbn [probe_go].
  destruct (slot_is h d) as (w & Hw & Hwr). rewrite (table_rd _ _ _ Hok Hw). cbn [option_bind mbind].
  destruct (Z.eqb_spec w 0); [done|].
  assert ((if Z.shiftr w 56 =? tag then test (nth_slot h d) (Z.land w 0x00ffffffffffffff) else None) = None) as ->.
  { destruct (Z.eqb_spec (Z.shiftr w 56) tag); auto. }
  rewrite nth_slot_next. apply IH.
Qed.
End probing.

(** ** What a slot holds *)

Lemma slot_tag_range h : 1 <= slot_tag h < 256.
Proof.
  unfold slot_tag. change 0xff with (2 ^ 8 - 1). rewrite land_ones_mod by lia. change (2 ^ 8) with 256.
  pose proof (Z.mod_pos_bound (Z.lor (Z.shiftr h 56) 1) 256 ltac:(lia)).
  enough (Z.lor (Z.shiftr h 56) 1 mod 256 <> 0) by lia. intros E.
  assert (Z.testbit (Z.lor (Z.shiftr h 56) 1 mod 256) 0 = false) as Hb by (rewrite E; apply Z.bits_0).
  change 256 with (2 ^ 8) in Hb. rewrite Z.mod_pow2_bits_low, Z.lor_spec in Hb by lia. by rewrite orb_true_r in Hb.
Qed.

Lemma pack_spec h off : 0 <= off < U32 -> 0 <= pack h off < U64 /\ pack h off <> 0 /\
  Z.shiftr (pack h off) 56 = slot_tag h /\ Z.land (pack h off) 0x00ffffffffffffff = off.
Proof.
  intros Ho. pose proof (slot_tag_range h) as Ht. unfold pack.
  rewrite Z.lor_comm, lor_disjoint_add by (unfold U32 in *; lia).
  assert (0 <= off < 2 ^ 56) by (unfold U32 in *; lia).
  split; [unfold U64; lia|]. split; [lia|]. split.
  - rewrite Z.shiftr_div_pow2, Z.div_add, Z.div_small by lia. lia.
  - change 0x00ffffffffffffff with (2 ^ 56 - 1). rewrite land_ones_mod, Z.mod_add, Z.mod_small by lia. done.
Qed.

(** ** Filling: every key lands where a probe for it looks *)

(** The table after placing [ks]: what every slot holds is one of them, and
    each is reached from its home without passing an empty slot. *)
Record filled (k : Z) (slots : list Z) (ks : list (Z * Z)) : Prop := {
  f_len : Zlen slots = 2 ^ k;
  f_ok : slots_ok slots;
  f_from : forall s v, get_at slots s = Some v -> v <> 0 -> exists h off, (h, off) ∈ ks /\ v = pack h off;
  f_reach : forall h off, (h, off) ∈ ks -> exists d, 0 <= d < 2 ^ k /\ get_at slots (nth_slot k h d) = Some (pack h off) /\
    forall d', 0 <= d' < d -> get_at slots (nth_slot k h d') <> Some 0;
  f_count : Zlen (List.filter (fun v => negb (v =? 0)) slots) = Zlen ks
}.

Lemma filter_lt_exists slots n : Zlen (List.filter (fun v => negb (v =? 0)) slots) < n -> n = Zlen slots ->
  exists s, get_at slots s = Some 0.
Proof.
  intros H ->. induction slots as [|v slots IH]; [cbn in H; lia|]. cbn [List.filter] in H.
  destruct (Z.eqb_spec v 0) as [->|]; [exists 0; by apply get_at_here|]. cbn [negb] in H. rewrite !(Zlen_cons v) in H.
  destruct IH as [s Hs]; [lia|]. exists (s + 1). apply get_at_Some in Hs as [Hs1 Hs2]. apply get_at_Some. split; [lia|].
  replace (Z.to_nat (s + 1)) with (S (Z.to_nat s)) by lia. done.
Qed.

Lemma filter_insert_count slots s p : get_at slots s = Some 0 -> p <> 0 ->
  Zlen (List.filter (fun v => negb (v =? 0)) (<[Z.to_nat s := p]> slots)) =
  Zlen (List.filter (fun v => negb (v =? 0)) slots) + 1.
Proof.
  intros H Hp. apply get_at_Some in H as [Hs Hl]. pose proof (take_drop_middle _ _ _ Hl) as Hm.
  rewrite <- Hm at 2. rewrite insert_take_drop by (by eapply lookup_lt_Some).
  rewrite !List.filter_app, !Zlen_app. cbn [List.filter]. rewrite (proj2 (Z.eqb_neq p 0)) by done. cbn [negb Z.eqb].
  rewrite (Zlen_cons p). lia.
Qed.

Lemma get_at_insert (slots : list Z) (s p j : Z) : 0 <= s < Zlen slots ->
  get_at (<[Z.to_nat s := p]> slots) j = if decide (j = s) then Some p else get_at slots j.
Proof.
  intros Hs. unfold get_at. unfold Zlen in *. rewrite length_insert.
  case_decide as Hj.
  - subst j. rewrite (proj2 (Z.leb_le _ _)), (proj2 (Z.ltb_lt _ _)) by lia. cbn [andb]. apply list_lookup_insert_eq. lia.
  - destruct (Z.leb_spec 0 j), (Z.ltb_spec j (Z.of_nat (length slots))); cbn [andb]; try done.
    rewrite list_lookup_insert_ne by lia. done.
Qed.

Lemma place_filled k slots ks h off : 0 <= k < 63 -> filled k slots ks -> Zlen ks < 2 ^ k -> 0 <= off < U32 ->
  exists slots', place (table slots) (2 ^ k - 1) h off = Some (table slots') /\ filled k slots' (ks ++ [(h, off)]).
Proof.
  intros Hk [Hlen Hok Hfrom Hreach Hcount] Hn Ho. destruct (pack_spec h off Ho) as (Hp1 & Hp2 & Hp3 & Hp4).
  pose proof (cap_pos k Hk) as Hcap.
  destruct (filter_lt_exists slots (2 ^ k) ltac:(lia) (eq_sym Hlen)) as [s Hs]. pose proof (get_at_lt _ _ _ Hs) as Hsr.
  set (e := (s - h) mod 2 ^ k). pose proof (Z.mod_pos_bound (s - h) (2 ^ k) Hcap) as Her. fold e in Her.
  assert (nth_slot k h e = s) as Hes.
  { unfold nth_slot, e. rewrite Z.add_mod_idemp_r by lia. replace (h + (s - h)) with s by lia. apply Z.mod_small. lia. }
  rewrite <- Hes in Hs.
  destruct (place_go_first k Hk slots Hlen Hok (Z.to_nat (2 ^ k - 1 + 1)) h 0 e (pack h off)) as (e' & He' & Hz & Hb & Hp);
    [lia|lia|done|].
  set (s' := nth_slot k h e') in *. pose proof (nth_slot_range k Hk h e') as Hs'r. fold s' in Hs'r.
  exists (<[Z.to_nat s' := pack h off]> slots). split.
  { unfold place. rewrite (nth_slot_0 k Hk). exact Hp. }
  assert (forall j, get_at (<[Z.to_nat s' := pack h off]> slots) j = if decide (j = s') then Some (pack h off) else get_at slots j) as Hget
    by (intros j; apply get_at_insert; lia).
  split.
  - unfold Zlen in *. by rewrite length_insert.
  - apply Forall_insert; done.
  - intros j v Hj Hv. rewrite Hget in Hj. case_decide.
    + injection Hj as <-. exists h, off. split; [|done]. apply elem_of_app. right. by apply list_elem_of_singleton.
    + destruct (Hfrom j v Hj Hv) as (h' & o' & Hin & ->). exists h', o'. split; [|done]. apply elem_of_app. by left.
  - intros h' o' [Hin|Hin%list_elem_of_singleton]%elem_of_app.
    + destruct (Hreach h' o' Hin) as (d & Hd & Hg & Hbef). exists d. split; [done|]. rewrite Hget. split.
      * case_decide as Hx; [|done]. rewrite Hx, Hz in Hg. injection Hg as Hg.
        exfalso. assert (pack h' o' <> 0); [|congruence]. 
        unfold pack. intros E. apply Z.lor_eq_0_iff in E as [E _]. apply Z.shiftl_eq_0_iff in E; [|lia].
        pose proof (slot_tag_range h'). lia.
      * intros d' Hd'. rewrite Hget. case_decide; [congruence|]. by apply Hbef.
    + injection Hin as -> ->. exists e'. split; [lia|]. rewrite Hget. split; [by rewrite decide_True|].
      intros d' Hd'. rewrite Hget. case_decide; [congruence|]. apply Hb. lia.
  - rewrite (filter_insert_count _ _ _ Hz Hp2), Hcount, Zlen_app. done.
Qed.

Definition place_all (t : bytes) (mask : Z) (ks : list (Z * Z)) : option bytes :=
  ofold (fun t '(h, off) => place t mask h off) ks t.

Lemma place_all_filled k ks slots done : 0 <= k < 63 -> filled k slots done -> Zlen done + Zlen ks <= 2 ^ k ->
  Forall (fun '(h, off) => 0 <= off < U32) ks ->
  exists slots', place_all (table slots) (2 ^ k - 1) ks = Some (table slots') /\ filled k slots' (done ++ ks).
Proof.
  intros Hk Hf Hn Hr. revert slots done Hf Hn. induction Hr as [|[h off] ks Ho _ IH]; intros slots done Hf Hn.
  - exists slots. by rewrite app_nil_r.
  - rewrite (Zlen_cons (h, off)) in Hn. pose proof (Zlen_nonneg ks).
    destruct (place_filled k slots done h off Hk Hf ltac:(lia) Ho) as (s1 & Hp & Hf1).
    destruct (IH s1 (done ++ [(h, off)]) Hf1) as (s2 & Hp2 & Hf2); [rewrite Zlen_app; change (Zlen [(h, off)]) with 1; lia|].
    exists s2. split; [unfold place_all; cbn [ofold]; by rewrite Hp|]. by rewrite <- app_assoc in Hf2.
Qed.

Lemma zeros_table n : 0 <= n -> zeros (n * SLOT) = table (replicate (Z.to_nat n) 0).
Proof.
  intros Hn. unfold SLOT. rewrite <- (Z2Nat.id n) at 1 by done. generalize (Z.to_nat n). clear. intros n.
  induction n as [|n IH]; [done|]. rewrite Nat2Z.inj_succ. replace (Z.succ (Z.of_nat n) * 8) with (8 + Z.of_nat n * 8) by lia.
  rewrite zeros_add, IH by lia. done.
Qed.

Lemma filled_empty k : 0 <= k -> filled k (replicate (Z.to_nat (2 ^ k)) 0) [].
Proof.
  intros Hk. pose proof (Z.pow_nonneg 2 k ltac:(lia)). split.
  - rewrite Zlen_replicate. lia.
  - apply Forall_replicate. unfold U64. lia.
  - intros s v [_ Hs]%get_at_Some. apply lookup_replicate in Hs as [-> _]. done.
  - intros h off Hin. by apply not_elem_of_nil in Hin.
  - generalize (Z.to_nat (2 ^ k)). intros n. induction n as [|n IH]; done.
Qed.

(** ** The two fills are one *)

Section fills.
Context {S : Type} (at_ : S -> Z -> S * (Z * Z)).

(** The closure asked for each of [ixs] in turn. *)
Fixpoint asks (st : S) (ixs : list Z) : S * list (Z * Z) :=
  match ixs with
  | [] => (st, [])
  | i :: ixs => let '(st, x) := at_ st i in let '(st, xs) := asks st ixs in (st, x :: xs)
  end.

Lemma asks_app st a b : asks st (a ++ b) =
  let '(s1, x) := asks st a in let '(s2, y) := asks s1 b in (s2, x ++ y).
Proof.
  revert st. induction a as [|i a IH]; intros st; cbn [asks app]; [by destruct (asks st b)|].
  destruct (at_ st i) as [s1 x]. rewrite IH. destruct (asks s1 a) as [s2 xs]. by destruct (asks s2 b).
Qed.

Lemma asks_len st ixs : length (snd (asks st ixs)) = length ixs.
Proof.
  revert st. induction ixs as [|i ixs IH]; intros st; [done|]. cbn [asks]. destruct (at_ st i) as [s1 x].
  specialize (IH s1). destruct (asks s1 ixs). cbn in *. by rewrite IH.
Qed.

Lemma fill_plain_asks t mask n st : fill_plain at_ t mask n st =
  let '(st', ks) := asks st (seqZ 0 n) in t' ← place_all t mask ks; Some (st', t').
Proof.
  unfold fill_plain, place_all. generalize (seqZ 0 n). intros ixs. revert t st.
  induction ixs as [|i ixs IH]; intros t st; [done|]. cbn [ofold asks].
  destruct (at_ st i) as [s1 [h off]]. destruct (asks s1 ixs) as [s2 ks] eqn:E. cbn [ofold].
  destruct (place t mask h off) as [t1|]; [|done]. cbn [option_bind mbind]. rewrite IH, E. done.
Qed.

(** State and answers of the keys asked in order. *)
Context (st0 : S) (n : Z) (Hn : 0 <= n).
Let sta (j : Z) : S := fst (asks st0 (seqZ 0 j)).
Let ks : list (Z * Z) := snd (asks st0 (seqZ 0 n)).

Lemma ask_next j : 0 <= j < n -> exists x, at_ (sta j) j = (sta (j + 1), x) /\ ks !! Z.to_nat j = Some x.
Proof.
  intros Hj. unfold sta. rewrite (seqZ_app 0 j 1) by lia. rewrite asks_app. change (seqZ (0 + j) 1) with [0 + j].
  rewrite Z.add_0_l. destruct (asks st0 (seqZ 0 j)) as [s1 xs] eqn:E1. cbn [fst asks].
  destruct (at_ s1 j) as [s2 x] eqn:E2. exists x. split; [done|]. unfold ks.
  replace n with (j + (1 + (n - j - 1))) by lia. rewrite (seqZ_app 0 j), (seqZ_app _ 1) by lia.
  rewrite asks_app, E1. change (seqZ (0 + j) 1) with [0 + j]. rewrite Z.add_0_l. cbn [app asks]. rewrite E2.
  destruct (asks s2 _) as [s3 rest]. cbn [snd].
  assert (length xs = Z.to_nat j) as Hl by (pose proof (asks_len st0 (seqZ 0 j)) as H; rewrite E1, length_seqZ in H; done).
  rewrite lookup_app_r by lia. by rewrite Hl, Nat.sub_diag.
Qed.

(** The ring at turn [i]: the answers for the keys from [i] to the
    lookahead, each at its index modulo sixteen. *)
Definition ring_ok (ring : list (Z * Z)) (i : Z) : Prop :=
  length ring = 16%nat /\
  forall j x, i <= j < Z.min (i + 16) n -> ks !! Z.to_nat j = Some x -> ring !! Z.to_nat (j mod 16) = Some x.

Lemma ring_fill_ok : exists ring, ring_fill at_ n st0 = (sta (Z.min n 16), ring) /\ ring_ok ring 0.
Proof.
  unfold ring_fill, FILL_AHEAD.
  enough (forall m, 0 <= m <= Z.min n 16 -> exists ring,
    fold_left (fun '(st, ring) i => let '(st, x) := at_ st i in (st, ring_set ring i x)) (seqZ 0 m)
      (st0, replicate (Z.to_nat 16) (0, 0)) = (sta m, ring) /\ length ring = 16%nat /\
    forall j x, 0 <= j < m -> ks !! Z.to_nat j = Some x -> ring !! Z.to_nat j = Some x) as H.
  { destruct (H (Z.min n 16) ltac:(lia)) as (ring & H1 & H2 & H3). exists ring. split; [done|]. split; [done|].
    intros j x Hj Hx. rewrite Z.mod_small by lia. apply H3; [lia|done]. }
  intros m [Hm Hm2]. revert Hm2. apply (natlike_ind (fun m => m <= Z.min n 16 -> exists ring,
    fold_left (fun '(st, ring) i => let '(st, x) := at_ st i in (st, ring_set ring i x)) (seqZ 0 m)
      (st0, replicate (Z.to_nat 16) (0, 0)) = (sta m, ring) /\ length ring = 16%nat /\
    forall j x, 0 <= j < m -> ks !! Z.to_nat j = Some x -> ring !! Z.to_nat j = Some x)); [| |done].
  - intros _. exists (replicate (Z.to_nat 16) (0, 0)). split; [done|]. split; [done|]. intros; lia.
  - clear m Hm. intros m Hm IH Hle. destruct IH as (ring & H1 & H2 & H3); [lia|].
    destruct (ask_next m ltac:(lia)) as (y & Hy & Hky).
    exists (ring_set ring m y). replace (Z.succ m) with (m + 1) by lia.
    rewrite (seqZ_app 0 m 1) by lia. change (seqZ (0 + m) 1) with [0 + m]. rewrite Z.add_0_l, fold_left_app, H1.
    cbn [fold_left]. rewrite Hy. split; [done|]. unfold ring_set. rewrite length_insert. split; [done|].
    intros j x Hj Hx. destruct (decide (j = m)) as [->|].
    + rewrite list_lookup_insert_eq by lia. congruence.
    + rewrite list_lookup_insert_ne by lia. apply H3; [lia|done].
Qed.

Lemma ahead_loop mask m i t ring : 0 <= i -> i + Z.of_nat m = n -> ring_ok ring i ->
  (fun '(st, ring, t) => (st, t)) <$>
    ofold (fun '(st, ring, t) i =>
      '(h, off) ← ring !! Z.to_nat (i mod FILL_AHEAD);
      let '(st, ring) :=
        if i + FILL_AHEAD <? n
        then let '(st, next) := at_ st (i + FILL_AHEAD) in (st, ring_set ring (i mod FILL_AHEAD) next)
        else (st, ring) in
      t ← place t mask h off; Some (st, ring, t)) (seqZ i (Z.of_nat m)) (sta (Z.min (i + 16) n), ring, t) =
  (t' ← place_all t mask (drop (Z.to_nat i) ks); Some (sta n, t')).
Proof.
  revert i t ring. induction m as [|m IH]; intros i t ring Hi Hm [Hrl Hring].
  - assert (length ks = Z.to_nat n) as Hkl by (unfold ks; by rewrite asks_len, length_seqZ).
    rewrite drop_ge by lia. cbn. by rewrite Z.min_r by lia.
  - rewrite seqZ_cons by lia. cbn [ofold].
    destruct (ask_next i ltac:(lia)) as (x & _ & Hx). unfold FILL_AHEAD in *.
    rewrite (Hring i x ltac:(lia) Hx). destruct x as [h off]. cbn [option_bind mbind].
    rewrite (drop_S _ _ _ Hx). unfold place_all. cbn [ofold].
    assert (exists ring', (if i + 16 <? n then let '(st, next) := at_ (sta (Z.min (i + 16) n)) (i + 16) in (st, ring_set ring (i mod 16) next)
             else (sta (Z.min (i + 16) n), ring)) = (sta (Z.min (i + 1 + 16) n), ring') /\ ring_ok ring' (i + 1)) as (ring' & -> & Hok).
    { destruct (Z.ltb_spec (i + 16) n) as [Hlt|].
      - rewrite !Z.min_l by lia. destruct (ask_next (i + 16) ltac:(lia)) as (y & Hy & Hky). rewrite Hy.
        eexists. split; [f_equal; f_equal; lia|]. unfold ring_ok, ring_set. rewrite length_insert. split; [done|].
        intros j z Hj Hz. pose proof (Z.mod_pos_bound i 16 ltac:(lia)). pose proof (Z.mod_pos_bound j 16 ltac:(lia)).
        destruct (decide (j = i + 16)) as [->|].
        + replace ((i + 16) mod 16) with (i mod 16) by (replace (i + 16) with (i + 1 * 16) by lia; by rewrite Z.mod_add).
          rewrite list_lookup_insert_eq by lia. congruence.
        + rewrite list_lookup_insert_ne; [apply Hring; [lia|done]|].
          intros E. assert (j mod 16 = i mod 16) as Em by lia.
          pose proof (Z.div_mod i 16 ltac:(lia)). pose proof (Z.div_mod j 16 ltac:(lia)). lia.
      - exists ring. split; [do 2 f_equal; lia|]. split; [done|]. intros j z Hj Hz. apply Hring; [lia|done]. }
    destruct (place t mask h off) as [t1|]; [|done]. cbn [option_bind mbind].
    replace (Z.pred (Z.of_nat (Datatypes.S m))) with (Z.of_nat m) by lia. change (Z.succ i) with (i + 1).
    rewrite IH; [|lia|lia|done]. replace (Z.to_nat (i + 1)) with (Datatypes.S (Z.to_nat i)) by lia. done.
Qed.

Lemma fill_ahead_plain t mask : fill_ahead at_ t mask n st0 = fill_plain at_ t mask n st0.
Proof.
  rewrite fill_plain_asks. unfold fill_ahead. destruct ring_fill_ok as (ring & -> & Hok).
  pose proof (ahead_loop mask (Z.to_nat n) 0 t ring ltac:(lia) ltac:(lia) Hok) as H.
  rewrite Z2Nat.id in H by done. rewrite Z.add_0_l, (Z.min_comm 16) in H. cbn [Z.to_nat drop] in H.
  unfold sta, ks in H. unfold sta.
  rewrite (surjective_pairing (asks st0 (seqZ 0 n))). cbv iota beta.
  change (Z.to_nat 0) with 0%nat in H. rewrite drop_0 in H. rewrite <- H. destruct (ofold _ _ _) as [[[s r] t']|]; done.
Qed.
End fills.

(** ** Looking up what was placed *)

Section lookup.
Context {A : Type} (k : Z) (Hk : 0 <= k < 63) (slots : list Z) (ks : list (Z * Z)) (Hf : filled k slots ks).
Context (Hoff : Forall (fun '(h, off) => 0 <= off < U32) ks).
(** What the record at an offset answers, wherever its slot. *)
Context (answer : Z -> option A).

Lemma off_range h off : (h, off) ∈ ks -> 0 <= off < U32.
Proof. intros H. rewrite Forall_forall in Hoff. by apply (Hoff (h, off)). Qed.

Lemma probe_found h off r : (h, off) ∈ ks -> answer off = Some r ->
  (forall h' off', (h', off') ∈ ks -> off' <> off -> answer off' = None) ->
  probe (table slots) (2 ^ k) h (fun _ => answer) = Some r.
Proof.
  intros Hin Hans Hother. pose proof (off_range _ _ Hin) as Ho. destruct (pack_spec h off Ho) as (Hp1 & Hp2 & Hp3 & Hp4).
  pose proof (cap_pos k Hk). destruct Hf as [Hlen Hok Hfrom Hreach _].
  destruct (Hreach h off Hin) as (d & Hd & Hg & Hb).
  (* the first slot on the walk that answers: at [d] or before it *)
  unfold probe. rewrite (nth_slot_0 k Hk).
  set (Found := fun m => exists e v, 0 <= e < m /\ get_at slots (nth_slot k h e) = Some v /\ v <> 0 /\ Z.shiftr v 56 = slot_tag h /\
      answer (Z.land v 0x00ffffffffffffff) = Some r /\
      forall d', 0 <= d' < e -> forall w, get_at slots (nth_slot k h d') = Some w -> Z.shiftr w 56 = slot_tag h -> answer (Z.land w 0x00ffffffffffffff) = None).
  set (Nothing := fun m => forall d', 0 <= d' < m -> forall w, get_at slots (nth_slot k h d') = Some w -> Z.shiftr w 56 = slot_tag h ->
      answer (Z.land w 0x00ffffffffffffff) = None).
  assert (forall m, 0 <= m -> m <= d -> Found m \/ Nothing m) as Hscan.
  { apply (natlike_ind (fun m => m <= d -> Found m \/ Nothing m)).
    - intros _. right. intros d' Hd'; lia.
    - intros m Hm0 IH Hle. destruct IH as [(e & v & He & Hrest)|Hnone]; [lia|left; exists e, v; split; [lia|done]|].
      destruct (slot_is k Hk slots Hlen Hok h m) as (w & Hw & Hwr).
      assert (w <> 0) as Hw0 by (intros ->; apply (Hb m); [lia|done]).
      destruct (Hfrom _ _ Hw Hw0) as (h' & off' & Hin' & ->).
      destruct (pack_spec h' off' (off_range _ _ Hin')) as (_ & _ & Ht' & Ho').
      destruct (decide (slot_tag h' = slot_tag h)) as [Htag|Htag]; [destruct (decide (off' = off)) as [->|Hne]|].
      + left. exists m, (pack h' off). split; [lia|]. split; [done|]. split; [done|]. split; [congruence|]. split; [congruence|].
        intros d' Hd'. by apply Hnone.
      + right. intros d' Hd' w' Hw' Hwt. destruct (decide (d' = m)) as [->|]; [|apply (Hnone d'); [lia|done|done]].
        rewrite Hw in Hw'. injection Hw' as <-. rewrite Ho'. by eapply Hother.
      + right. intros d' Hd' w' Hw' Hwt. destruct (decide (d' = m)) as [->|]; [|apply (Hnone d'); [lia|done|done]].
        rewrite Hw in Hw'. injection Hw' as <-. congruence. }
  assert (forall d', 0 <= d' < d -> forall w, get_at slots (nth_slot k h d') = Some w -> w <> 0) as Hnz.
  { intros d' Hd' w Hw ->. by apply (Hb d'). }
  destruct (Hscan d ltac:(lia) ltac:(lia)) as [(e & v & He & Hv & Hv0 & Hvt & Hva & Hbef)|Hnone].
  - apply (probe_go_found k Hk slots Hlen Hok _ h (slot_tag h) (fun _ => answer) 0 e r v); try done; [lia|lia|].
    intros d' Hd' w Hw. split; [apply (Hnz d'); [lia|done]|]. by apply (Hbef d').
  - apply (probe_go_found k Hk slots Hlen Hok _ h (slot_tag h) (fun _ => answer) 0 d r (pack h off)); try done; [lia|lia| |congruence].
    intros d' Hd' w Hw. split; [apply (Hnz d'); [lia|done]|]. by apply (Hnone d').
Qed.

Lemma probe_absent h : (forall h' off', (h', off') ∈ ks -> answer off' = None) ->
  probe (table slots) (2 ^ k) h (fun _ => answer) = None.
Proof.
  intros Hno. destruct Hf as [Hlen Hok Hfrom _ _]. unfold probe. rewrite (nth_slot_0 k Hk).
  apply (probe_go_none k Hk slots Hlen Hok). intros s w Hw Hw0 _.
  destruct (Hfrom _ _ Hw Hw0) as (h' & off' & Hin & ->).
  destruct (pack_spec h' off' (off_range _ _ Hin)) as (_ & _ & _ & ->). by eapply Hno.
Qed.
End lookup.

Lemma fill_hash_filled {S} (at_ : S -> Z -> S * (Z * Z)) st0 n lookahead cap : 0 <= n < 2 ^ 60 -> hash_cap_for n = Some cap ->
  Forall (fun '(h, off) => 0 <= off < U32) (snd (asks at_ st0 (seqZ 0 n))) ->
  exists k slots, 0 <= k < 63 /\ cap = 2 ^ k /\
    fill_hash at_ (zeros (cap * SLOT)) (cap - 1) n st0 lookahead = Some (fst (asks at_ st0 (seqZ 0 n)), table slots) /\
    filled k slots (snd (asks at_ st0 (seqZ 0 n))).
Proof.
  intros Hn Hcap Hoff. destruct (hash_cap_for_spec n Hn) as (k & Hk & Hk2 & Hload & _). rewrite Hk2 in Hcap. injection Hcap as <-.
  pose proof (Z.pow_pos_nonneg 2 k ltac:(lia) ltac:(lia)).
  destruct (place_all_filled k (snd (asks at_ st0 (seqZ 0 n))) (replicate (Z.to_nat (2 ^ k)) 0) []) as (slots & Hp & Hf);
    [lia|apply filled_empty; lia| |done|].
  { znil. unfold Zlen. rewrite asks_len, length_seqZ. lia. }
  exists k, slots. split; [lia|]. split; [done|]. split; [|done].
  assert (fill_hash at_ (zeros (2 ^ k * SLOT)) (2 ^ k - 1) n st0 lookahead = fill_plain at_ (zeros (2 ^ k * SLOT)) (2 ^ k - 1) n st0) as ->.
  { destruct lookahead; [|done]. apply fill_ahead_plain. lia. }
  rewrite fill_plain_asks, zeros_table by lia. rewrite (surjective_pairing (asks at_ st0 (seqZ 0 n))). cbv iota beta.
  rewrite Hp. done.
Qed.

(** The fill that looks ahead and the plain fill write the same bytes,
    ask the closure for the same keys, each once and in order, and leave its
    state the same, for any closure, any table and any number of keys. *)
Theorem fill_lookahead_plain {S} (at_ : S -> Z -> S * (Z * Z)) t mask n st :
  fill_hash at_ t mask n st true = fill_hash at_ t mask n st false /\
  fill_hash at_ t mask n st false =
    (t' ← place_all t mask (snd (asks at_ st (seqZ 0 n))); Some (fst (asks at_ st (seqZ 0 n)), t')).
Proof.
  split; cbn [fill_hash].
  - destruct (Z.lt_ge_cases n 0); [|by apply fill_ahead_plain].
    unfold fill_ahead, fill_plain, ring_fill. rewrite !seqZ_nil by lia. done.
  - rewrite fill_plain_asks. by destruct (asks at_ st (seqZ 0 n)).
Qed.

(** C24: a table of the capacity the code chooses takes any keys, up to
    2{^60} of them, without the placing loop failing to end (it is never more
    than three quarters full), and then a probe for a key ends at its record
    and at no other, however hashes and tags collide; a probe for a key no
    record answers to finds nothing. [answer] is what comparing the record at
    an offset says. *)
Theorem hash_lookup_exact {S A} (at_ : S -> Z -> S * (Z * Z)) st0 n lookahead (answer : Z -> option A) h :
  0 <= n < 2 ^ 60 -> Forall (fun '(h, off) => 0 <= off < U32) (snd (asks at_ st0 (seqZ 0 n))) ->
  exists cap t, hash_cap_for n = Some cap /\ 4 * n <= 3 * cap /\
    fill_hash at_ (zeros (cap * SLOT)) (cap - 1) n st0 lookahead = Some (fst (asks at_ st0 (seqZ 0 n)), t) /\
    (forall off r, (h, off) ∈ snd (asks at_ st0 (seqZ 0 n)) -> answer off = Some r ->
       (forall h' off', (h', off') ∈ snd (asks at_ st0 (seqZ 0 n)) -> off' <> off -> answer off' = None) ->
       probe t cap h (fun _ => answer) = Some r) /\
    ((forall h' off', (h', off') ∈ snd (asks at_ st0 (seqZ 0 n)) -> answer off' = None) ->
       probe t cap h (fun _ => answer) = None).
Proof.
  intros Hn Hoff. destruct (hash_cap_for_spec n Hn) as (k0 & _ & Hc & Hload & _).
  destruct (fill_hash_filled at_ st0 n lookahead _ Hn Hc Hoff) as (k & slots & Hk & E & Hfill & Hf).
  exists (2 ^ k0), (table slots). split; [done|]. split; [lia|]. split; [done|]. rewrite E. split.
  - intros off r Hin Ha Hother. by eapply probe_found.
  - intros Hno. by eapply probe_absent.
Qed.

Lemma hash_lookup_exact_witness :
  exists cap t, hash_cap_for 3 = Some cap /\
    fill_hash (fun (st : unit) i => (st, (5, 100 * i))) (zeros (cap * SLOT)) (cap - 1) 3 tt true = Some (tt, t) /\
    probe t cap 5 (fun _ off => if off =? 200 then Some tt else None) = Some tt.
Proof.
  destruct (hash_lookup_exact (fun (st : unit) i => (st, (5, 100 * i))) tt 3 true (fun off => if off =? 200 then Some tt else None) 5)
    as (cap & t & Hc & _ & Hfill & Hfound & _).
  - lia.
  - repeat constructor; discriminate.
  - exists cap, t. split; [exact Hc|]. split; [exact Hfill|].
    apply (Hfound 200).
    + repeat constructor.
    + reflexivity.
    + intros h' off' _ Hne. destruct (Z.eqb_spec off' 200); [contradiction|reflexivity].
Defined.
