(* ===== verification/FlatIndex.v ===== *)
(** * The flat index: a key section read where it lies

    [src/src/flatindex.rs]: the regions a section is laid out in, the header
    and trailer a segment writer streams around the records
    ([stream_trailer]), the checksum row over the section's pieces, the
    parse that validates a section in place, the point lookup through the
    hash table, the rank directory, and the ordered seek that a fence of
    sampled keys narrows. Damaged input is part of the model: every offset
    comes out of the section and is checked.

    [base] is the address the section is mapped at. The fence's density is
    read from the environment by the source: it is the parameter [target]. *)

From S2P Require Import Prelude Varint Runs Crc Records HashTable.

Definition MAGIC : Z := 0x58494653.
Definition VERSION : Z := 3.
Definition HEADER : Z := 192.
Definition MAX_RECS : Z := U32 - 1.
Definition FENCE_MIN_STRIDE : Z := 16.
Definition PIECE_SHIFT : Z := 14.
Definition W_CRC_OFF : Z := 160.
Definition W_PIECE_SHIFT : Z := 168.

(** [usize::next_power_of_two], for a positive number. *)
Definition next_power_of_two (n : Z) : Z := 2 ^ Z.log2_up n.

Definition fence_stride (target n : Z) : Z := next_power_of_two (Z.max (div_ceil n target) FENCE_MIN_STRIDE).

(** ** The checksum row *)

Definition piece_count (len shift base : Z) : Z :=
  let piece := Z.shiftl 1 shift in div_ceil (base mod piece + len) piece.

Definition checksum_row_len (len shift base : Z) : Z := piece_count len shift base * 4.

(** The iterator's turns from [at_]: each advances, so the length bounds
    them. *)
Fixpoint pieces_go (fuel : nat) (piece first len at_ : Z) : list (Z * Z) :=
  match fuel with
  | O => []
  | S fuel =>
      if len <=? at_ then []
      else
        let fin := if at_ =? 0 then Z.min first len else Z.min (at_ + piece) len in
        (at_, fin) :: pieces_go fuel piece first len fin
  end.

Definition pieces (len shift base : Z) : list (Z * Z) :=
  let piece := Z.shiftl 1 shift in
  pieces_go (Z.to_nat len) piece (piece - base mod piece) len 0.

Fixpoint checksum_row_go (sec : bytes) (ps : list (Z * Z)) (out : bytes) : option bytes :=
  match ps with
  | [] => Some out
  | (a, b) :: ps => s ← get_range sec a b; checksum_row_go sec ps (out ++ le32 (crc32 s))
  end.

Definition checksum_row (sec : bytes) (shift base : Z) : option bytes :=
  checksum_row_go sec (pieces (Zlen sec) shift base) [].

Definition set_checksum_words (header : bytes) (len : Z) : option bytes :=
  h ← put_range header W_CRC_OFF (le64 len);
  put_range h W_PIECE_SHIFT (le64 PIECE_SHIFT).

Definition with_checksums (sec : bytes) (base : Z) : option bytes :=
  let len := Zlen sec in
  sec ← set_checksum_words sec len;
  row ← checksum_row sec PIECE_SHIFT base;
  Some (sec ++ row).

(** [Ok None] for a section without a row; [Err] for a damaged word. *)
Definition checksum_words (sec : bytes) : result (option (Z * Z)) :=
  let* crc_off := ok_or (rd_u64 sec W_CRC_OFF) "" in
  if crc_off =? 0 then Ok None
  else
    let* shift := ok_or (rd_u64 sec W_PIECE_SHIFT) "" in
    if negb ((10 <=? shift) && (shift <=? 24)) then Err "" else Ok (Some (crc_off, shift)).

Definition piece_crc (row : bytes) (i : Z) : option Z := rd_u32 row (i * 4).

(** The index of the first piece that does not verify; [inr None] is the
    source's [usize::MAX], [None] a slice out of range. *)
Fixpoint verify_go (sec row : bytes) (i : Z) (ps : list (Z * Z)) : option (unit + option Z) :=
  match ps with
  | [] => Some (inl tt)
  | (a, b) :: ps =>
      s ← get_range sec a b;
      match piece_crc row i with
      | None => Some (inr None)
      | Some c => if negb (crc32 s =? c) then Some (inr (Some i)) else verify_go sec row (i + 1) ps
      end
  end.

Definition verify_pieces (sec : bytes) (crc_off shift base : Z) : option (unit + option Z) :=
  let n := checksum_row_len crc_off shift base in
  match (fin ← cadd crc_off n; get_range sec crc_off fin) with
  | None => Some (inr None)
  | Some row => verify_go sec row 0 (pieces crc_off shift base)
  end.

(** ** Laying a section out *)

Record SectionLayout := mkLayout {
  sl_hash_cap : Z;
  sl_dir_cap : Z;
  sl_fence_offs_off : Z;
  sl_fence_blob_off : Z;
  sl_recs_off : Z;
  sl_recs_cap : Z;
  sl_total : Z
}.

Definition section_layout (keys rec_bytes fence_n fence_blob_len insert_slack : Z) (record_slack : bool)
    : option SectionLayout :=
  if MAX_RECS <? rec_bytes then None
  else
    cap ← hash_cap_for keys;
    let slack := if record_slack then rec_bytes * 1 / 2 else 0 in
    recs_cap ← cadd rec_bytes slack;
    if MAX_RECS <? recs_cap then None
    else
      dir_cap ← (if insert_slack =? 0 then Some 0 else cadd keys insert_slack);
      dir_bytes ← (if dir_cap =? 0 then Some (keys * 4) else cmul dir_cap 8);
      let fence_offs_off := HEADER + cap * SLOT + dir_bytes in
      let fence_offs_len := if fence_n =? 0 then 0 else (fence_n + 1) * 4 in
      let fence_blob_off := fence_offs_off + fence_offs_len in
      let recs_off := align_up (fence_blob_off + fence_blob_len) REC_ALIGN in
      Some (mkLayout cap dir_cap fence_offs_off fence_blob_off recs_off recs_cap (recs_off + recs_cap)).

(** [pad_to]: the bytes so far and the section offset of their end. *)
Definition pad_to (t : bytes) (at_ align : Z) : bytes * Z :=
  let want := align_up at_ align in (t ++ zeros (want - at_), want).

(** The fence's offsets and its key blob, sample by sample. *)
Fixpoint fence_go (key_at : Z -> bytes) (stride : Z) (ixs : list Z) (offs blob : bytes) : bytes * bytes :=
  match ixs with
  | [] => (offs, blob)
  | i :: ixs => fence_go key_at stride ixs (offs ++ le32 (Zlen blob)) (blob ++ key_at (i * stride))
  end.

(** The closure that answers a key's record and hash, writing the
    directory's word as it does; its state is the directory, [None] after a
    slice out of range. *)
Definition dir_word (each : Z -> Z * Z) (dir : option bytes) (i : Z) : option bytes * (Z * Z) :=
  let '(off, h) := each i in ((d ← dir; put_range d (i * 4) (le32 off)), (h, off)).

Definition stream_trailer (target n recs_len : Z) (key_at : Z -> bytes) (each : Z -> Z * Z) (generation : Z)
    (lookahead : bool) : option (bytes * bytes * Z) :=
  if MAX_RECS <? recs_len then None
  else
    let recs_off := HEADER in
    cap ← hash_cap_for n;
    let mask := cap - 1 in
    let '(t, at_) := pad_to [] (recs_off + recs_len) 4 in
    let stride := fence_stride target n in
    let fence_n := div_ceil n stride in
    let fence_offs_off := at_ in
    let '(t, at_) :=
      if 0 <? fence_n then
        let offs_len := (fence_n + 1) * 4 in
        let '(offs, blob) := fence_go key_at stride (seqZ 0 fence_n) [] [] in
        let offs := offs ++ le32 (Zlen blob) in
        (t ++ offs ++ blob, at_ + (offs_len + Zlen blob))
      else (t, at_) in
    let '(t, at_) := pad_to t at_ 4 in
    let dir_off := at_ in
    let dir_start := Zlen t in
    let t := t ++ zeros (n * 4) in
    let at_ := at_ + n * 4 in
    let '(t, at_) := pad_to t at_ 8 in
    let hash_off := at_ in
    let hash_start := Zlen t in
    let t := t ++ zeros (cap * SLOT) in
    head ← get_range t 0 dir_start;
    dir ← get_range t dir_start hash_start;
    slots ← get_range t hash_start (hash_start + cap * SLOT);
    '(dir, slots) ← fill_hash (dir_word each) slots mask n (Some dir) lookahead;
    dir ← dir;
    let t := head ++ dir ++ slots in
    let total := at_ + cap * SLOT in
    let h := zeros HEADER in
    h ← put_range h 0 (le32 MAGIC);
    h ← put_range h 4 (le32 VERSION);
    h ← put_each h 8 8 (map le64
      [generation; 0; 0; 0; 0; 0; n; cap; hash_off; dir_off; recs_off; recs_len; recs_len; recs_len;
       fence_offs_off; fence_n; stride; 0; 0]);
    Some (h, t, total).

(** ** Parsing *)

Definition is_flat (sec : bytes) : bool :=
  match rd_u32 sec 0, rd_u32 sec 4 with
  | Some m, Some v => (m =? MAGIC) && (v =? VERSION)
  | _, _ => false
  end.

(** [usize::is_power_of_two]. *)
Definition is_power_of_two (n : Z) : bool := (0 <? n) && (Z.land n (n - 1) =? 0).

(** [x.clamp(lo, hi)], for [lo <= hi]. *)
Definition clamp (x lo hi : Z) : Z := Z.min hi (Z.max lo x).

(** The live directory: what [dir_state] publishes where there are two
    buffers. *)
Definition live_dir (dir_base dir_cap dir_state nkeys : Z) : option (Z * Z) :=
  if dir_cap =? 0 then Some (dir_base, nkeys)
  else
    let live_off := Z.shiftr dir_state 32 in
    let live_n := Z.land dir_state 0xffffffff in
    half ← cmul dir_cap 4;
    second ← cadd dir_base half;
    if (negb (live_off =? dir_base) && negb (live_off =? second)) || (dir_cap <? live_n) then None
    else Some (live_off, live_n).

Record Header := mkHeader {
  hd_generation : Z; hd_nkeys : Z; hd_hash_off : Z; hd_hash_cap : Z; hd_dir_off : Z; hd_dir_base : Z;
  hd_dir_cap : Z; hd_recs_off : Z; hd_recs_len : Z; hd_bump : Z; hd_fence_offs_off : Z; hd_fence_n : Z;
  hd_fence_stride : Z; hd_crc_off : Z; hd_piece_shift : Z
}.

Definition result_ok {A} (r : result A) : option A := match r with Ok a => Some a | Err _ => None end.

Definition header_parse (sec : bytes) : option Header :=
  if negb (is_flat sec) then None
  else
    nkeys ← rd_u64 sec 56;
    hash_cap ← rd_u64 sec 64;
    dir_base ← rd_u64 sec 80;
    recs_len ← rd_u64 sec 96;
    rc ← rd_u64 sec 104;
    let recs_cap := Z.max rc recs_len in
    dir_cap ← rd_u64 sec 144;
    dir_state ← rd_u64 sec 152;
    if (hash_cap =? 0) || negb (is_power_of_two hash_cap) then None
    else
      '(dir_off, nkeys) ← live_dir dir_base dir_cap dir_state nkeys;
      if hash_cap <? nkeys then None
      else
        generation ← rd_u64 sec 8;
        hash_off ← rd_u64 sec 72;
        recs_off ← rd_u64 sec 88;
        bump ← rd_u64 sec 112;
        fence_offs_off ← rd_u64 sec 120;
        fence_n ← rd_u64 sec 128;
        fence_stride ← rd_u64 sec 136;
        words ← result_ok (checksum_words sec);
        Some (mkHeader generation nkeys hash_off hash_cap dir_off dir_base dir_cap recs_off recs_len
          (clamp bump recs_len recs_cap) fence_offs_off fence_n fence_stride
          (match words with Some w => w.1 | None => 0 end) (match words with Some w => w.2 | None => 0 end)).

(** Where the fence lies, to the start of whichever region comes next. *)
Definition fence_span (h : Header) (sec_len : Z) : Z * Z :=
  if hd_fence_n h =? 0 then (0, 0)
  else
    let start := hd_fence_offs_off h in
    if (start <? HEADER) || (sec_len <? start) then (0, 0)
    else
      let ends := List.filter (fun x => start <? x) [hd_hash_off h; hd_dir_base h; hd_recs_off h; hd_crc_off h; sec_len] in
      let en := Z.min (match ends with [] => sec_len | x :: xs => fold_left Z.min xs x end) sec_len in
      (start, en - start).

Record FlatIndex := mkFlat {
  fx_hash : Z * Z; fx_dir : Z * Z; fx_dir_cap : Z; fx_dir_base : Z; fx_recs : Z * Z; fx_hash_cap : Z; fx_mask : Z;
  fx_nkeys : Z; fx_mean_record_len : Z; fx_recs_off : Z; fx_recs_cap : Z; fx_bump : Z;
  fx_fence_offs : Z * Z; fx_fence_blob : Z * Z; fx_fence_n : Z; fx_fence_stride : Z; fx_generation : Z;
  fx_crc_off : Z; fx_piece_shift : Z; fx_prev : option (Z * Z * Z * Z * Z)
}.

(** The region lies in the section, past the header. *)
Definition region_in (sec : bytes) (r : Z * Z) : bool :=
  negb ((r.1 <? HEADER) || (Zlen sec <? r.2) || (r.2 <? r.1)).

Definition regions_overlap (a b : Z * Z) : bool :=
  (a.1 <? b.2) && (b.1 <? a.2) && negb (a.1 =? a.2) && negb (b.1 =? b.2).

(** The fence, or nothing where it does not check out. *)
Definition parse_fence (sec : bytes) (nkeys fence_offs_off fence_n fence_stride : Z) (regions : list (Z * Z))
    : option ((Z * Z) * (Z * Z) * Z * Z) :=
  if (fence_n =? 0) || (fence_stride =? 0) || (nkeys <? fence_n) then None
  else if negb (fence_n =? div_ceil nkeys fence_stride) then None
  else
    n1 ← cadd fence_n 1;
    n4 ← cmul n1 4;
    offs_end ← cadd fence_offs_off n4;
    if (fence_offs_off <? HEADER) || (Zlen sec <? offs_end) then None
    else
      offs ← get_range sec fence_offs_off offs_end;
      blob_len ← rd_u32 offs (fence_n * 4);
      blob_end ← cadd offs_end blob_len;
      if Zlen sec <? blob_end then None
      else if existsb (fun r => (fence_offs_off <? r.2) && (r.1 <? blob_end) && negb (r.1 =? r.2)
                                && negb (fence_offs_off =? blob_end)) regions then None
      else Some ((fence_offs_off, offs_end), (offs_end, blob_end), fence_n, fence_stride).

Definition flat_parse (sec : bytes) : option FlatIndex :=
  if negb (is_flat sec) then None
  else
    generation ← rd_u64 sec 8;
    prev_gen ← rd_u64 sec 16;
    prev_ts ← rd_u64 sec 24;
    prev_off ← rd_u64 sec 32;
    prev_stored ← rd_u64 sec 40;
    prev_unc ← rd_u64 sec 48;
    nkeys ← rd_u64 sec 56;
    hash_cap ← rd_u64 sec 64;
    hash_off ← rd_u64 sec 72;
    dir_base ← rd_u64 sec 80;
    recs_off ← rd_u64 sec 88;
    recs_len ← rd_u64 sec 96;
    rc ← rd_u64 sec 104;
    let recs_cap := Z.max rc recs_len in
    bump ← rd_u64 sec 112;
    let bump := clamp bump recs_len recs_cap in
    fence_offs_off ← rd_u64 sec 120;
    fence_n ← rd_u64 sec 128;
    fence_stride ← rd_u64 sec 136;
    dir_cap ← rd_u64 sec 144;
    dir_state ← rd_u64 sec 152;
    if (hash_cap =? 0) || negb (is_power_of_two hash_cap) then None
    else
      '(dir_off, nkeys) ← live_dir dir_base dir_cap dir_state nkeys;
      hash_len ← cmul hash_cap SLOT;
      hash_end ← cadd hash_off hash_len;
      dir_end ← (if dir_cap =? 0 then len ← cmul nkeys 4; cadd dir_off len
                 else len ← cmul dir_cap 8; Some (dir_base + len));
      recs_end ← cadd recs_off recs_cap;
      let regions := [(hash_off, hash_end); (dir_off, dir_end); (recs_off, recs_end)] in
      if negb (forallb (region_in sec) regions) then None
      else if regions_overlap (hash_off, hash_end) (dir_off, dir_end)
              || regions_overlap (hash_off, hash_end) (recs_off, recs_end)
              || regions_overlap (dir_off, dir_end) (recs_off, recs_end) then None
      else if hash_cap <? nkeys then None
      else
        let '(fence_offs, fence_blob, fence_n, fence_stride) :=
          default ((0, 0), (0, 0), 0, 0) (parse_fence sec nkeys fence_offs_off fence_n fence_stride regions) in
        words ← result_ok (checksum_words sec);
        '(crc_off, piece_shift) ←
          match words with
          | Some (off, shift) => if (off <? HEADER) || (Zlen sec <? off) then None else Some (off, shift)
          | None => Some (0, 0)
          end;
        Some (mkFlat (hash_off, hash_end) (dir_off, dir_end) dir_cap dir_base (recs_off, recs_end) hash_cap (hash_cap - 1)
          nkeys (Z.max (recs_len / Z.max nkeys 1) 1) recs_off recs_cap bump fence_offs fence_blob fence_n fence_stride
          generation crc_off piece_shift
          (if 0 <? prev_off then Some (prev_gen, prev_ts, prev_off, prev_stored, prev_unc) else None)).

(** ** A trailer reads its keys, and their records, and nothing else *)

Lemma fence_go_ext f g stride ixs offs blob : (forall i, f i = g i) -> fence_go f stride ixs offs blob = fence_go g stride ixs offs blob.
Proof. intros H. revert offs blob. induction ixs as [|i ixs IH]; intros offs blob; [done|]. cbn. rewrite H. apply IH. Qed.

Lemma stream_trailer_ext target n recs_len f g each each' generation look : (forall i, f i = g i) -> (forall i, 0 <= i < n -> each i = each' i) ->
  stream_trailer target n recs_len f each generation look = stream_trailer target n recs_len g each' generation look.
Proof.
  intros Hf He. unfold stream_trailer. cbv zeta. destruct (MAX_RECS <? recs_len); [done|]. destruct (hash_cap_for n) as [cap|]; [|done]. cbn [option_bind mbind].
  destruct (pad_to [] _ 4) as [t at_]. rewrite (fence_go_ext f g) by done. destruct (fence_go g _ _ _ _) as [offs blob].
  destruct (0 <? _); cbv beta iota; (destruct (pad_to _ _ 4) as [t' at']); (destruct (pad_to _ _ 8) as [t'' at'']);
    repeat match goal with |- context [get_range ?a ?b ?c] => destruct (get_range a b c); cbn [option_bind mbind]; [|done] end;
    by rewrite (fill_hash_ext (dir_word each) (dir_word each')) by (intros; unfold dir_word; by rewrite He by done).
Qed.

(** ** The checksum row *)

(** Ranges that follow one another from [a] to [b]. *)
Fixpoint tiled (a b : Z) (ps : list (Z * Z)) : Prop :=
  match ps with [] => a = b | (lo, hi) :: ps => lo = a /\ a < hi <= b /\ tiled hi b ps end.

Section pieces.
Context (piece first len : Z) (Hp : 0 < first <= piece).

Lemma pieces_go_spec fuel at_ : 0 < at_ -> len - at_ <= Z.of_nat fuel -> at_ <= len ->
  tiled at_ len (pieces_go fuel piece first len at_) /\ Zlen (pieces_go fuel piece first len at_) = div_ceil (len - at_) piece /\
  forall i a b, get_at (pieces_go fuel piece first len at_) i = Some (a, b) -> b - a <= piece.
Proof.
  revert at_. induction fuel as [|fuel IH]; intros at_ H0 Hf Hle; cbn [pieces_go].
  - replace (len - at_) with 0 by lia. split; [cbn; lia|]. split; [unfold div_ceil; rewrite Z.div_small by lia; done|].
    intros i a b [_ Hi]%get_at_Some. done.
  - destruct (Z.leb_spec len at_).
    { replace (len - at_) with 0 by lia. split; [cbn; lia|]. split; [unfold div_ceil; rewrite Z.div_small by lia; done|].
      intros i a b [_ Hi]%get_at_Some. done. }
    rewrite (proj2 (Z.eqb_neq at_ 0)) by lia. destruct (IH (Z.min (at_ + piece) len)) as (H1 & H2 & H3); [lia..|].
    split; [split; [done|]; split; [lia|done]|]. split.
    + rewrite Zlen_cons, H2. unfold div_ceil. destruct (Z.le_gt_cases (at_ + piece) len).
      * rewrite Z.min_l by lia. replace (len - at_ + piece - 1) with (len - (at_ + piece) + piece - 1 + 1 * piece) by lia.
        rewrite Z.div_add by lia. lia.
      * rewrite Z.min_r, Z.sub_diag by lia. rewrite (Z.div_small (0 + _ - _)) by lia.
        replace (len - at_ + piece - 1) with (len - at_ - 1 + 1 * piece) by lia. rewrite Z.div_add, (Z.div_small (len - at_ - 1)) by lia. lia.
    + intros i a b Hi. destruct (decide (i = 0)) as [->|]; [cbn in Hi; injection Hi as <- <-; lia|].
      apply (H3 (i - 1)). change (?x :: ?l) with ([x] ++ l) in Hi. pose proof (get_at_lt _ _ _ Hi).
      rewrite get_at_skip in Hi by (change (Zlen [(at_, Z.min (at_ + piece) len)]) with 1; lia). exact Hi.
Qed.
End pieces.

(** The turn [i] past the first. *)
Lemma pieces_go_at piece first len fuel at_ i : 0 < piece -> 0 < at_ -> 0 <= i -> at_ + i * piece < len -> len - at_ <= Z.of_nat fuel ->
  get_at (pieces_go fuel piece first len at_) i = Some (at_ + i * piece, Z.min (at_ + (i + 1) * piece) len).
Proof.
  intros Hp. revert at_ i. induction fuel as [|fuel IH]; intros at_ i H0 Hi Hlt Hf; [nia|]. cbn [pieces_go].
  rewrite (proj2 (Z.leb_gt len at_)), (proj2 (Z.eqb_neq at_ 0)) by nia. destruct (Z.eq_dec i 0) as [->|Hne].
  - rewrite Z.mul_0_l, Z.add_0_r, Z.add_0_l, Z.mul_1_l. reflexivity.
  - change (?x :: ?l) with ([x] ++ l). rewrite get_at_skip by (change (Zlen [(at_, Z.min (at_ + piece) len)]) with 1; lia).
    change (Zlen [(at_, Z.min (at_ + piece) len)]) with 1. rewrite Z.min_l by nia. rewrite IH by nia. do 2 f_equal; lia.
Qed.

Section row.
Context (len shift base : Z) (Hlen : 0 < len) (Hshift : 0 <= shift).

Lemma piece_first : 0 < Z.shiftl 1 shift - base mod Z.shiftl 1 shift <= Z.shiftl 1 shift.
Proof.
  rewrite Z.shiftl_1_l. pose proof (Z.pow_pos_nonneg 2 shift ltac:(lia) Hshift). pose proof (Z.mod_pos_bound base (2 ^ shift)). lia.
Qed.

Lemma pieces_spec : tiled 0 len (pieces len shift base) /\ Zlen (pieces len shift base) = piece_count len shift base /\
  forall i a b, get_at (pieces len shift base) i = Some (a, b) -> b - a <= Z.shiftl 1 shift.
Proof.
  unfold pieces, piece_count. pose proof piece_first as Hf. set (piece := Z.shiftl 1 shift) in *. set (first := piece - base mod piece) in *.
  destruct (Z.to_nat len) as [|fuel] eqn:E; [lia|]. cbn [pieces_go]. rewrite (proj2 (Z.leb_gt len 0)) by lia. cbn [Z.eqb].
  destruct (pieces_go_spec piece first len Hf fuel (Z.min first len)) as (H1 & H2 & H3); [lia..|].
  split; [split; [done|]; split; [lia|done]|]. split.
  - rewrite Zlen_cons, H2. unfold div_ceil. replace (base mod piece) with (piece - first) by lia.
    destruct (Z.le_gt_cases first len).
    + rewrite Z.min_l by lia. replace (piece - first + len + piece - 1) with (len - first + piece - 1 + 1 * piece) by lia.
      rewrite Z.div_add by lia. lia.
    + rewrite Z.min_r, Z.sub_diag by lia. rewrite (Z.div_small (0 + _ - _)) by lia.
      replace (piece - first + len + piece - 1) with (piece - (first - len) - 1 + 1 * piece) by lia.
      rewrite Z.div_add, (Z.div_small (piece - _ - 1)) by lia. lia.
  - intros i a b Hi. destruct (decide (i = 0)) as [->|]; [cbn in Hi; injection Hi as <- <-; lia|].
    apply (H3 (i - 1)). change (?x :: ?l) with ([x] ++ l) in Hi. pose proof (get_at_lt _ _ _ Hi).
    rewrite get_at_skip in Hi by (change (Zlen [(0, Z.min first len)]) with 1; lia). exact Hi.
Qed.

(** The piece [p] is its page's part of the section. *)
Lemma pieces_at p : 0 <= p < piece_count len shift base -> get_at (pieces len shift base) p =
  Some (Z.max (p * Z.shiftl 1 shift - base mod Z.shiftl 1 shift) 0, Z.min ((p + 1) * Z.shiftl 1 shift - base mod Z.shiftl 1 shift) len).
Proof.
  unfold pieces, piece_count. pose proof piece_first as Hf. set (piece := Z.shiftl 1 shift) in *. intros [H0 Hp].
  assert (0 <= base mod piece < piece) as Hm by (apply Z.mod_pos_bound; lia).
  destruct (div_ceil_spec (base mod piece + len) piece ltac:(lia) ltac:(lia)) as [Hd _]. assert (p * piece < base mod piece + len) as Hlt.
  { assert (p * piece <= (div_ceil (base mod piece + len) piece - 1) * piece) by (apply Z.mul_le_mono_nonneg_r; lia). lia. }
  destruct (Z.to_nat len) as [|fuel] eqn:E; [lia|]. cbn [pieces_go]. rewrite (proj2 (Z.leb_gt len 0)) by lia. cbn [Z.eqb].
  destruct (Z.eq_dec p 0) as [->|Hne].
  - rewrite Z.mul_0_l, Z.add_0_l, Z.mul_1_l, (Z.max_r (0 - _)) by lia. reflexivity.
  - change (?x :: ?l) with ([x] ++ l). set (a := Z.min (piece - base mod piece) len). assert (piece <= p * piece) by nia. assert (a = piece - base mod piece) as Ha by (unfold a; lia).
    rewrite get_at_skip by (change (Zlen [(0, a)]) with 1; lia). change (Zlen [(0, a)]) with 1. rewrite Ha.
    rewrite (pieces_go_at piece _ len fuel (piece - base mod piece) (p - 1)); [do 2 f_equal; lia|lia..].
Qed.
End row.

Lemma tiled_ranges {A} (l : list A) a ps : 0 <= a -> tiled a (Zlen l) ps -> exists ss, mapM (fun '(x, y) => get_range l x y) ps = Some ss.
Proof.
  revert a. induction ps as [|[x y] ps IH]; intros a Ha; cbn [tiled]; [by exists []|].
  intros (-> & Hy & Ht). destruct (IH y) as [ss Hss]; [lia|done|]. destruct (get_range_is_Some l a y) as [s Hs]; [lia..|].
  exists (s :: ss). cbn. rewrite Hs. cbn. by rewrite Hss.
Qed.

Lemma checksum_row_go_spec sec ps ss out : mapM (fun '(x, y) => get_range sec x y) ps = Some ss ->
  checksum_row_go sec ps out = Some (out ++ concat (map le32 (map crc32 ss))).
Proof.
  revert ss out. induction ps as [|[x y] ps IH]; intros ss out; cbn [checksum_row_go].
  - intros [= <-]. cbn. by rewrite app_nil_r.
  - cbn. destruct (get_range sec x y) as [s|]; [|done]. cbn. destruct (mapM _ ps) as [ss'|] eqn:E; [|done]. intros [= <-].
    cbn. rewrite (IH ss') by done. by rewrite <- app_assoc.
Qed.

(** The row's words and their pieces, checked one by one. *)
Lemma verify_go_ok sec pre ss ps : mapM (fun '(x, y) => get_range sec x y) ps = Some ss ->
  verify_go sec (concat (map le32 pre) ++ concat (map le32 (map crc32 ss))) (Zlen pre) ps = Some (inl tt).
Proof.
  revert pre ss. induction ps as [|[x y] ps IH]; intros pre ss; [done|]. cbn.
  destruct (get_range sec x y) as [s|] eqn:Es; [|done]. cbn. destruct (mapM _ ps) as [ss'|] eqn:E; [|done]. intros [= <-].
  unfold piece_crc. cbn [map concat]. pose proof (crc32_range s). rewrite rd_u32_app by (rewrite ?Zlen_concat_le32; lia).
  rewrite Z.eqb_refl. cbn [negb]. specialize (IH (pre ++ [crc32 s]) ss' eq_refl).
  rewrite map_app, concat_app, Zlen_app, <- app_assoc in IH. cbn [map concat] in IH. rewrite app_nil_r in IH. exact IH.
Qed.

(** What a row that verifies says of every piece. *)
Lemma verify_go_sound sec row i ps : verify_go sec row i ps = Some (inl tt) -> 0 <= i ->
  forall j a b, get_at ps j = Some (a, b) -> exists s, get_range sec a b = Some s /\ piece_crc row (i + j) = Some (crc32 s).
Proof.
  revert i. induction ps as [|[x y] ps IH]; intros i H Hi j a b Hj; [by apply get_at_Some in Hj as [_ Hj]|].
  cbn [verify_go] in H. destruct (get_range sec x y) as [s|] eqn:Es; [|done]. cbn [option_bind mbind] in H.
  destruct (piece_crc row i) as [c|] eqn:Ec; [|done]. destruct (Z.eqb_spec (crc32 s) c) as [<-|]; [|done]. cbn [negb] in H.
  pose proof (get_at_lt _ _ _ Hj). destruct (decide (j = 0)) as [->|].
  - cbn in Hj. injection Hj as <- <-. rewrite Z.add_0_r. eauto.
  - change ((x, y) :: ps) with ([(x, y)] ++ ps) in Hj. rewrite get_at_skip in Hj by (change (Zlen [(x, y)]) with 1; lia).
    destruct (IH (i + 1) H ltac:(lia) (j - 1) a b Hj) as (s' & ? & ?). exists s'. by replace (i + j) with (i + 1 + (j - 1)) by lia.
Qed.

Lemma row_verifies sec shift base : 0 < Zlen sec < 2 ^ 60 -> 0 <= shift ->
  exists row, checksum_row sec shift base = Some row /\ Zlen row = checksum_row_len (Zlen sec) shift base /\
    verify_pieces (sec ++ row) (Zlen sec) shift base = Some (inl tt).
Proof.
  intros Hl Hs. destruct (pieces_spec (Zlen sec) shift base ltac:(lia) Hs) as (Ht & Hc & _).
  destruct (tiled_ranges sec 0 _ ltac:(lia) Ht) as [ss Hss]. exists (concat (map le32 (map crc32 ss))). unfold checksum_row.
  rewrite (checksum_row_go_spec _ _ ss) by done. split; [done|].
  assert (Zlen (concat (map le32 (map crc32 ss))) = checksum_row_len (Zlen sec) shift base) as Hr.
  { assert (Zlen (pieces (Zlen sec) shift base) = Zlen ss) as Hm by (unfold Zlen at 1 3; f_equal; by eapply length_mapM).
    rewrite Zlen_concat_le32, Zlen_map. unfold checksum_row_len. lia. }
  split; [done|]. unfold verify_pieces. rewrite <- Hr.
  assert (piece_count (Zlen sec) shift base <= Zlen sec + 1) as Hpc.
  { unfold piece_count. rewrite Z.shiftl_1_l. pose proof (Z.pow_pos_nonneg 2 shift ltac:(lia) Hs) as Hp. pose proof (Z.mod_pos_bound base (2 ^ shift) Hp).
    destruct (div_ceil_spec (base mod 2 ^ shift + Zlen sec) (2 ^ shift)); [lia..|]. nia. }
  rewrite (proj2 (cadd_Some _ _ _)) by (split; [reflexivity|]; rewrite Hr; unfold checksum_row_len, U64; lia). cbn [option_bind mbind].
  rewrite <- (app_nil_r (concat _)) at 1. rewrite get_range_app by lia.
  apply (verify_go_ok _ [] ss).
  clear - Hss. revert Hss. generalize (concat (map le32 (map crc32 ss))). intros row. generalize (pieces (Zlen sec) shift base). intros ps. revert ss.
  induction ps as [|[x y] ps IH]; intros ss; [done|]. cbn. destruct (get_range sec x y) as [s|] eqn:E; [|done]. cbn.
  destruct (mapM _ ps) as [ss'|]; [|done]. intros [= <-]. rewrite (get_range_app_l _ _ _ _ _ E). cbn. by rewrite (IH ss').
Qed.

(** The pieces of a section follow one another from its start to its end,
    each no longer than a piece and as many as the row has words; the row the
    writer makes verifies; and a row that verifies is every piece's own
    checksum, so bytes that differ from those the row was made over pass only
    where a piece's checksum collides. *)
Theorem checksum_row_covers sec shift base : 0 < Zlen sec < 2 ^ 60 -> 0 <= shift ->
  tiled 0 (Zlen sec) (pieces (Zlen sec) shift base) /\ Zlen (pieces (Zlen sec) shift base) = piece_count (Zlen sec) shift base /\
  (exists row, checksum_row sec shift base = Some row /\ Zlen row = checksum_row_len (Zlen sec) shift base /\
    verify_pieces (sec ++ row) (Zlen sec) shift base = Some (inl tt)) /\
  (forall sec' crc_off, verify_pieces sec' crc_off shift base = Some (inl tt) ->
    exists row, get_range sec' crc_off (crc_off + checksum_row_len crc_off shift base) = Some row /\
    forall i a b, get_at (pieces crc_off shift base) i = Some (a, b) ->
      exists s, get_range sec' a b = Some s /\ piece_crc row i = Some (crc32 s)).
Proof.
  intros Hl Hs. destruct (pieces_spec (Zlen sec) shift base ltac:(lia) Hs) as (Ht & Hc & _). split; [done|]. split; [done|].
  split; [by apply row_verifies|]. intros sec' crc_off. unfold verify_pieces.
  destruct (cadd _ _) as [fin|] eqn:Ef; [|done]. cbn [option_bind mbind]. apply cadd_Some in Ef as [-> _].
  destruct (get_range sec' _ _) as [row|]; [|done]. intros H. exists row. split; [done|]. intros i a b Hi.
  by apply (verify_go_sound _ _ _ _ H ltac:(lia) i a b).
Qed.

Lemma checksum_row_covers_witness :
  exists row, checksum_row (zeros 3000) 10 100 = Some row /\ Zlen row = 16 /\ verify_pieces (zeros 3000 ++ row) 3000 10 100 = Some (inl tt).
Proof.
  destruct (checksum_row_covers (zeros 3000) 10 100) as (_ & _ & (row & H1 & H2 & H3) & _);
    [rewrite Zlen_zeros by lia; lia|lia|]. rewrite Zlen_zeros in * by lia. exists row. split; [exact H1|]. split; [exact H2|exact H3].
Defined.
