(* ===== verification/Reserve.v ===== *)
(** * The head reserve's size

    [src/src/reserve.rs], lines 68 to 432: the writer's cut of runs into
    blocks, the [Planner] that sizes a reserve one key at a time, [for_lengths]
    and [from_totals] over it, and the [Reserve] they answer. [target] is the
    fence's density, read from the environment by the source. [None] outside
    an answer is a subtraction that underflows, which the source has one of;
    the answer's own [None] is its refusal. *)

From S2P Require Import Prelude Varint Runs Crc Chunks BlockTable Records HashTable FlatIndex.

(** ** The cut into blocks *)

(** One run through the cut: what is staged then, and how many blocks closed. *)
Definition cut (staged n block_size : Z) : option (Z * Z) :=
  room ← (if staged =? 0 then Some n else csub block_size staged);
  let '(staged, closed) := if room <? n then (0, 1) else (staged, 0) in
  let staged := sadd staged n in
  Some (if block_size <=? staged then (0, closed + 1) else (staged, closed)).

Definition cut_next (block_size : Z) (st : Z * Z) (n : Z) : option (Z * Z) :=
  '(staged, closed) ← cut (fst st) n block_size; Some (staged, snd st + closed).

Definition blocks_for (runs : list Z) (block_size : Z) : option Z :=
  '(staged, blocks) ← ofold (cut_next block_size) runs (0, 0);
  Some (if negb (staged =? 0) then blocks + 1 else blocks).

(** ** The reserve *)

Definition MAX_RUN : Z := U32 - 1 - 8.
Definition COMPACT_RECORDS : bool := true.

Record Reserve := mkReserve { rv_table : Z; rv_row : Z; rv_fence : Z; rv_directory : Z }.

Definition align8 (n : Z) : Z := div_ceil n 8 * 8.

Definition fits (table row fence dir : Z) : Z :=
  let at_ := align8 table in
  let at_ := align8 (at_ + row) in
  let at_ := align8 (at_ + fence) in
  Z.max (at_ + dir) (table + 8).

Definition reserve_bytes (r : Reserve) : Z := fits (rv_table r) (rv_row r) (rv_fence r) (rv_directory r).
Definition without_directory (r : Reserve) : Z := fits (rv_table r) (rv_row r) (rv_fence r) 0.

(** ** The planner *)

Record Planner := mkPlanner {
  pl_block_size : Z;
  pl_inline_max : Z;
  pl_keys : Z;
  pl_rec_bytes : Z;
  pl_staged : Z;
  pl_blocks : Z;
  pl_sampled : list Z;
  pl_sample_stride : Z;
  pl_viable : bool;
  pl_compact : bool
}.

Definition planner_new (target block_size inline_max : Z) : Planner :=
  mkPlanner block_size inline_max 0 0 0 0 [] (fence_stride target 0) true COMPACT_RECORDS.

Definition compact_records (p : Planner) (on : bool) : Planner :=
  mkPlanner (pl_block_size p) (pl_inline_max p) (pl_keys p) (pl_rec_bytes p) (pl_staged p) (pl_blocks p)
    (pl_sampled p) (pl_sample_stride p) (pl_viable p) on.

(** A push that refuses: [viable] cleared, with the samples it had by then. *)
Definition not_viable (p : Planner) (sampled : list Z) : Planner :=
  mkPlanner (pl_block_size p) (pl_inline_max p) (pl_keys p) (pl_rec_bytes p) (pl_staged p) (pl_blocks p)
    sampled (pl_sample_stride p) false (pl_compact p).

(** [inlines] of [src/src/db.rs] is the same condition. *)
Definition is_inlined (inline_max run_len : Z) : bool := (0 <? inline_max) && (run_len <=? inline_max).

Definition planner_push (p : Planner) (kr : Z * Z) : option Planner :=
  let '(key_len, run_len) := kr in
  if (U16_MAX <? key_len) || (MAX_RUN <? run_len) then Some (not_viable p (pl_sampled p))
  else
    let sampled := if pl_keys p mod pl_sample_stride p =? 0 then pl_sampled p ++ [w32 key_len] else pl_sampled p in
    let inline := is_inlined (pl_inline_max p) run_len in
    match cadd (pl_rec_bytes p) (segment_record_len key_len run_len inline (pl_compact p)) with
    | None => Some (not_viable p sampled)
    | Some rec_bytes =>
        '(staged, blocks) ←
          (if inline then Some (pl_staged p, pl_blocks p)
           else cut_next (pl_block_size p) (pl_staged p, pl_blocks p) run_len);
        Some (mkPlanner (pl_block_size p) (pl_inline_max p) (pl_keys p + 1) rec_bytes staged blocks
                sampled (pl_sample_stride p) (pl_viable p) (pl_compact p))
    end.

Definition retained_bytes (p : Planner) : Z := Zlen (pl_sampled p) * 4.

Definition fence_blob_len (p : Planner) (stride fence_n : Z) : option Z :=
  ofold (fun len i => s ← get_at (pl_sampled p) (i * stride / pl_sample_stride p); cadd len s) (seqZ 0 fence_n) 0.

Definition planner_finish (target : Z) (p : Planner) : option Reserve :=
  if negb (pl_viable p) then None
  else
    let stride := fence_stride target (pl_keys p) in
    let fence_n := div_ceil (pl_keys p) stride in
    blob_len ← fence_blob_len p stride fence_n;
    layout ← section_layout (pl_keys p) (pl_rec_bytes p) fence_n blob_len 0 false;
    let blocks := if negb (pl_staged p =? 0) then pl_blocks p + 1 else pl_blocks p in
    let table := block_table_len blocks in
    let row := checksum_row_len (sl_total layout) PIECE_SHIFT (Z.shiftl 1 PIECE_SHIFT - 1) in
    let fence := if fence_n =? 0 then 0 else sl_recs_off layout - sl_fence_offs_off layout in
    Some (mkReserve table row fence (pl_keys p * 4)).

Definition for_lengths_as (target : Z) (keys : list (Z * Z)) (block_size inline_max : Z) (compact : bool)
    : option (option Reserve) :=
  p ← ofold planner_push keys (compact_records (planner_new target block_size inline_max) compact);
  Some (planner_finish target p).

Definition for_lengths (target : Z) (keys : list (Z * Z)) (block_size inline_max : Z) : option (option Reserve) :=
  for_lengths_as target keys block_size inline_max COMPACT_RECORDS.

Definition from_totals (target keys max_key_len max_run_len run_bytes block_size inline_max : Z)
    : option (option Reserve) :=
  if keys =? 0 then for_lengths target [] block_size inline_max
  else
    let per_key_run := Z.min (Z.max (div_ceil run_bytes keys) 1) max_run_len in
    p ← ofold planner_push (repeat (max_key_len, per_key_run) (Z.to_nat keys))
          (compact_records (planner_new target block_size inline_max) false);
    match planner_finish target p with
    | None => Some None
    | Some need =>
        let worst_blocks :=
          if block_size <=? max_run_len then keys
          else Z.min (div_ceil run_bytes (block_size - max_run_len)) keys in
        even_blocks ← blocks_for (repeat per_key_run (Z.to_nat keys)) block_size;
        Some (Some (if even_blocks <? worst_blocks
                    then mkReserve (block_table_len worst_blocks) (rv_row need) (rv_fence need) (rv_directory need)
                    else need))
    end.

(** ** Examples *)

Example blocks_cut : blocks_for [64; 64] 64 = Some 2 /\ blocks_for [32; 32; 1] 64 = Some 2 /\
  blocks_for [1; 100] 64 = Some 2 /\ blocks_for [] 64 = Some 0.
Proof. by vm_compute. Qed.

(** ** What the cut does *)

(** The cut without the machine's limits. *)
Definition cut_pure (block_size : Z) (st : Z * Z) (n : Z) : Z * Z :=
  let '(s, c) := if negb (fst st =? 0) && (block_size <? fst st + n) then (0, snd st + 1) else st in
  if block_size <=? s + n then (0, c + 1) else (s + n, c).

Definition staged_ok (block_size : Z) (st : Z * Z) : Prop := fst st = 0 \/ 0 <= fst st < block_size.

Lemma cut_next_pure bs st n : 0 <= bs < U64 -> 0 <= n < U64 -> staged_ok bs st ->
  cut_next bs st n = Some (cut_pure bs st n) /\ staged_ok bs (cut_pure bs st n).
Proof.
  intros Hbs Hn Hok. destruct st as [s c]. unfold staged_ok, cut_next, cut, cut_pure, csub, sadd in *. cbn [fst snd] in *.
  destruct (Z.eqb_spec s 0) as [->|Hs]; cbn [negb andb option_bind mbind].
  - rewrite Z.ltb_irrefl. cbv beta iota. destruct (Z.leb_spec bs (Z.min (0 + n) (U64 - 1))), (Z.leb_spec bs (0 + n)); try lia;
      cbn [fst snd option_bind mbind]; (split; [do 2 f_equal; lia|lia]).
  - rewrite (proj2 (Z.leb_le s bs)) by lia. cbn [option_bind mbind].
    destruct (Z.ltb_spec (bs - s) n), (Z.ltb_spec bs (s + n)); try lia; cbv beta iota;
      [destruct (Z.leb_spec bs (Z.min (0 + n) (U64 - 1))), (Z.leb_spec bs (0 + n))
      |destruct (Z.leb_spec bs (Z.min (s + n) (U64 - 1))), (Z.leb_spec bs (s + n))];
      try lia; cbn [fst snd option_bind mbind]; (split; [do 2 f_equal; lia|lia]).
Qed.

Definition runs_ok (runs : list Z) : Prop := Forall (fun n => 0 <= n < U64) runs.

Lemma cut_all_pure bs runs st : 0 <= bs < U64 -> runs_ok runs -> staged_ok bs st ->
  ofold (cut_next bs) runs st = Some (fold_left (cut_pure bs) runs st) /\ staged_ok bs (fold_left (cut_pure bs) runs st).
Proof.
  intros Hbs. revert st. induction runs as [|n runs IH]; intros st Hr Hok; [done|].
  apply Forall_cons in Hr as [Hn Hr]. destruct (cut_next_pure bs st n Hbs Hn Hok) as [Hc Hok'].
  cbn [ofold fold_left]. rewrite Hc. cbn [option_bind mbind]. by apply IH.
Qed.

Definition closed_of (st : Z * Z) : Z := if negb (fst st =? 0) then snd st + 1 else snd st.
Definition blocks_of (bs : Z) (runs : list Z) : Z := closed_of (fold_left (cut_pure bs) runs (0, 0)).

Lemma blocks_for_pure bs runs : 0 <= bs < U64 -> runs_ok runs -> blocks_for runs bs = Some (blocks_of bs runs).
Proof.
  intros Hbs Hr. unfold blocks_for, blocks_of. destruct (cut_all_pure bs runs (0, 0) Hbs Hr) as [-> _]; [by left|].
  by destruct (fold_left _ _ _).
Qed.

Definition sum (l : list Z) : Z := fold_right Z.add 0 l.

(** A block for every run at most; and, where no run fills a block, no more
    than the runs' bytes over what every closed block holds. *)
Lemma cut_all_count bs runs st k : runs_ok runs -> closed_of st <= k -> staged_ok bs st ->
  closed_of (fold_left (cut_pure bs) runs st) <= k + Zlen runs.
Proof.
  revert st k. induction runs as [|n runs IH]; intros st k Hr Hc Hok; cbn [fold_left]; [znil; lia|].
  apply Forall_cons in Hr as [Hn Hr]. rewrite Zlen_cons.
  replace (k + (1 + Zlen runs)) with (k + 1 + Zlen runs) by lia.
  apply IH; [done| |]; destruct st as [s c]; unfold staged_ok, cut_pure, closed_of in *; cbn [fst snd] in *;
    destruct (Z.eqb_spec s 0), (Z.ltb_spec bs (s + n)); cbn [negb andb] in *; cbv beta iota;
    repeat match goal with |- context [Z.leb ?a ?b] => destruct (Z.leb_spec a b) end; cbn [fst snd];
    repeat match goal with |- context [Z.eqb ?a ?b] => destruct (Z.eqb_spec a b) end; cbn [negb]; lia.
Qed.

Lemma cut_all_bytes bs mr runs st : 0 <= mr < bs -> Forall (fun n => 0 <= n <= mr) runs -> staged_ok bs st ->
  let '(s, c) := fold_left (cut_pure bs) runs st in
  (bs - mr) * c + s <= (bs - mr) * snd st + fst st + sum runs.
Proof.
  intros Hmr. revert st. induction runs as [|n runs IH]; intros st Hr Hok; cbn [fold_left sum fold_right].
  - destruct st; cbn. lia.
  - apply Forall_cons in Hr as [Hn Hr]. fold (sum runs).
    assert (staged_ok bs (cut_pure bs st n) /\ (bs - mr) * snd (cut_pure bs st n) + fst (cut_pure bs st n) <= (bs - mr) * snd st + fst st + n) as [Hok' Hle].
    { destruct st as [s c]; unfold staged_ok, cut_pure in *; cbn [fst snd] in *.
      destruct (Z.eqb_spec s 0), (Z.ltb_spec bs (s + n)); cbn [negb andb]; cbv beta iota; cbn [fst snd];
        repeat match goal with |- context [Z.leb ?a ?b] => destruct (Z.leb_spec a b) end; cbn [fst snd]; lia. }
    specialize (IH _ Hr Hok'). destruct (fold_left _ _ _) as [s c]. lia.
Qed.

Lemma blocks_of_bound bs mr runs : 0 <= bs < U64 -> 0 <= mr -> Forall (fun n => 0 <= n <= mr) runs -> runs_ok runs ->
  blocks_of bs runs <= (if bs <=? mr then Zlen runs else Z.min (div_ceil (sum runs) (bs - mr)) (Zlen runs)).
Proof.
  intros Hbs Hm Hr Hr'. pose proof (cut_all_count bs runs (0, 0) 0 Hr' ltac:(done) ltac:(by left)) as Hc. fold (blocks_of bs runs) in Hc.
  destruct (Z.leb_spec bs mr); [lia|]. apply Z.min_glb; [|lia].
  pose proof (cut_all_bytes bs mr runs (0, 0) ltac:(lia) Hr ltac:(by left)) as Hb. cbn [fst snd] in Hb.
  destruct (cut_all_pure bs runs (0, 0) Hbs Hr' ltac:(by left)) as [_ Hok].
  unfold blocks_of, closed_of in *. destruct (fold_left _ _ _) as [s c]. unfold staged_ok in Hok. cbn [fst snd] in *.
  assert (0 <= sum runs) as Hs by (clear -Hr; induction Hr; cbn; [lia|]; fold (sum l); lia).
  destruct (div_ceil_spec (sum runs) (bs - mr) ltac:(lia) Hs) as [H1 H2].
  destruct (Z.eqb_spec s 0); cbn [negb]; nia.
Qed.

(** ** What the planner holds *)

Definition viable (kr : Z * Z) : bool := (fst kr <=? U16_MAX) && (snd kr <=? MAX_RUN).
Definition nonneg (kr : Z * Z) : Prop := 0 <= fst kr /\ 0 <= snd kr.
Definition key_rec (im : Z) (compact : bool) (kr : Z * Z) : Z :=
  segment_record_len (fst kr) (snd kr) (is_inlined im (snd kr)) compact.
Definition rec_sum (im : Z) (compact : bool) (keys : list (Z * Z)) : Z := sum (map (key_rec im compact) keys).
Definition outlined (im : Z) (keys : list (Z * Z)) : list Z :=
  List.filter (fun n => negb (is_inlined im n)) (map snd keys).
Definition klen_at (keys : list (Z * Z)) (i : Z) : Z := default 0 (fst <$> get_at keys i).

Definition sampled_ok (keys : list (Z * Z)) (sampled : list Z) : Prop :=
  Zlen sampled = div_ceil (Zlen keys) FENCE_MIN_STRIDE /\
  forall j, 0 <= j -> get_at sampled j = fst <$> get_at keys (j * FENCE_MIN_STRIDE).

Lemma sum_app a b : sum (a ++ b) = sum a + sum b.
Proof. unfold sum. induction a; cbn; lia. Qed.

Lemma sampled_snoc keys sampled kr : nonneg kr -> viable kr = true -> sampled_ok keys sampled ->
  sampled_ok (keys ++ [kr]) (if Zlen keys mod FENCE_MIN_STRIDE =? 0 then sampled ++ [w32 (fst kr)] else sampled).
Proof.
  intros [Hk _] [Hv _]%andb_true_iff [Hl Hg]. apply Z.leb_le in Hv. unfold sampled_ok, FENCE_MIN_STRIDE, U16_MAX, div_ceil in *.
  pose proof (Zlen_nonneg keys). assert (w32 (fst kr) = fst kr) as -> by (apply Z.mod_small; unfold U32; lia).
  destruct (Z.eqb_spec (Zlen keys mod 16) 0) as [H0|H0]; autorewrite with zlen in *.
  - split; [Z.to_euclidean_division_equations; nia|]. intros j Hj. destruct (Z.lt_trichotomy j (Zlen sampled)) as [?|[->|?]].
    + rewrite !get_at_keep by (Z.to_euclidean_division_equations; nia). by apply Hg.
    + rewrite !get_at_app_mid; [done|Z.to_euclidean_division_equations; nia|done].
    + rewrite !(proj2 (get_at_None _ _)); [done|right..]; autorewrite with zlen; Z.to_euclidean_division_equations; nia.
  - split; [Z.to_euclidean_division_equations; nia|]. intros j Hj. destruct (Z.lt_ge_cases (j * 16) (Zlen keys)).
    + rewrite get_at_keep by done. by apply Hg.
    + rewrite !(proj2 (get_at_None _ _)); [done|right..]; autorewrite with zlen; Z.to_euclidean_division_equations; nia.
Qed.

Section planner.
Context (target bs im : Z) (compact : bool) (Hbs : 0 <= bs < U64).

Definition planned (keys : list (Z * Z)) (p : Planner) : Prop :=
  pl_block_size p = bs /\ pl_inline_max p = im /\ pl_compact p = compact /\ pl_sample_stride p = FENCE_MIN_STRIDE /\
  pl_viable p = true /\ pl_keys p = Zlen keys /\ pl_rec_bytes p = rec_sum im compact keys /\
  (pl_staged p, pl_blocks p) = fold_left (cut_pure bs) (outlined im keys) (0, 0) /\
  sampled_ok keys (pl_sampled p).

(** Where a push refused: later ones neither panic nor clear it. *)
Definition refused (p : Planner) : Prop :=
  pl_viable p = false /\ pl_block_size p = bs /\ staged_ok bs (pl_staged p, pl_blocks p).

Lemma outlined_ok keys : Forall nonneg keys -> Forall (fun kr => viable kr = true) keys -> runs_ok (outlined im keys).
Proof.
  intros Hn Hv. unfold runs_ok, outlined. apply List.Forall_forall. intros n [Hin _]%List.filter_In.
  apply List.in_map_iff in Hin as (kr & <- & Hin). rewrite List.Forall_forall in Hn, Hv.
  specialize (Hn _ Hin) as [_ ?]. apply Hv, andb_true_iff in Hin as [_ ?%Z.leb_le].
  unfold MAX_RUN, U32, U64 in *. lia.
Qed.

Lemma outlined_snoc keys kr : outlined im (keys ++ [kr]) =
  outlined im keys ++ (if is_inlined im (snd kr) then [] else [snd kr]).
Proof. unfold outlined. rewrite map_app, List.filter_app. cbn. by destruct (is_inlined im (snd kr)). Qed.

Lemma rec_sum_snoc keys kr : rec_sum im compact (keys ++ [kr]) = rec_sum im compact keys + key_rec im compact kr.
Proof. unfold rec_sum. rewrite map_app, sum_app. cbn. lia. Qed.

Lemma push_refused p kr : nonneg kr -> refused p -> exists p', planner_push p kr = Some p' /\ refused p'.
Proof.
  destruct kr as [k n]. intros [_ Hn] (Hv & Hb & Hs). cbn [snd] in Hn. unfold planner_push.
  destruct (_ || _) eqn:Eg; [by eexists|]. apply orb_false_iff in Eg as [_ Hr%Z.ltb_ge].
  destruct (cadd _ _); [|by eexists]. destruct (is_inlined _ _); [by eexists|].
  destruct (cut_next_pure bs (pl_staged p, pl_blocks p) n Hbs) as [Hc Hok]; [unfold MAX_RUN, U32, U64 in *; lia|done|].
  rewrite Hb, Hc. cbn [option_bind mbind]. destruct (cut_pure _ _ _) as [s c]. by eexists.
Qed.

Lemma push_planned keys p kr : Forall nonneg keys -> Forall (fun kr => viable kr = true) keys -> nonneg kr -> planned keys p ->
  exists p', planner_push p kr = Some p' /\
    if viable kr && (rec_sum im compact (keys ++ [kr]) <? U64) then planned (keys ++ [kr]) p' else refused p'.
Proof.
  intros Hnn Hvs Hn (Hb & Hi & Hc & Hst & Hv & Hk & Hr & Hcut & Hs).
  destruct (cut_all_pure bs (outlined im keys) (0, 0) Hbs (outlined_ok keys Hnn Hvs) ltac:(by left)) as [_ Hok].
  rewrite <- Hcut in Hok. rewrite rec_sum_snoc. pose proof (sampled_snoc keys (pl_sampled p) kr Hn) as Hsn.
  destruct kr as [k n]. unfold planner_push, viable in *. cbn [fst snd] in *. rewrite !Z.ltb_antisym.
  destruct (k <=? U16_MAX) eqn:Ek; cbn [negb andb orb]; [|by eexists].
  destruct (n <=? MAX_RUN) eqn:En; cbn [negb andb orb]; [|by eexists].
  specialize (Hsn eq_refl Hs). rewrite <- Hk, <- Hst in Hsn. unfold cadd. rewrite Hr, Hi, Hc, Hst in *.
  change (segment_record_len k n (is_inlined im n) compact) with (key_rec im compact (k, n)).
  rewrite Z.ltb_antisym. destruct (U64 <=? _) eqn:Eu; cbn [negb]; [by eexists|].
  rewrite Hb. destruct (is_inlined im n) eqn:Ei.
  - eexists. split; [done|]. unfold planned. cbn. rewrite outlined_snoc, rec_sum_snoc. cbn [snd]. rewrite Ei, app_nil_r.
    rewrite Hk in Hsn |- *. rewrite Zlen_app. repeat (split; [done|]). exact Hsn.
  - rewrite Hcut in *. destruct (cut_next_pure bs (fold_left (cut_pure bs) (outlined im keys) (0, 0)) n Hbs) as [Hcn _];
      [destruct Hn; apply Z.leb_le in En; unfold MAX_RUN, U32, U64 in *; cbn in *; lia|done|].
    rewrite Hcn. cbn [option_bind mbind]. destruct (cut_pure _ _ _) as [s c] eqn:Ec. eexists. split; [done|].
    unfold planned. cbn. rewrite outlined_snoc, rec_sum_snoc. cbn [snd]. rewrite Ei, fold_left_app.
    cbn [fold_left]. rewrite Ec, Zlen_app. rewrite Hk in Hsn |- *.
    repeat (split; [done|]). exact Hsn.
Qed.

Lemma push_all_refused rest p : Forall nonneg rest -> refused p -> exists p', ofold planner_push rest p = Some p' /\ refused p'.
Proof.
  revert p. induction rest as [|kr rest IH]; intros p Hn Hr; [by exists p|].
  apply Forall_cons in Hn as [Hk Hn]. destruct (push_refused p kr Hk Hr) as (p' & Hp & Hr').
  cbn [ofold]. rewrite Hp. cbn [option_bind mbind]. by apply IH.
Qed.

Lemma key_rec_nonneg kr : nonneg kr -> 0 <= key_rec im compact kr.
Proof.
  intros [Hk Hr]. unfold key_rec, segment_record_len, record_len_compact, record_len_tail, record_len, REC_ALIGN, EXT_BYTES.
  pose proof (align_up_spec (4 + fst kr) 4 ltac:(lia)). pose proof (align_up_spec (snd kr) 4 ltac:(lia)).
  pose proof (align_up_spec 0 4 ltac:(lia)). destruct (_ && _); [lia|]. destruct (is_inlined _ _); lia.
Qed.

Lemma rec_sum_nonneg keys : Forall nonneg keys -> 0 <= rec_sum im compact keys.
Proof.
  induction 1 as [|kr keys Hk Hn IH]; [done|]. pose proof (key_rec_nonneg kr Hk). unfold rec_sum in *. cbn. unfold sum in *. lia.
Qed.

Lemma push_all_planned rest keys p : Forall nonneg keys -> Forall (fun kr => viable kr = true) keys -> Forall nonneg rest -> planned keys p ->
  exists p', ofold planner_push rest p = Some p' /\
    if forallb viable rest && ((rec_sum im compact (keys ++ rest) <? U64) || (Zlen rest =? 0)) then planned (keys ++ rest) p' else refused p'.
Proof.
  revert keys p. induction rest as [|kr rest IH]; intros keys p Hnn Hv Hn Hp.
  { exists p. cbn. rewrite app_nil_r, orb_true_r. done. }
  apply Forall_cons in Hn as [Hk Hn]. destruct (push_planned keys p kr Hnn Hv Hk Hp) as (p' & Hpush & Hp').
  cbn [ofold forallb]. rewrite Hpush. cbn [option_bind mbind]. rewrite Zlen_cons.
  rewrite (proj2 (Z.eqb_neq (1 + Zlen rest) 0)), orb_false_r by (pose proof (Zlen_nonneg rest); lia).
  replace (keys ++ kr :: rest) with ((keys ++ [kr]) ++ rest) by (by rewrite <- app_assoc).
  assert (rec_sum im compact (keys ++ [kr]) <= rec_sum im compact ((keys ++ [kr]) ++ rest)) as Hle.
  { pose proof (rec_sum_nonneg rest Hn). unfold rec_sum in *. rewrite (map_app _ (keys ++ [kr])), sum_app. lia. }
  destruct (viable kr) eqn:Ev; cbn [andb] in *; [|by apply push_all_refused].
  destruct (Z.ltb_spec (rec_sum im compact (keys ++ [kr])) U64) as [Hlt|Hge].
  - destruct (IH (keys ++ [kr]) p') as (p2 & Hp2 & Hcase); [apply Forall_app; auto|apply Forall_app; auto|done|done|].
    exists p2. split; [done|]. destruct (Z.eqb_spec (Zlen rest) 0) as [Hz|]; [|by rewrite orb_false_r in Hcase].
    assert (rest = []) as -> by (by apply Zlen_zero_nil). rewrite app_nil_r in *.
    rewrite (proj2 (Z.ltb_lt _ _)) in * by done. done.
  - destruct (push_all_refused rest p' Hn Hp') as (p2 & Hp2 & Hr2). exists p2. split; [done|].
    rewrite (proj2 (Z.ltb_ge _ _)) by lia. by rewrite andb_false_r.
Qed.

Lemma new_planned : 0 < target -> planned [] (compact_records (planner_new target bs im) compact).
Proof.
  intros Ht. unfold planned, compact_records, planner_new, fence_stride, FENCE_MIN_STRIDE. cbn [pl_block_size pl_inline_max pl_compact
    pl_sample_stride pl_viable pl_keys pl_rec_bytes pl_staged pl_blocks pl_sampled].
  assert (div_ceil 0 target = 0) as -> by (unfold div_ceil; apply Z.div_small; lia).
  repeat (split; [done|]). intros j Hj. unfold FENCE_MIN_STRIDE.
  rewrite (proj2 (get_at_None (@nil Z) j)), (proj2 (get_at_None (@nil (Z * Z)) (j * 16))) by (right; rewrite Zlen_nil; lia). done.
Qed.

Lemma plan_all keys : 0 < target -> Forall nonneg keys ->
  exists p, ofold planner_push keys (compact_records (planner_new target bs im) compact) = Some p /\
    if forallb viable keys && (rec_sum im compact keys <? U64) then planned keys p else refused p.
Proof.
  intros Ht Hn. destruct (push_all_planned keys [] _ ltac:(done) ltac:(done) Hn (new_planned Ht)) as (p & Hp & Hc).
  exists p. split; [done|]. cbn [app] in Hc. destruct (Z.eqb_spec (Zlen keys) 0) as [Hz|]; [|by rewrite orb_false_r in Hc].
  assert (keys = []) as -> by (by apply Zlen_zero_nil). done.
Qed.
End planner.

(** ** The answer in closed form *)

Definition fence_samples (target : Z) (keys : list (Z * Z)) : list Z :=
  let stride := fence_stride target (Zlen keys) in
  map (fun i => klen_at keys (i * stride)) (seqZ 0 (div_ceil (Zlen keys) stride)).

Definition planned_reserve (target bs im : Z) (compact : bool) (keys : list (Z * Z)) : Reserve :=
  let n := Zlen keys in
  let fence_n := div_ceil n (fence_stride target n) in
  let fence_at := HEADER + default 0 (hash_cap_for n) * SLOT + n * 4 in
  let recs_off := align_up (fence_at + (if fence_n =? 0 then 0 else (fence_n + 1) * 4) + sum (fence_samples target keys)) REC_ALIGN in
  mkReserve (block_table_len (blocks_of bs (outlined im keys)))
    (checksum_row_len (recs_off + rec_sum im compact keys) PIECE_SHIFT (2 ^ PIECE_SHIFT - 1))
    (if fence_n =? 0 then 0 else recs_off - fence_at) (n * 4).

Lemma fence_stride_pow target n : exists k, 4 <= k /\ fence_stride target n = 2 ^ k.
Proof.
  unfold fence_stride, next_power_of_two, FENCE_MIN_STRIDE. eexists. split; [|done].
  change 4 with (Z.log2_up 16). apply Z.log2_up_le_mono. lia.
Qed.

Lemma fence_n_range target n : 0 <= n -> 0 <= div_ceil n (fence_stride target n) <= n /\
  (div_ceil n (fence_stride target n) - 1) * fence_stride target n < n \/ n = 0 /\ div_ceil n (fence_stride target n) = 0.
Proof.
  intros Hn. destruct (fence_stride_pow target n) as (k & Hk & ->).
  assert (1 < 2 ^ k) by (apply Z.pow_gt_1; lia). destruct (div_ceil_spec n (2 ^ k) ltac:(lia) Hn).
  assert (0 <= div_ceil n (2 ^ k)) by (apply Z.div_pos; lia). destruct (Z.eq_dec n 0); [right|left]; nia.
Qed.

Lemma sum_bound (l : list Z) b : Forall (fun x => 0 <= x <= b) l -> 0 <= sum l <= b * Zlen l.
Proof. induction 1 as [|x l Hx Hl IH]; [znil; cbn; lia|]. rewrite Zlen_cons. cbn. unfold sum in *. lia. Qed.

Lemma ofold_cadd l acc : 0 <= acc -> Forall (fun x => 0 <= x) l -> acc + sum l < U64 ->
  ofold cadd l acc = Some (acc + sum l).
Proof.
  revert acc. induction l as [|x l IH]; intros acc Ha Hl Hs; cbn [ofold sum fold_right]; [by rewrite Z.add_0_r|].
  apply Forall_cons in Hl as [Hx Hl]. fold (sum l). cbn [sum fold_right] in Hs. fold (sum l) in Hs.
  assert (0 <= sum l) by (clear -Hl; induction Hl; cbn; unfold sum in *; lia).
  rewrite (proj2 (cadd_Some _ _ (acc + x))) by lia. cbn [option_bind mbind]. rewrite IH; [f_equal; lia|lia|done|lia].
Qed.

Section finish.
Context (target bs im : Z) (compact : bool) (Hbs : 0 <= bs < U64) (Ht : 0 < target).
Context (keys : list (Z * Z)) (Hn : Forall nonneg keys).

Abbreviation n := (Zlen keys).
Abbreviation stride := (fence_stride target n).
Abbreviation fence_n := (div_ceil n stride).

Lemma klen_at_range i : Forall (fun kr => viable kr = true) keys -> 0 <= klen_at keys i <= U16_MAX.
Proof.
  intros Hv. unfold klen_at. destruct (get_at keys i) as [kr|] eqn:E; cbn; [|unfold U16_MAX; lia].
  apply get_at_Some in E as [_ E%list_elem_of_lookup_2]. rewrite Forall_forall in Hn, Hv.
  specialize (Hn _ E) as [? _]. apply Hv, andb_true_iff in E as [?%Z.leb_le _]. done.
Qed.

Lemma blob_len p : Forall (fun kr => viable kr = true) keys -> planned bs im compact keys p -> Zlen keys < 2 ^ 40 ->
  fence_blob_len p stride fence_n = Some (sum (fence_samples target keys)).
Proof.
  intros Hv (_ & _ & _ & Hst & _ & _ & _ & _ & _ & Hs) Hlen. unfold fence_blob_len, fence_samples. rewrite Hst.
  pose proof (Zlen_nonneg keys). pose proof (fence_n_range target n ltac:(lia)) as Hf.
  assert (0 <= fence_n <= n) as Hfn by lia. destruct (fence_stride_pow target n) as (k & Hk & Hpow).
  assert (exists m, stride = m * FENCE_MIN_STRIDE /\ 0 < m) as (m & Hm & Hm0).
  { exists (2 ^ (k - 4)). rewrite Hpow. unfold FENCE_MIN_STRIDE. change 16 with (2 ^ 4). rewrite <- Z.pow_add_r by lia.
    split; [f_equal; lia|]. apply Z.pow_pos_nonneg; lia. }
  transitivity (ofold cadd (map (fun i => klen_at keys (i * stride)) (seqZ 0 fence_n)) 0).
  - assert (Forall (fun i => 0 <= i < fence_n) (seqZ 0 fence_n)) as Hall by (apply Forall_forall; intros i ?%elem_of_seqZ; lia).
    generalize 0 at 2 4 as acc. induction Hall as [|i l Hi Hall IH]; intros acc; cbn [ofold map]; [done|].
    enough (get_at (pl_sampled p) (i * stride / FENCE_MIN_STRIDE) = Some (klen_at keys (i * stride))) as ->.
    { cbn [option_bind mbind]. destruct (cadd acc _); cbn [option_bind mbind]; [apply IH|done]. }
    unfold klen_at. rewrite Hm, Z.mul_assoc, Z.div_mul by done. rewrite Hs by nia. rewrite <- Z.mul_assoc, <- Hm.
    destruct (get_at_is_Some keys (i * stride)) as [kr ->]; [|done]. nia.
  - rewrite ofold_cadd; [done|lia| |].
    + apply Forall_map, Forall_forall. intros i _. apply klen_at_range, Hv.
    + pose proof (sum_bound (map (fun i => klen_at keys (i * stride)) (seqZ 0 fence_n)) U16_MAX) as Hb.
      rewrite Zlen_map, Zlen_seqZ in Hb by lia. unfold U16_MAX, U64 in *.
      enough (Forall (fun x => 0 <= x <= 65535) (map (fun i => klen_at keys (i * stride)) (seqZ 0 fence_n))) as Hf2 by (specialize (Hb Hf2); nia).
      apply Forall_map, Forall_forall. intros i _. apply klen_at_range, Hv.
Qed.

Lemma finish_planned p : Forall (fun kr => viable kr = true) keys -> planned bs im compact keys p -> n < 2 ^ 40 ->
  planner_finish target p =
    if rec_sum im compact keys <=? MAX_RECS then Some (planned_reserve target bs im compact keys) else None.
Proof.
  intros Hv Hp Hlen. pose proof (blob_len p Hv Hp Hlen) as Hb. pose proof (Zlen_nonneg keys).
  pose proof (rec_sum_nonneg im compact keys Hn).
  destruct Hp as (Hpb & Hpi & Hpc & Hst & Hvi & Hk & Hr & Hcut & Hs).
  unfold planner_finish. rewrite Hvi, Hk, Hr. cbn [negb]. rewrite Hb. cbn [option_bind mbind].
  unfold section_layout. rewrite Z.ltb_antisym. destruct (Z.leb_spec (rec_sum im compact keys) MAX_RECS) as [Hle|]; [|done].
  cbn [negb]. unfold planned_reserve. destruct (hash_cap_for_spec n ltac:(lia)) as (k & _ & -> & _).
  cbn [option_bind mbind default]. cbv zeta iota. assert (cadd (rec_sum im compact keys) 0 = Some (rec_sum im compact keys)) as ->
    by (apply cadd_Some; unfold MAX_RECS, U32, U64 in *; lia).
  cbn [option_bind mbind]. rewrite (proj2 (Z.ltb_ge _ _)) by done. cbn [Z.eqb option_bind mbind sl_total sl_recs_off sl_fence_offs_off].
  unfold blocks_of. rewrite <- Hcut. done.
Qed.
End finish.

Lemma forallb_viable keys : forallb viable keys = true -> Forall (fun kr => viable kr = true) keys.
Proof. intros H. apply List.Forall_forall. by apply forallb_forall. Qed.

Lemma for_lengths_closed target bs im compact keys : 0 < target -> 0 <= bs < U64 -> Forall nonneg keys -> Zlen keys < 2 ^ 40 ->
  for_lengths_as target keys bs im compact =
    Some (if forallb viable keys && (rec_sum im compact keys <=? MAX_RECS)
          then Some (planned_reserve target bs im compact keys) else None).
Proof.
  intros Ht Hbs Hn Hlen. unfold for_lengths_as. destruct (plan_all target bs im compact Hbs keys Ht Hn) as (p & -> & Hp).
  cbn [option_bind mbind]. f_equal. destruct (forallb viable keys) eqn:Hv; cbn [andb] in *.
  - destruct (Z.ltb_spec (rec_sum im compact keys) U64) as [Hu|Hu].
    + apply (finish_planned target bs im compact keys Hn p (forallb_viable _ Hv) Hp Hlen).
    + rewrite (proj2 (Z.leb_gt _ _)) by (unfold MAX_RECS, U32, U64 in *; lia).
      unfold planner_finish. by rewrite (proj1 Hp).
  - unfold planner_finish. by rewrite (proj1 Hp).
Qed.

(** ** The bound from totals *)

Lemma align8_mono a b : a <= b -> align8 a <= align8 b.
Proof. intros. unfold align8, div_ceil. apply Z.mul_le_mono_nonneg_r; [lia|]. apply Z.div_le_mono; lia. Qed.

Definition covers (a b : Reserve) : Prop :=
  rv_table a <= rv_table b /\ rv_row a <= rv_row b /\ rv_fence a <= rv_fence b /\ rv_directory a <= rv_directory b.

Lemma covers_bytes a b : covers a b -> reserve_bytes a <= reserve_bytes b.
Proof.
  intros (Ht & Hr & Hf & Hd). unfold reserve_bytes, fits.
  pose proof (align8_mono _ _ Ht). pose proof (align8_mono (align8 (rv_table a) + rv_row a) (align8 (rv_table b) + rv_row b) ltac:(lia)).
  pose proof (align8_mono (align8 (align8 (rv_table a) + rv_row a) + rv_fence a) (align8 (align8 (rv_table b) + rv_row b) + rv_fence b) ltac:(lia)). lia.
Qed.

Lemma row_len_mono a b base : a <= b -> checksum_row_len a PIECE_SHIFT base <= checksum_row_len b PIECE_SHIFT base.
Proof.
  intros. unfold checksum_row_len, piece_count, PIECE_SHIFT. cbv zeta. change (Z.shiftl 1 14) with 16384.
  unfold div_ceil. apply Z.mul_le_mono_nonneg_r; [lia|]. apply Z.div_le_mono; lia.
Qed.

Lemma is_inlined_zero n : is_inlined 0 n = false.
Proof. done. Qed.

Lemma key_rec_mono k1 r1 k2 r2 c1 c2 : k1 <= k2 -> key_rec 0 c1 (k1, r1) <= key_rec 0 c2 (k2, r2).
Proof.
  intros Hk. unfold key_rec, segment_record_len. cbn [fst snd]. rewrite !is_inlined_zero, !andb_false_r. cbn [andb].
  unfold record_len_tail, record_len, REC_ALIGN. pose proof (align_up_mono (4 + k1) (4 + k2) 4). lia.
Qed.

Section totals.
Context (target bs mk mr : Z) (Ht : 0 < target) (Hbs : 0 <= bs < U64) (Hmk : 0 <= mk <= U16_MAX) (Hmr : 0 <= mr <= MAX_RUN).
Context (keys : list (Z * Z)) (Hkeys : Forall (fun '(k, r) => 0 <= k <= mk /\ 0 <= r <= mr) keys) (Hlen : Zlen keys < 2 ^ 40).

Definition even (per : Z) : list (Z * Z) := repeat (mk, per) (Z.to_nat (Zlen keys)).

Lemma Zlen_even per : Zlen (even per) = Zlen keys.
Proof. unfold even, Zlen. rewrite repeat_length. lia. Qed.

Lemma even_get per i : 0 <= i < Zlen keys -> get_at (even per) i = Some (mk, per).
Proof.
  intros Hi. destruct (get_at_is_Some (even per) i) as [x Hx]; [by rewrite Zlen_even|]. rewrite Hx.
  apply get_at_Some in Hx as [_ Hx%list_elem_of_lookup_2%list_elem_of_In]. by apply repeat_spec in Hx as ->.
Qed.

Lemma keys_nonneg : Forall nonneg keys.
Proof. eapply Forall_impl; [exact Hkeys|]. intros [k r]. unfold nonneg. cbn. lia. Qed.

Lemma even_nonneg per : 0 <= per -> Forall nonneg (even per).
Proof. intros. apply List.Forall_forall. intros x ->%repeat_spec. unfold nonneg. cbn. lia. Qed.

Lemma keys_viable : forallb viable keys = true.
Proof.
  apply forallb_forall. intros [k r] Hin. rewrite List.Forall_forall in Hkeys. apply Hkeys in Hin.
  apply andb_true_iff. cbn. split; apply Z.leb_le; lia.
Qed.

Lemma rec_sum_even c per : rec_sum 0 COMPACT_RECORDS keys <= rec_sum 0 c (even per).
Proof.
  unfold even. rewrite Zlen_to_nat. unfold rec_sum. generalize Hkeys. clear Hlen Hkeys. induction 1 as [|[k r] keys' Hk _ IH]; [done|].
  cbn [length repeat map sum fold_right]. fold (sum (map (key_rec 0 COMPACT_RECORDS) keys')).
  fold (sum (map (key_rec 0 c) (repeat (mk, per) (length keys')))). destruct Hk as [Hk _].
  pose proof (key_rec_mono k r mk per COMPACT_RECORDS c ltac:(lia)). lia.
Qed.

Lemma outlined_zero l : outlined 0 l = map snd l.
Proof. by apply List.forallb_filter_id, forallb_forall. Qed.

Lemma sum_le {A} (f g : A -> Z) (l : list A) : Forall (fun x => f x <= g x) l -> sum (map f l) <= sum (map g l).
Proof. induction 1; cbn; unfold sum in *; lia. Qed.

Lemma planned_covers per : 0 <= per -> 0 < Zlen keys ->
  rv_row (planned_reserve target bs 0 COMPACT_RECORDS keys) <= rv_row (planned_reserve target bs 0 false (even per)) /\
  rv_fence (planned_reserve target bs 0 COMPACT_RECORDS keys) <= rv_fence (planned_reserve target bs 0 false (even per)) /\
  rv_directory (planned_reserve target bs 0 COMPACT_RECORDS keys) = rv_directory (planned_reserve target bs 0 false (even per)).
Proof.
  intros Hper Hpos. unfold planned_reserve. cbn [rv_row rv_fence rv_directory]. rewrite Zlen_even.
  set (n := Zlen keys) in *. set (fn := div_ceil n (fence_stride target n)). set (cap := default 0 (hash_cap_for n)).
  assert (sum (fence_samples target keys) <= sum (fence_samples target (even per))) as Hs.
  { unfold fence_samples. rewrite Zlen_even. fold n fn. apply sum_le, Forall_forall. intros i [Hi Hi2]%elem_of_seqZ.
    destruct (fence_n_range target n ltac:(lia)) as [Hf|Hf]; [|lia]. fold fn in Hf. unfold klen_at at 2.
    destruct (fence_stride_pow target n) as (k & Hk & Hp). pose proof (Z.pow_pos_nonneg 2 k).
    rewrite even_get by (fold n; nia). cbn. unfold klen_at. destruct (get_at keys _) as [[k0 r0]|] eqn:E; cbn; [|lia].
    apply get_at_Some in E as [_ E%list_elem_of_lookup_2]. rewrite Forall_forall in Hkeys. apply Hkeys in E. lia. }
  set (fo := if fn =? 0 then 0 else (fn + 1) * 4). pose proof (rec_sum_even false per).
  pose proof (align_up_mono (HEADER + cap * SLOT + n * 4 + fo + sum (fence_samples target keys))
    (HEADER + cap * SLOT + n * 4 + fo + sum (fence_samples target (even per))) REC_ALIGN ltac:(done) ltac:(lia)).
  split; [apply row_len_mono; lia|]. split; [destruct (fn =? 0); lia|done].
Qed.
End totals.

Lemma block_table_mono a b : a <= b -> block_table_len a <= block_table_len b.
Proof. unfold block_table_len, BLK_ENTRY, CRC_ROW, MAX_CHUNK_CRCS. lia. Qed.

(** For a writer that puts every run in a block, [from_totals] is the
    upper bound it says it is: it refuses or covers, piece by piece and in all,
    the reserve [for_lengths] computes for any keys with those totals, however
    unevenly the lengths fall. *)
Theorem from_totals_bound target bs mk mr keys need :
  0 < target -> 0 <= bs < U64 -> 0 <= mk <= U16_MAX -> 0 <= mr <= MAX_RUN -> Zlen keys < 2 ^ 40 ->
  Forall (fun '(k, r) => 0 <= k <= mk /\ 0 <= r <= mr) keys ->
  from_totals target (Zlen keys) mk mr (sum (map snd keys)) bs 0 = Some (Some need) ->
  exists r, for_lengths target keys bs 0 = Some (Some r) /\ covers r need /\ reserve_bytes r <= reserve_bytes need.
Proof.
  intros Ht Hbs Hmk Hmr Hlen Hkeys. pose proof (Zlen_nonneg keys). unfold from_totals.
  destruct (Z.eqb_spec (Zlen keys) 0) as [Hz|Hz].
  { apply Zlen_zero_nil in Hz as ->. intros Hf. exists need. split; [exact Hf|]. unfold covers. lia. }
  set (per := Z.min _ mr). assert (0 <= per <= mr) as Hper by lia. clearbody per. fold (even mk keys per).
  pose proof (keys_nonneg mk mr keys Hkeys) as Hnn. pose proof (even_nonneg mk Hmk keys per ltac:(lia)) as Hen.
  pose proof (for_lengths_closed target bs 0 false (even mk keys per) Ht Hbs Hen ltac:(by rewrite Zlen_even)) as He.
  unfold for_lengths_as in He. destruct (ofold _ _ _) as [p|]; [|done]. cbn [option_bind mbind] in *. injection He as ->.
  destruct (forallb viable (even mk keys per)); [|done]. cbn [andb].
  destruct (Z.leb_spec (rec_sum 0 false (even mk keys per)) MAX_RECS) as [Hrec|]; [|done].
  assert (outlined 0 (even mk keys per) = repeat per (Z.to_nat (Zlen keys))) as Hsnd
    by (rewrite outlined_zero; unfold even; by rewrite map_repeat).
  rewrite blocks_for_pure; [|done|apply List.Forall_forall; intros x ->%repeat_spec; unfold MAX_RUN, U32, U64 in *; lia].
  cbn [option_bind mbind]. remember (planned_reserve target bs 0 false (even mk keys per)) as e eqn:Ee. intros [= <-].
  pose proof (rec_sum_even mk mr keys Hkeys false per) as Hre.
  pose proof (for_lengths_closed target bs 0 COMPACT_RECORDS keys Ht Hbs Hnn Hlen) as Hfl.
  rewrite (keys_viable mk mr Hmk Hmr keys Hkeys), (proj2 (Z.leb_le _ MAX_RECS)) in Hfl by lia. cbn [andb] in Hfl.
  eexists. split; [exact Hfl|]. match goal with |- ?P /\ _ => enough P by (split; [done|by apply covers_bytes]) end.
  destruct (planned_covers target bs mk mr Hmk keys Hkeys Hlen per ltac:(lia) ltac:(lia)) as (Hrow & Hfence & Hdir).
  assert (Forall (fun n => 0 <= n <= mr) (map snd keys)) as Hruns.
  { apply Forall_map. eapply Forall_impl; [exact Hkeys|]. intros [k r]. cbn. lia. }
  pose proof (blocks_of_bound bs mr (map snd keys) Hbs ltac:(lia) Hruns) as Hb. rewrite Zlen_map in Hb.
  specialize (Hb ltac:(eapply Forall_impl; [exact Hruns|]; intros n; unfold MAX_RUN, U32, U64 in *; cbn; lia)).
  assert (rv_table (planned_reserve target bs 0 COMPACT_RECORDS keys) = block_table_len (blocks_of bs (map snd keys))) as Htab
    by (unfold planned_reserve; cbn [rv_table]; by rewrite outlined_zero).
  assert (rv_table (planned_reserve target bs 0 false (even mk keys per)) = block_table_len (blocks_of bs (repeat per (Z.to_nat (Zlen keys))))) as Htab2
    by (unfold planned_reserve; cbn [rv_table]; by rewrite Hsnd).
  rewrite <- Ee in *. clear Ee. set (k := planned_reserve target bs 0 COMPACT_RECORDS keys) in *. clearbody k.
  unfold covers. destruct (Z.ltb_spec (blocks_of bs (repeat per (Z.to_nat (Zlen keys))))
    (if bs <=? mr then Zlen keys else Z.min (div_ceil (sum (map snd keys)) (bs - mr)) (Zlen keys)));
    cbn [rv_table rv_row rv_fence rv_directory]; rewrite ?Htab, ?Htab2;
    (split; [apply block_table_mono; lia|lia]).
Qed.

Lemma from_totals_bound_witness :
  let keys := [(4, 64); (2, 1); (3, 1)] in
  exists need r, from_totals 2048 (Zlen keys) 4 64 (sum (map snd keys)) 128 0 = Some (Some need) /\
    for_lengths 2048 keys 128 0 = Some (Some r) /\ covers r need /\ reserve_bytes r <= reserve_bytes need.
Proof.
  intros keys. assert (from_totals 2048 (Zlen keys) 4 64 (sum (map snd keys)) 128 0 = Some (Some (mkReserve 208 8 12 12))) as E
    by (by vm_compute).
  destruct (from_totals_bound 2048 128 4 64 keys (mkReserve 208 8 12 12)) as (r & Hr & Hc & Hb);
    [lia|unfold U64; lia|unfold U16_MAX; lia|unfold MAX_RUN, U32; lia|done| |exact E|].
  { repeat (apply Forall_cons; split; [lia|]). by apply Forall_nil. }
  exists (mkReserve 208 8 12 12), r. split; [exact E|]. split; [exact Hr|]. split; [exact Hc|exact Hb].
Defined.

(** C36: with an inline limit, [from_totals] is not the upper bound it says it
    is: for ten keys whose average run is inline and whose longest is not, it
    sizes a table of no blocks where the writer needs one, and its whole
    reserve is smaller than the one [for_lengths] computes. *)
Theorem from_totals_short :
  exists keys need r,
    Forall (fun '(k, n) => 0 <= k <= 4 /\ 0 <= n <= 64) keys /\
    from_totals 2048 (Zlen keys) 4 64 (sum (map snd keys)) 65536 16 = Some (Some need) /\
    for_lengths 2048 keys 65536 16 = Some (Some r) /\
    rv_table need < rv_table r /\ reserve_bytes need < reserve_bytes r.
Proof.
  exists ((4, 64) :: repeat (4, 1) 9). do 2 eexists. split; [repeat (apply Forall_cons; split; [lia|]); by apply Forall_nil|].
  split; [by vm_compute|]. split; [by vm_compute|]. by vm_compute.
Qed.

(** Streaming the keys through the planner answers what the whole input
    does at once: it refuses exactly where some key or run is past the writer's
    limits or the records are past the section's, and otherwise answers the
    four pieces in closed form -- the table of the blocks the cut makes, the
    row at its worst alignment, the span of the fence over every stride's key,
    and four bytes a key -- with no sum of it overflowing and nothing of it
    panicking. *)
Theorem for_lengths_exact target bs im compact keys : 0 < target -> 0 <= bs < U64 -> Forall nonneg keys -> Zlen keys < 2 ^ 40 ->
  for_lengths_as target keys bs im compact =
    Some (if forallb viable keys && (rec_sum im compact keys <=? MAX_RECS)
          then Some (planned_reserve target bs im compact keys) else None).
Proof. apply for_lengths_closed. Qed.

Lemma for_lengths_exact_witness :
  for_lengths_as 2048 [(4, 64); (4, 1)] 65536 16 true = Some (Some (planned_reserve 2048 65536 16 true [(4, 64); (4, 1)])) /\
  for_lengths_as 2048 [(4, 64); (65536, 1)] 65536 16 true = Some None.
Proof.
  split; (rewrite for_lengths_exact; [by vm_compute|lia|unfold U64; lia| |by vm_compute]);
    (repeat (apply Forall_cons; split; [unfold nonneg; cbn; lia|]); by apply Forall_nil).
Defined.
