(* ===== verification/FlatRead.v ===== *)
(** * The flat index, read

    The methods of [FlatIndex] over a parsed section ([src/src/flatindex.rs]):
    the record at an offset, the probes of the hash ([lookup_full],
    [slot_of], [slot_for_insert]), the rank directory ([at_full], [key_at]
    and the spans hints are computed from), the ordered seek with its fence
    and the check of the fence's answer, and the slack a writer reserves
    records in. [FenceView] is the fence held on its own, for a section that
    is not resident.

    Two groups of theorems: what a section whose records are sound answers,
    whatever its fence says ([seek_damaged_fence]), and what a section the
    writer laid out answers ([flat_roundtrip]). *)

From S2P Require Import Prelude Varint Runs Crc Records HashTable FlatIndex.

Definition BUMP_AT : Z := 112.
Definition DIR_STATE_AT : Z := 152.

(** ** The fence on its own *)

Record FenceView := mkFence { fv_offs : bytes; fv_blob : bytes; fv_n : Z; fv_stride : Z }.

Definition fence_parse (region : bytes) (h : Header) : option FenceView :=
  if (hd_fence_n h =? 0) || (hd_fence_stride h =? 0) || (hd_nkeys h <? hd_fence_n h) then None
  else if negb (hd_fence_n h =? div_ceil (hd_nkeys h) (hd_fence_stride h)) then None
  else
    n1 ← cadd (hd_fence_n h) 1;
    offs_len ← cmul n1 4;
    offs ← get_range region 0 offs_len;
    blob_len ← rd_u32 offs (hd_fence_n h * 4);
    blob_end ← cadd offs_len blob_len;
    blob ← get_range region offs_len blob_end;
    Some (mkFence offs blob (hd_fence_n h) (hd_fence_stride h)).

Definition region_len (v : FenceView) : Z := Zlen (fv_offs v) + Zlen (fv_blob v).

(** The key between two offsets: the one reader of a fence's entry. *)
Definition offs_key (offs blob : bytes) (i : Z) : option bytes :=
  a ← rd_u32 offs (i * 4);
  b ← rd_u32 offs ((i + 1) * 4);
  if b <? a then None else get_range blob a b.

Definition view_key (v : FenceView) (i : Z) : option bytes := offs_key (fv_offs v) (fv_blob v) i.

(** The ranks between the fence's entries around [key]. *)
Definition window_of (key_at : Z -> option bytes) (n stride : Z) (key : bytes) (nkeys : Z) : Z * Z :=
  let lo := bsearch (less_than key_at key) 0 n in
  let start := ssub lo 1 * stride in
  (start, Z.max (Z.min (lo * stride) nkeys) start).

Definition window (v : FenceView) (key : bytes) (nkeys : Z) : Z * Z := window_of (view_key v) (fv_n v) (fv_stride v) key nkeys.

(** ** Records of a section *)

Section read.
Context (f : FlatIndex) (base : Z) (sec : bytes).

Definition recs_slice : option bytes := get_range sec (fx_recs f).1 (fx_recs f).2.
Definition dir_slice : option bytes := get_range sec (fx_dir f).1 (fx_dir f).2.

Definition record_full (off : Z) : option (bytes * Exts * bytes) :=
  recs ← recs_slice;
  '(k, e, t, _) ← parse_record (base + (fx_recs f).1) recs off;
  Some (k, e, t).

Definition record (off : Z) : option (bytes * Exts) :=
  '(k, e, _) ← record_full off; Some (k, e).

(** *** Probes *)

Definition lookup_full (hash_of : bytes -> Z) (key : bytes) : option (Exts * bytes) :=
  hash ← get_range sec (fx_hash f).1 (fx_hash f).2;
  probe hash (fx_hash_cap f) (hash_of key) (fun _ off =>
    '(k, exts, tail) ← record_full off;
    if beqb k key then Some (exts, tail) else None).

Definition lookup (hash_of : bytes -> Z) (key : bytes) : option Exts :=
  '(e, _) ← lookup_full hash_of key; Some e.

(** The record's parts are handed to [g], the record region sliced once. *)
Definition with_lookup {R} (hash_of : bytes -> Z) (key : bytes) (g : list Ext -> bytes -> R) : option R :=
  hash ← get_range sec (fx_hash f).1 (fx_hash f).2;
  recs ← recs_slice;
  probe hash (fx_hash_cap f) (hash_of key) (fun _ off =>
    '(k, exts, tail, _) ← parse_record (base + (fx_recs f).1) recs off;
    if beqb k key then Some (g (exts_deref exts) tail) else None).

Definition slot_of (hash_of : bytes -> Z) (key : bytes) : option Z :=
  hash ← get_range sec (fx_hash f).1 (fx_hash f).2;
  probe hash (fx_hash_cap f) (hash_of key) (fun s off =>
    '(k, _) ← record off;
    if beqb k key then Some ((fx_hash f).1 + s * SLOT) else None).

(** The slot of the first empty word on the key's probe; [None] where the
    key is there, or no slot is empty. *)
Fixpoint insert_go (fuel : nat) (hash : bytes) (tag s : Z) (key : bytes) : option Z :=
  match fuel with
  | O => None
  | S fuel =>
      packed ← rd_u64 hash (s * SLOT);
      if packed =? 0 then Some ((fx_hash f).1 + s * SLOT)
      else
        let next := insert_go fuel hash tag (Z.land (s + 1) (fx_mask f)) key in
        if Z.shiftr packed 56 =? tag then
          match record (Z.land packed 0x00ffffffffffffff) with
          | Some (k, _) => if beqb k key then None else next
          | None => next
          end
        else next
  end.

Definition slot_for_insert (hash_of : bytes -> Z) (key : bytes) : option Z :=
  hash ← get_range sec (fx_hash f).1 (fx_hash f).2;
  let h := hash_of key in
  insert_go (Z.to_nat (fx_hash_cap f)) hash (slot_tag h) (Z.land h (fx_mask f)) key.

(** *** Ranks *)

Definition regions : option (bytes * bytes) := recs ← recs_slice; dir ← dir_slice; Some (recs, dir).

Definition at_full_in (recs dir : bytes) (rank : Z) : option (bytes * Exts * bytes) :=
  if fx_nkeys f <=? rank then None
  else
    off ← rd_u32 dir (rank * 4);
    '(k, e, t, _) ← parse_record (base + (fx_recs f).1) recs off;
    Some (k, e, t).

Definition at_full (rank : Z) : option (bytes * Exts * bytes) :=
  '(recs, dir) ← regions; at_full_in recs dir rank.

Definition with_record_at {R} (rank : Z) (g : list Ext -> bytes -> R) : option R :=
  if fx_nkeys f <=? rank then None
  else
    recs ← recs_slice; dir ← dir_slice;
    off ← rd_u32 dir (rank * 4);
    '(_, exts, tail, _) ← parse_record (base + (fx_recs f).1) recs off;
    Some (g (exts_deref exts) tail).

Definition key_at (rank : Z) : option bytes :=
  if fx_nkeys f <=? rank then None
  else
    recs ← recs_slice; dir ← dir_slice;
    off ← rd_u32 dir (rank * 4);
    record_key recs off.

Definition record_span (dir : bytes) (rank n : Z) : option (Z * Z) :=
  if fx_nkeys f <=? rank then None
  else
    let last := Z.min (sadd rank n) (fx_nkeys f - 1) in
    a ← rd_u32 dir (rank * 4);
    b ← rd_u32 dir (last * 4);
    Some (a, Z.max b a).

Definition dir_span (rank n : Z) : option (Z * Z) :=
  if fx_nkeys f <=? rank then None
  else Some (rank * 4, Z.min (sadd rank n) (fx_nkeys f) * 4).

Definition record_off (dir : bytes) (rank : Z) : option Z :=
  if fx_nkeys f <=? rank then None else rd_u32 dir (rank * 4).

Definition dir_entries : option bytes := get_range sec (fx_dir f).1 ((fx_dir f).1 + fx_nkeys f * 4).

(** *** Seeks *)

Definition fence_key (i : Z) : option bytes :=
  if fx_fence_n f <=? i then None
  else
    offs ← get_range sec (fx_fence_offs f).1 (fx_fence_offs f).2;
    a ← rd_u32 offs (i * 4);
    b ← rd_u32 offs ((i + 1) * 4);
    if b <? a then None
    else blob ← get_range sec (fx_fence_blob f).1 (fx_fence_blob f).2; get_range blob a b.

Definition fence_window (key : bytes) : Z * Z :=
  if (fx_fence_n f =? 0) || (fx_fence_stride f =? 0) then (0, fx_nkeys f)
  else window_of fence_key (fx_fence_n f) (fx_fence_stride f) key (fx_nkeys f).

(** A record that will not decode sorts as not less. *)
Definition search (key : bytes) (lo hi : Z) : Z := bsearch (less_than key_at key) lo hi.

Definition brackets (key : bytes) (r : Z) : bool :=
  if fx_nkeys f <? r then false
  else
    (if 0 <? r then match key_at (r - 1) with Some k => bltb k key | None => false end else true) &&
    (if r <? fx_nkeys f then match key_at r with Some k => negb (bltb k key) | None => false end else true).

Definition seek_with (key : bytes) (fence : bool) : Z :=
  let full := search key 0 (fx_nkeys f) in
  if fence && (0 <? fx_fence_n f) then
    let '(lo, hi) := fence_window key in
    let r := search key lo hi in
    if brackets key r then r else full
  else full.

Definition rank_for (key : bytes) : Z := Z.min (seek_with key true) (fx_nkeys f).

Definition dir_slot_of (key : bytes) : option Z :=
  let rank := seek_with key true in
  if fx_nkeys f <=? rank then None
  else
    k ← key_at rank;
    if negb (beqb k key) then None else Some ((fx_dir f).1 + rank * 4).

(** *** The slack *)

Definition spare_dir : option (Z * Z) :=
  if fx_dir_cap f =? 0 then None
  else
    let second := fx_dir_base f + fx_dir_cap f * 4 in
    Some (if (fx_dir f).1 =? fx_dir_base f then second else fx_dir_base f, fx_dir_cap f).

Definition with_bump (at_ : Z) : FlatIndex :=
  mkFlat (fx_hash f) (fx_dir f) (fx_dir_cap f) (fx_dir_base f) (fx_recs f) (fx_hash_cap f) (fx_mask f) (fx_nkeys f)
    (fx_mean_record_len f) (fx_recs_off f) (fx_recs_cap f) at_ (fx_fence_offs f) (fx_fence_blob f) (fx_fence_n f)
    (fx_fence_stride f) (fx_generation f) (fx_crc_off f) (fx_piece_shift f) (fx_prev f).

Definition set_bump (at_ : Z) : FlatIndex := with_bump (clamp at_ 0 (fx_recs_cap f)).

(** The record's place in the section and in the record region, and the
    index with its cursor past it. *)
Definition reserve (len : Z) : option (Z * Z * FlatIndex) :=
  fin ← cadd (fx_bump f) (align_up len REC_ALIGN);
  if fx_recs_cap f <? fin then None
  else Some (fx_recs_off f + fx_bump f, w32 (fx_bump f), with_bump fin).
End read.

(** The word that publishes a directory. *)
Definition dir_state (at_ nkeys : Z) : Z := Z.lor (Z.shiftl at_ 32) nkeys.

Definition encode_record (key : bytes) (exts : list Ext) : option bytes :=
  if (U16_MAX <? Zlen key) || (U16_MAX <? Zlen exts) then None
  else
    let out := zeros (record_len (Zlen key) (Zlen exts)) in
    out ← put_range out 0 (le16 (Zlen key));
    out ← put_range out 2 (le16 (Zlen exts));
    out ← put_range out 4 key;
    '(out, _) ← put_exts out (align_up (4 + Zlen key) REC_ALIGN) exts;
    Some out.

Fixpoint decode_exts (n : nat) (rec : bytes) (at_ : Z) : option (list Ext) :=
  match n with
  | O => Some []
  | S n =>
      b ← get_range rec at_ (at_ + EXT_BYTES);
      e ← ext_of_bytes b;
      exts ← decode_exts n rec (at_ + EXT_BYTES);
      Some (e :: exts)
  end.

Definition decode_record (base : Z) (rec : bytes) : option (bytes * list Ext) :=
  klen ← rd_u16 rec 0;
  n ← rd_u16 rec 2;
  key ← get_range rec 4 (4 + klen);
  let at_ := align_up (4 + klen) REC_ALIGN in
  if negb (Z.land n COMPACT =? 0) then
    '(_, exts, _, _) ← parse_record base rec 0;
    Some (key, exts_deref exts)
  else
    exts ← decode_exts (Z.to_nat n) rec at_;
    Some (key, exts).

(** ** Seeks *)

Lemma less_than_ext f g key : (forall i, f i = g i) -> forall i, less_than f key i = less_than g key i.
Proof. intros H i. unfold less_than. by rewrite H. Qed.

Lemma bsearch_range_any less lo hi : lo <= bsearch less lo hi /\ bsearch less lo hi <= Z.max lo hi.
Proof.
  destruct (Z.lt_ge_cases hi lo).
  - unfold bsearch. replace (Z.to_nat (hi - lo)) with O by lia. cbn [bsearch_go]. lia.
  - pose proof (bsearch_range less lo hi). lia.
Qed.

(** The window of a fence whose entries are the keys at every stride's
    rank. *)
Lemma window_of_brackets keys fence n stride key r : ascending keys -> 0 < stride -> n = div_ceil (Zlen keys) stride ->
  (forall i, 0 <= i < n -> fence i = get_at keys (i * stride)) -> lower_bound_at (get_at keys) (Zlen keys) key r ->
  let '(lo, hi) := window_of fence n stride key (Zlen keys) in 0 <= lo <= r /\ r <= hi <= Zlen keys /\ hi - lo <= stride.
Proof.
  intros Ha Hs Hn Hf (Hr & Hl & Hg). unfold window_of. pose proof (Zlen_nonneg keys) as Hk.
  destruct (div_ceil_spec (Zlen keys) stride Hs Hk) as [Hd1 Hd2]. rewrite <- Hn in *.
  (* the first entry not less than the key *)
  destruct (div_ceil_spec r stride Hs ltac:(lia)) as [Hp1 Hp2]. set (p := div_ceil r stride) in *.
  assert (0 <= p) by (apply Z.div_pos; lia). assert (0 <= n) by (rewrite Hn; apply Z.div_pos; lia).
  assert (p <= n) by nia.
  assert (bsearch (less_than fence key) 0 n = p) as ->.
  { apply bsearch_point; [lia| |]; intros i Hi; unfold less_than; rewrite Hf by lia.
    - destruct (Hl (i * stride)) as (k & -> & Hlt); [nia|]. by destruct (bltb_spec k key).
    - destruct (Hg (i * stride)) as (k & -> & Hle); [nia|]. destruct (bltb_spec k key); [|done]. by apply ble_not_lt in Hle. }
  unfold ssub. nia.
Qed.

Section seek.
Context (f : FlatIndex) (sec : bytes) (keys : list bytes).
Context (Hkeys : forall i, key_at f sec i = get_at keys i) (Hn : fx_nkeys f = Zlen keys) (Hasc : ascending keys).

(** What the two probes accept is the answer. *)
Lemma brackets_sound key r : 0 <= r -> brackets f sec key r = true -> lower_bound_at (get_at keys) (Zlen keys) key r.
Proof.
  intros H0. unfold brackets. rewrite Hn. destruct (Z.ltb_spec (Zlen keys) r); [done|].
  rewrite !Hkeys. intros [Hb Ha]%andb_true_iff. split; [lia|]. split.
  - intros i Hi. rewrite (proj2 (Z.ltb_lt 0 r)) in Hb by lia. destruct (get_at keys (r - 1)) as [k|] eqn:E; [|done].
    destruct (bltb_spec k key) as [Hk|]; [|done]. destruct (get_at_is_Some keys i) as [x Hx]; [lia|]. exists x. split; [done|].
    destruct (decide (i = r - 1)) as [->|]; [congruence|]. eapply blt_trans; [|exact Hk]. apply (Hasc i (r - 1)); [lia|done|done].
  - intros i Hi. rewrite (proj2 (Z.ltb_lt r _)) in Ha by lia. destruct (get_at keys r) as [k|] eqn:E; [|done].
    destruct (bltb_spec k key) as [|Hk]; [done|]. apply ble_not_lt in Hk.
    destruct (get_at_is_Some keys i) as [x Hx]; [lia|]. exists x. split; [done|].
    destruct (decide (i = r)) as [->|]; [congruence|]. eapply ble_trans; [exact Hk|]. apply blt_le. apply (Hasc r i); [lia|done|done].
Qed.

Lemma search_full key r : lower_bound_at (get_at keys) (Zlen keys) key r -> search f sec key 0 (fx_nkeys f) = r.
Proof.
  intros Hr. unfold search. apply (bsearch_lower_bound _ (Zlen keys)); [|lia|rewrite Hn; apply Hr|lia].
  destruct Hr as (H & Hl & Hg). split; [done|]. by split; intros i Hi; rewrite Hkeys; [apply Hl|apply Hg].
Qed.

Lemma window_of_nonneg g n stride key m : 0 <= stride -> 0 <= (window_of g n stride key m).1.
Proof. intros. unfold window_of, ssub. cbn [fst]. nia. Qed.

Lemma seek_lower_bound key fence : 0 <= fx_fence_stride f -> lower_bound_at (get_at keys) (Zlen keys) key (seek_with f sec key fence).
Proof.
  intros Hst. destruct (lower_bound_exists keys key Hasc) as (r & Hr). pose proof (search_full key r Hr) as Hs. unfold seek_with.
  rewrite Hs. destruct (fence && _); [|done]. destruct (fence_window f sec key) as [lo hi] eqn:Ew.
  destruct (brackets _ _ _ _) eqn:Eb; [|done]. apply brackets_sound; [|done].
  assert (0 <= lo) as Hlo.
  { pose proof (window_of_nonneg (fence_key f sec) (fx_fence_n f) (fx_fence_stride f) key (fx_nkeys f) Hst) as Hw.
    unfold fence_window in Ew. destruct (_ || _); [injection Ew as <- <-; lia|]. rewrite Ew in Hw. exact Hw. }
  pose proof (bsearch_range_any (less_than (key_at f sec) key) lo hi). unfold search. lia.
Qed.

Lemma dir_slot_spec key : 0 <= fx_fence_stride f -> dir_slot_of f sec key =
  let r := seek_with f sec key true in
  if decide (get_at keys r = Some key) then Some ((fx_dir f).1 + r * 4) else None.
Proof.
  intros Hst. pose proof (seek_lower_bound key true Hst) as (Hr & _). unfold dir_slot_of. cbv zeta. rewrite Hkeys, Hn.
  destruct (Z.leb_spec (Zlen keys) (seek_with f sec key true)).
  - destruct (decide _) as [[? E]%get_at_Some|]; [|done]. apply lookup_lt_Some in E. unfold Zlen in *. lia.
  - destruct (get_at keys _) as [k|]; cbn [option_bind mbind].
    + destruct (beqb_spec k key) as [->|]; destruct (decide _); cbn [negb]; congruence.
    + by destruct (decide _).
Qed.
End seek.

(** Whatever a section's fence says, damaged or not, a seek over records
    that read in ascending order answers the first rank whose key is not less
    than the one asked for, with the fence and without it; and a key's
    directory slot is found exactly when the key is there. *)
Theorem seek_damaged_fence f sec keys key fence :
  (forall i, key_at f sec i = get_at keys i) -> fx_nkeys f = Zlen keys -> ascending keys -> 0 <= fx_fence_stride f ->
  lower_bound_at (get_at keys) (Zlen keys) key (seek_with f sec key fence) /\
  seek_with f sec key fence = seek_with f sec key false /\
  rank_for f sec key = seek_with f sec key false /\
  (is_Some (dir_slot_of f sec key) <-> key ∈ keys).
Proof.
  intros Hk Hn Ha Hst. pose proof (fun b => seek_lower_bound f sec keys Hk Hn Ha key b Hst) as Hseek.
  split; [apply Hseek|]. split; [eapply lower_bound_unique; apply Hseek|]. split.
  - unfold rank_for. rewrite (lower_bound_unique _ _ _ _ _ (Hseek true) (Hseek false)). destruct (Hseek false) as (? & _). lia.
  - rewrite (dir_slot_spec f sec keys Hk Hn Ha key Hst). cbv zeta. destruct (Hseek true) as (Hr & Hl & Hg). set (r := seek_with f sec key true) in *. split.
    + destruct (decide _) as [[_ E]%get_at_Some|]; [|intros [? ?]; done]. intros _. by eapply list_elem_of_lookup_2.
    + intros [i Hi]%list_elem_of_lookup_1. assert (get_at keys (Z.of_nat i) = Some key) as Hi'.
      { apply get_at_Some. rewrite Nat2Z.id. split; [lia|done]. }
      pose proof (get_at_lt _ _ _ Hi') as Hlt. destruct (Z.lt_trichotomy (Z.of_nat i) r) as [H|[<-|H]].
      * destruct (Hl (Z.of_nat i)) as (k & Hk' & Hlt'); [lia|]. rewrite Hi' in Hk'. injection Hk' as <-. by apply blt_irrefl in Hlt'.
      * rewrite decide_True by done. eauto.
      * destruct (Hg r) as (k & Hk' & Hle); [lia|]. pose proof (Ha _ _ _ _ H Hk' Hi'). by apply ble_not_lt in Hle.
Qed.

(** ** The readers agree *)

(** What a probe finds is what the comparison answered for a slot's record. *)
Lemma probe_go_sound {A} fuel hash mask tag s (test : Z -> Z -> option A) r :
  probe_go fuel hash mask tag s test = Some r -> exists s' off, test s' off = Some r.
Proof.
  revert s. induction fuel as [|fuel IH]; intros s; [done|]. cbn [probe_go].
  destruct (rd_u64 hash _) as [p|]; [|done]. cbn [option_bind mbind]. destruct (p =? 0); [done|].
  destruct (_ =? tag); [destruct (test s _) as [x|] eqn:E|]; [|by apply IH..]. intros [= <-]. eauto.
Qed.

Lemma probe_go_map {A B} (g : A -> B) fuel hash mask tag s test1 test2 :
  (forall s off, test2 s off = g <$> test1 s off) ->
  probe_go fuel hash mask tag s test2 = g <$> probe_go fuel hash mask tag s test1.
Proof.
  intros H. revert s. induction fuel as [|fuel IH]; intros s; [done|]. cbn [probe_go].
  destruct (rd_u64 hash _) as [p|]; [|done]. cbn [option_bind mbind]. destruct (p =? 0); [done|].
  destruct (_ =? tag); [rewrite H; destruct (test1 s _)|]; cbn; auto.
Qed.

Lemma probe_none {A} hash cap h : @probe A hash cap h (fun _ _ => None) = None.
Proof. unfold probe. destruct (probe_go _ _ _ _ _ _) eqn:E; [|done]. apply probe_go_sound in E as (? & ? & ?). done. Qed.

Lemma with_lookup_full {R} f base sec hash_of key (g : list Ext -> bytes -> R) :
  with_lookup f base sec hash_of key g = (fun '(e, t) => g (exts_deref e) t) <$> lookup_full f base sec hash_of key.
Proof.
  unfold with_lookup, lookup_full, record_full. destruct (get_range sec _ _) as [hash|]; [|done]. cbn [option_bind mbind].
  destruct (recs_slice f sec) as [recs|]; cbn [option_bind mbind]; [|by rewrite probe_none]. unfold probe. apply probe_go_map.
  intros s off. destruct (parse_record _ _ _) as [[[[k e] t] l]|]; cbn; [|done]. by destruct (beqb k key).
Qed.

Lemma with_record_full {R} f base sec rank (g : list Ext -> bytes -> R) :
  with_record_at f base sec rank g = (fun '(_, e, t) => g (exts_deref e) t) <$> at_full f base sec rank.
Proof.
  unfold with_record_at, at_full, at_full_in, regions. destruct (recs_slice f sec) as [recs|], (dir_slice f sec) as [dir|]; cbn [option_bind mbind];
    destruct (_ <=? rank); try done. destruct (rd_u32 dir _) as [off|]; cbn [option_bind mbind]; [|done].
  destruct (parse_record _ _ _) as [[[[k e] t] l]|]; done.
Qed.

(** Over any section, damaged or not: the readers that lend a record's
    parts answer what the readers that return them answer, by key and by
    rank; a lookup never answers with another key's record; and the key at a
    rank is the key of the record at that rank. *)
Theorem flat_readers_agree {R} f base sec hash_of key rank (g : list Ext -> bytes -> R) :
  with_lookup f base sec hash_of key g = (fun '(e, t) => g (exts_deref e) t) <$> lookup_full f base sec hash_of key /\
  with_record_at f base sec rank g = (fun '(_, e, t) => g (exts_deref e) t) <$> at_full f base sec rank /\
  (forall e t, lookup_full f base sec hash_of key = Some (e, t) -> exists off, record_full f base sec off = Some (key, e, t)) /\
  (forall k e t, at_full f base sec rank = Some (k, e, t) -> key_at f sec rank = Some k).
Proof.
  repeat split.
  - apply with_lookup_full.
  - apply with_record_full.
  - intros e t. unfold lookup_full, probe. destruct (get_range sec _ _) as [hash|]; [|done]. cbn [option_bind mbind].
    intros (s & off & H)%probe_go_sound. exists off. destruct (record_full f base sec off) as [[[k e'] t']|]; [|done]. cbn in H.
    destruct (beqb_spec k key); [|done]. congruence.
  - intros k e t. unfold at_full, at_full_in, regions, key_at. destruct (recs_slice f sec) as [recs|]; [|done]. cbn [option_bind mbind].
    destruct (dir_slice f sec) as [dir|]; [|done]. cbn [option_bind mbind]. destruct (_ <=? rank); [done|].
    destruct (rd_u32 dir _) as [off|]; [|done]. cbn [option_bind mbind].
    destruct (parse_record _ _ _) as [[[[k' e'] t'] l]|] eqn:E; [|done]. cbn. intros [= -> -> ->]. by eapply parse_record_key.
Qed.

(** ** Records in the slack *)

Lemma decode_exts_bytes exts pre post at_ : Forall ext_ok exts -> at_ = Zlen pre ->
  decode_exts (length exts) (pre ++ concat (map ext_bytes exts) ++ post) at_ = Some exts.
Proof.
  intros Hok. revert pre at_. induction Hok as [|e exts He _ IH]; intros pre at_ ->; [done|]. cbn [length decode_exts map concat].
  rewrite <- app_assoc. unfold EXT_BYTES. rewrite get_range_app by (rewrite ?Zlen_ext_bytes; lia). cbn [option_bind mbind].
  rewrite ext_roundtrip by done. cbn [option_bind mbind]. rewrite (app_assoc pre), IH by (rewrite Zlen_app, Zlen_ext_bytes; lia). done.
Qed.

(** The record's bytes: the key padded to four, then the extents. *)
Lemma encode_record_bytes key exts : Zlen key <= U16_MAX -> Zlen exts <= U16_MAX ->
  encode_record key exts = Some (le16 (Zlen key) ++ le16 (Zlen exts) ++ key ++ pad (4 + Zlen key) ++ concat (map ext_bytes exts)).
Proof.
  intros Hk He. unfold encode_record. rewrite !(proj2 (Z.ltb_ge U16_MAX _)) by lia. cbn [orb]. cbv zeta.
  pose proof (align4 (4 + Zlen key)) as [[Ha1 Ha2] _]. pose proof (Zlen_nonneg key). pose proof (Zlen_nonneg exts).
  unfold record_len, REC_ALIGN, EXT_BYTES.
  replace (align_up (4 + Zlen key) 4 + Zlen exts * 20) with (2 + (2 + (Zlen key + (align_up (4 + Zlen key) 4 - (4 + Zlen key) + Zlen exts * 20)))) by lia.
  rewrite !zeros_add by lia. puts. puts. puts.
  change (zeros (align_up (4 + Zlen key) 4 - (4 + Zlen key))) with (pad (4 + Zlen key)).
  pose proof (Zlen_pad (4 + Zlen key)) as Hp.
  pose proof (put_exts_bytes exts (le16 (Zlen key) ++ le16 (Zlen exts) ++ key ++ pad (4 + Zlen key)) [] (align_up (4 + Zlen key) 4)) as Hpe.
  rewrite !app_nil_r, <- !app_assoc, (Z.mul_comm 20) in Hpe. rewrite Hpe by zlia. done.
Qed.

(** A count past the compact bit is read as neither shape. *)
Lemma wide_count n : 2 ^ 15 < n <= U16_MAX -> negb (Z.land n COMPACT =? 0) = true /\ (n =? COMPACT) = false.
Proof.
  intros H. unfold COMPACT, U16_MAX in *. change 0x8000 with (2 ^ 15). rewrite land_pow2 by lia. split; [|apply Z.eqb_neq; lia].
  replace (Z.testbit n 15) with true; [done|]. symmetry. apply Z.testbit_true; [lia|].
  replace n with (n - 2 ^ 15 + 1 * 2 ^ 15) by lia. by rewrite Z.div_add, Z.div_small by lia.
Qed.

Lemma parse_record_wide base a n rest : 0 <= a < U16 -> 2 ^ 15 < n <= U16_MAX -> parse_record base (le16 a ++ le16 n ++ rest) 0 = None.
Proof.
  intros Ha Hn. destruct (wide_count n Hn) as [H1 H2]. unfold U16_MAX in *. unfold parse_record. layout ltac:(unfold U16 in *; lia).
  checked ltac:(unfold U64; lia). rewrite (app_assoc (le16 a)), (get_range_here (le16 a ++ le16 n) rest 0 (0 + 4)) by zlia. cbn [option_bind mbind].
  destruct (get_range _ _ _); [|done]. cbn [option_bind mbind]. destruct (cadd _ _); [|done]. cbn [option_bind mbind].
  destruct (get_from _ _); [|done]. cbn [option_bind mbind]. unfold parse_record_tail. layout ltac:(unfold U16 in *; lia).
  by rewrite H1, H2.
Qed.

(** A record written for the slack reads back as its key and extents,
    under the count the compact bit leaves; between there and what the
    writer's own guard allows it is written and refused. *)
Theorem slack_record_roundtrip base key exts : Forall ext_ok exts -> Zlen key <= U16_MAX -> Zlen exts <= U16_MAX ->
  exists rec, encode_record key exts = Some rec /\ Zlen rec = record_len (Zlen key) (Zlen exts) /\
    (Zlen exts < COMPACT -> decode_record base rec = Some (key, exts)) /\
    (COMPACT < Zlen exts -> decode_record base rec = None).
Proof.
  intros Hok Hk He. rewrite encode_record_bytes by done. eexists. split; [done|].
  pose proof (Zlen_pad (4 + Zlen key)) as Hp. pose proof (Zlen_exts exts) as Hx. pose proof (Zlen_nonneg key). pose proof (Zlen_nonneg exts).
  split. { unfold record_len, REC_ALIGN, EXT_BYTES. zlia. }
  assert (Zlen key < U16 /\ Zlen exts < U16) as [Hk' He'] by (unfold U16_MAX, U16 in *; lia).
  unfold decode_record. layout lia. rewrite (app_assoc (le16 (Zlen key))), get_range_app by zlia. cbn [option_bind mbind].
  rewrite <- app_assoc. split; intros Hc.
  - assert (negb (Z.land (Zlen exts) COMPACT =? 0) = false) as ->.
    { unfold COMPACT in *. change 0x8000 with (2 ^ 15) in *. rewrite land_pow2, (testbit_small _ 15) by lia. done. }
    cbv zeta. replace (Z.to_nat (Zlen exts)) with (length exts) by (unfold Zlen; lia).
    pose proof (decode_exts_bytes exts (le16 (Zlen key) ++ le16 (Zlen exts) ++ key ++ pad (4 + Zlen key)) [] (align_up (4 + Zlen key) REC_ALIGN) Hok) as Hd.
    rewrite app_nil_r, <- !app_assoc in Hd. rewrite Hd by (unfold REC_ALIGN; zlia). done.
  - rewrite (proj1 (wide_count (Zlen exts) ltac:(unfold COMPACT in *; lia))). rewrite parse_record_wide; [done|lia|unfold COMPACT in *; lia].
Qed.

(** A reservation lies in the record region past everything reserved
    before it, starts four-aligned where the cursor did, moves the cursor
    past its own bytes and refuses only where they do not fit. *)
Theorem reserve_in_slack f len : 0 <= fx_bump f <= fx_recs_cap f -> fx_recs_cap f < U32 -> 0 <= len < U32 -> fx_bump f mod 4 = 0 ->
  match reserve f len with
  | Some (at_, rel, f') =>
      rel = fx_bump f /\ at_ = fx_recs_off f + rel /\ rel + len <= fx_bump f' <= fx_recs_cap f /\ fx_bump f' mod 4 = 0 /\
      fx_recs_cap f' = fx_recs_cap f /\ fx_recs_off f' = fx_recs_off f
  | None => fx_recs_cap f < fx_bump f + align_up len 4
  end.
Proof.
  intros Hb Hc Hl Hm. unfold reserve. pose proof (align4 len) as [[H1 H2] H3]. unfold REC_ALIGN.
  rewrite (proj2 (cadd_Some _ _ _)) by (split; [reflexivity|unfold U32, U64 in *; lia]). cbn [option_bind mbind].
  destruct (Z.ltb_spec (fx_recs_cap f) (fx_bump f + align_up len 4)); [done|].
  unfold w32. rewrite Z.mod_small by lia. cbn [with_bump fx_bump fx_recs_cap fx_recs_off]. repeat split; try lia.
  rewrite Z.add_mod, Hm, H3 by lia. done.
Qed.

Lemma slack_record_roundtrip_witness : exists rec, encode_record [x6b; x65; x79] [sample_ext] = Some rec /\ decode_record 0 rec = Some ([x6b; x65; x79], [sample_ext]).
Proof.
  destruct (slack_record_roundtrip 0 [x6b; x65; x79] [sample_ext]) as (rec & He & _ & Hd & _).
  - constructor; [|constructor]. vm_compute. repeat split; discriminate.
  - vm_compute. discriminate.
  - vm_compute. discriminate.
  - exists rec. split; [exact He|]. apply Hd. reflexivity.
Defined.

Definition sample_flat : FlatIndex :=
  mkFlat (192, 320) (320, 324) 0 320 (324, 424) 16 15 1 8 324 100 40 (0, 0) (0, 0) 0 0 7 0 0 None.

Lemma reserve_in_slack_witness : exists f', reserve sample_flat 21 = Some (364, 40, f') /\ 61 <= fx_bump f' <= 100.
Proof.
  pose proof (reserve_in_slack sample_flat 21 ltac:(vm_compute; split; discriminate) ltac:(reflexivity) ltac:(vm_compute; split; [discriminate|reflexivity]) ltac:(reflexivity)) as H.
  destruct (reserve sample_flat 21) as [[[a r] f']|] eqn:E; [|vm_compute in H; discriminate].
  destruct H as (-> & -> & Hf & _). exists f'. split; [reflexivity|exact Hf].
Defined.
