(* ===== verification/FlatSection.v ===== *)
(** * A section as the writer lays it out

    What [stream_trailer] and [with_checksums] ([src/src/flatindex.rs]) make
    is what [flat_parse] reads: the bytes of the header and the trailer, part
    by part; the parse of them; and then the answers of a parsed section, for
    every key it was built from and for every other. *)

From S2P Require Import Prelude Varint Runs Crc Records HashTable FlatIndex FlatRead.

(** ** The fence's bytes *)

Definition fence_offs_bytes (keys : list bytes) : bytes := concat (map le32 (starts 0 keys)).

Definition fence_bytes (keys : list bytes) : bytes :=
  match keys with [] => [] | _ => fence_offs_bytes keys ++ concat keys end.

Lemma Zlen_fence_offs keys : Zlen (fence_offs_bytes keys) = 4 * (Zlen keys + 1).
Proof. unfold fence_offs_bytes. by rewrite Zlen_concat_le32, Zlen_starts. Qed.

Lemma fence_go_bytes key_at stride ixs offs blob :
  fence_go key_at stride ixs offs blob =
    (offs ++ concat (map le32 (take (length ixs) (starts (Zlen blob) (map (fun i => key_at (i * stride)) ixs)))),
     blob ++ concat (map (fun i => key_at (i * stride)) ixs)).
Proof.
  revert offs blob. induction ixs as [|i ixs IH]; intros offs blob; cbn [fence_go].
  - cbn. by rewrite !app_nil_r.
  - rewrite IH, Zlen_app. cbn. by rewrite <- !app_assoc.
Qed.

(** The entry between two offsets. *)
Lemma fence_offs_key keys i : Zlen (concat keys) < U32 -> 0 <= i < Zlen keys ->
  offs_key (fence_offs_bytes keys) (concat keys) i = get_at keys i.
Proof.
  intros Hu Hi. unfold offs_key, fence_offs_bytes. destruct (get_at_is_Some keys i Hi) as [k Hk]. rewrite Hk.
  assert (forall j, 0 <= j <= Zlen keys -> rd_u32 (concat (map le32 (starts 0 keys))) (j * 4) = Some (Zlen (concat (take (Z.to_nat j) keys)))) as Hrd.
  { intros j Hj. pose proof (rd_u32_table [] [] (starts 0 keys) j (Zlen (concat (take (Z.to_nat j) keys))) (j * 4)) as H.
    rewrite app_nil_r in H. pose proof (Zlen_concat_take_le keys (Z.to_nat j)).
    apply H; [by rewrite get_at_starts|lia|change (Zlen (@nil Byte.byte)) with 0; lia]. }
  rewrite (Hrd i), (Hrd (i + 1)) by lia. cbn [option_bind mbind]. pose proof (starts_range keys i k Hk) as Hg.
  rewrite (proj2 (Z.ltb_ge _ _)); [exact Hg|]. apply get_range_Some in Hg as (? & _). lia.
Qed.

(** ** The trailer's bytes *)

Definition header_bytes (ws : list Z) : bytes := le32 MAGIC ++ le32 VERSION ++ concat (map le64 ws).

Section trailer.
Context (target n recs_len generation : Z) (keyf : Z -> bytes) (each : Z -> Z * Z) (look : bool).
Context (Htarget : 0 < target) (Hn : 0 <= n) (Hrecs : 4 * n <= recs_len <= MAX_RECS).
Context (Hgen : 0 <= generation < U64) (Hoffs : forall i, 0 <= i < n -> 0 <= (each i).1 < U32).

Definition t_stride : Z := fence_stride target n.
Definition t_fence_n : Z := div_ceil n t_stride.
Definition t_keys : list bytes := map (fun i => keyf (i * t_stride)) (seqZ 0 t_fence_n).
Definition t_fence_at : Z := align_up (HEADER + recs_len) 4.
Definition t_dir_at : Z := align_up (t_fence_at + Zlen (fence_bytes t_keys)) 4.
Definition t_hash_at : Z := align_up (t_dir_at + n * 4) 8.
Definition t_offs : list Z := map (fun i => (each i).1) (seqZ 0 n).
Definition t_asks : list (Z * Z) := map (fun i => ((each i).2, (each i).1)) (seqZ 0 n).

Context (Hfence : Zlen (concat t_keys) <= recs_len).

(** The header's words past the magic, [a] and [b] the checksum row's. *)
Definition t_words (cap a b : Z) : list Z :=
  [generation; 0; 0; 0; 0; 0; n; cap; t_hash_at; t_dir_at; HEADER; recs_len; recs_len; recs_len;
   t_fence_at; t_fence_n; t_stride; 0; 0; a; b; 0; 0].

Definition trailer_bytes (slots : list Z) : bytes :=
  zeros (t_fence_at - (HEADER + recs_len)) ++ fence_bytes t_keys ++
  zeros (t_dir_at - (t_fence_at + Zlen (fence_bytes t_keys))) ++
  concat (map le32 t_offs) ++ zeros (t_hash_at - (t_dir_at + n * 4)) ++ table slots.

Lemma t_stride_pos : 16 <= t_stride < 2 ^ 31 /\ t_stride <> 0.
Proof.
  unfold t_stride, fence_stride, next_power_of_two, FENCE_MIN_STRIDE.
  assert (n < 2 ^ 30) by (unfold MAX_RECS, U32 in *; lia).
  destruct (div_ceil_spec n target Htarget Hn) as [Hd _].
  assert (div_ceil n target <= 2 ^ 30) by nia. set (m := Z.max _ _).
  assert (16 <= m <= 2 ^ 30) by lia. assert (4 <= Z.log2_up m <= 30).
  { split; [change 4 with (Z.log2_up 16)|change 30 with (Z.log2_up (2 ^ 30))]; apply Z.log2_up_le_mono; lia. }
  pose proof (Z.pow_le_mono_r 2 4 (Z.log2_up m) ltac:(lia) ltac:(lia)).
  pose proof (Z.pow_lt_mono_r 2 (Z.log2_up m) 31 ltac:(lia) ltac:(lia) ltac:(lia)). lia.
Qed.

Lemma t_fence_n_range : 0 <= t_fence_n <= n.
Proof.
  pose proof t_stride_pos as [H _]. unfold t_fence_n. destruct (div_ceil_spec n t_stride ltac:(lia) Hn) as [H1 H2].
  assert (0 <= div_ceil n t_stride) by (apply Z.div_pos; lia). nia.
Qed.

Lemma Zlen_t_keys : Zlen t_keys = t_fence_n.
Proof. unfold t_keys. rewrite Zlen_map. apply Zlen_seqZ. apply t_fence_n_range. Qed.

Lemma Zlen_fence_bytes : Zlen (fence_bytes t_keys) = if 0 <? t_fence_n then (t_fence_n + 1) * 4 + Zlen (concat t_keys) else 0.
Proof.
  pose proof Zlen_t_keys as Hk. unfold fence_bytes. destruct t_keys as [|k ks] eqn:E.
  - rewrite <- Hk. done.
  - rewrite Zlen_app, Zlen_fence_offs, Hk. rewrite Zlen_cons in Hk. pose proof (Zlen_nonneg ks).
    rewrite (proj2 (Z.ltb_lt _ _)) by lia. lia.
Qed.

(** Where the parts lie, in order and far below the words' end. *)
Lemma t_bounds :
  HEADER + recs_len <= t_fence_at /\ 0 <= Zlen (fence_bytes t_keys) < U32 * 2 /\
  t_fence_at + Zlen (fence_bytes t_keys) <= t_dir_at /\ t_dir_at + n * 4 <= t_hash_at /\ t_hash_at < 2 ^ 40.
Proof.
  pose proof Zlen_fence_bytes as Hf. pose proof t_fence_n_range. pose proof (Zlen_nonneg (concat t_keys)).
  unfold MAX_RECS in *. assert (0 <= Zlen (fence_bytes t_keys) < U32 * 2) by (rewrite Hf; destruct (_ <? _); unfold U32 in *; lia).
  unfold t_hash_at, t_dir_at, t_fence_at in *. unfold HEADER.
  pose proof (align_up_spec (192 + recs_len) 4). set (x := align_up (192 + recs_len) 4) in *.
  pose proof (align_up_spec (x + Zlen (fence_bytes t_keys)) 4). set (y := align_up (x + _) 4) in *.
  pose proof (align_up_spec (y + n * 4) 8). unfold U32 in *. lia.
Qed.

Lemma dir_asks pad i m a : 0 <= i -> 0 <= m -> i + m <= n -> Zlen a = 4 * i ->
  asks (dir_word each) (Some (a ++ zeros (m * 4) ++ pad)) (seqZ i m) =
    (Some (a ++ concat (map (fun j => le32 (each j).1) (seqZ i m)) ++ pad), map (fun j => ((each j).2, (each j).1)) (seqZ i m)).
Proof.
  intros Hi Hm. revert i a Hi. apply (natlike_ind (fun m => forall i a, 0 <= i -> i + m <= n -> Zlen a = 4 * i ->
    asks (dir_word each) (Some (a ++ zeros (m * 4) ++ pad)) (seqZ i m) =
      (Some (a ++ concat (map (fun j => le32 (each j).1) (seqZ i m)) ++ pad), map (fun j => ((each j).2, (each j).1)) (seqZ i m))));
    [| |done]; clear m Hm.
  - intros i a _ _ _. by rewrite seqZ_nil.
  - intros m Hm IH i a Hi Hle Ha. rewrite seqZ_cons by lia. cbn [asks map concat]. unfold dir_word at 1.
    destruct (each i) as [off h] eqn:Ee. cbn [option_bind mbind fst snd].
    replace (Z.succ m * 4) with (4 + m * 4) by lia. rewrite zeros_add by lia. rewrite <- (app_assoc (zeros 4)).
    rewrite (put_range_app a (zeros 4)); [|lia|done]. rewrite !(app_assoc a). replace (Z.pred (Z.succ m)) with m by lia.
    rewrite (IH (Z.succ i)); [|lia|lia|rewrite Zlen_app, Zlen_le32; lia]. by rewrite <- !app_assoc.
Qed.

(** The fence's part of the trailer, as it is built. *)
Lemma t_fence_built t : (if 0 <? t_fence_n then
      let offs_len := (t_fence_n + 1) * 4 in
      let '(offs, blob) := fence_go keyf t_stride (seqZ 0 t_fence_n) [] [] in
      let offs := offs ++ le32 (Zlen blob) in
      (t ++ offs ++ blob, t_fence_at + (offs_len + Zlen blob))
    else (t, t_fence_at)) = (t ++ fence_bytes t_keys, t_fence_at + Zlen (fence_bytes t_keys)).
Proof.
  rewrite Zlen_fence_bytes. destruct (Z.ltb_spec 0 t_fence_n) as [Hpos|].
  - cbv zeta. rewrite fence_go_bytes. fold t_keys. cbn [app]. f_equal. f_equal.
    pose proof Zlen_t_keys as Hk. unfold fence_bytes. destruct t_keys as [|k0 ks0] eqn:E; [znil; lia|]. rewrite <- E in *.
    f_equal. unfold fence_offs_bytes. rewrite (starts_last 0 t_keys), map_app, concat_app. cbn [map concat].
    rewrite app_nil_r, Z.add_0_l. f_equal. do 4 f_equal. rewrite length_seqZ. unfold Zlen in Hk. lia.
  - pose proof Zlen_t_keys as Hk. pose proof (Zlen_nonneg t_keys). rewrite (Zlen_zero_nil t_keys) by lia.
    cbn. by rewrite app_nil_r, Z.add_0_r.
Qed.

Lemma t_header (cap : Z) : (h ← put_range (zeros HEADER) 0 (le32 MAGIC); h ← put_range h 4 (le32 VERSION);
    put_each h 8 8 (map le64 [generation; 0; 0; 0; 0; 0; n; cap; t_hash_at; t_dir_at; HEADER; recs_len; recs_len; recs_len;
      t_fence_at; t_fence_n; t_stride; 0; 0])) = Some (header_bytes (t_words cap 0 0)).
Proof.
  change (zeros HEADER) with (zeros 4 ++ zeros 4 ++ zeros 152 ++ zeros 32).
  rewrite put_range_here by done. cbn [option_bind mbind]. rewrite put_range_app by done. cbn [option_bind mbind].
  rewrite (app_assoc (le32 MAGIC)), put_each_app; [by rewrite <- app_assoc|done| |].
  - apply Forall_forall. intros x (y & -> & _)%list_elem_of_fmap. apply Zlen_le64.
  - by rewrite Zlen_map.
Qed.

Lemma stream_trailer_bytes : exists k slots,
  0 <= k < 63 /\ hash_cap_for n = Some (2 ^ k) /\ 2 ^ k < 2 ^ 34 /\ n <= 2 ^ k /\ filled k slots t_asks /\
  stream_trailer target n recs_len keyf each generation look =
    Some (header_bytes (t_words (2 ^ k) 0 0), trailer_bytes slots, t_hash_at + 2 ^ k * SLOT).
Proof.
  assert (n < 2 ^ 30) as Hn30 by (unfold MAX_RECS, U32 in *; lia).
  destruct (hash_cap_for_spec n ltac:(lia)) as (k0 & Hk0 & Hcap & Hload & Hmin).
  pose proof t_bounds as (Hb1 & Hb2 & Hb3 & Hb4 & Hb5). pose proof t_fence_n_range as Hfn.
  set (pad3 := zeros (t_hash_at - (t_dir_at + n * 4))).
  pose proof (dir_asks pad3 0 n [] ltac:(lia) ltac:(lia) ltac:(lia) ltac:(done)) as Ha. cbn [app] in Ha. fold t_asks in Ha.
  destruct (fill_hash_filled (dir_word each) (Some (zeros (n * 4) ++ pad3)) n look (2 ^ k0)) as (k & slots & Hk & E & Hfill & Hf);
    [lia|done| |].
  { rewrite Ha. cbn [snd]. apply Forall_forall. intros [h off] (j & [= -> ->] & Hj)%list_elem_of_fmap.
    apply Hoffs. apply elem_of_seqZ in Hj. lia. }
  rewrite Ha in Hfill, Hf. cbn [fst snd] in Hfill, Hf. rewrite E in *. assert (2 ^ k < 2 ^ 34) as Hk34.
  { assert (k0 = k) as -> by (apply (Z.pow_inj_r 2); lia). destruct Hmin as [->|Hmin]; [lia|].
    replace k with (Z.succ (k - 1)) by lia. rewrite Z.pow_succ_r by lia. lia. }
  exists k, slots. split; [lia|]. split; [done|]. split; [done|]. split; [lia|]. split; [done|].
  unfold stream_trailer, pad_to. rewrite (proj2 (Z.ltb_ge MAX_RECS recs_len)) by lia. rewrite Hcap. cbn [option_bind mbind].
  cbv zeta. fold t_stride. fold t_fence_n. fold t_fence_at. cbn [app]. rewrite t_fence_built. fold t_dir_at. fold t_hash_at.
  set (pre := (zeros (t_fence_at - (HEADER + recs_len)) ++ fence_bytes t_keys) ++ zeros (t_dir_at - (t_fence_at + Zlen (fence_bytes t_keys)))).
  rewrite <- !app_assoc. pose proof (Z.pow_pos_nonneg 2 k ltac:(lia) ltac:(lia)) as Hcap0.
  assert (Zlen pad3 = t_hash_at - (t_dir_at + n * 4)) as Hp3 by (unfold pad3; rewrite Zlen_zeros; lia).
  fold pad3. rewrite (get_range_here pre _ 0 (Zlen pre)) by reflexivity. cbn [option_bind mbind].
  rewrite (app_assoc (zeros (n * 4))), (get_range_app pre (zeros (n * 4) ++ pad3) _ (Zlen pre) (Zlen (pre ++ zeros (n * 4) ++ pad3))) by (rewrite ?Zlen_app; lia). cbn [option_bind mbind].
  rewrite (app_assoc pre), <- (app_nil_r (zeros (2 ^ k * SLOT))) at 1.
  rewrite get_range_app by (rewrite ?Zlen_app, ?Zlen_zeros; unfold SLOT in *; lia). cbn [option_bind mbind].
  rewrite Hfill. cbn [option_bind mbind]. pose proof (t_header (2 ^ k)) as Hh.
  destruct (put_range (zeros HEADER) 0 (le32 MAGIC)) as [h1|]; [|done]. cbn [option_bind mbind] in *.
  destruct (put_range h1 4 (le32 VERSION)) as [h2|]; [|done]. cbn [option_bind mbind] in *. rewrite Hh. cbn [option_bind mbind].
  do 3 f_equal. unfold trailer_bytes, pre, pad3, t_offs. rewrite <- !app_assoc, map_map. done.
Qed.
End trailer.

(** ** The parse of a section laid out so *)

Lemma Zlen_header_bytes ws : Zlen (header_bytes ws) = 8 + 8 * Zlen ws.
Proof. unfold header_bytes. rewrite !Zlen_app, !Zlen_le32, Zlen_concat_le64. lia. Qed.

Lemma header_word ws rest i w at_ : get_at ws i = Some w -> 0 <= w < U64 -> at_ = 8 + 8 * i ->
  rd_u64 (header_bytes ws ++ rest) at_ = Some w.
Proof.
  intros Hw Hr ->. unfold header_bytes. rewrite <- !app_assoc, (app_assoc (le32 MAGIC)).
  apply (rd_u64_table _ _ ws i); [done|done|]. rewrite Zlen_app, !Zlen_le32. lia.
Qed.

Lemma header_is_flat ws rest : is_flat (header_bytes ws ++ rest) = true.
Proof. unfold is_flat, header_bytes. rewrite <- !app_assoc. layout ltac:(unfold MAGIC, VERSION, U32; lia). done. Qed.

Lemma is_power_of_two_pow k : 0 <= k -> is_power_of_two (2 ^ k) = true.
Proof.
  intros Hk. unfold is_power_of_two. pose proof (Z.pow_pos_nonneg 2 k ltac:(lia) Hk).
  rewrite (proj2 (Z.ltb_lt _ _)) by lia. rewrite (land_ones_mod _ k Hk), Z.mod_same by lia. done.
Qed.

Section laid.
Context (target n recs_len generation : Z) (keyf : Z -> bytes) (each : Z -> Z * Z).
Context (Htarget : 0 < target) (Hn : 0 <= n) (Hrecs : 4 * n <= recs_len <= MAX_RECS).
Context (Hgen : 0 <= generation < U64) (Hoffs : forall i, 0 <= i < n -> 0 <= (each i).1 < U32).
Context (Hfence : Zlen (concat (t_keys target n keyf)) <= recs_len).
Context (k : Z) (slots : list Z) (Hk : 0 <= k < 63) (Hcap34 : 2 ^ k < 2 ^ 34) (Hcapn : n <= 2 ^ k).
Context (Hf : filled k slots (t_asks n each)).
Context (recs row : bytes) (Hrl : Zlen recs = recs_len).

Local Abbreviation cap := (2 ^ k).
Local Abbreviation stride := (t_stride target n).
Local Abbreviation fence_n := (t_fence_n target n).
Local Abbreviation keys := (t_keys target n keyf).
Local Abbreviation fence_at := (t_fence_at recs_len).
Local Abbreviation dir_at := (t_dir_at target n recs_len keyf).
Local Abbreviation hash_at := (t_hash_at target n recs_len keyf).
Local Abbreviation words := (t_words target n recs_len generation keyf).
Local Abbreviation trailer := (trailer_bytes target n recs_len keyf each slots).

(** The checksum row's words: none, or the section's length and the piece
    shift. *)
Context (crc shift : Z) (Hcrc : crc = 0 /\ shift = 0 \/ HEADER <= crc < U64 /\ 10 <= shift <= 24).

Definition laid_sec : bytes := header_bytes (words cap crc shift) ++ recs ++ trailer ++ row.

Context (Hcrc2 : crc <= Zlen laid_sec).

Definition laid_fence : (Z * Z) * (Z * Z) * Z * Z :=
  if 0 <? fence_n then
    ((fence_at, fence_at + (fence_n + 1) * 4), (fence_at + (fence_n + 1) * 4, fence_at + (fence_n + 1) * 4 + Zlen (concat keys)), fence_n, stride)
  else ((0, 0), (0, 0), 0, 0).

Definition laid_index : FlatIndex :=
  mkFlat (hash_at, hash_at + cap * SLOT) (dir_at, dir_at + n * 4) 0 dir_at (HEADER, HEADER + recs_len) cap (cap - 1) n
    (Z.max (recs_len / Z.max n 1) 1) HEADER recs_len recs_len laid_fence.1.1.1 laid_fence.1.1.2 laid_fence.1.2 laid_fence.2
    generation crc shift None.

Lemma laid_bounds : HEADER + recs_len <= fence_at /\ 0 <= Zlen (fence_bytes keys) < U32 * 2 /\
  fence_at + Zlen (fence_bytes keys) <= dir_at /\ dir_at + n * 4 <= hash_at /\ hash_at < 2 ^ 40.
Proof. by apply t_bounds. Qed.

Lemma cap_pos_laid : 0 < cap. Proof. apply Z.pow_pos_nonneg; lia. Qed.

Lemma Zlen_offs : Zlen (t_offs n each) = n.
Proof. unfold t_offs. rewrite Zlen_map. by apply Zlen_seqZ. Qed.

Lemma Zlen_header : Zlen (header_bytes (words cap crc shift)) = HEADER.
Proof. rewrite Zlen_header_bytes. done. Qed.

Lemma Zlen_trailer : HEADER + recs_len + Zlen trailer = hash_at + cap * SLOT.
Proof.
  pose proof laid_bounds. pose proof cap_pos_laid. destruct Hf as [Hsl _ _ _ _]. unfold trailer_bytes.
  rewrite !Zlen_app, !Zlen_zeros, Zlen_concat_le32, Zlen_offs, Zlen_table, Hsl by lia. unfold SLOT. lia.
Qed.

Lemma Zlen_laid : Zlen laid_sec = hash_at + cap * SLOT + Zlen row.
Proof. pose proof Zlen_trailer. unfold laid_sec. rewrite !Zlen_app, Zlen_header, Hrl. lia. Qed.

Lemma laid_recs : get_range laid_sec HEADER (HEADER + recs_len) = Some recs.
Proof. apply get_range_app; rewrite Zlen_header; lia. Qed.

Lemma laid_fence_bytes : get_range laid_sec fence_at (fence_at + Zlen (fence_bytes keys)) = Some (fence_bytes keys).
Proof.
  pose proof laid_bounds. unfold laid_sec, trailer_bytes. rewrite <- !app_assoc, !(app_assoc _ _ (fence_bytes _ ++ _)).
  apply get_range_app; rewrite !Zlen_app, Zlen_header, Zlen_zeros; lia.
Qed.

Lemma laid_dir : get_range laid_sec dir_at (dir_at + n * 4) = Some (concat (map le32 (t_offs n each))).
Proof.
  pose proof laid_bounds. unfold laid_sec, trailer_bytes. rewrite <- !app_assoc, !(app_assoc _ _ (concat _ ++ _)).
  apply get_range_app; rewrite !Zlen_app, Zlen_header, !Zlen_zeros, ?Zlen_concat_le32, ?Zlen_offs by lia; lia.
Qed.

Lemma laid_hash : get_range laid_sec hash_at (hash_at + cap * SLOT) = Some (table slots).
Proof.
  pose proof laid_bounds. unfold laid_sec, trailer_bytes. rewrite <- !app_assoc, !(app_assoc _ _ (table _ ++ _)). destruct Hf as [Hsl _ _ _ _].
  apply get_range_app; rewrite !Zlen_app, Zlen_header, !Zlen_zeros, ?Zlen_concat_le32, ?Zlen_offs, ?Zlen_table, ?Hsl by lia;
    unfold SLOT; lia.
Qed.

Lemma laid_word i w at_ : get_at (words cap crc shift) i = Some w -> 0 <= w < U64 -> at_ = 8 + 8 * i -> rd_u64 laid_sec at_ = Some w.
Proof. apply header_word. Qed.

Lemma laid_checksum_words : checksum_words laid_sec = Ok (if crc =? 0 then None else Some (crc, shift)).
Proof.
  unfold checksum_words. rewrite (laid_word 19 crc W_CRC_OFF) by (done || (unfold HEADER, U64 in *; lia)). cbn [ok_or rbind].
  destruct (Z.eqb_spec crc 0) as [|Hne]; [done|]. destruct Hcrc as [[? ?]|[? Hs]]; [done|].
  rewrite (laid_word 20 shift W_PIECE_SHIFT) by (done || (unfold U64; lia)). cbn [ok_or rbind].
  rewrite !(proj2 (Z.leb_le _ _)) by lia. done.
Qed.

Lemma fence_bytes_parts : 0 < fence_n -> fence_bytes keys = fence_offs_bytes keys ++ concat keys.
Proof. intros H. rewrite <- (Zlen_t_keys target n recs_len keyf) in H by done. unfold fence_bytes. by destruct keys. Qed.

Lemma laid_parse_fence hash_end dir_end recs_end : hash_end = hash_at + cap * SLOT -> dir_end = dir_at + n * 4 -> recs_end = HEADER + recs_len ->
  default ((0, 0), (0, 0), 0, 0)
    (parse_fence laid_sec n fence_at fence_n stride [(hash_at, hash_end); (dir_at, dir_end); (HEADER, recs_end)]) = laid_fence.
Proof.
  intros -> -> ->. pose proof laid_bounds as Hb. pose proof cap_pos_laid. pose proof Zlen_laid as Hlen. pose proof (Zlen_nonneg row).
  destruct (t_stride_pos target n recs_len Htarget Hn Hrecs) as [Hst Hst0]. pose proof (t_fence_n_range target n recs_len Htarget Hn Hrecs) as Hfn.
  pose proof (Zlen_fence_bytes target n recs_len keyf Htarget Hn Hrecs) as Hfb. pose proof (Zlen_nonneg (concat keys)).
  unfold laid_fence, parse_fence. rewrite (proj2 (Z.eqb_neq stride 0)), (proj2 (Z.ltb_ge n _)), !orb_false_r by lia.
  destruct (Z.eqb_spec fence_n 0) as [E|E]; [by rewrite E|]. rewrite (proj2 (Z.ltb_lt 0 fence_n)) in * by lia.
  rewrite Z.eqb_refl. cbn [negb]. match goal with |- default _ ?x = ?y => enough (x = Some y) as -> by done end.
  checked ltac:(unfold U64; unfold MAX_RECS, U32 in *; lia).
  assert (get_range laid_sec fence_at (fence_at + (fence_n + 1) * 4) = Some (fence_offs_bytes keys)) as Ho.
  { pose proof laid_fence_bytes as Hl. rewrite fence_bytes_parts in Hl by lia.
    pose proof (get_range_sub _ _ _ _ 0 (Zlen (fence_offs_bytes keys)) (fence_offs_bytes keys) Hl) as Hs.
    rewrite Zlen_fence_offs, (Zlen_t_keys target n recs_len) in Hs by done. rewrite Z.add_0_r, (Z.mul_comm 4) in Hs. apply Hs.
    apply get_range_here; [done|]. rewrite Zlen_fence_offs, (Zlen_t_keys target n recs_len) by done. lia. }
  unfold HEADER, SLOT in *. rewrite (proj2 (Z.ltb_ge fence_at _)), (proj2 (Z.ltb_ge (Zlen laid_sec) _)) by lia. cbn [orb].
  rewrite Ho. cbn [option_bind mbind].
  assert (rd_u32 (fence_offs_bytes keys) (fence_n * 4) = Some (Zlen (concat keys))) as ->.
  { pose proof (rd_u32_table [] [] (starts 0 keys) fence_n (Zlen (concat keys)) (fence_n * 4)) as Hr. rewrite app_nil_r in Hr.
    apply Hr; [|unfold MAX_RECS in *; lia|change (Zlen (@nil Byte.byte)) with 0; lia].
    rewrite get_at_starts by (rewrite (Zlen_t_keys target n recs_len) by done; lia).
    rewrite take_ge; [done|]. pose proof (Zlen_t_keys target n recs_len keyf Htarget Hn Hrecs) as Hz. unfold Zlen in Hz. lia. }
  cbn [option_bind mbind]. checked ltac:(unfold U64; unfold MAX_RECS, U32 in *; lia).
  rewrite (proj2 (Z.ltb_ge (Zlen laid_sec) _)) by lia. cbn [existsb fst snd].
  rewrite (proj2 (Z.ltb_ge hash_at _)), (proj2 (Z.ltb_ge dir_at _)), (proj2 (Z.ltb_ge fence_at (_ + recs_len))) by lia.
  by rewrite !andb_false_r.
Qed.

Lemma laid_header : header_parse laid_sec =
  Some (mkHeader generation n hash_at cap dir_at dir_at 0 HEADER recs_len recs_len fence_at fence_n stride crc shift).
Proof.
  pose proof laid_bounds as Hb. pose proof cap_pos_laid.
  destruct (t_stride_pos target n recs_len Htarget Hn Hrecs) as [Hst Hst0]. pose proof (t_fence_n_range target n recs_len Htarget Hn Hrecs) as Hfn.
  assert (U32 = 4294967296 /\ U64 = 18446744073709551616) as [Hu32 Hu64] by done. unfold MAX_RECS, HEADER in *.
  unfold header_parse. unfold laid_sec at 1. rewrite header_is_flat. cbn [negb].
  rewrite (laid_word 0 generation 8), (laid_word 6 n 56), (laid_word 7 cap 64), (laid_word 8 hash_at 72), (laid_word 9 dir_at 80) by (done || lia).
  rewrite (laid_word 10 192 88), (laid_word 11 recs_len 96), (laid_word 12 recs_len 104), (laid_word 13 recs_len 112) by (done || lia).
  rewrite (laid_word 14 fence_at 120), (laid_word 15 fence_n 128), (laid_word 16 stride 136), (laid_word 17 0 144), (laid_word 18 0 152) by (done || lia).
  cbn [option_bind mbind]. rewrite Z.max_id. rewrite (proj2 (Z.eqb_neq cap 0)), is_power_of_two_pow by lia. cbn [orb negb].
  unfold live_dir. rewrite Z.eqb_refl. cbn [option_bind mbind]. rewrite (proj2 (Z.ltb_ge cap n)) by lia.
  rewrite laid_checksum_words. cbn [result_ok option_bind mbind].
  assert (clamp recs_len recs_len recs_len = recs_len) as -> by (unfold clamp; lia).
  destruct (Z.eqb_spec crc 0) as [Hz|Hz]; [|done]. destruct Hcrc as [[_ Hs]|[? ?]]; [by rewrite Hz, Hs|unfold HEADER in *; lia].
Qed.

(** The fence a reader without the section holds, whatever lies behind it. *)
Lemma fence_parse_laid c gen' hash' cap' dir' base' dcap' roff' rlen' bump' crc' shift' : 0 < n ->
  0 < fence_n /\ fence_parse (fence_bytes keys ++ c) (mkHeader gen' n hash' cap' dir' base' dcap' roff' rlen' bump' fence_at fence_n stride crc' shift') =
    Some (mkFence (fence_offs_bytes keys) (concat keys) fence_n stride).
Proof.
  intros Hpos. destruct (t_stride_pos target n recs_len Htarget Hn Hrecs) as [Hst Hst0].
  pose proof (t_fence_n_range target n recs_len Htarget Hn Hrecs) as Hfn.
  assert (0 < fence_n) as Hfn0.
  { unfold t_fence_n in *. destruct (div_ceil_spec n stride ltac:(lia) Hn). nia. }
  split; [done|]. rewrite fence_bytes_parts by done.
  unfold fence_parse. cbn [hd_fence_n hd_fence_stride hd_nkeys].
  rewrite (proj2 (Z.eqb_neq fence_n 0)), (proj2 (Z.eqb_neq stride 0)), (proj2 (Z.ltb_ge n _)) by lia. cbn [orb].
  rewrite Z.eqb_refl. cbn [negb]. checked ltac:(unfold U64; unfold MAX_RECS, U32 in *; lia).
  pose proof (Zlen_t_keys target n recs_len keyf Htarget Hn Hrecs) as Hk'. pose proof (Zlen_nonneg (concat keys)).
  rewrite <- app_assoc, get_range_here by (rewrite ?Zlen_fence_offs; lia). cbn [option_bind mbind].
  assert (rd_u32 (fence_offs_bytes keys) (fence_n * 4) = Some (Zlen (concat keys))) as ->.
  { pose proof (rd_u32_table [] [] (starts 0 keys) fence_n (Zlen (concat keys)) (fence_n * 4)) as Hr. rewrite app_nil_r in Hr.
    apply Hr; [|unfold MAX_RECS, U32 in *; lia|change (Zlen (@nil Byte.byte)) with 0; lia].
    rewrite get_at_starts by lia. rewrite take_ge; [done|]. unfold Zlen in Hk'. lia. }
  cbn [option_bind mbind]. checked ltac:(unfold U64; unfold MAX_RECS, U32 in *; lia).
  rewrite get_range_app by (rewrite ?Zlen_fence_offs; lia). done.
Qed.

Lemma laid_fence_view gen' hash' cap' dir' base' dcap' roff' rlen' bump' crc' shift' : 0 < n ->
  exists region, get_from laid_sec fence_at = Some region /\
    fence_parse region (mkHeader gen' n hash' cap' dir' base' dcap' roff' rlen' bump' fence_at fence_n stride crc' shift') =
      Some (mkFence (fence_offs_bytes keys) (concat keys) fence_n stride).
Proof.
  intros Hpos. pose proof laid_fence_bytes as Hl. apply get_range_split in Hl as (a & c & E & Ha & _).
  exists (fence_bytes keys ++ c). split; [rewrite E; by apply get_from_app|]. by apply fence_parse_laid.
Qed.

(** The region it is given runs to the directory. *)
Lemma laid_fence_region : 0 < n -> HEADER <= crc -> hash_at + cap * SLOT <= crc ->
  fence_span (mkHeader generation n hash_at cap dir_at dir_at 0 HEADER recs_len recs_len fence_at fence_n stride crc shift) (Zlen laid_sec) = (fence_at, dir_at - fence_at) /\
  exists c, get_range laid_sec fence_at dir_at = Some (fence_bytes keys ++ c).
Proof.
  intros Hpos Hc1 Hc2. pose proof laid_bounds as Hb. pose proof cap_pos_laid. pose proof Zlen_laid as Hlen. pose proof (Zlen_nonneg row).
  destruct (fence_parse_laid [] 0 0 0 0 0 0 0 0 0 0 0 Hpos) as [Hfn _].
  pose proof (Zlen_fence_bytes target n recs_len keyf Htarget Hn Hrecs) as Hfb. rewrite (proj2 (Z.ltb_lt 0 fence_n)) in Hfb by lia. pose proof (Zlen_nonneg (concat keys)).
  split.
  - unfold fence_span. cbn [hd_fence_n hd_fence_offs_off hd_hash_off hd_dir_base hd_recs_off hd_crc_off]. unfold SLOT, HEADER in *.
    rewrite (proj2 (Z.eqb_neq fence_n 0)), (proj2 (Z.ltb_ge fence_at _)), (proj2 (Z.ltb_ge (Zlen laid_sec) _)) by lia. cbn [orb].
    cbn [List.filter]. rewrite (proj2 (Z.ltb_lt fence_at hash_at)), (proj2 (Z.ltb_lt fence_at dir_at)), (proj2 (Z.ltb_ge fence_at 192)), (proj2 (Z.ltb_lt fence_at crc)),
      (proj2 (Z.ltb_lt fence_at (Zlen laid_sec))) by lia. cbn [fold_left]. f_equal. lia.
  - unfold SLOT in *. destruct (get_range_is_Some laid_sec (fence_at + Zlen (fence_bytes keys)) dir_at) as [c Hc]; [unfold HEADER in *; lia..|].
    exists c. eapply get_range_join; [apply laid_fence_bytes|exact Hc].
Qed.

Lemma overlap_apart a b : a.2 <= b.1 \/ b.2 <= a.1 -> regions_overlap a b = false.
Proof.
  intros H. unfold regions_overlap. destruct (Z.ltb_spec a.1 b.2), (Z.ltb_spec b.1 a.2); try done.
  exfalso. lia.
Qed.

Lemma laid_parse : flat_parse laid_sec = Some laid_index.
Proof.
  pose proof laid_bounds as Hb. pose proof cap_pos_laid. pose proof Zlen_laid as Hlen. pose proof (Zlen_nonneg row).
  destruct (t_stride_pos target n recs_len Htarget Hn Hrecs) as [Hst Hst0]. pose proof (t_fence_n_range target n recs_len Htarget Hn Hrecs) as Hfn.
  assert (U32 = 4294967296 /\ U64 = 18446744073709551616) as [Hu32 Hu64] by done. unfold MAX_RECS, HEADER, SLOT in *.
  unfold flat_parse. unfold laid_sec at 1. rewrite header_is_flat. cbn [negb].
  rewrite (laid_word 0 generation 8), (laid_word 1 0 16), (laid_word 2 0 24), (laid_word 3 0 32), (laid_word 4 0 40) by (done || lia).
  rewrite (laid_word 5 0 48), (laid_word 6 n 56), (laid_word 7 cap 64), (laid_word 8 hash_at 72), (laid_word 9 dir_at 80) by (done || lia).
  rewrite (laid_word 10 192 88), (laid_word 11 recs_len 96), (laid_word 12 recs_len 104), (laid_word 13 recs_len 112) by (done || lia).
  rewrite (laid_word 14 fence_at 120), (laid_word 15 fence_n 128), (laid_word 16 stride 136), (laid_word 17 0 144), (laid_word 18 0 152) by (done || lia).
  cbn [option_bind mbind]. rewrite Z.max_id. rewrite (proj2 (Z.eqb_neq cap 0)), is_power_of_two_pow by lia. cbn [orb negb live_dir].
  unfold live_dir. rewrite Z.eqb_refl. cbn [option_bind mbind]. unfold HEADER, SLOT in *. checked ltac:(lia).
  assert ((len ← cmul n 4; cadd dir_at len) = Some (dir_at + n * 4)) as -> by (checked ltac:(lia); apply cadd_Some; lia).
  cbn [option_bind mbind]. checked ltac:(lia).
  assert (forall r, 192 <= r.1 -> r.1 <= r.2 -> r.2 <= Zlen laid_sec -> region_in laid_sec r = true) as Hin.
  { intros r H1 H2 H3. unfold region_in, HEADER. rewrite !(proj2 (Z.ltb_ge _ _)) by lia. done. }
  cbn [forallb]. rewrite !Hin by (cbn [fst snd]; lia). cbn [andb negb].
  rewrite !overlap_apart by (cbn [fst snd]; lia). cbn [orb]. rewrite (proj2 (Z.ltb_ge cap n)) by lia.
  rewrite laid_parse_fence by (unfold HEADER, SLOT; lia). unfold laid_index. destruct laid_fence as [[[fo fb] fn] fs] eqn:Ef.
  rewrite laid_checksum_words. cbn [result_ok option_bind mbind fst snd].
  assert (clamp recs_len recs_len recs_len = recs_len) as -> by (unfold clamp; lia).
  destruct (Z.eqb_spec crc 0) as [Hz|Hz]; cbn [option_bind mbind].
  - destruct Hcrc as [[_ Hs]|[? ?]]; [|unfold HEADER in *; lia]. by rewrite Hz, Hs.
  - destruct Hcrc as [[? ?]|[? ?]]; [lia|]. unfold HEADER in *.
    rewrite (proj2 (Z.ltb_ge crc _)), (proj2 (Z.ltb_ge (Zlen laid_sec) _)) by lia. done.
Qed.
End laid.

(** ** What a section laid out so answers *)

(** Records end to end, and where each starts. *)
Definition end_to_end (recs : bytes) (offs : list Z) (rs : list bytes) : Prop :=
  recs = concat rs /\ forall i, 0 <= i < Zlen rs -> get_at offs i = Some (Zlen (concat (take (Z.to_nat i) rs))).


Definition entry : Type := bytes * Exts * bytes.
Definition entry_key (e : entry) : bytes := e.1.1.

(** The keys and the records a writer hands [stream_trailer], by rank. *)
Definition entry_key_at (es : list entry) (i : Z) : bytes := match get_at es i with Some e => entry_key e | None => [] end.
Definition entry_each (hash_of : bytes -> Z) (es : list entry) (offs : list Z) (i : Z) : Z * Z :=
  (default 0 (get_at offs i), hash_of (entry_key_at es i)).

(** Each entry's record lies in the region at its offset. *)
Definition records_at (base : Z) (recs : bytes) (offs : list Z) (es : list entry) : Prop :=
  Forall2 (fun off '(k, e, t) => 0 <= off < U32 /\ exists len, parse_record base recs off = Some (k, e, t, len)) offs es.

Section answers.
Context (target recs_len generation : Z) (hash_of : bytes -> Z) (base : Z).
Context (es : list entry) (offs : list Z) (recs row : bytes).
Local Abbreviation n := (Zlen es).
Local Abbreviation keyf := (entry_key_at es).
Local Abbreviation each := (entry_each hash_of es offs).
Context (Htarget : 0 < target) (Hrecs : 4 * n <= recs_len <= MAX_RECS).
Context (Hgen : 0 <= generation < U64) (Hfence : Zlen (concat (t_keys target n keyf)) <= recs_len).
Context (k : Z) (slots : list Z) (Hk : 0 <= k < 63) (Hcap34 : 2 ^ k < 2 ^ 34) (Hcapn : n <= 2 ^ k).
Context (Hf : filled k slots (t_asks n each)) (Hrl : Zlen recs = recs_len).
Context (crc shift : Z) (Hcrc : crc = 0 /\ shift = 0 \/ HEADER <= crc < U64 /\ 10 <= shift <= 24).
Context (Hat : records_at (base + HEADER) recs offs es) (Hnd : NoDup (map entry_key es)).

Local Abbreviation sec := (laid_sec target n recs_len generation keyf each k slots recs row crc shift).
Local Abbreviation f := (laid_index target n recs_len generation keyf k crc shift).

Lemma entry_at i e : get_at es i = Some e -> exists off, get_at offs i = Some off /\ 0 <= off < U32 /\
  each i = (off, hash_of (entry_key e)) /\ (hash_of (entry_key e), off) ∈ t_asks n each /\
  exists len, parse_record (base + HEADER) recs off = Some (e, len).
Proof.
  intros He. pose proof (get_at_lt _ _ _ He) as Hi. pose proof He as [H0 Hl]%get_at_Some.
  destruct (Forall2_lookup_r _ _ _ _ _ Hat Hl) as (off & Ho & Hr). destruct e as [[key x] t]. destruct Hr as [Hr [len Hp]].
  assert (get_at offs i = Some off) as Hg by (apply get_at_Some; done).
  assert (each i = (off, hash_of key)) as Hea by (unfold entry_each, entry_key_at; rewrite Hg, He; done).
  exists off. split; [done|]. split; [done|]. split; [done|]. split; [|eauto].
  unfold t_asks. apply list_elem_of_fmap. exists i. rewrite Hea. split; [done|]. apply elem_of_seqZ. lia.
Qed.

Lemma asked h off : (h, off) ∈ t_asks n each -> exists i e, get_at es i = Some e /\ get_at offs i = Some off /\ h = hash_of (entry_key e).
Proof.
  intros (i & E & Hi%elem_of_seqZ)%list_elem_of_fmap. destruct (get_at_is_Some es i) as [e He]; [lia|].
  destruct (entry_at i e He) as (off' & Ho & _ & Hea & _). rewrite Hea in E. injection E as -> ->. by exists i, e.
Qed.

Lemma asks_range : Forall (fun '(h, off) => 0 <= off < U32) (t_asks n each).
Proof.
  apply Forall_forall. intros [h off] (i & e & He & Ho & _)%asked. destruct (entry_at i e He) as (off' & Ho' & ? & _).
  rewrite Ho in Ho'. by injection Ho' as <-.
Qed.

Lemma offs_range i : 0 <= i < n -> 0 <= (each i).1 < U32.
Proof. intros Hi. destruct (get_at_is_Some es i Hi) as [e He]. destruct (entry_at i e He) as (off & _ & ? & -> & _). done. Qed.

Lemma t_offs_offs : t_offs n each = offs.
Proof.
  pose proof (Forall2_length _ _ _ Hat) as Hl. apply get_at_ext.
  - unfold t_offs. rewrite Zlen_map, Zlen_seqZ by apply Zlen_nonneg. unfold Zlen. f_equal. symmetry. exact Hl.
  - intros i Hi. unfold t_offs in *. rewrite Zlen_map, Zlen_seqZ in Hi by apply Zlen_nonneg. rewrite get_at_map, get_at_seqZ by lia.
    destruct (get_at_is_Some es i Hi) as [e He]. destruct (entry_at i e He) as (off & -> & _ & Hea & _).
    cbn [fmap option_fmap option_map]. by rewrite Z.add_0_l, Hea.
Qed.

Lemma laid_recs_slice : recs_slice f sec = Some recs.
Proof. unfold recs_slice. cbn [laid_index fx_recs fst snd]. by apply laid_recs. Qed.

Lemma laid_dir_slice : dir_slice f sec = Some (concat (map le32 offs)).
Proof.
  unfold dir_slice. cbn [laid_index fx_dir fst snd]. rewrite (laid_dir target n recs_len generation keyf each) by (done || apply Zlen_nonneg).
  by rewrite t_offs_offs.
Qed.

Lemma dir_rd i off : get_at offs i = Some off -> 0 <= off < U32 -> rd_u32 (concat (map le32 offs)) (i * 4) = Some off.
Proof.
  intros Ho Hr. pose proof (rd_u32_table [] [] offs i off (i * 4) Ho Hr) as H. rewrite app_nil_r in H. apply H.
  change (Zlen (@nil Byte.byte)) with 0. lia.
Qed.

Lemma laid_at i e : get_at es i = Some e -> at_full f base sec i = Some e.
Proof.
  intros He. pose proof (get_at_lt _ _ _ He). destruct (entry_at i e He) as (off & Ho & Hr & _ & _ & len & Hp).
  unfold at_full, regions, at_full_in. rewrite laid_recs_slice, laid_dir_slice. cbn [option_bind mbind laid_index fx_nkeys fx_recs fst].
  rewrite (proj2 (Z.leb_gt n i)), (dir_rd i off) by (done || lia). cbn [option_bind mbind]. rewrite Hp. by destruct e as [[? ?] ?].
Qed.

Lemma laid_key_at i : key_at f sec i = get_at (map entry_key es) i.
Proof.
  rewrite get_at_map. unfold key_at. rewrite laid_recs_slice, laid_dir_slice. cbn [option_bind mbind laid_index fx_nkeys].
  destruct (Z.leb_spec n i). { by rewrite (proj2 (get_at_None es i)) by lia. }
  destruct (get_at es i) as [e|] eqn:He.
  - destruct (entry_at i e He) as (off & Ho & Hr & _ & _ & len & Hp). rewrite (dir_rd i off) by done. cbn.
    destruct e as [[key x] t]. by apply parse_record_key in Hp.
  - apply get_at_None in He. unfold rd_u32, get_range. rewrite (proj2 (Z.leb_gt 0 (i * 4))) by lia. done.
Qed.

Lemma laid_lookup key : lookup_full f base sec hash_of key =
  (fun '(_, e, t) => (e, t)) <$> List.find (fun e => beqb (entry_key e) key) es.
Proof.
  unfold lookup_full. cbn [laid_index fx_hash fx_hash_cap fst snd].
  rewrite (laid_hash target n recs_len generation keyf each) by (done || apply Zlen_nonneg). cbn [option_bind mbind].
  set (answer := fun off => '(key', x, t) ← record_full f base sec off; if beqb key' key then Some (x, t) else None).
  change (probe (table slots) (2 ^ k) (hash_of key) (fun _ => answer) = (fun '(_, e, t) => (e, t)) <$> List.find (fun e => beqb (entry_key e) key) es).
  assert (forall i e off, get_at es i = Some e -> get_at offs i = Some off ->
    answer off = if beqb (entry_key e) key then Some (e.1.2, e.2) else None) as Hans.
  { intros i e off He Ho. destruct (entry_at i e He) as (off' & Ho' & _ & _ & _ & len & Hp). rewrite Ho in Ho'. injection Ho' as <-.
    unfold answer, record_full. rewrite laid_recs_slice. cbn [option_bind mbind laid_index fx_recs fst]. rewrite Hp. by destruct e as [[? ?] ?]. }
  destruct (List.find _ es) as [e|] eqn:Ef.
  - apply find_some in Ef as [Hin Hb]. apply (list_elem_of_In es e) in Hin. apply list_elem_of_lookup_1 in Hin as [i Hi].
    destruct (beqb_spec (entry_key e) key) as [<-|]; [|done]. assert (get_at es (Z.of_nat i) = Some e) as He by (apply get_at_Some; rewrite Nat2Z.id; split; [lia|done]).
    destruct (entry_at _ _ He) as (off & Ho & _ & _ & Hin' & _).
    rewrite (probe_found k Hk slots _ Hf asks_range answer (hash_of (entry_key e)) off (e.1.2, e.2)); [by destruct e as [[? ?] ?]|done| |].
    + rewrite (Hans _ _ _ He Ho), beqb_refl. done.
    + intros h' off' (j & e' & He' & Ho' & _)%asked Hne. rewrite (Hans _ _ _ He' Ho').
      destruct (beqb_spec (entry_key e') (entry_key e)) as [Ek|]; [|done]. exfalso. apply Hne.
      apply get_at_Some in He' as [Hj He'], Ho' as [_ Ho'], Ho as [_ Ho]. assert (Z.to_nat j = i) as Eij.
      { apply (NoDup_lookup _ _ _ (entry_key e) Hnd); [rewrite <- Ek|]; rewrite list_lookup_fmap; [by rewrite He'|by rewrite Hi]. }
      rewrite Nat2Z.id in Ho. congruence.
  - rewrite (probe_absent k Hk slots _ Hf asks_range answer); [done|]. intros h' off' (j & e' & He' & Ho' & _)%asked.
    rewrite (Hans _ _ _ He' Ho'). destruct (beqb _ key) eqn:Eb; [|done]. apply get_at_Some in He' as [_ He'].
    apply list_elem_of_lookup_2, list_elem_of_In in He'. by rewrite (find_none _ _ Ef _ He') in Eb.
Qed.
End answers.

(** ** What the index promises *)

(** The parsed section [f] of [sec] holds the entries [es]: every one at its
    rank, a lookup of any key answers its entry's extents and tail or
    nothing, and, where the keys ascend, a seek answers the first rank not
    below the key, with the fence and without. *)
Record holds (hash_of : bytes -> Z) (base : Z) (sec : bytes) (f : FlatIndex) (es : list entry) : Prop := {
  h_nkeys : fx_nkeys f = Zlen es;
  h_at : forall i e, get_at es i = Some e -> at_full f base sec i = Some e;
  h_key : forall i, key_at f sec i = get_at (map entry_key es) i;
  h_lookup : forall key, lookup_full f base sec hash_of key =
    (fun '(_, e, t) => (e, t)) <$> List.find (fun e => beqb (entry_key e) key) es;
  h_seek : ascending (map entry_key es) -> forall key fence,
    lower_bound_at (get_at (map entry_key es)) (Zlen es) key (seek_with f sec key fence)
}.

(** What a writer hands [stream_trailer]. *)
Record writable (target generation base : Z) (recs : bytes) (offs : list Z) (es : list entry) : Prop := {
  w_target : 0 < target;
  w_gen : 0 <= generation < U64;
  w_base : 0 <= base;
  w_len : 4 * Zlen es <= Zlen recs <= MAX_RECS;
  w_at : records_at (base + HEADER) recs offs es;
  w_keys : NoDup (map entry_key es);
  w_fence : Zlen (concat (t_keys target (Zlen es) (entry_key_at es))) <= Zlen recs
}.

Section hold.
Context (target generation base : Z) (hash_of : bytes -> Z) (recs : bytes) (offs : list Z) (es : list entry).
Context (Hw : writable target generation base recs offs es).
Local Abbreviation keyf := (entry_key_at es).
Local Abbreviation each := (entry_each hash_of es offs).
Local Abbreviation sec_with := (fun k slots row crc shift => laid_sec target (Zlen es) (Zlen recs) generation keyf each k slots recs row crc shift).

Lemma laid_holds k slots row crc shift : 0 <= k < 63 -> 2 ^ k < 2 ^ 34 -> Zlen es <= 2 ^ k -> filled k slots (t_asks (Zlen es) each) ->
  crc = 0 /\ shift = 0 \/ HEADER <= crc < U64 /\ 10 <= shift <= 24 -> crc <= Zlen (sec_with k slots row crc shift) ->
  let f := laid_index target (Zlen es) (Zlen recs) generation keyf k crc shift in
  flat_parse (sec_with k slots row crc shift) = Some f /\ holds hash_of base (sec_with k slots row crc shift) f es.
Proof.
  intros Hk Hk34 Hcap Hf Hcrc Hcrc2. destruct Hw. pose proof (Zlen_nonneg es).
  assert (forall i, 0 <= i < Zlen es -> 0 <= (each i).1 < U32) as Hor by (by eapply offs_range).
  set (f := laid_index target (Zlen es) (Zlen recs) generation keyf k crc shift). set (sec := laid_sec _ _ _ _ _ _ _ _ _ _ _ _).
  split; [by apply laid_parse|]. assert (forall i, key_at f sec i = get_at (map entry_key es) i) as Hkey.
  { intros i. by eapply laid_key_at. }
  split; [reflexivity| |exact Hkey| |].
  - intros i e. by eapply laid_at.
  - intros key. by eapply laid_lookup.
  - intros Ha key fence. rewrite <- (Zlen_map entry_key es).
    apply (seek_lower_bound f sec (map entry_key es) Hkey); [by rewrite Zlen_map|exact Ha|].
    pose proof (t_stride_pos target (Zlen es) (Zlen recs) w_target0 ltac:(lia) w_len0).
    subst f. cbn [laid_index fx_fence_stride]. unfold laid_fence. destruct (0 <? _); cbn [snd]; lia.
Qed.

(** The section before its checksum row. *)
Lemma stream_laid look : exists k slots, 0 <= k < 63 /\ 2 ^ k < 2 ^ 34 /\ Zlen es <= 2 ^ k /\ filled k slots (t_asks (Zlen es) each) /\
  exists h t total, stream_trailer target (Zlen es) (Zlen recs) keyf each generation look = Some (h, t, total) /\
    h ++ recs ++ t = sec_with k slots [] 0 0 /\ total = Zlen (h ++ recs ++ t) /\ Zlen h = HEADER.
Proof.
  destruct Hw. pose proof (Zlen_nonneg es) as H0. assert (forall i, 0 <= i < Zlen es -> 0 <= (each i).1 < U32) as Hor by (by eapply offs_range).
  destruct (stream_trailer_bytes target (Zlen es) (Zlen recs) generation keyf each look) as (k & slots & Hk & Hc & Hk34 & Hn & Hf & Hs); try done.
  exists k, slots. split; [done|]. split; [done|]. split; [done|]. split; [done|]. eexists _, _, _. split; [exact Hs|].
  assert (header_bytes (t_words target (Zlen es) (Zlen recs) generation keyf (2 ^ k) 0 0) ++ recs ++
    trailer_bytes target (Zlen es) (Zlen recs) keyf each slots = sec_with k slots [] 0 0) as E.
  { unfold laid_sec. by rewrite app_nil_r. }
  split; [exact E|]. split; [|by rewrite Zlen_header_bytes].
  rewrite E. rewrite (Zlen_laid target (Zlen es) (Zlen recs) generation keyf each) by done. rewrite (@Zlen_nil Byte.byte). lia.
Qed.

Lemma header_set_words k len : set_checksum_words (header_bytes (t_words target (Zlen es) (Zlen recs) generation keyf (2 ^ k) 0 0)) len =
  Some (header_bytes (t_words target (Zlen es) (Zlen recs) generation keyf (2 ^ k) len PIECE_SHIFT)).
Proof.
  unfold set_checksum_words, header_bytes, t_words. cbn [map concat]. rewrite <- ?app_assoc.
  unfold W_CRC_OFF, W_PIECE_SHIFT. puts. puts. reflexivity.
Qed.
End hold.

(** The section's own length, and where its directory lies in it. *)
Lemma laid_total target generation base hash_of recs offs es : writable target generation base recs offs es ->
  forall k slots, 0 <= k < 63 -> 2 ^ k < 2 ^ 34 -> Zlen es <= 2 ^ k -> filled k slots (t_asks (Zlen es) (entry_each hash_of es offs)) ->
  forall total, Zlen (laid_sec target (Zlen es) (Zlen recs) generation (entry_key_at es) (entry_each hash_of es offs) k slots recs [] total PIECE_SHIFT) = total ->
  total < 2 ^ 41 /\ HEADER <= total /\
    HEADER <= t_dir_at target (Zlen es) (Zlen recs) (entry_key_at es) /\ t_dir_at target (Zlen es) (Zlen recs) (entry_key_at es) + Zlen es * 4 <= total.
Proof.
  intros [] k slots Hk Hk34 Hcap Hf total Hl. pose proof (Zlen_nonneg es).
  rewrite (Zlen_laid target (Zlen es) (Zlen recs) generation (entry_key_at es) (entry_each hash_of es offs)) in Hl by done.
  pose proof (t_bounds target (Zlen es) (Zlen recs) (entry_key_at es) w_target0 ltac:(lia) w_len0 w_fence0) as (? & ? & ? & ? & ?).
  rewrite (@Zlen_nil Byte.byte) in *. pose proof (Z.pow_pos_nonneg 2 k ltac:(lia) ltac:(lia)). unfold SLOT in *. lia.
Qed.

(** A header parses alike alone and with its section behind it. *)
Lemma header_parse_app h x : Zlen h = HEADER -> header_parse (h ++ x) = header_parse h.
Proof.
  intros Hh. unfold HEADER in Hh. unfold header_parse, is_flat, checksum_words, W_CRC_OFF, W_PIECE_SHIFT.
  rewrite !rd_u32_keep, !rd_u64_keep by lia. done.
Qed.

Lemma laid_row target n rl gen keyf each k slots recs row crc shift :
  laid_sec target n rl gen keyf each k slots recs [] crc shift ++ row = laid_sec target n rl gen keyf each k slots recs row crc shift.
Proof. unfold laid_sec. by rewrite <- !app_assoc. Qed.

(** The window a fence of the trailer's answers for any key is no wider than a
    stride and holds the first rank not below the key. *)
Lemma laid_windows target generation base recs offs es key r : writable target generation base recs offs es -> ascending (map entry_key es) ->
  lower_bound_at (get_at (map entry_key es)) (Zlen es) key r ->
  let keys := t_keys target (Zlen es) (entry_key_at es) in
  let '(lo, hi) := window (mkFence (fence_offs_bytes keys) (concat keys) (t_fence_n target (Zlen es)) (t_stride target (Zlen es))) key (Zlen es) in
  0 <= lo <= r /\ r <= hi <= Zlen es /\ hi - lo <= t_stride target (Zlen es).
Proof.
  intros [] Ha Hlb. cbv zeta. pose proof (Zlen_nonneg es). destruct (t_stride_pos target (Zlen es) (Zlen recs) w_target0 ltac:(lia) w_len0) as [Hst _].
  pose proof (Zlen_t_keys target (Zlen es) (Zlen recs) (entry_key_at es) w_target0 ltac:(lia) w_len0) as Hkl.
  set (v := mkFence _ _ _ _). pose proof (window_of_brackets (map entry_key es) (view_key v) (fv_n v) (fv_stride v) key r Ha) as Hwin.
  rewrite Zlen_map in Hwin. apply Hwin; [cbn [v fv_stride]; lia|done| |done]. clear Hwin.
  intros i Hi. cbn [v fv_n fv_stride] in *. unfold view_key. cbn [v fv_offs fv_blob].
  rewrite fence_offs_key by (unfold MAX_RECS in *; lia). unfold t_keys. rewrite get_at_map, get_at_seqZ by lia.
  cbn [fmap option_fmap option_map]. rewrite Z.add_0_l. unfold entry_key_at. rewrite get_at_map.
  destruct (div_ceil_spec (Zlen es) (t_stride target (Zlen es)) ltac:(lia) ltac:(lia)) as [Hd _]. unfold t_fence_n in Hi.
  destruct (get_at_is_Some es (i * t_stride target (Zlen es))) as [e ->]; [nia|done].
Qed.

(** Records that read wherever a run of them lies, four-aligned. *)
Definition records_read (recs : bytes) (offs : list Z) (es : list entry) : Prop := exists rs, end_to_end recs offs rs /\ Zlen rs = Zlen es /\
  forall i r e, get_at rs i = Some r -> get_at es i = Some e -> Zlen r mod 4 = 0 /\ 4 <= Zlen r /\
    forall addr pre post, is_aligned (addr + Zlen pre) 4 = true -> Zlen (pre ++ r ++ post) < U32 ->
      exists len, parse_record addr (pre ++ r ++ post) (Zlen pre) = Some (e, len).

(** What a reader that keeps the fence alone takes from a section: the records
    and the directory where the header says, and a fence whose window for a key
    holds its place; all of it before the checksum row. *)
Definition fence_brackets (sec : bytes) (hd : Header) (keys : list bytes) : Prop :=
  let '(foff, flen) := fence_span hd (Zlen sec) in
  (hd_fence_n hd <> 0 -> HEADER <= hd_fence_offs_off hd <= Zlen sec) /\ 0 <= foff /\ 0 <= flen /\ foff + flen <= hd_crc_off hd /\
  exists region, get_range sec foff (foff + flen) = Some region /\
    match fence_parse region hd with
    | None => keys = []
    | Some v => forall key r, lower_bound_at (get_at keys) (Zlen keys) key r ->
        let '(lo, hi) := window v key (Zlen keys) in 0 <= lo <= r /\ r <= hi <= Zlen keys
    end.

Record dictionary (sec : bytes) (hd : Header) (es : list entry) (offs : list Z) (recs : bytes) : Prop := {
  di_n : hd_nkeys hd = Zlen es;
  di_recs_off : hd_recs_off hd = HEADER;
  di_recs_len : hd_recs_len hd = Zlen recs;
  di_bump : hd_bump hd = Zlen recs;
  di_recs : get_range sec HEADER (HEADER + Zlen recs) = Some recs;
  di_recs_end : HEADER + Zlen recs <= hd_crc_off hd;
  di_dir : get_range sec (hd_dir_off hd) (hd_dir_off hd + Zlen es * 4) = Some (concat (map le32 offs));
  di_dir_end : HEADER <= hd_dir_off hd /\ hd_dir_off hd + Zlen es * 4 <= hd_crc_off hd;
  di_hash : HEADER <= hd_hash_off hd /\ 0 <= hd_hash_cap hd /\ hd_hash_off hd + hd_hash_cap hd * 8 <= hd_crc_off hd;
  di_fence : fence_brackets sec hd (map entry_key es)
}.

Lemma laid_dictionary target generation base hash_of recs offs es k slots row shift crc : writable target generation base recs offs es ->
  0 <= k < 63 -> 2 ^ k < 2 ^ 34 -> Zlen es <= 2 ^ k -> filled k slots (t_asks (Zlen es) (entry_each hash_of es offs)) -> ascending (map entry_key es) ->
  let sec := fun row => laid_sec target (Zlen es) (Zlen recs) generation (entry_key_at es) (entry_each hash_of es offs) k slots recs row crc shift in
  crc = Zlen (sec []) -> 10 <= shift <= 24 -> HEADER <= crc < U64 ->
  exists hd, header_parse (sec row) = Some hd /\ dictionary (sec row) hd es offs recs.
Proof.
  intros Hw Hk Hk34 Hcap Hf Ha sec Hcrc Hsh Hcr. pose proof Hw as []. pose proof (Zlen_nonneg es) as H0. pose proof (Zlen_nonneg row).
  assert (forall i, 0 <= i < Zlen es -> 0 <= (entry_each hash_of es offs i).1 < U32) as Hor by (by eapply offs_range).
  pose proof (laid_bounds target (Zlen es) (Zlen recs) (entry_key_at es) w_target0 H0 w_len0 w_fence0) as Hb. pose proof (cap_pos_laid k Hk) as Hcp.
  assert (forall r, Zlen (sec r) = crc + Zlen r) as Hl.
  { intros r. unfold sec in *. rewrite (Zlen_laid target (Zlen es) (Zlen recs) generation (entry_key_at es) (entry_each hash_of es offs)) in * by done.
    rewrite (@Zlen_nil Byte.byte) in *. lia. }
  assert (t_hash_at target (Zlen es) (Zlen recs) (entry_key_at es) + 2 ^ k * SLOT = crc) as Hend.
  { unfold sec in Hcrc. rewrite (Zlen_laid target (Zlen es) (Zlen recs) generation (entry_key_at es) (entry_each hash_of es offs)) in Hcrc by done.
    rewrite (@Zlen_nil Byte.byte) in *. lia. }
  unfold SLOT in Hend. assert (crc = 0 /\ shift = 0 \/ HEADER <= crc < U64 /\ 10 <= shift <= 24) as Hc2 by (right; done). assert (HEADER = 192) as HH by done.
  eexists. split; [exact (laid_header target (Zlen es) (Zlen recs) generation (entry_key_at es) (entry_each hash_of es offs) w_target0 H0 w_len0 w_gen0 w_fence0 k slots Hk Hk34 Hcap recs row crc shift Hc2)|].
  split; cbn [hd_nkeys hd_recs_off hd_recs_len hd_bump hd_crc_off hd_dir_off hd_hash_off hd_hash_cap]; try done.
  - exact (laid_recs target (Zlen es) (Zlen recs) generation (entry_key_at es) (entry_each hash_of es offs) k slots Hk recs row eq_refl crc shift).
  - lia.
  - pose proof (laid_dir target (Zlen es) (Zlen recs) generation (entry_key_at es) (entry_each hash_of es offs) w_target0 H0 w_len0 w_fence0 k slots Hk recs row eq_refl crc shift) as Hd.
    rewrite (t_offs_offs hash_of base es offs recs k w_at0) in Hd. exact Hd.
  - lia.
  - lia.
  - unfold fence_brackets. cbn [hd_crc_off hd_fence_n hd_fence_offs_off]. destruct (Z.eq_dec (Zlen es) 0) as [Hz|Hz].
    + apply Zlen_zero_nil in Hz as Hes. assert (t_fence_n target (Zlen es) = 0) as Hfn by (pose proof (t_fence_n_range target (Zlen es) (Zlen recs) w_target0 H0 w_len0); lia).
      unfold fence_span. cbn [hd_fence_n]. rewrite Hfn. cbn [Z.eqb]. split; [done|]. split; [done|]. split; [done|]. split; [lia|]. exists []. split.
      * rewrite Z.add_0_l. destruct (get_range_is_Some (sec row) 0 0) as [x Hx]; [lia|rewrite Hl; lia|]. rewrite Hx. f_equal. apply Zlen_zero_nil. apply get_range_len in Hx. lia.
      * unfold fence_parse. cbn [hd_fence_n Z.eqb orb]. rewrite Hes. reflexivity.
    + destruct (laid_fence_region target (Zlen es) (Zlen recs) generation (entry_key_at es) (entry_each hash_of es offs) w_target0 H0 w_len0 w_fence0 k slots Hk Hcap Hf
        recs row eq_refl crc shift) as [Hsp [c Hr]]; [change (crc <= Zlen (sec row)); rewrite Hl; lia|lia|lia|unfold SLOT; lia|].
      change (laid_sec target (Zlen es) (Zlen recs) generation (entry_key_at es) (entry_each hash_of es offs) k slots recs row crc shift) with (sec row) in Hsp, Hr.
      rewrite Hsp.
      destruct (fence_parse_laid target (Zlen es) (Zlen recs) (entry_key_at es) w_target0 H0 w_len0 w_fence0 k Hk c generation (t_hash_at target (Zlen es) (Zlen recs) (entry_key_at es)) (2 ^ k)
        (t_dir_at target (Zlen es) (Zlen recs) (entry_key_at es)) (t_dir_at target (Zlen es) (Zlen recs) (entry_key_at es)) 0 HEADER (Zlen recs) (Zlen recs) crc shift) as [_ Hfp]; [lia|].
      split; [intros _; rewrite Hl; lia|]. split; [lia|]. split; [lia|]. split; [lia|]. eexists. split; [rewrite Zplus_minus; exact Hr|]. rewrite Hfp.
      intros key r Hlb. rewrite Zlen_map in *. pose proof (laid_windows _ _ _ _ _ _ key r Hw Ha Hlb) as Hwin. cbv zeta in Hwin.
      destruct (window _ key (Zlen es)). lia.
Qed.

(** The section streamed and its row made: the header on its own, as the
    writer patches it, and everything a reader takes from the whole. *)
Lemma stream_checksummed target generation base hash_of recs offs es (Hw : writable target generation base recs offs es) look addr :
  exists h t total h' row f hd, stream_trailer target (Zlen es) (Zlen recs) (entry_key_at es) (entry_each hash_of es offs) generation look = Some (h, t, total) /\
    set_checksum_words h total = Some h' /\ Zlen h = HEADER /\ Zlen h' = HEADER /\ total = HEADER + Zlen recs + Zlen t /\
    checksum_row (h' ++ recs ++ t) PIECE_SHIFT addr = Some row /\ Zlen row = checksum_row_len total PIECE_SHIFT addr /\
    verify_pieces ((h' ++ recs ++ t) ++ row) total PIECE_SHIFT addr = Some (inl tt) /\
    flat_parse ((h' ++ recs ++ t) ++ row) = Some f /\ fx_crc_off f = total /\ fx_piece_shift f = PIECE_SHIFT /\
    holds hash_of base ((h' ++ recs ++ t) ++ row) f es /\
    header_parse h' = Some hd /\ hd_crc_off hd = total /\ hd_piece_shift hd = PIECE_SHIFT /\ hd_nkeys hd = Zlen es /\
    HEADER <= hd_dir_off hd /\ hd_dir_off hd + hd_nkeys hd * 4 <= total /\ total < 2 ^ 41 /\
    (ascending (map entry_key es) -> dictionary ((h' ++ recs ++ t) ++ row) hd es offs recs).
Proof.
  destruct (stream_laid target generation base hash_of recs offs es Hw look) as (k & slots & Hk & Hk34 & Hcap & Hf & h & t & total & Hs & E & Ht & Hh).
  set (sec1 := laid_sec target (Zlen es) (Zlen recs) generation (entry_key_at es) (entry_each hash_of es offs) k slots recs [] total PIECE_SHIFT).
  set (h' := header_bytes (t_words target (Zlen es) (Zlen recs) generation (entry_key_at es) (2 ^ k) total PIECE_SHIFT)).
  assert (h = header_bytes (t_words target (Zlen es) (Zlen recs) generation (entry_key_at es) (2 ^ k) 0 0) /\
    recs ++ t = recs ++ trailer_bytes target (Zlen es) (Zlen recs) (entry_key_at es) (entry_each hash_of es offs) slots) as [-> Htr].
  { unfold laid_sec in E. rewrite app_nil_r in E. apply app_inj_1; [|exact E]. apply Nat2Z.inj. change (Zlen h = Zlen (header_bytes (t_words target (Zlen es)
      (Zlen recs) generation (entry_key_at es) (2 ^ k) 0 0))). by rewrite Hh, Zlen_header_bytes. }
  apply app_inv_head in Htr as ->. assert (sec1 = h' ++ recs ++ trailer_bytes target (Zlen es) (Zlen recs) (entry_key_at es) (entry_each hash_of es offs) slots) as Hs1
    by (unfold sec1, laid_sec; by rewrite app_nil_r).
  assert (Zlen h' = HEADER) as Hh' by (unfold h'; by rewrite Zlen_header_bytes).
  assert (Zlen sec1 = total) as Hl1 by (rewrite Hs1, Ht, !Zlen_app, Hh, Hh'; done).
  destruct (laid_total target generation base hash_of recs offs es Hw k slots Hk Hk34 Hcap Hf total) as (Htot & Hge & Hdir); [done|].
  destruct (row_verifies sec1 PIECE_SHIFT addr) as (row & Hr1 & Hr2 & Hr3); [unfold HEADER in *; lia|done|]. rewrite Hl1 in *.
  assert (laid_sec target (Zlen es) (Zlen recs) generation (entry_key_at es) (entry_each hash_of es offs) k slots recs row total PIECE_SHIFT = sec1 ++ row) as Hrow
    by (unfold sec1; by rewrite laid_row).
  assert (total <= Zlen (sec1 ++ row)) as Hle by (rewrite Zlen_app, Hl1; pose proof (Zlen_nonneg row); lia). rewrite <- Hrow in Hle.
  assert (total = 0 /\ PIECE_SHIFT = 0 \/ HEADER <= total < U64 /\ 10 <= PIECE_SHIFT <= 24) as Hcrc by (right; unfold U64, PIECE_SHIFT; lia).
  destruct (laid_holds target generation base hash_of recs offs es Hw k slots row total PIECE_SHIFT Hk Hk34 Hcap Hf Hcrc Hle) as (Hp & Hho).
  pose proof Hw as [Htg Hgen Hb Hlen Hat Hnd Hfe]. pose proof (Zlen_nonneg es) as Hn0.
  eexists _, _, _, h', row, _, _. split; [exact Hs|]. split; [apply header_set_words|]. split; [by rewrite Zlen_header_bytes|]. split; [done|].
  split; [rewrite Ht, !Zlen_app, Hh; lia|]. rewrite <- Hs1. split; [exact Hr1|]. split; [exact Hr2|]. split; [exact Hr3|].
  rewrite <- Hrow. split; [exact Hp|]. split; [done|]. split; [done|]. split; [exact Hho|].
  split.
  - rewrite <- (header_parse_app h' (recs ++ trailer_bytes target (Zlen es) (Zlen recs) (entry_key_at es) (entry_each hash_of es offs) slots)) by done.
    rewrite <- Hs1. unfold sec1. by apply laid_header.
  - split; [done|]. split; [done|]. split; [done|]. cbn [hd_dir_off hd_nkeys]. split; [lia|]. split; [lia|]. split; [lia|]. intros Ha.
    destruct (laid_dictionary target generation base hash_of recs offs es k slots row PIECE_SHIFT total Hw Hk Hk34 Hcap Hf Ha) as (hd & Hhd & Hd);
      [exact (eq_sym Hl1)|unfold PIECE_SHIFT; lia|unfold U64; lia|].
    rewrite (laid_header target (Zlen es) (Zlen recs) generation (entry_key_at es) (entry_each hash_of es offs) Htg Hn0 Hlen Hgen Hfe k slots Hk Hk34 Hcap recs row total PIECE_SHIFT Hcrc) in Hhd.
    injection Hhd as <-. exact Hd.
Qed.

(** C20: the header and the trailer streamed around any records make a section
    that parses, to an index that holds exactly the records' entries: by
    rank, by key and by seek, whatever the hash, the fence's density, the
    table's fill and the collisions. *)
Theorem flat_roundtrip target generation base hash_of recs offs es look : writable target generation base recs offs es ->
  exists h t total, stream_trailer target (Zlen es) (Zlen recs) (entry_key_at es) (entry_each hash_of es offs) generation look = Some (h, t, total) /\
    Zlen (h ++ recs ++ t) = total /\ Zlen h = HEADER /\
    exists f, flat_parse (h ++ recs ++ t) = Some f /\ holds hash_of base (h ++ recs ++ t) f es.
Proof.
  intros Hw. destruct (stream_laid target generation base hash_of recs offs es Hw look) as (k & slots & Hk & Hk34 & Hcap & Hf & h & t & total & Hs & E & Ht & Hh).
  exists h, t, total. split; [done|]. split; [done|]. split; [done|]. rewrite E.
  eexists. apply laid_holds; try done. by left.
Qed.


(** The fence the trailer holds parses on its own, from the header's words
    and the bytes at them, and the window it answers for any key is no wider
    than a stride and holds the first rank not below the key. *)
Theorem fence_view_window target generation base hash_of recs offs es look key : writable target generation base recs offs es ->
  ascending (map entry_key es) -> 0 < Zlen es ->
  exists h t total hd region v, stream_trailer target (Zlen es) (Zlen recs) (entry_key_at es) (entry_each hash_of es offs) generation look = Some (h, t, total) /\
    header_parse (h ++ recs ++ t) = Some hd /\ hd_nkeys hd = Zlen es /\
    get_from (h ++ recs ++ t) (hd_fence_offs_off hd) = Some region /\ fence_parse region hd = Some v /\
    forall r, lower_bound_at (get_at (map entry_key es)) (Zlen es) key r ->
      let '(lo, hi) := window v key (Zlen es) in 0 <= lo <= r /\ r <= hi <= Zlen es /\ hi - lo <= hd_fence_stride hd.
Proof.
  intros Hw Ha Hpos. destruct (stream_laid target generation base hash_of recs offs es Hw look) as (k & slots & Hk & Hk34 & Hcap & Hf & h & t & total & Hs & E & Ht & Hh).
  pose proof Hw as []. destruct (laid_fence_view target (Zlen es) (Zlen recs) generation (entry_key_at es) (entry_each hash_of es offs) w_target0 ltac:(lia) w_len0 w_fence0 k slots Hk
    recs [] eq_refl 0 0 generation (t_hash_at target (Zlen es) (Zlen recs) (entry_key_at es)) (2 ^ k) (t_dir_at target (Zlen es) (Zlen recs) (entry_key_at es))
    (t_dir_at target (Zlen es) (Zlen recs) (entry_key_at es)) 0 HEADER (Zlen recs) (Zlen recs) 0 0 Hpos) as (region & Hr & Hv).
  eexists h, t, total, _, region, _. split; [done|]. rewrite E. split; [apply laid_header; try done; [lia|by left]|].
  split; [done|]. split; [exact Hr|]. split; [exact Hv|]. intros r Hlb. by eapply laid_windows.
Qed.

(** ** Two records, at work *)

Definition sample_run : bytes := [x01; x61; x02; x62; x63].
Definition sample_entries : list entry := [([x61], One sample_ext, sample_run); ([x62], One sample_ext, sample_run)].
Definition sample_recs : bytes := record_bytes [x61] [sample_ext] sample_run true ++ record_bytes [x62] [sample_ext] sample_run true.

Lemma sample_writable : writable 1 7 0 sample_recs [0; 20] sample_entries.
Proof.
  split; [lia|unfold U64; lia|lia|vm_compute; split; discriminate| | |vm_compute; discriminate].
  - repeat constructor; try lia; exists 20; vm_compute; reflexivity.
  - constructor; [|constructor; [|constructor]]; intros H; cbn in H; [apply list_elem_of_singleton in H; discriminate|by apply not_elem_of_nil in H].
Defined.

Lemma sample_ascending : ascending (map entry_key sample_entries).
Proof.
  intros i j a b Hij Hi Hj. pose proof (get_at_lt _ _ _ Hi) as H1. pose proof (get_at_lt _ _ _ Hj) as H2. change (Zlen (map entry_key sample_entries)) with 2 in *.
  assert (i = 0) as -> by lia. assert (j = 1) as -> by lia. vm_compute in Hi, Hj. injection Hi as <-. injection Hj as <-. reflexivity.
Qed.

Lemma flat_roundtrip_witness :
  exists h t total f, stream_trailer 1 2 40 (entry_key_at sample_entries) (entry_each key_hash sample_entries [0; 20]) 7 true = Some (h, t, total) /\
    flat_parse (h ++ sample_recs ++ t) = Some f /\
    lookup_full f 0 (h ++ sample_recs ++ t) key_hash [x62] = Some (One sample_ext, sample_run) /\
    lookup_full f 0 (h ++ sample_recs ++ t) key_hash [x63] = None.
Proof.
  destruct (flat_roundtrip 1 7 0 key_hash sample_recs [0; 20] sample_entries true sample_writable) as (h & t & total & Hs & _ & _ & f & Hp & Hh).
  exists h, t, total, f. split; [exact Hs|]. split; [exact Hp|]. destruct Hh as [_ _ _ Hl _].
  split; [exact (Hl [x62])|exact (Hl [x63])].
Defined.


Lemma fence_view_window_witness :
  exists h t total hd region v, stream_trailer 1 2 40 (entry_key_at sample_entries) (entry_each key_hash sample_entries [0; 20]) 7 false = Some (h, t, total) /\
    header_parse (h ++ sample_recs ++ t) = Some hd /\ get_from (h ++ sample_recs ++ t) (hd_fence_offs_off hd) = Some region /\
    fence_parse region hd = Some v /\ (window v [x62] 2).1 <= 1 <= (window v [x62] 2).2.
Proof.
  destruct (fence_view_window 1 7 0 key_hash sample_recs [0; 20] sample_entries false [x62] sample_writable sample_ascending ltac:(reflexivity))
    as (h & t & total & hd & region & v & Hs & Hh & _ & Hr & Hv & Hw).
  exists h, t, total, hd, region, v. repeat (split; [first [exact Hs|exact Hh|exact Hr|exact Hv]|]). change (Zlen sample_entries) with 2 in Hw.
  specialize (Hw 1). destruct (window v [x62] 2) as [lo hi]. cbn [fst snd]. destruct Hw as (? & ? & ?); [|lia].
  split; [lia|]. split; intros i Hi.
  - assert (i = 0) as -> by lia. exists [x61]. split; reflexivity.
  - assert (i = 1) as -> by lia. exists [x62]. split; [reflexivity|discriminate].
Defined.

Lemma seek_damaged_fence_witness :
  exists sec f, flat_parse sec = Some f /\ fx_fence_n f = 1 /\ seek_with f sec [x62] true = 1 /\ is_Some (dir_slot_of f sec [x62]).
Proof.
  destruct (stream_laid 1 7 0 key_hash sample_recs [0; 20] sample_entries sample_writable true) as (k & slots & Hk & Hk34 & Hcap & Hf & _).
  destruct (laid_holds 1 7 0 key_hash sample_recs [0; 20] sample_entries sample_writable k slots [] 0 0 Hk Hk34 Hcap Hf ltac:(by left) ltac:(apply Zlen_nonneg)) as (Hp & Hh).
  destruct Hh as [_ _ Hkey _ _]. eexists _, _. split; [exact Hp|]. split; [reflexivity|].
  destruct (seek_damaged_fence _ _ (map entry_key sample_entries) [x62] true Hkey eq_refl sample_ascending ltac:(vm_compute; discriminate)) as (Hlb & _ & _ & Hd).
  split; [|apply Hd; right; left].
  refine (lower_bound_unique _ _ _ _ _ Hlb _). split; [vm_compute; split; discriminate|]. split; intros i Hi.
  - assert (i = 0) as -> by lia. exists [x61]. split; reflexivity.
  - change (Zlen (map entry_key sample_entries)) with 2 in Hi. assert (i = 1) as -> by lia. exists [x62]. split; [reflexivity|discriminate].
Defined.
