(* ===== verification/OrdIndex.v ===== *)
(** * The ordered index: eight bytes a key

    [src/src/ordindex.rs]: a segment's companion file of heads -- the eight
    bytes of every key past the prefix all of them share -- written by
    [Builder] or [Composer] and opened whole, checked, with every
    [TOP_STRIDE]th head in memory. The seeks over it and the exactness they
    report are the module's subject; the records of the segment are the
    parameter [key_at], asked only where heads tie.

    [head] reads the mapped file where the open has checked there are bytes;
    past the last rank the source panics and no seek asks. *)

From S2P Require Import Prelude Crc.

Definition MAGIC : Z := 0x3144524f44505553.
Definition HEADER : Z := 64.
Definition HEAD : Z := 8.
Definition TOP_STRIDE : Z := 64.
Definition UNIFORM_AT : Z := 32.

Definition head_bytes (key : bytes) (pfx : Z) : bytes :=
  let from := Z.min pfx (Zlen key) in
  let n := Z.min (Zlen key - from) HEAD in
  take (Z.to_nat n) (drop (Z.to_nat from) key) ++ zeros (HEAD - n).

Definition head_of (key : bytes) (pfx : Z) : Z := be_val (head_bytes key pfx).

(** How many bytes two keys share at their start. *)
Fixpoint common_prefix (first last : bytes) : Z :=
  match first, last with
  | a :: first, b :: last => if byte_eqb a b then 1 + common_prefix first last else 0
  | _, _ => 0
  end.

(** ** Composing *)

Record Composer := mkComposer { co_out : bytes; co_pfx : Z; co_len0 : Z; co_uniform : bool; co_n : Z; co_pushed : Z }.

Definition composer_new (n : Z) (first last : bytes) : Composer :=
  let pfx := if n =? 0 then 0 else common_prefix first last in
  let len0 := if n =? 0 then 0 else Zlen first in
  mkComposer (zeros HEADER) pfx len0 ((0 <? n) && (len0 <=? pfx + HEAD)) n 0.

Definition composer_push (c : Composer) (key : bytes) : Composer :=
  mkComposer (co_out c ++ be64 (head_of key (co_pfx c))) (co_pfx c) (co_len0 c)
    (co_uniform c && (Zlen key =? co_len0 c)) (co_n c) (co_pushed c + 1).

(** [None] where the assertion fails. *)
Definition composer_finish (c : Composer) : option bytes :=
  if negb (co_pushed c =? co_n c) then None
  else
    out ← put_range (co_out c) 0 (le64 MAGIC);
    out ← put_range out 8 (le64 (co_n c));
    out ← put_range out 16 (le64 (co_pfx c));
    out ← put_range out 24 (le64 HEADER);
    out ← put_range out UNIFORM_AT (le64 (if co_uniform c then co_len0 c + 1 else 0));
    Some (out ++ le32 (crc32 out)).

Definition finish_from (n : Z) (key_at : Z -> option bytes) : option bytes :=
  c ← (if n =? 0 then Some (composer_new 0 [] [])
       else first ← key_at 0; last ← key_at (n - 1); Some (composer_new n first last));
  c ← ofold (fun c i => k ← key_at i; Some (composer_push c k)) (seqZ 0 n) c;
  composer_finish c.

(** The builder keeps the keys and where each starts. *)
Record Builder := mkBuilder { bu_starts : list Z; bu_bytes : bytes; bu_n : Z }.

Definition builder_new : Builder := mkBuilder [] [] 0.

Definition builder_push (b : Builder) (key : bytes) : Builder :=
  mkBuilder (bu_starts b ++ [w32 (Zlen (bu_bytes b))]) (bu_bytes b ++ key) (bu_n b + 1).

Definition builder_finish (b : Builder) : option bytes :=
  let starts := bu_starts b ++ [w32 (Zlen (bu_bytes b))] in
  finish_from (bu_n b) (fun i => s ← get_at starts i; e ← get_at starts (i + 1); get_range (bu_bytes b) s e).

(** ** Opening *)

Record OrdIndex := mkOrd {
  oi_map : bytes;
  oi_n : Z;
  oi_pfx : Z;
  oi_uniform : option Z;
  oi_prefix : option bytes;
  oi_top : list Z
}.

Definition rd_be64 (b : bytes) (at_ : Z) : option Z := be_val <$> get_range b at_ (at_ + 8).

Definition head_at (map : bytes) (i : Z) : Z := default 0 (rd_be64 map (HEADER + i * HEAD)).

(** The ranks [0], [TOP_STRIDE], ... below [n]. *)
Definition top_ranks (n : Z) : list Z := map (fun t => t * TOP_STRIDE) (seqZ 0 (div_ceil n TOP_STRIDE)).

Definition open (b : bytes) (keys : Z) : result OrdIndex :=
  if Zlen b <? HEADER + 4 then Err "shorter than its header"
  else
    let body := Zlen b - 4 in
    let* crc := ok_or (rd_u32 b body) "" in
    let* bd := ok_or (get_range b 0 body) "" in
    if negb (crc32 bd =? crc) then Err "checksum does not match"
    else
      let* magic := ok_or (rd_u64 b 0) "" in
      if negb (magic =? MAGIC) then Err "wrong magic"
      else
        let* n := ok_or (rd_u64 b 8) "" in
        let* pfx := ok_or (rd_u64 b 16) "" in
        let* heads_at := ok_or (rd_u64 b 24) "" in
        if negb (n =? keys) then Err "describes a different segment"
        else
          let* w := ok_or (rd_u64 b UNIFORM_AT) "" in
          let* uniform := (if w =? 0 then Ok None
                           else let l := w - 1 in
                                if (l <? pfx) || (pfx + HEAD <? l) then Err "uniform length is outside the prefix and the head"
                                else Ok (Some l)) in
          let* want := ok_or (cmul n HEAD) "key count overflows" in
          if negb (heads_at =? HEADER) || negb (match cadd heads_at want with Some e => e =? body | None => false end)
          then Err "heads do not fill the file"
          else Ok (mkOrd b n pfx uniform None (map (head_at b) (top_ranks n))).

Definition learn_prefix (ix : OrdIndex) (first_key : bytes) : OrdIndex :=
  mkOrd (oi_map ix) (oi_n ix) (oi_pfx ix) (oi_uniform ix)
    (Some (take (Z.to_nat (Z.min (oi_pfx ix) (Zlen first_key))) first_key)) (oi_top ix).

(** ** Searching *)

(** The word at [i] of a slice, big-endian; in range where it is asked. *)
Definition word (s : bytes) (i : Z) : option Z := rd_be64 s i.

(** The words of two slices from [i], and [inl] the verdict of the first
    that differ, or where the last whole word ends. *)
Fixpoint cmp_words (fuel : nat) (a b : bytes) (n i : Z) : option (comparison + Z) :=
  match fuel with
  | O => None
  | S fuel =>
      if i + 8 <=? n then
        x ← word a i; y ← word b i;
        if negb (x =? y) then Some (inl (x ?= y)) else cmp_words fuel a b n (i + 8)
      else Some (inr i)
  end.

Fixpoint cmp_bytes (fuel : nat) (a b : bytes) (n i : Z) : option (option comparison) :=
  match fuel with
  | O => None
  | S fuel =>
      if i <? n then
        x ← get_at a i; y ← get_at b i;
        if negb (byte_eqb x y) then Some (Some (b2z x ?= b2z y)) else cmp_bytes fuel a b n (i + 1)
      else Some None
  end.

(** [None] where an index is out of range. *)
Definition cmp_short (a b : bytes) : option comparison :=
  let n := Z.min (Zlen a) (Zlen b) in
  r ← cmp_words (S (Z.to_nat n)) a b n 0;
  match r with
  | inl c => Some c
  | inr i =>
      if i <? n then
        if 8 <=? n then
          x ← word a (n - 8); y ← word b (n - 8);
          Some (if negb (x =? y) then x ?= y else Zlen a ?= Zlen b)
        else
          r ← cmp_bytes (S (Z.to_nat n)) a b n i;
          Some (match r with Some c => c | None => Zlen a ?= Zlen b end)
      else Some (Zlen a ?= Zlen b)
  end.

(** [db::select_lower_bound]: the step is a mask. *)
Fixpoint select_go (fuel : nat) (below : Z -> bool) (lo len : Z) : Z :=
  match fuel with
  | O => lo
  | S fuel =>
      if 1 <? len then
        let half := len / 2 in
        let mask := w64 (- (if below (lo + half - 1) then 1 else 0)) in
        select_go fuel below (lo + Z.land half mask) (len - half)
      else lo + (if (len =? 1) && below lo then 1 else 0)
  end.

Definition select_lower_bound (n : Z) (below : Z -> bool) : Z := select_go (S (Z.to_nat n)) below 0 n.

Definition lower_bound (a : list Z) (h : Z) : Z :=
  select_lower_bound (Zlen a) (fun i => match get_at a i with Some v => v <? h | None => false end).

(** The gallop of [run_end] and of [seek_exact_from]: [near p] while the
    probe at [p] is on this side, the step doubling; what it leaves is the
    last probe on this side and the step that passed it. *)
Fixpoint gallop (fuel : nat) (n : Z) (near : Z -> bool) (next : Z -> Z -> Z) (lo step : Z) : Z * Z :=
  match fuel with
  | O => (lo, step)
  | S fuel =>
      let p := next lo step in
      if (n <=? p) || negb (near p) then (lo, step) else gallop fuel n near next p (step * 2)
  end.

Section seek.
Context (ix : OrdIndex) (key_at : Z -> option bytes).

Definition head (i : Z) : Z := head_at (oi_map ix) i.

Definition is_uniform : bool := match oi_uniform ix with Some _ => true | None => false end.

Definition whole_key_at (rank : Z) : option bytes :=
  len ← oi_uniform ix;
  prefix ← oi_prefix ix;
  if (oi_n ix <=? rank) || negb (Zlen prefix =? oi_pfx ix) then None
  else
    h ← (if rank mod TOP_STRIDE =? 0 then get_at (oi_top ix) (rank / TOP_STRIDE) else Some (head rank));
    tail ← get_range (be64 h) 0 (len - oi_pfx ix);
    Some (prefix ++ tail).

Definition top_key_at (rank : Z) : option bytes :=
  if negb (rank mod TOP_STRIDE =? 0) then None else whole_key_at rank.

(** The end of the run of heads equal to [h] from [from]. *)
Definition run_end (h from : Z) : Z :=
  let '(lo, step) := gallop 64 (oi_n ix) (fun p => head p =? h) (fun _ step => from + step) from 1 in
  bsearch (fun m => head m =? h) (lo + 1) (Z.min (from + step) (oi_n ix)).

Definition cmp_prefix (key first : bytes) (m : Z) : comparison :=
  default Eq (cmp_short (take (Z.to_nat m) key) (take (Z.to_nat m) first)).

(** [None]: the query carries the prefix, and the heads order it. *)
Definition outside_prefix (key : bytes) : option (Z * option bool) :=
  if oi_pfx ix =? 0 then None
  else
    match (match oi_prefix ix with Some p => Some p | None => key_at 0 end) with
    | None => Some (0, Some false)
    | Some first =>
        let m := Z.min (Z.min (oi_pfx ix) (Zlen key)) (Zlen first) in
        match cmp_prefix key first m with
        | Lt => Some (0, Some false)
        | Gt => Some (oi_n ix, Some false)
        | Eq => if m <? oi_pfx ix then Some (0, Some false) else None
        end
    end.

Definition exact_at (lo h : Z) (key : bytes) : Z * option bool :=
  if (oi_n ix <=? lo) || negb (head lo =? h) then (lo, (fun _ => false) <$> oi_uniform ix)
  else
    match oi_uniform ix with
    | Some len => if Zlen key <=? len then (lo, Some (Zlen key =? len)) else (run_end h lo, Some false)
    | None => (bsearch (less_than key_at key) lo (run_end h lo), None)
    end.

(** The stride window, where the seek reads heads at all, and the answer. *)
Definition seek_exact_hint (key : bytes) : option (Z * Z) * (Z * option bool) :=
  if oi_n ix =? 0 then (None, (0, Some false))
  else
    match outside_prefix key with
    | Some fin => (None, fin)
    | None =>
        let h := head_of key (oi_pfx ix) in
        let t := lower_bound (oi_top ix) h in
        let '(lo, hi) :=
          if t =? 0 then (0, 0) else ((t - 1) * TOP_STRIDE + 1, Z.min (t * TOP_STRIDE) (oi_n ix)) in
        let at_ := lo + select_lower_bound (hi - lo) (fun i => head (lo + i) <? h) in
        (Some (lo, hi), exact_at at_ h key)
    end.

Definition seek_exact (key : bytes) : Z * option bool := (seek_exact_hint key).2.
Definition seek (key : bytes) : Z := (seek_exact key).1.

Definition seek_exact_from (from : Z) (key : bytes) : Z * option bool :=
  if (from =? 0) || (oi_n ix <=? from) then seek_exact key
  else
    match outside_prefix key with
    | Some fin => fin
    | None =>
        let h := head_of key (oi_pfx ix) in
        if h <=? head (from - 1) then seek_exact key
        else
          let lo :=
            if h <=? head from then from
            else
              let '(lo, step) := gallop 64 (oi_n ix) (fun p => head p <? h) (fun lo step => lo + step) from 1 in
              let hi := if oi_n ix <=? lo + step then oi_n ix else lo + step in
              let base := lo + 1 in
              base + select_lower_bound (hi - base) (fun i => head (base + i) <? h) in
          exact_at lo h key
    end.

Definition seek_in_exact (lo hi : Z) (key : bytes) : Z * option bool :=
  let hi := Z.min hi (oi_n ix) in
  if hi <=? lo then (hi, Some false)
  else
    let outside :=
      if oi_pfx ix =? 0 then None
      else
        match (match oi_prefix ix with Some p => Some p | None => key_at 0 end) with
        | None => Some (lo, Some false)
        | Some first =>
            let m := Z.min (Z.min (oi_pfx ix) (Zlen key)) (Zlen first) in
            match cmp_prefix key first m with
            | Lt => Some (lo, Some false)
            | Gt => Some (hi, Some false)
            | Eq => if m <? oi_pfx ix then Some (lo, Some false) else None
            end
        end in
    match outside with
    | Some fin => fin
    | None =>
        let h := head_of key (oi_pfx ix) in
        let a := bsearch (fun m => head m <? h) lo hi in
        if (hi <=? a) || negb (head a =? h) then (a, Some false)
        else
          match oi_uniform ix with
          | Some len => if Zlen key <=? len then (a, Some (Zlen key =? len)) else (Z.min (run_end h a) hi, Some false)
          | None =>
              let a := bsearch (less_than key_at key) a (Z.min (run_end h a) hi) in
              (a, if hi <=? a then Some false else None)
          end
    end.

Definition seek_in (lo hi : Z) (key : bytes) : Z := (seek_in_exact lo hi key).1.

Definition stride_window (key : bytes) : option (Z * Z) :=
  if oi_n ix =? 0 then None
  else
    carries ← (if oi_pfx ix =? 0 then Some true
               else
                 prefix ← oi_prefix ix;
                 Some (negb (Zlen key <? oi_pfx ix) &&
                       beqb (take (Z.to_nat (oi_pfx ix)) key) (take (Z.to_nat (Z.min (oi_pfx ix) (Zlen prefix))) prefix)));
    if negb carries then None
    else
      let h := head_of key (oi_pfx ix) in
      let t := lower_bound (oi_top ix) h in
      Some (if t =? 0 then (0, Z.min TOP_STRIDE (oi_n ix))
            else ((t - 1) * TOP_STRIDE + 1, Z.min (t * TOP_STRIDE) (oi_n ix))).

(** The walk along the ranks from [from] while [below] holds. *)
Fixpoint walk_below (fuel : nat) (below : Z -> bool) (r : Z) : Z :=
  match fuel with
  | O => r
  | S fuel => if (r <? oi_n ix) && below r then walk_below fuel below (r + 1) else r
  end.

Definition advance_below (from : Z) (key : bytes) : Z :=
  let fuel := Z.to_nat (oi_n ix - from) in
  match oi_prefix ix with
  | None => walk_below fuel (less_than key_at key) from
  | Some prefix =>
      let walk :=
        let hk := head_of key (oi_pfx ix) in
        walk_below fuel (fun r =>
          let h := head r in
          if hk <? h then false
          else if h =? hk then
            match oi_uniform ix with Some len => len <? Zlen key | None => less_than key_at key r end
          else true) from in
      if 0 <? oi_pfx ix then
        let m := Z.min (Z.min (oi_pfx ix) (Zlen key)) (Zlen prefix) in
        match cmp_prefix key prefix m with
        | Lt => from
        | Gt => oi_n ix
        | Eq => if m <? oi_pfx ix then from else walk
        end
      else walk
  end.

(** *** The pages of the heads *)

Definition head_page (rank page : Z) : Z := (HEADER + rank * HEAD) / page.
Definition page_end (rank page : Z) : Z := div_ceil (ssub ((head_page rank page + 1) * page) HEADER) HEAD.
End seek.

(** ** Heads keep the keys' order *)

(** A number's big-endian bytes compare as the number. *)
Lemma be_val_cons b l : be_val (b :: l) = b2z b * 256 ^ Zlen l + be_val l.
Proof.
  unfold be_val. rewrite reverse_cons, le_val_app. cbn [le_val]. rewrite Zlen_reverse. lia.
Qed.

Lemma be_val_range l : 0 <= be_val l < 256 ^ Zlen l.
Proof. unfold be_val. rewrite <- (Zlen_reverse l). apply le_val_range. Qed.

Lemma be_val_cmp a b : length a = length b -> (be_val a ?= be_val b) = bcmp a b.
Proof.
  revert b. induction a as [|x a IH]; intros [|y b] Hl; try done.
  injection Hl as Hl. rewrite !be_val_cons. assert (Zlen a = Zlen b) as E by (unfold Zlen; lia).
  pose proof (be_val_range a) as Ha. pose proof (be_val_range b) as Hb. rewrite <- E in *. cbn [bcmp].
  destruct (Z.compare_spec (b2z x) (b2z y)) as [Hxy|Hxy|Hxy].
  - rewrite Hxy, <- (IH b Hl). apply Z.add_compare_mono_l.
  - apply Z.compare_lt_iff. nia.
  - apply Z.compare_gt_iff. nia.
Qed.

Lemma be_val_inj a b : length a = length b -> be_val a = be_val b -> a = b.
Proof. intros Hl E. apply bcmp_eq. rewrite <- be_val_cmp by done. by apply Z.compare_eq_iff. Qed.

(** The first [n] bytes, padded with zeros. *)
Fixpoint padded (n : nat) (s : bytes) : bytes :=
  match n with
  | O => []
  | S n => match s with [] => x00 :: padded n [] | b :: s => b :: padded n s end
  end.

Lemma length_padded n s : length (padded n s) = n.
Proof. revert s. induction n as [|n IH]; intros [|b s]; cbn; rewrite ?IH; done. Qed.

Lemma padded_nil n : padded n [] = replicate n x00.
Proof. induction n; cbn; congruence. Qed.

Lemma padded_take n s : padded n s = take n s ++ replicate (n - length s) x00.
Proof.
  revert s. induction n as [|n IH]; intros s; [done|]. destruct s as [|b s]; cbn.
  - by rewrite padded_nil.
  - by rewrite IH.
Qed.

Lemma zeros_least n s : bcmp s (replicate n x00) = Lt -> (length s < n)%nat.
Proof.
  revert s. induction n as [|n IH]; intros [|b s]; cbn; try done; [lia|].
  pose proof (b2z_range b). change (b2z x00) with 0. destruct (Z.compare_spec (b2z b) 0); [|lia|done]. intros Hs%IH. lia.
Qed.

Lemma padded_lt n s t : bcmp (padded n s) (padded n t) = Lt -> blt s t.
Proof.
  revert s t. induction n as [|n IH]; intros s t; [done|]. destruct s as [|b s], t as [|c t]; cbn.
  - by rewrite bcmp_refl.
  - done.
  - pose proof (b2z_range b). change (b2z x00) with 0. destruct (Z.compare_spec (b2z b) 0); [|lia|done].
    rewrite padded_nil. intros Hs%zeros_least. rewrite length_padded in Hs. lia.
  - unfold blt. cbn. destruct (b2z b ?= b2z c); [apply IH|done|done].
Qed.

(** Where the shorter's padding ties, it is a prefix. *)
Lemma padded_prefix n s t : padded n s = padded n t -> (length s <= n)%nat -> (length s <= length t)%nat ->
  exists r, t = s ++ r.
Proof.
  revert s t. induction n as [|n IH]; intros s t E Hn Hl; [destruct s; [by exists t|cbn in Hn; lia]|].
  destruct s as [|b s]; [by exists t|]. destruct t as [|c t]; [cbn in Hl; lia|]. cbn in *. injection E as -> E.
  destruct (IH s t E) as [r ->]; [lia..|]. by exists r.
Qed.

Lemma prefix_le s r : ble s (s ++ r).
Proof. induction s as [|b s IH]; [destruct r; done|]. unfold ble in *. cbn. by rewrite Z.compare_refl. Qed.

Lemma prefix_lt s r : r <> [] -> blt s (s ++ r).
Proof. intros Hr. induction s as [|b s IH]; [by destruct r|]. unfold blt in *. cbn. by rewrite Z.compare_refl. Qed.

Lemma bcmp_app p s t : bcmp (p ++ s) (p ++ t) = bcmp s t.
Proof. induction p as [|b p IH]; [done|]. cbn. by rewrite Z.compare_refl. Qed.

Lemma blt_app p s t : blt (p ++ s) (p ++ t) <-> blt s t.
Proof. unfold blt. by rewrite bcmp_app. Qed.

Lemma ble_app p s t : ble (p ++ s) (p ++ t) <-> ble s t.
Proof. unfold ble. by rewrite bcmp_app. Qed.

(** The head of a key that carries the prefix. *)
Lemma head_of_app p s : head_of (p ++ s) (Zlen p) = be_val (padded 8 s).
Proof.
  unfold head_of, head_bytes. f_equal. pose proof (Zlen_nonneg s). pose proof (Zlen_nonneg p). unfold HEAD.
  rewrite Zlen_app, (Z.min_l (Zlen p)) by lia. rewrite Zlen_to_nat, drop_app_length, padded_take. unfold zeros. f_equal.
  - destruct (Z.le_gt_cases (Zlen s) 8).
    + rewrite !take_ge; unfold Zlen in *; [done|lia|lia].
    + f_equal. lia.
  - f_equal. unfold Zlen in *. lia.
Qed.

Lemma head_range p s : 0 <= head_of (p ++ s) (Zlen p) < U64.
Proof. rewrite head_of_app. pose proof (be_val_range (padded 8 s)) as H. unfold Zlen in H. rewrite length_padded in H. exact H. Qed.

Section heads.
Context (p s t : bytes).
Local Abbreviation hd x := (head_of (p ++ x) (Zlen p)).

Lemma head_lt : hd s < hd t -> blt (p ++ s) (p ++ t).
Proof.
  rewrite !head_of_app. intros H. apply blt_app, (padded_lt 8). rewrite <- be_val_cmp by by rewrite !length_padded.
  by apply Z.compare_lt_iff.
Qed.

Lemma head_tie : hd s = hd t -> Zlen s <= HEAD -> Zlen s <= Zlen t -> exists r, t = s ++ r.
Proof.
  rewrite !head_of_app. intros E%be_val_inj H8 Hl; [|by rewrite !length_padded].
  apply (padded_prefix 8); [done|unfold Zlen, HEAD in *; lia..].
Qed.
End heads.

Lemma head_le p s t : ble (p ++ s) (p ++ t) -> head_of (p ++ s) (Zlen p) <= head_of (p ++ t) (Zlen p).
Proof. intros H. apply Z.nlt_ge. intros Hlt%head_lt. by apply ble_not_lt in H. Qed.

(** ** The file *)

Definition ord_body (n pfx u : Z) (heads : list Z) : bytes :=
  le64 MAGIC ++ le64 n ++ le64 pfx ++ le64 HEADER ++ le64 u ++ zeros 24 ++ concat (map be64 heads).

Definition ord_file (n pfx u : Z) (heads : list Z) : bytes :=
  ord_body n pfx u heads ++ le32 (crc32 (ord_body n pfx u heads)).

Lemma Zlen_concat_be64 hs : Zlen (concat (map be64 hs)) = 8 * Zlen hs.
Proof.
  rewrite (Zlen_concat 8), Zlen_map; [done|]. apply Forall_forall. intros x (y & -> & _)%list_elem_of_fmap. apply Zlen_be64.
Qed.

Lemma Zlen_ord_body n pfx u heads : Zlen (ord_body n pfx u heads) = HEADER + 8 * Zlen heads.
Proof. unfold ord_body. rewrite !Zlen_app, !Zlen_le64, Zlen_zeros, Zlen_concat_be64 by lia. unfold HEADER. lia. Qed.

(** What the composer holds after some of its keys. *)
Definition composed (c0 : Composer) (ks : list bytes) : Composer :=
  mkComposer (co_out c0 ++ concat (map (fun k => be64 (head_of k (co_pfx c0))) ks)) (co_pfx c0) (co_len0 c0)
    (co_uniform c0 && forallb (fun k => Zlen k =? co_len0 c0) ks) (co_n c0) (co_pushed c0 + Zlen ks).

Lemma push_composed c0 ks k : composer_push (composed c0 ks) k = composed c0 (ks ++ [k]).
Proof.
  unfold composer_push, composed. cbn [co_out co_pfx co_len0 co_uniform co_n co_pushed].
  rewrite map_app, concat_app, forallb_app, Zlen_app. cbn [map concat forallb]. change (Zlen [k]) with 1. rewrite app_nil_r, andb_true_r, app_assoc, andb_assoc, Z.add_assoc. done.
Qed.

Lemma compose_all c0 keys : ofold (fun c i => k ← get_at keys i; Some (composer_push c k)) (seqZ 0 (Zlen keys)) c0 = Some (composed c0 keys).
Proof.
  enough (forall m, 0 <= m <= Zlen keys -> ofold (fun c i => k ← get_at keys i; Some (composer_push c k)) (seqZ 0 m) c0 =
    Some (composed c0 (take (Z.to_nat m) keys))) as H.
  { rewrite (H (Zlen keys)) by (pose proof (Zlen_nonneg keys); lia). by rewrite Zlen_to_nat, firstn_all. }
  set (P := fun m => m <= Zlen keys -> ofold (fun c i => k ← get_at keys i; Some (composer_push c k)) (seqZ 0 m) c0 =
    Some (composed c0 (take (Z.to_nat m) keys))).
  enough (forall m, 0 <= m -> P m) as H by (intros m [H1 H2]; by apply H).
  apply natlike_ind.
  - intros _. unfold composed. destruct c0. cbn. by rewrite app_nil_r, andb_true_r, Z.add_0_r.
  - intros m Hm IH Hle. replace (Z.succ m) with (m + 1) by lia. rewrite (seqZ_app 0 m 1), ofold_app, IH by lia.
    change (seqZ (0 + m) 1) with [0 + m]. cbn [ofold option_bind mbind]. rewrite Z.add_0_l.
    destruct (get_at_is_Some keys m) as [k Hk]; [lia|]. rewrite Hk. cbn [option_bind mbind]. rewrite push_composed.
    apply get_at_Some in Hk as [_ Hk]. replace (Z.to_nat (m + 1)) with (S (Z.to_nat m)) by lia. by rewrite (take_S_r _ _ _ Hk).
Qed.

Lemma composer_finish_bytes c heads : co_out c = zeros HEADER ++ concat (map be64 heads) -> co_pushed c = co_n c ->
  composer_finish c = Some (ord_file (co_n c) (co_pfx c) (if co_uniform c then co_len0 c + 1 else 0) heads).
Proof.
  intros Ho Hp. unfold composer_finish. rewrite Hp, Z.eqb_refl, Ho. cbn [negb].
  change (zeros HEADER) with (zeros 8 ++ zeros 8 ++ zeros 8 ++ zeros 8 ++ zeros 8 ++ zeros 24). rewrite <- !app_assoc.
  puts. puts. puts. puts. unfold UNIFORM_AT. puts. done.
Qed.

(** ** Keys that share a prefix *)

Lemma common_prefix_range a b : 0 <= common_prefix a b <= Zlen a /\ common_prefix a b <= Zlen b.
Proof.
  revert b. induction a as [|x a IH]; intros [|y b]; cbn [common_prefix].
  - split; znil; lia.
  - pose proof (Zlen_nonneg (y :: b)). rewrite (@Zlen_nil byte). lia.
  - pose proof (Zlen_nonneg (x :: a)). rewrite (@Zlen_nil byte). lia.
  - rewrite (Zlen_cons x), (Zlen_cons y). pose proof (Zlen_nonneg a). pose proof (Zlen_nonneg b).
    destruct (byte_eqb x y); [specialize (IH b)|]; lia.
Qed.

Lemma common_prefix_take a b : take (Z.to_nat (common_prefix a b)) a = take (Z.to_nat (common_prefix a b)) b.
Proof.
  revert b. induction a as [|x a IH]; intros [|y b]; cbn; try done. destruct (byte_eqb x y) eqn:E; [|done].
  apply byte_eqb_eq in E as ->. pose proof (common_prefix_range a b).
  replace (Z.to_nat (1 + common_prefix a b)) with (S (Z.to_nat (common_prefix a b))) by lia. cbn. by rewrite IH.
Qed.

Lemma between_prefix p a b k : ble (p ++ a) k -> ble k (p ++ b) -> exists s, k = p ++ s.
Proof.
  revert k. induction p as [|c p IH]; intros k; [by exists k|]. unfold ble. cbn. destruct k as [|d k]; [done|]. cbn.
  destruct (Z.compare_spec (b2z c) (b2z d)) as [E|?|?]; [|rewrite (proj2 (Z.compare_gt_iff (b2z d) (b2z c))) by done; done|done].
  rewrite E, Z.compare_refl. intros H1 H2. destruct (IH k H1 H2) as [s ->]. exists s. by apply b2z_inj in E as ->.
Qed.

Lemma ascending_le keys i j a b : ascending keys -> i <= j -> get_at keys i = Some a -> get_at keys j = Some b -> ble a b.
Proof.
  intros Ha Hij Hi Hj. destruct (decide (i = j)) as [->|]; [|apply blt_le; apply (Ha i j); [lia|done|done]].
  assert (a = b) as -> by congruence. apply ble_refl.
Qed.

(** The prefix of the first and the last is every key's. *)
Lemma shared_prefix keys first last : ascending keys -> get_at keys 0 = Some first -> get_at keys (Zlen keys - 1) = Some last ->
  let p := take (Z.to_nat (common_prefix first last)) first in
  Zlen p = common_prefix first last /\ forall i k, get_at keys i = Some k -> exists s, k = p ++ s.
Proof.
  intros Ha Hf Hl p. pose proof (common_prefix_range first last) as [H1 H2]. split; [unfold p; rewrite Zlen_take; lia|].
  intros i k Hk. pose proof (get_at_lt _ _ _ Hk) as Hi.
  apply (between_prefix p (drop (Z.to_nat (common_prefix first last)) first) (drop (Z.to_nat (common_prefix first last)) last)).
  - unfold p. rewrite take_drop. apply (ascending_le keys 0 i); [done|lia|done|done].
  - unfold p. rewrite common_prefix_take, take_drop. apply (ascending_le keys i (Zlen keys - 1)); [done|lia|done|done].
Qed.

(** ** What an opened index promises *)

(** The index [ix] of the keys [keys], all of which start with [p]. *)
Record indexes (ix : OrdIndex) (keys : list bytes) (p : bytes) : Prop := {
  ix_n : oi_n ix = Zlen keys;
  ix_small : Zlen keys < 2 ^ 60;
  ix_pfx : oi_pfx ix = Zlen p;
  ix_keys : forall i k, get_at keys i = Some k -> exists s, k = p ++ s;
  ix_head : forall i k, get_at keys i = Some k -> head ix i = head_of k (Zlen p);
  ix_top : oi_top ix = map (head ix) (top_ranks (oi_n ix));
  ix_uniform : match oi_uniform ix with
    | Some l => Zlen p <= l <= Zlen p + HEAD /\ forall i k, get_at keys i = Some k -> Zlen k = l
    | None => True end;
  ix_prefix : oi_prefix ix = None \/ oi_prefix ix = Some p;
  ix_asc : ascending keys
}.

Lemma be64_inv z : 0 <= z < U64 -> be_val (be64 z) = z.
Proof. apply be_val_be64. Qed.

Lemma ord_file_parts n pfx u heads : ord_file n pfx u heads =
  le64 MAGIC ++ le64 n ++ le64 pfx ++ le64 HEADER ++ le64 u ++ zeros 24 ++ concat (map be64 heads) ++ le32 (crc32 (ord_body n pfx u heads)).
Proof. unfold ord_file. set (c := crc32 _). unfold ord_body. by rewrite <- !app_assoc. Qed.

Lemma ord_file_head n pfx u heads i h : get_at heads i = Some h -> 0 <= h < U64 -> head_at (ord_file n pfx u heads) i = h.
Proof.
  intros Hi Hh. unfold head_at, rd_be64, ord_file, ord_body.
  pose proof (get_range_table 8 (le64 MAGIC ++ le64 n ++ le64 pfx ++ le64 HEADER ++ le64 u ++ zeros 24)
    (le32 (crc32 (ord_body n pfx u heads))) (map be64 heads) i (be64 h) (HEADER + i * HEAD)) as Ht.
  rewrite <- !app_assoc in Ht. match goal with |- context [be_val <$> ?g] => enough (g = Some (be64 h)) as -> by (cbn; by apply be64_inv) end.
  apply Ht.
  - apply Forall_forall. intros x (y & -> & _)%list_elem_of_fmap. apply Zlen_be64.
  - by rewrite get_at_map, Hi.
  - rewrite !Zlen_app, !Zlen_le64, Zlen_zeros by lia. unfold HEADER, HEAD. lia.
Qed.

Section open.
Context (n pfx u : Z) (heads : list Z).
Context (Hn : n = Zlen heads) (Hn2 : n < 2 ^ 60) (Hpfx : 0 <= pfx < 2 ^ 62) (Hu : u = 0 \/ 1 <= u < U64 /\ pfx <= u - 1 <= pfx + HEAD).
Local Abbreviation file := (ord_file n pfx u heads).

Lemma open_ord_file : open file n = Ok (mkOrd file n pfx (if u =? 0 then None else Some (u - 1)) None (map (head_at file) (top_ranks n))).
Proof.
  pose proof (Zlen_nonneg heads) as H0. pose proof (Zlen_ord_body n pfx u heads) as Hb. pose proof (crc32_range (ord_body n pfx u heads)) as Hc.
  assert (Zlen file = HEADER + 8 * Zlen heads + 4) as Hlen by (unfold ord_file; rewrite Zlen_app, Zlen_le32; lia).
  assert (forall i w at_, get_at [MAGIC; n; pfx; HEADER; u] i = Some w -> 0 <= w < U64 -> at_ = 8 * i -> rd_u64 file at_ = Some w) as Hw.
  { intros i w at_ Hi Hr ->. pose proof (rd_u64_table [] (zeros 24 ++ concat (map be64 heads) ++ le32 (crc32 (ord_body n pfx u heads))) _ i w (8 * i) Hi Hr) as Ht.
    cbn [map concat] in Ht. rewrite app_nil_r, <- !app_assoc in Ht. rewrite ord_file_parts. apply Ht.
    rewrite (@Zlen_nil byte). lia. }
  unfold open. rewrite Hlen. unfold HEADER, HEAD in *. rewrite (proj2 (Z.ltb_ge _ _)) by lia. cbv zeta.
  replace (64 + 8 * Zlen heads + 4 - 4) with (Zlen (ord_body n pfx u heads)) by lia.
  assert (rd_u32 file (Zlen (ord_body n pfx u heads)) = Some (crc32 (ord_body n pfx u heads))) as ->.
  { unfold ord_file. rewrite <- (app_nil_r (le32 _)). by apply rd_u32_app. }
  cbn [ok_or rbind]. unfold ord_file at 1. rewrite get_range_here by done. cbn [ok_or rbind]. rewrite Z.eqb_refl. cbn [negb].
  assert (U64 = 2 ^ 64) as Hu64 by done.
  rewrite (Hw 0 MAGIC 0), (Hw 1 n 8), (Hw 2 pfx 16), (Hw 3 64 24), (Hw 4 u UNIFORM_AT) by (done || lia). cbn [ok_or rbind].
  rewrite !Z.eqb_refl. cbn [negb].
  assert ((if u =? 0 then Ok None else if (u - 1 <? pfx) || (pfx + 8 <? u - 1) then Err "uniform length is outside the prefix and the head" else Ok (Some (u - 1)))
    = Ok (if u =? 0 then None else Some (u - 1))) as ->.
  { destruct (Z.eqb_spec u 0); [done|]. destruct Hu as [?|[? ?]]; [lia|]. by rewrite !(proj2 (Z.ltb_ge _ _)) by lia. }
  cbn [rbind]. rewrite (proj2 (cmul_Some _ _ _)) by (split; [reflexivity|lia]). cbn [ok_or rbind].
  rewrite (proj2 (cadd_Some _ _ _)) by (split; [reflexivity|lia]). rewrite (proj2 (Z.eqb_eq _ _)) by lia. done.
Qed.

Lemma open_other m : m <> n -> open file m = Err "describes a different segment".
Proof.
  intros Hm. pose proof open_ord_file as Ho. unfold open in *. destruct (_ <? _); [done|]. cbv zeta in *.
  destruct (rd_u32 file _) as [c|]; [|done]. cbn [ok_or rbind] in *. destruct (get_range file 0 _) as [bd|]; [|done]. cbn [ok_or rbind] in *.
  destruct (negb (crc32 bd =? c)); [done|]. destruct (rd_u64 file 0) as [mg|]; [|done]. cbn [ok_or rbind] in *. destruct (negb (mg =? MAGIC)); [done|].
  destruct (rd_u64 file 8) as [n'|]; [|done]. cbn [ok_or rbind] in *. destruct (rd_u64 file 16) as [p'|]; [|done]. cbn [ok_or rbind] in *.
  destruct (rd_u64 file 24) as [h'|]; [|done]. cbn [ok_or rbind] in *. destruct (Z.eqb_spec n' n) as [->|]; [|done].
  by rewrite (proj2 (Z.eqb_neq n m)) by lia.
Qed.
End open.

(** The keys an index may hold: ascending, and small enough for words. *)
Record sortable (keys : list bytes) : Prop := {
  so_asc : ascending keys;
  so_n : Zlen keys < 2 ^ 60;
  so_len : forall i k, get_at keys i = Some k -> Zlen k < 2 ^ 62
}.

(** The prefix every key of [keys] starts with. *)
Definition prefix_of (keys : list bytes) : bytes :=
  match get_at keys 0, get_at keys (Zlen keys - 1) with
  | Some first, Some last => take (Z.to_nat (common_prefix first last)) first
  | _, _ => []
  end.

Definition uniform_of (keys : list bytes) : Z :=
  match keys with
  | [] => 0
  | first :: _ => if (Zlen first <=? Zlen (prefix_of keys) + HEAD) && forallb (fun k => Zlen k =? Zlen first) keys then Zlen first + 1 else 0
  end.

Definition heads_of (keys : list bytes) : list Z := map (fun k => head_of k (Zlen (prefix_of keys))) keys.

Lemma prefix_of_keys keys : ascending keys -> forall i k, get_at keys i = Some k -> exists s, k = prefix_of keys ++ s.
Proof.
  intros Ha i k Hk. pose proof (get_at_lt _ _ _ Hk). unfold prefix_of.
  destruct (get_at_is_Some keys 0) as [first Hf]; [lia|]. destruct (get_at_is_Some keys (Zlen keys - 1)) as [last Hl]; [lia|].
  rewrite Hf, Hl. by apply (shared_prefix keys first last Ha Hf Hl) with i.
Qed.

Lemma finish_from_bytes keys : ascending keys ->
  finish_from (Zlen keys) (get_at keys) = Some (ord_file (Zlen keys) (Zlen (prefix_of keys)) (uniform_of keys) (heads_of keys)).
Proof.
  intros Ha. unfold finish_from, heads_of, uniform_of. destruct keys as [|first ks] eqn:E; [reflexivity|]. rewrite <- E in *.
  assert (0 < Zlen keys) as Hpos by (rewrite E, Zlen_cons; pose proof (Zlen_nonneg ks); lia).
  assert (get_at keys 0 = Some first) as Hf by (by rewrite E).
  destruct (get_at_is_Some keys (Zlen keys - 1)) as [last Hl]; [lia|].
  rewrite (proj2 (Z.eqb_neq _ _)) by lia. rewrite Hf, Hl. cbn [option_bind mbind].
  assert (Zlen (prefix_of keys) = common_prefix first last) as Hp.
  { unfold prefix_of. rewrite Hf, Hl. apply (shared_prefix keys first last Ha Hf Hl). }
  rewrite compose_all. cbn [option_bind mbind].
  rewrite (composer_finish_bytes _ (map (fun k => head_of k (Zlen (prefix_of keys))) keys)).
  - unfold composed, composer_new. cbn [co_n co_pfx co_len0 co_uniform]. rewrite (proj2 (Z.eqb_neq _ 0)), (proj2 (Z.ltb_lt 0 _)) by lia.
    cbn [andb]. by rewrite Hp.
  - unfold composed, composer_new. cbn [co_out co_pfx]. rewrite (proj2 (Z.eqb_neq _ 0)) by lia. by rewrite Hp, map_map.
  - unfold composed, composer_new. cbn [co_pushed co_n]. lia.
Qed.

Lemma Zlen_prefix_of keys : sortable keys -> 0 <= Zlen (prefix_of keys) < 2 ^ 62.
Proof.
  intros [Ha Hn Hl]. split; [apply Zlen_nonneg|]. destruct (get_at keys 0) as [first|] eqn:Hf.
  - destruct (prefix_of_keys keys Ha 0 first Hf) as [s Hs]. specialize (Hl 0 first Hf). rewrite Hs, Zlen_app in Hl. pose proof (Zlen_nonneg s). lia.
  - unfold prefix_of. rewrite Hf. rewrite (@Zlen_nil byte). lia.
Qed.

Lemma uniform_of_spec keys : sortable keys -> let u := uniform_of keys in
  u = 0 \/ 1 <= u < U64 /\ Zlen (prefix_of keys) <= u - 1 <= Zlen (prefix_of keys) + HEAD /\ forall i k, get_at keys i = Some k -> Zlen k = u - 1.
Proof.
  intros Hs. unfold uniform_of. destruct keys as [|first ks] eqn:E; [by left|]. rewrite <- E in *.
  destruct (_ && _) eqn:Eb; [right|by left]. apply andb_true_iff in Eb as [H1%Z.leb_le H2].
  assert (get_at keys 0 = Some first) as Hf by (by rewrite E). destruct Hs as [Ha Hn Hl].
  destruct (prefix_of_keys keys Ha 0 first Hf) as [s Hs]. specialize (Hl 0 first Hf). pose proof (Zlen_nonneg first).
  assert (Zlen first = Zlen (prefix_of keys) + Zlen s) as Hfl by (rewrite Hs at 1; apply Zlen_app). pose proof (Zlen_nonneg s).
  unfold U64. split; [lia|]. split; [lia|]. intros i k [_ Hk]%get_at_Some. rewrite forallb_forall in H2.
  apply list_elem_of_lookup_2, list_elem_of_In in Hk. apply H2 in Hk. lia.
Qed.

Definition built (keys : list bytes) : OrdIndex :=
  let file := ord_file (Zlen keys) (Zlen (prefix_of keys)) (uniform_of keys) (heads_of keys) in
  mkOrd file (Zlen keys) (Zlen (prefix_of keys)) (if uniform_of keys =? 0 then None else Some (uniform_of keys - 1)) None
    (map (head_at file) (top_ranks (Zlen keys))).

Lemma built_indexes keys : sortable keys -> indexes (built keys) keys (prefix_of keys).
Proof.
  intros Hs. pose proof Hs as [Ha Hn Hl]. pose proof (uniform_of_spec keys Hs) as Hu. split; try done.
  - by apply prefix_of_keys.
  - intros i k Hk. unfold head, built. cbn [oi_map]. destruct (prefix_of_keys keys Ha i k Hk) as [s ->].
    apply ord_file_head; [|apply head_range]. unfold heads_of. rewrite get_at_map, Hk. done.
  - unfold built. cbn [oi_uniform]. destruct (Z.eqb_spec (uniform_of keys) 0); [done|]. destruct Hu as [?|(_ & ? & ?)]; [lia|]. done.
  - by left.
Qed.

Lemma open_built keys : sortable keys ->
  open (ord_file (Zlen keys) (Zlen (prefix_of keys)) (uniform_of keys) (heads_of keys)) (Zlen keys) = Ok (built keys).
Proof.
  intros Hs. apply open_ord_file.
  - unfold heads_of. by rewrite Zlen_map.
  - apply Hs.
  - by apply Zlen_prefix_of.
  - destruct (uniform_of_spec keys Hs) as [?|(? & ? & _)]; [by left|by right].
Qed.

Lemma learn_indexes ix keys p first : indexes ix keys p -> get_at keys 0 = Some first -> indexes (learn_prefix ix first) keys p.
Proof.
  intros [Hn Hsm Hp Hk Hh Ht Hu Hpr Ha] Hf. split; try done. right. cbn [learn_prefix oi_prefix].
  destruct (Hk 0 first Hf) as [s ->]. rewrite Hp, Zlen_app. pose proof (Zlen_nonneg s). rewrite Z.min_l by lia.
  by rewrite Zlen_to_nat, take_app_length.
Qed.

(** *** The builder's copy *)

Definition builder_of (keys : list bytes) : Builder := fold_left builder_push keys builder_new.

Lemma builder_fold keys b : Zlen (bu_bytes b) + Zlen (concat keys) < U32 ->
  let b' := fold_left builder_push keys b in
  bu_bytes b' = bu_bytes b ++ concat keys /\ bu_n b' = bu_n b + Zlen keys /\
  bu_starts b' ++ [w32 (Zlen (bu_bytes b'))] = bu_starts b ++ starts (Zlen (bu_bytes b)) keys.
Proof.
  revert b. induction keys as [|k keys IH]; intros b Hu.
  - cbn. rewrite app_nil_r, Z.add_0_r. split; [done|]. split; [done|]. unfold w32. rewrite Z.mod_small; [done|].
    pose proof (Zlen_nonneg (bu_bytes b)). cbn in Hu. rewrite (@Zlen_nil byte) in Hu. lia.
  - cbn [fold_left concat] in *. rewrite Zlen_app in Hu.
    destruct (IH (builder_push b k)) as (H1 & H2 & H3); [cbn [builder_push bu_bytes]; rewrite Zlen_app; lia|].
    rewrite H3, H2, H1. cbn [builder_push bu_bytes bu_n bu_starts starts]. rewrite (Zlen_cons k), <- app_assoc, Zlen_app.
    split; [done|]. split; [lia|]. rewrite <- app_assoc. cbn [app]. unfold w32.
    pose proof (Zlen_nonneg (bu_bytes b)). pose proof (Zlen_nonneg k). pose proof (Zlen_nonneg (concat keys)). by rewrite Z.mod_small by lia.
Qed.

Lemma finish_from_ext n f g : 0 <= n -> (forall i, 0 <= i < n -> f i = g i) -> finish_from n f = finish_from n g.
Proof.
  intros Hn H. unfold finish_from. assert (forall c, ofold (fun c i => k ← f i; Some (composer_push c k)) (seqZ 0 n) c =
    ofold (fun c i => k ← g i; Some (composer_push c k)) (seqZ 0 n) c) as E.
  { assert (Forall (fun i => 0 <= i < n) (seqZ 0 n)) as Hin by (apply Forall_forall; intros i Hi%elem_of_seqZ; lia).
    induction Hin as [|i is_ Hi _ IH]; intros c; [done|]. cbn [ofold]. rewrite H by done. destruct (g i); [|done]. apply IH. }
  destruct (Z.eqb_spec n 0) as [->|]; [by rewrite !seqZ_nil|].
  rewrite (H 0), (H (n - 1)) by lia. destruct (g 0); [|done]. cbn [option_bind mbind]. destruct (g (n - 1)); [|done]. cbn [option_bind mbind]. by rewrite E.
Qed.

Lemma builder_finish_from keys : Zlen (concat keys) < U32 ->
  builder_finish (builder_of keys) = finish_from (Zlen keys) (get_at keys).
Proof.
  intros Hu. destruct (builder_fold keys builder_new) as (Hb & Hn & Hs); [exact Hu|]. fold (builder_of keys) in *. cbn in Hb, Hn.
  unfold builder_finish. rewrite Hn, Hs, Hb. change (bu_starts builder_new) with (@nil Z). change (Zlen (bu_bytes builder_new)) with 0. cbn [app].
  apply finish_from_ext; [apply Zlen_nonneg|]. intros i Hi. destruct (get_at_is_Some keys i Hi) as [k Hk].
  rewrite !get_at_starts by lia. cbn [option_bind mbind]. rewrite !Z.add_0_l, Hk. by apply starts_range.
Qed.

(** ** The short compare *)

Lemma bcmp_app_neq w w' u v : length w = length w' -> bcmp w w' <> Eq -> bcmp (w ++ u) (w' ++ v) = bcmp w w'.
Proof.
  revert w'. induction w as [|x w IH]; intros [|y w'] Hl; try done. injection Hl as Hl. cbn. destruct (b2z x ?= b2z y); [by apply IH|done|done].
Qed.

(** Two slices split after a shared part. *)
Definition split_after (i : Z) (a b : bytes) : Prop := exists q a' b', a = q ++ a' /\ b = q ++ b' /\ Zlen q = i.

Lemma word_split a i : 0 <= i -> i + 8 <= Zlen a -> exists q w r, a = q ++ w ++ r /\ Zlen q = i /\ Zlen w = 8 /\ word a i = Some (be_val w).
Proof.
  intros Hi Hl. destruct (get_range_is_Some a i (i + 8)) as [w Hw]; [lia..|]. pose proof Hw as (q & r & -> & Hq & Hr)%get_range_split.
  exists q, w, r. unfold word, rd_be64. rewrite Hw. repeat split; lia.
Qed.

Lemma words_cmp a b i x y : split_after i a b -> 0 <= i -> word a i = Some x -> word b i = Some y -> i + 8 <= Zlen a -> i + 8 <= Zlen b ->
  if x =? y then split_after (i + 8) a b else bcmp a b = (x ?= y).
Proof.
  intros (q & a' & b' & -> & -> & Hq) Hi Hx Hy Ha Hb.
  destruct (word_split (q ++ a') i Hi Ha) as (q1 & w1 & r1 & E1 & Hq1 & Hw1 & Hx'). destruct (word_split (q ++ b') i Hi Hb) as (q2 & w2 & r2 & E2 & Hq2 & Hw2 & Hy').
  rewrite Hx in Hx'. rewrite Hy in Hy'. injection Hx' as ->. injection Hy' as ->.
  apply app_inj_1 in E1 as [<- ->]; [|unfold Zlen in *; lia]. apply app_inj_1 in E2 as [<- ->]; [|unfold Zlen in *; lia].
  assert (length w1 = length w2) as Hl by (unfold Zlen in *; lia). destruct (Z.eqb_spec (be_val w1) (be_val w2)) as [E|E].
  - apply be_val_inj in E as ->; [|done]. exists (q ++ w2), r1, r2. rewrite <- !app_assoc. repeat split. rewrite Zlen_app. lia.
  - rewrite bcmp_app, bcmp_app_neq; [by rewrite <- be_val_cmp|done|]. rewrite <- be_val_cmp by done. by intros ?%Z.compare_eq_iff.
Qed.

Lemma cmp_words_spec fuel a b n i : Zlen a = n -> Zlen b = n -> 0 <= i <= n -> n - i < Z.of_nat fuel -> split_after i a b ->
  match cmp_words fuel a b n i with
  | Some (inl c) => c = bcmp a b
  | Some (inr j) => i <= j <= n /\ n < j + 8 /\ split_after j a b
  | None => False
  end.
Proof.
  intros Ha Hb. revert i. induction fuel as [|fuel IH]; intros i Hi Hf Hs; [lia|]. cbn [cmp_words].
  destruct (Z.leb_spec (i + 8) n); [|split; [lia|]; split; [lia|done]].
  destruct (word_split a i) as (_ & w1 & _ & _ & _ & _ & Hx); [lia..|]. destruct (word_split b i) as (_ & w2 & _ & _ & _ & _ & Hy); [lia..|].
  rewrite Hx, Hy. cbn [option_bind mbind]. pose proof (words_cmp a b i _ _ Hs ltac:(lia) Hx Hy ltac:(lia) ltac:(lia)) as Hc.
  destruct (Z.eqb_spec (be_val w1) (be_val w2)); cbn [negb]; [|done]. specialize (IH (i + 8) ltac:(lia) ltac:(lia) Hc).
  destruct (cmp_words fuel a b n (i + 8)) as [[c|j]|]; [done| |done]. destruct IH as (? & ? & ?). split; [lia|done].
Qed.

Lemma cmp_bytes_spec fuel a b n i : Zlen a = n -> Zlen b = n -> 0 <= i <= n -> n - i < Z.of_nat fuel -> split_after i a b ->
  exists r, cmp_bytes fuel a b n i = Some r /\ bcmp a b = default Eq r.
Proof.
  intros Ha Hb. revert i. induction fuel as [|fuel IH]; intros i Hi Hf Hs; [lia|]. cbn [cmp_bytes].
  destruct Hs as (q & a' & b' & -> & -> & Hq). rewrite Zlen_app in Ha, Hb. destruct (Z.ltb_spec i n).
  - destruct a' as [|x a']; [rewrite (@Zlen_nil byte) in Ha; lia|]. destruct b' as [|y b']; [rewrite (@Zlen_nil byte) in Hb; lia|].
    rewrite !get_at_app_mid by done. cbn [option_bind mbind]. destruct (byte_eqb x y) eqn:E; cbn [negb].
    + apply byte_eqb_eq in E as ->. apply IH; [lia|lia|]. exists (q ++ [y]), a', b'. rewrite <- !app_assoc, Zlen_app. repeat split.
      change (Zlen [y]) with 1. lia.
    + eexists. split; [done|]. rewrite bcmp_app. cbn. destruct (b2z x ?= b2z y) eqn:Ec; try done.
      apply Z.compare_eq_iff, b2z_inj in Ec as ->. by rewrite (proj2 (byte_eqb_eq y y)) in E.
  - eexists. split; [done|]. rewrite bcmp_app. rewrite (Zlen_zero_nil a'), (Zlen_zero_nil b') by lia. done.
Qed.

Lemma cmp_short_spec a b : Zlen a = Zlen b -> cmp_short a b = Some (bcmp a b).
Proof.
  intros Hl. unfold cmp_short. rewrite Hl, Z.min_id, Z.compare_refl. pose proof (Zlen_nonneg b) as H0. set (n := Zlen b) in *.
  pose proof (cmp_words_spec (S (Z.to_nat n)) a b n 0 Hl eq_refl ltac:(lia) ltac:(lia)) as Hw.
  destruct (cmp_words _ _ _ _ _) as [[c|i]|]; [| |exfalso; apply Hw; by exists [], a, b].
  { cbn. f_equal. apply Hw. by exists [], a, b. }
  destruct Hw as (Hi & Hn & Hs); [by exists [], a, b|]. cbn [option_bind mbind]. destruct (Z.ltb_spec i n).
  2: { destruct Hs as (q & a' & b' & Ea & Eb & Hq). pose proof (f_equal Zlen Ea) as La. pose proof (f_equal Zlen Eb) as Lb.
       rewrite Zlen_app in La, Lb. rewrite (Zlen_zero_nil a') in Ea by lia. rewrite (Zlen_zero_nil b') in Eb by lia.
       rewrite Ea, Eb, bcmp_refl. done. }
  destruct (Z.leb_spec 8 n).
  - assert (split_after (n - 8) a b) as Hs8.
    { destruct Hs as (q & a' & b' & -> & -> & Hq). exists (take (Z.to_nat (n - 8)) q), (drop (Z.to_nat (n - 8)) q ++ a'), (drop (Z.to_nat (n - 8)) q ++ b').
      rewrite !app_assoc, !take_drop, Zlen_take. repeat split. lia. }
    destruct (word_split a (n - 8)) as (q1 & w1 & r1 & Ea & Hq1 & Hw1 & Hx); [lia..|]. destruct (word_split b (n - 8)) as (q2 & w2 & r2 & Eb & Hq2 & Hw2 & Hy); [lia..|].
    rewrite Hx, Hy. cbn [option_bind mbind]. pose proof (words_cmp a b (n - 8) _ _ Hs8 ltac:(lia) Hx Hy ltac:(lia) ltac:(lia)) as Hc.
    destruct (Z.eqb_spec (be_val w1) (be_val w2)); cbn [negb]; [|by rewrite Hc].
    destruct Hc as (q & a' & b' & -> & -> & Hq). rewrite Zlen_app in Hl. fold n in Hl. unfold n in Hl, Hq. rewrite Zlen_app in Hl, Hq.
    rewrite (Zlen_zero_nil a'), (Zlen_zero_nil b') by lia. by rewrite bcmp_refl.
  - destruct (cmp_bytes_spec (S (Z.to_nat n)) a b n i Hl eq_refl) as (r & -> & ->); [lia|lia|done|]. cbn. by destruct r.
Qed.

(** The compare a word at a time, its tail taken as the overlapping last
    word, is the byte order of keys, for any two slices of one length; and it
    reads nothing outside them. *)
Theorem cmp_short_lexicographic a b : Zlen a = Zlen b -> cmp_short a b = Some (bcmp a b).
Proof. apply cmp_short_spec. Qed.

Lemma cmp_short_lexicographic_witness :
  cmp_short [x01; x02; x03; x04; x05; x06; x07; x08; x09] [x01; x02; x03; x04; x05; x06; x07; x08; x0a] = Some Lt.
Proof. rewrite cmp_short_lexicographic by reflexivity. reflexivity. Defined.

(** ** The searches *)

Lemma select_go_point fuel below lo len p : 0 <= lo -> 0 <= len < U64 -> len < Z.of_nat fuel -> lo <= p <= lo + len ->
  (forall i, lo <= i < p -> below i = true) -> (forall i, p <= i < lo + len -> below i = false) -> select_go fuel below lo len = p.
Proof.
  revert lo len. induction fuel as [|fuel IH]; intros lo len Hlo Hlen Hf Hp Ht Hn; [lia|]. cbn [select_go]. destruct (Z.ltb_spec 1 len).
  - assert (1 <= len / 2 < len) by (split; [apply Z.div_le_lower_bound; lia|apply Z.div_lt; lia]).
    pose proof (Z.mul_div_le len 2 ltac:(lia)) as H2. set (half := len / 2) in *.
    destruct (Z.le_gt_cases p (lo + half - 1)).
    + rewrite Hn by lia. change (w64 (- 0)) with 0. rewrite Z.land_0_r, Z.add_0_r. apply IH; try lia; intros i Hi; [apply Ht|apply Hn]; lia.
    + rewrite Ht by lia. change (w64 (- (1))) with (Z.ones 64). rewrite Z.land_ones by lia. change (2 ^ 64) with U64. rewrite Z.mod_small by lia.
      apply IH; try lia; intros i Hi; [apply Ht|apply Hn]; lia.
  - destruct (Z.eqb_spec len 1) as [->|]; cbn [andb].
    + destruct (decide (p = lo)) as [->|]; [rewrite Hn by lia; lia|]. rewrite Ht by lia. lia.
    + lia.
Qed.

Lemma select_point n below p : 0 <= n < U64 -> 0 <= p <= n ->
  (forall i, 0 <= i < p -> below i = true) -> (forall i, p <= i < n -> below i = false) -> select_lower_bound n below = p.
Proof. intros Hn Hp Ht Hf. apply select_go_point; try lia; intros i Hi; [apply Ht|apply Hf]; lia. Qed.

(** The point where a prefix's predicate ends. *)
Lemma point_exists (f : Z -> bool) a n : a <= n -> (forall i j, a <= i <= j -> j < n -> f j = true -> f i = true) ->
  exists p, a <= p <= n /\ (forall i, a <= i < p -> f i = true) /\ (forall i, p <= i < n -> f i = false).
Proof.
  intros Ha. replace n with (a + (n - a)) by lia. assert (0 <= n - a) as H by lia. revert H. generalize (n - a). clear n Ha.
  apply (natlike_ind (fun m => _ -> exists p, a <= p <= a + m /\ (forall i, a <= i < p -> f i = true) /\ (forall i, p <= i < a + m -> f i = false))).
  - intros _. exists a. split; [lia|]. split; intros i Hi; lia.
  - intros m Hm IH Hmono. destruct IH as (p & Hp & Ht & Hf); [intros i j Hij Hj; apply Hmono; lia|].
    destruct (f (a + m)) eqn:E.
    + exists (a + m + 1). split; [lia|]. split; [|intros i Hi; lia]. intros i Hi. apply (Hmono i (a + m)); [lia|lia|done].
    + exists p. split; [lia|]. split; [done|]. intros i Hi. destruct (decide (i = a + m)) as [->|]; [done|]. apply Hf. lia.
Qed.

(** What a gallop leaves: a near probe, and a step past it that is the
    array's end or is not near. *)
Lemma gallop_spec fuel n near next lo step : 0 < step -> (forall l s, lo <= l -> step * 2 ^ Z.of_nat fuel <= s -> n <= next l s) ->
  (forall l s, 0 < s -> next l s < next (next l s) (s * 2)) -> lo < next lo step ->
  let '(lo', step') := gallop fuel n near next lo step in
  lo <= lo' < next lo' step' /\ (lo' = lo \/ lo' < n /\ near lo' = true) /\ (n <= next lo' step' \/ near (next lo' step') = false) /\
  exists k, 0 <= k /\ step' = step * 2 ^ k.
Proof.
  revert lo step. induction fuel as [|fuel IH]; intros lo step Hs Hend Hnext Hlt; cbn [gallop].
  - split; [lia|]. split; [by left|]. split; [left; apply Hend; change (2 ^ Z.of_nat 0) with 1; lia|]. exists 0. split; [lia|]. change (2 ^ 0) with 1. lia.
  - destruct (Z.leb_spec n (next lo step)); cbn [orb]; [|destruct (near (next lo step)) eqn:En; cbn [negb]].
    + split; [lia|]. split; [by left|]. split; [by left|]. exists 0. split; [lia|]. change (2 ^ 0) with 1. lia.
    + specialize (IH (next lo step) (step * 2) ltac:(lia)). destruct (gallop fuel n near next (next lo step) (step * 2)) as [lo' step'].
      destruct IH as (H1 & H2 & H3 & k & Hk & ->).
      * intros l s Hl Hs'. apply Hend; [lia|]. rewrite Nat2Z.inj_succ, Z.pow_succ_r by lia. lia.
      * done.
      * by apply Hnext.
      * split; [lia|]. split; [|split; [done|]].
        -- destruct H2 as [->|?]; [by right|by right].
        -- exists (k + 1). split; [lia|]. rewrite Z.pow_add_r by lia. lia.
    + split; [lia|]. split; [by left|]. split; [by right|]. exists 0. split; [lia|]. change (2 ^ 0) with 1. lia.
Qed.

Section indexed.
Context (ix : OrdIndex) (keys : list bytes) (p : bytes) (Hix : indexes ix keys p).
Local Abbreviation n := (oi_n ix).
Local Abbreviation hd := (head ix).
Local Abbreviation key_at := (get_at keys).

Lemma n_keys : n = Zlen keys /\ 0 <= n < 2 ^ 60.
Proof. destruct Hix. pose proof (Zlen_nonneg keys). lia. Qed.

Lemma key_is i : 0 <= i < n -> exists s, key_at i = Some (p ++ s) /\ hd i = head_of (p ++ s) (Zlen p).
Proof.
  intros Hi. destruct n_keys as [Hn _]. destruct (get_at_is_Some keys i) as [k Hk]; [lia|].
  destruct (ix_keys _ _ _ Hix i k Hk) as [s ->]. exists s. split; [done|]. by apply (ix_head _ _ _ Hix).
Qed.

Lemma head_mono i j : 0 <= i <= j -> j < n -> hd i <= hd j.
Proof.
  intros Hij Hj. destruct (key_is i ltac:(lia)) as (s & Hs & ->). destruct (key_is j ltac:(lia)) as (t & Ht & ->).
  apply head_le. apply (ascending_le keys i j); [apply Hix|lia|done|done].
Qed.

(** The first rank from [a] whose head is not below [h]. *)
Lemma head_point h a : 0 <= a <= n -> exists q, a <= q <= n /\ (forall i, a <= i < q -> hd i < h) /\ (forall i, q <= i < n -> h <= hd i).
Proof.
  intros Ha. destruct (point_exists (fun i => hd i <? h) a n) as (q & Hq & Ht & Hf); [lia| |].
  - intros i j Hij Hj Hlt%Z.ltb_lt. apply Z.ltb_lt. pose proof (head_mono i j ltac:(lia) Hj). lia.
  - exists q. split; [lia|]. split; intros i Hi; [by apply Z.ltb_lt, Ht|by apply Z.ltb_ge, Hf].
Qed.

Lemma run_point h a : 0 <= a < n -> hd a = h -> exists e, a < e <= n /\ (forall i, a <= i < e -> hd i = h) /\ (forall i, e <= i < n -> h < hd i).
Proof.
  intros Ha Hh. destruct (head_point (h + 1) a ltac:(lia)) as (e & He & Hl & Hg). exists e.
  assert (a < e). { destruct (decide (e = a)) as [->|]; [|lia]. specialize (Hg a ltac:(lia)). lia. }
  split; [lia|]. split; intros i Hi; [|specialize (Hg i Hi); lia]. specialize (Hl i Hi). pose proof (head_mono a i ltac:(lia) ltac:(lia)). lia.
Qed.

Lemma run_end_point h a e : 0 <= a < e -> e <= n -> (forall i, a <= i < e -> hd i = h) -> (forall i, e <= i < n -> h < hd i) -> run_end ix h a = e.
Proof.
  intros Ha He Heq Hgt. destruct n_keys as [_ Hn]. unfold run_end.
  pose proof (gallop_spec 64 n (fun q => hd q =? h) (fun _ step => a + step) a 1 ltac:(lia)) as Hg.
  destruct (gallop 64 n (fun q => hd q =? h) (fun _ step => a + step) a 1) as [lo step].
  destruct Hg as (H1 & H2 & H3 & k & Hk & ->); [intros l s Hl Hs; lia|intros l s Hs; lia|lia|].
  pose proof (Z.pow_pos_nonneg 2 k ltac:(lia) Hk). rewrite Z.mul_1_l in *.
  assert (lo < e). { destruct H2 as [->|[? Hh%Z.eqb_eq]]; [lia|]. apply Z.nle_gt. intros Hle. specialize (Hgt lo ltac:(lia)). lia. }
  assert (e <= a + 2 ^ k). { destruct H3 as [?|Hh%Z.eqb_neq]; [lia|]. apply Z.nlt_ge. intros Hlt. apply Hh, Heq. lia. }
  apply bsearch_point; [lia| |]; intros i Hi; [apply Z.eqb_eq, Heq; lia|apply Z.eqb_neq; specialize (Hgt i ltac:(lia)); lia].
Qed.

(** *** Against a query that carries the prefix *)

Section carried.
Context (t : bytes).
Local Abbreviation q := (p ++ t).
Local Abbreviation h := (head_of (p ++ t) (Zlen p)).

Lemma below_head i : 0 <= i < n -> hd i < h -> exists k, key_at i = Some k /\ blt k q.
Proof. intros Hi Hlt. destruct (key_is i Hi) as (s & Hs & E). rewrite E in Hlt. exists (p ++ s). split; [done|]. by apply head_lt. Qed.

Lemma above_head i : 0 <= i < n -> h < hd i -> exists k, key_at i = Some k /\ blt q k.
Proof. intros Hi Hlt. destruct (key_is i Hi) as (s & Hs & E). rewrite E in Hlt. exists (p ++ s). split; [done|]. by apply head_lt. Qed.

(** A rank whose head is not the query's is not the query's. *)
Lemma other_head i : hd i <> h -> key_at i <> Some q.
Proof. intros Hne Hk. apply Hne. by apply (ix_head _ _ _ Hix). Qed.

(** Where a head is a whole key, a tie says which side the query is. *)
Lemma tied_head i l : oi_uniform ix = Some l -> 0 <= i < n -> hd i = h ->
  exists k, key_at i = Some k /\ (Zlen q <= l -> ble q k /\ (Zlen q = l <-> k = q)) /\ (l < Zlen q -> blt k q).
Proof.
  intros Hu Hi Hh. pose proof (ix_uniform _ _ _ Hix) as Hul. rewrite Hu in Hul. destruct Hul as [Hl Hlen].
  destruct (key_is i Hi) as (s & Hs & E). exists (p ++ s). split; [done|]. pose proof (Hlen i _ Hs) as Hsl. rewrite Zlen_app in *.
  rewrite E in Hh. split.
  - intros Hq. destruct (head_tie p t s) as [r ->]; [done|unfold HEAD in *; lia|lia|]. rewrite Zlen_app in Hsl. rewrite app_assoc. split; [apply prefix_le|]. split.
    + intros Hql. rewrite (Zlen_zero_nil r) by lia. by rewrite app_nil_r.
    + intros Hr. apply (f_equal Zlen) in Hr. rewrite !Zlen_app in Hr. lia.
  - intros Hq. destruct (head_tie p s t) as [r ->]; [done|unfold HEAD in *; lia|lia|]. rewrite app_assoc. apply prefix_lt.
    intros ->. rewrite app_nil_r in Hq. lia.
Qed.

Definition exact_ok (e : option bool) (r : Z) (key : bytes) : Prop :=
  match e with Some b => b = true <-> key_at r = Some key | None => True end.

Lemma not_at_end key : key_at n <> Some key.
Proof. destruct n_keys as [-> _]. rewrite (proj2 (get_at_None keys (Zlen keys))) by lia. done. Qed.

Lemma ties_bounds a e : 0 <= a <= e -> e <= n -> (forall i, 0 <= i < a -> hd i < h) -> (forall i, e <= i < n -> h < hd i) ->
  exists r, a <= r <= e /\ lower_bound_at key_at n q r.
Proof.
  intros Ha He Hlt Hgt. destruct n_keys as [Hn _]. destruct (lower_bound_exists keys q) as (r & Hr & Hl & Hg); [apply Hix|]. rewrite <- Hn in *.
  exists r. split; [|split; [done|by split]]. split.
  - apply Z.nlt_ge. intros Hra. destruct (below_head r) as (k & Hk & Hb); [lia|by apply Hlt; lia|]. destruct (Hg r) as (k' & Hk' & Hle); [lia|].
    rewrite Hk in Hk'. injection Hk' as <-. by apply ble_not_lt in Hle.
  - apply Z.nlt_ge. intros Hre. destruct (above_head e) as (k & Hk & Hb); [lia|apply Hgt; lia|]. destruct (Hl e) as (k' & Hk' & Hlt'); [lia|].
    rewrite Hk in Hk'. injection Hk' as <-. by apply blt_asym in Hb.
Qed.

Lemma exact_at_spec a : 0 <= a <= n -> (forall i, 0 <= i < a -> hd i < h) -> (forall i, a <= i < n -> h <= hd i) ->
  let '(r, e) := exact_at ix key_at a h q in lower_bound_at key_at n q r /\ exact_ok e r q.
Proof.
  intros Ha Hlt Hge. destruct n_keys as [Hn _].
  assert ((n <= a \/ hd a <> h) -> lower_bound_at key_at n q a /\ key_at a <> Some q) as Hno.
  { intros Hor. split; [split; [lia|split]|].
    - intros i Hi. destruct (below_head i) as (k & Hk & Hb); [lia|by apply Hlt|]. eauto.
    - intros i Hi. assert (h < hd i) as Hgt.
      { pose proof (Hge a ltac:(lia)). pose proof (head_mono a i ltac:(lia) ltac:(lia)). lia. }
      destruct (above_head i) as (k & Hk & Hb); [lia|done|]. exists k. split; [done|by apply blt_le].
    - destruct Hor as [Hna|Hne]; [|by apply other_head]. replace a with n by lia. apply not_at_end. }
  unfold exact_at. destruct (Z.leb_spec n a) as [Hna|Hna]; cbn [orb]; [|destruct (Z.eqb_spec (hd a) h) as [Hh|Hh]; cbn [negb]].
  - destruct (Hno (or_introl Hna)) as [Hlb Hk]. split; [done|]. destruct (oi_uniform ix); cbn; [|done]. split; [done|]. intros ?. by destruct Hk.
  - destruct (run_point h a ltac:(lia) Hh) as (e & He & Heq & Hgt). rewrite (run_end_point h a e) by (done || lia).
    destruct (oi_uniform ix) as [l|] eqn:Hu.
    + destruct (Z.leb_spec (Zlen q) l) as [Hql|Hql].
      * split; [split; [lia|split]|].
        -- intros i Hi. apply below_head; [lia|by apply Hlt].
        -- intros i Hi. destruct (Z.lt_ge_cases i e).
           ++ destruct (tied_head i l Hu) as (k & Hk & Hle & _); [lia|apply Heq; lia|]. exists k. split; [done|]. by apply Hle.
           ++ destruct (above_head i) as (k & Hk & Hb); [lia|apply Hgt; lia|]. exists k. split; [done|by apply blt_le].
        -- destruct (tied_head a l Hu) as (k & Hk & Hle & _); [lia|done|]. destruct (Hle Hql) as [_ Hiff]. cbn. rewrite Z.eqb_eq, Hiff, Hk.
           split; [by intros ->|by intros [= ->]].
      * split; [split; [lia|split]|].
        -- intros i Hi. destruct (Z.lt_ge_cases i a); [apply below_head; [lia|apply Hlt; lia]|].
           destruct (tied_head i l Hu) as (k & Hk & _ & Hb); [lia|apply Heq; lia|]. eauto.
        -- intros i Hi. destruct (above_head i) as (k & Hk & Hb); [lia|apply Hgt; lia|]. exists k. split; [done|by apply blt_le].
        -- cbn. split; [done|]. intros Hk. exfalso. destruct (Z.lt_ge_cases e n) as [Hen|Hen].
           ++ apply (other_head e); [|done]. specialize (Hgt e ltac:(lia)). lia.
           ++ replace e with n in Hk by lia. by apply not_at_end in Hk.
    + destruct (ties_bounds a e) as (r & Hr & Hlb); [lia|lia|done|done|]. rewrite (bsearch_lower_bound _ n q r); [by split|done|lia|lia|lia].
  - destruct (Hno (or_intror Hh)) as [Hlb Hk]. split; [done|]. destruct (oi_uniform ix); cbn; [|done]. split; [done|]. intros ?. by destruct Hk.
Qed.
End carried.

(** *** Against any query: the prefix's verdict *)

Lemma take_cmp (q first : bytes) m : take (Z.to_nat m) first = take (Z.to_nat m) p -> 0 <= m <= Zlen q -> m <= Zlen p ->
  cmp_prefix q first m = bcmp (take (Z.to_nat m) q) (take (Z.to_nat m) p).
Proof. intros E Hq Hp. unfold cmp_prefix. rewrite E, cmp_short_spec; [done|]. rewrite !Zlen_take. lia. Qed.

Lemma prefix_verdict q first : first = p \/ key_at 0 = Some first ->
  let m := Z.min (Z.min (oi_pfx ix) (Zlen q)) (Zlen first) in
  ((cmp_prefix q first m = Lt \/ cmp_prefix q first m = Eq /\ (m <? oi_pfx ix) = true) /\ forall s, blt q (p ++ s)) \/
  (cmp_prefix q first m = Gt /\ forall s, blt (p ++ s) q) \/
  (cmp_prefix q first m = Eq /\ (m <? oi_pfx ix) = false /\ exists t, q = p ++ t).
Proof.
  intros Hf. cbv zeta. rewrite (ix_pfx _ _ _ Hix).
  assert (exists s0, first = p ++ s0) as [s0 ->].
  { destruct Hf as [->|Hf]; [exists []; by rewrite app_nil_r|]. by apply (ix_keys _ _ _ Hix 0). }
  pose proof (Zlen_nonneg s0). pose proof (Zlen_nonneg p). pose proof (Zlen_nonneg q).
  assert (Z.min (Z.min (Zlen p) (Zlen q)) (Zlen (p ++ s0)) = Z.min (Zlen p) (Zlen q)) as -> by (rewrite Zlen_app; lia).
  remember (Z.min (Zlen p) (Zlen q)) as m eqn:Hm.
  rewrite take_cmp; [|by rewrite take_app_le by (unfold Zlen in *; lia)|lia|lia].
  assert (forall s, bcmp (take (Z.to_nat m) q) (take (Z.to_nat m) p) <> Eq -> bcmp q (p ++ s) = bcmp (take (Z.to_nat m) q) (take (Z.to_nat m) p)) as Hne.
  { intros s Hn. rewrite <- (take_drop (Z.to_nat m) q) at 1. rewrite <- (take_drop (Z.to_nat m) p) at 1. rewrite <- app_assoc.
    apply bcmp_app_neq; [|done]. rewrite !length_take. unfold Zlen in *. lia. }
  destruct (bcmp (take (Z.to_nat m) q) (take (Z.to_nat m) p)) eqn:Ec.
  - apply bcmp_eq in Ec. destruct (Z.ltb_spec m (Zlen p)) as [Hlt|Hge].
    + left. split; [by right|]. intros s. assert (q = take (Z.to_nat m) p) as Eq.
      { rewrite <- Ec. rewrite take_ge; [done|]. unfold Zlen in *. lia. }
      rewrite Eq.
      rewrite <- (take_drop (Z.to_nat m) p) at 2. rewrite <- app_assoc. apply prefix_lt. intros E. apply (f_equal Zlen) in E.
      rewrite Zlen_app, Zlen_drop, (@Zlen_nil byte) in E. pose proof (Zlen_nonneg s). lia.
    + right. right. split; [done|]. split; [done|]. exists (drop (Z.to_nat m) q). rewrite <- (take_drop (Z.to_nat m) q) at 1. rewrite Ec.
      f_equal. rewrite take_ge; [done|]. unfold Zlen in *. lia.
  - left. split; [by left|]. intros s. unfold blt. by rewrite Hne.
  - right. left. split; [done|]. intros s. unfold blt. rewrite bcmp_antisym, Hne; done.
Qed.

Lemma before_all q : (forall s, blt q (p ++ s)) -> lower_bound_at key_at n q 0 /\ forall r, key_at r <> Some q.
Proof.
  intros Hb. destruct n_keys as [Hn Hpos]. split; [split; [lia|split; [intros i Hi; lia|]]|].
  - intros i Hi. destruct (key_is i Hi) as (s & Hs & _). exists (p ++ s). split; [done|by apply blt_le].
  - intros r Hr. destruct (ix_keys _ _ _ Hix r q Hr) as [s Hs]. specialize (Hb s). rewrite <- Hs in Hb. by apply blt_irrefl in Hb.
Qed.

Lemma after_all q : (forall s, blt (p ++ s) q) -> lower_bound_at key_at n q n /\ forall r, key_at r <> Some q.
Proof.
  intros Hb. destruct n_keys as [Hn Hpos]. split; [split; [lia|split; [|intros i Hi; lia]]|].
  - intros i Hi. destruct (key_is i Hi) as (s & Hs & _). eauto.
  - intros r Hr. destruct (ix_keys _ _ _ Hix r q Hr) as [s Hs]. specialize (Hb s). rewrite <- Hs in Hb. by apply blt_irrefl in Hb.
Qed.

(** The first key, or the prefix learned from it. *)
Lemma first_known : 0 < n -> exists first, (match oi_prefix ix with Some p => Some p | None => key_at 0 end) = Some first /\
  (first = p \/ key_at 0 = Some first).
Proof.
  intros Hpos. destruct (ix_prefix _ _ _ Hix) as [->| ->]; [|eauto]. destruct (key_is 0) as (s & Hs & _); [lia|]. eauto.
Qed.

Lemma outside_spec q : 0 < n ->
  match outside_prefix ix key_at q with
  | Some (r, e) => e = Some false /\ lower_bound_at key_at n q r /\ forall i, key_at i <> Some q
  | None => exists t, q = p ++ t
  end.
Proof.
  intros Hpos. unfold outside_prefix. destruct (Z.eqb_spec (oi_pfx ix) 0) as [E|_].
  { rewrite (ix_pfx _ _ _ Hix) in E. rewrite (Zlen_zero_nil p) by done. by exists q. }
  destruct (first_known Hpos) as (first & -> & Hf). cbv zeta. destruct (prefix_verdict q first Hf) as [[Hc Hb]|[[Hc Hb]|(Hc & Hm & Ht)]].
  - destruct (before_all q Hb). destruct Hc as [-> | [-> ->]]; done.
  - destruct (after_all q Hb). by rewrite Hc.
  - by rewrite Hc, Hm.
Qed.

(** *** The seek *)

Lemma top_at j : 0 <= j -> j * TOP_STRIDE < n -> get_at (oi_top ix) j = Some (hd (j * TOP_STRIDE)).
Proof.
  intros Hj Hl. rewrite (ix_top _ _ _ Hix). unfold top_ranks, TOP_STRIDE in *. destruct n_keys as [_ Hn].
  destruct (div_ceil_spec n 64 ltac:(lia) ltac:(lia)) as [H1 H2]. rewrite !get_at_map, get_at_seqZ by lia. done.
Qed.

Lemma Zlen_top : Zlen (oi_top ix) = div_ceil n TOP_STRIDE.
Proof.
  rewrite (ix_top _ _ _ Hix). unfold top_ranks. rewrite !Zlen_map. destruct n_keys as [_ Hn]. apply Zlen_seqZ. apply Z.div_pos; unfold TOP_STRIDE; lia.
Qed.

(** The window the top level leaves holds the point. *)
Lemma top_window h a : 0 <= a <= n -> 0 < n -> (forall i, 0 <= i < a -> hd i < h) -> (forall i, a <= i < n -> h <= hd i) ->
  let t := lower_bound (oi_top ix) h in
  if t =? 0 then a = 0 else 0 < t /\ (t - 1) * TOP_STRIDE + 1 <= a <= Z.min (t * TOP_STRIDE) n.
Proof.
  intros Ha Hpos Hlt Hge. destruct n_keys as [_ Hn]. destruct (div_ceil_spec a 64 ltac:(lia) ltac:(lia)) as [H1 H2].
  destruct (div_ceil_spec n 64 ltac:(lia) ltac:(lia)) as [H3 H4]. assert (0 <= div_ceil a 64) by (apply Z.div_pos; lia).
  assert (div_ceil a 64 <= div_ceil n 64) by (apply Z.div_le_mono; lia). unfold lower_bound. rewrite Zlen_top.
  assert (select_lower_bound (div_ceil n TOP_STRIDE) (fun i => match get_at (oi_top ix) i with Some v => v <? h | None => false end) = div_ceil a 64) as ->.
  { unfold TOP_STRIDE. apply select_point; [unfold U64; lia|lia| |]; intros i Hi; rewrite top_at by (unfold TOP_STRIDE; lia); unfold TOP_STRIDE.
    - apply Z.ltb_lt, Hlt. lia.
    - apply Z.ltb_ge, Hge. lia. }
  cbv zeta. unfold TOP_STRIDE. destruct (Z.eqb_spec (div_ceil a 64) 0); lia.
Qed.

Lemma seek_carried t a : outside_prefix ix key_at (p ++ t) = None -> 0 <= a <= n -> 0 < n ->
  (forall i, 0 <= i < a -> hd i < head_of (p ++ t) (Zlen p)) -> (forall i, a <= i < n -> head_of (p ++ t) (Zlen p) <= hd i) ->
  exists lo hi, seek_exact_hint ix key_at (p ++ t) = (Some (lo, hi), exact_at ix key_at a (head_of (p ++ t) (Zlen p)) (p ++ t)) /\
    0 <= lo <= a /\ a <= hi <= n /\ hi - lo < TOP_STRIDE.
Proof.
  intros Ho Ha Hpos Hlt Hge. destruct n_keys as [_ Hn]. unfold seek_exact_hint. rewrite (proj2 (Z.eqb_neq n 0)) by lia. rewrite Ho, (ix_pfx _ _ _ Hix).
  pose proof (top_window _ a Ha Hpos Hlt Hge) as Hw. cbv zeta in *. set (q := lower_bound _ _) in *.
  destruct (Z.eqb_spec q 0) as [E|E].
  - exists 0, 0. rewrite Hw, Z.sub_diag. change (select_lower_bound 0 _) with 0. unfold TOP_STRIDE. split; [done|lia].
  - destruct Hw as [Hq Hw]. unfold TOP_STRIDE in *. eexists _, _. split; [|split; [|split]].
    + rewrite (select_point _ _ (a - ((q - 1) * 64 + 1))).
      * do 2 f_equal. lia.
      * unfold U64. lia.
      * lia.
      * intros i Hi. apply Z.ltb_lt, Hlt. lia.
      * intros i Hi. apply Z.ltb_ge, Hge. lia.
    + lia.
    + lia.
    + lia.
Qed.

Lemma seek_spec q : let '(r, e) := seek_exact ix key_at q in lower_bound_at key_at n q r /\ exact_ok e r q.
Proof.
  destruct n_keys as [Hn Hpos]. destruct (Z.eq_dec n 0) as [E|E].
  { unfold seek_exact, seek_exact_hint. rewrite (proj2 (Z.eqb_eq _ _) E). cbn. rewrite E. split; [split; [lia|split; intros i Hi; lia]|].
    split; [done|]. rewrite (proj2 (get_at_None keys 0)) by lia. done. }
  pose proof (outside_spec q ltac:(lia)) as Ho. destruct (outside_prefix ix key_at q) as [[r e]|] eqn:Eo.
  - unfold seek_exact, seek_exact_hint. rewrite (proj2 (Z.eqb_neq _ _) E), Eo. destruct Ho as (-> & Hlb & Hno). split; [done|].
    split; [done|]. intros Hk. by apply Hno in Hk.
  - destruct Ho as [t ->]. destruct (head_point (head_of (p ++ t) (Zlen p)) 0 ltac:(lia)) as (a & Ha & Hlt & Hge).
    destruct (seek_carried t a Eo ltac:(lia) ltac:(lia) Hlt Hge) as (lo & hi & Hs & _). unfold seek_exact. rewrite Hs. by apply exact_at_spec.
Qed.

Lemma seek_from_spec from q : 0 <= from -> seek_exact_from ix key_at from q = seek_exact ix key_at q.
Proof.
  intros H0. destruct n_keys as [Hn Hpos]. unfold seek_exact_from. destruct (Z.eqb_spec from 0) as [|Hf0]; cbn [orb]; [done|].
  destruct (Z.leb_spec n from); [done|]. pose proof (outside_spec q ltac:(lia)) as Ho. destruct (outside_prefix ix key_at q) as [fin|] eqn:Eo.
  { unfold seek_exact, seek_exact_hint. rewrite (proj2 (Z.eqb_neq n 0)) by lia. by rewrite Eo. }
  destruct Ho as [t ->]. rewrite (ix_pfx _ _ _ Hix). set (h := head_of (p ++ t) (Zlen p)). cbv zeta.
  destruct (Z.leb_spec h (hd (from - 1))) as [|Hbelow]; [done|].
  destruct (head_point h from ltac:(lia)) as (a & Ha & Hlt & Hge).
  assert (forall i, 0 <= i < a -> hd i < h) as Hlt'.
  { intros i Hi. destruct (Z.lt_ge_cases i from); [|apply Hlt; lia]. pose proof (head_mono i (from - 1) ltac:(lia) ltac:(lia)). lia. }
  destruct (seek_carried t a Eo ltac:(lia) ltac:(lia) Hlt' Hge) as (lo & hi & Hs & _). unfold seek_exact. rewrite Hs. cbn [snd]. fold h. f_equal.
  destruct (Z.leb_spec h (hd from)) as [Hf|Hf].
  { destruct (decide (a = from)); [done|]. specialize (Hlt from ltac:(lia)). lia. }
  pose proof (gallop_spec 64 n (fun x => hd x <? h) (fun lo step => lo + step) from 1 ltac:(lia)) as Hg.
  destruct (gallop 64 n (fun x => hd x <? h) (fun lo step => lo + step) from 1) as [l st].
  destruct Hg as (H1 & H2 & H3 & k & Hk & ->); [intros x s Hx Hs0; change (2 ^ Z.of_nat 64) with (2 ^ 64) in Hs0; lia|intros x s Hs0; lia|lia|].
  pose proof (Z.pow_pos_nonneg 2 k ltac:(lia) Hk). rewrite Z.mul_1_l in *.
  assert (l < a). { destruct H2 as [->|[? Hh%Z.ltb_lt]]; [|apply Z.nle_gt; intros Hle; specialize (Hge l ltac:(lia)); lia].
    apply Z.nle_gt. intros Hle. specialize (Hge from ltac:(lia)). lia. }
  assert (a <= Z.min (l + 2 ^ k) n).
  { destruct (Z.le_gt_cases n (l + 2 ^ k)); [lia|]. destruct H3 as [?|Hh%Z.ltb_ge]; [lia|]. apply Z.nlt_ge. intros Hx. specialize (Hlt' (l + 2 ^ k) ltac:(lia)). lia. }
  replace (if n <=? l + 2 ^ k then n else l + 2 ^ k) with (Z.min (l + 2 ^ k) n) by (destruct (Z.leb_spec n (l + 2 ^ k)); lia).
  rewrite (select_point _ _ (a - (l + 1))); [lia|unfold U64; lia|lia| |]; intros i Hi; [apply Z.ltb_lt, Hlt'|apply Z.ltb_ge, Hge]; lia.
Qed.

(** *** The seek of a window *)

Definition lower_bound_in (lo hi : Z) (key : bytes) (r : Z) : Prop :=
  lo <= r <= hi /\ (forall i, lo <= i < r -> exists k, key_at i = Some k /\ blt k key) /\
  (forall i, r <= i < hi -> exists k, key_at i = Some k /\ ble key k).

Lemma window_of_global lo hi q g : 0 <= lo <= hi -> hi <= n -> lower_bound_at key_at n q g -> lower_bound_in lo hi q (Z.max lo (Z.min g hi)).
Proof. intros Hlo Hhi (Hg & Hl & Hge). split; [lia|]. split; intros i Hi; [apply Hl|apply Hge]; lia. Qed.

Lemma global_bound q : exists g, lower_bound_at key_at n q g.
Proof. destruct n_keys as [-> _]. apply lower_bound_exists, Hix. Qed.

Lemma bsearch_window lo hi q : 0 <= lo <= hi -> hi <= n -> lower_bound_in lo hi q (bsearch (less_than key_at q) lo hi).
Proof.
  intros Hlo Hhi. destruct (global_bound q) as (g & Hg). pose proof (window_of_global lo hi q g Hlo Hhi Hg) as (Hr & Hl & Hge).
  rewrite (bsearch_point _ lo hi (Z.max lo (Z.min g hi))); [by split|lia| |]; intros i Hi; unfold less_than.
  - destruct (Hl i Hi) as (k & -> & Hk). by destruct (bltb_spec k q).
  - destruct (Hge i Hi) as (k & -> & Hk). destruct (bltb_spec k q); [|done]. by apply ble_not_lt in Hk.
Qed.

(** What [seek_in_exact] says of the rank it answers. *)
Definition in_ok (e : option bool) (r hi : Z) (key : bytes) : Prop :=
  match e with Some true => key_at r = Some key | Some false => r = hi \/ key_at r <> Some key | None => r < hi end.

Lemma seek_in_carried lo hi t : 0 <= lo < hi -> hi <= n ->
  let h := head_of (p ++ t) (Zlen p) in
  let a := bsearch (fun m => hd m <? h) lo hi in
  let '(r, e) :=
    if (hi <=? a) || negb (hd a =? h) then (a, Some false)
    else
      match oi_uniform ix with
      | Some len => if Zlen (p ++ t) <=? len then (a, Some (Zlen (p ++ t) =? len)) else (Z.min (run_end ix h a) hi, Some false)
      | None =>
          let a := bsearch (less_than key_at (p ++ t)) a (Z.min (run_end ix h a) hi) in
          (a, if hi <=? a then Some false else None)
      end in
  lower_bound_in lo hi (p ++ t) r /\ in_ok e r hi (p ++ t).
Proof.
  intros Hlo Hhi. cbv zeta. set (h := head_of (p ++ t) (Zlen p)). destruct (head_point h lo ltac:(lia)) as (a' & Ha' & Hlt & Hge).
  assert (bsearch (fun m => hd m <? h) lo hi = Z.min a' hi) as ->.
  { apply bsearch_point; [lia| |]; intros i Hi; [apply Z.ltb_lt, Hlt|apply Z.ltb_ge, Hge]; lia. }
  assert (forall i, lo <= i < a' -> exists k, key_at i = Some k /\ blt k (p ++ t)) as Hbelow by (intros i Hi; apply below_head; [lia|by apply Hlt]).
  destruct (Z.leb_spec hi (Z.min a' hi)) as [Hh|Hh]; cbn [orb].
  { replace (Z.min a' hi) with hi by lia. split; [|by left]. split; [lia|]. split; intros i Hi; [apply Hbelow; lia|lia]. }
  replace (Z.min a' hi) with a' in * by lia. destruct (Z.eqb_spec (hd a') h) as [E|E]; cbn [negb].
  2: { split; [|right; by apply other_head]. split; [lia|]. split; [done|]. intros i Hi.
       destruct (above_head t i) as (k & Hk & Hb); [lia| |exists k; split; [done|by apply blt_le]].
       pose proof (head_mono a' i ltac:(lia) ltac:(lia)). specialize (Hge a' ltac:(lia)). fold h. lia. }
  destruct (run_point h a' ltac:(lia) E) as (e & He & Heq & Hgt). rewrite (run_end_point h a' e) by (done || lia).
  assert (forall i, e <= i < hi -> exists k, key_at i = Some k /\ ble (p ++ t) k) as Habove.
  { intros i Hi. destruct (above_head t i) as (k & Hk & Hb); [lia|apply Hgt; lia|]. exists k. split; [done|by apply blt_le]. }
  destruct (oi_uniform ix) as [l|] eqn:Hu.
  - destruct (Z.leb_spec (Zlen (p ++ t)) l) as [Hql|Hql].
    + split; [split; [lia|split; [done|]]|].
      * intros i Hi. destruct (Z.lt_ge_cases i e); [|apply Habove; lia].
        destruct (tied_head t i l Hu) as (k & Hk & Hle & _); [lia|apply Heq; lia|]. exists k. split; [done|]. by apply Hle.
      * destruct (tied_head t a' l Hu) as (k & Hk & Hle & _); [lia|done|]. destruct (Hle Hql) as [_ Hiff].
        destruct (Z.eqb_spec (Zlen (p ++ t)) l) as [El|El]; cbn [in_ok]; [by rewrite Hk, <- (proj1 Hiff El)|right]. rewrite Hk. intros [= ->]. by apply El, Hiff.
    + split; [split; [lia|split]|].
      * intros i Hi. destruct (Z.lt_ge_cases i a'); [apply Hbelow; lia|].
        destruct (tied_head t i l Hu) as (k & Hk & _ & Hb); [lia|apply Heq; lia|]. eauto.
      * intros i Hi. apply Habove. lia.
      * cbn. destruct (Z.le_gt_cases hi e); [left; lia|right]. apply other_head. specialize (Hgt e ltac:(lia)). fold h.
        replace (Z.min e hi) with e by lia. lia.
  - destruct (bsearch_window a' (Z.min e hi) (p ++ t)) as (Hr & Hl & Hg); [lia|lia|]. set (r := bsearch _ a' _) in *. split; [split; [lia|split]|].
    + intros i Hi. destruct (Z.lt_ge_cases i a'); [apply Hbelow; lia|apply Hl; lia].
    + intros i Hi. destruct (Z.lt_ge_cases i e); [apply Hg; lia|apply Habove; lia].
    + destruct (Z.leb_spec hi r); cbn; [left; lia|done].
Qed.

Lemma seek_in_spec lo hi q : 0 <= lo < Z.min hi n ->
  let '(r, e) := seek_in_exact ix key_at lo hi q in lower_bound_in lo (Z.min hi n) q r /\ in_ok e r (Z.min hi n) q.
Proof.
  intros Hlo. unfold seek_in_exact. cbv zeta. set (hi' := Z.min hi n) in *. rewrite (proj2 (Z.leb_gt hi' lo)) by lia.
  assert (0 < n) as Hpos by (unfold hi' in *; lia). assert (hi' <= n) as Hhi by (unfold hi'; lia). rewrite (ix_pfx _ _ _ Hix).
  destruct (Z.eqb_spec (Zlen p) 0) as [E|_].
  { pose proof (seek_in_carried lo hi' q Hlo Hhi) as Hs. rewrite (Zlen_zero_nil p E) in Hs. rewrite (Zlen_zero_nil p E). exact Hs. }
  destruct (first_known Hpos) as (first & -> & Hf). pose proof (prefix_verdict q first Hf) as Hv. cbv zeta in Hv. rewrite (ix_pfx _ _ _ Hix) in Hv.
  destruct Hv as [[Hc Hb]|[[Hc Hb]|(Hc & Hm & t & ->)]].
  - destruct (before_all q Hb) as [Hlb Hno]. pose proof (window_of_global lo hi' q 0 ltac:(lia) Hhi Hlb) as Hw. replace (Z.max lo (Z.min 0 hi')) with lo in Hw by lia.
    destruct Hc as [-> | [-> ->]]; (split; [done|by right]).
  - destruct (after_all q Hb) as [Hlb Hno]. pose proof (window_of_global lo hi' q n ltac:(lia) Hhi Hlb) as Hw. replace (Z.max lo (Z.min n hi')) with hi' in Hw by lia.
    rewrite Hc. split; [done|by left].
  - rewrite Hc, Hm. by apply seek_in_carried.
Qed.

(** *** The walk along the ranks *)

Lemma walk_point below from pt fuel : from <= pt <= n -> n - from <= Z.of_nat fuel ->
  (forall i, from <= i < pt -> below i = true) -> (pt < n -> below pt = false) -> walk_below ix fuel below from = pt.
Proof.
  revert from. induction fuel as [|fuel IH]; intros from Hp Hf Ht Hn; cbn [walk_below]; [lia|]. destruct (decide (from = pt)) as [->|Hne].
  - destruct (Z.ltb_spec pt n); [|done]. by rewrite Hn.
  - rewrite (proj2 (Z.ltb_lt from n)), Ht by lia. cbn [andb]. apply IH; [lia|lia|intros i Hi; apply Ht; lia|done].
Qed.

Lemma walk_bound below from q : 0 <= from <= n ->
  (forall i k, from <= i < n -> key_at i = Some k -> below i = bltb k q) ->
  lower_bound_in from n q (walk_below ix (Z.to_nat (n - from)) below from).
Proof.
  intros Hfrom Hb. destruct (global_bound q) as (g & Hg). pose proof (window_of_global from n q g Hfrom ltac:(lia) Hg) as (Hr & Hl & Hge).
  rewrite (walk_point below from (Z.max from (Z.min g n))); [by split|lia|lia| |].
  - intros i Hi. destruct (Hl i Hi) as (k & Hk & Hlt). rewrite (Hb i k) by (done || lia). by destruct (bltb_spec k q).
  - intros Hlt. destruct (Hge (Z.max from (Z.min g n)) ltac:(lia)) as (k & Hk & Hle). rewrite (Hb _ k) by (done || lia).
    destruct (bltb_spec k q); [|done]. by apply ble_not_lt in Hle.
Qed.

Lemma head_verdict t i k : 0 <= i < n -> key_at i = Some k ->
  (if head_of (p ++ t) (Zlen p) <? hd i then false
   else if hd i =? head_of (p ++ t) (Zlen p) then
     match oi_uniform ix with Some len => len <? Zlen (p ++ t) | None => less_than key_at (p ++ t) i end
   else true) = bltb k (p ++ t).
Proof.
  intros Hi Hk. destruct (Z.ltb_spec (head_of (p ++ t) (Zlen p)) (hd i)) as [Hlt|Hle].
  { destruct (above_head t i Hi Hlt) as (k' & Hk' & Hb). rewrite Hk in Hk'. injection Hk' as <-. destruct (bltb_spec k (p ++ t)) as [Hx|]; [|done]. by apply blt_asym in Hb. }
  destruct (Z.eqb_spec (hd i) (head_of (p ++ t) (Zlen p))) as [E|E].
  - destruct (oi_uniform ix) as [l|] eqn:Hu; [|unfold less_than; by rewrite Hk].
    destruct (tied_head t i l Hu Hi E) as (k' & Hk' & H1 & H2). rewrite Hk in Hk'. injection Hk' as <-.
    destruct (Z.ltb_spec l (Zlen (p ++ t))) as [Hl|Hl]; destruct (bltb_spec k (p ++ t)) as [Hb|Hb]; try done.
    + by destruct Hb; apply H2.
    + destruct (H1 Hl) as [Hq _]. by apply ble_not_lt in Hq.
  - destruct (below_head t i Hi ltac:(lia)) as (k' & Hk' & Hb). rewrite Hk in Hk'. injection Hk' as <-. by destruct (bltb_spec k (p ++ t)).
Qed.

Lemma advance_spec from q : 0 <= from <= n -> lower_bound_in from n q (advance_below ix key_at from q).
Proof.
  intros Hfrom. unfold advance_below. cbv zeta. destruct (ix_prefix _ _ _ Hix) as [->| ->].
  { apply walk_bound; [done|]. intros i k Hi Hk. unfold less_than. by rewrite Hk. }
  rewrite (ix_pfx _ _ _ Hix). pose proof (Zlen_nonneg p). destruct (Z.ltb_spec 0 (Zlen p)).
  - pose proof (prefix_verdict q p (or_introl eq_refl)) as Hv. cbv zeta in Hv. rewrite (ix_pfx _ _ _ Hix) in Hv.
    destruct Hv as [[Hc Hb]|[[Hc Hb]|(Hc & Hm & t & ->)]].
    + destruct (before_all q Hb) as [Hlb Hno]. pose proof (window_of_global from n q 0 ltac:(lia) ltac:(lia) Hlb) as Hw.
      replace (Z.max from (Z.min 0 n)) with from in Hw by lia. by destruct Hc as [-> | [-> ->]].
    + destruct (after_all q Hb) as [Hlb Hno]. pose proof (window_of_global from n q n ltac:(lia) ltac:(lia) Hlb) as Hw.
      replace (Z.max from (Z.min n n)) with n in Hw by lia. by rewrite Hc.
    + rewrite Hc, Hm. apply walk_bound; [done|]. intros i k Hi Hk. apply head_verdict; [lia|done].
  - pose proof (Zlen_zero_nil p ltac:(lia)) as Ep. apply walk_bound; [done|]. intros i k Hi Hk.
    pose proof (head_verdict q i k ltac:(lia) Hk) as Hv. rewrite Ep in Hv |- *. exact Hv.
Qed.

(** *** Keys from heads *)

Lemma be64_be_val w : length w = 8%nat -> be64 (be_val w) = w.
Proof.
  intros Hl. unfold be64, be_val. pose proof (le_bytes_le_val (reverse w)) as H. rewrite length_reverse, Hl in H. rewrite H. apply reverse_involutive.
Qed.

Lemma whole_key_spec rank l : oi_uniform ix = Some l -> oi_prefix ix = Some p -> 0 <= rank -> whole_key_at ix rank = key_at rank.
Proof.
  intros Hu Hp Hr. destruct n_keys as [Hn Hpos]. unfold whole_key_at. rewrite Hu, Hp. cbn [option_bind mbind]. rewrite (ix_pfx _ _ _ Hix), Z.eqb_refl. cbn [negb].
  destruct (Z.leb_spec n rank); cbn [orb]; [by rewrite (proj2 (get_at_None keys rank)) by lia|].
  pose proof (ix_uniform _ _ _ Hix) as Hul. rewrite Hu in Hul. destruct Hul as [Hl Hlen].
  destruct (key_is rank) as (s & Hs & Eh); [lia|]. pose proof (Hlen rank _ Hs) as Hsl. rewrite Zlen_app in Hsl.
  assert ((if rank mod TOP_STRIDE =? 0 then get_at (oi_top ix) (rank / TOP_STRIDE) else Some (hd rank)) = Some (hd rank)) as ->.
  { destruct (Z.eqb_spec (rank mod TOP_STRIDE) 0) as [Em|]; [|done]. unfold TOP_STRIDE in *. pose proof (Z.div_mod rank 64 ltac:(lia)) as Hd.
    assert (0 <= rank / 64) by (apply Z.div_pos; lia). rewrite top_at by (unfold TOP_STRIDE; lia). f_equal. f_equal. unfold TOP_STRIDE. lia. }
  cbn [option_bind mbind]. rewrite Eh, head_of_app, be64_be_val by apply length_padded. rewrite padded_take.
  assert (take 8 s = s) as Ht by (rewrite take_ge; [done|]; unfold Zlen, HEAD in *; lia). rewrite Ht.
  rewrite get_range_here by lia. cbn [option_bind mbind]. by rewrite Hs.
Qed.
End indexed.

(** ** The theorems *)

(** The file the composer writes for any ascending keys opens to an index
    of exactly them -- every head at its rank, the prefix all share, the top
    level's samples, the one length where a head is a whole key -- and stays
    one when the prefix is learned from the first key; it opens for no other
    key count; and the builder, which keeps the keys it is pushed, writes the
    same file. *)
Theorem ord_index_roundtrip keys : sortable keys ->
  exists file ix p, finish_from (Zlen keys) (get_at keys) = Some file /\ Zlen file = HEADER + HEAD * Zlen keys + 4 /\
    open file (Zlen keys) = Ok ix /\ indexes ix keys p /\
    (forall first, get_at keys 0 = Some first -> indexes (learn_prefix ix first) keys p) /\
    (forall m, m <> Zlen keys -> open file m = Err "describes a different segment") /\
    (Zlen (concat keys) < U32 -> builder_finish (builder_of keys) = Some file).
Proof.
  intros Hs. pose proof (built_indexes keys Hs) as Hi. eexists _, (built keys), (prefix_of keys).
  split; [apply finish_from_bytes, Hs|]. split.
  { unfold ord_file. rewrite Zlen_app, Zlen_ord_body, Zlen_le32. unfold heads_of. rewrite Zlen_map. unfold HEAD. lia. }
  split; [by apply open_built|]. split; [done|]. split; [intros first Hf; by apply learn_indexes|]. split.
  - intros m Hm. apply open_other; [unfold heads_of; by rewrite Zlen_map|apply Hs|by apply Zlen_prefix_of| |done].
    destruct (uniform_of_spec keys Hs) as [?|(? & ? & _)]; [by left|by right].
  - intros Hu. rewrite builder_finish_from by done. apply finish_from_bytes, Hs.
Qed.

(** C21: a seek over the heads answers the first rank whose key is not less
    than the query, for any query -- without the prefix, shorter than it,
    longer than the keys, one of a run of ties; where it also says whether
    the key at that rank is the query, it says so rightly; and the seek that
    gallops from a rank answers the same from every rank. *)
Theorem ord_seek_exact ix keys p q from : indexes ix keys p -> 0 <= from ->
  let '(r, e) := seek_exact ix (get_at keys) q in
  lower_bound_at (get_at keys) (Zlen keys) q r /\
  (forall b, e = Some b -> b = true <-> get_at keys r = Some q) /\
  seek ix (get_at keys) q = r /\ seek_exact_from ix (get_at keys) from q = (r, e).
Proof.
  intros Hix Hf. rewrite (seek_from_spec ix keys p Hix from q Hf). unfold seek. pose proof (seek_spec ix keys p Hix q) as Hs.
  rewrite (ix_n _ _ _ Hix) in Hs. destruct (seek_exact ix (get_at keys) q) as [r e]. destruct Hs as [Hlb He]. split; [done|].
  split; [|done]. intros b ->. exact He.
Qed.

(** The seek of a window of ranks answers the window's first rank whose
    key is not less than the query, or its end; it answers that the key there
    is the query, or is not, only where that is so, and leaves it open only
    for a rank inside the window; and the walk along the ranks from a rank
    answers what a seek of the ranks from it would. *)
Theorem ord_seek_window ix keys p q lo hi : indexes ix keys p -> 0 <= lo < Z.min hi (Zlen keys) ->
  (let '(r, e) := seek_in_exact ix (get_at keys) lo hi q in
   lower_bound_in keys lo (Z.min hi (Zlen keys)) q r /\
   match e with
   | Some true => get_at keys r = Some q
   | Some false => r = Z.min hi (Zlen keys) \/ get_at keys r <> Some q
   | None => r < Z.min hi (Zlen keys)
   end) /\
  lower_bound_in keys lo (Zlen keys) q (advance_below ix (get_at keys) lo q).
Proof.
  intros Hix Hlo. pose proof (seek_in_spec ix keys p Hix lo hi q) as Hs. pose proof (advance_spec ix keys p Hix lo q) as Ha.
  rewrite (ix_n _ _ _ Hix) in Hs, Ha. split; [by apply Hs|apply Ha; lia].
Qed.

(** Where every key has one length no longer than the prefix and a head,
    the key at any rank -- read from the top level in memory where it holds
    the rank -- is rebuilt exactly from its head and the learned prefix, and
    no rank past the last has one. *)
Theorem ord_whole_key ix keys p rank : indexes ix keys p -> is_uniform ix = true -> oi_prefix ix = Some p -> 0 <= rank ->
  whole_key_at ix rank = get_at keys rank /\ (rank mod TOP_STRIDE = 0 -> top_key_at ix rank = get_at keys rank).
Proof.
  intros Hix Hu Hp Hr. unfold is_uniform in Hu. destruct (oi_uniform ix) as [l|] eqn:E; [|done].
  pose proof (whole_key_spec ix keys p Hix rank l E Hp Hr) as Hw. split; [done|]. intros Hm. unfold top_key_at. by rewrite Hm.
Qed.

(** ** Three keys, at work *)

Definition sample_keys : list bytes := [[x6b; x31]; [x6b; x33]; [x6b; x35]].

Lemma sample_keys_sortable : sortable sample_keys.
Proof.
  split; [|reflexivity|].
  - intros i j a b Hij Hi Hj. pose proof (get_at_lt _ _ _ Hi) as H1. pose proof (get_at_lt _ _ _ Hj) as H2. change (Zlen sample_keys) with 3 in *.
    assert (i = 0 \/ i = 1) as [-> | ->] by lia; [assert (j = 1 \/ j = 2) as [-> | ->] by lia|assert (j = 2) as -> by lia];
      cbn in Hi, Hj; injection Hi as <-; injection Hj as <-; reflexivity.
  - intros i k Hk. pose proof (get_at_lt _ _ _ Hk) as H1. change (Zlen sample_keys) with 3 in *.
    assert (i = 0 \/ i = 1 \/ i = 2) as [-> | [-> | ->]] by lia; cbn in Hk; injection Hk as <-; reflexivity.
Qed.

Lemma ord_index_roundtrip_witness : exists file ix, builder_finish (builder_of sample_keys) = Some file /\ open file 3 = Ok ix /\ Zlen file = 92.
Proof.
  destruct (ord_index_roundtrip sample_keys sample_keys_sortable) as (file & ix & p & _ & Hl & Ho & _ & _ & _ & Hb).
  exists file, ix. split; [apply Hb; reflexivity|]. split; [exact Ho|exact Hl].
Defined.

Lemma ord_seek_exact_witness : seek (built sample_keys) (get_at sample_keys) [x6b; x32] = 1 /\
  seek_exact_from (built sample_keys) (get_at sample_keys) 1 [x6b; x32] = (1, Some false).
Proof.
  pose proof (ord_seek_exact (built sample_keys) sample_keys (prefix_of sample_keys) [x6b; x32] 1 (built_indexes _ sample_keys_sortable) ltac:(lia)) as H.
  destruct (seek_exact (built sample_keys) (get_at sample_keys) [x6b; x32]) as [r e] eqn:E. destruct H as (_ & _ & H1 & H2).
  assert ((r, e) = (1, Some false)) as Ere by (rewrite <- E; vm_compute; reflexivity). injection Ere as -> ->. split; [exact H1|exact H2].
Defined.

Lemma ord_seek_window_witness : exists r e, seek_in_exact (built sample_keys) (get_at sample_keys) 1 2 [x6b; x34] = (r, e) /\
  lower_bound_in sample_keys 1 2 [x6b; x34] r.
Proof.
  destruct (ord_seek_window (built sample_keys) sample_keys (prefix_of sample_keys) [x6b; x34] 1 2 (built_indexes _ sample_keys_sortable)) as [H _].
  - vm_compute. split; [discriminate|reflexivity].
  - destruct (seek_in_exact (built sample_keys) (get_at sample_keys) 1 2 [x6b; x34]) as [r e]. exists r, e. split; [reflexivity|apply H].
Defined.

Lemma ord_whole_key_witness : whole_key_at (learn_prefix (built sample_keys) [x6b; x31]) 2 = Some [x6b; x35].
Proof.
  destruct (ord_whole_key (learn_prefix (built sample_keys) [x6b; x31]) sample_keys (prefix_of sample_keys) 2) as [H _].
  - apply learn_indexes; [exact (built_indexes _ sample_keys_sortable)|reflexivity].
  - vm_compute. reflexivity.
  - vm_compute. reflexivity.
  - lia.
  - rewrite H. reflexivity.
Defined.

(** The window told ahead of a seek is where the head search ends, not
    always where the answer lies: a tie can resolve past it. *)
Lemma window_before_ties : seek_exact_hint (built [[x61]; [x61; x00]]) (get_at [[x61]; [x61; x00]]) [x61; x00] = (Some (0, 0), (1, None)).
Proof. vm_compute. reflexivity. Qed.
