(* ===== verification/Superblock.v ===== *)
(** * The superblock page

    [src/src/blob.rs], lines 33 to 45 and 60 to 470, and [superblock] of
    [src/src/db.rs]: the two slots of a file's first page, which of them a
    reader takes, the extension a segment writes after them, and the byte
    ranges a reader will ask for. The machine is little-endian: the source
    refuses the other kind. [None] is an overflow the source panics on. *)

From stdpp Require Import sorting.
From S2P Require Import Prelude FlatIndex.

Definition FORMAT_MAGIC : Z := 0x5355504442000007.
Definition SUPER : Z := 4096.
Definition SB_SLOT : Z := 512.
Definition SUPER_BYTES : Z := 144.

Definition FNV_OFFSET : Z := 0xcbf29ce484222325.
Definition fnv_byte (h : Z) (b : byte) : Z := w64 (Z.lxor h (b2z b) * 0x1000000001b3).
Definition fnv64 (bs : bytes) : Z := fold_left fnv_byte bs FNV_OFFSET.

(** ** One slot *)

(** What the writer puts in a slot: sixteen words, the magic, the hash. *)
Definition superblock (fields : list Z) : option bytes :=
  out ← put_each (zeros SUPER_BYTES) 0 8 (map le64 fields);
  out ← put_range out 128 (le64 FORMAT_MAGIC);
  put_range out 136 (le64 (fnv64 (concat (map le64 (fields ++ [FORMAT_MAGIC]))))).

Record Super := mkSuper {
  sb_generation : Z; sb_timestamp : Z; sb_key_off : Z; sb_key_stored : Z; sb_key_uncompressed : Z;
  sb_blk_off : Z; sb_blk_stored : Z; sb_blk_uncompressed : Z; sb_high_water : Z; sb_log_off : Z; sb_log_len : Z
}.

Definition super_of (f : list Z) : Super :=
  let w := fun i => default 0 (get_at f i) in
  mkSuper (w 0) (w 2) (w 3) (w 4) (w 5) (w 6) (w 7) (w 8) (w 12) (w 13) (w 14).

Definition super_decode (buf : bytes) : option Super :=
  if Zlen buf <? SUPER_BYTES then None
  else
    f ← mapM (fun i => rd_u64 buf (i * 8)) (seqZ 0 16);
    magic ← rd_u64 buf 128;
    if negb (magic =? FORMAT_MAGIC) then None
    else
      h ← rd_u64 buf 136;
      if negb (h =? fnv64 (concat (map le64 (f ++ [FORMAT_MAGIC])))) then None else Some (super_of f).

(** ** Which slot *)

Definition newer (a b : option Super) : option Super :=
  match a, b with
  | Some x, Some y => Some (if sb_generation y <=? sb_generation x then x else y)
  | Some x, None => Some x
  | None, Some y => Some y
  | None, None => None
  end.

Definition pick_super (head : bytes) (object_len : Z) : result Super :=
  if object_len <? SUPER then Err "file too short to hold a superblock"
  else
    match get_range head 0 SUPER_BYTES, get_range head SB_SLOT (SB_SLOT + SUPER_BYTES) with
    | Some a, Some b =>
        match newer (super_decode a) (super_decode b) with
        | None => Err "no valid supdb checkpoint"
        | Some sb =>
            if object_len <? sb_high_water sb then Err "the superblock describes more bytes than the object holds: it is truncated"
            else if negb (sb_key_stored sb =? sb_key_uncompressed sb) || negb (sb_blk_stored sb =? sb_blk_uncompressed sb)
            then Err "this file's index sections are compressed"
            else Ok sb
        end
    | _, _ => Err "short"
    end.

Definition log_probe_range (sb : Super) : option (Z * Z) :=
  if 4 <=? sb_log_len sb then Some (sb_log_off sb, 4) else None.

Definition open_probe : Z := SUPER.

(** ** Ranges *)

Definition range_le (a b : Z * Z) : Prop := fst a < fst b \/ fst a = fst b /\ snd a <= snd b.
#[export] Instance range_le_dec a b : Decision (range_le a b).
Proof. unfold range_le. solve_decision. Defined.

(** The merge's loop; [out] is what it kept, the last first. *)
Definition merge_step (out : list (Z * Z)) (r : Z * Z) : option (list (Z * Z)) :=
  match out with
  | [] => Some [r]
  | (o, l) :: out' =>
      en ← cadd o l;
      if fst r <=? en then
        en' ← cadd (fst r) (snd r);
        Some ((o, Z.max en' en - o) :: out')
      else Some (r :: out)
  end.

Definition merge_ranges (v : list (Z * Z)) : option (list (Z * Z)) :=
  out ← ofold merge_step (merge_sort range_le (List.filter (fun r => 0 <? snd r) v)) [];
  Some (rev out).

Definition open_ranges (head : bytes) (object_len : Z) : option (result (list (Z * Z))) :=
  match pick_super head object_len with
  | Err e => Some (Err e)
  | Ok sb =>
      let v := [(0, open_probe); (sb_key_off sb, sb_key_stored sb); (sb_blk_off sb, sb_blk_stored sb)] in
      let v := match log_probe_range sb with Some r => v ++ [r] | None => v end in
      v ← merge_ranges v; Some (Ok v)
  end.

(** A byte source ([Bytes]): its length, and the bytes of a range or none
    where the read fails. Whether a range is lent or copied does not change
    its bytes. *)
Record Source := mkSource { src_len : Z; src_read : Z -> Z -> option bytes }.

(** A source whose object is at hand. *)
Definition bytes_source (b : bytes) : Source := mkSource (Zlen b) (fun off len => get_range b off (off + len)).

Definition read_at (src : Source) (off len : Z) : result bytes := ok_or (src_read src off len) "short".

(** What both opens check before either reads a section. *)
Definition open_head (src : Source) : result Super :=
  if src_len src <? SUPER then Err "file too short to hold a superblock"
  else
    let* head := read_at src 0 open_probe in
    let* sb := pick_super head (src_len src) in
    match log_probe_range sb with
    | None => Ok sb
    | Some (off, len) =>
        let* word := read_at src off len in
        if beqb word (zeros 4) then Ok sb
        else Err "this store's redo log holds records newer than its index"
    end.

(** ** The extension *)

Definition SX_OFF : Z := 1024.
Definition SX_MAGIC : Z := 0x5355504442535831.
Definition SX_WORDS : Z := 20.
Definition SX_BYTES : Z := SX_WORDS * 8 + HEADER + 8.

Record SuperExt := mkSuperExt {
  sx_fence : Z * Z;
  sx_dir : Z * Z;
  sx_hash : Z * Z;
  sx_row : Z * Z;
  sx_table_copy : option (Z * Z);
  sx_fence_copy : option (Z * Z * Z);
  sx_row_copy : option Z;
  sx_dir_copy : option (Z * Z);
  sx_payload : option Z;
  sx_header : bytes
}.

Definition sx_words (x : SuperExt) (generation : Z) : list Z :=
  let tc := default (0, 0) (sx_table_copy x) in
  let fc := default (0, 0, 0) (sx_fence_copy x) in
  [SX_MAGIC; generation; fst (sx_fence x); snd (sx_fence x); fst (sx_dir x); snd (sx_dir x);
   fst (sx_hash x); snd (sx_hash x); fst (sx_row x); snd (sx_row x); fst tc; snd tc; fst (fst fc); snd (fst fc); snd fc;
   default 0 (sx_row_copy x); default 0 (fst <$> sx_dir_copy x); default 0 (snd <$> sx_dir_copy x);
   default 0 (sx_payload x); 0].

Definition encode_super_ext (x : SuperExt) (generation : Z) : bytes :=
  let out := concat (map le64 (sx_words x generation)) ++ sx_header x in
  out ++ le64 (fnv64 out).

Definition some_if {A} (c : bool) (a : A) : option A := if c then Some a else None.

Definition decode_super_ext (page : bytes) (generation : Z) : option SuperExt :=
  buf ← get_range page SX_OFF (SX_OFF + SX_BYTES);
  w ← mapM (fun i => rd_u64 buf (i * 8)) (seqZ 0 SX_WORDS);
  let w := fun i => default 0 (get_at w i) in
  if negb (w 0 =? SX_MAGIC) || negb (w 1 =? generation) then None
  else
    body ← get_range buf 0 (SX_BYTES - 8);
    h ← rd_u64 buf (SX_BYTES - 8);
    if negb (fnv64 body =? h) then None
    else
      header ← get_range buf (SX_WORDS * 8) (SX_WORDS * 8 + HEADER);
      Some (mkSuperExt (w 2, w 3) (w 4, w 5) (w 6, w 7) (w 8, w 9)
        (some_if (0 <? w 11) (w 10, w 11))
        (some_if (0 <? w 13) (w 12, w 13, w32 (w 14)))
        (some_if (0 <? w 15) (w 15))
        (some_if (0 <? w 16) (w 16, w32 (w 17)))
        (some_if (0 <? w 18) (w 18)) header).

(** ** What a slot says reads back *)

Definition u64s (l : list Z) : Prop := Forall (fun w => 0 <= w < U64) l.

Lemma fnv_range bs h : 0 <= h < U64 -> 0 <= fold_left fnv_byte bs h < U64.
Proof. revert h. induction bs as [|b bs IH]; intros h Hh; [done|]. cbn. apply IH. by apply Z.mod_pos_bound. Qed.

Lemma fnv64_range bs : 0 <= fnv64 bs < U64.
Proof. by apply fnv_range. Qed.

(** Reading words laid end to end. *)
Lemma mapM_words pre ws post : u64s ws -> mapM (fun i => rd_u64 (pre ++ concat (map le64 ws) ++ post) (Zlen pre + i * 8)) (seqZ 0 (Zlen ws)) = Some ws.
Proof.
  intros Hw. apply mapM_Some, Forall2_same_length_lookup. split; [rewrite length_seqZ; unfold Zlen; lia|].
  intros i x y Hx Hy. apply lookup_seqZ in Hx as [-> Hi]. apply (rd_u64_table pre post ws (Z.of_nat i) y); [| |lia].
  - apply get_at_Some. rewrite Nat2Z.id. split; [lia|done].
  - by apply (Forall_lookup_1 _ _ _ _ Hw Hy).
Qed.

(** The slot's three parts. *)
Definition slot_bytes (f : list Z) : bytes :=
  concat (map le64 f) ++ le64 FORMAT_MAGIC ++ le64 (fnv64 (concat (map le64 (f ++ [FORMAT_MAGIC])))).

Lemma Zlen_slot f : Zlen f = 16 -> Zlen (slot_bytes f) = SUPER_BYTES.
Proof. intros Hf. unfold slot_bytes, SUPER_BYTES. autorewrite with zlen. lia. Qed.

Lemma superblock_bytes f : Zlen f = 16 -> superblock f = Some (slot_bytes f).
Proof.
  intros Hf. unfold superblock. change (zeros SUPER_BYTES) with ([] ++ zeros 128 ++ zeros 16).
  rewrite (put_each_app [] (zeros 128) (zeros 16) 0 8); [|done|apply Forall_map, Forall_forall; intros; apply Zlen_le64|].
  2: { rewrite Zlen_map, Hf. done. }
  cbn [option_bind mbind app]. change (zeros 16) with (zeros 8 ++ zeros 8).
  rewrite put_range_skip by (autorewrite with zlen; lia). rewrite put_range_here' by (autorewrite with zlen; lia).
  cbn [fmap option_fmap option_map option_bind mbind].
  rewrite put_range_skip by (autorewrite with zlen; lia). rewrite put_range_skip by (autorewrite with zlen; lia).
  rewrite put_range_end by (autorewrite with zlen; lia). done.
Qed.

Lemma decode_slot f : Zlen f = 16 -> u64s f -> super_decode (slot_bytes f) = Some (super_of f).
Proof.
  intros Hf Hw. unfold super_decode. rewrite Zlen_slot by done. rewrite Z.ltb_irrefl.
  pose proof (mapM_words [] f (le64 FORMAT_MAGIC ++ le64 (fnv64 (concat (map le64 (f ++ [FORMAT_MAGIC]))))) Hw) as Hm.
  rewrite Hf in Hm. cbn [app] in Hm. rewrite Zlen_nil in Hm. fold (slot_bytes f) in Hm.
  rewrite (mapM_ext _ (fun i => rd_u64 (slot_bytes f) (0 + i * 8))) by (intros i; by rewrite Z.add_0_l). rewrite Hm. cbn [option_bind mbind].
  pose proof (fnv64_range (concat (map le64 (f ++ [FORMAT_MAGIC])))) as Hr.
  assert (Zlen (concat (map le64 f)) = 128) as Hl by (autorewrite with zlen; lia).
  assert (rd_u64 (slot_bytes f) 128 = Some FORMAT_MAGIC) as -> by (apply rd_u64_app; [done|unfold FORMAT_MAGIC, U64; lia]).
  cbn [option_bind mbind]. rewrite Z.eqb_refl. cbn [negb].
  assert (rd_u64 (slot_bytes f) 136 = Some (fnv64 (concat (map le64 (f ++ [FORMAT_MAGIC]))))) as ->.
  { unfold slot_bytes. rewrite !rd_u64_skip by (rewrite ?Zlen_le64, Hl; lia). apply rd_u64_end; [rewrite Zlen_le64, Hl; lia|done]. }
  cbn [option_bind mbind]. by rewrite Z.eqb_refl.
Qed.

(** A page whose two slots hold [a] and [b]. *)
Definition page_slots (page a b : bytes) : Prop :=
  get_range page 0 SUPER_BYTES = Some a /\ get_range page SB_SLOT (SB_SLOT + SUPER_BYTES) = Some b.

(** What a reader takes from a superblock it picked. *)
Definition openable (sb : Super) (object_len : Z) : Prop :=
  sb_high_water sb <= object_len /\ sb_key_stored sb = sb_key_uncompressed sb /\ sb_blk_stored sb = sb_blk_uncompressed sb.

Lemma pick_of page a b object_len sb : page_slots page a b -> SUPER <= object_len ->
  newer (super_decode a) (super_decode b) = Some sb -> openable sb object_len -> pick_super page object_len = Ok sb.
Proof.
  intros [Ha Hb] Hl Hn (Hw & Hk & Hbk). unfold pick_super. rewrite (proj2 (Z.ltb_ge _ _)) by lia.
  rewrite Ha, Hb, Hn, (proj2 (Z.ltb_ge _ _)) by lia. by rewrite Hk, Hbk, !Z.eqb_refl.
Qed.

(** Words read one by one are the bytes they were read from. *)
Lemma words_bytes buf k n ws : mapM (fun i => rd_u64 buf (i * 8)) (seqZ k (Z.of_nat n)) = Some ws -> 0 <= k -> k * 8 <= Zlen buf ->
  Zlen ws = Z.of_nat n /\ u64s ws /\ get_range buf (k * 8) ((k + Z.of_nat n) * 8) = Some (concat (map le64 ws)).
Proof.
  revert k ws. induction n as [|n IH]; intros k ws.
  - intros [= <-] H0 H1. split; [done|]. split; [by apply Forall_nil|]. rewrite Z.add_0_r. destruct (get_range_is_Some buf (k * 8) (k * 8)) as [r Hr]; [lia..|].
    rewrite Hr. pose proof (get_range_len _ _ _ _ Hr). f_equal. apply Zlen_zero_nil. lia.
  - rewrite seqZ_cons by lia. replace (Z.succ k) with (k + 1) by lia. replace (Z.pred (Z.of_nat (S n))) with (Z.of_nat n) by lia. intros Hm H0 H1. cbn [mapM] in Hm.
    destruct (rd_u64 buf (k * 8)) as [w|] eqn:Ew; [|done]. cbn [mbind option_bind] in Hm. destruct (mapM _ (seqZ (k + 1) _)) as [ws'|] eqn:E; [|done].
    cbn [mbind option_bind] in Hm. injection Hm as <-. pose proof (rd_u64_bytes _ _ _ Ew) as Hw. pose proof (proj1 (get_range_Some _ _ _ _) Hw) as (_ & Hin & _).
    destruct (IH (k + 1) ws' E) as (Hl & Hu & Hr); [lia|lia|].
    split; [rewrite Zlen_cons; lia|]. split; [apply Forall_cons; split; [by eapply rd_u64_range|done]|]. cbn [map concat].
    apply (get_range_join _ _ (k * 8 + 8)); [exact Hw|]. rewrite <- Hr. f_equal; lia.
Qed.

(** What decodes is what the writer makes of some sixteen words: there is
    nothing else the magic and the hash let by. *)
Lemma decode_whole buf sb : Zlen buf = SUPER_BYTES -> super_decode buf = Some sb ->
  exists g, Zlen g = 16 /\ u64s g /\ buf = slot_bytes g /\ sb = super_of g.
Proof.
  unfold super_decode. intros Hl. rewrite Hl, Z.ltb_irrefl. destruct (mapM _ _) as [g|] eqn:Eg; [|done]. cbn [mbind option_bind].
  destruct (words_bytes buf 0 16 g Eg) as (Hg & Hu & Hr); [done|pose proof (Zlen_nonneg buf); lia|].
  destruct (rd_u64 buf 128) as [m|] eqn:Em; [|done]. cbn [mbind option_bind]. destruct (Z.eqb_spec m FORMAT_MAGIC) as [->|]; [|done]. cbn [negb].
  destruct (rd_u64 buf 136) as [h|] eqn:Eh; [|done]. cbn [mbind option_bind]. destruct (Z.eqb_spec h (fnv64 (concat (map le64 (g ++ [FORMAT_MAGIC]))))) as [->|]; [|done].
  cbn [negb]. intros [= <-]. exists g. split; [done|]. split; [done|]. split; [|done].
  apply rd_u64_bytes in Em. apply rd_u64_bytes in Eh. pose proof (get_range_join _ _ _ _ _ _ Em Eh) as Hj.
  pose proof (get_range_join _ _ _ _ _ _ Hr Hj) as Ha. change (get_range buf 0 SUPER_BYTES = Some (slot_bytes g)) in Ha. rewrite <- Hl, get_range_all in Ha. by injection Ha.
Qed.

(** C32: a superblock the writer encoded opens from its page, in either slot
    and whatever bytes the other slot holds -- torn, foreign, or a slot of an
    older generation -- unless they are, byte for byte, the slot the writer
    makes of some fields, hash and all, of no older a generation: nothing else
    decodes. So a publish that tears a slot leaves the state before it. What
    opens is field for field what was written, where the object is a page or
    longer and as long as the fields say, and they say the index sections are
    stored plain. *)
Theorem superblock_survives f other page object_len (first : bool) :
  Zlen f = 16 -> u64s f -> openable (super_of f) object_len -> SUPER <= object_len ->
  (if first then page_slots page (slot_bytes f) other else page_slots page other (slot_bytes f)) ->
  (forall g, Zlen g = 16 -> u64s g -> other = slot_bytes g -> sb_generation (super_of g) < sb_generation (super_of f)) ->
  superblock f = Some (slot_bytes f) /\ pick_super page object_len = Ok (super_of f).
Proof.
  intros Hf Hw Ho Hl Hp Hother. split; [by apply superblock_bytes|].
  assert (match super_decode other with Some y => sb_generation y < sb_generation (super_of f) | None => True end) as Hold.
  { destruct (super_decode other) as [y|] eqn:E; [|done]. assert (Zlen other = SUPER_BYTES) as Hlo.
    { destruct first, Hp as [Ha Hb]; [apply get_range_len in Hb|apply get_range_len in Ha]; lia. }
    destruct (decode_whole other y Hlo E) as (g & H1 & H2 & H3 & ->). by apply Hother. }
  clear Hother.
  destruct first; eapply pick_of; try done; rewrite decode_slot by done;
    destruct (super_decode other) as [y|]; cbn [newer]; try done.
  - by rewrite (proj2 (Z.leb_le _ _)) by lia.
  - by rewrite (proj2 (Z.leb_gt _ _)) by lia.
Qed.

Definition sample_fields : list Z := [7; 7; 99; 4096; 300; 300; 4400; 16; 16; 0; 0; 0; 4416; 0; 0; 7].
Definition sample_page : bytes := slot_bytes sample_fields ++ zeros (SB_SLOT - SUPER_BYTES) ++ zeros 100 ++ [x01] ++ zeros (SUPER - SB_SLOT - 101).

Lemma superblock_survives_witness : exists sb, pick_super sample_page 4416 = Ok sb /\ sb_generation sb = 7 /\ sb_key_off sb = 4096.
Proof.
  exists (super_of sample_fields). split; [|done].
  refine (proj2 (superblock_survives sample_fields (zeros 100 ++ [x01] ++ zeros 43) sample_page 4416 true eq_refl _ _ _ _ _)).
  - repeat (apply Forall_cons; split; [unfold U64; lia|]). by apply Forall_nil.
  - by vm_compute.
  - unfold SUPER. lia.
  - split; by vm_compute.
  - intros g Hg Hu E. exfalso. assert (super_decode (slot_bytes g) = Some (super_of g)) as H by (by apply decode_slot). rewrite <- E in H. by vm_compute in H.
Defined.

(** ** The extension reads back *)

Definition pos_if {A} (f : A -> Prop) (o : option A) : Prop := match o with Some a => f a | None => True end.

(** What a writer puts in an extension: words of 64 bits, sums of 32, a whole
    header, and nothing optional that reads as absent. *)
Record sx_ok (x : SuperExt) : Prop := {
  sx_ok_words : forall g, 0 <= g < U64 -> u64s (sx_words x g);
  sx_ok_header : Zlen (sx_header x) = HEADER;
  sx_ok_table : pos_if (fun t => 0 < snd t) (sx_table_copy x);
  sx_ok_fence : pos_if (fun t => 0 < snd (fst t) /\ 0 <= snd t < U32) (sx_fence_copy x);
  sx_ok_row : pos_if (fun r => 0 < r) (sx_row_copy x);
  sx_ok_dir : pos_if (fun d => 0 < fst d /\ 0 <= snd d < U32) (sx_dir_copy x);
  sx_ok_payload : pos_if (fun p => 0 < p) (sx_payload x)
}.

Lemma Zlen_sx_words x g : Zlen (sx_words x g) = SX_WORDS.
Proof. done. Qed.

Lemma Zlen_sx x g : Zlen (sx_header x) = HEADER -> Zlen (encode_super_ext x g) = SX_BYTES.
Proof.
  intros Hh. unfold encode_super_ext. cbv zeta. rewrite !Zlen_app, Zlen_concat_le64, Zlen_sx_words, Hh, Zlen_le64. done.
Qed.

Lemma some_if_pair (t : option (Z * Z)) : pos_if (fun t => 0 < snd t) t ->
  some_if (0 <? snd (default (0, 0) t)) (fst (default (0, 0) t), snd (default (0, 0) t)) = t.
Proof. destruct t as [[a b]|]; [|done]. cbn. intros H. by rewrite (proj2 (Z.ltb_lt _ _)). Qed.

Lemma some_if_fence (t : option (Z * Z * Z)) : pos_if (fun t => 0 < snd (fst t) /\ 0 <= snd t < U32) t ->
  let d := default (0, 0, 0) t in some_if (0 <? snd (fst d)) (fst (fst d), snd (fst d), w32 (snd d)) = t.
Proof.
  destruct t as [[[a b] c]|]; [|done]. cbn. intros [H Hc]. rewrite (proj2 (Z.ltb_lt _ _)) by done. unfold w32. by rewrite Z.mod_small.
Qed.

Lemma some_if_one (t : option Z) : pos_if (fun t => 0 < t) t -> some_if (0 <? default 0 t) (default 0 t) = t.
Proof. destruct t as [a|]; [|done]. cbn. intros H. by rewrite (proj2 (Z.ltb_lt _ _)). Qed.

Lemma some_if_dir (t : option (Z * Z)) : pos_if (fun d => 0 < fst d /\ 0 <= snd d < U32) t ->
  some_if (0 <? default 0 (fst <$> t)) (default 0 (fst <$> t), w32 (default 0 (snd <$> t))) = t.
Proof.
  destruct t as [[a b]|]; [|done]. cbn. intros [H Hc]. rewrite (proj2 (Z.ltb_lt _ _)) by done. unfold w32. by rewrite Z.mod_small.
Qed.

Lemma sx_read x g : sx_ok x -> 0 <= g < U64 ->
  mapM (fun i => rd_u64 (encode_super_ext x g) (i * 8)) (seqZ 0 SX_WORDS) = Some (sx_words x g).
Proof.
  intros Hx Hg. pose proof (mapM_words [] (sx_words x g) (sx_header x ++ le64 (fnv64 (concat (map le64 (sx_words x g)) ++ sx_header x)))
    (sx_ok_words x Hx g Hg)) as Hm.
  rewrite Zlen_sx_words, Zlen_nil in Hm. cbn [app] in Hm.
  rewrite <- Hm. unfold encode_super_ext. cbv zeta. rewrite <- app_assoc. apply mapM_ext. intros i. by rewrite Z.add_0_l.
Qed.

Lemma decode_sx x g page : sx_ok x -> 0 <= g < U64 -> get_range page SX_OFF (SX_OFF + SX_BYTES) = Some (encode_super_ext x g) ->
  decode_super_ext page g = Some x.
Proof.
  intros Hx Hg Hp. unfold decode_super_ext. rewrite Hp. cbn [option_bind mbind]. rewrite sx_read by done. cbn [option_bind mbind].
  pose proof (sx_ok_header x Hx) as Hh. set (body := concat (map le64 (sx_words x g)) ++ sx_header x).
  assert (Zlen (concat (map le64 (sx_words x g))) = SX_WORDS * 8) as Hw by (rewrite Zlen_concat_le64, Zlen_sx_words; done).
  assert (Zlen body = SX_BYTES - 8) as Hb by (unfold body; rewrite Zlen_app, Hw, Hh; done).
  assert (encode_super_ext x g = body ++ le64 (fnv64 body)) as He by done.
  assert (get_range (encode_super_ext x g) 0 (SX_BYTES - 8) = Some body) as ->.
  { rewrite He. apply get_range_here; [done|]. by rewrite Hb. }
  assert (rd_u64 (encode_super_ext x g) (SX_BYTES - 8) = Some (fnv64 body)) as ->.
  { rewrite He, rd_u64_skip by lia. apply rd_u64_end; [lia|apply fnv64_range]. }
  assert (get_range (encode_super_ext x g) (SX_WORDS * 8) (SX_WORDS * 8 + HEADER) = Some (sx_header x)) as ->.
  { rewrite He. unfold body. rewrite <- app_assoc. apply get_range_app; [by rewrite Hw|by rewrite Hw, Hh]. }
  cbn [option_bind mbind]. rewrite Z.eqb_refl. cbn [negb].
  destruct Hx as [_ _ Ht Hf Hr Hd Hpay]. unfold sx_words.
  repeat match goal with |- context [get_at ?l ?i] => 
    let v := eval lazy [get_at Zlen length Z.of_nat Z.leb Z.ltb Z.compare Pos.compare Pos.compare_cont Z.to_nat Pos.to_nat Pos.iter_op
      lookup list_lookup Nat.add andb Pos.of_succ_nat Pos.succ] in (get_at l i) in change (get_at l i) with v end.
  repeat match goal with |- context [default 0 (Some ?v)] => change (default 0 (Some v)) with v end.
  rewrite !Z.eqb_refl. cbn [negb orb]. f_equal.
  rewrite some_if_pair, some_if_fence, some_if_one, some_if_dir, some_if_one by done. by destruct x as [[] [] [] []].
Qed.

(** The extension a segment writes after its slots reads back as written,
    for its generation: every region's place, every optional copy present or
    absent as it was, and the section header byte for byte; for any other
    generation it reads as none. *)
Theorem super_ext_roundtrip x g page : sx_ok x -> 0 <= g < U64 ->
  get_range page SX_OFF (SX_OFF + SX_BYTES) = Some (encode_super_ext x g) ->
  Zlen (encode_super_ext x g) = SX_BYTES /\ decode_super_ext page g = Some x /\
  forall g', g' <> g -> decode_super_ext page g' = None.
Proof.
  intros Hx Hg Hp. split; [by apply Zlen_sx, sx_ok_header|]. split; [by apply decode_sx|].
  intros g' Hne. unfold decode_super_ext. rewrite Hp. cbn [option_bind mbind]. rewrite sx_read by done. cbn [option_bind mbind].
  change (default 0 (get_at (sx_words x g) 1)) with g. by rewrite (proj2 (Z.eqb_neq g g')), orb_true_r by done.
Qed.

Definition sample_super_ext : SuperExt :=
  mkSuperExt (5000, 40) (5040, 8) (5048, 128) (5200, 4) None (Some (4112, 40, 12345)) (Some 4104) None (Some 77) (zeros HEADER).

Lemma sample_ext_ok : sx_ok sample_super_ext.
Proof.
  split; [|done|done|by vm_compute|done|done|done].
  intros g Hg. repeat (apply Forall_cons; split; [cbn; unfold SX_MAGIC, U64 in *; lia|]). by apply Forall_nil.
Qed.

Lemma super_ext_roundtrip_witness :
  let page := zeros 1024 ++ encode_super_ext sample_super_ext 9 ++ zeros 2712 in
  decode_super_ext page 9 = Some sample_super_ext /\ decode_super_ext page 8 = None.
Proof.
  intros page. destruct (super_ext_roundtrip sample_super_ext 9 page sample_ext_ok) as (_ & Hd & Hn); [unfold U64; lia|by vm_compute|].
  split; [exact Hd|by apply Hn].
Defined.

(** ** Ranges: the merge names the same bytes *)

Definition in_range (x : Z) (r : Z * Z) : Prop := fst r <= x < fst r + snd r.
Definition covered (x : Z) (v : list (Z * Z)) : Prop := exists r, In r v /\ in_range x r.
Definition range_ok (r : Z * Z) : Prop := 0 <= fst r /\ 0 <= snd r /\ fst r + snd r < U64.

(** What a plan is: no empty range, in order, with a gap between any two. *)
Fixpoint gapped (v : list (Z * Z)) : Prop :=
  match v with
  | [] => True
  | r :: v => 0 < snd r /\ match v with [] => True | s :: _ => fst r + snd r < fst s end /\ gapped v
  end.

#[local] Instance range_le_total : Total range_le.
Proof. intros [a b] [c d]. unfold range_le. cbn. lia. Qed.
#[local] Instance range_le_trans : Transitive range_le.
Proof. intros [a b] [c d] [e f]. unfold range_le. cbn. lia. Qed.

(** What the loop keeps, last first: gapped, and the last begins no later than
    what is still to come. *)
Definition kept (out : list (Z * Z)) : Prop := gapped (rev out) /\ Forall range_ok out.

Lemma gapped_app v r : gapped (v ++ [r]) <-> gapped v /\ 0 < snd r /\ (match last v with Some s => fst s + snd s < fst r | None => True end).
Proof.
  induction v as [|s v IH]; cbn [app gapped last]; [naive_solver|]. rewrite IH. destruct v as [|t v]; cbn [app last]; [naive_solver|].
  destruct (last (t :: v)); naive_solver.
Qed.

Lemma last_rev {A} (x : A) l : last (rev (x :: l)) = Some x.
Proof. cbn. by rewrite last_snoc. Qed.

Lemma covered_cons x r v : covered x (r :: v) <-> in_range x r \/ covered x v.
Proof. unfold covered. cbn. naive_solver. Qed.

(** One range merged in. *)
Lemma merge_step_kept out r : kept out -> range_ok r -> 0 < snd r ->
  match out with s :: _ => fst s <= fst r | [] => True end ->
  exists out', merge_step out r = Some out' /\ kept out' /\ (match out' with s :: _ => fst s <= fst r | [] => True end) /\
    forall x, covered x out' <-> covered x out \/ in_range x r.
Proof.
  intros [Hg Ho] Hr Hpos Hle. unfold merge_step. destruct out as [|[o l] out].
  - exists [r]. split; [done|]. split; [split; [done|by apply Forall_singleton]|]. split; [lia|].
    intros x. rewrite covered_cons. tauto.
  - apply Forall_cons in Ho as [Hol Ho]. unfold range_ok in *. cbn [fst snd] in *.
    cbn [rev] in Hg. apply gapped_app in Hg as (Hg & Hl & Hlast). cbn [fst snd] in *.
    rewrite (proj2 (cadd_Some o l (o + l))) by lia. cbn [option_bind mbind]. destruct (Z.leb_spec (fst r) (o + l)) as [Hin|Hout].
    + rewrite (proj2 (cadd_Some _ _ (fst r + snd r))) by lia. cbn [option_bind mbind].
      eexists. split; [done|]. split; [|split; [cbn; lia|]].
      * split; [cbn [rev]; apply gapped_app; cbn [fst snd]; split; [done|]; split; [lia|done]|].
        apply Forall_cons. split; [unfold range_ok; cbn; lia|done].
      * intros x. rewrite !covered_cons. unfold in_range. cbn [fst snd].
        assert (o <= x < o + (Z.max (fst r + snd r) (o + l) - o) <-> o <= x < o + l \/ fst r <= x < fst r + snd r) as -> by lia. tauto.
    + eexists. split; [done|]. split; [|split; [lia|]].
      * split; [|by repeat (apply Forall_cons; split; [unfold range_ok; cbn; lia|])].
        cbn [rev]. apply gapped_app. split; [apply gapped_app; cbn [fst snd]; done|]. split; [done|]. rewrite last_snoc. cbn. lia.
      * intros x. rewrite !(covered_cons x r). tauto.
Qed.

Lemma merge_all_kept l out : kept out -> StronglySorted range_le l -> Forall range_ok l -> Forall (fun r => 0 < snd r) l ->
  match out with s :: _ => Forall (fun r => fst s <= fst r) l | [] => True end ->
  exists out', ofold merge_step l out = Some out' /\ kept out' /\ forall x, covered x out' <-> covered x out \/ covered x l.
Proof.
  revert out. induction l as [|r l IH]; intros out Hk Hs Hok Hpos Hle.
  - exists out. split; [done|]. split; [done|]. intros x. unfold covered. cbn. naive_solver.
  - apply StronglySorted_inv in Hs as [Hs Hall]. apply Forall_cons in Hok as [Hr Hok]. apply Forall_cons in Hpos as [Hp Hpos].
    destruct (merge_step_kept out r Hk Hr Hp) as (out1 & Hm & Hk1 & Hle1 & Hc1).
    { destruct out; [done|]. by apply Forall_cons in Hle as [? _]. }
    cbn [ofold]. rewrite Hm. cbn [option_bind mbind]. destruct (IH out1 Hk1 Hs Hok Hpos) as (out2 & Hm2 & Hk2 & Hc2).
    { destruct out1 as [|s out1]; [done|]. eapply Forall_impl; [exact Hall|]. intros [a b]. unfold range_le. cbn. lia. }
    exists out2. split; [done|]. split; [done|]. intros x. rewrite Hc2, Hc1, covered_cons. tauto.
Qed.

Lemma merge_ranges_kept v : Forall range_ok v ->
  exists out, merge_ranges v = Some out /\ gapped out /\ Forall range_ok out /\ forall x, covered x out <-> covered x v.
Proof.
  intros Hv. unfold merge_ranges. set (f := List.filter _ v).
  pose proof (merge_sort_Permutation range_le f) as Hp.
  assert (Forall range_ok f /\ Forall (fun r => 0 < snd r) f) as [Hok Hpos].
  { split; apply List.Forall_forall; intros r [Hin Hr]%List.filter_In; [|by apply Z.ltb_lt].
    rewrite List.Forall_forall in Hv. by apply Hv. }
  destruct (merge_all_kept (merge_sort range_le f) []) as (out & Hm & [Hg Ho] & Hc); [split; [done|by apply Forall_nil]|apply StronglySorted_merge_sort; apply _| | |done|].
  { by rewrite Hp. }
  { by rewrite Hp. }
  rewrite Hm. cbn [option_bind mbind]. exists (rev out). split; [done|]. split; [done|]. split; [by apply Forall_rev|].
  intros x. transitivity (covered x out); [unfold covered; by setoid_rewrite <- in_rev|]. rewrite Hc. unfold covered. split.
  - intros [(r & [] & _)|(r & Hin & Hx)]. apply (Permutation_in _ Hp), List.filter_In in Hin as [Hin _]. eauto.
  - intros (r & Hin & Hx). right. exists r. split; [|done]. apply (Permutation_in _ (Permutation_sym Hp)), List.filter_In.
    split; [done|]. apply Z.ltb_lt. unfold in_range in Hx. lia.
Qed.

(** The plan of an open asks for exactly the bytes an open reads: the
    superblock page, the key section and the block table, and the log's first
    word where there is a log; and it asks for each once, in order, no two of
    its ranges touching and none empty. An object an open would refuse is
    refused with the same error. *)
Theorem open_ranges_cover head object_len :
  match pick_super head object_len with
  | Err e => open_ranges head object_len = Some (Err e)
  | Ok sb =>
      range_ok (sb_key_off sb, sb_key_stored sb) -> range_ok (sb_blk_off sb, sb_blk_stored sb) -> range_ok (sb_log_off sb, 4) ->
      exists out, open_ranges head object_len = Some (Ok out) /\ gapped out /\
        forall x, covered x out <->
          0 <= x < SUPER \/ sb_key_off sb <= x < sb_key_off sb + sb_key_stored sb \/
          sb_blk_off sb <= x < sb_blk_off sb + sb_blk_stored sb \/ (4 <= sb_log_len sb /\ sb_log_off sb <= x < sb_log_off sb + 4)
  end.
Proof.
  unfold open_ranges. destruct (pick_super head object_len) as [sb|e]; [|done]. intros Hk Hb Hl. unfold log_probe_range.
  assert (range_ok (0, open_probe)) as H0 by (unfold range_ok, open_probe, SUPER, U64; cbn; lia).
  destruct (Z.leb_spec 4 (sb_log_len sb)) as [H4|H4].
  - destruct (merge_ranges_kept ([(0, open_probe); (sb_key_off sb, sb_key_stored sb); (sb_blk_off sb, sb_blk_stored sb)] ++ [(sb_log_off sb, 4)]))
      as (out & Hm & Hg & _ & Hc); [repeat (apply Forall_cons; split; [done|]); by apply Forall_nil|]. rewrite Hm. exists out. split; [done|]. split; [done|].
    intros x. rewrite Hc. cbn [app]. rewrite !covered_cons. unfold in_range, covered, open_probe. cbn. naive_solver.
  - destruct (merge_ranges_kept [(0, open_probe); (sb_key_off sb, sb_key_stored sb); (sb_blk_off sb, sb_blk_stored sb)])
      as (out & Hm & Hg & _ & Hc); [repeat (apply Forall_cons; split; [done|]); by apply Forall_nil|]. rewrite Hm. exists out. split; [done|]. split; [done|].
    intros x. rewrite Hc, !covered_cons. unfold in_range, covered, open_probe. cbn. naive_solver lia.
Qed.

Lemma open_ranges_cover_witness :
  exists out, open_ranges sample_page 4416 = Some (Ok out) /\ gapped out /\ covered 4400 out /\ ~ covered 4397 out.
Proof.
  assert (pick_super sample_page 4416 = Ok (super_of sample_fields)) as E by (vm_compute; reflexivity).
  pose proof (open_ranges_cover sample_page 4416) as H. rewrite E in H. clear E.
  assert (range_ok (4096, 300) /\ range_ok (4400, 16) /\ range_ok (0, 4)) as (H1 & H2 & H3) by (unfold range_ok, U64; cbn; lia).
  destruct (H H1 H2 H3) as (out & Ho & Hg & Hc).
  exists out. split; [exact Ho|]. split; [exact Hg|]. rewrite !Hc. unfold SUPER.
  assert (super_of sample_fields = mkSuper 7 99 4096 300 300 4400 16 16 4416 0 0) as -> by (vm_compute; reflexivity). cbn. lia.
Defined.
