(* ===== verification/Blob.v ===== *)
(** * The reader of a segment

    [src/src/blob.rs], [Blob], lines 40 to 126 and 460 to 2105: an object
    opened over a byte source and read by key and by rank, in place. A
    callback that visits values is the list of what it was handed, and
    [read_exts] is given the callback itself as well, which may read again
    through the reader it is called from. What the
    reader remembers between reads, which chunks it has checked and what the
    thread's buffer holds decoded, is the state of every read; a read that
    panics has none. The key section's and the table's addresses, which their
    records' alignment is judged at, are parameters, as are the LZ4 decoder
    and the process-wide [CHECKSUMS] switch. The hints to the kernel
    ([prefetch_ranks] and its like) move no byte and are left out. *)

From S2P Require Import Prelude State Varint Runs Crc Chunks BlockTable Records HashTable FlatIndex FlatRead Superblock.

(** ** Counting from the extents alone *)

Fixpoint fixed_count_go (exts : list Ext) (stride width total : Z) : option Z :=
  match exts with
  | [] => Some total
  | e :: exts =>
      if is_fixed e then
        w ← fixed_width e;
        if negb (w =? width) then None
        else fixed_count_go exts stride width (total + records e)
      else
        let len := e_len e in
        if (len =? 0) || negb (len mod stride =? 0) then None
        else
          let n := len / stride in
          if negb (e_last e =? (n - 1) * stride) then None
          else fixed_count_go exts stride width (total + n)
  end.
Definition fixed_count (exts : list Ext) (stride width : Z) : option Z :=
  if stride =? 0 then None else fixed_count_go exts stride width 0.

(** ** The span of a block a read fetches *)

Definition chunk_span (loc : BlockLoc) (e : Ext) : Z * Z :=
  let stored := bl_stored loc in
  if negb (is_plain loc) || negb (bl_chunk_crc loc) then (0, stored)
  else
    let a := e_off e / CHUNK * CHUNK in
    let b := div_ceil (sadd (e_off e) (e_len e)) CHUNK * CHUNK in
    (Z.min a stored, Z.max (Z.min b stored) (Z.min a stored)).

(** ** The reader and its state *)

Record BlobOptions := mkBlobOptions { verify_checksums : bool; verify_index : bool; resident_directory : bool }.

Definition blob_options_default : BlobOptions := mkBlobOptions true true false.

(** A section: its bytes, and where in the object they are. *)
Record Sec := mkSec { sec_bytes : bytes; sec_off : Z }.

Record Blob := mkBlob {
  blob_key : Sec;
  blob_idx : FlatIndex;
  blob_blk : Sec;
  blob_blocks : MappedBlocks;
  blob_generation : Z;
  blob_timestamp : Z;
  blob_opts : BlobOptions;
  blob_id : Z
}.

(** The verified bits, sixty-four to a word; the thread's decompression
    buffer, and the reader, block and span it holds; the decodes counted. *)
Record Reader := mkReader {
  rs_verified : list Z;
  rs_dec : bytes;
  rs_dec_at : option (Z * Z * Z * Z);
  rs_decodes : Z
}.

Definition sec_read (src : Source) (off len : Z) : result Sec :=
  let* b := read_at src off len in Ok (mkSec b off).

Section open.
Context (src : Source) (blk_base : Z).

Definition open_with (opts : BlobOptions) (id : Z) : option (result (Blob * list Z)) :=
  match open_head src with
  | Err e => Some (Err e)
  | Ok sb =>
  match sec_read src (sb_key_off sb) (sb_key_stored sb) with
  | Err e => Some (Err e)
  | Ok key =>
  match sec_read src (sb_blk_off sb) (sb_blk_stored sb) with
  | Err e => Some (Err e)
  | Ok blk =>
  match flat_parse (sec_bytes key) with
  | None => Some (Err "the key index is not the flat format this reader understands")
  | Some idx =>
      checked ←
        (if negb (fx_crc_off idx =? 0) && verify_index opts
         then r ← verify_pieces (sec_bytes key) (fx_crc_off idx) (fx_piece_shift idx) (sb_key_off sb);
              Some (match r with inl _ => true | inr _ => false end)
         else Some true);
      if negb checked then Some (Err "key index checksum mismatch")
      else
        match mapped_parse blk_base (sec_bytes blk) with
        | None => Some (Err "the block table is not readable")
        | Some blocks =>
            let words := replicate (Z.to_nat (div_ceil (mapped_len blocks * MAX_CHUNK_CRCS) 64)) 0 in
            Some (Ok (mkBlob key idx blk blocks (fx_generation idx) (sb_timestamp sb) opts id, words))
        end
  end end end end.
End open.

(** What the thread's buffer was left with, handed to a reader just opened. *)
Definition reader_of (words : list Z) (dec : bytes) (at_ : option (Z * Z * Z * Z)) : Reader := mkReader words dec at_ 0.

#[local] Open Scope state_scope.

Definition R (A : Type) : Type := SM Reader A.

Section read.
Context (lz4_decompress_into : bytes -> bytes -> bytes * bool) (src : Source) (B : Blob) (key_base blk_base : Z) (sums : bool).

(** ** Lookups *)

Definition key_sec : bytes := sec_bytes (blob_key B).
Definition blk_sec : bytes := sec_bytes (blob_blk B).

Definition blob_keys : Z := fx_nkeys (blob_idx B).
Definition blob_lookup (key : bytes) : option Exts := lookup (blob_idx B) key_base key_sec key_hash key.
Definition blob_lookup_full (key : bytes) : option (Exts * bytes) := lookup_full (blob_idx B) key_base key_sec key_hash key.
Definition blob_with_lookup {A} (key : bytes) (f : list Ext -> bytes -> A) : option A :=
  with_lookup (blob_idx B) key_base key_sec key_hash key f.
Definition exts_at_full (rank : Z) : option (bytes * Exts * bytes) := at_full (blob_idx B) key_base key_sec rank.
Definition exts_at (rank : Z) : option (bytes * Exts) := '(k, e, _) ← exts_at_full rank; Some (k, e).
Definition blob_seek (key : bytes) : Z := seek_with (blob_idx B) key_sec key true.

(** [payload_bytes], off the superblock's page. *)
Definition payload_bytes : option Z :=
  page ← src_read src 0 SUPER; x ← decode_super_ext page (blob_generation B); sx_payload x.

Definition loc_of (id : Z) : result BlockLoc :=
  ok_or (mapped_get blk_base (blob_blocks B) blk_sec id) "an extent names a block past the table".

Definition block_extents : list (Z * Z) :=
  omap (fun id => match loc_of id with
                  | Ok loc => if 0 <? bl_stored loc then Some (bl_off loc, bl_stored loc) else None
                  | Err _ => None
                  end) (seqZ 0 (mapped_len (blob_blocks B))).

(** ** Plans: the ranges a read will fetch *)

Fixpoint plan_exts (exts : list Ext) (out : list (Z * Z)) : option (result (list (Z * Z))) :=
  match exts with
  | [] => Some (Ok out)
  | e :: exts =>
      if is_inline e then plan_exts exts out
      else
        match loc_of (e_block e) with
        | Err m => Some (Err m)
        | Ok loc =>
            let '(a, b) := chunk_span loc e in
            at_ ← cadd (bl_off loc) a;
            plan_exts exts (out ++ [(at_, b - a)])
        end
  end.

Definition merged (v : result (list (Z * Z))) : option (result (list (Z * Z))) :=
  match v with Ok v => r ← merge_ranges v; Some (Ok r) | Err m => Some (Err m) end.

Definition plan_key (key : bytes) (out : list (Z * Z)) : option (result (list (Z * Z))) :=
  match blob_lookup key with None => Some (Ok out) | Some exts => plan_exts (exts_deref exts) out end.

Definition ranges_for (key : bytes) : option (result (list (Z * Z))) := v ← plan_key key []; merged v.

Fixpoint plan_keys (ks : list bytes) (out : list (Z * Z)) : option (result (list (Z * Z))) :=
  match ks with
  | [] => Some (Ok out)
  | k :: ks => v ← plan_key k out; match v with Ok out => plan_keys ks out | Err m => Some (Err m) end
  end.
Definition ranges_for_many (ks : list bytes) : option (result (list (Z * Z))) := v ← plan_keys ks []; merged v.

Definition ranges_for_exts (exts : list Ext) : option (result (list (Z * Z))) := v ← plan_exts exts []; merged v.

(** ** What has been checked *)

Definition is_verified (i j : Z) (rs : Reader) : bool :=
  let slot := i * MAX_CHUNK_CRCS + j in
  match get_at (rs_verified rs) (slot / 64) with Some c => Z.testbit c (slot mod 64) | None => false end.

Definition set_verified (i j : Z) (rs : Reader) : Reader :=
  let slot := i * MAX_CHUNK_CRCS + j in
  let words :=
    c ← get_at (rs_verified rs) (slot / 64);
    put_range (rs_verified rs) (slot / 64) [Z.lor c (Z.shiftl 1 (slot mod 64))] in
  mkReader (default (rs_verified rs) words) (rs_dec rs) (rs_dec_at rs) (rs_decodes rs).

(** The span of a block the thread's buffer holds, when it is this reader's. *)
Definition dec_at (rs : Reader) : option (Z * Z * Z) :=
  match rs_dec_at rs with
  | Some (id, b, lo, hi) => if id =? blob_id B then Some (b, lo, hi) else None
  | None => None
  end.
Definition set_dec_at (at_ : option (Z * Z * Z)) (rs : Reader) : Reader :=
  mkReader (rs_verified rs) (rs_dec rs) ((fun '(b, lo, hi) => (blob_id B, b, lo, hi)) <$> at_) (rs_decodes rs).

(** The block's own checksum: the fallback. *)
Definition verify_whole (id : Z) (loc : BlockLoc) (raw : bytes) (base : Z) : R unit :=
  if negb (base =? 0) || negb (Zlen raw =? bl_stored loc) then fail "a partial block read needs per-chunk checksums"
  else
    do* seen := gets (is_verified id 0) in
    if (seen : bool) then ret tt
    else if negb (crc32 raw =? bl_crc loc) then fail "block checksum mismatch"
    else modify (set_verified id 0).

Fixpoint verify_chunks (id : Z) (loc : BlockLoc) (raw : bytes) (base : Z) (js : list Z) : R unit :=
  match js with
  | [] => ret tt
  | j :: js =>
      let a := j * CHUNK in
      let b := Z.min ((j + 1) * CHUNK) (base + Zlen raw) in
      match mapped_chunk_crc (blob_blocks B) blk_sec id j, (a <? b) && (base <=? a) with
      | Some want, true =>
          do* seen := gets (is_verified id j) in
          if (seen : bool) then verify_chunks id loc raw base js
          else
            do* piece := expect (get_range raw (a - base) (b - base)) in
            if negb (crc32 piece =? want) then fail "block checksum mismatch"
            else do* tt := modify (set_verified id j) in verify_chunks id loc raw base js
      | _, _ => verify_whole id loc raw base
      end
  end.

(** The chunks [lo..hi] of a block touches, of the bytes from [base] on. *)
Definition verify (id : Z) (loc : BlockLoc) (raw : bytes) (base lo hi : Z) : R unit :=
  if negb (verify_checksums (blob_opts B)) || negb sums then ret tt
  else if negb (bl_chunk_crc loc) || (base + Zlen raw <? hi) || (lo <? base) || (hi <=? lo) then verify_whole id loc raw base
  else verify_chunks id loc raw base (seqZ (lo / CHUNK) ((hi - 1) / CHUNK - lo / CHUNK + 1)).

(** ** An extent's bytes *)

(** The buffer made long enough, and what it held forgotten when it grew. *)
Definition grow (un : Z) (rs : Reader) : Reader :=
  if Zlen (rs_dec rs) <? un then mkReader (rs_verified rs) (rs_dec rs ++ zeros (un - Zlen (rs_dec rs))) None (rs_decodes rs) else rs.

Definition forget (rs : Reader) : Reader := mkReader (rs_verified rs) (rs_dec rs) None (w64 (rs_decodes rs + 1)).

(** The first [un] bytes of the buffer handed to a decoder, and what it made
    of them put back whether or not it failed. *)
Definition decode_into (un : Z) (decode : bytes -> option (bytes * result unit)) : R unit :=
  do* dec := gets rs_dec in
  do* dst := expect (get_range dec 0 un) in
  do* (dst, r) := expect (decode dst) in
  do* dec := expect (put_range dec 0 dst) in
  do* tt := modify (fun rs => mkReader (rs_verified rs) dec (rs_dec_at rs) (rs_decodes rs)) in
  lift r.

Definition decompress_into (raw dst : bytes) : option (bytes * result unit) :=
  let '(dst, ok) := lz4_decompress_into raw dst in Some (dst, if ok then Ok tt else Err "lz4").

(** The chunks of [a..b], decoded unless the buffer holds them. *)
Definition decode_chunks (id : Z) (raw : bytes) (un a b : Z) : R unit :=
  let lo := a / CHUNK * CHUNK in
  let hi := Z.min (div_ceil b CHUNK * CHUNK) un in
  do* have := gets dec_at in
  if match have with Some (blk, l, h) => (blk =? id) && (l <=? lo) && (hi <=? h) | None => false end then ret tt
  else
    do* tt := modify forget in
    do* tt := decode_into un (fun dst => read_chunked_range lz4_decompress_into raw un a b dst (verify_checksums (blob_opts B))) in
    modify (set_dec_at (Some (id, lo, hi))).

(** A block compressed as one stream, decoded unless the buffer holds it. *)
Definition decode_block (id : Z) (loc : BlockLoc) (raw : bytes) (un : Z) : R unit :=
  do* tt := verify id loc raw 0 0 (Zlen raw) in
  do* have := gets dec_at in
  if match have with Some (blk, l, h) => (blk =? id) && (l =? 0) && (h =? un) | None => false end then ret tt
  else
    do* tt := modify forget in
    do* tt := decode_into un (decompress_into raw) in
    modify (set_dec_at (Some (id, 0, un))).

Definition with_extent (e : Ext) : R bytes :=
  if is_inline e then fail "inline run read without its record"
  else
    do* loc := lift (loc_of (e_block e)) in
    let a := e_off e in
    let b := sadd (e_off e) (e_len e) in
    let '(c0, c1) := chunk_span loc e in
    do* at_ := expect (cadd (bl_off loc) c0) in
    do* raw := lift (read_at src at_ (c1 - c0)) in
    if is_plain loc then
      if (a <? c0) || (c0 + Zlen raw <? b) then fail "extent runs past its block"
      else do* tt := verify (e_block e) loc raw c0 a b in expect (get_range raw (a - c0) (b - c0))
    else
      let un := bl_uncompressed loc in
      if un <? b then fail "extent runs past its block"
      else
        do* tt := modify (grow un) in
        do* tt := (if bl_chunked loc then decode_chunks (e_block e) raw un a b else decode_block (e_block e) loc raw un) in
        do* dec := gets rs_dec in
        expect (get_range dec a b).

(** A callback over the decompression buffer runs with the thread's taken
    out: a read it makes of its own starts from an empty one. What the thread
    is left with is the buffer put back, over whatever that read left there;
    what is said to be in it, [rs_dec_at], is as that read left it. *)
Definition lend {A} (m : R A) : R A := fun rs =>
  match m (mkReader (rs_verified rs) [] (rs_dec_at rs) (rs_decodes rs)) with
  | None => None
  | Some (r, rs') => Some (r, mkReader (rs_verified rs') (rs_dec rs) (rs_dec_at rs') (rs_decodes rs'))
  end.

(** [with_extent] with the callback it hands the bytes to, which may read
    again through the same reader; [with_extent e] is the bytes handed. *)
Definition with_extent_then {A} (e : Ext) (f : bytes -> R A) : R A :=
  if is_inline e then fail "inline run read without its record"
  else
    do* loc := lift (loc_of (e_block e)) in
    let a := e_off e in
    let b := sadd (e_off e) (e_len e) in
    let '(c0, c1) := chunk_span loc e in
    do* at_ := expect (cadd (bl_off loc) c0) in
    do* raw := lift (read_at src at_ (c1 - c0)) in
    if is_plain loc then
      if (a <? c0) || (c0 + Zlen raw <? b) then fail "extent runs past its block"
      else
        do* tt := verify (e_block e) loc raw c0 a b in
        do* run := expect (get_range raw (a - c0) (b - c0)) in f run
    else
      let un := bl_uncompressed loc in
      if un <? b then fail "extent runs past its block"
      else
        do* tt := modify (grow un) in
        do* tt := (if bl_chunked loc then decode_chunks (e_block e) raw un a b else decode_block (e_block e) loc raw un) in
        do* dec := gets rs_dec in
        do* run := expect (get_range dec a b) in lend (f run).

(** A run of the record's tail, where the extent is inline. *)
Definition inline_run (e : Ext) (tail : bytes) : option (result bytes) :=
  match cadd (e_off e) (e_len e) with
  | Some b => if b <=? Zlen tail then r ← get_range tail (e_off e) b; Some (Ok r) else Some (Err "inline run runs past its record")
  | None => Some (Err "inline run runs past its record")
  end.

Definition with_run (e : Ext) (tail : bytes) : R bytes :=
  if is_inline e then do* r := expect (inline_run e tail) in lift r else with_extent e.

Definition with_run_then {A} (e : Ext) (tail : bytes) (f : bytes -> R A) : R A :=
  if is_inline e then do* r := expect (inline_run e tail) in do* run := lift r in f run else with_extent_then e f.

(** ** Values *)

(** The values an extent's run holds, handed on with what ended the walk. *)
Fixpoint read_go (exts : list Ext) (tail : bytes) (n : Z) : R (list bytes * result Z) :=
  match exts with
  | [] => ret ([], Ok n)
  | e :: exts => fun rs =>
      match with_run e tail rs with
      | None => None
      | Some (Err m, rs) => Some (Ok ([], Err m), rs)
      | Some (Ok run, rs) =>
          let '(vs, r) := each_value run e in
          match r with
          | Err m => Some (Ok (vs, Err m), rs)
          | Ok k => (do* (vs', r) := read_go exts tail (n + k) in ret (vs ++ vs', r)) rs
          end
      end
  end.

(** Every value the extents reach, in order, and how many or what failed. *)
Definition read_exts (exts : list Ext) (tail : bytes) : R (list bytes * result Z) := read_go exts tail 0.

(** The same walk with the caller's callback, which keeps a state of its own
    and may use the reader; it answers nothing, so nothing stops it. *)
Fixpoint hand {X} (f : X -> bytes -> Reader -> option (X * Reader)) (vs : list bytes) (x : X) (rs : Reader) : option (X * Reader) :=
  match vs with [] => Some (x, rs) | v :: vs => '(x, rs) ← f x v rs; hand f vs x rs end.

Fixpoint read_go_then {X} (f : X -> bytes -> Reader -> option (X * Reader)) (exts : list Ext) (tail : bytes) (n : Z) (x : X) : R (X * result Z) :=
  match exts with
  | [] => ret (x, Ok n)
  | e :: exts => fun rs =>
      match with_run_then e tail (fun run rs => let '(vs, r) := each_value run e in '(x, rs) ← hand f vs x rs; Some (Ok (x, r), rs)) rs with
      | None => None
      | Some (Err m, rs) => Some (Ok (x, Err m), rs)
      | Some (Ok (x, Err m), rs) => Some (Ok (x, Err m), rs)
      | Some (Ok (x, Ok k), rs) => read_go_then f exts tail (n + k) x rs
      end
  end.
Definition read_exts_then {X} (f : X -> bytes -> Reader -> option (X * Reader)) (exts : list Ext) (tail : bytes) (x : X) : R (X * result Z) :=
  read_go_then f exts tail 0 x.

Definition read_all (key : bytes) : R (list bytes * result Z) :=
  default (ret ([], Ok 0)) (blob_with_lookup key (fun exts tail => read_exts exts tail)).

Definition read_all_by_value (key : bytes) : R (list bytes * result Z) :=
  match blob_lookup_full key with
  | None => ret ([], Ok 0)
  | Some (exts, tail) => read_exts (exts_deref exts) tail
  end.

Definition read_concat (key out : bytes) : R (bytes * result Z) :=
  do* (vs, r) := read_all key in ret (out ++ concat vs, r).

Definition values_at (rank : Z) : R (list bytes * result Z) :=
  default (ret ([], Ok 0)) (with_record_at (blob_idx B) key_base key_sec rank (fun exts tail => read_exts exts tail)).

(** A run where it lies: the tail's, or a checked slice of a plain block. *)
Definition run_slice (e : Ext) (tail : bytes) : R (option bytes) :=
  if is_inline e then do* r := expect (inline_run e tail) in do* run := lift r in ret (Some run)
  else
    do* loc := lift (loc_of (e_block e)) in
    if negb (is_plain loc) then ret None
    else
      match src_read src (bl_off loc) (bl_stored loc) with
      | None => ret None
      | Some raw =>
          let a := e_off e in
          let b := sadd (e_off e) (e_len e) in
          if Zlen raw <? b then fail "extent runs past its block"
          else
            do* tt := verify (e_block e) loc raw 0 a b in
            do* r := expect (get_range raw a b) in ret (Some r)
      end.

Fixpoint fixed_runs (exts : list Ext) (tail : bytes) (width : Z) : R (option (list bytes)) :=
  match exts with
  | [] => ret (Some [])
  | e :: exts =>
      if decide (fixed_width e <> Some width) then ret None
      else
        do* r := run_slice e tail in
        match r with
        | None => ret None
        | Some r => do* rest := fixed_runs exts tail width in ret ((fun rs => r :: rs) <$> rest)
        end
  end.

(** Four- and eight-byte values compare as big-endian integers. *)
Definition be_value (b : bytes) : Z := fold_left (fun n x => n * 256 + b2z x) b 0.
Definition value_lt (width : Z) (x y : bytes) : bool :=
  if (width =? 4) || (width =? 8) then be_value x <? be_value y else bltb x y.

(** How many values two ascending lists share: a two-pointer walk. *)
Fixpoint shared_go (fuel : nat) (lt : bytes -> bytes -> bool) (x y : list bytes) : Z :=
  match fuel, x, y with
  | S fuel, a :: x', b :: y' =>
      if lt a b then shared_go fuel lt x' y
      else if lt b a then shared_go fuel lt x y'
      else 1 + shared_go fuel lt x' y'
  | _, _, _ => 0
  end.
Definition shared (lt : bytes -> bytes -> bool) (x y : list bytes) : Z := shared_go (length x + length y) lt x y.

Definition intersect_fixed (a b : bytes) (width : Z) : R Z :=
  match blob_lookup_full a, blob_lookup_full b with
  | Some (ea, ta), Some (eb, tb) =>
      do* ra := fixed_runs (exts_deref ea) ta width in
      do* rb := fixed_runs (exts_deref eb) tb width in
      match (if 0 <? width then ra else None), rb with
      | Some ra, Some rb =>
          let cut := chunks_exact (Z.to_nat width) in
          ret (shared (value_lt width) (concat (map cut ra)) (concat (map cut rb)))
      | _, _ =>
          do* (va, r) := read_exts (exts_deref ea) ta in
          do* _ := lift r in
          do* (vb, r) := read_exts (exts_deref eb) tb in
          do* _ := lift r in
          ret (shared bltb va vb)
      end
  | _, _ => ret 0
  end.

(** ** Counts *)

Definition count (key : bytes) : Z :=
  match blob_lookup key with None => 0 | Some exts => fold_left (fun n e => n + records e) (exts_deref exts) 0 end.

Definition stored_bytes (key : bytes) : Z :=
  match blob_lookup key with None => 0 | Some exts => fold_left (fun n e => n + e_len e) (exts_deref exts) 0 end.

Definition count_fixed (key : bytes) (width : Z) : option Z :=
  let stride := width + varint_len width in
  match blob_lookup key with None => Some 0 | Some exts => fixed_count (exts_deref exts) stride width end.

(** A walk of the dictionary from a rank, each key with [what] is asked of
    its extents, until [f] says stop or the limit or the keys end. *)
Fixpoint walk_keys {A} (fuel : nat) (what : list Ext -> A) (f : bytes -> A -> bool) (rank : Z) : list (bytes * A) :=
  match fuel with
  | O => []
  | S fuel =>
      match exts_at_full rank with
      | None => []
      | Some (k, exts, _) =>
          let n := what (exts_deref exts) in
          if f k n then (k, n) :: walk_keys fuel what f (rank + 1) else [(k, n)]
      end
  end.

Definition scan_counts (from : bytes) (limit : Z) (f : bytes -> Z -> bool) : list (bytes * Z) :=
  walk_keys (Z.to_nat (Z.min limit blob_keys)) (fun exts => fold_left (fun n e => n + records e) exts 0) f (blob_seek from).

Definition scan_counts_fixed (from : bytes) (limit width : Z) (f : bytes -> option Z -> bool) : list (bytes * option Z) :=
  let stride := width + varint_len width in
  walk_keys (Z.to_nat (Z.min limit blob_keys)) (fun exts => fixed_count exts stride width) f (blob_seek from).

(** ** The ordered scan *)

(** What the scan's first loop makes of the record at [off]: a shape it does
    not know, damage, or the key and its values. *)
Inductive fast := FastOther | FastErr (msg : string) | FastValues (k : bytes) (vs : list bytes).

Definition fixed_run_msg : string := "fixed run's length is not a multiple of its count".

(** Where the run starts, how long it is and how many values it holds. *)
Definition fast_run (recs : bytes) (n e_at : Z) : option (Z * Z * Z) :=
  if n =? COMPACT then
    cb ← get_range recs e_at (e_at + 4);
    len ← rd_u16 cb 0;
    c ← rd_u16 cb 2;
    if Z.land c C_FIXED =? 0 then None
    else Some (e_at + 4, len, Z.land c (Z.lxor (U16 - 1) (Z.lor C_FIXED C_TOMB)))
  else if n =? 1 then
    eb ← get_range recs e_at (e_at + 20);
    block ← rd_u32 eb 0;
    off ← rd_u32 eb 4;
    len ← rd_u32 eb 8;
    count ← rd_u32 eb 16;
    if negb (block =? INLINE) || (Z.land count FIXED =? 0) then None
    else Some (e_at + 20 + off, len, Z.land count (Z.lxor (U32 - 1) (Z.lor TOMBSTONE FIXED)))
  else None.

(** [while let Some(v) = run.get(p..p + w)]. *)
Fixpoint strides (fuel : nat) (run : bytes) (w p : Z) : list bytes :=
  match fuel with
  | O => []
  | S fuel => match get_range run p (p + w) with Some v => v :: strides fuel run w (p + w) | None => [] end
  end.

Definition fast_at (recs : bytes) (off : Z) : fast :=
  match (h ← get_range recs off (off + 4); klen ← rd_u16 h 0; n ← rd_u16 h 2; Some (klen, n)) with
  | None => FastOther
  | Some (klen, n) =>
      let key_at := off + 4 in
      let e_at := align_up (key_at + klen) 4 in
      match fast_run recs n e_at with
      | None => FastOther
      | Some (a, elen, records) =>
          if (records =? 0) || (elen =? 0) then FastErr fixed_run_msg
          else
            match get_range recs a (a + elen), get_range recs key_at (key_at + klen) with
            | None, _ => FastErr "inline run runs past its record"
            | Some _, None => FastOther
            | Some run, Some k =>
                if records =? 1 then FastValues k [run]
                else if negb (elen mod records =? 0) then FastErr fixed_run_msg
                else FastValues k (strides (length run) run (elen / records) 0)
            end
      end
  end.

Definition pairs (k : bytes) (vs : list bytes) : list (bytes * bytes) := map (pair k) vs.

(** The first loop, over the directory's words: what it visited, how many
    records that took, and what failed. *)
Fixpoint fast_loop (recs : bytes) (words : list bytes) : list (bytes * bytes) * Z * option string :=
  match words with
  | [] => ([], 0, None)
  | w :: words =>
      match fast_at recs (default 0 (rd_u32 w 0)) with
      | FastOther => ([], 0, None)
      | FastErr m => ([], 0, Some m)
      | FastValues k vs => let '(out, n, e) := fast_loop recs words in (pairs k vs ++ out, n + 1, e)
      end
  end.

(** The words of [want] ranks from [rank]; none where they run past the
    directory. *)
Definition scan_words (dir : bytes) (rank want : Z) : list bytes :=
  chunks_exact 4 (default [] (get_range dir (rank * 4) ((rank + want) * 4))).

(** A plain block, fetched and checked whole, held for the runs after it. *)
Definition scan_fetch (e : Ext) (cached : option (Z * bytes)) : R (option bytes * option (Z * bytes)) :=
  match loc_of (e_block e) with
  | Ok loc =>
      if is_plain loc then
        match src_read src (bl_off loc) (bl_stored loc) with
        | Some b => do* tt := verify (e_block e) loc b 0 0 (Zlen b) in ret (Some b, Some (e_block e, b))
        | None => ret (None, cached)
        end
      else ret (None, cached)
  | Err _ => ret (None, cached)
  end.

(** The run of one extent, in the record, in the block the scan holds, or
    through [with_extent]; and the block it holds after. *)
Definition scan_run (e : Ext) (tail : bytes) (cached : option (Z * bytes)) : R (bytes * option (Z * bytes)) :=
  if is_inline e then do* run := with_run e tail in ret (run, cached)
  else
    do* (held, cached) :=
      match cached with
      | Some (id, b) => if id =? e_block e then ret (Some b, cached) else scan_fetch e cached
      | None => scan_fetch e cached
      end in
    match held with
    | Some b =>
        let hi := sadd (e_off e) (e_len e) in
        if Zlen b <? hi then fail "extent runs past its block"
        else do* run := expect (get_range b (e_off e) hi) in ret (run, cached)
    | None => do* run := with_extent e in ret (run, cached)
    end.

Fixpoint scan_exts (exts : list Ext) (tail : bytes) (cached : option (Z * bytes)) : R (list bytes * option string * option (Z * bytes)) :=
  match exts with
  | [] => ret ([], None, cached)
  | e :: exts => fun rs =>
      match scan_run e tail cached rs with
      | None => None
      | Some (Err m, rs) => Some (Ok ([], Some m, cached), rs)
      | Some (Ok (run, cached), rs) =>
          let '(vs, r) := each_value run e in
          match r with
          | Err m => Some (Ok (vs, Some m, cached), rs)
          | Ok _ => (do* (vs', m, cached) := scan_exts exts tail cached in ret (vs ++ vs', m, cached)) rs
          end
      end
  end.

(** The general loop: a record at a time, any shape. *)
Fixpoint scan_loop (fuel : nat) (rank seen : Z) (cached : option (Z * bytes)) : R (list (bytes * bytes) * result Z) :=
  match fuel with
  | O => ret ([], Ok seen)
  | S fuel =>
      match exts_at_full rank with
      | None => ret ([], Ok seen)
      | Some (k, exts, tail) =>
          do* (vs, m, cached) := scan_exts (exts_deref exts) tail cached in
          match m with
          | Some m => ret (pairs k vs, Err m)
          | None => do* (out, r) := scan_loop fuel (rank + 1) (seen + 1) cached in ret (pairs k vs ++ out, r)
          end
      end
  end.

Definition scan_at (rank limit : Z) : R (list (bytes * bytes) * result Z) :=
  let '(out, n, e) :=
    match regions (blob_idx B) key_sec with
    | Some (recs, dir) => fast_loop recs (scan_words dir rank (Z.min limit (ssub blob_keys rank)))
    | None => ([], 0, None)
    end in
  match e with
  | Some m => ret (out, Err m)
  | None => do* (out', r) := scan_loop (Z.to_nat (Z.min (limit - n) blob_keys)) (rank + n) n None in ret (out ++ out', r)
  end.

Definition scan (from : bytes) (limit : Z) : R (list (bytes * bytes) * result Z) := scan_at (blob_seek from) limit.
End read.
