(* ===== verification/BlobScan.v ===== *)
(** * The scan's two loops

    The ordered scan of [Blob] reads the common record in a loop of its own,
    field by field, and any other through the general parse. The first loop
    proved to do what the general one does. *)

From S2P Require Import Prelude State Varint Runs Crc Chunks BlockTable Records HashTable FlatIndex FlatRead Superblock Blob.

#[local] Open Scope state_scope.

Lemma strides_chunks fuel a b w : 0 < w -> strides fuel (a ++ b) w (Zlen a) = chunks_exact_go fuel (Z.to_nat w) b.
Proof.
  intros Hw. revert a b. induction fuel as [|fuel IH]; intros a b; [done|]. cbn [strides chunks_exact_go].
  destruct (decide (Z.to_nat w <= length b)%nat) as [Hle|Hgt].
  - rewrite <- (take_drop (Z.to_nat w) b) at 1. rewrite get_range_app by (rewrite ?Zlen_take; unfold Zlen; lia).
    f_equal. specialize (IH (a ++ take (Z.to_nat w) b) (drop (Z.to_nat w) b)). rewrite <- app_assoc, take_drop in IH.
    rewrite <- IH. f_equal. rewrite Zlen_app. f_equal. unfold Zlen. rewrite length_take. lia.
  - destruct (get_range (a ++ b) (Zlen a) (Zlen a + w)) eqn:E; [|done]. apply get_range_Some in E as (_ & H & _).
    rewrite Zlen_app in H. unfold Zlen in H. lia.
Qed.

Lemma align_rel off n : off mod 4 = 0 -> align_up (off + n) 4 = off + align_up n 4.
Proof.
  intros H. unfold align_up. pose proof (Z.div_mod off 4). replace (off + n + 4 - 1) with (n + 4 - 1 + off / 4 * 4) by lia.
  rewrite Z.div_add; lia.
Qed.

(** The count word a compact header's rebuilt extent carries. *)
Lemma compact_count recs (fixed tomb : bool) : 0 <= recs < 2 ^ 30 ->
  Z.lor (Z.lor recs (if fixed then FIXED else 0)) (if tomb then TOMBSTONE else 0) = count_word recs (if fixed then FIXED else 0) tomb.
Proof. done. Qed.

(** One inline extent over its run: what both loops make of it. *)
Definition inline_one (exts : list Ext) (tail run : bytes) (out : list bytes) (r : result Z) : Prop :=
  exists e, exts = [e] /\ is_inline e = true /\ inline_run e tail = Some (Ok run) /\ each_value run e = (out, r).

Lemma each_fixed run e n : is_fixed e = true -> records e = n -> e_len e = Zlen run -> 0 <= n ->
  if (n =? 0) || (Zlen run =? 0) || negb (Zlen run mod n =? 0) then exists m, each_value run e = ([], Err m)
  else each_value run e = (strides (length run) run (Zlen run / n) 0, Ok (Zlen (strides (length run) run (Zlen run / n) 0))).
Proof.
  intros Hf Hn Hl Hn0. unfold each_value, fixed_width. rewrite Hf, Hn, Hl. cbn [negb]. rewrite Z.eqb_refl. cbn [negb orb].
  destruct (Z.eqb_spec n 0) as [->|Hne]; [by eexists|]. cbn [orb]. pose proof (Zlen_nonneg run).
  destruct (Z.eqb_spec (Zlen run) 0) as [->|Hr0]. { cbn [orb]. rewrite Z.mod_0_l, Z.div_0_l by done. by eexists. }
  cbn [orb]. destruct (Z.eqb_spec (Zlen run mod n) 0) as [Hm|]; [|by eexists]. cbn [negb].
  assert (0 < Zlen run / n) as Hw by (pose proof (Z.div_mod (Zlen run) n Hne); pose proof (Z.div_pos (Zlen run) n); nia).
  rewrite (proj2 (Z.eqb_neq _ 0)) by lia. unfold chunks_exact. by rewrite <- (strides_chunks _ [] run).
Qed.

Lemma strides_one run : 0 < Zlen run -> strides (length run) run (Zlen run) 0 = [run].
Proof.
  intros H. unfold Zlen in H. destruct (length run) as [|n] eqn:E; [lia|]. cbn [strides]. rewrite Z.add_0_l.
  rewrite get_range_all. f_equal. destruct n; [done|]. cbn [strides].
  destruct (get_range run (Zlen run) _) eqn:Eg; [|done]. apply get_range_Some in Eg as (_ & Hb & _). unfold Zlen in Hb. lia.
Qed.

(** ** The fields the first loop reads are the record's *)

Section fields.
Context (base : Z) (recs : bytes) (off : Z) (k : bytes) (exts : Exts) (tail : bytes) (len : Z).
Context (Hp : parse_record base recs off = Some (k, exts, tail, len)) (Ha : off mod 4 = 0).

Lemma parse_fields : exists h klen n rest used,
  get_range recs off (off + 4) = Some h /\ rd_u16 h 0 = Some klen /\ rd_u16 h 2 = Some n /\
  get_range recs (off + 4) (off + 4 + klen) = Some k /\
  get_from recs (align_up (off + 4 + klen) 4) = Some rest /\
  parse_record_tail (base + align_up (off + 4 + klen) 4) h rest = Some (exts, tail, used).
Proof.
  unfold parse_record in Hp. destruct (rd_u16 recs off) as [klen|] eqn:Ek; [|done]. cbn [option_bind mbind] in Hp.
  destruct (cadd off 4) as [h_end|] eqn:Eh; [|done]. cbn [option_bind mbind] in Hp. apply cadd_Some in Eh as [-> _].
  destruct (get_range recs off (off + 4)) as [h|] eqn:Hh; [|done]. cbn [option_bind mbind] in Hp.
  destruct (get_range recs (off + 4) (off + 4 + klen)) as [k'|] eqn:Hk; [|done]. cbn [option_bind mbind] in Hp.
  destruct (cadd off _) as [e_at|] eqn:Ee; [|done]. cbn [option_bind mbind] in Hp. apply cadd_Some in Ee as [-> _].
  destruct (get_from recs _) as [rest|] eqn:Er; [|done]. cbn [option_bind mbind] in Hp.
  destruct (parse_record_tail _ h rest) as [[[x t] u]|] eqn:Et; [|done]. cbn in Hp. injection Hp as <- <- <- _.
  assert (off + align_up (4 + klen) REC_ALIGN = align_up (off + 4 + klen) 4) as Hal by (rewrite <- Z.add_assoc; by rewrite (align_rel off (4 + klen))).
  rewrite Hal in Er, Et.
  assert (rd_u16 h 0 = Some klen) as Hh0.
  { unfold rd_u16 in *. apply fmap_Some in Ek as (w & Hw & ->). pose proof (get_range_len _ _ _ _ Hh) as Hl.
    destruct (get_range_is_Some h 0 2) as [w' Hw']; [lia..|]. rewrite Z.add_0_l. rewrite Hw'.
    pose proof (get_range_sub _ _ _ _ _ _ _ Hh Hw') as Hs. rewrite Z.add_0_r in Hs. by simplify_eq. }
  assert (exists n, rd_u16 h 2 = Some n) as [n Hn].
  { unfold parse_record_tail in Et. destruct (rd_u16 h 2); [by eexists|done]. }
  exists h, klen, n, rest, u. by split_and!.
Qed.
End fields.

(** ** A record read both ways *)

Lemma get_from_range {A} (l rest : list A) lo a b r : get_from l lo = Some rest -> get_range rest a b = Some r -> get_range l (lo + a) (lo + b) = Some r.
Proof.
  intros [Hl ->]%get_from_Some Hr. rewrite <- (take_drop (Z.to_nat lo) l).
  pose proof (get_range_app_r (take (Z.to_nat lo) l) _ _ _ _ Hr) as H. rewrite Zlen_take in H. rewrite Z2Nat.id, Z.min_l in H by lia. done.
Qed.

Lemma compact_ext_fields h run e : compact_ext h run = Some e -> exists c last,
  rd_u16 h 0 = Some (Zlen run) /\ rd_u16 h 2 = Some c /\
  let recs := Z.land c (Z.lxor (U16 - 1) (Z.lor C_FIXED C_TOMB)) in
  0 <= recs < 2 ^ 14 /\
  e = mkExt INLINE 0 (Zlen run) last (count_word recs (if negb (Z.land c C_FIXED =? 0) then FIXED else 0) (negb (Z.land c C_TOMB =? 0))).
Proof.
  unfold compact_ext. destruct (rd_u16 h 0) as [len|]; [|done]. cbn [option_bind mbind]. destruct (rd_u16 h 2) as [c|]; [|done]. cbn [option_bind mbind].
  destruct (Z.eqb_spec (Zlen run) len) as [<-|]; [|done]. cbn [negb orb].
  destruct (_ <? Z.land c _); [done|]. set (recs := Z.land c (Z.lxor (U16 - 1) (Z.lor C_FIXED C_TOMB))).
  destruct (if recs <=? 1 then _ else _) as [last|]; [|done]. cbn [option_bind mbind]. intros [= <-]. exists c, last.
  split; [done|]. split; [done|]. split; [|done]. unfold recs. change (Z.lxor (U16 - 1) (Z.lor C_FIXED C_TOMB)) with (Z.ones 14).
  rewrite Z.land_ones by lia. apply Z.mod_pos_bound. lia.
Qed.

Lemma parse_tail_one base h rest exts tail used n : parse_record_tail base h rest = Some (exts, tail, used) -> rd_u16 h 2 = Some n -> n <> 1 -> n <> COMPACT -> 
  forall recs e_at, fast_run recs n e_at = None.
Proof. intros _ _ H1 H2 recs e_at. unfold fast_run. rewrite (proj2 (Z.eqb_neq _ _) H2), (proj2 (Z.eqb_neq _ _) H1). done. Qed.

(** A compact record's run, as the first loop finds it. *)
Lemma fast_compact base h recs e_at rest exts tail used : parse_record_tail base h rest = Some (exts, tail, used) -> rd_u16 h 2 = Some COMPACT ->
  get_from recs e_at = Some rest ->
  match fast_run recs COMPACT e_at with
  | None => True
  | Some (a, elen, n) => exists e, exts_deref exts = [e] /\ is_inline e = true /\ is_fixed e = true /\ records e = n /\ 0 <= n /\
      elen = Zlen tail /\ inline_run e tail = Some (Ok tail) /\ e_len e = Zlen tail /\ get_range recs a (a + elen) = Some tail
  end.
Proof.
  unfold parse_record_tail. intros H Hn Hf. rewrite Hn in H. cbn [option_bind mbind] in H. change (negb (Z.land COMPACT COMPACT =? 0)) with true in H.
  cbv iota in H. change (negb (COMPACT =? COMPACT)) with false in H. cbv iota in H.
  destruct (get_range rest 0 4) as [ch|] eqn:Ech; [|done]. cbn [option_bind mbind] in H.
  destruct (rd_u16 ch 0) as [len|] eqn:El; [|done]. cbn [option_bind mbind] in H.
  destruct (cadd 4 len) as [fin|] eqn:Ec; [|done]. cbn [option_bind mbind] in H. apply cadd_Some in Ec as [-> _].
  destruct (get_range rest 4 (4 + len)) as [t|] eqn:Et; [|done]. cbn [option_bind mbind] in H.
  destruct (compact_ext ch t) as [e|] eqn:Ee; [|done]. cbn in H. injection H as <- <- _.
  apply compact_ext_fields in Ee as (c & last & Hl & Hc & Hr & ->). rewrite Hl in El. injection El as El. subst len.
  pose proof (get_from_range _ _ _ _ _ _ Hf Ech) as Hg. rewrite Z.add_0_r in Hg.
  unfold fast_run. rewrite Z.eqb_refl, Hg. cbn [option_bind mbind]. rewrite Hl, Hc. cbn [option_bind mbind].
  destruct (Z.eqb_spec (Z.land c C_FIXED) 0) as [|Hfx]; [done|]. set (n := Z.land c _) in *. cbn [negb].
  eexists. split; [done|]. split; [done|]. unfold is_fixed, records. cbn [e_count e_len].
  rewrite (count_word_fixed n true), (count_word_records n true) by lia. split; [done|]. split; [done|]. split; [lia|]. split; [done|].
  pose proof (get_from_range _ _ _ _ _ _ Hf Et) as Hg2.
  unfold inline_run. cbn [e_off e_len]. pose proof (rd_u16_range _ _ _ Hl) as Hu. 
  rewrite (proj2 (cadd_Some 0 (Zlen t) (Zlen t))) by (unfold U16, U64 in *; lia). rewrite Z.leb_refl, get_range_all.
  split; [done|]. split; [done|]. by rewrite <- Z.add_assoc.
Qed.

(** A full record of one extent, as the first loop finds it. *)
Lemma fast_full base h recs e_at rest exts tail used : parse_record_tail base h rest = Some (exts, tail, used) -> rd_u16 h 2 = Some 1 ->
  get_from recs e_at = Some rest ->
  match fast_run recs 1 e_at with
  | None => True
  | Some (a, elen, n) => exists e run, exts_deref exts = [e] /\ is_inline e = true /\ is_fixed e = true /\ records e = n /\ 0 <= n /\
      elen = Zlen run /\ inline_run e tail = Some (Ok run) /\ e_len e = Zlen run /\ get_range recs a (a + elen) = Some run
  end.
Proof.
  unfold parse_record_tail. intros H Hn Hf. rewrite Hn in H. cbn [option_bind mbind] in H. change (negb (Z.land 1 COMPACT =? 0)) with false in H.
  cbv iota in H. destruct (cmul 1 EXT_BYTES) as [size|] eqn:Es; [|done]. cbn [option_bind mbind] in H. change (Some 20 = Some size) in Es. injection Es as <-.
  destruct (get_range rest 0 20) as [b|] eqn:Eb; [|done]. cbn [option_bind mbind] in H. destruct (negb (is_aligned base 4)); [done|].
  destruct (exts_of_bytes b) as [xs|] eqn:Ex; [|done]. cbn [option_bind mbind] in H.
  destruct (tail_extent xs 0) as [tl|] eqn:Et; [|done]. cbn [option_bind mbind] in H. change (1 * EXT_BYTES) with 20 in H.
  destruct (cadd 20 tl) as [fin|] eqn:Ec; [|done]. cbn [option_bind mbind] in H. apply cadd_Some in Ec as [-> _].
  destruct (get_range rest 20 (20 + tl)) as [t|] eqn:Er; [|done]. cbn in H. injection H as <- <- _.
  pose proof (get_from_range _ _ _ _ _ _ Hf Eb) as Hg. rewrite Z.add_0_r in Hg.
  assert (exists e, xs = [e] /\ ext_of_bytes b = Some e) as (e & -> & He).
  { unfold exts_of_bytes in Ex. pose proof (get_range_len _ _ _ _ Eb) as Hl. unfold chunks_exact in Ex.
    assert (length b = 20%nat) as Hb by (unfold Zlen in Hl; lia). rewrite Hb in Ex. cbn [chunks_exact_go] in Ex.
    rewrite decide_True in Ex by lia. rewrite (take_ge b), (drop_ge b) in Ex by lia. cbn in Ex. destruct (ext_of_bytes b) as [e|]; [|done].
    cbn in Ex. injection Ex as <-. by exists e. }
  unfold fast_run. change (1 =? COMPACT) with false. change (1 =? 1) with true. cbv iota. rewrite Hg. cbn [option_bind mbind].
  unfold ext_of_bytes in He. destruct (rd_u32 b 0) as [block|]; [|done]. destruct (rd_u32 b 4) as [eo|] eqn:Eo; [|done].
  destruct (rd_u32 b 8) as [el|] eqn:El; [|done]. cbn [option_bind mbind] in *. destruct (rd_u32 b 12) as [last|]; [|done].
  destruct (rd_u32 b 16) as [count|]; [|done]. cbn [option_bind mbind] in *. injection He as <-.
  destruct (Z.eqb_spec block INLINE) as [->|]; [|done]. cbn [negb orb]. destruct (Z.eqb_spec (Z.land count FIXED) 0) as [|Hfx]; [done|].
  set (e := mkExt INLINE eo el last count) in *. change (tail_extent [e] 0) with (n ← cadd eo el; Some (Z.max 0 n)) in Et.
  destruct (cadd eo el) as [fin|] eqn:Ec2; [|done]. cbn in Et. injection Et as <-. pose proof Ec2 as [-> _]%cadd_Some.
  apply rd_u32_range in Eo, El. pose proof (get_range_len _ _ _ _ Er) as Htl. rewrite Z.max_r in * by lia.
  destruct (get_range_is_Some t eo (eo + el)) as [run Hrun]; [lia..|]. pose proof (get_range_len _ _ _ _ Hrun) as Hrl.
  exists e, run. split; [done|]. split; [done|]. split; [unfold is_fixed; by apply negb_true_iff, Z.eqb_neq|]. split; [done|].
  split; [apply Z.land_nonneg; by right|]. split; [lia|]. unfold inline_run. cbn [e_off e_len e]. rewrite Ec2.
  rewrite (proj2 (Z.leb_le _ _)) by lia. rewrite Hrun. split; [done|]. split; [lia|].
  pose proof (get_range_sub _ _ _ _ _ _ _ Er Hrun) as Hsub. pose proof (get_from_range _ _ _ _ _ _ Hf Hsub) as Hs2. rewrite <- Hs2. f_equal; lia.
Qed.

Lemma fast_agrees base recs off k exts tail len : parse_record base recs off = Some (k, exts, tail, len) -> off mod 4 = 0 ->
  match fast_at recs off with
  | FastOther => True
  | FastErr _ => exists run m, inline_one (exts_deref exts) tail run [] (Err m)
  | FastValues k' vs => k' = k /\ exists run, inline_one (exts_deref exts) tail run vs (Ok (Zlen vs))
  end.
Proof.
  intros Hp Ha. destruct (parse_fields _ _ _ _ _ _ _ Hp Ha) as (h & klen & n & rest & used & Hh & Hk & Hn & Hkey & Hr & Ht).
  unfold fast_at. rewrite Hh. cbn [option_bind mbind]. rewrite Hk, Hn. cbn [option_bind mbind]. rewrite Hkey.
  assert (match fast_run recs n (align_up (off + 4 + klen) 4) with
    | None => True
    | Some (a, elen, m) => exists e run, exts_deref exts = [e] /\ is_inline e = true /\ is_fixed e = true /\ records e = m /\ 0 <= m /\
        elen = Zlen run /\ inline_run e tail = Some (Ok run) /\ e_len e = Zlen run /\ get_range recs a (a + elen) = Some run
    end) as H.
  { destruct (Z.eq_dec n COMPACT) as [->|Hc]. { pose proof (fast_compact _ _ _ _ _ _ _ _ Ht Hn Hr) as H. destruct (fast_run _ _ _) as [[[a l] m]|]; [|done].
      destruct H as (e & H). exists e, tail. exact H. }
    destruct (Z.eq_dec n 1) as [->|H1]; [by apply (fast_full _ _ _ _ _ _ _ _ Ht Hn Hr)|].
    by rewrite (parse_tail_one _ _ _ _ _ _ _ Ht Hn H1 Hc). }
  destruct (fast_run recs n _) as [[[a l] m]|]; [|done]. destruct H as (e & run & He & Hi & Hfx & Hm & H0 & -> & Hin & Hl & Hg).
  pose proof (each_fixed run e m Hfx Hm Hl H0) as He2. pose proof (Zlen_nonneg run).
  destruct ((m =? 0) || (Zlen run =? 0)) eqn:Ez; cbn [orb] in He2.
  { destruct He2 as [msg He2]. exists run, msg. exists e. by split_and!. }
  rewrite Hg. apply orb_false_iff in Ez as [Em Ez]. apply Z.eqb_neq in Em, Ez.
  destruct (Z.eqb_spec m 1) as [->|Hne].
  - rewrite Z.mod_1_r, Z.div_1_r, strides_one in He2 by lia. split; [done|]. exists run, e. by split_and!.
  - destruct (Zlen run mod m =? 0); cbn [negb] in *.
    + split; [done|]. exists run, e. by split_and!.
    + destruct He2 as [msg He2]. exists run, msg, e. by split_and!.
Qed.

(** ** The directory's words *)

Definition dir_word_at (dir : bytes) (r : Z) : bytes := default [] (get_range dir (r * 4) (r * 4 + 4)).

Lemma dir_words m dir rank b : 0 <= rank -> get_range dir (rank * 4) ((rank + Z.of_nat m) * 4) = Some b ->
  b = concat (map (dir_word_at dir) (seqZ rank (Z.of_nat m))) /\ Forall (fun v => length v = 4%nat) (map (dir_word_at dir) (seqZ rank (Z.of_nat m))).
Proof.
  revert rank b. induction m as [|m IH]; intros rank b H0 Hb.
  - rewrite Z.add_0_r in Hb. apply get_range_Some in Hb as (_ & _ & ->). rewrite Z.sub_diag. done.
  - pose proof Hb as (_ & Hle & ->)%get_range_Some. rewrite seqZ_cons by lia. replace (Z.succ rank) with (rank + 1) by lia.
    replace (Z.pred (Z.of_nat (S m))) with (Z.of_nat m) by lia. cbn [map concat].
    destruct (get_range_is_Some dir ((rank + 1) * 4) ((rank + 1 + Z.of_nat m) * 4)) as [b' Hb']; [lia..|].
    destruct (IH (rank + 1) b' ltac:(lia) Hb') as [E Hw].
    destruct (get_range_is_Some dir (rank * 4) (rank * 4 + 4)) as [v Hv]; [lia..|].
    assert (dir_word_at dir rank = v) as -> by (unfold dir_word_at; by rewrite Hv). rewrite <- E.
    pose proof (get_range_len _ _ _ _ Hv) as Hl. split; [|constructor; [unfold Zlen in Hl; lia|done]].
    apply get_range_Some in Hv as (_ & _ & ->), Hb' as (_ & _ & ->).
    replace (Z.to_nat ((rank + 1) * 4)) with (Z.to_nat (rank * 4) + 4)%nat by lia. rewrite <- drop_drop.
    set (l := drop (Z.to_nat (rank * 4)) dir). replace (Z.to_nat (rank * 4 + 4 - rank * 4)) with 4%nat by lia.
    rewrite take_take_drop. f_equal. lia.
Qed.

Lemma scan_words_are dir rank want : 0 <= rank -> 0 <= want ->
  scan_words dir rank want = [] \/ scan_words dir rank want = map (dir_word_at dir) (seqZ rank want).
Proof.
  intros H0 Hw. unfold scan_words. destruct (get_range dir (rank * 4) ((rank + want) * 4)) as [b|] eqn:E; [|by left]. right.
  replace want with (Z.of_nat (Z.to_nat want)) in E by lia. destruct (dir_words _ _ _ _ H0 E) as [-> Hall].
  rewrite Z2Nat.id in * by lia. cbn [default from_option id]. by apply chunks_exact_concat; [lia|].
Qed.

(** ** The loops *)

Section loops.
Context (lz4_decompress_into : bytes -> bytes -> bytes * bool) (src : Source) (B : Blob) (key_base blk_base : Z) (sums : bool).
Local Abbreviation loop := (scan_loop lz4_decompress_into src B key_base blk_base sums).
Local Abbreviation at_rank := (exts_at_full B key_base).
Context (recs dir : bytes) (Hreg : regions (blob_idx B) (key_sec B) = Some (recs, dir)).

(** Every rank from [lo] on resolves, to a record the directory puts at a
    multiple of four. *)
Definition resolves (lo : Z) : Prop := forall r, lo <= r < blob_keys B ->
  is_Some (at_rank r) /\ forall off, rd_u32 dir (r * 4) = Some off -> off mod 4 = 0.

(** The same answer, errors told apart by nothing but being errors. *)
Definition same_end (a b : result Z) : Prop := match a, b with Ok x, Ok y => x = y | Err _, Err _ => True | _, _ => False end.
Definition same_scan (x y : option (result (list (bytes * bytes) * result Z) * Reader)) : Prop :=
  match x, y with
  | Some (Ok (out, r), rs), Some (Ok (out', r'), rs') => out = out' /\ rs = rs' /\ same_end r r'
  | Some (Err _, rs), Some (Err _, rs') => rs = rs'
  | None, None => True
  | _, _ => False
  end.

Definition prepend (out : list (bytes * bytes)) (x : option (result (list (bytes * bytes) * result Z) * Reader)) :=
  match x with Some (Ok (o, e), rs) => Some (Ok (out ++ o, e), rs) | x => x end.

Lemma prepend_app a b x : prepend a (prepend b x) = prepend (a ++ b) x.
Proof. destruct x as [[[[o e]|] rs]|]; cbn; [by rewrite <- app_assoc|done|done]. Qed.

Lemma prepend_nil x : prepend [] x = x.
Proof. by destruct x as [[[[o e]|] rs]|]. Qed.

Lemma rank_record r : at_rank r = at_full_in (blob_idx B) key_base recs dir r.
Proof. unfold exts_at_full, at_full. rewrite Hreg. done. Qed.

Lemma past_keys r : blob_keys B <= r -> at_rank r = None.
Proof. intros H. rewrite rank_record. unfold at_full_in. unfold blob_keys in H. by rewrite (proj2 (Z.leb_le _ _)). Qed.

(** What the general loop does at a record of one inline extent. *)
Lemma loop_inline fuel r seen k exts tail run vs e : at_rank r = Some (k, exts, tail) -> inline_one (exts_deref exts) tail run vs e ->
  forall rs, loop (S fuel) r seen None rs =
    match e with
    | Ok _ => prepend (pairs k vs) (loop fuel (r + 1) (seen + 1) None rs)
    | Err m => Some (Ok (pairs k vs, Err m), rs)
    end.
Proof.
  intros Hr (x & Hx & Hi & Hrun & He) rs. cbn [scan_loop]. rewrite Hr, Hx. unfold bind. cbn [scan_exts].
  unfold scan_run, with_run. rewrite Hi, Hrun. unfold bind, expect, lift, ret. rewrite He. destruct e as [n|m]; cbn; [|done].
  rewrite app_nil_r. destruct (scan_loop _ _ _ _ _ _ _ _ _ _ _) as [[[[out end_]|] ?]|]; done.
Qed.

Lemma rank_word r x : at_rank r = Some x -> exists off len, rd_u32 dir (r * 4) = Some off /\ rd_u32 (dir_word_at dir r) 0 = Some off /\
  parse_record (key_base + (fx_recs (blob_idx B)).1) recs off = Some (x, len).
Proof.
  rewrite rank_record. unfold at_full_in. destruct (_ <=? _); [done|]. destruct (rd_u32 dir (r * 4)) as [off|] eqn:Eo; [|done]. cbn [option_bind mbind].
  destruct (parse_record _ recs off) as [[[[k e] t] len]|] eqn:Ep; [|done]. cbn. intros [= <-]. exists off, len. split; [done|]. split; [|done].
  unfold rd_u32, dir_word_at in *. apply fmap_Some in Eo as (w & Hw & ->). rewrite Hw. cbn [default from_option id]. unfold id.
  pose proof (get_range_len _ _ _ _ Hw) as Hl. rewrite get_range_end by lia. done.
Qed.

Lemma fast_loop_general m r seen rs : resolves r -> r + Z.of_nat m <= blob_keys B ->
  let '(out, n, e) := fast_loop recs (map (dir_word_at dir) (seqZ r (Z.of_nat m))) in
  0 <= n <= Z.of_nat m /\
  match e with
  | None => forall F, loop (Z.to_nat n + F) r seen None rs = prepend out (loop F (r + n) (seen + n) None rs)
  | Some _ => n < Z.of_nat m /\ exists msg, forall F, loop (S (Z.to_nat n) + F) r seen None rs = Some (Ok (out, Err msg), rs)
  end.
Proof.
  revert r seen. induction m as [|m IH]; intros r seen Hres Hk.
  - cbn. split; [lia|]. intros F. by rewrite prepend_nil, !Z.add_0_r.
  - rewrite seqZ_cons by lia. replace (Z.succ r) with (r + 1) by lia. replace (Z.pred (Z.of_nat (S m))) with (Z.of_nat m) by lia.
    cbn [map fast_loop]. destruct (Hres r ltac:(lia)) as [[[[k x] t] Hat] Hal].
    destruct (rank_word r _ Hat) as (off & len & Ho & -> & Hp). cbn [default from_option id]. unfold id.
    pose proof (fast_agrees _ _ _ _ _ _ _ Hp (Hal _ Ho)) as Hf. destruct (fast_at recs off) as [|msg|k' vs].
    + split; [lia|]. intros F. by rewrite prepend_nil, !Z.add_0_r.
    + split; [lia|]. split; [lia|]. destruct Hf as (run & m' & Hone). exists m'. intros F. cbn [Z.to_nat Nat.add].
      by rewrite (loop_inline _ _ _ _ _ _ _ _ _ Hat Hone).
    + destruct Hf as (-> & run & Hone). specialize (IH (r + 1) (seen + 1)).
      destruct (fast_loop recs _) as [[out n] e]. destruct IH as [Hn IH]; [intros r' ?; apply Hres; lia|lia|]. split; [lia|].
      replace (Z.to_nat (n + 1)) with (S (Z.to_nat n)) by lia. destruct e as [e|].
      * destruct IH as (Hlt & msg & IH). split; [lia|]. exists msg. intros F. cbn [Nat.add].
        rewrite (loop_inline _ _ _ _ _ _ _ _ _ Hat Hone). cbn [Nat.add] in IH. by rewrite IH.
      * intros F. cbn [Nat.add]. rewrite (loop_inline _ _ _ _ _ _ _ _ _ Hat Hone), IH, prepend_app. do 2 f_equal; lia.
Qed.

(** Fuel past the keys that are left makes no difference. *)
Lemma loop_fuel F1 F2 r seen c rs : (Z.to_nat (blob_keys B - r) <= F1)%nat -> (Z.to_nat (blob_keys B - r) <= F2)%nat -> loop F1 r seen c rs = loop F2 r seen c rs.
Proof.
  assert (forall F r seen c rs, blob_keys B <= r -> loop F r seen c rs = Some (Ok ([], Ok seen), rs)) as Hend.
  { intros F r' s' c' rs' Hr. destruct F; [done|]. cbn [scan_loop]. by rewrite past_keys. }
  revert F2 r seen c rs. induction F1 as [|F1 IH]; intros F2 r seen c rs H1 H2; [rewrite !Hend by lia; done|].
  destruct (Z.le_gt_cases (blob_keys B) r). { by rewrite !Hend by lia. }
  destruct F2 as [|F2]; [lia|]. cbn [scan_loop]. destruct (at_rank r) as [[[k x] t]|]; [|done]. unfold bind.
  destruct (scan_exts _ _ _ _ _ _ _ _ rs) as [[[[[vs m] c']|] rs']|]; [|done|done]. destruct m; [done|].
  rewrite (IH F2) by lia. done.
Qed.
End loops.

Lemma same_scan_refl x : same_scan x x.
Proof. destruct x as [[[[out [n|m]]|m] rs]|]; done. Qed.

(** C31: the scan reads the common record, one inline fixed run, in a loop that
    takes its fields where they lie and parses nothing; over a section whose
    records from the rank on resolve it visits exactly the keys and values the
    general loop visits, in the same order, stops where that stops, with the
    same count, leaves the reader in the same state, and fails where that
    fails. *)
Theorem scan_fast_general lz4_decompress_into src B key_base blk_base sums recs dir rank limit rs :
  regions (blob_idx B) (key_sec B) = Some (recs, dir) -> resolves B key_base dir rank -> 0 <= rank -> 0 <= limit ->
  same_scan (scan_at lz4_decompress_into src B key_base blk_base sums rank limit rs)
    (scan_loop lz4_decompress_into src B key_base blk_base sums (Z.to_nat (Z.min limit (blob_keys B))) rank 0 None rs).
Proof.
  intros Hreg Hres Hr Hl. unfold scan_at. rewrite Hreg. set (m := Z.min limit (ssub (blob_keys B) rank)). set (loop := scan_loop _ _ _ _ _ _).
  assert (forall F n out, (do* (out', r) := loop F (rank + n) n None in ret (out ++ out', r)) rs = prepend out (loop F (rank + n) n None rs)) as Hb.
  { intros F n out. unfold bind, ret. by destruct (loop F _ n None rs) as [[[[o e]|] ?]|]. }
  assert (same_scan ((do* (out', r) := loop (Z.to_nat (Z.min (limit - 0) (blob_keys B))) (rank + 0) 0 None in ret ([] ++ out', r)) rs)
    (loop (Z.to_nat (Z.min limit (blob_keys B))) rank 0 None rs)) as H0.
  { rewrite Hb, prepend_nil, Z.sub_0_r, Z.add_0_r. apply same_scan_refl. }
  assert (0 <= m) as Hm by (unfold m, ssub; lia). destruct (scan_words_are dir rank m Hr Hm) as [->| ->]; [exact H0|].
  destruct (Z.le_gt_cases (blob_keys B) rank) as [Hp|Hp]. { replace m with 0 by (unfold m, ssub; lia). exact H0. }
  pose proof (fast_loop_general lz4_decompress_into src B key_base blk_base sums recs dir Hreg (Z.to_nat m) rank 0 rs Hres) as Hf.
  rewrite Z2Nat.id in Hf by done. destruct (fast_loop recs _) as [[out n] e]. destruct Hf as [Hn Hf]; [unfold m, ssub; lia|].
  assert (n <= limit /\ n <= blob_keys B) as [? ?] by (unfold m, ssub in *; lia). destruct e as [e|].
  - destruct Hf as (Hlt & msg & Hf). specialize (Hf (Z.to_nat (Z.min limit (blob_keys B)) - S (Z.to_nat n))%nat).
    replace (S (Z.to_nat n) + (Z.to_nat (Z.min limit (blob_keys B)) - S (Z.to_nat n)))%nat with (Z.to_nat (Z.min limit (blob_keys B))) in Hf by (unfold m, ssub in *; lia).
    unfold loop. rewrite Hf. done.
  - rewrite Hb. specialize (Hf (Z.to_nat (Z.min limit (blob_keys B)) - Z.to_nat n)%nat). rewrite Z.add_0_l in Hf.
    replace (Z.to_nat n + (Z.to_nat (Z.min limit (blob_keys B)) - Z.to_nat n))%nat with (Z.to_nat (Z.min limit (blob_keys B))) in Hf by lia.
    unfold loop. rewrite Hf. replace (scan_loop _ _ _ _ _ _ (Z.to_nat (Z.min (limit - n) (blob_keys B))) _ _ _ rs) with
      (scan_loop lz4_decompress_into src B key_base blk_base sums (Z.to_nat (Z.min limit (blob_keys B)) - Z.to_nat n) (rank + n) n None rs); [apply same_scan_refl|].
    destruct (Z.le_gt_cases limit (blob_keys B)); [f_equal; lia|]. apply (loop_fuel _ _ _ _ _ _ recs dir Hreg); lia.
Qed.

(** ** Two keys, at work *)

Definition scan_ext : Ext := run_ext INLINE 0 [x76; x77] 1 FIXED [[x76]; [x77]] false.
Definition scan_recs : bytes := record_bytes [x61] [scan_ext] [x76; x77] true ++ record_bytes [x62] [scan_ext] [x76; x77] true.
Definition scan_sec : bytes :=
  match stream_trailer 1 2 (Zlen scan_recs) (fun i => if i =? 0 then [x61] else [x62])
    (fun i => (i * 16, key_hash (if i =? 0 then [x61] else [x62]))) 7 true with
  | Some (h, t, _) => h ++ scan_recs ++ t
  | None => []
  end.
Definition scan_blob : Blob :=
  mkBlob (mkSec scan_sec 0) (default sample_flat (flat_parse scan_sec)) (mkSec [] 0) (mkMapped 16 0) 7 0 blob_options_default 1.

Lemma scan_fast_general_witness : exists rs out,
  same_scan (scan_at (fun _ s => (s, false)) (bytes_source []) scan_blob 0 0 true 0 9 rs)
    (scan_loop (fun _ s => (s, false)) (bytes_source []) scan_blob 0 0 true 2 0 0 None rs) /\
  scan_at (fun _ s => (s, false)) (bytes_source []) scan_blob 0 0 true 0 9 rs = Some (Ok (out, Ok 2), rs) /\
  out = [([x61], [x76]); ([x61], [x77]); ([x62], [x76]); ([x62], [x77])].
Proof.
  exists (reader_of [] [] None). eexists. split; [|split; [vm_compute; reflexivity|reflexivity]].
  assert (exists recs dir, regions (blob_idx scan_blob) (key_sec scan_blob) = Some (recs, dir) /\ dir = le32 0 ++ le32 16) as (recs & dir & Hreg & Hdir)
    by (eexists _, _; split; vm_compute; reflexivity).
  apply (scan_fast_general (fun _ s => (s, false)) (bytes_source []) scan_blob 0 0 true recs dir 0 9 (reader_of [] [] None) Hreg); [|lia|lia].
  intros r Hr. assert (blob_keys scan_blob = 2) as Hk by (vm_compute; reflexivity). rewrite Hk in Hr.
  assert (r = 0 \/ r = 1) as [-> | ->] by lia; (split; [vm_compute; by eexists|]); intros off Ho; rewrite Hdir in Ho; vm_compute in Ho; injection Ho as <-; reflexivity.
Defined.
