(* ===== verification/BlobCache.v ===== *)
(** * What the reader remembers

    A [Blob] remembers which chunks it has checked, and the thread's buffer
    which span it holds decoded. Proved here: what is remembered is true, and
    no read answers differently for it, so long as one read ends before the
    next begins. A callback that reads again through the reader while a
    compressed block is lent to it leaves the buffer misnamed: proved of any
    two blocks. The span is kept in chunks of [CHUNK] bytes whatever chunk the
    block was written in, and the directory of a chunked block is under no
    checksum: two blocks on which reads go wrong for it close the file, after
    the run of no bytes that is refused. *)

From S2P Require Import Prelude State Varint Runs Crc Chunks BlockTable Records HashTable FlatIndex FlatRead Superblock Blob.

#[local] Open Scope state_scope.

(** ** Buffers that hold the same chunks *)

(** Two buffers that hold the same chunks answer the same range of them. *)
Lemma same_chunks c un (x y : bytes) a b : 0 < c -> 0 <= a < b -> b <= un -> un <= Zlen x -> un <= Zlen y ->
  (forall j, a / c <= j <= (b - 1) / c -> get_range x (j * c) (Z.min ((j + 1) * c) un) = get_range y (j * c) (Z.min ((j + 1) * c) un)) ->
  get_range x a b = get_range y a b.
Proof.
  intros Hc Ha Hb Hx Hy H. destruct (get_range_is_Some x a b) as [r Hr]; [lia..|]. destruct (get_range_is_Some y a b) as [s Hs]; [lia..|].
  rewrite Hr, Hs. f_equal. pose proof (get_range_len _ _ _ _ Hr). pose proof (get_range_len _ _ _ _ Hs). apply get_at_ext; [lia|].
  intros i Hi. rewrite (get_range_get _ _ _ _ i Hr), (get_range_get _ _ _ _ i Hs) by lia. set (p := a + i). set (j := p / c).
  assert (j * c <= p < (j + 1) * c) as Hp by (unfold j; pose proof (Z.div_mod p c); pose proof (Z.mod_pos_bound p c Hc); lia).
  assert (a / c <= j <= (b - 1) / c) as Hj by (split; apply Z.div_le_mono; unfold p; lia).
  specialize (H j Hj). assert (0 <= j) by (pose proof (Z.div_pos a c); lia).
  destruct (get_range_is_Some x (j * c) (Z.min ((j + 1) * c) un)) as [u Hu]; [unfold p in *; nia|lia|].
  rewrite Hu in H. symmetry in H. replace p with (j * c + (p - j * c)) by lia.
  rewrite <- (get_range_get _ _ _ _ (p - j * c) Hu), <- (get_range_get _ _ _ _ (p - j * c) H) by (unfold p in *; lia). done.
Qed.

(** ** One chunk of a chunked block *)

Section chunk.
Context (d : bytes -> bytes -> bytes * bool) (Hd : lz4_in_place d) (blk : bytes) (un n : Z) (check : bool).

(** What chunk [i] decodes to over the bytes [slot], or nothing where it is
    refused. *)
Definition chunk_value (i : Z) (slot : bytes) : option bytes :=
  s0 ← rd_u32 blk (8 + 4 * i);
  s1 ← rd_u32 blk (8 + 4 * (i + 1));
  if (s1 <? s0) || (Zlen blk <? chunk_header_len n + s1) then None
  else
    raw ← get_range blk (chunk_header_len n + s0) (chunk_header_len n + s1);
    c ← rd_u32 blk (8 + 4 * (n + 1) + 4 * i);
    if check && negb (crc32 raw =? c) then None
    else if Zlen raw =? Zlen slot then Some raw
    else let '(out, ok) := d raw slot in if ok then Some out else None.

Definition slot_len (i : Z) : Z := Z.min ((i + 1) * CHUNK) un - i * CHUNK.

(** What it decodes to, over zeroes. *)
Definition chunk_of (i : Z) : option bytes := chunk_value i (zeros (slot_len i)).

(** Whatever the buffer held, a chunk decodes to the same bytes. *)
Definition steady : Prop := forall i slot, 0 <= i < n -> Zlen slot = slot_len i -> chunk_value i slot = chunk_of i.

Local Abbreviation one := (read_chunk d blk un CHUNK (chunk_header_len n) (8 + 4 * (n + 1)) check).
Local Abbreviation all := (read_chunks d blk un CHUNK (chunk_header_len n) (8 + 4 * (n + 1)) check).

Context (Hn : 0 <= n) (Hlen : chunk_header_len n <= Zlen blk) (Hs : steady).

Lemma chunk_one i dst : 0 <= i < n -> i * CHUNK < un -> un <= Zlen dst ->
  match chunk_of i with
  | Some p => exists dst', one dst i = Some (dst', Ok tt) /\ put_range dst (i * CHUNK) p = Some dst' /\ Zlen p = slot_len i
  | None => exists dst' m, one dst i = Some (dst', Err m) /\ Zlen dst' = Zlen dst
  end.
Proof.
  intros Hi Hu Hdst. assert (0 < slot_len i) as Hsl by (unfold slot_len, CHUNK in *; lia).
  destruct (get_range_is_Some dst (i * CHUNK) (Z.min ((i + 1) * CHUNK) un)) as [slot Hslot]; [unfold slot_len, CHUNK in *; lia|lia|].
  pose proof (get_range_len _ _ _ _ Hslot) as Hl. fold (slot_len i) in Hl. rewrite <- (Hs i slot Hi Hl). unfold read_chunk, chunk_value.
  unfold chunk_header_len in *. destruct (rd_u32_is_Some blk (8 + 4 * i)) as [s0 E0]; [lia..|]. rewrite E0.
  destruct (rd_u32_is_Some blk (8 + 4 * (i + 1))) as [s1 E1]; [lia..|]. rewrite E1. cbn [option_bind mbind].
  destruct (Z.ltb_spec s1 s0), (Z.ltb_spec (Zlen blk) (8 + 4 * (n + 1) + 4 * n + s1)); cbn [orb]; [by eexists _, _..|].
  apply rd_u32_range in E0. destruct (get_range_is_Some blk (8 + 4 * (n + 1) + 4 * n + s0) (8 + 4 * (n + 1) + 4 * n + s1)) as [raw Er]; [lia..|].
  rewrite Er. cbn [option_bind mbind]. destruct (rd_u32_is_Some blk (8 + 4 * (n + 1) + 4 * i)) as [c Ec]; [lia..|]. rewrite Ec. cbn [option_bind mbind].
  destruct (check && _); [by eexists _, _|]. cbv zeta. rewrite (proj2 (Z.ltb_ge _ _)) by (unfold slot_len in Hsl; lia).
  rewrite Hslot. cbn [option_bind mbind]. fold (slot_len i). rewrite Hl. destruct (Z.eqb_spec (Zlen raw) (slot_len i)) as [E|E].
  - destruct (put_range_is_Some dst (i * CHUNK) raw) as [d' Hp]; [unfold CHUNK in *; lia|unfold slot_len in *; lia|].
    rewrite Hp. exists d'. done.
  - pose proof (Hd raw slot) as Hin. destruct (d raw slot) as [out ok]. cbn [fst] in Hin.
    destruct (put_range_is_Some dst (i * CHUNK) out) as [d' Hp]; [unfold CHUNK in *; lia|unfold slot_len in *; lia|].
    rewrite Hp. cbn [option_bind mbind]. destruct ok; [exists d'; split_and!; [done|done|lia]|].
    eexists _, _. split; [done|]. by eapply put_range_len.
Qed.

Lemma chunk_all m first dst : 0 <= first -> first + Z.of_nat m <= n -> (0 < Z.of_nat m -> (first + Z.of_nat m - 1) * CHUNK < un) -> un <= Zlen dst ->
  (forall i, first <= i < first + Z.of_nat m -> is_Some (chunk_of i)) /\
    (exists dst', all (seqZ first (Z.of_nat m)) dst = Some (dst', Ok tt) /\ Zlen dst' = Zlen dst /\
      (forall i, first <= i < first + Z.of_nat m -> get_range dst' (i * CHUNK) (Z.min ((i + 1) * CHUNK) un) = chunk_of i) /\
      (forall lo hi, hi <= first * CHUNK -> get_range dst' lo hi = get_range dst lo hi)) \/
  (exists i, first <= i < first + Z.of_nat m /\ chunk_of i = None) /\
    exists dst' e, all (seqZ first (Z.of_nat m)) dst = Some (dst', Err e) /\ Zlen dst' = Zlen dst.
Proof.
  revert first dst. induction m as [|m IH]; intros first dst H0 H1 H2 Hdst.
  - left. split; [intros; lia|]. exists dst. split; [done|]. split; [done|]. split; [intros; lia|done].
  - rewrite seqZ_cons by lia. replace (Z.succ first) with (first + 1) by lia. replace (Z.pred (Z.of_nat (S m))) with (Z.of_nat m) by lia.
    cbn [read_chunks]. pose proof (chunk_one first dst ltac:(lia) ltac:(unfold CHUNK in *; lia) Hdst) as Hone.
    destruct (chunk_of first) as [p|] eqn:Ep.
    2:{ destruct Hone as (dst' & e & -> & Hl). right. split; [exists first; split; [lia|done]|]. by exists dst', e. }
    destruct Hone as (d1 & -> & Hp & Hpl). cbn [option_bind mbind]. pose proof (put_range_len _ _ _ _ Hp) as Hl1.
    destruct (IH (first + 1) d1) as [[Ha (d2 & -> & Hl2 & Hg & Hb)]|[(i & Hi & Hn') He]]; [lia..|left|right].
    + split. { intros i Hi. destruct (Z.eq_dec i first) as [->|]; [by rewrite Ep|apply Ha; lia]. }
      exists d2. split; [done|]. split; [lia|]. split.
      * intros i Hi. destruct (Z.eq_dec i first) as [->|]; [|apply Hg; lia]. rewrite Hb by lia.
        rewrite Ep, <- (get_put_same _ _ _ _ Hp), Hpl. unfold slot_len. f_equal. lia.
      * intros lo hi Hh. rewrite Hb by (unfold CHUNK in *; lia). apply (get_put_apart _ _ _ _ _ _ Hp). by left.
    + split; [exists i; split; [lia|done]|]. destruct He as (d2 & e & He & Hl2). exists d2, e. split; [exact He|lia].
Qed.
End chunk.

(** The directory's own words, as the reader checks them. *)
Definition dir_good (blk : bytes) (n : Z) : Prop := 8 <= Zlen blk /\ n <> 0 /\ n <= Z.shiftl 1 20 /\ chunk_header_len n <= Zlen blk.

(** The chunks of [a..b] are all there and all decode. *)
Definition range_good (d : bytes -> bytes -> bytes * bool) (blk : bytes) (un : Z) (check : bool) (a b : Z) : Prop :=
  exists n, rd_u32 blk 4 = Some n /\ dir_good blk n /\ forall j, a / CHUNK <= j <= (b - 1) / CHUNK -> is_Some (chunk_of d blk un n check j).

(** A buffer that holds them. *)
Definition holds_chunks (d : bytes -> bytes -> bytes * bool) (blk : bytes) (un : Z) (check : bool) (a b : Z) (dec : bytes) : Prop :=
  un <= Zlen dec /\ forall n j, rd_u32 blk 4 = Some n -> a / CHUNK <= j <= (b - 1) / CHUNK ->
    get_range dec (j * CHUNK) (Z.min ((j + 1) * CHUNK) un) = chunk_of d blk un n check j.

Lemma div_chunk_lt x j : 0 <= x -> j <= x / CHUNK -> j * CHUNK <= x.
Proof. intros H0 H. pose proof (Z.div_mod x CHUNK ltac:(done)). pose proof (Z.mod_pos_bound x CHUNK ltac:(done)). unfold CHUNK in *. lia. Qed.

Lemma range_read d blk un check a b dst : lz4_in_place d -> 0 <= a < b -> b <= un -> un <= Zlen dst ->
  (forall n, rd_u32 blk 4 = Some n -> rd_u32 blk 0 = Some CHUNK /\ un <= n * CHUNK /\ steady d blk un n check) ->
  range_good d blk un check a b /\ (exists dst', read_chunked_range d blk un a b dst check = Some (dst', Ok tt) /\
    Zlen dst' = Zlen dst /\ holds_chunks d blk un check a b dst') \/
  ~ range_good d blk un check a b /\ exists dst' e, read_chunked_range d blk un a b dst check = Some (dst', Err e) /\ Zlen dst' = Zlen dst.
Proof.
  intros Hd Ha Hb Hdst Hs. unfold read_chunked_range.
  assert (forall msg, ~ range_good d blk un check a b -> Some (dst, Err msg) = Some (dst, @Err unit msg) /\ True ->
    range_good d blk un check a b /\ (exists dst', Some (dst, @Err unit msg) = Some (dst', Ok tt) /\ Zlen dst' = Zlen dst /\ holds_chunks d blk un check a b dst') \/
    ~ range_good d blk un check a b /\ exists dst' e, Some (dst, @Err unit msg) = Some (dst', Err e) /\ Zlen dst' = Zlen dst) as Hbad.
  { intros msg Hn _. right. split; [done|]. by exists dst, msg. }
  destruct (Z.ltb_spec (Zlen blk) 8). { apply Hbad; [|done]. intros (n & _ & (? & _) & _). lia. }
  destruct (rd_u32_is_Some blk 4) as [n Hn]; [lia..|]. destruct (Hs n Hn) as (Hc & Hun & Hst). rewrite Hc, Hn. cbn [option_bind mbind].
  assert (forall m, rd_u32 blk 4 = Some m -> m = n) as Hone by (intros m Hm; rewrite Hn in Hm; by injection Hm).
  change (CHUNK =? 0) with false. cbn [orb]. destruct (Z.eqb_spec n 0). { apply Hbad; [|done]. intros (m & ->%Hone & (_ & ? & _) & _). lia. }
  cbn [orb]. destruct (Z.ltb_spec (Z.shiftl 1 20) n). { apply Hbad; [|done]. intros (m & ->%Hone & (_ & _ & ? & _) & _). lia. }
  destruct (Z.ltb_spec (Zlen blk) (chunk_header_len n)). { apply Hbad; [|done]. intros (m & ->%Hone & (_ & _ & _ & ?) & _). lia. }
  cbv zeta. pose proof (rd_u32_range _ _ _ Hn). replace (ssub b 1) with (b - 1) by (unfold ssub; lia).
  pose proof (Z.div_le_mono a (b - 1) CHUNK ltac:(done) ltac:(lia)) as Hle. pose proof (Z.div_pos a CHUNK ltac:(lia) ltac:(done)).
  pose proof (div_chunk_lt (b - 1) ((b - 1) / CHUNK) ltac:(lia) ltac:(lia)) as Hlast.
  rewrite Z.min_l by (unfold CHUNK in *; lia). set (m := (b - 1) / CHUNK - a / CHUNK + 1).
  destruct (chunk_all d Hd blk un n check ltac:(lia) Hst (Z.to_nat m) (a / CHUNK) dst) as [[Hall (dst' & Hr & Hl & Hg & _)]|[(i & Hi & Hnone) (dst' & e & Hr & Hl)]];
    [lia|unfold m, CHUNK in *; lia|unfold m, CHUNK in *; lia|done| |]; rewrite Z2Nat.id in Hr by lia; rewrite Hr.
  - left. split; [|exists dst'; split; [done|]; split; [done|]; split; [lia|]].
    + exists n. split; [done|]. split; [done|]. intros j Hj. apply Hall. lia.
    + intros n' j ->%Hone Hj. apply Hg. lia.
  - right. split; [|by exists dst', e]. intros (n' & ->%Hone & _ & H'). destruct (H' i ltac:(lia)) as [x Hx]. by rewrite Hnone in Hx.
Qed.

(** ** The object a reader is over *)

(** A source answers a part of a range as the range's part. *)
Definition source_coherent (src : Source) : Prop := forall off len b, src_read src off len = Some b ->
  Zlen b = len /\ forall lo hi, 0 <= lo <= hi -> hi <= len -> src_read src (off + lo) (hi - lo) = get_range b lo hi.

Lemma bytes_coherent b : source_coherent (bytes_source b).
Proof.
  intros off len r Hr. cbn in *. pose proof (get_range_len _ _ _ _ Hr) as Hl. split; [lia|]. intros lo hi H0 H1.
  destruct (get_range_is_Some r lo hi) as [s Hs]; [lia..|]. rewrite Hs. rewrite <- (get_range_sub _ _ _ _ _ _ _ Hr Hs). f_equal; lia.
Qed.

Lemma mapped_get_range base m sec i loc : mapped_get base m sec i = Some loc ->
  0 <= bl_off loc < U64 /\ 0 <= bl_stored loc < U32 /\ 0 <= bl_uncompressed loc < U32.
Proof.
  unfold mapped_get. destruct (mb_n m <=? i); [done|]. destruct (cmul i BLK_ENTRY); [|done]. cbn [option_bind mbind].
  destruct (cadd (mb_off m) _); [|done]. cbn [option_bind mbind]. destruct (cadd _ BLK_ENTRY); [|done]. cbn [option_bind mbind].
  destruct (get_range sec _ _) as [b|]; [|done]. cbn [option_bind mbind]. destruct (negb _); [done|]. unfold rec_at.
  destruct (rd_u64 b 0) as [o|] eqn:E0; [|done]. cbn [option_bind mbind]. destruct (rd_u32 b 8) as [s|] eqn:E1; [|done]. cbn [option_bind mbind].
  destruct (rd_u32 b 12) as [u|] eqn:E2; [|done]. cbn [option_bind mbind]. destruct (rd_u32 b 16); [|done]. cbn [option_bind mbind].
  destruct (rd_u32 b 20); [|done]. cbn [option_bind mbind]. destruct (get_at b 24); [|done]. cbn. intros [= <-].
  cbn [to_loc bl_off bl_stored bl_uncompressed br_off br_stored br_uncompressed].
  split; [by apply rd_u64_range in E0|]. split; [by apply rd_u32_range in E1|by apply rd_u32_range in E2].
Qed.

Section object.
Context (d : bytes -> bytes -> bytes * bool) (src : Source) (B : Blob) (blk_base : Z) (sums : bool).
Local Abbreviation check := (verify_checksums (blob_opts B)).
Local Abbreviation loc_at := (loc_of B blk_base).
Local Abbreviation chunk_crc := (mapped_chunk_crc (blob_blocks B) (blk_sec B)).

Lemma loc_at_range i loc : loc_at i = Ok loc -> 0 <= bl_off loc < U64 /\ 0 <= bl_stored loc < U32 /\ 0 <= bl_uncompressed loc < U32.
Proof.
  unfold loc_of, ok_or. destruct (mapped_get _ _ _ i) as [l|] eqn:E; [|done]. intros [= <-]. by apply mapped_get_range in E.
Qed.

(** What a sound object is: the source coherent, the decoder in place, every
    chunk of a block checksummed by the chunk has its checksum in the table,
    and every chunked block is in chunks of [CHUNK] bytes, all of them there,
    decoding to the same bytes whatever they are decoded over. *)
Definition table_rows : Prop := forall i loc, 0 <= i -> loc_at i = Ok loc -> bl_chunk_crc loc = true ->
  forall j, 0 <= j -> j * CHUNK < bl_stored loc -> is_Some (chunk_crc i j).
Definition chunked_sound : Prop := forall i loc raw n, 0 <= i -> loc_at i = Ok loc -> is_plain loc = false -> bl_chunked loc = true ->
  src_read src (bl_off loc) (bl_stored loc) = Some raw -> rd_u32 raw 4 = Some n ->
  rd_u32 raw 0 = Some CHUNK /\ bl_uncompressed loc <= n * CHUNK /\ steady d raw (bl_uncompressed loc) n check.
Definition whole_sound : Prop := forall i loc raw, 0 <= i -> loc_at i = Ok loc -> is_plain loc = false -> bl_chunked loc = false ->
  src_read src (bl_off loc) (bl_stored loc) = Some raw ->
  forall s1 s2, Zlen s1 = bl_uncompressed loc -> Zlen s2 = bl_uncompressed loc ->
    snd (d raw s1) = snd (d raw s2) /\ (snd (d raw s1) = true -> fst (d raw s1) = fst (d raw s2)).
Definition sound : Prop := source_coherent src /\ lz4_in_place d /\ table_rows /\ chunked_sound /\ whole_sound.

(** ** What the bits remember *)

Definition chunk_ok (i : Z) (loc : BlockLoc) (j : Z) : Prop := exists want piece, chunk_crc i j = Some want /\
  src_read src (bl_off loc + j * CHUNK) (Z.min ((j + 1) * CHUNK) (bl_stored loc) - j * CHUNK) = Some piece /\ crc32 piece = want.
Definition whole_ok (loc : BlockLoc) : Prop := exists raw, src_read src (bl_off loc) (bl_stored loc) = Some raw /\ crc32 raw = bl_crc loc.
Definition by_chunks (loc : BlockLoc) : bool := bl_chunk_crc loc && (0 <? bl_stored loc).

Definition bits_ok (rs : Reader) : Prop := forall i j, 0 <= i -> 0 <= j < MAX_CHUNK_CRCS -> is_verified i j rs = true ->
  exists loc, loc_at i = Ok loc /\ if by_chunks loc then chunk_ok i loc j else j = 0 /\ whole_ok loc.

(** The check of [a..b], whatever is remembered. *)
Definition passes (i : Z) (loc : BlockLoc) (a b : Z) : Prop :=
  check = false \/ sums = false \/
  (if by_chunks loc then forall j, a / CHUNK <= j <= (b - 1) / CHUNK -> chunk_ok i loc j else whole_ok loc).

Lemma set_verified_bit i j i' j' rs : 0 <= i -> 0 <= i' -> 0 <= j < MAX_CHUNK_CRCS -> 0 <= j' < MAX_CHUNK_CRCS ->
  is_verified i' j' (set_verified i j rs) = true -> i' = i /\ j' = j \/ is_verified i' j' rs = true.
Proof.
  unfold MAX_CHUNK_CRCS. intros Hi Hi' Hj Hj'. unfold is_verified, set_verified, MAX_CHUNK_CRCS. cbn [rs_verified].
  set (s := i * 16 + j). set (s' := i' * 16 + j'). destruct (get_at (rs_verified rs) (s / 64)) as [c|] eqn:Ec; cbn [option_bind mbind]; [|by right].
  destruct (put_range _ _ _) as [w|] eqn:Ew; cbn [default from_option id]; unfold id; [|by right].
  rewrite (put_range_get _ _ _ _ (s' / 64) Ew). case_decide as Hd; [|by right]. rewrite Zlen_cons in Hd. znil.
  assert (s' / 64 = s / 64) as E by lia. rewrite E, Z.sub_diag. change (get_at [?x] 0) with (Some x). rewrite Ec.
  rewrite Z.lor_spec, Z.shiftl_1_l. intros [Hb|Hb]%orb_true_iff; [by right|]. rewrite Z.pow2_bits_eqb in Hb by (apply Z.mod_pos_bound; lia).
  apply Z.eqb_eq in Hb. left. pose proof (Z.div_mod s 64). pose proof (Z.div_mod s' 64). unfold s, s' in *. lia.
Qed.

Lemma set_bits i j rs loc : bits_ok rs -> 0 <= i -> 0 <= j < MAX_CHUNK_CRCS -> loc_at i = Ok loc ->
  (if by_chunks loc then chunk_ok i loc j else j = 0 /\ whole_ok loc) -> bits_ok (set_verified i j rs).
Proof.
  intros Hb Hi Hj Hl Hok i' j' Hi' Hj' Hv. destruct (set_verified_bit i j i' j' rs Hi Hi' Hj Hj' Hv) as [[-> ->]|Hv2]; [by exists loc|by apply Hb].
Qed.
Definition buffer_kept (rs rs' : Reader) : Prop := rs_dec rs' = rs_dec rs /\ rs_dec_at rs' = rs_dec_at rs.

(** A check that answers [P], and remembers nothing false. *)
Definition checks (P : Prop) (x : option (result unit * Reader)) (rs : Reader) : Prop := exists r rs',
  x = Some (r, rs') /\ bits_ok rs' /\ buffer_kept rs rs' /\ match r with Ok _ => P | Err _ => ~ P end.

Lemma no_check (P : Prop) rs : P -> bits_ok rs -> checks P (ret tt rs) rs.
Proof. intros HP Hb. by exists (Ok tt), rs. Qed.

Context (Hsound : sound).

Lemma whole_checks i loc raw rs : 0 <= i -> loc_at i = Ok loc -> by_chunks loc = false -> src_read src (bl_off loc) (bl_stored loc) = Some raw -> bits_ok rs ->
  checks (whole_ok loc) (verify_whole i loc raw 0 rs) rs.
Proof.
  intros Hi Hl Hc Hr Hb. destruct Hsound as (Hco & _). destruct (Hco _ _ _ Hr) as [Hlen _]. unfold verify_whole. rewrite Hlen, !Z.eqb_refl. cbn [negb orb].
  unfold bind, gets. destruct (is_verified i 0 rs) eqn:Hv.
  - exists (Ok tt), rs. split; [done|]. split; [done|]. split; [done|]. destruct (Hb i 0 Hi ltac:(done) Hv) as (loc' & Hl' & H).
    rewrite Hl in Hl'. injection Hl' as <-. rewrite Hc in H. apply H.
  - destruct (Z.eqb_spec (crc32 raw) (bl_crc loc)) as [E|E]; cbn [negb].
    + eexists (Ok tt), _. split; [reflexivity|]. assert (whole_ok loc) as Hw by by exists raw. split; [|by split].
      eapply set_bits; try done. by rewrite Hc.
    + exists (Err "block checksum mismatch"), rs. split; [done|]. split; [done|]. split; [done|]. intros (raw' & Hr' & Hcrc). rewrite Hr in Hr'. by injection Hr' as <-.
Qed.

Lemma chunks_check i loc raw base m first rs : 0 <= i -> loc_at i = Ok loc -> by_chunks loc = true -> 0 <= base -> base mod CHUNK = 0 ->
  src_read src (bl_off loc + base) (Zlen raw) = Some raw -> base <= first * CHUNK -> 
  (forall j, first <= j < first + Z.of_nat m -> j * CHUNK < base + Zlen raw /\ Z.min ((j + 1) * CHUNK) (base + Zlen raw) = Z.min ((j + 1) * CHUNK) (bl_stored loc)) ->
  bits_ok rs ->
  checks (forall j, first <= j < first + Z.of_nat m -> chunk_ok i loc j) (verify_chunks B i loc raw base (seqZ first (Z.of_nat m)) rs) rs.
Proof.
  intros Hi Hl Hc Hb0 Hbm Hr. destruct Hsound as (Hco & _ & Hrows & _). revert first rs. induction m as [|m IH]; intros first rs Hf Hj Hb.
  - exists (Ok tt), rs. split; [done|]. split; [done|]. split; [done|]. intros; lia.
  - rewrite seqZ_cons by lia. replace (Z.succ first) with (first + 1) by lia. replace (Z.pred (Z.of_nat (S m))) with (Z.of_nat m) by lia. cbn [verify_chunks].
    destruct (Hj first ltac:(lia)) as [Hlt Hmin]. pose proof Hc as [Hcc Hst]%andb_true_iff. apply Z.ltb_lt in Hst.
    assert (0 <= first) as Hf0 by (unfold CHUNK in *; lia).
    destruct (Hrows i loc Hi Hl Hcc first Hf0) as [want Hw]; [unfold CHUNK in *; lia|]. rewrite Hw.
    assert (first < MAX_CHUNK_CRCS) as Hf16.
    { unfold mapped_chunk_crc in Hw. destruct (Z.leb_spec MAX_CHUNK_CRCS first); [|done]. by rewrite orb_true_r in Hw. }
    rewrite (proj2 (Z.ltb_lt _ _)), (proj2 (Z.leb_le _ _)) by (unfold CHUNK in *; lia). cbn [andb]. rewrite Hmin.
    assert (forall rs, bits_ok rs -> checks (forall j, first + 1 <= j < first + 1 + Z.of_nat m -> chunk_ok i loc j)
      (verify_chunks B i loc raw base (seqZ (first + 1) (Z.of_nat m)) rs) rs) as IH' by (intros; apply IH; [unfold CHUNK in *; lia|intros; apply Hj; lia|done]).
    assert (forall x rs, chunk_ok i loc first -> checks (forall j, first + 1 <= j < first + 1 + Z.of_nat m -> chunk_ok i loc j) x rs ->
      checks (forall j, first <= j < first + Z.of_nat (S m) -> chunk_ok i loc j) x rs) as Hmore.
    { intros x rs' H0 (r & rs'' & Hx & Hb' & Hk & Hr'). exists r, rs''. split; [done|]. split; [done|]. split; [done|]. destruct r.
      - intros j Hj'. destruct (Z.eq_dec j first) as [->|]; [done|]. apply Hr'. lia.
      - intros H. apply Hr'. intros j Hj'. apply H. lia. }
    unfold bind at 1, gets at 1. destruct (is_verified i first rs) eqn:Hv.
    { apply Hmore; [|by apply IH']. destruct (Hb i first Hi ltac:(lia) Hv) as (loc' & Hl' & H). rewrite Hl in Hl'. injection Hl' as <-. by rewrite Hc in H. }
    destruct (Hco _ _ _ Hr) as [_ Hsub].
    destruct (get_range_is_Some raw (first * CHUNK - base) (Z.min ((first + 1) * CHUNK) (bl_stored loc) - base)) as [piece Hp]; [unfold CHUNK in *; lia|lia|].
    pose proof Hp as Hp2. rewrite <- Hsub in Hp2 by (unfold CHUNK in *; lia). unfold bind at 1, expect at 1. rewrite Hp.
    replace (bl_off loc + base + (first * CHUNK - base)) with (bl_off loc + first * CHUNK) in Hp2 by lia.
    replace (Z.min ((first + 1) * CHUNK) (bl_stored loc) - base - (first * CHUNK - base)) with (Z.min ((first + 1) * CHUNK) (bl_stored loc) - first * CHUNK) in Hp2 by lia.
    destruct (Z.eqb_spec (crc32 piece) want) as [E|E]; cbn [negb].
    + assert (chunk_ok i loc first) as Hok by by exists want, piece. apply Hmore; [done|]. unfold bind at 1, modify at 1.
      destruct (IH' (set_verified i first rs)) as (r & rs' & Hx & Hb' & Hk & Hr'); [eapply set_bits; [done|done|lia|done|by rewrite Hc]|].
      by exists r, rs'.
    + exists (Err "block checksum mismatch"), rs. split; [done|]. split; [done|]. split; [done|]. intros H.
      destruct (H first ltac:(lia)) as (want' & piece' & Hw' & Hp' & Hcrc). rewrite Hw in Hw'. rewrite Hp2 in Hp'. injection Hw' as <-. injection Hp' as <-. done.
Qed.

(** What a read holds of a block when it checks a span of it: the block, or
    the chunks the span lies in. *)
Definition spans (loc : BlockLoc) (raw : bytes) (base lo hi : Z) : Prop :=
  src_read src (bl_off loc + base) (Zlen raw) = Some raw /\ 0 <= base <= lo /\ hi <= base + Zlen raw /\
  (lo < hi \/ lo = 0 /\ hi = 0 /\ bl_stored loc = 0) /\
  (base = 0 /\ Zlen raw = bl_stored loc \/
   by_chunks loc = true /\ base = lo / CHUNK * CHUNK /\ base + Zlen raw = Z.min (div_ceil hi CHUNK * CHUNK) (bl_stored loc)).

Lemma verify_checks i loc raw base lo hi rs : 0 <= i -> loc_at i = Ok loc -> spans loc raw base lo hi -> bits_ok rs ->
  checks (passes i loc lo hi) (verify B sums i loc raw base lo hi rs) rs.
Proof.
  intros Hi Hl (Hr & Hb0 & Hhi & Hlh & Hcase) Hb. unfold verify, passes. destruct check; cbn [negb orb]; [|apply no_check; [by left|done]].
  destruct sums; cbn [negb]; [|apply no_check; [by right; left|done]].
  assert (forall P x, checks P x rs -> checks (true = false \/ true = false \/ P) x rs) as Hor.
  { intros P x (r & rs' & H1 & H2 & H3 & H4). exists r, rs'. split_and!; try done. destruct r; [by right; right|]. intros [?|[?|?]]; [done|done|by apply H4]. }
  apply Hor. destruct (loc_at_range _ _ Hl) as (_ & Hst & _). destruct (by_chunks loc) eqn:Hc.
  - pose proof Hc as [Hcc Hpos]%andb_true_iff. apply Z.ltb_lt in Hpos. rewrite Hcc. cbn [negb orb].
    destruct Hlh as [Hlh|(_ & _ & ?)]; [|lia]. rewrite (proj2 (Z.ltb_ge _ _)), (proj2 (Z.ltb_ge _ _)), (proj2 (Z.leb_gt _ _)) by lia. cbn [orb].
    pose proof (Z.div_mod lo CHUNK ltac:(done)) as D1. pose proof (Z.mod_pos_bound lo CHUNK ltac:(done)) as D2.
    pose proof (Z.div_mod (hi - 1) CHUNK ltac:(done)) as D3. pose proof (Z.mod_pos_bound (hi - 1) CHUNK ltac:(done)) as D4.
    assert (lo / CHUNK <= (hi - 1) / CHUNK) as Hle by (apply Z.div_le_mono; lia).
    set (m := (hi - 1) / CHUNK - lo / CHUNK + 1). replace m with (Z.of_nat (Z.to_nat m)) by lia.
    assert (div_ceil hi CHUNK = (hi - 1) / CHUNK + 1) as Hd.
    { unfold div_ceil. replace (hi + CHUNK - 1) with (hi - 1 + 1 * CHUNK) by lia. by rewrite Z.div_add by done. }
    pose proof (chunks_check i loc raw base (Z.to_nat m) (lo / CHUNK) rs Hi Hl Hc ltac:(lia)) as H.
    destruct H as (r & rs' & H1 & H2 & H3 & H4); [|done| | |done|].
    + destruct Hcase as [(-> & _)|(_ & -> & _)]; [done|]. by rewrite Z.mod_mul.
    + destruct Hcase as [(-> & _)|(_ & -> & _)]; unfold CHUNK in *; lia.
    + intros j Hj. destruct Hcase as [(-> & E)|(_ & E1 & E2)]; [unfold CHUNK in *; lia|]. rewrite Hd in E2. unfold CHUNK in *. lia.
    + exists r, rs'. split; [done|]. split; [done|]. split; [done|]. destruct r; [intros j Hj; apply H4; lia|]. intros H. apply H4. intros j Hj. apply H. lia.
  - assert (negb (bl_chunk_crc loc) || (base + Zlen raw <? hi) || (lo <? base) || (hi <=? lo) = true) as ->.
    { unfold by_chunks in Hc. destruct (bl_chunk_crc loc); cbn [andb negb orb] in *; [|done]. apply Z.ltb_ge in Hc.
      destruct Hlh as [?|(-> & -> & _)]; [|by rewrite !orb_true_r]. destruct Hcase as [(-> & E)|(? & _)]; [lia|done]. }
    destruct Hcase as [(-> & E)|(? & _)]; [|done]. rewrite Z.add_0_r, E in Hr. by apply whole_checks.
Qed.
(** ** What the buffer holds *)

(** A block compressed as one stream, decompressed. *)
Definition block_value (raw : bytes) (un : Z) : option bytes := let '(out, ok) := d raw (zeros un) in if ok then Some out else None.

(** What the buffer is said to hold of a block, it holds. *)
Definition buf_ok (rs : Reader) : Prop := forall b lo hi, dec_at B rs = Some (b, lo, hi) -> exists loc raw,
  loc_at b = Ok loc /\ src_read src (bl_off loc) (bl_stored loc) = Some raw /\ bl_uncompressed loc <= Zlen (rs_dec rs) /\
  if bl_chunked loc then forall x y, 0 <= x < y -> y <= bl_uncompressed loc -> lo <= x / CHUNK * CHUNK -> Z.min (div_ceil y CHUNK * CHUNK) (bl_uncompressed loc) <= hi ->
      range_good d raw (bl_uncompressed loc) check x y /\ holds_chunks d raw (bl_uncompressed loc) check x y (rs_dec rs)
  else is_Some (block_value raw (bl_uncompressed loc)) /\ get_range (rs_dec rs) 0 (bl_uncompressed loc) = block_value raw (bl_uncompressed loc).

Definition cache_ok (rs : Reader) : Prop := bits_ok rs /\ buf_ok rs.

Lemma kept_buf rs rs' : buffer_kept rs rs' -> buf_ok rs -> buf_ok rs'.
Proof. intros [H1 H2] H b lo hi. unfold dec_at. rewrite H1, H2. apply H. Qed.

Lemma none_buf rs : rs_dec_at rs = None -> buf_ok rs.
Proof. intros H b lo hi. unfold dec_at. by rewrite H. Qed.

Lemma bits_words rs rs' : rs_verified rs' = rs_verified rs -> bits_ok rs -> bits_ok rs'.
Proof. intros H Hb i j Hi Hj. unfold is_verified. rewrite H. by apply Hb. Qed.

Lemma grow_ok un rs : 0 <= un -> cache_ok rs -> cache_ok (grow un rs) /\ un <= Zlen (rs_dec (grow un rs)).
Proof.
  intros Hu [Hb Hf]. unfold grow. destruct (Z.ltb_spec (Zlen (rs_dec rs)) un); [|done]. split; [split; [by eapply bits_words|by apply none_buf]|].
  cbn [rs_dec]. rewrite Zlen_app, Zlen_zeros by lia. lia.
Qed.

(** A decoder run over the first bytes of the buffer. *)
Lemma decode_into_run un decode rs dst' r : 0 <= un <= Zlen (rs_dec rs) -> 
  (forall dst, get_range (rs_dec rs) 0 un = Some dst -> decode dst = Some (dst', r)) -> Zlen dst' = un ->
  exists rs', decode_into un decode rs = Some (r, rs') /\ rs_verified rs' = rs_verified rs /\ rs_dec_at rs' = rs_dec_at rs /\
    Zlen (rs_dec rs') = Zlen (rs_dec rs) /\ forall lo hi, hi <= un -> get_range (rs_dec rs') lo hi = get_range dst' lo hi.
Proof.
  intros Hu Hdec Hl. unfold decode_into, bind, gets, expect. destruct (get_range_is_Some (rs_dec rs) 0 un) as [dst Hd0]; [lia..|].
  rewrite Hd0, (Hdec _ Hd0). destruct (put_range_is_Some (rs_dec rs) 0 dst') as [dec Hp]; [lia|lia|]. rewrite Hp. unfold modify, lift.
  pose proof (put_range_len _ _ _ _ Hp) as Hpl. eexists. split; [done|]. cbn [rs_verified rs_dec rs_dec_at]. split; [done|]. split; [done|]. split; [done|].
  intros lo hi Hhi. apply put_range_Some in Hp as (a & b & c & E & -> & E0 & _). symmetry in E0. apply Zlen_zero_nil in E0. subst a. cbn [app].
  destruct (get_range dst' lo hi) as [x|] eqn:Ex; [by apply get_range_app_l|]. unfold get_range in *.
  rewrite Zlen_app. pose proof (Zlen_nonneg c). rewrite Hl in Ex. destruct (0 <=? lo), (lo <=? hi); cbn [andb] in *; try done.
  rewrite (proj2 (Z.leb_le hi un)) in Ex by lia. done.
Qed.

Lemma chunks_decode i loc raw a b rs : 0 <= i -> loc_at i = Ok loc -> is_plain loc = false -> bl_chunked loc = true ->
  src_read src (bl_off loc) (bl_stored loc) = Some raw -> 0 <= a < b -> b <= bl_uncompressed loc -> bl_uncompressed loc <= Zlen (rs_dec rs) -> cache_ok rs ->
  exists r rs', decode_chunks d B i raw (bl_uncompressed loc) a b rs = Some (r, rs') /\ cache_ok rs' /\
    match r with
    | Ok _ => range_good d raw (bl_uncompressed loc) check a b /\ holds_chunks d raw (bl_uncompressed loc) check a b (rs_dec rs')
    | Err _ => ~ range_good d raw (bl_uncompressed loc) check a b
    end.
Proof.
  intros Hi Hl Hp Hch Hr Ha Hb Hun [Hbits Hbuf]. destruct Hsound as (_ & Hd & _ & Hcs & _). set (un := bl_uncompressed loc) in *.
  unfold decode_chunks. unfold bind at 1, gets at 1. destruct (match dec_at B rs with Some (blk, l, h) => _ | None => false end) eqn:Hhit.
  - exists (Ok tt), rs. split; [done|]. split; [done|]. destruct (dec_at B rs) as [[[blk l] h]|] eqn:Hat; [|done].
    apply andb_true_iff in Hhit as [[->%Z.eqb_eq Hlo%Z.leb_le]%andb_true_iff Hhi%Z.leb_le].
    destruct (Hbuf _ _ _ Hat) as (loc' & raw' & Hl' & Hr' & _ & H). rewrite Hl in Hl'. injection Hl' as <-. rewrite Hr in Hr'. injection Hr' as <-.
    rewrite Hch in H. by apply H.
  - unfold bind at 1, modify at 1. set (rs1 := forget rs). change (rs_dec rs) with (rs_dec rs1) in Hun.
    assert (bits_ok rs1) as Hb1 by by eapply bits_words. clear Hhit.
    destruct (get_range_is_Some (rs_dec rs1) 0 un) as [dst Hdst]; [lia..|]. pose proof (get_range_len _ _ _ _ Hdst) as Hdl.
    assert (forall n, rd_u32 raw 4 = Some n -> rd_u32 raw 0 = Some CHUNK /\ un <= n * CHUNK /\ steady d raw un n check) as Hs by (intros n Hn; by apply (Hcs i loc raw n)).
    destruct (range_read d raw un check a b dst Hd Ha Hb ltac:(lia) Hs) as [[Hgood (dst' & He & Hl' & Hh)]|[Hbad (dst' & e & He & Hl')]].
    + destruct (decode_into_run un (fun dst => read_chunked_range d raw un a b dst check) rs1 dst' (Ok tt)) as (rs2 & Hx & Hv & Hat & Hzl & Hg); [lia| |lia|].
      { intros x Hx. rewrite Hdst in Hx. injection Hx as <-. exact He. }
      unfold bind at 1. rewrite Hx. unfold modify. eexists (Ok tt), _. split; [done|]. split; [split; [by apply (bits_words rs1)|]|].
      * intros b' lo hi. unfold dec_at, set_dec_at. cbn [rs_dec_at rs_dec fmap option_fmap option_map]. rewrite Z.eqb_refl. intros [= <- <- <-].
        exists loc, raw. fold un. split; [done|]. split; [done|]. split; [lia|]. rewrite Hch. intros x y Hxy Hy Hlo Hhi.
        assert (forall j, x / CHUNK <= j <= (y - 1) / CHUNK -> a / CHUNK <= j <= (b - 1) / CHUNK) as Hsub.
        { intros j Hj. pose proof (div_chunk_lt (y - 1) j ltac:(lia) ltac:(lia)). split; [unfold CHUNK in *; lia|]. apply Z.div_le_lower_bound; [done|].
          pose proof (div_chunk_lt (y - 1) ((y - 1) / CHUNK) ltac:(lia) ltac:(lia)).
          clearbody un. clear - Hhi H Hy Hb Ha Hxy. unfold div_ceil, CHUNK in *. Z.div_mod_to_equations. lia. }
        destruct Hgood as (n & Hn & Hdg & Hall), Hh as [_ Hh]. split; [exists n; split; [done|]; split; [done|]; auto|]. split; [cbn [rs_dec]; lia|].
        intros n' j Hn' Hj. cbn [rs_dec]. rewrite Hg by lia. auto.
      * split; [done|]. cbn [set_dec_at rs_dec]. destruct Hh as [_ Hh]. split; [lia|]. intros n j Hn Hj. rewrite Hg by lia. auto.
    + destruct (decode_into_run un (fun dst => read_chunked_range d raw un a b dst check) rs1 dst' (Err e)) as (rs2 & Hx & Hv & Hat & Hzl & Hg); [lia| |lia|].
      { intros x Hx. rewrite Hdst in Hx. injection Hx as <-. exact He. }
      unfold bind at 1. rewrite Hx. exists (Err e), rs2. split; [done|]. split; [|done]. split; [by apply (bits_words rs1)|]. by apply none_buf.
Qed.
Lemma block_decode i loc raw rs : 0 <= i -> loc_at i = Ok loc -> is_plain loc = false -> bl_chunked loc = false ->
  src_read src (bl_off loc) (bl_stored loc) = Some raw -> bl_uncompressed loc <= Zlen (rs_dec rs) -> cache_ok rs ->
  exists r rs', decode_block d B sums i loc raw (bl_uncompressed loc) rs = Some (r, rs') /\ cache_ok rs' /\
    match r with
    | Ok _ => passes i loc 0 (Zlen raw) /\ is_Some (block_value raw (bl_uncompressed loc)) /\
        get_range (rs_dec rs') 0 (bl_uncompressed loc) = block_value raw (bl_uncompressed loc)
    | Err _ => ~ (passes i loc 0 (Zlen raw) /\ is_Some (block_value raw (bl_uncompressed loc)))
    end.
Proof.
  intros Hi Hl Hp Hch Hr Hun [Hbits Hbuf]. pose proof Hsound as (Hco & Hd & _ & _ & Hws). destruct (loc_at_range _ _ Hl) as (_ & Hst & Hu0).
  destruct (Hco _ _ _ Hr) as [Hlen _]. set (un := bl_uncompressed loc) in *. unfold decode_block. unfold bind at 1.
  destruct (verify_checks i loc raw 0 0 (Zlen raw) rs Hi Hl) as (rv & rs1 & -> & Hb1 & [Hk1 Hk2] & Hv); [|done|].
  { unfold spans. rewrite Z.add_0_r, Hlen. split; [done|]. split; [lia|]. split; [lia|]. split; [lia|]. by left. }
  destruct rv as [[]|m].
  2:{ exists (Err m), rs1. split; [done|]. split; [split; [done|by eapply kept_buf]|]. intros [? _]. done. }
  unfold bind at 1, gets at 1. rewrite <- Hk1 in Hun. destruct (match dec_at B rs1 with Some (blk, l, h) => _ | None => false end) eqn:Hhit.
  - exists (Ok tt), rs1. split; [done|]. split; [split; [done|by eapply kept_buf]|]. split; [done|].
    destruct (dec_at B rs1) as [[[blk l] h]|] eqn:Hat; [|done]. apply andb_true_iff in Hhit as [[->%Z.eqb_eq _]%andb_true_iff _].
    assert (dec_at B rs = Some (i, l, h)) as Hat0 by (unfold dec_at in *; by rewrite <- Hk2).
    destruct (Hbuf _ _ _ Hat0) as (loc' & raw' & Hl' & Hr' & _ & H). rewrite Hl in Hl'. injection Hl' as <-. rewrite Hr in Hr'. injection Hr' as <-.
    rewrite Hch in H. by rewrite Hk1.
  - unfold bind at 1, modify at 1. set (rs2 := forget rs1). change (rs_dec rs1) with (rs_dec rs2) in Hun.
    assert (bits_ok rs2) as Hb2 by by eapply bits_words. destruct (get_range_is_Some (rs_dec rs2) 0 un) as [dst Hdst]; [lia..|].
    pose proof (get_range_len _ _ _ _ Hdst) as Hdl. pose proof (Hd raw dst) as Hin.
    destruct (Hws i loc raw Hi Hl Hp Hch Hr dst (zeros un)) as [Hok Hsame]; [fold un; lia|by rewrite Zlen_zeros by lia|].
    unfold block_value. destruct (d raw dst) as [out ok] eqn:Ed, (d raw (zeros un)) as [out' ok'] eqn:Ed'. cbn [fst snd] in *. subst ok'.
    destruct (decode_into_run un (decompress_into d raw) rs2 out (if ok then Ok tt else Err "lz4")) as (rs3 & Hx & Hv3 & Hat & Hzl & Hg); [lia| |lia|].
    { intros x Hx. rewrite Hdst in Hx. injection Hx as <-. unfold decompress_into. by rewrite Ed. }
    unfold bind at 1. rewrite Hx. destruct ok.
    + rewrite <- (Hsame eq_refl). unfold modify. eexists (Ok tt), _. split; [done|].
      assert (get_range (rs_dec rs3) 0 un = Some out) as Hgo by (rewrite Hg by lia; apply get_range_end; lia).
      split; [split; [by apply (bits_words rs2)|]|].
      * intros b lo hi. unfold dec_at, set_dec_at. cbn [rs_dec_at rs_dec fmap option_fmap option_map]. rewrite Z.eqb_refl. intros [= <- <- <-].
        exists loc, raw. fold un. split; [done|]. split; [done|]. split; [lia|]. rewrite Hch. unfold block_value. rewrite Ed', <- (Hsame eq_refl). done.
      * cbn [set_dec_at rs_dec]. done.
    + exists (Err "lz4"), rs3. split; [done|]. split; [split; [by apply (bits_words rs2)|by apply none_buf]|]. intros [_ [? H]]. done.
Qed.

(** ** What an extent's read answers *)

(** The bytes an extent names, checked and decoded; nothing in it of what the
    reader remembers. *)
Definition served (e : Ext) (bs : bytes) : Prop := exists loc raw, loc_at (e_block e) = Ok loc /\
  let '(c0, c1) := chunk_span loc e in
  let a := e_off e in
  let b := e_off e + e_len e in
  let un := bl_uncompressed loc in
  bl_off loc + c0 < U64 /\ src_read src (bl_off loc + c0) (c1 - c0) = Some raw /\
  if is_plain loc then c0 <= a /\ b <= c0 + Zlen raw /\ passes (e_block e) loc a b /\ get_range raw (a - c0) (b - c0) = Some bs
  else b <= un /\
    if bl_chunked loc then range_good d raw un check a b /\ exists dec, holds_chunks d raw un check a b dec /\ get_range dec a b = Some bs
    else passes (e_block e) loc 0 (Zlen raw) /\ exists out, block_value raw un = Some out /\ get_range out a b = Some bs.

(** The sum that overflows. *)
Definition overflows (e : Ext) : Prop := exists loc, loc_at (e_block e) = Ok loc /\ U64 <= bl_off loc + fst (chunk_span loc e).

Lemma served_unique e x y : ext_ok e -> 0 < e_len e -> served e x -> served e y -> x = y.
Proof.
  intros (_ & Ho & _) Hlen (loc & raw & Hl & H) (loc' & raw' & Hl' & H'). rewrite Hl in Hl'. injection Hl' as <-.
  destruct (chunk_span loc e) as [c0 c1]. destruct H as (_ & Hr & H), H' as (_ & Hr' & H'). rewrite Hr in Hr'. injection Hr' as <-.
  destruct (is_plain loc); [destruct H as (_ & _ & _ & H), H' as (_ & _ & _ & H'); congruence|]. destruct H as [Hb H], H' as [_ H'].
  destruct (bl_chunked loc).
  - destruct H as [(n & Hn & _) (dec & [Hz Hh] & Hg)], H' as [_ (dec' & [Hz' Hh'] & Hg')].
    rewrite (same_chunks CHUNK (bl_uncompressed loc) dec dec' (e_off e) (e_off e + e_len e)) in Hg; [congruence|done|lia|done|done|done|].
    intros j Hj. rewrite (Hh n j Hn Hj). by rewrite (Hh' n j Hn Hj).
  - destruct H as [_ (out & Ho1 & Hg)], H' as [_ (out' & Ho2 & Hg')]. congruence.
Qed.

Lemma plain_spans loc e raw c0 c1 : 0 <= bl_stored loc -> is_plain loc = true -> ext_ok e -> 0 < e_len e -> chunk_span loc e = (c0, c1) ->
  src_read src (bl_off loc + c0) (c1 - c0) = Some raw -> source_coherent src -> c0 <= e_off e -> e_off e + e_len e <= c0 + Zlen raw ->
  spans loc raw c0 (e_off e) (e_off e + e_len e).
Proof.
  intros Hst Hp (_ & Ho & Hn & _) Hlen Hs Hr Hco Ha Hb. destruct (Hco _ _ _ Hr) as [Hl _]. unfold spans. unfold chunk_span in Hs. rewrite Hp in Hs. cbn [negb orb] in Hs.
  assert (sadd (e_off e) (e_len e) = e_off e + e_len e) as Hsa by (unfold sadd, U64, U32 in *; lia). rewrite Hsa in Hs. set (a := e_off e) in *. set (b := a + e_len e) in *.
  rewrite Hl in *. split; [done|]. unfold by_chunks. destruct (bl_chunk_crc loc); cbn [negb andb] in *.
  - pose proof (Z.div_mod a CHUNK ltac:(done)). pose proof (Z.mod_pos_bound a CHUNK ltac:(done)). injection Hs as <- <-.
    split; [unfold CHUNK in *; lia|]. split; [lia|]. split; [lia|]. right. rewrite (proj2 (Z.ltb_lt _ _)) by (unfold CHUNK in *; lia). split; [done|].
    unfold CHUNK in *. lia.
  - injection Hs as <- <-. split; [lia|]. split; [lia|]. split; [lia|]. left. lia.
Qed.

Lemma extent_spec e rs : ext_ok e -> is_inline e = false -> 0 < e_len e -> cache_ok rs ->
  match with_extent d src B blk_base sums e rs with
  | None => overflows e
  | Some (Ok bs, rs') => cache_ok rs' /\ served e bs
  | Some (Err _, rs') => cache_ok rs' /\ (forall bs, ~ served e bs) /\ ~ overflows e
  end.
Proof.
  intros Hok Hin Hlen Hc. pose proof Hok as (Hblk & Ho & Hn & _). pose proof Hsound as (Hco & _). unfold with_extent. rewrite Hin.
  assert (sadd (e_off e) (e_len e) = e_off e + e_len e) as -> by (unfold sadd, U64, U32 in *; lia).
  unfold bind at 1, lift at 1. destruct (loc_at (e_block e)) as [loc|m] eqn:Hl.
  2:{ split; [done|]. split; [intros bs (loc & raw & H & _)|intros (loc & H & _)]; by rewrite Hl in H. }
  destruct (loc_at_range _ _ Hl) as (Hoff & Hst & Hu0). assert (forall loc', loc_at (e_block e) = Ok loc' -> loc' = loc) as Hone by (intros l' Hl'; rewrite Hl in Hl'; by injection Hl').
  destruct (chunk_span loc e) as [c0 c1] eqn:Hs. unfold bind at 1, expect at 1. destruct (cadd (bl_off loc) c0) as [at_|] eqn:Ea.
  2:{ exists loc. split; [done|]. rewrite Hs. unfold cadd in Ea. destruct (Z.ltb_spec (bl_off loc + c0) U64); [done|]. done. }
  apply cadd_Some in Ea as [-> Hlt]. assert (~ overflows e) as Hno by (intros (l' & ->%Hone & H); rewrite Hs in H; cbn in H; lia).
  unfold bind at 1, lift at 1, read_at. destruct (src_read src (bl_off loc + c0) (c1 - c0)) as [raw|] eqn:Hr; cbn [ok_or].
  2:{ split; [done|]. split; [|done]. intros bs (l' & raw & ->%Hone & H). rewrite Hs in H. destruct H as (_ & H & _). by rewrite Hr in H. }
  assert (forall bs, served e bs -> if is_plain loc then c0 <= e_off e /\ e_off e + e_len e <= c0 + Zlen raw /\ passes (e_block e) loc (e_off e) (e_off e + e_len e) /\ get_range raw (e_off e - c0) (e_off e + e_len e - c0) = Some bs
    else e_off e + e_len e <= bl_uncompressed loc /\
      if bl_chunked loc then range_good d raw (bl_uncompressed loc) check (e_off e) (e_off e + e_len e)
      else passes (e_block e) loc 0 (Zlen raw) /\ is_Some (block_value raw (bl_uncompressed loc))) as Hinv.
  { intros bs (l' & raw' & ->%Hone & H). rewrite Hs in H. destruct H as (_ & Hr' & H). rewrite Hr in Hr'. injection Hr' as <-.
    destruct (is_plain loc); [exact H|]. split; [apply H|]. destruct H as [_ H]. destruct (bl_chunked loc); [apply H|]. destruct H as [? (out & -> & _)]. by split. }
  assert (forall bs, (if is_plain loc then c0 <= e_off e /\ e_off e + e_len e <= c0 + Zlen raw /\ passes (e_block e) loc (e_off e) (e_off e + e_len e) /\ get_range raw (e_off e - c0) (e_off e + e_len e - c0) = Some bs
    else e_off e + e_len e <= bl_uncompressed loc /\
      if bl_chunked loc then range_good d raw (bl_uncompressed loc) check (e_off e) (e_off e + e_len e) /\
        exists dec, holds_chunks d raw (bl_uncompressed loc) check (e_off e) (e_off e + e_len e) dec /\ get_range dec (e_off e) (e_off e + e_len e) = Some bs
      else passes (e_block e) loc 0 (Zlen raw) /\ exists out, block_value raw (bl_uncompressed loc) = Some out /\ get_range out (e_off e) (e_off e + e_len e) = Some bs) -> served e bs) as Hintro.
  { intros bs H. exists loc, raw. rewrite Hs. done. }
  destruct (is_plain loc) eqn:Hp.
  - destruct (Z.ltb_spec (e_off e) c0), (Z.ltb_spec (c0 + Zlen raw) (e_off e + e_len e)); cbn [orb];
      try (split; [done|]; split; [intros bs H'%Hinv; lia|done]).
    pose proof (plain_spans loc e raw c0 c1 ltac:(lia) Hp Hok Hlen Hs Hr Hco ltac:(lia) ltac:(lia)) as Hsp. destruct Hc as [Hb Hf].
    destruct (verify_checks (e_block e) loc raw c0 _ _ rs ltac:(lia) Hl Hsp Hb) as (r & rs' & Hv & Hb' & Hk & Hr').
    unfold bind. rewrite Hv. assert (cache_ok rs') as Hc' by (split; [done|by eapply kept_buf]). destruct r as [[]|m].
    + destruct (get_range_is_Some raw (e_off e - c0) (e_off e + e_len e - c0)) as [bs Hg]; [lia..|]. unfold expect. rewrite Hg. split; [done|]. apply Hintro. done.
    + split; [done|]. split; [|done]. intros bs (_ & _ & H' & _)%Hinv. exact (Hr' H').
  - assert (c0 = 0 /\ c1 = bl_stored loc) as [-> ->] by (unfold chunk_span in Hs; rewrite Hp in Hs; by injection Hs as <- <-).
    rewrite Z.add_0_r, Z.sub_0_r in Hr. destruct (Z.ltb_spec (bl_uncompressed loc) (e_off e + e_len e)); [split; [done|]; split; [intros bs H'%Hinv; lia|done]|].
    unfold bind at 1, modify at 1. destruct (grow_ok (bl_uncompressed loc) rs ltac:(lia) Hc) as [Hc1 Hz]. set (rs1 := grow _ rs) in *.
    unfold bind at 1. destruct (bl_chunked loc) eqn:Hch.
    + destruct (chunks_decode (e_block e) loc raw (e_off e) (e_off e + e_len e) rs1 ltac:(lia) Hl Hp Hch Hr ltac:(lia) ltac:(lia) Hz Hc1) as (r & rs2 & -> & Hc2 & H2).
      destruct r as [[]|m]; [|split; [done|]; split; [intros bs [_ H']%Hinv; done|done]]. unfold bind, gets, expect. destruct H2 as [Hg Hh].
      destruct (get_range_is_Some (rs_dec rs2) (e_off e) (e_off e + e_len e)) as [bs Hbs]; [lia|destruct Hh; lia|]. rewrite Hbs. split; [done|].
      apply Hintro. split; [done|]. split; [done|]. by exists (rs_dec rs2).
    + destruct (block_decode (e_block e) loc raw rs1 ltac:(lia) Hl Hp Hch Hr Hz Hc1) as (r & rs2 & -> & Hc2 & H2).
      destruct r as [[]|m]; [|split; [done|]; split; [intros bs [_ H']%Hinv; done|done]]. unfold bind, gets, expect. destruct H2 as (Hpass & [out Hout] & Hg).
      rewrite Hout in Hg. pose proof (get_range_len _ _ _ _ Hg) as Hol.
      destruct (get_range_is_Some out (e_off e) (e_off e + e_len e)) as [bs Hbs]; [lia|lia|].
      pose proof (get_range_sub _ _ _ _ _ _ _ Hg Hbs) as Hsub. rewrite !Z.add_0_l in Hsub. rewrite Hsub. split; [done|].
      apply Hintro. split; [done|]. split; [done|]. by exists out.
Qed.
End object.

(** ** Every state a reader reaches *)

Definition same_answer (x y : option (result bytes * Reader)) : Prop :=
  match x, y with
  | Some (Ok a, _), Some (Ok b, _) => a = b
  | Some (Err _, _), Some (Err _, _) => True
  | None, None => True
  | _, _ => False
  end.

(** Another reader's span, or none. *)
Definition not_ours (B : Blob) (at_ : option (Z * Z * Z * Z)) : Prop := match at_ with Some (id, _, _, _) => id <> blob_id B | None => True end.

(** Opened with nothing checked, in whatever state the thread's buffer is;
    then any reads of the reader, and any use of the buffer by others. *)
Inductive reached (d : bytes -> bytes -> bytes * bool) (src : Source) (B : Blob) (blk_base : Z) (sums : bool) : Reader -> Prop :=
| reached_open n dec at_ : not_ours B at_ -> reached d src B blk_base sums (reader_of (replicate n 0) dec at_)
| reached_read e rs r rs' : reached d src B blk_base sums rs -> ext_ok e -> 0 < e_len e ->
    with_extent d src B blk_base sums e rs = Some (r, rs') -> reached d src B blk_base sums rs'
| reached_other rs dec at_ n : reached d src B blk_base sums rs -> not_ours B at_ -> reached d src B blk_base sums (mkReader (rs_verified rs) dec at_ n).

Lemma not_ours_buf d src B blk_base rs : not_ours B (rs_dec_at rs) -> buf_ok d src B blk_base rs.
Proof.
  intros H b lo hi. unfold dec_at. destruct (rs_dec_at rs) as [[[[id x] y] z]|]; [|done]. cbn in H. by rewrite (proj2 (Z.eqb_neq _ _) H).
Qed.

Lemma reached_ok d src B blk_base sums rs : sound d src B blk_base -> reached d src B blk_base sums rs -> cache_ok d src B blk_base rs.
Proof.
  intros Hs H. induction H as [n dec at_ Ha|e rs r rs' _ IH He Hl Hx|rs dec at_ n _ IH Ha].
  - split; [|by apply not_ours_buf]. intros i j _ _. unfold is_verified. cbn [reader_of rs_verified].
    destruct (get_at (replicate n 0) _) as [c|] eqn:E; [|done]. apply get_at_Some in E as [_ E]. apply lookup_replicate_1 in E as [-> _]. by rewrite Z.bits_0.
  - destruct (is_inline e) eqn:Hi. { unfold with_extent in Hx. rewrite Hi in Hx. by injection Hx as <- <-. }
    pose proof (extent_spec d src B blk_base sums Hs e rs He Hi Hl IH) as H. rewrite Hx in H. destruct r; apply H.
  - destruct IH as [Hb _]. split; [by apply (bits_words src B blk_base rs)|by apply not_ours_buf].
Qed.


(** ** Callbacks *)

(** A callback that reads nothing through the reader: the read and its
    callback are the bytes, and then what it makes of them. *)
Section callbacks.
Context (d : bytes -> bytes -> bytes * bool) (src : Source) (B : Blob) (blk_base : Z) (sums : bool).
Local Abbreviation extent := (with_extent d src B blk_base sums).
Local Abbreviation extent_then := (with_extent_then d src B blk_base sums).

Definition answer {A C} (g : A -> result C) (x : option (result A * Reader)) : option (result C * Reader) :=
  match x with None => None | Some (Ok a, rs) => Some (g a, rs) | Some (Err m, rs) => Some (Err m, rs) end.

Lemma answer_bind {A A' C} (m : R A) (k : A -> R A') (k' : A -> R C) g rs :
  (forall a s, k' a s = answer g (k a s)) -> bind m k' rs = answer g (bind m k rs).
Proof. intros H. unfold bind. destruct (m rs) as [[[a|e] s]|]; [apply H|done|done]. Qed.

Lemma lend_kept {A} (r : result A) rs : lend (fun s => Some (r, s)) rs = Some (r, rs).
Proof. by destruct rs. Qed.

Lemma extent_then_kept {A} e (f : bytes -> R A) (g : bytes -> result A) rs : (forall run s, f run s = Some (g run, s)) ->
  extent_then e f rs = answer g (extent e rs).
Proof.
  intros Hf. unfold with_extent_then, with_extent. destruct (is_inline e); [done|].
  apply answer_bind. intros loc s. destruct (chunk_span loc e) as [c0 c1]. apply answer_bind. intros at_ s1. apply answer_bind. intros raw s2.
  destruct (is_plain loc).
  - destruct (_ || _); [done|]. apply answer_bind. intros [] s3. unfold bind, expect. destruct (get_range raw _ _); [apply Hf|done].
  - destruct (_ <? _); [done|]. apply answer_bind. intros [] s3. apply answer_bind. intros [] s4. apply answer_bind. intros dec s5.
    unfold bind, expect. destruct (get_range dec _ _) as [run|]; [|done]. unfold lend. rewrite Hf. cbn. by destruct s5.
Qed.

(** Over a plain block any callback at all may read again: the read is over
    by then. *)
Lemma extent_then_plain {A} e (f : bytes -> R A) rs loc : loc_of B blk_base (e_block e) = Ok loc -> is_plain loc = true ->
  extent_then e f rs = (do* run := extent e in f run) rs.
Proof.
  intros Hl Hp. unfold with_extent_then, with_extent. destruct (is_inline e); [done|]. unfold bind, expect, lift. rewrite Hl.
  destruct (chunk_span loc e) as [c0 c1]. destruct (cadd _ _); [|done]. destruct (read_at _ _ _) as [raw|]; [|done].
  rewrite Hp. destruct (_ || _); [done|]. destruct (verify _ _ _ _ _ _ _ _ _) as [[[[]|m] s]|]; [|done|done]. by destruct (get_range _ _ _).
Qed.

(** The walk of a key's values with a callback that keeps a state of its own
    and reads nothing: the values of the list, folded. *)
Lemma hand_kept {X} (f : X -> bytes -> Reader -> option (X * Reader)) g vs x rs :
  (forall x v s, f x v s = Some (g x v, s)) -> hand f vs x rs = Some (fold_left g vs x, rs).
Proof. intros Hf. revert x. induction vs as [|v vs IH]; intros x; [done|]. cbn. rewrite Hf. apply IH. Qed.

Lemma run_then_kept {A} e tail (f : bytes -> R A) (g : bytes -> result A) rs : (forall run s, f run s = Some (g run, s)) ->
  with_run_then d src B blk_base sums e tail f rs = answer g (with_run d src B blk_base sums e tail rs).
Proof.
  intros Hf. unfold with_run_then, with_run. destruct (is_inline e); [|by apply extent_then_kept].
  unfold bind, expect, lift. destruct (inline_run e tail) as [[run|m]|]; [apply Hf|done|done].
Qed.

Lemma read_then_kept {X} (f : X -> bytes -> Reader -> option (X * Reader)) g exts tail n x rs : (forall x v s, f x v s = Some (g x v, s)) ->
  read_go_then d src B blk_base sums f exts tail n x rs =
  answer (fun '(vs, r) => Ok (fold_left g vs x, r)) (read_go d src B blk_base sums exts tail n rs).
Proof.
  intros Hf. revert n x rs. induction exts as [|e exts IH]; intros n x rs; [done|]. cbn [read_go_then read_go].
  rewrite (run_then_kept e tail _ (fun run => let '(vs, r) := each_value run e in Ok (fold_left g vs x, r))).
  2:{ intros run s. destruct (each_value run e) as [vs r]. by rewrite (hand_kept f g). }
  destruct (with_run _ _ _ _ _ _ _ rs) as [[[run|m] rs']|]; cbn [answer]; [|done|done].
  destruct (each_value run e) as [vs [k|m]]; [|done]. rewrite IH. unfold bind. destruct (read_go _ _ _ _ _ _ _ _ rs') as [[[[vs' r]|m] s]|]; cbn; [|done|done].
  by rewrite fold_left_app.
Qed.

(** The callback that keeps the values is the list. *)
Corollary read_exts_collects exts tail rs : 
  read_exts_then d src B blk_base sums (fun (vs : list bytes) v rs => Some (vs ++ [v], rs)) exts tail [] rs = read_exts d src B blk_base sums exts tail rs.
Proof.
  unfold read_exts_then, read_exts. rewrite (read_then_kept _ (fun (vs : list bytes) v => vs ++ [v])) by done.
  assert (forall vs acc, fold_left (fun (vs : list bytes) v => vs ++ [v]) vs acc = acc ++ vs) as H.
  { induction vs as [|v vs IH]; intros acc; cbn; [by rewrite app_nil_r|]. by rewrite IH, <- app_assoc. }
  destruct (read_go _ _ _ _ _ _ _ _ rs) as [[[[vs r]|m] s]|]; cbn; [by rewrite H|done|done].
Qed.
End callbacks.

(** ** A read inside a read *)

(** What changes no length of the buffer. *)
Definition same_length {A} (m : R A) : Prop := forall rs r rs', m rs = Some (r, rs') -> Zlen (rs_dec rs') = Zlen (rs_dec rs).

Lemma same_length_bind {A A'} (m : R A) (k : A -> R A') : same_length m -> (forall a, same_length (k a)) -> same_length (bind m k).
Proof.
  intros Hm Hk rs r rs'. unfold bind. destruct (m rs) as [[[a|e] s]|] eqn:E; [|intros [= <- <-]; by eapply Hm|done].
  intros H. rewrite (Hk _ _ _ _ H). by eapply Hm.
Qed.

Lemma same_length_modify f : (forall rs, rs_dec (f rs) = rs_dec rs) -> same_length (modify f).
Proof. intros Hf rs r rs' [= <- <-]. by rewrite Hf. Qed.

Lemma same_length_state {A} (m : R A) : (forall rs, match m rs with Some (_, rs') => rs' = rs | None => True end) -> same_length m.
Proof. intros Hm rs r rs' H. specialize (Hm rs). rewrite H in Hm. by subst. Qed.

Section nested.
Context (d : bytes -> bytes -> bytes * bool) (src : Source) (B : Blob) (blk_base : Z) (sums : bool).
Local Abbreviation extent := (with_extent d src B blk_base sums).
Local Abbreviation loc_at := (loc_of B blk_base).

Lemma length_whole i loc raw base : same_length (verify_whole i loc raw base).
Proof.
  unfold verify_whole. destruct (_ || _); [by apply same_length_state|]. apply same_length_bind; [by apply same_length_state|].
  intros []; [by apply same_length_state|]. destruct (negb _); [by apply same_length_state|by apply same_length_modify].
Qed.

Lemma length_verify i loc raw base lo hi : same_length (verify B sums i loc raw base lo hi).
Proof.
  unfold verify. destruct (_ || _); [by apply same_length_state|]. destruct (_ || _); [apply length_whole|]. generalize (seqZ (lo / CHUNK) ((hi - 1) / CHUNK - lo / CHUNK + 1)).
  intros js. induction js as [|j js IH]; [by apply same_length_state|]. cbn [verify_chunks].
  destruct (mapped_chunk_crc _ _ _ _) as [want|]; [|apply length_whole]. destruct (_ && _); [|apply length_whole].
  apply same_length_bind; [by apply same_length_state|]. intros []; [exact IH|]. apply same_length_bind.
  - apply same_length_state. intros rs. unfold expect. by destruct (get_range _ _ _).
  - intros piece. destruct (negb _); [by apply same_length_state|]. apply same_length_bind; [by apply same_length_modify|intros []; exact IH].
Qed.

Lemma length_decode un dec : same_length (decode_into un dec).
Proof.
  intros rs r rs'. unfold decode_into, bind, gets, expect, modify, lift. destruct (get_range _ _ _) as [dst|]; [|done].
  destruct (dec dst) as [[dst' r']|]; [|done]. destruct (put_range _ _ _) as [x|] eqn:E; [|done]. intros [= <- <-]. by apply put_range_len in E.
Qed.

Lemma length_chunks i raw un a b : same_length (decode_chunks d B i raw un a b).
Proof.
  unfold decode_chunks. apply same_length_bind; [by apply same_length_state|]. intros have. destruct (match have with Some _ => _ | None => _ end); [by apply same_length_state|].
  apply same_length_bind; [by apply same_length_modify|]. intros []. apply same_length_bind; [apply length_decode|]. intros []. by apply same_length_modify.
Qed.

Lemma length_block i loc raw un : same_length (decode_block d B sums i loc raw un).
Proof.
  unfold decode_block. apply same_length_bind; [apply length_verify|]. intros []. apply same_length_bind; [by apply same_length_state|]. intros have.
  destruct (match have with Some _ => _ | None => _ end); [by apply same_length_state|].
  apply same_length_bind; [by apply same_length_modify|]. intros []. apply same_length_bind; [apply length_decode|]. intros []. by apply same_length_modify.
Qed.

(** What a compressed block's read lends its callback, and what it leaves. *)
Lemma outer_run {A} e (f : bytes -> R A) rs r rs1 loc : loc_at (e_block e) = Ok loc -> is_plain loc = false ->
  with_extent_then d src B blk_base sums e f rs = Some (Ok r, rs1) -> exists s s' run,
  f run (mkReader (rs_verified s) [] (rs_dec_at s) (rs_decodes s)) = Some (Ok r, s') /\
  rs1 = mkReader (rs_verified s') (rs_dec s) (rs_dec_at s') (rs_decodes s') /\
  get_range (rs_dec s) (e_off e) (sadd (e_off e) (e_len e)) = Some run /\ bl_uncompressed loc <= Zlen (rs_dec s).
Proof.
  intros Hl Hp. unfold with_extent_then. destruct (is_inline e); [done|]. unfold bind at 1, lift at 1. rewrite Hl. destruct (chunk_span loc e) as [c0 c1].
  unfold bind at 1, expect at 1. destruct (cadd _ _) as [at_|]; [|done]. unfold bind at 1, lift at 1. destruct (read_at _ _ _) as [raw|]; [|done].
  rewrite Hp. destruct (_ <? _); [done|]. set (m := if bl_chunked loc then _ else _).
  assert (same_length m) as Hm by (unfold m; destruct (bl_chunked loc); [apply length_chunks|apply length_block]).
  unfold bind at 1, modify at 1. unfold bind at 1. destruct (m _) as [[[[]|?] s]|] eqn:Em; [|done|done]. apply Hm in Em.
  unfold bind, gets, expect. destruct (get_range (rs_dec s) _ _) as [run|] eqn:Er; [|done]. unfold lend. destruct (f run _) as [[r' s']|] eqn:Ef; [|done].
  intros [= -> <-]. exists s, s', run. split; [done|]. split; [done|]. split; [done|]. rewrite Em. unfold grow.
  destruct (Z.ltb_spec (Zlen (rs_dec rs)) (bl_uncompressed loc)) as [H|H]; [|done]. cbn [rs_dec]. rewrite Zlen_app. pose proof (Zlen_nonneg (rs_dec rs)). rewrite Zlen_zeros by lia. lia.
Qed.

(** The span a read of a chunked block says of the buffer. *)
Definition span_of (e : Ext) (loc : BlockLoc) : Z * Z * Z :=
  (e_block e, e_off e / CHUNK * CHUNK, Z.min (div_ceil (sadd (e_off e) (e_len e)) CHUNK * CHUNK) (bl_uncompressed loc)).

(** One that starts from an empty buffer decodes, and says so. *)
Lemma inner_run e s inner s' loc : loc_at (e_block e) = Ok loc -> is_plain loc = false -> bl_chunked loc = true -> rs_dec s = [] -> 0 < bl_uncompressed loc ->
  extent e s = Some (Ok inner, s') -> dec_at B s' = Some (span_of e loc) /\ sadd (e_off e) (e_len e) <= bl_uncompressed loc.
Proof.
  intros Hl Hp Hc Hd0 Hu. unfold with_extent. destruct (is_inline e); [done|]. unfold bind at 1, lift at 1. rewrite Hl. destruct (chunk_span loc e) as [c0 c1].
  unfold bind at 1, expect at 1. destruct (cadd _ _) as [at_|]; [|done]. unfold bind at 1, lift at 1. destruct (read_at _ _ _) as [raw|]; [|done].
  rewrite Hp, Hc. destruct (Z.ltb_spec (bl_uncompressed loc) (sadd (e_off e) (e_len e))) as [|Hb]; [done|]. unfold bind at 1, modify at 1.
  assert (dec_at B (grow (bl_uncompressed loc) s) = None) as Hn by (unfold grow; rewrite Hd0, Zlen_nil, (proj2 (Z.ltb_lt _ _)) by done; done).
  unfold decode_chunks. unfold bind at 1. unfold bind at 1, gets at 1. rewrite Hn. unfold bind at 1, modify at 1. unfold bind at 1.
  destruct (decode_into _ _ _) as [[[[]|?] s1]|]; [|done|done]. unfold modify. unfold bind, gets, expect. destruct (get_range _ _ _); [|done].
  intros [= _ <-]. split; [|done]. unfold dec_at, set_dec_at. cbn. by rewrite Z.eqb_refl.
Qed.

(** And one the buffer is said to hold answers what the buffer holds. *)
Lemma said_run e s inner s' rs loc x : loc_at (e_block e) = Ok loc -> is_plain loc = false -> bl_chunked loc = true -> extent e s = Some (Ok inner, s') ->
  dec_at B rs = Some (span_of e loc) -> bl_uncompressed loc <= Zlen (rs_dec rs) -> get_range (rs_dec rs) (e_off e) (sadd (e_off e) (e_len e)) = Some x ->
  extent e rs = Some (Ok x, rs).
Proof.
  intros Hl Hp Hc Hok Hat Hz Hx. unfold with_extent in *. destruct (is_inline e); [done|]. unfold bind at 1, lift at 1 in Hok. unfold bind at 1, lift at 1. rewrite Hl in *.
  destruct (chunk_span loc e) as [c0 c1]. unfold bind at 1, expect at 1 in Hok. unfold bind at 1, expect at 1. destruct (cadd _ _) as [at_|]; [|done].
  unfold bind at 1, lift at 1 in Hok. unfold bind at 1, lift at 1. destruct (read_at _ _ _) as [raw|]; [|done]. rewrite Hp, Hc in *.
  destruct (_ <? _); [done|]. clear Hok. assert (grow (bl_uncompressed loc) rs = rs) as Hg by (unfold grow; by rewrite (proj2 (Z.ltb_ge _ _))).
  unfold bind at 1, modify at 1. rewrite Hg. unfold decode_chunks. unfold bind at 1. unfold bind at 1, gets at 1. rewrite Hat. unfold span_of.
  rewrite Z.eqb_refl, !Z.leb_refl. cbn [andb ret]. unfold bind, gets, expect. by rewrite Hx.
Qed.
End nested.

(** C39: a read inside a read leaves the thread's buffer misnamed, which a
    callback is said to be free to make. Where the callback of a read of a
    compressed block reads, through the same reader, an extent of at least one
    byte of a block compressed in chunks, no longer decompressed than the
    first, and both succeed, the next read of that inner extent is answered
    from the outer read's buffer, and no check or decoder is asked: it
    succeeds, changes nothing, and answers the bytes of the buffer where the
    inner extent would lie; and where it lies inside the outer extent, they
    are the outer read's own bytes. It is so of any source, blocks and
    decoder, and whatever the reader had done before. *)
Theorem blob_reentry_stale d src B blk_base sums e1 e2 l1 l2 rs outer inner rs1 :
  loc_of B blk_base (e_block e1) = Ok l1 -> is_plain l1 = false ->
  loc_of B blk_base (e_block e2) = Ok l2 -> is_plain l2 = false -> bl_chunked l2 = true ->
  ext_ok e1 -> ext_ok e2 -> 0 < e_len e2 -> bl_uncompressed l2 <= bl_uncompressed l1 ->
  with_extent_then d src B blk_base sums e1 (fun run => do* inner := with_extent d src B blk_base sums e2 in ret (run, inner)) rs = Some (Ok (outer, inner), rs1) ->
  exists stale, with_extent d src B blk_base sums e2 rs1 = Some (Ok stale, rs1) /\
    get_range (rs_dec rs1) (e_off e2) (e_off e2 + e_len e2) = Some stale /\
    get_range (rs_dec rs1) (e_off e1) (e_off e1 + e_len e1) = Some outer /\
    (e_off e1 <= e_off e2 -> e_off e2 + e_len e2 <= e_off e1 + e_len e1 ->
      get_range outer (e_off e2 - e_off e1) (e_off e2 - e_off e1 + e_len e2) = Some stale).
Proof.
  intros H1 P1 H2 P2 C2 (_ & Ho1 & Hn1 & _) (_ & Ho2 & Hn2 & _) Hlen Hun Hrun.
  assert (forall e, 0 <= e_off e < U32 -> 0 <= e_len e < U32 -> sadd (e_off e) (e_len e) = e_off e + e_len e) as Hsa by (intros e ? ?; unfold sadd, U64, U32 in *; lia).
  destruct (outer_run d src B blk_base sums e1 _ rs _ rs1 l1 H1 P1 Hrun) as (s & s' & run & Hf & -> & Hr & Hz). rewrite Hsa in Hr by done.
  unfold bind in Hf. destruct (with_extent d src B blk_base sums e2 _) as [[[x|m] s2]|] eqn:Ex; [|done|done]. injection Hf as -> -> ->.
  assert (0 < bl_uncompressed l2) as Hpos.
  { destruct (Z.lt_ge_cases 0 (bl_uncompressed l2)); [done|]. exfalso. revert Ex. unfold with_extent. destruct (is_inline e2); [done|]. unfold bind at 1, lift at 1. rewrite H2.
    destruct (chunk_span l2 e2). unfold bind at 1, expect at 1. destruct (cadd _ _); [|done]. unfold bind at 1, lift at 1. destruct (read_at _ _ _); [|done].
    rewrite P2, Hsa, (proj2 (Z.ltb_lt _ _)) by (done || lia). done. }
  destruct (inner_run d src B blk_base sums e2 (mkReader (rs_verified s) [] (rs_dec_at s) (rs_decodes s)) inner s' l2 H2 P2 C2 eq_refl Hpos Ex) as [Hat Hb]. rewrite Hsa in Hb by done.
  destruct (get_range_is_Some (rs_dec s) (e_off e2) (e_off e2 + e_len e2)) as [stale Hst]; [lia..|]. exists stale. split; [|split; [done|split; [done|]]].
  - eapply said_run; [exact H2|done|done|exact Ex|exact Hat|cbn [rs_dec]; lia|]. cbn [rs_dec]. by rewrite Hsa.
  - intros Ha He. cbn [rs_dec]. pose proof (get_range_len _ _ _ _ Hr) as Hol. destruct (get_range_is_Some outer (e_off e2 - e_off e1) (e_off e2 - e_off e1 + e_len e2)) as [y Hy]; [lia..|].
    rewrite Hy, <- Hst. rewrite <- (get_range_sub _ _ _ _ _ _ _ Hr Hy). f_equal; lia.
Qed.

(** ** Three blocks, at work *)

(** A reader over a table of one block and the block's bytes; its key section
    is not read. *)
Definition blob_over (loc : BlockLoc) (row : list Z) : Blob :=
  let table := default [] (encode_blocks [loc] [row]) in
  mkBlob (mkSec [] 0) sample_flat (mkSec table 0) (mkMapped BLK_HEADER 1) 1 0 blob_options_default 7.

Definition no_lz4 (x slot : bytes) : bytes * bool := (slot, false).

Definition fresh : Reader := reader_of [0] [] None.

Definition hello : bytes := [x68; x65; x6c; x6c; x6f].
Definition hello_loc : BlockLoc := mkBlockLoc 0 5 5 5 false (crc32 hello) true false.
Definition hello_blob : Blob := blob_over hello_loc (crc32 hello :: replicate 15 0).
Definition hello_ext : Ext := mkExt 0 1 3 0 (Z.lor 1 FIXED).

Lemma hello_locs i loc : 0 <= i -> loc_of hello_blob 0 i = Ok loc -> i = 0 /\ loc = hello_loc.
Proof.
  intros Hi H. destruct (Z.eq_dec i 0) as [->|].
  - split; [done|]. vm_compute in H. injection H as <-. vm_compute. reflexivity.
  - unfold loc_of, mapped_get, hello_blob, blob_over in H. cbn [blob_blocks mb_n] in H. rewrite (proj2 (Z.leb_le 1 i)) in H by lia. done.
Qed.

Lemma hello_sound : sound no_lz4 (bytes_source hello) hello_blob 0.
Proof.
  split; [apply bytes_coherent|]. split; [by intros x dst|]. split; [|split].
  - intros i loc Hi [-> ->]%hello_locs _ j H0 Hj; [|done]. change (bl_stored hello_loc) with 5 in Hj. unfold CHUNK in Hj.
    assert (j = 0) as -> by lia. vm_compute. by eexists.
  - intros i loc raw n Hi [-> ->]%hello_locs Hp; [|done]. by vm_compute in Hp.
  - intros i loc raw Hi [-> ->]%hello_locs Hp; [|done]. by vm_compute in Hp.
Qed.


(** Two blocks of one letter each, compressed to it. *)
Definition letter_lz4 (x slot : bytes) : bytes * bool := match x with c :: _ => (replicate (length slot) c, true) | [] => (slot, false) end.
Definition letter_block (c : byte) : bytes := default [] (write_chunked_sz (take 1) (replicate 12 c) CHUNK true).
Definition letter_loc (c : byte) (off : Z) : BlockLoc := mkBlockLoc off (Zlen (letter_block c)) 12 (Zlen (letter_block c)) true (crc32 (letter_block c)) false false.
Definition letters : bytes := letter_block x61 ++ letter_block x62.
Definition letters_blob : Blob :=
  let table := default [] (encode_blocks [letter_loc x61 0; letter_loc x62 (Zlen (letter_block x61))] [replicate 16 0; replicate 16 0]) in
  mkBlob (mkSec [] 0) sample_flat (mkSec table 0) (mkMapped BLK_HEADER 2) 1 0 blob_options_default 7.
Definition letter_ext (i : Z) : Ext := mkExt i 0 4 0 (Z.lor 1 FIXED).

Lemma letter_ext_ok i : (0 <=? i) = true -> (i <? U32) = true -> ext_ok (letter_ext i).
Proof. intros H0%Z.leb_le H1%Z.ltb_lt. unfold ext_ok, letter_ext. cbn [e_block e_off e_len e_last e_count]. unfold U32 in *. repeat split; try lia; by vm_compute. Qed.

(** The outer read's four bytes and the inner's, and the inner's read again. *)
Lemma blob_reentry_stale_witness : exists rs1,
  with_extent_then letter_lz4 (bytes_source letters) letters_blob 0 true (letter_ext 0)
    (fun run => do* inner := with_extent letter_lz4 (bytes_source letters) letters_blob 0 true (letter_ext 1) in ret (run, inner)) fresh
    = Some (Ok ([x61; x61; x61; x61], [x62; x62; x62; x62]), rs1) /\
  with_extent letter_lz4 (bytes_source letters) letters_blob 0 true (letter_ext 1) rs1 = Some (Ok [x61; x61; x61; x61], rs1).
Proof.
  destruct (with_extent_then letter_lz4 (bytes_source letters) letters_blob 0 true (letter_ext 0)
    (fun run => do* inner := with_extent letter_lz4 (bytes_source letters) letters_blob 0 true (letter_ext 1) in ret (run, inner)) fresh) as [[r rs1]|] eqn:E;
    [|exfalso; vm_compute in E; discriminate E].
  assert (r = Ok ([x61; x61; x61; x61], [x62; x62; x62; x62])) as -> by (vm_compute in E; congruence). exists rs1. split; [reflexivity|].
  destruct (blob_reentry_stale letter_lz4 (bytes_source letters) letters_blob 0 true (letter_ext 0) (letter_ext 1) (letter_loc x61 0) (letter_loc x62 (Zlen (letter_block x61))) fresh
    [x61; x61; x61; x61] [x62; x62; x62; x62] rs1 ltac:(vm_compute; reflexivity) ltac:(vm_compute; reflexivity) ltac:(vm_compute; reflexivity) ltac:(vm_compute; reflexivity)
    ltac:(vm_compute; reflexivity) (letter_ext_ok 0 eq_refl eq_refl) (letter_ext_ok 1 eq_refl eq_refl) ltac:(vm_compute; reflexivity) ltac:(vm_compute; discriminate) E) as (stale & Hx & _ & _ & Hs).
  specialize (Hs ltac:(by vm_compute) ltac:(by vm_compute)). cbn in Hs. injection Hs as <-. exact Hx.
Defined.

(** Twelve bytes in chunks of four. *)
Definition small_payload : bytes := [x61; x62; x63; x64; x65; x66; x67; x68; x69; x6a; x6b; x6c].
Definition small_block : bytes := default [] (write_chunked_sz (fun b => b ++ b) small_payload 4 true).
Definition small_blob : Blob := blob_over (mkBlockLoc 0 (Zlen small_block) 12 (Zlen small_block) true (crc32 small_block) false false) (replicate 16 0).
Definition small_read (off : Z) : R bytes :=
  with_extent no_lz4 (bytes_source small_block) small_blob 0 true (mkExt 0 off 4 0 (Z.lor 1 FIXED)).

(** The reader says of its buffer that it holds whole chunks of [CHUNK]
    bytes, though the block's own header says how long its chunks are: over
    this block, sound and intact, a first read decodes its own chunk alone and
    the next is answered from the rest of the buffer, never decoded, without
    an error. Read first, the same extent answers its bytes. *)
Lemma blob_small_chunks_stale : exists rs, small_read 0 fresh = Some (Ok [x61; x62; x63; x64], rs) /\
  small_read 4 rs = Some (Ok (zeros 4), rs) /\ exists rs', small_read 4 fresh = Some (Ok [x65; x66; x67; x68], rs').
Proof. eexists. split; [vm_compute; reflexivity|]. split; [vm_compute; reflexivity|]. eexists. vm_compute. reflexivity. Qed.

(** The same block, its count of chunks three in one and one in the other:
    one bit. *)
Definition one_chunk : bytes := default [] (put_range small_block 4 (le32 1)).

(** A chunked block's directory is under no checksum: with one bit of its
    count flipped, the count reads one for three, and a read of the second
    chunk, checking, decodes nothing and succeeds: it answers what the
    destination held. *)
Theorem chunk_directory_unchecked :
  Zlen one_chunk = Zlen small_block /\ rd_u32 small_block 4 = Some 3 /\ rd_u32 one_chunk 4 = Some 1 /\
  (exists dst, read_chunked_range no_lz4 small_block 12 4 8 (zeros 12) true = Some (dst, Ok tt) /\ get_range dst 4 8 = Some [x65; x66; x67; x68]) /\
  read_chunked_range no_lz4 one_chunk 12 4 8 (zeros 12) true = Some (zeros 12, Ok tt).
Proof.
  split; [vm_compute; reflexivity|]. split; [vm_compute; reflexivity|]. split; [vm_compute; reflexivity|].
  split; [eexists; split; vm_compute; reflexivity|vm_compute; reflexivity].
Qed.

(** A plain block of two chunks, each with its checksum. *)
Definition two_chunks : bytes := zeros 5000.
Definition two_loc : BlockLoc := mkBlockLoc 0 5000 5000 5000 false (crc32 two_chunks) true false.
Definition two_row : list Z := crc32 (zeros 4096) :: crc32 (zeros 904) :: replicate 14 0.
Definition empty_at (off : Z) : Ext := mkExt 0 off 0 0 0.

(** C40: an extent of no bytes, which is what a key put without values has in
    a block, is refused wherever it lies in the block, when the block is
    stored plain, checksummed by the chunk and longer than a chunk, its source
    has it, and the reader checks and the process's switch is on: the span fetched for it is not the whole block, and the
    check of a span of nothing falls to the block's own checksum, which wants
    the whole. The block may be intact; neither its bytes nor what was checked
    before are looked at, and nothing is changed. *)
Theorem blob_empty_run_refused d src B blk_base e loc rs blk : loc_of B blk_base (e_block e) = Ok loc ->
  is_inline e = false -> e_len e = 0 -> 0 <= e_off e <= bl_stored loc -> bl_off loc + bl_stored loc < U64 ->
  is_plain loc = true -> bl_chunk_crc loc = true -> CHUNK < bl_stored loc -> verify_checksums (blob_opts B) = true ->
  source_coherent src -> src_read src (bl_off loc) (bl_stored loc) = Some blk ->
  with_extent d src B blk_base true e rs = Some (Err "a partial block read needs per-chunk checksums", rs).
Proof.
  intros Hl Hi Hn Ho Hoff Hp Hc Hst Hv Hco Hr. destruct (loc_at_range _ _ _ _ Hl) as (H0 & H1 & _).
  assert (sadd (e_off e) (e_len e) = e_off e) as Hsa by (rewrite Hn; unfold sadd, U64, U32 in *; lia).
  unfold with_extent. rewrite Hi, Hsa. unfold bind at 1, lift at 1. rewrite Hl. unfold chunk_span. rewrite Hp, Hc, Hsa. cbn [negb orb].
  set (a := e_off e) in *. set (c0 := Z.min (a / CHUNK * CHUNK) (bl_stored loc)). set (c1 := Z.max (Z.min (div_ceil a CHUNK * CHUNK) (bl_stored loc)) c0).
  pose proof (Z.div_mod a CHUNK ltac:(done)) as D1. pose proof (Z.mod_pos_bound a CHUNK ltac:(done)) as D2.
  assert (a <= div_ceil a CHUNK * CHUNK /\ div_ceil a CHUNK * CHUNK < a + CHUNK) as [D3 D4] by (unfold div_ceil, CHUNK in *; Z.div_mod_to_equations; lia).
  assert (0 <= c0 <= a /\ a <= c1 <= bl_stored loc /\ c1 - c0 <= CHUNK) as (Ha & Hb & Hlen).
  { unfold c0, c1, CHUNK in *. split; [lia|]. split; [lia|]. unfold div_ceil in *. Z.div_mod_to_equations; lia. }
  unfold bind at 1, expect at 1. rewrite (proj2 (cadd_Some (bl_off loc) c0 (bl_off loc + c0))) by lia.
  destruct (Hco _ _ _ Hr) as [Hbl Hsub]. destruct (get_range_is_Some blk c0 c1) as [raw Hraw]; [lia..|].
  pose proof (get_range_len _ _ _ _ Hraw) as Hrl. rewrite <- Hsub in Hraw by lia. unfold bind at 1, lift at 1, read_at. rewrite Hraw. cbn [ok_or].
  rewrite Hrl, !(proj2 (Z.ltb_ge _ _)) by lia. cbn [orb]. unfold bind, verify. rewrite Hv, Hc, (proj2 (Z.leb_le a a)) by lia. cbn [negb orb].
  rewrite !orb_true_r. unfold verify_whole. rewrite Hrl, (proj2 (Z.eqb_neq (c1 - c0) _)) by lia. cbn [negb]. by rewrite orb_true_r.
Qed.

(** Where any value of the block reads. *)
Lemma blob_empty_run_refused_witness :
  with_extent no_lz4 (bytes_source two_chunks) (blob_over two_loc two_row) 0 true (empty_at 4500) fresh = Some (Err "a partial block read needs per-chunk checksums", fresh) /\
  exists rs, with_extent no_lz4 (bytes_source two_chunks) (blob_over two_loc two_row) 0 true (mkExt 0 4500 3 0 (Z.lor 1 FIXED)) fresh = Some (Ok (zeros 3), rs).
Proof.
  split; [|eexists; vm_compute; reflexivity].
  assert (loc_of (blob_over two_loc two_row) 0 (e_block (empty_at 4500)) = Ok two_loc) as Hl by (vm_compute; reflexivity).
  refine (blob_empty_run_refused no_lz4 (bytes_source two_chunks) (blob_over two_loc two_row) 0 (empty_at 4500) two_loc fresh two_chunks Hl
    _ _ _ _ _ _ _ _ (bytes_coherent _) _); try (split; vm_compute; discriminate); vm_compute; reflexivity.
Defined.
