(* ===== verification/BlobPlan.v ===== *)
(** * Plans and the reads after them

    A reader names the ranges a read will fetch before it fetches any, so a
    host that fetches lazily can fetch them first. Proved: the plan is enough,
    and a read asks for nothing outside it. *)

From S2P Require Import Prelude State Varint Runs Crc Chunks BlockTable Records HashTable FlatIndex FlatRead Superblock Blob BlobCache.

#[local] Open Scope state_scope.

(** ** Ranges with gaps between them *)

Lemma gapped_later r v : gapped (r :: v) -> Forall (fun s => fst r + snd r < fst s) v.
Proof.
  revert r. induction v as [|s v IH]; intros r; [done|]. intros (Hr & Hlt & Hg). constructor; [done|].
  eapply Forall_impl; [by apply IH|]. cbn. destruct Hg as (Hs & _). lia.
Qed.

(** What is covered end to end lies in one of them. *)
Lemma gapped_one v off len : gapped v -> 0 < len -> (forall x, off <= x < off + len -> covered x v) ->
  exists r, In r v /\ fst r <= off /\ off + len <= fst r + snd r.
Proof.
  induction v as [|r v IH]; intros Hg Hl Hc. { destruct (Hc off) as (? & [] & _). lia. }
  pose proof (gapped_later _ _ Hg) as Hlater. rewrite List.Forall_forall in Hlater. destruct Hg as (_ & _ & Hg).
  destruct (decide (in_range off r)) as [Hin|Hout].
  - exists r. split; [by left|]. unfold in_range in Hin. split; [lia|]. destruct (Z.le_gt_cases (off + len) (fst r + snd r)) as [|Hgt]; [done|].
    destruct (Hc (fst r + snd r)) as (s & [<-|Hs] & Hx); [lia|unfold in_range in Hx; lia|]. apply Hlater in Hs. unfold in_range in Hx. lia.
  - destruct (IH Hg Hl) as (s & Hs & H). 
    + intros x Hx. destruct (Hc off) as (s & [<-|Hs] & Hos); [lia|done|]. apply Hlater in Hs. unfold in_range in Hos.
      destruct (Hc x Hx) as (t & [<-|Ht] & Hxt); [unfold in_range in Hxt; lia|]. by exists t.
    + exists s. split; [by right|done].
Qed.

#[export] Instance in_range_dec x r : Decision (in_range x r).
Proof. unfold in_range. solve_decision. Defined.

(** ** What a plan names *)

Section plan.
Context (d : bytes -> bytes -> bytes * bool) (B : Blob) (key_base blk_base : Z) (sums : bool).

(** The range a read of [e] fetches. *)
Definition fetched (e : Ext) (r : Z * Z) : Prop := exists loc, loc_of B blk_base (e_block e) = Ok loc /\
  r = (bl_off loc + fst (chunk_span loc e), snd (chunk_span loc e) - fst (chunk_span loc e)).

Lemma plan_exts_in exts out v : plan_exts B blk_base exts out = Some (Ok v) ->
  (forall r, In r out -> In r v) /\ (forall e, In e exts -> is_inline e = false -> exists r, In r v /\ fetched e r) /\
  (forall r, In r v -> In r out \/ exists e, In e exts /\ fetched e r).
Proof.
  revert out. induction exts as [|e exts IH]; intros out; cbn [plan_exts].
  - intros [= ->]. split; [done|]. split; [by intros e []|]. auto.
  - destruct (is_inline e) eqn:Hi.
    + intros H. destruct (IH _ H) as (H1 & H2 & H3). split; [done|]. split.
      * intros x [->|Hx] Hx2; [congruence|by apply H2].
      * intros r Hr. destruct (H3 r Hr) as [?|(x & ? & ?)]; [by left|]. right. exists x. split; [by right|done].
    + destruct (loc_of B blk_base (e_block e)) as [loc|] eqn:Hl; [|done]. destruct (chunk_span loc e) as [a b] eqn:Hs.
      destruct (cadd (bl_off loc) a) as [at_|] eqn:Ea; [|done]. cbn [option_bind mbind]. apply cadd_Some in Ea as [-> _].
      assert (fetched e (bl_off loc + a, b - a)) as Hf by (exists loc; by rewrite Hs).
      intros H. destruct (IH _ H) as (H1 & H2 & H3). split; [intros r Hr; apply H1, in_or_app; by left|]. split.
      * intros x [<-|Hx] Hx2; [|by apply H2]. exists (bl_off loc + a, b - a). split; [|done]. apply H1, in_or_app. right. by left.
      * intros r Hr. destruct (H3 r Hr) as [[Hin|[<-|[]]]%in_app_or|(x & ? & ?)]; [by left| |].
        -- right. exists e. split; [by left|done].
        -- right. exists x. split; [by right|done].
Qed.

(** No block runs past the last offset there is. *)
Definition blocks_bounded : Prop := forall i loc, loc_of B blk_base i = Ok loc -> bl_off loc + bl_stored loc < U64.

Lemma span_range loc e : 0 <= bl_stored loc -> ext_ok e -> 0 <= fst (chunk_span loc e) <= snd (chunk_span loc e) /\ snd (chunk_span loc e) <= bl_stored loc.
Proof.
  intros Hs (_ & Ho & _). unfold chunk_span. destruct (negb _ || _); cbn [fst snd]; [lia|].
  pose proof (Z.div_pos (e_off e) CHUNK ltac:(lia) ltac:(done)). unfold CHUNK in *. lia.
Qed.

Lemma fetched_ok e r : blocks_bounded -> ext_ok e -> fetched e r -> range_ok r.
Proof.
  intros Hb He (loc & Hl & ->). destruct (loc_at_range B blk_base _ _ Hl) as (Ho & Hs & _). pose proof (span_range loc e ltac:(lia) He).
  specialize (Hb _ _ Hl). unfold range_ok. cbn [fst snd]. lia.
Qed.

(** Two sources that answer alike inside the ranges, and on nothing. *)
Definition agree (v : list (Z * Z)) (s1 s2 : Source) : Prop := forall off len,
  len = 0 \/ 0 < len /\ (exists r, In r v /\ fst r <= off /\ off + len <= fst r + snd r) -> src_read s1 off len = src_read s2 off len.

Lemma extent_agrees s1 s2 v e rs : agree v s1 s2 -> blocks_bounded -> ext_ok e ->
  (is_inline e = false -> exists r, fetched e r /\ (0 < snd r -> exists m, In m v /\ fst m <= fst r /\ fst r + snd r <= fst m + snd m)) ->
  with_extent d s1 B blk_base sums e rs = with_extent d s2 B blk_base sums e rs.
Proof.
  intros Ha Hb He Hf. unfold with_extent. destruct (is_inline e); [done|]. destruct (Hf eq_refl) as (r & (loc & Hl & ->) & Hm). cbn [fst snd] in Hm.
  unfold bind, lift. rewrite Hl. destruct (loc_at_range B blk_base _ _ Hl) as (_ & Hs & _). pose proof (span_range loc e ltac:(lia) He) as Hsp.
  destruct (chunk_span loc e) as [c0 c1]. cbn [fst snd] in *. unfold expect. destruct (cadd (bl_off loc) c0) as [at_|] eqn:Ea; [|done]. apply cadd_Some in Ea as [-> _].
  unfold read_at. rewrite (Ha (bl_off loc + c0) (c1 - c0)); [done|].
  destruct (Z.eq_dec (c1 - c0) 0); [by left|]. right. split; [lia|]. apply Hm. lia.
Qed.

Lemma read_go_agrees s1 s2 v exts tail n rs : agree v s1 s2 -> blocks_bounded ->
  (forall e, In e exts -> ext_ok e /\ (is_inline e = false -> exists r, fetched e r /\ (0 < snd r -> exists m, In m v /\ fst m <= fst r /\ fst r + snd r <= fst m + snd m))) ->
  read_go d s1 B blk_base sums exts tail n rs = read_go d s2 B blk_base sums exts tail n rs.
Proof.
  intros Ha Hb. revert n rs. induction exts as [|e exts IH]; intros n rs H; [done|]. cbn [read_go].
  assert (with_run d s1 B blk_base sums e tail rs = with_run d s2 B blk_base sums e tail rs) as ->.
  { unfold with_run. destruct (is_inline e) eqn:Hi; [done|]. destruct (H e (or_introl eq_refl)) as [He Hf]. by apply (extent_agrees s1 s2 v). }
  destruct (with_run d s2 B blk_base sums e tail rs) as [[[run|m] rs']|]; [|done|done]. destruct (each_value run e) as [vs [k|m]]; [|done].
  unfold bind. rewrite IH; [done|]. intros x Hx. apply H. by right.
Qed.
End plan.

(** C28: the ranges planned for a key are in order with a gap between any two,
    and they are all a read of it needs: over two sources that agree inside
    them, however they differ outside, reading every value of the key does
    the same, step for step, to the values, the error and what the reader
    remembers. A source that holds the plan's ranges alone serves the read. *)
Theorem plan_covers_read d B key_base blk_base sums s1 s2 key v rs :
  blocks_bounded B blk_base -> ranges_for B key_base blk_base key = Some (Ok v) ->
  (forall exts tail, blob_lookup_full B key_base key = Some (exts, tail) -> Forall ext_ok (exts_deref exts)) -> agree v s1 s2 ->
  gapped v /\ read_all d s1 B key_base blk_base sums key rs = read_all d s2 B key_base blk_base sums key rs.
Proof.
  intros Hb Hr Hok Ha. unfold ranges_for, plan_key in Hr. unfold read_all, blob_with_lookup. rewrite !with_lookup_full.
  unfold blob_lookup, lookup in Hr. unfold blob_lookup_full in Hok. destruct (lookup_full _ _ _ _ key) as [[exts tail]|] eqn:Hl; cbn [option_bind mbind] in Hr.
  2:{ split; [|done]. change (merge_ranges []) with (Some (@nil (Z * Z))) in Hr. injection Hr as <-. done. }
  destruct (plan_exts B blk_base (exts_deref exts) []) as [[p|m]|] eqn:Hp; [|done|done]. cbn [option_bind mbind merged] in Hr.
  destruct (plan_exts_in B blk_base _ _ _ Hp) as (_ & Hin & Hfrom). specialize (Hok _ _ eq_refl). rewrite List.Forall_forall in Hok.
  assert (Forall range_ok p) as Hrok.
  { apply List.Forall_forall. intros r Hr'. destruct (Hfrom r Hr') as [[]|(e & He & Hf)]. eapply fetched_ok; [exact Hb|by apply Hok|exact Hf]. }
  destruct (merge_ranges_kept p Hrok) as (out & Hm & Hg & _ & Hc). rewrite Hm in Hr. cbn in Hr. injection Hr as ->. split; [done|].
  cbn [fmap option_fmap option_map default from_option id]. unfold id. apply (read_go_agrees d B blk_base sums s1 s2 v); [done|done|].
  intros e He. split; [by apply Hok|]. intros Hi. destruct (Hin e He Hi) as (r & Hrin & Hf). exists r. split; [done|]. intros Hpos.
  destruct (gapped_one v (fst r) (snd r) Hg Hpos) as (m & Hmin & H1 & H2); [|by exists m]. intros x Hx. apply Hc. exists r. by split.
Qed.

(** ** One key in the second chunk, at work *)

Definition plan_ext : Ext := mkExt 0 4500 3 0 (Z.lor 1 FIXED).
Definition plan_recs : bytes := record_bytes [x61] [plan_ext] [] true.
Definition plan_sec : bytes :=
  match stream_trailer 1 1 (Zlen plan_recs) (fun _ => [x61]) (fun _ => (0, key_hash [x61])) 7 true with
  | Some (h, t, _) => h ++ plan_recs ++ t
  | None => []
  end.
Definition plan_blob : Blob :=
  mkBlob (mkSec plan_sec 0) (default sample_flat (flat_parse plan_sec)) (blob_blk (blob_over two_loc two_row)) (mkMapped BLK_HEADER 1) 7 0
    blob_options_default 1.

(** The block, and the block with its first chunk damaged. *)
Definition intact : Source := bytes_source (zeros 4096 ++ zeros 904).
Definition damaged : Source := bytes_source (replicate 4096 x01 ++ zeros 904).

Lemma intact_damaged : agree [(4096, 904)] intact damaged.
Proof.
  assert (Zlen (zeros 4096) = 4096 /\ Zlen (replicate 4096 x01) = 4096) as [H1 H2] by (split; vm_compute; reflexivity).
  intros off len [->|(Hl & r & [<-|[]] & Ha & Hb)]; unfold intact, damaged; cbn [src_read bytes_source fst snd] in *.
  - unfold get_range. rewrite !Zlen_app, H1, H2, Z.add_0_r, Z.sub_diag. done.
  - rewrite !get_range_skip by lia. by rewrite H1, H2.
Qed.

Lemma plan_covers_read_witness : exists rs, ranges_for plan_blob 0 0 [x61] = Some (Ok [(4096, 904)]) /\
  read_all no_lz4 damaged plan_blob 0 0 true [x61] fresh = Some (Ok ([zeros 3], Ok 1), rs).
Proof.
  assert (ranges_for plan_blob 0 0 [x61] = Some (Ok [(4096, 904)])) as Hr by (vm_compute; reflexivity).
  assert (exists rs, read_all no_lz4 intact plan_blob 0 0 true [x61] fresh = Some (Ok ([zeros 3], Ok 1), rs)) as [rs Hx] by (eexists; vm_compute; reflexivity).
  exists rs. split; [exact Hr|].
  destruct (plan_covers_read no_lz4 plan_blob 0 0 true intact damaged [x61] [(4096, 904)] fresh) as [_ He].
  - intros i loc H. destruct (Z.le_gt_cases 1 i) as [Hi|Hi].
    { unfold loc_of, mapped_get, plan_blob in H. cbn [blob_blocks mb_n] in H. rewrite (proj2 (Z.leb_le 1 i)) in H by lia. discriminate H. }
    destruct (Z.eq_dec i 0) as [->|]; [vm_compute in H; injection H as <-; reflexivity|]. exfalso.
    unfold loc_of, mapped_get, plan_blob in H. cbn [blob_blocks mb_n mb_off] in H. rewrite (proj2 (Z.leb_gt 1 i)) in H by lia.
    unfold cmul, cadd in H. rewrite (proj2 (Z.ltb_lt _ _)) in H by (unfold BLK_ENTRY, U64; lia). cbn [option_bind mbind] in H.
    rewrite (proj2 (Z.ltb_lt _ _)) in H by (unfold BLK_ENTRY, BLK_HEADER, U64; lia). cbn [option_bind mbind] in H.
    rewrite (proj2 (Z.ltb_lt _ _)) in H by (unfold BLK_ENTRY, BLK_HEADER, U64; lia). cbn [option_bind mbind] in H.
    unfold get_range in H. rewrite (proj2 (Z.leb_gt 0 _)) in H by (unfold BLK_ENTRY, BLK_HEADER; lia). discriminate H.
  - exact Hr.
  - intros exts tail H. vm_compute in H. injection H as <- <-. cbn [exts_deref]. apply Forall_singleton. repeat split; vm_compute; congruence.
  - exact intact_damaged.
  - rewrite <- He. exact Hx.
Defined.
