(* ===== verification/SegmentWriter.v ===== *)
(** * The segment writer

    [src/src/db.rs], [SegmentWriter], lines 6298 to 7430: a segment written a
    key at a time, in strictly increasing order, records first. The operations
    are the source's, in a monad over the writer's state: [None] where the
    source panics, and otherwise what it returned and the state it left, an
    error's state included. The file is its bytes so far: the buffering of
    [AlignedWriter], its helper thread and the syncs move no byte, and a write
    here does not fail. The LZ4 coder is the parameter it is in [Chunks];
    [sums] is the process-wide [CHECKSUMS] switch and [target] the fence's
    density. *)

From S2P Require Import Prelude State Varint Runs Crc Chunks BlockTable Records HashTable FlatIndex Reserve Superblock.

Inductive Layout := BlocksFirst | RecordsFirst.

#[export] Instance Layout_eq_dec : EqDecision Layout.
Proof. solve_decision. Defined.

(** ** The state, part by part *)

(** What is set before the first key. *)
Record Settings := mkSettings {
  st_block_size : Z;
  st_inline_max : Z;
  st_compress : bool;
  st_marks : bool;
  st_head_reserve : Z;
  st_compact_records : bool;
  st_lookahead : bool
}.

(** The file, and where the next byte of it goes. *)
Record Out := mkOut { o_file : bytes; o_pos : Z; o_reserve_off : Z; o_mode : option Layout }.

(** The keys taken in, back to back, the open one among them. *)
Record Keys := mkKeys { k_arena : bytes; k_spans : list (Z * Z); k_open : option (Z * Z); k_deferred : option Z }.

(** The open key's values, and what was written of the last one. *)
Record Staging := mkStaging {
  g_run : bytes;
  g_raw : bytes;
  g_lens : list Z;
  g_last : Z;
  g_records : Z;
  g_last_value : Z * Z;
  g_payload : Z
}.

Record Blocks := mkBlocks {
  b_builder : BlockBuilder;
  b_blocks : list BlockLoc;
  b_chunk_rows : list (list Z);
  b_pending : list bytes
}.

(** The records streamed, in the records-first layout. *)
Record Recs := mkRecs {
  r_len : Z;
  r_offs : list Z;
  r_hashes : list Z;
  r_batch : bytes;
  r_mark_crc : Z;
  r_mark_start : Z
}.

(** The extents and tails kept for the end, in the blocks-first layout. *)
Record Kept := mkKept { t_exts : list Extents; t_tails : bytes; t_tail_spans : list (Z * Z) }.

Record SegmentWriter := mkWriter {
  w_set : Settings;
  w_out : Out;
  w_keys : Keys;
  w_staging : Staging;
  w_blocks : Blocks;
  w_recs : Recs;
  w_kept : Kept
}.

Definition set_out (f : Out -> Out) (w : SegmentWriter) : SegmentWriter :=
  mkWriter (w_set w) (f (w_out w)) (w_keys w) (w_staging w) (w_blocks w) (w_recs w) (w_kept w).
Definition set_keys (f : Keys -> Keys) (w : SegmentWriter) : SegmentWriter :=
  mkWriter (w_set w) (w_out w) (f (w_keys w)) (w_staging w) (w_blocks w) (w_recs w) (w_kept w).
Definition set_staging (f : Staging -> Staging) (w : SegmentWriter) : SegmentWriter :=
  mkWriter (w_set w) (w_out w) (w_keys w) (f (w_staging w)) (w_blocks w) (w_recs w) (w_kept w).
Definition set_blocks (f : Blocks -> Blocks) (w : SegmentWriter) : SegmentWriter :=
  mkWriter (w_set w) (w_out w) (w_keys w) (w_staging w) (f (w_blocks w)) (w_recs w) (w_kept w).
Definition set_recs (f : Recs -> Recs) (w : SegmentWriter) : SegmentWriter :=
  mkWriter (w_set w) (w_out w) (w_keys w) (w_staging w) (w_blocks w) (f (w_recs w)) (w_kept w).
Definition set_kept (f : Kept -> Kept) (w : SegmentWriter) : SegmentWriter :=
  mkWriter (w_set w) (w_out w) (w_keys w) (w_staging w) (w_blocks w) (w_recs w) (f (w_kept w)).

(** ** The operations *)

Definition M (A : Type) : Type := SM SegmentWriter A.

#[local] Open Scope state_scope.

(** ** Writing to the file *)

Definition write_all (b : bytes) : M unit :=
  modify (set_out (fun o => mkOut (o_file o ++ b) (o_pos o) (o_reserve_off o) (o_mode o))).
Definition advance (n : Z) : M unit :=
  modify (set_out (fun o => mkOut (o_file o) (o_pos o + n) (o_reserve_off o) (o_mode o))).

(** [create], and every setting applied. *)
Definition create_with (set : Settings) : SegmentWriter :=
  mkWriter
    (mkSettings (Z.max (st_block_size set) 1) (st_inline_max set) (st_compress set) (st_marks set)
      (st_head_reserve set) (st_compact_records set) (st_lookahead set))
    (mkOut (zeros SUPER) SUPER 0 None) (mkKeys [] [] None None)
    (mkStaging [] [] [] 0 0 (0, 0) 0)
    (mkBlocks (builder_new (Z.max (st_block_size set) 1)) [] [] [])
    (mkRecs 0 [] [] [] 0 0) (mkKept [] [] []).

(** Where the key section starts. *)
Definition key_start (w : SegmentWriter) : Z :=
  SUPER + (if negb (o_reserve_off (w_out w) =? 0) then st_head_reserve (w_set w) else 0).

(** The layout, settled by the first key: the head reserve's zeroes and the
    section header's go in then. *)
Definition layout : M Layout := fun w =>
  match o_mode (w_out w) with
  | Some m => Some (Ok m, w)
  | None =>
      let m := if 0 <? st_inline_max (w_set w) then RecordsFirst else BlocksFirst in
      let w :=
        if (0 <? st_head_reserve (w_set w)) && (o_reserve_off (w_out w) =? 0)
        then set_out (fun o => mkOut (o_file o ++ zeros (st_head_reserve (w_set w)))
                                 (o_pos o + st_head_reserve (w_set w)) (o_pos o) (o_mode o)) w
        else w in
      let w :=
        match m with
        | RecordsFirst => set_out (fun o => mkOut (o_file o ++ zeros HEADER) (o_pos o + HEADER) (o_reserve_off o) (o_mode o)) w
        | BlocksFirst => w
        end in
      Some (Ok m, set_out (fun o => mkOut (o_file o) (o_pos o) (o_reserve_off o) (Some m)) w)
  end.

(** ** The keys *)

(** [&self.key_arena[s..s + l]]. *)
Definition span_key (ks : Keys) (s : Z * Z) : option bytes := get_range (k_arena ks) (fst s) (fst s + snd s).

(** Whether a key is not above the last one taken in. *)
Definition below_last (ks : Keys) (key : bytes) : option bool :=
  match last (k_spans ks) with
  | None => Some false
  | Some s => k ← span_key ks s; Some (bleb key k)
  end.

Definition refuse_key (key : bytes) : M unit :=
  do* open := gets (fun w => k_open (w_keys w)) in
  do* tt := refuse_if (match open with Some _ => true | None => false end) "segment writer: begin while a key is open" in
  do* tt := refuse_if (U16_MAX <? Zlen key) "segment writer: key longer than 65,535 bytes" in
  do* ks := gets w_keys in
  do* below := expect (below_last ks key) in
  refuse_if below "segment writer: keys must arrive in strictly increasing order".

Definition refuse_deferred : M unit :=
  do* d := gets (fun w => k_deferred (w_keys w)) in
  refuse_if (match d with Some _ => true | None => false end)
    "segment writer: a writer whose keys are deferred takes streamed records only".

Definition begin (key : bytes) : M unit :=
  do* tt := refuse_deferred in
  do* tt := refuse_key key in
  do* _ := layout in
  do* tt := modify (set_keys (fun k => mkKeys (k_arena k ++ key) (k_spans k) (Some (Zlen (k_arena k), Zlen key)) (k_deferred k))) in
  modify (set_staging (fun g => mkStaging [] (g_raw g) (g_lens g) 0 0 (g_last_value g) (g_payload g))).

Definition value (v : bytes) : M unit :=
  modify (set_staging (fun g => mkStaging (g_run g) (g_raw g ++ v) (g_lens g ++ [w32 (Zlen v)]) (g_last g)
                                  (w32 (g_records g + 1)) (g_last_value g) (g_payload g))).

Section writer.
Context (lz4_compress : bytes -> bytes) (sums : bool).

(** What [flush_block] stores of a payload: the chunked form where it is
    smaller, the payload compressed whole where it is not worth chunking,
    else the payload; and whether it is chunked. *)
Definition stored_form (on : bool) (payload : bytes) : option (bytes * bool) :=
  let chunked := on && (CHUNK <? Zlen payload) in
  stored ←
    (if chunked then c ← write_chunked_sz lz4_compress payload CHUNK sums; Some (if Zlen c <? Zlen payload then Some c else None)
     else if on then Some (compress lz4_compress payload)
     else Some None);
  Some (default payload stored, chunked && match stored with Some _ => true | None => false end).

(** A payload's place in the table, its row of chunk checksums and the bytes
    stored of it. *)
Definition block_of (on : bool) (pos : Z) (payload : bytes) : option (BlockLoc * list Z * bytes) :=
  let uncompressed := w32 (Zlen payload) in
  '(bs, chunked) ← stored_form on payload;
  let len := w32 (Zlen bs) in
  let row := if sums && (len =? uncompressed) then chunk_crcs bs else None in
  let crc := if sums then crc32 bs else 0 in
  Some (mkBlockLoc pos len uncompressed len chunked crc (match row with Some _ => true | None => false end) false,
        default (replicate (Z.to_nat MAX_CHUNK_CRCS) 0) row, bs).

Definition flush_block : M unit :=
  do* b := gets w_blocks in
  if builder_is_empty (b_builder b) then ret tt
  else
    let '(builder, payload) := builder_take (b_builder b) in
    do* on := gets (fun w => st_compress (w_set w)) in
    do* pos := gets (fun w => o_pos (w_out w)) in
    do* (loc, row, bs) := expect (block_of on pos payload) in
    do* tt := modify (set_blocks (fun b => mkBlocks builder (b_blocks b ++ [loc]) (b_chunk_rows b ++ [row]) (b_pending b))) in
    do* mode := gets (fun w => o_mode (w_out w)) in
    match mode with
    | Some RecordsFirst =>
        modify (set_blocks (fun b => mkBlocks (b_builder b) (b_blocks b) (b_chunk_rows b) (b_pending b ++ [bs])))
    | _ => do* tt := write_all bs in advance (Zlen bs)
    end.

(** A run's extent: inline, or in the block it is pushed to, which is
    flushed first where it has no room and after where it is full. *)
Definition place_run (run : bytes) (last count : Z) (inline : bool) : M Ext :=
  if inline then ret (mkExt INLINE 0 (w32 (Zlen run)) (w32 last) count)
  else
    do* b := gets w_blocks in
    do* tt := (if would_overflow (b_builder b) (Zlen run) then flush_block else ret tt) in
    do* b := gets w_blocks in
    let '(builder, off) := builder_push (b_builder b) run in
    let ext := mkExt (w32 (Zlen (b_blocks b))) off (w32 (Zlen run)) (w32 last) count in
    do* tt := modify (set_blocks (fun b => mkBlocks builder (b_blocks b) (b_chunk_rows b) (b_pending b))) in
    do* size := gets (fun w => st_block_size (w_set w)) in
    do* tt := (if size <=? builder_len builder then flush_block else ret tt) in
    ret ext.

Definition limits : string := "segment writer: key section exceeds the flat index's limits".

(** A record laid into the batch a marker will cover, or the file; its
    value is [value_len] bytes, [value_at] into its tail. *)
Definition stream_one (key : bytes) (ext : Ext) (tail : bytes) (value_at value_len : Z) (inline : bool) : M unit :=
  do* compact := gets (fun w => st_compact_records (w_set w)) in
  do* (rec, (wrote, tail_at)) := require (stream_record_tail_at [] key [ext] tail compact)
    "segment writer: record exceeds the flat index's limits" in
  do* marks := gets (fun w => st_marks (w_set w)) in
  do* tt := (if (marks : bool)
             then modify (set_recs (fun r => mkRecs (r_len r) (r_offs r) (r_hashes r) (r_batch r ++ rec) (r_mark_crc r) (r_mark_start r)))
             else write_all rec) in
  do* pos := gets (fun w => o_pos (w_out w)) in
  do* tt := modify (set_staging (fun g => mkStaging (g_run g) (g_raw g) (g_lens g) (g_last g) (g_records g)
              (if inline then (pos + (tail_at + value_at), w32 value_len) else (0, 0)) (g_payload g))) in
  do* tt := advance wrote in
  do* tt := modify (set_recs (fun r => mkRecs (r_len r + wrote) (r_offs r ++ [w32 (r_len r)]) (r_hashes r ++ [key_hash key])
              (r_batch r) (r_mark_crc r) (r_mark_start r))) in
  do* len := gets (fun w => r_len (w_recs w)) in
  refuse_if (MAX_RECS <? len) limits.

Definition push_span (s : Z * Z) : M unit :=
  modify (set_keys (fun k => mkKeys (k_arena k) (k_spans k ++ [s]) (k_open k) (k_deferred k))).

Definition end_with (tombstone : bool) : M unit :=
  do* open := gets (fun w => k_open (w_keys w)) in
  do* tt := modify (set_keys (fun k => mkKeys (k_arena k) (k_spans k) None (k_deferred k))) in
  do* (start, len) := require open "segment writer: end without begin" in
  do* g := gets w_staging in
  let value_len := if g_records g =? 1 then Zlen (g_raw g) else 0 in
  do* (run, (last, flag)) := expect (encode_run (g_raw g) (g_lens g)) in
  do* tt := modify (set_staging (fun g => mkStaging run [] [] last (g_records g) (g_last_value g)
              (g_payload g + (len * g_records g + Zlen (g_raw g) + (if tombstone then len + 16 else 0))))) in
  let n := Zlen run in
  do* tt := refuse_if (U32 - 1 <? n) "segment writer: a key's values exceed 4 GiB in one segment" in
  do* tt := refuse_if (FIXED <=? g_records g) "segment writer: a key's values exceed the extent's count" in
  let count := count_word (g_records g) flag tombstone in
  do* lay := layout in
  do* inline_max := gets (fun w => st_inline_max (w_set w)) in
  let inline := is_inlined inline_max n in
  do* ext := place_run run last count inline in
  do* tt := (match lay with
    | RecordsFirst =>
        do* ks := gets w_keys in
        do* key := expect (span_key ks (start, len)) in
        stream_one key ext (if inline then run else []) (n - value_len) value_len inline
    | BlocksFirst =>
        modify (set_kept (fun t =>
          if inline then mkKept (t_exts t ++ [EOne ext]) (t_tails t ++ run) (t_tail_spans t ++ [(Zlen (t_tails t), n)])
          else mkKept (t_exts t ++ [EOne ext]) (t_tails t) (t_tail_spans t ++ [(0, 0)])))
    end) in
  push_span (start, len).

Definition end_ : M unit := end_with false.

Definition put_one (key v : bytes) : M unit :=
  let three := do* tt := begin key in do* tt := value v in end_ in
  do* tt := refuse_deferred in
  do* inline_max := gets (fun w => st_inline_max (w_set w)) in
  if (Zlen v =? 0) || negb (is_inlined inline_max (Zlen v)) then three
  else
    do* tt := refuse_key key in
    do* lay := layout in
    if decide (lay <> RecordsFirst) then three
    else
      do* start := gets (fun w => Zlen (k_arena (w_keys w))) in
      do* tt := modify (set_keys (fun k => mkKeys (k_arena k ++ key) (k_spans k) (k_open k) (k_deferred k))) in
      let n := Zlen v in
      do* tt := modify (set_staging (fun g => mkStaging (g_run g) (g_raw g) (g_lens g) 0 (g_records g) (g_last_value g)
                  (g_payload g + (Zlen key + n)))) in
      do* tt := stream_one key (mkExt INLINE 0 (w32 n) 0 (Z.lor 1 FIXED)) v 0 n true in
      push_span (start, Zlen key).
End writer.

(** ** Markers *)

Definition DIRECT_MARK : bytes := [x53; x55; x50; x44].
Definition DIRECT_MARK_LEN : Z := 24.

(** The held batch, hashed into the marker that will cover it and written. *)
Definition write_batch : M unit :=
  do* r := gets w_recs in
  do* tt := write_all (r_batch r) in
  modify (set_recs (fun r => mkRecs (r_len r) (r_offs r) (r_hashes r) []
    (crc32_combine (r_mark_crc r) (crc32 (r_batch r)) (Zlen (r_batch r))) (r_mark_start r))).

Definition key_count (w : SegmentWriter) : Z := default (Zlen (k_spans (w_keys w))) (k_deferred (w_keys w)).

Definition marker_bytes (w : SegmentWriter) : bytes :=
  zeros 4 ++ DIRECT_MARK ++ le32 (r_mark_crc (w_recs w)) ++ le32 (w32 (r_len (w_recs w) - r_mark_start (w_recs w))) ++
  le64 (key_count w).

Definition marked : M unit :=
  do* tt := advance DIRECT_MARK_LEN in
  modify (set_recs (fun r => mkRecs (r_len r + DIRECT_MARK_LEN) (r_offs r) (r_hashes r) (r_batch r) 0 (r_len r + DIRECT_MARK_LEN))).

Definition mark : M unit :=
  do* open := gets (fun w => k_open (w_keys w)) in
  do* tt := refuse_if (match open with Some _ => true | None => false end) "segment writer: mark while a key is open" in
  do* lay := layout in
  do* tt := refuse_if (match lay with RecordsFirst => false | BlocksFirst => true end)
              "segment writer: a marker needs the records-first layout" in
  do* marks := gets (fun w => st_marks (w_set w)) in
  do* tt := refuse_if (negb marks) "segment writer: mark on a writer not set to mark" in
  do* tt := write_batch in
  do* m := gets marker_bytes in
  do* tt := write_all m in
  marked.

(** [sync]'s batch: written without its marker. *)
Definition sync : M unit :=
  do* r := gets w_recs in
  if Zlen (r_batch r) =? 0 then ret tt else write_batch.

Definition set_deferred_keys : M unit :=
  do* k := gets w_keys in
  do* tt := refuse_if (negb (Zlen (k_spans k) =? 0) || match k_open k with Some _ => true | None => false end)
              "segment writer: keys deferred after a key was written" in
  modify (set_keys (fun k => mkKeys (k_arena k) (k_spans k) (k_open k) (Some 0))).

(** ** Finishing a records-first segment *)

(** The file's bytes at [key_off + at_ ..], under the header that will be
    patched over its zeroes. *)
Definition read_back (file header : bytes) (key_off at_ en : Z) : option bytes :=
  let n := en - at_ in
  let from_header := Z.min (ssub (Zlen header) at_) n in
  h ← (if 0 <? from_header then get_range header at_ (at_ + from_header) else Some []);
  rest ← (if from_header <? n then get_range file (key_off + at_ + from_header) (key_off + en) else Some []);
  Some (h ++ rest).

Fixpoint row_go (file header : bytes) (key_off : Z) (ps : list (Z * Z)) (row : bytes) : option bytes :=
  match ps with
  | [] => Some row
  | (at_, en) :: ps => b ← read_back file header key_off at_ en; row_go file header key_off ps (row ++ le32 (crc32 b))
  end.
Definition row_for (file header : bytes) (key_off total : Z) : option bytes :=
  row_go file header key_off (pieces total PIECE_SHIFT key_off) [].

(** The held blocks, each row taking its offset as it lands. *)
Fixpoint land_blocks (i : Z) (held : list bytes) : M unit :=
  match held with
  | [] => ret tt
  | bs :: held =>
      do* pos := gets (fun w => o_pos (w_out w)) in
      do* b := gets w_blocks in
      do* loc := expect (get_at (b_blocks b) i) in
      do* blocks := expect (put_range (b_blocks b) i [mkBlockLoc pos (bl_stored loc) (bl_uncompressed loc) (bl_cap loc) (bl_chunked loc)
                        (bl_crc loc) (bl_chunk_crc loc) (bl_solo loc)]) in
      do* tt := modify (set_blocks (fun b => mkBlocks (b_builder b) blocks (b_chunk_rows b) (b_pending b))) in
      do* tt := write_all bs in
      do* tt := advance (Zlen bs) in
      land_blocks (i + 1) held
  end.

Section finish.
Context (lz4_compress : bytes -> bytes) (sums : bool) (target : Z).

(** Up to the table of a records-first segment: the section's offset and
    length with its row, and the header to patch over its zeroes. *)
Definition finish_records (generation : Z) : M (Z * Z * bytes) :=
  do* open := gets (fun w => k_open (w_keys w)) in
  do* tt := refuse_if (match open with Some _ => true | None => false end) "segment writer: finish with a key still open" in
  do* deferred := gets (fun w => k_deferred (w_keys w)) in
  do* tt := refuse_if (match deferred with Some _ => true | None => false end)
              "segment writer: deferred keys need their source at the finish" in
  do* _ := layout in
  do* tt := flush_block lz4_compress sums in
  do* tt := sync in
  do* key_off := gets key_start in
  do* ks := gets w_keys in
  do* r := gets w_recs in
  do* look := gets (fun w => st_lookahead (w_set w)) in
  let key_at := fun i => default [] (s ← get_at (k_spans ks) i; span_key ks s) in
  let each := fun i => (default 0 (get_at (r_offs r) i), default 0 (get_at (r_hashes r) i)) in
  do* (header, trailer, total) := require (stream_trailer target (Zlen (k_spans ks)) (r_len r) key_at each generation look) limits in
  do* tt := write_all trailer in
  do* tt := advance (Zlen trailer) in
  do* header := expect (set_checksum_words header total) in
  do* file := gets (fun w => o_file (w_out w)) in
  do* row := expect (row_for file header key_off total) in
  do* tt := write_all row in
  do* tt := advance (Zlen row) in
  do* b := gets w_blocks in
  do* tt := modify (set_blocks (fun b => mkBlocks (b_builder b) (b_blocks b) (b_chunk_rows b) [])) in
  do* tt := land_blocks 0 (b_pending b) in
  ret (key_off, total + Zlen row, header).

(** The block table: in the head reserve where it fits with room to spare,
    at the end of the file otherwise. *)
Definition pad_file (align : Z) : M unit :=
  do* pos := gets (fun w => o_pos (w_out w)) in
  let rem := pos mod align in
  if negb (rem =? 0) then do* tt := write_all (zeros (align - rem)) in advance (align - rem) else ret tt.

Definition place_table : M (bytes * bool * Z) :=
  do* b := gets w_blocks in
  do* table := expect (encode_blocks (b_blocks b) (b_chunk_rows b)) in
  do* reserve_off := gets (fun w => o_reserve_off (w_out w)) in
  do* head_reserve := gets (fun w => st_head_reserve (w_set w)) in
  let table_in_reserve := negb (reserve_off =? 0) && (Zlen table + 8 <=? head_reserve) in
  if table_in_reserve then ret (table, true, reserve_off)
  else
    do* tt := pad_file 8 in
    do* at_ := gets (fun w => o_pos (w_out w)) in
    do* tt := write_all table in
    do* tt := advance (Zlen table) in
    ret (table, false, at_).
End finish.

(** ** The head reserve and the superblock page *)

(** [file.read_exact_at(src, len)], then [file.write_all_at(at_)]. *)
Definition copy_in (file : bytes) (at_ src len : Z) : option (bytes * bytes) :=
  b ← get_range file src (src + len); file ← put_range file at_ b; Some (file, b).

(** The copies after the table, each where it fits: the row, the fence, the
    directory; and the file with them. *)
Definition copy_row (file : bytes) (at_ en key_off : Z) (hdr : Header) (row_len : Z) : option (bytes * option Z * Z) :=
  if (0 <? row_len) && (at_ + row_len <=? en) then
    '(file, _) ← copy_in file at_ (key_off + hd_crc_off hdr) row_len; Some (file, Some at_, div_ceil (at_ + row_len) 8 * 8)
  else Some (file, None, at_).

Definition copy_fence (file : bytes) (at_ en key_off foff flen : Z) : option (bytes * option (Z * Z * Z) * Z) :=
  if (0 <? flen) && (at_ + flen <=? en) then
    '(file, b) ← copy_in file at_ (key_off + foff) flen; Some (file, Some (at_, flen, crc32 b), div_ceil (at_ + flen) 8 * 8)
  else Some (file, None, at_).

Definition copy_dir (file : bytes) (at_ en key_off : Z) (hdr : Header) : option (bytes * option (Z * Z)) :=
  let dlen := hd_nkeys hdr * 4 in
  if (0 <? dlen) && (at_ + dlen <=? en) then
    '(file, b) ← copy_in file at_ (key_off + hd_dir_off hdr) dlen; Some (file, Some (at_, crc32 b))
  else Some (file, None).

Record Copies := mkCopies { cp_row : option Z; cp_fence : option (Z * Z * Z); cp_dir : option (Z * Z) }.

Definition fill_reserve (file table : bytes) (table_in_reserve : bool) (reserve_off head_reserve key_off : Z) (hdr : Header)
    (fence : Z * Z) (row_len : Z) : option (bytes * Copies) :=
  if table_in_reserve then
    file ← put_range file reserve_off table;
    let en := reserve_off + head_reserve in
    let at_ := div_ceil (reserve_off + Zlen table) 8 * 8 in
    '(file, row_copy, at_) ← copy_row file at_ en key_off hdr row_len;
    '(file, fence_copy, at_) ← copy_fence file at_ en key_off (fst fence) (snd fence);
    '(file, dir_copy) ← copy_dir file at_ en key_off hdr;
    Some (file, mkCopies row_copy fence_copy dir_copy)
  else Some (file, mkCopies None None None).

(** The first page: the superblock in both slots, the extension after them. *)
Definition super_page (sb ext : bytes) : option bytes :=
  page ← put_range (zeros SUPER) 0 sb;
  page ← put_range page SB_SLOT sb;
  put_range page 1024 ext.

Section finish_file.
Context (lz4_compress : bytes -> bytes) (sums : bool) (target ts : Z).

(** The finish of a records-first segment, to the file's bytes. *)
Definition finish (generation : Z) : M bytes :=
  do* (key_off, key_len, header) := finish_records lz4_compress sums target generation in
  do* (table, table_in_reserve, blk_off) := place_table in
  do* w := gets id in
  do* file := expect (put_range (o_file (w_out w)) key_off header) in
  do* hdr := require (header_parse header) "segment writer: the header it wrote does not parse" in
  let '(foff, flen) := fence_span hdr key_len in
  let row_len := if negb (hd_crc_off hdr =? 0) then checksum_row_len (hd_crc_off hdr) (hd_piece_shift hdr) key_off else 0 in
  do* (file, copies) := expect (fill_reserve file table table_in_reserve (o_reserve_off (w_out w)) (st_head_reserve (w_set w))
                         key_off hdr (foff, flen) row_len) in
  let ext := mkSuperExt (key_off + foff, flen) (key_off + hd_dir_off hdr, hd_nkeys hdr * 4)
    (key_off + hd_hash_off hdr, hd_hash_cap hdr * 8) (key_off + hd_crc_off hdr, row_len)
    (some_if table_in_reserve (blk_off, Zlen table)) (cp_fence copies) (cp_row copies) (cp_dir copies)
    (some_if (0 <? g_payload (w_staging w)) (g_payload (w_staging w))) header in
  do* sb := expect (superblock [generation; generation; ts; key_off; key_len; key_len; blk_off; Zlen table; Zlen table;
              0; 0; 0; o_pos (w_out w); 0; 0; generation]) in
  do* page := expect (super_page sb (encode_super_ext ext generation)) in
  do* file := expect (put_range file 0 page) in
  ret file.
End finish_file.

(** ** A whole segment from input in hand *)

Fixpoint values (vs : list bytes) : M unit :=
  match vs with [] => ret tt | v :: vs => do* tt := value v in values vs end.

Section write_sorted.
Context (lz4_compress : bytes -> bytes) (sums : bool) (target ts : Z).

Fixpoint write_items (items : list (bytes * list bytes)) : M unit :=
  match items with
  | [] => ret tt
  | (k, vals) :: items =>
      do* tt := begin k in
      do* tt := values vals in
      do* tt := end_ lz4_compress sums in
      write_items items
  end.

(** The reserve the input needs, and the file written with it. *)
Definition write_sorted (block_size inline_max : Z) (compress_on compact lookahead : bool) (generation : Z)
    (items : list (bytes * list bytes)) : option (result (Z * bytes)) :=
  let lengths := map (fun '(k, vals) => (Zlen k, run_len (map (fun v => w32 (Zlen v)) vals))) items in
  reserve ← for_lengths_as target lengths block_size inline_max compact;
  match reserve with
  | None => Some (Err "segment writer: this input cannot be a segment")
  | Some r =>
      let reserve := reserve_bytes r in
      let w := create_with (mkSettings block_size inline_max compress_on false reserve compact lookahead) in
      '(r, _) ← (do* tt := write_items items in finish lz4_compress sums target ts generation) w;
      Some (match r with Ok file => Ok (reserve, file) | Err e => Err e end)
  end.
End write_sorted.
