(* ===== verification/SegmentHolds.v ===== *)
(** * What a finished segment holds

    The segment writer of [SegmentWriter], proved: the state a sequence of
    keys leaves, key by key; that [put_one] is the three calls it stands for;
    the errors, and the state each leaves; and the file [finish] makes, whose
    superblock opens, whose key section verifies and holds every key written
    and no other, and whose values read back through their extents. *)

From S2P Require Import Prelude State Varint Runs Crc Chunks BlockTable Records HashTable FlatIndex FlatRead FlatSection Reserve Superblock SegmentWriter.

#[local] Open Scope state_scope.

(** ** One flushed block *)

Section blocks.
Context (lz4_compress : bytes -> bytes) (sums : bool).

Lemma stored_form_total on payload : exists bs chunked, stored_form lz4_compress sums on payload = Some (bs, chunked) /\
  Zlen bs <= Zlen payload /\ (on = false -> bs = payload /\ chunked = false).
Proof.
  unfold stored_form. destruct on; cbn [andb].
  - destruct (CHUNK <? Zlen payload).
    + rewrite write_chunked_bytes by (unfold CHUNK; lia). cbn [option_bind mbind]. destruct (Z.ltb_spec (Zlen (chunked_bytes lz4_compress payload CHUNK sums)) (Zlen payload)).
      * eexists _, _. split; [done|]. cbn [default from_option id]; unfold id; split; [lia|done].
      * eexists _, _. split; [done|]. cbn [default from_option id]; unfold id; split; [lia|done].
    + cbn [option_bind mbind]. unfold compress. destruct (Z.ltb_spec (Zlen (lz4_compress payload)) (Zlen payload));
        (eexists _, _; split; [done|]; cbn; split; [lia|done]).
  - cbn [option_bind mbind]. eexists _, _. split; [done|]. cbn [default from_option id]; unfold id; split; [lia|done].
Qed.

(** Block [i] of the table and of what is held is payload [i], as stored. *)
Definition block_held (on : bool) (B : Blocks) (i : Z) (p : bytes) : Prop :=
  exists pos loc row bs, block_of lz4_compress sums on pos p = Some (loc, row, bs) /\
    get_at (b_blocks B) i = Some loc /\ get_at (b_chunk_rows B) i = Some row /\ get_at (b_pending B) i = Some bs.

Record blocks_ok (on : bool) (cap : Z) (ps : list bytes) (B : Blocks) : Prop := {
  bo_cap : bb_cap (b_builder B) = cap;
  bo_blocks : Zlen (b_blocks B) = Zlen ps;
  bo_rows : Zlen (b_chunk_rows B) = Zlen ps;
  bo_pending : Zlen (b_pending B) = Zlen ps;
  bo_held : forall i p, get_at ps i = Some p -> block_held on B i p;
  bo_sizes : Forall (fun p => Zlen p < U32) ps
}.

(** What is staged is less than a block. *)
Definition staged_lt (cap : Z) (B : Blocks) : Prop := builder_len (b_builder B) = 0 \/ builder_len (b_builder B) < cap.

Lemma get_at_snoc {A} (l : list A) x i y : get_at l i = Some y -> get_at (l ++ [x]) i = Some y.
Proof. intros H. pose proof (get_at_lt _ _ _ H). by rewrite get_at_keep by lia. Qed.

Lemma get_at_last {A} (l : list A) x i : i = Zlen l -> get_at (l ++ [x]) i = Some x.
Proof. apply get_at_app_mid. Qed.

(** A block's bytes once placed stay where they are. *)
Definition extends (L L' : list bytes) : Prop := forall i p, get_at L i = Some p -> exists c, get_at L' i = Some (p ++ c).

Lemma extends_refl L : extends L L.
Proof. intros i p Hp. exists []. by rewrite app_nil_r. Qed.

Lemma extends_trans L1 L2 L3 : extends L1 L2 -> extends L2 L3 -> extends L1 L3.
Proof.
  intros H1 H2 i p (c & Hc)%H1. apply H2 in Hc as (d & Hd). exists (c ++ d). by rewrite app_assoc.
Qed.

Lemma extends_snoc L x : extends L (L ++ [x]).
Proof. intros i p Hp. exists []. rewrite app_nil_r. by apply get_at_snoc. Qed.

Lemma extends_grow L p c : extends (L ++ [p]) (L ++ [p ++ c]).
Proof.
  intros i q Hq. pose proof (get_at_lt _ _ _ Hq) as Hi. rewrite Zlen_app, Zlen_cons in Hi. znil.
  destruct (Z.lt_ge_cases i (Zlen L)).
  - exists []. rewrite app_nil_r. rewrite get_at_keep in * by done. done.
  - assert (i = Zlen L) as -> by lia. rewrite get_at_last in * by done. injection Hq as <-. by exists c.
Qed.

(** Every payload, the one being staged last. *)
Definition payloads (ps : list bytes) (B : Blocks) : list bytes := ps ++ [bb_buf (b_builder B)].

Definition run_in (L : list bytes) (e : Ext) (run : bytes) : Prop :=
  exists p, get_at L (e_block e) = Some p /\ get_range p (e_off e) (e_off e + e_len e) = Some run.

Lemma run_in_extends L L' e run : extends L L' -> run_in L e run -> run_in L' e run.
Proof. intros H (p & Hp & Hr). apply H in Hp as (c & Hc). eexists. split; [exact Hc|]. by apply get_range_app_l. Qed.

(** The cut's state: what is staged, and how many blocks closed. *)
Definition cut_of (ps : list bytes) (B : Blocks) : Z * Z := (builder_len (b_builder B), Zlen ps).

Lemma held_more on B B' i p : block_held on B i p ->
  (exists a, b_blocks B' = b_blocks B ++ [a]) -> (exists a, b_chunk_rows B' = b_chunk_rows B ++ [a]) -> (exists a, b_pending B' = b_pending B ++ [a]) ->
  block_held on B' i p.
Proof.
  intros (pos & loc & row & bs & H0 & H1 & H2 & H3) [a Ha] [b Hb] [c Hc]. exists pos, loc, row, bs.
  rewrite Ha, Hb, Hc. split; [done|]. split; [by apply get_at_snoc|]. split; by apply get_at_snoc.
Qed.

Lemma wp_flush (w : SegmentWriter) cap ps : o_mode (w_out w) = Some RecordsFirst -> blocks_ok (st_compress (w_set w)) cap ps (w_blocks w) ->
  builder_len (b_builder (w_blocks w)) < U32 ->
  wp (flush_block lz4_compress sums) (fun _ w' => exists B' ps', w' = set_blocks (fun _ => B') w /\
    blocks_ok (st_compress (w_set w)) cap ps' B' /\ extends (payloads ps (w_blocks w)) (payloads ps' B') /\
    bb_buf (b_builder B') = [] /\
    Zlen ps' = if negb (builder_len (b_builder (w_blocks w)) =? 0) then Zlen ps + 1 else Zlen ps) w.
Proof.
  intros Hmode Hok Hlen. unfold flush_block. step. unfold builder_is_empty. destruct (Z.eqb_spec (builder_len (b_builder (w_blocks w))) 0) as [H0|H0].
  - unfold wp. cbn [ret]. exists (w_blocks w), ps. split; [by destruct w|]. split; [done|]. split; [apply extends_refl|]. split; [|done].
    by apply Zlen_zero_nil.
  - cbn [builder_take]. step. step. set (payload := bb_buf (b_builder (w_blocks w))) in *. set (on := st_compress (w_set w)) in *.
    destruct (stored_form_total on payload) as (bs & chunked & Hsf & _).
    assert (exists loc row, block_of lz4_compress sums on (o_pos (w_out w)) payload = Some (loc, row, bs)) as (loc & row & Hb).
    { unfold block_of. rewrite Hsf. by eexists _, _. }
    apply wp_bind. eapply wp_expect; [exact Hb|]. cbv beta iota. step. step. cbn [w_out set_blocks]. rewrite Hmode. unfold wp. cbn [modify].
    set (B' := mkBlocks (mkBuilder [] (bb_cap (b_builder (w_blocks w)))) (b_blocks (w_blocks w) ++ [loc]) (b_chunk_rows (w_blocks w) ++ [row])
      (b_pending (w_blocks w) ++ [bs])). exists B', (ps ++ [payload]). split; [done|]. destruct Hok as [Hc H1 H2 H3 Hh Hsz].
    split; [|split; [|split; [done|]]].
    + split; cbn [b_builder b_blocks b_chunk_rows b_pending bb_cap B']; rewrite ?Zlen_app, ?Zlen_cons; znil; try lia.
      * intros i p Hp. pose proof (get_at_lt _ _ _ Hp) as Hi. rewrite Zlen_app, Zlen_cons in Hi. znil.
        destruct (Z.lt_ge_cases i (Zlen ps)).
        -- rewrite get_at_keep in Hp by done. eapply held_more; [by apply Hh|by eexists..].
        -- assert (i = Zlen ps) as -> by lia. rewrite get_at_last in Hp by done. injection Hp as <-.
           exists (o_pos (w_out w)), loc, row, bs. split; [done|]. cbn [b_blocks b_chunk_rows b_pending B'].
           by rewrite !get_at_last.
      * apply Forall_app. split; [done|]. by apply Forall_singleton.
    + unfold payloads. apply extends_snoc.
    + cbn [negb]. rewrite Zlen_app, Zlen_cons. znil. lia.
Qed.

(** Pushing a run onto a builder with room: where it lies. *)
Lemma push_run on cap ps B run : blocks_ok on cap ps B -> 0 < Zlen run < U32 -> 0 < cap < U32 -> Zlen ps < U32 - 1 ->
  would_overflow (b_builder B) (Zlen run) = false ->
  let B' := mkBlocks (mkBuilder (bb_buf (b_builder B) ++ run) (bb_cap (b_builder B))) (b_blocks B) (b_chunk_rows B) (b_pending B) in
  let e := fun last f vs t => mkExt (w32 (Zlen (b_blocks B))) (w32 (builder_len (b_builder B))) (w32 (Zlen run)) last (count_word (Zlen vs) f t) in
  extends (payloads ps B) (payloads ps B') /\ builder_len (b_builder B') = builder_len (b_builder B) + Zlen run /\
  builder_len (b_builder B') < U32 /\
  forall last f (vs : list bytes) t, run_in (payloads ps B') (e last f vs t) run /\ 0 <= e_block (e last f vs t) < INLINE /\
    0 <= e_off (e last f vs t) < U32 /\
    e last f vs t = run_ext (e_block (e last f vs t)) (e_off (e last f vs t)) run last f vs t.
Proof.
  intros Hok Hr Hcap Hps Hov B' e. destruct Hok as [Hc H1 H2 H3 Hh Hsz]. unfold would_overflow, builder_is_empty, builder_len in *.
  pose proof (Zlen_nonneg (bb_buf (b_builder B))). pose proof (Zlen_nonneg ps).
  assert (Zlen (bb_buf (b_builder B)) + Zlen run < U32) as Hlt.
  { destruct (Z.eqb_spec (Zlen (bb_buf (b_builder B))) 0) as [->|]; [lia|]. cbn [negb andb] in Hov. apply Z.ltb_ge in Hov. lia. }
  assert (w32 (Zlen (b_blocks B)) = Zlen ps) as Hb by (rewrite H1; apply Z.mod_small; unfold U32 in *; lia).
  assert (w32 (Zlen (bb_buf (b_builder B))) = Zlen (bb_buf (b_builder B))) as Ho by (apply Z.mod_small; lia).
  assert (w32 (Zlen run) = Zlen run) as Hl by (apply Z.mod_small; lia).
  split; [apply extends_grow|]. cbn [b_builder B' bb_buf]. rewrite Zlen_app. split; [done|]. split; [done|].
  intros last f vs t. unfold e. rewrite Hb, Ho, Hl. cbn [e_block e_off e_len]. unfold INLINE.
  split; [|split; [lia|split; [lia|done]]].
  exists (bb_buf (b_builder B) ++ run). cbn [e_block e_off e_len]. split; [by apply get_at_last|].
  pose proof (get_range_app (bb_buf (b_builder B)) run [] (Zlen (bb_buf (b_builder B))) (Zlen (bb_buf (b_builder B)) + Zlen run) eq_refl eq_refl) as Hg.
  by rewrite app_nil_r in Hg.
Qed.

Lemma wp_place (w : SegmentWriter) cap ps run last : o_mode (w_out w) = Some RecordsFirst -> blocks_ok (st_compress (w_set w)) cap ps (w_blocks w) ->
  st_block_size (w_set w) = cap -> 0 < cap < U32 -> 0 < Zlen run < U32 -> Zlen ps < U32 - 3 -> staged_lt cap (w_blocks w) ->
  forall f vs t, wp (place_run lz4_compress sums run last (count_word (Zlen vs) f t) false) (fun e w' => exists B' ps', w' = set_blocks (fun _ => B') w /\
    blocks_ok (st_compress (w_set w)) cap ps' B' /\ extends (payloads ps (w_blocks w)) (payloads ps' B') /\
    cut_of ps' B' = cut_pure cap (cut_of ps (w_blocks w)) (Zlen run) /\
    run_in (payloads ps' B') e run /\ 0 <= e_block e < INLINE /\ 0 <= e_off e < U32 /\
    e = run_ext (e_block e) (e_off e) run (w32 last) f vs t) w.
Proof.
  intros Hmode Hok Hbs Hcap Hr Hps Hst f vs t. unfold place_run. step. apply wp_bind.
  pose proof Hok as [Hc _ _ _ _ _]. pose proof (Zlen_nonneg ps).
  assert (builder_len (b_builder (w_blocks w)) < U32) as Hlt by (unfold staged_lt, U32 in *; lia).
  apply (wp_mono _ (fun _ w1 => exists B1 ps1, w1 = set_blocks (fun _ => B1) w /\ blocks_ok (st_compress (w_set w)) cap ps1 B1 /\
    extends (payloads ps (w_blocks w)) (payloads ps1 B1) /\ would_overflow (b_builder B1) (Zlen run) = false /\
    cut_of ps1 B1 = (if negb (builder_len (b_builder (w_blocks w)) =? 0) && (cap <? builder_len (b_builder (w_blocks w)) + Zlen run)
                     then (0, Zlen ps + 1) else cut_of ps (w_blocks w)))).
  { destruct (would_overflow (b_builder (w_blocks w)) (Zlen run)) eqn:Hov.
    - eapply wp_mono; [by apply wp_flush|]. intros _ w1 (B1 & ps1 & -> & Hok1 & Hex & Hbuf & Hn). exists B1, ps1.
      split; [done|]. split; [done|]. split; [done|]. unfold would_overflow, builder_is_empty, builder_len, cut_of in *. rewrite Hc in Hov.
      rewrite Hov, Hbuf. apply andb_true_iff in Hov as [Hov _]. rewrite Hov in Hn. rewrite Hn. split; [done|]. f_equal. by apply (f_equal Zlen) in Hbuf.
    - unfold wp. cbn [ret]. exists (w_blocks w), ps. split; [by destruct w|]. split; [done|]. split; [apply extends_refl|]. split; [done|].
      unfold would_overflow, builder_is_empty in Hov. rewrite Hc in Hov. by rewrite Hov. }
  intros [] w1 (B1 & ps1 & -> & Hok1 & Hex & Hov & Hcut). step. cbn [w_blocks set_blocks builder_push]. step. step.
  assert (Zlen ps1 <= Zlen ps + 1) as Hps1 by (unfold cut_of in Hcut; destruct (_ && _); injection Hcut; lia).
  destruct (push_run _ cap ps1 B1 run Hok1 Hr Hcap ltac:(lia) Hov) as (Hex2 & Hlen2 & Hlt2 & Hin).
  destruct (Hin (w32 last) f vs t) as (Hrun & Hblk & Hoff & Hel). cbn [w_set set_blocks w_blocks] in *. clear Hin.
  set (B2 := mkBlocks (mkBuilder (bb_buf (b_builder B1) ++ run) (bb_cap (b_builder B1))) (b_blocks B1) (b_chunk_rows B1) (b_pending B1)) in *.
  set (e := mkExt (w32 (Zlen (b_blocks B1))) (w32 (builder_len (b_builder B1))) (w32 (Zlen run)) (w32 last) (count_word (Zlen vs) f t)) in *.
  assert (blocks_ok (st_compress (w_set w)) cap ps1 B2) as Hok2 by (destruct Hok1; by split).
  assert (cut_of ps1 B1 = (builder_len (b_builder B1), Zlen ps1)) as Hc1 by done. rewrite Hcut in Hc1. rewrite Hbs.
  change (mkBuilder (bb_buf (b_builder B1) ++ run) (bb_cap (b_builder B1))) with (b_builder B2). apply wp_bind.
  assert (cut_pure cap (cut_of ps (w_blocks w)) (Zlen run) = if cap <=? builder_len (b_builder B2) then (0, Zlen ps1 + 1) else cut_of ps1 B2) as Hcp.
  { unfold cut_pure, cut_of in *. cbn [fst snd]. rewrite Hlen2. destruct (negb _ && _); injection Hc1 as E1 E2; rewrite <- E1, <- E2;
      cbv beta iota; by destruct (_ <=? _). }
  destruct (Z.leb_spec cap (builder_len (b_builder B2))) as [Hfull|Hroom].
  - eapply (wp_mono _ _ _ _ (wp_flush (set_blocks (fun _ => B2) w) cap ps1 Hmode Hok2 Hlt2)).
    intros [] w2 (B3 & ps3 & -> & Hok3 & Hex3 & Hbuf & Hn). unfold wp. cbn [ret]. exists B3, ps3. split; [done|]. split; [done|].
    split; [eauto using extends_trans|]. split.
    + rewrite Hcp. unfold cut_of. cbn [w_blocks set_blocks] in Hn. rewrite (proj2 (Z.eqb_neq _ _)) in Hn by lia. cbn [negb] in Hn.
      rewrite Hn. f_equal. unfold builder_len. by rewrite Hbuf.
    + split; [|done]. eapply run_in_extends; [exact Hex3|done].
  - unfold wp. cbn [ret]. exists B2, ps1. split; [done|]. split; [done|]. split; [eauto using extends_trans|]. split; [by rewrite Hcp|]. done.
Qed.
End blocks.

(** ** One key's run and record *)

(** A key as it is put: its values, oldest first, and whether they supersede
    every older one. *)
Record Put := mkPut { p_key : bytes; p_values : list bytes; p_tomb : bool }.

(** What the format can hold of one key. *)
Definition put_ok (p : Put) : Prop :=
  Zlen (p_key p) <= U16_MAX /\ Zlen (p_values p) < 2 ^ 30 /\ Zlen (prefixed (p_values p)) < U32.

Definition run_of (p : Put) : option (bytes * (Z * Z)) := encode_run (concat (p_values p)) (map Zlen (p_values p)).

Lemma encode_go_last values lens at_ last out r last' : encode_go values lens at_ last out = Some (r, last') -> 0 <= last < U32 -> 0 <= last' < U32.
Proof.
  revert at_ last out. induction lens as [|l lens IH]; intros at_ last out; cbn [encode_go]; [by intros [= _ <-]|].
  destruct (get_range values at_ (at_ + l)); [|done]. cbn [option_bind mbind]. intros H _. eapply IH; [exact H|]. by apply Z.mod_pos_bound.
Qed.

Lemma run_shape vs : Zlen vs < 2 ^ 30 -> Zlen (prefixed vs) < U32 ->
  exists run last flag, encode_run (concat vs) (map Zlen vs) = Some (run, (last, flag)) /\
    run_len (map Zlen vs) = Zlen run /\ Zlen run < U32 /\ 0 <= last < U32 /\ (exists b : bool, flag = if b then FIXED else 0) /\
    forall blk off tomb, each_value run (run_ext blk off run last flag vs tomb) = (vs, Ok (Zlen vs)).
Proof.
  intros Hn Hb. destruct (run_codec vs 0 0 false Hn Hb) as (run & last & flag & He & _ & _ & _ & Hl & _). exists run, last, flag.
  split; [done|]. split; [done|].
  assert (Zlen run < U32 /\ 0 <= last < U32 /\ (exists b : bool, flag = if b then FIXED else 0)) as (H1 & H2 & H3).
  { unfold encode_run in He. pose proof (concat_le_prefixed vs). destruct (run_fixed _).
    - injection He as <- <- <-. split; [lia|]. split; [by apply Z.mod_pos_bound|by exists true].
    - pose proof (encode_go_prefixed [] vs 0 []) as Hg. cbn [app] in Hg. rewrite Zlen_nil in Hg.
      destruct (encode_go _ _ _ _ _) as [[o l]|] eqn:E; [|done]. cbn [option_bind mbind] in He. injection He as <- <- <-.
      injection Hg as -> _. split; [done|]. split; [by eapply encode_go_last|by exists false]. }
  repeat (split; [done|]). intros blk off tomb.
  destruct (run_codec vs blk off tomb Hn Hb) as (run' & last' & flag' & He' & Hv & _). rewrite He in He'. by injection He' as <- <- <-.
Qed.

(** The extent and the tail of a put: inline, or in a block at its place. *)
Definition placed (L : list bytes) (im : Z) (p : Put) (et : Ext * bytes) : Prop :=
  let '(e, tail) := et in
  exists run last flag, run_of p = Some (run, (last, flag)) /\
    e = run_ext (e_block e) (e_off e) run last flag (p_values p) (p_tomb p) /\
    if is_inlined im (Zlen run) then e_block e = INLINE /\ e_off e = 0 /\ tail = run
    else tail = [] /\ 0 <= e_block e < INLINE /\ 0 <= e_off e < U32 /\ run_in L e run.

Lemma placed_extends L L' im p et : extends L L' -> placed L im p et -> placed L' im p et.
Proof.
  intros Hx. destruct et as [e tail]. intros (run & last & flag & Hr & He & Hc). exists run, last, flag. split; [done|]. split; [done|].
  destruct (is_inlined im (Zlen run)); [done|]. destruct Hc as (? & ? & ? & Hin). repeat (split; [done|]). by eapply run_in_extends.
Qed.

Lemma tail_extent_one e : is_inline e = true -> e_off e = 0 -> 0 <= e_len e < U32 -> tail_extent [e] 0 = Some (e_len e).
Proof.
  intros Hi Ho Hl. cbn. rewrite Hi, Ho. rewrite (proj2 (cadd_Some 0 (e_len e) (e_len e))) by (unfold U32, U64 in *; lia). cbn. f_equal. lia.
Qed.

(** The record of a put is one a writer may write, and as long as the planner
    says. *)
Lemma placed_record L im p e tail compact : put_ok p -> placed L im p (e, tail) ->
  record_ok (p_key p) [e] tail compact /\
  record_len_for (Zlen (p_key p)) [e] (Zlen tail) compact =
    Some (key_rec im compact (Zlen (p_key p), run_len (map Zlen (p_values p)))).
Proof.
  intros (Hk & Hn & Hp) (run & last & flag & Hr & He & Hc). unfold run_of in Hr.
  destruct (run_shape (p_values p) Hn Hp) as (run' & last' & flag' & Hr' & Hlen & Hru & Hlast & [fixed Hf] & _).
  rewrite Hr in Hr'. injection Hr' as <- <- <-. pose proof (Zlen_nonneg run). pose proof (Zlen_nonneg (p_values p)).
  assert (e_len e = Zlen run /\ e_last e = last /\ e_count e = count_word (Zlen (p_values p)) flag (p_tomb p)) as (Hl & Hla & Hco) by (by rewrite He).
  assert (ext_ok e) as Hok.
  { unfold ext_ok. rewrite Hl, Hla, Hco, Hf. pose proof (count_word_range (Zlen (p_values p)) fixed (p_tomb p) ltac:(lia)).
    destruct (is_inlined im (Zlen run)); [destruct Hc as (-> & -> & _)|destruct Hc as (_ & ? & ? & _)]; unfold INLINE, U32 in *; lia. }
  assert (is_inline e = is_inlined im (Zlen run)) as Hi.
  { unfold is_inline. destruct (is_inlined im (Zlen run)); [destruct Hc as (-> & _)|destruct Hc as (_ & Hb & _)]; [done|]. apply Z.eqb_neq. lia. }
  assert (compacts [e] = is_inlined im (Zlen run) && (Zlen run <? COMPACT_RUN)) as Hcp.
  { unfold compacts. rewrite Hi, Hl. destruct (is_inlined im (Zlen run)); [|done]. destruct Hc as (_ & -> & _). by rewrite Z.eqb_refl. }
  assert (Zlen [e] = 1) as H1 by done.
  assert (record_len_for (Zlen (p_key p)) [e] (Zlen tail) compact = Some (key_rec im compact (Zlen (p_key p), run_len (map Zlen (p_values p))))) as Hrec.
  { unfold record_len_for, key_rec, segment_record_len. rewrite H1, Hcp, Hlen. cbn [fst snd]. rewrite (proj2 (Z.ltb_ge _ _)) by lia. cbn [orb].
    change (COMPACT <=? 1) with false. cbv iota. rewrite andb_assoc. destruct (is_inlined im (Zlen run)).
    - destruct Hc as (_ & _ & ->). done.
    - destruct Hc as (-> & _). rewrite andb_false_r. by destruct compact. }
  split; [|done]. split; [by apply Forall_singleton|]. split; [by rewrite Hrec|]. rewrite Hcp.
  destruct (is_inlined im (Zlen run)) eqn:Ei; cbn [andb].
  - destruct Hc as (Hb & Ho & ->). destruct (compact && (Zlen run <? COMPACT_RUN)).
    + exists e. split; [done|]. exists (p_values p), last, flag, (p_tomb p). repeat (split; [done|]). by rewrite He, Hb, Ho.
    + rewrite tail_extent_one; [by rewrite Hl|done|done|unfold U32 in *; lia].
  - rewrite andb_false_r. destruct Hc as (-> & _). cbn. by rewrite Hi.
Qed.

(** ** The state between keys *)

Fixpoint spans_go (at_ : Z) (keys : list bytes) : list (Z * Z) :=
  match keys with [] => [] | k :: keys => (at_, Zlen k) :: spans_go (at_ + Zlen k) keys end.

Lemma spans_go_snoc at_ keys k : spans_go at_ (keys ++ [k]) = spans_go at_ keys ++ [(at_ + Zlen (concat keys), Zlen k)].
Proof.
  revert at_. induction keys as [|x keys IH]; intros at_; cbn [app spans_go concat]; [znil; by rewrite Z.add_0_r|].
  rewrite IH, Zlen_app. cbn. by rewrite Z.add_assoc.
Qed.

Lemma Zlen_spans at_ keys : Zlen (spans_go at_ keys) = Zlen keys.
Proof. revert at_. induction keys as [|x keys IH]; intros at_; cbn [spans_go]; [done|]. rewrite !Zlen_cons. by rewrite IH. Qed.

Definition keys_of (puts : list Put) : list bytes := map p_key puts.

Definition keys_state (puts : list Put) : Keys := mkKeys (concat (keys_of puts)) (spans_go 0 (keys_of puts)) None None.

Lemma span_key_at pre keys i k rest : get_at keys i = Some k ->
  (s ← get_at (spans_go (Zlen pre) keys) i; get_range (pre ++ concat keys ++ rest) (fst s) (fst s + snd s)) = Some k.
Proof.
  revert pre i. induction keys as [|x keys IH]; intros pre i Hk; [apply get_at_lt in Hk; znil; lia|].
  pose proof (get_at_lt _ _ _ Hk) as Hi. cbn [spans_go]. destruct (Z.eq_dec i 0) as [->|Hn].
  - rewrite get_at_here in * by done. injection Hk as ->. cbn [option_bind mbind fst snd concat]. rewrite <- app_assoc. by apply get_range_app.
  - change (x :: keys) with ([x] ++ keys) in Hk. rewrite get_at_skip in Hk by (rewrite Zlen_cons; znil; lia).
    change ((Zlen pre, Zlen x) :: spans_go (Zlen pre + Zlen x) keys) with ([(Zlen pre, Zlen x)] ++ spans_go (Zlen pre + Zlen x) keys).
    rewrite get_at_skip by (rewrite Zlen_cons; znil; lia). specialize (IH (pre ++ x) (i - 1)). rewrite Zlen_app in IH. cbn [concat].
    rewrite <- !app_assoc in *. apply IH. rewrite <- Hk. f_equal.
Qed.

(** The records, one a put. *)
Definition records_of (compact : bool) (puts : list Put) (ets : list (Ext * bytes)) : list bytes :=
  zip_with (fun p et => record_bytes (p_key p) [et.1] et.2 compact) puts ets.
(** Where records lie: each where its offset says, four-aligned. *)
Definition laid_out (compact : bool) (recs : bytes) (offs : list Z) (puts : list Put) (ets : list (Ext * bytes)) : Prop :=
  Zlen offs = Zlen puts /\ Zlen ets = Zlen puts /\ end_to_end recs offs (records_of compact puts ets) /\
  forall i p e tail, get_at puts i = Some p -> get_at ets i = Some (e, tail) ->
    exists off pre post, get_at offs i = Some off /\ off = Zlen pre /\ off mod 4 = 0 /\
      recs = pre ++ record_bytes (p_key p) [e] tail compact ++ post /\ record_ok (p_key p) [e] tail compact.

Definition reserve_of (set : Settings) : Z := if 0 <? st_head_reserve set then SUPER else 0.
Definition start_of (set : Settings) : Z := SUPER + (if 0 <? st_head_reserve set then st_head_reserve set else 0).

(** The file before the first key, and once the layout is settled. *)
Definition out_fresh (o : Out) : Prop := o = mkOut (zeros SUPER) SUPER 0 None.
Definition out_open (set : Settings) (recs batch : bytes) (o : Out) : Prop :=
  o_file o ++ batch = zeros (start_of set + HEADER) ++ recs /\ o_pos o = start_of set + HEADER + Zlen recs /\
  o_reserve_off o = reserve_of set /\ o_mode o = Some RecordsFirst.

Definition settings_ok (set : Settings) : Prop :=
  0 < st_block_size set < U32 /\ 0 < st_inline_max set /\ 0 <= st_head_reserve set.

(** The lengths the planner is pushed for the same keys. *)
Definition lens_of (p : Put) : Z * Z := (Zlen (p_key p), run_len (map Zlen (p_values p))).

(** The records and blocks between keys: [puts] written as [recs], each put's
    extent and tail in [ets], the blocks' payloads in [ps]. *)
Record Core (lz4 : bytes -> bytes) (sums : bool) (set : Settings) (puts : list Put) (recs : bytes) (ets : list (Ext * bytes)) (ps : list bytes)
    (B : Blocks) (r : Recs) : Prop := {
  c_batch : st_marks set = false -> r_batch r = [];
  c_len : r_len r = Zlen recs;
  c_max : Zlen recs <= MAX_RECS;
  c_mod : Zlen recs mod 4 = 0;
  c_hashes : r_hashes r = map key_hash (keys_of puts);
  c_laid : laid_out (st_compact_records set) recs (r_offs r) puts ets;
  c_blocks : blocks_ok lz4 sums (st_compress set) (st_block_size set) ps B;
  c_staged : staged_lt (st_block_size set) B;
  c_cut : cut_of ps B = fold_left (cut_pure (st_block_size set)) (outlined (st_inline_max set) (map lens_of puts)) (0, 0);
  c_placed : Forall2 (placed (payloads ps B) (st_inline_max set)) puts ets;
  c_puts : Forall put_ok puts;
  c_asc : ascending (keys_of puts);
  c_sum : rec_sum (st_inline_max set) (st_compact_records set) (map lens_of puts) <= Zlen recs;
  c_exact : st_marks set = false -> rec_sum (st_inline_max set) (st_compact_records set) (map lens_of puts) = Zlen recs
}.

(** The writer between keys. *)
Record Inv (lz4 : bytes -> bytes) (sums : bool) (set : Settings) (puts : list Put) (recs : bytes) (ets : list (Ext * bytes)) (ps : list bytes)
    (w : SegmentWriter) : Prop := {
  i_set : w_set w = set;
  i_keys : w_keys w = keys_state puts;
  i_raw : g_raw (w_staging w) = [] /\ g_lens (w_staging w) = [];
  i_out : out_fresh (w_out w) /\ recs = [] /\ r_batch (w_recs w) = [] \/ out_open set recs (r_batch (w_recs w)) (w_out w);
  i_core : Core lz4 sums set puts recs ets ps (w_blocks w) (w_recs w)
}.

(** The writer with a key open and some of its values in. *)
Record Opened (lz4 : bytes -> bytes) (sums : bool) (set : Settings) (puts : list Put) (recs : bytes) (ets : list (Ext * bytes)) (ps : list bytes)
    (key : bytes) (vs : list bytes) (w : SegmentWriter) : Prop := {
  o_set : w_set w = set;
  o_keys : w_keys w = mkKeys (concat (keys_of puts) ++ key) (spans_go 0 (keys_of puts)) (Some (Zlen (concat (keys_of puts)), Zlen key)) None;
  o_raw : g_raw (w_staging w) = concat vs /\ g_lens (w_staging w) = map Zlen vs /\ g_records (w_staging w) = Zlen vs;
  o_out : out_open set recs (r_batch (w_recs w)) (w_out w);
  o_core : Core lz4 sums set puts recs ets ps (w_blocks w) (w_recs w)
}.

Lemma wp_layout set recs batch (w : SegmentWriter) : w_set w = set -> settings_ok set ->
  out_fresh (w_out w) /\ recs = [] /\ batch = [] \/ out_open set recs batch (w_out w) ->
  wp layout (fun m w' => m = RecordsFirst /\ exists o, w' = set_out (fun _ => o) w /\ out_open set recs batch o) w.
Proof.
  intros Hs (_ & Him & Hh) [(Ho & -> & ->)|Ho]; unfold wp, layout.
  - destruct w as [st o ks g b r t]. cbn [w_out w_set] in *. unfold out_fresh in Ho. subst o st. cbn [o_mode]. rewrite (proj2 (Z.ltb_lt 0 (st_inline_max set))) by done.
    unfold out_open, start_of, reserve_of. change (SUPER =? 0) with false. cbn [w_out w_set o_reserve_off]. rewrite Z.eqb_refl, andb_true_r.
    pose proof (Zlen_zeros SUPER ltac:(done)) as Hz. destruct (Z.ltb_spec 0 (st_head_reserve set)).
    + cbv beta iota. cbn [set_out w_out o_file o_pos o_mode o_reserve_off]. split; [done|]. eexists (mkOut _ _ _ _). split; [reflexivity|].
      cbn [set_out w_out o_file o_pos o_mode o_reserve_off].
      rewrite !app_nil_r. znil. rewrite !zeros_add by (unfold SUPER, HEADER; lia). split; [done|]. split; [lia|done].
    + cbv beta iota. cbn [set_out w_out o_file o_pos o_mode o_reserve_off]. split; [done|]. eexists (mkOut _ _ _ _). split; [reflexivity|].
      cbn [set_out w_out o_file o_pos o_mode o_reserve_off].
      rewrite !app_nil_r. znil. rewrite Z.add_0_r, !zeros_add by (unfold SUPER, HEADER; lia). split; [done|]. split; [lia|done].
  - rewrite (proj2 (proj2 (proj2 Ho))). split; [done|]. exists (w_out w). split; [by destruct w|done].
Qed.

(** ** A key taken in *)

Lemma spans_last keys k : last (spans_go 0 (keys ++ [k])) = Some (Zlen (concat keys), Zlen k).
Proof. by rewrite spans_go_snoc, last_snoc, Z.add_0_l. Qed.

Lemma ascending_snoc keys k : ascending (keys ++ [k]) -> ascending keys.
Proof. intros H i j a b Hij Ha Hb. apply (H i j); [done|by apply get_at_snoc|by apply get_at_snoc]. Qed.

(** The last key is below any that may follow it. *)
Lemma below_last_ok keys key : ascending (keys ++ [key]) -> below_last (mkKeys (concat keys) (spans_go 0 keys) None None) key = Some false.
Proof.
  intros Ha. unfold below_last. cbn [k_spans]. destruct keys as [|k0 ks _] using rev_ind; [done|].
  rewrite spans_last. unfold span_key. cbn [k_arena fst snd]. rewrite concat_app. cbn [concat]. rewrite app_nil_r.
  pose proof (get_range_app (concat ks) k0 [] (Zlen (concat ks)) (Zlen (concat ks) + Zlen k0) eq_refl eq_refl) as Hg. rewrite app_nil_r in Hg. rewrite Hg.
  cbn [option_bind mbind]. f_equal. destruct (bleb_spec key k0) as [Hb|]; [|done]. exfalso. apply ble_not_lt in Hb. apply Hb.
  apply (Ha (Zlen ks) (Zlen (ks ++ [k0]))); [rewrite Zlen_app, Zlen_cons; pose proof (Zlen_nonneg (@nil bytes)); lia| |by apply get_at_last].
  apply get_at_snoc. by apply get_at_last.
Qed.

Section keys.
Context (lz4_compress : bytes -> bytes) (sums : bool) (set : Settings) (Hset : settings_ok set).
Local Abbreviation Inv := (Inv lz4_compress sums set).
Local Abbreviation Opened := (Opened lz4_compress sums set).
Local Abbreviation Core := (Core lz4_compress sums set).

Lemma wp_refuse_deferred (w : SegmentWriter) : k_deferred (w_keys w) = None -> wp refuse_deferred (fun _ w' => w' = w) w.
Proof. intros H. unfold refuse_deferred. step. rewrite H. by apply wp_pass. Qed.

Lemma wp_refuse_key keys key (w : SegmentWriter) : w_keys w = mkKeys (concat keys) (spans_go 0 keys) None None -> Zlen key <= U16_MAX ->
  ascending (keys ++ [key]) -> wp (refuse_key key) (fun _ w' => w' = w) w.
Proof.
  intros Hk Hlen Ha. unfold refuse_key. step. rewrite Hk. cbn [k_open]. apply wp_bind, wp_pass; [done|].
  apply wp_bind, wp_pass; [by apply Z.ltb_ge|]. step. rewrite Hk. apply wp_bind. eapply wp_expect; [by apply below_last_ok|]. by apply wp_pass.
Qed.

(** The layout settled, the keys and the rest untouched. *)
Lemma wp_layout_inv puts recs ets ps (w : SegmentWriter) : Inv puts recs ets ps w ->
  wp layout (fun m w' => m = RecordsFirst /\ exists o, w' = set_out (fun _ => o) w /\ out_open set recs (r_batch (w_recs w)) o) w.
Proof. intros [Hs _ _ Ho _]. by apply wp_layout. Qed.

Lemma wp_begin puts recs ets ps key (w : SegmentWriter) : Inv puts recs ets ps w -> Zlen key <= U16_MAX -> ascending (keys_of puts ++ [key]) ->
  wp (begin key) (fun _ => Opened puts recs ets ps key []) w.
Proof.
  intros Hi Hlen Ha. pose proof Hi as [Hs Hk [Hr Hl] _ Hc]. unfold begin.
  apply wp_bind. eapply wp_mono; [apply wp_refuse_deferred; by rewrite Hk|]. intros [] w' ->.
  apply wp_bind. eapply wp_mono; [by apply (wp_refuse_key (keys_of puts))|]. intros [] w' ->.
  apply wp_bind. eapply wp_mono; [by eapply wp_layout_inv|]. intros m w' (-> & o & -> & Ho). step. unfold wp. cbn [modify].
  destruct w as [st o0 k g b r t]. cbn [w_set w_keys w_staging w_recs w_out w_blocks set_out set_keys set_staging] in *. subst k.
  split; cbn [w_set w_keys w_staging w_recs w_out w_blocks set_out set_keys set_staging]; try done.
Qed.

Lemma wp_value puts recs ets ps key vs v (w : SegmentWriter) : Opened puts recs ets ps key vs w -> Zlen v < U32 -> Zlen vs < 2 ^ 31 ->
  wp (value v) (fun _ => Opened puts recs ets ps key (vs ++ [v])) w.
Proof.
  intros [Hs Hk (Hr & Hl & Hn) Ho Hc] Hv Hvs. pose proof (Zlen_nonneg v). pose proof (Zlen_nonneg vs). unfold wp, value. cbn [modify].
  destruct w as [st o k g b r t]. cbn [w_set w_keys w_staging w_recs w_out w_blocks set_staging] in *.
  split; cbn [w_set w_keys w_staging w_recs w_out w_blocks set_staging]; try done. cbn [g_raw g_lens g_records].
  rewrite Hr, Hl, Hn, concat_app, map_app, Zlen_app, Zlen_cons. cbn [concat map]. rewrite app_nil_r. znil.
  unfold w32. rewrite !Z.mod_small by (unfold U32 in *; lia). split; [done|]. split; [done|lia].
Qed.

(** [begin], the values, and [end_with]. *)
Definition put (p : Put) : M unit := do* tt := begin (p_key p) in do* tt := values (p_values p) in end_with lz4_compress sums (p_tomb p).

Lemma wp_values puts recs ets ps key vs vs' (w : SegmentWriter) : Opened puts recs ets ps key vs w -> Forall (fun v => Zlen v < U32) vs' -> Zlen (vs ++ vs') < 2 ^ 31 ->
  wp (values vs') (fun _ => Opened puts recs ets ps key (vs ++ vs')) w.
Proof.
  revert vs w. induction vs' as [|v vs' IH]; intros vs w Ho Hf Hn; cbn [values].
  - unfold wp. cbn [ret]. by rewrite app_nil_r.
  - apply Forall_cons in Hf as [Hv Hf]. rewrite Zlen_app, Zlen_cons in Hn. pose proof (Zlen_nonneg vs').
    apply wp_bind. eapply wp_mono; [apply wp_value; [done|done|lia]|]. intros [] w' Ho'. rewrite (app_assoc vs [v] vs' : vs ++ v :: vs' = (vs ++ [v]) ++ vs').
    apply IH; [done|done|]. rewrite !Zlen_app, Zlen_cons. znil. lia.
Qed.

(** ** A record streamed *)

Lemma Zlen_records_of compact puts ets : Zlen ets = Zlen puts -> Zlen (records_of compact puts ets) = Zlen puts.
Proof. intros H. unfold records_of, Zlen in *. rewrite length_zip_with. lia. Qed.

Lemma end_to_end_snoc recs offs rs r : Zlen offs = Zlen rs -> end_to_end recs offs rs -> end_to_end (recs ++ r) (offs ++ [Zlen recs]) (rs ++ [r]).
Proof.
  intros Hn [-> H]. split; [by rewrite concat_app; cbn [concat]; rewrite app_nil_r|]. intros i Hi. rewrite Zlen_app, Zlen_cons in Hi. znil.
  assert (take (Z.to_nat i) (rs ++ [r]) = take (Z.to_nat i) rs) as ->.
  { rewrite take_app_le; [done|]. unfold Zlen in Hi. lia. }
  destruct (Z.lt_ge_cases i (Zlen rs)) as [Hlt|Hge].
  - rewrite get_at_keep by lia. apply H. lia.
  - rewrite get_at_last by lia. rewrite take_ge; [done|]. unfold Zlen in Hge. lia.
Qed.

Lemma laid_out_snoc compact recs offs puts ets p e tail : laid_out compact recs offs puts ets -> record_ok (p_key p) [e] tail compact ->
  Zlen recs mod 4 = 0 ->
  laid_out compact (recs ++ record_bytes (p_key p) [e] tail compact) (offs ++ [Zlen recs]) (puts ++ [p]) (ets ++ [(e, tail)]).
Proof.
  intros (H1 & H2 & He & H) Hok Hm. split; [rewrite !Zlen_app, !Zlen_cons; znil; lia|]. split; [rewrite !Zlen_app, !Zlen_cons; znil; lia|].
  split.
  { unfold records_of. rewrite zip_with_app by (unfold Zlen in H2; lia). cbn [zip_with fst snd]. apply end_to_end_snoc; [|done].
    fold (records_of compact puts ets). rewrite Zlen_records_of by done. done. }
  intros i q x t Hq Hx. pose proof (get_at_lt _ _ _ Hq) as Hi. rewrite Zlen_app, Zlen_cons in Hi. znil.
  destruct (Z.lt_ge_cases i (Zlen puts)) as [Hlt|Hge].
  - rewrite get_at_keep in Hq by lia. rewrite get_at_keep in Hx by lia. destruct (H i q x t Hq Hx) as (off & pre & post & Ho & -> & Hoff & -> & Hr).
    exists (Zlen pre), pre, (post ++ record_bytes (p_key p) [e] tail compact). split; [by apply get_at_snoc|]. rewrite <- !app_assoc. done.
  - assert (i = Zlen puts) as -> by lia. rewrite get_at_last in Hq by done. rewrite get_at_last in Hx by lia. injection Hq as <-. injection Hx as <- <-.
    exists (Zlen recs), recs, []. split; [apply get_at_last; lia|]. rewrite app_nil_r. done.
Qed.

Lemma record_mod (key : bytes) exts (tail : bytes) compact len : record_len_for (Zlen key) exts (Zlen tail) compact = Some len -> len mod 4 = 0 /\ 4 <= len.
Proof.
  unfold record_len_for, record_len_compact, record_len_exts, record_len_tail, record_len, REC_ALIGN, EXT_BYTES.
  pose proof (align4 (4 + Zlen key)). pose proof (align4 (Zlen tail)). pose proof (Zlen_nonneg key). pose proof (Zlen_nonneg tail). pose proof (Zlen_nonneg exts).
  destruct (_ || _); [done|]. intros [= <-]. destruct (_ && _); Z.div_mod_to_equations; lia.
Qed.

Lemma wp_stream recs (w : SegmentWriter) key e tail va vl inline :
  w_set w = set -> out_open set recs (r_batch (w_recs w)) (w_out w) -> (st_marks set = false -> r_batch (w_recs w) = []) -> r_len (w_recs w) = Zlen recs ->
  record_ok key [e] tail (st_compact_records set) -> Zlen recs + Zlen (record_bytes key [e] tail (st_compact_records set)) <= MAX_RECS ->
  wp (stream_one key e tail va vl inline) (fun _ w' => exists o r lv,
    w' = set_recs (fun _ => r) (set_staging (fun g => mkStaging (g_run g) (g_raw g) (g_lens g) (g_last g) (g_records g) lv (g_payload g)) (set_out (fun _ => o) w)) /\
    out_open set (recs ++ record_bytes key [e] tail (st_compact_records set)) (r_batch r) o /\ (st_marks set = false -> r_batch r = []) /\
    r_len r = Zlen (recs ++ record_bytes key [e] tail (st_compact_records set)) /\ r_offs r = r_offs (w_recs w) ++ [Zlen recs] /\
    r_hashes r = r_hashes (w_recs w) ++ [key_hash key]) w.
Proof.
  intros Hs Ho Hb Hl Hok Hmax. set (rec := record_bytes key [e] tail (st_compact_records set)) in *.
  destruct (record_ok_len _ _ _ _ Hok) as (_ & _ & Hlen). fold rec in Hlen. unfold stream_one. step. rewrite Hs.
  apply wp_bind. eapply wp_require; [by apply stream_record_bytes|]. cbv beta iota. cbn [app]. fold rec. step. rewrite Hs. apply wp_bind.
  destruct w as [st o k g b r t]. cbn [w_set w_recs w_out] in *. subst st. destruct Ho as (Hf & Hp & Hro & Hmo). pose proof (Zlen_nonneg rec). pose proof (Zlen_nonneg recs).
  assert (w32 (Zlen recs) = Zlen recs) as Hw by (apply Z.mod_small; unfold MAX_RECS, U32 in *; lia).
  assert (Zlen (recs ++ rec) = Zlen recs + Zlen rec) as Hz by apply Zlen_app.
  clearbody rec. destruct (st_marks set) eqn:Em; unfold wp at 1; cbn [modify write_all set_recs set_out w_set w_out w_keys w_staging w_blocks w_recs w_kept]; step; step; step; step; step;
    cbn [set_recs set_out set_staging w_set w_out w_keys w_staging w_blocks w_recs w_kept r_len]; (apply wp_pass; [apply Z.ltb_ge; lia|]);
    (eexists (mkOut _ _ _ _), (mkRecs _ _ _ _ _ _), _; split; [unfold set_recs, set_out, set_staging; cbn; reflexivity|]);
    cbn [set_recs set_out set_staging w_set w_out w_keys w_staging w_blocks w_recs w_kept r_len r_offs r_hashes r_batch];
    rewrite Hl, Hw, Hz; unfold out_open; cbn [o_file o_pos o_reserve_off o_mode].
  - split; [|done]. split; [by rewrite (app_assoc _ _ rec), Hf, app_assoc|]. split; [rewrite Zlen_app; lia|done].
  - rewrite (Hb eq_refl), app_nil_r in *. split; [|done]. split; [by rewrite Hf, app_assoc|]. split; [rewrite Zlen_app; lia|done].
Qed.
(** ** A key ended *)

Lemma lens_ok puts : Forall put_ok puts -> Forall nonneg (map lens_of puts) /\ Forall (fun kr => snd kr < U32) (map lens_of puts).
Proof.
  intros Hp. split; apply Forall_map; (eapply Forall_impl; [exact Hp|]); intros p (Hk & Hn & Hb);
    destruct (run_shape (p_values p) Hn Hb) as (run & last & flag & _ & Hl & Hr & _); unfold lens_of, nonneg; cbn [fst snd]; rewrite Hl;
    pose proof (Zlen_nonneg run); pose proof (Zlen_nonneg (p_key p)); done.
Qed.

Lemma runs_of_puts im puts : Forall put_ok puts -> runs_ok (outlined im (map lens_of puts)).
Proof.
  intros [Hn Hv]%lens_ok. unfold runs_ok, outlined. apply List.Forall_forall. intros n [Hin _]%List.filter_In.
  apply List.in_map_iff in Hin as (kr & <- & Hin). rewrite List.Forall_forall in Hn, Hv.
  specialize (Hv _ Hin). apply Hn in Hin as [_ ?]. cbv beta in *. unfold U32, U64 in *. lia.
Qed.

Lemma cut_small bs im puts : 0 <= bs < U64 -> Forall put_ok puts ->
  let st := fold_left (cut_pure bs) (outlined im (map lens_of puts)) (0, 0) in staged_ok bs st /\ snd st <= Zlen puts.
Proof.
  intros Hbs Hp st. pose proof (runs_of_puts im _ Hp) as Hr.
  destruct (cut_all_pure bs _ (0, 0) Hbs Hr ltac:(by left)) as [_ Hok]. split; [done|].
  pose proof (cut_all_count bs _ (0, 0) 0 Hr ltac:(done) ltac:(by left)) as Hc. fold st in Hc.
  assert (Zlen (outlined im (map lens_of puts)) <= Zlen puts) as Hle.
  { unfold outlined. rewrite <- (Zlen_map lens_of puts), <- (Zlen_map snd (map lens_of puts)). unfold Zlen.
    pose proof (List.filter_length_le (fun n => negb (is_inlined im n)) (map snd (map lens_of puts))). lia. }
  unfold closed_of in Hc. destruct (negb _); lia.
Qed.

Lemma key_rec_key im compact kr : fst kr + 4 <= key_rec im compact kr \/ snd kr < 0.
Proof.
  unfold key_rec, segment_record_len, record_len_compact, record_len_tail, record_len, REC_ALIGN, EXT_BYTES.
  pose proof (align_up_spec (4 + fst kr) 4 ltac:(lia)). pose proof (align_up_spec (snd kr) 4 ltac:(lia)).
  pose proof (align_up_spec 0 4 ltac:(lia)). destruct (_ && _); [lia|]. destruct (is_inlined _ _); lia.
Qed.

Lemma key_rec_four im compact kr : nonneg kr -> 4 <= key_rec im compact kr.
Proof. intros [Hk Hr]. destruct (key_rec_key im compact kr); lia. Qed.

Lemma rec_sum_four im compact keys : Forall nonneg keys -> 4 * Zlen keys <= rec_sum im compact keys.
Proof.
  unfold rec_sum. induction 1 as [|kr keys Hk _ IH]; [done|]. rewrite Zlen_cons. cbn [map sum fold_right].
  fold (sum (map (key_rec im compact) keys)). pose proof (key_rec_four im compact kr Hk). lia.
Qed.

Lemma core_few puts recs ets ps B r : Core puts recs ets ps B r -> 4 * Zlen puts <= Zlen recs /\ Zlen ps <= Zlen puts /\ Zlen ps < U32 - 3.
Proof.
  intros Hc. destruct (lens_ok puts (c_puts _ _ _ _ _ _ _ _ _ Hc)) as [Hn _].
  pose proof (rec_sum_four (st_inline_max set) (st_compact_records set) _ Hn) as H4. rewrite Zlen_map in H4.
  pose proof (c_sum _ _ _ _ _ _ _ _ _ Hc). pose proof (c_max _ _ _ _ _ _ _ _ _ Hc).
  destruct (cut_small (st_block_size set) (st_inline_max set) puts) as [_ Hs]; [destruct Hset; unfold U32, U64 in *; lia|by eapply c_puts|].
  rewrite <- (c_cut _ _ _ _ _ _ _ _ _ Hc) in Hs. cbn [cut_of snd] in Hs. unfold MAX_RECS, U32 in *. lia.
Qed.

(** One key more: its run placed, its record after the rest. *)
Lemma core_snoc puts recs ets ps B r p e tail ps' B' r' : Core puts recs ets ps B r -> put_ok p -> ascending (keys_of (puts ++ [p])) ->
  let recs' := recs ++ record_bytes (p_key p) [e] tail (st_compact_records set) in
  Zlen recs' <= MAX_RECS ->
  blocks_ok lz4_compress sums (st_compress set) (st_block_size set) ps' B' -> extends (payloads ps B) (payloads ps' B') ->
  cut_of ps' B' = fold_left (cut_pure (st_block_size set)) (outlined (st_inline_max set) (map lens_of (puts ++ [p]))) (0, 0) ->
  placed (payloads ps' B') (st_inline_max set) p (e, tail) ->
  (st_marks set = false -> r_batch r' = []) -> r_len r' = Zlen recs' -> r_offs r' = r_offs r ++ [Zlen recs] ->
  r_hashes r' = r_hashes r ++ [key_hash (p_key p)] ->
  Core (puts ++ [p]) recs' (ets ++ [(e, tail)]) ps' B' r'.
Proof.
  intros Hc Hp Ha recs' Hmax Hok Hx Hcut Hpl Hb Hl Ho Hh. pose proof Hc as [? ? ? Hm Hhs Hld ? ? _ Hps Hpok _ Hs Hse].
  destruct (placed_record _ _ p e tail (st_compact_records set) Hp Hpl) as [Hrec Hlen].
  destruct (record_ok_len _ _ _ _ Hrec) as (_ & _ & Hlen'). rewrite Hlen' in Hlen. injection Hlen as Hlen. destruct (record_mod _ _ _ _ _ Hlen') as [Hm' _].
  assert (Zlen recs' = Zlen recs + Zlen (record_bytes (p_key p) [e] tail (st_compact_records set))) as Hz by apply Zlen_app.
  assert (rec_sum (st_inline_max set) (st_compact_records set) (map lens_of (puts ++ [p])) =
    rec_sum (st_inline_max set) (st_compact_records set) (map lens_of puts) + Zlen (record_bytes (p_key p) [e] tail (st_compact_records set))) as Hsum
    by (rewrite map_app; cbn [map]; rewrite rec_sum_snoc, Hlen; done).
  assert (Forall put_ok (puts ++ [p])) as Hpok' by (apply Forall_app; split; [done|by apply Forall_singleton]).
  split; try done.
  - rewrite Hz. Z.div_mod_to_equations; lia.
  - rewrite Hh, Hhs. unfold keys_of. by rewrite !map_app.
  - rewrite Ho. by apply laid_out_snoc.
  - destruct (cut_small (st_block_size set) (st_inline_max set) (puts ++ [p])) as [Hsm _]; [destruct Hset; unfold U32, U64 in *; lia|done|].
    rewrite <- Hcut in Hsm. unfold staged_lt, staged_ok, cut_of in *. cbn [fst] in Hsm. lia.
  - apply Forall2_app; [|by apply Forall2_cons]. eapply Forall2_impl; [exact Hps|]. intros q et. by apply placed_extends.
  - rewrite Hsum, Hz. lia.
  - intros Hmk. rewrite Hsum, Hz, Hse by done. done.
Qed.

(** A run placed, inline or in a block. *)
Lemma wp_place_any puts recs ets ps B r (w : SegmentWriter) run last f vs t : w_set w = set -> w_blocks w = B -> o_mode (w_out w) = Some RecordsFirst ->
  Core puts recs ets ps B r -> Zlen run < U32 -> 0 <= last < U32 -> let inline := is_inlined (st_inline_max set) (Zlen run) in
  wp (place_run lz4_compress sums run last (count_word (Zlen vs) f t) inline) (fun e w' => exists B' ps', w' = set_blocks (fun _ => B') w /\
    blocks_ok lz4_compress sums (st_compress set) (st_block_size set) ps' B' /\ extends (payloads ps B) (payloads ps' B') /\
    cut_of ps' B' = (if inline then cut_of ps B else cut_pure (st_block_size set) (cut_of ps B) (Zlen run)) /\
    e = run_ext (e_block e) (e_off e) run last f vs t /\
    if inline then e_block e = INLINE /\ e_off e = 0 else 0 <= e_block e < INLINE /\ 0 <= e_off e < U32 /\ run_in (payloads ps' B') e run) w.
Proof.
  intros Hs <- Hm Hc Hr Hl inline. pose proof Hc as [_ _ _ _ _ _ Hok Hst _ _ _ _ _ _]. pose proof (Zlen_nonneg run). destruct (core_few _ _ _ _ _ _ Hc) as (_ & _ & Hf).
  assert (w32 last = last) as Hwl by (apply Z.mod_small; lia). destruct inline eqn:Ei; subst inline.
  - unfold wp. cbn [place_run ret]. exists (w_blocks w), ps. split; [by destruct w|]. split; [done|]. split; [apply extends_refl|]. split; [done|].
    cbn [e_block e_off]. split; [|done]. unfold run_ext. rewrite Hwl. f_equal. apply Z.mod_small. lia.
  - assert (0 < Zlen run) as H0.
    { unfold is_inlined in Ei. destruct Hset as (_ & Him & _). rewrite (proj2 (Z.ltb_lt _ _) Him) in Ei. apply Z.leb_gt in Ei. lia. }
    rewrite <- Hs in Hok. eapply wp_mono; [eapply (wp_place _ _ w _ ps run last Hm Hok); [done|rewrite Hs; apply Hset|lia|lia|by rewrite Hs]|].
    intros e w' (B' & ps' & -> & Hok' & Hx & Hcut & Hin & Hb & Ho & He). rewrite Hs in *. rewrite Hwl in He. exists B', ps'. split; [done|]. split; [done|]. split; [done|]. split; [done|]. done.
Qed.

Lemma wp_end puts recs ets ps key vs tomb (w : SegmentWriter) : Opened puts recs ets ps key vs w -> put_ok (mkPut key vs tomb) ->
  ascending (keys_of (puts ++ [mkPut key vs tomb])) ->
  Zlen recs + key_rec (st_inline_max set) (st_compact_records set) (lens_of (mkPut key vs tomb)) <= MAX_RECS ->
  wp (end_with lz4_compress sums tomb) (fun _ w' => exists e tail ps',
    Inv (puts ++ [mkPut key vs tomb]) (recs ++ record_bytes key [e] tail (st_compact_records set)) (ets ++ [(e, tail)]) ps' w') w.
Proof.
  intros [Hs Hk (Hr & Hl & Hn) Ho Hc] Hp Ha Hmax. destruct (run_shape vs) as (run & last & flag & He & Hrl & Hru & Hla & Hfl & _); [apply Hp..|].
  pose proof (core_few _ _ _ _ _ _ Hc) as (H4 & Hps1 & Hps2). pose proof Hp as (_ & Hvn & _). cbn [p_values] in Hvn.
  unfold end_with. step. rewrite Hk. cbn [k_open]. step. apply wp_bind. eapply wp_require; [done|]. cbv beta iota. step.
  cbn [w_staging set_keys]. rewrite Hr, Hl, Hn. apply wp_bind. eapply wp_expect; [exact He|]. cbv beta iota. step.
  apply wp_bind, wp_pass; [apply Z.ltb_ge; lia|]. apply wp_bind, wp_pass; [apply Z.leb_gt; change FIXED with (2 ^ 30); lia|]. apply wp_bind.
  destruct w as [st o k g b r t]. unfold set_keys, set_staging. cbn [w_set w_keys w_staging w_recs w_out w_blocks w_kept] in *. subst st k.
  eapply wp_mono; [eapply (wp_layout set recs (r_batch r)); [done|done|by right]|]. intros m w1 (-> & o1 & -> & Ho1). unfold set_out. cbn [w_set w_keys w_staging w_recs w_out w_blocks w_kept].
  step. cbn [w_set]. apply wp_bind.
  eapply wp_mono; [eapply (wp_place_any puts recs ets ps b r _ run last flag vs tomb); [done|done|apply Ho1|done|done|done]|].
  intros e w2 (B' & ps' & -> & Hok' & Hx & Hcut & Hel & Hin). unfold set_blocks. cbn [w_set w_keys w_staging w_recs w_out w_blocks w_kept].
  set (p := mkPut key vs tomb) in *. set (tail := if is_inlined (st_inline_max set) (Zlen run) then run else []).
  assert (placed (payloads ps' B') (st_inline_max set) p (e, tail)) as Hpl.
  { exists run, last, flag. split; [done|]. split; [done|]. unfold tail. destruct (is_inlined _ _); [by destruct Hin|by destruct Hin as (? & ? & ?)]. }
  destruct (placed_record _ _ p e tail (st_compact_records set) Hp Hpl) as [Hrec Hlen].
  destruct (record_ok_len _ _ _ _ Hrec) as (_ & _ & Hlen'). rewrite Hlen' in Hlen. injection Hlen as Hlen.
  apply wp_bind. step. cbn [w_keys]. apply wp_bind. eapply wp_expect.
  { unfold span_key. cbn [k_arena fst snd]. pose proof (get_range_app (concat (keys_of puts)) key [] _ _ eq_refl eq_refl) as Hg. by rewrite app_nil_r in Hg. }
  eapply wp_mono; [eapply (wp_stream recs); cbn [w_set w_out w_recs]; [done|done|by eapply c_batch|by eapply c_len|exact Hrec|]|].
  { cbn [p_key p]. change (p_key p) with key in Hlen. rewrite Hlen. exact Hmax. }
  intros [] w3 (o3 & r3 & lv & -> & Ho3 & Hb3 & Hl3 & Hoff3 & Hh3). cbn [w_recs] in *. unfold wp, push_span. cbn [modify]. exists e, tail, ps'.
  unfold set_recs, set_staging, set_out, set_keys. cbn [w_set w_keys w_staging w_recs w_out w_blocks w_kept k_arena k_spans k_open k_deferred].
  split; cbn [w_set w_keys w_staging w_recs w_out w_blocks w_kept g_raw g_lens]; [done| |done|by right|].
  - unfold keys_state, keys_of. rewrite map_app. cbn [map p_key p]. rewrite spans_go_snoc, concat_app, Z.add_0_l. cbn [concat]. by rewrite app_nil_r.
  - eapply (core_snoc puts recs ets ps b r p); try done.
    + rewrite Zlen_app. cbn [p_key p]. change (p_key p) with key in Hlen. rewrite Hlen. exact Hmax.
    + rewrite Hcut, map_app, (c_cut _ _ _ _ _ _ _ _ _ Hc). cbn [map]. rewrite outlined_snoc. cbn [lens_of snd p p_values]. rewrite Hrl.
      destruct (is_inlined _ _); [by rewrite app_nil_r|by rewrite fold_left_app].
Qed.
(** ** Keys put, one after another *)

Lemma wp_put puts recs ets ps p (w : SegmentWriter) : Inv puts recs ets ps w -> put_ok p -> ascending (keys_of (puts ++ [p])) ->
  Zlen recs + key_rec (st_inline_max set) (st_compact_records set) (lens_of p) <= MAX_RECS ->
  wp (put p) (fun _ w' => exists e tail ps', Inv (puts ++ [p]) (recs ++ record_bytes (p_key p) [e] tail (st_compact_records set)) (ets ++ [(e, tail)]) ps' w') w.
Proof.
  intros Hi Hp Ha Hmax. destruct p as [key vs tomb]. pose proof Hp as (Hk & Hn & Hv). cbn [p_key p_values] in *. unfold put. cbn [p_key p_values p_tomb].
  assert (ascending (keys_of puts ++ [key])) as Ha' by (unfold keys_of in *; by rewrite map_app in Ha).
  apply wp_bind. eapply wp_mono; [by apply (wp_begin puts recs ets ps)|]. intros [] w1 Ho1.
  apply wp_bind. eapply wp_mono; [eapply (wp_values puts recs ets ps key [] vs); [done|by apply prefixed_u32_lens|cbn [app]; lia]|]. intros [] w2 Ho2.
  by apply (wp_end puts recs ets ps).
Qed.

Fixpoint put_all (l : list Put) : M unit := match l with [] => ret tt | p :: l => do* tt := put p in put_all l end.

Lemma ascending_app a b : ascending (a ++ b) -> ascending a.
Proof. intros H i j x y Hij Hx Hy. apply (H i j); [done| |]; rewrite get_at_keep; try done; by eapply get_at_lt. Qed.

Lemma wp_put_all rest puts recs ets ps (w : SegmentWriter) : Inv puts recs ets ps w -> st_marks set = false -> Forall put_ok rest ->
  ascending (keys_of (puts ++ rest)) -> rec_sum (st_inline_max set) (st_compact_records set) (map lens_of (puts ++ rest)) <= MAX_RECS ->
  wp (put_all rest) (fun _ w' => exists recs' ets' ps', Inv (puts ++ rest) recs' ets' ps' w') w.
Proof.
  revert puts recs ets ps w. induction rest as [|p rest IH]; intros puts recs ets ps w Hi Hm Hp Ha Hmax; cbn [put_all].
  - unfold wp. cbn [ret]. rewrite app_nil_r. by exists recs, ets, ps.
  - apply Forall_cons in Hp as [Hp Hps]. rewrite (app_assoc puts [p] rest : puts ++ p :: rest = (puts ++ [p]) ++ rest) in *.
    assert (ascending (keys_of (puts ++ [p]))) as Ha' by (unfold keys_of in *; rewrite map_app in Ha; by eapply ascending_app).
    apply wp_bind. eapply wp_mono; [apply (wp_put puts recs ets ps p); [done|done|done|]|].
    { pose proof (c_exact _ _ _ _ _ _ _ _ _ (i_core _ _ _ _ _ _ _ _ Hi) Hm) as Hx. destruct (lens_ok rest Hps) as [Hnn _].
      pose proof (rec_sum_four (st_inline_max set) (st_compact_records set) _ Hnn). pose proof (Zlen_nonneg (map lens_of rest)).
      rewrite !map_app in Hmax. cbn [map] in Hmax. unfold rec_sum in *. rewrite !map_app, !sum_app in Hmax. cbn [map sum fold_right] in Hmax. lia. }
    intros [] w1 (e & tail & ps' & Hi'). by eapply IH.
Qed.
End keys.

(** ** The writer before its first key *)

Lemma inv_create lz4 sums set : settings_ok set -> Inv lz4 sums set [] [] [] [] (create_with set).
Proof.
  intros (Hb & _ & _). assert (Z.max (st_block_size set) 1 = st_block_size set) as Hm by lia. destruct set as [bs im co ma hr cr lo]. cbn [st_block_size] in *.
  unfold create_with. cbn [st_block_size st_inline_max st_compress st_marks st_head_reserve st_compact_records st_lookahead]. rewrite Hm.
  split; cbn [w_set w_keys w_staging w_out w_recs w_blocks g_raw g_lens r_batch]; [done|done|done|by left|].
  split; cbn [r_batch r_len r_hashes r_offs st_marks st_compress st_block_size st_inline_max st_compact_records]; try done.
  - split; [done|]. split; [done|]. split; [split; [done|intros i Hi; unfold records_of in Hi; cbn [zip_with] in Hi; znil; lia]|].
    intros i p e tail Hp. apply get_at_lt in Hp. znil. lia.
  - split; try done. intros i p Hp. apply get_at_lt in Hp. znil. lia.
  - by left.
  - intros i j a b _ Ha. apply get_at_lt in Ha. unfold keys_of in Ha. cbn [map] in Ha. rewrite (@Zlen_nil bytes) in Ha. lia.
Qed.

Definition puts_of (items : list (bytes * list bytes)) : list Put := map (fun '(k, vals) => mkPut k vals false) items.

Lemma write_items_puts lz4 sums items (w : SegmentWriter) : write_items lz4 sums items w = put_all lz4 sums (puts_of items) w.
Proof.
  revert w. induction items as [|[k vals] items IH]; intros w; [done|]. cbn [write_items puts_of map put_all]. unfold put, end_, bind. cbn [p_key p_values p_tomb].
  destruct (begin k w) as [[[[]|] w1]|]; [|done|done]. destruct (values vals w1) as [[[[]|] w2]|]; [|done|done].
  destruct (end_with lz4 sums false w2) as [[[[]|] w3]|]; [|done|done]. apply IH.
Qed.
