(* ===== verification/SegmentFinish.v ===== *)
(** * The finish of a segment

    [SegmentWriter::finish] ([src/src/db.rs], lines 7297 to 7560) proved, from
    the state the keys left to the file's bytes: the section's row is the one
    a reader checks, the blocks land where the table says, the copies in the
    head reserve touch nothing outside it, and the page that goes in last
    opens. *)

From S2P Require Import Prelude State Varint Runs Crc Chunks BlockTable Records HashTable FlatIndex FlatRead FlatSection Reserve Superblock SegmentWriter SegmentHolds.

#[local] Open Scope state_scope.

(** ** The row made from the file *)

Lemma tiled_in a b ps : tiled a b ps -> 0 <= a -> Forall (fun '(x, y) => 0 <= x <= y /\ y <= b) ps.
Proof.
  revert a. induction ps as [|[x y] ps IH]; intros a; cbn [tiled]; [constructor|].
  intros (-> & Hy & Ht) Ha. constructor; [lia|]. apply (IH y); [done|lia].
Qed.

(** A range of the section, its header not yet in the file. *)
Lemma read_back_section pre z h x y at_ en : Zlen z = Zlen h -> 0 <= at_ <= en -> en <= Zlen (h ++ x) ->
  read_back (pre ++ z ++ x ++ y) h (Zlen pre) at_ en = get_range (h ++ x) at_ en.
Proof.
  intros Hz Ha He. unfold read_back, ssub. cbv zeta. rewrite Zlen_app in He. pose proof (Zlen_nonneg h).
  set (k := Z.min (Z.max 0 (Zlen h - at_)) (en - at_)).
  destruct (get_range_is_Some (h ++ x) at_ en) as [r Hr]; [lia|rewrite Zlen_app; lia|]. rewrite Hr.
  destruct (get_range_is_Some (h ++ x) at_ (at_ + k)) as [r1 H1]; [lia|rewrite Zlen_app; lia|].
  destruct (get_range_is_Some (h ++ x) (at_ + k) en) as [r2 H2]; [lia|rewrite Zlen_app; lia|].
  assert ((if 0 <? k then get_range h at_ (at_ + k) else Some []) = Some r1) as ->.
  { destruct (Z.ltb_spec 0 k).
    - rewrite get_range_keep in H1 by lia. exact H1.
    - apply get_range_len in H1. f_equal. symmetry. apply Zlen_zero_nil. lia. }
  assert ((if k <? en - at_ then get_range (pre ++ z ++ x ++ y) (Zlen pre + at_ + k) (Zlen pre + en) else Some []) = Some r2) as ->.
  { destruct (Z.ltb_spec k (en - at_)).
    - rewrite get_range_skip by lia. rewrite get_range_skip in H2 by lia. rewrite get_range_skip by lia.
      rewrite get_range_keep by lia. rewrite <- H2. f_equal; lia.
    - apply get_range_len in H2. f_equal. symmetry. apply Zlen_zero_nil. lia. }
  cbn [option_bind mbind]. rewrite <- Hr. symmetry. by apply (get_range_join _ _ (at_ + k)).
Qed.

Lemma row_for_section pre z h x y : Zlen z = Zlen h -> 0 < Zlen (h ++ x) ->
  row_for (pre ++ z ++ x ++ y) h (Zlen pre) (Zlen (h ++ x)) = checksum_row (h ++ x) PIECE_SHIFT (Zlen pre).
Proof.
  intros Hz Hl. unfold row_for, checksum_row.
  destruct (pieces_spec (Zlen (h ++ x)) PIECE_SHIFT (Zlen pre) Hl ltac:(done)) as (Ht & _). apply tiled_in in Ht; [|done].
  revert Ht. generalize (pieces (Zlen (h ++ x)) PIECE_SHIFT (Zlen pre)). intros ps Ht. generalize (@nil Byte.byte).
  induction Ht as [|[a b] ps [Ha Hb] _ IH]; intros out; cbn [row_go checksum_row_go]; [done|].
  rewrite read_back_section by (done || lia). destruct (get_range (h ++ x) a b); cbn [option_bind mbind]; [apply IH|done].
Qed.

(** ** The blocks landed *)

Definition moved (off : Z) (l : BlockLoc) : BlockLoc :=
  mkBlockLoc off (bl_stored l) (bl_uncompressed l) (bl_cap l) (bl_chunked l) (bl_crc l) (bl_chunk_crc l) (bl_solo l).

(** The table once the blocks [held] from [i] on went in at [at_]. *)
Fixpoint landed (at_ : Z) (held : list bytes) (locs : list BlockLoc) : list BlockLoc :=
  match held, locs with
  | bs :: held, l :: locs => moved at_ l :: landed (at_ + Zlen bs) held locs
  | _, _ => []
  end.

Lemma wp_land held i (w : SegmentWriter) pre locs : b_blocks (w_blocks w) = pre ++ locs -> i = Zlen pre -> Zlen held = Zlen locs ->
  wp (land_blocks i held) (fun _ w' =>
    w' = set_blocks (fun b => mkBlocks (b_builder b) (pre ++ landed (o_pos (w_out w)) held locs) (b_chunk_rows b) (b_pending b))
           (set_out (fun o => mkOut (o_file o ++ concat held) (o_pos o + Zlen (concat held)) (o_reserve_off o) (o_mode o)) w)) w.
Proof.
  revert i w pre locs. induction held as [|bs held IH]; intros i w pre [|l locs] Hb Hi Hl; cbn [land_blocks];
    try (unfold Zlen in Hl; cbn [length] in Hl; lia).
  - unfold wp. cbn [ret landed]. destruct w as [st [f p ro m] k g [bb bl cr pe] r t]. unfold set_blocks, set_out.
    cbn [w_set w_out w_keys w_staging w_blocks w_recs w_kept b_builder b_blocks b_chunk_rows b_pending o_file o_pos o_reserve_off o_mode concat] in *.
    by rewrite app_nil_r, Hb, Zlen_nil, Z.add_0_r, app_nil_r.
  - subst i. step. step. apply wp_bind. eapply wp_expect; [rewrite Hb; by apply get_at_app_mid|]. apply wp_bind. eapply wp_expect.
    { rewrite Hb. change (l :: locs) with ([l] ++ locs). by apply put_range_app. }
    step. apply wp_bind. unfold write_all, wp at 1. cbn [modify]. apply wp_bind. unfold advance, wp at 1. cbn [modify].
    destruct w as [st [f p ro m] k g [bb bl cr pe] r t]. unfold set_blocks, set_out.
    cbn [w_set w_out w_keys w_staging w_blocks w_recs w_kept b_builder b_blocks b_chunk_rows b_pending o_file o_pos o_reserve_off o_mode concat] in *.
    eapply wp_mono; [eapply (IH _ _ (pre ++ [moved p l]) locs)|].
    + cbn [w_blocks b_blocks]. by rewrite <- app_assoc.
    + rewrite Zlen_app, Zlen_cons. znil. lia.
    + rewrite !Zlen_cons in Hl. lia.
    + intros [] w' ->. unfold set_blocks, set_out.
      cbn [w_set w_out w_keys w_staging w_blocks w_recs w_kept b_builder b_blocks b_chunk_rows b_pending o_file o_pos o_reserve_off o_mode concat landed].
      by rewrite <- !app_assoc, Zlen_app, Z.add_assoc.
Qed.

Lemma Zlen_landed at_ held locs : Zlen held = Zlen locs -> Zlen (landed at_ held locs) = Zlen locs.
Proof.
  revert at_ locs. induction held as [|bs held IH]; intros at_ [|l locs] H; cbn [landed];
    try (unfold Zlen in H; cbn [length] in H; lia).
  rewrite !Zlen_cons in *. rewrite IH by lia. lia.
Qed.

(** Block [i] landed: its row moved to where its bytes are. *)
Lemma landed_at at_ held locs i bs l : get_at held i = Some bs -> get_at locs i = Some l ->
  exists pre post, held = pre ++ bs :: post /\ Zlen pre = i /\ get_at (landed at_ held locs) i = Some (moved (at_ + Zlen (concat pre)) l).
Proof.
  revert at_ locs i. induction held as [|b held IH]; intros at_ locs i Hb Hl; [apply get_at_lt in Hb; znil; lia|].
  destruct locs as [|l0 locs]; [apply get_at_lt in Hl; znil; lia|]. pose proof (get_at_lt _ _ _ Hb) as Hi. destruct (Z.eq_dec i 0) as [->|Hn].
  - rewrite get_at_here in * by done. injection Hb as ->. injection Hl as ->. exists [], held. split; [done|]. split; [done|].
    cbn [landed]. rewrite get_at_here by done. cbn [concat]. rewrite (@Zlen_nil Byte.byte). by rewrite Z.add_0_r.
  - assert (forall A (x : A) l, get_at (x :: l) i = get_at l (i - 1)) as Hs.
    { intros A x l1. change (x :: l1) with ([x] ++ l1). rewrite get_at_skip by (rewrite Zlen_cons; znil; lia). f_equal. }
    rewrite Hs in Hb, Hl. destruct (IH (at_ + Zlen b) locs (i - 1) Hb Hl) as (pre & post & -> & Hp & Hg). exists (b :: pre), post.
    split; [done|]. split; [rewrite Zlen_cons; lia|]. cbn [landed]. rewrite Hs, Hg. cbn [concat]. by rewrite Zlen_app, Z.add_assoc.
Qed.

(** ** The section handed to the trailer *)

Definition entry_of (compact : bool) (p : Put) (et : Ext * bytes) : entry := (p_key p, exts_read [et.1] compact, et.2).
Definition entries (compact : bool) (puts : list Put) (ets : list (Ext * bytes)) : list entry := zip_with (entry_of compact) puts ets.

Lemma entries_keys compact puts ets : Zlen ets = Zlen puts -> map entry_key (entries compact puts ets) = keys_of puts.
Proof.
  revert ets. induction puts as [|p puts IH]; intros [|et ets] H; try done; try (unfold Zlen in H; cbn [length] in H; lia).
  unfold entries, keys_of in *. cbn. rewrite IH; [done|]. rewrite !Zlen_cons in H. lia.
Qed.

Lemma entries_at compact puts ets i p et : get_at puts i = Some p -> get_at ets i = Some et -> get_at (entries compact puts ets) i = Some (entry_of compact p et).
Proof.
  intros [H0 Hp]%get_at_Some [_ He]%get_at_Some. apply get_at_Some. split; [done|]. unfold entries. rewrite lookup_zip_with, Hp. cbn. by rewrite He.
Qed.

Lemma ascending_NoDup keys : ascending keys -> NoDup keys.
Proof.
  intros Ha. apply NoDup_alt. intros i j k Hi Hj. destruct (Nat.lt_trichotomy i j) as [Hlt|[E|Hlt]]; [|done|]; exfalso;
    [apply (blt_irrefl k), (Ha (Z.of_nat i) (Z.of_nat j))|apply (blt_irrefl k), (Ha (Z.of_nat j) (Z.of_nat i))]; try lia;
    apply get_at_Some; rewrite Nat2Z.id; (split; [lia|done]).
Qed.

(** Every [s]-th key is no longer than all of them. *)
Lemma sampled_len s (m : nat) (l : list bytes) : 1 <= s ->
  Zlen (concat (map (fun i => default [] (get_at l (i * s))) (seqZ 0 (Z.of_nat m)))) <= Zlen (concat l).
Proof.
  intros Hs. revert l. induction m as [|m IH]; intros l; [apply Zlen_nonneg|].
  rewrite seqZ_cons by lia. replace (Z.pred (Z.of_nat (S m))) with (Z.of_nat m) by lia. cbn [map concat]. rewrite Zlen_app.
  assert (seqZ (Z.succ 0) (Z.of_nat m) = map (Z.add 1) (seqZ 0 (Z.of_nat m))) as -> by (symmetry; apply (fmap_add_seqZ 1 0)).
  rewrite List.map_map.
  rewrite (List.map_ext_in _ (fun i => default [] (get_at (drop (Z.to_nat s) l) (i * s)))).
  2:{ intros i Hi. apply list_elem_of_In, elem_of_seqZ in Hi. unfold get_at. rewrite lookup_drop.
      rewrite Zlen_drop. replace ((1 + i) * s) with (s + i * s) by lia. assert (0 <= i * s) by nia.
      rewrite Z2Nat.inj_add, !(proj2 (Z.leb_le _ _)) by lia. cbn [andb].
      destruct (Z.ltb_spec (s + i * s) (Zlen l)), (Z.ltb_spec (i * s) (Z.max 0 (Zlen l - Z.of_nat (Z.to_nat s)))); done || lia. }
  specialize (IH (drop (Z.to_nat s) l)). 
  assert (Zlen (concat l) = Zlen (concat (take (Z.to_nat s) l)) + Zlen (concat (drop (Z.to_nat s) l))) as ->
    by (by rewrite <- Zlen_app, <- concat_app, take_drop).
  enough (Zlen (default [] (get_at l (0 * s))) <= Zlen (concat (take (Z.to_nat s) l))) by lia.
  destruct l as [|k l]; [apply Zlen_nonneg|]. replace (Z.to_nat s) with (S (Z.to_nat (s - 1))) by lia.
  rewrite Z.mul_0_l, get_at_here by done. cbn. rewrite Zlen_app. pose proof (Zlen_nonneg (concat (take (Z.to_nat (s - 1)) l))). lia.
Qed.

Lemma writable_core lz4 sums set puts recs ets ps B r target generation base : settings_ok set -> Core lz4 sums set puts recs ets ps B r ->
  0 < target -> 0 <= generation < U64 -> 0 <= base -> is_aligned base 4 = true ->
  writable target generation base recs (r_offs r) (entries (st_compact_records set) puts ets).
Proof.
  intros Hset Hc Ht Hg Hb Hal. pose proof Hc as [_ _ Hmax _ _ (Ho & He & _ & Hlaid) _ _ _ _ Hpok Hasc Hsum _].
  destruct (core_few _ _ _ Hset _ _ _ _ _ _ Hc) as (H4 & _).
  assert (Zlen (entries (st_compact_records set) puts ets) = Zlen puts) as Hn.
  { rewrite <- (Zlen_map entry_key), entries_keys by done. unfold keys_of. by rewrite Zlen_map. }
  split; [done|done|done|lia| | |].
  - unfold records_at. apply Forall2_same_length_lookup. split; [apply Nat2Z.inj; change (Zlen (r_offs r) = Zlen (entries (st_compact_records set) puts ets)); lia|].
    intros i off [[k x] t] Hoff Hent.
    unfold entries in Hent. rewrite lookup_zip_with in Hent. destruct (puts !! i) as [p|] eqn:Ep; [|done]. destruct (ets !! i) as [[e tail]|] eqn:Ee; [|done].
    cbn in Hent. injection Hent as <- <- <-.
    destruct (Hlaid (Z.of_nat i) p e tail) as (off' & pre & post & Hg' & -> & Hm & Hr & Hrok); [by rewrite get_at_lookup..|].
    rewrite get_at_lookup, Hoff in Hg'. injection Hg' as ->. rewrite Hr in Hmax |- *. rewrite !Zlen_app in Hmax.
    pose proof (Zlen_nonneg pre). pose proof (Zlen_nonneg post). pose proof (Zlen_nonneg (record_bytes (p_key p) [e] tail (st_compact_records set))).
    split; [unfold MAX_RECS, U32 in *; lia|]. eexists. apply parse_record_bytes; [done|rewrite !Zlen_app; unfold MAX_RECS, U32 in *; lia|].
    unfold is_aligned in *. apply Z.eqb_eq in Hal. apply Z.eqb_eq. unfold HEADER. Z.div_mod_to_equations; lia.
  - rewrite entries_keys by done. by apply ascending_NoDup.
  - unfold t_keys. destruct (t_stride_pos target (Zlen puts) (Zlen recs) Ht ltac:(apply Zlen_nonneg) ltac:(lia)) as [Hst _].
    pose proof (t_fence_n_range target (Zlen puts) (Zlen recs) Ht ltac:(apply Zlen_nonneg) ltac:(lia)) as [Hfn _]. rewrite Hn.
    pose proof (sampled_len (t_stride target (Zlen puts)) (Z.to_nat (t_fence_n target (Zlen puts))) (keys_of puts) ltac:(lia)) as Hs.
    rewrite Z2Nat.id in Hs by lia. etrans; [etrans; [|exact Hs]|].
    + apply Z.eq_le_incl. do 2 f_equal. apply List.map_ext. intros i. unfold entry_key_at.
      rewrite <- (entries_keys (st_compact_records set) puts ets He), get_at_map. by destruct (get_at _ _).
    + etrans; [|exact Hsum]. clear -Hpok. induction Hpok as [|p puts Hp _ IH]; [done|]. unfold keys_of, rec_sum in *. cbn [map concat sum fold_right].
      fold (sum (map (key_rec (st_inline_max set) (st_compact_records set)) (map lens_of puts))). rewrite Zlen_app.
      pose proof (key_rec_key (st_inline_max set) (st_compact_records set) (lens_of p)) as Hk. change (fst (lens_of p)) with (Zlen (p_key p)) in Hk.
      destruct (lens_ok [p]) as [Hnn _]; [by apply Forall_singleton|]. apply Forall_singleton in Hnn as [_ ?]. lia.
Qed.

(** ** The section in the file *)

Lemma row_len_small len key_off : 0 <= len -> 0 <= checksum_row_len len PIECE_SHIFT key_off <= len / 2 ^ 10 + 8.
Proof.
  intros H. unfold checksum_row_len, piece_count, PIECE_SHIFT. change (Z.shiftl 1 14) with 16384. pose proof (Z.mod_pos_bound key_off 16384 ltac:(lia)).
  destruct (div_ceil_spec (key_off mod 16384 + len) 16384 ltac:(lia) ltac:(lia)). Z.div_mod_to_equations; lia.
Qed.

Section seal.
Context (lz4_compress : bytes -> bytes) (sums : bool) (set : Settings) (target base generation : Z).
Context (Hset : settings_ok set) (Htarget : 0 < target) (Hbase : 0 <= base) (Halign : is_aligned base 4 = true) (Hgen : 0 <= generation < U64).
Local Abbreviation Inv := (Inv lz4_compress sums set).
Local Abbreviation Core := (Core lz4_compress sums set).

(** The section [header ++ rest] at [key_off], as a reader takes it. *)
Record section_ok (es : list entry) (key_off : Z) (header rest : bytes) (f : FlatIndex) (hd : Header) : Prop := {
  so_header : Zlen header = HEADER;
  so_parse : flat_parse (header ++ rest) = Some f;
  so_verify : verify_pieces (header ++ rest) (fx_crc_off f) (fx_piece_shift f) key_off = Some (inl tt);
  so_holds : holds key_hash base (header ++ rest) f es;
  so_hd : header_parse header = Some hd;
  so_crc : HEADER <= hd_crc_off hd <= Zlen (header ++ rest);
  so_row : hd_crc_off hd + checksum_row_len (hd_crc_off hd) (hd_piece_shift hd) key_off = Zlen (header ++ rest);
  so_dir : HEADER <= hd_dir_off hd /\ 0 <= hd_nkeys hd /\ hd_dir_off hd + hd_nkeys hd * 4 <= Zlen (header ++ rest);
  so_small : Zlen (header ++ rest) < 2 ^ 42;
  so_pieces : verify_pieces (header ++ rest) (hd_crc_off hd) (hd_piece_shift hd) key_off = Some (inl tt) /\ hd_piece_shift hd = PIECE_SHIFT;
  so_dict : ascending (map entry_key es) -> exists offs recs, dictionary (header ++ rest) hd es offs recs /\ records_read recs offs es /\ Zlen recs < U32
}.

Lemma keys_read puts i : default [] (s ← get_at (spans_go 0 (keys_of puts)) i; span_key (keys_state puts) s) = default [] (get_at (keys_of puts) i).
Proof.
  destruct (get_at (keys_of puts) i) as [k|] eqn:E.
  - pose proof (span_key_at [] (keys_of puts) i k [] E) as H. rewrite app_nil_r in H. cbn [app] in H. znil. unfold span_key, keys_state. cbn [k_arena]. by rewrite H.
  - apply get_at_None in E. rewrite (proj2 (get_at_None _ _)); [done|]. by rewrite Zlen_spans.
Qed.

(** Every put's record reads as its entry, wherever it lies. *)
Lemma core_records puts recs ets ps B r : Core puts recs ets ps B r -> records_read recs (r_offs r) (entries (st_compact_records set) puts ets).
Proof.
  intros Hc. pose proof (c_laid _ _ _ _ _ _ _ _ _ Hc) as (Ho & He & Hend & Hl).
  exists (records_of (st_compact_records set) puts ets). split; [done|]. rewrite Zlen_records_of by done.
  split; [by rewrite <- (Zlen_map entry_key), entries_keys by done; unfold keys_of; rewrite Zlen_map|].
  intros i rec e Hr Hen. pose proof (get_at_lt _ _ _ Hr) as Hi. rewrite Zlen_records_of in Hi by done.
  destruct (get_at_is_Some puts i Hi) as [p Hp]. destruct (get_at_is_Some ets i) as [[x tail] Hx]; [lia|].
  rewrite (entries_at _ _ _ _ _ _ Hp Hx) in Hen. injection Hen as <-.
  assert (rec = record_bytes (p_key p) [x] tail (st_compact_records set)) as ->.
  { unfold records_of in Hr. apply get_at_Some in Hr as [_ Hr]. apply get_at_Some in Hp as [_ Hp]. apply get_at_Some in Hx as [_ Hx].
    rewrite lookup_zip_with, Hp, Hx in Hr. by injection Hr. }
  destruct (Hl i p x tail Hp Hx) as (off & pre & post & _ & _ & _ & _ & Hok). destruct (record_ok_len _ _ _ _ Hok) as (_ & _ & Hlen).
  destruct (record_mod lz4_compress (p_key p) [x] tail _ _ Hlen) as [Hm H4]. split; [done|]. split; [done|]. intros addr pre' post' Hal Hlt. eexists. by apply parse_record_bytes.
Qed.

(** The trailer the writer asks for is the section's own. *)
Lemma trailer_section puts recs ets ps B r : Core puts recs ets ps B r -> forall key_off look, exists h t total h' row f hd,
  stream_trailer target (Zlen puts) (r_len r) (fun i => default [] (s ← get_at (spans_go 0 (keys_of puts)) i; span_key (keys_state puts) s))
    (fun i => (default 0 (get_at (r_offs r) i), default 0 (get_at (r_hashes r) i))) generation look = Some (h, t, total) /\
  set_checksum_words h total = Some h' /\ total = Zlen (h' ++ recs ++ t) /\ checksum_row (h' ++ recs ++ t) PIECE_SHIFT key_off = Some row /\
  section_ok (entries (st_compact_records set) puts ets) key_off h' (recs ++ t ++ row) f hd.
Proof.
  intros Hc key_off look. pose proof (writable_core _ _ _ _ _ _ _ _ _ target generation base Hset Hc Htarget Hgen Hbase Halign) as Hw.
  pose proof Hc as [_ Hlen _ _ Hh (Ho & He & _) _ _ _ _ _ _ _ _]. set (es := entries (st_compact_records set) puts ets) in *.
  assert (map entry_key es = keys_of puts) as Hek by by apply entries_keys.
  assert (Zlen es = Zlen puts) as Hn by (rewrite <- (Zlen_map entry_key), Hek; unfold keys_of; apply Zlen_map).
  destruct (stream_checksummed target generation base key_hash recs (r_offs r) es Hw look key_off)
    as (h & t & total & h' & row & f & hd & Hs & Hset' & Hh1 & Hh' & Ht & Hr & Hrl & Hv & Hp & Hcr & Hsh & Hho & Hhd & Hc1 & Hc2 & Hc3 & Hd1 & Hd2 & Hsm & Hdict).
  exists h, t, total, h', row, f, hd. rewrite <- Hlen, Hn in *. split.
  { rewrite <- Hs. apply stream_trailer_ext.
    - intros i. rewrite keys_read. unfold entry_key_at. rewrite <- Hek, get_at_map. by destruct (get_at es i).
    - intros i Hi. unfold entry_each. f_equal. rewrite Hh, get_at_map. unfold entry_key_at. rewrite <- Hek, get_at_map.
      destruct (get_at_is_Some es i) as [e ->]; [lia|done]. }
  split; [done|]. rewrite Hlen in Ht. split; [rewrite !Zlen_app; lia|]. split; [done|]. rewrite <- !app_assoc in *.
  pose proof (row_len_small total key_off). pose proof (Zlen_nonneg recs). pose proof (Zlen_nonneg t). unfold HEADER in Ht.
  assert (Zlen (h' ++ recs ++ t ++ row) = total + Zlen row) as Hz by (rewrite !Zlen_app; unfold HEADER in *; lia).
  split; try done.
  - by rewrite Hcr, Hsh.
  - rewrite Hc1, Hz. pose proof (Zlen_nonneg row). unfold HEADER. lia.
  - rewrite Hz, Hc1, Hc2, Hrl. done.
  - rewrite Hz, Hc3. pose proof (Zlen_nonneg es). split; [done|]. split; [lia|]. rewrite Hc3 in Hd2. lia.
  - rewrite Hz. Z.div_mod_to_equations; lia.
  - by rewrite Hc1, Hc2.
  - intros Ha. exists (r_offs r), recs. split; [by apply Hdict|]. split; [by eapply core_records|]. pose proof (c_max _ _ _ _ _ _ _ _ _ Hc). unfold MAX_RECS in *. lia.
Qed.

Lemma wp_sync (w : SegmentWriter) : wp sync (fun _ w' => exists r, r_len r = r_len (w_recs w) /\ r_offs r = r_offs (w_recs w) /\ r_hashes r = r_hashes (w_recs w) /\
  w' = set_recs (fun _ => r) (set_out (fun o => mkOut (o_file o ++ r_batch (w_recs w)) (o_pos o) (o_reserve_off o) (o_mode o)) w)) w.
Proof.
  unfold sync. step. destruct w as [st [f p ro m] k g b [len offs hs bat mc ms] t]. cbn [w_recs r_batch]. destruct (Z.eqb_spec (Zlen bat) 0) as [Hz|Hz].
  - apply Zlen_zero_nil in Hz as ->. unfold wp. cbn [ret]. exists (mkRecs len offs hs [] mc ms). unfold set_recs, set_out. cbn. by rewrite app_nil_r.
  - unfold write_batch. step. apply wp_bind. unfold write_all, wp at 1. cbn [modify]. unfold wp. cbn [modify]. eexists (mkRecs _ _ _ _ _ _).
    unfold set_recs, set_out. cbn. split_and!; reflexivity.
Qed.

(** The records finished: the section whole but for its header, which is still
    zeroes, then the blocks, each where its row of the table says. *)
Definition finished_records (puts : list Put) (ets : list (Ext * bytes)) (reserve_off : Z) (res : Z * Z * bytes) (w : SegmentWriter) : Prop :=
  let '(key_off, key_len, header) := res in exists rest f hd ps B,
    key_off = start_of set /\ key_len = Zlen (header ++ rest) /\ section_ok (entries (st_compact_records set) puts ets) key_off header rest f hd /\
    blocks_ok lz4_compress sums (st_compress set) (st_block_size set) ps B /\ Forall2 (placed (ps ++ [[]]) (st_inline_max set)) puts ets /\
    Zlen ps <= Zlen puts + 1 /\ w_set w = set /\
    w_out w = mkOut (zeros (start_of set) ++ (zeros HEADER ++ rest) ++ concat (b_pending B))
                (start_of set + key_len + Zlen (concat (b_pending B))) reserve_off (Some RecordsFirst) /\
    b_blocks (w_blocks w) = landed (start_of set + key_len) (b_pending B) (b_blocks B) /\ b_chunk_rows (w_blocks w) = b_chunk_rows B.

Lemma wp_finish_records puts recs ets ps (w : SegmentWriter) : Inv puts recs ets ps w ->
  wp (finish_records lz4_compress sums target generation) (finished_records puts ets (reserve_of set)) w.
Proof.
  intros Hi. pose proof Hi as [Hs Hk _ _ Hc]. pose proof Hc as [_ Hlen _ _ _ _ Hok Hst _ Hpl _ _ _ _]. destruct (core_few _ _ _ Hset _ _ _ _ _ _ Hc) as (_ & Hps & _).
  assert (0 <= start_of set) as Hst0 by (destruct Hset; unfold start_of, SUPER; destruct (_ <? _); lia).
  unfold finish_records. step. rewrite Hk. apply wp_bind, wp_pass; [done|]. step. rewrite Hk. apply wp_bind, wp_pass; [done|]. apply wp_bind.
  eapply wp_mono; [by eapply wp_layout_inv|]. intros m w1 (-> & o & -> & Ho). apply wp_bind.
  destruct w as [st o0 k g b r t]. unfold set_out in *. cbn [w_set w_keys w_staging w_recs w_out w_blocks w_kept] in *. subst st k.
  destruct Ho as (Hf & Hp & Hro & Hmo). assert (builder_len (b_builder b) < U32) as Hbl by (destruct Hset; unfold staged_lt, U32 in *; lia).
  eapply wp_mono; [eapply (wp_flush _ _ _ (st_block_size set) ps); cbn [w_set w_out w_blocks]; done|].
  intros [] w2 (B & ps' & -> & Hok' & Hx & Hbuf & Hn). cbn [w_set w_blocks] in *. unfold set_blocks. cbn [w_set w_keys w_staging w_recs w_out w_blocks w_kept]. apply wp_bind.
  eapply wp_mono; [apply wp_sync|]. intros [] w3 (r' & Hrl & Hroff & Hrh & ->). unfold set_recs, set_out. cbn [w_set w_keys w_staging w_recs w_out w_blocks w_kept] in *.
  rewrite Hf, Hp, Hro, Hmo. step. step. step. step. cbn [w_set w_keys w_staging w_recs w_out w_blocks w_kept].
  destruct (trailer_section puts recs ets ps b r Hc (start_of set) (st_lookahead set)) as (h & tr & total & h' & row & f & hd & Htr & Hsw & Htot & Hrow & Hsec).
  apply wp_bind. eapply wp_require.
  { cbn [k_spans keys_state]. rewrite Zlen_spans, Hrl, Hroff, Hrh. unfold keys_of at 1. rewrite Zlen_map. exact Htr. }
  cbv beta iota. apply wp_bind. unfold write_all, wp at 1. cbn [modify]. apply wp_bind. unfold advance, wp at 1. cbn [modify]. unfold set_out.
  cbn [w_set w_keys w_staging w_recs w_out w_blocks w_kept o_file o_pos o_reserve_off o_mode]. apply wp_bind. eapply wp_expect; [exact Hsw|]. step.
  cbn [w_out o_file]. assert (key_start (mkWriter set (mkOut (zeros (start_of set + HEADER) ++ recs) (start_of set + HEADER + Zlen recs) (reserve_of set)
    (Some RecordsFirst)) (keys_state puts) g B r' t) = start_of set) as Hks.
  { unfold key_start, start_of, reserve_of. cbn [w_out o_reserve_off w_set]. by destruct (_ <? _). }
  rewrite Hks. pose proof (so_header _ _ _ _ _ _ Hsec) as Hh'. pose proof (Zlen_zeros (start_of set) Hst0) as Hz.
  assert ((zeros (start_of set + HEADER) ++ recs) ++ tr = zeros (start_of set) ++ zeros HEADER ++ (recs ++ tr) ++ []) as Hfile.
  { rewrite zeros_add by (unfold HEADER in *; lia). by rewrite app_nil_r, <- !app_assoc. }
  apply wp_bind. eapply wp_expect.
  { rewrite Hfile, Htot. pose proof (row_for_section (zeros (start_of set)) (zeros HEADER) h' (recs ++ tr) []) as Hrf. rewrite Hz, Hrow in Hrf.
    apply Hrf; [by rewrite Hh'|]. rewrite Zlen_app, Hh'. pose proof (Zlen_nonneg (recs ++ tr)). unfold HEADER. lia. }
  rewrite Hfile, app_nil_r. apply wp_bind. unfold wp at 1. cbn [modify]. apply wp_bind. unfold wp at 1. cbn [modify]. step. step. unfold set_out, set_blocks.
  cbn [w_set w_keys w_staging w_recs w_out w_blocks w_kept o_file o_pos o_reserve_off o_mode b_builder b_blocks b_chunk_rows b_pending]. apply wp_bind.
  pose proof Hok' as [_ Hb1 _ Hb3 _ _].
  eapply wp_mono; [eapply (wp_land (b_pending B) 0 _ [] (b_blocks B)); cbn [w_blocks b_blocks]; done || lia|]. intros [] w4 ->. unfold wp, set_out, set_blocks.
  cbn [ret w_set w_keys w_staging w_recs w_out w_blocks w_kept o_file o_pos o_reserve_off o_mode b_builder b_blocks b_chunk_rows b_pending].
  assert (total + Zlen row = Zlen (h' ++ recs ++ tr ++ row)) as Hkl by (rewrite Htot, !Zlen_app; lia).
  assert (start_of set + HEADER + Zlen recs + Zlen tr + Zlen row = start_of set + (total + Zlen row)) as Hpos by (rewrite Htot, !Zlen_app, Hh'; lia).
  exists (recs ++ tr ++ row), f, hd, ps', B. split; [done|]. split; [done|]. split; [done|]. split; [done|]. split; [|split; [|split; [done|]]].
  - eapply Forall2_impl; [exact Hpl|]. intros p et. apply placed_extends. unfold payloads in Hx. by rewrite Hbuf in Hx.
  - rewrite Hn. destruct (negb _); lia.
  - cbn [w_out w_blocks b_blocks b_chunk_rows app]. rewrite Hpos. split; [|done]. f_equal. by rewrite <- !app_assoc.
Qed.
End seal.

(** ** The head reserve filled *)

(** [file'] is [file] but for what lies in [lo..hi]. *)
Definition within (lo hi : Z) (file file' : bytes) : Prop :=
  Zlen file' = Zlen file /\ forall a b, b <= lo \/ hi <= a -> get_range file' a b = get_range file a b.

Lemma within_refl lo hi file : within lo hi file file.
Proof. done. Qed.

Lemma within_trans lo hi x y z : within lo hi x y -> within lo hi y z -> within lo hi x z.
Proof. intros [H1 H2] [H3 H4]. split; [congruence|]. intros a b H. by rewrite H4, H2. Qed.

Lemma within_mono lo hi lo' hi' x y : within lo hi x y -> lo' <= lo -> hi <= hi' -> within lo' hi' x y.
Proof. intros [H1 H2] Hl Hh. split; [done|]. intros a b H. apply H2. lia. Qed.

Lemma copy_in_within file at_ src len en : 0 <= at_ -> 0 <= src -> 0 <= len -> src + len <= Zlen file -> at_ + len <= en -> en <= Zlen file ->
  exists file' b, copy_in file at_ src len = Some (file', b) /\ within at_ en file file' /\
    get_range file' at_ (at_ + len) = Some b /\ get_range file src (src + len) = Some b.
Proof.
  intros Ha Hs Hl Hf Hen Hef. unfold copy_in. destruct (get_range_is_Some file src (src + len)) as [b Hb]; [lia..|]. rewrite Hb. cbn [option_bind mbind].
  apply get_range_len in Hb. destruct (put_range_is_Some file at_ b) as [file' Hp]; [lia..|]. rewrite Hp. cbn [option_bind mbind].
  exists file', b. split; [done|]. split; [split; [by eapply put_range_len|]; intros x y H; eapply get_put_apart; [exact Hp|]; lia|].
  split; [|done]. pose proof (get_put_same _ _ _ _ Hp) as Hg. by replace (at_ + len) with (at_ + Zlen b) by lia.
Qed.

(** The bytes at [o] are those at [src]. *)
Definition copied (file : bytes) (o src len : Z) (b : bytes) : Prop := get_range file o (o + len) = Some b /\ get_range file src (src + len) = Some b.

Lemma copied_later lo hi file file' o src len b : within lo hi file file' -> o + len <= lo -> hi <= src -> copied file o src len b -> copied file' o src len b.
Proof. intros [_ H] H1 H2 [H3 H4]. split; rewrite H by lia; done. Qed.

Lemma fence_span_in hd len foff flen : fence_span hd len = (foff, flen) -> 0 <= len -> 0 <= foff /\ 0 <= flen /\ foff + flen <= len.
Proof.
  unfold fence_span. destruct (_ =? 0); [intros [= <- <-]; lia|]. destruct (Z.ltb_spec (hd_fence_offs_off hd) HEADER), (Z.ltb_spec len (hd_fence_offs_off hd));
    cbn [orb]; try (intros [= <- <-]; lia). set (s := hd_fence_offs_off hd) in *.
  assert (Forall (fun x => s <= x) (List.filter (fun x => s <? x) [hd_hash_off hd; hd_dir_base hd; hd_recs_off hd; hd_crc_off hd; len])) as Hall.
  { apply List.Forall_forall. intros x [_ Hx]%List.filter_In. apply Z.ltb_lt in Hx. lia. }
  revert Hall. generalize (List.filter (fun x => s <? x) [hd_hash_off hd; hd_dir_base hd; hd_recs_off hd; hd_crc_off hd; len]). intros ends Hall.
  assert (s <= (match ends with [] => len | x :: xs => fold_left Z.min xs x end)) as Hm.
  { destruct Hall as [|x xs Hx Hxs]; [lia|]. revert x Hx. induction Hxs as [|y ys Hy _ IH]; intros x Hx; cbn [fold_left]; [done|]. apply IH. lia. }
  intros [= <- <-]. unfold HEADER in *. lia.
Qed.

Section reserve.
Context (file table : bytes) (ro hr key_off row_len len : Z) (hd : Header) (fence : Z * Z).
Context (Hro : 0 <= ro) (Hhr : 0 <= hr) (Hen : ro + hr <= key_off) (Hlen : key_off + len <= Zlen file) (Hl0 : 0 <= len).
Context (Hrow : 0 <= hd_crc_off hd /\ 0 <= row_len /\ hd_crc_off hd + row_len <= len).
Context (Hfence : 0 <= fst fence /\ 0 <= snd fence /\ fst fence + snd fence <= len).
Context (Hdir : 0 <= hd_dir_off hd /\ 0 <= hd_nkeys hd /\ hd_dir_off hd + hd_nkeys hd * 4 <= len).

Lemma next_at x : 0 <= x -> x <= div_ceil x 8 * 8.
Proof. intros H. destruct (div_ceil_spec x 8 ltac:(lia) H). lia. Qed.

(** A copy taken lies between where it was put and where the next goes. *)
Definition taken (f' : bytes) (at_ at' o src len : Z) (b : bytes) : Prop := at_ <= o /\ o + len <= at' /\ o + len <= ro + hr /\ copied f' o src len b.

Lemma copy_taken f at_ src n : Zlen f = Zlen file -> 0 <= at_ -> key_off <= src -> 0 <= n -> src + n <= Zlen file -> at_ + n <= ro + hr ->
  exists f' b, copy_in f at_ src n = Some (f', b) /\ within at_ (ro + hr) f f' /\ taken f' at_ (at_ + n) at_ src n b.
Proof.
  intros Hf Ha Hs Hl Hsl Hen'. destruct (copy_in_within f at_ src n (ro + hr)) as (f' & b & Hc & Hw & H1 & H2); [lia..|].
  exists f', b. split; [done|]. split; [done|]. split; [lia|]. split; [lia|]. split; [lia|]. split; [done|]. rewrite (proj2 Hw) by lia. done.
Qed.

Lemma copy_row_in f at_ : Zlen f = Zlen file -> 0 <= at_ ->
  exists f' c at', copy_row f at_ (ro + hr) key_off hd row_len = Some (f', c, at') /\ within at_ (ro + hr) f f' /\ at_ <= at' /\
    pos_if (fun o => exists b, taken f' at_ at' o (key_off + hd_crc_off hd) row_len b) c.
Proof.
  intros Hf Ha. unfold copy_row. destruct (Z.ltb_spec 0 row_len), (Z.leb_spec (at_ + row_len) (ro + hr)); cbn [andb];
    try (eexists _, _, _; split; [done|]; split; [apply within_refl|split; [lia|done]]).
  destruct (copy_taken f at_ (key_off + hd_crc_off hd) row_len) as (f' & b & -> & Hw & H1 & H2 & H3 & H4); [lia..|]. cbn [option_bind mbind].
  pose proof (next_at (at_ + row_len) ltac:(lia)). eexists _, _, _. split; [done|]. split; [done|]. split; [lia|]. exists b. split; [done|]. split; [lia|]. by split.
Qed.

Lemma copy_fence_in f at_ : Zlen f = Zlen file -> 0 <= at_ ->
  exists f' c at', copy_fence f at_ (ro + hr) key_off (fst fence) (snd fence) = Some (f', c, at') /\ within at_ (ro + hr) f f' /\ at_ <= at' /\
    pos_if (fun '(o, l, crc) => 0 < l /\ l = snd fence /\ exists b, taken f' at_ at' o (key_off + fst fence) (snd fence) b /\ crc = crc32 b) c.
Proof.
  intros Hf Ha. unfold copy_fence. destruct (Z.ltb_spec 0 (snd fence)), (Z.leb_spec (at_ + snd fence) (ro + hr)); cbn [andb];
    try (eexists _, _, _; split; [done|]; split; [apply within_refl|split; [lia|done]]).
  destruct (copy_taken f at_ (key_off + fst fence) (snd fence)) as (f' & b & -> & Hw & H1 & H2 & H3 & H4); [lia..|]. cbn [option_bind mbind].
  pose proof (next_at (at_ + snd fence) ltac:(lia)). eexists _, _, _. split; [done|]. split; [done|]. split; [lia|]. cbn [pos_if]. split; [done|]. split; [done|].
  exists b. split; [|done]. split; [done|]. split; [lia|]. by split.
Qed.

Lemma copy_dir_in f at_ : Zlen f = Zlen file -> 0 <= at_ ->
  exists f' c, copy_dir f at_ (ro + hr) key_off hd = Some (f', c) /\ within at_ (ro + hr) f f' /\
    pos_if (fun '(o, crc) => exists b, taken f' at_ (ro + hr) o (key_off + hd_dir_off hd) (hd_nkeys hd * 4) b /\ crc = crc32 b) c.
Proof.
  intros Hf Ha. unfold copy_dir. cbv zeta. destruct (Z.ltb_spec 0 (hd_nkeys hd * 4)), (Z.leb_spec (at_ + hd_nkeys hd * 4) (ro + hr)); cbn [andb];
    try (eexists _, _; split; [done|]; split; [apply within_refl|done]).
  destruct (copy_taken f at_ (key_off + hd_dir_off hd) (hd_nkeys hd * 4)) as (f' & b & -> & Hw & H1 & H2 & H3 & H4); [lia..|]. cbn [option_bind mbind].
  eexists _, _. split; [done|]. split; [done|]. cbn [pos_if]. exists b. split; [|done]. split; [done|]. split; [lia|]. by split.
Qed.

(** What the copies of a reserve say, wherever they are. *)
Definition copies_ok (f : bytes) (lo : Z) (c : Copies) : Prop :=
  pos_if (fun o => (lo <= o /\ o + row_len <= key_off) /\ exists b, copied f o (key_off + hd_crc_off hd) row_len b) (cp_row c) /\
  pos_if (fun '(o, l, crc) => (lo <= o /\ o + snd fence <= key_off) /\ 0 < l /\ l = snd fence /\ exists b, copied f o (key_off + fst fence) (snd fence) b /\ crc = crc32 b) (cp_fence c) /\
  pos_if (fun '(o, crc) => (lo <= o /\ o + hd_nkeys hd * 4 <= key_off) /\ exists b, copied f o (key_off + hd_dir_off hd) (hd_nkeys hd * 4) b /\ crc = crc32 b) (cp_dir c).

(** A copy outlives what is put past it. *)
Lemma copied_on f f' at_ at' o src n b : within at' (ro + hr) f f' -> key_off <= src -> taken f at_ at' o src n b -> 0 <= n ->
  o + n <= key_off /\ at_ <= o /\ copied f' o src n b.
Proof. intros Hw Hs (H1 & H2 & H3 & Hc) H0. split; [lia|]. split; [done|]. eapply copied_later; [exact Hw|done|lia|done]. Qed.

(** The copies touch the reserve alone, and leave the table in it whole. *)
Lemma fill_reserve_in (tir : bool) : (tir = true -> Zlen table + 8 <= hr) ->
  exists file' c, fill_reserve file table tir ro hr key_off hd fence row_len = Some (file', c) /\ within ro (ro + hr) file file' /\
    (tir = true -> get_range file' ro (ro + Zlen table) = Some table) /\ copies_ok file' (ro + Zlen table) c.
Proof.
  intros Ht. unfold fill_reserve. destruct tir; [|eexists _, _; split; [done|]; by split]. specialize (Ht eq_refl). pose proof (Zlen_nonneg table).
  destruct (put_range_is_Some file ro table) as [f1 Hp]; [lia..|]. rewrite Hp. cbn [option_bind mbind]. cbv zeta. pose proof (put_range_len _ _ _ _ Hp) as Hl1.
  set (at1 := div_ceil (ro + Zlen table) 8 * 8). pose proof (next_at (ro + Zlen table) ltac:(lia)) as Ha1. fold at1 in Ha1.
  destruct (copy_row_in f1 at1) as (f2 & c2 & at2 & -> & Hw2 & Ha2 & Hc2); [lia..|]. cbn [option_bind mbind].
  destruct (copy_fence_in f2 at2) as (f3 & c3 & at3 & -> & Hw3 & Ha3 & Hc3); [destruct Hw2; lia|lia|]. cbn [option_bind mbind].
  destruct (copy_dir_in f3 at3) as (f4 & c4 & -> & Hw4 & Hc4); [destruct Hw2, Hw3; lia|lia|]. cbn [option_bind mbind].
  assert (within at2 (ro + hr) f2 f4) as Hw24 by (eapply within_trans; eapply within_mono; [exact Hw3|lia|lia|exact Hw4|lia|lia]).
  assert (within (ro + Zlen table) (ro + hr) f1 f4) as Hw by (eapply within_trans; eapply within_mono; [exact Hw2|lia|lia|exact Hw24|lia|lia]).
  eexists f4, _. split; [done|]. split; [|split].
  - eapply within_trans; [|eapply within_mono; [exact Hw|lia|lia]]. split; [done|]. intros a b Hab. eapply get_put_apart; [exact Hp|]. lia.
  - intros _. rewrite (proj2 Hw) by lia. by eapply get_put_same.
  - unfold copies_ok. cbn [cp_row cp_fence cp_dir]. split; [|split].
    + destruct c2 as [o|]; [|done]. destruct Hc2 as [b Hb]. cbn [pos_if]. destruct (copied_on f2 f4 at1 at2 o (key_off + hd_crc_off hd) row_len b Hw24 ltac:(lia) Hb ltac:(lia)) as (? & ? & ?).
      split; [lia|by exists b].
    + destruct c3 as [[[o l] crc]|]; [|done]. destruct Hc3 as (H0 & -> & b & Hb & ->). cbn [pos_if].
      destruct (copied_on f3 f4 at2 at3 o (key_off + fst fence) (snd fence) b Hw4 ltac:(lia) Hb ltac:(lia)) as (? & ? & ?). split; [lia|]. split; [done|]. split; [done|by exists b].
    + destruct c4 as [[o crc]|]; [|done]. destruct Hc4 as (b & Hb & ->). cbn [pos_if].
      destruct (copied_on f4 f4 at3 (ro + hr) o (key_off + hd_dir_off hd) (hd_nkeys hd * 4) b (within_refl _ _ _) ltac:(lia) Hb ltac:(lia)) as (? & ? & ?). split; [lia|by exists b].
Qed.
End reserve.

(** ** The table and the page *)

Section close.
Context (lz4_compress : bytes -> bytes) (sums : bool).

Lemma block_of_spec on pos p loc row bs : block_of lz4_compress sums on pos p = Some (loc, row, bs) -> Zlen p < U32 ->
  bl_stored loc = Zlen bs /\ Zlen bs <= Zlen p /\ bl_uncompressed loc = Zlen p /\ bl_cap loc = Zlen bs /\
  bl_crc loc = (if sums then crc32 bs else 0) /\ Zlen row = MAX_CHUNK_CRCS /\ Forall (fun c => 0 <= c < U32) row /\
  (bl_chunk_crc loc = true -> sums = true /\ chunk_crcs bs = Some row) /\ stored_form lz4_compress sums on p = Some (bs, bl_chunked loc).
Proof.
  intros Hb Hp. destruct (stored_form_total lz4_compress sums on p) as (bs' & chunked & Hsf & Hle & _). unfold block_of in Hb. rewrite Hsf in Hb.
  cbn [option_bind mbind] in Hb. injection Hb as <- <- ->. pose proof (Zlen_nonneg bs). unfold w32. rewrite !Z.mod_small by lia.
  cbn [bl_stored bl_uncompressed bl_cap bl_crc bl_chunk_crc bl_chunked]. repeat (split; [done|]).
  destruct (if sums && (Zlen bs =? Zlen p) then chunk_crcs bs else None) as [row|] eqn:E; cbn [default from_option id]; unfold id.
  - destruct sums; [|done]. cbn [andb] in E. destruct (_ =? _); [|done]. destruct (chunk_crcs_spec _ _ E) as [Hl _]. pose proof (chunk_crcs_range _ _ E). done.
  - split; [done|]. split; [change (Forall (fun c => 0 <= c < U32) (replicate 16 0)); apply Forall_replicate; unfold U32; lia|]. done.
Qed.

Context (on : bool) (cap : Z) (ps : list bytes) (B : Blocks) (Hok : blocks_ok lz4_compress sums on cap ps B).

(** Block [i], whole. *)
Lemma block_at i p : get_at ps i = Some p -> exists pos loc row bs, block_of lz4_compress sums on pos p = Some (loc, row, bs) /\ Zlen p < U32 /\
  get_at (b_blocks B) i = Some loc /\ get_at (b_chunk_rows B) i = Some row /\ get_at (b_pending B) i = Some bs.
Proof.
  intros Hp. destruct (bo_held _ _ _ _ _ _ Hok i p Hp) as (pos & loc & row & bs & H1 & H2 & H3 & H4). exists pos, loc, row, bs.
  split; [done|]. split; [|done]. pose proof (bo_sizes _ _ _ _ _ _ Hok) as Hs. apply get_at_Some in Hp as [_ Hp]. by eapply Forall_lookup_1 in Hs.
Qed.

Lemma payload_at {A} (l : list A) i x : Zlen l = Zlen ps -> get_at l i = Some x -> exists p, get_at ps i = Some p.
Proof. intros Hl Hx. pose proof (get_at_lt _ _ _ Hx). destruct (get_at_is_Some ps i) as [p Hp]; [lia|]. by exists p. Qed.

Lemma forall_at {A} (P : A -> Prop) (l : list A) : (forall i x, get_at l i = Some x -> P x) -> Forall P l.
Proof. intros H. apply Forall_lookup. intros i x Hx. apply (H (Z.of_nat i)). by rewrite get_at_lookup. Qed.

Lemma rows_16 : Forall (fun r => Zlen r = MAX_CHUNK_CRCS) (b_chunk_rows B).
Proof.
  apply forall_at. intros i r Hr. destruct (payload_at _ i r (bo_rows _ _ _ _ _ _ Hok) Hr) as [p Hp].
  destruct (block_at i p Hp) as (pos & loc & row & bs & Hb & Hlt & _ & Hr' & _). rewrite Hr in Hr'. injection Hr' as ->.
  by destruct (block_of_spec _ _ _ _ _ _ Hb Hlt) as (_ & _ & _ & _ & _ & ? & _).
Qed.

Lemma pending_small : Forall (fun bs => Zlen bs <= U32) (b_pending B).
Proof.
  apply forall_at. intros i x Hx. destruct (payload_at _ i x (bo_pending _ _ _ _ _ _ Hok) Hx) as [p Hp].
  destruct (block_at i p Hp) as (pos & loc & row & bs & Hb & Hlt & _ & _ & Hp'). rewrite Hx in Hp'. injection Hp' as ->.
  destruct (block_of_spec _ _ _ _ _ _ Hb Hlt) as (_ & ? & _). lia.
Qed.

Lemma concat_small (l : list bytes) c : Forall (fun x => Zlen x <= c) l -> Zlen (concat l) <= Zlen l * c.
Proof. induction 1 as [|x l Hx _ IH]; [done|]. cbn [concat]. rewrite Zlen_app, Zlen_cons. lia. Qed.

Lemma pending_total : Zlen (concat (b_pending B)) <= Zlen ps * U32.
Proof. rewrite <- (bo_pending _ _ _ _ _ _ Hok). by apply concat_small, pending_small. Qed.

(** Where block [i] is once landed, and its row of the table. *)
Lemma block_landed at_ i p : get_at ps i = Some p -> exists pos loc row bs pre post, block_of lz4_compress sums on pos p = Some (loc, row, bs) /\ Zlen p < U32 /\
  b_pending B = pre ++ bs :: post /\ get_at (landed at_ (b_pending B) (b_blocks B)) i = Some (moved (at_ + Zlen (concat pre)) loc) /\
  get_at (b_chunk_rows B) i = Some row.
Proof.
  intros Hp. destruct (block_at i p Hp) as (pos & loc & row & bs & Hb & Hlt & H1 & H2 & H3).
  destruct (landed_at at_ _ _ i bs loc H3 H1) as (pre & post & Hsplit & _ & Hg). by exists pos, loc, row, bs, pre, post.
Qed.

Lemma landed_ok at_ : 0 <= at_ -> at_ + Zlen ps * U32 < U64 -> Forall loc_ok (landed at_ (b_pending B) (b_blocks B)).
Proof.
  intros H0 Hlt. apply forall_at. intros i l Hl.
  assert (Zlen (landed at_ (b_pending B) (b_blocks B)) = Zlen ps) as Hz
    by (rewrite Zlen_landed; rewrite ?(bo_blocks _ _ _ _ _ _ Hok), ?(bo_pending _ _ _ _ _ _ Hok); done).
  destruct (payload_at _ i l Hz Hl) as [p Hp]. destruct (block_landed at_ i p Hp) as (pos & loc & row & bs & pre & post & Hb & Hps & Hsplit & Hg & _).
  rewrite Hl in Hg. injection Hg as ->. destruct (block_of_spec _ _ _ _ _ _ Hb Hps) as (H1 & H2 & H3 & H4 & H5 & _).
  pose proof pending_total as Ht. rewrite Hsplit, concat_app in Ht. cbn [concat] in Ht. rewrite !Zlen_app in Ht. pose proof (Zlen_nonneg (concat pre)). pose proof (Zlen_nonneg bs). pose proof (Zlen_nonneg (concat post)).
  unfold loc_ok, moved. cbn [bl_off bl_stored bl_uncompressed bl_cap bl_crc]. rewrite H1, H3, H4, H5. pose proof (crc32_range bs).
  split; [lia|]. split; [lia|]. split; [lia|]. split; [lia|]. destruct sums; [done|unfold U32; lia].
Qed.
End close.

(** ** The extension *)

Lemma le64_wrap z : le64 (w64 z) = le64 z.
Proof.
  apply le_val_inj; [by unfold le64; rewrite !length_le_bytes|]. unfold le64. rewrite !le_val_le_bytes. unfold w64. change (256 ^ Z.of_nat 8) with U64. by rewrite Z.mod_mod by done.
Qed.

(** What an extension of a segment says: where the parts are, and copies that
    are the parts' own bytes. *)
Record ext_true (file header : bytes) (hd : Header) (key_off key_len : Z) (table : Z * Z) (x : SuperExt) : Prop := {
  et_header : sx_header x = header;
  et_fence : sx_fence x = (key_off + fst (fence_span hd key_len), snd (fence_span hd key_len));
  et_dir : sx_dir x = (key_off + hd_dir_off hd, hd_nkeys hd * 4);
  et_row : sx_row x = (key_off + hd_crc_off hd, checksum_row_len (hd_crc_off hd) (hd_piece_shift hd) key_off);
  et_table : pos_if (fun t => t = table) (sx_table_copy x);
  et_apart : fst table + snd table <= key_off \/ key_off + key_len <= fst table;
  et_file : Zlen file < U64;
  et_copies : exists lo, 0 < lo /\ copies_ok key_off (checksum_row_len (hd_crc_off hd) (hd_piece_shift hd) key_off) hd (fence_span hd key_len) file lo
    (mkCopies (sx_row_copy x) (sx_fence_copy x) (sx_dir_copy x))
}.

(** An extension read back: its payload word as it wraps. *)
Lemma decode_sx_wrapped x page g : sx_ok (mkSuperExt (sx_fence x) (sx_dir x) (sx_hash x) (sx_row x) (sx_table_copy x) (sx_fence_copy x) (sx_row_copy x) (sx_dir_copy x)
    (some_if (0 <? w64 (default 0 (sx_payload x))) (w64 (default 0 (sx_payload x)))) (sx_header x)) -> 0 <= g < U64 ->
  get_range page SX_OFF (SX_OFF + SX_BYTES) = Some (encode_super_ext x g) ->
  exists p, decode_super_ext page g = Some (mkSuperExt (sx_fence x) (sx_dir x) (sx_hash x) (sx_row x) (sx_table_copy x) (sx_fence_copy x) (sx_row_copy x) (sx_dir_copy x) p (sx_header x)).
Proof.
  intros Hok Hg Hp. eexists. apply (decode_sx _ g page Hok Hg). rewrite Hp. apply (f_equal Some). unfold encode_super_ext. cbn [sx_header].
  assert (forall x', map le64 (sx_words x g) = map le64 (sx_words x' g) -> sx_header x = sx_header x' ->
    (let out := concat (map le64 (sx_words x g)) ++ sx_header x in out ++ le64 (fnv64 out)) =
    (let out := concat (map le64 (sx_words x' g)) ++ sx_header x' in out ++ le64 (fnv64 out))) as H by (intros x' Ha Hb; cbv zeta; rewrite Ha, Hb; reflexivity).
  apply (H (mkSuperExt _ _ _ _ _ _ _ _ _ _)); [|reflexivity]. unfold sx_words. cbn [map sx_fence sx_dir sx_hash sx_row sx_table_copy sx_fence_copy sx_row_copy sx_dir_copy sx_payload].
  do 18 apply (f_equal (cons _)). apply (f_equal (fun w => [w; le64 0])). set (q := default 0 (sx_payload x)).
  pose proof (Z.mod_pos_bound q U64 ltac:(done)) as Hw. fold (w64 q) in Hw. destruct (Z.ltb_spec 0 (w64 q)) as [Hlt|Hge].
  - change (default 0 (some_if true (w64 q))) with (w64 q). by rewrite le64_wrap.
  - change (default 0 (some_if false (w64 q))) with 0. rewrite <- le64_wrap. assert (w64 q = 0) as -> by lia. reflexivity.
Qed.

(** What the copies say fits the words they are written in. *)
Lemma ext_sx_ok key_off key_len row_len hd fence file lo c table header p : copies_ok key_off row_len hd fence file lo c -> 0 < lo -> Zlen header = HEADER ->
  0 <= key_off < 2 ^ 63 -> 0 <= key_len < 2 ^ 42 -> 0 <= hd_crc_off hd <= key_len -> 0 <= row_len <= key_len ->
  0 <= fst fence <= key_len -> 0 <= snd fence <= key_len -> 0 <= hd_dir_off hd /\ 0 <= hd_nkeys hd /\ hd_dir_off hd + hd_nkeys hd * 4 <= key_len ->
  0 <= hd_hash_off hd /\ 0 <= hd_hash_cap hd /\ hd_hash_off hd + hd_hash_cap hd * 8 <= key_len ->
  pos_if (fun t => 0 <= fst t < U64 /\ 0 < snd t < U64) table -> 0 <= p < U64 ->
  sx_ok (mkSuperExt (key_off + fst fence, snd fence) (key_off + hd_dir_off hd, hd_nkeys hd * 4) (key_off + hd_hash_off hd, hd_hash_cap hd * 8)
    (key_off + hd_crc_off hd, row_len) table (cp_fence c) (cp_row c) (cp_dir c) (some_if (0 <? p) p) header).
Proof.
  intros (Hr & Hf & Hd) Hlo Hh Hk Hl H1 H2 H3 H4 H5 H6 Ht Hp. assert (U64 = 18446744073709551616 /\ U32 = 4294967296) as [HU HU2] by done.
  destruct c as [cr cf cd]. cbn [cp_row cp_fence cp_dir] in *.
  assert (pos_if (fun r => 0 < r < 2 ^ 63) cr) as Hr' by (destruct cr; cbn [pos_if] in *; [lia|done]).
  assert (pos_if (fun t => 0 <= fst (fst t) < 2 ^ 63 /\ 0 < snd (fst t) < 2 ^ 42 /\ 0 <= snd t < U32) cf) as Hf'.
  { destruct cf as [[[o l] crc]|]; cbn [pos_if fst snd] in *; [|done]. destruct Hf as (? & ? & -> & b & _ & ->). pose proof (crc32_range b). lia. }
  assert (pos_if (fun t => 0 < fst t < 2 ^ 63 /\ 0 <= snd t < U32) cd) as Hd'.
  { destruct cd as [[o crc]|]; cbn [pos_if fst snd] in *; [|done]. destruct Hd as (? & b & _ & ->). pose proof (crc32_range b). lia. }
  split; cbn [sx_header sx_table_copy sx_fence_copy sx_row_copy sx_dir_copy sx_payload]; [|done| | | | |].
  - intros g Hg. unfold u64s, sx_words. cbn [sx_fence sx_dir sx_hash sx_row sx_table_copy sx_fence_copy sx_row_copy sx_dir_copy sx_payload fst snd].
    repeat (apply Forall_cons; split; [|try (apply Forall_nil)]); try (unfold SX_MAGIC; lia);
      try (destruct table as [[? ?]|]; cbn [pos_if default from_option fst snd id] in *; unfold id; lia);
      try (destruct cf as [[[? ?] ?]|]; cbn [pos_if default from_option fst snd id] in *; unfold id; lia);
      try (destruct cr; cbn [pos_if default from_option id] in *; unfold id; lia);
      try (destruct cd as [[? ?]|]; cbn [pos_if default from_option fmap option_fmap option_map fst snd id] in *; unfold id; lia).
    destruct (0 <? p); cbn [some_if default from_option id]; unfold id; lia.
  - destruct table as [[? ?]|]; cbn [pos_if snd fst] in *; [lia|done].
  - destruct cf as [[[? ?] ?]|]; cbn [pos_if snd fst] in *; [lia|done].
  - destruct cr; cbn [pos_if] in *; [lia|done].
  - destruct cd as [[? ?]|]; cbn [pos_if snd fst] in *; [lia|done].
  - destruct (Z.ltb_spec 0 p); cbn [some_if pos_if]; [lia|done].
Qed.

(** The copies stay what they are under a write before them. *)
Lemma copies_keep key_off row_len hd fence file file' lo c : copies_ok key_off row_len hd fence file lo c -> lo <= key_off ->
  0 <= hd_crc_off hd -> 0 <= fst fence -> 0 <= hd_dir_off hd ->
  (forall a b, lo <= a -> get_range file' a b = get_range file a b) -> copies_ok key_off row_len hd fence file' lo c.
Proof.
  intros (Hr & Hf & Hd) Hlo H1 H2 H3 Hk. destruct c as [cr cf cd]. unfold copies_ok in *. cbn [cp_row cp_fence cp_dir] in *.
  assert (forall o src n b, lo <= o -> lo <= src -> copied file o src n b -> copied file' o src n b) as Hc.
  { intros o src n b Ho Hs [Ha Hb]. split; rewrite Hk by done; done. }
  split; [|split].
  - destruct cr as [o|]; [|done]. cbn [pos_if] in *. destruct Hr as (? & b & Hb). split; [done|]. exists b. apply Hc; [lia|lia|done].
  - destruct cf as [[[o l] crc]|]; [|done]. cbn [pos_if] in *. destruct Hf as (? & ? & ? & b & Hb & ?). split; [done|]. split; [done|]. split; [done|].
    exists b. split; [|done]. apply Hc; [lia|lia|done].
  - destruct cd as [[o crc]|]; [|done]. cbn [pos_if] in *. destruct Hd as (? & b & Hb & ?). split; [done|]. exists b. split; [|done]. apply Hc; [lia|lia|done].
Qed.

(** The page that goes in last, and what a reader picks of it. *)
Lemma super_page_opens f ext len : Zlen f = 16 -> u64s f -> Zlen ext = SX_BYTES -> openable (super_of f) len -> SUPER <= len ->
  exists page, super_page (slot_bytes f) ext = Some page /\ Zlen page = SUPER /\ pick_super page len = Ok (super_of f) /\
    get_range page SX_OFF (SX_OFF + SX_BYTES) = Some ext.
Proof.
  intros Hf Hu Hx Ho Hl. pose proof (Zlen_slot f Hf) as Hs. unfold super_page. change SX_BYTES with 360 in Hx.
  assert (SUPER = 4096 /\ SUPER_BYTES = 144 /\ SB_SLOT = 512) as (Hsu & Hsb & Hsl) by done.
  pose proof (Zlen_zeros SUPER ltac:(done)) as Hz. destruct (put_range_is_Some (zeros SUPER) 0 (slot_bytes f)) as [p1 H1]; [lia..|].
  rewrite H1. cbn [option_bind mbind]. pose proof (put_range_len _ _ _ _ H1). destruct (put_range_is_Some p1 SB_SLOT (slot_bytes f)) as [p2 H2]; [lia..|].
  rewrite H2. cbn [option_bind mbind]. pose proof (put_range_len _ _ _ _ H2). destruct (put_range_is_Some p2 1024 ext) as [p3 H3]; [lia..|].
  exists p3. split; [done|]. split; [rewrite (put_range_len _ _ _ _ H3); lia|].
  split; [|pose proof (get_put_same _ _ _ _ H3) as Hg; by rewrite Hx in Hg]. eapply (pick_of _ (slot_bytes f) (slot_bytes f)); [|done| |done].
  - split.
    + rewrite (get_put_apart _ _ _ _ _ _ H3), (get_put_apart _ _ _ _ _ _ H2) by lia. rewrite <- (get_put_same _ _ _ _ H1). f_equal; lia.
    + rewrite (get_put_apart _ _ _ _ _ _ H3) by lia. rewrite <- (get_put_same _ _ _ _ H2). f_equal; lia.
  - rewrite decode_slot by done. cbn [newer]. by rewrite Z.leb_refl.
Qed.

(** ** The file *)

Lemma wp_place_table set (w : SegmentWriter) f m table : w_set w = set -> settings_ok set -> w_out w = mkOut f (Zlen f) (reserve_of set) m ->
  encode_blocks (b_blocks (w_blocks w)) (b_chunk_rows (w_blocks w)) = Some table ->
  wp place_table (fun '(tb, tir, at_) w' => tb = table /\ exists tail, w_out w' = mkOut (f ++ tail) (Zlen f + Zlen tail) (reserve_of set) m /\
    w_set w' = set /\ Zlen tail <= Zlen table + 8 /\
    if tir : bool then at_ = SUPER /\ tail = [] /\ reserve_of set = SUPER /\ Zlen table + 8 <= st_head_reserve set
    else Zlen f <= at_ <= Zlen f + 8 /\ get_range (f ++ tail) at_ (at_ + Zlen table) = Some table) w.
Proof.
  intros Hs (_ & _ & Hhr) Ho He. unfold place_table. step. apply wp_bind. eapply wp_expect; [exact He|]. step. step. rewrite Ho, Hs. cbn [o_reserve_off].
  pose proof (Zlen_nonneg table). destruct (negb (reserve_of set =? 0) && (Zlen table + 8 <=? st_head_reserve set)) eqn:Et.
  - apply andb_true_iff in Et as [Et1 Et2%Z.leb_le]. assert (reserve_of set = SUPER) as Hr by (unfold reserve_of in *; by destruct (_ <? _)).
    unfold wp. cbn [ret]. split; [done|]. exists []. rewrite app_nil_r, Zlen_nil, Z.add_0_r, Ho. repeat (split; [done || lia|]). done.
  - apply wp_bind. apply (wp_mono _ (fun _ w1 => exists pad, w_out w1 = mkOut (f ++ pad) (Zlen f + Zlen pad) (reserve_of set) m /\ w_set w1 = set /\ Zlen pad <= 8)).
    + unfold pad_file. step. rewrite Ho. cbn [o_pos]. pose proof (Z.mod_pos_bound (Zlen f) 8 ltac:(lia)). destruct (negb (Zlen f mod 8 =? 0)).
      * apply wp_bind. unfold write_all, wp at 1. cbn [modify]. unfold wp, advance. cbn [modify]. exists (zeros (8 - Zlen f mod 8)).
        rewrite Zlen_zeros by lia. unfold set_out. cbn [w_out w_set]. rewrite Ho. cbn [o_file o_pos o_reserve_off o_mode]. split; [done|]. split; [done|lia].
      * unfold wp. cbn [ret]. exists []. rewrite app_nil_r, Zlen_nil, Z.add_0_r. split; [done|]. split; [done|lia].
    + intros [] w1 (pad & Ho1 & Hs1 & Hp). step. rewrite Ho1. cbn [o_pos]. apply wp_bind. unfold write_all, wp at 1. cbn [modify]. apply wp_bind.
      unfold wp at 1, advance. cbn [modify]. unfold wp. cbn [ret]. split; [done|]. exists (pad ++ table). unfold set_out. cbn [w_out w_set]. rewrite Ho1.
      cbn [o_file o_pos o_reserve_off o_mode]. rewrite Zlen_app. pose proof (Zlen_nonneg pad). split; [by rewrite <- app_assoc, Z.add_assoc|]. split; [done|].
      split; [lia|]. split; [lia|]. pose proof (get_range_app (f ++ pad) table [] (Zlen f + Zlen pad) (Zlen f + Zlen pad + Zlen table)) as Hg.
      rewrite app_nil_r, <- app_assoc in Hg. apply Hg; rewrite Zlen_app; lia.
Qed.

(** A finished segment: a superblock that opens, the section, the blocks and
    the table where it says. *)
Definition finished_file (lz4 : bytes -> bytes) (sums : bool) (set : Settings) (base ts generation : Z) (puts : list Put) (ets : list (Ext * bytes)) (file : bytes) : Prop :=
  exists header rest f hd ps B blk_off,
    let at_ := start_of set + Zlen (header ++ rest) in
    let table := table_bytes (b_chunk_rows B) (landed at_ (b_pending B) (b_blocks B)) in
    section_ok base (entries (st_compact_records set) puts ets) (start_of set) header rest f hd /\
    blocks_ok lz4 sums (st_compress set) (st_block_size set) ps B /\ Forall2 (placed (ps ++ [[]]) (st_inline_max set)) puts ets /\
    Zlen ps <= 2 ^ 30 /\
    get_range file (start_of set) at_ = Some (header ++ rest) /\
    get_range file at_ (at_ + Zlen (concat (b_pending B))) = Some (concat (b_pending B)) /\
    get_range file blk_off (blk_off + Zlen table) = Some table /\ at_ < 2 ^ 63 /\
    exists page, get_range file 0 SUPER = Some page /\ SUPER <= Zlen file /\
      pick_super page (Zlen file) = Ok (super_of [generation; generation; ts; start_of set; Zlen (header ++ rest); Zlen (header ++ rest);
        blk_off; Zlen table; Zlen table; 0; 0; 0; Zlen file; 0; 0; generation]) /\
      exists x, decode_super_ext page generation = Some x /\ ext_true file header hd (start_of set) (Zlen (header ++ rest)) (blk_off, Zlen table) x.

Lemma wp_finish lz4 sums set target base ts generation puts recs ets ps (w : SegmentWriter) : settings_ok set -> st_head_reserve set < 2 ^ 62 ->
  0 < target -> 0 <= base -> is_aligned base 4 = true -> 0 <= generation < U64 -> 0 <= ts < U64 ->
  Inv lz4 sums set puts recs ets ps w ->
  wp (finish lz4 sums target ts generation) (fun file _ => finished_file lz4 sums set base ts generation puts ets file) w.
Proof.
  intros Hset Hhr Ht Hb Hal Hg Hts Hi. unfold finish. apply wp_bind.
  eapply wp_mono; [eapply (wp_finish_records lz4 sums set target base generation); done|].
  intros [[key_off key_len] header] w1 (rest & f & hd & ps' & B & -> & -> & Hsec & Hok & Hpl & Hn & Hs1 & Ho1 & Hb1 & Hr1).
  set (at_ := start_of set + Zlen (header ++ rest)) in *. set (blocks := landed at_ (b_pending B) (b_blocks B)) in *.
  set (table := table_bytes (b_chunk_rows B) blocks).
  assert (encode_blocks (b_blocks (w_blocks w1)) (b_chunk_rows (w_blocks w1)) = Some table) as Henc.
  { rewrite Hb1, Hr1. apply encode_blocks_bytes. by eapply rows_16. }
  destruct (core_few _ _ _ Hset _ _ _ _ _ _ (i_core _ _ _ _ _ _ _ _ Hi)) as (H4 & _). pose proof (c_max _ _ _ _ _ _ _ _ _ (i_core _ _ _ _ _ _ _ _ Hi)) as Hmx.
  pose proof (pending_total _ _ _ _ _ _ Hok) as Htot. set (c := concat (b_pending B)) in *. pose proof (Zlen_nonneg c). pose proof (Zlen_nonneg ps').
  assert (Zlen ps' <= 2 ^ 30) as Hps by (unfold MAX_RECS, U32 in *; lia). pose proof (so_small _ _ _ _ _ _ _ Hsec) as Hsm.
  assert (SUPER <= start_of set < 2 ^ 62 + 2 ^ 13) as Hst by (destruct Hset as (_ & _ & ?); unfold start_of, SUPER; destruct (_ <? _); lia).
  assert (Zlen table = 16 + Zlen ps' * 96) as Htl.
  { unfold table. rewrite Zlen_blk_table by (by eapply rows_16). unfold blocks. rewrite Zlen_landed; rewrite (bo_blocks _ _ _ _ _ _ Hok); [|apply (bo_pending _ _ _ _ _ _ Hok)].
    unfold block_table_len, BLK_HEADER, BLK_ENTRY, CRC_ROW, MAX_CHUNK_CRCS. lia. }
  pose proof (so_header _ _ _ _ _ _ _ Hsec) as Hhl. pose proof (Zlen_zeros (start_of set) ltac:(unfold SUPER in *; lia)) as Hz. pose proof (Zlen_zeros HEADER ltac:(done)) as Hzh.
  set (F0 := zeros (start_of set) ++ (zeros HEADER ++ rest) ++ c) in *.
  assert (Zlen F0 = at_ + Zlen c) as HF0 by (unfold F0, at_; rewrite !Zlen_app, Hz, Hzh, Hhl; lia).
  rewrite <- HF0 in Ho1.
  apply wp_bind. eapply wp_mono; [eapply (wp_place_table set w1 F0 _ table); done|]. intros [[tb tir] blk_off] w2 (-> & tail & Ho2 & Hs2 & Htail & Hcase).
  step. unfold id. rewrite Ho2, Hs2. cbn [o_file o_pos o_reserve_off].
  assert (put_range (F0 ++ tail) (start_of set) header = Some (zeros (start_of set) ++ (header ++ rest) ++ c ++ tail)) as Hput.
  { unfold F0. rewrite <- !app_assoc. by apply put_range_app; rewrite ?Hz, ?Hzh. }
  set (F1 := zeros (start_of set) ++ (header ++ rest) ++ c ++ tail) in *.
  assert (Zlen F1 = Zlen F0 + Zlen tail) as HF1 by (rewrite (put_range_len _ _ _ _ Hput); apply Zlen_app).
  apply wp_bind. eapply wp_expect; [exact Hput|]. apply wp_bind. eapply wp_require; [by apply so_hd with (1 := Hsec)|]. cbv beta iota.
  destruct (fence_span hd (Zlen (header ++ rest))) as [foff flen] eqn:Hfs.
  pose proof (fence_span_in _ _ _ _ Hfs ltac:(apply Zlen_nonneg)) as Hfi.
  pose proof (so_crc _ _ _ _ _ _ _ Hsec) as Hcr. pose proof (so_row _ _ _ _ _ _ _ Hsec) as Hrw. pose proof (so_dir _ _ _ _ _ _ _ Hsec) as Hdr.
  rewrite (proj2 (Z.eqb_neq (hd_crc_off hd) 0)) by (unfold HEADER in *; lia). cbn [negb].
  set (row_len := checksum_row_len (hd_crc_off hd) (hd_piece_shift hd) (start_of set)) in *.
  assert (0 <= reserve_of set /\ 0 <= st_head_reserve set /\ reserve_of set + st_head_reserve set <= start_of set) as (Hro1 & Hhr0 & Hro2).
  { destruct Hset as (_ & _ & ?). unfold reserve_of, start_of, SUPER in *. destruct (Z.ltb_spec 0 (st_head_reserve set)); lia. }
  pose proof (Zlen_nonneg tail). pose proof (Zlen_nonneg (header ++ rest)).
  destruct (fill_reserve_in F1 table (reserve_of set) (st_head_reserve set) (start_of set) row_len (Zlen (header ++ rest)) hd (foff, flen)) with (tir := tir)
    as (F2 & copies & Hfill & [Hl2 Hw2] & Htab);
    try (cbn [fst snd]; unfold HEADER, at_ in *; lia); [intros ->; apply Hcase|].
  apply wp_bind. eapply wp_expect; [exact Hfill|]. cbv beta iota.
  assert (0 <= blk_off < 2 ^ 63 + 2 ^ 62) as Hbo by (destruct tir; [destruct Hcase as (-> & _); unfold SUPER; lia|destruct Hcase as [? _]; unfold at_, SUPER, U32 in *; lia]).
  match goal with |- context [superblock ?fs] => set (fields := fs) end. apply wp_bind. eapply wp_expect; [by apply superblock_bytes|].
  assert (Zlen F2 = Zlen F0 + Zlen tail) as HF2 by lia. assert (SUPER <= Zlen F2) as Hsl by (unfold at_ in *; lia).
  assert (u64s fields) as Hu.
  { unfold u64s, fields, at_, SUPER in *. pose proof (Zlen_nonneg table). repeat (apply Forall_cons; split; [unfold U64, U32 in *; lia|]). by apply Forall_nil. }
  match goal with |- context [encode_super_ext ?e generation] => set (sx := e) end.
  assert (Zlen (encode_super_ext sx generation) = SX_BYTES) as Hsx by by apply Zlen_sx.
  destruct (super_page_opens fields (encode_super_ext sx generation) (Zlen F2) eq_refl Hu Hsx) as (page & Hpage & Hpl' & Hpick & Hpx); [|done|].
  { split; [change (Zlen F0 + Zlen tail <= Zlen F2); lia|done]. }
  apply wp_bind. eapply wp_expect; [exact Hpage|]. destruct (put_range_is_Some F2 0 page) as [F3 H3]; [lia|lia|].
  apply wp_bind. eapply wp_expect; [exact H3|]. unfold wp. cbn [ret]. pose proof (put_range_len _ _ _ _ H3) as Hl3.
  assert (forall a b, SUPER <= a -> get_range F3 a b = get_range F2 a b) as Hkeep by (intros a b Hab; apply (get_put_apart _ _ _ _ _ _ H3); lia).
  assert (forall a b, start_of set <= a -> get_range F3 a b = get_range F1 a b) as Hkeep1 by (intros a b Hab; rewrite Hkeep by lia; apply Hw2; lia).
  exists header, rest, f, hd, ps', B, blk_off. fold at_ blocks table c. split; [done|]. split; [done|]. split; [done|]. split; [done|].
  split; [|split; [|split; [|split]]].
  - rewrite Hkeep1 by lia. unfold F1. by apply get_range_app; rewrite ?Hz.
  - rewrite Hkeep1 by (unfold at_; lia). unfold F1. rewrite (app_assoc (zeros (start_of set))). apply get_range_app; rewrite Zlen_app, Hz; done.
  - destruct tir.
    + destruct Hcase as (-> & _ & Hrs & _). rewrite Hkeep by lia. rewrite <- Hrs. by apply Htab.
    + destruct Hcase as [Hbo2 Hg2]. rewrite Hkeep1 by (unfold at_ in *; lia). rewrite get_range_skip in Hg2 by lia.
      assert (Zlen (zeros (start_of set) ++ (header ++ rest) ++ c) = Zlen F0) as HX by (rewrite HF0, !(Zlen_app (zeros _)), Hz, Zlen_app; unfold at_; lia).
      assert (F1 = (zeros (start_of set) ++ (header ++ rest) ++ c) ++ tail) as -> by (unfold F1; by rewrite <- !app_assoc).
      rewrite get_range_skip by (rewrite HX; lia). by rewrite HX.
  - unfold at_. lia.
  - exists page. split; [|split; [lia|]].
    + pose proof (get_put_same _ _ _ _ H3) as Hg3. rewrite Z.add_0_l, Hpl' in Hg3. exact Hg3.
    + split; [rewrite Hl3, Hpick; do 2 f_equal; unfold fields; by rewrite HF2|].
      assert (ascending (map entry_key (entries (st_compact_records set) puts ets))) as Hasc.
      { rewrite entries_keys by (by destruct (c_laid _ _ _ _ _ _ _ _ _ (i_core _ _ _ _ _ _ _ _ Hi)) as (_ & ? & _)). exact (c_asc _ _ _ _ _ _ _ _ _ (i_core _ _ _ _ _ _ _ _ Hi)). }
      destruct (so_dict _ _ _ _ _ _ _ Hsec Hasc) as (offs & recs' & Hdi & _). pose proof (di_hash _ _ _ _ _ Hdi) as (Hh1 & Hh2 & Hh3).
      pose proof (fence_span_in _ _ _ _ Hfs ltac:(apply Zlen_nonneg)) as Hfi'.
      assert (sx_table_copy sx = some_if tir (blk_off, Zlen table)) as Htc by done.
      destruct Htab as [Htab Hcop].
      destruct (decode_sx_wrapped sx page generation) as [p Hdec]; [|done|done|].
      { eapply (ext_sx_ok (start_of set) (Zlen (header ++ rest)) row_len hd (foff, flen)); [exact Hcop|lia|exact Hhl|lia|lia|unfold HEADER in *; lia|unfold row_len; unfold HEADER in *; lia|cbn [fst snd]; lia|cbn [fst snd]; lia|unfold HEADER in *; lia|unfold HEADER in *; lia| |by apply Z.mod_pos_bound].
        rewrite Htc. destruct tir; cbn [some_if pos_if fst snd]; [unfold U64; lia|done]. }
      eexists. split; [exact Hdec|]. split; cbn [sx_header sx_fence sx_dir sx_row sx_table_copy sx_row_copy sx_fence_copy sx_dir_copy]; rewrite ?Hfs; try done.
      * destruct tir; done.
      * cbn [fst snd]. destruct tir; [left|right; unfold at_ in *; lia]. destruct Hcase as (-> & _ & Hrs & Hfit). fold blocks table. lia.
      * unfold at_, SUPER, U32, U64 in *. lia.
      * destruct tir.
        -- destruct Hcase as (_ & _ & Hrs & Hfit). exists (reserve_of set + Zlen table). split; [lia|]. apply (copies_keep _ _ _ _ F2); [exact Hcop|lia|unfold HEADER in *; lia|cbn [fst]; lia|unfold HEADER in *; lia|].
           intros a b Hab. apply Hkeep. lia.
        -- exists 1. split; [lia|]. unfold fill_reserve in Hfill. injection Hfill as <- <-. by split.
Qed.
