(* ===== verification/SegmentRead.v ===== *)
(** * A finished segment read back

    The reader of [Blob] over the file of [SegmentFinish]: it opens, what it
    remembers is sound, every run is served where its record says, and every
    key reads back the values it was put with, whatever the reader has read
    before. *)

From S2P Require Import Prelude State Varint Runs Crc Chunks BlockTable Records HashTable FlatIndex FlatRead FlatSection Reserve Superblock Blob BlobCache SegmentWriter SegmentHolds SegmentFinish.

#[local] Open Scope state_scope.

(** ** A chunked block as its writer left it *)

Section written.
Context (c : bytes -> bytes) (d : bytes -> bytes -> bytes * bool) (Hlz4 : lz4_roundtrips c d).
Context (p : bytes) (sums check : bool) (Hcheck : check = true -> sums = true).
Let n := div_ceil (Zlen p) CHUNK.
Let blk := chunked_bytes c p CHUNK sums.
Context (Hp : 0 < Zlen p < U32) (Hblk : Zlen blk < U32).

Lemma written_n : 0 < n <= Z.shiftl 1 20.
Proof.
  unfold n. destruct (div_ceil_spec (Zlen p) CHUNK ltac:(done) ltac:(lia)). change (Z.shiftl 1 20) with (2 ^ 20). unfold CHUNK, U32 in *. lia.
Qed.

Lemma written_head : rd_u32 blk 0 = Some CHUNK /\ rd_u32 blk 4 = Some n /\ dir_good blk n.
Proof.
  pose proof written_n as Hn. assert (0 < CHUNK < U32) as Hc by (unfold CHUNK, U32; lia).
  assert (blk = (le32 CHUNK ++ le32 n) ++ concat (map le32 (offsets 0 (stored_chunks c p CHUNK (seqZ 0 n)) ++ [w32 (Zlen (concat (stored_chunks c p CHUNK (seqZ 0 n))))])) ++
    concat (map le32 (map (sum_of sums) (stored_chunks c p CHUNK (seqZ 0 n)))) ++ concat (stored_chunks c p CHUNK (seqZ 0 n))) as E by apply blk_alt.
  split; [|split].
  - rewrite E, <- app_assoc. apply (rd_u32_app [] CHUNK); [done|lia].
  - rewrite E, <- app_assoc. apply rd_u32_app; [by zlen|]. change (Z.shiftl 1 20) with (2 ^ 20) in Hn. unfold U32. lia.
  - pose proof (blk_len c p CHUNK sums Hc) as Hl. fold n blk in Hl. pose proof (Zlen_nonneg (concat (stored_chunks c p CHUNK (seqZ 0 n)))).
    unfold dir_good, chunk_header_len in *. lia.
Qed.

Lemma written_chunk i slot : 0 <= i < n -> Zlen slot = slot_len (Zlen p) i -> chunk_value d blk n check i slot = Some (piece p CHUNK i).
Proof.
  intros Hi Hs. pose proof written_n as Hn. assert (0 < CHUNK < U32) as Hc by (unfold CHUNK, U32; lia).
  destruct (piece_ok p CHUNK ltac:(done) i Hi) as [Hpc Hlt]. pose proof (get_range_len _ _ _ _ Hpc) as Hlen. fold (slot_len (Zlen p) i) in Hlen.
  subst n blk. unfold chunk_value. rewrite !(rd_start c p CHUNK sums Hc Hn Hblk) by lia. cbn [option_bind mbind].
  destruct (get_stored c p CHUNK sums Hc Hn i _ _ Hi eq_refl eq_refl) as (H1 & H2 & H3).
  rewrite (proj2 (Z.ltb_ge _ _) H1), (proj2 (Z.ltb_ge _ _) H2). cbn [orb]. rewrite H3. cbn [option_bind mbind].
  rewrite (rd_sum c p CHUNK sums check Hc Hcheck Hblk) by done. cbn [option_bind mbind].
  pose proof (stored_cases c p CHUNK (piece p CHUNK i)) as Hcases. set (st := stored c (piece p CHUNK i)) in *.
  assert (check && negb (crc32 st =? sum_of sums st) = false) as ->.
  { unfold sum_of. destruct check; [|done]. rewrite Hcheck by done. by rewrite Z.eqb_refl. }
  destruct Hcases as [[Hs1 Hs2]|Hs2].
  - rewrite (proj2 (Z.eqb_neq _ _)) by lia. rewrite Hs2, Hlz4 by lia. done.
  - rewrite Hs2. rewrite (proj2 (Z.eqb_eq _ _)) by lia. done.
Qed.

Lemma written_steady : steady d blk (Zlen p) n check.
Proof. intros i slot Hi Hs. unfold chunk_of. by rewrite !written_chunk by (done || (apply Zlen_zeros; pose proof (Zlen_nonneg slot); lia)). Qed.

Lemma slot_len_pos i : 0 <= i < n -> 0 <= slot_len (Zlen p) i.
Proof. intros Hi. destruct (piece_ok p CHUNK ltac:(done) i Hi) as [Hpc _]. apply get_range_len in Hpc. pose proof (Zlen_nonneg (piece p CHUNK i)). unfold slot_len. lia. Qed.

Lemma written_chunk_of i : 0 <= i < n -> chunk_of d blk (Zlen p) n check i = Some (piece p CHUNK i).
Proof. intros Hi. unfold chunk_of. apply written_chunk; [done|]. apply Zlen_zeros. by apply slot_len_pos. Qed.

(** Any range of it reads back the payload's. *)
Lemma written_range a b : 0 <= a < b -> b <= Zlen p -> range_good d blk (Zlen p) check a b /\ holds_chunks d blk (Zlen p) check a b p.
Proof.
  intros Ha Hb. destruct written_head as (_ & H4 & Hg). destruct (div_ceil_spec (Zlen p) CHUNK ltac:(done) ltac:(lia)) as [Hd1 Hd2]. fold n in Hd1, Hd2.
  assert (forall j, a / CHUNK <= j <= (b - 1) / CHUNK -> 0 <= j < n) as Hj.
  { intros j Hj. pose proof (Z.div_pos a CHUNK ltac:(lia) ltac:(done)). assert ((b - 1) / CHUNK < n) by (apply Z.div_lt_upper_bound; [done|lia]). lia. }
  split.
  - exists n. split; [done|]. split; [done|]. intros j Hjj. rewrite written_chunk_of by auto. done.
  - split; [done|]. intros n' j Hn' Hjj. rewrite H4 in Hn'. injection Hn' as <-. rewrite written_chunk_of by auto.
    by destruct (piece_ok p CHUNK ltac:(done) j (Hj j Hjj)).
Qed.
End written.

(** ** The reader over a finished file *)

Section reader.
Context (lz4 : bytes -> bytes) (d : bytes -> bytes -> bytes * bool) (Hlz4 : lz4_roundtrips lz4 d) (Hd : lz4_in_place d).
Context (sums sums' : bool) (set : Settings) (key_base blk_base ts generation : Z) (puts : list Put) (ets : list (Ext * bytes)).
Context (opts : BlobOptions) (id_ : Z) (Hset : settings_ok set) (Hcheck : verify_checksums opts = true -> sums = true).
Context (file header rest : bytes) (f : FlatIndex) (hd : Header) (ps : list bytes) (B : Blocks) (blk_off : Z).
Local Abbreviation sec := (header ++ rest).
Local Abbreviation at_ := (start_of set + Zlen (header ++ rest)).
Local Abbreviation locs := (landed at_ (b_pending B) (b_blocks B)).
Local Abbreviation table := (table_bytes (b_chunk_rows B) locs).
Context (Hsec : section_ok key_base (entries (st_compact_records set) puts ets) (start_of set) header rest f hd).
Context (Hok : blocks_ok lz4 sums (st_compress set) (st_block_size set) ps B).
Context (Hpl : Forall2 (placed (ps ++ [[]]) (st_inline_max set)) puts ets) (Hps : Zlen ps <= 2 ^ 30).
Context (Hg1 : get_range file (start_of set) at_ = Some sec).
Context (Hg2 : get_range file at_ (at_ + Zlen (concat (b_pending B))) = Some (concat (b_pending B))).
Context (Hg3 : get_range file blk_off (blk_off + Zlen table) = Some table) (Hat : at_ < 2 ^ 63).
Context (Hbase : aligned blk_base BLK_HEADER = true).

Definition blob_of : Blob :=
  mkBlob (mkSec sec (start_of set)) f (mkSec table blk_off) (mkMapped BLK_HEADER (Zlen ps)) (fx_generation f) ts opts id_.

Lemma start_pos : 0 <= start_of set.
Proof. destruct Hset as (_ & _ & ?). unfold start_of, SUPER. destruct (_ <? _); lia. Qed.

Lemma Zlen_locs : Zlen locs = Zlen ps.
Proof. rewrite Zlen_landed; rewrite (bo_blocks _ _ _ _ _ _ Hok); [done|apply (bo_pending _ _ _ _ _ _ Hok)]. Qed.

Lemma locs_ok : Forall loc_ok locs.
Proof. apply (landed_ok lz4 sums (st_compress set) (st_block_size set) ps B Hok); [pose proof start_pos; pose proof (Zlen_nonneg sec); lia|unfold U32, U64; lia]. Qed.

Lemma table_small : block_table_len (Zlen locs) < U64.
Proof. rewrite Zlen_locs. unfold block_table_len, BLK_HEADER, BLK_ENTRY, CRC_ROW, MAX_CHUNK_CRCS, U64. lia. Qed.

Local Abbreviation loc_at := (loc_of blob_of blk_base).

(** The block [i] in the file: its row answers it, and its bytes are there. *)
Lemma block_read i p : get_at ps i = Some p -> exists pos loc0 row bs off, block_of lz4 sums (st_compress set) pos p = Some (loc0, row, bs) /\ Zlen p < U32 /\
  loc_at i = Ok (moved off loc0) /\ get_at (b_chunk_rows B) i = Some row /\ get_range file off (off + Zlen bs) = Some bs /\ 0 <= off /\ off + Zlen bs < U64.
Proof.
  intros Hp. destruct (block_landed lz4 sums (st_compress set) (st_block_size set) ps B Hok at_ i p Hp) as (pos & loc0 & row & bs & pre & post & Hb & Hlt & Hs & Hg & Hr).
  exists pos, loc0, row, bs, (at_ + Zlen (concat pre)). split; [done|]. split; [done|].
  pose proof start_pos. pose proof (Zlen_nonneg sec). pose proof (Zlen_nonneg (concat pre)).
  pose proof (pending_total lz4 sums (st_compress set) (st_block_size set) ps B Hok) as Ht. rewrite Hs, concat_app in Hg2, Ht. cbn [concat] in Hg2, Ht.
  rewrite !Zlen_app in Ht. pose proof (Zlen_nonneg (concat post)). pose proof (Zlen_nonneg bs). split; [|split; [done|split; [|unfold U32, U64 in *; lia]]].
  - unfold loc_of, ok_or. cbn [blob_of blob_blocks]. rewrite <- Zlen_locs. unfold blk_sec. cbn [blob_of blob_blk sec_bytes].
    rewrite (mapped_get_table (b_chunk_rows B)) with (b := moved (at_ + Zlen (concat pre)) loc0); [done|first [exact Hg|exact Hbase|apply locs_ok|apply table_small|by eapply rows_16]..].
  - pose proof (get_range_app (concat pre) bs (concat post) _ _ eq_refl eq_refl) as Hr2. pose proof (get_range_sub _ _ _ _ _ _ _ Hg2 Hr2) as Hr3.
    rewrite <- Hr3. f_equal. lia.
Qed.

Lemma block_there i loc : 0 <= i -> loc_at i = Ok loc -> exists p, get_at ps i = Some p.
Proof.
  intros Hi H. apply get_at_is_Some. split; [done|]. unfold loc_of, ok_or, mapped_get in H. cbn [blob_of blob_blocks mb_n] in H.
  destruct (Z.leb_spec (Zlen ps) i); [done|done].
Qed.

Lemma block_one i loc : 0 <= i -> loc_at i = Ok loc -> exists p pos loc0 row bs off, get_at ps i = Some p /\
  block_of lz4 sums (st_compress set) pos p = Some (loc0, row, bs) /\ Zlen p < U32 /\ loc = moved off loc0 /\
  get_at (b_chunk_rows B) i = Some row /\ get_range file off (off + Zlen bs) = Some bs /\ 0 <= off /\ off + Zlen bs < U64.
Proof.
  intros Hi Hl. destruct (block_there i loc Hi Hl) as [p Hp]. destruct (block_read i p Hp) as (pos & loc0 & row & bs & off & Hb & Hlt & Hl' & Hx).
  rewrite Hl in Hl'. injection Hl' as ->. by exists p, pos, loc0, row, bs, off.
Qed.

(** A chunk's checksum, where the row has it. *)
Lemma row_read i row j c : get_at ps i <> None -> get_at (b_chunk_rows B) i = Some row -> Forall (fun c => 0 <= c < U32) row -> get_at row j = Some c ->
  mapped_chunk_crc (blob_blocks blob_of) (blk_sec blob_of) i j = Some c.
Proof.
  intros Hi Hr Hrow Hc. unfold blk_sec. cbn [blob_of blob_blocks blob_blk sec_bytes]. rewrite <- Zlen_locs.
  apply (mapped_crc_table (b_chunk_rows B)) with (row := row); try first [exact Hr|exact Hc|apply table_small|by eapply rows_16].
  - rewrite Zlen_locs. destruct (get_at ps i) eqn:E; [by eapply get_at_lt|done].
  - apply get_at_Some in Hc as [_ Hc]. by eapply Forall_lookup_1 in Hrow.
Qed.

(** What is stored of a block, form by form. *)
Lemma form_of pos p loc0 row bs : block_of lz4 sums (st_compress set) pos p = Some (loc0, row, bs) -> Zlen p < U32 ->
  if is_plain loc0 then bs = p
  else Zlen bs < Zlen p /\ if bl_chunked loc0 then bs = chunked_bytes lz4 p CHUNK sums else bs = lz4 p.
Proof.
  intros Hb Hlt. destruct (block_of_spec lz4 sums _ _ _ _ _ _ Hb Hlt) as (H1 & H2 & H3 & _ & _ & _ & _ & _ & Hf). unfold is_plain. rewrite H1, H3.
  unfold stored_form in Hf. cbv zeta in Hf. destruct (st_compress set && (CHUNK <? Zlen p)) eqn:Ec.
  - rewrite write_chunked_bytes in Hf by done. cbn [option_bind mbind] in Hf. destruct (Z.ltb_spec (Zlen (chunked_bytes lz4 p CHUNK sums)) (Zlen p));
      cbn [default from_option id andb] in Hf; unfold id in Hf; injection Hf as Hf1 Hf2; subst bs; rewrite <- Hf2.
    + rewrite (proj2 (Z.eqb_neq _ _)) by lia. done.
    + by rewrite Z.eqb_refl.
  - assert (bs = p \/ bs = lz4 p /\ Zlen bs < Zlen p /\ bl_chunked loc0 = false) as [->|(-> & H & Hc)].
    { destruct (st_compress set); cbn [option_bind mbind] in Hf; unfold compress in Hf; [|injection Hf as <- _; by left].
      destruct (Z.ltb_spec (Zlen (lz4 p)) (Zlen p)); cbn in Hf; injection Hf as Hf1 Hf2; subst bs; [right; done|by left]. }
    + by rewrite Z.eqb_refl.
    + rewrite (proj2 (Z.eqb_neq _ _)) by lia. by rewrite Hc.
Qed.

Local Abbreviation src := (bytes_source file).

(** The block's own bytes, off the file. *)
Lemma src_block off loc0 bs raw : get_range file off (off + Zlen bs) = Some bs -> bl_stored loc0 = Zlen bs ->
  src_read src (bl_off (moved off loc0)) (bl_stored (moved off loc0)) = Some raw -> raw = bs.
Proof. cbn [moved bl_off bl_stored src_read bytes_source]. intros Hg -> Hr. rewrite Hg in Hr. by injection Hr. Qed.

Lemma chunked_payload pos p loc0 row bs : block_of lz4 sums (st_compress set) pos p = Some (loc0, row, bs) -> Zlen p < U32 ->
  is_plain loc0 = false -> bl_chunked loc0 = true -> 0 < Zlen p < U32 /\ bs = chunked_bytes lz4 p CHUNK sums /\ Zlen (chunked_bytes lz4 p CHUNK sums) < U32.
Proof.
  intros Hb Hlt Hp Hc. pose proof (form_of _ _ _ _ _ Hb Hlt) as Hf. rewrite Hp, Hc in Hf. destruct Hf as [Hlen ->]. pose proof (Zlen_nonneg (chunked_bytes lz4 p CHUNK sums)).
  split; [lia|]. split; [done|lia].
Qed.

Lemma blob_sound : sound d src blob_of blk_base.
Proof.
  split; [apply bytes_coherent|]. split; [exact Hd|]. split; [|split].
  - intros i loc Hi Hl Hc j H0 Hj. destruct (block_one i loc Hi Hl) as (p & pos & loc0 & row & bs & off & Hp & Hb & Hlt & -> & Hr & _).
    destruct (block_of_spec lz4 sums _ _ _ _ _ _ Hb Hlt) as (H1 & _ & _ & _ & _ & _ & Hrow & Hcc & _). destruct (Hcc Hc) as [_ Hrs].
    destruct (chunk_crcs_spec _ _ Hrs) as [_ Hat']. cbn [moved bl_stored] in Hj. rewrite H1 in Hj. destruct (Hat' j H0 Hj) as (x & _ & Hx).
    exists (crc32 x). eapply row_read; [by rewrite Hp|done|done|done].
  - intros i loc raw n Hi Hl Hpl' Hc Hr Hn. destruct (block_one i loc Hi Hl) as (p & pos & loc0 & row & bs & off & Hp & Hb & Hlt & -> & _ & Hg & _).
    destruct (block_of_spec lz4 sums _ _ _ _ _ _ Hb Hlt) as (H1 & _ & H3 & _). rewrite (src_block _ _ _ _ Hg H1 Hr) in *.
    destruct (chunked_payload _ _ _ _ _ Hb Hlt Hpl' Hc) as (H0 & -> & Hcl). destruct (written_head lz4 p sums H0) as (Hh0 & Hh4 & _).
    rewrite Hh4 in Hn. injection Hn as <-. cbn [moved bl_uncompressed]. rewrite H3. split; [done|]. split.
    + destruct (div_ceil_spec (Zlen p) CHUNK ltac:(done) ltac:(lia)). lia.
    + by apply written_steady.
  - intros i loc raw Hi Hl Hpl' Hc Hr s1 s2 Hs1 Hs2. destruct (block_one i loc Hi Hl) as (p & pos & loc0 & row & bs & off & Hp & Hb & Hlt & -> & _ & Hg & _).
    destruct (block_of_spec lz4 sums _ _ _ _ _ _ Hb Hlt) as (H1 & _ & H3 & _). rewrite (src_block _ _ _ _ Hg H1 Hr) in *.
    cbn [moved bl_uncompressed] in *. rewrite H3 in *. pose proof (form_of _ _ _ _ _ Hb Hlt) as Hf.
    change (is_plain (moved off loc0)) with (is_plain loc0) in Hpl'. cbn [moved bl_chunked] in Hc. rewrite Hpl', Hc in Hf. destruct Hf as [_ ->].
    by rewrite !Hlz4.
Qed.

(** Every check of a block as it was written passes. *)
Lemma block_passes i p pos loc0 row bs off a b : get_at ps i = Some p -> block_of lz4 sums (st_compress set) pos p = Some (loc0, row, bs) -> Zlen p < U32 ->
  get_at (b_chunk_rows B) i = Some row -> get_range file off (off + Zlen bs) = Some bs -> 0 <= a -> b <= Zlen bs ->
  passes src blob_of sums' i (moved off loc0) a b.
Proof.
  intros Hp Hb Hlt Hr Hg Ha Hbl. destruct (block_of_spec lz4 sums _ _ _ _ _ _ Hb Hlt) as (H1 & _ & _ & _ & H5 & _ & Hrr & Hcc & _).
  unfold passes. cbn [blob_of blob_opts]. destruct (verify_checksums opts); [|by left]. right. right. assert (bl_crc loc0 = crc32 bs) as H5' by (by rewrite H5, Hcheck). unfold by_chunks. cbn [moved bl_chunk_crc bl_stored].
  destruct (bl_chunk_crc loc0) eqn:Ec; cbn [andb].
  - destruct (Z.ltb_spec 0 (bl_stored loc0)) as [Hpos|].
    + destruct (Hcc eq_refl) as [_ Hrs]. destruct (chunk_crcs_spec _ _ Hrs) as [_ Hat']. intros j Hj.
      assert (0 <= j) as H0 by (pose proof (Z.div_pos a CHUNK Ha ltac:(done)); lia).
      assert (j * CHUNK < Zlen bs) as Hjb by (pose proof (Z.div_mod (b - 1) CHUNK ltac:(done)); pose proof (Z.mod_pos_bound (b - 1) CHUNK ltac:(done)); unfold CHUNK in *; lia).
      destruct (Hat' j H0 Hjb) as (x & Hx & Hrow). exists (crc32 x), x. split; [eapply row_read; [by rewrite Hp|done|done|done]|]. split; [|done].
      cbn [moved bl_off bl_stored src_read bytes_source]. rewrite H1. rewrite <- (get_range_sub _ _ _ _ _ _ _ Hg Hx). f_equal; lia.
    + exists bs. cbn [moved bl_off bl_stored bl_crc src_read bytes_source]. by rewrite H1, H5'.
  - exists bs. cbn [moved bl_off bl_stored bl_crc src_read bytes_source]. by rewrite H1, H5'.
Qed.

(** Every run a put's extent names is served. *)
Lemma run_served e run : 0 < Zlen run -> 0 <= e_off e -> e_len e = Zlen run -> 0 <= e_block e -> run_in (ps ++ [[]]) e run ->
  served d src blob_of blk_base sums' e run.
Proof.
  intros H0 Hoff Hlen Hblk (p & Hp & Hr). assert (get_at ps (e_block e) = Some p) as Hp'.
  { pose proof (get_at_lt _ _ _ Hp) as Hi. rewrite Zlen_app, Zlen_cons in Hi. znil. destruct (Z.lt_ge_cases (e_block e) (Zlen ps)).
    - by rewrite get_at_keep in Hp by done.
    - rewrite get_at_last in Hp by lia. injection Hp as <-. apply get_range_Some in Hr as (_ & Hr & _). rewrite (@Zlen_nil Byte.byte) in Hr. lia. }
  destruct (block_read _ p Hp') as (pos & loc0 & row & bs & off & Hb & Hlt & Hl & Hrow & Hg & Hoff0 & Hoff1).
  destruct (block_of_spec lz4 sums _ _ _ _ _ _ Hb Hlt) as (H1 & H2 & H3 & _ & H5 & _ & Hrr & Hcc & _). pose proof (form_of _ _ _ _ _ Hb Hlt) as Hf.
  rewrite Hlen in Hr. pose proof Hr as (_ & Hrp & _)%get_range_Some. pose proof (Zlen_nonneg bs).
  exists (moved off loc0). change (is_plain (moved off loc0)) with (is_plain loc0). cbn [moved bl_off bl_uncompressed bl_chunked]. rewrite H3, Hlen.
  unfold chunk_span. change (is_plain (moved off loc0)) with (is_plain loc0). cbn [moved bl_stored bl_chunk_crc]. rewrite H1, Hlen.
  destruct (is_plain loc0) eqn:Ep; cbn [negb orb].
  - subst bs. assert (sadd (e_off e) (Zlen run) = e_off e + Zlen run) as -> by (unfold sadd, U64, U32 in *; lia).
    assert (exists c0 c1, (if bl_chunk_crc loc0 then (Z.min (e_off e / CHUNK * CHUNK) (Zlen p), Z.max (Z.min (div_ceil (e_off e + Zlen run) CHUNK * CHUNK) (Zlen p))
      (Z.min (e_off e / CHUNK * CHUNK) (Zlen p))) else (0, Zlen p)) = (c0, c1) /\ 0 <= c0 <= e_off e /\ e_off e + Zlen run <= c1 <= Zlen p) as (c0 & c1 & Hspan & Hc0 & Hc1).
    { destruct (bl_chunk_crc loc0); (eexists _, _; split; [reflexivity|]); [|lia]. pose proof (Z.div_mod (e_off e) CHUNK ltac:(done)).
      pose proof (Z.mod_pos_bound (e_off e) CHUNK ltac:(done)). destruct (div_ceil_spec (e_off e + Zlen run) CHUNK ltac:(done) ltac:(lia)). unfold CHUNK in *. lia. }
    destruct (get_range_is_Some p c0 c1) as [raw Hraw]; [lia..|]. exists raw. split; [done|].
    destruct (bl_chunk_crc loc0) eqn:Ec; cbn [negb]; cbv zeta; cbv beta iota in Hspan; injection Hspan as <- <-; (split; [lia|]); (split; [cbn [bytes_source src_read]; rewrite <- (get_range_sub _ _ _ _ _ _ _ Hg Hraw); f_equal; lia|]);
      rewrite (get_range_len _ _ _ _ Hraw); (split; [lia|]); (split; [lia|]); (split; [by eapply block_passes; try done; lia|]);
      rewrite <- Hr; (match goal with |- get_range raw ?x ?y = _ => destruct (get_range_is_Some raw x y) as [z Hz] end); rewrite ?(get_range_len _ _ _ _ Hraw); try lia;
      rewrite Hz, <- (get_range_sub _ _ _ _ _ _ _ Hraw Hz); f_equal; lia.
  - exists bs. split; [done|]. split; [lia|]. split; [cbn [bytes_source src_read]; rewrite Z.add_0_r, Z.sub_0_r; exact Hg|].
    split; [done|]. destruct Hf as [Hf1 Hf2]. destruct (bl_chunked loc0) eqn:Ec.
    + destruct (chunked_payload _ _ _ _ _ Hb Hlt Ep Ec) as (Hp0 & _ & Hcl). subst bs.
      destruct (written_range lz4 d Hlz4 p sums (verify_checksums opts) Hcheck Hp0 Hcl (e_off e) (e_off e + Zlen run)) as [Hgood Hhold]; [lia|done|].
      split; [done|]. by exists p.
    + split.
      * by eapply block_passes.
      * exists p. split; [|done]. unfold block_value. rewrite Hf2, Hlz4; [done|]. apply Zlen_zeros, Zlen_nonneg.
Qed.

(** ** Opening it *)

Lemma blob_opens page len : get_range file 0 SUPER = Some page -> SUPER <= Zlen file ->
  pick_super page (Zlen file) = Ok (super_of [generation; generation; ts; start_of set; Zlen sec; Zlen sec; blk_off; Zlen table; Zlen table; 0; 0; 0; len; 0; 0; generation]) ->
  exists words, open_with src blk_base opts id_ = Some (Ok (blob_of, words)) /\ exists n, words = replicate n 0.
Proof.
  intros Hp Hl Hpick. pose proof Hsec as [_ Hparse Hver _ _ _ _ _ _].
  assert (open_head src = Ok (super_of [generation; generation; ts; start_of set; Zlen sec; Zlen sec; blk_off; Zlen table; Zlen table; 0; 0; 0; len; 0; 0; generation])) as Hh.
  { unfold open_head. cbn [bytes_source src_len]. rewrite (proj2 (Z.ltb_ge _ _)) by done. unfold read_at, open_probe. cbn [bytes_source src_read].
    rewrite Z.add_0_l, Hp. cbn [ok_or rbind]. rewrite Hpick. done. }
  unfold open_with. rewrite Hh. unfold sec_read, read_at. cbn [bytes_source src_read].
  change (sb_key_off (super_of [generation; generation; ts; start_of set; Zlen sec; Zlen sec; blk_off; Zlen table; Zlen table; 0; 0; 0; len; 0; 0; generation])) with (start_of set).
  change (sb_key_stored (super_of [generation; generation; ts; start_of set; Zlen sec; Zlen sec; blk_off; Zlen table; Zlen table; 0; 0; 0; len; 0; 0; generation])) with (Zlen sec).
  change (sb_blk_off (super_of [generation; generation; ts; start_of set; Zlen sec; Zlen sec; blk_off; Zlen table; Zlen table; 0; 0; 0; len; 0; 0; generation])) with blk_off.
  change (sb_blk_stored (super_of [generation; generation; ts; start_of set; Zlen sec; Zlen sec; blk_off; Zlen table; Zlen table; 0; 0; 0; len; 0; 0; generation])) with (Zlen table).
  change (sb_timestamp (super_of [generation; generation; ts; start_of set; Zlen sec; Zlen sec; blk_off; Zlen table; Zlen table; 0; 0; 0; len; 0; 0; generation])) with ts.
  rewrite Hg1, Hg3. cbn [ok_or rbind sec_bytes]. rewrite Hparse.
  assert ((if negb (fx_crc_off f =? 0) && verify_index opts
    then r ← verify_pieces sec (fx_crc_off f) (fx_piece_shift f) (start_of set); Some (match r with inl _ => true | inr _ => false end) else Some true) = Some true) as ->.
  { destruct (_ && _); [|done]. by rewrite Hver. }
  cbn [option_bind mbind negb].
  rewrite (mapped_parse_table (b_chunk_rows B)) by (first [apply table_small|exact Hbase|apply locs_ok|by eapply rows_16]).
  rewrite Zlen_locs. eexists. split; [done|]. by eexists.
Qed.

(** ** Reading a key *)

Context (Hputs : Forall put_ok puts) (Hasc : ascending (keys_of puts)).
Local Abbreviation es := (entries (st_compact_records set) puts ets).
Local Abbreviation ok := (cache_ok d src blob_of blk_base).

Lemma Zlen_ets : Zlen ets = Zlen puts.
Proof. pose proof (Forall2_length _ _ _ Hpl) as H. unfold Zlen. by rewrite H. Qed.

Lemma find_at (l : list entry) i e : NoDup (map entry_key l) -> get_at l i = Some e -> List.find (fun x => beqb (entry_key x) (entry_key e)) l = Some e.
Proof.
  intros Hnd He. destruct (List.find _ l) as [x|] eqn:Hf.
  - apply find_some in Hf as [Hin Hb]. apply list_elem_of_In, list_elem_of_lookup_1 in Hin as [j Hj]. destruct (beqb_spec (entry_key x) (entry_key e)) as [Ek|]; [|done].
    apply get_at_Some in He as [Hi He]. assert (j = Z.to_nat i) as ->.
    { apply (NoDup_lookup _ _ _ (entry_key e) Hnd); rewrite list_lookup_fmap; [rewrite Hj; cbn; by rewrite Ek|by rewrite He]. }
    congruence.
  - apply get_at_Some in He as [_ He]. apply list_elem_of_lookup_2, list_elem_of_In in He. pose proof (find_none _ _ Hf _ He) as Hn. cbn in Hn. by rewrite beqb_refl in Hn.
Qed.

Lemma put_reads i p et rs : get_at puts i = Some p -> get_at ets i = Some et -> ok rs ->
  exists rs', read_exts d src blob_of blk_base sums' [et.1] et.2 rs = Some (Ok (p_values p, Ok (Zlen (p_values p))), rs') /\
    (rs' = rs \/ exists r, ext_ok et.1 /\ 0 < e_len et.1 /\ with_extent d src blob_of blk_base sums' et.1 rs = Some (r, rs')).
Proof.
  intros [Hi Hp]%get_at_Some [_ He]%get_at_Some Hrs. destruct et as [e tail]. cbn [fst snd].
  pose proof (Forall2_lookup_lr _ _ _ _ _ _ Hpl Hp He) as Hplaced. pose proof (Forall_lookup_1 _ _ _ _ Hputs Hp) as Hput.
  destruct (placed_record _ _ _ _ _ false Hput Hplaced) as [[Hext _] _]. apply Forall_cons in Hext as [Hext _].
  destruct Hplaced as (run & last & flag & Hrun & Hel & Hcase). destruct Hput as (_ & Hn & Hb). unfold run_of in Hrun.
  destruct (run_shape (p_values p) Hn Hb) as (run' & last' & flag' & Hr' & _ & Hru & _ & _ & Hvals). rewrite Hrun in Hr'. injection Hr' as <- <- <-.
  assert (e_len e = Zlen run) as Hlen by (by rewrite Hel). assert (each_value run e = (p_values p, Ok (Zlen (p_values p)))) as Hv by (rewrite Hel; apply Hvals).
  pose proof (Zlen_nonneg run).
  assert (exists rs', with_run d src blob_of blk_base sums' e tail rs = Some (Ok run, rs') /\
    (rs' = rs \/ exists r, ext_ok e /\ 0 < e_len e /\ with_extent d src blob_of blk_base sums' e rs = Some (r, rs'))) as (rs' & Hw & Hrs').
  { unfold with_run. destruct (is_inlined (st_inline_max set) (Zlen run)) eqn:Ei.
    - destruct Hcase as (Hbl & Ho & ->). unfold is_inline. rewrite Hbl, Z.eqb_refl. exists rs. split; [|by left].
      unfold bind, expect, inline_run, lift. rewrite Ho, Hlen, (proj2 (cadd_Some 0 (Zlen run) (Zlen run))) by (unfold U32, U64 in *; lia).
      rewrite (proj2 (Z.leb_le _ _)), get_range_all by lia. done.
    - destruct Hcase as (_ & Hbl & Ho & Hin). assert (is_inline e = false) as Hne by (unfold is_inline; apply Z.eqb_neq; lia). rewrite Hne.
      assert (0 < Zlen run) as H0.
      { unfold is_inlined in Ei. destruct Hset as (_ & Him & _). rewrite (proj2 (Z.ltb_lt _ _) Him) in Ei. apply Z.leb_gt in Ei. lia. }
      pose proof (run_served e run H0 ltac:(lia) Hlen ltac:(lia) Hin) as Hserved.
      pose proof (extent_spec d src blob_of blk_base sums' blob_sound e rs Hext Hne ltac:(lia) Hrs) as Hspec.
      destruct (with_extent d src blob_of blk_base sums' e rs) as [[[bs|m] rs']|] eqn:Ex.
      + exists rs'. destruct Hspec as [_ Hs2]. rewrite (served_unique d src blob_of blk_base sums' e bs run Hext ltac:(lia) Hs2 Hserved). split; [done|].
        right. eexists. split; [done|]. split; [lia|done].
      + exfalso. destruct Hspec as (_ & Hno & _). exact (Hno run Hserved).
      + exfalso. destruct Hserved as (loc & raw & Hl & Hx), Hspec as (loc' & Hl' & Hy). rewrite Hl in Hl'. injection Hl' as <-. destruct (chunk_span loc e). destruct Hx as [Hx _]. cbn [fst] in Hy. lia. }
  exists rs'. split; [|done]. unfold read_exts. cbn [read_go]. rewrite Hw, Hv. unfold bind. cbn [ret]. by rewrite app_nil_r.
Qed.

Local Abbreviation seen := (reached d src blob_of blk_base sums').

(** Every key reads its values, by key and by rank, from any state a reader
    reaches; a key that was not put reads none. *)
Lemma blob_reads i p rs : get_at puts i = Some p -> seen rs ->
  exists rs', read_all d src blob_of key_base blk_base sums' (p_key p) rs = Some (Ok (p_values p, Ok (Zlen (p_values p))), rs') /\
    values_at d src blob_of key_base blk_base sums' i rs = Some (Ok (p_values p, Ok (Zlen (p_values p))), rs') /\ seen rs'.
Proof.
  intros Hp Hrs. pose proof Hsec as [_ _ _ [_ Hat' _ Hlook _] _ _ _ _ _]. pose proof Zlen_ets as Hle.
  destruct (get_at_is_Some ets i) as [et He]; [pose proof (get_at_lt _ _ _ Hp); lia|].
  pose proof (entries_at (st_compact_records set) _ _ _ _ _ Hp He) as Hent.
  destruct (put_reads i p et rs Hp He (reached_ok _ _ _ _ _ _ blob_sound Hrs)) as (rs' & Hread & Hrs'). exists rs'. split; [|split].
  - unfold read_all, blob_with_lookup. rewrite with_lookup_full. change (key_sec blob_of) with sec. change (blob_idx blob_of) with f. rewrite Hlook.
    assert (List.find (fun e => beqb (entry_key e) (p_key p)) es = Some (entry_of (st_compact_records set) p et)) as ->.
    { apply (find_at es i (entry_of (st_compact_records set) p et)); [|done]. rewrite entries_keys by done. by apply ascending_NoDup. }
    cbn [fmap option_fmap option_map entry_of default from_option id]. by rewrite exts_read_deref.
  - unfold values_at. rewrite with_record_full. change (key_sec blob_of) with sec. change (blob_idx blob_of) with f. rewrite (Hat' i _ Hent).
    cbn [fmap option_fmap option_map entry_of default from_option id]. by rewrite exts_read_deref.
  - destruct Hrs' as [->|(r & Hext & Hl & Hx)]; [done|]. by eapply reached_read.
Qed.

Lemma blob_reads_none key rs : key ∉ keys_of puts -> read_all d src blob_of key_base blk_base sums' key rs = Some (Ok ([], Ok 0), rs).
Proof.
  intros Hk. pose proof Hsec as [_ _ _ [_ _ _ Hlook _] _ _ _ _ _]. unfold read_all, blob_with_lookup. rewrite with_lookup_full.
  change (key_sec blob_of) with sec. change (blob_idx blob_of) with f. rewrite Hlook.
  destruct (List.find _ es) as [e|] eqn:Hf; [|done]. exfalso. apply Hk. apply find_some in Hf as [Hin Hb].
  destruct (beqb_spec (entry_key e) key) as [<-|]; [|done]. rewrite <- (entries_keys (st_compact_records set) puts ets Zlen_ets).
  apply list_elem_of_In in Hin. apply list_elem_of_fmap. by exists e.
Qed.

Lemma blob_keys_seek : blob_keys blob_of = Zlen puts /\ forall key, lower_bound_at (get_at (keys_of puts)) (Zlen puts) key (blob_seek blob_of key).
Proof.
  pose proof Hsec as [_ _ _ [Hn _ _ _ Hseek] _ _ _ _ _]. pose proof (entries_keys (st_compact_records set) puts ets Zlen_ets) as Hk.
  assert (Zlen es = Zlen puts) as He by (rewrite <- (Zlen_map entry_key), Hk; unfold keys_of; apply Zlen_map).
  split; [unfold blob_keys; cbn [blob_of blob_idx]; by rewrite Hn|]. intros key. rewrite <- Hk, <- He. unfold blob_seek.
  change (key_sec blob_of) with sec. change (blob_idx blob_of) with f. apply Hseek. by rewrite Hk.
Qed.
End reader.
