(* ===== verification/Segment.v ===== *)
(** * A segment, written and read

    [SegmentWriter::write_sorted] ([src/src/db.rs], lines 6338 to 6375) and
    the reader of [src/src/blob.rs] put together: what goes in comes out. *)

From S2P Require Import Prelude State Varint Runs Crc Chunks BlockTable Records HashTable FlatIndex FlatRead FlatSection Reserve Superblock Blob BlobCache SegmentWriter SegmentHolds SegmentFinish SegmentRead.

#[local] Open Scope state_scope.

(** What a segment can hold: keys in order and no longer than the format's
    width for them, runs the writer and its planner both take, and records
    within the section's. *)
Record items_ok (inline_max : Z) (compact : bool) (items : list (bytes * list bytes)) : Prop := {
  it_keys : ascending (map fst items);
  it_runs : Forall (fun '(k, vals) => Zlen k <= U16_MAX /\ Zlen vals < 2 ^ 30 /\ Zlen (prefixed vals) <= MAX_RUN) items;
  it_recs : rec_sum inline_max compact (map lens_of (puts_of items)) <= MAX_RECS
}.

Section write.
Context (im : Z) (compact : bool) (items : list (bytes * list bytes)) (Hok : items_ok im compact items).

Lemma items_keys : keys_of (puts_of items) = map fst items.
Proof. unfold keys_of, puts_of. rewrite List.map_map. apply List.map_ext. by intros []. Qed.

Lemma items_puts : Forall put_ok (puts_of items).
Proof.
  destruct Hok as [_ Hr _]. unfold puts_of. apply Forall_map. eapply Forall_impl; [exact Hr|]. intros [k vals] (H1 & H2 & H3).
  unfold put_ok. cbn [p_key p_values]. unfold MAX_RUN, U32 in *. lia.
Qed.

Lemma items_lens : map (fun '(k, vals) => (Zlen k, run_len (map (fun v : bytes => w32 (Zlen v)) vals))) items = map lens_of (puts_of items).
Proof.
  destruct Hok as [_ Hr _]. clear Hok. unfold puts_of. rewrite List.map_map. induction Hr as [|[k vals] items' (_ & _ & H) _ IH]; [done|]. cbn [map].
  f_equal; [|exact IH]. unfold lens_of. cbn [p_key p_values]. do 2 f_equal. assert (u32_lens vals) as Hv by (apply prefixed_u32_lens; unfold MAX_RUN, U32 in *; lia).
  apply List.map_ext_in. intros v Hin. unfold u32_lens in Hv. rewrite List.Forall_forall in Hv. apply Hv in Hin. pose proof (Zlen_nonneg v). apply Z.mod_small. lia.
Qed.

Lemma run_len_le vs : Zlen vs < 2 ^ 30 -> Zlen (prefixed vs) < U32 -> run_len (map Zlen vs) <= Zlen (prefixed vs).
Proof.
  intros Hn Hp. unfold run_len. destruct (run_fixed (map Zlen vs)) eqn:Ef.
  - destruct (run_shape vs Hn Hp) as (run & last & flag & He & Hl & _). unfold run_len in Hl. rewrite Ef in Hl. rewrite Hl. unfold encode_run in He. rewrite Ef in He.
    injection He as <- _ _. apply concat_le_prefixed.
  - pose proof (run_len_prefixed vs (prefixed_u32_lens vs Hp)) as Hl. unfold run_len in Hl. lia.
Qed.

Lemma items_viable : forallb viable (map lens_of (puts_of items)) = true.
Proof.
  destruct Hok as [_ Hr _]. clear Hok. unfold puts_of. induction Hr as [|[k vals] items' (H1 & H2 & H3) _ IH]; [done|]. cbn [map forallb]. rewrite IH, andb_true_r.
  unfold viable, lens_of. cbn [p_key p_values fst snd]. apply andb_true_iff. split; apply Z.leb_le; [done|].
  etrans; [apply run_len_le; [done|unfold MAX_RUN, U32 in *; lia]|done].
Qed.

Lemma items_few : 4 * Zlen items <= MAX_RECS.
Proof.
  destruct (lens_ok _ items_puts) as [Hn _]. pose proof (rec_sum_four im compact _ Hn) as H. rewrite Zlen_map in H. unfold puts_of in H at 1. rewrite Zlen_map in H.
  destruct Hok as [_ _ Hr]. lia.
Qed.

Lemma fits_small t r f d : 0 <= t < 2 ^ 58 -> 0 <= r < 2 ^ 58 -> 0 <= f < 2 ^ 58 -> 0 <= d < 2 ^ 58 -> 0 <= fits t r f d < 2 ^ 62.
Proof.
  intros. unfold fits. assert (forall n, 0 <= n -> n <= align8 n <= n + 7) as Ha.
  { intros n Hn. unfold align8. destruct (div_ceil_spec n 8 ltac:(done) Hn). lia. }
  pose proof (Ha t ltac:(lia)). pose proof (Ha (align8 t + r) ltac:(lia)). pose proof (Ha (align8 (align8 t + r) + f) ltac:(lia)). lia.
Qed.

Lemma samples_small target : 0 <= sum (fence_samples target (map lens_of (puts_of items))) <= U16_MAX * Zlen items.
Proof.
  destruct (lens_ok _ items_puts) as [Hn _]. set (keys := map lens_of (puts_of items)) in *.
  assert (Zlen keys = Zlen items) as Hk by (unfold keys, puts_of; by rewrite !Zlen_map). unfold fence_samples.
  set (st := fence_stride target (Zlen keys)). set (fn := div_ceil (Zlen keys) st). pose proof (Zlen_nonneg items).
  assert (0 <= fn <= Zlen keys) as Hfn by (pose proof (fence_n_range target (Zlen keys) ltac:(lia)) as Hf; fold st fn in Hf; lia).
  pose proof (sum_bound (map (fun i => klen_at keys (i * st)) (seqZ 0 fn)) U16_MAX) as Hb.
  rewrite Zlen_map, Zlen_seqZ in Hb by lia. enough (Forall (fun x => 0 <= x <= U16_MAX) (map (fun i => klen_at keys (i * st)) (seqZ 0 fn))) as H2
    by (specialize (Hb H2); unfold U16_MAX in *; nia).
  apply Forall_map, Forall_forall. intros i _. apply (klen_at_range keys Hn), forallb_viable, items_viable.
Qed.

(** The reserve is no part of the address space to speak of. *)
Lemma reserve_small target bs : 0 < bs < U32 ->
  0 <= reserve_bytes (planned_reserve target bs im compact (map lens_of (puts_of items))) < 2 ^ 62.
Proof.
  intros Hbs. pose proof items_few as Hf. pose proof (samples_small target) as Hs. destruct (lens_ok _ items_puts) as [Hn _].
  set (keys := map lens_of (puts_of items)) in *. assert (Zlen keys = Zlen items) as Hk by (unfold keys, puts_of; by rewrite !Zlen_map).
  pose proof (Zlen_nonneg items). pose proof (rec_sum_four im compact keys Hn). destruct Hok as [_ _ Hrec]. fold keys in Hrec.
  destruct (hash_cap_for_spec (Zlen keys) ltac:(unfold MAX_RECS, U32 in *; lia)) as (k & Hk4 & Hcap & _ & Hsz).
  assert (2 ^ k <= 2 ^ 34) as Hpow.
  { destruct Hsz as [->|Hsz]; [done|]. replace k with (Z.succ (k - 1)) by lia. rewrite Z.pow_succ_r by lia. unfold MAX_RECS, U32 in *. lia. }
  pose proof (Z.pow_pos_nonneg 2 k ltac:(lia) ltac:(lia)).
  destruct (cut_small bs im (puts_of items) ltac:(unfold U32, U64 in *; lia) items_puts) as [_ Hblocks]. fold keys in Hblocks.
  pose proof (cut_all_count bs (outlined im keys) (0, 0) 0 (runs_of_puts im _ items_puts) ltac:(done) ltac:(by left)) as Hcc.
  unfold reserve_bytes, planned_reserve. cbn [rv_table rv_row rv_fence rv_directory]. rewrite Hcap. cbn [default from_option id]. cbv zeta.
  set (fn := div_ceil (Zlen keys) (fence_stride target (Zlen keys))).
  assert (0 <= fn <= Zlen keys) as Hfn by (pose proof (fence_n_range target (Zlen keys) ltac:(lia)) as Hr; fold fn in Hr; lia).
  set (fo := if fn =? 0 then 0 else (fn + 1) * 4). assert (0 <= fo <= 4 * Zlen keys + 4) as Hfo by (unfold fo; destruct (fn =? 0); lia).
  pose proof (align_up_spec (HEADER + 2 ^ k * SLOT + Zlen keys * 4 + fo + sum (fence_samples target keys)) REC_ALIGN ltac:(done)) as Hal.
  unfold MAX_RECS, U32, U16_MAX, HEADER, SLOT, REC_ALIGN in *.
  set (recs_off := align_up _ _) in *. pose proof (row_len_small (recs_off + rec_sum im compact keys) (2 ^ PIECE_SHIFT - 1) ltac:(lia)) as Hrow.
  apply fits_small.
  - unfold blocks_of, closed_of. assert (0 <= snd (fold_left (cut_pure bs) (outlined im keys) (0, 0))) as Hpos.
    { destruct (cut_all_pure bs (outlined im keys) (0, 0)) as [_ _]; [unfold U64; lia|apply runs_of_puts, items_puts|by left|].
      generalize (outlined im keys). intros l. assert (0 <= snd (0, 0)) as Hp0 by done. revert Hp0. generalize (0, 0). induction l as [|x l IH]; intros [s c] Hp0; [done|].
      cbn [fold_left]. apply IH. unfold cut_pure. cbn [fst snd] in *. destruct (_ && _); destruct (_ <=? _); cbn [snd]; lia. }
    unfold block_table_len, BLK_HEADER, BLK_ENTRY, CRC_ROW, MAX_CHUNK_CRCS. destruct (negb _); unfold puts_of in Hblocks; rewrite Zlen_map in Hblocks; lia.
  - Z.div_mod_to_equations; lia.
  - destruct (fn =? 0); lia.
  - lia.
Qed.
End write.

(** ** What goes in comes out *)

(** What a reader of [file] answers, in any state its reads leave it in. *)
Record serves (d : bytes -> bytes -> bytes * bool) (sums : bool) (file : bytes) (key_base blk_base : Z) (B : Blob) (items : list (bytes * list bytes)) : Prop := {
  sv_keys : blob_keys B = Zlen items;
  sv_seek : forall key, lower_bound_at (get_at (map fst items)) (Zlen items) key (blob_seek B key);
  sv_read : forall i k vals rs, get_at items i = Some (k, vals) -> reached d (bytes_source file) B blk_base sums rs ->
    exists rs', read_all d (bytes_source file) B key_base blk_base sums k rs = Some (Ok (vals, Ok (Zlen vals)), rs') /\
      values_at d (bytes_source file) B key_base blk_base sums i rs = Some (Ok (vals, Ok (Zlen vals)), rs') /\
      reached d (bytes_source file) B blk_base sums rs';
  sv_none : forall key rs, key ∉ map fst items -> read_all d (bytes_source file) B key_base blk_base sums key rs = Some (Ok ([], Ok 0), rs)
}.

Section serve.
Context (lz4 : bytes -> bytes) (d : bytes -> bytes -> bytes * bool) (Hlz4 : lz4_roundtrips lz4 d) (Hd : lz4_in_place d).
Context (sums sums' : bool) (set : Settings) (key_base blk_base ts generation : Z) (opts : BlobOptions) (id_ : Z).
Context (Hset : settings_ok set) (Hcheck : verify_checksums opts = true -> sums = true) (Hbase : aligned blk_base BLK_HEADER = true).
Context (items : list (bytes * list bytes)) (Hputs : Forall put_ok (puts_of items)) (Hasc : ascending (map fst items)).

Lemma finished_serves ets file : finished_file lz4 sums set key_base ts generation (puts_of items) ets file ->
  exists B words, open_with (bytes_source file) blk_base opts id_ = Some (Ok (B, words)) /\
    serves d sums' file key_base blk_base B items /\
    forall dec at_, not_ours B at_ -> reached d (bytes_source file) B blk_base sums' (reader_of words dec at_).
Proof.
  intros (header & rest & f & hd & ps & Bs & blk_off & Hsec & Hok & Hpl & Hps & Hg1 & Hg2 & Hg3 & Hat & page & Hp & Hl & Hpick & _).
  edestruct (blob_opens lz4 sums set) with (opts := opts) (id_ := id_) as (words & Hopen & n & ->); try eassumption.
  eexists _, _. split; [exact Hopen|]. assert (Zlen (puts_of items) = Zlen items) as Hn by (unfold puts_of; apply Zlen_map).
  assert (keys_of (puts_of items) = map fst items) as Hk by (unfold keys_of, puts_of; rewrite List.map_map; apply List.map_ext; by intros []).
  split; [|intros dec at_ Hno; by apply reached_open].
  edestruct blob_keys_seek with (set := set) as [Hbk Hseek]; try eassumption; [by rewrite Hk|]. rewrite Hk, Hn in Hseek. rewrite Hn in Hbk. split; [exact Hbk|exact Hseek| |].
  - intros i k vals rs Hi Hrs. eapply (blob_reads lz4 d Hlz4 Hd) with (p := mkPut k vals false); try eassumption; [by rewrite Hk|].
    unfold puts_of. by rewrite get_at_map, Hi.
  - intros key rs Hno. eapply blob_reads_none with (set := set); try eassumption. by rewrite Hk.
Qed.
End serve.

Section whole.
Context (lz4 : bytes -> bytes) (d : bytes -> bytes -> bytes * bool) (Hlz4 : lz4_roundtrips lz4 d) (Hd : lz4_in_place d).
Context (sums sums' on compact look : bool) (target ts bs im generation key_base blk_base : Z) (opts : BlobOptions) (id_ : Z).
Context (items : list (bytes * list bytes)).

(** The file of a planned input, and its reserve. *)
Lemma written_file : 0 < target -> 0 < bs < U32 -> 0 < im -> 0 <= generation < U64 -> 0 <= ts < U64 ->
  0 <= key_base -> is_aligned key_base 4 = true -> items_ok im compact items ->
  exists file ets, let keys := map lens_of (puts_of items) in
    let reserve := reserve_bytes (planned_reserve target bs im compact keys) in
    let set := mkSettings bs im on false reserve compact look in
    write_sorted lz4 sums target ts bs im on compact look generation items = Some (Ok (reserve, file)) /\ settings_ok set /\
    finished_file lz4 sums set key_base ts generation (puts_of items) ets file.
Proof.
  intros Ht Hbs Him Hg Hts Hkb Hal Hok. pose proof (items_puts _ _ _ Hok) as Hp. pose proof (items_few _ _ _ Hok) as Hf.
  destruct (lens_ok _ Hp) as [Hn _]. pose proof (reserve_small _ _ _ Hok target bs Hbs) as Hres.
  set (keys := map lens_of (puts_of items)) in *. set (reserve := reserve_bytes _) in *. set (set := mkSettings bs im on false reserve compact look).
  assert (settings_ok set) as Hset by (split; [exact Hbs|split; [exact Him|cbn; lia]]).
  assert (Zlen keys = Zlen items) as Hk by (unfold keys, puts_of; by rewrite !Zlen_map). pose proof (Zlen_nonneg items).
  pose proof (wp_put_all lz4 sums set Hset (puts_of items) [] [] [] [] (create_with set) (inv_create _ _ _ Hset) eq_refl Hp) as Hw.
  cbn [app] in Hw. rewrite (items_keys items) in Hw. specialize (Hw (it_keys _ _ _ Hok) (it_recs _ _ _ Hok)).
  eassert (wp (do* tt := write_items lz4 sums items in finish lz4 sums target ts generation) _ (create_with set)) as Hall.
  { apply wp_bind. unfold wp in *. rewrite write_items_puts. destruct (put_all lz4 sums (puts_of items) (create_with set)) as [[[[]|] w]|]; [|done|done].
    destruct Hw as (recs & ets & ps & Hi).
    eapply (wp_mono _ _ (fun file _ => exists ets, finished_file lz4 sums set key_base ts generation (puts_of items) ets file));
      [eapply (wp_finish lz4 sums set target key_base ts generation); try eassumption; unfold set; cbn [st_head_reserve]; lia|]. intros file w' Hff. by exists ets. }
  unfold wp in Hall. unfold write_sorted. rewrite (items_lens _ _ _ Hok). fold keys.
  rewrite for_lengths_closed; [|done|unfold U32, U64 in *; lia|done|unfold MAX_RECS, U32 in *; lia].
  pose proof (items_viable _ _ _ Hok) as Hv. fold keys in Hv. rewrite Hv, (proj2 (Z.leb_le _ _)) by apply Hok. cbn [andb option_bind mbind].
  fold reserve. fold set.
  destruct ((do* tt := write_items lz4 sums items in finish lz4 sums target ts generation) (create_with set)) as [[[file|] w]|]; [|done|done].
  destruct Hall as [ets Hfin]. exists file, ets. cbn [option_bind mbind]. done.
Qed.
End whole.

(** C5: what goes in comes out, in the records-first layout (an inline limit
    above zero). For any input a segment can hold -- keys in
    order, runs within what the format says, records within the section's
    limit -- [write_sorted] neither panics nor refuses, the reserve it answers
    is the one the lengths plan, and the file it makes is one [open] accepts:
    it reports the input's keys, its seek answers the first key not below the
    one asked for, and reads by key and by rank, in any order and from
    whatever the reads before left in the reader's words and decompressed
    block, serve every key its values in the order they were put, and a key
    that was not put none. Blocks may be stored, compressed or chunked; the
    coder is any that decodes what it encoded, in place, and checksums are
    verified only where they were written. *)
Theorem segment_roundtrip lz4 d sums sums' on compact look target ts bs im generation key_base blk_base opts id_ items :
  lz4_roundtrips lz4 d -> lz4_in_place d -> (verify_checksums opts = true -> sums = true) ->
  0 < target -> 0 < bs < U32 -> 0 < im -> 0 <= generation < U64 -> 0 <= ts < U64 ->
  0 <= key_base -> is_aligned key_base 4 = true -> aligned blk_base BLK_HEADER = true -> items_ok im compact items ->
  exists file B words, let reserve := reserve_bytes (planned_reserve target bs im compact (map lens_of (puts_of items))) in
    write_sorted lz4 sums target ts bs im on compact look generation items = Some (Ok (reserve, file)) /\
    open_with (bytes_source file) blk_base opts id_ = Some (Ok (B, words)) /\
    serves d sums' file key_base blk_base B items /\
    forall dec at_, not_ours B at_ -> reached d (bytes_source file) B blk_base sums' (reader_of words dec at_).
Proof.
  intros Hl Hd Hc Ht Hbs Him Hg Hts Hkb Hal Hba Hok.
  destruct (written_file lz4 sums on compact look target ts bs im generation key_base items) as (file & ets & Hw & Hset & Hf); try done.
  edestruct (finished_serves lz4 d Hl Hd sums sums') as (B & words & Ho & Hs & Hr); try eassumption; [by eapply items_puts|by eapply it_keys|].
  exists file, B, words. split; [exact Hw|]. split; [exact Ho|]. split; [exact Hs|exact Hr].
Qed.

(** ** Three keys, at work *)

(** A coder for the witness: zeroes are one byte, all else one byte longer. *)
Definition zero_compress (x : bytes) : bytes := if beqb x (zeros (Zlen x)) then [x00] else xff :: x.
Definition zero_decompress (x dst : bytes) : bytes * bool :=
  match x with
  | x00 :: _ => (zeros (Zlen dst), true)
  | _ :: y => if Zlen y =? Zlen dst then (y, true) else (dst, false)
  | [] => (dst, false)
  end.

Lemma zero_roundtrips : lz4_roundtrips zero_compress zero_decompress.
Proof.
  intros x dst H. unfold zero_compress. destruct (beqb_spec x (zeros (Zlen x))) as [E|]; cbn [zero_decompress].
  - by rewrite H, <- E.
  - by rewrite H, Z.eqb_refl.
Qed.

Lemma zero_in_place : lz4_in_place zero_decompress.
Proof.
  intros [|c x] dst; [done|]. unfold zero_decompress. pose proof (Zlen_zeros (Zlen dst) (Zlen_nonneg dst)).
  destruct c; try done; destruct (Z.eqb_spec (Zlen x) (Zlen dst)); done.
Qed.

(** One key inlined, one in a block that compresses, one in a block that does
    not. *)
Definition three_items : list (bytes * list bytes) :=
  [([x61], [[x31]]); ([x62], [zeros 16; zeros 16]); ([x63], [[x41; x42; x43; x44; x45; x46]])].

Lemma three_ok : items_ok 4 true three_items.
Proof.
  split.
  - intros i j a b Hij Ha Hb. pose proof (get_at_lt _ _ _ Ha) as Hi. pose proof (get_at_lt _ _ _ Hb) as Hj. change (Zlen (map fst three_items)) with 3 in *.
    assert (i = 0 /\ j = 1 \/ i = 0 /\ j = 2 \/ i = 1 /\ j = 2) as [[-> ->]|[[-> ->]|[-> ->]]] by lia; vm_compute in Ha, Hb; injection Ha as <-; injection Hb as <-; by vm_compute.
  - repeat (apply Forall_cons; split; [vm_compute; split; [done|split; done]|]). by apply Forall_nil.
  - by vm_compute.
Qed.

Lemma segment_roundtrip_witness : exists file B words rs,
  write_sorted zero_compress true 16 7 32 4 true true true 1 three_items = Some (Ok (244, file)) /\
  open_with (bytes_source file) 0 blob_options_default 5 = Some (Ok (B, words)) /\
  read_all zero_decompress (bytes_source file) B 0 0 true [x62] (reader_of words [] None) = Some (Ok ([zeros 16; zeros 16], Ok 2), rs).
Proof.
  destruct (segment_roundtrip zero_compress zero_decompress true true true true true 16 7 32 4 1 0 0 blob_options_default 5 three_items)
    as (file & B & words & Hw & Ho & [_ _ Hr _] & Hreach);
    [exact zero_roundtrips|exact zero_in_place|done|lia|unfold U32; lia|lia|unfold U64; lia|unfold U64; lia|lia|done|done|exact three_ok|].
  destruct (Hr 1 [x62] [zeros 16; zeros 16] (reader_of words [] None) eq_refl (Hreach [] None I)) as (rs & Hread & _).
  exists file, B, words, rs. split; [exact Hw|]. split; [exact Ho|exact Hread].
Defined.
