(* ===== verification/Fences.v ===== *)
(** * Fences, and the cuts of a merge

    [src/src/db.rs], lines 4483 to 4521, 4760 to 4784, 5060 to 5222 and 11536
    to 11797: the half-open ranges that name partitions and pieces, whether two
    merges may run together, the fences a merge rewrites, and the [Slicer],
    which cuts a merge's distinct keys into output pieces in one pass, holding
    each key's first [FENCE_MAX] bytes. An index that the source would panic on
    is [None]. *)

From Stdlib Require Import Sorting.Sorted.
From S2P Require Import Prelude.

(** ** Ranges of keys *)

Definition FENCE_MAX : Z := 16.

(** [min_key[..min_key.len().min(FENCE_MAX)]]. *)
Definition fence_lo (min_key : bytes) : bytes := take (Z.to_nat (Z.min (Zlen min_key) FENCE_MAX)) min_key.

(** [[lo, hi)], [None] above meaning unbounded. *)
Abbreviation Fence := (bytes * option bytes)%type.

(** [hi.is_some_and(|h| k >= h)]. *)
Definition past (k : bytes) (hi : option bytes) : bool := match hi with Some h => bleb h k | None => false end.

Definition fences_overlap (a b : Fence) : bool := negb (past (fst a) (snd b)) && negb (past (fst b) (snd a)).

Definition merges_meet (a_inputs : list string) (a_fences : option (list Fence)) (b_inputs : list string) (b_fences : option (list Fence)) : bool :=
  match a_fences, b_fences with
  | Some a, Some b =>
      existsb (fun n => existsb (String.eqb n) a_inputs) b_inputs || existsb (fun f => existsb (fences_overlap f) b) a
  | _, _ => true
  end.

Definition fence_eqb (a b : Fence) : bool :=
  beqb (fst a) (fst b) && match snd a, snd b with Some x, Some y => beqb x y | None, None => true | _, _ => false end.

(** One round of the growth: every partition a piece over the fences reaches. *)
Fixpoint reach (parts : list Fence) (piece : Fence) (fences : list Fence) : list Fence :=
  match parts with
  | [] => fences
  | p :: parts => reach parts piece (if fences_overlap piece p && negb (existsb (fence_eqb p) fences) then fences ++ [p] else fences)
  end.

Fixpoint grow_round (parts pieces fences : list Fence) : list Fence :=
  match pieces with
  | [] => fences
  | piece :: pieces =>
      grow_round parts pieces (if existsb (fun f => fences_overlap piece f) fences then reach parts piece fences else fences)
  end.

Fixpoint grow_fences (fuel : nat) (parts pieces fences : list Fence) : list Fence :=
  match fuel with
  | O => fences
  | S fuel =>
      let fences' := grow_round parts pieces fences in
      if Zlen fences <? Zlen fences' then grow_fences fuel parts pieces fences' else fences'
  end.

(** [sort_by(|a, b| a.0.cmp(&b.0))], a stable sort. *)
Fixpoint insert_fence (f : Fence) (l : list Fence) : list Fence :=
  match l with
  | [] => [f]
  | g :: l' => if bltb (fst g) (fst f) then g :: insert_fence f l' else f :: l
  end.
Definition sort_fences (l : list Fence) : list Fence := fold_right insert_fence [] l.

Definition resolve_fences (parts pieces given : list Fence) : list Fence :=
  sort_fences (grow_fences (length parts) parts pieces (List.filter (fun p => existsb (fun g => fences_overlap g p) given) parts)).

(** ** The keys held *)

Record KeyList := mkKeyList { kl_bytes : bytes; kl_offs : list Z }.

Definition kl_new : KeyList := mkKeyList [] [0].
Definition kl_push (l : KeyList) (k : bytes) : KeyList := mkKeyList (kl_bytes l ++ k) (kl_offs l ++ [Zlen (kl_bytes l ++ k)]).
Definition kl_len (l : KeyList) : Z := Zlen (kl_offs l) - 1.
Definition kl_is_empty (l : KeyList) : bool := kl_len l =? 0.
Definition kl_get (l : KeyList) (i : Z) : option bytes :=
  a ← get_at (kl_offs l) i; b ← get_at (kl_offs l) (i + 1); get_range (kl_bytes l) a b.

(** The first rank whose key fails [pred]. *)
Fixpoint point_go (fuel : nat) (l : KeyList) (pred : bytes -> bool) (lo hi : Z) : option Z :=
  if lo <? hi then
    match fuel with
    | O => None
    | S fuel =>
        let mid := lo + (hi - lo) / 2 in
        k ← kl_get l mid;
        if pred k then point_go fuel l pred (mid + 1) hi else point_go fuel l pred lo mid
    end
  else Some lo.
Definition partition_point (l : KeyList) (pred : bytes -> bool) : option Z := point_go (Z.to_nat (kl_len l)) l pred 0 (kl_len l).

(** ** The cuts *)

(** [Ord::clamp], which panics where the bounds cross. *)
Definition clamp (x lo hi : Z) : option Z := if lo <=? hi then Some (Z.max lo (Z.min x hi)) else None.

Fixpoint cut_go (keys : KeyList) (from to : Z) (bounds : list bytes) (at_ : Z) (slo : bytes) (slices : list (Z * Z)) (given : list Fence)
    : option (list (Z * Z) * list Fence * Z * bytes) :=
  match bounds with
  | [] => Some (slices, given, at_, slo)
  | b :: bounds =>
      p ← partition_point keys (fun k => bltb k b);
      en ← clamp p from to;
      if at_ <? en then cut_go keys from to bounds en b (slices ++ [(at_, en)]) (given ++ [(slo, Some b)])
      else cut_go keys from to bounds at_ slo slices given
  end.

(** [given.last_mut()]'s high end. *)
Fixpoint close_last (given : list Fence) (hi : option bytes) : list Fence :=
  match given with [] => [] | [g] => [(fst g, hi)] | g :: given => g :: close_last given hi end.

Definition cut_by_bounds (keys : KeyList) (from to : Z) (fence : Fence) (bounds : list bytes) : option (list (Z * Z) * list Fence) :=
  '(slices, given, at_, slo) ← cut_go keys from to bounds from (fst fence) [] [];
  Some (if at_ <? to then (slices ++ [(at_, to)], given ++ [(slo, snd fence)]) else (slices, close_last given (snd fence))).

(** The joins between [n] pieces of [per] keys: the key at every [per]-th rank
    cut to the fence's length, one that repeats left out. *)
Fixpoint joins_go (held : KeyList) (per : Z) (ranks : list Z) (sub : list bytes) : option (list bytes) :=
  match ranks with
  | [] => Some sub
  | i :: ranks =>
      k ← kl_get held (Z.min (i * per) (kl_len held - 1));
      let b := fence_lo k in
      joins_go held per ranks (match last sub with Some p => if beqb p b then sub else sub ++ [b] | None => sub ++ [b] end)
  end.
Definition joins (held : KeyList) (n per : Z) : option (list bytes) := joins_go held per (seqZ 1 (n - 1)) [].

(** ** The slicer *)

Record Slicer := mkSlicer {
  sl_fences : option (list Fence);
  sl_parts : Z;
  sl_max_keys : Z;
  sl_fi : Z;
  sl_from : Z;
  sl_held : KeyList;
  sl_total : Z;
  sl_slices : list (Z * Z);
  sl_given : list Fence
}.

Definition slicer_new (fences : option (list Fence)) (parts max_keys : Z) : Slicer :=
  mkSlicer fences parts max_keys 0 0 kl_new 0 [] [].

Definition close_fence (s : Slicer) : option Slicer :=
  fs ← sl_fences s;
  '(lo, hi) ← get_at fs (sl_fi s);
  let held := sl_held s in
  if kl_is_empty held then
    Some (mkSlicer (sl_fences s) (sl_parts s) (sl_max_keys s) (sl_fi s + 1) (sl_from s) kl_new (sl_total s)
            (sl_slices s ++ [(sl_total s, sl_total s)]) (sl_given s ++ [(lo, hi)]))
  else
    let len := kl_len held in
    let n := Z.max (div_ceil len (Z.max (sl_max_keys s) 1)) 1 in
    let per_sub := div_ceil len n in
    sub ← joins held n per_sub;
    '(sl, g) ← cut_by_bounds held 0 len (lo, hi) sub;
    Some (mkSlicer (sl_fences s) (sl_parts s) (sl_max_keys s) (sl_fi s + 1) (sl_from s) kl_new (sl_total s)
            (sl_slices s ++ map (fun '(a, b) => (sl_from s + a, sl_from s + b)) sl) (sl_given s ++ g)).

(** The walk of the fences to the key's. *)
Fixpoint walk_fences (fuel : nat) (k : bytes) (s : Slicer) : option Slicer :=
  match get_at (default [] (sl_fences s)) (sl_fi s) with
  | None => Some s
  | Some (lo, hi) =>
      if past k hi then
        match fuel with O => None | S fuel => s ← close_fence s; walk_fences fuel k s end
      else if negb (Zlen lo =? 0) && bltb k lo then Some s
      else
        Some (mkSlicer (sl_fences s) (sl_parts s) (sl_max_keys s) (sl_fi s)
                (if kl_is_empty (sl_held s) then sl_total s else sl_from s) (kl_push (sl_held s) (fence_lo k)) (sl_total s)
                (sl_slices s) (sl_given s))
  end.

Definition slicer_push (k : bytes) (s : Slicer) : option Slicer :=
  s ← (match sl_fences s with
       | Some fs => walk_fences (length fs) k s
       | None => Some (mkSlicer (sl_fences s) (sl_parts s) (sl_max_keys s) (sl_fi s) (sl_from s) (kl_push (sl_held s) (fence_lo k)) (sl_total s)
                         (sl_slices s) (sl_given s))
       end);
  Some (mkSlicer (sl_fences s) (sl_parts s) (sl_max_keys s) (sl_fi s) (sl_from s) (sl_held s) (sl_total s + 1) (sl_slices s) (sl_given s)).

Fixpoint close_rest (fuel : nat) (s : Slicer) : option Slicer :=
  if sl_fi s <? Zlen (default [] (sl_fences s)) then
    match fuel with O => None | S fuel => s ← close_fence s; close_rest fuel s end
  else Some s.

(** The slices, their fences and the count of keys; [Some None] when no key
    was pushed. *)
Definition slicer_finish (s : Slicer) : option (option (list (Z * Z) * list Fence * Z)) :=
  if sl_total s =? 0 then Some None
  else
    match sl_fences s with
    | Some fs => s ← close_rest (length fs) s; Some (Some (sl_slices s, sl_given s, sl_total s))
    | None =>
        let len := kl_len (sl_held s) in
        let parts := Z.min (Z.max (sl_parts s) 1) len in
        let per := div_ceil len parts in
        bounds ← joins (sl_held s) parts per;
        '(sl, g) ← cut_by_bounds (sl_held s) 0 len ([], None) bounds;
        Some (Some (sl_slices s ++ sl, sl_given s ++ g, sl_total s))
    end.

Definition slice_all (fences : option (list Fence)) (parts max_keys : Z) (keys : list bytes) : option (option (list (Z * Z) * list Fence * Z)) :=
  s ← ofold (fun s k => slicer_push k s) keys (slicer_new fences parts max_keys);
  slicer_finish s.

(** ** Examples *)

Example first_partitions : slice_all None 2 4 [[x61]; [x62]; [x63]; [x64]; [x65]] =
  Some (Some ([(0, 3); (3, 5)], [([], Some [x64]); ([x64], None)], 5)).
Proof. by vm_compute. Qed.

Example partitions_cut : slice_all (Some [([], Some [x62]); ([x62], Some [x63]); ([x63], None)]) 2 2 [[x61]; [x63]; [x64]; [x65]] =
  Some (Some ([(0, 1); (1, 1); (1, 3); (3, 4)], [([], Some [x62]); ([x62], Some [x63]); ([x63], Some [x65]); ([x65], None)], 4)).
Proof. by vm_compute. Qed.

(** ** What a range holds *)

Definition in_fence (k : bytes) (f : Fence) : Prop := ble (fst f) k /\ match snd f with Some h => blt k h | None => True end.
Definition fence_ok (f : Fence) : Prop := match snd f with Some h => blt (fst f) h | None => True end.

Lemma past_spec k hi : past k hi = false <-> match hi with Some h => blt k h | None => True end.
Proof. destruct hi as [h|]; cbn; [|done]. destruct (bleb_spec h k) as [H|H]; split; try done; intros; [by apply ble_not_lt in H|by destruct (blt_or_le k h)]. Qed.

(** Two ranges meet exactly where they share a key. *)
Lemma fences_overlap_spec a b : fence_ok a -> fence_ok b -> fences_overlap a b = true <-> exists k, in_fence k a /\ in_fence k b.
Proof.
  intros Ha Hb. unfold fences_overlap. rewrite andb_true_iff, !negb_true_iff, !past_spec. split.
  - intros [H1 H2]. destruct (blt_or_le (fst a) (fst b)) as [Hlt|Hle].
    + exists (fst b). split; split; try done; [by apply blt_le|apply ble_refl].
    + exists (fst a). split; split; try done; apply ble_refl.
  - intros (k & [Hka Hka'] & [Hkb Hkb']). destruct (snd a), (snd b); split; try done; eapply ble_lt_trans; eassumption.
Qed.

(** Keys sorted, repeats allowed, and how many are below a bound. *)
Definition sorted (keys : list bytes) : Prop := StronglySorted ble keys.
Definition below (keys : list bytes) (b : bytes) : Z := Zlen (List.filter (fun k => bltb k b) keys).

Lemma below_range keys b : 0 <= below keys b <= Zlen keys.
Proof. unfold below, Zlen. pose proof (List.filter_length_le (fun k => bltb k b) keys). lia. Qed.

Lemma below_spec keys b i k : sorted keys -> get_at keys i = Some k -> (i < below keys b <-> blt k b).
Proof.
  intros Hs. revert i. induction Hs as [|x keys Hs IH Hx]; intros i Hk; [apply get_at_lt in Hk; rewrite (@Zlen_nil bytes) in Hk; lia|].
  pose proof (below_range keys b) as Hr. pose proof (get_at_lt _ _ _ Hk) as Hi. unfold below in *. cbn [List.filter].
  destruct (bltb_spec x b) as [Hb|Hb].
  - rewrite Zlen_cons. destruct (Z.eq_dec i 0) as [->|].
    + rewrite get_at_here in Hk by done. injection Hk as <-. split; [done|lia].
    + rewrite get_at_cons in Hk by lia. rewrite <- (IH (i - 1) Hk). lia.
  - assert (forall y, y ∈ keys -> ~ blt y b) as Hno.
    { intros y Hy Hyb. rewrite Forall_forall in Hx. apply Hb. eapply ble_lt_trans; [by apply Hx|done]. }
    assert (List.filter (fun k => bltb k b) keys = []) as ->.
    { clear -Hno. induction keys as [|y keys IH]; [done|]. cbn. destruct (bltb_spec y b) as [H|]; [by edestruct (Hno y); [left|]|].
      apply IH. intros z Hz. apply Hno. by right. }
    rewrite (@Zlen_nil bytes). split; [lia|]. intros Hkb. exfalso. destruct (Z.eq_dec i 0) as [->|].
    + rewrite get_at_here in Hk by done. by injection Hk as <-.
    + rewrite get_at_cons in Hk by lia. apply (Hno k); [|done]. apply get_at_Some in Hk as [_ Hk]. by eapply list_elem_of_lookup_2.
Qed.

Lemma ascending_cons k keys : ascending (k :: keys) -> ascending keys /\ Forall (blt k) keys.
Proof.
  intros H. split.
  - intros i j a b Hij Ha Hb. pose proof (get_at_lt _ _ _ Ha). apply (H (i + 1) (j + 1)); [lia|rewrite get_at_cons by lia..]; by rewrite Z.add_simpl_r.
  - apply Forall_lookup. intros i x Hx. apply (H 0 (Z.of_nat i + 1)); [lia|by rewrite get_at_here|]. rewrite get_at_cons, Z.add_simpl_r by lia. by rewrite get_at_lookup.
Qed.

Lemma ascending_sorted keys : ascending keys -> sorted keys.
Proof.
  induction keys as [|k keys IH]; intros H; [by constructor|]. apply ascending_cons in H as [H1 H2]. constructor; [by apply IH|].
  eapply Forall_impl; [exact H2|]. intros x. apply blt_le.
Qed.

(** ** Keys cut to the fence's length *)

Lemma ble_take n a b : ble a b -> ble (take n a) (take n b).
Proof.
  revert n b. induction a as [|x a IH]; intros n b H; [rewrite take_nil; apply ble_nil|]. destruct b as [|y b]; [by destruct H|].
  destruct n as [|n]; [apply ble_nil|]. unfold ble in *. cbn [take bcmp] in *. destruct (b2z x ?= b2z y); [by apply IH|done..].
Qed.

(** A key is below a cut exactly when its own first bytes are. *)
Lemma blt_take n a b : Zlen b <= Z.of_nat n -> blt (take n a) b <-> blt a b.
Proof.
  revert a b. induction n as [|n IH]; intros a b Hb.
  - assert (b = []) as -> by (apply Zlen_zero_nil; pose proof (Zlen_nonneg b); lia). cbn [take]. split; intros H; by apply blt_nil in H.
  - destruct a as [|x a]; [done|]. destruct b as [|y b]; [split; intros H; by apply blt_nil in H|]. rewrite Zlen_cons in Hb.
    unfold blt in *. cbn [take bcmp]. destruct (b2z x ?= b2z y); [apply IH; lia|done..].
Qed.

Lemma fence_lo_take k : fence_lo k = take 16 k.
Proof. unfold fence_lo, FENCE_MAX. destruct (Z.le_gt_cases (Zlen k) 16); [|f_equal; lia]. rewrite (take_ge k 16) by (unfold Zlen in *; lia). apply take_ge. unfold Zlen in *. lia. Qed.

Lemma fence_lo_len k : Zlen (fence_lo k) <= FENCE_MAX.
Proof. rewrite fence_lo_take, Zlen_take. unfold FENCE_MAX. lia. Qed.

Lemma below_short keys b : Zlen b <= FENCE_MAX -> below (map fence_lo keys) b = below keys b.
Proof.
  intros Hb. unfold below. induction keys as [|k keys IH]; [done|]. cbn [map List.filter]. 
  assert (bltb (fence_lo k) b = bltb k b) as ->.
  { rewrite fence_lo_take. pose proof (blt_take 16 k b ltac:(unfold FENCE_MAX in *; lia)). destruct (bltb_spec (take 16 k) b), (bltb_spec k b); tauto. }
  destruct (bltb k b); [by rewrite !Zlen_cons, IH|exact IH].
Qed.

Lemma sorted_short keys : sorted keys -> sorted (map fence_lo keys).
Proof.
  induction 1 as [|k keys _ IH Hk]; [by constructor|]. cbn [map]. constructor; [done|]. apply Forall_map. eapply Forall_impl; [exact Hk|].
  intros x Hx. rewrite !fence_lo_take. by apply ble_take.
Qed.

(** ** The list of keys *)

Definition kl_of (keys : list bytes) : KeyList := mkKeyList (concat keys) (starts 0 keys).

Lemma starts_snoc a keys k : starts a (keys ++ [k]) = starts a keys ++ [a + Zlen (concat (keys ++ [k]))].
Proof.
  revert a. induction keys as [|x keys IH]; intros a; cbn [app starts concat]; [by rewrite app_nil_r|].
  rewrite IH, (Zlen_app x). by rewrite Z.add_assoc.
Qed.

Lemma kl_push_of keys k : kl_push (kl_of keys) k = kl_of (keys ++ [k]).
Proof. unfold kl_push, kl_of. cbn [kl_bytes kl_offs]. rewrite starts_snoc, concat_app. cbn [concat]. by rewrite app_nil_r, Z.add_0_l. Qed.

Lemma kl_len_of keys : kl_len (kl_of keys) = Zlen keys.
Proof. unfold kl_len, kl_of. cbn [kl_offs]. rewrite Zlen_starts. lia. Qed.

Lemma kl_get_of keys i : 0 <= i -> kl_get (kl_of keys) i = get_at keys i.
Proof.
  intros Hi. unfold kl_get, kl_of. cbn [kl_bytes kl_offs]. destruct (get_at keys i) as [k|] eqn:E.
  - pose proof (get_at_lt _ _ _ E). rewrite !get_at_starts by lia. cbn [option_bind mbind]. by apply starts_range.
  - apply get_at_None in E as [|E]; [lia|]. rewrite (proj2 (get_at_None (starts 0 keys) (i + 1))) by (right; rewrite Zlen_starts; lia).
    by destruct (get_at _ _).
Qed.

Lemma point_go_of fuel keys b lo hi : sorted keys -> 0 <= lo -> lo <= below keys b <= hi -> hi <= Zlen keys -> hi - lo <= Z.of_nat fuel ->
  point_go fuel (kl_of keys) (fun k => bltb k b) lo hi = Some (below keys b).
Proof.
  intros Hs. revert lo hi. induction fuel as [|fuel IH]; intros lo hi Hlo Hb Hhi Hf; cbn [point_go].
  - rewrite (proj2 (Z.ltb_ge _ _)) by lia. f_equal. lia.
  - destruct (Z.ltb_spec lo hi); [|f_equal; lia]. assert (lo <= lo + (hi - lo) / 2 < hi) as Hm by (Z.div_mod_to_equations; lia).
    set (mid := lo + (hi - lo) / 2) in *. rewrite kl_get_of by lia. destruct (get_at_is_Some keys mid) as [k Hk]; [lia|]. rewrite Hk. cbn [option_bind mbind].
    pose proof (below_spec keys b mid k Hs Hk) as Hsp. destruct (bltb_spec k b) as [Hkb|Hkb];
      [assert (mid < below keys b) by tauto|assert (~ mid < below keys b) by tauto]; apply IH; lia.
Qed.

Lemma partition_point_of keys b : sorted keys -> partition_point (kl_of keys) (fun k => bltb k b) = Some (below keys b).
Proof.
  intros Hs. unfold partition_point. rewrite kl_len_of. pose proof (below_range keys b). apply point_go_of; [done|lia..].
Qed.

(** ** What the cuts make *)

Definition held_in (ks : list bytes) (x y : Z) (f : Fence) : Prop := forall i k, x <= i < y -> get_at ks i = Some k -> in_fence k f.

(** The slices [sl] tile the ranks from [a] to [en] and the fences [gl] the
    range from [lo] to [hi], one by one, each key inside its own. *)
Fixpoint tiles (ks : list bytes) (a : Z) (lo : bytes) (sl : list (Z * Z)) (gl : list Fence) (en : Z) (hi : option bytes) : Prop :=
  match sl, gl with
  | (x, y) :: sl, g :: gl =>
      x = a /\ x < y /\ fst g = lo /\ held_in ks x y g /\
      match sl with [] => gl = [] /\ y = en /\ snd g = hi | _ => exists m, snd g = Some m /\ tiles ks y m sl gl en hi end
  | _, _ => False
  end.

(** The same while bounds are left. *)
Fixpoint chain (ks : list bytes) (a : Z) (lo : bytes) (sl : list (Z * Z)) (gl : list Fence) (en : Z) (m : bytes) : Prop :=
  match sl, gl with
  | [], [] => a = en /\ lo = m
  | (x, y) :: sl, g :: gl => x = a /\ x < y /\ fst g = lo /\ held_in ks x y g /\ exists h, snd g = Some h /\ chain ks y h sl gl en m
  | _, _ => False
  end.

Lemma chain_tiles ks a lo sl gl en m to hi : chain ks a lo sl gl en m -> en < to -> held_in ks en to (m, hi) ->
  tiles ks a lo (sl ++ [(en, to)]) (gl ++ [(m, hi)]) to hi.
Proof.
  intros Hc Hlt Hin. revert a lo gl Hc. induction sl as [|[x y] sl IH]; intros a lo [|g gl] Hc; cbn [chain] in Hc; try done.
  - destruct Hc as [-> ->]. cbn. done.
  - destruct Hc as (Hx & Hxy & Hg & Hh & h & Hs & Hc). specialize (IH _ _ _ Hc). cbn [app tiles]. repeat (split; [done|]).
    destruct (sl ++ [(en, to)]) eqn:E; [by destruct sl|]. exists h. done.
Qed.

Lemma chain_le ks a lo sl gl en m : chain ks a lo sl gl en m -> a <= en.
Proof. revert a lo gl. induction sl as [|[x y] sl IH]; intros a lo [|g gl] Hc; cbn [chain] in Hc; try done; [lia|]. destruct Hc as (-> & Hxy & _ & _ & h & _ & Hc). apply IH in Hc. lia. Qed.

Lemma chain_close ks a lo sl gl en m hi : chain ks a lo sl gl en m -> sl <> [] ->
  (forall i k, a <= i < en -> get_at ks i = Some k -> match hi with Some h => blt k h | None => True end) ->
  tiles ks a lo sl (close_last gl hi) en hi.
Proof.
  revert a lo gl. induction sl as [|[x y] sl IH]; intros a lo [|g gl] Hc Hne Hlt; cbn [chain] in Hc; try done.
  destruct Hc as (-> & Hxy & Hg & Hh & h & Hs & Hc). pose proof (chain_le _ _ _ _ _ _ _ Hc). destruct sl as [|s sl].
  - destruct gl; [|done]. destruct Hc as [-> ->]. cbn. split; [done|]. split; [done|]. split; [done|]. split; [|done].
    intros i k Hi Hk. split; [by apply (Hh i)|]. by apply (Hlt i).
  - destruct gl as [|g' gl]; [by destruct s|]. specialize (IH _ _ _ Hc ltac:(done) ltac:(intros; eapply Hlt; [|done]; lia)).
    cbn [tiles close_last]. repeat (split; [done|]). by exists h.
Qed.

Lemma cut_go_spec ks bounds : sorted ks -> Forall (fun b => Zlen b <= FENCE_MAX) bounds -> forall at_ slo slices given,
  0 <= at_ <= Zlen ks -> (forall i k, at_ <= i -> get_at ks i = Some k -> ble slo k) ->
  exists sl gl en m, cut_go (kl_of (map fence_lo ks)) 0 (Zlen ks) bounds at_ slo slices given = Some (slices ++ sl, given ++ gl, en, m) /\
    chain ks at_ slo sl gl en m /\ at_ <= en <= Zlen ks /\ (forall i k, en <= i -> get_at ks i = Some k -> ble m k) /\ (sl = [] -> en = at_ /\ m = slo).
Proof.
  intros Hs. induction 1 as [|b bounds Hb _ IH]; intros at_ slo slices given Ha Hge; cbn [cut_go].
  - exists [], [], at_, slo. rewrite !app_nil_r. split; [done|]. split; [done|]. split; [lia|]. done.
  - rewrite partition_point_of by (by apply sorted_short). cbn [option_bind mbind]. rewrite below_short by done. pose proof (below_range ks b) as Hr.
    unfold clamp. rewrite (proj2 (Z.leb_le _ _)) by lia. cbn [option_bind mbind]. rewrite Z.min_l, Z.max_r by lia. destruct (Z.ltb_spec at_ (below ks b)) as [Hlt|Hle].
    + destruct (IH (below ks b) b (slices ++ [(at_, below ks b)]) (given ++ [(slo, Some b)])) as (sl & gl & en & m & Hc & Hch & Hen & Hm & _); [lia| |].
      { intros i k Hi Hk. apply ble_not_lt. intros Hkb. apply (below_spec _ _ _ _ Hs Hk) in Hkb. lia. }
      exists ((at_, below ks b) :: sl), ((slo, Some b) :: gl), en, m. rewrite Hc, <- !app_assoc. split; [done|]. split; [|split; [lia|split; [done|done]]].
      cbn [chain]. split; [done|]. split; [done|]. split; [done|]. split; [|by exists b].
      intros i k Hi Hk. split; [apply (Hge i); [lia|done]|]. cbn. apply (below_spec _ _ _ _ Hs Hk). lia.
    + by apply IH.
Qed.

Lemma cut_by_bounds_spec ks f bounds : sorted ks -> 0 < Zlen ks -> Forall (fun k => in_fence k f) ks -> Forall (fun b => Zlen b <= FENCE_MAX) bounds ->
  exists sl gl, cut_by_bounds (kl_of (map fence_lo ks)) 0 (Zlen ks) f bounds = Some (sl, gl) /\ tiles ks 0 (fst f) sl gl (Zlen ks) (snd f).
Proof.
  intros Hs Hpos Hin Hb. unfold cut_by_bounds. assert (forall i k, get_at ks i = Some k -> in_fence k f) as Hall.
  { intros i k [_ Hk]%get_at_Some. by eapply Forall_lookup_1 in Hin. }
  destruct (cut_go_spec ks bounds Hs Hb 0 (fst f) [] []) as (sl & gl & en & m & Hc & Hch & Hen & Hm & Hnil); [lia|by intros i k _ Hk; apply (Hall i)|].
  rewrite Hc. cbn [option_bind mbind app]. destruct (Z.ltb_spec en (Zlen ks)).
  - eexists _, _. split; [done|]. apply chain_tiles with (m := m); [done|done|]. intros i k Hi Hk. split; [by apply (Hm i); [lia|]|]. by apply (Hall i).
  - assert (en = Zlen ks) as -> by lia. eexists _, _. split; [done|]. eapply chain_close; [exact Hch| |].
    + intros ->. destruct Hnil; [done|]. lia.
    + intros i k _ Hk. by apply (Hall i).
Qed.

Lemma joins_spec ks n per : 0 < Zlen ks -> 0 <= per -> exists bounds, joins (kl_of (map fence_lo ks)) n per = Some bounds /\ Forall (fun b => Zlen b <= FENCE_MAX) bounds.
Proof.
  intros Hpos Hper. unfold joins. assert (Forall (fun i => 0 <= i) (seqZ 1 (n - 1))) as Hr by (apply Forall_forall; intros i Hi%elem_of_seqZ; lia).
  assert (Forall (fun b => Zlen b <= FENCE_MAX) (@nil bytes)) as Hs by done. revert Hr Hs. generalize (@nil bytes). generalize (seqZ 1 (n - 1)).
  induction l as [|i l IH]; intros sub Hr Hs; cbn [joins_go]; [by exists sub|]. apply Forall_cons in Hr as [Hi Hr]. rewrite kl_len_of, Zlen_map.
  assert (0 <= i * per) by nia. rewrite kl_get_of by lia. destruct (get_at_is_Some (map fence_lo ks) (Z.min (i * per) (Zlen ks - 1))) as [k ->]; [rewrite Zlen_map; lia|].
  cbn [option_bind mbind]. apply IH; [done|]. pose proof (fence_lo_len k). destruct (last sub) as [p|]; [destruct (beqb p _)|]; try done; apply Forall_app; split; try done; by apply Forall_singleton.
Qed.

(** ** The slices of one fence among the keys *)

Definition low_rank (ks : list bytes) (f : Fence) : Z := below ks (fst f).
Definition high_rank (ks : list bytes) (f : Fence) : Z := match snd f with Some h => below ks h | None => Zlen ks end.

(** A fence's pieces: the tiling of its keys and its range, or where it holds
    no key one empty piece, at the rank the keys of it would have. *)
Definition fence_cut (ks : list bytes) (f : Fence) (sl : list (Z * Z)) (gl : list Fence) : Prop :=
  low_rank ks f < high_rank ks f /\ tiles ks (low_rank ks f) (fst f) sl gl (high_rank ks f) (snd f) \/
  low_rank ks f = high_rank ks f /\ sl = [(high_rank ks f, high_rank ks f)] /\ gl = [f].

Inductive fences_cut (ks : list bytes) : list Fence -> list (Z * Z) -> list Fence -> Prop :=
| fences_cut_nil : fences_cut ks [] [] []
| fences_cut_snoc fs sl gl f sl' gl' : fences_cut ks fs sl gl -> fence_cut ks f sl' gl' -> fences_cut ks (fs ++ [f]) (sl ++ sl') (gl ++ gl').

(** Fences in order, none reaching into the next. *)
Definition fences_sorted (fs : list Fence) : Prop :=
  Forall fence_ok fs /\ forall i f g, fs !! i = Some f -> fs !! S i = Some g -> exists h, snd f = Some h /\ ble h (fst g).

(** ** The slicer's walk *)

Lemma tiles_more ks ks' a lo sl gl en hi : tiles ks a lo sl gl en hi -> en <= Zlen ks -> tiles (ks ++ ks') a lo sl gl en hi.
Proof.
  intros Ht Hen. revert a lo gl Ht. induction sl as [|[x y] sl IH]; intros a lo [|g gl] Ht; cbn [tiles] in *; try done.
  destruct Ht as (-> & Hxy & Hg & Hh & Hr). repeat (split; [done|]).
  assert (y <= en) as Hy.
  { destruct sl; [lia|]. destruct Hr as (m & _ & Hr). clear -Hr. revert y m gl Hr. generalize p. induction sl as [|q sl IH]; intros [u v] y m [|g gl] Hr; cbn [tiles] in Hr; try done; destruct Hr as (-> & ? & _ & _ & Hr); [lia|].
    destruct Hr as (m' & _ & Hr). apply IH in Hr. lia. }
  split; [intros i k Hi Hk; rewrite get_at_keep in Hk by lia; by apply (Hh i)|]. destruct sl; [done|]. destruct Hr as (m & Hm & Hr). exists m. split; [done|]. by apply IH.
Qed.

Lemma tiles_shift pre ks a lo sl gl en hi : tiles ks a lo sl gl en hi -> 0 <= a ->
  tiles (pre ++ ks) (Zlen pre + a) lo (map (fun '(x, y) => (Zlen pre + x, Zlen pre + y)) sl) gl (Zlen pre + en) hi.
Proof.
  revert a lo gl. induction sl as [|[x y] sl IH]; intros a lo [|g gl] Ht Ha; cbn [tiles map] in *; try done.
  destruct Ht as (-> & Hxy & Hg & Hh & Hr). split; [done|]. split; [lia|]. split; [done|]. split.
  - intros i k Hi Hk. apply (Hh (i - Zlen pre)); [lia|]. rewrite get_at_skip in Hk by lia. done.
  - destruct sl as [|s sl]; cbn [map]; [naive_solver|]. destruct Hr as (m & Hm & Hr). exists m. split; [done|]. apply IH; [done|lia].
Qed.

Lemma below_app ks ks' b : below (ks ++ ks') b = below ks b + below ks' b.
Proof. unfold below. by rewrite List.filter_app, Zlen_app. Qed.

Lemma below_none ks b : Forall (fun k => ble b k) ks -> below ks b = 0.
Proof.
  unfold below. induction 1 as [|k ks Hk _ IH]; [done|]. cbn [List.filter]. destruct (bltb_spec k b) as [H|]; [|done]. by apply ble_not_lt in Hk.
Qed.

Lemma below_all ks b : Forall (fun k => blt k b) ks -> below ks b = Zlen ks.
Proof.
  unfold below. induction 1 as [|k ks Hk _ IH]; [done|]. cbn [List.filter]. destruct (bltb_spec k b) as [H|]; [|done]. by rewrite !Zlen_cons, IH.
Qed.

(** Keys past a fence's end leave its cut as it was. *)
Lemma fence_cut_more ks k f h sl gl : fence_ok f -> snd f = Some h -> ble h k -> fence_cut ks f sl gl -> fence_cut (ks ++ [k]) f sl gl.
Proof.
  intros Hf Hh Hk. unfold fence_ok in Hf. rewrite Hh in Hf. assert (forall b, ble b h -> below (ks ++ [k]) b = below ks b) as Hb.
  { intros b Hbh. rewrite below_app, (below_none [k]); [lia|]. apply Forall_singleton. by eapply ble_trans. }
  unfold fence_cut, low_rank, high_rank. rewrite Hh, !Hb by (apply ble_refl || by apply blt_le). intros [[Hlt Ht]|Hr]; [left|right; done].
  split; [done|]. apply tiles_more; [done|]. pose proof (below_range ks h). lia.
Qed.

Lemma fences_cut_more ks k fs sl gl : Forall fence_ok fs -> Forall (fun f => exists h, snd f = Some h /\ ble h k) fs ->
  fences_cut ks fs sl gl -> fences_cut (ks ++ [k]) fs sl gl.
Proof.
  intros Hok Hall H. induction H as [|fs sl gl f sl' gl' _ IH Hc]; [constructor|]. apply Forall_app in Hok as [Hok Hf]. apply Forall_app in Hall as [Hall Hh].
  apply Forall_cons in Hf as [Hf _]. apply Forall_cons in Hh as [(h & Hh & Hk) _]. constructor; [by apply IH|]. by eapply fence_cut_more.
Qed.

Section slicer.
Context (fs : list Fence) (parts max_keys : Z) (Hfs : fences_sorted fs).

(** The keys so far are those of the fences closed or of none, and those of
    the fence being walked, held cut short. *)
Definition walking (ks : list bytes) (s : Slicer) : Prop := exists pre hk from sl gl j,
  ks = pre ++ hk /\ s = mkSlicer (Some fs) parts max_keys (Z.of_nat j) from (kl_of (map fence_lo hk)) (Zlen ks) sl gl /\
  (hk <> [] -> from = Zlen pre) /\ (j <= length fs)%nat /\ fences_cut ks (take j fs) sl gl /\
  match fs !! j with Some f => Forall (fun k => blt k (fst f)) pre /\ Forall (fun k => in_fence k f) hk | None => hk = [] end.

Lemma closed_past j f g k : fs !! j = Some f -> ble (fst f) k -> g ∈ take j fs -> exists h, snd g = Some h /\ ble h k.
Proof.
  intros Hf Hk [i Hi]%list_elem_of_lookup. apply lookup_take_Some in Hi as [Hi Hij]. destruct Hfs as [Hok Hadj].
  revert f k Hf Hk. induction j as [|j IH]; intros f k Hf Hk; [lia|]. destruct (fs !! j) as [f'|] eqn:E.
  2:{ apply lookup_ge_None in E. apply lookup_lt_Some in Hf. lia. }
  destruct (Hadj j f' f E Hf) as (h & Hh & Hhf). destruct (Nat.eq_dec i j) as [->|].
  - pose proof (eq_trans (eq_sym E) Hi) as [= <-]. exists h. split; [done|]. by eapply ble_trans.
  - apply (IH ltac:(lia) f' k eq_refl). eapply Forall_lookup_1 in Hok; [|exact E]. unfold fence_ok in Hok. rewrite Hh in Hok.
    apply blt_le. eapply blt_le_trans; [exact Hok|]. by eapply ble_trans.
Qed.

Lemma close_fence_spec ks s : ascending ks -> walking ks s -> forall f, fs !! Z.to_nat (sl_fi s) = Some f ->
  match snd f with Some h => True | None => S (Z.to_nat (sl_fi s)) = length fs end ->
  exists s', close_fence s = Some s' /\ walking ks s' /\ sl_fi s' = sl_fi s + 1.
Proof.
  intros Ha (pre & hk & from & sl & gl & j & Hks & -> & Hfrom & Hj & Hcut & Hat) f Hf Hhi. cbn [sl_fi] in *. rewrite Nat2Z.id in Hf, Hhi. rewrite Hf in Hat.
  destruct Hat as [Hpre Hhk]. pose proof Hfs as [Hok Hadj]. pose proof (Forall_lookup_1 _ _ _ _ Hok Hf) as Hfok. pose proof (lookup_lt_Some _ _ _ Hf) as Hlt.
  assert (low_rank ks f = Zlen pre) as Hlow.
  { unfold low_rank. rewrite Hks, below_app, (below_all pre), (below_none hk); [lia|eapply Forall_impl; [exact Hhk|]; by intros k [? _]|done]. }
  assert (high_rank ks f = Zlen ks) as Hhigh.
  { unfold high_rank, fence_ok in *. destruct (snd f) as [h|] eqn:Eh; [|done]. apply below_all. rewrite Hks. apply Forall_app. split.
    - eapply Forall_impl; [exact Hpre|]. intros k Hk. cbv beta in *. by eapply blt_trans.
    - eapply Forall_impl; [exact Hhk|]. intros k [_ Hk]. by rewrite Eh in Hk. }
  unfold close_fence. cbn [sl_fences sl_fi sl_held sl_total sl_slices sl_given sl_parts sl_max_keys sl_from]. cbn [option_bind mbind].
  rewrite (proj2 (get_at_Some fs (Z.of_nat j) f)) by (rewrite Nat2Z.id; split; [lia|done]). cbn [option_bind mbind]. destruct f as [lo hi].
  assert (forall sl' gl', fence_cut ks (lo, hi) sl' gl' -> walking ks (mkSlicer (Some fs) parts max_keys (Z.of_nat j + 1) from kl_new (Zlen ks) (sl ++ sl') (gl ++ gl'))) as Hgo.
  { intros sl' gl' Hc. exists ks, [], from, (sl ++ sl'), (gl ++ gl'), (S j). split; [by rewrite app_nil_r|]. split; [f_equal; lia|]. split; [done|]. split; [lia|].
    split; [rewrite (take_S_r _ _ _ Hf); by constructor|]. destruct (fs !! S j) as [g|] eqn:Eg; [|done]. split; [|done].
    destruct (Hadj j _ _ Hf Eg) as (h & Hh & Hhg). cbn [snd] in Hh. subst hi. unfold fence_ok in Hfok. rewrite Hks. apply Forall_app. split.
    - eapply Forall_impl; [exact Hpre|]. intros k Hk. cbn in *. eapply blt_le_trans; [|exact Hhg]. exact (blt_trans _ _ _ Hk Hfok).
    - eapply Forall_impl; [exact Hhk|]. intros k [_ Hk]. cbn in *. by eapply blt_le_trans. }
  unfold kl_is_empty. rewrite kl_len_of, Zlen_map. destruct (Z.eqb_spec (Zlen hk) 0) as [Hz|Hz].
  - eexists. split; [done|]. split; [|done]. apply Hgo. right. apply Zlen_zero_nil in Hz as ->. rewrite app_nil_r in Hks. rewrite Hlow, Hhigh, Hks. done.
  - pose proof (Zlen_nonneg hk). assert (sorted hk) as Hs.
    { apply ascending_sorted. rewrite Hks in Ha. clear -Ha. revert Ha. induction pre as [|k pre IH]; [done|]. intros [H _]%ascending_cons. by apply IH. }
    destruct (joins_spec hk (Z.max (div_ceil (Zlen hk) (Z.max max_keys 1)) 1) (div_ceil (Zlen hk) (Z.max (div_ceil (Zlen hk) (Z.max max_keys 1)) 1)) ltac:(lia)) as (bounds & Hj' & Hb).
    { unfold div_ceil. apply Z.div_pos; lia. }
    rewrite Hj'. cbn [option_bind mbind]. destruct (cut_by_bounds_spec hk (lo, hi) bounds Hs ltac:(lia) Hhk Hb) as (sl' & gl' & Hc & Ht). rewrite Hc. cbn [option_bind mbind].
    eexists. split; [done|]. split; [|done]. apply Hgo. left. rewrite Hlow, Hhigh. cbn [fst snd] in *. assert (hk <> []) as Hne by (by intros ->). rewrite (Hfrom Hne).
    rewrite Hks, Zlen_app. split; [lia|]. replace (Zlen pre) with (Zlen pre + 0) at 1 by lia. by apply tiles_shift.
Qed.

(** Every fence closed ends at or below [k]. *)
Definition passed (k : bytes) (s : Slicer) : Prop := forall g, g ∈ take (Z.to_nat (sl_fi s)) fs -> exists h, snd g = Some h /\ ble h k.

Definition bump (s : Slicer) : Slicer :=
  mkSlicer (sl_fences s) (sl_parts s) (sl_max_keys s) (sl_fi s) (sl_from s) (sl_held s) (sl_total s + 1) (sl_slices s) (sl_given s).

Lemma last_above ks k x : ascending (ks ++ [k]) -> x ∈ ks -> blt x k.
Proof.
  intros Ha [i Hi]%list_elem_of_lookup. pose proof (lookup_lt_Some _ _ _ Hi). apply (Ha (Z.of_nat i) (Zlen ks)); [unfold Zlen; lia| |by apply get_at_app_mid].
  rewrite get_at_keep by (unfold Zlen; lia). by rewrite get_at_lookup.
Qed.

Lemma ascending_prefix a b : ascending (a ++ b) -> ascending a.
Proof. intros H i j x y Hij Hx Hy. pose proof (get_at_lt _ _ _ Hx). pose proof (get_at_lt _ _ _ Hy). apply (H i j); [done|by rewrite get_at_keep by lia..]. Qed.

Lemma passed_cut ks k s sl gl : passed k s -> fences_cut ks (take (Z.to_nat (sl_fi s)) fs) sl gl -> fences_cut (ks ++ [k]) (take (Z.to_nat (sl_fi s)) fs) sl gl.
Proof.
  intros Hp. apply fences_cut_more; [by apply Forall_take, Hfs|]. apply Forall_forall. exact Hp.
Qed.

Lemma walk_spec fuel ks k s : ascending (ks ++ [k]) -> walking ks s -> passed k s -> (length fs - Z.to_nat (sl_fi s) <= fuel)%nat ->
  exists s1, walk_fences fuel k s = Some s1 /\ walking (ks ++ [k]) (bump s1) /\ passed k s1.
Proof.
  intros Ha. revert s. induction fuel as [|fuel IH]; intros s Hw Hp Hf; pose proof Hw as (pre & hk & from & sl & gl & j & Hks & Hs & Hfrom & Hj & Hcut & Hat).
  all: assert (sl_fi s = Z.of_nat j) as Hfi by (by rewrite Hs). all: assert (Hcut' : fences_cut (ks ++ [k]) (take j fs) sl gl)
    by (pose proof (passed_cut ks k s sl gl Hp) as Hc; rewrite Hfi, Nat2Z.id in Hc; by apply Hc).
  all: assert (sl_fences s = Some fs) as Hsf by (by rewrite Hs). all: unfold passed in Hp; rewrite Hfi, Nat2Z.id in Hp, Hf.
  all: cbn [walk_fences]; rewrite Hsf, Hfi; cbn [default from_option id]; unfold id; rewrite get_at_lookup.
  all: assert (Hstop : hk = [] -> (forall f, fs !! j = Some f -> blt k (fst f)) -> walking (ks ++ [k]) (bump s)).
  1,3: intros -> Hb; rewrite app_nil_r in Hks; exists (ks ++ [k]), [], from, sl, gl, j; split; [by rewrite app_nil_r|]; split;
    [rewrite Hs; unfold bump; cbn; f_equal; rewrite Zlen_app; done|]; split; [done|]; split; [done|]; split; [done|];
    destruct (fs !! j) as [f|] eqn:Ef; [|done]; split; [|done]; rewrite Hks; apply Forall_app; split; [apply Hat|]; apply Forall_singleton; by apply Hb.
  - rewrite (lookup_ge_None_2 fs j) in * by lia. exists s. split; [done|]. split; [|unfold passed; by rewrite Hfi, Nat2Z.id]. by apply Hstop.
  - destruct (fs !! j) as [[lo hi]|] eqn:Ef.
    2:{ exists s. split; [done|]. split; [|unfold passed; by rewrite Hfi, Nat2Z.id]. by apply Hstop. }
    destruct (past k hi) eqn:Ep.
    + destruct hi as [h|]; [|done]. cbn [past] in Ep. destruct (bleb_spec h k) as [Hhk|]; [|done].
      destruct (close_fence_spec ks s (ascending_prefix _ _ Ha) Hw (lo, Some h)) as (s' & Hc & Hw' & Hfi'); [by rewrite Hfi, Nat2Z.id|done|]. rewrite Hc. cbn [option_bind mbind].
      apply IH; [done| |rewrite Hfi', Hfi; lia]. unfold passed. rewrite Hfi', Hfi. replace (Z.to_nat (Z.of_nat j + 1)) with (S j) by lia.
      rewrite (take_S_r _ _ _ Ef). intros g [Hg|Hg%list_elem_of_singleton]%elem_of_app; [by apply Hp|]. subst g. by exists h.
    + apply past_spec in Ep. cbn [fst snd] in Hat. destruct Hat as [Hpre Hhk].
      assert (bltb k lo = negb (Zlen lo =? 0) && bltb k lo) as <-.
      { destruct (Z.eqb_spec (Zlen lo) 0) as [Hz|]; [|done]. apply Zlen_zero_nil in Hz as ->. cbn [negb andb]. destruct (bltb_spec k []) as [H|]; [|done]. by apply blt_nil in H. }
      destruct (bltb_spec k lo) as [Hlo|Hlo].
      * exists s. split; [done|]. split; [|unfold passed; by rewrite Hfi, Nat2Z.id]. apply Hstop; [|intros f [= <-]; done].
        destruct hk as [|x hk]; [done|]. exfalso. apply Forall_cons in Hhk as [[Hx _] _]. cbn [fst] in Hx. apply ble_not_lt in Hx. apply Hx. eapply blt_trans; [|exact Hlo].
        apply (last_above ks k); [done|]. rewrite Hks. apply elem_of_app. right. left.
      * eexists. split; [done|]. split; [|unfold passed; cbn [sl_fi]; by rewrite Nat2Z.id].
        exists pre, (hk ++ [k]), (if kl_is_empty (sl_held s) then sl_total s else sl_from s), sl, gl, j. split; [by rewrite Hks, app_assoc|].
        split; [rewrite Hs; unfold bump; cbn; f_equal; [rewrite kl_push_of; f_equal; by rewrite map_app|rewrite Zlen_app; done]|].
        split; [|split; [done|split; [done|]]].
        -- intros _. rewrite Hs. cbn. unfold kl_is_empty. rewrite kl_len_of, Zlen_map. destruct (Z.eqb_spec (Zlen hk) 0) as [Hz|Hz].
           ++ apply Zlen_zero_nil in Hz as ->. by rewrite Hks, app_nil_r.
           ++ apply Hfrom. by intros ->.
        -- rewrite Ef. split; [done|]. apply Forall_app. split; [done|]. apply Forall_singleton. split; [|done]. cbn [fst]. by apply ble_not_lt.
Qed.

(** The walk's state, and that what it passed it passed by a key. *)
Definition walked (ks : list bytes) (s : Slicer) : Prop := walking ks s /\ forall g, g ∈ take (Z.to_nat (sl_fi s)) fs -> exists h x, snd g = Some h /\ x ∈ ks /\ ble h x.

Lemma push_walked ks k s : ascending (ks ++ [k]) -> walked ks s -> exists s', slicer_push k s = Some s' /\ walked (ks ++ [k]) s'.
Proof.
  intros Ha [Hw Hq]. assert (passed k s) as Hp.
  { intros g Hg. destruct (Hq g Hg) as (h & x & Hh & Hx & Hle). exists h. split; [done|]. apply blt_le. eapply ble_lt_trans; [exact Hle|]. by eapply last_above. }
  destruct (walk_spec (length fs) ks k s Ha Hw Hp) as (s1 & H1 & Hw1 & Hp1); [lia|]. unfold slicer_push.
  pose proof Hw as (pre & hk & from & sl & gl & j & _ & Hs & _). assert (sl_fences s = Some fs) as -> by (by rewrite Hs). rewrite H1. cbn [option_bind mbind].
  eexists. split; [done|]. split; [exact Hw1|]. intros g Hg. destruct (Hp1 g Hg) as (h & Hh & Hle). exists h, k. split; [done|]. split; [|done]. apply elem_of_app. right. by left.
Qed.

Lemma push_all_walked rest ks s : ascending (ks ++ rest) -> walked ks s -> exists s', ofold (fun s k => slicer_push k s) rest s = Some s' /\ walked (ks ++ rest) s'.
Proof.
  revert ks s. induction rest as [|k rest IH]; intros ks s Ha Hw; cbn [ofold]; [exists s; by rewrite app_nil_r|].
  rewrite (app_assoc ks [k] rest : ks ++ k :: rest = (ks ++ [k]) ++ rest) in *. destruct (push_walked ks k s) as (s' & -> & Hw'); [by eapply ascending_prefix|done|].
  cbn [option_bind mbind]. by apply IH.
Qed.

Lemma close_rest_spec fuel ks s : ascending ks -> walking ks s -> (length fs - Z.to_nat (sl_fi s) <= fuel)%nat ->
  exists s', close_rest fuel s = Some s' /\ walking ks s' /\ sl_fi s' = Zlen fs.
Proof.
  intros Ha. revert s. induction fuel as [|fuel IH]; intros s Hw Hf; pose proof Hw as (pre & hk & from & sl & gl & j & Hks & Hs & _ & Hj & _ & _).
  all: assert (sl_fi s = Z.of_nat j) as Hfi by (by rewrite Hs). all: assert (sl_fences s = Some fs) as Hsf by (by rewrite Hs).
  all: rewrite Hfi, Nat2Z.id in Hf; cbn [close_rest]; rewrite Hsf, Hfi; cbn [default from_option id]; unfold id, Zlen.
  - rewrite (proj2 (Z.ltb_ge _ _)) by lia. exists s. split; [done|]. split; [done|]. lia.
  - destruct (Z.ltb_spec (Z.of_nat j) (Z.of_nat (length fs))); [|exists s; split; [done|split; [done|lia]]].
    destruct (lookup_lt_is_Some_2 fs j ltac:(lia)) as [f Ef].
    destruct (close_fence_spec ks s Ha Hw f) as (s' & Hc & Hw' & Hfi'); [by rewrite Hfi, Nat2Z.id| |].
    + destruct (snd f) as [h|] eqn:Eh; [done|]. rewrite Hfi, Nat2Z.id. destruct (fs !! S j) as [g|] eqn:Eg; [|apply lookup_ge_None in Eg; lia].
      destruct Hfs as [_ Hadj]. destruct (Hadj j f g Ef Eg) as (h & Hh & _). congruence.
    + rewrite Hc. cbn [option_bind mbind]. apply IH; [done|]. rewrite Hfi', Hfi. lia.
Qed.
End slicer.

(** The whole pass, under given fences and without. *)
Lemma slice_fences fs parts max_keys ks : fences_sorted fs -> ascending ks -> 0 < Zlen ks ->
  exists sl gl, slice_all (Some fs) parts max_keys ks = Some (Some (sl, gl, Zlen ks)) /\ fences_cut ks fs sl gl.
Proof.
  intros Hfs Ha Hpos. unfold slice_all. destruct (push_all_walked fs parts max_keys Hfs ks [] (slicer_new (Some fs) parts max_keys)) as (s & Hs & [Hw _]); [done| |].
  { split; [|by intros g Hg%elem_of_nil]. exists [], [], 0, [], [], 0%nat. split; [done|]. split; [done|]. split; [done|]. split; [lia|]. split; [constructor|].
    by destruct (fs !! 0%nat). }
  rewrite Hs. cbn [option_bind mbind app] in *. destruct (close_rest_spec fs parts max_keys Hfs (length fs) ks s Ha Hw ltac:(lia)) as (s' & Hc & (pre & hk & from & sl & gl & j & Hks & Hs' & _ & Hj & Hcut & _) & Hfi).
  unfold slicer_finish. destruct Hw as (pre0 & hk0 & from0 & sl0 & gl0 & j0 & _ & Hs0 & _).
  assert (sl_total s = Zlen ks) as -> by (by rewrite Hs0). assert (sl_fences s = Some fs) as -> by (by rewrite Hs0). rewrite (proj2 (Z.eqb_neq _ _)) by lia.
  rewrite Hc. cbn [option_bind mbind]. exists sl, gl. rewrite Hs' in Hfi |- *. cbn [sl_fi sl_slices sl_given sl_total] in *. split; [done|].
  unfold Zlen in Hfi. by rewrite take_ge in Hcut by lia.
Qed.

Lemma push_all_free rest parts max_keys ks : ofold (fun s k => slicer_push k s) rest (mkSlicer None parts max_keys 0 0 (kl_of (map fence_lo ks)) (Zlen ks) [] []) =
  Some (mkSlicer None parts max_keys 0 0 (kl_of (map fence_lo (ks ++ rest))) (Zlen (ks ++ rest)) [] []).
Proof.
  revert ks. induction rest as [|k rest IH]; intros ks; cbn [ofold]; [by rewrite app_nil_r|].
  assert (slicer_push k (mkSlicer None parts max_keys 0 0 (kl_of (map fence_lo ks)) (Zlen ks) [] []) =
    Some (mkSlicer None parts max_keys 0 0 (kl_of (map fence_lo (ks ++ [k]))) (Zlen (ks ++ [k])) [] [])) as ->
    by (rewrite map_app, Zlen_app; cbn [map]; by rewrite <- kl_push_of).
  cbn [option_bind mbind]. rewrite IH. by rewrite <- app_assoc.
Qed.

Lemma slice_free parts max_keys ks : ascending ks -> 0 < Zlen ks ->
  exists sl gl, slice_all None parts max_keys ks = Some (Some (sl, gl, Zlen ks)) /\ tiles ks 0 [] sl gl (Zlen ks) None.
Proof.
  intros Ha Hpos. unfold slice_all. pose proof (push_all_free ks parts max_keys []) as Hp. cbn [app] in Hp. change (slicer_new None parts max_keys) with
    (mkSlicer None parts max_keys 0 0 (kl_of (map fence_lo [])) (Zlen (@nil bytes)) [] []). rewrite Hp. cbn [option_bind mbind]. unfold slicer_finish.
  cbn [sl_total sl_fences sl_held sl_parts sl_slices sl_given]. rewrite (proj2 (Z.eqb_neq _ _)) by lia. rewrite !kl_len_of, !Zlen_map.
  destruct (joins_spec ks (Z.min (Z.max parts 1) (Zlen ks)) (div_ceil (Zlen ks) (Z.min (Z.max parts 1) (Zlen ks))) Hpos) as (bounds & -> & Hb).
  { unfold div_ceil. apply Z.div_pos; lia. }
  cbn [option_bind mbind]. destruct (cut_by_bounds_spec ks ([], None) bounds (ascending_sorted _ Ha) Hpos) as (sl & gl & -> & Ht); [|done|].
  - apply Forall_forall. intros k _. split; [apply ble_nil|done].
  - cbn [option_bind mbind app]. exists sl, gl. done.
Qed.

(** ** What a merge's pieces promise *)

(** Ranks end to end. *)
Fixpoint spans (a : Z) (sl : list (Z * Z)) (en : Z) : Prop :=
  match sl with [] => a = en | (x, y) :: sl => x = a /\ x <= y /\ spans y sl en end.

(** Ranges end to end. *)
Fixpoint tile (lo : bytes) (gl : list Fence) (hi : option bytes) : Prop :=
  match gl with
  | [] => False
  | g :: gl => fst g = lo /\ match gl with [] => snd g = hi | _ => exists m, snd g = Some m /\ tile m gl hi end
  end.

Definition piece_holds (ks : list bytes) (s : Z * Z) (g : Fence) : Prop := held_in ks (fst s) (snd s) g.

Lemma spans_app a b sl sl' en : spans a sl b -> spans b sl' en -> spans a (sl ++ sl') en.
Proof. revert a. induction sl as [|[x y] sl IH]; intros a H H'; cbn [app spans] in *; [by subst|]. destruct H as (-> & Hxy & H). split; [done|]. split; [done|]. by apply IH. Qed.

Lemma tiles_pieces ks a lo sl gl en hi : tiles ks a lo sl gl en hi -> 0 <= a -> en <= Zlen ks ->
  spans a sl en /\ tile lo gl hi /\ Forall2 (piece_holds ks) sl gl /\ Forall fence_ok gl.
Proof.
  revert a lo gl. induction sl as [|[x y] sl IH]; intros a lo [|g gl] Ht Ha Hen; cbn [tiles] in Ht; try done.
  destruct Ht as (-> & Hxy & Hg & Hh & Hr). assert (a < Zlen ks -> fence_ok g) as Hok.
  { intros Hlt. destruct (get_at_is_Some ks a) as [k Hk]; [lia|]. destruct (Hh a k ltac:(lia) Hk) as [H1 H2]. unfold fence_ok. destruct (snd g); [|done]. by eapply ble_lt_trans. }
  destruct sl as [|s sl].
  - destruct Hr as (-> & -> & Hs). split; [cbn [spans]; split_and!; done || lia|]. split; [done|].
    split; [constructor; [exact Hh|constructor]|]. constructor; [apply Hok; lia|constructor].
  - destruct Hr as (m & Hs & Hr). destruct (IH y m gl Hr ltac:(lia) Hen) as (H1 & H2 & H3 & H4). split; [cbn [spans] in *; split_and!; try done; lia|].
    split; [|split; [by constructor|]].
    + cbn [tile]. split; [done|]. destruct gl; [by destruct s|]. by exists m.
    + constructor; [|done]. apply Hok. destruct s as [u v]. cbn in H1. destruct H1 as (-> & ? & H1). assert (v <= en).
      { clear -H1. revert v H1. induction sl as [|[p q] sl IH]; intros v H1; cbn in H1; [lia|]. destruct H1 as (-> & ? & H1). apply IH in H1. lia. }
      lia.
Qed.

Lemma tile_ne lo gl hi : tile lo gl hi -> gl <> [].
Proof. by intros H ->. Qed.

(** A key in no gap: below one fence's end or not below the next's start. *)
Lemma no_gap ks fs i f g h : fences_sorted fs -> Forall (fun k => exists f, f ∈ fs /\ in_fence k f) ks -> fs !! i = Some f -> fs !! S i = Some g ->
  snd f = Some h -> below ks h = below ks (fst g).
Proof.
  intros Hfs Hin Hf Hg Hh. pose proof Hfs as [Hok Hadj]. destruct (Hadj i f g Hf Hg) as (h' & Hh' & Hle). rewrite Hh in Hh'. injection Hh' as <-.
  unfold below. f_equal. induction Hin as [|k ks (f' & [j Hj]%list_elem_of_lookup & [Hk1 Hk2]) _ IH]; [done|]. cbn [List.filter]. 
  assert (bltb k h = bltb k (fst g)) as ->; [|by destruct (bltb k (fst g)); rewrite ?IH].
  destruct (bltb_spec k h) as [H1|H1], (bltb_spec k (fst g)) as [H2|H2]; try done; exfalso.
  - apply H2. by eapply blt_le_trans.
  - assert (ble h k) as H1' by (by apply ble_not_lt). destruct (decide (j <= i)%nat) as [Hji|Hji].
    + assert (exists h', snd f' = Some h' /\ ble h' h) as (h' & Hs & Hle').
      { destruct (Nat.eq_dec j i) as [->|]; [rewrite Hf in Hj; injection Hj as <-; exists h; split; [done|apply ble_refl]|].
        destruct (closed_past fs Hfs i f f' (fst f) Hf (ble_refl _)) as (h' & Hs & Hle'); [apply list_elem_of_lookup; exists j; rewrite lookup_take_Some; split; [done|lia]|].
        exists h'. split; [done|]. eapply ble_trans; [exact Hle'|]. pose proof (Forall_lookup_1 _ _ _ _ Hok Hf) as Ho. unfold fence_ok in Ho. rewrite Hh in Ho. by apply blt_le. }
      rewrite Hs in Hk2. apply ble_not_lt in H1'. apply H1'. exact (blt_le_trans _ _ _ Hk2 Hle').
    + assert (ble (fst g) (fst f')) as Hle'.
      { destruct (Nat.eq_dec j (S i)) as [->|]; [rewrite Hg in Hj; injection Hj as <-; apply ble_refl|].
        destruct (closed_past fs Hfs j f' g (fst f') Hj (ble_refl _)) as (h' & Hs & Hle'); [apply list_elem_of_lookup; exists (S i); rewrite lookup_take_Some; split; [done|lia]|].
        pose proof (Forall_lookup_1 _ _ _ _ Hok Hg) as Ho. unfold fence_ok in Ho. rewrite Hs in Ho. apply blt_le. exact (blt_le_trans _ _ _ Ho Hle'). }
      apply (blt_irrefl k). eapply blt_le_trans; [exact H2|]. exact (ble_trans _ _ _ Hle' Hk1).
Qed.

Section pieces.
Context (ks : list bytes) (fs : list Fence) (Hfs : fences_sorted fs) (Hin : Forall (fun k => exists f, f ∈ fs /\ in_fence k f) ks).

(** Fences earlier in the run end no later than a later one starts. *)
Lemma fences_apart i j f g : fs !! i = Some f -> fs !! j = Some g -> (i < j)%nat -> exists h, snd f = Some h /\ ble h (fst g).
Proof.
  intros Hf Hg Hij. apply (closed_past fs Hfs j g f (fst g) Hg (ble_refl _)). apply list_elem_of_lookup. exists i. by rewrite lookup_take_Some.
Qed.

Lemma low_first f : fs !! 0%nat = Some f -> low_rank ks f = 0.
Proof.
  intros Hf. apply below_none. eapply Forall_impl; [exact Hin|]. intros k (g & [j Hj]%list_elem_of_lookup & [Hk _]). destruct (Nat.eq_dec j 0%nat) as [->|].
  - rewrite Hf in Hj. by injection Hj as ->.
  - destruct (fences_apart 0%nat j f g Hf Hj ltac:(lia)) as (h & Hh & Hle). pose proof (Forall_lookup_1 _ _ _ _ (proj1 Hfs) Hf) as Ho. unfold fence_ok in Ho. rewrite Hh in Ho.
    eapply ble_trans; [|exact Hk]. apply blt_le. exact (blt_le_trans _ _ _ Ho Hle).
Qed.

Lemma high_last f : fs !! pred (length fs) = Some f -> high_rank ks f = Zlen ks.
Proof.
  intros Hf. unfold high_rank. destruct (snd f) as [h|] eqn:Eh; [|done]. apply below_all. eapply Forall_impl; [exact Hin|].
  intros k (g & [j Hj]%list_elem_of_lookup & [_ Hk]). pose proof (lookup_lt_Some _ _ _ Hj). destruct (Nat.eq_dec j (pred (length fs))) as [->|].
  - rewrite Hf in Hj. injection Hj as <-. by rewrite Eh in Hk.
  - destruct (fences_apart j _ g f Hj Hf ltac:(lia)) as (h' & Hh & Hle). rewrite Hh in Hk. pose proof (Forall_lookup_1 _ _ _ _ (proj1 Hfs) Hf) as Ho. unfold fence_ok in Ho. rewrite Eh in Ho.
    eapply blt_trans; [exact Hk|]. by eapply ble_lt_trans.
Qed.

Lemma fence_cut_pieces f sl gl : fence_ok f -> fence_cut ks f sl gl ->
  spans (low_rank ks f) sl (high_rank ks f) /\ tile (fst f) gl (snd f) /\ Forall2 (piece_holds ks) sl gl /\ Forall fence_ok gl.
Proof.
  intros Hf [[Hlt Ht]|(He & -> & ->)].
  - pose proof (below_range ks (fst f)). apply (tiles_pieces ks); [done|unfold low_rank; lia|]. unfold high_rank. destruct (snd f); [apply below_range|lia].
  - split; [cbn [spans]; split_and!; done || lia|]. split; [cbn; by destruct f|]. split; [|by repeat constructor].
    constructor; [|constructor]. intros i k Hi. cbn [fst snd] in Hi. lia.
Qed.

(** Where the slices of the first [n] fences end. *)
Definition reached_rank (n : nat) : Z := match n with O => 0 | S n => match fs !! n with Some f => high_rank ks f | None => 0 end end.

Lemma next_rank n f : fs !! n = Some f -> low_rank ks f = reached_rank n.
Proof.
  intros Hf. destruct n as [|n]; [by apply low_first|]. cbn [reached_rank]. destruct (fs !! n) as [g|] eqn:Eg.
  - destruct (proj2 Hfs n g f Eg Hf) as (h & Hh & _). unfold high_rank, low_rank. rewrite Hh. symmetry. by eapply (no_gap ks fs n g f).
  - apply lookup_ge_None in Eg. apply lookup_lt_Some in Hf. lia.
Qed.

Lemma fences_cut_inv l sl gl : fences_cut ks l sl gl -> l = [] /\ sl = [] /\ gl = [] \/
  exists fs f sl0 gl0 sl' gl', l = fs ++ [f] /\ sl = sl0 ++ sl' /\ gl = gl0 ++ gl' /\ fences_cut ks fs sl0 gl0 /\ fence_cut ks f sl' gl'.
Proof. intros [|fs0 sl0 gl0 f sl' gl' H H']; [by left|right]. by exists fs0, f, sl0, gl0, sl', gl'. Qed.

Lemma cut_pieces n sl gl : (n <= length fs)%nat -> fences_cut ks (take n fs) sl gl ->
  spans 0 sl (reached_rank n) /\ Forall2 (piece_holds ks) sl gl /\ Forall fence_ok gl /\
  exists gls, gl = concat gls /\ Forall2 (fun f g => tile (fst f) g (snd f)) (take n fs) gls.
Proof.
  revert sl gl. induction n as [|n IH]; intros sl gl Hn Hc.
  - rewrite take_0 in *. apply fences_cut_inv in Hc as [(_ & -> & ->)|(fs' & f & ? & ? & ? & ? & E & _)]; [|by destruct fs'].
    split; [done|]. split; [done|]. split; [done|]. by exists [].
  - destruct (lookup_lt_is_Some_2 fs n ltac:(lia)) as [f Hf]. rewrite (take_S_r _ _ _ Hf) in Hc |- *.
    apply fences_cut_inv in Hc as [(E & _)|(fs' & g & sl0 & gl0 & sl' & gl' & E & -> & -> & Hc & Hg)]; [by destruct (take n fs)|].
    apply app_inj_tail in E as [<- <-]. destruct (IH sl0 gl0 ltac:(lia) Hc) as (H1 & H2 & H3 & gls & -> & H4). destruct (fence_cut_pieces f sl' gl') as (P1 & P2 & P3 & P4); [by eapply Forall_lookup_1; [apply Hfs|]|done|].
    rewrite (next_rank n f Hf) in P1. split; [|split; [by apply Forall2_app|split; [by apply Forall_app|]]].
    + cbn [reached_rank]. rewrite Hf. by eapply spans_app.
    + exists (gls ++ [gl']). split; [by rewrite concat_app; cbn [concat]; rewrite app_nil_r|]. apply Forall2_app; [done|]. by constructor.
Qed.
End pieces.

(** The cuts of a merge, for the run that writes them. *)
Lemma slices_route fences parts max_keys ks : let ranges := default [([], None)] fences in
  fences_sorted ranges -> ascending ks -> 0 < Zlen ks -> Forall (fun k => exists f, f ∈ ranges /\ in_fence k f) ks ->
  exists sl gl gls, slice_all fences parts max_keys ks = Some (Some (sl, gl, Zlen ks)) /\
    spans 0 sl (Zlen ks) /\ Forall2 (piece_holds ks) sl gl /\ Forall fence_ok gl /\
    gl = concat gls /\ Forall2 (fun f g => tile (fst f) g (snd f)) ranges gls.
Proof.
  intros ranges Hfs Ha Hpos Hin. destruct fences as [fs|]; subst ranges; cbn [default from_option id] in *; unfold id in *.
  - destruct (slice_fences fs parts max_keys ks Hfs Ha Hpos) as (sl & gl & Hs & Hc). rewrite <- (take_ge fs (length fs)) in Hc by lia.
    destruct (cut_pieces ks fs Hfs Hin (length fs) sl gl ltac:(lia) Hc) as (H1 & H2 & H3 & gls & H4 & H5). rewrite take_ge in H5 by lia.
    exists sl, gl, gls. split; [done|]. split; [|done]. destruct fs as [|f fs].
    + destruct ks as [|k ks]; [by rewrite (@Zlen_nil bytes) in Hpos|]. apply Forall_cons in Hin as [(f & Hf & _) _]. by apply elem_of_nil in Hf.
    + cbn [length reached_rank] in H1. destruct (lookup_lt_is_Some_2 (f :: fs) (length fs) ltac:(cbn; lia)) as [g Hg]. rewrite Hg in H1.
      rewrite (high_last ks (f :: fs) Hfs Hin g Hg) in H1. exact H1.
  - destruct (slice_free parts max_keys ks Ha Hpos) as (sl & gl & Hs & Ht). destruct (tiles_pieces _ _ _ _ _ _ _ Ht ltac:(lia) ltac:(lia)) as (H1 & H2 & H3 & H4).
    exists sl, gl, [gl]. split; [done|]. split; [done|]. split; [done|]. split; [done|]. split; [by cbn; rewrite app_nil_r|]. by constructor.
Qed.

Lemma tile_sorted lo gl hi : tile lo gl hi -> Forall fence_ok gl ->
  fences_sorted gl /\ (exists g, gl !! 0%nat = Some g /\ fst g = lo) /\ exists g, last gl = Some g /\ snd g = hi.
Proof.
  revert lo. induction gl as [|g gl IH]; intros lo Ht Hok; [done|]. cbn [tile] in Ht. destruct Ht as [Hg Ht]. apply Forall_cons in Hok as [Hgo Hok]. destruct gl as [|g' gl].
  - split; [split; [by constructor|by intros [|i] f x ? ?]|]. split; [by exists g|by exists g].
  - destruct Ht as (m & Hm & Ht). destruct (IH m Ht Hok) as ([H1 H2] & (g0 & [= <-] & H3) & H4). split; [|split; [by exists g|done]]. split; [by constructor|].
    intros [|i] f x Hf Hx; [|by apply (H2 i f x)]. cbn in Hf, Hx. injection Hf as <-. injection Hx as <-. exists m. rewrite H3. split; [done|apply ble_refl].
Qed.

(** The fences of all the ranges, in order. *)
Lemma tiles_sorted fs gls : fences_sorted fs -> Forall2 (fun f g => tile (fst f) g (snd f)) fs gls -> Forall fence_ok (concat gls) -> fences_sorted (concat gls).
Proof.
  intros Hs Ht. revert Hs. induction Ht as [|f g fs gls Hg Ht IH]; intros Hs Hok; [by split|]. cbn [concat] in *. apply Forall_app in Hok as [Hok1 Hok2].
  destruct Hs as [Hf Hadj]. apply Forall_cons in Hf as [_ Hf]. assert (fences_sorted fs) as Hs' by (split; [done|intros i x y Hx Hy; exact (Hadj (S i) x y Hx Hy)]).
  destruct (IH Hs' Hok2) as [_ Hadj2]. destruct (tile_sorted _ _ _ Hg Hok1) as ([_ Hadj1] & _ & l & Hl & Hls). split; [by apply Forall_app|].
  intros i x y Hx Hy. destruct (decide (S i < length g)%nat) as [H1|H1].
  - rewrite lookup_app_l in Hx, Hy by lia. by apply (Hadj1 i).
  - rewrite lookup_app_r in Hy by lia. destruct (decide (i < length g)%nat) as [H2|H2].
    + rewrite lookup_app_l in Hx by lia. rewrite last_lookup in Hl. replace (pred (length g)) with i in Hl by lia. rewrite Hx in Hl. injection Hl as ->.
      replace (S i - length g)%nat with 0%nat in Hy by lia. destruct Ht as [|f' g' fs' gls' Hg' Ht']; [done|].
      cbn [concat] in Hok2, Hy. apply Forall_app in Hok2 as [Hok2 _]. destruct (tile_sorted _ _ _ Hg' Hok2) as (_ & (g0 & Hg0 & Hlo) & _).
      rewrite lookup_app_l in Hy by (by eapply lookup_lt_Some). rewrite Hg0 in Hy. injection Hy as ->. destruct (Hadj 0%nat f f' eq_refl eq_refl) as (h & Hh & Hle). exists h. rewrite Hls, Hlo. done.
    + rewrite lookup_app_r in Hx by lia. apply (Hadj2 (i - length g)%nat); [done|]. by replace (S (i - length g)) with (S i - length g)%nat by lia.
Qed.

(** C19: the cuts of a merge. Over distinct keys in order, each inside one of
    the fences given (the whole key space where none are), the one-pass slicer
    -- which holds of each key its first sixteen bytes -- answers slices of the
    ranks end to end from nought to the last, one fence each, every key of a
    slice inside its fence; the fences of each range given tile that range,
    none empty of keys it could hold, so that what is merged is routed where it
    was written, and no key of the merge is left to no piece. *)
Theorem merge_slices_route fences parts max_keys ks : let ranges := default [([], None)] fences in
  fences_sorted ranges -> ascending ks -> 0 < Zlen ks -> Forall (fun k => exists f, f ∈ ranges /\ in_fence k f) ks ->
  exists sl gl gls, slice_all fences parts max_keys ks = Some (Some (sl, gl, Zlen ks)) /\
    spans 0 sl (Zlen ks) /\ Forall2 (piece_holds ks) sl gl /\ Forall fence_ok gl /\
    gl = concat gls /\ Forall2 (fun f g => tile (fst f) g (snd f)) ranges gls.
Proof. exact (slices_route fences parts max_keys ks). Qed.

Lemma merge_slices_route_witness : exists sl gl gls,
  slice_all (Some [([], Some [x62]); ([x62], None)]) 2 2 [[x61]; [x63]; [x64]; [x65]] = Some (Some (sl, gl, 4)) /\ spans 0 sl 4 /\
  gl = concat gls /\ Forall2 (fun f g => tile (fst f) g (snd f)) [([], Some [x62]); ([x62], None)] gls.
Proof.
  destruct (merge_slices_route (Some [([], Some [x62]); ([x62], None)]) 2 2 [[x61]; [x63]; [x64]; [x65]]) as (sl & gl & gls & Hs & Hsp & _ & _ & Hg & Ht).
  - split; [repeat (apply Forall_cons; split; [by vm_compute|]); by apply Forall_nil|]. intros [|[|i]] f g Hf Hg; vm_compute in Hf, Hg; try done.
    injection Hf as <-. injection Hg as <-. exists [x62]. split; [done|apply ble_refl].
  - intros i j a b Hij Hi Hj. pose proof (get_at_lt _ _ _ Hi) as H1. pose proof (get_at_lt _ _ _ Hj) as H2. change (Zlen _) with 4 in H1, H2.
    assert ((i = 0 \/ i = 1 \/ i = 2) /\ (j = 1 \/ j = 2 \/ j = 3)) as [[-> | [-> | ->]] [-> | [-> | ->]]] by lia; try lia; vm_compute in Hi, Hj; injection Hi as <-; injection Hj as <-; by vm_compute.
  - done.
  - cbn [default from_option id]. unfold id. apply Forall_cons. split.
    + exists ([], Some [x62]). split; [by left|by vm_compute].
    + repeat (apply Forall_cons; split; [exists ([x62], None); split; [right; by left|by vm_compute]|]). by apply Forall_nil.
  - exists sl, gl, gls. split; [exact Hs|]. split; [exact Hsp|]. split; [exact Hg|exact Ht].
Defined.

(** ** The fences a merge rewrites *)

Lemma fence_eqb_spec a b : reflect (a = b) (fence_eqb a b).
Proof.
  destruct a as [lo hi], b as [lo' hi']. unfold fence_eqb. cbn [fst snd]. destruct (beqb_spec lo lo') as [->|]; cbn [andb]; [|constructor; congruence].
  destruct hi as [h|], hi' as [h'|]; try (constructor; congruence). destruct (beqb_spec h h') as [->|]; constructor; congruence.
Qed.

Lemma in_fences f (l : list Fence) : existsb (fence_eqb f) l = true <-> f ∈ l.
Proof.
  rewrite existsb_exists. split.
  - intros (g & Hg & He). revert He. destruct (fence_eqb_spec f g) as [->|]; [|done]. by intros _; apply list_elem_of_In.
  - intros H. exists f. split; [by apply list_elem_of_In|]. by destruct (fence_eqb_spec f f).
Qed.

Lemma overlaps_any piece (l : list Fence) : existsb (fun f => fences_overlap piece f) l = true <-> exists f, f ∈ l /\ fences_overlap piece f = true.
Proof. rewrite existsb_exists. by setoid_rewrite list_elem_of_In. Qed.

Section grow_fences.
Context (parts pieces : list Fence).

(** A set of fences closed under what the pieces over it reach. *)
Definition closed (P : Fence -> Prop) : Prop := forall piece f p, piece ∈ pieces -> P f -> fences_overlap piece f = true ->
  p ∈ parts -> fences_overlap piece p = true -> P p.

Definition grown (l l' : list Fence) : Prop := exists ext, l' = l ++ ext /\ (NoDup l -> NoDup l') /\ (forall p, p ∈ ext -> p ∈ parts).

Lemma grown_refl l : grown l l.
Proof. exists []. rewrite app_nil_r. split; [done|]. split; [done|]. by intros p Hp%elem_of_nil. Qed.

Lemma grown_trans a b c : grown a b -> grown b c -> grown a c.
Proof.
  intros (x & -> & H1 & H2) (y & -> & H3 & H4). exists (x ++ y). rewrite app_assoc. split; [done|]. split; [auto|]. intros p [Hp|Hp]%elem_of_app; auto.
Qed.

Lemma reach_spec ps piece l : (forall p, p ∈ ps -> p ∈ parts) -> grown l (reach ps piece l) /\
  (forall p, p ∈ ps -> fences_overlap piece p = true -> p ∈ reach ps piece l) /\
  (forall P, (forall f, f ∈ l -> P f) -> (forall p, p ∈ ps -> fences_overlap piece p = true -> P p) -> forall f, f ∈ reach ps piece l -> P f).
Proof.
  revert l. induction ps as [|p ps IH]; intros l Hin; cbn [reach].
  - split; [apply grown_refl|]. split; [by intros p Hp%elem_of_nil|]. auto.
  - destruct (IH (if fences_overlap piece p && negb (existsb (fence_eqb p) l) then l ++ [p] else l)) as (H1 & H2 & H3); [intros q Hq; apply Hin; by right|].
    set (l1 := if fences_overlap piece p && negb (existsb (fence_eqb p) l) then l ++ [p] else l) in *. assert (grown l l1) as Hl1.
    { subst l1. destruct (fences_overlap piece p); cbn [andb]; [|apply grown_refl]. destruct (existsb (fence_eqb p) l) eqn:E; cbn [negb]; [apply grown_refl|].
      exists [p]. split; [done|]. split; [|intros q ->%list_elem_of_singleton; apply Hin; by left]. intros Hnd. apply NoDup_app. split; [done|]. split; [|apply NoDup_singleton].
      intros q Hq ->%list_elem_of_singleton. apply in_fences in Hq. congruence. }
    split; [by eapply grown_trans|]. split.
    + intros q [->|Hq]%elem_of_cons Ho; [|by apply H2]. destruct H1 as (ext & -> & _). apply elem_of_app. left. subst l1. rewrite Ho. cbn [andb].
      destruct (existsb (fence_eqb p) l) eqn:E; cbn [negb]; [by apply in_fences|]. apply elem_of_app. right. by left.
    + intros P Hl Hp. apply H3; [|intros q Hq; apply Hp; by right]. intros f. subst l1. destruct (fences_overlap piece p) eqn:Ho; cbn [andb]; [|apply Hl].
      destruct (negb _); [|apply Hl]. intros [Hf| ->%list_elem_of_singleton]%elem_of_app; [by apply Hl|]. apply Hp; [by left|done].
Qed.

Lemma grow_round_spec ps l : (forall p, p ∈ ps -> p ∈ pieces) -> grown l (grow_round parts ps l) /\
  (grow_round parts ps l = l -> forall piece f p, piece ∈ ps -> f ∈ l -> fences_overlap piece f = true -> p ∈ parts -> fences_overlap piece p = true -> p ∈ l) /\
  (forall P, closed P -> (forall f, f ∈ l -> P f) -> forall f, f ∈ grow_round parts ps l -> P f).
Proof.
  revert l. induction ps as [|piece ps IH]; intros l Hin; cbn [grow_round].
  - split; [apply grown_refl|]. split; [by intros _ piece f p Hp%elem_of_nil|]. auto.
  - assert (piece ∈ pieces) as Hpc by (apply Hin; by left). destruct (reach_spec parts piece l ltac:(done)) as (R1 & R2 & R3).
    destruct (IH (if existsb (fun f => fences_overlap piece f) l then reach parts piece l else l)) as (H1 & H2 & H3); [intros q Hq; apply Hin; by right|].
    destruct (existsb (fun f => fences_overlap piece f) l) eqn:E.
    + split; [by eapply grown_trans|]. split.
      * intros Heq. assert (reach parts piece l = l) as Hr.
        { destruct R1 as (x & Hx & _), H1 as (y & Hy & _). rewrite Hy, Hx, <- app_assoc in Heq. rewrite Hx.
          assert (x = []) as ->; [|by rewrite app_nil_r]. apply (f_equal length) in Heq. rewrite !length_app in Heq. destruct x; [done|]. cbn in Heq. lia. }
        rewrite Hr in *. intros pc f p [->|Hp]%elem_of_cons Hf Ho Hpp Hop; [by apply R2|by eapply H2].
      * intros P Hcl Hl. apply H3; [done|]. apply R3; [done|]. intros p Hp Hop. apply overlaps_any in E as (f & Hf & Hof). by eapply Hcl; [|by apply Hl|..].
    + split; [done|]. split; [|done]. intros Heq pc f p [->|Hp]%elem_of_cons Hf Ho Hpp Hop; [|by eapply H2].
      exfalso. assert (existsb (fun f => fences_overlap piece f) l = true) by (apply overlaps_any; eauto). congruence.
Qed.

Lemma grow_spec fuel l : NoDup l -> (forall p, p ∈ l -> p ∈ parts) -> (length parts - length l <= fuel)%nat ->
  let r := grow_fences fuel parts pieces l in
  NoDup r /\ (forall p, p ∈ r -> p ∈ parts) /\ (forall p, p ∈ l -> p ∈ r) /\ closed (fun f => f ∈ r) /\ (forall P, closed P -> (forall f, f ∈ l -> P f) -> forall f, f ∈ r -> P f).
Proof.
  revert l. induction fuel as [|fuel IH]; intros l Hnd Hin Hfuel; cbn [grow_fences].
  - repeat (split; [done|]). split; [|auto]. intros piece f p _ _ _ Hp _.
    assert (l ≡ₚ parts) as Hperm; [|by rewrite Hperm]. apply submseteq_length_Permutation; [by apply NoDup_submseteq|lia].
  - destruct (grow_round_spec pieces l ltac:(done)) as ((ext & He & H1 & H2) & H3 & H4). rewrite He in *. unfold Zlen. rewrite length_app.
    assert (forall p, p ∈ l ++ ext -> p ∈ parts) as Hin' by (intros p [Hp|Hp]%elem_of_app; auto).
    destruct (Z.ltb_spec (Z.of_nat (length l)) (Z.of_nat (length l + length ext))).
    + destruct (IH (l ++ ext)) as (R1 & R2 & R3 & R4 & R5); [by apply H1|done|rewrite length_app; lia|]. split; [done|]. split; [done|].
      split; [intros p Hp; apply R3, elem_of_app; by left|]. split; [done|]. intros P Hcl Hl. apply R5; [done|]. rewrite <- He in *. by apply H4.
    + assert (ext = []) as -> by (destruct ext; [done|cbn in *; lia]). rewrite app_nil_r in *. split; [done|]. split; [done|]. split; [done|]. split; [|auto].
      intros piece f p Hpc Hf Ho Hp Hop. by eapply (H3 eq_refl).
Qed.
End grow_fences.

Lemma insert_fence_perm f l : insert_fence f l ≡ₚ f :: l.
Proof. induction l as [|g l IH]; [done|]. cbn [insert_fence]. destruct (bltb (fst g) (fst f)); [|done]. rewrite IH. constructor. Qed.

Lemma sort_fences_perm l : sort_fences l ≡ₚ l.
Proof. unfold sort_fences. induction l as [|f l IH]; [done|]. cbn [fold_right]. by rewrite insert_fence_perm, IH. Qed.

Lemma insert_fence_sorted f l : StronglySorted (fun a b => ble (fst a) (fst b)) l -> StronglySorted (fun a b => ble (fst a) (fst b)) (insert_fence f l).
Proof.
  induction 1 as [|g l Hs IH Hg]; [by repeat constructor|]. cbn [insert_fence]. destruct (bltb_spec (fst g) (fst f)) as [H|H].
  - constructor; [done|]. apply Forall_forall. intros x. rewrite insert_fence_perm. intros [->|Hx]%elem_of_cons; [by apply blt_le|]. rewrite Forall_forall in Hg. by apply Hg.
  - assert (ble (fst f) (fst g)) as Hle by (by apply ble_not_lt). constructor; [by constructor|]. constructor; [done|].
    eapply Forall_impl; [exact Hg|]. intros x Hx. cbv beta in *. by eapply ble_trans.
Qed.

Lemma sort_fences_sorted l : StronglySorted (fun a b => ble (fst a) (fst b)) (sort_fences l).
Proof. unfold sort_fences. induction l as [|f l IH]; [constructor|]. cbn [fold_right]. by apply insert_fence_sorted. Qed.

Lemma sorted_adjacent (l : list Fence) i f g : StronglySorted (fun a b => ble (fst a) (fst b)) l -> l !! i = Some f -> l !! S i = Some g -> ble (fst f) (fst g).
Proof.
  intros Hs. revert i. induction Hs as [|x l Hs IH Hx]; intros i Hf Hg; [done|]. destruct i as [|i].
  - cbn in Hf, Hg. injection Hf as <-. apply list_elem_of_lookup_2 in Hg. rewrite Forall_forall in Hx. by apply Hx.
  - by apply (IH i).
Qed.

(** Of partitions in order, distinct ones sorted by their starts are in order. *)
Lemma sorted_subset parts l : fences_sorted parts -> NoDup l -> (forall p, p ∈ l -> p ∈ parts) -> fences_sorted (sort_fences l).
Proof.
  intros Hps Hnd Hin. assert (forall p, p ∈ sort_fences l -> p ∈ parts) as Hin' by (intros p; rewrite sort_fences_perm; apply Hin). split.
  - apply Forall_forall. intros p Hp. apply Hin' in Hp. destruct Hps as [Hok _]. rewrite Forall_forall in Hok. by apply Hok.
  - intros i f g Hf Hg. pose proof (sorted_adjacent _ i f g (sort_fences_sorted l) Hf Hg) as Hle.
    destruct (proj1 (list_elem_of_lookup _ _) (Hin' f ltac:(by eapply list_elem_of_lookup_2))) as [a Ha].
    destruct (proj1 (list_elem_of_lookup _ _) (Hin' g ltac:(by eapply list_elem_of_lookup_2))) as [b Hb]. destruct (Nat.lt_trichotomy a b) as [Hab|[->|Hab]].
    + by apply (fences_apart parts Hps a b).
    + exfalso. rewrite Ha in Hb. injection Hb as <-. rewrite <- (sort_fences_perm l) in Hnd. pose proof (NoDup_lookup _ _ _ _ Hnd Hf Hg). lia.
    + exfalso. destruct (fences_apart parts Hps b a g f Hb Ha Hab) as (h & Hh & Hhf). pose proof (Forall_lookup_1 _ _ _ _ (proj1 Hps) Hb) as Hok. unfold fence_ok in Hok. rewrite Hh in Hok.
      apply (blt_irrefl (fst g)). eapply blt_le_trans; [exact Hok|]. by eapply ble_trans.
Qed.

Lemma fences_sorted_NoDup parts : fences_sorted parts -> NoDup parts.
Proof.
  intros Hps. apply NoDup_alt. intros i j f Hi Hj. destruct (Nat.lt_trichotomy i j) as [Hij|[->|Hij]]; [|done|]; exfalso.
  - destruct (fences_apart parts Hps i j f f Hi Hj Hij) as (h & Hh & Hle). pose proof (Forall_lookup_1 _ _ _ _ (proj1 Hps) Hi) as Hok. unfold fence_ok in Hok. rewrite Hh in Hok.
    apply (blt_irrefl h). by eapply ble_lt_trans.
  - destruct (fences_apart parts Hps j i f f Hj Hi Hij) as (h & Hh & Hle). pose proof (Forall_lookup_1 _ _ _ _ (proj1 Hps) Hi) as Hok. unfold fence_ok in Hok. rewrite Hh in Hok.
    apply (blt_irrefl h). by eapply ble_lt_trans.
Qed.

(** C34: the fences a merge rewrites. Of partitions in order, [resolve_fences]
    answers a run in order of those alone: every one a range given to the
    merge overlaps, every one a piece over an answered one overlaps, and no
    other -- any set with the first two properties holds all of it. Where the
    partitions tile the key space, every key of a given range and of a piece
    over the answer is then inside an answered fence, which is what the cuts
    of the merge ask. *)
Theorem resolve_fences_closure parts pieces given : fences_sorted parts -> Forall fence_ok pieces -> Forall fence_ok given ->
  let r := resolve_fences parts pieces given in
  fences_sorted r /\ (forall f, f ∈ r -> f ∈ parts) /\
  (forall g p, g ∈ given -> p ∈ parts -> fences_overlap g p = true -> p ∈ r) /\ closed parts pieces (fun f => f ∈ r) /\
  (forall P, closed parts pieces P -> (forall g p, g ∈ given -> p ∈ parts -> fences_overlap g p = true -> P p) -> forall f, f ∈ r -> P f) /\
  ((forall k, exists p, p ∈ parts /\ in_fence k p) -> forall k g, in_fence k g ->
    (g ∈ given \/ g ∈ pieces /\ exists f, f ∈ r /\ fences_overlap g f = true) -> exists f, f ∈ r /\ in_fence k f).
Proof.
  intros Hps Hpc Hgv. unfold resolve_fences. set (l := List.filter (fun p => existsb (fun g => fences_overlap g p) given) parts).
  assert (forall p, p ∈ l <-> p ∈ parts /\ exists g, g ∈ given /\ fences_overlap g p = true) as Hl.
  { intros p. unfold l. rewrite !list_elem_of_In, List.filter_In, existsb_exists. by setoid_rewrite list_elem_of_In. }
  destruct (grow_spec parts pieces (length parts) l) as (H1 & H2 & H3 & H4 & H5); [|by intros p [? _]%Hl|lia|].
  { pose proof (fences_sorted_NoDup parts Hps) as Hnd. unfold l. apply NoDup_ListNoDup, List.NoDup_filter, NoDup_ListNoDup, Hnd. }
  set (r := grow_fences (length parts) parts pieces l) in *. assert (forall f, f ∈ sort_fences r <-> f ∈ r) as Hr by (intros f; by rewrite sort_fences_perm).
  assert (forall g p, g ∈ given -> p ∈ parts -> fences_overlap g p = true -> p ∈ r) as Hg by (intros g p Hg Hp Ho; apply H3, Hl; eauto).
  split; [by eapply sorted_subset|]. split; [intros f Hf%Hr; by apply H2|]. split; [intros g p ???; apply Hr; by eapply Hg|].
  split; [intros piece f p ? Hf%Hr ???; apply Hr; by eapply H4|]. split.
  - intros P Hcl Hgp f Hf%Hr. apply (H5 P Hcl); [|done]. intros p (Hp & g & Hgg & Ho)%Hl. by eapply Hgp.
  - intros Htile k g Hk Hcase. destruct (Htile k) as (p & Hp & Hkp). exists p. split; [|done]. apply Hr. rewrite Forall_forall in Hpc, Hgv.
    assert (fence_ok p) as Hpok by (destruct Hps as [Hok _]; rewrite Forall_forall in Hok; by apply Hok).
    destruct Hcase as [Hgg|(Hgp & f & Hf%Hr & Ho)].
    + apply (Hg g p Hgg Hp), fences_overlap_spec; [by apply Hgv|done|by exists k].
    + apply (H4 g f p Hgp Hf Ho Hp), fences_overlap_spec; [by apply Hpc|done|by exists k].
Qed.

Lemma resolve_fences_closure_witness :
  let parts := [([], Some [x62]); ([x62], Some [x63]); ([x63], None)] in
  resolve_fences parts [([x62], None)] [([x63], None)] = [([x62], Some [x63]); ([x63], None)] /\
  closed parts [([x62], None)] (fun f => f ∈ resolve_fences parts [([x62], None)] [([x63], None)]).
Proof.
  intros parts. split; [by vm_compute|]. destruct (resolve_fences_closure parts [([x62], None)] [([x63], None)]) as (_ & _ & _ & H & _).
  - split; [repeat (apply Forall_cons; split; [by vm_compute|]); by apply Forall_nil|]. intros [|[|[|i]]] f g Hf Hg; vm_compute in Hf, Hg; try done;
      injection Hf as <-; injection Hg as <-; eexists; (split; [reflexivity|apply ble_refl]).
  - repeat (apply Forall_cons; split; [done|]); by apply Forall_nil.
  - repeat (apply Forall_cons; split; [done|]); by apply Forall_nil.
  - exact H.
Defined.
