(* ===== verification/Merge.v ===== *)
(** * The walk of a merge

    [src/src/db.rs], lines 11799 to 11951: [merge_ranks], the k-way walk of a
    merge's inputs in key order that shows each distinct key once with the rank
    of every input that holds it, oldest input first, and [merge_keys], the same
    walk with the keys read off the inputs' ordered indexes. Both are proved
    against what they replaced: every key of every input sorted and
    deduplicated. *)

From Stdlib Require Import Sorting.Sorted.
From S2P Require Import Prelude State OrdIndex Fences.

#[local] Open Scope state_scope.

(** ** An input *)

(** What the walk reads of an input: how many keys, and the key at a rank,
    which an index may refuse. *)
Class MergeInput (I : Type) := { input_keys : I -> Z; input_key_at : I -> Z -> option bytes }.

(** What an input promises: its keys, in order, at their ranks. *)
Definition reads {I} `{MergeInput I} (i : I) (keys : list bytes) : Prop :=
  ascending keys /\ input_keys i = Zlen keys /\ forall r, 0 <= r < Zlen keys -> input_key_at i r = get_at keys r.

Definition no_rank : string := "segment key walk: a rank the index does not have".

(** ** One step's choice *)

(** The least key of those the inputs stand at, and who holds it. *)
Fixpoint pick_go (i : Z) (cur : list (option bytes)) (rank : list Z) (mn : option bytes) (tied : list (Z * Z)) : option bytes * list (Z * Z) :=
  match cur, rank with
  | c :: cur, r :: rank =>
      match c with
      | None => pick_go (i + 1) cur rank mn tied
      | Some k =>
          match mn with
          | None => pick_go (i + 1) cur rank (Some k) (tied ++ [(i, r)])
          | Some m =>
              match bcmp k m with
              | Lt => pick_go (i + 1) cur rank (Some k) [(i, r)]
              | Eq => pick_go (i + 1) cur rank mn (tied ++ [(i, r)])
              | Gt => pick_go (i + 1) cur rank mn tied
              end
          end
      end
  | _, _ => (mn, tied)
  end.
Definition pick (cur : list (option bytes)) (rank : list Z) : option bytes * list (Z * Z) := pick_go 0 cur rank None [].

Section ranks.
Context {I : Type} `{MergeInput I} {St : Type}.
Context (inputs : list I).

Definition key_of (i r : Z) : SM St (option bytes) :=
  do* b := expect (get_at inputs i) in
  if input_keys b <=? r then ret None else do* k := require (input_key_at b r) no_rank in ret (Some k).

Fixpoint keys_from (i : Z) (rank : list Z) : SM St (list (option bytes)) :=
  match rank with
  | [] => ret []
  | r :: rank => do* c := key_of i r in do* cs := keys_from (i + 1) rank in ret (c :: cs)
  end.

(** Each input that held the key, moved on. *)
Fixpoint advance_held (cached : bool) (tied : list (Z * Z)) (rank : list Z) (cur : list (option bytes)) : SM St (list Z * list (option bytes)) :=
  match tied with
  | [] => ret (rank, cur)
  | (i, _) :: tied =>
      do* r := expect (get_at rank i) in
      do* rank := expect (put_range rank i [r + 1]) in
      do* cur := (if cached then do* c := key_of i (r + 1) in expect (put_range cur i [c]) else ret cur) in
      advance_held cached tied rank cur
  end.

Fixpoint ranks_go (fuel : nat) (cached : bool) (f : bytes -> list (Z * Z) -> SM St unit) (rank : list Z) (cur : list (option bytes)) : SM St unit :=
  match fuel with
  | O => expect None
  | S fuel =>
      do* cur := (if cached then ret cur else keys_from 0 rank) in
      match pick cur rank with
      | (None, _) => ret tt
      | (Some k, tied) =>
          do* tt := f k tied in
          do* (rank, cur) := advance_held cached tied rank cur in
          ranks_go fuel cached f rank cur
      end
  end.

(** As many steps as the inputs have keys, and the one that finds none. *)
Definition walk_fuel : nat := S (Z.to_nat (fold_right (fun b n => input_keys b + n) 0 inputs)).

Definition merge_ranks (cached : bool) (f : bytes -> list (Z * Z) -> SM St unit) : SM St unit :=
  let rank := map (fun _ => 0) inputs in
  do* cur := keys_from 0 rank in
  ranks_go walk_fuel cached f rank cur.
End ranks.

(** ** The keys alone, off the heads where they can be *)

(** The choice by index, the keys each in its input's buffer. *)
Fixpoint pick_buf (i : Z) (have : list bool) (bufs : list bytes) (rank : list Z) (mn : option bytes) (tied : list (Z * Z)) : option bytes * list (Z * Z) :=
  match have, bufs, rank with
  | h :: have, k :: bufs, r :: rank =>
      if negb h then pick_buf (i + 1) have bufs rank mn tied
      else
        match mn with
        | None => pick_buf (i + 1) have bufs rank (Some k) (tied ++ [(i, r)])
        | Some m =>
            match bcmp k m with
            | Lt => pick_buf (i + 1) have bufs rank (Some k) [(i, r)]
            | Eq => pick_buf (i + 1) have bufs rank mn (tied ++ [(i, r)])
            | Gt => pick_buf (i + 1) have bufs rank mn tied
            end
        end
  | _, _, _ => (mn, tied)
  end.

Section keys.
Context {I : Type} `{MergeInput I} {St : Type}.
(** The inputs, and their ordered indexes. *)
Context (inputs : list I) (ords : list (option OrdIndex)).

Definition fill (i r : Z) (buf : bytes) : SM St (bool * bytes) :=
  do* b := expect (get_at inputs i) in
  if input_keys b <=? r then ret (false, buf)
  else
    do* o := expect (get_at ords i) in
    match (match o with Some o => whole_key_at o r | None => None end) with
    | Some k => ret (true, k)
    | None => do* k := require (input_key_at b r) no_rank in ret (true, k)
    end.

Fixpoint fill_from (i : Z) (rank : list Z) (bufs : list bytes) : SM St (list bool * list bytes) :=
  match rank, bufs with
  | r :: rank, buf :: bufs =>
      do* (h, buf) := fill i r buf in
      do* (have, bufs) := fill_from (i + 1) rank bufs in
      ret (h :: have, buf :: bufs)
  | _, _ => ret ([], [])
  end.

Fixpoint advance_buf (cached : bool) (tied : list (Z * Z)) (rank : list Z) (have : list bool) (bufs : list bytes) : SM St (list Z * (list bool * list bytes)) :=
  match tied with
  | [] => ret (rank, (have, bufs))
  | (i, _) :: tied =>
      do* r := expect (get_at rank i) in
      do* rank := expect (put_range rank i [r + 1]) in
      do* (have, bufs) := (if cached then
          do* buf := expect (get_at bufs i) in
          do* (h, buf) := fill i (r + 1) buf in
          do* have := expect (put_range have i [h]) in
          do* bufs := expect (put_range bufs i [buf]) in
          ret (have, bufs)
        else ret (have, bufs)) in
      advance_buf cached tied rank have bufs
  end.

Fixpoint keys_go (fuel : nat) (cached : bool) (f : bytes -> list (Z * Z) -> SM St unit) (rank : list Z) (have : list bool) (bufs : list bytes) : SM St unit :=
  match fuel with
  | O => expect None
  | S fuel =>
      do* (have, bufs) := (if cached then ret (have, bufs) else fill_from 0 rank bufs) in
      match pick_buf 0 have bufs rank None [] with
      | (None, _) => ret tt
      | (Some k, tied) =>
          do* tt := f k tied in
          do* (rank, (have, bufs)) := advance_buf cached tied rank have bufs in
          keys_go fuel cached f rank have bufs
      end
  end.

Definition merge_keys (cached : bool) (f : bytes -> list (Z * Z) -> SM St unit) : SM St unit :=
  let rank := map (fun _ => 0) inputs in
  do* (have, bufs) := fill_from 0 rank (map (fun _ => []) inputs) in
  keys_go (walk_fuel inputs) cached f rank have bufs.
End keys.

(** ** What the walk replaced *)

(** [sort_unstable] and [dedup] over byte strings, whose order is total: one
    list of every key once, in order. *)
Fixpoint insert_key (k : bytes) (l : list bytes) : list bytes :=
  match l with
  | [] => [k]
  | x :: l' => match bcmp k x with Lt => k :: l | Eq => l | Gt => x :: insert_key k l' end
  end.
Definition sort_dedup (l : list bytes) : list bytes := fold_right insert_key [] l.

(** Where an input's keys hold a key. *)
Fixpoint rank_in (r : Z) (keys : list bytes) (k : bytes) : option Z :=
  match keys with [] => None | x :: keys => if beqb x k then Some r else rank_in (r + 1) keys k end.

Fixpoint ties_go (i : Z) (kss : list (list bytes)) (k : bytes) : list (Z * Z) :=
  match kss with
  | [] => []
  | ks :: kss => match rank_in 0 ks k with Some r => (i, r) :: ties_go (i + 1) kss k | None => ties_go (i + 1) kss k end
  end.
Definition ties (kss : list (list bytes)) (k : bytes) : list (Z * Z) := ties_go 0 kss k.

Fixpoint each {St} (f : bytes -> SM St unit) (keys : list bytes) : SM St unit :=
  match keys with [] => ret tt | k :: keys => do* tt := f k in each f keys end.

#[export] Instance list_input : MergeInput (list bytes) := {| input_keys := Zlen; input_key_at := get_at |}.

Example walk_three : merge_ranks [[[x61]; [x63]]; [[x61]; [x62]]; []] true (fun k tied => modify (fun l => l ++ [(k, tied)])) [] =
  Some (Ok tt, [([x61], [(0, 0); (1, 0)]); ([x62], [(1, 1)]); ([x63], [(0, 1)])]).
Proof. by vm_compute. Qed.

(** ** Two ascending lists of the same keys are one *)

Lemma bind_ok {St A B} (m : SM St A) (k : A -> SM St B) s a s' : m s = Some (Ok a, s') -> bind m k s = k a s'.
Proof. intros H. unfold bind. by rewrite H. Qed.

Lemma bind_ext {St A B} (m : SM St A) (k k' : A -> SM St B) s : (forall a s', k a s' = k' a s') -> bind m k s = bind m k' s.
Proof. intros H. unfold bind. destruct (m s) as [[[a|e] s']|]; [apply H|done..]. Qed.

Abbreviation strict := (StronglySorted blt).

Lemma ascending_strict keys : ascending keys -> strict keys.
Proof. induction keys as [|k keys IH]; intros H; constructor; apply ascending_cons in H as [H1 H2]; auto. Qed.

Lemma insert_key_elem k x l : x ∈ insert_key k l <-> x = k \/ x ∈ l.
Proof.
  induction l as [|y l IH]; cbn [insert_key]; [by rewrite list_elem_of_singleton, elem_of_nil; tauto|].
  destruct (bcmp k y) eqn:E; rewrite !elem_of_cons; try rewrite IH; try tauto. apply bcmp_eq in E. subst. tauto.
Qed.

Lemma insert_key_strict k l : strict l -> strict (insert_key k l).
Proof.
  induction 1 as [|y l Hl IH Hy]; cbn [insert_key]; [by repeat constructor|]. destruct (bcmp k y) eqn:E; [by constructor|..].
  - constructor; [by constructor|]. constructor; [done|]. eapply Forall_impl; [exact Hy|]. intros z. by apply blt_trans.
  - constructor; [done|]. apply Forall_forall. intros z [-> | Hz]%insert_key_elem; [unfold blt; by rewrite bcmp_antisym, E|].
    rewrite Forall_forall in Hy. by apply Hy.
Qed.

Lemma sort_dedup_spec l : strict (sort_dedup l) /\ forall k, k ∈ sort_dedup l <-> k ∈ l.
Proof.
  induction l as [|x l [IH1 IH2]]; cbn; [split; [constructor|done]|]. split; [by apply insert_key_strict|].
  intros k. by rewrite insert_key_elem, elem_of_cons, IH2.
Qed.

(** ** The walk's state: what each input has shown, and what it has left *)

Abbreviation Split := (list bytes * list bytes)%type.
Definition whole (s : Split) : list bytes := fst s ++ snd s.
Definition ranks (ss : list Split) : list Z := map (fun s => Zlen (fst s)) ss.
Definition heads (ss : list Split) : list (option bytes) := map (fun s => List.hd_error (snd s)) ss.
Definition moved (k : bytes) (s : Split) : Split :=
  match snd s with x :: rest => if beqb x k then (fst s ++ [x], rest) else s | [] => s end.
Definition left_over (ss : list Split) : nat := fold_right (fun s n => (length (snd s) + n)%nat) 0%nat ss.

Fixpoint held (i : Z) (k : bytes) (ss : list Split) : list (Z * Z) :=
  match ss with
  | [] => []
  | s :: ss => (match snd s with x :: _ => if beqb x k then [(i, Zlen (fst s))] else [] | [] => [] end) ++ held (i + 1) k ss
  end.

(** [L]: the keys still to show, in order. *)
Record Walking (ss : list Split) (L : list bytes) : Prop := {
  wk_whole : Forall (fun s => strict (whole s)) ss;
  wk_shown : forall k, k ∈ L -> Forall (fun s => Forall (fun x => blt x k) (fst s)) ss;
  wk_order : strict L;
  wk_left : forall k, k ∈ L <-> Exists (fun s => k ∈ snd s) ss
}.

Lemma moved_whole k s : whole (moved k s) = whole s.
Proof. unfold whole, moved. destruct s as [d [|x r]]; [done|]. cbn. destruct (beqb x k); cbn; [by rewrite <- app_assoc|done]. Qed.

Lemma strict_app a b : strict (a ++ b) -> strict b.
Proof. induction a; [done|]. inversion 1; auto. Qed.

(** The least key left is at the head of every input that holds it. *)
Lemma walking_head k L ss s : Walking ss (k :: L) -> s ∈ ss ->
  match snd s with x :: rest => ble k x /\ Forall (blt k) rest | [] => True end.
Proof.
  intros H Hs. destruct s as [d [|x r]]; [done|]. cbn [snd].
  assert (strict (x :: r)) as Hx.
  { pose proof (wk_whole _ _ H) as Hw. rewrite Forall_forall in Hw. exact (strict_app _ _ (Hw _ Hs)). }
  assert (ble k x) as Hk.
  { assert (x ∈ k :: L) as [-> | Hin]%elem_of_cons by (apply (wk_left _ _ H), Exists_exists; exists (d, x :: r); split; [done|left]); [apply ble_refl|].
    apply blt_le. pose proof (wk_order _ _ H) as Ho. inversion Ho as [|? ? ? Hf]; subst. rewrite Forall_forall in Hf. by apply Hf. }
  split; [done|]. inversion Hx as [|? ? ? Hf]; subst. eapply Forall_impl; [exact Hf|]. intros z. by apply ble_lt_trans.
Qed.

Lemma rank_in_after r d rest k : Forall (fun x => blt x k) d -> rank_in r (d ++ rest) k = rank_in (r + Zlen d) rest k.
Proof.
  revert r. induction d as [|x d IH]; intros r H; [by rewrite (@Zlen_nil bytes), Z.add_0_r|]. inversion H as [|? ? Hx Hd]; subst. cbn [app rank_in].
  destruct (beqb_spec x k) as [-> |]; [by apply blt_irrefl in Hx|]. rewrite IH by done. rewrite Zlen_cons. f_equal. lia.
Qed.

Lemma rank_in_absent r rest k : Forall (blt k) rest -> rank_in r rest k = None.
Proof.
  revert r. induction rest as [|x d IH]; intros r H; [done|]. inversion H as [|? ? Hx Hd]; subst. cbn [rank_in].
  destruct (beqb_spec x k) as [-> |]; [by apply blt_irrefl in Hx|]. by apply IH.
Qed.

(** So who holds it is who has it among all its keys. *)
Lemma held_ties k L ss : Walking ss (k :: L) -> held 0 k ss = ties (map whole ss) k.
Proof.
  intros H. unfold ties. assert (forall s, s ∈ ss -> Forall (fun x => blt x k) (fst s)) as Hd.
  { apply Forall_forall. apply (wk_shown _ _ H). left. }
  pose proof (fun s => walking_head k L ss s H) as Hh. clear H. generalize 0. induction ss as [|s ss IH]; intros i; [done|]. cbn [held map ties_go].
  rewrite IH by (intros; (apply Hd || apply Hh); by right). unfold whole at 2. rewrite rank_in_after by (apply Hd; left). cbn [Z.add].
  specialize (Hh s ltac:(left)). destruct (snd s) as [|x r]; [done|]. destruct Hh as [_ Hr]. cbn [rank_in].
  destruct (beqb x k); [done|]. by rewrite rank_in_absent.
Qed.

Lemma walking_moved k L ss : Walking ss (k :: L) -> Walking (map (moved k) ss) L.
Proof.
  intros H. pose proof (fun s => walking_head k L ss s H) as Hh. split.
  - apply Forall_map. eapply Forall_impl; [exact (wk_whole _ _ H)|]. intros s. cbn. by rewrite moved_whole.
  - intros l Hl. pose proof (wk_shown _ _ H l ltac:(by right)) as Hs. apply Forall_map. eapply Forall_impl; [exact Hs|]. intros [d [|x r]] Hx; [done|].
    cbn. destruct (beqb_spec x k) as [-> |]; [|done]. cbn. apply Forall_app. split; [done|]. constructor; [|done].
    pose proof (wk_order _ _ H) as Ho. inversion Ho as [|? ? ? Hf]; subst. rewrite Forall_forall in Hf. by apply Hf.
  - pose proof (wk_order _ _ H) as Ho. by inversion Ho.
  - intros l. pose proof (wk_order _ _ H) as Ho. inversion Ho as [|? ? _ Hf]; subst. rewrite Forall_forall in Hf.
    assert (forall s, s ∈ ss -> l ∈ snd (moved k s) <-> l ∈ snd s /\ l <> k) as Hm.
    { intros s Hs. specialize (Hh s Hs). unfold moved. destruct s as [d [|x r]]; cbn [fst snd] in *; [by rewrite elem_of_nil; tauto|].
      destruct Hh as [Hx Hr]. rewrite Forall_forall in Hr. destruct (beqb_spec x k) as [-> | Hne]; cbn [snd]; rewrite elem_of_cons.
      - split; [|tauto]. intros Hin. split; [by right|]. intros ->. by eapply blt_irrefl, Hr.
      - split; [|tauto]. intros Hin. split; [tauto|]. intros ->. destruct Hin as [-> | Hin]; [done|]. by eapply blt_irrefl, Hr. }
    split.
    + intros Hl. assert (Exists (fun s => l ∈ snd s) ss) as (s & Hs & Hin)%Exists_exists by (apply (wk_left _ _ H); by right).
      apply Exists_exists. exists (moved k s). split; [apply list_elem_of_In, in_map; by apply list_elem_of_In|]. apply Hm; [done|]. split; [done|].
      intros ->. by eapply blt_irrefl, Hf.
    + intros (s' & Hs' & Hin)%Exists_exists. apply list_elem_of_In, in_map_iff in Hs' as (s & <- & Hs%list_elem_of_In).
      apply Hm in Hin as [Hin Hne]; [|done]. assert (l ∈ k :: L) as [? | ?]%elem_of_cons by (apply (wk_left _ _ H), Exists_exists; by exists s); done.
Qed.

Lemma walking_fuel k L ss : Walking ss (k :: L) -> (left_over (map (moved k) ss) < left_over ss)%nat.
Proof.
  intros H. pose proof (fun s => walking_head k L ss s H) as Hh. assert (Exists (fun s => k ∈ snd s) ss) as He by (apply (wk_left _ _ H); left). clear H.
  assert (forall s, (length (snd (moved k s)) <= length (snd s))%nat) as Hle.
  { intros [d [|x r]]; [done|]. unfold moved. cbn [fst snd]. destruct (beqb x k); cbn [fst snd length]; lia. }
  assert (forall ss, (left_over (map (moved k) ss) <= left_over ss)%nat) as Hall.
  { clear -Hle. intros ss. unfold left_over. induction ss as [|s ss IH]; cbn [map fold_right]; [done|]. specialize (Hle s). lia. }
  unfold left_over in *. induction He as [s ss Hk|s ss He IH]; cbn [map fold_right].
  - specialize (Hh s ltac:(left)). specialize (Hall ss). destruct s as [d [|x r]]; cbn [fst snd] in *; [by apply elem_of_nil in Hk|].
    destruct Hh as [Hx Hr]. unfold moved at 1. cbn [fst snd]. destruct (beqb_spec x k) as [-> | Hne]; cbn [snd length]; [lia|]. exfalso.
    apply elem_of_cons in Hk as [? | Hk]; [done|]. rewrite Forall_forall in Hr. by eapply blt_irrefl, Hr.
  - specialize (Hle s). specialize (IH ltac:(intros s' Hs'; apply Hh; by right)). lia. 
Qed.

(** ** A step's choice is the least key and who holds it *)

Lemma pick_least k ss i mn tied : (forall s x rest, s ∈ ss -> snd s = x :: rest -> ble k x) ->
  (match mn with Some m => ble k m | None => tied = [] end) -> (mn = Some k \/ exists s rest, s ∈ ss /\ snd s = k :: rest) ->
  pick_go i (heads ss) (ranks ss) mn tied = (Some k, (match mn with Some m => if beqb m k then tied else [] | None => [] end) ++ held i k ss).
Proof.
  revert i mn tied. induction ss as [|s ss IH]; intros i mn tied Hk Hm He.
  - destruct He as [-> | (? & ? & Hin & _)]; [|by apply elem_of_nil in Hin]. cbn. by rewrite beqb_refl, app_nil_r.
  - assert (forall s x rest, s ∈ ss -> snd s = x :: rest -> ble k x) as Hk' by (intros; eapply Hk; [by right|done]).
    pose proof (Hk s) as Hks. destruct s as [d [|x r]]; cbn [heads ranks map pick_go held fst snd List.hd_error] in *.
    + apply IH; [done..|]. destruct He as [? | (s' & rest & [-> | Hin]%elem_of_cons & E)]; [by left|done|right; eauto].
    + specialize (Hks x r ltac:(left) eq_refl).
      assert (mn = Some k \/ x = k \/ exists s rest, s ∈ ss /\ snd s = k :: rest) as He'.
      { destruct He as [? | (s' & rest & [-> | Hin]%elem_of_cons & E)]; [by left|right; left; by injection E|right; right; eauto]. }
      clear He. fold (heads ss) (ranks ss). destruct mn as [m|].
      * destruct (bcmp x m) eqn:E.
        -- apply bcmp_eq in E as ->. rewrite IH; [|done..|]; [|naive_solver]. destruct (beqb m k); by rewrite <- ?app_assoc.
        -- rewrite IH; [|done..|]; [|destruct He' as [[= ->] | [-> | ?]]; [by apply ble_not_lt in Hks|by left|by right]].
           destruct (beqb_spec m k) as [-> |]; [by apply ble_not_lt in Hks|]. by destruct (beqb x k).
        -- rewrite IH; [|done..|]; [|destruct He' as [? | [-> | ?]]; [by left| |by right]].
           ++ destruct (beqb_spec x k) as [-> |]; [|done]. by unfold ble in Hm.
           ++ by unfold ble in Hm.
      * subst tied. rewrite IH; [|done..|]; [|destruct He' as [? | [-> | ?]]; [done|by left|by right]]. by destruct (beqb x k).
Qed.

Lemma pick_nothing ss i mn tied : Forall (fun s => snd s = []) ss -> pick_go i (heads ss) (ranks ss) mn tied = (mn, tied).
Proof. intros H. revert i. induction H as [|[d r] ss Hs H IH]; intros i; [done|]. cbn in Hs. subst r. cbn. apply IH. Qed.

Lemma walking_done ss : Walking ss [] -> Forall (fun s => snd s = []) ss.
Proof.
  intros H. apply Forall_forall. intros [d [|x r]] Hs; [done|]. exfalso.
  assert (x ∈ []) as Hx%elem_of_nil by (apply (wk_left _ _ H), Exists_exists; exists (d, x :: r); split; [done|left]). done.
Qed.

Lemma pick_walking k L ss : Walking ss (k :: L) -> pick (heads ss) (ranks ss) = (Some k, ties (map whole ss) k).
Proof.
  intros H. unfold pick. pose proof (fun s => walking_head k L ss s H) as Hh. rewrite (pick_least k); [by rewrite <- (held_ties k L ss H)| |done|].
  - intros s x rest Hs E. specialize (Hh s Hs). rewrite E in Hh. apply Hh.
  - right. assert (Exists (fun s => k ∈ snd s) ss) as (s & Hs & Hin)%Exists_exists by (apply (wk_left _ _ H); left).
    specialize (Hh s Hs). exists s. destruct (snd s) as [|x r]; [by apply elem_of_nil in Hin|]. exists r. split; [done|].
    apply elem_of_cons in Hin as [-> | Hin]; [done|]. exfalso. destruct Hh as [_ Hr]. rewrite Forall_forall in Hr. by eapply blt_irrefl, Hr.
Qed.

(** ** The walk's own steps *)

Section walking.
Context {I : Type} `{MergeInput I} {St : Type}.
Context (inputs : list I) (ords : list (option OrdIndex)).

(** What an input's ordered index says are its keys. *)
Definition indexed (o : option OrdIndex) (keys : list bytes) : Prop :=
  match o with Some ix => exists p, indexes ix keys p | None => True end.

Lemma reads_head b s : reads b (whole s) ->
  (input_keys b <=? Zlen (fst s)) = match snd s with [] => true | _ => false end /\
  (snd s <> [] -> input_key_at b (Zlen (fst s)) = List.hd_error (snd s)).
Proof.
  intros (_ & En & Hk). destruct s as [d r]. unfold whole in *. cbn [fst snd] in *. rewrite En, Zlen_app. split.
  - pose proof (Zlen_nonneg r). destruct r as [|x r]; [rewrite (@Zlen_nil bytes)|rewrite Zlen_cons in *; pose proof (Zlen_nonneg r)]; [apply Z.leb_le|apply Z.leb_gt]; lia.
  - intros Hr. destruct r as [|x r]; [done|]. rewrite Hk; [by apply get_at_app_mid|]. rewrite Zlen_app, Zlen_cons. pose proof (Zlen_nonneg d). pose proof (Zlen_nonneg r). lia.
Qed.

Lemma key_of_head i b s (st : St) : get_at inputs i = Some b -> reads b (whole s) -> key_of inputs i (Zlen (fst s)) st = Some (Ok (List.hd_error (snd s)), st).
Proof.
  intros Hb Hr. unfold key_of. rewrite Hb. destruct (reads_head b s Hr) as [En Ek]. cbn [expect bind]. rewrite En.
  destruct (snd s) as [|x r]; [done|]. by rewrite Ek.
Qed.

Lemma keys_from_heads pre ss ins (st : St) : inputs = pre ++ ins -> Forall2 reads ins (map whole ss) ->
  keys_from inputs (Zlen pre) (ranks ss) st = Some (Ok (heads ss), st).
Proof.
  revert pre ins. induction ss as [|s ss IH]; intros pre ins E Hr; [done|]. inversion Hr as [|b ? ins' ? Hb Hins]; subst ins.
  cbn [ranks map keys_from]. erewrite bind_ok; [|eapply key_of_head; [|exact Hb]; rewrite E; by apply get_at_app_mid].
  erewrite bind_ok; [done|]. specialize (IH (pre ++ [b]) ins'). rewrite Zlen_app in IH. apply IH; [by rewrite E, <- app_assoc|done].
Qed.

Lemma moved_fst k s x r : snd s = x :: r -> beqb x k = true -> fst (moved k s) = fst s ++ [x] /\ snd (moved k s) = r.
Proof. unfold moved. by intros -> ->. Qed.

Lemma moved_id k s : match snd s with x :: _ => beqb x k = false | [] => True end -> moved k s = s.
Proof. unfold moved. destruct (snd s); [done|]. by intros ->. Qed.

Lemma expect_ok {A} (o : option A) (a : A) (st : St) : o = Some a -> expect o st = Some (Ok a, st).
Proof. by intros ->. Qed.

Lemma put_at {A} (a : list A) x y c i : i = Zlen a -> put_range (a ++ x :: c) i [y] = Some (a ++ y :: c).
Proof. intros Hi. exact (put_range_app a [x] c [y] i Hi eq_refl). Qed.

Lemma advance_moved cached k pre ra ca ss ins (st : St) : inputs = pre ++ ins -> Forall2 reads ins (map whole ss) -> Zlen ra = Zlen pre -> Zlen ca = Zlen pre ->
  advance_held inputs cached (held (Zlen pre) k ss) (ra ++ ranks ss) (ca ++ heads ss) st =
  Some (Ok (ra ++ ranks (map (moved k) ss), ca ++ (if cached then heads (map (moved k) ss) else heads ss)), st).
Proof.
  revert pre ra ca ins. induction ss as [|s ss IH]; intros pre ra ca ins E Hr Hra Hca; [by destruct cached|].
  inversion Hr as [|b ? ins' ? Hb Hins]; subst ins. unfold ranks, heads. cbn [held map]. fold (ranks ss) (heads ss) (ranks (map (moved k) ss)) (heads (map (moved k) ss)).
  assert (forall r c, advance_held inputs cached (held (Zlen pre + 1) k ss) (ra ++ r :: ranks ss) (ca ++ c :: heads ss) st =
    Some (Ok (ra ++ r :: ranks (map (moved k) ss), ca ++ c :: (if cached then heads (map (moved k) ss) else heads ss)), st)) as Hrest.
  { intros r c. specialize (IH (pre ++ [b]) (ra ++ [r]) (ca ++ [c]) ins'). rewrite !Zlen_app, <- !app_assoc in IH. cbn [app] in IH.
    apply IH; [by rewrite E|done|by rewrite Hra|by rewrite Hca]. }
  assert (match snd s with x :: _ => beqb x k = true | [] => False end \/ match snd s with x :: _ => beqb x k = false | [] => True end) as [Hx | Hx]
    by (destruct (snd s); [by right|destruct (beqb _ k); auto]).
  - destruct (snd s) as [|x r] eqn:Es; [done|]. rewrite Hx. cbn [app advance_held]. destruct (moved_fst k s x r Es Hx) as [E1 E2].
    erewrite bind_ok; [|apply expect_ok, get_at_app_mid; by rewrite Hra]. erewrite bind_ok; [|apply expect_ok, put_at; by rewrite Hra].
    assert (Zlen (fst s) + 1 = Zlen (fst (moved k s))) as Hl by (rewrite E1, Zlen_app; by zlen). rewrite Hl.
    destruct cached.
    + erewrite bind_ok; [|erewrite bind_ok; [apply expect_ok, put_at; by rewrite Hca|]; apply (key_of_head _ b); [rewrite E; by apply get_at_app_mid|by rewrite moved_whole]].
      apply Hrest.
    + erewrite bind_ok; [|done]. apply Hrest.
  - assert (match snd s with x :: _ => if beqb x k then [(Zlen pre, Zlen (fst s))] else [] | [] => [] end = []) as -> by (destruct (snd s); [done|by rewrite Hx]).
    rewrite (moved_id k s Hx). cbn [app]. rewrite Hrest. by destruct cached.
Qed.

(** *** The whole walk *)

Lemma ranks_go_each cached (f : bytes -> list (Z * Z) -> SM St unit) fuel kss ss L cur (st : St) : Forall2 reads inputs kss -> map whole ss = kss ->
  Walking ss L -> (left_over ss < fuel)%nat -> (cached = true -> cur = heads ss) ->
  ranks_go inputs fuel cached f (ranks ss) cur st = each (fun k => f k (ties kss k)) L st.
Proof.
  intros Hr. revert ss L cur st. induction fuel as [|fuel IH]; intros ss L cur st Ew Hw Hf Hc; [lia|]. cbn [ranks_go].
  assert ((if cached then ret cur else keys_from inputs 0 (ranks ss)) st = Some (Ok (heads ss), st)) as Hcur.
  { destruct cached; [by rewrite Hc|]. apply (keys_from_heads [] ss inputs); [done|by rewrite Ew]. }
  rewrite (bind_ok _ _ _ _ _ Hcur). destruct L as [|k L].
  - unfold pick. by rewrite (pick_nothing ss 0 None [] (walking_done ss Hw)).
  - rewrite (pick_walking k L ss Hw), Ew. cbn [each]. apply bind_ext. intros [] st'.
    rewrite <- Ew, <- (held_ties k L ss Hw).
    rewrite (bind_ok _ _ _ _ _ (advance_moved cached k [] [] [] ss inputs st' eq_refl ltac:(by rewrite Ew) eq_refl eq_refl)). cbn [app].
    rewrite Ew. apply IH; [|by apply walking_moved|pose proof (walking_fuel k L ss Hw); lia|by intros ->].
    rewrite <- Ew, map_map. apply map_ext. intros s. apply moved_whole.
Qed.

Definition unwalked (kss : list (list bytes)) : list Split := map (fun ks => ([], ks)) kss.

Lemma unwalked_whole kss : map whole (unwalked kss) = kss.
Proof. unfold unwalked. rewrite map_map. apply map_id. Qed.

Lemma unwalked_walking kss : Forall ascending kss -> Walking (unwalked kss) (sort_dedup (concat kss)).
Proof.
  intros Ha. destruct (sort_dedup_spec (concat kss)) as [Hs He]. unfold unwalked. split; [..|done|].
  - apply Forall_map. eapply Forall_impl; [exact Ha|]. intros ks. apply ascending_strict.
  - intros k _. apply Forall_map. apply Forall_forall. constructor.
  - intros k. rewrite He, list_elem_of_In, in_concat, Exists_exists. split.
    + intros (ks & Hk & Hin). exists ([], ks). split; [apply list_elem_of_In, in_map_iff; by exists ks|by apply list_elem_of_In].
    + intros (s & Hin%list_elem_of_In & Hk). apply in_map_iff in Hin as (ks & <- & Hks). exists ks. split; [done|by apply list_elem_of_In].
Qed.

Lemma unwalked_ranks ins kss : Forall2 reads ins kss -> map (fun _ : I => 0) ins = ranks (unwalked kss).
Proof. induction 1 as [|b ks ins kss _ _ IH]; [done|]. cbn. by rewrite IH. Qed.

Lemma unwalked_fuel ins kss : Forall2 reads ins kss -> (left_over (unwalked kss) < walk_fuel ins)%nat.
Proof.
  intros Hr. unfold walk_fuel. assert (Z.of_nat (left_over (unwalked kss)) = fold_right (fun b n => input_keys b + n) 0 ins) as <-; [|lia].
  unfold left_over, unwalked. induction Hr as [|b ks ins kss (_ & En & _) _ IH]; [done|]. cbn [map fold_right snd]. rewrite <- IH, En. unfold Zlen. lia.
Qed.

Lemma reads_ascending ins kss : Forall2 reads ins kss -> Forall ascending kss.
Proof. induction 1 as [|b ks ins kss (Ha & _) _ IH]; by constructor. Qed.

Lemma merge_ranks_each cached (f : bytes -> list (Z * Z) -> SM St unit) kss (st : St) : Forall2 reads inputs kss ->
  merge_ranks inputs cached f st = each (fun k => f k (ties kss k)) (sort_dedup (concat kss)) st.
Proof.
  intros Hr. unfold merge_ranks. rewrite (unwalked_ranks _ _ Hr).
  rewrite (bind_ok _ _ _ _ _ (keys_from_heads [] (unwalked kss) inputs st eq_refl ltac:(by rewrite unwalked_whole))).
  apply ranks_go_each; [done|apply unwalked_whole|apply unwalked_walking; exact (reads_ascending _ _ Hr)|by apply unwalked_fuel|done].
Qed.

(** *** The keys in buffers *)

(** The buffers hold the heads that are there; the rest is what a buffer last
    held. *)
Definition shows : list bool -> list bytes -> list (option bytes) -> Prop := Forall3 (fun (h : bool) b c => (if h then Some b else None) = c).

Lemma pick_buf_shows i have bufs hs rank mn tied : shows have bufs hs -> pick_buf i have bufs rank mn tied = pick_go i hs rank mn tied.
Proof.
  intros Hs. revert i rank mn tied. induction Hs as [|h b c have bufs hs <- _ IH]; intros i rank mn tied; [done|]. destruct rank as [|r rank]; [by destruct h|].
  cbn [pick_buf pick_go]. destruct h; [cbn [negb]|apply IH]. destruct mn as [m|]; [|apply IH]. destruct (bcmp b m); apply IH.
Qed.

Lemma whole_key_sound ix keys r k : (exists p, indexes ix keys p) -> 0 <= r -> whole_key_at ix r = Some k -> get_at keys r = Some k.
Proof.
  intros (p & Hix) Hr Hk. pose proof Hk as Hk'. unfold whole_key_at in Hk'. destruct (oi_uniform ix) as [l|] eqn:El; [|done].
  destruct (ix_prefix _ _ _ Hix) as [E|E]; rewrite E in Hk'; [done|]. rewrite <- Hk. symmetry. by apply (whole_key_spec ix keys p Hix r l).
Qed.

Lemma fill_head i b o s buf (st : St) : get_at inputs i = Some b -> get_at ords i = Some o -> reads b (whole s) -> indexed o (whole s) ->
  exists h buf', fill inputs ords i (Zlen (fst s)) buf st = Some (Ok (h, buf'), st) /\ (if h then Some buf' else None) = List.hd_error (snd s).
Proof.
  intros Hb Ho Hr Hx. unfold fill. rewrite Hb, Ho. destruct (reads_head b s Hr) as [En Ek]. cbn [expect bind]. rewrite En.
  destruct (snd s) as [|x r] eqn:Es; [by exists false, buf|]. rewrite Ek by done. exists true. rewrite (bind_ok (expect (Some o)) _ st o st eq_refl).
  destruct (match o with Some o => whole_key_at o (Zlen (fst s)) | None => None end) as [k|] eqn:Ewk; [|by exists x].
  exists k. split; [done|]. destruct o as [ix|]; [|done]. apply (whole_key_sound ix (whole s)) in Ewk; [|exact Hx|apply Zlen_nonneg].
  unfold whole in Ewk. rewrite Es in Ewk.  rewrite get_at_app_mid in Ewk by done. by injection Ewk as ->.
Qed.

Lemma fill_from_heads pre prex ss ins xs bufs (st : St) : inputs = pre ++ ins -> ords = prex ++ xs -> Zlen prex = Zlen pre ->
  Forall2 reads ins (map whole ss) -> Forall2 indexed xs (map whole ss) -> length bufs = length ss ->
  exists have bufs', fill_from inputs ords (Zlen pre) (ranks ss) bufs st = Some (Ok (have, bufs'), st) /\ shows have bufs' (heads ss).
Proof.
  revert pre prex ins xs bufs. induction ss as [|s ss IH]; intros pre prex ins xs bufs E Ex Hl Hr Hx Hb; [exists [], []; by repeat constructor|].
  inversion Hr as [|b ? ins' ? Hr1 Hins]; subst ins. inversion Hx as [|o ? xs' ? Hx1 Hxs]; subst xs. destruct bufs as [|buf bufs]; [done|].
  destruct (fill_head (Zlen pre) b o s buf st) as (h & buf' & E1 & E2); [rewrite E; by apply get_at_app_mid|rewrite Ex; by apply get_at_app_mid|done..|].
  destruct (IH (pre ++ [b]) (prex ++ [o]) ins' xs' bufs) as (have & bufs' & E3 & E4); [by rewrite E, <- app_assoc|by rewrite Ex, <- app_assoc|by rewrite !Zlen_app, Hl|done..|by injection Hb|].
  exists (h :: have), (buf' :: bufs'). split; [|by constructor]. cbn [ranks map fill_from]. rewrite (bind_ok _ _ _ _ _ E1). rewrite Zlen_app in E3.
  change (Zlen [b]) with 1 in E3. by rewrite (bind_ok _ _ _ _ _ E3).
Qed.

Lemma shows_app have bufs hs have' bufs' hs' : shows have bufs hs -> shows have' bufs' hs' -> shows (have ++ have') (bufs ++ bufs') (hs ++ hs').
Proof. apply Forall3_app. Qed.

Lemma advance_buf_moved cached k pre prex ra ha ba ca ss ins xs have bufs (st : St) : inputs = pre ++ ins -> ords = prex ++ xs -> Zlen prex = Zlen pre ->
  Forall2 reads ins (map whole ss) -> Forall2 indexed xs (map whole ss) -> Zlen ra = Zlen pre -> Zlen ha = Zlen pre -> Zlen ba = Zlen pre ->
  shows ha ba ca -> shows have bufs (heads ss) ->
  exists have' bufs', advance_buf inputs ords cached (held (Zlen pre) k ss) (ra ++ ranks ss) (ha ++ have) (ba ++ bufs) st =
    Some (Ok (ra ++ ranks (map (moved k) ss), (have', bufs')), st) /\
    shows have' bufs' (ca ++ (if cached then heads (map (moved k) ss) else heads ss)).
Proof.
  revert pre prex ra ha ba ca ins xs have bufs.
  induction ss as [|s ss IH]; intros pre prex ra ha ba ca ins xs have bufs E Ex Hl Hr Hx Hra Hha Hba Hsa Hs;
    [inversion Hs; subst; exists ha, ba; split; [by rewrite !app_nil_r|destruct cached; by rewrite app_nil_r]|].
  inversion Hr as [|b ? ins' ? Hb Hins]; subst ins. inversion Hx as [|o ? xs' ? Hx1 Hxs]; subst xs. inversion Hs as [|h buf ? have0 bufs0 ? Eh Hs0]; subst have bufs.
  unfold ranks, heads. cbn [held map]. fold (ranks ss) (heads ss) (ranks (map (moved k) ss)) (heads (map (moved k) ss)).
  assert (forall r (h1 : bool) b1 c, (if h1 then Some b1 else None) = c -> exists have' bufs', advance_buf inputs ords cached (held (Zlen pre + 1) k ss) (ra ++ r :: ranks ss) (ha ++ h1 :: have0) (ba ++ b1 :: bufs0) st =
    Some (Ok (ra ++ r :: ranks (map (moved k) ss), (have', bufs')), st) /\ shows have' bufs' (ca ++ c :: (if cached then heads (map (moved k) ss) else heads ss))) as Hrest.
  { intros r h1 b1 c Ec. specialize (IH (pre ++ [b]) (prex ++ [o]) (ra ++ [r]) (ha ++ [h1]) (ba ++ [b1]) (ca ++ [c]) ins' xs' have0 bufs0).
    rewrite !Zlen_app, <- !app_assoc in IH. cbn [app] in IH. apply IH; try done; try (by rewrite ?Hl, ?Hra, ?Hha, ?Hba).
    apply shows_app; [done|]. constructor; [done|constructor]. }
  assert (match snd s with x :: _ => beqb x k = true | [] => False end \/ match snd s with x :: _ => beqb x k = false | [] => True end) as [Hk | Hk]
    by (destruct (snd s); [by right|destruct (beqb _ k); auto]).
  - destruct (snd s) as [|x r] eqn:Es; [done|]. rewrite Hk. cbn [app advance_buf]. destruct (moved_fst k s x r Es Hk) as [E1 E2].
    erewrite bind_ok; [|apply expect_ok, get_at_app_mid; by rewrite Hra]. erewrite bind_ok; [|apply expect_ok, put_at; by rewrite Hra].
    assert (Zlen (fst s) + 1 = Zlen (fst (moved k s))) as -> by (rewrite E1, Zlen_app; by zlen).
    destruct cached.
    + destruct (fill_head (Zlen pre) b o (moved k s) buf st) as (h' & buf' & F1 & F2);
        [rewrite E; by apply get_at_app_mid|rewrite Ex; by apply get_at_app_mid|by rewrite moved_whole..|].
      destruct (Hrest (Zlen (fst (moved k s))) h' buf' _ F2) as (have' & bufs' & G1 & G2). exists have', bufs'. split; [|done].
      erewrite bind_ok; [|unfold bind, expect; rewrite get_at_app_mid by (by rewrite Hba); cbn beta iota; rewrite F1, put_at by (by rewrite Hha);
        rewrite put_at by (by rewrite Hba); done].
      exact G1.
    + destruct (Hrest (Zlen (fst (moved k s))) h buf _ Eh) as (have' & bufs' & G1 & G2). exists have', bufs'. split; [|done].
      erewrite bind_ok; [|done]. exact G1.
  - assert (match snd s with x :: _ => if beqb x k then [(Zlen pre, Zlen (fst s))] else [] | [] => [] end = []) as -> by (destruct (snd s); [done|by rewrite Hk]).
    rewrite (moved_id k s Hk). destruct (Hrest (Zlen (fst s)) h buf _ Eh) as (have' & bufs' & G1 & G2). exists have', bufs'. split; [done|]. by destruct cached.
Qed.

Lemma shows_len have bufs hs : shows have bufs hs -> length bufs = length hs.
Proof. induction 1; [done|]. cbn. by f_equal. Qed.

Lemma keys_go_each cached (f : bytes -> list (Z * Z) -> SM St unit) fuel kss ss L hs have bufs (st : St) : Forall2 reads inputs kss -> Forall2 indexed ords kss -> map whole ss = kss ->
  Walking ss L -> (left_over ss < fuel)%nat -> shows have bufs hs -> length hs = length ss -> (cached = true -> hs = heads ss) ->
  keys_go inputs ords fuel cached f (ranks ss) have bufs st = each (fun k => f k (ties kss k)) L st.
Proof.
  intros Hr Hx. revert ss L hs have bufs st. induction fuel as [|fuel IH]; intros ss L hs have bufs st Ew Hw Hf Hs Hlen Hc; [lia|]. cbn [keys_go].
  assert (exists have' bufs', (if cached then ret (have, bufs) else fill_from inputs ords 0 (ranks ss) bufs) st = Some (Ok (have', bufs'), st) /\ shows have' bufs' (heads ss)) as (have' & bufs' & Hcur & Hs').
  { destruct cached; [exists have, bufs; by rewrite <- Hc|]. apply (fill_from_heads [] [] ss inputs ords); rewrite ?Ew; try done. by rewrite <- Hlen, (shows_len _ _ _ Hs). }
  rewrite (bind_ok _ _ _ _ _ Hcur). rewrite (pick_buf_shows _ _ _ _ _ _ _ Hs'). destruct L as [|k L].
  - by rewrite (pick_nothing ss 0 None [] (walking_done ss Hw)).
  - pose proof (pick_walking k L ss Hw) as Hp. unfold pick in Hp. rewrite Hp, Ew. cbn [each]. apply bind_ext. intros [] st'.
    rewrite <- Ew, <- (held_ties k L ss Hw).
    destruct (advance_buf_moved cached k [] [] [] [] [] [] ss inputs ords have' bufs' st') as (have2 & bufs2 & E2 & Hs2); rewrite ?Ew; try done; [constructor|].
    cbn [app] in E2, Hs2. change (Zlen (@nil I)) with 0 in E2. rewrite (bind_ok _ _ _ _ _ E2).
    eapply IH; [|by apply walking_moved|pose proof (walking_fuel k L ss Hw); lia|exact Hs2| |by intros ->].
    + rewrite <- Ew, map_map. apply map_ext. intros s. apply moved_whole.
    + unfold heads. by destruct cached; rewrite !length_map.
Qed.

Lemma merge_keys_each cached (f : bytes -> list (Z * Z) -> SM St unit) kss (st : St) : Forall2 reads inputs kss -> Forall2 indexed ords kss ->
  merge_keys inputs ords cached f st = each (fun k => f k (ties kss k)) (sort_dedup (concat kss)) st.
Proof.
  intros Hr Hx. unfold merge_keys. rewrite (unwalked_ranks _ _ Hr).
  destruct (fill_from_heads [] [] (unwalked kss) inputs ords (map (fun _ => []) inputs) st) as (have & bufs & E & Hs); rewrite ?unwalked_whole; try done.
  { unfold unwalked. rewrite !length_map. by eapply Forall2_length. }
  change (Zlen (@nil I)) with 0 in E. rewrite (bind_ok _ _ _ _ _ E).
  eapply keys_go_each; [done..|apply unwalked_whole|apply unwalked_walking; exact (reads_ascending _ _ Hr)|by apply unwalked_fuel|exact Hs| |done].
  unfold heads, unwalked. by rewrite !length_map.
Qed.
End walking.

(** ** The ties, read off *)

Lemma rank_in_spec r ks k x : ascending ks -> rank_in r ks k = Some x <-> get_at ks (x - r) = Some k.
Proof.
  revert r. induction ks as [|y ks IH]; intros r Ha; cbn [rank_in].
  - split; [done|]. intros Hg%get_at_lt. rewrite (@Zlen_nil bytes) in Hg. lia.
  - apply ascending_cons in Ha as [Ha Hy]. rewrite Forall_forall in Hy. destruct (beqb_spec y k) as [-> | Hne].
    + split; [intros [= ->]; by rewrite Z.sub_diag, get_at_here|]. intros Hg. destruct (Z.eq_dec x r) as [-> |]; [done|]. exfalso.
      pose proof (get_at_lt _ _ _ Hg). rewrite get_at_cons in Hg by lia. apply get_at_Some in Hg as [_ Hg]. apply list_elem_of_lookup_2 in Hg.
      by eapply blt_irrefl, Hy.
    + rewrite IH by done. split; intros Hg; pose proof (get_at_lt _ _ _ Hg).
      * rewrite get_at_cons by lia. by replace (x - r - 1) with (x - (r + 1)) by lia.
      * destruct (Z.eq_dec x r) as [-> |]; [rewrite Z.sub_diag, get_at_here in Hg by done; by injection Hg|].
        rewrite get_at_cons in Hg by lia. by replace (x - (r + 1)) with (x - r - 1) by lia.
Qed.

Lemma ties_go_elem j kss k i r : Forall ascending kss ->
  (i, r) ∈ ties_go j kss k <-> exists ks, get_at kss (i - j) = Some ks /\ get_at ks r = Some k.
Proof.
  intros Ha. revert j. induction Ha as [|ks kss Hk Ha IH]; intros j; cbn [ties_go].
  - split; [by intros ?%elem_of_nil|]. intros (ks & Hg%get_at_lt & _). rewrite (@Zlen_nil (list bytes)) in Hg. lia.
  - assert ((exists ks', get_at (ks :: kss) (i - j) = Some ks' /\ get_at ks' r = Some k) <->
      (i = j /\ get_at ks r = Some k) \/ (exists ks', get_at kss (i - (j + 1)) = Some ks' /\ get_at ks' r = Some k)) as ->.
    { split.
      - intros (ks' & Hg & Hr). pose proof (get_at_lt _ _ _ Hg). destruct (Z.eq_dec i j) as [-> |].
        + rewrite Z.sub_diag, get_at_here in Hg by done. injection Hg as <-. by left.
        + rewrite get_at_cons in Hg by lia. right. exists ks'. by replace (i - (j + 1)) with (i - j - 1) by lia.
      - intros [[-> Hr] | (ks' & Hg & Hr)]; [exists ks; by rewrite Z.sub_diag, get_at_here|].
        pose proof (get_at_lt _ _ _ Hg). exists ks'. rewrite get_at_cons by lia. by replace (i - j - 1) with (i - (j + 1)) by lia. }
    rewrite <- IH. destruct (rank_in 0 ks k) as [x|] eqn:E.
    + pose proof (proj1 (rank_in_spec 0 ks k x Hk) E) as Hx. rewrite Z.sub_0_r in Hx. rewrite elem_of_cons. split.
      * intros [[= -> ->] | ?]; [by left|by right].
      * intros [[-> Hr] | ?]; [left|by right]. f_equal. assert (rank_in 0 ks k = Some r) as E' by (apply rank_in_spec; [done|by rewrite Z.sub_0_r]). congruence.
    + split; [by right|]. intros [[-> Hr] | ?]; [|done]. exfalso. assert (rank_in 0 ks k = Some r) as E' by (apply rank_in_spec; [done|by rewrite Z.sub_0_r]). congruence.
Qed.

Lemma ties_elem kss k i r : Forall ascending kss -> (i, r) ∈ ties kss k <-> exists ks, get_at kss i = Some ks /\ get_at ks r = Some k.
Proof. intros Ha. unfold ties. rewrite ties_go_elem by done. by rewrite Z.sub_0_r. Qed.

(** ** The walk *)

(** C18: over inputs whose keys are in order, the walk of a merge shows exactly
    the distinct keys of all its inputs, in order, each with every input that
    holds it and its rank there, oldest input first: it runs what it is given on
    the sorted, deduplicated keys of the inputs, in that order, and stops at the
    first it refuses, whether it keeps each input's key or reads it again at
    every step, and whether it reads keys from records or off the ordered
    indexes. *)
Theorem merge_walk {I} `{MergeInput I} {St} (inputs : list I) ords kss cached (f : bytes -> list (Z * Z) -> SM St unit) st :
  Forall2 reads inputs kss -> Forall2 indexed ords kss ->
  merge_ranks inputs cached f st = each (fun k => f k (ties kss k)) (sort_dedup (concat kss)) st /\
  merge_keys inputs ords cached f st = merge_ranks inputs cached f st /\
  strict (sort_dedup (concat kss)) /\ (forall k, k ∈ sort_dedup (concat kss) <-> exists ks, ks ∈ kss /\ k ∈ ks) /\
  (forall k i r, (i, r) ∈ ties kss k <-> exists ks, get_at kss i = Some ks /\ get_at ks r = Some k).
Proof.
  intros Hr Hx. destruct (sort_dedup_spec (concat kss)) as [Hs He]. split; [exact (merge_ranks_each inputs cached f kss st Hr)|]. split; [by rewrite (merge_keys_each inputs ords cached f kss st Hr Hx), (merge_ranks_each inputs cached f kss st Hr)|].
  split; [done|]. split.
  - intros k. rewrite He, list_elem_of_In, in_concat. setoid_rewrite list_elem_of_In. naive_solver.
  - intros k i r. apply ties_elem. exact (reads_ascending _ _ Hr).
Qed.

Definition sample_inputs : list (list bytes) := [[[x61]; [x63]]; [[x61]; [x62]]; []].

Lemma sample_inputs_read : Forall2 reads sample_inputs sample_inputs.
Proof.
  assert (forall keys : list bytes, ascending keys -> reads keys keys) as Hr by done.
  unfold sample_inputs. rewrite !Forall2_cons. split; [|split; [|split; [|by apply Forall2_nil]]]; apply Hr; intros i j a b Hij Ha Hb;
    pose proof (get_at_lt _ _ _ Ha) as H1; pose proof (get_at_lt _ _ _ Hb) as H2; unfold Zlen in H1, H2; cbn [length] in H1, H2; try lia;
    assert (i = 0) as -> by lia; assert (j = 1) as -> by lia; cbn in Ha, Hb; injection Ha as <-; injection Hb as <-; reflexivity.
Qed.

Lemma merge_walk_witness : merge_keys sample_inputs [None; None; None] false (fun k tied => modify (fun l => l ++ [(k, tied)])) [] =
  Some (Ok tt, [([x61], [(0, 0); (1, 0)]); ([x62], [(1, 1)]); ([x63], [(0, 1)])]).
Proof.
  destruct (merge_walk sample_inputs [None; None; None] sample_inputs false (fun k tied => modify (fun l => l ++ [(k, tied)])) [])
    as (E1 & E2 & _); [exact sample_inputs_read|repeat constructor|]. rewrite E2, E1. vm_compute. reflexivity.
Defined.
