(* ===== verification/Names.v ===== *)
(** * The names of files

    [src/src/db.rs], lines 4510 to 4521 and 26050 to 26090, and the fences of
    [Seg::open_full], lines 8105 to 8169: a segment's file name carries its id,
    the sequence it covers and, where it is a partition or an aligned piece, its
    fence in hex. A [&str] is its bytes; the standard library's [strip_prefix],
    [strip_suffix], [split], [parse] and [from_str_radix] are written out, the
    sign [parse] takes before a number included. *)

From Stdlib Require Import Strings.Byte.
From S2P Require Import Prelude Fences.



Definition str (s : string) : bytes := String.list_byte_of_string s.

(** ** The standard library's strings *)

Fixpoint strip_prefix (p s : bytes) : option bytes :=
  match p, s with
  | [], _ => Some s
  | _ :: _, [] => None
  | x :: p, y :: s => if byte_eqb x y then strip_prefix p s else None
  end.

Definition strip_suffix (p s : bytes) : option bytes := reverse <$> strip_prefix (reverse p) (reverse s).

(** [s.split('-')]: one piece more than there are dashes. *)
Fixpoint split_dash (s : bytes) : list bytes :=
  match s with
  | [] => [[]]
  | x :: s =>
      if byte_eqb x x2d then [] :: split_dash s
      else match split_dash s with p :: ps => (x :: p) :: ps | [] => [[x]] end
  end.

Definition digit (radix : Z) (c : byte) : option Z :=
  let v := b2z c in
  let d := if (48 <=? v) && (v <=? 57) then v - 48
           else if (97 <=? v) && (v <=? 122) then v - 87
           else if (65 <=? v) && (v <=? 90) then v - 55 else 99 in
  if d <? radix then Some d else None.

Fixpoint digits_go (radix max acc : Z) (s : bytes) : option Z :=
  match s with
  | [] => Some acc
  | c :: s => d ← digit radix c; let acc := acc * radix + d in if max <? acc then None else digits_go radix max acc s
  end.

(** [from_str_radix] of an unsigned width: a plus sign and digits, at least
    one, and no more than the width holds. *)
Definition from_str_radix (radix max : Z) (s : bytes) : option Z :=
  match s with
  | [] => None
  | c :: rest => if byte_eqb c x2b then match rest with [] => None | _ => digits_go radix max 0 rest end else digits_go radix max 0 s
  end.

Definition parse_u64 (s : bytes) : option Z := from_str_radix 10 (U64 - 1) s.

(** [{:0w}] of a number. *)
Fixpoint dec_go (fuel : nat) (n : Z) (acc : bytes) : bytes :=
  match fuel with
  | O => acc
  | S fuel => let acc := z2b (48 + n mod 10) :: acc in if n <? 10 then acc else dec_go fuel (n / 10) acc
  end.
Definition dec (n : Z) : bytes := dec_go 20 n [].
Definition dec_pad (w : Z) (n : Z) : bytes := replicate (Z.to_nat (w - Zlen (dec n))) x30 ++ dec n.

(** ** Hex *)

Definition hex_digit (d : Z) : byte := z2b (if d <? 10 then 48 + d else 87 + d).
Definition hex_byte (b : byte) : bytes := [hex_digit (b2z b / 16); hex_digit (b2z b mod 16)].
Definition hex (b : bytes) : bytes := concat (map hex_byte b).

(** A slice of a [str] panics inside a character. *)
Definition char_boundary (s : bytes) (i : Z) : bool :=
  match get_at s i with Some c => negb ((128 <=? b2z c) && (b2z c <? 192)) | None => true end.

Fixpoint unhex_go (s : bytes) (ixs : list Z) : option (option bytes) :=
  match ixs with
  | [] => Some (Some [])
  | i :: ixs =>
      if negb (char_boundary s (i * 2)) || negb (char_boundary s (i * 2 + 2)) then None
      else
        d ← get_range s (i * 2) (i * 2 + 2);
        match from_str_radix 16 255 d with
        | None => Some None
        | Some v => r ← unhex_go s ixs; Some (r ← r; Some (z2b v :: r))
        end
  end.

(** [None] where a slice panics; [Some None] where the hex is malformed. *)
Definition unhex (s : bytes) : option (option bytes) :=
  if negb (Zlen s mod 2 =? 0) then Some None else unhex_go s (seqZ 0 (Zlen s / 2)).

(** ** A segment's name *)

Definition hi_hex (hi : option bytes) : bytes := match hi with Some h => hex h | None => [] end.

Definition seg_name (n end_seq : Z) : bytes := str "seg-" ++ dec_pad 8 n ++ str "-" ++ dec_pad 16 end_seq ++ str ".sup".
Definition first_partition_name (n end_seq : Z) : bytes := str "par-" ++ dec_pad 8 n ++ str "-" ++ dec_pad 16 end_seq ++ str "--.sup".
(** The names [compact_run] and [tier_run] give their outputs. *)
Definition par_name (id end_seq : Z) (f : Fence) : bytes :=
  str "par-" ++ dec_pad 8 id ++ str "-" ++ dec_pad 16 end_seq ++ str "-" ++ hex (fst f) ++ str "-" ++ hi_hex (snd f) ++ str ".sup".
Definition pcs_name (id end_seq : Z) (f : Fence) : bytes :=
  str "pcs-" ++ dec_pad 8 id ++ str "-" ++ dec_pad 16 end_seq ++ str "-" ++ hex (fst f) ++ str "-" ++ hi_hex (snd f) ++ str ".sup".

(** [Option::or_else]. *)
Definition or_else {A} (a b : option A) : option A := match a with Some _ => a | None => b end.

Definition name_field (name : bytes) (i : Z) : option Z :=
  rest ← or_else (or_else (strip_prefix (str "seg-") name) (strip_prefix (str "par-") name)) (strip_prefix (str "pcs-") name);
  body ← strip_suffix (str ".sup") rest;
  f ← get_at (split_dash body) i;
  parse_u64 f.

Definition name_id (name : bytes) : option Z := name_field name 0.
Definition name_end_seq (name : bytes) : option Z := name_field name 1.

Definition ord_name (id end_seq : Z) : bytes := str "ord-" ++ dec_pad 8 id ++ str "-" ++ dec_pad 16 end_seq ++ str ".oidx".
Definition ord_name_for (seg : bytes) : option bytes := id ← name_id seg; e ← name_end_seq seg; Some (ord_name id e).

(** ** The fence in a name *)

Inductive Level := Aligned | Partition | Whole.

(** What [open_full] reads of a name: a piece's or a partition's four fields,
    the last two its fence, or a segment over everything. *)
Definition fence_fields (malformed : string) (rest : bytes) : option (result Fence) :=
  let f := split_dash rest in
  if negb (Zlen f =? 4) then Some (Err malformed)
  else
    f2 ← get_at f 2; f3 ← get_at f 3;
    lo ← unhex f2;
    match lo with
    | None => Some (Err "segment fence is malformed")
    | Some lo =>
        match f3 with
        | [] => Some (Ok (lo, None))
        | _ =>
            hi ← unhex f3;
            match hi with
            | None => Some (Err "segment fence is malformed")
            | Some hi => Some (Ok (lo, Some hi))
            end
        end
    end.

Definition name_level (name : bytes) : option (result (Level * Fence)) :=
  match (r ← strip_prefix (str "pcs-") name; strip_suffix (str ".sup") r) with
  | Some rest => r ← fence_fields "aligned piece name is malformed" rest; Some (let* f := r in Ok (Aligned, f))
  | None =>
      match (r ← strip_prefix (str "par-") name; strip_suffix (str ".sup") r) with
      | Some rest => r ← fence_fields "partitioned segment name is malformed" rest; Some (let* f := r in Ok (Partition, f))
      | None => Some (Ok (Whole, ([], None)))
      end
  end.

Example name_there : name_level (par_name 7 12345678901234567 ([x61; xff], Some [x62])) = Some (Ok (Partition, ([x61; xff], Some [x62]))) /\
  name_id (par_name 7 12345678901234567 ([x61; xff], Some [x62])) = Some 7 /\ name_end_seq (par_name 123456789 5 ([], None)) = Some 5.
Proof. by vm_compute. Qed.

(** ** Names taken apart *)

Lemma strip_prefix_app p s : strip_prefix p (p ++ s) = Some s.
Proof. induction p as [|x p IH]; [done|]. cbn. by rewrite (proj2 (byte_eqb_eq x x)). Qed.

Lemma strip_suffix_app p s : strip_suffix p (s ++ p) = Some s.
Proof. unfold strip_suffix. rewrite reverse_app, strip_prefix_app. cbn. by rewrite reverse_involutive. Qed.

Definition dashless (s : bytes) : Prop := Forall (fun c => byte_eqb c x2d = false) s.

Lemma split_dash_last s : dashless s -> split_dash s = [s].
Proof. induction 1 as [|c s Hc Hs IH]; [done|]. cbn [split_dash]. by rewrite Hc, IH. Qed.

Lemma split_dash_cons s rest : dashless s -> split_dash (s ++ x2d :: rest) = s :: split_dash rest.
Proof. induction 1 as [|c s Hc Hs IH]; [done|]. cbn [app split_dash]. by rewrite Hc, IH. Qed.

(** *** Numbers *)

Lemma dec_char n : 0 <= n -> exists d, 0 <= d < 10 /\ d = n mod 10 /\ digit 10 (z2b (48 + n mod 10)) = Some d /\
  byte_eqb (z2b (48 + n mod 10)) x2b = false /\ byte_eqb (z2b (48 + n mod 10)) x2d = false.
Proof.
  intros Hn. pose proof (Z.mod_pos_bound n 10 ltac:(lia)). exists (n mod 10). unfold digit, byte_eqb. rewrite b2z_z2b, (Z.mod_small (48 + n mod 10) 256) by lia.
  change (b2z x2b) with 43. change (b2z x2d) with 45. rewrite (proj2 (Z.leb_le 48 _)), (proj2 (Z.leb_le _ 57)), !(proj2 (Z.eqb_neq _ _)) by lia. cbn [andb].
  replace (48 + n mod 10 - 48) with (n mod 10) by lia. rewrite (proj2 (Z.ltb_lt _ _)) by lia. repeat split; lia.
Qed.

Lemma dec_go_digits max fuel n acc : 0 <= n <= max -> n < 10 ^ Z.of_nat fuel -> (0 < fuel)%nat -> digits_go 10 max 0 (dec_go fuel n acc) = digits_go 10 max n acc.
Proof.
  revert n acc. induction fuel as [|fuel IH]; intros n acc Hn Hf H0; [lia|]. cbn [dec_go].
  destruct (dec_char n ltac:(lia)) as (d & Hd & Ed & E & _). pose proof (Z.div_mod n 10 ltac:(lia)). destruct (Z.ltb_spec n 10).
  - cbn [digits_go]. rewrite E. cbn [option_bind mbind]. rewrite Z.mul_0_l, (proj2 (Z.ltb_ge max _)) by lia. f_equal. rewrite Z.mod_small in Ed by lia. lia.
  - pose proof (Z.div_pos n 10 ltac:(lia) ltac:(lia)). assert (n / 10 < 10 ^ Z.of_nat fuel) as Hq.
    { apply Z.div_lt_upper_bound; [lia|]. replace (Z.of_nat (S fuel)) with (Z.succ (Z.of_nat fuel)) in Hf by lia. rewrite Z.pow_succ_r in Hf by lia. lia. }
    rewrite IH; [|nia|done|].
    + cbn [digits_go]. rewrite E. cbn [option_bind mbind]. assert (n / 10 * 10 + d = n) as -> by lia. by rewrite (proj2 (Z.ltb_ge max _)) by lia.
    + destruct fuel; [|lia]. cbn in Hq. assert (n / 10 = 0) by lia. lia.
Qed.

Lemma dec_go_head fuel n acc : 0 <= n -> (0 < fuel)%nat -> exists c s, dec_go fuel n acc = c :: s /\ byte_eqb c x2b = false.
Proof.
  revert n acc. induction fuel as [|fuel IH]; intros n acc Hn H0; [lia|]. cbn [dec_go]. destruct (dec_char n Hn) as (_ & _ & _ & _ & Hp & _).
  destruct (n <? 10); [by eexists _, _|]. destruct fuel as [|fuel]; [by eexists _, _|]. apply IH; [by apply Z.div_pos|lia].
Qed.

Lemma dec_go_dashless fuel n acc : 0 <= n -> dashless acc -> dashless (dec_go fuel n acc).
Proof.
  revert n acc. induction fuel as [|fuel IH]; intros n acc Hn Ha; [done|]. cbn [dec_go]. destruct (dec_char n Hn) as (_ & _ & _ & _ & _ & Hd).
  destruct (n <? 10); [by constructor|]. apply IH; [by apply Z.div_pos|by constructor].
Qed.

Lemma digits_zeros max k s : 0 <= max -> digits_go 10 max 0 (replicate k x30 ++ s) = digits_go 10 max 0 s.
Proof. intros Hm. induction k as [|k IH]; [done|]. cbn [replicate app digits_go]. change (digit 10 x30) with (Some 0). cbn [option_bind mbind]. by rewrite (proj2 (Z.ltb_ge max _)) by lia. Qed.

Lemma parse_dec_pad w n : 0 <= n < U64 -> parse_u64 (dec_pad w n) = Some n.
Proof.
  intros Hn. unfold parse_u64, from_str_radix, dec_pad. assert (forall k, digits_go 10 (U64 - 1) 0 (replicate k x30 ++ dec n) = Some n) as H.
  { intros k. rewrite digits_zeros by (unfold U64; lia). unfold dec. rewrite dec_go_digits; [done|lia|unfold U64 in *; cbn; lia|lia]. }
  generalize (Z.to_nat (w - Zlen (dec n))). intros k. destruct k as [|k].
  - specialize (H 0%nat). cbn [replicate app] in *. unfold dec in *. destruct (dec_go_head 20 n [] ltac:(lia) ltac:(lia)) as (c & s & E & Hc). rewrite E in *. by rewrite Hc.
  - specialize (H (S k)). cbn [replicate app] in *. by change (byte_eqb x30 x2b) with false.
Qed.

Lemma dec_pad_dashless w n : 0 <= n -> dashless (dec_pad w n).
Proof. intros Hn. unfold dec_pad. apply Forall_app. split; [by apply Forall_replicate|]. apply dec_go_dashless; [done|constructor]. Qed.

(** *** Hex *)

Lemma hex_byte_facts b : from_str_radix 16 255 (hex_byte b) = Some (b2z b) /\ Forall (fun c => byte_eqb c x2d = false /\ (b2z c <? 128) = true) (hex_byte b).
Proof. destruct b; (split; [reflexivity|]); (apply Forall_cons; split; [split; reflexivity|]); (apply Forall_cons; split; [split; reflexivity|]); constructor. Qed.

Lemma hex_facts b : Forall (fun c => byte_eqb c x2d = false /\ (b2z c <? 128) = true) (hex b).
Proof. unfold hex. induction b as [|x b IH]; [constructor|]. cbn [map concat]. apply Forall_app. split; [apply hex_byte_facts|done]. Qed.

Lemma hex_dashless b : dashless (hex b).
Proof. eapply Forall_impl; [apply hex_facts|]. by intros c []. Qed.

Lemma Zlen_hex b : Zlen (hex b) = 2 * Zlen b.
Proof. unfold hex. induction b as [|x b IH]; [done|]. cbn [map concat]. rewrite Zlen_app, IH, Zlen_cons. change (Zlen (hex_byte x)) with 2. lia. Qed.

Lemma ascii_boundary s i : Forall (fun c => (b2z c <? 128) = true) s -> char_boundary s i = true.
Proof.
  intros H. unfold char_boundary. destruct (get_at s i) as [c|] eqn:E; [|done]. apply get_at_Some in E as [_ E]. apply (Forall_lookup_1 _ _ _ _ H) in E.
  apply Z.ltb_lt in E. by rewrite (proj2 (Z.leb_gt 128 _)).
Qed.

Lemma unhex_go_hex pre b : Forall (fun c => (b2z c <? 128) = true) pre -> Zlen pre mod 2 = 0 ->
  unhex_go (pre ++ hex b) (seqZ (Zlen pre / 2) (Zlen b)) = Some (Some b).
Proof.
  revert pre. induction b as [|x b IH]; intros pre Hp Hm; [done|]. rewrite Zlen_cons, seqZ_cons by (pose proof (Zlen_nonneg b); lia).
  assert (Forall (fun c => (b2z c <? 128) = true) (pre ++ hex (x :: b))) as Ha.
  { apply Forall_app. split; [done|]. eapply Forall_impl; [apply hex_facts|]. by intros c []. }
  cbn [unhex_go]. rewrite !ascii_boundary by done. cbn [negb orb].
  pose proof (Z.div_mod (Zlen pre) 2 ltac:(lia)) as Hd. rewrite Hm in Hd.
  destruct (hex_byte_facts x) as [Hx Hax]. change (hex (x :: b)) with (hex_byte x ++ hex b).
  rewrite (get_range_app pre (hex_byte x) (hex b)) by (change (Zlen (hex_byte x)) with 2; lia). cbn [option_bind mbind]. rewrite Hx.
  specialize (IH (pre ++ hex_byte x)). rewrite Zlen_app in IH. change (Zlen (hex_byte x)) with 2 in IH. rewrite <- app_assoc in IH.
  replace ((Zlen pre + 2) / 2) with (Z.succ (Zlen pre / 2)) in IH by (Z.div_mod_to_equations; lia). replace (Z.pred (1 + Zlen b)) with (Zlen b) by lia. rewrite IH.
  - cbn. by rewrite z2b_b2z.
  - apply Forall_app. split; [done|]. eapply Forall_impl; [exact Hax|]. by intros c [].
  - Z.div_mod_to_equations; lia.
Qed.

Lemma unhex_hex b : unhex (hex b) = Some (Some b).
Proof.
  unfold unhex. rewrite Zlen_hex. replace (2 * Zlen b) with (Zlen b * 2) by lia. rewrite Z.mod_mul, Z.div_mul by lia. cbn [negb Z.eqb].
  exact (unhex_go_hex [] b ltac:(constructor) eq_refl).
Qed.

(** ** The theorem *)

Lemma byte_eqb_dash s c : dashless s -> dashless (c ++ s) <-> dashless c.
Proof. intros Hs. unfold dashless. rewrite Forall_app. naive_solver. Qed.

Definition name_body (id e : Z) : bytes := dec_pad 8 id ++ x2d :: dec_pad 16 e.

Section parse.
Context (id e : Z) (Hid : 0 <= id < U64) (He : 0 <= e < U64).

Lemma fields_two : split_dash (name_body id e) = [dec_pad 8 id; dec_pad 16 e].
Proof. unfold name_body. rewrite split_dash_cons by (apply dec_pad_dashless; lia). by rewrite split_dash_last by (apply dec_pad_dashless; lia). Qed.

Lemma fields_four (lo hi : bytes) : dashless lo -> dashless hi ->
  split_dash (name_body id e ++ x2d :: lo ++ x2d :: hi) = [dec_pad 8 id; dec_pad 16 e; lo; hi].
Proof.
  intros Hl Hh. unfold name_body. rewrite <- app_assoc. cbn [app]. rewrite split_dash_cons by (apply dec_pad_dashless; lia).
  rewrite split_dash_cons by (apply dec_pad_dashless; lia). rewrite split_dash_cons by done. by rewrite split_dash_last.
Qed.

Lemma fence_fields_of m f : snd f <> Some [] -> fence_fields m (name_body id e ++ x2d :: hex (fst f) ++ x2d :: hi_hex (snd f)) = Some (Ok f).
Proof.
  intros Hf. destruct f as [lo hi]. cbn [fst snd] in *. assert (dashless (hi_hex hi)) as Hh by (destruct hi; [apply hex_dashless|constructor]).
  unfold fence_fields. rewrite fields_four by (first [apply hex_dashless|done]). cbn [get_at]. change (Zlen [dec_pad 8 id; dec_pad 16 e; hex lo; hi_hex hi] =? 4) with true. cbn [negb].
  change (get_at [dec_pad 8 id; dec_pad 16 e; hex lo; hi_hex hi] 2) with (Some (hex lo)). change (get_at [dec_pad 8 id; dec_pad 16 e; hex lo; hi_hex hi] 3) with (Some (hi_hex hi)).
  cbn [option_bind mbind]. rewrite unhex_hex. cbn [option_bind mbind]. destruct hi as [[|x h]|]; [done| |done]. cbn [hi_hex].
  rewrite unhex_hex. by destruct (hex (x :: h)) as [|] eqn:E.
Qed.
End parse.

(** A name of the four kinds is its prefix, its body and the suffix. *)
Lemma name_field_of p rest i : p = str "seg-" \/ p = str "par-" \/ p = str "pcs-" ->
  name_field (p ++ rest ++ str ".sup") i = (f ← get_at (split_dash rest) i; parse_u64 f).
Proof.
  intros Hp. unfold name_field.
  assert (or_else (or_else (strip_prefix (str "seg-") (p ++ rest ++ str ".sup")) (strip_prefix (str "par-") (p ++ rest ++ str ".sup")))
    (strip_prefix (str "pcs-") (p ++ rest ++ str ".sup")) = Some (rest ++ str ".sup")) as ->.
  { destruct Hp as [-> | [-> | ->]]; reflexivity. }
  cbn [option_bind mbind]. by rewrite strip_suffix_app.
Qed.

Lemma ids_of p id e tail : p = str "seg-" \/ p = str "par-" \/ p = str "pcs-" -> 0 <= id < U64 -> 0 <= e < U64 -> tail = [] \/ (exists t, tail = x2d :: t) ->
  name_id (p ++ (name_body id e ++ tail) ++ str ".sup") = Some id /\ name_end_seq (p ++ (name_body id e ++ tail) ++ str ".sup") = Some e.
Proof.
  intros Hp Hid He Ht. unfold name_id, name_end_seq. rewrite !name_field_of by done.
  assert (exists fs, split_dash (name_body id e ++ tail) = dec_pad 8 id :: dec_pad 16 e :: fs) as [fs ->].
  { unfold name_body. rewrite <- app_assoc. cbn [app]. rewrite split_dash_cons by (apply dec_pad_dashless; lia).
    destruct Ht as [-> | [t ->]]; [rewrite app_nil_r, split_dash_last by (apply dec_pad_dashless; lia); by eexists|].
    rewrite split_dash_cons by (apply dec_pad_dashless; lia). by eexists. }
  rewrite get_at_here by done. rewrite get_at_cons, get_at_here by done. cbn [option_bind mbind]. by rewrite !parse_dec_pad.
Qed.

Lemma name_shapes id e f :
  seg_name id e = str "seg-" ++ (name_body id e ++ []) ++ str ".sup" /\
  first_partition_name id e = str "par-" ++ (name_body id e ++ x2d :: hex [] ++ x2d :: hi_hex None) ++ str ".sup" /\
  par_name id e f = str "par-" ++ (name_body id e ++ x2d :: hex (fst f) ++ x2d :: hi_hex (snd f)) ++ str ".sup" /\
  pcs_name id e f = str "pcs-" ++ (name_body id e ++ x2d :: hex (fst f) ++ x2d :: hi_hex (snd f)) ++ str ".sup".
Proof.
  unfold seg_name, first_partition_name, par_name, pcs_name, name_body. change (str "-") with [x2d]. change (str "--.sup") with ([x2d; x2d] ++ str ".sup").
  rewrite app_nil_r, <- !app_assoc. cbn [app hex map concat hi_hex]. by rewrite <- !app_assoc.
Qed.

Lemma par_not_pcs r : strip_prefix (str "pcs-") (str "par-" ++ r) = None.
Proof. done. Qed.

Lemma level_of_name id e f : 0 <= id < U64 -> 0 <= e < U64 -> snd f <> Some [] ->
  name_level (seg_name id e) = Some (Ok (Whole, ([], None))) /\
  name_level (first_partition_name id e) = Some (Ok (Partition, ([], None))) /\
  name_level (par_name id e f) = Some (Ok (Partition, f)) /\
  name_level (pcs_name id e f) = Some (Ok (Aligned, f)).
Proof.
  intros Hid He Hf. destruct (name_shapes id e f) as (E1 & E2 & E3 & E4). split; [|split; [|split]].
  - by rewrite E1.
  - rewrite E2. unfold name_level. rewrite par_not_pcs. cbn [option_bind mbind]. rewrite strip_prefix_app. cbn [option_bind mbind]. rewrite strip_suffix_app. by rewrite (fence_fields_of id e Hid He _ ([], None)).
  - rewrite E3. unfold name_level. rewrite par_not_pcs. cbn [option_bind mbind]. rewrite strip_prefix_app. cbn [option_bind mbind]. rewrite strip_suffix_app. by rewrite (fence_fields_of id e Hid He _ f).
  - rewrite E4. unfold name_level. rewrite strip_prefix_app. cbn [option_bind mbind]. rewrite strip_suffix_app. by rewrite (fence_fields_of id e Hid He _ f).
Qed.

Lemma ids_of_name id e f n : 0 <= id < U64 -> 0 <= e < U64 -> n ∈ [seg_name id e; first_partition_name id e; par_name id e f; pcs_name id e f] ->
  name_id n = Some id /\ name_end_seq n = Some e /\ ord_name_for n = Some (ord_name id e).
Proof.
  intros Hid He Hn. destruct (name_shapes id e f) as (E1 & E2 & E3 & E4).
  assert (name_id n = Some id /\ name_end_seq n = Some e) as [E5 E6].
  { rewrite !elem_of_cons, elem_of_nil in Hn. destruct Hn as [-> | [-> | [-> | [-> | []]]]]; rewrite ?E1, ?E2, ?E3, ?E4; apply ids_of; eauto. }
  split; [done|]. split; [done|]. unfold ord_name_for. by rewrite E5, E6.
Qed.

(** A name says what it was given. For any id and sequence a [u64] holds
    and any fence whose upper end is not the empty key, a partition's and an
    aligned piece's name open with exactly that fence, a segment's name opens
    over everything, all of them with the id and the covered sequence they were
    named for -- numbers past the padding's width included -- and no slice of
    the parse panics; the companion index is named by the same two fields
    whatever the kind, so a promotion keeps it. *)
Theorem names_roundtrip id e f : 0 <= id < U64 -> 0 <= e < U64 -> snd f <> Some [] ->
  name_level (seg_name id e) = Some (Ok (Whole, ([], None))) /\
  name_level (first_partition_name id e) = Some (Ok (Partition, ([], None))) /\
  name_level (par_name id e f) = Some (Ok (Partition, f)) /\
  name_level (pcs_name id e f) = Some (Ok (Aligned, f)) /\
  forall n, n ∈ [seg_name id e; first_partition_name id e; par_name id e f; pcs_name id e f] ->
    name_id n = Some id /\ name_end_seq n = Some e /\ ord_name_for n = Some (ord_name id e).
Proof.
  intros Hid He Hf. destruct (level_of_name id e f Hid He Hf) as (H1 & H2 & H3 & H4).
  split; [done|]. split; [done|]. split; [done|]. split; [done|]. intros n. by apply ids_of_name.
Qed.

Lemma names_roundtrip_witness : name_level (par_name 7 12345678901234567 ([x61; xff], Some [x62])) = Some (Ok (Partition, ([x61; xff], Some [x62]))).
Proof. apply (names_roundtrip 7 12345678901234567 ([x61; xff], Some [x62])); [unfold U64; lia|unfold U64; lia|done]. Defined.

(** An upper fence of the empty key is written as none at all. *)
Lemma empty_fence_lost : name_level (par_name 7 5 ([], Some [])) = Some (Ok (Partition, ([], None))).
Proof. by vm_compute. Qed.
