(* ===== verification/Bloom.v ===== *)
(** * The Bloom filters of level-0 pieces

    [src/src/db.rs], lines 4523 to 4738: a filter of 64-byte blocks, four bits a
    key in the block its hash chooses; the fill that sets each word's bits
    sixteen adds late; the words a form file stores. The landing takes the
    filter from the hashes its writer kept, an open from a walk of the keys, and
    both are the filter whose bits are those of its keys. [None] is the panic of
    an index or of a remainder by nothing. *)

From S2P Require Import Prelude HashTable.

Definition BLOOM_PROBES : Z := 4.
Definition BLOOM_BITS_PER_KEY : Z := 10.
Definition BLOOM_AHEAD : Z := 16.

(** [Vec<[u64; 8]>]. *)
Abbreviation BlockedBloom := (list (list Z)).

Definition bloom_blocks_for (n : Z) : option Z := bits ← cmul n BLOOM_BITS_PER_KEY; Some (Z.max (div_ceil bits 512) 1).
Definition with_capacity (n : Z) : option BlockedBloom := b ← bloom_blocks_for n; Some (replicate (Z.to_nat b) (replicate 8 0)).

Definition fnv (key : bytes) : Z := key_hash key.
Definition finalize (h : Z) : Z :=
  let h := w64 (Z.lxor h (Z.shiftr h 30) * 0xbf58476d1ce4e5b9) in
  Z.lxor h (Z.shiftr h 31).
Definition bloom_hash (key : bytes) : Z := finalize (fnv key).

Fixpoint probes_go (n : nat) (x : Z) : list (Z * Z) :=
  match n with
  | O => []
  | S n =>
      let x := w64 (w64 (x * 0x9e3779b97f4a7c15) + 1) in
      let bit := Z.land (Z.shiftr x 55) 511 in
      (Z.shiftr bit 6, Z.shiftl 1 (Z.land bit 63)) :: probes_go n x
  end.

Definition slots_of (bl : BlockedBloom) (h : Z) : option (Z * list (Z * Z)) :=
  if Zlen bl =? 0 then None else Some (Z.shiftr h 32 mod Zlen bl, probes_go (Z.to_nat BLOOM_PROBES) h).
Definition slots (bl : BlockedBloom) (key : bytes) : option (Z * list (Z * Z)) := slots_of bl (bloom_hash key).

(** [self.blocks[bi][w] |= m]. *)
Definition set_probe (bi : Z) (bl : BlockedBloom) (p : Z * Z) : option BlockedBloom :=
  b ← get_at bl bi;
  x ← get_at b (fst p);
  b ← put_range b (fst p) [Z.lor x (snd p)];
  put_range bl bi [b].

Definition add_fnv (bl : BlockedBloom) (h : Z) : option BlockedBloom :=
  '(bi, probes) ← slots_of bl (finalize h); ofold (set_probe bi) probes bl.
Definition insert (bl : BlockedBloom) (key : bytes) : option BlockedBloom :=
  '(bi, probes) ← slots bl key; ofold (set_probe bi) probes bl.

(** [probes.iter().all(..)]. *)
Fixpoint all_set (b : list Z) (probes : list (Z * Z)) : option bool :=
  match probes with
  | [] => Some true
  | (w, m) :: probes => x ← get_at b w; if negb (Z.land x m =? 0) then all_set b probes else Some false
  end.
Definition maybe_contains (bl : BlockedBloom) (key : bytes) : option bool :=
  '(bi, probes) ← slots bl key;
  b ← get_at bl bi;
  all_set b probes.

(** ** The fill *)

Record BloomFill := mkFill { bf_bloom : BlockedBloom; bf_lookahead : bool; bf_ring : list Z; bf_n : Z }.

Definition fill_new (bloom : BlockedBloom) (lookahead : bool) : BloomFill := mkFill bloom lookahead (replicate (Z.to_nat BLOOM_AHEAD) 0) 0.

(** The hint to the core is left out; it reads nothing, but asks the block of
    the filter it hints. *)
Definition fill_add (f : BloomFill) (h : Z) : option BloomFill :=
  if negb (bf_lookahead f) then bl ← add_fnv (bf_bloom f) h; Some (mkFill bl (bf_lookahead f) (bf_ring f) (bf_n f))
  else
    '(bi, _) ← slots_of (bf_bloom f) (finalize h);
    _ ← get_at (bf_bloom f) bi;
    let at_ := bf_n f mod BLOOM_AHEAD in
    bl ← (if BLOOM_AHEAD <=? bf_n f then due ← get_at (bf_ring f) at_; add_fnv (bf_bloom f) due else Some (bf_bloom f));
    ring ← put_range (bf_ring f) at_ [h];
    Some (mkFill bl (bf_lookahead f) ring (bf_n f + 1)).

Definition fill_finish (f : BloomFill) : option BlockedBloom :=
  if bf_lookahead f then
    let held := Z.min (bf_n f) BLOOM_AHEAD in
    ofold (fun bl k => h ← get_at (bf_ring f) ((bf_n f - held + k) mod BLOOM_AHEAD); add_fnv bl h) (seqZ 0 held) (bf_bloom f)
  else Some (bf_bloom f).

Definition from_fnv (hashes : list Z) (lookahead : bool) : option BlockedBloom :=
  bl ← with_capacity (Zlen hashes);
  f ← ofold fill_add hashes (fill_new bl lookahead);
  fill_finish f.

(** ** The words stored *)

Definition words (bl : BlockedBloom) : bytes := concat (map (fun b => concat (map le64 b)) bl).

(** [as_chunks::<N>().0]: whole chunks, the remainder left. *)
Fixpoint as_chunks_go (fuel : nat) (n : nat) (l : bytes) : list bytes :=
  match fuel with
  | O => []
  | S fuel => if Zlen l <? Z.of_nat n then [] else take n l :: as_chunks_go fuel n (drop n l)
  end.
Definition as_chunks (n : nat) (l : bytes) : list bytes := as_chunks_go (length l) n l.

Definition from_words (b : bytes) : option BlockedBloom :=
  if (Zlen b =? 0) || negb (Zlen b mod 64 =? 0) then None
  else Some (map (fun c => map le_val (as_chunks 8 c)) (as_chunks 64 b)).

Example filter_of_two : (bl ← from_fnv [fnv [x61]; fnv [x62]] true; x ← maybe_contains bl [x61]; y ← maybe_contains bl [x63]; Some (x, y)) = Some (true, false).
Proof. by vm_compute. Qed.

(** ** The filter as the bits that are set *)

Definition shaped (bl : BlockedBloom) : Prop := Forall (fun b => Zlen b = 8 /\ Forall (fun x => 0 <= x < U64) b) bl.

(** The bit at [i] of word [w] of block [bi]. *)
Definition bit_at (bl : BlockedBloom) (bi w i : Z) : bool :=
  match (b ← get_at bl bi; get_at b w) with Some x => Z.testbit x i | None => false end.

(** A probe: one bit of one of a block's eight words. *)
Definition probe_ok (p : Z * Z) : Prop := 0 <= fst p < 8 /\ exists i, 0 <= i < 64 /\ snd p = 2 ^ i.

Lemma probes_ok n x : Forall probe_ok (probes_go n x).
Proof.
  revert x. induction n as [|n IH]; intros x; cbn [probes_go]; constructor; [|apply IH].
  set (y := Z.shiftr _ 55). assert (0 <= Z.land y 511 < 512) as Hb by (change 511 with (Z.ones 9); rewrite Z.land_ones by lia; by apply Z.mod_pos_bound).
  set (b := Z.land y 511) in *. split; cbn [fst snd].
  - rewrite Z.shiftr_div_pow2 by lia. change (2 ^ 6) with 64. Z.div_mod_to_equations. lia.
  - exists (Z.land b 63). rewrite Z.shiftl_1_l. change 63 with (Z.ones 6). rewrite Z.land_ones by lia. split; [|done]. apply Z.mod_pos_bound. lia.
Qed.

(** The block a hash chooses among [n]. *)
Definition block_of_hash (n h : Z) : Z := Z.shiftr h 32 mod n.
Definition probes_of (h : Z) : list (Z * Z) := probes_go 4 h.

Lemma slots_spec bl h : 0 < Zlen bl -> slots_of bl h = Some (block_of_hash (Zlen bl) h, probes_of h) /\ 0 <= block_of_hash (Zlen bl) h < Zlen bl.
Proof. intros Hn. unfold slots_of. rewrite (proj2 (Z.eqb_neq _ _)) by lia. split; [done|]. by apply Z.mod_pos_bound. Qed.

Lemma put_one_get {A} (l r : list A) i x j : put_range l i [x] = Some r -> get_at r j = if j =? i then Some x else get_at l j.
Proof.
  intros H. rewrite (put_range_get _ _ _ _ j H). change (Zlen [x]) with 1. destruct (Z.eqb_spec j i) as [-> |].
  - rewrite decide_True by lia. by rewrite Z.sub_diag.
  - by rewrite decide_False by lia.
Qed.

Lemma put_one_forall {A} (P : A -> Prop) l r i x : put_range l i [x] = Some r -> Forall P l -> P x -> Forall P r.
Proof.
  intros H Hl Hx. apply Forall_lookup. intros j y Hj. rewrite <- get_at_lookup, (put_one_get _ _ _ _ _ H) in Hj.
  destruct (Z.of_nat j =? i); [by injection Hj as <-|]. apply get_at_Some in Hj as [_ Hj]. by eapply Forall_lookup_1 in Hl.
Qed.

Lemma set_probe_spec bl bi p : shaped bl -> 0 <= bi < Zlen bl -> probe_ok p -> exists bl', set_probe bi bl p = Some bl' /\ shaped bl' /\ Zlen bl' = Zlen bl /\
  forall bj w i, 0 <= i < 64 -> bit_at bl' bj w i = bit_at bl bj w i || ((bj =? bi) && (w =? fst p) && (snd p =? 2 ^ i)).
Proof.
  intros Hs Hb (Hw & i0 & Hi0 & Hm). destruct (get_at_is_Some bl bi Hb) as [b Eb].
  assert (Zlen b = 8 /\ Forall (fun x => 0 <= x < U64) b) as [Hl Hf] by (apply get_at_Some in Eb as [_ Eb]; exact (Forall_lookup_1 _ _ _ _ Hs Eb)).
  destruct (get_at_is_Some b (fst p)) as [x Ex]; [lia|]. unfold set_probe. rewrite Eb. cbn [option_bind mbind]. rewrite Ex. cbn [option_bind mbind].
  destruct (put_range_is_Some b (fst p) [Z.lor x (snd p)]) as [b' Eb']; [lia|change (Zlen [Z.lor x (snd p)]) with 1; lia|]. rewrite Eb'. cbn [option_bind mbind].
  destruct (put_range_is_Some bl bi [b']) as [bl' E']; [lia|change (Zlen [b']) with 1; lia|]. exists bl'. split; [done|].
  assert (0 <= x < U64) as Hx by (apply get_at_Some in Ex as [_ Ex]; exact (Forall_lookup_1 _ _ _ _ Hf Ex)).
  split; [|split; [by eapply put_range_len|]].
  - apply (put_one_forall _ _ _ _ _ E' Hs). split; [by rewrite (put_range_len _ _ _ _ Eb')|]. apply (put_one_forall _ _ _ _ _ Eb' Hf).
    rewrite Hm. split; [apply Z.lor_nonneg; split; [lia|by apply Z.pow_nonneg]|]. destruct (Z.eq_dec (Z.lor x (2 ^ i0)) 0) as [->|Hne]; [unfold U64; lia|].
    assert (0 <= Z.lor x (2 ^ i0)) by (apply Z.lor_nonneg; split; [lia|by apply Z.pow_nonneg]). unfold U64. apply Z.log2_lt_pow2; [lia|].
    rewrite Z.log2_lor by (try lia; by apply Z.pow_nonneg). rewrite Z.log2_pow2 by lia. apply Z.max_lub_lt; [|lia].
    destruct (Z.eq_dec x 0) as [->|]; [done|]. apply Z.log2_lt_pow2; unfold U64 in *; lia.
  - intros bj w i Hi. unfold bit_at. rewrite (put_one_get _ _ _ _ _ E'). destruct (Z.eqb_spec bj bi) as [-> |]; cbn [andb option_bind mbind].
    2:{ by rewrite orb_false_r. }
    rewrite Eb, (put_one_get _ _ _ _ _ Eb'). cbn [option_bind mbind]. destruct (Z.eqb_spec w (fst p)) as [-> |]; cbn [andb].
    2:{ by rewrite orb_false_r. }
    rewrite Ex, Z.lor_spec, Hm. f_equal. rewrite Z.pow2_bits_eqb by lia. destruct (Z.eqb_spec i0 i) as [-> |Hne]; [by rewrite Z.eqb_refl|].
    symmetry. apply Z.eqb_neq. intros H. apply Hne. by apply (Z.pow_inj_r 2); [lia..|].
Qed.

Definition sets (bi : Z) (ps : list (Z * Z)) (bj w i : Z) : bool := (bj =? bi) && existsb (fun p => (w =? fst p) && (snd p =? 2 ^ i)) ps.

Lemma set_probes_spec bl bi ps : shaped bl -> 0 <= bi < Zlen bl -> Forall probe_ok ps -> exists bl', ofold (set_probe bi) ps bl = Some bl' /\ shaped bl' /\ Zlen bl' = Zlen bl /\
  forall bj w i, 0 <= i < 64 -> bit_at bl' bj w i = bit_at bl bj w i || sets bi ps bj w i.
Proof.
  revert bl. induction ps as [|p ps IH]; intros bl Hs Hb Hp; cbn [ofold].
  - exists bl. split; [done|]. split; [done|]. split; [done|]. intros. unfold sets. cbn. by rewrite andb_false_r, orb_false_r.
  - apply Forall_cons in Hp as [Hp Hps]. destruct (set_probe_spec bl bi p Hs Hb Hp) as (b1 & -> & Hs1 & Hl1 & H1). cbn [option_bind mbind].
    destruct (IH b1 Hs1 ltac:(lia) Hps) as (b2 & -> & Hs2 & Hl2 & H2). exists b2. split; [done|]. split; [done|]. split; [lia|].
    intros bj w i Hi. rewrite H2, H1 by done. unfold sets. cbn [existsb]. destruct (bj =? bi); cbn [andb]; [by rewrite orb_assoc|by rewrite !orb_false_r].
Qed.

Lemma add_fnv_spec bl h : shaped bl -> 0 < Zlen bl -> exists bl', add_fnv bl h = Some bl' /\ shaped bl' /\ Zlen bl' = Zlen bl /\
  forall bj w i, 0 <= i < 64 -> bit_at bl' bj w i = bit_at bl bj w i || sets (block_of_hash (Zlen bl) (finalize h)) (probes_of (finalize h)) bj w i.
Proof.
  intros Hs Hn. unfold add_fnv. destruct (slots_spec bl (finalize h) Hn) as [-> Hb]. cbn [option_bind mbind]. apply set_probes_spec; [done|done|apply probes_ok].
Qed.

Lemma insert_fnv bl key : insert bl key = add_fnv bl (key_hash key).
Proof. done. Qed.

Lemma add_all_spec bl hs : shaped bl -> 0 < Zlen bl -> exists bl', ofold add_fnv hs bl = Some bl' /\ shaped bl' /\ Zlen bl' = Zlen bl /\
  forall bj w i, 0 <= i < 64 -> bit_at bl' bj w i = bit_at bl bj w i || existsb (fun h => sets (block_of_hash (Zlen bl) (finalize h)) (probes_of (finalize h)) bj w i) hs.
Proof.
  revert bl. induction hs as [|h hs IH]; intros bl Hs Hn; cbn [ofold].
  - exists bl. split; [done|]. split; [done|]. split; [done|]. intros. cbn. by rewrite orb_false_r.
  - destruct (add_fnv_spec bl h Hs Hn) as (b1 & -> & Hs1 & Hl1 & H1). cbn [option_bind mbind].
    destruct (IH b1 Hs1 ltac:(lia)) as (b2 & -> & Hs2 & Hl2 & H2). exists b2. split; [done|]. split; [done|]. split; [lia|].
    intros bj w i Hi. rewrite H2, H1, Hl1 by done. cbn [existsb]. by rewrite orb_assoc.
Qed.

(** ** The fill is the plain one *)

Section fill.
Context (bl : BlockedBloom) (Hbl : shaped bl) (Hn : 0 < Zlen bl).

Lemma adds_total hs : exists b, ofold add_fnv hs bl = Some b /\ shaped b /\ Zlen b = Zlen bl.
Proof. destruct (add_all_spec bl hs Hbl Hn) as (b & H1 & H2 & H3 & _). by exists b. Qed.

(** What is set is what was added, but for the last sixteen, which wait. *)
Record filling (hs : list Z) (f : BloomFill) : Prop := {
  fl_look : bf_lookahead f = true;
  fl_n : bf_n f = Zlen hs;
  fl_set : ofold add_fnv (take (length hs - 16) hs) bl = Some (bf_bloom f);
  fl_len : Zlen (bf_ring f) = BLOOM_AHEAD;
  fl_held : forall j, Z.max 0 (Zlen hs - BLOOM_AHEAD) <= j < Zlen hs -> get_at (bf_ring f) (j mod BLOOM_AHEAD) = get_at hs j
}.

Lemma filling_new : filling [] (fill_new bl true).
Proof. split; try done. intros j Hj. rewrite (@Zlen_nil Z) in Hj. lia. Qed.

Lemma filling_add hs h f : filling hs f -> exists f', fill_add f h = Some f' /\ filling (hs ++ [h]) f'.
Proof.
  intros [Hl Hfn Hs Hr Hh]. unfold fill_add. rewrite Hl. cbn [negb]. pose proof (Zlen_nonneg hs). unfold BLOOM_AHEAD in *.
  destruct (adds_total (take (length hs - 16) hs)) as (b0 & Eb & Hb0 & Hbl0). rewrite Hs in Eb. injection Eb as <-.
  destruct (slots_spec (bf_bloom f) (finalize h) ltac:(lia)) as [-> Hbi]. cbn [option_bind mbind].
  destruct (get_at_is_Some (bf_bloom f) (block_of_hash (Zlen (bf_bloom f)) (finalize h)) Hbi) as [blk ->]. cbn [option_bind mbind].
  rewrite Hfn. pose proof (Z.mod_pos_bound (Zlen hs) 16 ltac:(lia)) as Hm.
  assert (exists b', (if 16 <=? Zlen hs then due ← get_at (bf_ring f) (Zlen hs mod 16); add_fnv (bf_bloom f) due else Some (bf_bloom f)) = Some b' /\
    ofold add_fnv (take (length (hs ++ [h]) - 16) (hs ++ [h])) bl = Some b') as (b' & -> & Hb').
  { rewrite length_app. cbn [length]. destruct (Z.leb_spec 16 (Zlen hs)) as [H16|H16].
    - assert (get_at (bf_ring f) (Zlen hs mod 16) = get_at hs (Zlen hs - 16)) as ->.
      { rewrite <- Hh by lia. f_equal. Z.div_mod_to_equations. lia. }
      destruct (get_at_is_Some hs (Zlen hs - 16)) as [due Hd]; [lia|]. rewrite Hd. cbn [option_bind mbind].
      assert (exists b', add_fnv (bf_bloom f) due = Some b') as [b' Eb'] by (destruct (add_fnv_spec (bf_bloom f) due Hb0 ltac:(lia)) as (x & Hx & _); by exists x).
      exists b'. split; [done|]. unfold Zlen in H16. replace (length hs + 1 - 16)%nat with (S (length hs - 16)) by lia.
      rewrite take_app_le by lia. apply get_at_Some in Hd as [_ Hd]. unfold Zlen in Hd. replace (Z.to_nat (Z.of_nat (length hs) - 16)) with (length hs - 16)%nat in Hd by lia.
      rewrite (take_S_r _ _ _ Hd), ofold_app, Hs. cbn [option_bind mbind ofold]. by rewrite Eb'.
    - exists (bf_bloom f). split; [done|]. unfold Zlen in H16. rewrite <- Hs. f_equal. replace (length hs + 1 - 16)%nat with 0%nat by lia.
      by replace (length hs - 16)%nat with 0%nat by lia. }
  cbn [option_bind mbind]. destruct (put_range_is_Some (bf_ring f) (Zlen hs mod 16) [h]) as [ring Er]; [lia|change (Zlen [h]) with 1; lia|].
  rewrite Er. cbn [option_bind mbind]. eexists. split; [done|]. split; cbn [bf_lookahead bf_n bf_bloom bf_ring].
  - done.
  - rewrite Zlen_app. by change (Zlen [h]) with 1.
  - done.
  - by rewrite (put_range_len _ _ _ _ Er).
  - intros j Hj. rewrite Zlen_app in Hj. change (Zlen [h]) with 1 in Hj. unfold BLOOM_AHEAD in *. rewrite (put_one_get _ _ _ _ _ Er).
    destruct (Z.eq_dec j (Zlen hs)) as [-> | Hne].
    + rewrite Z.eqb_refl. by rewrite get_at_app_mid.
    + rewrite (proj2 (Z.eqb_neq _ _)) by (Z.div_mod_to_equations; lia). rewrite Hh by lia. by rewrite get_at_keep by lia.
Qed.

Lemma filling_all hs : exists f, ofold fill_add hs (fill_new bl true) = Some f /\ filling hs f.
Proof.
  induction hs as [|h hs IH] using rev_ind; [by exists (fill_new bl true); split; [|apply filling_new]|].
  destruct IH as (f & E & Hf). destruct (filling_add hs h f Hf) as (f' & E' & Hf'). exists f'. split; [|done].
  rewrite ofold_app, E. cbn [option_bind mbind ofold]. by rewrite E'.
Qed.

(** Reading the ring out is the tail of what was added. *)
Lemma ring_out hs f k b : filling hs f -> 0 <= k <= Z.min (Zlen hs) BLOOM_AHEAD ->
  ofold (fun bl k => h ← get_at (bf_ring f) ((bf_n f - Z.min (bf_n f) BLOOM_AHEAD + k) mod BLOOM_AHEAD); add_fnv bl h)
    (seqZ (Z.min (Zlen hs) BLOOM_AHEAD - k) k) b = ofold add_fnv (drop (length hs - Z.to_nat k) hs) b.
Proof.
  intros [_ Hfn _ _ Hh] Hk. rewrite Hfn. revert b. destruct Hk as [Hk0 Hk1]. revert Hk1. pattern k. apply natlike_ind; [| |done].
  - intros _ b. change (seqZ _ 0) with (@nil Z). rewrite drop_ge by lia. done.
  - intros k' Hk' IH Hk1 b. rewrite seqZ_cons by lia. cbn [ofold].
    replace (Zlen hs - Z.min (Zlen hs) BLOOM_AHEAD + (Z.min (Zlen hs) BLOOM_AHEAD - Z.succ k')) with (Zlen hs - Z.succ k') by lia.
    unfold BLOOM_AHEAD in *. rewrite Hh by lia. destruct (get_at_is_Some hs (Zlen hs - Z.succ k')) as [h Eh]; [lia|]. rewrite Eh. cbn [option_bind mbind].
    apply get_at_Some in Eh as [_ Eh]. unfold Zlen in Eh. replace (Z.to_nat (Z.of_nat (length hs) - Z.succ k')) with (length hs - Z.to_nat (Z.succ k'))%nat in Eh by lia.
    rewrite (drop_S _ _ _ Eh). cbn [ofold]. destruct (add_fnv b h) as [b'|]; [|done]. cbn [option_bind mbind].
    replace (Z.succ (Z.min (Zlen hs) 16 - Z.succ k')) with (Z.min (Zlen hs) 16 - k') by lia. replace (Z.pred (Z.succ k')) with k' by lia.
    rewrite IH by lia. f_equal. f_equal. unfold Zlen in *. lia.
Qed.

Lemma fill_plain hs lookahead : (f ← ofold fill_add hs (fill_new bl lookahead); fill_finish f) = ofold add_fnv hs bl.
Proof.
  destruct lookahead.
  - destruct (filling_all hs) as (f & -> & Hf). cbn [option_bind mbind]. pose proof Hf as [Hl Hfn Hs _ _]. unfold fill_finish. rewrite Hl. cbv zeta.
    pose proof (Zlen_nonneg hs). pose proof (ring_out hs f (Z.min (Zlen hs) BLOOM_AHEAD) (bf_bloom f) Hf) as Hr.
    rewrite Z.sub_diag in Hr. rewrite <- Hfn in Hr at 4. rewrite Hfn in Hr at 1.
    rewrite <- Hfn in Hr. rewrite Hr by (unfold BLOOM_AHEAD; lia). rewrite Hfn.
    assert (length hs - Z.to_nat (Z.min (Zlen hs) BLOOM_AHEAD) = length hs - 16)%nat as -> by (unfold BLOOM_AHEAD, Zlen; lia).
    transitivity (ofold add_fnv (take (length hs - 16) hs ++ drop (length hs - 16) hs) bl); [by rewrite ofold_app, Hs|by rewrite take_drop].
  - unfold fill_new. generalize (replicate (Z.to_nat BLOOM_AHEAD) 0). intros ring. generalize bl. induction hs as [|h hs IH]; intros b; [done|].
    cbn [ofold]. unfold fill_add at 2. cbn [bf_lookahead negb bf_bloom bf_ring bf_n]. destruct (add_fnv b h) as [b'|]; [|done]. cbn [option_bind mbind]. apply IH.
Qed.
End fill.

(** ** What a filter answers *)

Lemma zeros_shaped n : shaped (replicate n (replicate 8 0)).
Proof. apply Forall_replicate. split; [done|]. by repeat constructor. Qed.

Lemma zeros_bits n bi w i : bit_at (replicate n (replicate 8 0)) bi w i = false.
Proof.
  unfold bit_at. destruct (get_at (replicate n (replicate 8 0)) bi) as [b|] eqn:E; [|done]. cbn [option_bind mbind].
  apply get_at_Some in E as [_ E]. apply lookup_replicate in E as [-> _].
  destruct (get_at (replicate 8 0) w) as [x|] eqn:E; [|done]. apply get_at_Some in E as [_ E]. apply lookup_replicate in E as [-> _]. apply Z.bits_0.
Qed.

Lemma all_set_spec b bl bi ps : shaped bl -> get_at bl bi = Some b -> Forall probe_ok ps ->
  exists r, all_set b ps = Some r /\ (r = true <-> Forall (fun p => forall i, snd p = 2 ^ i -> 0 <= i < 64 -> bit_at bl bi (fst p) i = true) ps).
Proof.
  intros Hs Hb Hp. assert (Zlen b = 8) as Hl by (apply get_at_Some in Hb as [_ Hb]; exact (proj1 (Forall_lookup_1 _ _ _ _ Hs Hb))).
  induction Hp as [|p ps (Hw & i & Hi & Hm) Hp IH]; cbn [all_set]; [by exists true|].
  destruct p as [w m]. cbn [fst snd] in *. subst m. destruct (get_at_is_Some b w) as [x Ex]; [lia|]. rewrite Ex. cbn [option_bind mbind].
  assert (bit_at bl bi w i = Z.testbit x i) as Hbit by (unfold bit_at; rewrite Hb; cbn [option_bind mbind]; by rewrite Ex).
  assert ((Z.land x (2 ^ i) =? 0) = negb (Z.testbit x i)) as ->.
  { destruct (Z.testbit x i) eqn:Et; cbn [negb].
    - apply Z.eqb_neq. intros H0. assert (Z.testbit (Z.land x (2 ^ i)) i = false) as Hf by (by rewrite H0, Z.bits_0).
      rewrite Z.land_spec, Et, Z.pow2_bits_true in Hf by lia. done.
    - apply Z.eqb_eq. apply Z.bits_inj'. intros j Hj. rewrite Z.land_spec, Z.bits_0, Z.pow2_bits_eqb by lia.
      destruct (Z.eqb_spec i j) as [<-|]; [by rewrite Et|apply andb_false_r]. }
  rewrite negb_involutive. destruct (Z.testbit x i) eqn:Et.
  - destruct IH as (r & -> & Hr). exists r. split; [done|]. rewrite Hr, Forall_cons. cbn [fst snd]. split; [|tauto]. intros H. split; [|done].
    intros j Ej Hj. assert (j = i) as -> by (apply (Z.pow_inj_r 2); lia). by rewrite Hbit.
  - exists false. split; [done|]. split; [done|]. intros H. apply Forall_cons in H as [H _]. cbn [fst snd] in H. specialize (H i eq_refl Hi). by rewrite Hbit in H.
Qed.

(** A key's slots, as they are for a filter of [n] blocks. *)
Definition key_block (n : Z) (key : bytes) : Z := block_of_hash n (bloom_hash key).
Definition key_probes (key : bytes) : list (Z * Z) := probes_of (bloom_hash key).

Lemma contains_spec n keys bl : 0 < n -> shaped bl -> Zlen bl = n -> 
  (forall bj w i, 0 <= i < 64 -> bit_at bl bj w i = existsb (fun k => sets (key_block n k) (key_probes k) bj w i) keys) ->
  forall key, exists r, maybe_contains bl key = Some r /\
    (r = true <-> forall p, p ∈ key_probes key -> exists k, k ∈ keys /\ key_block n k = key_block n key /\ p ∈ key_probes k).
Proof.
  intros Hn Hs Hl Hbits key. unfold maybe_contains, slots. destruct (slots_spec bl (bloom_hash key) ltac:(lia)) as [-> Hb]. rewrite Hl in *. fold (key_block n key) in *. fold (key_probes key).
  cbn [option_bind mbind]. destruct (get_at_is_Some bl (key_block n key)) as [b Eb]; [lia|]. rewrite Eb. cbn [option_bind mbind].
  destruct (all_set_spec b bl _ (key_probes key) Hs Eb (probes_ok _ _)) as (r & -> & Hr). exists r. split; [done|]. rewrite Hr, Forall_forall.
  assert (forall p, probe_ok p -> (forall i, snd p = 2 ^ i -> 0 <= i < 64 -> bit_at bl (key_block n key) (fst p) i = true) <->
    exists k, k ∈ keys /\ key_block n k = key_block n key /\ p ∈ key_probes k) as H1.
  { intros [w m] (_ & i & Hi & Hm). cbn [fst snd] in *. subst m. split.
    - intros H. specialize (H i eq_refl Hi). rewrite Hbits in H by done. apply existsb_exists in H as (k & Hk & Hset). exists k. split; [by apply list_elem_of_In|].
      unfold sets in Hset. apply andb_true_iff in Hset as [H1%Z.eqb_eq H2]. split; [done|]. apply existsb_exists in H2 as ([w' m'] & Hin & H3).
      apply andb_true_iff in H3 as [H3%Z.eqb_eq H4%Z.eqb_eq]. cbn [fst snd] in *. subst. by apply list_elem_of_In.
    - intros (k & Hk & Hkb & Hp) j Hj Hj0. assert (j = i) as -> by (apply (Z.pow_inj_r 2); lia). rewrite Hbits by done. apply existsb_exists. exists k.
      split; [by apply list_elem_of_In|]. unfold sets. rewrite Hkb, Z.eqb_refl. cbn [andb]. apply existsb_exists. exists (w, 2 ^ i). split; [by apply list_elem_of_In|].
      cbn [fst snd]. by rewrite !Z.eqb_refl. }
  assert (forall p, p ∈ key_probes key -> probe_ok p) as Hok by (intros p Hp; pose proof (probes_ok 4 (bloom_hash key)) as Ha; rewrite Forall_forall in Ha; by apply Ha).
  split; intros H p Hp; apply H1; auto.
Qed.

(** ** Words and blocks *)

Lemma chunks_concat (n : nat) (rows : list bytes) fuel : (0 < n)%nat -> Forall (fun r => length r = n) rows -> (length (concat rows) <= fuel)%nat ->
  as_chunks_go fuel n (concat rows) = rows.
Proof.
  intros Hn Hr. revert fuel. induction Hr as [|r rows Hl Hr IH]; intros fuel Hf; [destruct fuel; [done|]; cbn; unfold Zlen; by rewrite (proj2 (Z.ltb_lt _ _)) by (cbn; lia)|].
  cbn [concat] in *. rewrite length_app in Hf. destruct fuel as [|fuel]; [lia|]. cbn [as_chunks_go]. rewrite (proj2 (Z.ltb_ge _ _)) by (unfold Zlen; rewrite length_app; lia).
  rewrite (take_app_length' _ _ _ (eq_sym Hl)), (drop_app_length' _ _ _ (eq_sym Hl)). f_equal. apply IH. lia.
Qed.

Lemma words_roundtrip bl : shaped bl -> 0 < Zlen bl -> from_words (words bl) = Some bl.
Proof.
  intros Hs Hn. unfold from_words, words.
  assert (Forall (fun r => length r = 64%nat) (map (fun b => concat (map le64 b)) bl)) as Hrows.
  { apply Forall_map. eapply Forall_impl; [exact Hs|]. intros b [Hb _]. pose proof (Zlen_concat_le64 b) as H. unfold Zlen in *. lia. }
  assert (Zlen (concat (map (fun b => concat (map le64 b)) bl)) = 64 * Zlen bl) as Hl.
  { rewrite (Zlen_concat 64), Zlen_map; [done|]. eapply Forall_impl; [exact Hrows|]. intros r Hr. unfold Zlen. by rewrite Hr. }
  rewrite Hl. rewrite (proj2 (Z.eqb_neq _ _)) by lia. replace (64 * Zlen bl) with (Zlen bl * 64) by lia. rewrite Z.mod_mul by lia. cbn [Z.eqb negb orb].
  unfold as_chunks at 2. rewrite chunks_concat by (done || lia). f_equal. rewrite map_map. rewrite <- (map_id bl) at 2. apply map_ext_in.
  intros b Hb. apply list_elem_of_In in Hb. unfold shaped in Hs. rewrite Forall_forall in Hs. destruct (Hs b Hb) as [_ Hx]. unfold as_chunks. rewrite chunks_concat; [|lia| |done].
  - rewrite map_map. rewrite <- (map_id b) at 2. apply map_ext_in. intros x Hin. apply list_elem_of_In in Hin. rewrite Forall_forall in Hx. apply le_val_le64. by apply Hx.
  - apply Forall_map. apply Forall_forall. intros x _. pose proof (Zlen_le64 x). unfold Zlen in *. lia.
Qed.

(** The filter of some keys, however it is filled. *)
Lemma filter_built keys lookahead : Zlen keys * BLOOM_BITS_PER_KEY < U64 ->
  exists bl, from_fnv (map key_hash keys) lookahead = Some bl /\
    (b ← with_capacity (Zlen keys); ofold insert keys b) = Some bl /\ shaped bl /\ 0 < Zlen bl /\
    forall key, exists r, maybe_contains bl key = Some r /\
      (r = true <-> forall p, p ∈ key_probes key -> exists k, k ∈ keys /\ key_block (Zlen bl) k = key_block (Zlen bl) key /\ p ∈ key_probes k).
Proof.
  intros Hn. unfold from_fnv. rewrite Zlen_map. pose proof (Zlen_nonneg keys). unfold with_capacity, bloom_blocks_for.
  rewrite (proj2 (cmul_Some _ _ _) (conj eq_refl Hn)). cbn [option_bind mbind]. set (n := Z.max _ 1). set (b0 := replicate (Z.to_nat n) (replicate 8 0)).
  assert (Zlen b0 = n) as Hl0 by (unfold b0; rewrite Zlen_replicate; lia). rewrite fill_plain by (apply zeros_shaped || lia).
  destruct (add_all_spec b0 (map key_hash keys) (zeros_shaped _) ltac:(lia)) as (bl & Hbl & Hs & Hl & Hbits). exists bl.
  assert (forall bj w i, 0 <= i < 64 -> bit_at bl bj w i = existsb (fun k => sets (key_block (Zlen bl) k) (key_probes k) bj w i) keys) as Hb.
  { intros bj w i Hi. rewrite Hbits by done. unfold b0. rewrite zeros_bits. cbn [orb]. fold b0. rewrite <- Hl. clear. induction keys as [|k keys IH]; [done|].
    cbn [map existsb]. by rewrite IH. }
  split; [done|]. split; [|split; [done|split; [lia|exact (contains_spec (Zlen bl) keys bl ltac:(lia) Hs eq_refl Hb)]]].
  rewrite <- Hbl. clear. generalize b0. induction keys as [|k keys IH]; intros b; [done|]. cbn [map ofold]. rewrite insert_fnv. destruct (add_fnv b (key_hash k)); [apply IH|done].
Qed.

Lemma filter_answers (bl : BlockedBloom) (keys : list bytes) (key : bytes) : (forall key, exists r, maybe_contains bl key = Some r /\
    (r = true <-> forall p, p ∈ key_probes key -> exists k, k ∈ keys /\ key_block (Zlen bl) k = key_block (Zlen bl) key /\ p ∈ key_probes k)) ->
  key ∈ keys -> maybe_contains bl key = Some true.
Proof. intros Hc Hin. destruct (Hc key) as (r & -> & Hiff). f_equal. apply Hiff. intros p Hp. by exists key. Qed.

(** C35: a filter is exactly its keys' bits. For any keys few enough to size a
    filter for, the filter taken from the hashes the writer kept, with its
    bits set sixteen adds late or at once, and the one an open's walk of the
    keys inserts one by one are the same, and neither panics; it answers that
    it may hold a key exactly where every one of the key's four probe bits was
    set by some key of the same block, so every key put in it is answered for;
    and the words a form file stores of it read back as the filter itself. *)
Theorem bloom_exact keys lookahead : Zlen keys * BLOOM_BITS_PER_KEY < U64 ->
  exists bl, from_fnv (map key_hash keys) lookahead = Some bl /\
    (b ← with_capacity (Zlen keys); ofold insert keys b) = Some bl /\
    (forall key, exists r, maybe_contains bl key = Some r /\
      (r = true <-> forall p, p ∈ key_probes key -> exists k, k ∈ keys /\ key_block (Zlen bl) k = key_block (Zlen bl) key /\ p ∈ key_probes k)) /\
    (forall key, key ∈ keys -> maybe_contains bl key = Some true) /\
    from_words (words bl) = Some bl.
Proof.
  intros Hn. destruct (filter_built keys lookahead Hn) as (bl & H1 & H2 & Hs & Hl & Hc). exists bl.
  split; [done|]. split; [done|]. split; [exact Hc|]. split; [|by apply words_roundtrip]. intros key. by apply filter_answers.
Qed.

Lemma bloom_exact_witness : exists bl, from_fnv (map key_hash [[x61]; [x62]]) true = Some bl /\ maybe_contains bl [x62] = Some true.
Proof.
  destruct (bloom_exact [[x61]; [x62]] true) as (bl & H1 & _ & _ & H2 & _); [reflexivity|]. exists bl. split; [exact H1|]. apply H2. right. left.
Defined.
