(* ===== verification/Inputs.v ===== *)
(** * A merge's inputs

    A segment opened for a merge ([merge_open_inputs], [src/src/db.rs], lines
    12385 to 12408): what the walk and the second pass read of it, proved of any
    file the segment writer finished -- its keys by rank, each key's tombstone
    and how many values it has, and its values from any state the reads of this
    input and of the others leave the readers in. *)

From S2P Require Import Prelude State Varint Runs Crc Chunks BlockTable Records HashTable FlatIndex FlatRead FlatSection Reserve Superblock Blob BlobCache Merge SegmentWriter SegmentHolds SegmentFinish SegmentRead Segment.

#[local] Open Scope state_scope.

(** ** A read touches the thread's buffer as its own *)

Section tame.
Context (d : bytes -> bytes -> bytes * bool) (src : Source) (B : Blob) (blk_base : Z) (sums : bool).

(** The buffer is as it was, or is this reader's or nobody's. *)
Definition mine (at_ : option (Z * Z * Z * Z)) : Prop := match at_ with Some (id, _, _, _) => id = blob_id B | None => True end.
Definition tame_step (rs rs' : Reader) : Prop :=
  rs_dec rs' = rs_dec rs /\ rs_dec_at rs' = rs_dec_at rs /\ rs_decodes rs' = rs_decodes rs \/ mine (rs_dec_at rs').
Definition tame {A} (m : R A) : Prop := forall rs r rs', m rs = Some (r, rs') -> tame_step rs rs'.

Lemma tame_refl rs : tame_step rs rs.
Proof. by left. Qed.

Lemma tame_trans a b c : tame_step a b -> tame_step b c -> tame_step a c.
Proof.
  intros [(H1 & H2 & H3)|H] [(H4 & H5 & H6)|H']; try (by right).
  - left. split_and!; congruence.
  - right. by rewrite H5.
Qed.

Lemma tame_bind {A C} (m : R A) (k : A -> R C) : tame m -> (forall a, tame (k a)) -> tame (bind m k).
Proof.
  intros Hm Hk rs r rs'. unfold bind. destruct (m rs) as [[[a|e] rs1]|] eqn:E; [| |done]; intros H; apply Hm in E.
  - eapply tame_trans; [exact E|]. by eapply Hk.
  - by injection H as <- <-.
Qed.

Lemma tame_ret {A} (a : A) : tame (ret a). Proof. intros rs r rs' [= _ <-]. apply tame_refl. Qed.
Lemma tame_fail {A} m : tame (@fail Reader A m). Proof. intros rs r rs' [= _ <-]. apply tame_refl. Qed.
Lemma tame_gets {A} (f : Reader -> A) : tame (gets f). Proof. intros rs r rs' [= _ <-]. apply tame_refl. Qed.
Lemma tame_expect {A} (o : option A) : tame (expect o). Proof. intros rs r rs'. unfold expect. destruct o; [|done]. intros [= _ <-]. apply tame_refl. Qed.
Lemma tame_lift {A} (x : result A) : tame (lift x). Proof. intros rs r rs' [= _ <-]. apply tame_refl. Qed.
Lemma tame_modify f : (forall rs, tame_step rs (f rs)) -> tame (modify f). Proof. intros H rs r rs' [= _ <-]. apply H. Qed.

Lemma tame_verified i j rs : tame_step rs (set_verified i j rs).
Proof. by left. Qed.

Hint Resolve tame_ret tame_fail tame_gets tame_expect tame_lift tame_verified : core.

Lemma tame_whole id loc raw base : tame (verify_whole id loc raw base).
Proof.
  unfold verify_whole. destruct (_ || _); [auto|]. apply tame_bind; [auto|]. intros [|]; [auto|]. destruct (negb _); [auto|]. apply tame_modify. auto.
Qed.

Lemma tame_chunks id loc raw base js : tame (verify_chunks B id loc raw base js).
Proof.
  induction js as [|j js IH]; cbn [verify_chunks]; [auto|]. destruct (mapped_chunk_crc _ _ _ _); [|apply tame_whole]. destruct (_ && _); [|apply tame_whole].
  apply tame_bind; [auto|]. intros [|]; [done|]. apply tame_bind; [auto|]. intros p. destruct (negb _); [auto|]. apply tame_bind; [apply tame_modify; auto|]. by intros [].
Qed.

Lemma tame_verify id loc raw base lo hi : tame (verify B sums id loc raw base lo hi).
Proof. unfold verify. destruct (_ || _); [auto|]. destruct (_ || _); [apply tame_whole|apply tame_chunks]. Qed.

(** Decoding into the buffer leaves it nobody's until it is this reader's. *)
Lemma decode_keeps un dec rs r rs' : decode_into un dec rs = Some (r, rs') -> rs_dec_at rs' = rs_dec_at rs.
Proof.
  unfold decode_into, bind, gets, expect, modify, lift. destruct (get_range (rs_dec rs) 0 un); [|done]. destruct (dec _) as [[dst x]|]; [|done].
  destruct (put_range (rs_dec rs) 0 dst); [|done]. by intros [= _ <-].
Qed.

Lemma tame_decoded un dec at_ : tame (do* tt := modify forget in do* tt := decode_into un dec in modify (set_dec_at B at_)).
Proof.
  intros rs r rs'. unfold bind at 1, modify at 1. unfold bind. destruct (decode_into un dec (forget rs)) as [[[[]|e] rs1]|] eqn:E; [| |done]; apply decode_keeps in E.
  - intros [= _ <-]. right. unfold set_dec_at, mine. cbn [rs_dec_at]. by destruct at_ as [[[x y] z]|].
  - intros [= _ <-]. right. by rewrite E.
Qed.

Lemma tame_extent e : tame (with_extent d src B blk_base sums e).
Proof.
  unfold with_extent. destruct (is_inline e); [auto|]. apply tame_bind; [auto|]. intros loc. destruct (chunk_span loc e) as [c0 c1].
  apply tame_bind; [auto|]. intros at_. apply tame_bind; [auto|]. intros raw. destruct (is_plain loc).
  - destruct (_ || _); [auto|]. apply tame_bind; [apply tame_verify|]. intros []. auto.
  - destruct (_ <? _); [auto|]. apply tame_bind.
    { apply tame_modify. intros rs. unfold grow. destruct (_ <? _); [by right|by left]. }
    intros []. apply tame_bind; [|intros []; apply tame_bind; auto]. destruct (bl_chunked loc).
    + unfold decode_chunks. apply tame_bind; [auto|]. intros have. match goal with |- tame (if ?c then _ else _) => destruct c end; [auto|]. apply tame_decoded.
    + unfold decode_block. apply tame_bind; [apply tame_verify|]. intros []. apply tame_bind; [auto|]. intros have.
      match goal with |- tame (if ?c then _ else _) => destruct c end; [auto|]. apply tame_decoded.
Qed.

Lemma tame_run e tail : tame (with_run d src B blk_base sums e tail).
Proof. unfold with_run. destruct (is_inline e); [apply tame_bind; auto|apply tame_extent]. Qed.

Lemma tame_exts exts tail n : tame (read_go d src B blk_base sums exts tail n).
Proof.
  revert n. induction exts as [|e exts IH]; intros n; cbn [read_go]; [auto|]. intros rs r rs'. destruct (with_run _ _ _ _ _ e tail rs) as [[[run|m] rs1]|] eqn:E; [| |done]; apply tame_run in E.
  - destruct (each_value run e) as [vs [k|m]]; [|by intros [= _ <-]]. intros H. eapply tame_trans; [exact E|]. revert H. apply tame_bind; [apply IH|]. intros [vs' r']. auto.
  - by intros [= _ <-].
Qed.

Lemma tame_read_all key_base k : tame (read_all d src B key_base blk_base sums k).
Proof. unfold read_all, blob_with_lookup. rewrite with_lookup_full. destruct (lookup_full _ _ _ _ _) as [[e t]|]; cbn; [apply tame_exts|auto]. Qed.

Lemma tame_values key_base i : tame (values_at d src B key_base blk_base sums i).
Proof. unfold values_at. rewrite with_record_full. destruct (at_full _ _ _ _) as [[[k e] t]|]; cbn; [apply tame_exts|auto]. Qed.
End tame.

(** ** What a segment promises of the puts it was finished from *)

Definition sum_records (exts : list Ext) : Z := sum (map records exts).
Definition any_tombstone (exts : list Ext) : bool := existsb is_tombstone exts.

(** Beyond [serves]: keys by rank, tombstones and counts of values. *)
Record holds_puts (d : bytes -> bytes -> bytes * bool) (sums : bool) (file : bytes) (key_base blk_base : Z) (B : Blob) (puts : list Put) : Prop := {
  hp_asc : ascending (keys_of puts);
  hp_keys : blob_keys B = Zlen puts;
  hp_key_at : forall i, key_at (blob_idx B) (key_sec B) i = get_at (keys_of puts) i;
  hp_exts : forall i p, get_at puts i = Some p -> exists exts, exts_at B key_base i = Some (p_key p, exts) /\
    sum_records (exts_deref exts) = Zlen (p_values p) /\ any_tombstone (exts_deref exts) = p_tomb p;
  hp_values : forall i p rs, get_at puts i = Some p -> reached d (bytes_source file) B blk_base sums rs ->
    exists rs', values_at d (bytes_source file) B key_base blk_base sums i rs = Some (Ok (p_values p, Ok (Zlen (p_values p))), rs') /\
      reached d (bytes_source file) B blk_base sums rs'
}.

Section finished.
Context (lz4 : bytes -> bytes) (d : bytes -> bytes -> bytes * bool) (Hlz4 : lz4_roundtrips lz4 d) (Hd : lz4_in_place d).
Context (sums sums' : bool) (set : Settings) (key_base blk_base ts generation : Z) (opts : BlobOptions) (id_ : Z).
Context (Hset : settings_ok set) (Hcheck : verify_checksums opts = true -> sums = true) (Hbase : aligned blk_base BLK_HEADER = true).
Context (puts : list Put) (Hputs : Forall put_ok puts) (Hasc : ascending (keys_of puts)).

Lemma placed_counts L im p e tail : put_ok p -> placed L im p (e, tail) -> records e = Zlen (p_values p) /\ is_tombstone e = p_tomb p.
Proof.
  intros (_ & Hn & Hb) (run & last & flag & Hr & He & _). unfold run_of in Hr.
  destruct (run_codec (p_values p) (e_block e) (e_off e) (p_tomb p) Hn Hb) as (run' & last' & flag' & Hr' & _ & H1 & H2 & _).
  rewrite Hr in Hr'. injection Hr' as <- <- <-. by rewrite He.
Qed.

Lemma finished_holds ets file : finished_file lz4 sums set key_base ts generation puts ets file ->
  exists B words, open_with (bytes_source file) blk_base opts id_ = Some (Ok (B, words)) /\ blob_id B = id_ /\
    holds_puts d sums' file key_base blk_base B puts /\
    forall dec at_, not_ours B at_ -> reached d (bytes_source file) B blk_base sums' (reader_of words dec at_).
Proof.
  intros (header & rest & f & hd & ps & Bs & blk_off & Hsec & Hok & Hpl & Hps & Hg1 & Hg2 & Hg3 & Hat & page & Hp & Hl & Hpick & _).
  edestruct (blob_opens lz4 sums set) with (opts := opts) (id_ := id_) as (words & Hopen & n & ->); try eassumption.
  eexists _, _. split; [exact Hopen|]. split; [done|]. pose proof (Forall2_length _ _ _ Hpl) as Hlen.
  assert (Zlen ets = Zlen puts) as Hn by (unfold Zlen; lia).
  split; [|intros dec at_ Hno; by apply reached_open].
  pose proof Hsec as [_ _ _ [_ Hat' Hk _ _] _ _ _ _ _].
  edestruct blob_keys_seek with (set := set) as [Hbk _]; try eassumption. split; [done|exact Hbk| | |].
  - intros i. change (key_at f (header ++ rest) i = get_at (keys_of puts) i). by rewrite Hk, entries_keys.
  - intros i p Hi. destruct (get_at_is_Some ets i) as [[e tail] He]; [pose proof (get_at_lt _ _ _ Hi); lia|].
    pose proof (entries_at (st_compact_records set) _ _ _ _ _ Hi He) as Hent.
    exists (exts_read [e] (st_compact_records set)). rewrite exts_read_deref. split.
    + unfold exts_at, exts_at_full. change (key_sec (blob_of set ts opts id_ header rest f ps Bs blk_off)) with (header ++ rest).
      change (blob_idx (blob_of set ts opts id_ header rest f ps Bs blk_off)) with f. by rewrite (Hat' i _ Hent).
    + apply get_at_Some in Hi as [_ Hi], He as [_ He]. destruct (placed_counts _ _ _ _ _ (Forall_lookup_1 _ _ _ _ Hputs Hi) (Forall2_lookup_lr _ _ _ _ _ _ Hpl Hi He)) as [H1 H2].
      unfold sum_records, any_tombstone. cbn. rewrite H1, H2. split; [lia|apply orb_false_r].
  - intros i p rs Hi Hrs. edestruct (blob_reads lz4 d Hlz4 Hd) as (rs' & _ & Hv & Hr); try eassumption. by exists rs'.
Qed.
End finished.
