(* ===== verification/Compact.v ===== *)
(** * A merge, run

    [src/src/db.rs], lines 7771 to 7908 and 11955 to 12489: the piece writer, the
    emitter that writes a merge's keys into its output pieces, the partition
    merge [compact_run] in its cursor arm and the piece merge [tier_run]. The
    directory is a map from names to files; a writer's bytes reach it when the
    file is finished and renamed. Left out: the arm that hashes every key
    ([Options::cursor_merge] off), the drop of pages behind the walk, thread
    priorities, counters, fsyncs and the numbers in messages. *)

From stdpp Require Import gmap.
From S2P Require Import Prelude State Varint Runs Crc Chunks BlockTable Records HashTable FlatIndex FlatRead FlatSection Reserve Superblock Blob BlobCache OrdIndex Fences Merge Names SegmentWriter SegmentHolds SegmentFinish SegmentRead Segment Inputs.

#[local] Open Scope state_scope.

#[export] Instance byte_countable : Countable byte := inj_countable' b2z z2b z2b_b2z.

Abbreviation Disk := (gmap bytes bytes).

(** ** The piece writer *)

Record PieceWriter := mkPW { pw_seg : SegmentWriter; pw_ord : Builder; pw_tombs : bool; pw_deferred : bool }.

Section piece_writer.
Context (lz4_compress : bytes -> bytes) (sums : bool) (target : Z).

Definition pw_create (set : Settings) : PieceWriter := mkPW (create_with set) builder_new false false.

Definition on_seg {A} (m : M A) : SM PieceWriter A := fun w =>
  match m (pw_seg w) with
  | None => None
  | Some (r, s) => Some (r, mkPW s (pw_ord w) (pw_tombs w) (pw_deferred w))
  end.

Definition pw_begin (k : bytes) : SM PieceWriter unit :=
  do* tt := modify (fun w => mkPW (pw_seg w) (builder_push (pw_ord w) k) (pw_tombs w) (pw_deferred w)) in
  on_seg (begin k).
Definition pw_value (v : bytes) : SM PieceWriter unit := on_seg (value v).
Definition pw_end_with (tombstone : bool) : SM PieceWriter unit :=
  do* tt := modify (fun w => mkPW (pw_seg w) (pw_ord w) (pw_tombs w || tombstone) (pw_deferred w)) in
  on_seg (end_with lz4_compress sums tombstone).
(** The segment's file, and the ordered index to write beside it. *)
Definition pw_finish (ts : Z) : SM PieceWriter (bytes * bytes) :=
  do* file := on_seg (finish lz4_compress sums target ts 1) in
  do* w := gets id in
  do* ord := expect (builder_finish (pw_ord w)) in
  ret (file, ord).
End piece_writer.

(** ** The run's state *)

Record Piece := mkPiece { pc_from : Z; pc_to : Z; pc_fence : Fence; pc_name : bytes; pc_tmp : bytes }.

Record Emitter := mkEmitter { em_pieces : list Piece; em_pi : Z; em_r : Z; em_w : option PieceWriter; em_out : list bytes }.

(** The verified words of every input's reader, and the thread's buffer they
    share. *)
Record Reads := mkReads { rd_words : list (list Z); rd_dec : bytes; rd_dec_at : option (Z * Z * Z * Z); rd_decodes : Z }.

Record Run := mkRun { ru_disk : Disk; ru_reads : Reads; ru_em : Emitter }.

Definition set_disk (f : Disk -> Disk) (s : Run) : Run := mkRun (f (ru_disk s)) (ru_reads s) (ru_em s).
Definition set_em (f : Emitter -> Emitter) (s : Run) : Run := mkRun (ru_disk s) (ru_reads s) (f (ru_em s)).

Definition on_writer {A} (m : SM PieceWriter A) : SM Run A := fun s =>
  match em_w (ru_em s) with
  | None => Some (Err "merge piece not open", s)
  | Some w =>
      match m w with
      | None => None
      | Some (r, w) => Some (r, set_em (fun e => mkEmitter (em_pieces e) (em_pi e) (em_r e) (Some w) (em_out e)) s)
      end
  end.

(** [write_ord]: the index under its temp name, renamed to its own. *)
Definition write_ord (seg_name ord : bytes) : SM Run unit :=
  do* name := require (ord_name_for seg_name) "segment name is malformed" in
  modify (set_disk (fun disk => <[name := ord]> (delete (name ++ str ".tmp") disk))).

(** The temp file under its own name. *)
Definition rename (tmp name file : bytes) : SM Run unit := modify (set_disk (fun disk => <[name := file]> (delete tmp disk))).

Definition remove_file (tmp : bytes) : SM Run unit := modify (set_disk (delete tmp)).

(** ** An input *)

Record Input := mkInput { in_file : bytes; in_blob : Blob }.

#[export] Instance blob_input : MergeInput Input :=
  {| input_keys i := blob_keys (in_blob i); input_key_at i r := key_at (blob_idx (in_blob i)) (key_sec (in_blob i)) r |}.

(** What does not change during a run: the coder both ways, the process's
    checksum switch, the fence's density, the clock, where sections and block
    tables are mapped, and what a segment is written with. *)
Record Env := mkEnv {
  ev_lz4 : bytes -> bytes;
  ev_unlz4 : bytes -> bytes -> bytes * bool;
  ev_sums : bool;
  ev_target : Z;
  ev_clock : bytes -> Z;
  ev_key_base : Z;
  ev_blk_base : Z;
  ev_set : Settings
}.

Section run.
Context (env : Env).
Local Abbreviation lz4 := (ev_lz4 env).
Local Abbreviation sums := (ev_sums env).
Local Abbreviation target := (ev_target env).

(** ** The emitter *)

(** The piece of the rank visited; its writer opened at its first rank. *)
Definition enter (k : option bytes) : SM Run Z :=
  do* e := gets ru_em in
  do* p := require (get_at (em_pieces e) (em_pi e)) "merge visited a key past its last piece" in
  do* tt := refuse_if ((em_r e <? pc_from p) || (pc_to p <=? em_r e)) "merge slices leave a key unassigned" in
  do* tt := (match k with
             | Some k => refuse_if (negb (Zlen (fst (pc_fence p)) =? 0) && bltb k (fst (pc_fence p)) || past k (snd (pc_fence p)))
                           "compaction would write a key outside its fence"
             | None => ret tt
             end) in
  do* tt := (if em_r e =? pc_from p then
               do* tt := remove_file (pc_tmp p) in
               modify (set_em (fun e => mkEmitter (em_pieces e) (em_pi e) (em_r e) (Some (pw_create (ev_set env))) (em_out e)))
             else ret tt) in
  ret (pc_to p).

(** Past the rank visited; at a piece's last, finished and renamed. *)
Definition leave (to : Z) : SM Run unit :=
  do* tt := modify (set_em (fun e => mkEmitter (em_pieces e) (em_pi e) (em_r e + 1) (em_w e) (em_out e))) in
  do* e := gets ru_em in
  if em_r e =? to then
    do* p := expect (get_at (em_pieces e) (em_pi e)) in
    do* (file, ord) := on_writer (pw_finish lz4 sums target (ev_clock env (pc_name p))) in
    do* tt := write_ord (pc_name p) ord in
    do* tt := rename (pc_tmp p) (pc_name p) file in
    modify (set_em (fun e => mkEmitter (em_pieces e) (em_pi e + 1) (em_r e) None (em_out e ++ [pc_name p])))
  else ret tt.

Definition key_with (k : bytes) (tombstone : bool) (pull : SM Run unit) : SM Run unit :=
  do* to := enter (Some k) in
  do* tt := on_writer (pw_begin k) in
  do* tt := pull in
  do* tt := on_writer (pw_end_with lz4 sums tombstone) in
  leave to.

Definition em_key (k : bytes) (pull : SM Run unit) : SM Run unit := key_with k false pull.

Definition skip : SM Run unit := do* to := enter None in leave to.

Definition em_finish (total : Z) : SM Run (list bytes) :=
  do* e := gets ru_em in
  do* tt := refuse_if (negb (em_r e =? total) || negb (em_pi e =? Zlen (em_pieces e))) "merge ended with a piece still open" in
  ret (em_out e).

(** ** Reading the inputs *)

Definition reader_at {A} (i : Z) (m : R A) : SM Reads A := fun rd =>
  match get_at (rd_words rd) i with
  | None => None
  | Some words =>
      match m (mkReader words (rd_dec rd) (rd_dec_at rd) (rd_decodes rd)) with
      | None => None
      | Some (r, rs) =>
          match put_range (rd_words rd) i [rs_verified rs] with
          | None => None
          | Some all => Some (r, mkReads all (rs_dec rs) (rs_dec_at rs) (rs_decodes rs))
          end
      end
  end.

Definition on_reader {A} (i : Z) (m : R A) : SM Run A := fun s =>
  match reader_at i m (ru_reads s) with
  | None => None
  | Some (r, rd) => Some (r, mkRun (ru_disk s) rd (ru_em s))
  end.

Fixpoint pw_values (vs : list bytes) : SM PieceWriter unit :=
  match vs with [] => ret tt | v :: vs => do* tt := pw_value v in pw_values vs end.

(** The values of the inputs a key is drawn from, in order. *)
Fixpoint pull (inputs : list Input) (what : string) (tied : list (Z * Z)) : SM Run unit :=
  match tied with
  | [] => ret tt
  | (i, rank) :: tied =>
      do* b := expect (get_at inputs i) in
      do* (vs, r) := on_reader i (values_at (ev_unlz4 env) (bytes_source (in_file b)) (in_blob b) (ev_key_base env) (ev_blk_base env) sums rank) in
      do* tt := on_writer (pw_values vs) in
      match r with
      | Err _ => fail what
      | Ok _ => pull inputs what tied
      end
  end.

(** Where a key's values start, after the inputs older than its newest
    tombstone; how many are live; whether any input had a tombstone. *)
Fixpoint weigh (inputs : list Input) (j : Z) (tied : list (Z * Z)) (start live : Z) (tomb : bool) : SM Run (Z * Z * bool) :=
  match tied with
  | [] => ret (start, live, tomb)
  | (i, rank) :: rest =>
      do* b := expect (get_at inputs i) in
      do* (_, exts) := require (exts_at (in_blob b) (ev_key_base env) rank) no_rank in
      let dead := existsb is_tombstone (exts_deref exts) in
      let n := sum (map records (exts_deref exts)) in
      if dead then weigh inputs (j + 1) rest j n true else weigh inputs (j + 1) rest start (live + n) tomb
  end.

(** ** The inputs opened *)

Fixpoint merge_open_inputs (names : list bytes) (opts : BlobOptions) (id_ : Z) : SM Run (list Input * list (list Z)) :=
  match names with
  | [] => ret ([], [])
  | name :: names =>
      do* disk := gets ru_disk in
      do* file := require (disk !! name) "merge input" in
      do* r := expect (open_with (bytes_source file) (ev_blk_base env) opts id_) in
      do* (B, words) := lift r in
      do* (inputs, all) := merge_open_inputs names opts (id_ + 1) in
      ret (mkInput file B :: inputs, words :: all)
  end.

Definition opened (inputs : list (list Z)) : SM Run unit :=
  modify (fun s => mkRun (ru_disk s) (mkReads inputs (rd_dec (ru_reads s)) (rd_dec_at (ru_reads s)) (rd_decodes (ru_reads s))) (ru_em s)).

(** An input's ordered index, where its heads say whole keys. *)
Definition open_ord (disk : Disk) (heads : bool) (name : bytes) (b : Input) : option OrdIndex :=
  if negb heads then None
  else
    oname ← ord_name_for name;
    file ← disk !! oname;
    match open file (input_keys b) with
    | Err _ => None
    | Ok ord =>
        first ← input_key_at b 0;
        let ord := learn_prefix ord first in
        _ ← whole_key_at ord 0;
        Some ord
    end.

(** ** The partition merge *)

Record MergePlan := mkPlan {
  pl_inputs : list bytes;
  pl_first_id : Z;
  pl_end_seq : Z;
  pl_parts : Z;
  pl_fences : option (list Fence);
  pl_max_keys : Z;
  pl_checksums : bool;
  pl_heads : bool;
  pl_walk_cached : bool;
  pl_verify_inputs : bool
}.

(** Pass one: every distinct key into the slicer. *)
Definition push_key (k : bytes) (_ : list (Z * Z)) : SM Slicer unit := fun s =>
  match slicer_push k s with Some s => Some (Ok tt, s) | None => None end.

Definition slice_keys (plan : MergePlan) (inputs : list Input) (ords : list (option OrdIndex)) : SM Run Slicer :=
  match merge_keys inputs ords (pl_walk_cached plan) push_key (slicer_new (pl_fences plan) (pl_parts plan) (pl_max_keys plan)) with
  | None => expect None
  | Some (Err e, _) => fail e
  | Some (Ok _, s) => ret s
  end.

Definition compact_tmp (id : Z) : bytes := str "compact-" ++ dec_pad 8 id ++ str ".tmp".

(** The pieces the second pass visits, and the empty ones written here. *)
Fixpoint lay_pieces (plan : MergePlan) (pi : Z) (slices : list (Z * Z)) (given : list Fence) (pieces : list Piece) (empties : list bytes)
    : SM Run (list Piece * list bytes) :=
  match slices with
  | [] => ret (pieces, empties)
  | (from, to) :: slices =>
      do* id := expect (cadd (pl_first_id plan) pi) in
      do* f := expect (get_at given pi) in
      let name := par_name id (pl_end_seq plan) f in
      let tmp := compact_tmp id in
      if to <=? from then
        do* tt := remove_file tmp in
        match pw_finish lz4 sums target (ev_clock env name) (pw_create (ev_set env)) with
        | None => expect None
        | Some (Err e, _) => fail e
        | Some (Ok (file, ord), _) =>
            do* tt := write_ord name ord in
            do* tt := rename tmp name file in
            lay_pieces plan (pi + 1) slices given pieces (empties ++ [name])
        end
      else lay_pieces plan (pi + 1) slices given (pieces ++ [mkPiece from to f name tmp]) empties
  end.

(** Pass two, a key: its live values into its piece, or nothing of it. *)
Definition emit_live (inputs : list Input) (k : bytes) (tied : list (Z * Z)) : SM Run unit :=
  do* (start, live, _) := weigh inputs 0 tied 0 0 false in
  if live =? 0 then skip else em_key k (pull inputs "compact read" (drop (Z.to_nat start) tied)).

Definition start_emitter (pieces : list Piece) : SM Run unit := modify (set_em (fun _ => mkEmitter pieces 0 0 None [])).

Definition compact_run (plan : MergePlan) (next_id : Z) : SM Run (list bytes) :=
  do* (inputs, words) := merge_open_inputs (pl_inputs plan) (mkBlobOptions (pl_checksums plan) (pl_verify_inputs plan) false) next_id in
  do* tt := opened words in
  do* disk := gets ru_disk in
  let ords := zip_with (open_ord disk (pl_heads plan)) (pl_inputs plan) inputs in
  do* slicer := slice_keys plan inputs ords in
  do* fin := expect (slicer_finish slicer) in
  match fin with
  | None => ret []
  | Some (slices, given, total) =>
      do* (pieces, empties) := lay_pieces plan 0 slices given [] [] in
      do* tt := start_emitter pieces in
      do* tt := merge_ranks inputs (pl_walk_cached plan) (emit_live inputs) in
      do* out := em_finish total in
      ret (out ++ empties)
  end.

(** ** The piece merge *)

Record TierPlan := mkTier {
  tp_inputs : list bytes;
  tp_id : Z;
  tp_end_seq : Z;
  tp_fence : Fence;
  tp_checksums : bool;
  tp_walk_cached : bool;
  tp_verify_inputs : bool
}.

Definition tier_tmp (id : Z) : bytes := str "tier-" ++ dec_pad 8 id ++ str ".tmp".

(** Pass two of a piece merge: the tombstone carried. *)
Definition emit_masked (inputs : list Input) (k : bytes) (tied : list (Z * Z)) : SM Run unit :=
  do* (start, live, tomb) := weigh inputs 0 tied 0 0 false in
  if (live =? 0) && negb tomb then skip else key_with k tomb (pull inputs "tier read" (drop (Z.to_nat start) tied)).

Definition count_keys (inputs : list Input) (cached : bool) : SM Run Z :=
  match merge_ranks inputs cached (fun _ _ => modify (fun n => n + 1)) 0 with
  | None => expect None
  | Some (Err e, _) => fail e
  | Some (Ok _, n) => ret n
  end.

Definition tier_run (plan : TierPlan) (next_id : Z) : SM Run (list bytes) :=
  do* (inputs, words) := merge_open_inputs (tp_inputs plan) (mkBlobOptions (tp_checksums plan) (tp_verify_inputs plan) false) next_id in
  do* tt := opened words in
  do* total := count_keys inputs (tp_walk_cached plan) in
  if total =? 0 then ret []
  else
    do* tt := start_emitter [mkPiece 0 total (tp_fence plan) (pcs_name (tp_id plan) (tp_end_seq plan) (tp_fence plan)) (tier_tmp (tp_id plan))] in
    do* tt := merge_ranks inputs (tp_walk_cached plan) (emit_masked inputs) in
    em_finish total.
End run.
