(* ===== verification/CompactHolds.v ===== *)
(** * What a merge leaves

    The run of [Compact] against what it means: for each key the values of the
    inputs from its newest tombstone on, oldest first, in one output piece. *)

From stdpp Require Import gmap.
From Stdlib Require Import Sorting.Sorted.
From S2P Require Import Prelude State Varint Runs Crc Chunks BlockTable Records HashTable FlatIndex FlatRead FlatSection Reserve Superblock Blob BlobCache OrdIndex Fences Merge Names SegmentWriter SegmentHolds SegmentFinish SegmentRead Segment Inputs Compact.

#[local] Open Scope state_scope.

(** ** What a key's inputs say of it *)

(** From the newest tombstone on; all of them where there is none. *)
Fixpoint since_tomb (vs : list Put) : list Put :=
  match vs with
  | [] => []
  | v :: rest => if existsb p_tomb rest then since_tomb rest else vs
  end.

Definition find_put (k : bytes) (puts : list Put) : option Put := List.find (fun p => beqb (p_key p) k) puts.

(** What each input holds of a key, oldest input first. *)
Definition versions (putss : list (list Put)) (k : bytes) : list Put := omap (find_put k) putss.
Definition live_values (vs : list Put) : list bytes := concat (map p_values (since_tomb vs)).

Lemma since_snoc vs v : since_tomb (vs ++ [v]) = if p_tomb v then [v] else since_tomb vs ++ [v].
Proof.
  induction vs as [|u vs IH]; [by destruct (p_tomb v)|]. cbn [app since_tomb]. rewrite existsb_app, IH. cbn [existsb]. rewrite orb_false_r.
  destruct (p_tomb v) eqn:E; [by rewrite orb_true_r|]. rewrite orb_false_r. by destruct (existsb p_tomb vs).
Qed.

(** The suffix from the last of them with a tombstone. *)
Lemma since_suffix vs : exists pre, vs = pre ++ since_tomb vs /\
  (existsb p_tomb vs = false -> pre = []) /\
  (existsb p_tomb vs = true -> exists v post, since_tomb vs = v :: post /\ p_tomb v = true /\ existsb p_tomb post = false).
Proof.
  induction vs as [|v vs (pre & E & H1 & H2)]; [by exists []|]. cbn [since_tomb existsb]. destruct (existsb p_tomb vs) eqn:Et.
  - exists (v :: pre). split; [by rewrite E at 1|]. rewrite orb_true_r. split; [done|]. intros _. by apply H2.
  - exists []. split; [done|]. rewrite orb_false_r. split; [done|]. intros Hv. by exists v, vs.
Qed.

(** A rank of each input, and what is there. *)
Definition drawn (putss : list (list Put)) (tied : list (Z * Z)) (vs : list Put) : Prop :=
  Forall2 (fun '(i, r) p => exists puts, get_at putss i = Some puts /\ get_at puts r = Some p) tied vs.

Lemma rank_find r puts k : match rank_in r (keys_of puts) k with
  | Some x => exists p, find_put k puts = Some p /\ r <= x /\ get_at puts (x - r) = Some p
  | None => find_put k puts = None
  end.
Proof.
  revert r. induction puts as [|p puts IH]; intros r; [done|]. unfold keys_of, find_put in *. cbn [map rank_in List.find].
  destruct (beqb (p_key p) k) eqn:E; [exists p; rewrite Z.sub_diag; split; [done|]; split; [lia|by apply get_at_here]|].
  specialize (IH (r + 1)). destruct (rank_in (r + 1) (map p_key puts) k) as [x|]; [|done]. destruct IH as (q & H1 & H2 & H3). exists q. split; [done|]. split; [lia|].
  rewrite get_at_cons by lia. by replace (x - r - 1) with (x - (r + 1)) by lia.
Qed.

Lemma ties_drawn putss k : drawn putss (ties (map keys_of putss) k) (versions putss k).
Proof.
  unfold ties. assert (forall pre rest j, j = Zlen pre -> drawn (pre ++ rest) (ties_go j (map keys_of rest) k) (versions rest k)) as H; [|by apply (H [] putss)].
  intros pre rest. revert pre. induction rest as [|puts rest IH]; intros pre j Hj; [constructor|]. cbn [map ties_go]. unfold versions. cbn [omap list_omap].
  assert (drawn (pre ++ puts :: rest) (ties_go (j + 1) (map keys_of rest) k) (versions rest k)) as Hr.
  { specialize (IH (pre ++ [puts]) (j + 1)). rewrite <- app_assoc in IH. apply IH. rewrite Zlen_app, Hj. by rewrite Zlen_cons. }
  pose proof (rank_find 0 puts k) as Hf. destruct (rank_in 0 (keys_of puts) k) as [x|]; [|by rewrite Hf].
  destruct Hf as (p & -> & _ & Hp). rewrite Z.sub_0_r in Hp. constructor; [|exact Hr]. exists puts. split; [by apply get_at_app_mid|done].
Qed.

Lemma drawn_drop putss tied vs n : drawn putss tied vs -> drawn putss (drop n tied) (drop n vs).
Proof. apply Forall2_drop. Qed.

(** ** Reading the inputs *)

Section reading.
Context (env : Env).
Context (inputs : list Input) (putss : list (list Put)).
Local Abbreviation reached_by b := (reached (ev_unlz4 env) (bytes_source (in_file b)) (in_blob b) (ev_blk_base env) (ev_sums env)).

(** Each input is a reader of its segment, and no two are the same reader. *)
Record inputs_hold : Prop := {
  ih_holds : Forall2 (fun b puts => holds_puts (ev_unlz4 env) (ev_sums env) (in_file b) (ev_key_base env) (ev_blk_base env) (in_blob b) puts) inputs putss;
  ih_apart : forall i j a b, get_at inputs i = Some a -> get_at inputs j = Some b -> i <> j -> blob_id (in_blob a) <> blob_id (in_blob b)
}.

Definition readers_ok (rd : Reads) : Prop :=
  Zlen (rd_words rd) = Zlen inputs /\
  forall i b w, get_at inputs i = Some b -> get_at (rd_words rd) i = Some w -> reached_by b (mkReader w (rd_dec rd) (rd_dec_at rd) (rd_decodes rd)).

Context (Hih : inputs_hold).

Lemma input_at i puts : get_at putss i = Some puts -> exists b, get_at inputs i = Some b /\
  holds_puts (ev_unlz4 env) (ev_sums env) (in_file b) (ev_key_base env) (ev_blk_base env) (in_blob b) puts.
Proof.
  intros [Hi Hp]%get_at_Some. destruct (Forall2_lookup_r _ _ _ _ _ (ih_holds Hih) Hp) as (b & Hb & Hh). exists b. split; [by apply get_at_Some|done].
Qed.

(** A read of one input leaves every reader fit for the next. *)
Lemma wp_reader_at {A} (m : R A) i b (P : A -> Prop) (rd : Reads) : get_at inputs i = Some b -> readers_ok rd -> tame (in_blob b) m ->
  (forall rs, reached_by b rs -> exists a rs', m rs = Some (Ok a, rs') /\ P a /\ reached_by b rs') ->
  wp (reader_at i m) (fun a rd' => P a /\ readers_ok rd') rd.
Proof.
  intros Hb [Hlen Hr] Ht Hm. pose proof (get_at_lt _ _ _ Hb) as Hlt. destruct (get_at_is_Some (rd_words rd) i) as [w Hw]; [lia|].
  destruct (Hm _ (Hr i b w Hb Hw)) as (a & rs & Hv & Ha & Hrs). unfold wp, reader_at. rewrite Hw, Hv.
  destruct (put_range_is_Some (rd_words rd) i [rs_verified rs]) as [all Hall]; [lia|change (Zlen [rs_verified rs]) with 1; lia|].
  rewrite Hall. split; [done|]. split; cbn [rd_words rd_dec rd_dec_at rd_decodes].
  - by rewrite (put_range_len _ _ _ _ Hall).
  - intros j c w' Hc Hw'. rewrite (put_range_get _ _ _ _ j Hall) in Hw'. change (Zlen [rs_verified rs]) with 1 in Hw'. destruct (decide (i <= j < i + 1)) as [Hj|Hj].
    + assert (j = i) as -> by lia. rewrite Z.sub_diag in Hw'. cbn in Hw'. injection Hw' as <-. rewrite Hb in Hc. injection Hc as <-. by destruct rs.
    + apply Ht in Hv. pose proof (Hr j c w' Hc Hw') as Hold. destruct Hv as [(H1 & H2 & H3)|Hmine].
      * cbn in H1, H2, H3. by rewrite H1, H2, H3.
      * change (reached_by c (mkReader (rs_verified (mkReader w' (rd_dec rd) (rd_dec_at rd) (rd_decodes rd))) (rs_dec rs) (rs_dec_at rs) (rs_decodes rs))).
        apply reached_other; [exact Hold|]. destruct (rs_dec_at rs) as [[[[id x] y] z]|]; [|done]. cbn in Hmine |- *. subst id. apply (ih_apart Hih i j); [done|done|lia].
Qed.

Lemma wp_values_at i r puts p (s : Run) : get_at putss i = Some puts -> get_at puts r = Some p -> readers_ok (ru_reads s) ->
  exists b, get_at inputs i = Some b /\
  wp (on_reader i (values_at (ev_unlz4 env) (bytes_source (in_file b)) (in_blob b) (ev_key_base env) (ev_blk_base env) (ev_sums env) r))
    (fun a s' => a = (p_values p, Ok (Zlen (p_values p))) /\ readers_ok (ru_reads s') /\ ru_disk s' = ru_disk s /\ ru_em s' = ru_em s) s.
Proof.
  intros Hi Hp Hr. destruct (input_at i puts Hi) as (b & Hb & Hh). exists b. split; [done|].
  assert (wp (reader_at i (values_at (ev_unlz4 env) (bytes_source (in_file b)) (in_blob b) (ev_key_base env) (ev_blk_base env) (ev_sums env) r))
    (fun a rd' => a = (p_values p, Ok (Zlen (p_values p))) /\ readers_ok rd') (ru_reads s)) as Hw.
  { apply (wp_reader_at _ _ b); [done|done|apply tame_values|]. intros rs Hrs. destruct (hp_values _ _ _ _ _ _ _ Hh r p _ Hp Hrs) as (rs' & Hv & Hrs').
    by eexists _, rs'. }
  unfold wp, on_reader in *. destruct (reader_at i _ _) as [[[a|e] rd]|]; [|done..]. cbn [ru_reads ru_disk ru_em]. naive_solver.
Qed.

(** *** The weighing *)

Definition total_values (vs : list Put) : Z := sum (map (fun p => Zlen (p_values p)) vs).

Lemma total_app a b : total_values (a ++ b) = total_values a + total_values b.
Proof. unfold total_values. by rewrite map_app, sum_app. Qed.

Lemma total_cons v vs : total_values (v :: vs) = Zlen (p_values v) + total_values vs.
Proof. reflexivity. Qed.

Lemma total_concat vs : total_values vs = Zlen (concat (map p_values vs)).
Proof. induction vs as [|v vs IH]; [done|]. cbn [map concat]. by rewrite total_cons, Zlen_app, IH. Qed.

Lemma weigh_spec tied vs : drawn putss tied vs -> forall old start (s : Run),
  0 <= start <= Zlen old -> drop (Z.to_nat start) old = since_tomb old ->
  exists start', 0 <= start' <= Zlen (old ++ vs) /\ drop (Z.to_nat start') (old ++ vs) = since_tomb (old ++ vs) /\
    weigh env inputs (Zlen old) tied start (total_values (since_tomb old)) (existsb p_tomb old) s =
    Some (Ok (start', total_values (since_tomb (old ++ vs)), existsb p_tomb (old ++ vs)), s).
Proof.
  induction 1 as [|[i r] p tied vs (puts & Hi & Hp) _ IH]; intros old start s Hs Hd; [exists start; rewrite app_nil_r; split; [done|by split]|].
  destruct (input_at i puts Hi) as (b & Hb & Hh). destruct (hp_exts _ _ _ _ _ _ _ Hh r p Hp) as (exts & He & Hn & Ht).
  cbn [weigh]. unfold bind, expect, require. rewrite Hb, He. cbn [ret]. unfold any_tombstone, sum_records in *. rewrite Ht, Hn.
  replace (old ++ p :: vs) with ((old ++ [p]) ++ vs) by (by rewrite <- app_assoc). pose proof (since_snoc old p) as Hsn. pose proof (Zlen_nonneg old).
  assert (Zlen (old ++ [p]) = Zlen old + 1) as Hl by (rewrite Zlen_app; by change (Zlen [p]) with 1).
  assert (existsb p_tomb (old ++ [p]) = existsb p_tomb old || p_tomb p) as Hex by (rewrite existsb_app; cbn; by rewrite orb_false_r).
  assert (total_values [p] = Zlen (p_values p)) as Hone by (rewrite total_cons; change (total_values []) with 0; lia).
  destruct (p_tomb p) eqn:Ep.
  - destruct (IH (old ++ [p]) (Zlen old) s) as (st & H1 & H2 & H3); [lia|rewrite Hsn, Zlen_to_nat; by apply drop_app_length|].
    exists st. split; [done|]. split; [done|]. rewrite <- H3, Hl, Hsn, Hex, orb_true_r. by rewrite Hone.
  - destruct (IH (old ++ [p]) start s) as (st & H1 & H2 & H3); [lia|rewrite Hsn, <- Hd; apply drop_app_le; unfold Zlen in Hs; lia|].
    exists st. split; [done|]. split; [done|]. rewrite <- H3, Hl, Hsn, Hex, orb_false_r. by rewrite total_app, Hone.
Qed.
End reading.

(** ** The piece writer in the run *)

Definition with_w (w : option PieceWriter) (s : Run) : Run := set_em (fun e => mkEmitter (em_pieces e) (em_pi e) (em_r e) w (em_out e)) s.

Lemma wp_on_writer {A} (m : SM PieceWriter A) Q w s : em_w (ru_em s) = Some w -> wp m Q w -> wp (on_writer m) (fun a s' => exists w', Q a w' /\ s' = with_w (Some w') s) s.
Proof. unfold wp, on_writer. intros ->. destruct (m w) as [[[a|e] w']|]; [|done..]. intros H. by exists w'. Qed.

Lemma wp_on_seg {A} (m : M A) Q w : wp m Q (pw_seg w) -> wp (on_seg m) (fun a w' => Q a (pw_seg w') /\ pw_ord w' = pw_ord w) w.
Proof. unfold wp, on_seg. by destruct (m (pw_seg w)) as [[[a|e] w']|]. Qed.

Lemma pw_values_on vs w : pw_values vs w = on_seg (values vs) w.
Proof.
  revert w. induction vs as [|v vs IH]; intros w; cbn [pw_values values]; [by destruct w|]. unfold bind, pw_value, on_seg.
  destruct (value v (pw_seg w)) as [[[[]|e] s]|]; [|done..]. rewrite IH. unfold on_seg. cbn [pw_seg pw_ord pw_tombs pw_deferred].
  by destruct (values vs s) as [[r s']|].
Qed.

(** What a run is given, besides its inputs. *)
Record env_ok (env : Env) : Prop := {
  en_lz4 : lz4_roundtrips (ev_lz4 env) (ev_unlz4 env);
  en_in_place : lz4_in_place (ev_unlz4 env);
  en_target : 0 < ev_target env;
  en_clock : forall name, 0 <= ev_clock env name < U64;
  en_key_base : 0 <= ev_key_base env /\ is_aligned (ev_key_base env) 4 = true;
  en_blk_base : aligned (ev_blk_base env) BLK_HEADER = true;
  en_set : settings_ok (ev_set env) /\ st_head_reserve (ev_set env) < 2 ^ 62 /\ st_marks (ev_set env) = false
}.

Section writer.
Context (env : Env) (Hen : env_ok env).
Local Abbreviation lz4 := (ev_lz4 env).
Local Abbreviation sums := (ev_sums env).
Local Abbreviation set := (ev_set env).

(** The puts a section can hold. *)
Record puts_fit (puts : list Put) : Prop := {
  pf_ok : Forall put_ok puts;
  pf_asc : ascending (keys_of puts);
  pf_recs : rec_sum (st_inline_max set) (st_compact_records set) (map lens_of puts) <= MAX_RECS
}.

Definition pw_holds (puts : list Put) (w : PieceWriter) : Prop :=
  (exists recs ets ps, Inv lz4 sums set puts recs ets ps (pw_seg w)) /\ pw_ord w = builder_of (keys_of puts).
Definition pw_within (puts : list Put) (k : bytes) (vs : list bytes) (w : PieceWriter) : Prop :=
  (exists recs ets ps, Opened lz4 sums set puts recs ets ps k vs (pw_seg w)) /\ pw_ord w = builder_of (keys_of puts ++ [k]).

Lemma pw_create_holds : pw_holds [] (pw_create set).
Proof. split; [|done]. exists [], [], []. apply inv_create, en_set, Hen. Qed.

Lemma wp_pw_begin puts k (w : PieceWriter) : pw_holds puts w -> Zlen k <= U16_MAX -> ascending (keys_of puts ++ [k]) ->
  wp (pw_begin k) (fun _ => pw_within puts k []) w.
Proof.
  intros [(recs & ets & ps & Hi) Ho] Hk Ha. unfold pw_begin. step.
  eapply wp_mono; [apply wp_on_seg; cbn [pw_seg]; by eapply wp_begin; [apply Hen|..]|]. intros [] w' [Hop Ho']. cbn [pw_ord] in Ho'.
  split; [by exists recs, ets, ps|]. rewrite Ho', Ho. unfold builder_of. by rewrite fold_left_app.
Qed.

Lemma wp_pw_values puts k vs vs' (w : PieceWriter) : pw_within puts k vs w -> Forall (fun v => Zlen v < U32) vs' -> Zlen (vs ++ vs') < 2 ^ 31 ->
  wp (pw_values vs') (fun _ => pw_within puts k (vs ++ vs')) w.
Proof.
  intros [(recs & ets & ps & Hi) Ho] Hv Hn. unfold wp. rewrite pw_values_on. fold (wp (on_seg (values vs')) (fun _ => pw_within puts k (vs ++ vs')) w).
  eapply wp_mono; [by apply wp_on_seg, wp_values|]. intros [] w' [Hop Ho']. split; [by exists recs, ets, ps|]. by rewrite Ho'.
Qed.

Lemma wp_pw_end puts k vs tomb (w : PieceWriter) : pw_within puts k vs w -> puts_fit (puts ++ [mkPut k vs tomb]) ->
  wp (pw_end_with lz4 sums tomb) (fun _ => pw_holds (puts ++ [mkPut k vs tomb])) w.
Proof.
  intros [(recs & ets & ps & Hi) Ho] [Hp Ha Hm]. unfold pw_end_with. step. apply Forall_app in Hp as [_ [Hp _]%Forall_cons].
  pose proof (c_exact _ _ _ _ _ _ _ _ _ (o_core _ _ _ _ _ _ _ _ _ _ Hi) (proj2 (proj2 (en_set _ Hen)))) as Hx.
  eapply wp_mono; [apply wp_on_seg; cbn [pw_seg]; eapply wp_end; [apply Hen|done..|]|].
  { rewrite map_app in Hm. cbn [map] in Hm. rewrite rec_sum_snoc in Hm. lia. }
  intros [] w' [(e & tail & ps' & Hi') Ho']. cbn [pw_ord] in Ho'. split; [by eexists _, _, _|]. rewrite Ho', Ho. unfold keys_of. by rewrite map_app.
Qed.

(** What a finished piece is: a segment of the puts and an index of their
    keys. *)
Definition piece_files (puts : list Put) (ts : Z) (file ord : bytes) : Prop :=
  (exists ets, finished_file lz4 sums set (ev_key_base env) ts 1 puts ets file) /\
  builder_finish (builder_of (keys_of puts)) = Some ord.

Lemma keys_small puts : puts_fit puts -> Zlen (concat (keys_of puts)) < U32.
Proof.
  intros [Hp _ Hm]. destruct (lens_ok _ Hp) as [Hn _]. enough (Zlen (concat (keys_of puts)) <= rec_sum (st_inline_max set) (st_compact_records set) (map lens_of puts))
    by (unfold MAX_RECS, U32 in *; lia).
  clear Hp Hm. unfold rec_sum, keys_of. induction puts as [|p puts IH]; [done|]. cbn [map concat] in *. rewrite Zlen_app. apply Forall_cons in Hn as [H1 H2].
  cbn [sum fold_right]. fold (sum (map (key_rec (st_inline_max set) (st_compact_records set)) (map lens_of puts))). specialize (IH H2).
  destruct (key_rec_key (st_inline_max set) (st_compact_records set) (lens_of p)) as [H|H]; [cbn [lens_of fst] in H; lia|]. destruct H1. lia.
Qed.

Lemma wp_pw_finish puts ts (w : PieceWriter) : pw_holds puts w -> puts_fit puts -> 0 <= ts < U64 ->
  wp (pw_finish lz4 sums (ev_target env) ts) (fun '(file, ord) _ => piece_files puts ts file ord) w.
Proof.
  intros [(recs & ets & ps & Hi) Ho] Hf Hts. unfold pw_finish. destruct Hen as [_ _ Ht _ [Hb Hal] _ (Hset & Hhr & _)].
  apply wp_bind. eapply wp_mono; [by apply wp_on_seg; eapply (wp_finish lz4 sums set (ev_target env) (ev_key_base env)); try eassumption; unfold U64; lia|].
  intros file w' [Hfile Ho']. step. unfold id. rewrite Ho', Ho.
  pose proof (finish_from_bytes _ (pf_asc _ Hf)) as Hb'. rewrite <- (builder_finish_from _ (keys_small _ Hf)) in Hb'.
  apply wp_bind. eapply wp_expect; [exact Hb'|]. unfold wp. cbn [ret]. split; [by exists ets|exact Hb'].
Qed.
End writer.

(** ** A key's values pulled into a piece *)

Section pulling.
Context (env : Env) (Hen : env_ok env).
Context (inputs : list Input) (putss : list (list Put)) (Hih : inputs_hold env inputs putss).

Lemma with_w_reads w s : ru_reads (with_w w s) = ru_reads s. Proof. done. Qed.
Lemma with_w_disk w s : ru_disk (with_w w s) = ru_disk s. Proof. done. Qed.

(** Everything but the open writer's contents and the readers. *)
Definition same_run (s s' : Run) : Prop := ru_disk s' = ru_disk s /\ exists w, ru_em s' = ru_em (with_w w s).

Lemma same_run_trans a b c : same_run a b -> same_run b c -> same_run a c.
Proof. intros [H1 (w & H2)] [H3 (w' & H4)]. split; [congruence|]. exists w'. rewrite H4. unfold with_w, set_em. cbn [ru_em]. by rewrite H2. Qed.

Lemma same_run_w w s : same_run s (with_w w s).
Proof. split; [done|]. by exists w. Qed.

Lemma wp_pull what tied vs puts k vs0 w (s : Run) : drawn putss tied vs -> readers_ok env inputs (ru_reads s) ->
  Forall (fun p => put_ok p) vs -> em_w (ru_em s) = Some w -> pw_within env puts k vs0 w -> Zlen (vs0 ++ concat (map p_values vs)) < 2 ^ 31 ->
  wp (pull env inputs what tied) (fun _ s' => readers_ok env inputs (ru_reads s') /\ same_run s s' /\
    exists w', em_w (ru_em s') = Some w' /\ pw_within env puts k (vs0 ++ concat (map p_values vs)) w') s.
Proof.
  intros Hd. revert vs0 w s. induction Hd as [|[i r] p tied vs (ps & Hi & Hp) _ IH]; intros vs0 w s Hr Hf Hw Hop Hn; cbn [pull map concat] in *.
  - unfold wp. cbn [ret]. rewrite app_nil_r. split; [done|]. split; [split; [done|]; exists (Some w); unfold with_w, set_em; cbn; rewrite <- Hw; by destruct (ru_em s)|by exists w].
  - apply Forall_cons in Hf as [Hpo Hf]. destruct (wp_values_at env inputs putss Hih i r ps p s Hi Hp Hr) as (b & Hb & Hv).
    apply wp_bind. eapply wp_expect; [exact Hb|]. apply wp_bind. eapply wp_mono; [exact Hv|]. intros [vs1 res] s1 ([= -> ->] & Hr1 & Hd1 & He1).
    apply wp_bind. rewrite app_assoc in Hn. rewrite <- He1 in Hw.
    assert (Zlen (vs0 ++ p_values p) < 2 ^ 31) by (rewrite Zlen_app in Hn; pose proof (Zlen_nonneg (concat (map p_values vs))); lia).
    eapply wp_mono; [eapply wp_on_writer; [exact Hw|]; eapply wp_pw_values; [exact Hop| |done]; by apply prefixed_u32_lens, Hpo|].
    intros [] s2 (w2 & Hop2 & ->). cbv beta iota. eapply wp_mono; [eapply (IH (vs0 ++ p_values p) w2); try done|].
    intros [] s3 (Hr3 & Hs3 & w3 & Hw3 & Hop3). split; [done|]. rewrite <- app_assoc in Hop3. split; [|by exists w3].
    eapply same_run_trans; [|exact Hs3]. split; [by rewrite with_w_disk|]. exists (Some w2). unfold with_w, set_em. cbn [ru_em]. by rewrite He1.
Qed.
End pulling.

(** ** A piece written *)

(** A finished piece in the directory, its temp names gone. *)
Definition publish (name tmp oname file ord : bytes) (disk : Disk) : Disk :=
  <[name := file]> (delete tmp (<[oname := ord]> (delete (oname ++ str ".tmp") (delete tmp disk)))).

Section piece.
Context (env : Env) (Hen : env_ok env).
Context (inputs : list Input) (putss : list (list Put)) (Hih : inputs_hold env inputs putss) (Hputs : Forall (Forall put_ok) putss).
(** What is to be written of a key, and how a merge goes about it. *)
Context (outp : bytes -> option Put) (emit : bytes -> SM Run unit).

Definition emits (k : bytes) : Prop := forall s, match outp k with
  | None => emit k s = skip env s
  | Some p => p_key p = k /\ exists what tied vs, emit k s = key_with env k (p_tomb p) (pull env inputs what tied) s /\
      drawn putss tied vs /\ concat (map p_values vs) = p_values p
  end.

Lemma drawn_ok tied vs : drawn putss tied vs -> Forall put_ok vs.
Proof.
  induction 1 as [|[i r] p tied vs (puts & [_ Hi]%get_at_Some & [_ Hp]%get_at_Some) _ IH]; constructor; [|done].
  exact (Forall_lookup_1 _ _ _ _ (Forall_lookup_1 _ _ _ _ Hputs Hi) Hp).
Qed.

(** The piece under way, and what its run started from. *)
Context (pieces : list Piece) (pi : Z) (p : Piece) (Hp : get_at pieces pi = Some p) (out : list bytes) (disk : Disk).
Context (oname : bytes) (Hord : ord_name_for (pc_name p) = Some oname).

Record standing (r : Z) (s : Run) : Prop := {
  sd_pieces : em_pieces (ru_em s) = pieces;
  sd_pi : em_pi (ru_em s) = pi;
  sd_out : em_out (ru_em s) = out;
  sd_r : em_r (ru_em s) = r;
  sd_readers : readers_ok env inputs (ru_reads s)
}.

Definition writing (r : Z) (puts : list Put) (s : Run) : Prop :=
  standing r s /\ ru_disk s = delete (pc_tmp p) disk /\ exists w, em_w (ru_em s) = Some w /\ pw_holds env puts w.

(** Some of the piece's keys in. *)
Definition begun (pre : list bytes) (s : Run) : Prop :=
  if decide (pre = []) then standing (pc_from p) s /\ ru_disk s = disk else writing (pc_from p + Zlen pre) (omap outp pre) s.

Definition finished (puts : list Put) (s : Run) : Prop := exists file ord,
  piece_files env puts (ev_clock env (pc_name p)) file ord /\ ru_disk s = publish (pc_name p) (pc_tmp p) oname file ord disk /\
  em_pieces (ru_em s) = pieces /\ em_pi (ru_em s) = pi + 1 /\ em_out (ru_em s) = out ++ [pc_name p] /\ em_r (ru_em s) = pc_to p /\
  readers_ok env inputs (ru_reads s).

Lemma fence_admits k : in_fence k (pc_fence p) -> negb (Zlen (fst (pc_fence p)) =? 0) && bltb k (fst (pc_fence p)) || past k (snd (pc_fence p)) = false.
Proof.
  intros [Hl Hh]. apply orb_false_iff. split.
  - apply andb_false_iff. right. destruct (bltb_spec k (fst (pc_fence p))) as [H|]; [by apply ble_not_lt in Hl|done].
  - unfold past. destruct (snd (pc_fence p)) as [h|]; [|done]. destruct (bleb_spec h k) as [H|]; [by apply ble_not_lt in H|done].
Qed.

Lemma wp_enter ko pre s : begun pre s -> pc_from p + Zlen pre < pc_to p -> (forall k, ko = Some k -> in_fence k (pc_fence p)) ->
  wp (enter env ko) (fun to s' => to = pc_to p /\ writing (pc_from p + Zlen pre) (omap outp pre) s') s.
Proof.
  intros Hb Hlt Hk. pose proof (Zlen_nonneg pre). assert (standing (pc_from p + Zlen pre) s) as Hs.
  { unfold begun in Hb. destruct (decide (pre = [])) as [-> |]; [rewrite (@Zlen_nil bytes), Z.add_0_r; apply Hb|apply Hb]. }
  destruct Hs as [E1 E2 E3 E4 E5]. unfold enter. step. apply wp_bind. eapply wp_require; [by rewrite E1, E2|]. cbv beta iota.
  apply wp_bind, wp_pass; [rewrite E4; apply orb_false_iff; split; [apply Z.ltb_ge|apply Z.leb_gt]; lia|].
  apply wp_bind. eapply (wp_mono _ (fun _ s' => s' = s)); [destruct ko as [k|]; [apply wp_pass; [by apply fence_admits, Hk|done]|done]|]. intros [] s' ->.
  unfold begun in Hb. rewrite E4. destruct (decide (pre = [])) as [-> |Hne].
  - rewrite (@Zlen_nil bytes), Z.add_0_r in *. rewrite Z.eqb_refl. apply wp_bind. unfold remove_file. step. unfold wp. cbn [modify ret]. split; [done|].
    split; [by split|]. cbn. destruct Hb as [_ ->]. split; [done|]. eexists. split; [done|]. by apply pw_create_holds.
  - rewrite (proj2 (Z.eqb_neq _ _)) by (assert (Zlen pre <> 0) by (by intros ->%Zlen_zero_nil); lia). step. unfold wp. cbn [ret]. split; [done|]. apply Hb.
Qed.

Lemma wp_leave pre k s : writing (pc_from p + Zlen pre) (omap outp (pre ++ [k])) s -> pc_from p + Zlen pre < pc_to p -> puts_fit env (omap outp (pre ++ [k])) ->
  wp (leave env (pc_to p)) (fun _ s' => if pc_from p + Zlen (pre ++ [k]) =? pc_to p then finished (omap outp (pre ++ [k])) s' else begun (pre ++ [k]) s') s.
Proof.
  intros ([E1 E2 E3 E4 E5] & Hd & w & Hw & Hh) Hlt Hf. unfold leave. step. step. cbn [ru_em set_em em_r]. rewrite E4.
  assert (Zlen (pre ++ [k]) = Zlen pre + 1) as Hl by (rewrite Zlen_app; by change (Zlen [k]) with 1). rewrite Hl, Z.add_assoc. destruct (_ =? pc_to p) eqn:Ee.
  - apply Z.eqb_eq in Ee. cbn [em_pieces em_pi set_em ru_em]. rewrite E1, E2. apply wp_bind. eapply wp_expect; [exact Hp|]. apply wp_bind.
    eapply wp_mono; [eapply wp_on_writer; [cbn; exact Hw|]; eapply wp_pw_finish; [done|exact Hh|done|apply Hen]|]. intros [file ord] s' (w' & Hpf & ->).
    unfold write_ord. apply wp_bind, wp_bind. eapply wp_require; [exact Hord|]. unfold wp at 1, modify at 1. apply wp_bind. unfold rename, wp at 1, modify at 1.
    unfold wp, modify. exists file, ord. split; [exact Hpf|]. cbn. rewrite Hd, E1, E2, E3, E4, Ee. done.
  - unfold wp. cbn [ret]. unfold begun. destruct (decide (pre ++ [k] = [])) as [Hx|_]; [by destruct pre|]. rewrite Hl, Z.add_assoc. split; [|split; [done|by exists w]].
    split; cbn; try done. by rewrite E4.
Qed.

Lemma omap_snoc k (pre : list bytes) : omap outp (pre ++ [k]) = omap outp pre ++ match outp k with Some x => [x] | None => [] end.
Proof. rewrite omap_app. cbn [omap list_omap]. by destruct (outp k). Qed.

Lemma wp_emit pre k s : emits k -> begun pre s -> pc_from p + Zlen pre < pc_to p -> in_fence k (pc_fence p) -> puts_fit env (omap outp (pre ++ [k])) ->
  wp (emit k) (fun _ s' => if pc_from p + Zlen (pre ++ [k]) =? pc_to p then finished (omap outp (pre ++ [k])) s' else begun (pre ++ [k]) s') s.
Proof.
  intros He Hb Hlt Hk Hf. specialize (He s). unfold wp. pose proof Hf as Hf0. rewrite omap_snoc in Hf0. destruct (outp k) as [q|] eqn:Eo.
  - destruct He as (Hq & what & tied & vs & -> & Hd & Hvs). unfold key_with. fold (wp (do* to := enter env (Some k) in do* tt := on_writer (pw_begin k) in do* tt := pull env inputs what tied in do* tt := on_writer (pw_end_with (ev_lz4 env) (ev_sums env) (p_tomb q)) in leave env to)
      (fun _ s' => if pc_from p + Zlen (pre ++ [k]) =? pc_to p then finished (omap outp (pre ++ [k])) s' else begun (pre ++ [k]) s') s).
    destruct Hf0 as [Hpo Hpa Hpm]. assert (put_ok q) as (Hq1 & Hq2 & Hq3) by (apply Forall_app in Hpo as [_ Hpo]; by inversion Hpo).
    apply wp_bind. eapply wp_mono; [apply (wp_enter (Some k) pre); [done..|by intros ? [= <-]]|]. intros to s1 (-> & Hs1 & Hd1 & w & Hw & Hh).
    apply wp_bind. eapply wp_mono; [eapply wp_on_writer; [exact Hw|]; eapply wp_pw_begin; [done|exact Hh|by rewrite <- Hq|]|].
    { unfold keys_of in Hpa. rewrite map_app in Hpa. cbn [map] in Hpa. by rewrite Hq in Hpa. }
    intros [] s2 (w2 & Ho2 & ->). apply wp_bind. eapply wp_mono; [eapply (wp_pull env inputs putss Hih what tied vs _ k [] w2); try done; [apply Hs1|by eapply drawn_ok|]|].
    { cbn [app]. rewrite Hvs. lia. }
    intros [] s3 (Hr3 & [Hd3 (w3' & He3)] & w3 & Hw3 & Ho3). cbn [app] in Ho3. rewrite Hvs in Ho3.
    apply wp_bind. assert (mkPut k (p_values q) (p_tomb q) = q) as Hqq by (destruct q; cbn in *; by rewrite Hq).
    eapply wp_mono; [eapply wp_on_writer; [exact Hw3|]; eapply wp_pw_end; [done|exact Ho3|by rewrite Hqq]|].
    intros [] s4 (w4 & Hh4 & ->). rewrite Hqq in Hh4. destruct Hs1 as [F1 F2 F3 F4 F5]. apply (wp_leave pre k); [|done|by rewrite omap_snoc, Eo].
    rewrite omap_snoc, Eo. split; [|split; [cbn; rewrite Hd3; exact Hd1|by exists w4]]. split; cbn; try (rewrite He3; cbn; done). done.
  - rewrite He. unfold skip. fold (wp (do* to := enter env None in leave env to)
      (fun _ s' => if pc_from p + Zlen (pre ++ [k]) =? pc_to p then finished (omap outp (pre ++ [k])) s' else begun (pre ++ [k]) s') s).
    apply wp_bind. eapply wp_mono; [by apply (wp_enter None pre)|]. intros to s1 (-> & Hs1).
    apply (wp_leave pre k); [|done|done]. by rewrite omap_snoc, Eo, app_nil_r.
Qed.
End piece.

(** ** All of a run's pieces *)

Lemma each_app {St} (f : bytes -> SM St unit) a b s : each f (a ++ b) s = bind (each f a) (fun _ => each f b) s.
Proof.
  revert s. induction a as [|k a IH]; intros s; [done|]. cbn [app each]. unfold bind at 1 2 3. destruct (f k s) as [[[[]|e] s']|]; [|done..]. rewrite IH. done.
Qed.

Lemma puts_fit_prefix env a b : puts_fit env (a ++ b) -> puts_fit env a.
Proof.
  intros [Hp Ha Hm]. apply Forall_app in Hp as [Hp Hb]. destruct (lens_ok b Hb) as [Hn _]. split; [done| |].
  - unfold keys_of in *. rewrite map_app in Ha. by eapply ascending_app.
  - pose proof (rec_sum_four (st_inline_max (ev_set env)) (st_compact_records (ev_set env)) _ Hn). pose proof (Zlen_nonneg (map lens_of b)).
    rewrite map_app in Hm. unfold rec_sum in *. rewrite map_app, sum_app in Hm. lia.
Qed.

(** What goes into one output: where it is published, and its puts. *)
Record Slot := mkSlot { sl_name : bytes; sl_tmp : bytes; sl_oname : bytes; sl_puts : list Put }.

Inductive laid (env : Env) : list Slot -> Disk -> Disk -> Prop :=
| laid_nil d : laid env [] d d
| laid_cons x xs file ord d d' : piece_files env (sl_puts x) (ev_clock env (sl_name x)) file ord ->
    laid env xs (publish (sl_name x) (sl_tmp x) (sl_oname x) file ord d) d' -> laid env (x :: xs) d d'.

Lemma laid_app env xs ys d d1 d2 : laid env xs d d1 -> laid env ys d1 d2 -> laid env (xs ++ ys) d d2.
Proof. induction 1; [done|]. intros Hy. cbn [app]. econstructor; eauto. Qed.

(** The ranks of a piece, and its keys. *)
Definition keys_at (ks : list bytes) (from to : Z) : list bytes := take (Z.to_nat (to - from)) (drop (Z.to_nat from) ks).

Lemma keys_at_split ks from to : 0 <= from <= to -> drop (Z.to_nat from) ks = keys_at ks from to ++ drop (Z.to_nat to) ks.
Proof.
  intros H. unfold keys_at. replace (Z.to_nat to) with (Z.to_nat from + Z.to_nat (to - from))%nat by lia. rewrite <- drop_drop. symmetry. apply take_drop.
Qed.

Lemma Zlen_keys_at ks from to : 0 <= from <= to -> to <= Zlen ks -> Zlen (keys_at ks from to) = to - from.
Proof. intros H Hl. unfold keys_at, Zlen in *. rewrite length_take, length_drop. lia. Qed.

Lemma keys_at_get ks from to i k : 0 <= from <= to -> to <= Zlen ks -> (i < length (keys_at ks from to))%nat -> keys_at ks from to !! i = Some k -> get_at ks (from + Z.of_nat i) = Some k.
Proof.
  intros H Hl Hi Hk. unfold keys_at in *. rewrite lookup_take_lt in Hk by (rewrite length_take in Hi; lia). rewrite lookup_drop in Hk.
  apply get_at_Some. split; [lia|]. by replace (Z.to_nat (from + Z.of_nat i)) with (Z.to_nat from + i)%nat by lia.
Qed.

Section pieces.
Context (env : Env) (Hen : env_ok env).
Context (inputs : list Input) (putss : list (list Put)) (Hih : inputs_hold env inputs putss) (Hputs : Forall (Forall put_ok) putss).
Context (outp : bytes -> option Put) (emit : bytes -> SM Run unit).
Local Abbreviation emits := (emits env inputs putss outp emit).

Lemma wp_piece pieces pi p out disk oname pk s : get_at pieces pi = Some p -> ord_name_for (pc_name p) = Some oname -> Forall emits pk -> pk <> [] ->
  Zlen pk = pc_to p - pc_from p -> Forall (fun k => in_fence k (pc_fence p)) pk -> puts_fit env (omap outp pk) ->
  standing env inputs pieces pi out (pc_from p) s -> ru_disk s = disk ->
  wp (each emit pk) (fun _ => finished env inputs pieces pi p out disk oname (omap outp pk)) s.
Proof.
  intros Hp Ho He Hne Hl Hf Hfit Hs Hd.
  assert (begun env inputs outp pieces pi p out disk [] s) as Hb by (unfold begun; by destruct (decide ([] = []))).
  assert (forall rest pre s, pk = pre ++ rest -> rest <> [] -> begun env inputs outp pieces pi p out disk pre s ->
    wp (each emit rest) (fun _ => finished env inputs pieces pi p out disk oname (omap outp pk)) s) as Hgo; [|by apply (Hgo pk [])].
  clear s Hs Hd Hb. induction rest as [|k rest IH]; intros pre s E Hr Hb; [done|]. cbn [each]. rewrite E in He, Hf. apply Forall_app in He as [_ [Hk _]%Forall_cons], Hf as [_ [Hkf _]%Forall_cons].
  rewrite (app_assoc pre [k] rest : pre ++ k :: rest = (pre ++ [k]) ++ rest) in E.
  assert (puts_fit env (omap outp (pre ++ [k]))) as Hpf by (rewrite E, omap_app in Hfit; by eapply puts_fit_prefix).
  pose proof (Zlen_nonneg rest). assert (Zlen pk = Zlen pre + 1 + Zlen rest) as Hz by (rewrite E, !Zlen_app; by change (Zlen [k]) with 1).
  apply wp_bind. eapply wp_mono; [eapply (wp_emit env Hen inputs putss Hih Hputs outp emit pieces pi p Hp out disk oname Ho pre k); [exact Hk|exact Hb|lia|done|done]|].
  intros [] s1 Hs1. cbv beta in Hs1. rewrite Zlen_app in Hs1. change (Zlen [k]) with 1 in Hs1. destruct rest as [|k' rest].
  - rewrite (@Zlen_nil bytes) in Hz. rewrite (proj2 (Z.eqb_eq _ _)) in Hs1 by lia. unfold wp. cbn [each ret]. rewrite E, app_nil_r. exact Hs1.
  - rewrite Zlen_cons in Hz. pose proof (Zlen_nonneg rest). rewrite (proj2 (Z.eqb_neq _ _)) in Hs1 by lia. by apply (IH (pre ++ [k])).
Qed.

(** Pieces end to end over the ranks left, each with keys of its own. *)
Fixpoint run_of_pieces (a : Z) (ps : list Piece) (en : Z) : Prop :=
  match ps with [] => a = en | p :: ps => pc_from p = a /\ a < pc_to p /\ run_of_pieces (pc_to p) ps en end.

Lemma run_of_pieces_le a ps en : run_of_pieces a ps en -> a <= en.
Proof. revert a. induction ps as [|p ps IH]; intros a H; cbn in H; [lia|]. destruct H as (_ & ? & H). apply IH in H. lia. Qed.

Definition slot_of (ks : list bytes) (p : Piece) : Slot :=
  mkSlot (pc_name p) (pc_tmp p) (default [] (ord_name_for (pc_name p))) (omap outp (keys_at ks (pc_from p) (pc_to p))).

Definition piece_ok (ks : list bytes) (p : Piece) : Prop :=
  is_Some (ord_name_for (pc_name p)) /\ Forall (fun k => in_fence k (pc_fence p)) (keys_at ks (pc_from p) (pc_to p)) /\
  puts_fit env (omap outp (keys_at ks (pc_from p) (pc_to p))).

Lemma wp_pieces ks pieces rest : forall old a out s, pieces = old ++ rest -> Forall emits ks -> 0 <= a -> run_of_pieces a rest (Zlen ks) ->
  Forall (piece_ok ks) rest -> standing env inputs pieces (Zlen old) out a s ->
  wp (each emit (drop (Z.to_nat a) ks)) (fun _ s' => standing env inputs pieces (Zlen pieces) (out ++ map pc_name rest) (Zlen ks) s' /\
    laid env (map (slot_of ks) rest) (ru_disk s) (ru_disk s')) s.
Proof.
  induction rest as [|p rest IH]; intros old a out s E He Ha Hr Hok Hs; cbn [run_of_pieces map] in *.
  - subst a. rewrite Zlen_to_nat, drop_all. unfold wp. cbn [each ret]. rewrite !app_nil_r in *. subst old. split; [exact Hs|constructor].
  - destruct Hr as (Hfrom & Hlt & Hr). apply Forall_cons in Hok as [([oname Ho] & Hf & Hfit) Hok]. pose proof (run_of_pieces_le _ _ _ Hr) as Hle.
    rewrite (keys_at_split ks a (pc_to p)) by lia. unfold wp. rewrite each_app. rewrite Hfrom in Hf, Hfit.
    fold (wp (do* _ := each emit (keys_at ks a (pc_to p)) in each emit (drop (Z.to_nat (pc_to p)) ks))
      (fun _ s' => standing env inputs pieces (Zlen pieces) (out ++ pc_name p :: map pc_name rest) (Zlen ks) s' /\ laid env (slot_of ks p :: map (slot_of ks) rest) (ru_disk s) (ru_disk s')) s).
    pose proof (Zlen_keys_at ks a (pc_to p) ltac:(lia) ltac:(lia)) as Hz. apply wp_bind.
    eapply wp_mono; [eapply (wp_piece pieces (Zlen old) p out (ru_disk s) oname); try done|].
    + rewrite E. by apply get_at_app_mid.
    + eapply Forall_impl; [|intros k Hk; exact Hk]. unfold keys_at. by apply Forall_take, Forall_drop.
    + intros Hn. rewrite Hn, (@Zlen_nil bytes) in Hz. lia.
    + by rewrite Hz, Hfrom.
    + by rewrite Hfrom.
    + intros [] s1 (file & ord & Hpf & Hd1 & E1 & E2 & E3 & E4 & E5). eapply wp_mono; [eapply (IH (old ++ [p]) (pc_to p) (out ++ [pc_name p])); try done|].
      * by rewrite E, <- app_assoc.
      * lia.
      * split; try done. by rewrite E2, Zlen_app.
      * intros [] s2 [Hs2 Hl2]. rewrite <- app_assoc in Hs2. split; [exact Hs2|]. eapply laid_cons with (file := file) (ord := ord).
        -- unfold slot_of. cbn [sl_puts sl_name]. by rewrite Hfrom.
        -- unfold slot_of. cbn [sl_name sl_tmp sl_oname]. rewrite Ho. cbn [default from_option id]. unfold id. by rewrite <- Hd1.
Qed.
End pieces.
