(* ===== verification/CompactRun.v ===== *)
(** * A merge, end to end

    [compact_run] and [tier_run] against what a merge means. What is written of
    a key ([live_put], [masked_put]), the directory after a run ([laid]), the
    names of its outputs and that no two meet, the pieces laid out and the inputs
    opened; then the two runs: every output of a partition merge answers, of
    every key of its fence, the live values of the inputs ([merge_answers]), and
    the output of a piece merge stands for its inputs among any others
    ([tier_masks]). *)

From stdpp Require Import gmap.
From Stdlib Require Import Sorting.Sorted.
From S2P Require Import Prelude State Varint Runs Crc Chunks BlockTable Records HashTable FlatIndex FlatRead FlatSection Reserve Superblock Blob BlobCache OrdIndex Fences Merge Names SegmentWriter SegmentHolds SegmentFinish SegmentRead Segment Inputs Compact CompactHolds.

#[local] Open Scope state_scope.

(** ** What a merge writes of a key *)

Definition any_tomb (vs : list Put) : bool := existsb p_tomb vs.

(** A partition merge: the live values, no tombstone, and nothing of a key that
    has none. *)
Definition live_put (putss : list (list Put)) (k : bytes) : option Put :=
  match live_values (versions putss k) with [] => None | l => Some (mkPut k l false) end.

(** A piece merge: the live values, and the tombstone where there was one. *)
Definition masked_put (putss : list (list Put)) (k : bytes) : option Put :=
  let vs := versions putss k in
  match live_values vs with
  | [] => if any_tomb vs then Some (mkPut k [] true) else None
  | l => Some (mkPut k l (any_tomb vs))
  end.

Section emitting.
Context (env : Env) (inputs : list Input) (putss : list (list Put)) (Hih : inputs_hold env inputs putss).

Lemma weighed k s : exists start, weigh env inputs 0 (ties (map keys_of putss) k) 0 0 false s =
    Some (Ok (start, Zlen (live_values (versions putss k)), any_tomb (versions putss k)), s) /\
  drawn putss (drop (Z.to_nat start) (ties (map keys_of putss) k)) (since_tomb (versions putss k)).
Proof.
  pose proof (ties_drawn putss k) as Hd. destruct (weigh_spec env inputs putss Hih _ _ Hd [] 0 s ltac:(done) eq_refl) as (start & _ & H2 & H3).
  cbn [app] in *. exists start. unfold live_values. rewrite <- total_concat, <- H2. split; [rewrite H2; exact H3|by apply drawn_drop].
Qed.

Lemma Zlen_eqb_nil {A} (l : list A) : (Zlen l =? 0) = match l with [] => true | _ => false end.
Proof. destruct l; [done|]. rewrite Zlen_cons. pose proof (Zlen_nonneg l). apply Z.eqb_neq. lia. Qed.

Lemma emits_live k : emits env inputs putss (live_put putss) (fun k => emit_live env inputs k (ties (map keys_of putss) k)) k.
Proof.
  intros s. unfold live_put, emit_live. destruct (weighed k s) as (start & Hw & Hd). rewrite (bind_ok _ _ _ _ _ Hw), Zlen_eqb_nil.
  destruct (live_values (versions putss k)) as [|v l] eqn:El; [done|]. split; [done|]. by eexists _, _, _.
Qed.

Lemma emits_masked k : emits env inputs putss (masked_put putss) (fun k => emit_masked env inputs k (ties (map keys_of putss) k)) k.
Proof.
  intros s. unfold masked_put, emit_masked. destruct (weighed k s) as (start & Hw & Hd). rewrite (bind_ok _ _ _ _ _ Hw), Zlen_eqb_nil.
  destruct (live_values (versions putss k)) as [|v l] eqn:El; [destruct (any_tomb (versions putss k))|]; cbn [andb negb]; [|done|].
  - split; [done|]. by eexists _, _, _.
  - split; [done|]. by eexists _, _, _.
Qed.
End emitting.

(** ** The directory after *)

Definition footprint (x : Slot) : list bytes := [sl_name x; sl_tmp x; sl_oname x; sl_oname x ++ str ".tmp"].
Definition footprints (xs : list Slot) : list bytes := concat (map footprint xs).

Lemma publish_other name tmp oname file ord d y : y ∉ [name; tmp; oname; oname ++ str ".tmp"] -> publish name tmp oname file ord d !! y = d !! y.
Proof.
  rewrite !not_elem_of_cons. intros (H1 & H2 & H3 & H4 & _). unfold publish.
  by rewrite lookup_insert_ne, lookup_delete_ne, lookup_insert_ne, lookup_delete_ne, lookup_delete_ne by done.
Qed.

(** Where no two outputs share a name, each is there and nothing else moved. *)
Lemma laid_spec env xs d d' : laid env xs d d' -> NoDup (footprints xs) ->
  (forall y, y ∉ footprints xs -> d' !! y = d !! y) /\
  forall x, x ∈ xs -> d' !! sl_tmp x = None /\ d' !! (sl_oname x ++ str ".tmp") = None /\
    exists file ord, piece_files env (sl_puts x) (ev_clock env (sl_name x)) file ord /\ d' !! sl_name x = Some file /\ d' !! sl_oname x = Some ord.
Proof.
  induction 1 as [d|x xs file ord d d' Hp Hl IH]; intros Hn; [split; [done|by intros x ?%elem_of_nil]|].
  unfold footprints in Hn. cbn [map concat] in Hn. fold (footprints xs) in Hn. apply NoDup_app in Hn as (Hx & Hxs & Hn). destruct (IH Hn) as [Ho Hi]. split.
  - intros y Hy. change (footprints (x :: xs)) with (footprint x ++ footprints xs) in Hy. apply not_elem_of_app in Hy as [Hy1 Hy2]. rewrite Ho by done. by apply publish_other.
  - intros z [-> | Hz]%elem_of_cons; [|by apply Hi]. clear Hi IH. unfold footprint in *. rewrite !NoDup_cons, !not_elem_of_cons in Hx.
    destruct Hx as ((N1 & N2 & N3 & _) & (N4 & N5 & _) & (N6 & _) & _). unfold publish in Ho.
    split; [|split].
    + rewrite Ho by (apply Hxs; set_solver). by rewrite lookup_insert_ne, lookup_delete_eq by done.
    + rewrite Ho by (apply Hxs; set_solver). by rewrite lookup_insert_ne, lookup_delete_ne, lookup_insert_ne, lookup_delete_eq by done.
    + exists file, ord. split; [done|]. split; rewrite Ho by (apply Hxs; set_solver); [by rewrite lookup_insert_eq|].
      by rewrite lookup_insert_ne, lookup_delete_ne, lookup_insert_eq by done.
Qed.

(** ** The names of a merge's outputs *)

Lemma dec_pad_inj w i j : 0 <= i < U64 -> 0 <= j < U64 -> dec_pad w i = dec_pad w j -> i = j.
Proof. intros Hi Hj H. apply (f_equal parse_u64) in H. rewrite !parse_dec_pad in H by done. by injection H. Qed.

Lemma compact_tmp_inj i j : 0 <= i < U64 -> 0 <= j < U64 -> compact_tmp i = compact_tmp j -> i = j.
Proof. unfold compact_tmp. intros Hi Hj H%app_inv_head. apply app_inv_tail in H. by eapply dec_pad_inj. Qed.

Lemma ord_name_inj e i j : 0 <= i < U64 -> 0 <= j < U64 -> ord_name i e = ord_name j e -> i = j.
Proof. unfold ord_name. intros Hi Hj H%app_inv_head. apply app_inv_tail in H. by eapply dec_pad_inj. Qed.

Lemma par_name_ids i e f : 0 <= i < U64 -> 0 <= e < U64 -> name_id (par_name i e f) = Some i /\ ord_name_for (par_name i e f) = Some (ord_name i e).
Proof.
  intros Hi He. destruct (name_shapes i e f) as (_ & _ & E & _). rewrite E. unfold ord_name_for.
  destruct (ids_of (str "par-") i e (x2d :: hex (fst f) ++ x2d :: hi_hex (snd f))) as [E1 E2]; [tauto|done|done|by right; eexists|]. by rewrite E1, E2.
Qed.

Lemma last_ord i e : last (ord_name i e) = Some x78.
Proof. unfold ord_name. rewrite !app_assoc, last_app. done. Qed.
Lemma last_tmp (x : bytes) : last (x ++ str ".tmp") = Some x70.
Proof. by rewrite last_app. Qed.

Lemma hd_par i e f : List.hd_error (par_name i e f) = Some x70. Proof. reflexivity. Qed.
Lemma hd_ctmp i : List.hd_error (compact_tmp i) = Some x63. Proof. reflexivity. Qed.
Lemma hd_ord i e : List.hd_error (ord_name i e) = Some x6f. Proof. reflexivity. Qed.
Lemma hd_ord_tmp i e : List.hd_error (ord_name i e ++ str ".tmp") = Some x6f. Proof. reflexivity. Qed.

(** Names of different kinds start differently. *)
Ltac kinds E := apply (f_equal List.hd_error) in E; rewrite ?hd_par, ?hd_ctmp, ?hd_ord, ?hd_ord_tmp in E; discriminate E.

(** An output: its number among the slices, its ranks and its fence. *)
Abbreviation Cut := (Z * (Z * Z) * Fence)%type.

Fixpoint cuts (i : Z) (sl : list (Z * Z)) (gl : list Fence) : list Cut :=
  match sl, gl with s :: sl, g :: gl => (i, s, g) :: cuts (i + 1) sl gl | _, _ => [] end.

(** A cut with ranks of its own. *)
Definition is_full (c : Cut) : bool := let '(_, (from, to), _) := c in from <? to.

Section names.
Context (plan : MergePlan) (ks : list bytes) (outp : bytes -> option Put).
Definition cut_name (c : Cut) : bytes := let '(i, _, f) := c in par_name (pl_first_id plan + i) (pl_end_seq plan) f.
Definition cut_piece (c : Cut) : Piece := let '(i, (from, to), f) := c in mkPiece from to f (cut_name c) (compact_tmp (pl_first_id plan + i)).
Definition cut_keys (c : Cut) : list bytes := let '(_, (from, to), _) := c in keys_at ks from to.
Definition cut_slot (c : Cut) : Slot :=
  let '(i, (from, to), f) := c in
  mkSlot (cut_name c) (compact_tmp (pl_first_id plan + i)) (ord_name (pl_first_id plan + i) (pl_end_seq plan)) (omap outp (cut_keys c)).

(** The ids of a run's outputs are ids. *)
Definition ids_ok (n : Z) : Prop := 0 <= pl_first_id plan /\ pl_first_id plan + n <= U64 /\ 0 <= pl_end_seq plan < U64.

Lemma cuts_elem i sl gl c : c ∈ cuts i sl gl -> exists j s g, c = (i + j, s, g) /\ get_at sl j = Some s /\ get_at gl j = Some g.
Proof.
  revert i gl. induction sl as [|s sl IH]; intros i [|g gl]; cbn [cuts]; try by intros ?%elem_of_nil. intros [-> | Hc]%elem_of_cons.
  - exists 0, s, g. by rewrite Z.add_0_r, !get_at_here by done.
  - destruct (IH _ _ Hc) as (j & s' & g' & -> & Hs & Hg). pose proof (get_at_lt _ _ _ Hs). exists (j + 1), s', g'. split; [do 2 f_equal; lia|].
    rewrite !get_at_cons by lia. by replace (j + 1 - 1) with j by lia.
Qed.

Lemma cut_slot_of n c : ids_ok n -> 0 <= c.1.1 < n -> slot_of outp ks (cut_piece c) = cut_slot c /\ ord_name_for (pc_name (cut_piece c)) = Some (ord_name (pl_first_id plan + c.1.1) (pl_end_seq plan)).
Proof.
  intros (H1 & H2 & H3). destruct c as [[i [from to]] f]. cbn [fst snd]. intros Hi. unfold slot_of, cut_piece, cut_slot. cbn [pc_name pc_tmp pc_from pc_to].
  unfold cut_name. destruct (par_name_ids (pl_first_id plan + i) (pl_end_seq plan) f) as [_ ->]; [lia|done|]. done.
Qed.

Lemma footprint_apart n c c' x : ids_ok n -> 0 <= c.1.1 < n -> 0 <= c'.1.1 < n -> x ∈ footprint (cut_slot c) -> x ∈ footprint (cut_slot c') -> c.1.1 = c'.1.1.
Proof.
  intros (H1 & H2 & H3). destruct c as [[i [from to]] f], c' as [[j [from' to']] g]. cbn [fst snd]. intros Hi Hj.
  unfold footprint, cut_slot, cut_name. cbn [sl_name sl_tmp sl_oname]. rewrite !elem_of_cons.
  pose proof (last_ord (pl_first_id plan + i) (pl_end_seq plan)) as Li. pose proof (last_ord (pl_first_id plan + j) (pl_end_seq plan)) as Lj.
  pose proof (last_tmp (ord_name (pl_first_id plan + i) (pl_end_seq plan))) as Ti. pose proof (last_tmp (ord_name (pl_first_id plan + j) (pl_end_seq plan))) as Tj.
  intros [-> | [-> | [-> | [-> | []%elem_of_nil]]]] [E | [E | [E | [E | []%elem_of_nil]]]]; try (exfalso; kinds E).
  - apply (f_equal name_id) in E. destruct (par_name_ids (pl_first_id plan + i) (pl_end_seq plan) f) as [E1 _]; [lia|done|].
    destruct (par_name_ids (pl_first_id plan + j) (pl_end_seq plan) g) as [E2 _]; [lia|done|]. rewrite E1, E2 in E. injection E. lia.
  - apply compact_tmp_inj in E; lia.
  - apply ord_name_inj in E; lia.
  - rewrite E, Tj in Li. done.
  - rewrite E, Lj in Ti. done.
  - apply app_inv_tail, ord_name_inj in E; lia.
Qed.

Lemma footprint_NoDup n c : ids_ok n -> 0 <= c.1.1 < n -> NoDup (footprint (cut_slot c)).
Proof.
  intros _ _. destruct c as [[i [from to]] f]. unfold footprint, cut_slot, cut_name. cbn [sl_name sl_tmp sl_oname].
  pose proof (last_ord (pl_first_id plan + i) (pl_end_seq plan)) as Li. pose proof (last_tmp (ord_name (pl_first_id plan + i) (pl_end_seq plan))) as Ti.
  rewrite !NoDup_cons, !elem_of_cons, !elem_of_nil. split_and!; try apply NoDup_nil_2; try (intros [E | [E | [E | []]]]; kinds E); try (intros [E | [E | []]]; kinds E); try (by intros []).
  intros [E | []]. rewrite <- E, Li in Ti. done.
Qed.

Lemma cuts_NoDup n i sl gl : ids_ok n -> 0 <= i -> i + Zlen sl <= n -> NoDup (footprints (map cut_slot (cuts i sl gl))).
Proof.
  intros Hid. revert i gl. induction sl as [|s sl IH]; intros i [|g gl] Hi Hn; cbn [cuts map]; try apply NoDup_nil_2.
  rewrite Zlen_cons in Hn. pose proof (Zlen_nonneg sl). unfold footprints. cbn [map concat]. fold (footprints (map cut_slot (cuts (i + 1) sl gl))).
  apply NoDup_app. split; [apply (footprint_NoDup n); [done|cbn; lia]|]. split; [|apply IH; lia].
  intros x Hx Hy. apply list_elem_of_In, in_concat in Hy as (fp & Hfp & Hy%list_elem_of_In). apply in_map_iff in Hfp as (sl0 & <- & Hs). apply in_map_iff in Hs as (c & <- & Hc%list_elem_of_In).
  apply cuts_elem in Hc as (j & s' & g' & -> & Hj & _). pose proof (get_at_lt _ _ _ Hj).
  pose proof (footprint_apart n (i, s, g) (i + 1 + j, s', g') x Hid ltac:(cbn; lia) ltac:(cbn; lia) Hx Hy) as E. cbn in E. lia.
Qed.
End names.

(** ** The pieces laid out, and the empty ones written *)

Section laying.
Context (env : Env) (Hen : env_ok env) (plan : MergePlan) (ks : list bytes) (outp : bytes -> option Put).
Local Abbreviation full cs := (List.filter is_full cs).
Local Abbreviation empty cs := (List.filter (fun c => negb (is_full c)) cs).

Lemma puts_fit_nil : puts_fit env [].
Proof. split; [done| |done]. intros i j a b _ Ha. apply get_at_lt in Ha. unfold keys_of in Ha. cbn [map] in Ha. rewrite (@Zlen_nil bytes) in Ha. lia. Qed.

Lemma keys_at_none from to : to <= from -> keys_at ks from to = [].
Proof. intros H. unfold keys_at. by replace (Z.to_nat (to - from)) with 0%nat by lia. Qed.

Lemma wp_lay_pieces n sl : forall gl pre given ps es s, ids_ok plan n -> given = pre ++ gl -> Zlen given <= n -> length sl = length gl ->
  wp (lay_pieces env plan (Zlen pre) sl given ps es) (fun r s' =>
    r = (ps ++ map (cut_piece plan) (full (cuts (Zlen pre) sl gl)), es ++ map (cut_name plan) (empty (cuts (Zlen pre) sl gl))) /\
    laid env (map (cut_slot plan ks outp) (empty (cuts (Zlen pre) sl gl))) (ru_disk s) (ru_disk s') /\ ru_reads s' = ru_reads s) s.
Proof.
  induction sl as [|[from to] sl IH]; intros [|g gl] pre given ps es s Hid Eg Hn Hl; try done; cbn [lay_pieces cuts].
  - unfold wp. cbn [ret]. rewrite !app_nil_r. split; [done|]. split; [constructor|done].
  - injection Hl as Hl. assert (get_at given (Zlen pre) = Some g) as Hg by (rewrite Eg; by apply get_at_app_mid). pose proof (get_at_lt _ _ _ Hg).
    destruct Hid as (Hid1 & Hid2 & Hid3). apply wp_bind. eapply wp_expect; [unfold cadd; rewrite (proj2 (Z.ltb_lt _ _)) by lia; done|].
    apply wp_bind. eapply wp_expect; [exact Hg|]. cbv zeta.
    assert (given = (pre ++ [g]) ++ gl) as Eg' by (by rewrite Eg, <- app_assoc).
    assert (Zlen pre + 1 = Zlen (pre ++ [g])) as Ep by (rewrite Zlen_app; by change (Zlen [g]) with 1). rewrite Ep.
    cbn [List.filter is_full]. rewrite Z.ltb_antisym, negb_involutive. destruct (Z.leb_spec to from) as [Hle|Hlt]; cbn [negb].
    + step. set (name := par_name _ _ _). pose proof (wp_pw_finish env Hen [] (ev_clock env name) (pw_create (ev_set env)) (pw_create_holds env Hen) puts_fit_nil (en_clock _ Hen name)) as Hf.
      unfold wp in Hf. destruct (pw_finish _ _ _ _ _) as [[[[file ord]|e] w]|]; [|done..].
      unfold write_ord. apply wp_bind, wp_bind. eapply wp_require; [apply par_name_ids; lia|]. unfold wp at 1, modify at 1. apply wp_bind. unfold rename, wp at 1, modify at 1.
      eapply wp_mono; [apply (IH gl (pre ++ [g]) given); done|]. intros r s1 (-> & Hlaid & Hrd). split; [cbn [map cut_name]; rewrite <- app_assoc; done|].
      split; [|exact Hrd]. cbn [map]. eapply laid_cons with (file := file) (ord := ord); [|exact Hlaid].
      unfold cut_slot. cbn [sl_puts sl_name cut_keys cut_name]. rewrite keys_at_none by done. exact Hf.
    + eapply wp_mono; [apply (IH gl (pre ++ [g]) given); done|]. intros r s1 (-> & Hlaid & Hrd). split; [|done]. f_equal. cbn [map cut_piece]. rewrite <- app_assoc. done.
Qed.

Lemma run_of_full i a sl gl en : spans a sl en -> length sl = length gl -> run_of_pieces a (map (cut_piece plan) (full (cuts i sl gl))) en.
Proof.
  revert i a gl. induction sl as [|[x y] sl IH]; intros i a [|g gl] Hs Hl; try done; cbn [spans cuts List.filter is_full] in *.
  destruct Hs as (-> & Hxy & Hs). injection Hl as Hl. destruct (Z.ltb_spec a y); [|assert (y = a) as -> by lia; by apply IH].
  cbn [map run_of_pieces cut_piece pc_from pc_to]. split; [done|]. split; [done|]. by apply IH.
Qed.

Lemma spans_in a sl en x y : spans a sl en -> (x, y) ∈ sl -> a <= x /\ x <= y /\ y <= en.
Proof.
  assert (forall sl a, spans a sl en -> a <= en) as Hle.
  { intros l. induction l as [|[p q] l IH]; intros b H; cbn in H; [lia|]. destruct H as (? & ? & H). apply IH in H. lia. }
  revert a. induction sl as [|[p q] sl IH]; intros a Hs Hin; [by apply elem_of_nil in Hin|]. destruct Hs as (-> & Hpq & Hs).
  apply elem_of_cons in Hin as [[= -> ->] | Hin]; [apply Hle in Hs; lia|]. specialize (IH _ Hs Hin). lia.
Qed.
End laying.

(** ** Pass one *)

Lemma each_push ks f : (forall k, f k = push_key k []) -> forall sl, each f ks sl =
  match ofold (fun s k => slicer_push k s) ks sl with Some s => Some (Ok tt, s) | None => None end.
Proof.
  intros Hf. induction ks as [|k ks IH]; intros sl; [done|]. cbn [each ofold]. unfold bind. rewrite Hf. unfold push_key. 
  destruct (slicer_push k sl) as [sl'|]; [|done]. by rewrite IH.
Qed.

(** ** The inputs opened *)

(** A file of the directory that holds some puts: any that a writer of this
    program finished. *)
Definition input_file (env : Env) (opts : BlobOptions) (disk : Disk) (name : bytes) (puts : list Put) : Prop :=
  exists file sums set ts generation ets, disk !! name = Some file /\ settings_ok set /\ (verify_checksums opts = true -> sums = true) /\
    finished_file (ev_lz4 env) sums set (ev_key_base env) ts generation puts ets file /\ Forall put_ok puts /\ ascending (keys_of puts).

Definition ids_from (id_ : Z) (inputs : list Input) : Prop := forall i b, get_at inputs i = Some b -> blob_id (in_blob b) = id_ + i.

(** The readers, each by itself. *)
Definition readable (env : Env) (b : Input) (w : list Z) : Prop := forall dec at_ n, not_ours (in_blob b) at_ ->
  reached (ev_unlz4 env) (bytes_source (in_file b)) (in_blob b) (ev_blk_base env) (ev_sums env) (mkReader w dec at_ n).

Lemma wp_open_inputs env opts names putss : env_ok env -> forall id_ s, Forall2 (input_file env opts (ru_disk s)) names putss ->
  wp (merge_open_inputs env names opts id_) (fun '(inputs, words) s' => s' = s /\ Forall2 (readable env) inputs words /\ ids_from id_ inputs /\
    Forall2 (fun b puts => holds_puts (ev_unlz4 env) (ev_sums env) (in_file b) (ev_key_base env) (ev_blk_base env) (in_blob b) puts) inputs putss) s.
Proof.
  intros Hen id_ s Hf. revert id_. induction Hf as [|name puts names putss (file & sums & set & ts & generation & ets & Hd & Hset & Hc & Hff & Hp & Ha) _ IH];
    intros id_; cbn [merge_open_inputs].
  - unfold wp. cbn [ret]. split; [done|]. split; [constructor|]. split; [|constructor]. intros i b Hi. apply get_at_lt in Hi. rewrite (@Zlen_nil Input) in Hi. lia.
  - destruct (finished_holds (ev_lz4 env) (ev_unlz4 env) (en_lz4 _ Hen) (en_in_place _ Hen) sums (ev_sums env) set (ev_key_base env) (ev_blk_base env) ts generation opts id_ Hset Hc (en_blk_base _ Hen) puts Hp Ha ets file Hff)
      as (B & words & Ho & Hb & Hh & Hr).
    step. apply wp_bind. eapply wp_require; [exact Hd|]. apply wp_bind. eapply wp_expect; [exact Ho|]. apply wp_bind. eapply wp_lift; [done|]. cbv beta iota.
    apply wp_bind. eapply wp_mono; [apply IH|]. intros [inputs all] s' (-> & H1 & H2 & H3). unfold wp. cbn [ret]. split; [done|]. split; [|split].
    + constructor; [|done]. intros dec at_ m Hno. cbn [in_blob in_file] in *.
      apply (reached_other (ev_unlz4 env) (bytes_source file) B (ev_blk_base env) (ev_sums env) (reader_of words [] None) dec at_ m (Hr [] None I) Hno).
    + intros i b Hi. pose proof (get_at_lt _ _ _ Hi). destruct (Z.eq_dec i 0) as [-> |]; [rewrite get_at_here in Hi by done; injection Hi as <-; cbn; lia|].
      rewrite get_at_cons in Hi by lia. rewrite (H2 _ _ Hi). lia.
    + by constructor.
Qed.

Lemma opened_ok env inputs words putss id_ s : Forall2 (readable env) inputs words -> ids_from id_ inputs ->
  Forall2 (fun b puts => holds_puts (ev_unlz4 env) (ev_sums env) (in_file b) (ev_key_base env) (ev_blk_base env) (in_blob b) puts) inputs putss ->
  match rd_dec_at (ru_reads s) with Some (id, _, _, _) => id < id_ | None => True end ->
  inputs_hold env inputs putss /\ readers_ok env inputs (mkReads words (rd_dec (ru_reads s)) (rd_dec_at (ru_reads s)) (rd_decodes (ru_reads s))).
Proof.
  intros Hr Hid Hh Hd. split.
  - split; [done|]. intros i j a b Ha Hb Hij. rewrite (Hid _ _ Ha), (Hid _ _ Hb). lia.
  - split; cbn [rd_words rd_dec rd_dec_at rd_decodes]; [unfold Zlen; by rewrite (Forall2_length _ _ _ Hr)|].
    intros i b w Hb Hw. pose proof (get_at_lt _ _ _ Hb). apply get_at_Some in Hb as Hb', Hw as Hw'. apply (Forall2_lookup_lr _ _ _ _ _ _ Hr (proj2 Hb') (proj2 Hw')).
    unfold not_ours. destruct (rd_dec_at (ru_reads s)) as [[[[x y] z] t]|]; [|done]. rewrite (Hid _ _ Hb). lia.
Qed.

(** To the walk, the inputs are their keys. *)
Lemma inputs_read env inputs putss : inputs_hold env inputs putss -> Forall2 reads inputs (map keys_of putss).
Proof.
  intros [Hh _]. apply Forall2_fmap_r. eapply Forall2_impl; [exact Hh|]. intros b puts [Ha Hk Hka _ _]. split; [done|]. unfold keys_of. rewrite Zlen_map. split; [exact Hk|].
  intros r _. exact (Hka r).
Qed.

(** ** The partition merge *)

(** An input's ordered index, where there is one that opens, is of its keys. *)
Definition ord_sound (disk : Disk) (name : bytes) (puts : list Put) : Prop := forall oname file ix,
  ord_name_for name = Some oname -> disk !! oname = Some file -> open file (Zlen puts) = Ok ix -> exists p, indexes ix (keys_of puts) p.

Lemma ords_indexed env disk heads names inputs putss : inputs_hold env inputs putss -> Forall2 (ord_sound disk) names putss ->
  Forall2 indexed (zip_with (open_ord disk heads) names inputs) (map keys_of putss).
Proof.
  intros [Hh _] Ho. revert names Ho. induction Hh as [|b puts inputs putss [Ha Hk Hka _ _] _ IH]; intros [|name names] Ho; inversion Ho as [|? ? ? ? Hs Hos]; subst; [constructor|].
  cbn [zip_with map]. constructor; [|by apply IH]. unfold open_ord. destruct heads; [|done]. cbn [negb].
  destruct (ord_name_for name) as [oname|] eqn:En; [|done]. cbn [option_bind mbind]. destruct (disk !! oname) as [file|] eqn:Ef; [|done]. cbn [option_bind mbind].
  change (input_keys b) with (blob_keys (in_blob b)). rewrite Hk. destruct (open file (Zlen puts)) as [ix|] eqn:Ei; [|done].
  destruct (input_key_at b 0) as [first|] eqn:E0; [|done]. cbn [option_bind mbind]. destruct (whole_key_at _ 0); [|done]. cbn [option_bind mbind].
  destruct (Hs _ _ _ En Ef Ei) as (p & Hp). exists p. apply learn_indexes; [done|]. rewrite <- Hka. exact E0.
Qed.

(** *** Keys and what is written of them *)

Lemma strict_ascending keys : strict keys -> ascending keys.
Proof.
  induction 1 as [|k keys Hs IH Hk]; intros i j a b Hij Hi Hj; pose proof (get_at_lt _ _ _ Hi); pose proof (get_at_lt _ _ _ Hj); [znil; lia|].
  rewrite get_at_cons in Hj by lia. destruct (Z.eq_dec i 0) as [-> |].
  - rewrite get_at_here in Hi by done. injection Hi as <-. apply get_at_Some in Hj as [_ Hj]. exact (Forall_lookup_1 _ _ _ _ Hk Hj).
  - rewrite get_at_cons in Hi by lia. apply (IH (i - 1) (j - 1)); [lia|done|done].
Qed.

Lemma keys_at_ascending ks from to : ascending ks -> ascending (keys_at ks from to).
Proof.
  intros Ha. apply ascending_app with (b := drop (Z.to_nat (to - from)) (drop (Z.to_nat from) ks)). unfold keys_at. rewrite take_drop.
  intros i j a b Hij [Hi0 Hi]%get_at_Some [Hj0 Hj]%get_at_Some. rewrite lookup_drop in Hi, Hj.
  apply (Ha (from `max` 0 + i) (from `max` 0 + j)); [lia| |]; apply get_at_Some; (split; [lia|]).
  - rewrite <- Hi. f_equal. lia.
  - rewrite <- Hj. f_equal. lia.
Qed.

Lemma keys_at_elem ks from to k : 0 <= from -> to <= Zlen ks -> k ∈ keys_at ks from to <-> exists i, from <= i < to /\ get_at ks i = Some k.
Proof.
  intros Hf Ht. unfold keys_at. rewrite list_elem_of_lookup. split.
  - intros [i Hi]. pose proof (lookup_lt_Some _ _ _ Hi) as Hl. rewrite length_take in Hl. rewrite lookup_take_lt, lookup_drop in Hi by lia.
    exists (from + Z.of_nat i). split; [lia|]. apply get_at_Some. split; [lia|]. rewrite <- Hi. f_equal. lia.
  - intros (i & Hi & [_ Hg]%get_at_Some). exists (Z.to_nat (i - from)). rewrite lookup_take_lt, lookup_drop by lia. rewrite <- Hg. f_equal. lia.
Qed.

Section written.
Context (outp : bytes -> option Put) (Hkey : forall k p, outp k = Some p -> p_key p = k).

Lemma written_elem l k : k ∈ keys_of (omap outp l) <-> k ∈ l /\ outp k <> None.
Proof.
  unfold keys_of. rewrite list_elem_of_In, in_map_iff. split.
  - intros (p & <- & (x & Hx & Ho)%list_elem_of_In%list_elem_of_omap). rewrite (Hkey _ _ Ho). split; [done|]. by rewrite Ho.
  - intros [Hk Ho]. destruct (outp k) as [p|] eqn:E; [|done]. exists p. split; [by apply Hkey|]. apply list_elem_of_In, list_elem_of_omap. by exists k.
Qed.

Lemma written_ascending l : ascending l -> ascending (keys_of (omap outp l)).
Proof.
  intros Ha%ascending_strict. apply strict_ascending. induction Ha as [|k l _ IH Hk]; [constructor|]. cbn [omap list_omap]. fold (omap outp l).
  destruct (outp k) as [p|] eqn:E; [|done]. unfold keys_of in *. cbn [map]. constructor; [done|]. rewrite (Hkey _ _ E).
  apply Forall_forall. intros x [Hx _]%written_elem. rewrite Forall_forall in Hk. by apply Hk.
Qed.

Lemma written_ok l : Forall (fun k => forall p, outp k = Some p -> put_ok p) l -> Forall put_ok (omap outp l).
Proof. intros H. apply Forall_forall. intros p (k & Hk & Ho)%list_elem_of_omap. rewrite Forall_forall in H. by eapply H. Qed.
End written.

Lemma live_put_key putss k p : live_put putss k = Some p -> p_key p = k.
Proof. unfold live_put. destruct (live_values _); [done|]. by intros [= <-]. Qed.

Lemma masked_put_key putss k p : masked_put putss k = Some p -> p_key p = k.
Proof. unfold masked_put. destruct (live_values _), (any_tomb _); try done; by intros [= <-]. Qed.

Definition merged_keys (putss : list (list Put)) : list bytes := sort_dedup (concat (map keys_of putss)).

Lemma merged_ascending putss : ascending (merged_keys putss).
Proof. apply strict_ascending, sort_dedup_spec. Qed.

(** A run's outputs, the pieces before the empty ones. *)
Definition out_names (plan : MergePlan) (cs : list Cut) : list bytes :=
  map (cut_name plan) (List.filter is_full cs ++ List.filter (fun c => negb (is_full c)) cs).

Lemma filter_split {A} (f : A -> bool) (l : list A) : List.filter (fun x => negb (f x)) l ++ List.filter f l ≡ₚ l.
Proof. induction l as [|x l IH]; [done|]. cbn [List.filter]. destruct (f x); cbn [negb app]; [by rewrite <- Permutation_middle, IH|by rewrite IH]. Qed.

Section compact.
Context (env : Env) (Hen : env_ok env) (plan : MergePlan) (next_id : Z) (putss : list (list Put)).
Local Abbreviation ks := (merged_keys putss).
Local Abbreviation outp := (live_put putss).
Local Abbreviation opts := (mkBlobOptions (pl_checksums plan) (pl_verify_inputs plan) false).

(** What a run is started on. *)
Record run_ready (names : list bytes) (o : BlobOptions) (s : Run) : Prop := {
  rr_inputs : Forall2 (input_file env o (ru_disk s)) names putss;
  rr_ids : match rd_dec_at (ru_reads s) with Some (id, _, _, _) => id < next_id | None => True end
}.

(** The slices of a run fit their sections and their names. *)
Record cut_fits (sl : list (Z * Z)) : Prop := {
  cf_ids : ids_ok plan (Zlen sl);
  cf_recs : Forall (fun '(from, to) => rec_sum (st_inline_max (ev_set env)) (st_compact_records (ev_set env)) (map lens_of (omap outp (keys_at ks from to))) <= MAX_RECS) sl
}.

Lemma cut_piece_ok sl gl c : ids_ok plan (Zlen sl) -> spans 0 sl (Zlen ks) -> Forall2 (piece_holds ks) sl gl -> cut_fits sl ->
  Forall (fun k => forall p, outp k = Some p -> put_ok p) ks -> c ∈ cuts 0 sl gl -> piece_ok env outp ks (cut_piece plan c).
Proof.
  intros Hid Hs Hh [_ Hr] Hok Hc. apply cuts_elem in Hc as (j & [from to] & g & -> & Hj & Hg). pose proof (get_at_lt _ _ _ Hj). rewrite Z.add_0_l.
  destruct (cut_slot_of plan ks outp (Zlen sl) (j, (from, to), g) Hid) as [_ Ho]; [cbn; lia|].
  apply get_at_Some in Hj as [_ Hj], Hg as [_ Hg]. destruct (spans_in _ _ _ from to Hs ltac:(by eapply list_elem_of_lookup_2)) as (H1 & H2 & H3).
  pose proof (Forall2_lookup_lr _ _ _ _ _ _ Hh Hj Hg) as Hp. unfold piece_holds, held_in in Hp. cbn [fst snd] in Hp. unfold cut_piece in *. cbn [pc_from pc_to pc_fence pc_name] in *.
  split; [cbn [pc_name]; by rewrite Ho|]. cbn [pc_from pc_to pc_fence]. split.
  - apply Forall_forall. intros k (i & Hi & Hk)%keys_at_elem; [|done..]. by apply (Hp i).
  - split.
    + apply written_ok. unfold keys_at. by apply Forall_take, Forall_drop.
    + apply written_ascending; [intros k p; apply live_put_key|]. apply keys_at_ascending, merged_ascending.
    + exact (Forall_lookup_1 _ _ _ _ Hr Hj).
Qed.

Lemma wp_slice (inputs : list Input) ords s r Q (K : option (list (Z * Z) * list Fence * Z) -> SM Run (list bytes)) : inputs_hold env inputs putss -> Forall2 indexed ords (map keys_of putss) ->
  slice_all (pl_fences plan) (pl_parts plan) (pl_max_keys plan) ks = Some r -> wp (K r) Q s ->
  wp (do* slicer := slice_keys plan inputs ords in do* fin := expect (slicer_finish slicer) in K fin) Q s.
Proof.
  intros Hih Hix Hs HK. unfold slice_keys. rewrite (merge_keys_each inputs ords (pl_walk_cached plan) push_key (map keys_of putss) _ (inputs_read _ _ _ Hih) Hix).
  rewrite (each_push _ _ ltac:(done)). unfold slice_all in Hs. fold ks. destruct (ofold _ ks _) as [sl|]; [|done]. cbn [option_bind mbind] in Hs.
  step. apply wp_bind. by eapply wp_expect.
Qed.

Lemma wp_compact_run s sl gl : run_ready (pl_inputs plan) opts s -> Forall2 (ord_sound (ru_disk s)) (pl_inputs plan) putss ->
  slice_all (pl_fences plan) (pl_parts plan) (pl_max_keys plan) ks = Some (Some (sl, gl, Zlen ks)) ->
  spans 0 sl (Zlen ks) -> Forall2 (piece_holds ks) sl gl -> cut_fits sl -> Forall (fun k => forall p, outp k = Some p -> put_ok p) ks ->
  wp (compact_run env plan next_id) (fun names s' => names = out_names plan (cuts 0 sl gl) /\
    exists xs, xs ≡ₚ map (cut_slot plan ks outp) (cuts 0 sl gl) /\ laid env xs (ru_disk s) (ru_disk s')) s.
Proof.
  intros [Hin Hids] Hord Hsl Hsp Hph Hcf Hok. assert (length sl = length gl) as Hlen by (by eapply Forall2_length). pose proof (cf_ids _ Hcf) as Hid.
  unfold compact_run. apply wp_bind. eapply wp_mono; [by apply (wp_open_inputs env opts _ putss Hen)|]. intros [inputs words] s0 (-> & Hrd & Hi & Hh). cbv beta iota.
  destruct (opened_ok env inputs words putss next_id s Hrd Hi Hh Hids) as [Hih Hro].
  apply wp_bind. unfold opened, wp at 1. cbn [modify]. step. cbn [ru_disk]. eapply (wp_slice inputs); [exact Hih|by eapply ords_indexed|exact Hsl|]. cbv beta iota.
  apply wp_bind. eapply wp_mono; [eapply (wp_lay_pieces env Hen plan ks outp (Zlen sl) sl gl [] gl [] []); [done|done|unfold Zlen; lia|done]|].
  intros r s1 (-> & Hl1 & Hr1). cbn [app ru_reads] in *. cbv beta iota. apply wp_bind. unfold start_emitter, wp at 1. cbn [modify].
  change (Zlen (@nil Fence)) with 0 in *. set (cs := cuts 0 sl gl) in *. set (pieces := map (cut_piece plan) (List.filter is_full cs)) in *.
  apply wp_bind. unfold wp. rewrite (merge_ranks_each inputs (pl_walk_cached plan) (emit_live env inputs) (map keys_of putss) _ (inputs_read _ _ _ Hih)). fold ks.
  assert (Forall (Forall put_ok) putss) as Hputs.
  { clear -Hin. induction Hin as [|? ? ? ? (? & ? & ? & ? & ? & ? & ? & ? & ? & ? & ? & ?)]; by constructor. }
  match goal with |- match ?m ?st with _ => _ end => fold (wp m (fun _ s' => wp (do* out := em_finish (Zlen ks) in ret (out ++ map (cut_name plan) (List.filter (fun c => negb (is_full c)) cs)))
    (fun names s'' => names = out_names plan cs /\ exists xs, xs ≡ₚ map (cut_slot plan ks outp) cs /\ laid env xs (ru_disk s) (ru_disk s'')) s') st) end.
  eapply wp_mono; [apply (wp_pieces env Hen inputs putss Hih Hputs outp _ ks pieces pieces [] 0 [])|].
  - done.
  - apply Forall_forall. intros k _. by apply emits_live.
  - done.
  - by apply run_of_full.
  - apply Forall_map, List.Forall_forall. intros c [Hc _]%List.filter_In. apply (cut_piece_ok sl gl); try done. by apply list_elem_of_In.
  - split; cbn; try done. by rewrite Hr1.
  - intros [] s2 [[E1 E2 E3 E4 E5] Hl2]. cbn [app ru_disk set_em] in *. apply wp_bind. unfold em_finish. step. rewrite E1, E2, E4, !Z.eqb_refl. cbn [negb orb].
    apply wp_bind, wp_pass; [done|]. unfold wp. cbn [ret]. rewrite E3. split.
    + unfold out_names, pieces. rewrite map_app, map_map. f_equal. apply map_ext. by intros [[i [from to]] f].
    + eexists. split; [|exact (laid_app _ _ _ _ _ _ Hl1 Hl2)]. etransitivity; [|apply Permutation_map, (filter_split is_full cs)]. rewrite map_app. apply Permutation_app_head.
      unfold pieces. rewrite map_map. erewrite map_ext_in; [reflexivity|]. intros c [Hc%list_elem_of_In _]%List.filter_In.
      apply cuts_elem in Hc as (j & x & g & -> & Hj & _). pose proof (get_at_lt _ _ _ Hj). apply (cut_slot_of plan ks outp (Zlen sl)); [done|]. cbn. lia.
Qed.
End compact.

(** ** What the outputs answer *)

Lemma spans_cover a sl en r : spans a sl en -> a <= r < en -> exists j from to, get_at sl j = Some (from, to) /\ from <= r < to.
Proof.
  revert a. induction sl as [|[x y] sl IH]; intros a Hs Hr; cbn [spans] in Hs; [lia|]. destruct Hs as (-> & Hxy & Hs). destruct (decide (r < y)).
  - exists 0, a, y. split; [by rewrite get_at_here|lia].
  - destruct (IH _ Hs ltac:(lia)) as (j & from & to & Hj & H). pose proof (get_at_lt _ _ _ Hj). exists (j + 1), from, to. split; [|done].
    rewrite get_at_cons by lia. by replace (j + 1 - 1) with j by lia.
Qed.

Lemma one_fence gl i j f g k : fences_sorted gl -> gl !! i = Some f -> gl !! j = Some g -> in_fence k f -> in_fence k g -> i = j.
Proof.
  intros Hs. assert (forall i j f g, (i < j)%nat -> gl !! i = Some f -> gl !! j = Some g -> in_fence k f -> in_fence k g -> False) as Hlt.
  { clear i j f g. intros i j f g Hij Hf Hg [_ Hk] [Hk' _]. destruct (fences_apart gl Hs i j f g Hf Hg Hij) as (h & Hh & Hle). rewrite Hh in Hk.
    apply (blt_irrefl k). eapply blt_le_trans; [exact Hk|]. exact (ble_trans _ _ _ Hle Hk'). }
  intros Hf Hg Hk Hk'. destruct (Nat.lt_trichotomy i j) as [H|[H|H]]; [|done|]; exfalso; [by eapply (Hlt i j)|by eapply (Hlt j i)].
Qed.

Lemma versions_none putss k : k ∉ merged_keys putss -> versions putss k = [].
Proof.
  intros Hk. assert (Forall (fun puts => k ∉ keys_of puts) putss) as H.
  { apply Forall_forall. intros puts Hp Hin. apply Hk, sort_dedup_spec, list_elem_of_In, in_concat. exists (keys_of puts). split; [|by apply list_elem_of_In].
    apply in_map. by apply list_elem_of_In. }
  clear Hk. unfold versions. induction H as [|puts putss Hp _ IH]; [done|]. cbn [omap list_omap].
  assert (find_put k puts = None) as ->; [|exact IH]. pose proof (rank_find 0 puts k) as Hf. destruct (rank_in 0 (keys_of puts) k) as [x|] eqn:E; [|done]. exfalso. apply Hp.
  destruct Hf as (p & _ & _ & Hg). clear -E. revert E. generalize 0. induction (keys_of puts) as [|y l IH]; intros r E; [done|]. cbn [rank_in] in E.
  destruct (beqb_spec y k) as [-> |]; [by left|]. right. by eapply IH.
Qed.

(** A finished piece serves its puts, and its index is of their keys. *)
Lemma piece_index env puts ts file ord : puts_fit env puts -> piece_files env puts ts file ord ->
  exists ix p, open ord (Zlen puts) = Ok ix /\ indexes ix (keys_of puts) p.
Proof.
  intros Hf [_ Ho]. rewrite builder_finish_from in Ho by (by eapply keys_small). rewrite finish_from_bytes in Ho by apply Hf. injection Ho as <-.
  assert (sortable (keys_of puts)) as Hs.
  { pose proof Hf as [Hp Ha Hm]. destruct (lens_ok _ Hp) as [Hn _]. pose proof (rec_sum_four (st_inline_max (ev_set env)) (st_compact_records (ev_set env)) _ Hn) as H4.
    rewrite Zlen_map in H4. split; [done|unfold keys_of; rewrite Zlen_map; unfold MAX_RECS, U32 in *; lia|]. intros i k [_ Hk]%get_at_Some. unfold keys_of in Hk.
    rewrite list_lookup_fmap in Hk. destruct (puts !! Z.to_nat i) as [p|] eqn:E; [|done]. cbn in Hk. injection Hk as <-. destruct (Forall_lookup_1 _ _ _ _ Hp E) as (H & _). unfold U16_MAX in H. lia. }
  exists (built (keys_of puts)), (prefix_of (keys_of puts)). split; [|by apply built_indexes]. rewrite <- (open_built _ Hs). unfold keys_of. by rewrite Zlen_map.
Qed.

(** A file that opens over a fence: of every key of the fence it answers what
    the inputs hold that is live, from any state its reads leave, and its index
    opens and is of its keys. *)
Definition answers (env : Env) (opts : BlobOptions) (id_ : Z) (putss : list (list Put)) (f : Fence) (file ord : bytes) : Prop :=
  exists B words ix keys p,
    open_with (bytes_source file) (ev_blk_base env) opts id_ = Some (Ok (B, words)) /\ open ord (blob_keys B) = Ok ix /\ indexes ix keys p /\
    (forall k, k ∈ keys <-> in_fence k f /\ live_values (versions putss k) <> []) /\
    (forall dec at_, not_ours B at_ -> reached (ev_unlz4 env) (bytes_source file) B (ev_blk_base env) (ev_sums env) (reader_of words dec at_)) /\
    forall k rs, in_fence k f -> reached (ev_unlz4 env) (bytes_source file) B (ev_blk_base env) (ev_sums env) rs ->
      exists rs', read_all (ev_unlz4 env) (bytes_source file) B (ev_key_base env) (ev_blk_base env) (ev_sums env) k rs =
        Some (Ok (live_values (versions putss k), Ok (Zlen (live_values (versions putss k)))), rs') /\
        reached (ev_unlz4 env) (bytes_source file) B (ev_blk_base env) (ev_sums env) rs'.

Section answering.
Context (env : Env) (Hen : env_ok env) (putss : list (list Put)).
Local Abbreviation outp := (live_put putss).

Definition items_of (puts : list Put) : list (bytes * list bytes) := map (fun p => (p_key p, p_values p)) puts.

Lemma live_items l : puts_of (items_of (omap outp l)) = omap outp l.
Proof.
  unfold puts_of, items_of. rewrite map_map. rewrite <- (map_id (omap outp l)) at 2. apply map_ext_in. intros p (k & _ & Hk)%list_elem_of_In%list_elem_of_omap.
  unfold live_put in Hk. destruct (live_values _); [done|]. by injection Hk as <-.
Qed.

Lemma live_put_some k p : outp k = Some p -> p_values p = live_values (versions putss k) /\ live_values (versions putss k) <> [].
Proof. unfold live_put. destruct (live_values _) eqn:E; [done|]. by intros [= <-]. Qed.

Lemma piece_answers opts id_ l f file ord ts : (verify_checksums opts = true -> ev_sums env = true) -> puts_fit env (omap outp l) ->
  (forall k, in_fence k f -> live_values (versions putss k) <> [] -> k ∈ l) -> Forall (fun k => in_fence k f) l ->
  piece_files env (omap outp l) ts file ord -> answers env opts id_ putss f file ord.
Proof.
  intros Hc Hf Hcov Hin Hpf. destruct (piece_index env _ ts file ord Hf Hpf) as (ix & p & Ho & Hix). destruct Hpf as [[ets Hff] _]. destruct Hf as [Hp Ha Hm].
  assert (map fst (items_of (omap outp l)) = keys_of (omap outp l)) as Hk by (unfold items_of, keys_of; by rewrite map_map).
  assert (forall k, k ∈ keys_of (omap outp l) <-> in_fence k f /\ live_values (versions putss k) <> []) as Hel.
  { intros k. rewrite (written_elem outp (live_put_key putss)). unfold live_put. split.
    - intros [Hkl Ho']. rewrite Forall_forall in Hin. split; [by apply Hin|]. by destruct (live_values _).
    - intros [Hkf Hl]. split; [by apply Hcov|]. by destruct (live_values _). }
  destruct (finished_serves (ev_lz4 env) (ev_unlz4 env) (en_lz4 _ Hen) (en_in_place _ Hen) (ev_sums env) (ev_sums env) (ev_set env) (ev_key_base env) (ev_blk_base env) ts 1 opts id_
    ltac:(apply Hen) Hc (en_blk_base _ Hen) (items_of (omap outp l))) with (ets := ets) (file := file) as (B & words & Hop & [Sk _ Sr Sn] & Hre); [by rewrite live_items|by rewrite Hk|by rewrite live_items|].
  exists B, words, ix, (keys_of (omap outp l)), p. split; [exact Hop|]. split; [rewrite Sk; unfold items_of; by rewrite Zlen_map|]. split; [exact Hix|].
  split; [exact Hel|]. split; [exact Hre|]. intros k rs Hkf Hrs.
  destruct (decide (k ∈ keys_of (omap outp l))) as [Hk'|Hk'].
  - unfold keys_of in Hk'. apply list_elem_of_In, in_map_iff in Hk' as (q & Hq & Hql%list_elem_of_In). pose proof Hql as (x & _ & Hx)%list_elem_of_omap.
    pose proof (live_put_key _ _ _ Hx) as Hx2. rewrite Hq in Hx2. subst x. destruct (live_put_some _ _ Hx) as [Hv _].
    apply list_elem_of_lookup in Hql as [i Hi]. destruct (Sr (Z.of_nat i) k (p_values q) rs) as (rs' & Hr & _ & Hr').
    { apply get_at_Some. split; [lia|]. rewrite Nat2Z.id. unfold items_of. rewrite list_lookup_fmap, Hi. cbn. by rewrite Hq. }
    { exact Hrs. }
    exists rs'. rewrite <- Hv. done.
  - exists rs. assert (live_values (versions putss k) = []) as ->.
    { destruct (live_values (versions putss k)) as [|v vs] eqn:E; [done|]. exfalso. apply Hk', Hel. split; [done|]. by rewrite E. }
    split; [|done]. apply Sn. by rewrite Hk.
Qed.
End answering.

Lemma cuts_in n sl gl i x g : get_at sl i = Some x -> get_at gl i = Some g -> (n + i, x, g) ∈ cuts n sl gl.
Proof.
  revert n i gl. induction sl as [|y sl IH]; intros n i gl Hs Hg; [apply get_at_lt in Hs; znil; lia|]. destruct gl as [|h gl]; [apply get_at_lt in Hg; znil; lia|].
  cbn [cuts]. pose proof (get_at_lt _ _ _ Hs). destruct (Z.eq_dec i 0) as [-> |].
  - rewrite get_at_here in Hs by done. rewrite get_at_here in Hg by done. injection Hs as ->. injection Hg as ->. rewrite Z.add_0_r. left.
  - right. rewrite get_at_cons in Hs by lia. rewrite get_at_cons in Hg by lia. replace (n + i) with (n + 1 + (i - 1)) by lia. by apply IH.
Qed.

(** C6: a merge keeps what its inputs hold. Over segments any writer of this
    program finished, with the ordered indexes beside them or without, a
    partition merge neither panics nor refuses: it leaves one output a slice,
    named by its id, the sequence the plan covers and its fence; the fences tile
    the ranges it was given; and every output, opened, answers of every key of
    its fence exactly the live values of the inputs -- from the newest tombstone
    on, oldest input first -- from any state earlier reads left, and nothing of
    a key that is deleted or was never put. Its ordered index opens and is of
    the keys that have values. Every other name of the directory holds what it
    held, the inputs among them, and the temp names are gone. *)
Theorem merge_answers env plan next_id putss s opts id_ : let ks := merged_keys putss in let ranges := default [([], None)] (pl_fences plan) in
  env_ok env -> (verify_checksums opts = true -> ev_sums env = true) ->
  run_ready env next_id putss (pl_inputs plan) (mkBlobOptions (pl_checksums plan) (pl_verify_inputs plan) false) s ->
  Forall2 (ord_sound (ru_disk s)) (pl_inputs plan) putss ->
  fences_sorted ranges -> Forall (fun k => exists f, f ∈ ranges /\ in_fence k f) ks -> 0 < Zlen ks ->
  Forall (fun k => forall p, live_put putss k = Some p -> put_ok p) ks ->
  (forall sl gl, slice_all (pl_fences plan) (pl_parts plan) (pl_max_keys plan) ks = Some (Some (sl, gl, Zlen ks)) -> cut_fits env plan putss sl) ->
  exists sl gl gls s', slice_all (pl_fences plan) (pl_parts plan) (pl_max_keys plan) ks = Some (Some (sl, gl, Zlen ks)) /\ spans 0 sl (Zlen ks) /\ gl = concat gls /\ Forall2 (fun f g => tile (fst f) g (snd f)) ranges gls /\
    compact_run env plan next_id s = Some (Ok (out_names plan (cuts 0 sl gl)), s') /\
    (forall y, y ∉ footprints (map (cut_slot plan ks (live_put putss)) (cuts 0 sl gl)) -> ru_disk s' !! y = ru_disk s !! y) /\
    forall i f, get_at gl i = Some f -> let id := pl_first_id plan + i in
      ru_disk s' !! compact_tmp id = None /\
      exists file ord, ru_disk s' !! par_name id (pl_end_seq plan) f = Some file /\ ru_disk s' !! ord_name id (pl_end_seq plan) = Some ord /\
        answers env opts id_ putss f file ord.
Proof.
  intros ks ranges Hen Hc Hrun Hord Hfs Hin Hpos Hok Hfit.
  destruct (slices_route (pl_fences plan) (pl_parts plan) (pl_max_keys plan) ks Hfs (merged_ascending putss) Hpos Hin) as (sl & gl & gls & Hsl & Hsp & Hph & Hfok & Hgl & Htl).
  specialize (Hfit sl gl Hsl). pose proof (cf_ids _ _ _ _ Hfit) as Hid. assert (length sl = length gl) as Hlen by (by eapply Forall2_length).
  assert (fences_sorted gl) as Hgs by (rewrite Hgl; eapply tiles_sorted; [exact Hfs|exact Htl|by rewrite <- Hgl]).
  pose proof (wp_compact_run env Hen plan next_id putss s sl gl Hrun Hord Hsl Hsp Hph Hfit Hok) as Hw. apply wp_run in Hw as (names & s' & Hrun' & -> & xs & Hperm & Hlaid).
  exists sl, gl, gls, s'. split; [exact Hsl|]. split; [exact Hsp|]. split; [exact Hgl|]. split; [exact Htl|]. split; [exact Hrun'|].
  assert (NoDup (footprints xs)) as Hnd.
  { unfold footprints. rewrite Hperm. apply (cuts_NoDup plan ks (live_put putss) (Zlen sl) 0 sl gl Hid); lia. }
  destruct (laid_spec _ _ _ _ Hlaid Hnd) as [Hframe Hout]. split.
  { intros y Hy. apply Hframe. intros Hx. apply Hy. unfold footprints in *. by rewrite Hperm in Hx. }
  intros i f Hf id. destruct (get_at_is_Some sl i) as [[from to] Hs]; [pose proof (get_at_lt _ _ _ Hf); unfold Zlen in *; lia|].
  pose proof Hf as [Hi0 Hfl]%get_at_Some. pose proof Hs as [_ Hsll]%get_at_Some. pose proof (Forall2_lookup_lr _ _ _ _ _ _ Hph Hsll Hfl) as Hpi.
  destruct (spans_in _ _ _ from to Hsp ltac:(by eapply list_elem_of_lookup_2)) as (H1 & H2 & H3).
  set (c := (i, (from, to), f)). assert (c ∈ cuts 0 sl gl) as Hcin.
  { unfold c. replace i with (0 + i) at 1 by lia. by apply cuts_in. }
  destruct (Hout (cut_slot plan ks (live_put putss) c)) as (Ht & _ & file & ord & Hpf & Hn & Ho).
  { rewrite Hperm. by apply list_elem_of_In, in_map, list_elem_of_In. }
  unfold c, cut_slot, cut_name in Ht, Hpf, Hn, Ho. cbn [sl_tmp sl_name sl_oname sl_puts cut_keys] in Ht, Hpf, Hn, Ho. split; [exact Ht|]. exists file, ord. split; [exact Hn|]. split; [exact Ho|].
  destruct (cut_piece_ok env plan putss sl gl c Hid Hsp Hph Hfit Hok Hcin) as (_ & Hkf & Hpfit). unfold c, cut_piece in Hkf, Hpfit. cbn [pc_from pc_to pc_fence] in Hkf, Hpfit.
  eapply piece_answers; [done|done|exact Hpfit| |exact Hkf|exact Hpf].
  intros k Hk Hlive. assert (k ∈ ks) as Hks by (destruct (decide (k ∈ ks)) as [|Hno]; [done|]; by rewrite (versions_none putss k Hno) in Hlive).
  apply list_elem_of_lookup in Hks as [r Hr]. assert (get_at ks (Z.of_nat r) = Some k) as Hr' by (apply get_at_Some; split; [lia|by rewrite Nat2Z.id]).
  pose proof (get_at_lt _ _ _ Hr'). destruct (spans_cover _ _ _ (Z.of_nat r) Hsp ltac:(lia)) as (j & from' & to' & Hj & Hjr).
  destruct (get_at_is_Some gl j) as [g Hg]; [pose proof (get_at_lt _ _ _ Hj); unfold Zlen in *; lia|]. pose proof Hg as [Hj0 Hgl']%get_at_Some. pose proof Hj as [_ Hjl]%get_at_Some.
  pose proof (Forall2_lookup_lr _ _ _ _ _ _ Hph Hjl Hgl' (Z.of_nat r) k Hjr Hr') as Hkg. pose proof (one_fence _ _ _ _ _ _ Hgs Hfl Hgl' Hk Hkg) as Eij.
  assert (i = j) as <- by lia. rewrite Hs in Hj. injection Hj as <- <-. apply keys_at_elem; [lia|done|]. by exists (Z.of_nat r).
Qed.

(** ** The piece merge *)

Lemma since_app a b : since_tomb (a ++ b) = if any_tomb b then since_tomb b else since_tomb a ++ b.
Proof.
  revert a. induction b as [|v b IH] using rev_ind; intros a; [by rewrite !app_nil_r|]. unfold any_tomb in *. rewrite app_assoc, !since_snoc, existsb_app. cbn [existsb].
  rewrite orb_false_r. destruct (p_tomb v); [by rewrite orb_true_r|]. rewrite orb_false_r, IH. destruct (existsb p_tomb b); [done|by rewrite app_assoc].
Qed.

Definition all_values (vs : list Put) : list bytes := concat (map p_values vs).

Lemma live_app a b : live_values (a ++ b) = if any_tomb b then live_values b else live_values a ++ all_values b.
Proof. unfold live_values, all_values. rewrite since_app. destruct (any_tomb b); [done|]. by rewrite map_app, concat_app. Qed.

Lemma since_all vs : any_tomb vs = false -> since_tomb vs = vs.
Proof. intros H. pose proof (since_app [] vs) as E. rewrite H in E. exact E. Qed.

Lemma any_tomb_app a b : any_tomb (a ++ b) = any_tomb a || any_tomb b.
Proof. apply existsb_app. Qed.

(** What says the same of a key: the same live values, a tombstone or none. *)
Definition same_say (a b : list Put) : Prop := live_values a = live_values b /\ any_tomb a = any_tomb b.

Lemma same_say_between a b pre post : same_say a b -> same_say (pre ++ a ++ post) (pre ++ b ++ post).
Proof.
  intros [Hl Ht]. split; [|by rewrite !any_tomb_app, Ht].
  assert (any_tomb a = false -> all_values a = all_values b) as Hall.
  { intros Ha. assert (any_tomb b = false) as Hb by congruence. unfold live_values in Hl. rewrite !since_all in Hl by done. exact Hl. }
  rewrite !live_app, !any_tomb_app, Ht. destruct (any_tomb post); [by rewrite orb_true_r|]. rewrite orb_false_r. destruct (any_tomb b) eqn:Eb; [by rewrite Hl|].
  unfold all_values in *. by rewrite !map_app, !concat_app, Hall.
Qed.

Lemma masked_says putss k : same_say (option_list (masked_put putss k)) (versions putss k).
Proof.
  unfold masked_put. set (vs := versions putss k). destruct (live_values vs) as [|v l] eqn:El.
  - destruct (any_tomb vs) eqn:Et; cbn [option_list]; split; unfold live_values, any_tomb in *; cbn; by rewrite ?El, ?Et.
  - split; unfold live_values, any_tomb in *; cbn; [|by rewrite orb_false_r]. by rewrite app_nil_r, El.
Qed.

Lemma find_written outp l k : (forall k p, outp k = Some p -> p_key p = k) -> find_put k (omap outp l) = if decide (k ∈ l) then outp k else None.
Proof.
  intros Hk. unfold find_put. induction l as [|x l IH]; [done|]. cbn [omap list_omap]. fold (omap outp l).
  assert (forall y, outp x = Some y -> beqb (p_key y) k = true -> x = k) as Hx.
  { intros y Ho Hb. destruct (beqb_spec (p_key y) k) as [E|]; [|done]. by rewrite (Hk _ _ Ho) in E. }
  destruct (outp x) as [y|] eqn:Ex; cbn [List.find].
  - destruct (beqb (p_key y) k) eqn:Eb.
    + pose proof (Hx y eq_refl Eb) as <-. rewrite Ex. rewrite decide_True by left. done.
    + rewrite IH. destruct (decide (k ∈ l)) as [H1|H1], (decide (k ∈ x :: l)) as [H2|H2]; try done; [by exfalso; apply H2; right|]. apply elem_of_cons in H2 as [-> |]; [|done].
      by rewrite (Hk _ _ Ex), beqb_refl in Eb.
  - rewrite IH. destruct (decide (k ∈ l)) as [H1|H1], (decide (k ∈ x :: l)) as [H2|H2]; try done; [by exfalso; apply H2; right|]. by apply elem_of_cons in H2 as [-> |].
Qed.

Lemma pcs_name_ids i e f : 0 <= i < U64 -> 0 <= e < U64 -> ord_name_for (pcs_name i e f) = Some (ord_name i e).
Proof.
  intros Hi He. destruct (name_shapes i e f) as (_ & _ & _ & E). rewrite E. unfold ord_name_for.
  destruct (ids_of (str "pcs-") i e (x2d :: hex (fst f) ++ x2d :: hi_hex (snd f))) as [E1 E2]; [tauto|done|done|by right; eexists|]. by rewrite E1, E2.
Qed.

(** The puts of a piece merge's one output. *)
Definition masked_puts (putss : list (list Put)) : list Put := omap (masked_put putss) (merged_keys putss).

Lemma masked_versions putss k : versions [masked_puts putss] k = option_list (masked_put putss k).
Proof.
  unfold versions, masked_puts. cbn [omap list_omap]. rewrite (find_written _ _ _ (masked_put_key putss)). destruct (decide _) as [|Hn]; [by destruct (masked_put putss k)|].
  unfold masked_put. by rewrite (versions_none putss k Hn).
Qed.

Definition tier_slot (plan : TierPlan) (putss : list (list Put)) : Slot :=
  mkSlot (pcs_name (tp_id plan) (tp_end_seq plan) (tp_fence plan)) (tier_tmp (tp_id plan)) (ord_name (tp_id plan) (tp_end_seq plan)) (masked_puts putss).

Lemma each_count ks (n : Z) : each (fun _ => modify (fun n => n + 1)) ks n = Some (Ok tt, n + Zlen ks).
Proof.
  revert n. induction ks as [|k ks IH]; intros n; [by rewrite (@Zlen_nil bytes), Z.add_0_r|]. cbn [each]. unfold bind, modify at 1. rewrite IH, Zlen_cons. do 2 f_equal. lia.
Qed.

Section tier.
Context (env : Env) (Hen : env_ok env) (plan : TierPlan) (next_id : Z) (putss : list (list Put)).
Local Abbreviation ks := (merged_keys putss).
Local Abbreviation outp := (masked_put putss).
Local Abbreviation opts := (mkBlobOptions (tp_checksums plan) (tp_verify_inputs plan) false).

Lemma wp_tier_run s : run_ready env next_id putss (tp_inputs plan) opts s -> 0 <= tp_id plan < U64 -> 0 <= tp_end_seq plan < U64 -> 0 < Zlen ks ->
  Forall (fun k => in_fence k (tp_fence plan)) ks -> puts_fit env (masked_puts putss) ->
  wp (tier_run env plan next_id) (fun names s' => names = [sl_name (tier_slot plan putss)] /\ laid env [tier_slot plan putss] (ru_disk s) (ru_disk s')) s.
Proof.
  intros [Hin Hids] Hid He Hpos Hf Hfit. unfold tier_run. apply wp_bind. eapply wp_mono; [by apply (wp_open_inputs env opts _ putss Hen)|].
  intros [inputs words] s0 (-> & Hrd & Hi & Hh). cbv beta iota. destruct (opened_ok env inputs words putss next_id s Hrd Hi Hh Hids) as [Hih Hro].
  apply wp_bind. unfold opened, wp at 1. cbn [modify]. apply wp_bind. unfold count_keys.
  rewrite (merge_ranks_each inputs (tp_walk_cached plan) _ (map keys_of putss) _ (inputs_read _ _ _ Hih)), each_count. fold ks. unfold wp at 1. cbn [ret]. rewrite Z.add_0_l.
  rewrite (proj2 (Z.eqb_neq _ _)) by lia. apply wp_bind. unfold start_emitter, wp at 1. cbn [modify].
  set (p := mkPiece 0 (Zlen ks) (tp_fence plan) (pcs_name (tp_id plan) (tp_end_seq plan) (tp_fence plan)) (tier_tmp (tp_id plan))).
  assert (keys_at ks 0 (Zlen ks) = ks) as Hall by (unfold keys_at; rewrite Z.sub_0_r, Zlen_to_nat, drop_0, firstn_all; done).
  assert (Forall (Forall put_ok) putss) as Hputs.
  { clear -Hin. induction Hin as [|? ? ? ? (? & ? & ? & ? & ? & ? & ? & ? & ? & ? & ? & ?)]; by constructor. }
  apply wp_bind. unfold wp at 1. rewrite (merge_ranks_each inputs (tp_walk_cached plan) (emit_masked env inputs) (map keys_of putss) _ (inputs_read _ _ _ Hih)). fold ks.
  match goal with |- match ?m ?st with _ => _ end => fold (wp m (fun _ s' => wp (em_finish (Zlen ks))
    (fun names s'' => names = [sl_name (tier_slot plan putss)] /\ laid env [tier_slot plan putss] (ru_disk s) (ru_disk s'')) s') st) end.
  eapply wp_mono; [apply (wp_pieces env Hen inputs putss Hih Hputs outp _ ks [p] [p] [] 0 [])|].
  - done.
  - apply Forall_forall. intros k _. by apply emits_masked.
  - done.
  - cbn. split; [done|]. by split.
  - constructor; [|constructor]. unfold piece_ok, p. cbn [pc_from pc_to pc_fence pc_name]. rewrite pcs_name_ids, Hall by done. by split.
  - by split.
  - intros [] s2 [[E1 E2 E3 E4 E5] Hl2]. cbn [app ru_disk set_em map] in *. unfold em_finish. step. rewrite E1, E2, E4, !Z.eqb_refl. cbn [negb orb].
    apply wp_bind, wp_pass; [done|]. unfold wp. cbn [ret]. rewrite E3. split; [done|]. unfold slot_of, p in Hl2. cbn [pc_from pc_to pc_fence pc_name pc_tmp] in Hl2.
    rewrite pcs_name_ids, Hall in Hl2 by done. exact Hl2.
Qed.
End tier.

(** C7: a piece merge is its inputs. It leaves one output over the plan's range,
    a segment again and with its ordered index beside it, that says of every
    key what the inputs together say: among any older and any newer segments,
    the live values are the same and a tombstone is there exactly where one was,
    so what the inputs mask the output masks. Every other name of the directory
    holds what it held. *)
Theorem tier_masks env plan next_id putss s opts : env_ok env -> (verify_checksums opts = true -> ev_sums env = true) ->
  run_ready env next_id putss (tp_inputs plan) (mkBlobOptions (tp_checksums plan) (tp_verify_inputs plan) false) s ->
  0 <= tp_id plan < U64 -> 0 <= tp_end_seq plan < U64 -> 0 < Zlen (merged_keys putss) ->
  Forall (fun k => in_fence k (tp_fence plan)) (merged_keys putss) -> puts_fit env (masked_puts putss) ->
  exists s' file, let name := pcs_name (tp_id plan) (tp_end_seq plan) (tp_fence plan) in
    tier_run env plan next_id s = Some (Ok [name], s') /\ ru_disk s' !! name = Some file /\
    input_file env opts (ru_disk s') name (masked_puts putss) /\ ord_sound (ru_disk s') name (masked_puts putss) /\
    (forall y, y ∉ footprint (tier_slot plan putss) -> ru_disk s' !! y = ru_disk s !! y) /\
    forall k pre post, same_say (pre ++ versions [masked_puts putss] k ++ post) (pre ++ versions putss k ++ post).
Proof.
  intros Hen Hc Hrun Hid He Hpos Hf Hfit. pose proof (wp_tier_run env Hen plan next_id putss s Hrun Hid He Hpos Hf Hfit) as Hw.
  apply wp_run in Hw as (names & s' & Hrun' & -> & Hlaid).
  assert (NoDup (footprints [tier_slot plan putss])) as Hnd.
  { unfold footprints, footprint, tier_slot. cbn [map concat sl_name sl_tmp sl_oname app].
    pose proof (last_ord (tp_id plan) (tp_end_seq plan)) as Li. pose proof (last_tmp (ord_name (tp_id plan) (tp_end_seq plan))) as Ti.
    rewrite !NoDup_cons, !elem_of_cons, !elem_of_nil. split_and!; try apply NoDup_nil_2; try (intros [E | [E | [E | []]]]; apply (f_equal List.hd_error) in E; discriminate E);
      try (intros [E | [E | []]]; apply (f_equal List.hd_error) in E; discriminate E); [|by intros []]. intros [E | []]. rewrite <- E, Li in Ti. done. }
  destruct (laid_spec _ _ _ _ Hlaid Hnd) as [Hframe Hout]. destruct (Hout _ ltac:(left)) as (_ & _ & file & ord & Hpf & Hn & Ho).
  cbn [tier_slot sl_name sl_oname sl_puts] in Hpf, Hn, Ho. exists s', file. split; [exact Hrun'|]. split; [exact Hn|]. split; [|split; [|split]].
  - destruct Hpf as [[ets Hff] _]. exists file, (ev_sums env), (ev_set env), (ev_clock env (pcs_name (tp_id plan) (tp_end_seq plan) (tp_fence plan))), 1, ets.
    split; [exact Hn|]. split; [apply Hen|]. split; [exact Hc|]. split; [exact Hff|]. split; apply Hfit.
  - intros oname f ix Hon Hfi Hop. rewrite pcs_name_ids in Hon by done. injection Hon as <-. rewrite Ho in Hfi. injection Hfi as <-.
    destruct (piece_index env _ _ _ _ Hfit Hpf) as (ix' & p & Hop' & Hix). rewrite Hop' in Hop. injection Hop as <-. by exists p.
  - intros y Hy. apply Hframe. unfold footprints. cbn [map concat]. by rewrite app_nil_r.
  - intros k pre post. apply same_say_between. rewrite masked_versions. apply masked_says.
Qed.

(** ** Two segments, merged *)

Lemma puts_file env puts ts : env_ok env -> puts_fit env puts -> 0 <= ts < U64 ->
  exists ets file, finished_file (ev_lz4 env) (ev_sums env) (ev_set env) (ev_key_base env) ts 1 puts ets file.
Proof.
  intros Hen [Hp Ha Hm] Hts. destruct Hen as [_ _ Ht _ [Hb Hal] _ (Hset & Hhr & Hmk)].
  pose proof (wp_put_all (ev_lz4 env) (ev_sums env) (ev_set env) Hset puts [] [] [] [] (create_with (ev_set env)) (inv_create _ _ _ Hset) Hmk Hp Ha Hm) as Hw.
  apply wp_run in Hw as ([] & w & _ & recs & ets & ps & Hi).
  pose proof (wp_finish (ev_lz4 env) (ev_sums env) (ev_set env) (ev_target env) (ev_key_base env) ts 1 puts recs ets ps w Hset Hhr Ht Hb Hal ltac:(unfold U64; lia) Hts Hi) as Hf.
  apply wp_run in Hf as (file & _ & _ & Hf). by exists ets, file.
Qed.

Definition sample_env : Env := mkEnv zero_compress zero_decompress true 7 (fun _ => 5) 0 0 (mkSettings 32 4 true false 0 true true).

(** The newer segment deletes a key of the older one. *)
Definition sample_putss : list (list Put) :=
  [[mkPut [x61] [[x31]] false; mkPut [x62] [zeros 16] false]; [mkPut [x61] [] true; mkPut [x63] [[x33]] false]].

Definition sample_names : list bytes := [seg_name 1 8; seg_name 2 9].

Lemma sample_env_ok : env_ok sample_env.
Proof.
  split; cbn [sample_env ev_lz4 ev_unlz4 ev_target ev_clock ev_key_base ev_blk_base ev_set]; [exact zero_roundtrips|exact zero_in_place|lia|unfold U64; lia|done|done|].
  split; [split; [cbn; unfold U32; lia|split; cbn; lia]|]. split; [cbn; lia|done].
Qed.

Ltac ascending_pair := intros i j a b Hij Hi Hj; pose proof (get_at_lt _ _ _ Hi) as H1; pose proof (get_at_lt _ _ _ Hj) as H2; unfold Zlen in H1, H2; cbn in H1, H2;
  assert (i = 0 /\ j = 1) as [-> ->] by lia; vm_compute in Hi, Hj; injection Hi as <-; injection Hj as <-; by vm_compute.

Lemma sample_putss_fit : Forall (puts_fit sample_env) sample_putss.
Proof.
  repeat (apply Forall_cons; split; [split; [repeat (apply Forall_cons; split; [vm_compute; split; [done|by split]|]); by apply Forall_nil|ascending_pair|by vm_compute]|]).
  by apply Forall_nil.
Qed.

Definition sample_opts : BlobOptions := mkBlobOptions true true false.

Lemma sample_ready : exists disk, disk !! ord_name 1 8 = None /\ disk !! ord_name 2 9 = None /\
  forall em, run_ready sample_env 3 sample_putss sample_names sample_opts (mkRun disk (mkReads [] [] None 0) em).
Proof.
  pose proof sample_putss_fit as Hf. apply Forall_cons in Hf as [H1 Hf]. apply Forall_cons in Hf as [H2 _].
  destruct (puts_file sample_env _ 5 sample_env_ok H1 ltac:(unfold U64; lia)) as (e1 & f1 & F1). destruct (puts_file sample_env _ 5 sample_env_ok H2 ltac:(unfold U64; lia)) as (e2 & f2 & F2).
  exists (<[seg_name 1 8 := f1]> (<[seg_name 2 9 := f2]> ∅)). split; [|split].
  - rewrite !lookup_insert_ne by (intros E; apply (f_equal List.hd_error) in E; discriminate E). by rewrite lookup_empty.
  - rewrite !lookup_insert_ne by (intros E; apply (f_equal List.hd_error) in E; discriminate E). by rewrite lookup_empty.
  - intros em. split; [|done]. cbn [ru_disk]. constructor; [|constructor; [|constructor]].
    + exists f1, true, (ev_set sample_env), 5, 1, e1. split; [by rewrite lookup_insert_eq|]. split; [apply sample_env_ok|]. split; [done|]. split; [exact F1|]. split; apply H1.
    + exists f2, true, (ev_set sample_env), 5, 1, e2. split; [rewrite lookup_insert_ne by (intros E; vm_compute in E; discriminate E); by rewrite lookup_insert_eq|].
      split; [apply sample_env_ok|]. split; [done|]. split; [exact F2|]. split; apply H2.
Qed.

Definition sample_plan : MergePlan := mkPlan sample_names 10 9 1 None 100 true true true true.

Lemma merge_answers_witness : exists disk s' file ord,
  compact_run sample_env sample_plan 3 (mkRun disk (mkReads [] [] None 0) (mkEmitter [] 0 0 None [])) = Some (Ok [par_name 10 9 ([], None)], s') /\
  ru_disk s' !! par_name 10 9 ([], None) = Some file /\ answers sample_env sample_opts 5 sample_putss ([], None) file ord /\
  live_values (versions sample_putss [x61]) = [] /\ live_values (versions sample_putss [x62]) = [zeros 16].
Proof.
  destruct sample_ready as (disk & D1 & D2 & Hrun).
  assert (merged_keys sample_putss = [[x61]; [x62]; [x63]]) as Ek by (by vm_compute).
  destruct (merge_answers sample_env sample_plan 3 sample_putss (mkRun disk (mkReads [] [] None 0) (mkEmitter [] 0 0 None [])) sample_opts 5)
    as (sl & gl & gls & s' & Hsl & _ & _ & _ & Hc & _ & Hout).
  - exact sample_env_ok.
  - done.
  - apply Hrun.
  - repeat constructor; intros oname file ix Hn Hd; cbn [ru_disk] in Hd; vm_compute in Hn; injection Hn as <-.
    + change (disk !! ord_name 1 8 = Some file) in Hd. by rewrite D1 in Hd.
    + change (disk !! ord_name 2 9 = Some file) in Hd. by rewrite D2 in Hd.
  - split; [by repeat constructor|]. by intros [|i] f g.
  - rewrite Ek. repeat (apply Forall_cons; split; [exists ([], None); split; [by left|by vm_compute]|]). by apply Forall_nil.
  - by rewrite Ek.
  - rewrite Ek. repeat (apply Forall_cons; split; [intros p Hp; vm_compute in Hp; first [discriminate Hp|injection Hp as <-; vm_compute; split; [done|by split]]|]). by apply Forall_nil.
  - intros sl gl Hsl. rewrite Ek in Hsl. vm_compute in Hsl. injection Hsl as <- <-. split; [split; vm_compute; [done|by split]|].
    rewrite Ek. constructor; [|constructor]. by vm_compute.
  - rewrite Ek in Hsl. vm_compute in Hsl. injection Hsl as <- <-. destruct (Hout 0 ([], None) eq_refl) as (_ & file & ord & Hf & _ & Ha).
    exists disk, s', file, ord. split; [exact Hc|]. split; [exact Hf|]. split; [exact Ha|]. split; by vm_compute.
Defined.

Definition sample_tier : TierPlan := mkTier sample_names 11 9 ([], None) true true true.

Lemma tier_masks_witness : exists disk s' file,
  tier_run sample_env sample_tier 3 (mkRun disk (mkReads [] [] None 0) (mkEmitter [] 0 0 None [])) = Some (Ok [pcs_name 11 9 ([], None)], s') /\
  ru_disk s' !! pcs_name 11 9 ([], None) = Some file /\
  masked_puts sample_putss = [mkPut [x61] [] true; mkPut [x62] [zeros 16] false; mkPut [x63] [[x33]] false].
Proof.
  destruct sample_ready as (disk & D1 & D2 & Hrun). assert (merged_keys sample_putss = [[x61]; [x62]; [x63]]) as Ek by (by vm_compute).
  assert (masked_puts sample_putss = [mkPut [x61] [] true; mkPut [x62] [zeros 16] false; mkPut [x63] [[x33]] false]) as Em by (by vm_compute).
  destruct (tier_masks sample_env sample_tier 3 sample_putss (mkRun disk (mkReads [] [] None 0) (mkEmitter [] 0 0 None [])) sample_opts) as (s' & file & Ht & Hf & _).
  - exact sample_env_ok.
  - done.
  - apply Hrun.
  - vm_compute. by split.
  - vm_compute. by split.
  - by rewrite Ek.
  - rewrite Ek. repeat (apply Forall_cons; split; [by vm_compute|]). by apply Forall_nil.
  - rewrite Em. split; [repeat (apply Forall_cons; split; [vm_compute; split; [done|by split]|]); by apply Forall_nil| |by vm_compute].
    change (keys_of _) with (merged_keys sample_putss). apply merged_ascending.
  - exists disk, s', file. split; [exact Ht|]. split; [exact Hf|exact Em].
Defined.
