(* ===== verification/Epochs.v ===== *)
(** * Epochs: the table of readers, and commits read without a lock

    [Readers] of [src/src/db.rs] ([claim_in], [pin], [unpin], [bump],
    [walk_pins], [oldest_pinned]), and two protocols as step relations, every
    load and store a step of its own under sequential consistency: [Pins],
    the pins of readers against the writer that replaces a structure, retires
    the old one and frees what no pin can reach; [Marks], the two marks a
    commit writes in turn and a reader takes without a lock. *)

From S2P Require Import Prelude.
From stdpp Require Import relations.
#[local] Open Scope Z_scope.

(** ** The table *)

(** [Slot]: its epoch; the statistics beside it are its handle's own. *)
Record Readers := MkReaders { r_epoch : Z; r_slots : list Z; r_asym : bool; r_barriers : Z }.

Definition UMAX : Z := U64 - 1.
Definition READER_SLOTS : Z := 256.
Definition FROZEN_CAP : Z := 3.
Definition ENGINE_SLOTS : Z := 3 + FROZEN_CAP + 1 + 1.

Definition new_readers (asym : bool) : Readers := MkReaders 1 (replicate (Z.to_nat (ENGINE_SLOTS + READER_SLOTS)) 0) asym 0.

Definition set_slot (r : Readers) (i v : Z) : Readers :=
  MkReaders (r_epoch r) (<[Z.to_nat i := v]> (r_slots r)) (r_asym r) (r_barriers r).

(** The new epoch. *)
Definition bump (r : Readers) : Z * Readers :=
  let e := w64 (r_epoch r + 1) in (e, MkReaders e (r_slots r) (r_asym r) (r_barriers r)).

Definition low_pin (low v : Z) : Z := if v =? 0 then low else Z.min low v.
Definition walk_pins (r : Readers) : Z := fold_left low_pin (r_slots r) UMAX.
Definition sync_pins (r : Readers) : Readers :=
  if r_asym r then MkReaders (r_epoch r) (r_slots r) true (w64 (r_barriers r + 1)) else r.
Definition oldest_pinned (r : Readers) : Z * Readers := let r := sync_pins r in (walk_pins r, r).
Definition oldest_for (r : Readers) (lowest : Z) : Z * Readers :=
  if r_asym r && (walk_pins r <? lowest) then (walk_pins r, r) else oldest_pinned r.

Fixpoint claim_go (fuel : nat) (r : Readers) (i hi : Z) : option (Z * Readers) :=
  match fuel with
  | O => None
  | S fuel =>
      if hi <=? i then None
      else if bool_decide (get_at (r_slots r) i = Some 0) then Some (i, set_slot r i UMAX) else claim_go fuel r (i + 1) hi
  end.
Definition claim_in (r : Readers) (lo hi : Z) : option (Z * Readers) := claim_go (S (Z.to_nat (hi - lo))) r lo hi.
Definition claim (r : Readers) := claim_in r ENGINE_SLOTS (ENGINE_SLOTS + READER_SLOTS).
Definition claim_engine (r : Readers) := claim_in r 0 ENGINE_SLOTS.
Definition release (r : Readers) (slot : Z) : Readers := set_slot r slot 0.
(** With nothing between its loads the loop runs once. *)
Definition pin (r : Readers) (slot : Z) : Readers := set_slot r slot (r_epoch r).
Definition unpin (r : Readers) (slot : Z) : Readers := set_slot r slot UMAX.

Lemma low_pin_mono low low' v : low <= low' -> low_pin low v <= low_pin low' v.
Proof. unfold low_pin. case_match; lia. Qed.
Lemma low_pin_le low v : low_pin low v <= low.
Proof. unfold low_pin. case_match; lia. Qed.

(** ** Pins against retirement *)

Module Pins.

(** Where a reader is in [pin]'s loop, and what it holds while pinned: the
    allocations it has loaded the pointers of. *)
Inductive rpc := Out | Loaded (e : Z) | Stored (e : Z) | Pinned (e : Z) (ps : list nat).
(** Where the writer is: between publishes, past the swap that took the old
    structure out, or in the sweep's walk of the slots. *)
Inductive wpc := Idle | Swapped (old : nat) | Walking (i : nat) (low : Z).

Record sys := Sys {
  rd : Readers; pcs : list rpc; wr : wpc;
  cur : nat; next : nat; retired : list (Z * nat); freed : list nat }.

Definition start (n : nat) (asym : bool) : sys :=
  Sys (MkReaders 1 (replicate n 0) asym 0) (replicate n Out) Idle 0 1 [] [].

Definition with_pc (s : sys) (k : nat) (pc : rpc) (v : option Z) : sys :=
  Sys (match v with Some v => set_slot (rd s) (Z.of_nat k) v | None => rd s end)
      (<[k := pc]> (pcs s)) (wr s) (cur s) (next s) (retired s) (freed s).

Inductive step : sys -> sys -> Prop :=
  | pin_load s k : pcs s !! k = Some Out -> step s (with_pc s k (Loaded (r_epoch (rd s))) None)
  | pin_store s k e : pcs s !! k = Some (Loaded e) -> step s (with_pc s k (Stored e) (Some e))
  | pin_return s k e : pcs s !! k = Some (Stored e) -> r_epoch (rd s) = e -> step s (with_pc s k (Pinned e []) None)
  | pin_again s k e : pcs s !! k = Some (Stored e) -> r_epoch (rd s) <> e -> step s (with_pc s k Out None)
  | read_pointer s k e ps : pcs s !! k = Some (Pinned e ps) -> step s (with_pc s k (Pinned e (cur s :: ps)) None)
  | pin_leave s k e ps : pcs s !! k = Some (Pinned e ps) -> step s (with_pc s k Out (Some UMAX))
  | publish_swap s : wr s = Idle ->
      step s (Sys (rd s) (pcs s) (Swapped (cur s)) (next s) (S (next s)) (retired s) (freed s))
  | publish_bump s old : wr s = Swapped old ->
      step s (Sys (snd (bump (rd s))) (pcs s) (Walking 0 UMAX) (cur s) (next s)
                  (retired s ++ [(fst (bump (rd s)), old)]) (freed s))
  | sweep_slot s i low v : wr s = Walking i low -> r_slots (rd s) !! i = Some v ->
      step s (Sys (rd s) (pcs s) (Walking (S i) (low_pin low v)) (cur s) (next s) (retired s) (freed s))
  | sweep_end s i low : wr s = Walking i low -> r_slots (rd s) !! i = None ->
      step s (Sys (rd s) (pcs s) Idle (cur s) (next s) (List.filter (fun x => low <? fst x) (retired s))
                  (freed s ++ map snd (List.filter (fun x => negb (low <? fst x)) (retired s)))).

(** What a pinned epoch says of a structure's retirement: it came later, and
    a walk past the slot has seen the pin. *)
Definition guarded (s : sys) (k : nat) (e : Z) (p : nat) : Prop :=
  exists tag, (tag, p) ∈ retired s /\ e < tag /\ forall i low, wr s = Walking i low -> (k < i)%nat -> low <= e.

Record inv (n : nat) (s : sys) : Prop := {
  i_len : length (pcs s) = length (r_slots (rd s));
  i_epoch : 1 <= r_epoch (rd s) <= 1 + Z.of_nat n;
  i_pc : forall k pc, pcs s !! k = Some pc ->
    match pc with
    | Out => True
    | Loaded e => 1 <= e <= r_epoch (rd s)
    | Stored e | Pinned e _ => 1 <= e <= r_epoch (rd s) /\ r_slots (rd s) !! k = Some e
    end;
  i_held : forall k e ps p, pcs s !! k = Some (Pinned e ps) -> p ∈ ps ->
    p = cur s \/ wr s = Swapped p \/ guarded s k e p;
  i_cur : (cur s < next s)%nat /\ cur s ∉ freed s /\ forall tag, (tag, cur s) ∉ retired s;
  i_swapped : forall old, wr s = Swapped old -> (old < next s)%nat /\ old <> cur s /\ old ∉ freed s /\ forall tag, (tag, old) ∉ retired s;
  i_retired : forall tag p, (tag, p) ∈ retired s -> (p < next s)%nat /\ p ∉ freed s /\ forall tag', (tag', p) ∈ retired s -> tag' = tag;
  i_freed : forall p, p ∈ freed s -> (p < next s)%nat;
  i_tags : forall tag p, (tag, p) ∈ retired s -> tag <= r_epoch (rd s)
}.

Lemma inv_start n asym : inv 0 (start n asym).
Proof.
  split; cbn; try set_solver; try lia.
  - by rewrite !length_replicate.
  - intros k pc [-> _]%lookup_replicate. done.
  - intros k e ps p [? _]%lookup_replicate. done.
Qed.

Section preserved.
Context (n : nat) (s : sys) (Hi : inv n s).

Lemma set_slot_get k j v : (k < length (r_slots (rd s)))%nat ->
  r_slots (set_slot (rd s) (Z.of_nat k) v) !! j = if decide (j = k) then Some v else r_slots (rd s) !! j.
Proof.
  intros Hk. cbn. rewrite Nat2Z.id. case_decide as E; [subst; by apply list_lookup_insert_eq|].
  by apply list_lookup_insert_ne.
Qed.

(** A step of a reader's own: the pins of the others, and what it says of
    itself. *)
Lemma inv_reader k old pc v : pcs s !! k = Some old ->
  match pc with
  | Out => True
  | Loaded e => 1 <= e <= r_epoch (rd s)
  | Stored e | Pinned e _ => 1 <= e <= r_epoch (rd s) /\ (v = Some e \/ v = None /\ r_slots (rd s) !! k = Some e)
  end ->
  (forall e ps p, pc = Pinned e ps -> p ∈ ps -> p = cur s \/ wr s = Swapped p \/ guarded s k e p) ->
  inv (S n) (with_pc s k pc v).
Proof.
  intros Hk Hpc Hheld. destruct Hi as [A B C D E F G H T].
  assert (k < length (r_slots (rd s)))%nat as Hkl by (rewrite <- A; by eapply lookup_lt_Some).
  assert (forall j, (pcs (with_pc s k pc v)) !! j = if decide (j = k) then Some pc else pcs s !! j) as Hget.
  { intros j. cbn. case_decide as Ej; [subst; apply list_lookup_insert_eq; by eapply lookup_lt_Some|by apply list_lookup_insert_ne]. }
  assert (forall j, r_slots (rd (with_pc s k pc v)) !! j =
    if decide (j = k) then (match v with Some v => Some v | None => r_slots (rd s) !! k end) else r_slots (rd s) !! j) as Hslot.
  { intros j. unfold with_pc. cbn [rd]. destruct v; [rewrite set_slot_get by done; by case_decide|]. case_decide; by subst. }
  assert (r_epoch (rd (with_pc s k pc v)) = r_epoch (rd s)) as He by (by destruct v).
  split; try done.
  - unfold with_pc. cbn. destruct v; cbn; rewrite ?length_insert; done.
  - rewrite He. lia.
  - intros j q Hj. rewrite He, Hslot. rewrite Hget in Hj. case_decide as Ej.
    + injection Hj as <-. subst j. destruct pc; try done; destruct Hpc as [? [->|[-> ?]]]; done.
    + apply C in Hj. done.
  - intros j e ps p Hj Hp. rewrite Hget in Hj. case_decide as Ej.
    + injection Hj as ->. subst j. by eapply Hheld.
    + by eapply D.
  - by rewrite He.
Qed.

End preserved.

Lemma inv_step n s s' : inv n s -> Z.of_nat n < U64 - 2 -> step s s' -> inv (S n) s'.
Proof.
  intros Hi Hn Hs. destruct Hs as
    [s k Hk|s k e Hk|s k e Hk He|s k e Hk He|s k e ps Hk|s k e ps Hk|s Hw|s old Hw|s i low v Hw Hv|s i low Hw Hv];
    pose proof Hi as [A B C D E F G H T].
  - eapply (inv_reader n s Hi); [done|lia|done].
  - pose proof (C _ _ Hk). eapply (inv_reader n s Hi); [done| |done]. split; [done|by left].
  - pose proof (C _ _ Hk) as []. eapply (inv_reader n s Hi); [done| |]; [auto|]. intros ? ? p [= <- <-] Hp. set_solver.
  - by eapply (inv_reader n s Hi).
  - pose proof (C _ _ Hk) as []. eapply (inv_reader n s Hi); [done|auto|]. intros ? ? p [= <- <-] [->|Hp]%elem_of_cons; [by left|].
    by eapply D.
  - by eapply (inv_reader n s Hi).
  - split; cbn; try done; try lia.
    + intros k e ps p Hk Hp. destruct (D _ _ _ _ Hk Hp) as [-> |[Hw'|(tag & H1 & H2 & H3)]]; [by right; left|congruence|].
      right; right. exists tag. split; [done|]. split; [done|]. by intros.
    + destruct E as (E1 & E2 & E3). split; [lia|]. split; [intros Hx%H; lia|]. intros tag (Hx & _)%G. lia.
    + intros old [= <-]. destruct E as (E1 & E2 & E3). repeat split; try done; lia.
    + intros tag p Hp. destruct (G _ _ Hp) as (G1 & G2 & G3). split; [lia|]. done.
    + intros p Hp%H. lia.
  - destruct (F _ Hw) as (F1 & F2 & F3 & F4). assert (w64 (r_epoch (rd s) + 1) = r_epoch (rd s) + 1) as Hb.
    { unfold w64. rewrite Z.mod_small; unfold U64 in *; lia. }
    assert (bump (rd s) = (r_epoch (rd s) + 1, MkReaders (r_epoch (rd s) + 1) (r_slots (rd s)) (r_asym (rd s)) (r_barriers (rd s)))) as Hbump.
    { unfold bump. by rewrite Hb. }
    rewrite Hbump. cbn [fst snd]. split; cbn; try done; try lia.
    + intros k pc Hk. apply C in Hk. destruct pc; try lia; destruct Hk; split; [lia|done|lia|done].
    + intros k e ps p Hk Hp. pose proof (C _ _ Hk) as [Ce _].
      destruct (D _ _ _ _ Hk Hp) as [-> |[Hw'|(tag & H1 & H2 & H3)]]; [by left| |]; right; right.
      * assert (old = p) as -> by congruence. exists (r_epoch (rd s) + 1). split; [cbn; apply elem_of_app; right; by apply list_elem_of_singleton|]. split; [lia|].
        intros i low [= <- <-]. lia.
      * exists tag. split; [cbn; apply elem_of_app; by left|]. split; [done|]. intros i low [= <- <-]. lia.
    + destruct E as (E1 & E2 & E3). split; [done|]. split; [done|]. intros tag [Hx|Hx%list_elem_of_singleton]%elem_of_app; [by apply E3 in Hx|].
      congruence.
    + intros tag p [Hx|Hx%list_elem_of_singleton]%elem_of_app.
      * destruct (G _ _ Hx) as (G1 & G2 & G3). split; [done|]. split; [done|].
        intros tag' [Hy|Hy%list_elem_of_singleton]%elem_of_app; [by apply G3|]. injection Hy as -> ->. by apply F4 in Hx.
      * injection Hx as -> ->. split; [done|]. split; [done|].
        intros tag' [Hy|Hy%list_elem_of_singleton]%elem_of_app; [by apply F4 in Hy|congruence].
    + intros tag p [Hx%T|Hx%list_elem_of_singleton]%elem_of_app; [lia|]. injection Hx as -> ->. lia.
  - split; cbn; try done; try lia.
    intros k e ps p Hk Hp. pose proof (C _ _ Hk) as [Ce Cs].
    destruct (D _ _ _ _ Hk Hp) as [-> |[Hw'|(tag & H1 & H2 & H3)]]; [by left|congruence|]. right; right.
    exists tag. split; [done|]. split; [done|]. intros i' low' [= <- <-] Hki.
    destruct (decide (k = i)) as [-> |]; [|pose proof (low_pin_le low v); specialize (H3 _ _ Hw ltac:(lia)); lia].
    rewrite Cs in Hv. injection Hv as <-. unfold low_pin. case_match; lia.
  - assert (forall x, x ∈ List.filter (fun x => low <? fst x) (retired s) <-> x ∈ retired s /\ low < fst x) as Hkeep.
    { intros x. rewrite list_elem_of_In, filter_In, <- list_elem_of_In, Z.ltb_lt. done. }
    assert (forall p, p ∈ map snd (List.filter (fun x => negb (low <? fst x)) (retired s)) -> exists tag, (tag, p) ∈ retired s /\ tag <= low) as Hgone.
    { intros p ([tag q] & [= <-] & Hx)%list_elem_of_In%in_map_iff. apply filter_In in Hx as [Hx Ht]. exists tag.
      split; [by apply list_elem_of_In|]. cbn in Ht. apply negb_true_iff, Z.ltb_ge in Ht. done. }
    split; cbn; try done; try lia.
    + intros k e ps p Hk Hp. destruct (D _ _ _ _ Hk Hp) as [-> |[Hw'|(tag & H1 & H2 & H3)]]; [by left|congruence|]. right; right.
      exists tag. split; [|split; [done|by intros]]. apply Hkeep. split; [done|]. cbn.
      enough (low <= e) by lia. apply (H3 _ _ Hw). apply lookup_lt_Some in Hk. apply lookup_ge_None in Hv. lia.
    + destruct E as (E1 & E2 & E3). split; [done|]. split; [intros [Hx|(tag & Hx & _)%Hgone]%elem_of_app; [done|by apply E3 in Hx]|].
      intros tag [Hx _]%Hkeep. by apply E3 in Hx.
    + intros tag p [Hx Ht]%Hkeep. destruct (G _ _ Hx) as (G1 & G2 & G3). split; [done|]. split.
      * intros [Hy|(tag' & Hy & Hl)%Hgone]%elem_of_app; [done|]. apply G3 in Hy. cbn in Ht. lia.
      * intros tag' [Hy _]%Hkeep. by apply G3.
    + intros p [Hx|(tag & Hx & _)%Hgone]%elem_of_app; [by apply H|]. by apply G in Hx as [].
    + intros tag p [Hx _]%Hkeep. by eapply T.
Qed.

Lemma inv_steps n m s s' : nsteps step m s s' -> inv n s -> Z.of_nat (n + m) < U64 - 2 -> inv (n + m) s'.
Proof.
  intros Hs. revert n. induction Hs as [|m s s1 s' H1 _ IH]; intros n Hi Hn; [by rewrite Nat.add_0_r|].
  rewrite <- Nat.add_succ_comm. apply IH; [|lia]. apply (inv_step n s); [done|lia|done].
Qed.

(** C9: At every moment of every interleaving of the writer with its readers
    (swaps, bumps, sweeps read a slot at a time, pins in their three steps,
    loads, unpins), what a pinned reader has loaded has not been freed, whichever
    epochs the sweep saw. *)
Theorem pinned_never_freed (readers m : nat) (asym : bool) (s : sys) (k : nat) (e : Z) (ps : list nat) (p : nat) :
  nsteps step m (start readers asym) s -> Z.of_nat m < U64 - 2 ->
  pcs s !! k = Some (Pinned e ps) -> p ∈ ps -> p ∉ freed s.
Proof.
  intros Hs Hm Hk Hp. pose proof (inv_steps 0 m _ _ Hs (inv_start _ _) Hm) as [A B C D E F G H T].
  destruct (D _ _ _ _ Hk Hp) as [-> |[Hw|(tag & H1 & _)]]; [apply E|by apply (F _ Hw)|by apply (G _ _ H1)].
Qed.

(** A sweep that meets no pin: *)
Lemma walk_unpinned s i low m : wr s = Walking i low -> (i + m = length (r_slots (rd s)))%nat ->
  Forall (fun v => v = 0 \/ v = UMAX) (r_slots (rd s)) -> low <= UMAX ->
  rtc step s (Sys (rd s) (pcs s) (Walking (i + m) low) (cur s) (next s) (retired s) (freed s)).
Proof.
  intros Hw Hm Hall Hlow. revert s i Hw Hm Hall. induction m as [|m IH]; intros s i Hw Hm Hall.
  - rewrite Nat.add_0_r, <- Hw. by destruct s.
  - destruct (lookup_lt_is_Some_2 (r_slots (rd s)) i ltac:(lia)) as [v Hv].
    assert (low_pin low v = low) as Hlp. { unfold low_pin. rewrite Forall_lookup in Hall. destruct (Hall _ _ Hv) as [-> | ->]; case_match; lia. }
    eapply rtc_l; [by eapply sweep_slot|]. rewrite Hlp, <- Nat.add_succ_comm.
    apply (IH (Sys (rd s) (pcs s) (Walking (S i) low) (cur s) (next s) (retired s) (freed s)) (S i)); cbn; try done. lia.
Qed.

(** C12: Reclamation does not wait for readers that have left: from any reachable
    state in which the writer is idle and no slot holds a pin, one more publish
    and its sweep free everything retired, with what the publish replaced. *)
Theorem unpinned_all_freed (readers m : nat) (asym : bool) (s : sys) :
  nsteps step m (start readers asym) s -> Z.of_nat m < U64 - 4 -> wr s = Idle ->
  Forall (fun v => v = 0 \/ v = UMAX) (r_slots (rd s)) ->
  exists s', rtc step s s' /\ wr s' = Idle /\ retired s' = [] /\
    forall p, p = cur s \/ (exists tag, (tag, p) ∈ retired s) -> p ∈ freed s'.
Proof.
  intros Hs Hm Hw Hall. pose proof (inv_steps 0 m _ _ Hs (inv_start _ _) ltac:(lia)) as Hi.
  set (s1 := Sys (rd s) (pcs s) (Swapped (cur s)) (next s) (S (next s)) (retired s) (freed s)).
  assert (step s s1) as H1 by (by apply publish_swap).
  pose proof (inv_step _ _ _ Hi ltac:(lia) H1) as Hi1.
  pose proof (publish_bump s1 (cur s) eq_refl) as H2. revert H2. set (s2 := Sys _ _ (Walking 0 UMAX) _ _ _ _). intros H2.
  pose proof (inv_step _ _ _ Hi1 ltac:(lia) H2) as Hi2.
  pose proof (walk_unpinned s2 0 UMAX (length (r_slots (rd s2))) eq_refl eq_refl Hall ltac:(lia)) as H3. cbn [Nat.add] in H3.
  revert H3. set (s3 := Sys _ _ _ _ _ _ _). intros H3.
  pose proof (sweep_end s3 (length (r_slots (rd s2))) UMAX eq_refl) as H4.
  specialize (H4 ltac:(apply lookup_ge_None; cbn; lia)).
  assert (forall tag p, (tag, p) ∈ retired s2 -> (UMAX <? tag) = false) as Htag.
  { intros tag p Hx. apply Z.ltb_ge. pose proof (i_tags _ _ Hi2 _ _ Hx). pose proof (i_epoch _ _ Hi2). unfold UMAX. lia. }
  eexists. split; [eapply rtc_l; [exact H1|]; eapply rtc_l; [exact H2|]; eapply rtc_r; [exact H3|exact H4]|].
  split; [done|]. change (retired s3) with (retired s2). cbn [retired freed]. split.
  - rewrite <- (List.filter_ext_in (fun _ => false)); [generalize (retired s2); clear; intros l; by induction l|].
    intros [tag p] Hx%list_elem_of_In. cbn. by rewrite (Htag tag p).
  - intros p Hp. assert (exists tag, (tag, p) ∈ retired s2) as [tag Hx].
    { destruct Hp as [-> |[tag Hx]].
      - exists (fst (bump (rd s1))). cbn. apply elem_of_app. right. by apply list_elem_of_singleton.
      - exists tag. cbn. apply elem_of_app. by left. }
    apply elem_of_app. right. apply list_elem_of_In, in_map_iff. exists (tag, p). split; [done|].
    apply filter_In. split; [by apply list_elem_of_In|]. cbn. by rewrite (Htag tag p).
Qed.

Ltac go c := eapply nsteps_l; [apply c; vm_compute; reflexivity|]; cbn.

(** A reader that pinned, and loaded, before a publish whose sweep then runs. *)
Lemma pinned_never_freed_witness :
  exists s, nsteps step 8 (start 1 false) s /\ pcs s !! 0%nat = Some (Pinned 1 [0%nat]) /\ wr s = Idle /\
    retired s = [(2, 0%nat)] /\ 0%nat ∉ freed s.
Proof.
  eassert (nsteps step 8 (start 1 false) _) as H.
  { go (pin_load (start 1 false) 0). go (fun s => pin_store s 0 1). go (fun s => pin_return s 0 1).
    go (fun s => read_pointer s 0 1 []). go publish_swap. go (fun s => publish_bump s 0%nat).
    go (fun s => sweep_slot s 0 UMAX 1). go (fun s => sweep_end s 1 1). apply nsteps_O. }
  eexists. split; [exact H|]. split; [reflexivity|]. split; [reflexivity|]. split; [reflexivity|].
  exact (pinned_never_freed 1 8 false _ 0 1 [0%nat] 0%nat H ltac:(reflexivity) eq_refl ltac:(by left)).
Defined.

(** A reader that pinned, loaded and left; the structure it read goes with
    the next publish. *)
Lemma unpinned_all_freed_witness :
  exists s s', nsteps step 5 (start 1 false) s /\ rtc step s s' /\ cur s = 0%nat /\ retired s' = [] /\ 0%nat ∈ freed s'.
Proof.
  eassert (nsteps step 5 (start 1 false) _) as H.
  { go (pin_load (start 1 false) 0). go (fun s => pin_store s 0 1). go (fun s => pin_return s 0 1).
    go (fun s => read_pointer s 0 1 []). go (fun s => pin_leave s 0 1 [0%nat]). apply nsteps_O. }
  destruct (unpinned_all_freed 1 5 false _ H ltac:(reflexivity) eq_refl ltac:(vm_compute; repeat constructor; by right))
    as (s' & H1 & H2 & H3 & H4).
  eexists _, s'. split; [exact H|]. split; [exact H1|]. split; [reflexivity|]. split; [exact H3|]. apply H4. by left.
Defined.
End Pins.

(** ** Commits *)

Record CommitMark := MkMark { m_log : Z; m_len : Z; m_wm : Z }.

(** [marks[(n & 1) as usize]]. *)
Definition mark_of (ms : CommitMark * CommitMark) (n : Z) : CommitMark := if Z.land n 1 =? 1 then snd ms else fst ms.
Definition set_mark (ms : CommitMark * CommitMark) (n : Z) (x : CommitMark) : CommitMark * CommitMark :=
  if Z.land n 1 =? 1 then (fst ms, x) else (x, snd ms).

Lemma mark_of_same ms n x : mark_of (set_mark ms n x) n = x.
Proof. unfold mark_of, set_mark. by case_match. Qed.
Lemma land_1_mod n : Z.land n 1 = n mod 2.
Proof. apply (land_ones_mod n 1). lia. Qed.
Lemma mark_of_other ms n x : 0 <= n -> mark_of (set_mark ms (n + 1) x) n = mark_of ms n.
Proof.
  intros Hn. unfold mark_of, set_mark. rewrite !land_1_mod.
  destruct (Z.eqb_spec ((n + 1) mod 2) 1), (Z.eqb_spec (n mod 2) 1); try done; Z.div_mod_to_equations; lia.
Qed.

Module Marks.

(** Where [commit] is: between two, or past the store of each word of [x],
    what the commit stores. *)
Inductive wpc := Idle | Log (x : CommitMark) | Len (x : CommitMark) | Wm (x : CommitMark).
(** Where [committed_at] is: past each load, and returned. *)
Inductive rpc :=
  | Begin | Mark (n : Z) | MLog (n log : Z) | MLen (n log len : Z) | MWm (n log len wm : Z) | Return (n : Z) (x : CommitMark).

Record sys := Sys { marks : CommitMark * CommitMark; mark : Z; wr : wpc; pcs : list rpc; history : list CommitMark }.

Definition none : CommitMark := MkMark 0 0 0.
Definition start (readers : nat) : sys := Sys (none, none) 0 Idle (replicate readers Begin) [none].

(** The words of the mark being written, as far as they are. *)
Definition store_word (s : sys) (f : CommitMark -> CommitMark) (w : wpc) : sys :=
  let n := w64 (mark s + 1) in Sys (set_mark (marks s) n (f (mark_of (marks s) n))) (mark s) w (pcs s) (history s).
Definition with_pc (s : sys) (k : nat) (pc : rpc) : sys := Sys (marks s) (mark s) (wr s) (<[k := pc]> (pcs s)) (history s).

Inductive step : sys -> sys -> Prop :=
  | commit_log s x : wr s = Idle -> step s (store_word s (fun m => MkMark (m_log x) (m_len m) (m_wm m)) (Log x))
  | commit_len s x : wr s = Log x -> step s (store_word s (fun m => MkMark (m_log m) (m_len x) (m_wm m)) (Len x))
  | commit_wm s x : wr s = Len x -> step s (store_word s (fun m => MkMark (m_log m) (m_len m) (m_wm x)) (Wm x))
  | commit_mark s x : wr s = Wm x -> step s (Sys (marks s) (w64 (mark s + 1)) Idle (pcs s) (history s ++ [x]))
  | load_mark s k : pcs s !! k = Some Begin -> step s (with_pc s k (Mark (mark s)))
  | load_log s k n : pcs s !! k = Some (Mark n) -> step s (with_pc s k (MLog n (m_log (mark_of (marks s) n))))
  | load_len s k n log : pcs s !! k = Some (MLog n log) -> step s (with_pc s k (MLen n log (m_len (mark_of (marks s) n))))
  | load_wm s k n log len : pcs s !! k = Some (MLen n log len) ->
      step s (with_pc s k (MWm n log len (m_wm (mark_of (marks s) n))))
  | load_return s k n log len wm : pcs s !! k = Some (MWm n log len wm) -> mark s = n ->
      step s (with_pc s k (Return n (MkMark log len wm)))
  | load_again s k n log len wm : pcs s !! k = Some (MWm n log len wm) -> mark s <> n -> step s (with_pc s k Begin)
  | ask s k n x : pcs s !! k = Some (Return n x) -> step s (with_pc s k Begin).

(** What a reader's words say of the commit [c] that was last when it
    loaded the mark, as long as it still is. *)
Definition of_commit (c : CommitMark) (m : Z) (h : list CommitMark) (pc : rpc) : Prop :=
  match pc with
  | Begin => True
  | Mark n => 0 <= n <= m
  | MLog n log => 0 <= n <= m /\ (n = m -> log = m_log c)
  | MLen n log len => 0 <= n <= m /\ (n = m -> log = m_log c /\ len = m_len c)
  | MWm n log len wm => 0 <= n <= m /\ (n = m -> log = m_log c /\ len = m_len c /\ wm = m_wm c)
  | Return n x => h !! Z.to_nat n = Some x
  end.

(** The words of the other mark, once stored. *)
Definition half_written (x : CommitMark) (w : wpc) : Prop :=
  match w with
  | Idle => True
  | Log y => m_log x = m_log y
  | Len y => m_log x = m_log y /\ m_len x = m_len y
  | Wm y => x = y
  end.

Record inv (n : nat) (s : sys) : Prop := {
  i_mark : 0 <= mark s <= Z.of_nat n;
  i_last : history s !! Z.to_nat (mark s) = Some (mark_of (marks s) (mark s));
  i_hist : Z.of_nat (length (history s)) = mark s + 1;
  i_other : half_written (mark_of (marks s) (mark s + 1)) (wr s);
  i_pcs : forall k pc, pcs s !! k = Some pc -> of_commit (mark_of (marks s) (mark s)) (mark s) (history s) pc
}.

Lemma marks_pc n s k old pc : inv n s -> pcs s !! k = Some old ->
  of_commit (mark_of (marks s) (mark s)) (mark s) (history s) pc -> inv (S n) (with_pc s k pc).
Proof.
  intros [A B C D E] Hk Hpc. split; cbn; try done; [lia|]. intros j q Hj.
  destruct (decide (j = k)) as [-> |].
  - rewrite list_lookup_insert_eq in Hj by (by eapply lookup_lt_Some). congruence.
  - rewrite list_lookup_insert_ne in Hj by done. by eapply E.
Qed.

Lemma inv_store n s f w : inv n s -> Z.of_nat n < U64 - 2 ->
  half_written (f (mark_of (marks s) (mark s + 1))) w -> inv (S n) (store_word s f w).
Proof.
  intros [A B C D E] Hn Hw. assert (w64 (mark s + 1) = mark s + 1) as Hm by (unfold w64; rewrite Z.mod_small; unfold U64 in *; lia).
  assert (mark_of (marks (store_word s f w)) (mark s) = mark_of (marks s) (mark s)) as Hsame.
  { cbn. rewrite Hm. apply mark_of_other. lia. }
  split; try (cbn; lia).
  - cbn [history mark store_word]. change (mark (store_word s f w)) with (mark s). rewrite Hsame. done.
  - cbn. rewrite Hm, mark_of_same. done.
  - change (mark (store_word s f w)) with (mark s). rewrite Hsame. apply E.
Qed.

Lemma marks_step n s s' : inv n s -> Z.of_nat n < U64 - 2 -> step s s' -> inv (S n) s'.
Proof.
  intros Hi Hn Hs. pose proof Hi as [A B C D E]. destruct Hs as
    [s x Hw|s x Hw|s x Hw|s x Hw|s k Hk|s k m Hk|s k m log Hk|s k m log len Hk|s k m log len wm Hk He|s k m log len wm Hk He|s k m x Hk].
  - by apply inv_store.
  - rewrite Hw in D. by apply inv_store.
  - rewrite Hw in D. cbn in D. apply inv_store; [done|done|]. cbn. destruct D as [-> ->]. by destruct x.
  - rewrite Hw in D. cbn in D. assert (w64 (mark s + 1) = mark s + 1) as Hm by (unfold w64; rewrite Z.mod_small; unfold U64 in *; lia).
    split; cbn; rewrite ?Hm, ?D; try done; try lia.
    + rewrite lookup_app_r by lia. replace (Z.to_nat (mark s + 1) - length (history s))%nat with 0%nat by lia. done.
    + rewrite length_app. cbn. lia.
    + intros k pc Hk. apply E in Hk. destruct pc; cbn in *; try done; try lia.
      by apply lookup_app_l_Some.
  - eapply marks_pc; [done..|]. cbn. lia.
  - eapply marks_pc; [done..|]. apply E in Hk. cbn in *. split; [lia|]. by intros ->.
  - eapply marks_pc; [done..|]. apply E in Hk as [H1 H2]. cbn. split; [lia|]. intros ->. by rewrite H2.
  - eapply marks_pc; [done..|]. apply E in Hk as [H1 H2]. cbn. split; [lia|]. intros ->. destruct (H2 eq_refl) as [-> ->]. done.
  - eapply marks_pc; [done..|]. apply E in Hk as [H1 H2]. destruct (H2 (eq_sym He)) as (-> & -> & ->). cbn. rewrite <- He.
    rewrite B. by destruct (mark_of _ _).
  - by eapply marks_pc.
  - by eapply marks_pc.
Qed.

Lemma marks_start readers : inv 0 (start readers).
Proof. split; cbn; try done. intros k pc [-> _]%lookup_replicate. done. Qed.

Lemma marks_steps n m s s' : nsteps step m s s' -> inv n s -> Z.of_nat (n + m) < U64 - 2 -> inv (n + m) s'.
Proof.
  intros Hs. revert n. induction Hs as [|m s s1 s' H1 _ IH]; intros n Hi Hn; [by rewrite Nat.add_0_r|].
  rewrite <- Nat.add_succ_comm. apply IH; [|lia]. apply (marks_step n s); [done|lia|done].
Qed.

(** C11: The three words [committed_at] answers with are those of one commit, the
    one the mark it loaded names, in every interleaving of its loads with the
    stores of any number of commits. *)
Theorem committed_at_one_commit (readers m : nat) (s : sys) (k : nat) (n : Z) (x : CommitMark) :
  nsteps step m (start readers) s -> Z.of_nat m < U64 - 2 ->
  pcs s !! k = Some (Return n x) -> history s !! Z.to_nat n = Some x.
Proof.
  intros Hs Hm Hk. pose proof (marks_steps 0 m _ _ Hs (marks_start _) Hm) as [A B C D E]. exact (E _ _ Hk).
Qed.

Ltac go c := eapply nsteps_l; [apply c; vm_compute; reflexivity|]; cbn.

(** A commit, and a reader whose loads the next commit's stores fall among. *)
Lemma committed_at_one_commit_witness :
  exists s, nsteps step 11 (start 1) s /\ wr s = Len (MkMark 9 8 7) /\
    pcs s !! 0%nat = Some (Return 1 (MkMark 3 2 40)) /\ history s !! 1%nat = Some (MkMark 3 2 40).
Proof.
  eassert (nsteps step 11 (start 1) _) as H.
  { go (fun s => commit_log s (MkMark 3 2 40)). go (fun s => commit_len s (MkMark 3 2 40)).
    go (fun s => commit_wm s (MkMark 3 2 40)). go (fun s => commit_mark s (MkMark 3 2 40)).
    go (fun s => load_mark s 0). go (fun s => load_log s 0 1). go (fun s => commit_log s (MkMark 9 8 7)).
    go (fun s => load_len s 0 1 3). go (fun s => load_wm s 0 1 3 2). go (fun s => commit_len s (MkMark 9 8 7)).
    go (fun s => load_return s 0 1 3 2 40). apply nsteps_O. }
  eexists. split; [exact H|]. split; [reflexivity|]. split; [reflexivity|].
  exact (committed_at_one_commit 1 11 _ 0 1 _ H ltac:(reflexivity) eq_refl).
Defined.
End Marks.
