(* ===== verification/Arena.v ===== *)
(** * The memtable's memory: arenas and slabs

    [ByteArena] and [Slab] of [src/src/db.rs]: bytes in blocks that never move,
    named by logical offsets, and entries numbered in push order. A block's
    memory is not zeroed, so it starts with no bytes here and a read of a byte
    never written has no answer, as one past a block has none ([None], where
    the source panics or would read what nothing wrote). A pointer of the
    source is a block's number. *)

From S2P Require Import Prelude.
From stdpp Require Import gmap.
#[local] Open Scope Z_scope.

Definition ARENA_SHIFT : Z := 22.
Definition ARENA_BLOCKS : Z := 2 ^ 12.

(** A block: its capacity and the bytes written, by place. *)
Record Block := MkBlock { b_cap : Z; b_bytes : gmap Z byte }.
Record ArenaTail := MkTail { t_at : Z; t_block_end : Z; t_next_block : Z; t_block_start : Z }.
Record ByteArena := MkArena { a_blocks : gmap Z Block; a_tail : ArenaTail; a_used : Z; a_shift : Z }.

Definition with_shift (shift : Z) : ByteArena := MkArena ∅ (MkTail 0 0 0 0) 0 shift.
Definition new_arena : ByteArena := with_shift ARENA_SHIFT.
Definition block_len (a : ByteArena) : Z := Z.shiftl 1 (a_shift a).

(** [n] contiguous bytes; a fresh block where the tail's has no room. *)
Definition reserve (a : ByteArena) (n : Z) : option (Z * ByteArena) :=
  let t := a_tail a in
  '(t, bs) ← (if (t_block_end t <? t_at t + n) || (t_block_end t =? 0) then
      let b := t_next_block t in
      if ARENA_BLOCKS <=? b then None
      else
        let cap := Z.max (block_len a) (Z.land (n + 63) (Z.lnot 63)) in
        let at_ := Z.shiftl b (a_shift a) in
        Some (MkTail at_ (at_ + cap) (b + div_ceil cap (block_len a)) at_, <[b := MkBlock cap ∅]> (a_blocks a))
    else Some (t, a_blocks a));
  Some (t_at t, MkArena bs (MkTail (t_at t + n) (t_block_end t) (t_next_block t) (t_block_start t)) (a_used a + n) (a_shift a)).

(** The block of an offset, and the place in it. *)
Definition block (a : ByteArena) (off len : Z) : option (Z * Block * Z) :=
  let b := Z.shiftr off (a_shift a) in
  let w := Z.land off (block_len a - 1) in
  if b <? ARENA_BLOCKS then
    p ← a_blocks a !! b;
    if w + len <=? b_cap p then Some (b, p, w) else None
  else None.

Fixpoint store (m : gmap Z byte) (w : Z) (l : bytes) : gmap Z byte :=
  match l with [] => m | x :: l => store (<[w := x]> m) (w + 1) l end.
Fixpoint load (m : gmap Z byte) (w : Z) (n : nat) : option bytes :=
  match n with O => Some [] | S n => x ← m !! w; l ← load m (w + 1) n; Some (x :: l) end.

Definition write (a : ByteArena) (off : Z) (l : bytes) : option ByteArena :=
  '(b, p, w) ← block a off (Zlen l);
  Some (MkArena (<[b := MkBlock (b_cap p) (store (b_bytes p) w l)]> (a_blocks a)) (a_tail a) (a_used a) (a_shift a)).

Definition slice (a : ByteArena) (off len : Z) : option bytes :=
  '(_, p, w) ← block a off len; load (b_bytes p) w (Z.to_nat len).

Definition tail (a : ByteArena) : Z := t_at (a_tail a).
Definition used (a : ByteArena) : Z := a_used a.

(** The first block's start again, where there is one block or none: the
    bytes stay. *)
Definition reset_if_single_block (a : ByteArena) : ByteArena :=
  let t := a_tail a in
  if t_next_block t <=? 1 then
    MkArena (a_blocks a) (MkTail 0 (match a_blocks a !! 0 with Some p => b_cap p | None => 0 end) (t_next_block t) (t_block_start t))
            (a_used a) (a_shift a)
  else a.

(** ** Slabs: [blocks] of [SLAB_BLOCK] entries *)

Definition SLAB_SHIFT : Z := 16.
Definition SLAB_BLOCK : Z := Z.shiftl 1 SLAB_SHIFT.
Definition SLAB_BLOCKS : Z := 2 ^ 12.

(** The entries written and the length published, which a truncation lowers. *)
Record Slab (T : Type) := MkSlab { s_items : list T; s_len : Z }.
Arguments MkSlab {T}. Arguments s_items {T}. Arguments s_len {T}.

Section slab.
Context {T : Type}.
Implicit Types s : Slab T.

Definition new_slab : Slab T := MkSlab [] 0.
Definition push s (v : T) : option (Z * Slab T) :=
  let id := s_len s in
  if SLAB_BLOCKS <=? Z.shiftr id SLAB_SHIFT then None
  else Some (id, MkSlab (take (Z.to_nat id) (s_items s) ++ [v] ++ drop (Z.to_nat (id + 1)) (s_items s)) (id + 1)).
Definition get s (id : Z) : option T := get_at (s_items s) id.
(** A store to an entry's words. *)
Definition set s (id : Z) (v : T) : Slab T := MkSlab (<[Z.to_nat id := v]> (s_items s)) (s_len s).
Definition truncate s (n : Z) : Slab T := MkSlab (s_items s) n.
End slab.

(** ** Blocks' bytes *)

Lemma load_store m w l : load (store m w l) w (length l) = Some l.
Proof.
  assert (forall l m w w' x, w' < w -> store m w l !! w' = x <-> m !! w' = x) as Hlt.
  { clear. induction l as [|y l IH]; intros m w w' x Hw; [done|]. cbn [store]. rewrite IH by lia.
    by rewrite lookup_insert_ne by lia. }
  revert m w. induction l as [|x l IH]; intros m w; [done|]. cbn [store length load].
  rewrite (proj2 (Hlt l (<[w:=x]> m) (w + 1) w (Some x) ltac:(lia))) by (by rewrite lookup_insert_eq).
  cbn [mbind option_bind]. by rewrite IH.
Qed.

Lemma store_apart m w l w' : w' < w \/ w + Zlen l <= w' -> store m w l !! w' = m !! w'.
Proof.
  revert m w. induction l as [|x l IH]; intros m w Hw; [done|]. cbn [store]. rewrite Zlen_cons in Hw.
  pose proof (Zlen_nonneg l). rewrite IH by lia. by rewrite lookup_insert_ne by lia.
Qed.

Lemma load_ext m m' w n : (forall i, w <= i < w + Z.of_nat n -> m !! i = m' !! i) -> load m w n = load m' w n.
Proof.
  revert w. induction n as [|n IH]; intros w H; [done|]. cbn [load]. rewrite H, (IH (w + 1)) by (intros; try apply H; lia). done.
Qed.

Lemma load_len m w n l : load m w n = Some l -> length l = n.
Proof.
  revert w l. induction n as [|n IH]; intros w l; [by intros [= <-]|]. cbn [load].
  destruct (m !! w); [|done]. cbn [mbind option_bind]. destruct (load m (w + 1) n) eqn:E; [|done]. intros [= <-]. cbn. f_equal. eauto.
Qed.

(** ** What an arena keeps *)

Definition size (a : ByteArena) : Z := 2 ^ a_shift a.

Record arena_ok (a : ByteArena) : Prop := {
  k_shift : 0 <= a_shift a;
  k_next : 0 <= t_next_block (a_tail a);
  k_tail : 0 <= t_at (a_tail a) <= t_block_end (a_tail a);
  k_end : t_block_end (a_tail a) <= t_next_block (a_tail a) * size a;
  k_blocks : forall b p, a_blocks a !! b = Some p -> 0 <= b < t_next_block (a_tail a)
}.

Lemma block_len_size a : 0 <= a_shift a -> block_len a = size a.
Proof. intros. unfold block_len, size. by rewrite Z.shiftl_1_l. Qed.

Lemma size_pos a : 0 <= a_shift a -> 0 < size a.
Proof. intros. by apply Z.pow_pos_nonneg. Qed.

Lemma arena_ok_new shift : 0 <= shift -> arena_ok (with_shift shift).
Proof. intros. split; cbn; try lia. intros b p. by rewrite lookup_empty. Qed.

(** Rounded up to sixty-four. *)
Lemma round64 n : n <= Z.land (n + 63) (Z.lnot 63) < n + 64 /\ Z.land (n + 63) (Z.lnot 63) mod 64 = 0.
Proof.
  assert (Z.land (n + 63) (Z.lnot 63) = (n + 63) / 64 * 64) as ->.
  { rewrite <- Z.ldiff_land. change 63 with (Z.ones 6) at 2. rewrite Z.ldiff_ones_r by lia.
    by rewrite Z.shiftl_mul_pow2, Z.shiftr_div_pow2 by lia. }
  split; [|by apply Z.mod_mul]. Z.div_mod_to_equations. lia.
Qed.

(** Where an offset is. *)
Lemma block_Some a off len b p w : 0 <= a_shift a ->
  block a off len = Some (b, p, w) <->
  off = b * size a + w /\ 0 <= w < size a /\ b < ARENA_BLOCKS /\ a_blocks a !! b = Some p /\ w + len <= b_cap p.
Proof.
  intros Hs. pose proof (size_pos a Hs) as Hp. unfold block. rewrite block_len_size by done. unfold size in *.
  rewrite Z.shiftr_div_pow2, land_ones_mod by done. split.
  - destruct (Z.ltb_spec (off / 2 ^ a_shift a) ARENA_BLOCKS) as [Hb|]; [|done].
    destruct (a_blocks a !! (off / 2 ^ a_shift a)) eqn:E; [|done]. cbn [mbind option_bind].
    destruct (Z.leb_spec (off mod 2 ^ a_shift a + len) (b_cap b0)); [|done]. intros [= <- <- <-].
    split; [pose proof (Z.div_mod off (2 ^ a_shift a)); lia|]. split; [by apply Z.mod_pos_bound|]. done.
  - intros (-> & Hw & Hb & Hl & Hc). rewrite (Z.add_comm _ w), Z.div_add, Z.mod_add, Z.div_small, Z.mod_small, Z.add_0_l by lia.
    rewrite (proj2 (Z.ltb_lt b ARENA_BLOCKS)), Hl by done. cbn [mbind option_bind].
    by rewrite (proj2 (Z.leb_le _ _)) by done.
Qed.

Lemma same_block a off off' b b' w w' : 0 <= a_shift a ->
  off = b * size a + w -> 0 <= w < size a -> off' = b' * size a + w' -> 0 <= w' < size a -> off <= off' -> b <= b'.
Proof. intros Hs. pose proof (size_pos a Hs). nia. Qed.

(** ** Writes *)

Section writes.
Context (a : ByteArena) (off : Z) (l : bytes) (a' : ByteArena).
Context (Hs : 0 <= a_shift a) (Hw : write a off l = Some a').

Lemma write_shape : exists b p w, block a off (Zlen l) = Some (b, p, w) /\
  a' = MkArena (<[b := MkBlock (b_cap p) (store (b_bytes p) w l)]> (a_blocks a)) (a_tail a) (a_used a) (a_shift a).
Proof using Hw.
  revert Hw. unfold write. destruct (block a off (Zlen l)) as [[[b p] w]|] eqn:E; [|done]. cbn [mbind option_bind].
  intros [= <-]. eauto.
Qed.

Lemma write_frame : a_tail a' = a_tail a /\ a_used a' = a_used a /\ a_shift a' = a_shift a.
Proof using Hw. by destruct write_shape as (b & p & w & _ & ->). Qed.

Lemma write_ok : arena_ok a -> arena_ok a'.
Proof using Hw Hs.
  intros [A B C D E]. destruct write_shape as (b & p & w & Hb & ->). apply block_Some in Hb as (_ & _ & _ & Hl & _); [|done].
  split; cbn; try done. intros b' p'. destruct (decide (b' = b)) as [-> |].
  - rewrite lookup_insert_eq. intros _. by eapply E.
  - rewrite lookup_insert_ne by done. apply E.
Qed.

Lemma write_slice : slice a' off (Zlen l) = Some l.
Proof using Hw Hs.
  destruct write_shape as (b & p & w & Hb & ->). apply block_Some in Hb as (H1 & H2 & H3 & H4 & H5); [|done].
  unfold slice. set (a1 := MkArena _ _ _ _).
  rewrite (proj2 (block_Some a1 off (Zlen l) b (MkBlock (b_cap p) (store (b_bytes p) w l)) w Hs)).
  2: { unfold size. cbn. by rewrite lookup_insert_eq. }
  cbn [mbind option_bind b_bytes]. rewrite Zlen_to_nat. apply load_store.
Qed.

(** Ranges apart from it are as they were, and blocks are where they were. *)
Lemma write_apart o len : 0 <= len -> o + len <= off \/ off + Zlen l <= o -> slice a' o len = slice a o len.
Proof using Hw Hs.
  intros Hlen Hapart. destruct write_shape as (b & p & w & Hb & ->). apply block_Some in Hb as (H1 & H2 & H3 & H4 & H5); [|done].
  unfold slice at 1 2. unfold block, block_len. cbn [a_shift a_blocks].
  destruct (Z.shiftr o (a_shift a) <? ARENA_BLOCKS); [|done].
  destruct (decide (Z.shiftr o (a_shift a) = b)) as [Eb|Hne]; [|by rewrite lookup_insert_ne].
  rewrite Eb, lookup_insert_eq, H4. cbn [mbind option_bind b_cap b_bytes]. case_match; [|done]. cbn [b_bytes].
  rewrite Z.shiftl_1_l, land_ones_mod by done. rewrite Z.shiftr_div_pow2 in Eb by done.
  apply load_ext. intros i Hi. apply store_apart. unfold size in *.
  pose proof (Z.div_mod o (2 ^ a_shift a)). nia.
Qed.

Lemma write_keeps o len x : 0 <= len -> slice a o len = Some x -> o + len <= off \/ off + Zlen l <= o -> slice a' o len = Some x.
Proof using Hw Hs. intros. by rewrite write_apart. Qed.

Lemma write_blocks o len : is_Some (block a o len) -> is_Some (block a' o len).
Proof using Hw Hs.
  destruct write_shape as (b & p & w & Hb & ->). apply block_Some in Hb as (_ & _ & _ & H4 & _); [|done].
  unfold block, block_len. cbn [a_shift a_blocks]. case_match; [|done].
  destruct (decide (Z.shiftr o (a_shift a) = b)) as [-> |Hne]; [|by rewrite lookup_insert_ne].
  rewrite lookup_insert_eq, H4. cbn [mbind option_bind b_cap]. case_match; eauto.
Qed.
End writes.

(** ** Reservations *)

(** What any reservation keeps. *)
Lemma reserve_keeps a n off a' : arena_ok a -> 0 <= n -> reserve a n = Some (off, a') ->
  arena_ok a' /\ tail a <= off /\ tail a' = off + n /\ a_used a' = a_used a + n /\ a_shift a' = a_shift a /\
  forall o len x, slice a o len = Some x -> slice a' o len = Some x.
Proof.
  intros [A B C D E] Hn. unfold reserve. pose proof (size_pos a A). unfold tail. rewrite block_len_size by done.
  destruct (_ || _) eqn:Eroom; cbn [mbind option_bind].
  - destruct (Z.leb_spec ARENA_BLOCKS (t_next_block (a_tail a))); [done|]. cbn [mbind option_bind]. intros [= <- <-].
    rewrite Z.shiftl_mul_pow2 by done. fold (size a). pose proof (round64 n) as [Hr _].
    set (cap := Z.max _ _). pose proof (div_ceil_spec cap (size a) ltac:(lia) ltac:(lia)).
    cbn [t_at a_tail a_used a_shift]. split; [|split; [lia|]; split; [done|]; split; [done|]; split; [done|]].
    + split; cbn; try done; try nia.
      * change (size _) with (size a). nia.
      * intros b p. destruct (decide (b = t_next_block (a_tail a))) as [-> |]; [intros _; nia|].
        rewrite lookup_insert_ne by done. intros Hb%E. nia.
    + intros o len x. unfold slice, block, block_len. cbn [a_shift a_blocks]. case_match; [|done].
      destruct (decide (Z.shiftr o (a_shift a) = t_next_block (a_tail a))) as [Eo|]; [|by rewrite lookup_insert_ne].
      rewrite Eo. destruct (a_blocks a !! t_next_block (a_tail a)) eqn:El; [|done]. apply E in El. lia.
  - apply orb_false_iff in Eroom as [Er1%Z.ltb_ge Er2%Z.eqb_neq]. intros [= <- <-]. cbn.
    split; [|split; [lia|]; split; [done|]; split; [done|]; split; [done|]; done].
    split; cbn; try done; lia.
Qed.

(** Reservations of a block at most: the blocks are then plain. *)
Record plain (a : ByteArena) : Prop := {
  p_ok : arena_ok a;
  p_shift : 6 <= a_shift a;
  p_used : 0 <= a_used a;
  p_cur : (t_next_block (a_tail a) = 0 /\ t_at (a_tail a) = 0 /\ t_block_end (a_tail a) = 0) \/
    (1 <= t_next_block (a_tail a) /\ t_block_end (a_tail a) = t_next_block (a_tail a) * size a /\
     (t_next_block (a_tail a) - 1) * size a <= t_at (a_tail a) <= 2 * a_used a /\
     exists p, a_blocks a !! (t_next_block (a_tail a) - 1) = Some p /\ b_cap p = size a)
}.

Lemma plain_new shift : 6 <= shift -> plain (with_shift shift).
Proof. intros. split; [apply arena_ok_new; lia|done|done|by left]. Qed.

Lemma plain_write a off l a' : plain a -> write a off l = Some a' -> plain a'.
Proof.
  intros [A B C D] Hw. destruct (write_shape _ _ _ _ Hw) as (b & p & w & Hb & E).
  pose proof (write_ok _ _ _ _ (k_shift _ A) Hw A) as A'. subst a'.
  apply block_Some in Hb as (H1 & H2 & H3 & H4 & H5); [|apply A]. split; cbn in *; try done.
  destruct D as [D|(D1 & D2 & D3 & q & D4 & D5)]; [by left|right]. split; [done|]. split; [done|]. split; [done|].
  destruct (decide (t_next_block (a_tail a) - 1 = b)) as [Eb|].
  - rewrite Eb in *. assert (q = p) as -> by congruence. rewrite lookup_insert_eq. eexists. split; [done|]. done.
  - rewrite lookup_insert_ne by done. eauto.
Qed.

Lemma cap_plain s n : 6 <= s -> n <= 2 ^ s -> Z.max (2 ^ s) (Z.land (n + 63) (Z.lnot 63)) = 2 ^ s.
Proof.
  intros Hs Hn. apply Z.max_l. pose proof (round64 n) as [Hr1 Hr2].
  assert (2 ^ s mod 64 = 0) as Hm. { replace s with ((s - 6) + 6) by lia. rewrite Z.pow_add_r by lia. by apply Z.mod_mul. }
  revert Hr1 Hr2 Hm. generalize (Z.land (n + 63) (Z.lnot 63)). intros r. Z.div_mod_to_equations. nia.
Qed.

Lemma reserve_plain a n : plain a -> 0 < n <= size a -> 2 * (a_used a + n) <= (ARENA_BLOCKS - 1) * size a ->
  exists off a', reserve a n = Some (off, a') /\ plain a' /\ off + n <= 2 * (a_used a + n) /\
    forall o len, off <= o -> 0 <= len -> o + len <= off + n -> o < off + n -> is_Some (block a' o len).
Proof.
  intros [A B C D] Hn Hroom. pose proof (size_pos a (k_shift _ A)) as Hsz.
  assert (exists off a', reserve a n = Some (off, a') /\ t_block_end (a_tail a') = t_next_block (a_tail a') * size a /\
    off + n = t_at (a_tail a') /\ a_shift a' = a_shift a /\ a_used a' = a_used a + n /\ 1 <= t_next_block (a_tail a') <= ARENA_BLOCKS /\
    (t_next_block (a_tail a') - 1) * size a <= off /\ off + n <= t_next_block (a_tail a') * size a /\ off + n <= 2 * (a_used a + n) /\
    exists p, a_blocks a' !! (t_next_block (a_tail a') - 1) = Some p /\ b_cap p = size a) as
    (off & a' & Hres & H1 & H2 & H3 & H4 & H5 & H6 & H7 & H8 & p & H9 & H10).
  { unfold reserve. rewrite block_len_size by apply A. unfold size in *. rewrite cap_plain by lia.
    assert (div_ceil (2 ^ a_shift a) (2 ^ a_shift a) = 1) as ->.
    { pose proof (div_ceil_spec (2 ^ a_shift a) (2 ^ a_shift a) ltac:(lia) ltac:(lia)). nia. }
    destruct (_ || _) eqn:Eroom; cbn [mbind option_bind].
    - assert (t_next_block (a_tail a) < ARENA_BLOCKS - 1 \/ t_next_block (a_tail a) = 0) as Hb.
      { destruct D as [[-> _]|(D1 & D2 & D3 & _)]; [by right|left]. rewrite D2 in Eroom. rewrite (proj2 (Z.eqb_neq _ 0)), orb_false_r in Eroom by nia.
        apply Z.ltb_lt in Eroom. nia. }
      assert (ARENA_BLOCKS = 4096) as Hab by done. destruct (Z.leb_spec ARENA_BLOCKS (t_next_block (a_tail a))); [lia|]. cbn [mbind option_bind].
      rewrite Z.shiftl_mul_pow2 by apply A. eexists _, _. split; [reflexivity|]. cbn [a_tail t_at t_block_end t_next_block a_shift a_used a_blocks].
      pose proof (k_next _ A). replace (t_next_block (a_tail a) + 1 - 1) with (t_next_block (a_tail a)) by lia.
      repeat match goal with |- _ /\ _ => split end; try done; try lia.
      rewrite lookup_insert_eq. eauto.
    - apply orb_false_iff in Eroom as [Er1%Z.ltb_ge Er2%Z.eqb_neq].
      destruct D as [(_ & _ & D)|(D1 & D2 & D3 & q & D4 & D5)]; [lia|]. eexists _, _. split; [reflexivity|].
      cbn [a_tail t_at t_block_end t_next_block a_shift a_used a_blocks]. rewrite D2 in *.
      assert (t_next_block (a_tail a) <= ARENA_BLOCKS) by nia.
      repeat match goal with |- _ /\ _ => split end; try done; try lia. eauto. }
  exists off, a'. split; [done|]. pose proof (reserve_keeps a n off a' A ltac:(lia) Hres) as (K & _).
  assert (size a' = size a) as Hsz' by (unfold size; by rewrite H3).
  split; [|split; [lia|]].
  - split; [done|lia|lia|]. right. rewrite Hsz', <- H2, H4. repeat split; try lia. eauto.
  - intros o len Ho1 Hlen Ho2 Ho3.
    rewrite (proj2 (block_Some a' o len (t_next_block (a_tail a') - 1) p (o - (t_next_block (a_tail a') - 1) * size a) ltac:(apply K))); [eauto|].
    rewrite Hsz'. repeat split; try lia; try done.
Qed.

(** The block of an offset past the last block's: none. *)
Lemma block_past a off len : arena_ok a -> t_next_block (a_tail a) * size a <= off -> block a off len = None.
Proof.
  intros [A B C D E] Hoff. destruct (block a off len) as [[[b p] w]|] eqn:Hb; [|done]. exfalso.
  apply block_Some in Hb as (-> & Hw & _ & Hl & _); [|done]. apply E in Hl. nia.
Qed.

(** A reservation where the tail's block has room. *)
Lemma reserve_room a n : t_at (a_tail a) + n <= t_block_end (a_tail a) -> t_block_end (a_tail a) <> 0 ->
  reserve a n = Some (tail a, MkArena (a_blocks a)
    (MkTail (t_at (a_tail a) + n) (t_block_end (a_tail a)) (t_next_block (a_tail a)) (t_block_start (a_tail a))) (a_used a + n) (a_shift a)).
Proof. intros H1 H2. unfold reserve. by rewrite (proj2 (Z.ltb_ge _ _)), (proj2 (Z.eqb_neq _ 0)) by done. Qed.

Lemma block_ext a a' o len : a_blocks a' = a_blocks a -> a_shift a' = a_shift a -> block a' o len = block a o len.
Proof. intros E1 E2. unfold block, block_len. by rewrite E1, E2. Qed.

Lemma write_no_block a off l a' o len : 0 <= a_shift a -> write a off l = Some a' -> block a o len = None -> block a' o len = None.
Proof.
  intros Hs Hw Hb. destruct (write_shape _ _ _ _ Hw) as (b & p & w & Hb' & ->). apply block_Some in Hb' as (_ & _ & _ & H4 & _); [|done].
  revert Hb. unfold block, block_len. cbn [a_shift a_blocks]. case_match; [|done].
  destruct (decide (Z.shiftr o (a_shift a) = b)) as [-> |Hne]; [|by rewrite lookup_insert_ne].
  rewrite lookup_insert_eq, H4. cbn [mbind option_bind b_cap]. by case_match.
Qed.

(** A reservation of more than a block leaves, of its rounding, room at
    offsets that no block has. *)
Lemma oversized_slack a n m off a1 : arena_ok a -> size a <= n -> t_block_end (a_tail a) < t_at (a_tail a) + n ->
  reserve a n = Some (off, a1) -> 0 < m -> n + m <= Z.land (n + 63) (Z.lnot 63) ->
  tail a1 = off + n /\ t_at (a_tail a1) + m <= t_block_end (a_tail a1) /\ t_block_end (a_tail a1) <> 0 /\
  forall len, block a1 (off + n) len = None.
Proof.
  intros A Hn Hfull Hres Hm Hslack. pose proof A as [A1 A2 A3 A4 A5]. pose proof (size_pos a A1).
  revert Hres. unfold reserve. rewrite block_len_size by done. rewrite (proj2 (Z.ltb_lt _ _) Hfull). cbn [orb].
  destruct (Z.leb_spec ARENA_BLOCKS (t_next_block (a_tail a))); [done|]. cbn [mbind option_bind]. intros [= <- <-].
  rewrite Z.shiftl_mul_pow2 by done. fold (size a). unfold tail. cbn [a_tail t_at t_block_end].
  split; [done|]. split; [lia|]. split; [nia|]. intros len.
  match goal with |- block ?x ?o ?n = None => destruct (block x o n) as [[[b p] w]|] eqn:Hb; [|done]; exfalso end.
  apply block_Some in Hb as (H1 & H2 & _ & Hl & _); [|done]. cbn [a_blocks] in Hl. change (size _) with (size a) in H1, H2.
  assert (t_next_block (a_tail a) < b) by nia. rewrite lookup_insert_ne in Hl by lia. apply A5 in Hl. lia.
Qed.

(** ** Slabs *)

Section slabs.
Context {T : Type}.
Implicit Types s : Slab T.

(** Never truncated: every entry written is below the length. *)
Definition slab_ok s : Prop := s_len s = Zlen (s_items s).

Lemma push_ok s v : slab_ok s -> s_len s < 2 ^ 28 -> push s v = Some (s_len s, MkSlab (s_items s ++ [v]) (s_len s + 1)).
Proof.
  intros Hok Hlen. unfold push, slab_ok in *. pose proof (Zlen_nonneg (s_items s)).
  rewrite (proj2 (Z.leb_gt _ _)).
  2: { unfold SLAB_SHIFT, SLAB_BLOCKS. rewrite Z.shiftr_div_pow2 by lia. apply Z.div_lt_upper_bound; lia. }
  rewrite Hok, Zlen_to_nat, firstn_all, skipn_all2 by (unfold Zlen; lia). by rewrite app_nil_r.
Qed.

Lemma push_inv s v id s' : slab_ok s -> push s v = Some (id, s') ->
  id = s_len s /\ s' = MkSlab (s_items s ++ [v]) (s_len s + 1) /\ s_len s < 2 ^ 28.
Proof.
  intros Hok Hp. destruct (Z.lt_ge_cases (s_len s) (2 ^ 28)) as [Hl|Hl].
  - rewrite push_ok in Hp by done. by injection Hp as <- <-.
  - exfalso. revert Hp. unfold push. rewrite (proj2 (Z.leb_le _ _)); [done|].
    unfold SLAB_SHIFT, SLAB_BLOCKS. rewrite Z.shiftr_div_pow2 by lia. apply Z.div_le_lower_bound; lia.
Qed.

Lemma slab_push_ok s v : slab_ok s -> slab_ok (MkSlab (s_items s ++ [v]) (s_len s + 1)).
Proof. unfold slab_ok. cbn. intros ->. by rewrite Zlen_app. Qed.

Lemma slab_set_ok s id v : slab_ok s -> slab_ok (set s id v).
Proof. unfold slab_ok, set. cbn. intros ->. unfold Zlen. by rewrite length_insert. Qed.
End slabs.
