(* ===== verification/MemTable.v ===== *)
(** * The memtable

    [MemTable] of [src/src/db.rs] in its two plain shapes: the hashed table
    every write that is not a direct run goes to, and the ordered table
    without references, a stream or slim entries. Keys are in one arena;
    values in another, a chunk each, chained from newest to oldest; a
    tombstone is a chunk without a value. A panic is [None]. *)

From S2P Require Import Prelude.
From S2P Require Import HashTable.
From S2P Require Import Epochs.
From S2P Require Import Arena.
#[local] Open Scope Z_scope.

Definition TOMB_LEN : Z := U32 - 1.
Definition CHUNK_HDR : Z := 12.
Definition NO_CHUNK : Z := U64 - 1.
Definition SEE_ALL : Z := U64 - 1.

(** ** Data *)

Record MemEntry := MkMemEntry { e_hash : Z; e_key_off : Z; e_klen : Z; e_head : Z; e_count : Z }.
(** An entry as a reader has it. *)
Record Entry := MkEntry { n_head : Z; n_key_off : Z; n_klen : Z; n_count : Z }.
Record Index := MkIndex { ix_slots : list Z; ix_mask : Z }.
Record MemTable := MkMemTable {
  entries : Slab MemEntry; index : option Index; ordered : bool; log_range : bool;
  keys : ByteArena; vals : ByteArena; tombs : Z;
  marks : CommitMark * CommitMark; mark : Z; retired : list (Z * Index); log : Slab Z }.

Definition with_slots (n : Z) : Index := MkIndex (replicate (Z.to_nat n) 0) (n - 1).
(** [MemTable::new], and [new_ordered] of a plain table. *)
Definition new : MemTable :=
  MkMemTable new_slab (Some (with_slots 1024)) false false new_arena new_arena 0
    (MkMark 0 0 0, MkMark 0 0 0) 0 [] new_slab.
Definition new_ordered (log_range : bool) : MemTable :=
  MkMemTable new_slab None true log_range new_arena new_arena 0
    (MkMark 0 0 0, MkMark 0 0 0) 0 [] new_slab.

Definition set_entries t s := MkMemTable s (index t) (ordered t) (log_range t) (keys t) (vals t) (tombs t) (marks t) (mark t) (retired t) (log t).
Definition set_index t ix r := MkMemTable (entries t) ix (ordered t) (log_range t) (keys t) (vals t) (tombs t) (marks t) (mark t) r (log t).
Definition set_keys t a := MkMemTable (entries t) (index t) (ordered t) (log_range t) a (vals t) (tombs t) (marks t) (mark t) (retired t) (log t).
Definition set_vals t a := MkMemTable (entries t) (index t) (ordered t) (log_range t) (keys t) a (tombs t) (marks t) (mark t) (retired t) (log t).
Definition set_tombs t n := MkMemTable (entries t) (index t) (ordered t) (log_range t) (keys t) (vals t) n (marks t) (mark t) (retired t) (log t).
Definition set_marks t m n := MkMemTable (entries t) (index t) (ordered t) (log_range t) (keys t) (vals t) (tombs t) m n (retired t) (log t).
Definition set_log t l := MkMemTable (entries t) (index t) (ordered t) (log_range t) (keys t) (vals t) (tombs t) (marks t) (mark t) (retired t) l.

Definition chain_head (e : MemEntry) : Z := if e_head e =? 0 then NO_CHUNK else e_head e - 1.
Definition fat_entry (e : MemEntry) : Entry := MkEntry (chain_head e) (e_key_off e) (e_klen e) (e_count e).
Definition len (t : MemTable) : Z := s_len (entries t).
Definition fat (t : MemTable) (id : Z) : option MemEntry := Arena.get (entries t) id.
Definition entry (t : MemTable) (id : Z) : option Entry := fat_entry <$> fat t id.
Definition key_of (t : MemTable) (e : Entry) : option bytes := slice (keys t) (n_key_off e) (n_klen e).

(** ** Hashes *)

Definition mem_hash (key : bytes) : Z :=
  let h := fold_left (fun h b => w64 (Z.lxor h (b2z b) * 0x100000001b3)) key 0xcbf29ce484222325 in
  let h := w64 (Z.lxor h (Z.shiftr h 30) * 0xbf58476d1ce4e5b9) in
  Z.lor h 1.
Definition mem_slot (hash mask : Z) : Z := Z.land (Z.shiftr hash 32) mask.
Definition word (hash id : Z) : Z := Z.lor (Z.land hash 0xffffffff00000000) (w64 (id + 1)).

(** Up to the first vacant slot, or an entry of the key. *)
Fixpoint probe_go (fuel : nat) (t : MemTable) (ix : Index) (hash : Z) (key : bytes) (i : Z) : option (option Z) :=
  match fuel with
  | O => None
  | S fuel =>
      s ← get_at (ix_slots ix) i;
      if s =? 0 then Some None
      else
        let next := Z.land (i + 1) (ix_mask ix) in
        if Z.shiftr s 32 =? Z.shiftr hash 32 then
          id ← csub (Z.land s 0xffffffff) 1;
          e ← entry t id;
          k ← key_of t e;
          if beqb k key then Some (Some id) else probe_go fuel t ix hash key next
        else probe_go fuel t ix hash key next
  end.

Definition probe (t : MemTable) (hash : Z) (key : bytes) : option (option Z) :=
  match index t with
  | None => Some None
  | Some ix => probe_go (length (ix_slots ix)) t ix hash key (mem_slot hash (ix_mask ix))
  end.

(** ** Chunks *)

Definition push_chunk (t : MemTable) (prev : Z) (value : bytes) : option (Z * MemTable) :=
  '(off, a) ← reserve (vals t) (CHUNK_HDR + Zlen value);
  a ← write a off (le64 prev);
  a ← write a (off + 8) (le32 (Zlen value));
  a ← write a (off + CHUNK_HDR) value;
  Some (off, set_vals t a).

Definition push_tomb (t : MemTable) (prev : Z) : option (Z * MemTable) :=
  '(off, a) ← reserve (vals t) CHUNK_HDR;
  a ← write a off (le64 prev);
  a ← write a (off + 8) (le32 TOMB_LEN);
  Some (off, set_tombs (set_vals t a) (w64 (tombs t + 1))).

Definition chunk_prev (t : MemTable) (off : Z) : option Z := le_val <$> slice (vals t) off 8.
Definition chunk_len (t : MemTable) (off : Z) : option Z := le_val <$> slice (vals t) (off + 8) 4.
Definition is_tomb (t : MemTable) (off : Z) : option bool := (fun n => n =? TOMB_LEN) <$> chunk_len t off.
Definition value_at (t : MemTable) (off : Z) : option bytes := len ← chunk_len t off; slice (vals t) (off + CHUNK_HDR) len.

(** Chunks a chain can have: each is twelve bytes at least. *)
Definition chain_fuel (t : MemTable) : nat := S (Z.to_nat (tail (vals t) / CHUNK_HDR)).

(** The live chunks, newest first, those at or past [wm] skipped. *)
Fixpoint live_go (fuel : nat) (t : MemTable) (wm at_ : Z) (out : list Z) : option (list Z * bool) :=
  match fuel with
  | O => None
  | S fuel =>
      if at_ =? NO_CHUNK then Some (out, false)
      else if wm <=? at_ then p ← chunk_prev t at_; live_go fuel t wm p out
      else
        tomb ← is_tomb t at_;
        if (tomb : bool) then Some (out, true) else p ← chunk_prev t at_; live_go fuel t wm p (out ++ [at_])
  end.
Definition live_chain (t : MemTable) (e : Entry) (wm : Z) : option (list Z * bool) :=
  '(offs, tomb) ← live_go (chain_fuel t) t wm (n_head e) []; Some (reverse offs, tomb).

Fixpoint tomb_go (fuel : nat) (t : MemTable) (wm at_ : Z) : option bool :=
  match fuel with
  | O => None
  | S fuel =>
      if at_ =? NO_CHUNK then Some false
      else
        hit ← (if at_ <? wm then is_tomb t at_ else Some false);
        if (hit : bool) then Some true else p ← chunk_prev t at_; tomb_go fuel t wm p
  end.
Definition has_tomb (t : MemTable) (e : Entry) (wm : Z) : option bool := tomb_go (chain_fuel t) t wm (n_head e).

(** ** The index *)

(** The first vacant slot from [i] on. *)
Fixpoint vacant_go (fuel : nat) (ix : Index) (i : Z) : option Z :=
  match fuel with
  | O => None
  | S fuel =>
      s ← get_at (ix_slots ix) i;
      if s =? 0 then Some i else vacant_go fuel ix (Z.land (i + 1) (ix_mask ix))
  end.
Definition place_word (ix : Index) (hash id : Z) : option Index :=
  i ← vacant_go (length (ix_slots ix)) ix (mem_slot hash (ix_mask ix));
  Some (MkIndex (<[Z.to_nat i := word hash id]> (ix_slots ix)) (ix_mask ix)).

Definition reclaim (t : MemTable) (rd : Readers) : MemTable * Readers :=
  let '(oldest, rd) := oldest_pinned rd in
  (set_index t (index t) (List.filter (fun x => oldest <? fst x) (retired t)), rd).

Definition reinsert (t : MemTable) (fresh : Index) (id : Z) : option Index :=
  e ← fat t id; place_word fresh (Z.shiftl (e_hash e) 32) id.

(** Twice the slots, every entry again, the old one retired. *)
Definition rebuild_index (t : MemTable) (old : Index) (rd : Readers) : option (Index * MemTable * Readers) :=
  fresh ← ofold (reinsert t) (seqZ 0 (len t)) (with_slots (Zlen (ix_slots old) * 2));
  let '(tag, rd) := bump rd in
  let t := set_index t (Some fresh) (retired t ++ [(tag, old)]) in
  let '(t, rd) := reclaim t rd in
  Some (fresh, t, rd).

Definition index_insert (t : MemTable) (hash id : Z) (rd : Readers) : option (MemTable * Readers) :=
  ix ← index t;
  '(ix, t, rd) ← (if Zlen (ix_slots ix) <? len t * 2 then rebuild_index t ix rd else Some (ix, t, rd));
  ix ← place_word ix hash id;
  Some (set_index t (Some ix) (retired t), rd).

(** ** Writes *)

Definition log_write (t : MemTable) (id : Z) (new : bool) : option MemTable :=
  if log_range t then Some t
  else '(_, l) ← push (log t) (Z.lor (w32 id) (Z.shiftl (Z.b2z new) 31)); Some (set_log t l).
Definition log_len (t : MemTable) : Z := if log_range t then len t else s_len (log t).
Definition log_at (t : MemTable) (i : Z) : option (Z * bool) :=
  if log_range t then Some (i, true)
  else w ← Arena.get (log t) i; Some (Z.land w 0x7fffffff, negb (Z.shiftr w 31 =? 0)).

(** A new entry: its first chunk, its key's copy, and the entry, which keeps
    sixteen bits of the key's length. *)
Definition new_entry (t : MemTable) (hash : Z) (key : bytes) (value : option bytes) : option (Z * MemTable) :=
  '(off, t) ← (match value with Some v => push_chunk t NO_CHUNK v | None => push_tomb t NO_CHUNK end);
  '(key_off, ks) ← reserve (keys t) (Zlen key);
  ks ← write ks key_off key;
  if U32 <=? key_off then None
  else
    let count := match value with Some _ => 1 | None => 0 end in
    '(id, es) ← push (entries t) (MkMemEntry (Z.shiftr hash 32) key_off (w16 (Zlen key)) (w64 (off + 1)) count);
    Some (id, set_entries (set_keys t ks) es).

(** An entry's head, after its chunk's bytes, and its count. *)
Definition store_head (t : MemTable) (id off count : Z) : option MemTable :=
  e ← fat t id;
  Some (set_entries t (Arena.set (entries t) id (MkMemEntry (e_hash e) (e_key_off e) (e_klen e) (w64 (off + 1)) count))).

(** [MemTable::write]; [append] and [delete] are its two uses. *)
Definition write_entry (t : MemTable) (hash : Z) (key : bytes) (value : option bytes) (rd : Readers) : option (MemTable * Readers) :=
  if ordered t then '(id, t) ← new_entry t hash key value; t ← log_write t id true; Some (t, rd)
  else
    found ← probe t hash key;
    match found with
    | Some id =>
        e ← fat t id;
        '(off, t) ← (match value with Some v => push_chunk t (chain_head e) v | None => push_tomb t (chain_head e) end);
        t ← store_head t id off (match value with Some _ => w32 (e_count e + 1) | None => 0 end);
        t ← log_write t id false;
        Some (t, rd)
    | None =>
        '(id, t) ← new_entry t hash key value;
        '(t, rd) ← index_insert t hash id rd;
        t ← log_write t id true;
        Some (t, rd)
    end.
Definition append (t : MemTable) (hash : Z) (key value : bytes) (rd : Readers) := write_entry t hash key (Some value) rd.
Definition delete (t : MemTable) (hash : Z) (key : bytes) (rd : Readers) :=
  if ordered t then None else write_entry t hash key None rd.

(** A tombstone and then the value, one probe for both. *)
Definition put (t : MemTable) (hash : Z) (key value : bytes) (rd : Readers) : option (MemTable * Readers) :=
  if ordered t then None
  else
    found ← probe t hash key;
    match found with
    | Some id =>
        e ← fat t id;
        '(tomb, t) ← push_tomb t (chain_head e);
        '(off, t) ← push_chunk t tomb value;
        t ← store_head t id off 1;
        t ← log_write t id false;
        Some (t, rd)
    | None =>
        '(id, t) ← new_entry t hash key None;
        e ← fat t id;
        '(off, t) ← push_chunk t (chain_head e) value;
        t ← store_head t id off 1;
        '(t, rd) ← index_insert t hash id rd;
        t ← log_write t id true;
        Some (t, rd)
    end.

(** ** Commits and lookups *)

Definition commit (t : MemTable) : MemTable :=
  let n := w64 (mark t + 1) in
  set_marks t (set_mark (marks t) n (MkMark (log_len t) (len t) (tail (vals t)))) n.
(** With nothing between its loads. *)
Definition committed_at (t : MemTable) : CommitMark := mark_of (marks t) (mark t).
Definition truncate_entries (t : MemTable) (n : Z) : MemTable := set_entries t (truncate (entries t) n).

Definition ALL : Z := U64 - 1.

(** The binary search of an ordered table, between its first entry and its
    last. *)
Fixpoint between_go (fuel : nat) (t : MemTable) (key : bytes) (lo hi : Z) : option (option Z) :=
  match fuel with
  | O => None
  | S fuel =>
      if lo <? hi then
        let m := lo + (hi - lo) / 2 in
        e ← entry t m;
        k ← key_of t e;
        match bcmp k key with
        | Lt => between_go fuel t key (m + 1) hi
        | Gt => between_go fuel t key lo m
        | Eq => Some (Some m)
        end
      else Some None
  end.

Definition slot_of (t : MemTable) (key : bytes) (upto : Z) : option (option Z) :=
  if ordered t then
    let n := Z.min (len t) upto in
    if n =? 0 then Some None
    else
      e ← entry t 0;
      k ← key_of t e;
      match bcmp k key with
      | Gt => Some None
      | Eq => Some (Some 0)
      | Lt =>
          e ← entry t (n - 1);
          k ← key_of t e;
          match bcmp k key with
          | Lt => Some None
          | Eq => Some (Some (n - 1))
          | Gt => between_go (S (Z.to_nat n)) t key 1 (n - 1)
          end
      end
  else
    found ← probe t (mem_hash key) key;
    Some (match found with Some i => if i <? upto then Some i else None | None => None end).

Definition get (t : MemTable) (key : bytes) (upto : Z) : option (option Entry) :=
  found ← slot_of t key upto;
  match found with Some i => e ← entry t i; Some (Some e) | None => Some None end.

Definition get_with (t : MemTable) (hash : Z) (key : bytes) (upto : Z) : option (option Entry) :=
  if ordered t then get t key upto
  else
    found ← probe t hash key;
    match found with
    | Some i => if i <? upto then e ← entry t i; Some (Some e) else Some None
    | None => Some None
    end.
