(* ===== verification/MemIndex.v ===== *)
(** * What the memtable's index holds

    The hash index of [MemTable]: every entry's word is reached from its home
    slot past occupied ones, every word is an entry's, and there is a vacant
    slot; an insertion and a rebuild keep that. A rebuild places the entry
    just made and the insertion places it again, so a table has at most one
    word more than it has entries. *)

From S2P Require Import Prelude.
From S2P Require Import HashTable.
From S2P Require Import Epochs.
From S2P Require Import Arena.
From S2P Require Import MemTable.
#[local] Open Scope Z_scope.

(** ** Words *)

Lemma mem_hash_range key : 0 <= mem_hash key < U64.
Proof.
  unfold mem_hash. apply (lor_range _ 1 64); [lia| |lia]. apply Z.mod_pos_bound. unfold U64. lia.
Qed.

Lemma word_value hash id : 0 <= hash < U64 -> 0 <= id < 2 ^ 28 -> word hash id = Z.shiftr hash 32 * 2 ^ 32 + id + 1.
Proof.
  intros Hh Hi. unfold word, w64. rewrite Z.mod_small by (unfold U64; lia).
  assert (Z.land hash 0xffffffff00000000 = Z.shiftl (Z.shiftr hash 32) 32) as ->.
  { apply Z.bits_inj'. intros n Hn. rewrite Z.land_spec. change 0xffffffff00000000 with (Z.shiftl (Z.ones 32) 32).
    destruct (Z.lt_ge_cases n 32) as [H|H].
    - rewrite !Z.shiftl_spec_low by lia. by rewrite andb_false_r.
    - rewrite !Z.shiftl_spec_high, Z.shiftr_spec by lia. replace (n - 32 + 32) with n by lia.
      destruct (Z.lt_ge_cases n 64) as [H64|H64]; [rewrite Z.ones_spec_low by lia; by rewrite andb_true_r|].
      rewrite Z.ones_spec_high by lia. rewrite andb_false_r. symmetry. apply (testbit_small _ 64); [lia|]. exact Hh. }
  rewrite Z.lor_comm, lor_disjoint_add by lia. lia.
Qed.

Lemma word_parts h id : 0 <= id < 2 ^ 28 ->
  Z.shiftr (h * 2 ^ 32 + id + 1) 32 = h /\ Z.land (h * 2 ^ 32 + id + 1) 0xffffffff = id + 1.
Proof.
  intros Hi. change 0xffffffff with (2 ^ 32 - 1). rewrite land_ones_mod, Z.shiftr_div_pow2 by lia.
  replace (h * 2 ^ 32 + id + 1) with (id + 1 + h * 2 ^ 32) by lia.
  rewrite Z.div_add, Z.mod_add, Z.div_small, Z.mod_small by lia. lia.
Qed.

Lemma high_half hash : 0 <= hash < U64 -> 0 <= Z.shiftr hash 32 < U32.
Proof. intros H. change U32 with (2 ^ 32). rewrite Z.shiftr_div_pow2 by lia. unfold U64 in H. Z.div_mod_to_equations. lia. Qed.

(** ** What is in the slots *)

(** Of the entries whose high halves are [hs], those below [m] are found; at
    most [c] slots are taken. *)
Record filled (j : Z) (ix : Index) (hs : list Z) (m c : Z) : Prop := {
  x_slots : Zlen (ix_slots ix) = 2 ^ j;
  x_mask : ix_mask ix = 2 ^ j - 1;
  x_words : forall s v, get_at (ix_slots ix) s = Some v -> v <> 0 ->
    exists id h, get_at hs id = Some h /\ v = h * 2 ^ 32 + id + 1;
  x_reach : forall id h, get_at hs id = Some h -> id < m -> exists d, 0 <= d < 2 ^ j /\
    get_at (ix_slots ix) (nth_slot j h d) = Some (h * 2 ^ 32 + id + 1) /\
    forall d', 0 <= d' < d -> get_at (ix_slots ix) (nth_slot j h d') <> Some 0;
  x_count : Zlen (List.filter (fun v => negb (v =? 0)) (ix_slots ix)) <= c
}.

Definition halves (hs : list Z) : Prop := Zlen hs <= 2 ^ 28 /\ Forall (fun h => 0 <= h < U32) hs.

Lemma halves_get hs id h : halves hs -> get_at hs id = Some h -> 0 <= h < U32 /\ 0 <= id < 2 ^ 28.
Proof.
  intros [Hn Hhs] Hid. pose proof (get_at_lt _ _ _ Hid). split; [|lia]. apply get_at_Some in Hid as [_ Hid].
  by apply (proj1 (Forall_lookup _ _) Hhs) in Hid.
Qed.

Lemma filled_new j hs : 0 <= j -> filled j (with_slots (2 ^ j)) hs 0 0.
Proof.
  intros Hj. assert (0 < 2 ^ j) by (apply Z.pow_pos_nonneg; lia). split; cbn [with_slots ix_slots ix_mask].
  - rewrite Zlen_replicate. lia.
  - done.
  - intros s v Hv Hne. apply get_at_Some in Hv as [_ Hv]. apply lookup_replicate in Hv as [-> _]. done.
  - intros id h Hid Hlt. apply get_at_lt in Hid. lia.
  - generalize (Z.to_nat (2 ^ j)). intros n. induction n as [|n IH]; [done|]. cbn. exact IH.
Qed.

Lemma filled_more j ix hs hs' m c : filled j ix hs m c -> m <= Zlen hs -> filled j ix (hs ++ hs') m c.
Proof.
  intros [A B C D E] Hm. split; try done.
  - intros s v Hv Hne. destruct (C _ _ Hv Hne) as (id & h & Hid & ->). exists id, h. split; [|done].
    rewrite get_at_keep; [done|]. apply get_at_lt in Hid. lia.
  - intros id h Hid Hlt. rewrite get_at_keep in Hid by lia. by apply D.
Qed.

Section slots.
Context (j : Z) (Hj : 0 <= j <= 32) (ix : Index) (hs : list Z) (m c : Z) (Hf : filled j ix hs m c) (Hc : c < 2 ^ j).

Lemma slot_get h d : exists v, get_at (ix_slots ix) (nth_slot j h d) = Some v.
Proof using Hf Hj. apply get_at_is_Some. rewrite (x_slots _ _ _ _ _ Hf). apply nth_slot_range. lia. Qed.

(** The first vacant slot from home. *)
Lemma vacant_at h : exists e, 0 <= e < 2 ^ j /\ get_at (ix_slots ix) (nth_slot j h e) = Some 0 /\
  forall d, 0 <= d < e -> get_at (ix_slots ix) (nth_slot j h d) <> Some 0.
Proof using Hf Hj Hc.
  assert (0 < 2 ^ j) by (apply Z.pow_pos_nonneg; lia).
  destruct (filter_lt_exists (ix_slots ix) (2 ^ j)) as [s Hs].
  { pose proof (x_count _ _ _ _ _ Hf). lia. } { by rewrite (x_slots _ _ _ _ _ Hf). }
  pose proof (get_at_lt _ _ _ Hs) as Hsr. rewrite (x_slots _ _ _ _ _ Hf) in Hsr.
  assert (exists d, (Z.of_nat d < 2 ^ j) /\ get_at (ix_slots ix) (nth_slot j h (Z.of_nat d)) = Some 0) as Hex.
  { exists (Z.to_nat ((s - h) mod 2 ^ j)). pose proof (Z.mod_pos_bound (s - h) (2 ^ j) ltac:(lia)). rewrite Z2Nat.id by lia.
    split; [lia|]. unfold nth_slot. rewrite Z.add_mod_idemp_r by lia. replace (h + (s - h)) with s by lia.
    by rewrite Z.mod_small by lia. }
  destruct Hex as (d & Hd & Hz). induction d as [d IH] using lt_wf_ind.
  destruct (decide (Exists (fun d' => get_at (ix_slots ix) (nth_slot j h (Z.of_nat d')) = Some 0) (seq 0 d))) as [Hex|Hno].
  - apply Exists_exists in Hex as (d' & Hlt%elem_of_seq & Hz'). apply (IH d'); [lia|lia|done].
  - exists (Z.of_nat d). split; [lia|]. split; [done|]. intros i Hi Hzi. apply Hno, Exists_exists.
    exists (Z.to_nat i). split; [apply elem_of_seq; lia|]. by rewrite Z2Nat.id by lia.
Qed.

Lemma vacant_go_first h fuel d e : 0 <= d <= e -> e - d < Z.of_nat fuel -> get_at (ix_slots ix) (nth_slot j h e) = Some 0 ->
  (forall d', d <= d' < e -> get_at (ix_slots ix) (nth_slot j h d') <> Some 0) ->
  vacant_go fuel ix (nth_slot j h d) = Some (nth_slot j h e).
Proof using Hf Hj.
  revert d. induction fuel as [|fuel IH]; intros d Hd Hfuel He Hb; [lia|]. cbn [vacant_go].
  destruct (slot_get h d) as [v Hv]. rewrite Hv. cbn [mbind option_bind]. destruct (decide (d = e)) as [-> |].
  - rewrite He in Hv. by injection Hv as <-.
  - destruct (Z.eqb_spec v 0) as [-> |]; [by destruct (Hb d ltac:(lia))|].
    rewrite (x_mask _ _ _ _ _ Hf), nth_slot_next by lia. apply IH; [lia|lia|done|]. intros d' Hd'. apply Hb. lia.
Qed.

(** Placing an entry's word. *)
Lemma place_word_filled hash id : halves hs -> 0 <= hash < U64 -> get_at hs id = Some (Z.shiftr hash 32) -> id <= m ->
  exists ix', place_word ix hash id = Some ix' /\ filled j ix' hs (Z.max m (id + 1)) (c + 1).
Proof using Hf Hj Hc.
  intros Hhalves Hh Hid Hm. pose proof (halves_get _ _ _ Hhalves Hid) as [_ Hidr]. set (h := Z.shiftr hash 32) in *.
  destruct (vacant_at h) as (e & He & Hz & Hfirst). unfold place_word, mem_slot. fold h.
  rewrite (x_mask _ _ _ _ _ Hf), nth_slot_0 by lia.
  assert (Z.of_nat (length (ix_slots ix)) = 2 ^ j) as Hlen by (apply (x_slots _ _ _ _ _ Hf)).
  rewrite (vacant_go_first h _ 0 e) by (try done; lia). cbn [mbind option_bind].
  eexists. split; [reflexivity|]. rewrite word_value by (done || lia). fold h.
  pose proof (nth_slot_range j ltac:(lia) h e) as Hr. destruct Hf as [A B C D E].
  assert (0 <= h < U32) by (by apply high_half).
  assert (forall i, get_at (<[Z.to_nat (nth_slot j h e) := h * 2 ^ 32 + id + 1]> (ix_slots ix)) i =
    if decide (i = nth_slot j h e) then Some (h * 2 ^ 32 + id + 1) else get_at (ix_slots ix) i) as Hget.
  { intros i. apply get_at_insert. rewrite A. done. }
  split; cbn [ix_slots ix_mask].
  - unfold Zlen. by rewrite length_insert.
  - done.
  - intros s v. rewrite Hget. case_decide; [intros [= <-] _; eauto|]. apply C.
  - intros i h' Hi Hlt. destruct (decide (i = id)) as [-> |].
    + assert (h' = h) as -> by congruence. exists e. split; [done|]. rewrite Hget. rewrite decide_True by done. split; [done|].
      intros d' Hd'. rewrite Hget. case_decide; [intros [= Hx]; lia|]. by apply Hfirst.
    + destruct (D _ _ Hi ltac:(lia)) as (d & Hd & H1 & H2). exists d. split; [done|]. rewrite Hget. split.
      * rewrite decide_False; [done|]. intros Hx. rewrite Hx, Hz in H1. injection H1 as H1.
        pose proof (halves_get _ _ _ Hhalves Hi). lia.
      * intros d' Hd'. rewrite Hget. case_decide; [intros [= Hx]; lia|]. by apply H2.
  - rewrite filter_insert_count by (done || lia). lia.
Qed.
End slots.

(** ** Rebuilds and insertions *)

Definition hashes (t : MemTable) : list Z := map e_hash (s_items (entries t)).

Lemma fat_hash t id : get_at (hashes t) id = e_hash <$> fat t id.
Proof. apply get_at_map. Qed.

Lemma reinsert_all t j (k : nat) i ix : 0 <= j <= 32 -> halves (hashes t) -> Zlen (hashes t) < 2 ^ j ->
  0 <= i -> i + Z.of_nat k <= Zlen (hashes t) -> filled j ix (hashes t) i i ->
  exists ix', ofold (reinsert t) (seqZ i (Z.of_nat k)) ix = Some ix' /\ filled j ix' (hashes t) (i + Z.of_nat k) (i + Z.of_nat k).
Proof.
  intros Hj Hhs Hroom. revert i ix. induction k as [|k IH]; intros i ix Hi Hk Hf.
  - cbn. exists ix. split; [done|]. by rewrite Z.add_0_r.
  - rewrite seqZ_cons by lia. cbn [ofold].
    destruct (get_at_is_Some (hashes t) i ltac:(lia)) as [h Hh]. pose proof (halves_get _ _ _ Hhs Hh) as [Hr _].
    pose proof Hh as Hfat. rewrite fat_hash in Hfat. destruct (fat t i) as [e|] eqn:E; [|done]. injection Hfat as Hfat.
    assert (reinsert t ix i = place_word ix (Z.shiftl (e_hash e) 32) i) as -> by (unfold reinsert; by rewrite E).
    assert (Z.shiftr (Z.shiftl h 32) 32 = h) as Hback by (rewrite Z.shiftr_shiftl_l, Z.shiftl_0_r; lia).
    destruct (place_word_filled j Hj ix (hashes t) i i Hf ltac:(lia) (Z.shiftl (e_hash e) 32) i) as (ix1 & -> & Hf1);
      [done| |by rewrite Hfat, Hback|lia|].
    { rewrite Hfat, Z.shiftl_mul_pow2 by lia. unfold U32, U64 in *. lia. }
    rewrite Z.max_r in Hf1 by lia. replace (Z.pred (Z.of_nat (S k))) with (Z.of_nat k) by lia. change (Z.succ i) with (i + 1). cbn [mbind option_bind].
    destruct (IH (i + 1) ix1) as (ix2 & -> & Hf2); [lia|lia|done|]. exists ix2. split; [done|].
    by replace (i + Z.of_nat (S k)) with (i + 1 + Z.of_nat k) by lia.
Qed.

(** The index after every insertion: *)
Definition indexed (t : MemTable) (n : Z) : Prop := exists j ix,
  10 <= j <= 30 /\ index t = Some ix /\ 2 * n <= 2 ^ j /\ filled j ix (hashes t) n (n + 1).

Lemma index_insert_ok t hash id rd : slab_ok (entries t) -> halves (hashes t) -> 0 <= hash < U64 ->
  len t = id + 1 -> get_at (hashes t) id = Some (Z.shiftr hash 32) -> indexed t id ->
  exists ix r rd', index_insert t hash id rd = Some (set_index t (Some ix) r, rd') /\ indexed (set_index t (Some ix) r) (id + 1).
Proof.
  intros Hslab Hhs Hh Hlen Hid (j & ix & Hj & Hix & Hload & Hf).
  assert (Zlen (hashes t) = id + 1) as Hn by (unfold hashes, len, slab_ok in *; rewrite Zlen_map; lia).
  pose proof (halves_get _ _ _ Hhs Hid) as [_ Hidr].
  assert (forall j' ix' c, 10 <= j' <= 30 -> 2 * (id + 1) <= 2 ^ j' -> c <= id + 1 -> filled j' ix' (hashes t) id c \/ filled j' ix' (hashes t) (id + 1) c ->
    exists ix2, place_word ix' hash id = Some ix2 /\ filled j' ix2 (hashes t) (id + 1) (c + 1)) as Hplace.
  { intros j' ix' c Hj' Hl' Hc Hf'. assert (2 ^ 10 <= 2 ^ j') by (apply Z.pow_le_mono_r; lia). change (2 ^ 10) with 1024 in *.
    destruct Hf' as [Hf'|Hf'].
    - destruct (place_word_filled j' ltac:(lia) ix' (hashes t) id c Hf' ltac:(lia) hash id Hhs Hh Hid ltac:(lia)) as (ix2 & H1 & H2).
      rewrite Z.max_r in H2 by lia. eauto.
    - destruct (place_word_filled j' ltac:(lia) ix' (hashes t) (id + 1) c Hf' ltac:(lia) hash id Hhs Hh Hid ltac:(lia)) as (ix2 & H1 & H2).
      rewrite Z.max_r in H2 by lia. eauto. }
  unfold index_insert. rewrite Hix. cbn [mbind option_bind]. rewrite (x_slots _ _ _ _ _ Hf), Hlen.
  destruct (Z.ltb_spec (2 ^ j) ((id + 1) * 2)) as [Hfull|Hroom].
  - assert (2 ^ j * 2 = 2 ^ (j + 1)) as Hdouble by (rewrite Z.pow_add_r; lia).
    assert (j < 30) as Hj30. { apply (Z.pow_lt_mono_r_iff 2); lia. }
    unfold rebuild_index. rewrite (x_slots _ _ _ _ _ Hf), Hdouble, Hlen.
    destruct (reinsert_all t (j + 1) (Z.to_nat (id + 1)) 0 (with_slots (2 ^ (j + 1)))) as (fresh & Hre & Hf1); try done; try lia.
    { apply filled_new. lia. }
    rewrite Z2Nat.id in Hre, Hf1 by lia. rewrite Hre. cbn [mbind option_bind]. rewrite Z.add_0_l in Hf1.
    destruct (Hplace (j + 1) fresh (id + 1) ltac:(lia) ltac:(lia) ltac:(lia) ltac:(by right)) as (ix2 & Hp & Hf2).
    destruct (bump rd) as [tag rd1]. unfold reclaim. destruct (oldest_pinned rd1) as [old rd2]. cbn [mbind option_bind]. rewrite Hp.
    cbn [mbind option_bind]. eexists ix2, _, rd2. split; [reflexivity|]. exists (j + 1), ix2. split; [lia|]. split; [done|].
    split; [lia|]. done.
  - cbn [mbind option_bind]. destruct (Hplace j ix (id + 1) ltac:(lia) ltac:(lia) ltac:(lia) ltac:(by left)) as (ix2 & Hp & Hf2).
    rewrite Hp. cbn [mbind option_bind]. eexists ix2, _, rd. split; [reflexivity|]. exists j, ix2. split; [lia|]. split; [done|].
    split; [lia|]. done.
Qed.

(** ** The probe *)

(** The entries' keys, each where its entry says and hashed as it says. *)
Definition keyed (t : MemTable) (ks : list bytes) : Prop := NoDup ks /\ len t = Zlen ks /\ slab_ok (entries t) /\
  forall id k, get_at ks id = Some k -> exists e, fat t id = Some e /\ key_of t (fat_entry e) = Some k /\
    e_hash e = Z.shiftr (mem_hash k) 32.

Lemma keyed_len t ks : keyed t ks -> Zlen (hashes t) = Zlen ks.
Proof. intros (_ & Hl & Hs & _). unfold hashes, len, slab_ok in *. rewrite Zlen_map. lia. Qed.

Lemma keyed_half t ks id h : keyed t ks -> get_at (hashes t) id = Some h ->
  exists k, get_at ks id = Some k /\ h = Z.shiftr (mem_hash k) 32.
Proof.
  intros Hk Hh. pose proof (keyed_len _ _ Hk) as Hl. apply get_at_lt in Hh as Hr.
  destruct (get_at_is_Some ks id ltac:(lia)) as [k Hid]. destruct Hk as (_ & _ & _ & Hk). destruct (Hk _ _ Hid) as (e & He & _ & E).
  exists k. split; [done|]. rewrite fat_hash, He in Hh. injection Hh as <-. done.
Qed.

Lemma keyed_halves t ks : keyed t ks -> Zlen ks <= 2 ^ 28 -> halves (hashes t).
Proof.
  intros Hk Hn. split; [by rewrite (keyed_len _ _ Hk)|]. apply Forall_lookup. intros i h Hi.
  assert (get_at (hashes t) (Z.of_nat i) = Some h) as Hg by (by rewrite get_at_lookup).
  destruct (keyed_half _ _ _ _ Hk Hg) as (k & _ & ->). apply high_half, mem_hash_range.
Qed.

Section probing.
Context (t : MemTable) (ks : list bytes) (Hk : keyed t ks) (Hn : Zlen ks <= 2 ^ 28).
Context (j : Z) (Hj : 0 <= j <= 32) (ix : Index) (m c : Z) (Hf : filled j ix (hashes t) m c).

Lemma probe_go_spec key fuel d e : let h := Z.shiftr (mem_hash key) 32 in
  0 <= d <= e -> e - d < Z.of_nat fuel -> get_at (ix_slots ix) (nth_slot j h e) = Some 0 ->
  exists r, probe_go fuel t ix (mem_hash key) key (nth_slot j h d) = Some r /\
    match r with
    | Some id => get_at ks id = Some key
    | None => exists e0, d <= e0 <= e /\ get_at (ix_slots ix) (nth_slot j h e0) = Some 0 /\
        forall d' id, d <= d' < e0 -> get_at ks id = Some key -> get_at (ix_slots ix) (nth_slot j h d') <> Some (h * 2 ^ 32 + id + 1)
    end.
Proof using Hk Hn Hf Hj.
  intros h. revert d. induction fuel as [|fuel IH]; intros d Hd Hfuel He; [lia|]. cbn [probe_go].
  destruct (slot_get j Hj ix (hashes t) m c Hf h d) as [v Hv]. rewrite Hv. cbn [mbind option_bind].
  destruct (Z.eqb_spec v 0) as [-> |Hne].
  { exists None. split; [done|]. exists d. split; [lia|]. split; [done|]. intros; lia. }
  assert (d <> e) by congruence. destruct (IH (d + 1) ltac:(lia) ltac:(lia) He) as (r & Hr & Hspec).
  assert (Z.land (nth_slot j h d + 1) (ix_mask ix) = nth_slot j h (d + 1)) as Hnext.
  { rewrite (x_mask _ _ _ _ _ Hf). apply nth_slot_next. lia. }
  rewrite Hnext. destruct (x_words _ _ _ _ _ Hf _ _ Hv Hne) as (id & h' & Hid & Hw).
  pose proof (halves_get _ _ _ (keyed_halves _ _ Hk Hn) Hid) as [_ Hidr]. destruct (word_parts h' id Hidr) as [Hhigh Hlow].
  rewrite <- Hw in Hhigh, Hlow. rewrite Hhigh, Hlow. fold h.
  assert ((forall id', get_at ks id' = Some key -> v <> h * 2 ^ 32 + id' + 1) ->
    exists r, probe_go fuel t ix (mem_hash key) key (nth_slot j h (d + 1)) = Some r /\
    match r with
    | Some id => get_at ks id = Some key
    | None => exists e0, d <= e0 <= e /\ get_at (ix_slots ix) (nth_slot j h e0) = Some 0 /\
        forall d' id, d <= d' < e0 -> get_at ks id = Some key -> get_at (ix_slots ix) (nth_slot j h d') <> Some (h * 2 ^ 32 + id + 1)
    end) as Hpass.
  { intros Hother. exists r. split; [done|]. destruct r; [done|]. destruct Hspec as (e0 & H1 & H2 & H3). exists e0.
    split; [lia|]. split; [done|]. intros d' id' Hd' Hkey. destruct (decide (d' = d)) as [-> |]; [|apply H3; [lia|done]].
    rewrite Hv. intros [= Hx]. by apply (Hother _ Hkey). }
  destruct (keyed_half _ _ _ _ Hk Hid) as (k & Hkid & Hh'). destruct Hk as (_ & _ & _ & Hents).
  destruct (Z.eqb_spec h' h) as [E|E].
  - unfold csub. rewrite (proj2 (Z.leb_le 1 _)) by lia. cbn [mbind option_bind]. replace (id + 1 - 1) with id by lia.
    destruct (Hents _ _ Hkid) as (e' & He' & Hke & _). unfold entry. rewrite He'. cbn [fmap option_map option_fmap mbind option_bind].
    rewrite Hke. cbn [mbind option_bind]. destruct (beqb_spec k key) as [-> |Hkey].
    + exists (Some id). split; [done|]. done.
    + apply Hpass. intros id' Hid' Hx. assert (id' = id) by lia. subst id'. congruence.
  - apply Hpass. intros id' Hid' Hx. destruct (Hents _ _ Hid') as (e' & He' & _ & Hh2).
    assert (get_at (hashes t) id' = Some h) as Hg. { rewrite fat_hash, He'. cbn. by rewrite Hh2. }
    pose proof (halves_get _ _ _ (keyed_halves _ _ Hk Hn) Hg) as [_ ?].
    destruct (word_parts h id') as [Hhigh' _]; [done|]. rewrite <- Hx, Hhigh in Hhigh'. congruence.
Qed.
End probing.

Lemma probe_exact t ks key : keyed t ks -> Zlen ks <= 2 ^ 28 -> indexed t (Zlen ks) ->
  exists r, probe t (mem_hash key) key = Some r /\ match r with Some id => get_at ks id = Some key | None => key ∉ ks end.
Proof.
  intros Hk Hn (j & ix & Hj & Hix & Hload & Hf).
  assert (2 ^ 10 <= 2 ^ j) as Hbig by (apply Z.pow_le_mono_r; lia). change (2 ^ 10) with 1024 in Hbig.
  set (h := Z.shiftr (mem_hash key) 32). pose proof Hk as (Hnd & _ & _ & Hents).
  destruct (vacant_at j ltac:(lia) ix (hashes t) _ _ Hf ltac:(lia) h) as (e & He & Hz & Hfirst).
  assert (Z.of_nat (length (ix_slots ix)) = 2 ^ j) as Hlen by (apply (x_slots _ _ _ _ _ Hf)).
  destruct (probe_go_spec t ks Hk Hn j ltac:(lia) ix _ _ Hf key (length (ix_slots ix)) 0 e) as (r & Hr & Hspec); [lia|lia|done|].
  exists r. split.
  - unfold probe. rewrite Hix. unfold mem_slot. rewrite (x_mask _ _ _ _ _ Hf), nth_slot_0 by lia. done.
  - destruct r; [done|]. destruct Hspec as (e0 & H1 & H2 & H3). intros (id & Hid)%list_elem_of_lookup.
    assert (get_at ks (Z.of_nat id) = Some key) as Hg by (by rewrite get_at_lookup).
    destruct (Hents _ _ Hg) as (en & Hen & _ & Hhash). pose proof (get_at_lt _ _ _ Hg).
    assert (get_at (hashes t) (Z.of_nat id) = Some h) as Hh. { rewrite fat_hash, Hen. cbn. by rewrite Hhash. }
    destruct (x_reach _ _ _ _ _ Hf _ _ Hh ltac:(lia)) as (d & Hd & Hw & Hb).
    destruct (Z.lt_ge_cases d e0) as [Hlt|Hge]; [by apply (H3 d (Z.of_nat id) ltac:(lia))|].
    destruct (decide (d = e0)) as [-> |]; [|by apply (Hb e0 ltac:(lia))].
    fold h in H2. rewrite H2 in Hw. injection Hw as Hw. pose proof (high_half (mem_hash key) (mem_hash_range key)). subst h. lia.
Qed.
