(* ===== verification/MemHolds.v ===== *)
(** * What the memtable answers

    The abstract memtable is the list of its writes; [said] is what the writes
    of one key add up to: whether everything older is ended, and the live
    values. [represents] says that a table's entries, chains, arenas and index
    are those writes, key by key; every write keeps it, and what a lookup and a
    chain walk answer is [said], of every write so far or of those up to a
    commit. *)

From S2P Require Import Prelude.
From S2P Require Import HashTable.
From S2P Require Import Epochs.
From S2P Require Import Arena.
From S2P Require Import MemTable.
From S2P Require Import MemIndex.
#[local] Open Scope Z_scope.

(** ** The specification *)

Inductive write_op := Append (key value : bytes) | Put (key value : bytes) | Delete (key : bytes).

Definition op_key (o : write_op) : bytes := match o with Append k _ | Put k _ | Delete k => k end.

(** The live values, oldest first, and whether a tombstone ends the older. *)
Definition say : Type := bool * list bytes.
Definition apply_op (s : say) (o : write_op) : say :=
  match o with Append _ v => (fst s, snd s ++ [v]) | Put _ v => (true, [v]) | Delete _ => (true, []) end.
Definition tell (k : bytes) (s : option say) (o : write_op) : option say :=
  if beqb (op_key o) k then Some (apply_op (default (false, []) s) o) else s.
(** What a history of writes says of a key. *)
Definition said (h : list write_op) (k : bytes) : option say := fold_left (tell k) h None.

(** ** Chains *)

(** A chunk: its offset and its value, none for a tombstone. *)
Definition chunk : Type := Z * option bytes.

Definition vlen (v : option bytes) : Z := match v with Some v => Zlen v | None => 0 end.
Definition len_word (v : option bytes) : Z := match v with Some v => Zlen v | None => TOMB_LEN end.

(** The chain from [at_], newest first, in an arena. *)
Fixpoint chain_is (a : ByteArena) (at_ : Z) (ch : list chunk) : Prop :=
  match ch with
  | [] => at_ = NO_CHUNK
  | (off, v) :: older => at_ = off /\ 0 <= off < 2 ^ 34 /\ off + CHUNK_HDR + vlen v <= tail a /\ vlen v < TOMB_LEN /\
      slice a (off + 8) 4 = Some (le32 (len_word v)) /\
      (match v with Some v => slice a (off + CHUNK_HDR) (Zlen v) = Some v | None => True end) /\
      exists prev, slice a off 8 = Some (le64 prev) /\ 0 <= prev < U64 /\ chain_is a prev older /\
        match older with [] => True | (off', _) :: _ => off' + CHUNK_HDR <= off end
  end.

(** The live values of a chain below a watermark, oldest first. *)
Fixpoint below (wm : Z) (ch : list chunk) : say :=
  match ch with
  | [] => (false, [])
  | (off, v) :: older =>
      if wm <=? off then below wm older
      else match v with None => (true, []) | Some v => (fst (below wm older), snd (below wm older) ++ [v]) end
  end.

(** Bytes below the tail stay. *)
Definition keeps (a a' : ByteArena) : Prop :=
  tail a <= tail a' /\ forall o len x, 0 <= len -> o + len <= tail a -> slice a o len = Some x -> slice a' o len = Some x.

Lemma keeps_refl a : keeps a a. Proof. split; [lia|done]. Qed.
Lemma keeps_trans a b c : keeps a b -> keeps b c -> keeps a c.
Proof. intros [H1 H2] [H3 H4]. split; [lia|]. intros. apply H4; [done|lia|]. by apply H2. Qed.

Lemma chain_keeps a a' at_ ch : keeps a a' -> chain_is a at_ ch -> chain_is a' at_ ch.
Proof.
  intros [Ht Hk]. revert at_. induction ch as [|[off v] older IH]; intros at_; [done|]. cbn [chain_is].
  intros (-> & H1 & H2 & H3 & H4 & H5 & prev & H6 & H7 & H8 & H9).
  assert (0 <= vlen v) by (destruct v; cbn; [apply Zlen_nonneg|lia]). unfold CHUNK_HDR in *.
  split; [done|]. split; [done|]. split; [lia|]. split; [done|]. split; [apply Hk; [lia|lia|done]|]. split.
  - destruct v; [|done]. cbn [vlen] in *. apply Hk; [lia|lia|done].
  - exists prev. split; [apply Hk; [lia|lia|done]|]. split; [done|]. split; [by apply IH|done].
Qed.

Lemma chain_head_range a at_ ch : chain_is a at_ ch -> 0 <= at_ < U64.
Proof.
  destruct ch as [|[off v] older]; cbn [chain_is]; [intros ->; unfold NO_CHUNK, U64; lia|].
  intros (-> & H & _). unfold U64. lia.
Qed.

(** Each chunk is twelve bytes at least. *)
Lemma chain_length a at_ ch : chain_is a at_ ch ->
  match ch with [] => True | (off, _) :: _ => Z.of_nat (length ch) * CHUNK_HDR <= off + CHUNK_HDR end.
Proof.
  revert at_. induction ch as [|[off v] older IH]; intros at_; [done|]. cbn [chain_is].
  intros (-> & H1 & H2 & H3 & H4 & H5 & prev & H6 & H7 & H8 & H9). specialize (IH _ H8). unfold CHUNK_HDR in *.
  destruct older as [|[off' v'] older]; cbn [length] in *; lia.
Qed.

Lemma chain_fuel_enough a at_ ch : chain_is a at_ ch -> (length ch <= Z.to_nat (tail a / CHUNK_HDR))%nat.
Proof.
  intros H. pose proof (chain_length _ _ _ H) as Hl. destruct ch as [|[off v] older]; [cbn; lia|].
  cbn [chain_is] in H. destruct H as (_ & H1 & H2 & _). assert (0 <= vlen v) by (destruct v; cbn; [apply Zlen_nonneg|lia]).
  unfold CHUNK_HDR in *. cbn [length] in *.
  assert (Z.of_nat (S (length older)) <= tail a / 12) by (apply Z.div_le_lower_bound; lia). lia.
Qed.

(** ** Walks *)

Section walks.
Context (t : MemTable) (wm : Z).

Lemma chunk_reads at_ off v older : chain_is (vals t) at_ ((off, v) :: older) ->
  at_ = off /\ off =? NO_CHUNK = false /\ is_tomb t off = Some (match v with Some _ => false | None => true end) /\
  (forall x, v = Some x -> value_at t off = Some x) /\
  exists prev, chunk_prev t off = Some prev /\ chain_is (vals t) prev older.
Proof.
  cbn [chain_is]. intros (-> & H1 & H2 & H3 & H4 & H5 & prev & H6 & H7 & H8 & H9). split; [done|].
  assert (0 <= len_word v < U32) as Hw. { destruct v as [v|]; cbn [len_word vlen] in *; [pose proof (Zlen_nonneg v)|]; unfold TOMB_LEN, U32 in *; lia. }
  split; [apply Z.eqb_neq; unfold NO_CHUNK, U64; lia|].
  assert (chunk_len t off = Some (len_word v)) as Hl. { unfold chunk_len. rewrite H4. cbn [fmap option_fmap option_map]. by rewrite le_val_le32. }
  split; [unfold is_tomb; rewrite Hl; cbn [fmap option_fmap option_map]; f_equal; destruct v as [v|]; cbn [len_word vlen] in *; [apply Z.eqb_neq; lia|apply Z.eqb_refl]|].
  split.
  - intros x ->. unfold value_at. rewrite Hl. cbn [mbind option_bind len_word]. done.
  - exists prev. split; [|done]. unfold chunk_prev. rewrite H6. cbn [fmap option_fmap option_map]. by rewrite le_val_le64.
Qed.

Lemma live_go_reads fuel at_ ch out : chain_is (vals t) at_ ch -> (length ch < fuel)%nat ->
  exists offs, live_go fuel t wm at_ out = Some (out ++ offs, fst (below wm ch)) /\
    Forall2 (fun o v => value_at t o = Some v) (reverse offs) (snd (below wm ch)).
Proof.
  revert at_ ch out. induction fuel as [|fuel IH]; intros at_ ch out Hc Hf; [lia|]. destruct ch as [|[off v] older]; cbn [live_go below].
  - cbn in Hc. subst at_. rewrite Z.eqb_refl. exists []. rewrite app_nil_r. split; [done|]. constructor.
  - destruct (chunk_reads _ _ _ _ Hc) as (-> & Hn & Ht & Hv & prev & Hp & Ho). rewrite Hn. cbn [length] in Hf.
    destruct (Z.leb_spec wm off).
    + rewrite Hp. cbn [mbind option_bind]. apply IH; [done|lia].
    + rewrite Ht. cbn [mbind option_bind]. destruct v as [v|].
      * rewrite Hp. cbn [mbind option_bind]. destruct (IH prev older (out ++ [off]) Ho ltac:(lia)) as (offs & He & Hall).
        exists (off :: offs). rewrite He, <- app_assoc. split; [done|]. cbn [snd]. rewrite reverse_cons.
        apply Forall2_app; [done|]. constructor; [by apply Hv|constructor].
      * exists []. rewrite app_nil_r. split; [done|constructor].
Qed.

Lemma tomb_go_reads fuel at_ ch : chain_is (vals t) at_ ch -> (length ch < fuel)%nat -> tomb_go fuel t wm at_ = Some (fst (below wm ch)).
Proof.
  revert at_ ch. induction fuel as [|fuel IH]; intros at_ ch Hc Hf; [lia|]. destruct ch as [|[off v] older]; cbn [tomb_go below].
  - cbn in Hc. subst at_. by rewrite Z.eqb_refl.
  - destruct (chunk_reads _ _ _ _ Hc) as (-> & Hn & Ht & Hv & prev & Hp & Ho). rewrite Hn. cbn [length] in Hf.
    destruct (Z.leb_spec wm off).
    + rewrite (proj2 (Z.ltb_ge _ _)) by lia. cbn [mbind option_bind]. rewrite Hp. cbn [mbind option_bind]. apply IH; [done|lia].
    + rewrite (proj2 (Z.ltb_lt _ _)) by lia. rewrite Ht. cbn [mbind option_bind]. destruct v as [v|]; [|done].
      rewrite Hp. cbn [mbind option_bind fst]. apply IH; [done|lia].
Qed.

(** What a reader gets of an entry. *)
Lemma chain_reads e ch : chain_is (vals t) (n_head e) ch ->
  has_tomb t e wm = Some (fst (below wm ch)) /\
  exists offs, live_chain t e wm = Some (offs, fst (below wm ch)) /\
    Forall2 (fun o v => value_at t o = Some v) offs (snd (below wm ch)).
Proof.
  intros Hc. pose proof (chain_fuel_enough _ _ _ Hc) as Hl. split.
  - apply tomb_go_reads; [done|]. unfold chain_fuel. lia.
  - unfold live_chain. destruct (live_go_reads (chain_fuel t) (n_head e) ch [] Hc) as (offs & He & Hall); [unfold chain_fuel; lia|].
    rewrite He. cbn [mbind option_bind app]. exists (reverse offs). done.
Qed.
End walks.

(** ** What the arenas, the entries and the log hold *)

Definition sized (a : ByteArena) : Prop := arena_ok a /\ a_shift a = ARENA_SHIFT.
Definition tombless (ch : list chunk) : Prop := Forall (fun c => snd c <> None) ch.

(** [g]: the entries' keys and chains, by number. *)
Record base (t : MemTable) (g : list (bytes * list chunk)) : Prop := {
  b_hashed : ordered t = false /\ log_range t = false;
  b_keys : sized (keys t);
  b_vals : sized (vals t);
  b_entries : slab_ok (entries t) /\ len t = Zlen g /\ Zlen g <= 2 ^ 28;
  b_log : slab_ok (log t);
  b_nodup : NoDup (map fst g);
  b_tombs : 0 <= tombs t /\ tombs t * CHUNK_HDR <= tail (vals t);
  b_entry : forall id k ch, get_at g id = Some (k, ch) -> exists e, fat t id = Some e /\
    e_hash e = Z.shiftr (mem_hash k) 32 /\ e_klen e = Zlen k /\
    e_key_off e + Zlen k <= tail (keys t) /\ slice (keys t) (e_key_off e) (Zlen k) = Some k /\
    ch <> [] /\ chain_is (vals t) (chain_head e) ch /\ e_count e = Zlen (snd (below SEE_ALL ch)) /\
    (tombs t = 0 -> tombless ch);
  b_short : Forall (fun x : bytes * list chunk => Zlen (fst x) < U16) g
}.

Lemma base_keyed t g : base t g -> keyed t (map fst g).
Proof.
  intros [A B C (D1 & D2 & D3) E F G H I]. split; [done|]. split; [by rewrite Zlen_map|]. split; [done|].
  intros id k Hk. rewrite get_at_map in Hk. destruct (get_at g id) as [[k' ch]|] eqn:Eg; [|done]. injection Hk as <-.
  destruct (H _ _ _ Eg) as (e & H1 & H2 & H3 & _ & H4 & _). exists e. split; [done|]. split; [|done].
  unfold key_of, fat_entry. cbn [n_key_off n_klen]. by rewrite H3.
Qed.

(** The value arena grown. *)
Lemma base_grow t g a n : base t g -> sized a -> keeps (vals t) a -> (n = tombs t \/ n <> 0) -> 0 <= n -> n * CHUNK_HDR <= tail a ->
  base (set_tombs (set_vals t a) n) g.
Proof.
  intros [A B C D E F G H I] Ha Hk Hn Hn0 Hnt. split; cbn; try done.
  intros id k ch Hid. destruct (H _ _ _ Hid) as (e & H1 & H2 & H3 & H4 & H5 & H6 & H7 & H8 & H9). exists e.
  repeat (split; [done|]). split; [by eapply chain_keeps|]. split; [done|]. intros ->. apply H9. by destruct Hn.
Qed.

(** An entry's head on a longer chain. *)
Lemma base_store t g id k ch off ch' count t' : base t g -> get_at g id = Some (k, ch) -> chain_is (vals t) off ch' -> ch' <> [] ->
  count = Zlen (snd (below SEE_ALL ch')) -> (tombs t = 0 -> tombless ch') ->
  store_head t id off count = Some t' ->
  base t' (<[Z.to_nat id := (k, ch')]> g) /\ hashes t' = hashes t /\ exists es, t' = set_entries t es.
Proof.
  intros [A B C (D1 & D2 & D3) E F G H I] Hid Hc Hne Hcount Htomb Hst.
  destruct (H _ _ _ Hid) as (e & H1 & H2 & H3 & H4 & H5 & H6 & H7 & H8 & H9).
  unfold store_head in Hst. rewrite H1 in Hst. cbn [mbind option_bind] in Hst. injection Hst as <-.
  pose proof (get_at_lt _ _ _ Hid) as Hlt. apply get_at_Some in Hid as Hid'. destruct Hid' as [Hid0 Hid'].
  unfold fat, Arena.get in H1. apply get_at_Some in H1 as H1'. destruct H1' as [_ H1'].
  split; [|split; [|eauto]].
  - split; cbn; try done.
    + split; [by apply slab_set_ok|]. unfold Zlen in *. rewrite length_insert. done.
    + rewrite list_fmap_insert. cbn. rewrite list_insert_id; [done|]. by rewrite list_lookup_fmap, Hid'.
    + intros id' k' ch0. unfold fat, Arena.get. cbn [entries set_entries s_items Arena.set].
      destruct (decide (id' = id)) as [-> |Hd].
      * rewrite get_at_Some, list_lookup_insert_eq by (by eapply lookup_lt_Some). intros [_ [= <- <-]].
        eexists. split; [apply get_at_Some; split; [done|]; apply list_lookup_insert_eq; by eapply lookup_lt_Some|].
        cbn [e_hash e_klen e_key_off e_count]. repeat (split; [done|]). split; [|done].
        pose proof (chain_head_range _ _ _ Hc). destruct ch' as [|[o v] older]; [done|]. cbn [chain_is] in Hc.
        destruct Hc as (-> & Hc1 & Hc2). unfold chain_head, w64. cbn [e_head]. rewrite Z.mod_small by (unfold U64; lia).
        rewrite (proj2 (Z.eqb_neq _ 0)) by lia. replace (o + 1 - 1) with o by lia. cbn [chain_is]. done.
      * rewrite get_at_Some. intros [Hp Hl]. rewrite list_lookup_insert_ne in Hl by lia.
        destruct (H id' k' ch0) as (e' & Hr); [by apply get_at_Some|]. exists e'. revert Hr. unfold fat, Arena.get.
        rewrite !get_at_Some, list_lookup_insert_ne by lia. done.
    + apply Forall_insert; [done|]. apply (proj1 (Forall_lookup _ _) I) in Hid'. done.
  - unfold hashes. cbn [entries set_entries s_items Arena.set]. rewrite list_fmap_insert. cbn [e_hash].
    apply list_insert_id. by rewrite list_lookup_fmap, H1'.
Qed.

(** ** Chunks written *)

Lemma reserved_keeps a n off a1 : arena_ok a -> 0 <= n -> reserve a n = Some (off, a1) ->
  arena_ok a1 /\ a_shift a1 = a_shift a /\ tail a <= off /\ tail a1 = off + n /\ keeps a a1.
Proof.
  intros Ha Hn Hr. destruct (reserve_keeps _ _ _ _ Ha Hn Hr) as (H1 & H2 & H3 & _ & H4 & H5).
  repeat (split; [done|]). split; [lia|]. intros. by apply H5.
Qed.

(** A write at or past [lo] keeps what is below it. *)
Lemma write_step a off l a' lo : arena_ok a -> lo <= off -> write a off l = Some a' ->
  arena_ok a' /\ a_shift a' = a_shift a /\ tail a' = tail a /\ slice a' off (Zlen l) = Some l /\
  (forall o len x, 0 <= len -> o + len <= off \/ off + Zlen l <= o -> slice a o len = Some x -> slice a' o len = Some x).
Proof.
  intros Ha Hlo Hw. pose proof (k_shift _ Ha) as Hs. destruct (write_frame _ _ _ _ Hw) as (H1 & H2 & H3).
  split; [by eapply write_ok|]. split; [done|]. split; [unfold tail; by rewrite H1|]. split; [by eapply write_slice|].
  intros. by eapply write_keeps.
Qed.

Lemma write_bound a off l a' : sized a -> write a off l = Some a' -> 0 <= off -> 0 <= off < 2 ^ 34.
Proof.
  intros [Ha Hs] Hw Hoff. destruct (write_shape _ _ _ _ Hw) as (b & p & w & Hb & _).
  apply block_Some in Hb as (H1 & H2 & H3 & _); [|apply Ha]. unfold size, ARENA_BLOCKS in *. rewrite Hs in *. unfold ARENA_SHIFT in *. lia.
Qed.

(** The three writes of a chunk, or the two of a tombstone, link it to the chain. *)
Lemma linked a off a0 a1 a2 a3 prev v ch : sized a -> vlen v < TOMB_LEN -> chain_is a prev ch ->
  reserve a (CHUNK_HDR + vlen v) = Some (off, a0) -> write a0 off (le64 prev) = Some a1 ->
  write a1 (off + 8) (le32 (len_word v)) = Some a2 ->
  (match v with Some v => write a2 (off + CHUNK_HDR) v = Some a3 | None => a3 = a2 end) ->
  sized a3 /\ keeps a a3 /\ tail a <= off < 2 ^ 34 /\ tail a3 = off + CHUNK_HDR + vlen v /\ chain_is a3 off ((off, v) :: ch).
Proof.
  intros [Ha Hs] Hv Hc Hr Hw1 Hw2 Hw3. assert (0 <= vlen v) as Hv0 by (destruct v; cbn; [apply Zlen_nonneg|lia]).
  unfold CHUNK_HDR in *. destruct (reserved_keeps a (12 + vlen v) off a0 Ha ltac:(lia) Hr) as (A0 & S0 & T0 & T0' & K0).
  pose proof (chain_head_range _ _ _ Hc) as Hprev. assert (0 <= tail a) by (apply Ha).
  destruct (write_step a0 off _ a1 off A0 ltac:(lia) Hw1) as (A1 & S1 & T1 & W1 & K1).
  destruct (write_step a1 (off + 8) _ a2 off A1 ltac:(lia) Hw2) as (A2 & S2 & T2 & W2 & K2).
  rewrite Zlen_le64 in *. rewrite Zlen_le32 in *.
  assert (sized a0) as Z0 by (split; [done|congruence]). pose proof (write_bound a0 off _ a1 Z0 Hw1 ltac:(lia)) as Hb.
  assert (exists A3 : arena_ok a3, a_shift a3 = a_shift a2 /\ tail a3 = tail a2 /\
    match v with Some v => slice a3 (off + 12) (Zlen v) = Some v | None => True end /\
    forall o len x, 0 <= len -> o + len <= off + 12 -> slice a2 o len = Some x -> slice a3 o len = Some x) as (A3 & S3 & T3 & W3 & K3).
  { destruct v as [v|]; [|subst a3; by exists A2]. destruct (write_step a2 (off + 12) _ a3 off A2 ltac:(lia) Hw3) as (A3 & S3 & T3 & W3 & K3).
    exists A3. repeat (split; [done|]). intros. apply K3; [done|by left|done]. }
  assert (keeps a a3) as Hkeep.
  { split; [lia|]. intros o len x Hlen Ho Hx. apply K3; [done|lia|]. apply K2; [done|left; lia|]. apply K1; [done|left; lia|]. by apply K0. }
  split; [split; [done|congruence]|]. split; [done|]. split; [lia|]. split; [lia|]. cbn [chain_is]. unfold CHUNK_HDR.
  split; [done|]. split; [lia|]. split; [lia|]. split; [done|]. split; [apply K3; [lia|lia|done]|]. split; [done|].
  exists prev. split; [apply K3; [lia|lia|]; apply K2; [lia|left; lia|done]|]. split; [done|]. split; [by eapply chain_keeps|].
  destruct ch as [|[o' v'] older]; [done|]. cbn [chain_is] in Hc. destruct Hc as (_ & _ & Hc & _).
  assert (0 <= vlen v') by (destruct v'; cbn; [apply Zlen_nonneg|lia]). unfold CHUNK_HDR in Hc. lia.
Qed.

Lemma push_chunk_ok t prev v off t' ch : sized (vals t) -> Zlen v < TOMB_LEN -> chain_is (vals t) prev ch -> push_chunk t prev v = Some (off, t') ->
  exists a, t' = set_vals t a /\ sized a /\ keeps (vals t) a /\ tail (vals t) <= off < 2 ^ 34 /\ tail a = off + CHUNK_HDR + Zlen v /\
    chain_is a off ((off, Some v) :: ch).
Proof.
  intros Hs Hv Hc. unfold push_chunk. destruct (reserve _ _) as [[o a0]|] eqn:E0; [|done]. cbn [mbind option_bind].
  destruct (write a0 _ _) as [a1|] eqn:E1; [|done]. cbn [mbind option_bind].
  destruct (write a1 _ _) as [a2|] eqn:E2; [|done]. cbn [mbind option_bind].
  destruct (write a2 _ _) as [a3|] eqn:E3; [|done]. cbn [mbind option_bind]. intros [= <- <-].
  exists a3. split; [done|]. exact (linked (vals t) o a0 a1 a2 a3 prev (Some v) ch Hs Hv Hc E0 E1 E2 E3).
Qed.

Lemma push_tomb_ok t prev off t' ch : sized (vals t) -> 0 <= tombs t -> tombs t * CHUNK_HDR <= tail (vals t) ->
  chain_is (vals t) prev ch -> push_tomb t prev = Some (off, t') ->
  exists a, t' = set_tombs (set_vals t a) (tombs t + 1) /\ sized a /\ keeps (vals t) a /\ tail (vals t) <= off < 2 ^ 34 /\
    tail a = off + CHUNK_HDR /\ chain_is a off ((off, None) :: ch).
Proof.
  intros Hs Ht1 Ht2 Hc. unfold push_tomb. destruct (reserve _ _) as [[o a0]|] eqn:E0; [|done]. cbn [mbind option_bind].
  destruct (write a0 _ _) as [a1|] eqn:E1; [|done]. cbn [mbind option_bind].
  destruct (write a1 _ _) as [a2|] eqn:E2; [|done]. cbn [mbind option_bind]. intros [= <- <-].
  destruct (linked (vals t) o a0 a1 a2 a2 prev None ch Hs ltac:(unfold TOMB_LEN, U32; cbn; lia) Hc E0 E1 E2 eq_refl) as (H1 & H2 & H3 & H4 & H5).
  exists a2. split; [|rewrite H4; cbn [vlen]; rewrite Z.add_0_r; done].
  unfold w64. rewrite Z.mod_small; [done|]. unfold CHUNK_HDR, U64 in *. lia.
Qed.

(** ** Entries made, indexes and logs *)

Lemma below_chunk off v ch : off < 2 ^ 34 -> below SEE_ALL ((off, v) :: ch) =
  match v with None => (true, []) | Some v => (fst (below SEE_ALL ch), snd (below SEE_ALL ch) ++ [v]) end.
Proof. intros. cbn [below]. destruct (Z.leb_spec SEE_ALL off); [unfold SEE_ALL, U64 in *; lia|done]. Qed.

Definition value_fits (v : option bytes) : Prop := vlen v < TOMB_LEN.

(** A chunk, of either kind, on a chain: what both pushes leave. *)
Lemma chunk_pushed t g prev v off t' ch : base t g -> value_fits v -> chain_is (vals t) prev ch ->
  (match v with Some v => push_chunk t prev v | None => push_tomb t prev end) = Some (off, t') ->
  base t' g /\ chain_is (vals t') off ((off, v) :: ch) /\ keeps (vals t) (vals t') /\ tail (vals t) <= off < 2 ^ 34 /\
  (exists a n, t' = set_tombs (set_vals t a) n) /\ (v = None -> tombs t' <> 0) /\ (tombs t' = 0 -> tombs t = 0).
Proof.
  intros Hb Hv Hc Hp. destruct (b_tombs _ _ Hb) as [Ht1 Ht2]. pose proof (b_vals _ _ Hb) as Hs. destruct v as [v|].
  - destruct (push_chunk_ok _ _ _ _ _ _ Hs Hv Hc Hp) as (a & -> & H1 & H2 & H3 & H4 & H5). pose proof (Zlen_nonneg v).
    assert (set_vals t a = set_tombs (set_vals t a) (tombs t)) as Heq by done.
    split; [rewrite Heq; apply base_grow; try done; [by left|unfold CHUNK_HDR in *; lia]|].
    split; [done|]. split; [done|]. split; [done|]. split; [eauto|done].
  - destruct (push_tomb_ok _ _ _ _ _ Hs Ht1 Ht2 Hc Hp) as (a & -> & H1 & H2 & H3 & H4 & H5).
    split; [apply base_grow; try done; [right; lia|lia|unfold CHUNK_HDR in *; lia]|].
    split; [done|]. split; [done|]. split; [done|]. split; [eauto|]. cbn. split; [lia|lia].
Qed.

Lemma new_entry_ok t g key v id t1 : base t g -> key ∉ map fst g -> Zlen key < U16 -> value_fits v ->
  new_entry t (mem_hash key) key v = Some (id, t1) ->
  id = Zlen g /\ (exists off, tail (vals t) <= off < 2 ^ 34 /\ base t1 (g ++ [(key, [(off, v)])])) /\
  hashes t1 = hashes t ++ [Z.shiftr (mem_hash key) 32] /\ index t1 = index t.
Proof.
  intros Hb Hkey Hklen Hv. unfold new_entry.
  destruct (match v with Some v => push_chunk t NO_CHUNK v | None => push_tomb t NO_CHUNK end) as [[off t0]|] eqn:Ep; [|done].
  cbn [mbind option_bind]. destruct (chunk_pushed t g NO_CHUNK v off t0 [] Hb Hv eq_refl Ep) as (Hb0 & Hc & Hk & Ho & (a & n & ->) & Htomb & _).
  cbn [keys set_tombs set_vals entries]. destruct (reserve (keys t) (Zlen key)) as [[koff k0]|] eqn:Er; [|done]. cbn [mbind option_bind].
  destruct (write k0 koff key) as [k1|] eqn:Ew; [|done]. cbn [mbind option_bind].
  destruct (Z.leb_spec U32 koff) as [|_]; [done|]. destruct (push _ _) as [[i es]|] eqn:Es; [|done]. cbn [mbind option_bind]. intros [= <- <-].
  destruct Hb as [A [B1 B2] C (D1 & D2 & D3) E F G H I].
  pose proof (Zlen_nonneg key) as Hk0. destruct (reserved_keeps (keys t) (Zlen key) koff k0 B1 Hk0 Er) as (K0 & KS0 & KT0 & KT1 & KK0).
  destruct (write_step k0 koff key k1 koff K0 ltac:(lia) Ew) as (K1 & KS1 & KT2 & KW & KK1).
  destruct (push_inv _ _ _ _ D1 Es) as (-> & -> & Hroom). unfold len in D2.
  split; [done|]. split; [|split; [unfold hashes; cbn; by rewrite map_app|done]].
  exists off. split; [done|]. destruct Hb0 as [A' B' C' (D1' & D2' & D3') E' F' G' H' I'].
  cbn [keys set_tombs set_vals entries ordered log_range vals len log tombs index] in *.
  split; cbn [keys set_entries set_keys set_tombs set_vals entries ordered log_range vals log tombs index]; try done.
  - split; [done|congruence].
  - split; [by apply slab_push_ok|]. split; [unfold len; cbn; zlen|zlen].
  - rewrite map_app. apply NoDup_app. split; [done|]. split; [|apply NoDup_singleton]. intros x Hx ->%list_elem_of_singleton. done.
  - assert (keeps (keys t) k1) as Hkeep. { split; [lia|]. intros. apply KK1; [done|left; lia|]. by apply KK0. }
    intros id k ch Hid. unfold fat, Arena.get. cbn [entries set_entries set_keys set_tombs set_vals s_items].
    pose proof (get_at_lt _ _ _ Hid) as Hlt. rewrite Zlen_app in Hlt. change (Zlen [(key, [(off, v)])]) with 1 in Hlt.
    unfold slab_ok in D1. destruct (decide (id = Zlen g)) as [-> |Hne].
    + rewrite get_at_skip in Hid by lia. rewrite Z.sub_diag, get_at_here in Hid by done. injection Hid as <- <-.
      eexists. split; [rewrite <- D2, D1, get_at_skip by lia; rewrite Z.sub_diag; by apply get_at_here|].
      cbn [e_hash e_klen e_key_off e_count]. split; [done|]. split; [unfold w16; rewrite Z.mod_small; [done|lia]|].
      split; [lia|]. split; [done|]. split; [done|]. split; [|split].
      * unfold chain_head, w64. cbn [e_head]. pose proof (k_tail _ (proj1 C)). rewrite Z.mod_small by (unfold tail, U64 in *; lia).
        rewrite (proj2 (Z.eqb_neq _ 0)) by (unfold tail in *; lia). by replace (off + 1 - 1) with off by lia.
      * rewrite below_chunk by lia. by destruct v.
      * intros Hn. constructor; [|constructor]. cbn. intros ->. by apply Htomb.
    + rewrite get_at_keep in Hid by lia. destruct (H' _ _ _ Hid) as (e & H1 & H2 & H3 & H4 & H5 & H6).
      exists e. unfold fat, Arena.get in H1. cbn in H1. rewrite get_at_keep by lia. split; [done|]. split; [done|]. split; [done|].
      split; [destruct Hkeep; lia|]. split; [|done]. destruct Hkeep as [_ Hkeep]. apply Hkeep; [apply Zlen_nonneg|done|done].
  - apply Forall_app. split; [done|]. by constructor.
Qed.

Lemma base_index t g ix r : base t g -> base (set_index t ix r) g.
Proof. intros []. by split. Qed.

Lemma log_write_ok t g id b t' : base t g -> log_write t id b = Some t' ->
  base t' g /\ hashes t' = hashes t /\ index t' = index t.
Proof.
  intros Hb. unfold log_write. rewrite (proj2 (b_hashed _ _ Hb)). destruct (push _ _) as [[i l]|] eqn:E; [|done]. cbn [mbind option_bind].
  intros [= <-]. destruct (push_inv _ _ _ _ (b_log _ _ Hb) E) as (_ & -> & _). split; [|done].
  destruct Hb. split; try done. cbn. by apply slab_push_ok.
Qed.

(** ** Every write *)

Definition run_op (st : MemTable * Readers) (o : write_op) : option (MemTable * Readers) :=
  let '(t, rd) := st in
  match o with
  | Append k v => append t (mem_hash k) k v rd
  | Put k v => put t (mem_hash k) k v rd
  | Delete k => delete t (mem_hash k) k rd
  end.

Definition op_fits (o : write_op) : Prop :=
  Zlen (op_key o) < U16 /\ match o with Append _ v | Put _ v => Zlen v < TOMB_LEN | Delete _ => True end.

Record represents (t : MemTable) (h : list write_op) (g : list (bytes * list chunk)) : Prop := {
  r_base : base t g;
  r_index : indexed t (Zlen g);
  r_held : forall id k ch, get_at g id = Some (k, ch) -> said h k = Some (below SEE_ALL ch);
  r_absent : forall k, k ∉ map fst g -> said h k = None
}.

(** The chain made of [ch] by a write past [lo]. *)
Definition made (lo : Z) (o : write_op) (ch ch' : list chunk) : Prop :=
  below SEE_ALL ch' = apply_op (below SEE_ALL ch) o /\ ch' <> [] /\
  exists more, ch' = more ++ ch /\ Forall (fun c : chunk => lo <= fst c) more.
Inductive grown (lo : Z) (o : write_op) (g : list (bytes * list chunk)) : list (bytes * list chunk) -> Prop :=
  | grown_held id ch ch' : get_at g id = Some (op_key o, ch) -> made lo o ch ch' -> grown lo o g (<[Z.to_nat id := (op_key o, ch')]> g)
  | grown_new ch' : op_key o ∉ map fst g -> made lo o [] ch' -> grown lo o g (g ++ [(op_key o, ch')]).

Lemma made_append lo k v off ch : lo <= off < 2 ^ 34 -> made lo (Append k v) ch ((off, Some v) :: ch).
Proof. intros Ho. split; [by rewrite below_chunk by lia|]. split; [done|]. exists [(off, Some v)]. split; [done|]. constructor; [cbn; lia|constructor]. Qed.
Lemma made_delete lo k off ch : lo <= off < 2 ^ 34 -> made lo (Delete k) ch ((off, None) :: ch).
Proof. intros Ho. split; [by rewrite below_chunk by lia|]. split; [done|]. exists [(off, None)]. split; [done|]. constructor; [cbn; lia|constructor]. Qed.
Lemma made_put lo k v off off' ch : lo <= off' < 2 ^ 34 -> lo <= off < 2 ^ 34 -> made lo (Put k v) ch ((off, Some v) :: (off', None) :: ch).
Proof.
  intros Ho' Ho. split; [rewrite !below_chunk by lia; done|]. split; [done|]. exists [(off, Some v); (off', None)].
  split; [done|]. repeat constructor; cbn; lia.
Qed.

(** The values a history's key has once more is said. *)
Lemma said_snoc h o k : said (h ++ [o]) k = tell k (said h k) o.
Proof. unfold said. by rewrite fold_left_app. Qed.

Lemma tell_other k s o : op_key o <> k -> tell k s o = s.
Proof. intros Hk. unfold tell. by destruct (beqb_spec (op_key o) k). Qed.
Lemma tell_same s o : tell (op_key o) s o = Some (apply_op (default (false, []) s) o).
Proof. unfold tell. by rewrite beqb_refl. Qed.

Lemma grown_keys lo o g g' : grown lo o g g' -> forall k, k ∈ map fst g' <-> k ∈ map fst g \/ k = op_key o.
Proof.
  intros [id ch ch' Hid Hm|ch' Hnew Hm] k.
  - apply get_at_Some in Hid as [Hp Hl]. rewrite list_fmap_insert. cbn [fst]. rewrite list_insert_id by (by rewrite list_lookup_fmap, Hl).
    split; [by left|]. intros [?| ->]; [done|]. apply list_elem_of_lookup. exists (Z.to_nat id). by rewrite list_lookup_fmap, Hl.
  - rewrite map_app, elem_of_app. cbn. by rewrite list_elem_of_singleton.
Qed.

(** The chain an entry of the grown table has. *)
Lemma grown_get lo o g g' id k ch : grown lo o g g' -> NoDup (map fst g) -> get_at g' id = Some (k, ch) ->
  (k <> op_key o /\ get_at g id = Some (k, ch)) \/
  (k = op_key o /\ exists old, (get_at g id = Some (k, old) \/ id = Zlen g /\ old = [] /\ k ∉ map fst g) /\ made lo o old ch).
Proof.
  intros [id' old ch' Hid Hm|ch' Hnew Hm] Hnd Hg.
  - apply get_at_Some in Hid as [Hp Hl]. apply get_at_Some in Hg as [Hp' Hl'].
    destruct (decide (id = id')) as [-> |Hne].
    + rewrite list_lookup_insert_eq in Hl' by (by eapply lookup_lt_Some). injection Hl' as <- <-. right. split; [done|].
      exists old. split; [left; by apply get_at_Some|done].
    + rewrite list_lookup_insert_ne in Hl' by lia. left. split; [|by apply get_at_Some].
      intros ->. apply Hne. enough (Z.to_nat id = Z.to_nat id') by lia.
      eapply NoDup_lookup; [exact Hnd| |]; rewrite list_lookup_fmap; [by rewrite Hl'|by rewrite Hl].
  - pose proof (get_at_lt _ _ _ Hg) as Hlt. rewrite Zlen_app in Hlt. change (Zlen [(op_key o, ch')]) with 1 in Hlt.
    destruct (decide (id = Zlen g)) as [-> |Hne].
    + rewrite get_at_skip in Hg by lia. rewrite Z.sub_diag, get_at_here in Hg by done. injection Hg as <- <-. right. split; [done|].
      exists []. split; [by right|done].
    + rewrite get_at_keep in Hg by lia. left. split; [|done]. intros ->. apply Hnew. apply get_at_Some in Hg as [_ Hg].
      apply list_elem_of_lookup. exists (Z.to_nat id). by rewrite list_lookup_fmap, Hg.
Qed.

Lemma grown_said t h g lo o g' : represents t h g -> grown lo o g g' ->
  (forall id k ch, get_at g' id = Some (k, ch) -> said (h ++ [o]) k = Some (below SEE_ALL ch)) /\
  (forall k, k ∉ map fst g' -> said (h ++ [o]) k = None).
Proof.
  intros [Hb _ Hheld Habs] Hg. split.
  - intros id k ch Hid. rewrite said_snoc. destruct (grown_get _ _ _ _ _ _ _ Hg (b_nodup _ _ Hb) Hid) as [[Hne Hold]|(-> & old & Hold & Hm & _)].
    + rewrite tell_other by done. by eapply Hheld.
    + rewrite tell_same, Hm. do 2 f_equal. destruct Hold as [Hold|(_ & -> & Hno)]; [by rewrite (Hheld _ _ _ Hold)|by rewrite (Habs _ Hno)].
  - intros k Hk. rewrite said_snoc. rewrite (grown_keys _ _ _ _ Hg) in Hk. rewrite tell_other by (intros <-; apply Hk; by right).
    apply Habs. intros ?. apply Hk. by left.
Qed.

Lemma indexed_same t t' n : index t' = index t -> hashes t' = hashes t -> indexed t n -> indexed t' n.
Proof. intros E1 E2 (j & ix & H). exists j, ix. by rewrite E1, E2. Qed.

(** A write to an entry there already, its chunks pushed. *)
Lemma held_ok t0 t g id k ch off ch' count b t1 t2 : base t g -> indexed t0 (Zlen g) -> index t = index t0 -> hashes t = hashes t0 ->
  get_at g id = Some (k, ch) -> chain_is (vals t) off ch' -> ch' <> [] -> count = Zlen (snd (below SEE_ALL ch')) ->
  (tombs t = 0 -> tombless ch') -> store_head t id off count = Some t1 -> log_write t1 id b = Some t2 ->
  base t2 (<[Z.to_nat id := (k, ch')]> g) /\ indexed t2 (Zlen g) /\ vals t2 = vals t.
Proof.
  intros Hb Hix Ei Eh Hid Hc Hne Hcount Ht Hst Hlog.
  destruct (base_store _ _ _ _ _ _ _ _ _ Hb Hid Hc Hne Hcount Ht Hst) as (Hb1 & Eh1 & es & ->).
  destruct (log_write_ok _ _ _ _ _ Hb1 Hlog) as (Hb2 & Eh2 & Ei2). split; [done|]. split.
  - eapply indexed_same; [| |exact Hix]; [by rewrite Ei2|by rewrite Eh2, Eh1].
  - unfold log_write in Hlog. rewrite (proj2 (b_hashed _ _ Hb1)) in Hlog. destruct (push _ _) as [[i l]|]; [|done].
    cbn [mbind option_bind] in Hlog. injection Hlog as <-. done.
Qed.

(** An entry made, put into the index. *)
Lemma new_ok t0 t g k ch b rd t1 rd1 t2 : base t (g ++ [(k, ch)]) -> indexed t0 (Zlen g) -> index t = index t0 ->
  hashes t = hashes t0 ++ [Z.shiftr (mem_hash k) 32] -> Zlen (hashes t0) = Zlen g ->
  index_insert t (mem_hash k) (Zlen g) rd = Some (t1, rd1) -> log_write t1 (Zlen g) b = Some t2 ->
  base t2 (g ++ [(k, ch)]) /\ indexed t2 (Zlen g + 1) /\ vals t2 = vals t.
Proof.
  intros Hb (j & ix & Hj & Hix & Hload & Hf) Ei Eh Hl Hins Hlog. pose proof (base_keyed _ _ Hb) as Hk.
  destruct (b_entries _ _ Hb) as (Hslab & Hlen & Hsmall). rewrite Zlen_app in Hlen. change (Zlen [(k, ch)]) with 1 in Hlen.
  assert (halves (hashes t)) as Hhs by (apply (keyed_halves _ _ Hk); by rewrite Zlen_map).
  destruct (index_insert_ok t (mem_hash k) (Zlen g) rd Hslab Hhs (mem_hash_range k) Hlen) as (ix1 & r & rd' & He & Hind).
  { rewrite Eh. rewrite get_at_skip, Hl, Z.sub_diag by lia. by apply get_at_here. }
  { exists j, ix. rewrite Ei, Eh. split; [done|]. split; [done|]. split; [done|]. apply filled_more; [done|lia]. }
  rewrite Hins in He. injection He as -> ->.
  destruct (log_write_ok _ _ _ _ _ (base_index _ _ (Some ix1) r Hb) Hlog) as (Hb2 & Eh2 & Ei2). split; [done|]. split.
  - by eapply indexed_same.
  - unfold log_write in Hlog. cbn [log_range set_index] in Hlog. rewrite (proj2 (b_hashed _ _ Hb)) in Hlog. destruct (push _ _) as [[i l]|]; [|done].
    cbn [mbind option_bind] in Hlog. injection Hlog as <-. done.
Qed.

Lemma entry_key t g id key : base t g -> get_at (map fst g) id = Some key -> exists ch e, get_at g id = Some (key, ch) /\ fat t id = Some e /\
  chain_is (vals t) (chain_head e) ch /\ ch <> [] /\ e_count e = Zlen (snd (below SEE_ALL ch)) /\ (tombs t = 0 -> tombless ch).
Proof.
  intros Hb Hid. rewrite get_at_map in Hid. destruct (get_at g id) as [[k ch]|] eqn:E; [|done]. injection Hid as ->.
  destruct (b_entry _ _ Hb _ _ _ E) as (e & H1 & _ & _ & _ & _ & H2 & H3 & H4 & H5). exists ch, e. done.
Qed.

(** How many values a chain can hold. *)
Lemma below_count wm ch : Zlen (snd (below wm ch)) <= Zlen ch.
Proof.
  induction ch as [|[off v] ch IH]; [done|]. cbn [below]. rewrite Zlen_cons. destruct (wm <=? off); [lia|].
  pose proof (Zlen_nonneg ch). destruct v; cbn [snd]; rewrite ?Zlen_app, ?Zlen_cons, Zlen_nil; lia.
Qed.

Lemma chain_values a at_ ch : chain_is a at_ ch -> 0 <= Zlen (snd (below SEE_ALL ch)) < U32 - 1.
Proof.
  intros Hc. split; [apply Zlen_nonneg|]. pose proof (below_count SEE_ALL ch). pose proof (chain_length _ _ _ Hc) as Hl.
  destruct ch as [|[off v] older]; [cbn [below snd]; rewrite Zlen_nil; unfold U32; lia|]. cbn [chain_is] in Hc. destruct Hc as (_ & Hoff & _).
  unfold CHUNK_HDR, U32, Zlen in *. lia.
Qed.

Lemma insert_last {A} (l : list A) x y : <[Z.to_nat (Zlen l) := y]> (l ++ [x]) = l ++ [y].
Proof. rewrite Zlen_to_nat. rewrite insert_app_r_alt, Nat.sub_diag by lia. done. Qed.

(** [write], for a value and for a tombstone. *)
Lemma write_entry_ok t h g o key v rd t' rd' : represents t h g -> op_fits o -> op_key o = key -> value_fits v ->
  (forall lo off ch, lo <= off < 2 ^ 34 -> made lo o ch ((off, v) :: ch)) ->
  write_entry t (mem_hash key) key v rd = Some (t', rd') ->
  exists g', grown (tail (vals t)) o g g' /\ base t' g' /\ indexed t' (Zlen g') /\ tail (vals t) <= tail (vals t').
Proof.
  intros [Hb Hix Hheld Habs] [Hkl _] Hkey Hv Hmade. unfold write_entry. rewrite (proj1 (b_hashed _ _ Hb)).
  pose proof (base_keyed _ _ Hb) as Hk. destruct (b_entries _ _ Hb) as (Hslab & Hlen & Hsmall).
  destruct (probe_exact t (map fst g) key Hk) as (r & Hpr & Hr); [by rewrite Zlen_map|by rewrite Zlen_map|].
  rewrite Hpr. cbn [mbind option_bind]. destruct r as [id|].
  - destruct (entry_key _ _ _ _ Hb Hr) as (ch & e & Hid & He & Hc & Hne & Hcount & Ht). rewrite He. cbn [mbind option_bind].
    destruct (match v with Some v => push_chunk t (chain_head e) v | None => push_tomb t (chain_head e) end) as [[off t1]|] eqn:Ep; [|done].
    cbn [mbind option_bind]. destruct (chunk_pushed _ _ _ _ _ _ _ Hb Hv Hc Ep) as (Hb1 & Hc1 & Hkeep & Hoff & (a & n & Ht1) & Htomb & Ht0).
    destruct (store_head t1 _ _ _) as [t2|] eqn:Est; [|done]. cbn [mbind option_bind].
    destruct (log_write t2 _ _) as [t3|] eqn:Elog; [|done]. cbn [mbind option_bind]. intros [= <- <-].
    destruct (held_ok t t1 g id key ch off ((off, v) :: ch) (match v with Some _ => w32 (e_count e + 1) | None => 0 end) false t2 t3 Hb1 Hix) as (Hb3 & Hix3 & Hvals); try done.
    + by rewrite Ht1.
    + by rewrite Ht1.
    + rewrite below_chunk by lia. destruct v as [v|]; [|done]. cbn [snd]. rewrite Zlen_app, Zlen_cons, Zlen_nil, Hcount.
      pose proof (chain_values _ _ _ Hc). unfold w32. rewrite Z.mod_small; lia.
    + intros H0. constructor; [cbn; intros ->; by apply Htomb|]. by apply Ht, Ht0.
    + eexists. split; [|split; [exact Hb3|]].
      * subst key. apply grown_held with (ch := ch); [done|]. apply Hmade. lia.
      * split; [unfold Zlen in *; by rewrite length_insert|]. rewrite Hvals. apply Hkeep.
  - destruct (new_entry t _ _ _) as [[id t1]|] eqn:En; [|done]. cbn [mbind option_bind].
    destruct (new_entry_ok _ _ _ _ _ _ Hb Hr ltac:(by rewrite <- Hkey) Hv En) as (-> & (off & Hoff & Hb1) & Hh1 & Hi1).
    destruct (index_insert t1 _ _ rd) as [[t2 rd2]|] eqn:Ei; [|done]. cbn [mbind option_bind].
    destruct (log_write t2 _ _) as [t3|] eqn:Elog; [|done]. cbn [mbind option_bind]. intros [= <- <-].
    destruct (new_ok t t1 g key [(off, v)] true rd t2 rd2 t3 Hb1 Hix Hi1 Hh1) as (Hb3 & Hix3 & Hvals); try done.
    { rewrite (keyed_len _ _ Hk). by rewrite Zlen_map. }
    exists (g ++ [(key, [(off, v)])]). split; [subst key; apply grown_new; [done|apply Hmade; lia]|]. split; [done|].
    split; [by rewrite Zlen_app|]. rewrite Hvals.
    destruct (b_entry _ _ Hb1 (Zlen g) key [(off, v)]) as (e & _ & _ & _ & _ & _ & _ & Hc & _).
    { rewrite get_at_skip, Z.sub_diag by lia. by apply get_at_here. }
    cbn [chain_is] in Hc. destruct Hc as (_ & _ & Hc & _). assert (0 <= vlen v) by (destruct v; cbn; [apply Zlen_nonneg|lia]).
    unfold CHUNK_HDR in *. lia.
Qed.

Lemma put_ok t h g key v rd t' rd' : represents t h g -> op_fits (Put key v) ->
  put t (mem_hash key) key v rd = Some (t', rd') ->
  exists g', grown (tail (vals t)) (Put key v) g g' /\ base t' g' /\ indexed t' (Zlen g') /\ tail (vals t) <= tail (vals t').
Proof.
  intros [Hb Hix Hheld Habs] [Hkl Hvl]. cbn [op_key] in Hkl. unfold put. rewrite (proj1 (b_hashed _ _ Hb)).
  pose proof (base_keyed _ _ Hb) as Hk. destruct (b_entries _ _ Hb) as (Hslab & Hlen & Hsmall).
  assert (value_fits None) as Hn by (unfold value_fits, TOMB_LEN, U32; cbn; lia).
  destruct (probe_exact t (map fst g) key Hk) as (r & Hpr & Hr); [by rewrite Zlen_map|by rewrite Zlen_map|].
  rewrite Hpr. cbn [mbind option_bind]. destruct r as [id|].
  - destruct (entry_key _ _ _ _ Hb Hr) as (ch & e & Hid & He & Hc & Hne & Hcount & Ht). rewrite He. cbn [mbind option_bind].
    destruct (push_tomb t _) as [[off1 t1]|] eqn:Ep1; [|done]. cbn [mbind option_bind].
    destruct (chunk_pushed t g _ None _ _ _ Hb Hn Hc Ep1) as (Hb1 & Hc1 & Hkeep1 & Hoff1 & (a1 & n1 & Ht1) & Htomb1 & _).
    destruct (push_chunk t1 _ _) as [[off2 t2]|] eqn:Ep2; [|done]. cbn [mbind option_bind].
    destruct (chunk_pushed t1 g _ (Some v) _ _ _ Hb1 Hvl Hc1 Ep2) as (Hb2 & Hc2 & Hkeep2 & Hoff2 & (a2 & n2 & Ht2) & _ & Htomb2).
    destruct (store_head t2 _ _ _) as [t3|] eqn:Est; [|done]. cbn [mbind option_bind].
    destruct (log_write t3 _ _) as [t4|] eqn:Elog; [|done]. cbn [mbind option_bind]. intros [= <- <-].
    assert (tail (vals t) <= tail (vals t1)) by apply Hkeep1.
    destruct (held_ok t t2 g id key ch off2 ((off2, Some v) :: (off1, None) :: ch) 1 false t3 t4 Hb2 Hix) as (Hb4 & Hix4 & Hvals); try done.
    + by rewrite Ht2, Ht1.
    + by rewrite Ht2, Ht1.
    + rewrite !below_chunk by lia. done.
    + intros H0. exfalso. apply Htomb1; [done|]. by apply Htomb2.
    + eexists. split; [|split; [exact Hb4|]].
      * apply (grown_held _ (Put key v) g id ch); [done|]. apply made_put; lia.
      * split; [unfold Zlen in *; by rewrite length_insert|]. rewrite Hvals. destruct Hkeep2. lia.
  - destruct (new_entry t _ _ _) as [[id t1]|] eqn:En; [|done]. cbn [mbind option_bind].
    destruct (new_entry_ok _ _ _ _ _ _ Hb Hr Hkl Hn En) as (-> & (off1 & Hoff1 & Hb1) & Hh1 & Hi1).
    assert (get_at (g ++ [(key, [(off1, @None bytes)])]) (Zlen g) = Some (key, [(off1, None)])) as Hlast.
    { rewrite get_at_skip, Z.sub_diag by lia. by apply get_at_here. }
    destruct (b_entry _ _ Hb1 _ _ _ Hlast) as (e & He & _ & _ & _ & _ & _ & Hc1 & _ & Htomb1).
    rewrite He. cbn [mbind option_bind].
    destruct (push_chunk t1 _ _) as [[off2 t2]|] eqn:Ep2; [|done]. cbn [mbind option_bind].
    destruct (chunk_pushed t1 _ _ (Some v) _ _ _ Hb1 Hvl Hc1 Ep2) as (Hb2 & Hc2 & Hkeep2 & Hoff2 & (a2 & n2 & Ht2) & _ & Htomb2).
    destruct (store_head t2 _ _ _) as [t3|] eqn:Est; [|done]. cbn [mbind option_bind].
    destruct (index_insert t3 _ _ rd) as [[t4 rd4]|] eqn:Ei; [|done]. cbn [mbind option_bind].
    destruct (log_write t4 _ _) as [t5|] eqn:Elog; [|done]. cbn [mbind option_bind]. intros [= <- <-].
    assert (tail (vals t) <= tail (vals t1)) as Hgrow.
    { cbn [chain_is] in Hc1. destruct Hc1 as (_ & _ & Hc1 & _). unfold CHUNK_HDR in *. cbn [vlen] in Hc1. lia. }
    destruct (base_store t2 _ (Zlen g) key [(off1, None)] off2 [(off2, Some v); (off1, None)] 1 t3 Hb2 Hlast Hc2) as (Hb3 & Hh3 & es & Ht3); [..|exact Est|].
    { done. } { rewrite !below_chunk by lia. done. }
    { intros H0. apply Htomb2 in H0. specialize (Htomb1 H0). inversion Htomb1 as [|? ? Hx]. by destruct Hx. }
    rewrite insert_last in Hb3.
    destruct (new_ok t t3 g key [(off2, Some v); (off1, None)] true rd t4 rd4 t5 Hb3 Hix) as (Hb5 & Hix5 & Hvals); try done.
    + by rewrite Ht3, Ht2.
    + rewrite Hh3, Ht2. done.
    + rewrite (keyed_len _ _ Hk). by rewrite Zlen_map.
    + eexists. split; [|split; [exact Hb5|]].
      * apply (grown_new _ (Put key v) g); [done|]. apply (made_put _ key v off2 off1 []); lia.
      * split; [by rewrite Zlen_app|]. rewrite Hvals, Ht3. cbn [vals set_entries]. destruct Hkeep2. lia.
Qed.

Lemma op_ok t h g o rd t' rd' : represents t h g -> op_fits o -> run_op (t, rd) o = Some (t', rd') ->
  exists g', grown (tail (vals t)) o g g' /\ represents t' (h ++ [o]) g' /\ tail (vals t) <= tail (vals t').
Proof.
  intros Hr Hf Hrun.
  assert (exists g', grown (tail (vals t)) o g g' /\ base t' g' /\ indexed t' (Zlen g') /\ tail (vals t) <= tail (vals t')) as (g' & Hg & Hb & Hi & Ht).
  { destruct o as [k v|k v|k]; cbn [run_op] in Hrun.
    - eapply (write_entry_ok t h g (Append k v) k (Some v)); try done; [by destruct Hf|]. intros. by apply made_append.
    - by eapply put_ok.
    - unfold delete in Hrun. rewrite (proj1 (b_hashed _ _ (r_base _ _ _ Hr))) in Hrun.
      eapply (write_entry_ok t h g (Delete k) k None); try done. intros. by apply made_delete. }
  exists g'. split; [done|]. split; [|done]. destruct (grown_said _ _ _ _ _ _ Hr Hg) as [H1 H2]. by split.
Qed.

Lemma sized_new : sized new_arena.
Proof. split; [|done]. apply arena_ok_new. unfold ARENA_SHIFT. lia. Qed.

Lemma represents_new : represents new [] [].
Proof.
  split; try done.
  - split; try done; try apply sized_new.
    + apply NoDup_nil_2.
    + intros id k ch Hid%get_at_lt. change (0 <= id < 0) in Hid. lia.
  - exists 10, (with_slots (2 ^ 10)). split; [lia|]. split; [done|]. split; [by apply Z.leb_le|]. apply (filled_more _ _ [] _ _ _); [|done].
    pose proof (filled_new 10 [] ltac:(lia)) as [A B C D E]. split; try done.
  - intros id k ch Hid%get_at_lt. change (0 <= id < 0) in Hid. lia.
Qed.

(** ** What a reader is told *)

(** What a read takes of a table: [get_with], the chain and its values. *)
Definition table_says (t : MemTable) (hash : Z) (key : bytes) (upto wm : Z) : option (option say) :=
  found ← get_with t hash key upto;
  match found with
  | None => Some None
  | Some e => '(offs, tomb) ← live_chain t e wm; vs ← mapM (value_at t) offs; Some (Some (tomb, vs))
  end.

(** Of a table's first [upto] entries. *)
Lemma table_finds t g key upto : base t g -> indexed t (Zlen g) ->
  exists found, get_with t (mem_hash key) key upto = Some found /\
    match found with
    | Some e => exists id ch, id < upto /\ get_at g id = Some (key, ch) /\ chain_is (vals t) (n_head e) ch /\ n_count e = Zlen (snd (below SEE_ALL ch))
    | None => forall id ch, get_at g id = Some (key, ch) -> upto <= id
    end.
Proof.
  intros Hb Hix. pose proof (base_keyed _ _ Hb) as Hk. destruct (b_entries _ _ Hb) as (_ & _ & Hsmall).
  destruct (probe_exact t (map fst g) key Hk) as (r & Hpr & Hr); [by rewrite Zlen_map|by rewrite Zlen_map|].
  unfold get_with. rewrite (proj1 (b_hashed _ _ Hb)), Hpr. cbn [mbind option_bind]. destruct r as [id|].
  - destruct (entry_key _ _ _ _ Hb Hr) as (ch & e & Hid & He & Hc & _ & Hn & _). destruct (Z.ltb_spec id upto).
    + unfold entry. rewrite He. cbn [fmap option_fmap option_map mbind option_bind]. eexists. split; [reflexivity|]. exists id, ch. by split_and!.
    + cbn [mbind option_bind]. exists None. split; [done|]. intros id' ch' Hid'.
      enough (Z.to_nat id' = Z.to_nat id) as Hx. { apply get_at_lt in Hid, Hid'. lia. }
      apply get_at_Some in Hid as [_ Hid], Hid' as [_ Hid']. eapply NoDup_lookup; [exact (b_nodup _ _ Hb)| |].
      * by rewrite list_lookup_fmap, Hid'.
      * by rewrite list_lookup_fmap, Hid.
  - exists None. split; [done|]. intros id ch Hid. exfalso. apply Hr. apply get_at_Some in Hid as [_ Hid].
    apply list_elem_of_lookup. exists (Z.to_nat id). by rewrite list_lookup_fmap, Hid.
Qed.

(** An entry found, or none, against what was said of its key. *)
Definition found_as (t : MemTable) (wm : Z) (found : option Entry) (s : option say) : Prop :=
  match found, s with
  | Some e, Some s => has_tomb t e wm = Some (fst s) /\ exists offs, live_chain t e wm = Some (offs, fst s) /\ mapM (value_at t) offs = Some (snd s)
  | None, None => True
  | _, _ => False
  end.

Lemma found_chain t wm e ch : chain_is (vals t) (n_head e) ch -> found_as t wm (Some e) (Some (below wm ch)).
Proof.
  intros Hc. destruct (chain_reads t wm e ch Hc) as (Ht & offs & Hl & Hvs). split; [done|]. exists offs. split; [done|]. by apply mapM_Some.
Qed.

Lemma found_says t key upto wm found s : get_with t (mem_hash key) key upto = Some found -> found_as t wm found s ->
  table_says t (mem_hash key) key upto wm = Some s.
Proof.
  intros Hg Hf. unfold table_says. rewrite Hg. cbn [mbind option_bind]. destruct found as [e|], s as [[tb vs]|]; try done.
  destruct Hf as (_ & offs & Hl & Hvs). rewrite Hl. cbn [mbind option_bind]. rewrite Hvs. done.
Qed.

(** ** Commits *)

Inductive event := Write (o : write_op) | Commit.

Definition run_event (st : MemTable * Readers) (ev : event) : option (MemTable * Readers) :=
  match ev with Write o => run_op st o | Commit => let '(t, rd) := st in Some (commit t, rd) end.
(** The writes of a run, and those its last commit covers. *)
Definition note (hc : list write_op * list write_op) (ev : event) : list write_op * list write_op :=
  match ev with Write o => (fst hc ++ [o], snd hc) | Commit => (fst hc, fst hc) end.
Definition history (evs : list event) : list write_op * list write_op := fold_left note evs ([], []).
Definition ev_fits (ev : event) : Prop := match ev with Write o => op_fits o | Commit => True end.

(** Open every bind of a run that returned. *)
Ltac unbind :=
  repeat match goal with
  | H : None = Some _ |- _ => discriminate H
  | H : Some _ = Some _ |- _ => injection H as H; subst
  | H : (_, _) = (_, _) |- _ => injection H as H; subst
  | H : mbind _ ?m = Some _ |- _ => destruct m eqn:?; cbn [mbind option_bind] in H
  | H : (let '(_, _) := ?p in _) = Some _ |- _ => destruct p
  | H : (if ?b then _ else _) = Some _ |- _ => destruct b eqn:?
  | H : match ?o with Some _ => _ | None => _ end = Some _ |- _ => destruct o eqn:?
  end.

Section marks_kept.
Implicit Types t : MemTable.
Definition same_marks t t' : Prop := marks t' = marks t /\ mark t' = mark t.

Lemma push_chunk_marks t prev v off t' : push_chunk t prev v = Some (off, t') -> same_marks t t'.
Proof. unfold push_chunk. intros H. unbind. done. Qed.
Lemma push_tomb_marks t prev off t' : push_tomb t prev = Some (off, t') -> same_marks t t'.
Proof. unfold push_tomb. intros H. unbind. done. Qed.
Lemma new_entry_marks t hash key v id t' : new_entry t hash key v = Some (id, t') -> same_marks t t'.
Proof. unfold new_entry. intros H. unbind;
  match goal with H : push_chunk _ _ _ = _ |- _ => exact (push_chunk_marks _ _ _ _ _ H) | H : push_tomb _ _ = _ |- _ => exact (push_tomb_marks _ _ _ _ H) end.
Qed.
Lemma store_head_marks t id off n t' : store_head t id off n = Some t' -> same_marks t t'.
Proof. unfold store_head. intros H. unbind. done. Qed.
Lemma log_write_marks t id b t' : log_write t id b = Some t' -> same_marks t t'.
Proof. unfold log_write. intros H. unbind; done. Qed.
Lemma index_insert_marks t hash id rd t' rd' : index_insert t hash id rd = Some (t', rd') -> same_marks t t'.
Proof.
  unfold index_insert, rebuild_index, reclaim, bump, oldest_pinned. intros H. unbind; done.
Qed.
Lemma same_marks_trans t t1 t2 : same_marks t t1 -> same_marks t1 t2 -> same_marks t t2.
Proof. intros [H1 H2] [H3 H4]. split; congruence. Qed.

Lemma run_op_marks t rd o t' rd' : run_op (t, rd) o = Some (t', rd') -> same_marks t t'.
Proof.
  assert (forall key v, write_entry t (mem_hash key) key v rd = Some (t', rd') -> same_marks t t') as Hwrite.
  { intros key v. unfold write_entry. intros H. unbind;
    repeat match goal with
    | H : push_chunk _ _ _ = _ |- _ => apply push_chunk_marks in H
    | H : push_tomb _ _ = _ |- _ => apply push_tomb_marks in H
    | H : new_entry _ _ _ _ = _ |- _ => apply new_entry_marks in H
    | H : store_head _ _ _ _ = _ |- _ => apply store_head_marks in H
    | H : log_write _ _ _ = _ |- _ => apply log_write_marks in H
    | H : index_insert _ _ _ _ = _ |- _ => apply index_insert_marks in H
    end; eauto using same_marks_trans. }
  destruct o as [k v|k v|k]; cbn [run_op]; [apply Hwrite| |unfold delete; destruct (ordered t); [done|apply Hwrite]].
  unfold put. intros H. unbind;
    repeat match goal with
    | H : push_chunk _ _ _ = _ |- _ => apply push_chunk_marks in H
    | H : push_tomb _ _ = _ |- _ => apply push_tomb_marks in H
    | H : new_entry _ _ _ _ = _ |- _ => apply new_entry_marks in H
    | H : store_head _ _ _ _ = _ |- _ => apply store_head_marks in H
    | H : log_write _ _ _ = _ |- _ => apply log_write_marks in H
    | H : index_insert _ _ _ _ = _ |- _ => apply index_insert_marks in H
    end; eauto 6 using same_marks_trans.
Qed.
End marks_kept.

(** The entries at a commit, and those since: chains grown past its
    watermark. *)
Definition since (wm : Z) (g0 g : list (bytes * list chunk)) : Prop :=
  Zlen g0 <= Zlen g /\ forall id k ch0, get_at g0 id = Some (k, ch0) -> exists more, get_at g id = Some (k, more ++ ch0) /\
    Forall (fun c : chunk => wm <= fst c) more /\ Forall (fun c : chunk => fst c < wm) ch0.

Record tracks (t : MemTable) (w c : list write_op) : Prop := {
  k_now : exists g, represents t w g /\ exists g0, since (m_wm (committed_at t)) g0 g /\ m_len (committed_at t) = Zlen g0 /\
    (forall id k ch, get_at g0 id = Some (k, ch) -> said c k = Some (below SEE_ALL ch)) /\
    (forall k, k ∉ map fst g0 -> said c k = None);
  k_wm : m_wm (committed_at t) <= tail (vals t)
}.

Lemma chain_below a at_ ch : chain_is a at_ ch -> Forall (fun c : chunk => fst c < tail a) ch.
Proof.
  revert at_. induction ch as [|[off v] older IH]; intros at_; [constructor|]. cbn [chain_is].
  intros (_ & H1 & H2 & _ & _ & _ & prev & _ & _ & H3 & _). assert (0 <= vlen v) by (destruct v; cbn; [apply Zlen_nonneg|lia]).
  unfold CHUNK_HDR in *. constructor; [cbn; lia|by eapply IH].
Qed.

Lemma chain_small a at_ ch : chain_is a at_ ch -> Forall (fun c : chunk => fst c < SEE_ALL) ch.
Proof.
  revert at_. induction ch as [|[off v] older IH]; intros at_; [constructor|]. cbn [chain_is].
  intros (_ & H1 & _ & _ & _ & _ & prev & _ & _ & H3 & _). constructor; [cbn; unfold SEE_ALL, U64; lia|by eapply IH].
Qed.

Lemma below_more wm more ch : Forall (fun c : chunk => wm <= fst c) more -> below wm (more ++ ch) = below wm ch.
Proof. induction 1 as [|[off v] more Ho _ IH]; [done|]. cbn [app below]. cbn in Ho. by rewrite (proj2 (Z.leb_le _ _)). Qed.

Lemma below_same wm wm' ch : Forall (fun c : chunk => fst c < wm) ch -> Forall (fun c : chunk => fst c < wm') ch -> below wm ch = below wm' ch.
Proof.
  induction 1 as [|[off v] ch Ho _ IH]; intros H'; [done|]. inversion H' as [|? ? Ho' H'']; subst. cbn [below]. cbn in Ho, Ho'.
  rewrite !(proj2 (Z.leb_gt _ _)) by done. by rewrite IH.
Qed.

Lemma since_grown wm lo o g0 g g' : wm <= lo -> since wm g0 g -> NoDup (map fst g) -> grown lo o g g' -> since wm g0 g'.
Proof.
  intros Hlo [Hlen Hs] Hnd Hg. split.
  { destruct Hg; unfold Zlen in *; rewrite ?length_insert, ?length_app; lia. }
  intros id k ch0 Hid. destruct (Hs _ _ _ Hid) as (more & H1 & H2 & H3). destruct Hg as [id' ch ch' Hid' (_ & _ & more' & -> & Hm)|ch' Hnew _].
  - destruct (decide (id = id')) as [-> |Hne].
    + rewrite H1 in Hid'. injection Hid' as -> <-. exists (more' ++ more). rewrite <- app_assoc. split; [|split; [|done]].
      * pose proof (get_at_lt _ _ _ H1) as Hlt. apply get_at_Some in H1 as [Hp Hl]. apply get_at_Some. split; [done|].
        apply list_lookup_insert_eq. by eapply lookup_lt_Some.
      * apply Forall_app. split; [|done]. eapply Forall_impl; [exact Hm|]. intros x Hx. cbn in Hx. lia.
    + exists more. split; [|done]. apply get_at_Some in H1 as [Hp Hl]. apply get_at_Some in Hid' as [Hp' Hl'].
      apply get_at_Some. split; [done|]. rewrite list_lookup_insert_ne by lia. done.
  - exists more. split; [|done]. rewrite get_at_keep; [done|]. apply get_at_lt in H1. lia.
Qed.

Lemma committed_commit t : committed_at (commit t) = MkMark (log_len t) (len t) (tail (vals t)).
Proof. unfold committed_at, commit. cbn [marks mark set_marks]. apply mark_of_same. Qed.

Lemma represents_commit t h g : represents t h g -> represents (commit t) h g.
Proof. intros [[] Hi H1 H2]. split; [by split|exact Hi|done|done]. Qed.

Lemma tracks_event t rd w c ev t' rd' : tracks t w c -> ev_fits ev -> run_event (t, rd) ev = Some (t', rd') ->
  tracks t' (fst (note (w, c) ev)) (snd (note (w, c) ev)).
Proof.
  intros [(g & Hr & g0 & Hs & Hl & Hc1 & Hc2) Hwm] Hf Hrun. destruct ev as [o|]; cbn [note fst snd].
  - cbn [run_event] in Hrun. destruct (op_ok _ _ _ _ _ _ _ Hr Hf Hrun) as (g' & Hg & Hr' & Ht).
    pose proof (run_op_marks _ _ _ _ _ Hrun) as [Hm1 Hm2]. assert (committed_at t' = committed_at t) as Hm by (unfold committed_at; by rewrite Hm1, Hm2).
    split; [|rewrite Hm; lia]. exists g'. split; [done|]. exists g0. rewrite Hm. split; [|done].
    eapply since_grown; [exact Hwm|done|exact (b_nodup _ _ (r_base _ _ _ Hr))|done].
  - injection Hrun as <- <-. split; [|rewrite committed_commit; cbn; lia].
    exists g. split; [by apply represents_commit|]. exists g. rewrite committed_commit. cbn [m_wm m_len].
    destruct Hr as [Hb Hi H1 H2]. split; [|split; [apply (b_entries _ _ Hb)|done]]. split; [lia|].
    intros id k ch Hid. exists []. split; [done|]. split; [constructor|].
    destruct (b_entry _ _ Hb _ _ _ Hid) as (e & _ & _ & _ & _ & _ & _ & Hch & _). by eapply chain_below.
Qed.

Lemma tracks_run evs st w c t rd : tracks (fst st) w c -> Forall ev_fits evs -> ofold run_event evs st = Some (t, rd) ->
  tracks t (fst (fold_left note evs (w, c))) (snd (fold_left note evs (w, c))).
Proof.
  revert st w c. induction evs as [|ev evs IH]; intros [t0 rd0] w c Ht Hf Hrun.
  - by injection Hrun as -> ->.
  - inversion Hf; subst. cbn [ofold] in Hrun. destruct (run_event (t0, rd0) ev) as [[t1 rd1]|] eqn:E; [|done]. cbn [mbind option_bind] in Hrun.
    cbn [fold_left]. rewrite (surjective_pairing (note (w, c) ev)). eapply (IH (t1, rd1)); [|done|done]. by eapply tracks_event.
Qed.

Lemma tracks_new : tracks new [] [].
Proof.
  split; [|by apply Z.leb_le]. exists []. split; [apply represents_new|]. exists []. split; [split; [done|]|split; [done|split; [|done]]].
  - intros id k ch Hid%get_at_lt. change (0 <= id < 0) in Hid. lia.
  - intros id k ch Hid%get_at_lt. change (0 <= id < 0) in Hid. lia.
Qed.

Lemma below_tombless wm ch : tombless ch -> fst (below wm ch) = false.
Proof.
  induction 1 as [|[off v] ch Hv _ IH]; [done|]. cbn [below]. destruct (wm <=? off); [done|]. cbn in Hv. by destruct v.
Qed.

(** The writer's lookup of a key, and a reader's below the last commit. *)
Lemma tracks_finds t w c k : tracks t w c ->
  (exists found, get_with t (mem_hash k) k ALL = Some found /\ found_as t SEE_ALL found (said w k) /\
    forall e s, found = Some e -> said w k = Some s -> n_count e = Zlen (snd s)) /\
  exists found, get_with t (mem_hash k) k (m_len (committed_at t)) = Some found /\ found_as t (m_wm (committed_at t)) found (said c k).
Proof.
  intros [(g & [Hb Hi H1 H2] & g0 & [Hlen Hs] & Hl & Hc1 & Hc2) Hwm]. destruct (b_entries _ _ Hb) as (_ & _ & Hsmall). split.
  - destruct (table_finds t g k ALL Hb Hi) as (found & Hg & Hr). exists found. split; [done|]. destruct found as [e|].
    + destruct Hr as (id & ch & _ & Hid & Hch & Hn). rewrite (H1 _ _ _ Hid). split; [by apply found_chain|]. by intros e' s [= <-] [= <-].
    + rewrite (H2 k); [by split|]. intros (id & Hid)%list_elem_of_lookup. rewrite list_lookup_fmap in Hid.
      destruct (g !! id) as [[k' ch]|] eqn:E; [|done]. injection Hid as ->.
      assert (get_at g (Z.of_nat id) = Some (k, ch)) as Hg' by (by rewrite get_at_lookup).
      apply Hr in Hg' as Hge. apply get_at_lt in Hg'. unfold ALL, U64 in Hge. lia.
  - destruct (table_finds t g k (m_len (committed_at t)) Hb Hi) as (found & Hg & Hr). exists found. split; [done|]. rewrite Hl in Hr. destruct found as [e|].
    + destruct Hr as (id & ch & Hlt & Hid & Hch & _). pose proof (get_at_lt _ _ _ Hid). destruct (get_at_is_Some g0 id ltac:(lia)) as [[k' ch0] Hg0].
      destruct (Hs _ _ _ Hg0) as (more & Hm & Hmore & Hold). rewrite Hid in Hm. injection Hm as <- ->. rewrite (Hc1 _ _ _ Hg0).
      rewrite <- (below_same (m_wm (committed_at t)) SEE_ALL ch0); [rewrite <- (below_more (m_wm (committed_at t)) more ch0) by done; by apply found_chain|done|].
      by apply chain_small, Forall_app in Hch as [_ Hch].
    + rewrite (Hc2 k); [done|]. intros (id & Hid)%list_elem_of_lookup. rewrite list_lookup_fmap in Hid.
      destruct (g0 !! id) as [[k' ch0]|] eqn:E; [|done]. injection Hid as ->.
      assert (get_at g0 (Z.of_nat id) = Some (k, ch0)) as Hg' by (by rewrite get_at_lookup).
      destruct (Hs _ _ _ Hg') as (more & Hm & _). apply Hr in Hm. apply get_at_lt in Hg'. lia.
Qed.

(** Nothing said of a table with no entries; no older values ended by one
    with no tombstone. *)
Lemma tracks_empty t w c k : tracks t w c -> len t = 0 -> said w k = None /\ said c k = None.
Proof.
  intros [(g & [Hb _ _ H2] & g0 & [Hlen _] & _ & _ & Hc2) _] Hn. destruct (b_entries _ _ Hb) as (_ & Hg & _). rewrite Hn in Hg. symmetry in Hg.
  pose proof (Zlen_nonneg g0). assert (Zlen g0 = 0) as Hg0 by lia. apply Zlen_zero_nil in Hg, Hg0. subst. split; [apply H2|apply Hc2]; by apply not_elem_of_nil.
Qed.

Lemma tracks_tombless t w c k s : tracks t w c -> tombs t = 0 -> said w k = Some s \/ said c k = Some s -> fst s = false.
Proof.
  intros [(g & [Hb _ H1 H2] & g0 & [_ Hs] & _ & Hc1 & Hc2) _] Hn Hsaid.
  assert (exists ch, tombless ch /\ s = below SEE_ALL ch) as (ch & Hch & ->); [|by apply below_tombless]. destruct Hsaid as [Hw|Hc].
  - destruct (decide (k ∈ map fst g)) as [(id & Hid)%list_elem_of_lookup|Hno]; [|rewrite H2 in Hw; done]. rewrite list_lookup_fmap in Hid.
    destruct (g !! id) as [[k' ch]|] eqn:E; [|done]. injection Hid as ->. assert (get_at g (Z.of_nat id) = Some (k, ch)) as Hg by (by rewrite get_at_lookup).
    exists ch. rewrite (H1 _ _ _ Hg) in Hw. injection Hw as <-. split; [|done]. destruct (b_entry _ _ Hb _ _ _ Hg) as (e & _ & _ & _ & _ & _ & _ & _ & _ & Ht). auto.
  - destruct (decide (k ∈ map fst g0)) as [(id & Hid)%list_elem_of_lookup|Hno]; [|rewrite Hc2 in Hc; done]. rewrite list_lookup_fmap in Hid.
    destruct (g0 !! id) as [[k' ch]|] eqn:E; [|done]. injection Hid as ->. assert (get_at g0 (Z.of_nat id) = Some (k, ch)) as Hg by (by rewrite get_at_lookup).
    exists ch. rewrite (Hc1 _ _ _ Hg) in Hc. injection Hc as <-. split; [|done]. destruct (Hs _ _ _ Hg) as (more & Hm & _).
    destruct (b_entry _ _ Hb _ _ _ Hm) as (e & _ & _ & _ & _ & _ & _ & _ & _ & Ht). by specialize (Ht Hn) as [_ ?]%Forall_app.
Qed.

(** C8: A table is its writes. Whatever run of commits, and of appends, puts
    and deletes of keys shorter than 65,536 bytes and values shorter than the
    tombstone's length (two to the thirty-two, less one), a fresh table
    returned from -- a longer key is accepted and lost -- the writer's lookup of any key
    answers what the writes to it add up to -- the live values in order, and
    whether they end the older -- and a lookup bounded by the last commit's
    entry count and watermark answers the writes that commit covers, whatever
    was written since. *)
Theorem table_answers (evs : list event) (rd : Readers) (t : MemTable) (rd' : Readers) (k : bytes) :
  Forall ev_fits evs -> ofold run_event evs (new, rd) = Some (t, rd') ->
  table_says t (mem_hash k) k ALL SEE_ALL = Some (said (fst (history evs)) k) /\
  table_says t (mem_hash k) k (m_len (committed_at t)) (m_wm (committed_at t)) = Some (said (snd (history evs)) k).
Proof.
  intros Hf Hrun. destruct (tracks_finds t _ _ k (tracks_run evs (new, rd) [] [] t rd' tracks_new Hf Hrun)) as [(f1 & H1 & H2 & _) (f2 & H3 & H4)].
  split; by eapply found_says.
Qed.

(** Twelve keys, a commit, and writes after it. *)
Definition sample_events : list event :=
  map (fun i => Write (Append (le32 i) [x01])) (seqZ 0 12) ++
  [Write (Append (le32 7) [x02]); Commit; Write (Put (le32 7) [x03]); Write (Delete (le32 8)); Write (Append (le32 60) [x04])].

Lemma table_answers_witness : exists t rd, ofold run_event sample_events (new, new_readers false) = Some (t, rd) /\
  table_says t (mem_hash (le32 7)) (le32 7) ALL SEE_ALL = Some (Some (true, [[x03]])) /\
  table_says t (mem_hash (le32 7)) (le32 7) (m_len (committed_at t)) (m_wm (committed_at t)) = Some (Some (false, [[x01]; [x02]])).
Proof.
  assert (match ofold run_event sample_events (new, new_readers false) with Some _ => true | None => false end = true) as Hs
    by (vm_compute; reflexivity).
  destruct (ofold run_event sample_events (new, new_readers false)) as [[t rd]|] eqn:E; [|discriminate Hs].
  exists t, rd. split; [reflexivity|].
  assert (Forall ev_fits sample_events) as Hf.
  { apply Forall_app. split; [|repeat constructor]. apply Forall_map, Forall_forall. intros i _. split; done. }
  destruct (table_answers sample_events (new_readers false) t rd (le32 7) Hf E) as [H1 H2].
  rewrite H1, H2. split; vm_compute; reflexivity.
Defined.
