(* ===== verification/MemTotal.v ===== *)
(** * When the memtable's writes go through, and when they do not

    A run of writes returns, and does not panic, as long as the arenas, the
    slabs and the entries' fields hold it: keys of one to 65,535 bytes, values
    of one byte to a block less a header, and the sums within the arenas. Past
    those bounds: a key whose length an entry does not hold is never found
    again and its entry shows another key; a value of nothing at a block's end
    panics. *)

From S2P Require Import Prelude.
From S2P Require Import HashTable.
From S2P Require Import Epochs.
From S2P Require Import Arena.
From S2P Require Import MemTable.
From S2P Require Import MemIndex.
From S2P Require Import MemHolds.
#[local] Open Scope Z_scope.

(** ** Room *)

(** Bytes of chunks and of keys a write takes at most. *)
Definition chunk_bytes (o : write_op) : Z :=
  match o with Append _ v => CHUNK_HDR + Zlen v | Put _ v => 2 * CHUNK_HDR + Zlen v | Delete _ => CHUNK_HDR end.
Definition key_bytes (o : write_op) : Z := Zlen (op_key o).

Definition op_small (o : write_op) : Prop :=
  0 < Zlen (op_key o) < U16 /\ match o with Append _ v | Put _ v => 0 < Zlen v /\ CHUNK_HDR + Zlen v <= 2 ^ ARENA_SHIFT | Delete _ => True end.

Definition VAL_ROOM : Z := (ARENA_BLOCKS - 1) * 2 ^ ARENA_SHIFT.

(** What is left of a table for [v] bytes of chunks, [k] of keys, [n] writes. *)
Definition room (t : MemTable) (v k n : Z) : Prop :=
  plain (vals t) /\ plain (keys t) /\ 0 <= v /\ 0 <= k /\ 0 <= n /\ 2 * (a_used (vals t) + v) <= VAL_ROOM /\ 2 * (a_used (keys t) + k) < U32 /\
  s_len (log t) + n <= 2 ^ 28 /\ len t + n <= 2 ^ 28.

Lemma write_in a off l : is_Some (block a off (Zlen l)) -> exists a', write a off l = Some a'.
Proof. intros [[[b p] w] Hb]. unfold write. rewrite Hb. cbn [mbind option_bind]. eauto. Qed.

Lemma write_plain a off l a' : plain a -> write a off l = Some a' -> plain a' /\ a_used a' = a_used a /\ a_shift a' = a_shift a.
Proof.
  intros Hp Hw. split; [by eapply plain_write|]. by destruct (write_frame _ _ _ _ Hw) as (_ & ? & ?).
Qed.

(** A chunk, or a tombstone, where there is room for one. *)
Lemma push_chunk_total t prev v : sized (vals t) -> plain (vals t) -> 0 < Zlen v -> CHUNK_HDR + Zlen v <= 2 ^ ARENA_SHIFT ->
  2 * (a_used (vals t) + (CHUNK_HDR + Zlen v)) <= VAL_ROOM ->
  exists off a, push_chunk t prev v = Some (off, set_vals t a) /\ plain a /\ a_used a = a_used (vals t) + (CHUNK_HDR + Zlen v).
Proof.
  intros [Ha Hs] Hp Hv Hfit Hroom. assert (size (vals t) = 2 ^ ARENA_SHIFT) as Hsize by (unfold size; by rewrite Hs).
  destruct (reserve_plain (vals t) (CHUNK_HDR + Zlen v) Hp) as (off & a0 & Hr & Hp0 & _ & Hin).
  { rewrite Hsize. unfold CHUNK_HDR in *. lia. } { rewrite Hsize. exact Hroom. }
  assert (a_used a0 = a_used (vals t) + (CHUNK_HDR + Zlen v)) as Hu0.
  { apply (reserve_keeps (vals t) (CHUNK_HDR + Zlen v) off a0 Ha); [unfold CHUNK_HDR; lia|done]. }
  unfold CHUNK_HDR in *. unfold push_chunk, CHUNK_HDR. rewrite Hr. cbn [mbind option_bind].
  destruct (write_in a0 off (le64 prev)) as [a1 Hw1]; [apply Hin; rewrite ?Zlen_le64; lia|]. rewrite Hw1. cbn [mbind option_bind].
  pose proof (k_shift _ (p_ok _ Hp0)) as Hsh0. destruct (write_plain _ _ _ _ Hp0 Hw1) as (Hp1 & Hu1 & Hs1).
  destruct (write_in a1 (off + 8) (le32 (Zlen v))) as [a2 Hw2].
  { eapply write_blocks; [exact Hsh0|exact Hw1|]. apply Hin; rewrite ?Zlen_le32; lia. }
  rewrite Hw2. cbn [mbind option_bind]. destruct (write_plain _ _ _ _ Hp1 Hw2) as (Hp2 & Hu2 & Hs2).
  destruct (write_in a2 (off + 12) v) as [a3 Hw3].
  { eapply write_blocks; [|exact Hw2|]; [lia|]. eapply write_blocks; [exact Hsh0|exact Hw1|]. apply Hin; lia. }
  rewrite Hw3. cbn [mbind option_bind]. destruct (write_plain _ _ _ _ Hp2 Hw3) as (Hp3 & Hu3 & Hs3).
  exists off, a3. split; [done|]. split; [done|]. lia.
Qed.

Lemma push_tomb_total t prev : sized (vals t) -> plain (vals t) -> 2 * (a_used (vals t) + CHUNK_HDR) <= VAL_ROOM ->
  exists off a n, push_tomb t prev = Some (off, set_tombs (set_vals t a) n) /\ plain a /\ a_used a = a_used (vals t) + CHUNK_HDR.
Proof.
  intros [Ha Hs] Hp Hroom. assert (size (vals t) = 2 ^ ARENA_SHIFT) as Hsize by (unfold size; by rewrite Hs).
  destruct (reserve_plain (vals t) CHUNK_HDR Hp) as (off & a0 & Hr & Hp0 & _ & Hin).
  { rewrite Hsize. unfold CHUNK_HDR, ARENA_SHIFT in *. lia. } { rewrite Hsize. exact Hroom. }
  assert (a_used a0 = a_used (vals t) + CHUNK_HDR) as Hu0.
  { apply (reserve_keeps (vals t) CHUNK_HDR off a0 Ha); [unfold CHUNK_HDR; lia|done]. }
  unfold CHUNK_HDR in *. unfold push_tomb, CHUNK_HDR. rewrite Hr. cbn [mbind option_bind].
  destruct (write_in a0 off (le64 prev)) as [a1 Hw1]; [apply Hin; rewrite ?Zlen_le64; lia|]. rewrite Hw1. cbn [mbind option_bind].
  pose proof (k_shift _ (p_ok _ Hp0)) as Hsh0. destruct (write_plain _ _ _ _ Hp0 Hw1) as (Hp1 & Hu1 & Hs1).
  destruct (write_in a1 (off + 8) (le32 TOMB_LEN)) as [a2 Hw2].
  { eapply write_blocks; [exact Hsh0|exact Hw1|]. apply Hin; rewrite ?Zlen_le32; lia. }
  rewrite Hw2. cbn [mbind option_bind]. destruct (write_plain _ _ _ _ Hp1 Hw2) as (Hp2 & Hu2 & Hs2).
  eexists off, a2, _. split; [reflexivity|]. split; [done|]. lia.
Qed.

(** A key's copy. *)
Lemma key_total a key : sized a -> plain a -> 0 < Zlen key <= 2 ^ ARENA_SHIFT -> 2 * (a_used a + Zlen key) < U32 ->
  exists off a0 a1, reserve a (Zlen key) = Some (off, a0) /\ write a0 off key = Some a1 /\ off < U32 /\ plain a1 /\
    a_used a1 = a_used a + Zlen key.
Proof.
  intros [Ha Hs] Hp Hk Hroom. assert (size a = 2 ^ ARENA_SHIFT) as Hsize by (unfold size; by rewrite Hs).
  destruct (reserve_plain a (Zlen key) Hp) as (off & a0 & Hr & Hp0 & Hoff & Hin).
  { rewrite Hsize. lia. } { rewrite Hsize. unfold ARENA_BLOCKS, ARENA_SHIFT, U32 in *. lia. }
  destruct (reserve_keeps a (Zlen key) off a0 Ha ltac:(lia) Hr) as (_ & _ & _ & Hu0 & _).
  destruct (write_in a0 off key) as [a1 Hw1]; [apply Hin; lia|].
  destruct (write_plain _ _ _ _ Hp0 Hw1) as (Hp1 & Hu1 & _). exists off, a0, a1. repeat (split; [done|]).
  split; [unfold U32 in *; lia|]. split; [done|]. lia.
Qed.

(** ** Every write returns *)

Lemma log_write_total t g id b : base t g -> s_len (log t) < 2 ^ 28 ->
  exists l, log_write t id b = Some (set_log t l) /\ s_len l = s_len (log t) + 1.
Proof.
  intros Hb Hl. unfold log_write. rewrite (proj2 (b_hashed _ _ Hb)), push_ok by (done || apply (b_log _ _ Hb)).
  cbn [mbind option_bind]. eexists. split; [reflexivity|]. done.
Qed.

Lemma store_head_total t g id x off n : base t g -> get_at g id = Some x ->
  exists es, store_head t id off n = Some (set_entries t es) /\ s_len es = s_len (entries t).
Proof.
  intros Hb Hid. destruct x as [k ch]. destruct (b_entry _ _ Hb _ _ _ Hid) as (e & He & _). unfold store_head. rewrite He.
  cbn [mbind option_bind]. eexists. split; [reflexivity|]. done.
Qed.

(** Either push. *)
Lemma push_total t g prev v : base t g -> plain (vals t) -> (forall x, v = Some x -> 0 < Zlen x /\ CHUNK_HDR + Zlen x <= 2 ^ ARENA_SHIFT) ->
  2 * (a_used (vals t) + (CHUNK_HDR + vlen v)) <= VAL_ROOM ->
  exists off a n, (match v with Some v => push_chunk t prev v | None => push_tomb t prev end) = Some (off, set_tombs (set_vals t a) n) /\
    plain a /\ a_used a = a_used (vals t) + (CHUNK_HDR + vlen v).
Proof.
  intros Hb Hp Hv Hroom. destruct v as [v|]; cbn [vlen] in *.
  - destruct (Hv v eq_refl). destruct (push_chunk_total t prev v (b_vals _ _ Hb) Hp) as (off & a & H1 & H2 & H3); try done.
    exists off, a, (tombs t). done.
  - rewrite Z.add_0_r in *. apply push_tomb_total; try done. apply (b_vals _ _ Hb).
Qed.

Lemma new_entry_total t g key v : base t g -> plain (vals t) -> plain (keys t) -> 0 < Zlen key <= 2 ^ ARENA_SHIFT ->
  (forall x, v = Some x -> 0 < Zlen x /\ CHUNK_HDR + Zlen x <= 2 ^ ARENA_SHIFT) ->
  2 * (a_used (vals t) + (CHUNK_HDR + vlen v)) <= VAL_ROOM -> 2 * (a_used (keys t) + Zlen key) < U32 -> len t < 2 ^ 28 ->
  exists id t1, new_entry t (mem_hash key) key v = Some (id, t1) /\ plain (vals t1) /\ plain (keys t1) /\
    a_used (vals t1) = a_used (vals t) + (CHUNK_HDR + vlen v) /\ a_used (keys t1) = a_used (keys t) + Zlen key /\
    log t1 = log t /\ len t1 = len t + 1 /\ index t1 = index t /\ log_range t1 = log_range t /\ id = len t /\
    slab_ok (entries t1) /\ hashes t1 = hashes t ++ [Z.shiftr (mem_hash key) 32].
Proof.
  intros Hb Hpv Hpk Hk Hv Hrv Hrk Hl. destruct (push_total t g NO_CHUNK v Hb Hpv Hv Hrv) as (off & a & n & Hpush & Hpa & Hua).
  unfold new_entry. rewrite Hpush. cbn [mbind option_bind keys set_tombs set_vals entries].
  destruct (key_total (keys t) key (b_keys _ _ Hb) Hpk Hk Hrk) as (koff & k0 & k1 & Hr & Hw & Hku & Hpk1 & Huk).
  rewrite Hr. cbn [mbind option_bind]. rewrite Hw. cbn [mbind option_bind]. rewrite (proj2 (Z.leb_gt _ _)) by done.
  rewrite push_ok by (try exact Hl; apply (b_entries _ _ Hb)). cbn [mbind option_bind].
  eexists _, _. split; [reflexivity|]. repeat (split; [done|]). split; [apply slab_push_ok, (b_entries _ _ Hb)|].
  unfold hashes. cbn. by rewrite map_app.
Qed.

Lemma key_in_block (key : bytes) : 0 < Zlen key < U16 -> 0 < Zlen key <= 2 ^ ARENA_SHIFT.
Proof. unfold U16, ARENA_SHIFT. lia. Qed.

(** An entry's insertion into the index. *)
Lemma inserted t0 t g k ch rd : base t (g ++ [(k, ch)]) -> indexed t0 (Zlen g) -> index t = index t0 ->
  hashes t = hashes t0 ++ [Z.shiftr (mem_hash k) 32] -> Zlen (hashes t0) = Zlen g ->
  exists ix r rd', index_insert t (mem_hash k) (Zlen g) rd = Some (set_index t (Some ix) r, rd').
Proof.
  intros Hb (j & ix & Hj & Hix & Hload & Hf) Ei Eh Hl. pose proof (base_keyed _ _ Hb) as Hk.
  destruct (b_entries _ _ Hb) as (Hslab & Hlen & Hsmall). rewrite Zlen_app in Hlen. change (Zlen [(k, ch)]) with 1 in Hlen.
  assert (halves (hashes t)) as Hhs by (apply (keyed_halves _ _ Hk); by rewrite Zlen_map).
  destruct (index_insert_ok t (mem_hash k) (Zlen g) rd Hslab Hhs (mem_hash_range k) Hlen) as (ix1 & r & rd' & He & _); [| |eauto].
  - rewrite Eh. rewrite get_at_skip, Hl, Z.sub_diag by lia. by apply get_at_here.
  - exists j, ix. rewrite Ei, Eh. split; [done|]. split; [done|]. split; [done|]. apply filled_more; [done|lia].
Qed.

Lemma put_total t h g key v rd v' k' n : represents t h g -> op_small (Put key v) ->
  room t (chunk_bytes (Put key v) + v') (Zlen key + k') (1 + n) -> 0 <= v' -> 0 <= k' -> 0 <= n ->
  exists t' rd', put t (mem_hash key) key v rd = Some (t', rd') /\ room t' v' k' n.
Proof.
  intros [Hb Hix _ _] [Hkl [Hv0 Hv]] (Hpv & Hpk & _ & _ & _ & Hrv & Hrk & Hrl & Hre) Hv' Hk' Hn'. cbn [op_key chunk_bytes] in *.
  pose proof (base_keyed _ _ Hb) as Hk. destruct (b_entries _ _ Hb) as (Hslab & Hlen & Hsmall).
  assert (0 < CHUNK_HDR) as Hhdr by done. assert (Zlen v < TOMB_LEN) as Hvt by (unfold CHUNK_HDR, ARENA_SHIFT, TOMB_LEN, U32 in *; lia).
  unfold put. rewrite (proj1 (b_hashed _ _ Hb)).
  destruct (probe_exact t (map fst g) key Hk) as (r & Hpr & Hr); [by rewrite Zlen_map|by rewrite Zlen_map|].
  rewrite Hpr. cbn [mbind option_bind]. destruct r as [id|].
  - destruct (entry_key _ _ _ _ Hb Hr) as (ch & e & Hid & He & Hc & Hne & Hcount & Ht). rewrite He. cbn [mbind option_bind].
    destruct (push_total t g (chain_head e) None Hb Hpv) as (off1 & a1 & n1 & Hp1 & Hpa1 & Hu1); [done|cbn [vlen]; lia|].
    cbn [vlen] in *. rewrite Hp1. cbn [mbind option_bind].
    destruct (chunk_pushed t g _ None _ _ _ Hb ltac:(done) Hc Hp1) as (Hb1 & Hc1 & _).
    destruct (push_total _ g off1 (Some v) Hb1 Hpa1) as (off2 & a2 & n2 & Hp2 & Hpa2 & Hu2); [by intros x [= <-]|cbn [vals set_tombs set_vals vlen]; lia|].
    cbn [vlen] in *. rewrite Hp2. cbn [mbind option_bind].
    destruct (chunk_pushed _ g _ (Some v) _ _ _ Hb1 Hvt Hc1 Hp2) as (Hb2 & Hc2 & _).
    destruct (store_head_total _ g id _ off2 1 Hb2 Hid) as (es & Hst & Hes). rewrite Hst. cbn [mbind option_bind].
    unfold log_write. cbn [log_range set_entries set_tombs set_vals log]. rewrite (proj2 (b_hashed _ _ Hb)).
    rewrite push_ok by (try apply (b_log _ _ Hb); lia). cbn [mbind option_bind].
    eexists _, _. split; [reflexivity|]. cbn [vals set_tombs set_vals] in *. unfold room, len in *.
    split; [exact Hpa2|]. split; [exact Hpk|]. cbn in *. lia.
  - destruct (new_entry_total t g key None Hb Hpv Hpk (key_in_block _ Hkl)) as (id & t1 & Hne & Hpv1 & Hpk1 & Huv1 & Huk1 & Hlog1 & Hlen1 & _);
      [done|cbn [vlen]; lia|lia|lia|]. cbn [vlen] in *. rewrite Hne. cbn [mbind option_bind].
    destruct (new_entry_ok t g key None id t1 Hb Hr ltac:(lia) ltac:(done) Hne) as (-> & (off1 & Hoff1 & Hb1) & Hh1 & Hi1).
    assert (get_at (g ++ [(key, [(off1, @None bytes)])]) (Zlen g) = Some (key, [(off1, None)])) as Hlast.
    { rewrite get_at_skip, Z.sub_diag by lia. by apply get_at_here. }
    destruct (b_entry _ _ Hb1 _ _ _ Hlast) as (e & He & _ & _ & _ & _ & _ & Hc1 & _ & Htomb1).
    rewrite He. cbn [mbind option_bind].
    destruct (push_total t1 _ (chain_head e) (Some v) Hb1 Hpv1) as (off2 & a2 & n2 & Hp2 & Hpa2 & Hu2); [by intros x [= <-]|cbn [vlen]; lia|].
    cbn [vlen] in *. rewrite Hp2. cbn [mbind option_bind].
    destruct (chunk_pushed t1 _ _ (Some v) _ _ _ Hb1 Hvt Hc1 Hp2) as (Hb2 & Hc2 & _ & Hoff2 & _ & _ & Htomb2).
    destruct (store_head_total _ _ (Zlen g) _ off2 1 Hb2 Hlast) as (es & Hst & Hes). rewrite Hst. cbn [mbind option_bind].
    destruct (base_store _ _ (Zlen g) key [(off1, None)] off2 [(off2, Some v); (off1, None)] 1
      (set_entries (set_tombs (set_vals t1 a2) n2) es) Hb2 Hlast Hc2) as (Hb3 & Hh3 & _ & _); [..|exact Hst|].
    { done. } { rewrite !below_chunk by lia. done. }
    { intros H0. apply Htomb2 in H0. specialize (Htomb1 H0). inversion Htomb1 as [|? ? Hx]. by destruct Hx. }
    rewrite insert_last in Hb3.
    destruct (inserted t (set_entries (set_tombs (set_vals t1 a2) n2) es) g key [(off2, Some v); (off1, None)] rd Hb3 Hix) as (ix & r & rd' & Hins).
    { done. } { by rewrite Hh3. } { rewrite (keyed_len _ _ Hk). by rewrite Zlen_map. }
    rewrite Hins. cbn [mbind option_bind]. unfold log_write. cbn [log_range set_index set_entries set_tombs set_vals log].
    rewrite (proj2 (b_hashed _ _ Hb1)), push_ok by (try apply (b_log _ _ Hb1); rewrite Hlog1; lia). cbn [mbind option_bind].
    eexists _, _. split; [reflexivity|]. cbn [vals set_tombs set_vals] in *. unfold room, len in *.
    split; [exact Hpa2|]. split; [exact Hpk1|]. cbn in *. rewrite Hlog1. lia.
Qed.

Lemma write_entry_total t h g key v rd c v' k' n : represents t h g -> 0 < Zlen key < U16 ->
  (forall x, v = Some x -> 0 < Zlen x /\ CHUNK_HDR + Zlen x <= 2 ^ ARENA_SHIFT) -> CHUNK_HDR + vlen v <= c ->
  room t (c + v') (Zlen key + k') (1 + n) -> 0 <= v' -> 0 <= k' -> 0 <= n ->
  exists t' rd', write_entry t (mem_hash key) key v rd = Some (t', rd') /\ room t' v' k' n.
Proof.
  intros [Hb Hix _ _] Hkl Hv Hcost (Hpv & Hpk & _ & _ & _ & Hrv & Hrk & Hrl & Hre) Hv' Hk' Hn'.
  pose proof (base_keyed _ _ Hb) as Hk. destruct (b_entries _ _ Hb) as (Hslab & Hlen & Hsmall).
  assert (value_fits v) as Hvt.
  { unfold value_fits. destruct v as [x|]; [|done]. destruct (Hv x eq_refl). cbn. unfold CHUNK_HDR, ARENA_SHIFT, TOMB_LEN, U32 in *. lia. }
  unfold write_entry. rewrite (proj1 (b_hashed _ _ Hb)).
  destruct (probe_exact t (map fst g) key Hk) as (r & Hpr & Hr); [by rewrite Zlen_map|by rewrite Zlen_map|].
  rewrite Hpr. cbn [mbind option_bind]. destruct r as [id|].
  - destruct (entry_key _ _ _ _ Hb Hr) as (ch & e & Hid & He & Hc & _). rewrite He. cbn [mbind option_bind].
    destruct (push_total t g (chain_head e) v Hb Hpv Hv) as (off & a & n1 & Hp1 & Hpa & Hu); [lia|]. rewrite Hp1. cbn [mbind option_bind].
    destruct (chunk_pushed t g _ v _ _ _ Hb Hvt Hc Hp1) as (Hb1 & Hc1 & _).
    destruct (store_head_total _ g id _ off (match v with Some _ => w32 (e_count e + 1) | None => 0 end) Hb1 Hid) as (es & Hst & Hes). rewrite Hst. cbn [mbind option_bind].
    unfold log_write. cbn [log_range set_entries set_tombs set_vals log]. rewrite (proj2 (b_hashed _ _ Hb)).
    rewrite push_ok by (try apply (b_log _ _ Hb); lia). cbn [mbind option_bind].
    eexists _, _. split; [reflexivity|]. cbn [vals set_tombs set_vals] in *. unfold room, len in *.
    split; [exact Hpa|]. split; [exact Hpk|]. cbn in *. lia.
  - destruct (new_entry_total t g key v Hb Hpv Hpk (key_in_block _ Hkl) Hv) as (id & t1 & Hne & Hpv1 & Hpk1 & Huv1 & Huk1 & Hlog1 & Hlen1 & _);
      [lia|lia|lia|]. rewrite Hne. cbn [mbind option_bind].
    destruct (new_entry_ok t g key v id t1 Hb Hr ltac:(lia) Hvt Hne) as (-> & (off1 & Hoff1 & Hb1) & Hh1 & Hi1).
    destruct (inserted t t1 g key [(off1, v)] rd Hb1 Hix Hi1 Hh1) as (ix & r & rd' & Hins).
    { rewrite (keyed_len _ _ Hk). by rewrite Zlen_map. }
    rewrite Hins. cbn [mbind option_bind]. unfold log_write. cbn [log_range set_index log].
    rewrite (proj2 (b_hashed _ _ Hb1)), push_ok by (try apply (b_log _ _ Hb1); rewrite Hlog1; lia). cbn [mbind option_bind].
    eexists _, _. split; [reflexivity|]. unfold room, len in *.
    split; [exact Hpv1|]. split; [exact Hpk1|]. cbn. rewrite Hlog1. lia.
Qed.

Lemma op_total t h g o rd v' k' n : represents t h g -> op_small o -> room t (chunk_bytes o + v') (key_bytes o + k') (1 + n) ->
  0 <= v' -> 0 <= k' -> 0 <= n -> exists t' rd', run_op (t, rd) o = Some (t', rd') /\ room t' v' k' n.
Proof.
  intros Hr Hs Hroom Hv' Hk' Hn. destruct o as [k v|k v|k]; cbn [run_op chunk_bytes] in *.
  - destruct Hs as [Hk Hv]. apply (write_entry_total t h g k (Some v) rd (CHUNK_HDR + Zlen v)); try done. by intros x [= <-].
  - by eapply put_total.
  - destruct Hs as [Hk _]. unfold delete. rewrite (proj1 (b_hashed _ _ (r_base _ _ _ Hr))).
    apply (write_entry_total t h g k None rd CHUNK_HDR); done.
Qed.

Definition total (f : write_op -> Z) (evs : list event) : Z :=
  fold_right (fun ev n => match ev with Write o => f o | Commit => 0 end + n) 0 evs.

Lemma total_nonneg f evs : (forall o, 0 <= f o) -> 0 <= total f evs.
Proof. intros Hf. unfold total. induction evs as [|[o|] evs IH]; cbn [fold_right]; [lia|specialize (Hf o); lia|lia]. Qed.

Lemma small_fits o : op_small o -> op_fits o.
Proof.
  intros [Hk Hv]. split; [lia|]. destruct o as [k v|k v|k]; try done; destruct Hv as [_ Hv]; unfold CHUNK_HDR, ARENA_SHIFT, TOMB_LEN, U32 in *; lia.
Qed.

Definition ev_small (ev : event) : Prop := match ev with Write o => op_small o | Commit => True end.

Lemma run_returns (evs : list event) (rd : Readers) :
  Forall ev_small evs -> 2 * total chunk_bytes evs <= VAL_ROOM -> 2 * total key_bytes evs < U32 ->
  total (fun _ => 1) evs <= 2 ^ 28 ->
  exists t rd', ofold run_event evs (new, rd) = Some (t, rd').
Proof.
  intros Hs Hv Hk Hn.
  assert (forall t h g rd, represents t h g -> room t (total chunk_bytes evs) (total key_bytes evs) (total (fun _ => 1) evs) ->
    exists t' rd', ofold run_event evs (t, rd) = Some (t', rd')) as Hgen.
  { clear Hv Hk Hn. induction Hs as [|ev evs Hev Hs IH]; intros t h g rd0 Hr Hroom; [cbn; eauto|]. cbn [ofold]. destruct ev as [o|]; cbn [run_event total fold_right] in *.
    - fold (total chunk_bytes evs) (total key_bytes evs) (total (fun _ => 1) evs) in *.
      destruct (op_total t h g o rd0 (total chunk_bytes evs) (total key_bytes evs) (total (fun _ => 1) evs)) as (t' & rd' & Hrun & Hroom'); try done.
      { apply total_nonneg. intros [k v|k v|k]; cbn; unfold CHUNK_HDR; try pose proof (Zlen_nonneg v); lia. }
      { apply total_nonneg. intros. apply Zlen_nonneg. } { apply total_nonneg. lia. }
      rewrite Hrun. cbn [mbind option_bind]. destruct (op_ok _ _ _ _ _ _ _ Hr (small_fits _ Hev) Hrun) as (g' & _ & Hr' & _).
      by eapply IH.
    - cbn [mbind option_bind]. apply (IH (commit t) h g); [by apply represents_commit|]. exact Hroom. }
  apply (Hgen new [] [] rd represents_new).
  assert (plain new_arena) as Hp by (apply plain_new; unfold ARENA_SHIFT; lia).
  split; [exact Hp|]. split; [exact Hp|].
  assert (0 <= total chunk_bytes evs). { apply total_nonneg. intros [k v|k v|k]; cbn; unfold CHUNK_HDR; try pose proof (Zlen_nonneg v); lia. }
  assert (0 <= total key_bytes evs). { apply total_nonneg. intros. apply Zlen_nonneg. }
  assert (0 <= total (fun _ => 1) evs). { apply total_nonneg. lia. }
  cbn. unfold VAL_ROOM in *. lia.
Qed.

(** C10: Every run returns. From a fresh table, any run of writes and commits
    whose keys are of one to 65,535 bytes and whose values are of one byte to a
    block less a header -- 2^28 writes, half of four gigabytes of keys and
    half of the arena's chunks in all -- returns: no reservation, slab, probe,
    rebuild or store of it panics or loops. *)
Theorem writes_return (evs : list event) (rd : Readers) :
  Forall ev_small evs -> 2 * total chunk_bytes evs <= VAL_ROOM -> 2 * total key_bytes evs < U32 ->
  total (fun _ => 1) evs <= 2 ^ 28 ->
  exists t rd', ofold run_event evs (new, rd) = Some (t, rd').
Proof. exact (run_returns evs rd). Qed.

(** ** What does not go through *)

Lemma push_arena_ok t prev v off t' : arena_ok (vals t) -> push_chunk t prev v = Some (off, t') -> arena_ok (vals t').
Proof.
  intros A. unfold push_chunk. pose proof (Zlen_nonneg v) as Hv. destruct (reserve (vals t) _) as [[o a0]|] eqn:Hr; [|done].
  cbn [mbind option_bind]. destruct (write a0 _ _) as [a1|] eqn:E1; [|done]. cbn [mbind option_bind].
  destruct (write a1 _ _) as [a2|] eqn:E2; [|done]. cbn [mbind option_bind].
  destruct (write a2 _ _) as [a3|] eqn:E3; [|done]. cbn [mbind option_bind]. intros [= <- <-].
  destruct (reserve_keeps (vals t) (CHUNK_HDR + Zlen v) o a0 A ltac:(unfold CHUNK_HDR; lia) Hr) as (A0 & _).
  pose proof (write_ok _ _ _ _ (k_shift _ A0) E1 A0) as A1. pose proof (write_ok _ _ _ _ (k_shift _ A1) E2 A1) as A2.
  exact (write_ok _ _ _ _ (k_shift _ A2) E3 A2).
Qed.

Lemma write_entry_push t hash key v rd : ordered t = false ->
  (forall prev, (match v with Some v => push_chunk t prev v | None => push_tomb t prev end) = None) -> write_entry t hash key v rd = None.
Proof.
  intros Ho Hp. unfold write_entry. rewrite Ho. destruct (probe t hash key) as [[id|]|]; [| |done]; cbn [mbind option_bind].
  - destruct (fat t id); [|done]. cbn [mbind option_bind]. by rewrite Hp.
  - unfold new_entry. by rewrite Hp.
Qed.

(** The next twelve bytes reserved of the arena end its last block. *)
Definition header_ends_block (a : ByteArena) : Prop :=
  0 < tail a /\ tail a + CHUNK_HDR = t_next_block (a_tail a) * size a /\
  t_block_end (a_tail a) = t_next_block (a_tail a) * size a.

(** A value of nothing whose header ends the value arena's block panics:
    the write of its no bytes asks for the block after, which is not there. *)
Theorem empty_value_panics (t : MemTable) (hash : Z) (key : bytes) (rd : Readers) :
  ordered t = false -> arena_ok (vals t) -> header_ends_block (vals t) ->
  append t hash key [] rd = None.
Proof.
  intros Ho A (Hpos & Hat & Hend). apply write_entry_push; [done|]. intros prev. unfold push_chunk. rewrite Zlen_nil, Z.add_0_r.
  unfold CHUNK_HDR in *. unfold tail in *.
  rewrite reserve_room by (rewrite ?Hend; lia).
  cbn [mbind option_bind]. set (a0 := MkArena _ _ _ _).
  assert (arena_ok a0) as A0 by (destruct A; split; cbn; try done; lia). pose proof (k_shift _ A0) as Hs0.
  destruct (write a0 _ _) as [a1|] eqn:E1; [|done]. cbn [mbind option_bind].
  destruct (write a1 _ _) as [a2|] eqn:E2; [|done]. cbn [mbind option_bind].
  destruct (write_frame _ _ _ _ E1) as (T1 & _ & S1). destruct (write_frame _ _ _ _ E2) as (T2 & _ & S2).
  pose proof (write_ok _ _ _ _ Hs0 E1 A0) as A1. pose proof (write_ok _ _ _ _ (k_shift _ A1) E2 A1) as A2.
  unfold write. rewrite block_past; [done|done|]. rewrite T2, T1. unfold size. rewrite S2, S1. unfold a0. cbn [a_tail a_shift t_next_block]. unfold size, tail in *. lia.
Qed.

(** A value whose chunk is given a block of its own, larger than the
    arena's, with room for a header in what rounds it up. *)
Definition leaves_room (a : ByteArena) (v : bytes) : Prop :=
  size a <= CHUNK_HDR + Zlen v /\ t_block_end (a_tail a) < tail a + (CHUNK_HDR + Zlen v) /\
  CHUNK_HDR + Zlen v + CHUNK_HDR <= Z.land (CHUNK_HDR + Zlen v + 63) (Z.lnot 63).

(** After a value whose chunk is more than a block -- four megabytes --
    and leaves twelve bytes or more of its rounding to sixty-four, every delete
    panics: the tombstone is placed in what is left, at an offset of a block
    that is not there. *)
Theorem oversized_value_panics (t : MemTable) (prev off : Z) (v : bytes) (t' : MemTable) (hash : Z) (key : bytes) (rd : Readers) :
  ordered t = false -> arena_ok (vals t) -> leaves_room (vals t) v ->
  push_chunk t prev v = Some (off, t') -> delete t' hash key rd = None.
Proof.
  intros Ho A (Hbig & Hfull & Hslack) Hpush. revert Hpush. unfold push_chunk. destruct (reserve (vals t) _) as [[o a0]|] eqn:Hr; [|done].
  cbn [mbind option_bind]. destruct (write a0 _ _) as [a1|] eqn:E1; [|done]. cbn [mbind option_bind].
  destruct (write a1 _ _) as [a2|] eqn:E2; [|done]. cbn [mbind option_bind].
  destruct (write a2 _ _) as [a3|] eqn:E3; [|done]. cbn [mbind option_bind]. intros [= <- <-].
  unfold delete. change (ordered (set_vals t a3)) with (ordered t). rewrite Ho. apply write_entry_push; [done|]. intros p.
  pose proof (Zlen_nonneg v) as Hv0.
  destruct (oversized_slack (vals t) (CHUNK_HDR + Zlen v) CHUNK_HDR o a0 A Hbig Hfull Hr (eq_refl : 0 < CHUNK_HDR) Hslack) as (Ht0 & Hroom & Hend & Hno).
  destruct (reserve_keeps (vals t) (CHUNK_HDR + Zlen v) o a0 A ltac:(unfold CHUNK_HDR; lia) Hr) as (A0 & _).
  destruct (write_frame _ _ _ _ E1) as (T1 & U1 & S1). destruct (write_frame _ _ _ _ E2) as (T2 & U2 & S2).
  destruct (write_frame _ _ _ _ E3) as (T3 & U3 & S3). pose proof (k_shift _ A0) as Hs0.
  assert (forall len, block a3 (o + (CHUNK_HDR + Zlen v)) len = None) as Hno3.
  { intros len. apply (write_no_block a2 _ _ a3) with (2 := E3); [lia|]. apply (write_no_block a1 _ _ a2) with (2 := E2); [lia|].
    apply (write_no_block a0 _ _ a1) with (2 := E1); [lia|apply Hno]. }
  unfold push_tomb. cbn [vals set_vals]. rewrite reserve_room by (rewrite T3, T2, T1; done). cbn [mbind option_bind].
  unfold write. rewrite (block_ext a3) by done. unfold tail. rewrite T3, T2, T1. fold (tail a0). by rewrite Ht0, Hno3.
Qed.

Lemma slice_len a off n x : 0 <= n -> slice a off n = Some x -> Zlen x = n.
Proof.
  intros Hn. unfold slice. destruct (block a off n) as [[[b p] w]|]; [|done]. cbn [mbind option_bind].
  intros Hl%load_len. unfold Zlen. lia.
Qed.

(** The first bytes of a range. *)
Lemma slice_take a off n m x : 0 <= m <= n -> slice a off n = Some x -> slice a off m = Some (take (Z.to_nat m) x).
Proof.
  intros Hm. unfold slice. unfold block. case_match; [|done]. destruct (a_blocks a !! _) as [p|]; [|done]. cbn [mbind option_bind].
  case_match eqn:E1; [|done]. apply Z.leb_le in E1. rewrite (proj2 (Z.leb_le _ _)) by lia. cbn [mbind option_bind].
  generalize (Z.land off (block_len a - 1)). intros w Hl.
  assert (forall k j w x, (k <= j)%nat -> load (b_bytes p) w j = Some x -> load (b_bytes p) w k = Some (take k x)) as Hload.
  { clear. induction k as [|k IH]; intros j w x Hk; [done|]. destruct j as [|j]; [lia|]. cbn [load].
    destruct (b_bytes p !! w); [|done]. cbn [mbind option_bind]. destruct (load _ (w + 1) j) eqn:E; [|done]. cbn [mbind option_bind].
    intros [= <-]. by rewrite (IH j (w + 1) l ltac:(lia) E). }
  apply (Hload _ (Z.to_nat n)); [lia|done].
Qed.

Definition short_keys (t : MemTable) : Prop := forall id e, fat t id = Some e -> 0 <= e_klen e < U16.

Lemma base_short t g : base t g -> short_keys t.
Proof.
  intros Hb id e He. destruct (b_entries _ _ Hb) as (Hslab & Hlen & _).
  assert (exists x, get_at g id = Some x) as [[k ch] Hid].
  { apply get_at_is_Some. unfold fat, Arena.get in He. apply get_at_lt in He. unfold len, slab_ok in *. lia. }
  destruct (b_entry _ _ Hb _ _ _ Hid) as (e' & He' & _ & Hkl & _ & Hsl & _). assert (e' = e) as -> by congruence.
  rewrite Hkl. split; [apply Zlen_nonneg|]. apply get_at_Some in Hid as [_ Hid]. by apply (proj1 (Forall_lookup _ _) (b_short _ _ Hb)) in Hid.
Qed.

Lemma probe_short t hash key : short_keys t -> U16 <= Zlen key -> forall id, probe t hash key <> Some (Some id).
Proof.
  intros Hs Hk id. unfold probe. destruct (index t) as [ix|]; [|done]. generalize (mem_slot hash (ix_mask ix)) (length (ix_slots ix)).
  intros i fuel. revert i. induction fuel as [|fuel IH]; intros i; [done|]. cbn [probe_go].
  destruct (get_at (ix_slots ix) i) as [s|]; [|done]. cbn [mbind option_bind]. destruct (s =? 0); [done|].
  destruct (_ =? _); [|apply IH]. destruct (csub _ 1) as [n|]; [|done]. cbn [mbind option_bind]. unfold entry.
  destruct (fat t n) as [e|] eqn:Ee; [|done]. cbn [fmap option_fmap option_map mbind option_bind].
  destruct (key_of t (fat_entry e)) as [k|] eqn:Ek; [|done]. cbn [mbind option_bind]. destruct (beqb_spec k key) as [-> |]; [|apply IH].
  destruct (Hs _ _ Ee) as [H0 H1]. apply slice_len in Ek; [|done]. cbn in Ek. lia.
Qed.

(** What an entry's sixteen bits of length leave of a key. *)
Definition kept_key (key : bytes) : bytes := take (Z.to_nat (Zlen key mod U16)) key.

(** C37: A key of 65,536 bytes or more is taken and not found again: its entry
    keeps the length's low sixteen bits, so no lookup of the key ever returns
    an entry, and the entry made shows another key, the first bytes of it. *)
Theorem long_key_lost (t : MemTable) (h : list write_op) (g : list (bytes * list chunk)) (key value : bytes) (rd : Readers) (t' : MemTable) (rd' : Readers) :
  represents t h g -> U16 <= Zlen key -> Zlen value < TOMB_LEN ->
  append t (mem_hash key) key value rd = Some (t', rd') ->
  (forall upto e, get_with t' (mem_hash key) key upto <> Some (Some e)) /\
  exists e, entry t' (len t) = Some e /\ key_of t' e = Some (kept_key key).
Proof.
  intros [Hb Hix _ _] Hk Hv. unfold append, write_entry. rewrite (proj1 (b_hashed _ _ Hb)).
  destruct (b_entries _ _ Hb) as (Hslab & Hlen & Hsmall).
  pose proof (base_short _ _ Hb) as Hshort.
  destruct (probe t (mem_hash key) key) as [[id|]|] eqn:Hpr; [by apply probe_short in Hpr| |done]. cbn [mbind option_bind].
  destruct (new_entry t _ key (Some value)) as [[id t1]|] eqn:Hne; [|done]. cbn [mbind option_bind].
  destruct (index_insert t1 _ _ rd) as [[t2 rd2]|] eqn:Hins; [|done]. cbn [mbind option_bind].
  destruct (log_write t2 _ _) as [t3|] eqn:Hlog; [|done]. cbn [mbind option_bind]. intros [= <- <-].
  assert (entries t3 = entries t1 /\ keys t3 = keys t1 /\ ordered t3 = ordered t1) as (He3 & Hk3 & Ho3).
  { unfold index_insert, rebuild_index, reclaim, bump, oldest_pinned in Hins. unfold log_write in Hlog. unbind; done. }
  revert Hne. unfold new_entry. destruct (push_chunk t NO_CHUNK value) as [[off t0]|] eqn:Hp; [|done]. cbn [mbind option_bind].
  destruct (chunk_pushed t g NO_CHUNK (Some value) off t0 [] Hb Hv eq_refl Hp) as (_ & _ & _ & _ & (a & n & ->) & _).
  cbn [keys set_tombs set_vals entries]. destruct (reserve (keys t) (Zlen key)) as [[koff k0]|] eqn:Er; [|done]. cbn [mbind option_bind].
  destruct (write k0 koff key) as [k1|] eqn:Ew; [|done]. cbn [mbind option_bind].
  destruct (Z.leb_spec U32 koff) as [|_]; [done|]. destruct (push _ _) as [[i es]|] eqn:Es; [|done]. cbn [mbind option_bind]. intros [= <- <-].
  destruct (push_inv _ _ _ _ Hslab Es) as (-> & -> & _). unfold slab_ok in Hslab.
  assert (forall id e, fat t3 id = Some e -> fat t id = Some e \/ id = len t /\ e = MkMemEntry (Z.shiftr (mem_hash key) 32) koff (w16 (Zlen key)) (w64 (off + 1)) 1) as Hfat.
  { intros id e. unfold fat, Arena.get. rewrite He3. cbn [entries set_entries s_items]. intros Hid. pose proof (get_at_lt _ _ _ Hid) as Hlt.
    rewrite Zlen_app in Hlt. unfold len. destruct (Z.lt_ge_cases id (Zlen (s_items (entries t)))) as [Hl|Hl].
    - left. by rewrite get_at_keep in Hid by done.
    - right. rewrite get_at_skip in Hid by done. change (Zlen [_]) with 1 in Hlt. assert (id = Zlen (s_items (entries t))) as -> by lia.
      rewrite Z.sub_diag, get_at_here in Hid by done. by injection Hid as <-. }
  split.
  - intros upto e. unfold get_with. rewrite Ho3. cbn [ordered set_entries set_keys set_tombs set_vals]. rewrite (proj1 (b_hashed _ _ Hb)).
    destruct (probe t3 (mem_hash key) key) as [[id|]|] eqn:Hp3; [|done..]. exfalso. eapply probe_short; [|exact Hk|exact Hp3].
    intros id' e' [He| [_ ->]]%Hfat; [by eapply Hshort|]. cbn. unfold w16. apply Z.mod_pos_bound. done.
  - exists (MkEntry off koff (w16 (Zlen key)) 1). pose proof (Zlen_nonneg key) as Hk0.
    destruct (chunk_pushed t g NO_CHUNK (Some value) off (set_tombs (set_vals t a) n) [] Hb Hv eq_refl Hp) as (_ & _ & _ & Hoff & _).
    pose proof (k_tail _ (proj1 (b_vals _ _ Hb))) as Htl. split.
    + unfold entry, fat, Arena.get. rewrite He3. cbn [entries set_entries s_items]. unfold len. rewrite get_at_skip by lia.
      rewrite Hslab, Z.sub_diag, get_at_here by done. cbn [fmap option_fmap option_map]. unfold fat_entry, chain_head, w64. cbn [e_head e_key_off e_klen e_count].
      unfold tail in Hoff. rewrite Z.mod_small by (unfold U64; lia). rewrite (proj2 (Z.eqb_neq _ 0)) by lia. do 2 f_equal. lia.
    + unfold key_of. rewrite Hk3. cbn [keys set_entries set_keys n_key_off n_klen].
      destruct (reserve_keeps _ _ _ _ (proj1 (b_keys _ _ Hb)) Hk0 Er) as (K0 & _).
      pose proof (write_slice _ _ _ _ (k_shift _ K0) Ew) as Hsl. apply (slice_take _ _ (Zlen key)); [|done].
      unfold w16, U16. Z.div_mod_to_equations. lia.
Qed.

(** ** Concrete tables *)

(** A table whose value arena has blocks of sixty-four bytes. *)
Definition small_blocks : MemTable := set_vals new (with_shift 6).

Lemma writes_return_witness : exists t rd, ofold run_event sample_events (new, new_readers false) = Some (t, rd).
Proof.
  apply (writes_return sample_events (new_readers false)).
  - apply Forall_app. split; [|repeat constructor; done]. apply Forall_map, Forall_forall. intros i _. split; done.
  - apply Z.leb_le. vm_compute. reflexivity.
  - apply Z.ltb_lt. vm_compute. reflexivity.
  - apply Z.leb_le. vm_compute. reflexivity.
Defined.

Definition pushed_to (t : MemTable) (v : bytes) : MemTable := match push_chunk t NO_CHUNK v with Some (_, t) => t | None => t end.

(** A value of forty bytes leaves twelve of the block. *)
Lemma empty_value_panics_witness : let t := pushed_to small_blocks (replicate 40 x01) in
  push_chunk small_blocks NO_CHUNK (replicate 40 x01) = Some (0, t) /\ append t (mem_hash [x61]) [x61] [] (new_readers false) = None.
Proof.
  assert (push_chunk small_blocks NO_CHUNK (replicate 40 x01) = Some (0, pushed_to small_blocks (replicate 40 x01))) as E by (vm_compute; reflexivity).
  split; [exact E|]. apply empty_value_panics; [reflexivity| |split; [reflexivity|split; reflexivity]].
  eapply push_arena_ok; [|exact E]. apply arena_ok_new. lia.
Defined.

(** A value of fifty-three is a chunk of sixty-five, and a block of a hundred
    and twenty-eight. *)
Lemma oversized_value_panics_witness : let t := pushed_to small_blocks (replicate 53 x01) in
  push_chunk small_blocks NO_CHUNK (replicate 53 x01) = Some (0, t) /\ delete t (mem_hash [x61]) [x61] (new_readers false) = None.
Proof.
  assert (push_chunk small_blocks NO_CHUNK (replicate 53 x01) = Some (0, pushed_to small_blocks (replicate 53 x01))) as E by (vm_compute; reflexivity).
  split; [exact E|]. apply (oversized_value_panics small_blocks NO_CHUNK 0 (replicate 53 x01)); [reflexivity| | |exact E].
  - apply arena_ok_new. lia.
  - split; [by apply Z.leb_le|]. split; [reflexivity|by apply Z.leb_le].
Defined.

(** The first write of a fresh table, of a key of any length a block holds. *)
Lemma first_append key v rd : 0 < Zlen key <= 2 ^ ARENA_SHIFT -> 0 < Zlen v -> CHUNK_HDR + Zlen v <= 2 ^ ARENA_SHIFT ->
  exists t rd', append new (mem_hash key) key v rd = Some (t, rd').
Proof.
  intros Hk Hv Hvl. pose proof represents_new as [Hb Hix _ _]. assert (plain new_arena) as Hp by (apply plain_new; unfold ARENA_SHIFT; lia).
  unfold append, write_entry. change (ordered new) with false. cbn iota.
  destruct (probe_exact new [] key (base_keyed _ _ Hb) ltac:(by apply Z.leb_le) Hix) as (r & -> & Hr). cbn [mbind option_bind].
  destruct r as [id|]; [apply get_at_lt in Hr; change (0 <= id < 0) in Hr; lia|].
  destruct (new_entry_total new [] key (Some v) Hb Hp Hp Hk) as (id & t1 & Hne & _ & _ & _ & _ & Hlog & Hlen & Hi & Hlr & -> & Hs & Hh).
  { by intros x [= <-]. } { cbn. unfold VAL_ROOM, ARENA_BLOCKS, ARENA_SHIFT in *. lia. } { cbn. unfold U32, ARENA_SHIFT in *. lia. } { by apply Z.ltb_lt. }
  rewrite Hne. cbn [mbind option_bind]. change (len new) with 0 in *. change (hashes new) with (@nil Z) in Hh. cbn [app] in Hh.
  destruct Hix as (j & ix & Hj & Hix & Hload & Hf).
  destruct (index_insert_ok t1 (mem_hash key) 0 rd Hs) as (ix1 & r & rd' & Hins & _).
  - rewrite Hh. split; [by apply Z.leb_le|]. constructor; [apply high_half, mem_hash_range|constructor].
  - apply mem_hash_range.
  - lia.
  - rewrite Hh. by apply get_at_here.
  - exists j, ix. rewrite Hi, Hh. split; [done|]. split; [done|]. split; [done|]. by apply (filled_more _ _ [] _ 0).
  - rewrite Hins. cbn [mbind option_bind]. unfold log_write. cbn [log_range set_index log]. rewrite Hlr, Hlog. cbn. eauto.
Qed.

(** A key of 65,541 bytes shows as its first five. *)
Lemma long_key_lost_witness : let key := replicate 65541 x61 in
  exists t rd e, append new (mem_hash key) key [x01] (new_readers false) = Some (t, rd) /\
    get_with t (mem_hash key) key ALL <> Some (Some e) /\ key_of t e = Some (replicate 5 x61).
Proof.
  intros key. assert (Zlen key = 65541) as Hlen by (unfold key; rewrite Zlen_replicate; reflexivity).
  destruct (first_append key [x01] (new_readers false)) as (t & rd & E); [rewrite Hlen; unfold ARENA_SHIFT; lia|reflexivity|by apply Z.leb_le|].
  destruct (long_key_lost new [] [] key [x01] (new_readers false) t rd represents_new) as (H1 & e & H2 & H3);
    [rewrite Hlen; unfold U16; lia|reflexivity|exact E|].
  exists t, rd, e. split; [exact E|]. split; [apply H1|]. rewrite H3. unfold kept_key. rewrite Hlen. change (Z.to_nat (65541 mod U16)) with 5%nat.
  unfold key. by rewrite take_replicate.
Defined.
