(* ===== verification/Manifest.v ===== *)
(** * The manifest

    The live segment set ([src/src/db.rs], lines 11166 to 11450): two slot files
    a publish alternates between, each a sequence, the covered sequence of the
    log and the names, under one checksum. What is published survives the next
    publish torn anywhere, and a slot's bytes parse to what they encode. *)

From stdpp Require Import gmap.
From S2P Require Import Prelude Crc Names Compact.
#[local] Open Scope Z_scope.

Definition MANIFEST_MAGIC : bytes := str "SUPDBMAN" ++ [x03].
Definition MANIFEST_MAGIC_V2 : bytes := str "SUPDBMAN" ++ [x02].
Definition MANIFEST_MAGIC_V1 : bytes := str "SUPDBMAN" ++ [x01].
Definition MANIFEST_PENDING : Z := 1.
Definition MANIFEST_SLOTS : list bytes := [str "manifest"; str "manifest.alt"].
Definition manifest_slot (seq : Z) : bytes := if seq mod 2 =? 0 then str "manifest" else str "manifest.alt".

Record Manifest := mkManifest { mf_version : Z; mf_seq : Z; mf_covered : Z; mf_names : list bytes; mf_pending : list bytes }.

(** ** UTF-8, as [String::from_utf8] takes it *)

Definition between (lo hi : Z) (b : byte) : bool := (lo <=? b2z b) && (b2z b <=? hi).
Definition cont (b : byte) : bool := between 0x80 0xBF b.
Fixpoint utf8 (s : bytes) : bool :=
  match s with
  | [] => true
  | a :: s1 =>
      if b2z a <? 0x80 then utf8 s1
      else
        match s1 with
        | [] => false
        | b :: s2 =>
            if between 0xC2 0xDF a then cont b && utf8 s2
            else
              match s2 with
              | [] => false
              | c :: s3 =>
                  if between 0xE0 0xEF a then
                    (if b2z a =? 0xE0 then between 0xA0 0xBF b else if b2z a =? 0xED then between 0x80 0x9F b else cont b) && cont c && utf8 s3
                  else
                    match s3 with
                    | [] => false
                    | d :: s4 =>
                        between 0xF0 0xF4 a &&
                        (if b2z a =? 0xF0 then between 0x90 0xBF b else if b2z a =? 0xF4 then between 0x80 0x8F b else cont b) &&
                        cont c && cont d && utf8 s4
                    end
              end
        end
  end.

(** ** Encoding *)

Definition contains (l : list bytes) (n : bytes) : bool := existsb (beqb n) l.

Definition name_record (pending : list bytes) (n : bytes) : bytes :=
  le16 (w16 (Zlen n)) ++ n ++ [z2b (if contains pending n then MANIFEST_PENDING else 0)].

Definition manifest_encode (seq covered_seq : Z) (names pending : list bytes) : bytes :=
  let body := le64 covered_seq ++ le32 (w32 (Zlen names)) ++ concat (map (name_record pending) names) in
  let crc := crc32_resume (crc32 (le64 seq)) body in
  MANIFEST_MAGIC ++ le64 seq ++ le32 (w32 (Zlen body)) ++ le32 crc ++ body.

(** ** Parsing *)

Definition truncated {A} : option (result A) := Some (Err "manifest is truncated").

(** [n] names left at [p]; each takes two bytes of the body at least. *)
Fixpoint names_go (fuel : nat) (version : Z) (body : bytes) (n p : Z) (names pending : list bytes) : option (result (list bytes * list bytes)) :=
  if n =? 0 then Some (Ok (names, pending))
  else
    match fuel with
    | O => None
    | S fuel =>
        match rd_u16 body p with
        | None => truncated
        | Some l =>
            match get_range body (p + 2) (p + 2 + l) with
            | None => truncated
            | Some raw =>
                if negb (utf8 raw) then Some (Err "manifest name is not utf8")
                else if version <? 3 then names_go fuel version body (n - 1) (p + 2 + l) (names ++ [raw]) pending
                else
                  match get_at body (p + 2 + l) with
                  | None => truncated
                  | Some flags =>
                      names_go fuel version body (n - 1) (p + 2 + l + 1) (names ++ [raw])
                        (if Z.land (b2z flags) MANIFEST_PENDING =? 0 then pending else pending ++ [raw])
                  end
            end
        end
    end.

(** The version, the sequence and where the length is. *)
Definition manifest_head (buf : bytes) : option (result (Z * Z * Z)) :=
  if (25 <=? Zlen buf) && beqb (take 9 buf) MANIFEST_MAGIC then seq ← rd_u64 buf 9; Some (Ok (3, seq, 17))
  else if (25 <=? Zlen buf) && beqb (take 9 buf) MANIFEST_MAGIC_V2 then seq ← rd_u64 buf 9; Some (Ok (2, seq, 17))
  else if (17 <=? Zlen buf) && beqb (take 9 buf) MANIFEST_MAGIC_V1 then Some (Ok (1, 0, 9))
  else Some (Err "manifest magic is wrong").

Definition manifest_parse (buf : bytes) : option (result Manifest) :=
  h ← manifest_head buf;
  match h with
  | Err e => Some (Err e)
  | Ok (version, seq, at_) =>
      len ← rd_u32 buf at_;
      crc ← rd_u32 buf (at_ + 4);
      match get_range buf (at_ + 8) (at_ + 8 + len) with
      | None => truncated
      | Some body =>
          let want := if at_ =? 17 then crc32_resume (crc32 (le64 seq)) body else crc32 body in
          if negb (want =? crc) then Some (Err "manifest failed its checksum")
          else if Zlen body <? 12 then truncated
          else
            covered ← rd_u64 body 0;
            n ← rd_u32 body 8;
            r ← names_go (length body) version body n 12 [] [];
            match r with
            | Err e => Some (Err e)
            | Ok (names, pending) => Some (Ok (mkManifest version seq covered names pending))
            end
      end
  end.

(** ** The slots on disk *)

(** Written in place and never truncated. *)
Definition overwrite (old out : bytes) : bytes := out ++ drop (length out) old.
Definition manifest_write_slot (disk : Disk) (seq covered_seq : Z) (names pending : list bytes) : Disk :=
  <[manifest_slot seq := overwrite (default [] (disk !! manifest_slot seq)) (manifest_encode seq covered_seq names pending)]> disk.
Definition make_slot (disk : Disk) (slot : bytes) : Disk := match disk !! slot with Some _ => disk | None => <[slot := []]> disk end.
Definition manifest_make_slots (disk : Disk) : Disk := fold_left make_slot MANIFEST_SLOTS disk.

Definition spare_name (n : Z) : bytes := str "manifest.prev-" ++ dec n.
Definition is_manifest_spare (name : bytes) : bool := match strip_prefix (str "manifest.prev-") name with Some _ => true | None => false end.
Definition sweep_manifest_spares (disk : Disk) : Disk := filter (fun kv => is_manifest_spare (fst kv) = false) disk.

(** A temp name renamed over the first slot, the manifest it replaces linked
    under a spare name first. *)
Definition manifest_write (disk : Disk) (seq covered_seq : Z) (names : list bytes) (spare : option Z) : option bytes * Disk :=
  let cur := str "manifest" in
  let out := manifest_encode seq covered_seq names [] in
  let '(kept, disk) :=
    match spare, disk !! cur with
    | Some n, Some old => (Some (spare_name n), <[spare_name n := old]> disk)
    | _, _ => (None, disk)
    end in
  (kept, <[cur := out]> (delete (str "manifest.tmp") disk)).
Definition manifest_write_shape (disk : Disk) (slots : bool) (seq covered_seq : Z) (names : list bytes) : Disk :=
  if slots then manifest_write_slot disk seq covered_seq names [] else snd (manifest_write disk seq covered_seq names None).

(** The valid slots, newest first; an error where none is and one is torn. *)
Fixpoint insert_newest (m : Manifest) (l : list Manifest) : list Manifest :=
  match l with
  | [] => [m]
  | x :: rest => if mf_seq x <? mf_seq m then m :: l else x :: insert_newest m rest
  end.
Definition read_slot (disk : Disk) (acc : list Manifest * option string) (slot : bytes) : option (list Manifest * option string) :=
  match disk !! slot with
  | None | Some [] => Some acc
  | Some buf =>
      r ← manifest_parse buf;
      Some (match r with Ok m => (fst acc ++ [m], snd acc) | Err e => (fst acc, Some e) end)
  end.
Definition manifest_read_all (disk : Disk) : option (result (list Manifest)) :=
  '(valid, torn) ← ofold (read_slot disk) MANIFEST_SLOTS ([], None);
  let valid := fold_left (fun l m => insert_newest m l) valid [] in
  Some (match valid, torn with
        | [], Some e => Err e
        | _, _ => Ok valid
        end).

(** ** A slot reads back *)

Lemma utf8_ascii s : Forall (fun b => b2z b < 0x80) s -> utf8 s = true.
Proof. induction 1 as [|b s Hb _ IH]; [done|]. cbn [utf8]. by rewrite (proj2 (Z.ltb_lt _ _)). Qed.

(** A name the format can hold. *)
Definition name_ok (n : bytes) : Prop := utf8 n = true /\ Zlen n < U16.

Lemma name_record_reads pre n flag rest : name_ok n ->
  let body := pre ++ (le16 (w16 (Zlen n)) ++ n ++ [flag]) ++ rest in let p := Zlen pre in
  rd_u16 body p = Some (Zlen n) /\ get_range body (p + 2) (p + 2 + Zlen n) = Some n /\ get_at body (p + 2 + Zlen n) = Some flag.
Proof.
  intros [_ Hl] body p. pose proof (Zlen_nonneg n). unfold body, p, w16.
  rewrite (Z.mod_small (Zlen n) U16) by lia. rewrite <- !app_assoc. split; [|split].
  - apply rd_u16_app; [done|lia].
  - rewrite (app_assoc pre). apply get_range_app; zlia.
  - rewrite !(app_assoc pre), (app_assoc _ n). apply get_at_app_mid. zlia.
Qed.

Lemma names_go_encoded pending todo : Forall name_ok todo -> forall fuel pre names held, (length todo <= fuel)%nat ->
  names_go fuel 3 (pre ++ concat (map (name_record pending) todo)) (Zlen todo) (Zlen pre) names held =
  Some (Ok (names ++ todo, held ++ List.filter (contains pending) todo)).
Proof.
  induction 1 as [|n todo Hn _ IH]; intros fuel pre names held Hf.
  { destruct fuel; cbn; by rewrite !app_nil_r. }
  destruct fuel as [|fuel]; [cbn in Hf; lia|]. rewrite Zlen_cons. cbn [names_go]. pose proof (Zlen_nonneg todo). pose proof (Zlen_nonneg n).
  rewrite (proj2 (Z.eqb_neq _ 0)) by lia. cbn [map concat List.filter].
  set (flag := z2b (if contains pending n then MANIFEST_PENDING else 0)).
  destruct (name_record_reads pre n flag (concat (map (name_record pending) todo)) Hn) as (H1 & H2 & H3).
  change (name_record pending n) with (le16 (w16 (Zlen n)) ++ n ++ [flag]). rewrite H1, H2, (proj1 Hn), H3. cbn [negb]. change (3 <? 3) with false. cbn iota.
  replace (1 + Zlen todo - 1) with (Zlen todo) by lia.
  specialize (IH fuel (pre ++ (le16 (w16 (Zlen n)) ++ n ++ [flag])) (names ++ [n])).
  replace (Zlen (pre ++ _)) with (Zlen pre + 2 + Zlen n + 1) in IH by zlia. rewrite <- app_assoc in IH.
  rewrite IH by (cbn in Hf; lia). rewrite <- (app_assoc names). unfold flag.
  destruct (contains pending n); [|done].
  change (Z.land _ _ =? 0) with false. cbn iota. by rewrite <- (app_assoc held).
Qed.

Definition mf_body (covered : Z) (names pending : list bytes) : bytes :=
  le64 covered ++ le32 (w32 (Zlen names)) ++ concat (map (name_record pending) names).

(** What the format can hold. *)
Record manifest_ok (seq covered : Z) (names pending : list bytes) : Prop := {
  mo_seq : 0 <= seq < U64;
  mo_covered : 0 <= covered < U64;
  mo_names : Forall name_ok names;
  mo_body : Zlen (mf_body covered names pending) < U32
}.

Lemma names_le pending names : Zlen names <= Zlen (concat (map (name_record pending) names)).
Proof. induction names as [|n names IH]; [done|]. cbn [map concat]. unfold name_record at 1. pose proof (Zlen_nonneg n). zlia. Qed.

Lemma parse_encoded seq covered names pending tail : manifest_ok seq covered names pending ->
  manifest_parse (manifest_encode seq covered names pending ++ tail) =
  Some (Ok (mkManifest 3 seq covered names (List.filter (contains pending) names))).
Proof.
  intros [Hs Hc Hn Hb]. unfold manifest_encode. fold (mf_body covered names pending). set (body := mf_body _ _ _) in *.
  set (crc := crc32_resume _ _). assert (0 <= crc < U32) as Hcrc by (unfold crc; rewrite crc32_resume_app; apply crc32_range).
  unfold w32. pose proof (Zlen_nonneg body) as Hb0. rewrite (Z.mod_small (Zlen body)) by lia.
  unfold manifest_parse, manifest_head. rewrite <- !app_assoc. change (take 9 _) with MANIFEST_MAGIC. rewrite beqb_refl.
  assert (Zlen MANIFEST_MAGIC = 9) as Hm by done. pose proof (Zlen_nonneg tail).
  rewrite (proj2 (Z.leb_le 25 _)) by (zlen). cbn [andb]. rewrite rd_u64_app by (done || lia). cbn [mbind option_bind]. cbv beta iota.
  rewrite (app_assoc MANIFEST_MAGIC). rewrite (rd_u32_app _ _ _ 17) by (zlia || lia). cbn [mbind option_bind].
  rewrite (app_assoc _ (le32 _)). rewrite (rd_u32_app _ _ _ (17 + 4)) by (zlia || lia). cbn [mbind option_bind].
  rewrite (app_assoc _ (le32 crc)). rewrite get_range_app by zlia. change (17 =? 17) with true. cbn iota.
  fold crc. rewrite Z.eqb_refl. cbn [negb].
  assert (12 <= Zlen body) as H12 by (unfold body, mf_body; pose proof (Zlen_nonneg (concat (map (name_record pending) names))); zlia).
  rewrite (proj2 (Z.ltb_ge _ _)) by lia. pose proof (names_le pending names) as Hle.
  assert (0 <= Zlen names < U32) as Hnl by (pose proof (Zlen_nonneg names); unfold body, mf_body in Hb; revert Hb; zlia).
  assert (Zlen names <= Zlen body) as Hf by (unfold body, mf_body; zlia).
  assert (length names <= length body)%nat as Hf' by (unfold Zlen in Hf; lia). clear Hf.
  assert (w32 (Zlen names) = Zlen names) as Hw by (apply Z.mod_small; lia).
  rewrite (rd_u64_here covered _ 0 eq_refl Hc : rd_u64 body 0 = _). cbn [mbind option_bind].
  assert (rd_u32 body 8 = Some (Zlen names)) as -> by (unfold body, mf_body; rewrite Hw; by apply rd_u32_app). cbn [mbind option_bind].
  replace body with ((le64 covered ++ le32 (Zlen names)) ++ concat (map (name_record pending) names)) at 2
    by (unfold body, mf_body; by rewrite Hw, <- app_assoc).
  change 12 with (Zlen (le64 covered ++ le32 (Zlen names))). by rewrite names_go_encoded.
Qed.

(** ** Parsing returns, whatever the bytes *)

Lemma names_go_total version body : forall fuel n p names pending, 0 <= p <= Zlen body -> Zlen body - p < Z.of_nat fuel ->
  exists r, names_go fuel version body n p names pending = Some r.
Proof.
  induction fuel as [|fuel IH]; intros n p names pending Hp Hf; [lia|]. cbn [names_go].
  destruct (n =? 0); [eauto|]. destruct (rd_u16 body p) as [l|] eqn:El; [|eauto]. apply rd_u16_range in El.
  destruct (get_range body _ _) as [raw|] eqn:Er; [|eauto]. apply get_range_Some in Er as (_ & Er & _).
  destruct (negb (utf8 raw)); [eauto|]. destruct (version <? 3); [apply IH; lia|].
  destruct (get_at body _) as [flag|] eqn:Ea; [|eauto]. apply get_at_lt in Ea. apply IH; lia.
Qed.

Lemma parse_total buf : exists r, manifest_parse buf = Some r.
Proof.
  unfold manifest_parse. assert (forall i k, 0 <= i -> i + k <= Zlen buf -> 0 <= k -> exists v, le_val <$> get_range buf i (i + k) = Some v) as Hrd.
  { intros i k H1 H2 H3. destruct (get_range_is_Some buf i (i + k)) as [x ->]; [lia..|]. eauto. }
  assert (manifest_head buf = Some (Err "manifest magic is wrong") \/ exists v seq at_, manifest_head buf = Some (Ok (v, seq, at_)) /\ 0 <= at_ /\ at_ + 8 <= Zlen buf)
    as [-> |(v & seq & at_ & -> & H0 & Hat)]; [|by eexists|].
  { unfold manifest_head. pose proof (Hrd 9 8) as H9. fold (rd_u64 buf 9) in H9.
    destruct (_ && _) eqn:E3.
    { apply andb_prop in E3 as [E3%Z.leb_le _]. destruct H9 as [x ->]; [lia..|]. right. eexists 3, x, 17. split; [done|lia]. }
    clear E3. destruct (_ && _) eqn:E2.
    { apply andb_prop in E2 as [E2%Z.leb_le _]. destruct H9 as [x ->]; [lia..|]. right. eexists 2, x, 17. split; [done|lia]. }
    clear E2. destruct (_ && _) eqn:E1; [|by left].
    apply andb_prop in E1 as [E1%Z.leb_le _]. right. eexists 1, 0, 9. split; [done|lia]. }
  cbn [mbind option_bind]. destruct (Hrd at_ 4) as [len Hlen]; [lia..|]. fold (rd_u32 buf at_) in Hlen. rewrite Hlen. cbn [mbind option_bind].
  destruct (Hrd (at_ + 4) 4) as [crc Hcrc]; [lia..|]. fold (rd_u32 buf (at_ + 4)) in Hcrc. rewrite Hcrc. cbn [mbind option_bind].
  destruct (get_range buf _ _) as [body|]; [|by eexists]. destruct (negb _); [by eexists|]. destruct (Z.ltb_spec (Zlen body) 12); [by eexists|].
  destruct (get_range_is_Some body 0 8) as [x Hx]; [lia..|]. unfold rd_u64 at 1. change (0 + 8) with 8. rewrite Hx. cbn [fmap option_fmap option_map mbind option_bind].
  destruct (get_range_is_Some body 8 12) as [y Hy]; [lia..|]. unfold rd_u32 at 1. change (8 + 4) with 12. rewrite Hy. cbn [fmap option_fmap option_map mbind option_bind].
  destruct (names_go_total v body (length body) (le_val y) 12 [] []) as [r ->]; [lia|unfold Zlen in *; lia|]. cbn [mbind option_bind].
  destruct r as [[names pending]|e]; by eexists.
Qed.

(** ** A publish torn anywhere *)

(** A slot an open passes over for one of sequence [seq]. *)
Definition passed_over (seq : Z) (buf : option bytes) : Prop :=
  match buf with
  | None | Some [] => True
  | Some b => match manifest_parse b with Some (Ok m) => mf_seq m < seq | _ => True end
  end.
Definition other_slot (seq : Z) : bytes := manifest_slot (seq + 1).

Record published (disk : Disk) (m : Manifest) : Prop := {
  pb_slot : exists b, disk !! manifest_slot (mf_seq m) = Some b /\ b <> [] /\ manifest_parse b = Some (Ok m);
  pb_other : passed_over (mf_seq m) (disk !! other_slot (mf_seq m))
}.

Lemma slots_of seq : manifest_slot seq = str "manifest" /\ other_slot seq = str "manifest.alt" \/ manifest_slot seq = str "manifest.alt" /\ other_slot seq = str "manifest".
Proof.
  unfold other_slot, manifest_slot. destruct (Z.eqb_spec (seq mod 2) 0), (Z.eqb_spec ((seq + 1) mod 2) 0); try (exfalso; Z.div_mod_to_equations; lia); auto.
Qed.

Lemma slot_apart seq : manifest_slot seq <> other_slot seq.
Proof. destruct (slots_of seq) as [[-> ->]|[-> ->]]; by vm_compute. Qed.
Lemma slot_other seq : other_slot (seq + 1) = manifest_slot seq.
Proof. unfold other_slot, manifest_slot. replace (seq + 1 + 1) with (seq + 1 * 2) by lia. by rewrite Z.mod_add. Qed.

(** One slot's part in a read of both. *)
Lemma read_slot_cases disk slot acc : exists r, read_slot disk acc slot = Some r /\
  (forall seq, passed_over seq (disk !! slot) -> r.1 = acc.1 \/ exists m, r.1 = acc.1 ++ [m] /\ mf_seq m < seq) /\
  (forall b m, disk !! slot = Some b -> b <> [] -> manifest_parse b = Some (Ok m) -> r = (acc.1 ++ [m], acc.2)).
Proof.
  unfold read_slot. destruct (disk !! slot) as [[|x b]|] eqn:E.
  - eexists. split; [done|]. split; [by left|]. intros b m [= <-]. done.
  - destruct (parse_total (x :: b)) as [r Hr]. rewrite Hr. cbn [mbind option_bind]. eexists. split; [done|]. split.
    + unfold passed_over. rewrite Hr. intros seq Hs. destruct r as [m|e]; [|by left]. right. by exists m.
    + intros b' m [= <-] _ H. rewrite Hr in H. injection H as ->. done.
  - eexists. split; [done|]. split; [by left|]. done.
Qed.

Lemma published_reads disk m : published disk m -> exists rest, manifest_read_all disk = Some (Ok (m :: rest)).
Proof.
  intros [(b & Hb & Hne & Hp) Ho]. unfold manifest_read_all, MANIFEST_SLOTS. cbn [ofold].
  destruct (slots_of (mf_seq m)) as [[E1 E2]|[E1 E2]]; rewrite E1 in Hb; rewrite E2 in Ho.
  - destruct (read_slot_cases disk (str "manifest") ([], None)) as (r & -> & _ & H1). rewrite (H1 _ _ Hb Hne Hp). cbn [mbind option_bind].
    match goal with |- context [read_slot disk ?a _] => set (acc := a) end.
    destruct (read_slot_cases disk (str "manifest.alt") acc) as ([l e] & -> & H2 & _). cbn [mbind option_bind].
    destruct (H2 _ Ho) as [H|(x & H & Hx)]; cbn in H; subst l; cbn; [eauto|].
    rewrite (proj2 (Z.ltb_ge _ _)) by lia. eauto.
  - destruct (read_slot_cases disk (str "manifest") ([], None)) as (r & -> & H1 & _). cbn [mbind option_bind].
    destruct (read_slot_cases disk (str "manifest.alt") r) as (r' & -> & _ & H2). rewrite (H2 _ _ Hb Hne Hp). cbn [mbind option_bind].
    destruct (H1 _ Ho) as [-> |(x & -> & Hx)]; cbn; [eauto|]. rewrite (proj2 (Z.ltb_lt _ _)) by lia. eauto.
Qed.

(** C15: A publish is atomic. Over a directory whose newest slot is [m], a slot
    written whole reads back at the next open as the store -- its sequence,
    what it covers and its names, those pending flagged -- and whatever a crash
    leaves of that write, so long as the checksum does not take it for a newer
    one, the open reads [m]. *)
Theorem manifest_atomic disk m covered names pending : let seq := mf_seq m + 1 in
  published disk m -> manifest_ok seq covered names pending ->
  let new := mkManifest 3 seq covered names (List.filter (contains pending) names) in
  let disk' := manifest_write_slot disk seq covered names pending in
  published disk' new /\ (exists rest, manifest_read_all disk' = Some (Ok (new :: rest))) /\
  forall torn, passed_over (mf_seq m) (Some torn) ->
    exists rest, manifest_read_all (<[manifest_slot seq := torn]> disk) = Some (Ok (m :: rest)).
Proof.
  intros seq [Hb Ho] Hok new disk'. assert (published disk' new) as Hnew.
  { split; cbn [mf_seq new].
    - eexists. unfold disk', manifest_write_slot. rewrite lookup_insert_eq. split; [done|]. unfold overwrite. split; [done|by apply parse_encoded].
    - unfold seq. rewrite slot_other. unfold disk', manifest_write_slot. rewrite lookup_insert_ne by apply not_eq_sym, slot_apart.
      destruct Hb as (b & -> & _ & Hp). unfold passed_over. destruct b; [done|]. rewrite Hp. lia. }
  split; [done|]. split; [by apply published_reads|]. intros torn Ht. apply published_reads. split.
  - destruct Hb as (b & Hb & Hne & Hp). exists b. by rewrite lookup_insert_ne by apply not_eq_sym, slot_apart.
  - unfold seq. fold (other_slot (mf_seq m)). by rewrite lookup_insert_eq.
Qed.

Definition sample_manifest : Disk := manifest_write_slot ∅ 1 0 [] [].

(** The second publish, whole and cut after forty bytes. *)
Lemma manifest_atomic_witness : let names := [seg_name 1 8; first_partition_name 2 8] in
  exists rest rest', manifest_read_all (manifest_write_slot sample_manifest 2 8 names [seg_name 1 8]) = Some (Ok (mkManifest 3 2 8 names [seg_name 1 8] :: rest)) /\
    manifest_read_all (<[manifest_slot 2 := take 40 (manifest_encode 2 8 names [seg_name 1 8])]> sample_manifest) = Some (Ok (mkManifest 3 1 0 [] [] :: rest')).
Proof.
  cbv zeta. assert (published sample_manifest (mkManifest 3 1 0 [] [])) as Hp.
  { split; [|done]. eexists. split; [reflexivity|]. split; [done|]. vm_compute. reflexivity. }
  destruct (manifest_atomic sample_manifest (mkManifest 3 1 0 [] []) 8 [seg_name 1 8; first_partition_name 2 8] [seg_name 1 8] Hp) as (_ & [rest H1] & H2).
  { split; [split; by vm_compute..| |by vm_compute]. repeat constructor; by vm_compute. }
  destruct (H2 (take 40 (manifest_encode 2 8 [seg_name 1 8; first_partition_name 2 8] [seg_name 1 8]))) as [rest' H3]; [unfold passed_over; cbn [mf_seq]; vm_compute; exact Logic.I|].
  change (mf_seq (mkManifest 3 1 0 [] []) + 1) with 2 in H1, H3. exists rest, rest'. split; [exact H1|exact H3].
Defined.
