(* ===== verification/Seg.v ===== *)
(** * A segment opened

    [Seg] of [src/src/db.rs], lines 8000 to 8350: a segment file opened by its
    name -- its reader, the fence and level its name carries, its ordered index
    mapped or composed again where a crash lost it, the filter and the tombstone
    flag of a level-0 piece -- and what it answers of a key before it is asked.
    Left out: the form file, caches, counters, page advice. *)

From stdpp Require Import gmap.
From S2P Require Import Prelude State Varint Runs Crc Chunks BlockTable Records HashTable FlatIndex FlatRead FlatSection Reserve Superblock Blob BlobCache OrdIndex Fences Merge Names Bloom SegmentWriter SegmentHolds SegmentFinish SegmentRead Segment Inputs Compact CompactHolds CompactRun.

#[local] Open Scope state_scope.

Definition USIZE_MAX : Z := U64 - 1.
(** Data bytes per file byte, five sevenths. *)
Definition DATA_PER_FILE : Z * Z := (5, 7).
Definition CACHE_BLOCK : Z := 64.

Record Seg := mkSeg {
  sg_file : bytes; sg_blob : Blob; sg_name : bytes; sg_level : Z; sg_seq : Z;
  sg_lo : bytes; sg_hi : option bytes; sg_bloom : option BlockedBloom;
  sg_ord : OrdIndex; sg_ord_rebuilt : bool; sg_tombs : bool; sg_data : Z }.

Section seg.
Context (key_base blk_base : Z).

(** The dictionary's keys in order. *)
Definition for_each_key (B : Blob) : list bytes := map fst (scan_counts_fixed B key_base [] USIZE_MAX 8 (fun _ _ => true)).

(** [write_ord] over a directory alone. *)
Definition put_ord (seg_name ord : bytes) : SM Disk unit :=
  do* name := require (ord_name_for seg_name) "segment name is malformed" in
  modify (fun disk => <[name := ord]> (delete (name ++ str ".tmp") disk)).

Definition mapped_ord (disk : Disk) (oname : bytes) (keys : Z) : result OrdIndex :=
  let* file := ok_or (disk !! oname) "No such file or directory" in open file keys.

(** The ordered index, or one composed again of the segment's keys. *)
Definition open_ord (name oname : bytes) (B : Blob) : SM Disk (OrdIndex * bool) :=
  do* disk := gets id in
  match mapped_ord disk oname (blob_keys B) with
  | Ok ord => ret (ord, false)
  | Err _ =>
      do* ord := expect (builder_finish (fold_left builder_push (for_each_key B) builder_new)) in
      do* tt := put_ord name ord in
      do* disk := gets id in
      match mapped_ord disk oname (blob_keys B) with
      | Ok ord => ret (ord, true)
      | Err _ => fail "ordered index rebuilt and refused again"
      end
  end.

Definition walk_rank (B : Blob) (s : BlockedBloom * bool) (rank : Z) : SM Disk (BlockedBloom * bool) :=
  let '(bloom, tombs) := s in
  do* (k, exts) := require (exts_at B key_base rank) "segment key walk: a rank the index does not have" in
  do* bloom := expect (Bloom.insert bloom k) in
  ret (bloom, tombs || existsb is_tombstone (exts_deref exts)).
Fixpoint walk_ranks (B : Blob) (s : BlockedBloom * bool) (ranks : list Z) : SM Disk (BlockedBloom * bool) :=
  match ranks with [] => ret s | r :: ranks => do* s := walk_rank B s r in walk_ranks B s ranks end.

Definition bloom_and_tombs (B : Blob) : SM Disk (BlockedBloom * bool) :=
  do* bloom := expect (with_capacity (blob_keys B)) in
  walk_ranks B (bloom, false) (seqZ 0 (blob_keys B)).

Definition facts_or_walk (B : Blob) (facts : option (BlockedBloom * bool)) : SM Disk (BlockedBloom * bool) :=
  match facts with Some f => ret f | None => bloom_and_tombs B end.

(** The segment, and the verified words its reader starts with. *)
Definition open_full (name : bytes) (verify verify_index : bool) (facts : option (BlockedBloom * bool)) (id_ : Z) : SM Disk (Seg * list Z) :=
  do* disk := gets id in
  do* file := require (disk !! name) "the manifest names a segment which is not in the store" in
  let src := bytes_source file in
  do* r := expect (open_with src blk_base (mkBlobOptions verify verify_index false) id_) in
  do* (B, words) := lift r in
  let data := default (src_len src / snd DATA_PER_FILE * fst DATA_PER_FILE) (payload_bytes src B) in
  do* oname := require (ord_name_for name) "segment name is malformed" in
  do* (ord, rebuilt) := open_ord name oname B in
  let ord := match key_at (blob_idx B) (key_sec B) 0 with Some first => learn_prefix ord first | None => ord end in
  do* lvl := expect (name_level name) in
  do* (lvl, (lo, hi)) := lift lvl in
  let seq := default 0 (name_end_seq name) in
  match lvl with
  | Partition => ret (mkSeg file B name 1 seq lo hi None ord rebuilt false data, words)
  | _ =>
      do* (bloom, tombs) := facts_or_walk B facts in
      ret (mkSeg file B name 0 seq lo hi (Some bloom) ord rebuilt tombs data, words)
  end.
Definition open_seg (name : bytes) (verify verify_index : bool) (id_ : Z) : SM Disk (Seg * list Z) := open_full name verify verify_index None id_.
Definition open_landed (name : bytes) (verify : bool) (facts : option (BlockedBloom * bool)) (id_ : Z) : SM Disk (Seg * list Z) :=
  open_full name verify false facts id_.
End seg.

Definition below_lo (s : Seg) (key : bytes) : bool := negb (Zlen (sg_lo s) =? 0) && bltb key (sg_lo s).
Definition cursor_from (s : Seg) (from : bytes) : bytes := if negb (Zlen (sg_lo s) =? 0) && bltb from (sg_lo s) then sg_lo s else from.
Definition seg_blocks (s : Seg) : Z := Z.max (div_ceil (blob_keys (sg_blob s)) CACHE_BLOCK) 1.
Definition may_hold (s : Seg) (key : bytes) : option bool :=
  if below_lo s key then Some false
  else if past key (sg_hi s) then Some false
  else match sg_bloom s with None => Some true | Some b => maybe_contains b key end.
Definition may_reach (s : Seg) (from : bytes) : bool := match sg_hi s with None => true | Some h => bltb from h end.

(** ** What a finished file answers, by key *)

Definition values_of (puts : list Put) (k : bytes) : list bytes := match find_put k puts with Some p => p_values p | None => [] end.
Definition tomb_of (puts : list Put) (k : bytes) : bool := match find_put k puts with Some p => p_tomb p | None => false end.

Record reads_puts (d : bytes -> bytes -> bytes * bool) (sums : bool) (file : bytes) (key_base blk_base : Z) (B : Blob) (puts : list Put) : Prop := {
  rp_lookup : forall k, match find_put k puts with
    | Some p => exists exts, blob_lookup B key_base k = Some exts /\ sum_records (exts_deref exts) = Zlen (p_values p) /\ any_tombstone (exts_deref exts) = p_tomb p
    | None => blob_lookup B key_base k = None
    end;
  rp_read : forall k rs, reached d (bytes_source file) B blk_base sums rs ->
    exists rs', read_all d (bytes_source file) B key_base blk_base sums k rs = Some (Ok (values_of puts k, Ok (Zlen (values_of puts k))), rs') /\
      reached d (bytes_source file) B blk_base sums rs';
  rp_seek : forall k, lower_bound_at (get_at (keys_of puts)) (Zlen puts) k (blob_seek B k)
}.

Lemma find_put_at puts k p : find_put k puts = Some p -> exists i, get_at puts i = Some p /\ p_key p = k.
Proof.
  intros [Hin Hb]%find_some. destruct (beqb_spec (p_key p) k) as [Hk|]; [|done]. apply list_elem_of_In, list_elem_of_lookup in Hin as [i Hi].
  exists (Z.of_nat i). split; [|done]. apply get_at_Some. split; [lia|]. by rewrite Nat2Z.id.
Qed.

Lemma find_put_none puts k : find_put k puts = None -> k ∉ keys_of puts.
Proof.
  intros Hn Hk. unfold keys_of in Hk. apply list_elem_of_In, in_map_iff in Hk as (p & <- & Hp). pose proof (find_none _ _ Hn p Hp) as H. cbn in H. by rewrite beqb_refl in H.
Qed.

Section finished.
Context (lz4 : bytes -> bytes) (d : bytes -> bytes -> bytes * bool) (Hlz4 : lz4_roundtrips lz4 d) (Hd : lz4_in_place d).
Context (sums sums' : bool) (set : Settings) (key_base blk_base ts generation : Z) (opts : BlobOptions) (id_ : Z).
Context (Hset : settings_ok set) (Hcheck : verify_checksums opts = true -> sums = true) (Hbase : aligned blk_base BLK_HEADER = true).
Context (puts : list Put) (Hputs : Forall put_ok puts) (Hasc : ascending (keys_of puts)).

Lemma finished_reads ets file : finished_file lz4 sums set key_base ts generation puts ets file ->
  exists B words, open_with (bytes_source file) blk_base opts id_ = Some (Ok (B, words)) /\ reads_puts d sums' file key_base blk_base B puts.
Proof.
  intros (header & rest & f & hd & ps & Bs & blk_off & Hsec & Hok & Hpl & Hps & Hg1 & Hg2 & Hg3 & Hat & page & Hp & Hl & Hpick & _).
  edestruct (blob_opens lz4 sums set) with (opts := opts) (id_ := id_) as (words & Hopen & n & ->); try eassumption.
  eexists _, _. split; [exact Hopen|]. pose proof (Forall2_length _ _ _ Hpl) as Hlen. assert (Zlen ets = Zlen puts) as Hn by (unfold Zlen; lia).
  pose proof Hsec as [_ _ _ [_ _ _ Hlook _] _ _ _ _ _]. split.
  - intros k. unfold blob_lookup, lookup. change (key_sec (blob_of set ts opts id_ header rest f ps Bs blk_off)) with (header ++ rest).
    change (blob_idx (blob_of set ts opts id_ header rest f ps Bs blk_off)) with f. rewrite Hlook.
    destruct (find_put k puts) as [p|] eqn:Hf.
    + apply find_put_at in Hf as (i & Hi & Hk). destruct (get_at_is_Some ets i) as [[e tail] He]; [pose proof (get_at_lt _ _ _ Hi); lia|].
      pose proof (entries_at (st_compact_records set) _ _ _ _ _ Hi He) as Hent.
      assert (List.find (fun x => beqb (entry_key x) k) (entries (st_compact_records set) puts ets) = Some (entry_of (st_compact_records set) p (e, tail))) as ->.
      { subst k. apply (find_at _ i (entry_of (st_compact_records set) p (e, tail))); [|exact Hent]. rewrite entries_keys by done. by apply ascending_NoDup. }
      eexists. split; [done|]. cbn [entry_of fst snd]. rewrite exts_read_deref. apply get_at_Some in Hi as [_ Hi], He as [_ He].
      destruct (placed_counts _ _ _ _ _ (Forall_lookup_1 _ _ _ _ Hputs Hi) (Forall2_lookup_lr _ _ _ _ _ _ Hpl Hi He)) as [H1 H2].
      unfold sum_records, any_tombstone. cbn. rewrite H1, H2. split; [lia|apply orb_false_r].
    + apply find_put_none in Hf. destruct (List.find _ _) as [e|] eqn:Hfe; [|done]. exfalso. apply Hf. apply find_some in Hfe as [Hin Hb].
      destruct (beqb_spec (entry_key e) k) as [<-|]; [|done]. rewrite <- (entries_keys (st_compact_records set) puts ets Hn).
      apply list_elem_of_In in Hin. apply list_elem_of_fmap. by exists e.
  - intros k rs Hrs. unfold values_of. destruct (find_put k puts) as [p|] eqn:Hf.
    + apply find_put_at in Hf as (i & Hi & <-). edestruct (blob_reads lz4 d Hlz4 Hd) as (rs' & Hr & _ & Hs); try eassumption. by exists rs'.
    + apply find_put_none in Hf. exists rs. split; [|done]. eapply blob_reads_none with (set := set); try eassumption.
  - edestruct blob_keys_seek with (set := set) as [_ Hseek]; eassumption.
Qed.
End finished.

(** ** The open *)

Section opening.
Context (env : Env) (Hen : env_ok env).
Local Abbreviation kb := (ev_key_base env).
Local Abbreviation bb := (ev_blk_base env).
Local Abbreviation d := (ev_unlz4 env).
Local Abbreviation sums := (ev_sums env).

(** What opening a segment of some puts promises. *)
Record seg_ok (s : Seg) (lvl : Z) (f : Fence) (puts : list Put) : Prop := {
  so_holds : holds_puts d sums (sg_file s) kb bb (sg_blob s) puts;
  so_reads : reads_puts d sums (sg_file s) kb bb (sg_blob s) puts;
  so_level : sg_level s = lvl;
  so_fence : (sg_lo s, sg_hi s) = f;
  so_bloom : forall k, exists r, default (Some true) (flip maybe_contains k <$> sg_bloom s) = Some r /\ (k ∈ keys_of puts -> r = true);
  so_tombs : sg_tombs s = (sg_level s =? 0) && existsb p_tomb puts;
  so_ord : exists p, indexes (sg_ord s) (keys_of puts) p
}.

(** A filter and a tombstone flag that are the puts'. *)
Definition facts_of (puts : list Put) (x : BlockedBloom * bool) : Prop :=
  (forall k, exists r, maybe_contains x.1 k = Some r /\ (k ∈ keys_of puts -> r = true)) /\ x.2 = existsb p_tomb puts.

Context (puts : list Put) (file : bytes) (B : Blob) (Hh : holds_puts d sums file kb bb B puts).

Lemma walk_ranks_ok (bl : BlockedBloom) (tombs : bool) (r : Z) (s : Disk) : 0 <= r <= Zlen puts ->
  forall bl', ofold Bloom.insert (drop (Z.to_nat r) (keys_of puts)) bl = Some bl' ->
  walk_ranks kb B (bl, tombs) (seqZ r (Zlen puts - r)) s = Some (Ok (bl', tombs || existsb p_tomb (drop (Z.to_nat r) puts)), s).
Proof.
  intros Hr. remember (Z.to_nat (Zlen puts - r)) as n eqn:En. revert bl tombs r Hr En. induction n as [|n IH]; intros bl tombs r Hr En bl' Hf.
  - assert (r = Zlen puts) as -> by lia. rewrite Z.sub_diag.
    rewrite (drop_ge (keys_of puts)) in Hf by (unfold keys_of; rewrite length_map; unfold Zlen; lia).
    rewrite (drop_ge puts) by (unfold Zlen; lia). cbn in *. injection Hf as <-. by rewrite orb_false_r.
  - rewrite seqZ_cons by lia. cbn [walk_ranks]. destruct (get_at_is_Some puts r) as [p Hp]; [lia|].
    pose proof Hp as Hp'. apply get_at_Some in Hp' as [_ Hp'].
    destruct (hp_exts _ _ _ _ _ _ _ Hh _ _ Hp) as (exts & He & _ & Ht).
    rewrite (drop_S puts p) by exact Hp'.
    assert (keys_of puts !! Z.to_nat r = Some (p_key p)) as Hk by (unfold keys_of; by rewrite list_lookup_fmap, Hp').
    rewrite (drop_S _ _ _ Hk) in Hf. cbn [ofold] in Hf. destruct (Bloom.insert bl (p_key p)) as [bl1|] eqn:Ei; [|done]. cbn [mbind option_bind] in Hf.
    unfold bind at 1, walk_rank. rewrite He. cbn [require]. unfold bind, ret. cbn [expect]. rewrite Ei. unfold expect.
    replace (Z.succ r) with (r + 1) by lia. replace (Z.pred (Zlen puts - r)) with (Zlen puts - (r + 1)) by lia.
    fold (any_tombstone (exts_deref exts)). rewrite Ht.
    replace (S (Z.to_nat r)) with (Z.to_nat (r + 1)) in * by lia.
    rewrite (IH bl1 (tombs || p_tomb p) (r + 1) ltac:(lia) ltac:(lia) bl' Hf). cbn [existsb]. by rewrite orb_assoc.
Qed.

Lemma bloom_and_tombs_ok (s : Disk) : Zlen puts * BLOOM_BITS_PER_KEY < U64 ->
  exists x, bloom_and_tombs kb B s = Some (Ok x, s) /\ facts_of puts x.
Proof.
  intros Hn. assert (Zlen (keys_of puts) = Zlen puts) as Hl by (unfold keys_of; apply Zlen_map).
  destruct (filter_built (keys_of puts) false) as (bl & _ & H2 & _ & _ & Hc); [by rewrite Hl|].
  rewrite Hl in H2. exists (bl, existsb p_tomb puts). split.
  - unfold bloom_and_tombs. rewrite (hp_keys _ _ _ _ _ _ _ Hh). destruct (with_capacity (Zlen puts)) as [b|] eqn:Ew; [|done]. cbn [mbind option_bind] in H2.
    unfold bind at 1, expect. rewrite <- (Z.sub_0_r (Zlen puts)) at 1. pose proof (Zlen_nonneg puts). by rewrite (walk_ranks_ok b false 0 s ltac:(lia) bl H2).
  - split; [|done]. intros k. destruct (Hc k) as (r & Hr & _). exists r. split; [done|]. intros Hk. pose proof (filter_answers bl (keys_of puts) k Hc Hk) as H. cbn [fst] in Hr. congruence.
Qed.

Lemma walk_all {A} (what : list Ext -> A) (n : nat) (r : Z) : 0 <= r -> r + Z.of_nat n = Zlen puts ->
  map fst (walk_keys B kb n what (fun _ _ => true) r) = drop (Z.to_nat r) (keys_of puts).
Proof.
  revert r. induction n as [|n IH]; intros r Hr Hn; cbn [walk_keys map].
  - rewrite drop_ge; [done|]. unfold keys_of. rewrite length_map. unfold Zlen in Hn. lia.
  - destruct (get_at_is_Some puts r) as [p Hp]; [lia|]. destruct (hp_exts _ _ _ _ _ _ _ Hh _ _ Hp) as (exts & He & _).
    unfold exts_at in He. destruct (exts_at_full B kb r) as [[[k e] t]|]; [|done]. cbn in He. injection He as -> ->. cbn [map fst].
    apply get_at_Some in Hp as [_ Hp]. assert (keys_of puts !! Z.to_nat r = Some (p_key p)) as Hk by (unfold keys_of; by rewrite list_lookup_fmap, Hp).
    rewrite (drop_S _ _ _ Hk), IH by lia. by replace (Z.to_nat (r + 1)) with (S (Z.to_nat r)) by lia.
Qed.

Lemma seek_first (H : reads_puts d sums file kb bb B puts) : blob_seek B [] = 0.
Proof.
  destruct (rp_seek _ _ _ _ _ _ _ H []) as (Hr & Hlo & _). destruct (Z.eq_dec (blob_seek B []) 0) as [|Hne]; [done|]. exfalso.
  destruct (Hlo 0 ltac:(lia)) as (k & _ & Hlt). by apply blt_nil in Hlt.
Qed.

(** Keys an ordered index and its builder can take. *)
Definition keys_ok : Prop := sortable (keys_of puts) /\ Zlen (concat (keys_of puts)) < U32 /\ Zlen puts * BLOOM_BITS_PER_KEY < U64.

Lemma open_ord_ok (name oname : bytes) (disk : Disk) : reads_puts d sums file kb bb B puts -> keys_ok -> ord_name_for name = Some oname -> ord_sound disk name puts ->
  exists ix rebuilt disk', open_ord kb name oname B disk = Some (Ok (ix, rebuilt), disk') /\ (exists p, indexes ix (keys_of puts) p) /\
    mapped_ord disk' oname (Zlen puts) = Ok ix /\ (forall n, n <> oname -> n <> oname ++ str ".tmp" -> disk' !! n = disk !! n).
Proof.
  intros Hr (Hs & Hu & Hn) Hon Hsound. unfold open_ord. unfold bind at 1, gets at 1. unfold id. rewrite (hp_keys _ _ _ _ _ _ _ Hh).
  destruct (mapped_ord disk oname (Zlen puts)) as [ix|e] eqn:Em.
  - exists ix, false, disk. split; [done|]. split; [|done]. unfold mapped_ord in Em. destruct (disk !! oname) as [f|] eqn:Ef; [|done]. by eapply Hsound.
  - assert (for_each_key kb B = keys_of puts) as ->.
    { unfold for_each_key, scan_counts_fixed. rewrite (hp_keys _ _ _ _ _ _ _ Hh), (seek_first Hr). pose proof (Zlen_nonneg puts).
      rewrite Z.min_r by (unfold USIZE_MAX, BLOOM_BITS_PER_KEY in *; lia). rewrite (walk_all _ _ 0) by lia. done. }
    fold (builder_of (keys_of puts)). rewrite builder_finish_from by done.
    rewrite (finish_from_bytes _ ltac:(apply Hs)). unfold bind at 1, expect. unfold put_ord. rewrite Hon. cbn [require]. unfold bind at 1 2, ret at 1, modify. unfold bind at 1, gets.
    set (disk' := <[oname := _]> _). assert (mapped_ord disk' oname (Zlen puts) = Ok (built (keys_of puts))) as Hm.
    { unfold mapped_ord, disk'. rewrite lookup_insert_eq. cbn [ok_or rbind]. rewrite <- (open_built _ Hs). unfold keys_of. by rewrite Zlen_map. }
    unfold id. rewrite Hm. exists (built (keys_of puts)), true, disk'. split; [done|]. split; [eexists; by apply built_indexes|]. split; [done|].
    intros n Hn1 Hn2. unfold disk'. by rewrite lookup_insert_ne, lookup_delete_ne by done.
Qed.
End opening.

(** Whether a key may be in it: never a key it has, never one outside its
    fence. *)
Lemma may_hold_ok env s lvl f puts k : seg_ok env s lvl f puts ->
  exists r, may_hold s k = Some r /\ (r = true -> in_fence k f) /\ (in_fence k f -> k ∈ keys_of puts -> r = true).
Proof.
  intros [_ _ _ Hf Hb _ _]. unfold may_hold, below_lo. subst f. unfold in_fence. cbn [fst snd].
  assert (negb (Zlen (sg_lo s) =? 0) && bltb k (sg_lo s) = bltb k (sg_lo s)) as ->.
  { destruct (sg_lo s) as [|x l]; [|done]. cbn. destruct (bltb_spec k []) as [H|]; [by apply blt_nil in H|done]. }
  destruct (bltb_spec k (sg_lo s)) as [Hlo|Hlo].
  { eexists. split; [done|]. split; [done|]. intros [H _]. by apply ble_not_lt in H. }
  destruct (past k (sg_hi s)) eqn:Hp.
  { eexists. split; [done|]. split; [done|]. intros [_ H]. apply past_spec in H. congruence. }
  apply past_spec in Hp. destruct (Hb k) as (r & Hr & Hin). exists r. split.
  - destruct (sg_bloom s) as [b|]; cbn in Hr; [exact Hr|]. by injection Hr as <-.
  - split; [|tauto]. intros _. split; [|done]. destruct (blt_or_le k (sg_lo s)); done.
Qed.

Definition kind_name (kind : Level) (id e : Z) (f : Fence) : bytes :=
  match kind with Whole => seg_name id e | Partition => par_name id e f | Aligned => pcs_name id e f end.
Definition kind_level (kind : Level) : Z := match kind with Partition => 1 | _ => 0 end.

Lemma kind_names kind id e f : 0 <= id < U64 -> 0 <= e < U64 -> snd f <> Some [] -> (kind = Whole -> f = ([], None)) ->
  name_level (kind_name kind id e f) = Some (Ok (kind, f)) /\ name_end_seq (kind_name kind id e f) = Some e /\
  ord_name_for (kind_name kind id e f) = Some (ord_name id e).
Proof.
  intros Hid He Hf Hw. destruct (level_of_name id e f Hid He Hf) as (H1 & _ & H3 & H4).
  assert (kind_name kind id e f ∈ [seg_name id e; first_partition_name id e; par_name id e f; pcs_name id e f]) as Hin by (destruct kind; cbn; set_solver).
  destruct (ids_of_name id e f _ Hid He Hin) as (_ & E1 & E2). split; [|done]. destruct kind; cbn; [done..|]. by rewrite (Hw eq_refl).
Qed.

(** A segment's file, sound enough to open: its bytes a writer's, its ordered
    index missing, refused or its own. *)
Record seg_file (env : Env) (o : BlobOptions) (disk : Disk) (name : bytes) (puts : list Put) : Prop := {
  sf_file : input_file env o disk name puts;
  sf_keys : keys_ok puts;
  sf_ord : ord_sound disk name puts
}.

(** A segment opened, by what its name says and its file holds. *)
Lemma seg_opened env disk kind id e f puts verify vi facts id_ : let name := kind_name kind id e f in
  env_ok env -> 0 <= id < U64 -> 0 <= e < U64 -> snd f <> Some [] -> (kind = Whole -> f = ([], None)) ->
  seg_file env (mkBlobOptions verify vi false) disk name puts ->
  match facts with Some x => facts_of puts x | None => True end ->
  exists s words disk', open_full (ev_key_base env) (ev_blk_base env) name verify vi facts id_ disk = Some (Ok (s, words), disk') /\
    seg_ok env s (kind_level kind) f puts /\ sg_name s = name /\ sg_seq s = e /\ blob_id (sg_blob s) = id_ /\
    (forall dec at_, not_ours (sg_blob s) at_ ->
      reached (ev_unlz4 env) (bytes_source (sg_file s)) (sg_blob s) (ev_blk_base env) (ev_sums env) (reader_of words dec at_)) /\
    (forall k, exists r, may_hold s k = Some r /\ (r = true -> in_fence k f) /\ (in_fence k f -> k ∈ keys_of puts -> r = true)) /\
    (exists ix, mapped_ord disk' (ord_name id e) (Zlen puts) = Ok ix) /\
    forall n, n <> ord_name id e -> n <> ord_name id e ++ str ".tmp" -> disk' !! n = disk !! n.
Proof.
  intros name Hen Hid He Hf Hw [(file & sums & set & ts & gen & ets & Hd & Hset & Hc & Hff & Hp & Ha) Hk Ho] Hfacts.
  destruct (kind_names kind id e f Hid He Hf Hw) as (Hlvl & Hseq & Hon). fold name in Hlvl, Hseq, Hon.
  destruct (finished_holds (ev_lz4 env) (ev_unlz4 env) (en_lz4 _ Hen) (en_in_place _ Hen) sums (ev_sums env) set (ev_key_base env) (ev_blk_base env) ts gen
    (mkBlobOptions verify vi false) id_ Hset Hc (en_blk_base _ Hen) puts Hp Ha ets file Hff) as (B & words & Hop & Hb & Hh & Hre).
  destruct (finished_reads (ev_lz4 env) (ev_unlz4 env) (en_lz4 _ Hen) (en_in_place _ Hen) sums (ev_sums env) set (ev_key_base env) (ev_blk_base env) ts gen
    (mkBlobOptions verify vi false) id_ Hset Hc (en_blk_base _ Hen) puts Hp Ha ets file Hff) as (B' & words' & Hop' & Hr).
  rewrite Hop in Hop'. injection Hop' as <- <-.
  destruct (open_ord_ok env puts file B Hh name (ord_name id e) disk Hr Hk Hon Ho) as (ix & rebuilt & disk' & Hoo & (p & Hix) & Hm & Hsame).
  unfold open_full. unfold bind at 1, gets. change (Datatypes.id disk) with disk. rewrite Hd. cbn [require]. unfold bind at 1, ret at 1. unfold bind at 1, expect at 1. cbn zeta. rewrite Hop.
  unfold bind at 1, lift at 1. rewrite Hon. cbn [require]. unfold bind at 1, ret at 1. unfold bind at 1. rewrite Hoo. unfold bind at 1, expect. rewrite Hlvl.
  unfold bind at 1, lift. rewrite Hseq. cbn [default from_option]. set (ord := match key_at _ _ 0 with Some _ => _ | None => ix end).
  assert (exists p, indexes ord (keys_of puts) p) as Hord.
  { exists p. unfold ord. destruct (key_at _ _ 0) as [first|] eqn:E; [|done]. apply learn_indexes; [done|]. by rewrite <- (hp_key_at _ _ _ _ _ _ _ Hh). }
  assert (exists x, facts_or_walk (ev_key_base env) B facts disk' = Some (Ok x, disk') /\ facts_of puts x) as ([bl tombs] & Hx & Hx1 & Hx2).
  { destruct facts as [x|]; [by exists x|]. apply (bloom_and_tombs_ok env puts file B Hh); apply Hk. }
  cbn [fst snd] in Hx1, Hx2.
  assert (forall s, sg_file s = file -> sg_blob s = B -> sg_name s = name -> sg_level s = kind_level kind -> sg_seq s = e -> (sg_lo s, sg_hi s) = f ->
    sg_bloom s = (if sg_level s =? 0 then Some bl else None) -> sg_ord s = ord -> sg_tombs s = (sg_level s =? 0) && existsb p_tomb puts ->
    seg_ok env s (kind_level kind) f puts) as Hok.
  { intros s E1 E2 E3 E4 E5 E6 E7 E8 E9. split; rewrite ?E1, ?E2, ?E8; try done. intros k. rewrite E7. destruct (sg_level s =? 0); [apply Hx1|]. by exists true. }
  destruct f as [lo hi]. destruct kind; cbn [kind_level] in *.
  1, 3: unfold bind at 1; rewrite Hx; cbn [ret]; eexists _, words, disk'; split; [done|].
  3: cbn [ret]; eexists _, words, disk'; split; [done|].
  all: match goal with |- context [seg_ok _ ?s0 _ _ _] => assert (seg_ok env s0 (kind_level (if sg_level s0 =? 0 then Whole else Partition)) (lo, hi) puts) as Hs by (apply Hok; done || (cbn; by rewrite Hx2)) end.
  all: cbn [sg_level kind_level Z.eqb] in Hs; split; [exact Hs|]; split; [done|]; split; [done|]; split; [done|]; split; [exact Hre|].
  all: split; [intros k; by eapply may_hold_ok|]; split; [by exists ix|exact Hsame].
Qed.

(** C17: A segment opens by its name alone. Of a file a writer finished under a
    name that gives its id, its sequence, its level and its fence, with its
    ordered index beside it, or missing, or torn, the open succeeds: it answers
    the puts, by key and by rank; its level and fence are the name's; its index
    is of its keys, composed again where the file's was refused and mapped at
    the next open; its tombstone flag is whether a put of it is a tombstone; and
    what it says a key may be in never leaves out a key it holds, nor takes one
    outside its fence. *)
Theorem seg_opens env disk kind id e f puts verify vi facts id_ : let name := kind_name kind id e f in
  env_ok env -> 0 <= id < U64 -> 0 <= e < U64 -> snd f <> Some [] -> (kind = Whole -> f = ([], None)) ->
  seg_file env (mkBlobOptions verify vi false) disk name puts ->
  match facts with Some x => facts_of puts x | None => True end ->
  exists s words disk', open_full (ev_key_base env) (ev_blk_base env) name verify vi facts id_ disk = Some (Ok (s, words), disk') /\
    seg_ok env s (kind_level kind) f puts /\ sg_name s = name /\ sg_seq s = e /\ blob_id (sg_blob s) = id_ /\
    (forall dec at_, not_ours (sg_blob s) at_ ->
      reached (ev_unlz4 env) (bytes_source (sg_file s)) (sg_blob s) (ev_blk_base env) (ev_sums env) (reader_of words dec at_)) /\
    (forall k, exists r, may_hold s k = Some r /\ (r = true -> in_fence k f) /\ (in_fence k f -> k ∈ keys_of puts -> r = true)) /\
    (exists ix, mapped_ord disk' (ord_name id e) (Zlen puts) = Ok ix) /\
    forall n, n <> ord_name id e -> n <> ord_name id e ++ str ".tmp" -> disk' !! n = disk !! n.
Proof. exact (seg_opened env disk kind id e f puts verify vi facts id_). Qed.

Lemma fit_keys_ok env puts : puts_fit env puts -> keys_ok puts.
Proof.
  intros Hf. pose proof (keys_small _ _ Hf) as Hs. pose proof Hf as [Hp Ha Hm]. destruct (lens_ok _ Hp) as [Hn _].
  pose proof (rec_sum_four (st_inline_max (ev_set env)) (st_compact_records (ev_set env)) _ Hn) as H4. rewrite Zlen_map in H4.
  assert (Zlen (keys_of puts) = Zlen puts) as Hl by (unfold keys_of; apply Zlen_map).
  split; [|split; [done|unfold MAX_RECS, U32, BLOOM_BITS_PER_KEY, U64 in *; lia]].
  split; [done|rewrite Hl; unfold MAX_RECS, U32 in *; lia|]. intros i k [_ Hk]%get_at_Some. unfold keys_of in Hk.
  rewrite list_lookup_fmap in Hk. destruct (puts !! Z.to_nat i) as [p|] eqn:E; [|done]. cbn in Hk. injection Hk as <-.
  destruct (Forall_lookup_1 _ _ _ _ Hp E) as (H & _). unfold U16_MAX in H. lia.
Qed.

Lemma fit_seg_file env o name puts ts : env_ok env -> puts_fit env puts -> 0 <= ts < U64 -> (verify_checksums o = true -> ev_sums env = true) ->
  exists file, forall disk' : Disk, disk' !! name = Some file -> (forall oname, ord_name_for name = Some oname -> disk' !! oname = None) -> seg_file env o disk' name puts.
Proof.
  intros Hen Hf Hts Hc. destruct (puts_file env puts ts Hen Hf Hts) as (ets & file & Hff). exists file. intros disk' Hd Ho. split; [|by eapply fit_keys_ok|].
  - exists file, (ev_sums env), (ev_set env), ts, 1, ets. split; [done|]. split; [apply Hen|]. split; [done|]. split; [done|]. split; apply Hf.
  - intros oname x ix Hn Hx. by rewrite (Ho _ Hn) in Hx.
Qed.

Definition seg_puts : list Put := [mkPut [x61] [[x01]; [x02]] false; mkPut [x63] [] true].

Lemma seg_puts_fit : puts_fit sample_env seg_puts.
Proof.
  split; [|ascending_pair|by vm_compute].
  repeat (apply Forall_cons; split; [vm_compute; split; [done|by split]|]); by apply Forall_nil.
Qed.

(** A piece of two keys, the second a deletion, its index lost. *)
Lemma seg_opens_witness : exists disk s words disk', open_full 0 0 (pcs_name 3 9 ([x61], Some [x64])) true true None 7 disk = Some (Ok (s, words), disk') /\
  sg_tombs s = true /\ may_hold s [x63] = Some true /\ may_hold s [x65] = Some false.
Proof.
  destruct (fit_seg_file sample_env sample_opts (pcs_name 3 9 ([x61], Some [x64])) seg_puts 5 sample_env_ok seg_puts_fit) as (file & Hfile); [by vm_compute|done|].
  destruct (seg_opens sample_env {[pcs_name 3 9 ([x61], Some [x64]) := file]} Aligned 3 9 ([x61], Some [x64]) seg_puts true true None 7)
    as (s & words & disk' & H1 & H2 & _ & _ & _ & _ & H3 & _); [apply sample_env_ok|by vm_compute|by vm_compute|done|done| |done|].
  { apply Hfile; [by rewrite lookup_singleton_eq|]. intros oname Ho. apply lookup_singleton_ne. intros <-. by vm_compute in Ho. }
  exists {[pcs_name 3 9 ([x61], Some [x64]) := file]}, s, words, disk'. split; [exact H1|]. split; [by rewrite (so_tombs _ _ _ _ _ H2), (so_level _ _ _ _ _ H2)|]. split.
  - destruct (H3 [x63]) as (r & Hr & _ & Hin). rewrite Hr. f_equal. apply Hin; [by split|]. right. left.
  - destruct (H3 [x65]) as (r & Hr & Hout & _). rewrite Hr. f_equal. destruct r; [|done]. destruct (Hout eq_refl) as [_ H]. by vm_compute in H.
Defined.
