(* ===== verification/Lz4.v ===== *)
(** * LZ4 blocks: the careful decoder

    [src/src/db/zlz4.rs]: the moves of the decoder, the loop that checks every
    bound, and the counter of sequences; what they answer of a block is said by
    [rep], what a match leaves, and by [agree]. [Lz4Fast] has the loop of wide
    unchecked moves and [Lz4Enc] the encoder. *)

From S2P Require Import Prelude.

Definition MINMATCH : Z := 4.

(** A [Result] computed by code that may panic. *)
Definition obind {A B} (m : option (result A)) (k : A -> option (result B)) : option (result B) :=
  match m with None => None | Some (Err e) => Some (Err e) | Some (Ok a) => k a end.
Declare Scope lz4_scope.
Delimit Scope lz4_scope with lz4.
Notation "'let?' p := m 'in' k" := (obind m (fun x => match x with p => k end))
  (at level 200, p strict pattern, m at level 100, k at level 200,
   format "'[' 'let?'  p  :=  m  'in' ']' '//' k") : lz4_scope.
#[global] Open Scope lz4_scope.
Definition DecodeError {A} : option (result A) := Some (Err "DecodeError").

(** [var_len], over the bytes from [ip]. *)
Fixpoint var_len_go (src : bytes) (n ip : Z) : option (result (Z * Z)) :=
  match src with
  | [] => DecodeError
  | b :: src => let n := w64 (n + b2z b) in if b2z b =? 255 then var_len_go src n (ip + 1) else Some (Ok (n, ip + 1))
  end.
Definition var_len (src : bytes) (ip : Z) : option (result (Z * Z)) := var_len_go (drop (Z.to_nat ip) src) 0 ip.

(** ** Moves *)

(** [n] bytes of [src] from [from] to [to] of [dst]: [None] for a read or a
    write outside its buffer, checked or not. *)
Definition copy_in (src dst : bytes) (from to n : Z) : option bytes := s ← get_range src from (from + n); put_range dst to s.
(** [copy_nonoverlapping] within one buffer: undefined of ranges that overlap. *)
Definition copy_apart (dst : bytes) (from to n : Z) : option bytes :=
  if (from + n <=? to) || (to + n <=? from) then copy_in dst dst from to n else None.

(** A move writes a byte at least, so the bytes to move are fuel. *)
Fixpoint copy_overlap_go (fuel : nat) (dst : bytes) (to n period sofar span : Z) : option bytes :=
  if sofar <? n then
    match fuel with
    | O => None
    | S fuel =>
        let k := Z.min span (n - sofar) in
        dst ← copy_in dst dst (to + sofar - span) (to + sofar) k;
        copy_overlap_go fuel dst to n period (sofar + k) (Z.min (span * 2) (sofar + k + period))
    end
  else Some dst.
Definition copy_overlap (dst : bytes) (from to n : Z) : option bytes := copy_overlap_go (Z.to_nat n) dst to n (to - from) 0 (to - from).

Definition match_checked (dst : bytes) (op offset ml : Z) : option (result bytes) :=
  room ← csub (Zlen dst) op;
  if room <? ml then DecodeError else
  m ← csub op offset;
  if ml <=? offset then
    a ← get_range dst 0 op; b ← get_range dst op (Zlen dst);
    s ← get_range a m (m + ml); b ← put_range b 0 s; Some (Ok (a ++ b))
  else dst ← copy_overlap dst m op ml; Some (Ok dst).

(** ** The careful loop *)

(** A length of [n] in its token's nibble and the bytes after it. *)
Definition with_len (src : bytes) (full n ip : Z) : option (result (Z * Z)) :=
  if n =? full then let? (v, ip) := var_len src ip in Some (Ok (w64 (n + v), ip)) else Some (Ok (n, ip)).

(** The offset at [ip] and the match it is of. *)
Definition careful_match (src dst : bytes) (token : byte) (ip op : Z) : option (result (bool * bytes * Z * Z)) :=
  i ← csub (Zlen src) ip;
  if i <? 2 then DecodeError else
  offset ← rd_u16 src ip;
  if (offset =? 0) || (op <? offset) then DecodeError else
  let? (ml, ip) := with_len src (15 + MINMATCH) (Z.land (b2z token) 15 + MINMATCH) (ip + 2) in
  let? dst := match_checked dst op offset ml in
  Some (Ok (false, dst, ip, op + ml)).

(** Whether it was the block's last, the output and both positions. *)
Definition careful_sequence (src dst : bytes) (ip op : Z) : option (result (bool * bytes * Z * Z)) :=
  match get_at src ip with
  | None => DecodeError
  | Some token =>
      let? (lit, ip) := with_len src 15 (Z.shiftr (b2z token) 4) (ip + 1) in
      i ← csub (Zlen src) ip; o ← csub (Zlen dst) op;
      if (i <? lit) || (o <? lit) then DecodeError else
      dst ← copy_in src dst ip op lit;
      if ip + lit =? Zlen src then Some (Ok (true, dst, ip + lit, op + lit)) else careful_match src dst token (ip + lit) (op + lit)
  end.

(** [while ip < len]; a sequence moves [ip], so the bytes left are fuel. *)
Fixpoint careful_loop (fuel : nat) (block dst : bytes) (ip op : Z) : option (result (Z * bytes)) :=
  if ip <? Zlen block then
    match fuel with
    | O => None
    | S fuel =>
        let? (last, dst, ip, op) := careful_sequence block dst ip op in
        if last : bool then Some (Ok (op, dst)) else careful_loop fuel block dst ip op
    end
  else DecodeError.

(** ** Counting sequences *)

Fixpoint skip_len (src : bytes) (n i : Z) : option (Z * Z) :=
  match src with
  | [] => None
  | b :: src => let n := w64 (n + b2z b) in if b2z b =? 255 then skip_len src n (i + 1) else Some (n, i + 1)
  end.
(** Every turn moves [i], so the block's length and one are fuel. *)
Fixpoint sequences_go (fuel : nat) (block : bytes) (i n : Z) : option Z :=
  match fuel with
  | O => None
  | S fuel =>
      token ← get_at block i;
      let i := i + 1 in let n := n + 1 in
      let lit := Z.shiftr (b2z token) 4 in
      '(lit, i) ← if lit =? 15 then skip_len (drop (Z.to_nat i) block) lit i else Some (lit, i);
      i ← cadd i lit;
      if i =? Zlen block then Some n else
      if Zlen block <? i + 2 then None else
      let i := i + 2 in
      '(_, i) ← if Z.land (b2z token) 15 =? 15 then skip_len (drop (Z.to_nat i) block) 0 i else Some (0, i);
      sequences_go fuel block i n
  end.
Definition sequences (block : bytes) : option Z := sequences_go (S (length block)) block 0 0.

(** ** What moves leave

    [filled d0 op f k d]: [d] is [d0] below [op], and holds [f] in the [k] bytes
    from it; past them it is anything, which is where overruns go. *)

Definition agree (a b : bytes) (n : Z) : Prop := Zlen a = Zlen b /\ forall i, i < n -> get_at a i = get_at b i.
Record filled (d0 : bytes) (op : Z) (f : Z -> option byte) (k : Z) (d : bytes) : Prop := {
  fi_len : Zlen d = Zlen d0;
  fi_below : forall i, i < op -> get_at d i = get_at d0 i;
  fi_here : forall j, 0 <= j < k -> get_at d (op + j) = f j
}.

Lemma agree_sym a b n : agree a b n -> agree b a n.
Proof. intros [Hl H]. split; [done|]. intros i Hi. symmetry. by apply H. Qed.
Lemma agree_trans a b c n : agree a b n -> agree b c n -> agree a c n.
Proof. intros [Hl H] [Hl' H']. split; [congruence|]. intros i Hi. by rewrite H, H'. Qed.
Lemma agree_refl a n : agree a a n. Proof. done. Qed.
Lemma agree_less a b n m : m <= n -> agree a b n -> agree a b m.
Proof. intros Hm [Hl H]. split; [done|]. intros i Hi. apply H. lia. Qed.
#[export] Hint Resolve agree_refl agree_sym : lz4.

Lemma filled_start d0 op f : filled d0 op f 0 d0.
Proof. split; [done|done|]. intros. lia. Qed.
Lemma filled_less d0 op f k k' d : k' <= k -> filled d0 op f k d -> filled d0 op f k' d.
Proof. intros Hk [Hl Hb Hh]. split; [done|done|]. intros. apply Hh. lia. Qed.
Lemma filled_agree d0 d0' op f f' k d d' : filled d0 op f k d -> filled d0' op f' k d' -> agree d0 d0' op -> 0 <= k ->
  (forall j, 0 <= j < k -> f j = f' j) -> agree d d' (op + k).
Proof.
  intros [Hl Hb Hh] [Hl' Hb' Hh'] [Hl0 H0] Hk Hf. split; [congruence|]. intros i Hi. destruct (decide (i < op)).
  - rewrite Hb, Hb' by done. by apply H0.
  - replace i with (op + (i - op)) by lia. rewrite Hh, Hh' by lia. apply Hf. lia.
Qed.

Lemma copy_in_get src dst from to n : 0 <= n -> 0 <= from -> from + n <= Zlen src -> 0 <= to -> to + n <= Zlen dst ->
  exists d, copy_in src dst from to n = Some d /\ Zlen d = Zlen dst /\
    forall i, get_at d i = if decide (to <= i < to + n) then get_at src (from + (i - to)) else get_at dst i.
Proof.
  intros Hn Hf Hs Ht Hd. unfold copy_in. destruct (get_range_is_Some src from (from + n)) as [s E]; [lia..|]. rewrite E. cbn [mbind option_bind].
  pose proof (get_range_len _ _ _ _ E) as El. destruct (put_range_is_Some dst to s) as [d Ed]; [lia..|]. exists d. split; [done|].
  split; [by eapply put_range_len|]. intros i. rewrite (put_range_get _ _ _ _ _ Ed). replace (to + Zlen s) with (to + n) by lia.
  case_decide; [|done]. rewrite (get_range_get _ _ _ _ _ E) by lia. done.
Qed.

(** A move of [n] bytes that read [f]'s next ones. *)
Lemma filled_move d0 op f k d src from n : filled d0 op f k d -> 0 <= op -> 0 <= k -> 0 <= n -> 0 <= from -> from + n <= Zlen src ->
  op + k + n <= Zlen d0 -> (forall j, 0 <= j < n -> get_at src (from + j) = f (k + j)) ->
  exists d', copy_in src d from (op + k) n = Some d' /\ filled d0 op f (k + n) d'.
Proof.
  intros [Hl Hb Hh] Hop Hk Hn Hf Hs Hd H. destruct (copy_in_get src d from (op + k) n) as (d' & E & El & Hg); [lia..|].
  exists d'. split; [done|]. split; [congruence|..].
  - intros i Hi. rewrite Hg, decide_False by lia. by apply Hb.
  - intros j Hj. rewrite Hg. case_decide.
    + pose proof (H (j - k) ltac:(lia)) as E'. replace (k + (j - k)) with j in E' by lia. rewrite <- E'. f_equal. lia.
    + apply Hh. lia.
Qed.

(** The bytes a match from [off] back repeats. *)
Definition behind (d0 : bytes) (op off : Z) (j : Z) : option byte := get_at d0 (op - off + j mod off).

Lemma behind_back d0 op off k s j d : 0 < off <= op -> filled d0 op (behind d0 op off) k d -> s mod off = 0 -> s <= k + off ->
  0 <= j < s -> 0 <= k -> get_at d (op + k - s + j) = behind d0 op off (k + j).
Proof.
  intros Ho [Hl Hb Hh] Hs Hsk Hj Hk. pose proof (Z.div_mod s off ltac:(lia)) as Es. rewrite Hs in Es.
  assert ((k + j) mod off = (k + j - s) mod off) as Em.
  { replace (k + j) with (k + j - s + (s / off) * off) at 1 by lia. by rewrite Z.mod_add by lia. }
  destruct (decide (0 <= k + j - s)).
  - replace (op + k - s + j) with (op + (k + j - s)) by lia. rewrite Hh by lia. unfold behind. by rewrite Em.
  - rewrite Hb by lia. unfold behind. f_equal. rewrite Em.
    replace ((k + j - s) mod off) with (k + j - s + off); [lia|]. symmetry. rewrite <- (Z.mod_small (k + j - s + off) off) by lia.
    rewrite <- (Z.mod_add (k + j - s) 1 off) by lia. f_equal. lia.
Qed.

(** A move from a multiple of the offset back carries the repeat on. *)
Lemma match_move d0 op off k d s n : filled d0 op (behind d0 op off) k d -> 0 < off <= op -> 0 <= k -> s mod off = 0 -> 0 <= n <= s -> s <= k + off ->
  op + k + n <= Zlen d0 -> exists d', copy_in d d (op + k - s) (op + k) n = Some d' /\ copy_apart d (op + k - s) (op + k) n = Some d' /\
    filled d0 op (behind d0 op off) (k + n) d'.
Proof.
  intros H Ho Hk Hs Hn Hsk Hd. destruct (filled_move d0 op (behind d0 op off) k d d (op + k - s) n) as (d' & E & Hd'); try lia; [done|..].
  - rewrite (fi_len _ _ _ _ _ H). lia.
  - intros j Hj. apply behind_back; try done; lia.
  - exists d'. split; [done|]. split; [|done]. unfold copy_apart. by rewrite (proj2 (Z.leb_le _ _)) by lia.
Qed.

Lemma copy_overlap_ok d0 op off ml : 0 < off <= op -> op + ml <= Zlen d0 ->
  exists d, copy_overlap d0 (op - off) op ml = Some d /\ filled d0 op (behind d0 op off) ml d.
Proof.
  intros Ho Hd. unfold copy_overlap. replace (op - (op - off)) with off by lia.
  enough (forall fuel d sofar span, 0 <= sofar -> filled d0 op (behind d0 op off) sofar d -> (sofar < ml -> span = sofar + off /\ span mod off = 0) ->
    ml - sofar <= Z.of_nat fuel -> sofar <= ml \/ ml <= 0 ->
    exists d', copy_overlap_go fuel d op ml off sofar span = Some d' /\ filled d0 op (behind d0 op off) ml d') as H.
  { apply H; [lia|apply filled_start| |lia|lia]. intros. split; [lia|]. apply Z.mod_same. lia. }
  intros fuel. induction fuel as [|fuel IH]; intros d sofar span H0 Hf Hsp Hfu Hle; cbn [copy_overlap_go]; destruct (Z.ltb_spec sofar ml) as [Hlt|Hge];
    try (exists d; split; [done|]; by eapply filled_less, Hf; lia); [lia|].
  destruct Hsp as [-> Hm]; [done|]. set (k := Z.min (sofar + off) (ml - sofar)).
  destruct (match_move d0 op off sofar d (sofar + off) k Hf) as (d1 & E & _ & H1); try lia. rewrite E. cbn [mbind option_bind].
  apply IH; [lia|done| |lia|lia]. intros Hk. assert (k = sofar + off) as -> by lia. split; [lia|].
  replace (Z.min ((sofar + off) * 2) _) with ((sofar + off) * 2) by lia. rewrite Z.mul_mod, Hm by lia. by rewrite Z.mod_0_l by lia.
Qed.

Lemma match_checked_ok d0 op off ml : 0 < off <= op -> op <= Zlen d0 -> 0 <= ml ->
  if Zlen d0 - op <? ml then match_checked d0 op off ml = DecodeError
  else exists d, match_checked d0 op off ml = Some (Ok d) /\ filled d0 op (behind d0 op off) ml d.
Proof.
  intros Ho Hd Hml. unfold match_checked, csub. rewrite (proj2 (Z.leb_le op _)), (proj2 (Z.leb_le off _)) by lia. cbn [mbind option_bind].
  destruct (Z.ltb_spec (Zlen d0 - op) ml) as [|Hr]; [done|]. destruct (Z.leb_spec ml off) as [Hle|].
  - destruct (match_move d0 op off 0 d0 off ml (filled_start _ _ _)) as (d & E & _ & Hf); try lia; [apply Z.mod_same; lia|].
    exists d. split; [|done]. unfold copy_in in E. rewrite Z.add_0_r in E.
    destruct (get_range_is_Some d0 0 op) as [a Ea]; [lia..|]. destruct (get_range_is_Some d0 op (Zlen d0)) as [b Eb]; [lia..|].
    apply get_range_split in Ea as (x & y & -> & Hx & Hop). assert (x = []) as -> by (apply Zlen_zero_nil; lia). rewrite Zlen_nil in Hop. cbn [app] in *.
    assert (op = Zlen a) as -> by lia. rewrite (get_range_here a y 0) by done. cbn [mbind option_bind].
    rewrite (get_range_skip a y (Zlen a)) in Eb |- * by lia. rewrite get_range_end in Eb by (rewrite ?Zlen_app; lia). injection Eb as <-.
    rewrite (get_range_end y) by (rewrite ?Zlen_app; lia). cbn [mbind option_bind].
    rewrite get_range_keep in E by lia. destruct (get_range a _ _) as [s|]; [|done]. cbn [mbind option_bind] in E |- *.
    rewrite put_range_skip in E by lia. replace (Zlen a - Zlen a) with 0 in E by lia. destruct (put_range y 0 s) as [b|]; [|done]. by injection E as <-.
  - destruct (copy_overlap_ok d0 op off ml) as (d & -> & Hf); [lia..|]. by exists d.
Qed.

(** ** Lengths *)

Definition len_ok (src : bytes) : Prop := 255 * Zlen src + 32 < U64.

Lemma var_len_bounds src ip : 0 <= ip -> len_ok src -> var_len src ip = DecodeError \/
  exists v ip', var_len src ip = Some (Ok (v, ip')) /\ ip < ip' <= Zlen src /\ 0 <= v <= 255 * (ip' - ip).
Proof.
  intros Hip Hl. unfold var_len.
  enough (forall s n i, 0 <= n <= 255 * (i - ip) -> ip <= i -> i + Zlen s <= Z.max ip (Zlen src) -> var_len_go s n i = DecodeError \/
    exists v ip', var_len_go s n i = Some (Ok (v, ip')) /\ i < ip' <= i + Zlen s /\ 0 <= v <= 255 * (ip' - ip)) as H.
  { destruct (decide (ip < Zlen src)).
    - destruct (H (drop (Z.to_nat ip) src) 0 ip) as [->|(v & ip' & -> & ? & ?)]; [lia|lia|zlen|by left|right].
      exists v, ip'. split; [done|]. zlen.
    - left. rewrite drop_ge; [done|]. unfold Zlen in *. lia. }
  intros s. induction s as [|b s IH]; intros n i Hn Hi Hs; cbn [var_len_go]; [by left|]. rewrite Zlen_cons in *. pose proof (b2z_range b). pose proof (Zlen_nonneg s).
  assert (w64 (n + b2z b) = n + b2z b) as -> by (unfold len_ok in Hl; apply Z.mod_small; lia).
  destruct (Z.eqb_spec (b2z b) 255) as [E|].
  - destruct (IH (n + b2z b) (i + 1)) as [->|(v & ip' & -> & ? & ?)]; [lia..|by left|right]. exists v, ip'. split; [done|]. lia.
  - right. exists (n + b2z b), (i + 1). split; [done|]. lia.
Qed.

Lemma with_len_bounds src full n ip : 0 <= ip <= Zlen src -> len_ok src -> 0 <= n <= full -> full <= 19 -> with_len src full n ip = DecodeError \/
  exists v ip', with_len src full n ip = Some (Ok (v, ip')) /\ ip <= ip' <= Zlen src /\ n <= v <= n + 255 * (ip' - ip) /\ (n < full -> v = n /\ ip' = ip).
Proof.
  intros Hip Hl Hn Hf. unfold with_len. destruct (Z.eqb_spec n full) as [->|].
  - destruct (var_len_bounds src ip) as [->|(v & ip' & -> & ? & ?)]; [lia|done|by left|right]. cbn [obind].
    exists (w64 (full + v)), ip'. unfold len_ok in Hl. assert (w64 (full + v) = full + v) as -> by (apply Z.mod_small; lia). split; [done|]. lia.
  - right. exists n, ip. split; [done|]. lia.
Qed.

Lemma nibbles (token : byte) : 0 <= Z.shiftr (b2z token) 4 <= 15 /\ 0 <= Z.land (b2z token) 15 <= 15.
Proof.
  pose proof (b2z_range token). rewrite Z.shiftr_div_pow2 by lia. change 15 with (2 ^ 4 - 1). rewrite land_ones_mod by lia.
  change (2 ^ 4) with 16. Z.to_euclidean_division_equations; lia.
Qed.

(** ** The careful loop answers of the block alone *)

Lemma rd_u16_is_Some b at_ : 0 <= at_ -> at_ + 2 <= Zlen b -> exists v, rd_u16 b at_ = Some v.
Proof. intros. unfold rd_u16. destruct (get_range_is_Some b at_ (at_ + 2)) as [r ->]; [lia..|]. by eexists. Qed.

(** Outcomes of a decoder: refused both, or as many bytes and the same. *)
Definition same_decode (r r' : option (result (Z * bytes))) : Prop :=
  r = DecodeError /\ r' = DecodeError \/
  exists n d d', r = Some (Ok (n, d)) /\ r' = Some (Ok (n, d')) /\ 0 <= n <= Zlen d /\ agree d d' n.

Lemma literals_ok src d0 ip op n : 0 <= ip -> 0 <= n -> ip + n <= Zlen src -> 0 <= op -> op + n <= Zlen d0 ->
  exists d, copy_in src d0 ip op n = Some d /\ filled d0 op (fun j => get_at src (ip + j)) n d.
Proof.
  intros. destruct (filled_move d0 op (fun j => get_at src (ip + j)) 0 d0 src ip n (filled_start _ _ _)) as (d & E & Hf); try lia; [done|].
  rewrite Z.add_0_r in E. by exists d.
Qed.

Lemma careful_sequence_ok src d0 d0' ip op : len_ok src -> 0 <= ip -> 0 <= op <= Zlen d0 -> agree d0 d0' op ->
  careful_sequence src d0 ip op = DecodeError /\ careful_sequence src d0' ip op = DecodeError \/
  exists last d d' ip' op', careful_sequence src d0 ip op = Some (Ok (last, d, ip', op')) /\ careful_sequence src d0' ip op = Some (Ok (last, d', ip', op')) /\
    ip < ip' <= Zlen src /\ op <= op' <= Zlen d /\ agree d0 d op /\ agree d d' op'.
Proof.
  intros Hl Hip Hop Ha. pose proof (proj1 Ha) as Hlen. unfold careful_sequence.
  destruct (get_at src ip) as [token|] eqn:Et; [|by left]. pose proof (get_at_lt _ _ _ Et). destruct (nibbles token) as [Hn Hm].
  destruct (with_len_bounds src 15 (Z.shiftr (b2z token) 4) (ip + 1)) as [->|(lit & ip1 & -> & Hi1 & Hlit & _)]; [lia|done|lia|lia|by left|]. cbn [obind].
  unfold csub. rewrite <- Hlen, (proj2 (Z.leb_le ip1 _)), (proj2 (Z.leb_le op _)) by lia. cbn [mbind option_bind].
  destruct (Z.ltb_spec (Zlen src - ip1) lit); [by left|]. destruct (Z.ltb_spec (Zlen d0 - op) lit); [by left|]. cbn [orb].
  destruct (literals_ok src d0 ip1 op lit) as (d1 & -> & F1); [lia..|]. destruct (literals_ok src d0' ip1 op lit) as (d1' & -> & F1'); [lia..|]. cbn [mbind option_bind].
  pose proof (filled_agree _ _ _ _ _ _ _ _ F1 F1' Ha ltac:(lia) ltac:(done)) as A1. pose proof (fi_len _ _ _ _ _ F1). pose proof (fi_len _ _ _ _ _ F1').
  assert (agree d0 d1 op) as A0 by (split; [done|]; intros; symmetry; by apply F1).
  destruct (Z.eqb_spec (ip1 + lit) (Zlen src)).
  { right. eexists true, d1, d1', _, _. split; [done|]. split; [done|]. split; [lia|]. split; [lia|done]. }
  unfold careful_match, csub. rewrite (proj2 (Z.leb_le (ip1 + lit) _)) by lia. cbn [mbind option_bind].
  destruct (Z.ltb_spec (Zlen src - (ip1 + lit)) 2); [by left|]. destruct (rd_u16_is_Some src (ip1 + lit)) as [off Eo]; [lia..|]. rewrite Eo. cbn [mbind option_bind].
  pose proof (rd_u16_range _ _ _ Eo). destruct (Z.eqb_spec off 0); [by left|]. destruct (Z.ltb_spec (op + lit) off); [by left|]. cbn [orb].
  destruct (with_len_bounds src (15 + MINMATCH) (Z.land (b2z token) 15 + MINMATCH) (ip1 + lit + 2)) as [->|(ml & ip2 & -> & Hi2 & Hml & _)];
    [lia|done|unfold MINMATCH; lia|unfold MINMATCH; lia|by left|]. unfold MINMATCH in Hml. cbn [obind].
  pose proof (match_checked_ok d1 (op + lit) off ml) as M. pose proof (match_checked_ok d1' (op + lit) off ml) as M'.
  replace (Zlen d1') with (Zlen d1) in M' by lia. destruct (Z.ltb_spec (Zlen d1 - (op + lit)) ml).
  - left. rewrite M, M' by lia. done.
  - destruct M as (d2 & -> & F2); [lia..|]. destruct M' as (d2' & -> & F2'); [lia..|]. cbn [obind]. right. eexists false, d2, d2', _, _. split; [done|]. split; [done|].
    pose proof (fi_len _ _ _ _ _ F2). split; [lia|]. split; [lia|]. split.
    + eapply agree_trans; [exact A0|]. split; [done|]. intros i Hi. symmetry. apply F2. lia.
    + eapply filled_agree; [exact F2|exact F2'|done|lia|]. intros j Hj. unfold behind. apply A1. pose proof (Z.mod_pos_bound j off). lia.
Qed.

Lemma careful_loop_same block fuel fuel' d d' ip op : len_ok block -> 0 <= ip -> 0 <= op <= Zlen d -> agree d d' op ->
  Zlen block - ip <= Z.of_nat fuel -> Zlen block - ip <= Z.of_nat fuel' -> same_decode (careful_loop fuel block d ip op) (careful_loop fuel' block d' ip op).
Proof.
  intros Hl. revert fuel' d d' ip op. induction fuel as [|fuel IH]; intros fuel' d d' ip op Hip Hop Ha Hf Hf'.
  - destruct fuel'; cbn [careful_loop]; rewrite (proj2 (Z.ltb_ge _ _)) by lia; by left.
  - destruct fuel' as [|fuel']; cbn [careful_loop].
    { rewrite (proj2 (Z.ltb_ge _ _)) by lia. by left. }
    destruct (Z.ltb_spec ip (Zlen block)); [|by left].
    destruct (careful_sequence_ok block d d' ip op) as [[-> ->]|(last & d1 & d1' & ip1 & op1 & -> & -> & Hi1 & Ho1 & Hd & Hd1)]; try done; [by left|].
    cbn [obind]. destruct last.
    + right. eexists _, _, _. split; [done|]. split; [done|]. split; [lia|done].
    + apply IH; [lia|lia|done|lia..].
Qed.
