(* ===== verification/Lz4Fast.v ===== *)
(** * LZ4 blocks: the fast decoder

    [src/src/db/zlz4.rs]: the loop of wide unchecked moves, and the decoder that
    runs it while a turn has its room. An unchecked read or write is modelled
    with its undefined behaviour: [None], as a panic is, for one outside its
    buffer and for a move between ranges that overlap. No input reaches one, and
    what is decoded is what the careful loop decodes ([fast_is_careful]). *)

From S2P Require Import Prelude Lz4.

Definition DECODE_SLACK : Z := 64.
Definition FAST_IN : Z := 18.
Definition FAST_OUT : Z := 64.
Definition PAD_IN : Z := 64.

(** [loop { move; s += step; d += step; if d >= end { break } }]. *)
Fixpoint moves_go (fuel : nat) (move : bytes -> Z -> Z -> option bytes) (step : Z) (dst : bytes) (s d end_ : Z) : option bytes :=
  match fuel with
  | O => None
  | S fuel =>
      dst ← move dst s d;
      if end_ <=? d + step then Some dst else moves_go fuel move step dst (s + step) (d + step) end_
  end.
Definition wild_copy (n : Z) (src dst : bytes) (s d len : Z) : option bytes :=
  moves_go (S (Z.to_nat len)) (fun dst s d => copy_in src dst s d n) n dst s d (d + len).

Definition STEP : list Z := [8; 8; 8; 9; 8; 10; 12; 14].
Fixpoint near_go (fuel : nat) (dst : bytes) (op ml step k : Z) : option bytes :=
  if k <? ml then
    match fuel with
    | O => None
    | S fuel => dst ← copy_apart dst (op + k - step) (op + k) 8; near_go fuel dst op ml step (k + 8)
    end
  else Some dst.
Definition near_copy (dst : bytes) (m op ml offset : Z) : option bytes :=
  dst ← ofold (fun dst k => copy_in dst dst (m + k) (op + k) 1) (seqZ 0 8) dst;
  step ← get_at STEP (Z.land offset 7);
  near_go (Z.to_nat ml) dst op ml step 8.

(** The literals of a turn: where they are and how many, once moved, or [None]
    where the turn lacks their room. *)
Definition fast_run (padded : bool) (src : bytes) (len : Z) (dst : bytes) (ip op olim lit : Z) : option (result (option (bytes * Z * Z))) :=
  if lit <? 15 then
    dst ← copy_in src dst ip op 16; Some (Ok (Some (dst, ip, lit)))
  else
    let? (v, ip) := var_len (take (Z.to_nat len) src) ip in
    let lit := w64 (lit + v) in
    i ← csub len ip;
    if i <? lit then DecodeError else
    o ← csub olim op; r ← csub (Zlen src) ip; r' ← csub r lit;
    if (o <? lit) || (negb padded && ((r <? 64) || (r' <? 32))) then Some (Ok None) else
    if lit <=? 64 then
      dst ← copy_in src dst ip op 16; dst ← copy_in src dst (ip + 16) (op + 16) 16;
      dst ← copy_in src dst (ip + 32) (op + 32) 16; dst ← copy_in src dst (ip + 48) (op + 48) 16;
      Some (Ok (Some (dst, ip, lit)))
    else dst ← wild_copy 32 src dst ip op lit; Some (Ok (Some (dst, ip, lit))).

(** A match of fewer than nineteen bytes. *)
Definition short_match (dst : bytes) (m op ml offset : Z) : option bytes :=
  if 8 <=? offset then
    dst ← copy_apart dst m op 8; dst ← copy_apart dst (m + 8) (op + 8) 8; copy_apart dst (m + 16) (op + 16) 2
  else near_copy dst m op ml offset.

(** A longer one, with its room. *)
Definition long_match (dst : bytes) (m op ml offset : Z) : option bytes :=
  if 16 <=? offset then
    dst ← copy_apart dst m op 16; dst ← copy_apart dst (m + 16) (op + 16) 16;
    if 32 <? ml then moves_go (S (Z.to_nat ml)) (fun dst s d => copy_apart dst s d 16) 16 dst (m + 32) (op + 32) (op + ml) else Some dst
  else if 8 <=? offset then
    moves_go (S (Z.to_nat ml)) (fun dst s d => dst ← copy_apart dst s d 8; copy_apart dst (s + 8) (d + 8) 8) 16 dst m op (op + ml)
  else near_copy dst m op ml offset.

(** A turn of the loop goes on to the next, leaves the rest to the careful loop,
    or was the block's last. *)
Inductive turn : Type :=
| Next (dst : bytes) (ip op : Z)
| Break (dst : bytes) (ip op : Z)
| Last (dst : bytes) (op : Z).

(** The offset at [ip] and the match it is of. *)
Definition fast_match (src : bytes) (len : Z) (dst : bytes) (token : byte) (ip op : Z) : option (result turn) :=
  let mlim := Zlen dst - 32 in
  offset ← rd_u16 src ip;
  let ip := ip + 2 in
  if op <=? w64 (offset - 1) then DecodeError else
  let m := op - offset in
  let ml_n := Z.land (b2z token) 15 in
  if ml_n <? 15 then
    let ml := ml_n + MINMATCH in
    dst ← short_match dst m op ml offset; Some (Ok (Next dst ip (op + ml)))
  else
    let? (v, ip) := var_len (take (Z.to_nat len) src) ip in
    let ml := w64 (15 + MINMATCH + v) in
    room ← csub mlim op;
    if room <? ml then let? dst := match_checked dst op offset ml in Some (Ok (Break dst ip (op + ml)))
    else dst ← long_match dst m op ml offset; Some (Ok (Next dst ip (op + ml))).

Definition fast_turn (padded : bool) (src : bytes) (len : Z) (dst : bytes) (ip op olim : Z) : option (result turn) :=
  token ← get_at src ip;
  let? run := fast_run padded src len dst (ip + 1) op olim (Z.shiftr (b2z token) 4) in
  match run with
  | None => Some (Ok (Break dst ip op))
  | Some (dst, ip, lit) =>
      let ip := ip + lit in let op := op + lit in
      if len <=? ip then (if ip =? len then Some (Ok (Last dst op)) else DecodeError) else fast_match src len dst token ip op
  end.

(** Whether the block ended in the loop, the output and both positions. A turn
    moves [ip], which starts one at most a byte past the block. *)
Fixpoint fast_loop (fuel : nat) (padded : bool) (src : bytes) (len : Z) (dst : bytes) (ip op ilim olim : Z) : option (result (bool * bytes * Z * Z)) :=
  if (op <=? olim) && (padded || (ip <=? ilim)) then
    match fuel with
    | O => None
    | S fuel =>
        let? t := fast_turn padded src len dst ip op olim in
        match t with
        | Next dst ip op => fast_loop fuel padded src len dst ip op ilim olim
        | Break dst ip op => Some (Ok (false, dst, ip, op))
        | Last dst op => Some (Ok (true, dst, len, op))
        end
    end
  else Some (Ok (false, dst, ip, op)).

Definition decompress_in (src : bytes) (len : Z) (dst : bytes) : option (result (Z * bytes)) :=
  if Zlen src <? len then DecodeError else
  let readable := Zlen src in let oend := Zlen dst in
  let? (ended, dst, ip, op) :=
    if (0 <? len) && (FAST_OUT <=? oend) then
      let olim := oend - FAST_OUT in
      if PAD_IN <=? readable - len then fast_loop (Z.to_nat (len + 2)) true src len dst 0 0 0 olim
      else if FAST_IN <=? readable then fast_loop (Z.to_nat (len + 2)) false src len dst 0 0 (Z.min (readable - FAST_IN) (len - 1)) olim
      else Some (Ok (false, dst, 0, 0))
    else Some (Ok (false, dst, 0, 0)) in
  if ended : bool then Some (Ok (op, dst)) else careful_loop (Z.to_nat len) (take (Z.to_nat len) src) dst ip op.

Definition decompress_into (src dst : bytes) : option (result (Z * bytes)) := decompress_in src (Zlen src) dst.

(** ** The moves *)

(** A loop of moves, each of which carries the filling on by its step. *)
Lemma moves_go_ok d0 op f step move x end_ fuel d k : 0 < step ->
  (forall k d, op + k < end_ -> filled d0 op f k d -> 0 <= k -> exists d', move d (x + k) (op + k) = Some d' /\ filled d0 op f (k + step) d') ->
  filled d0 op f k d -> 0 <= k -> op + k < end_ -> end_ - op - k < Z.of_nat fuel ->
  exists d', moves_go fuel move step d (x + k) (op + k) end_ = Some d' /\ filled d0 op f (end_ - op) d'.
Proof.
  intros Hs Hm. revert d k. induction fuel as [|fuel IH]; intros d k Hf Hk He Hfu; [lia|]. cbn [moves_go].
  destruct (Hm k d) as (d1 & -> & Hf1); [done..|]. cbn [mbind option_bind]. destruct (Z.leb_spec end_ (op + k + step)).
  - exists d1. split; [done|]. eapply filled_less, Hf1. lia.
  - replace (x + k + step) with (x + (k + step)) by lia. replace (op + k + step) with (op + (k + step)) by lia. apply IH; [done|lia..].
Qed.

Lemma wild_copy_ok src d0 ip op lit : 0 <= ip -> 0 < lit -> ip + lit + 31 <= Zlen src -> 0 <= op -> op + lit + 31 <= Zlen d0 ->
  exists d, wild_copy 32 src d0 ip op lit = Some d /\ filled d0 op (fun j => get_at src (ip + j)) lit d.
Proof.
  intros. unfold wild_copy.
  destruct (moves_go_ok d0 op (fun j => get_at src (ip + j)) 32 (fun dst s d => copy_in src dst s d 32) ip (op + lit) (S (Z.to_nat lit)) d0 0) as (d & E & Hf);
    [lia| |apply filled_start|lia..|].
  - intros k d Hk Hf Hk0. apply filled_move; try done; try lia. intros j Hj. f_equal. lia.
  - rewrite !Z.add_0_r in E. exists d. split; [done|]. by replace (op + lit - op) with lit in Hf by lia.
Qed.

Lemma near_copy_ok d0 op off ml : 0 < off < 8 -> off <= op -> 0 <= ml -> op + ml + 8 <= Zlen d0 ->
  exists d, near_copy d0 (op - off) op ml off = Some d /\ filled d0 op (behind d0 op off) ml d.
Proof.
  intros Ho Hop Hml Hd. unfold near_copy.
  assert (forall ks k d, seqZ k ks = seqZ k ks -> 0 <= k -> 0 <= ks -> k + ks <= 8 -> filled d0 op (behind d0 op off) k d ->
    exists d', ofold (fun dst k => copy_in dst dst (op - off + k) (op + k) 1) (seqZ k ks) d = Some d' /\ filled d0 op (behind d0 op off) (k + ks) d') as Hb.
  { intros ks k d _ Hk Hks. revert k d Hk. pattern ks. apply natlike_ind; [| |exact Hks].
    - intros k d Hk _ Hf. exists d. split; [done|]. by rewrite Z.add_0_r.
    - intros n Hn IH k d Hk H8 Hf. rewrite seqZ_cons by lia. cbn [ofold].
      destruct (match_move d0 op off k d off 1 Hf) as (d1 & E & _ & H1); try lia; [apply Z.mod_same; lia|].
      replace (op - off + k) with (op + k - off) by lia. rewrite E. rewrite Z.pred_succ.
      destruct (IH (k + 1) d1) as (d2 & E2 & H2); [lia|lia|done|]. replace (Z.succ k) with (k + 1) by lia. exists d2. split; [done|]. by replace (k + Z.succ n) with (k + 1 + n) by lia. }
  destruct (Hb 8 0 d0) as (d1 & -> & H1); [done|lia..|apply filled_start|]. cbn [mbind option_bind]. rewrite Z.add_0_l in H1.
  assert (exists step, get_at STEP (Z.land off 7) = Some step /\ step mod off = 0 /\ 8 <= step <= 8 + off) as (step & -> & Hm & Hs).
  { assert (off = 1 \/ off = 2 \/ off = 3 \/ off = 4 \/ off = 5 \/ off = 6 \/ off = 7) as [->|[->|[->|[->|[->|[->| ->]]]]]] by lia; eexists; (split; [done|]); done. }
  cbn [mbind option_bind].
  assert (forall fuel k d, 8 <= k -> filled d0 op (behind d0 op off) k d -> ml - k <= Z.of_nat fuel ->
    exists d', near_go fuel d op ml step k = Some d' /\ filled d0 op (behind d0 op off) ml d') as Hg.
  { intros fuel. induction fuel as [|fuel IH]; intros k d Hk Hf Hfu; cbn [near_go]; destruct (Z.ltb_spec k ml);
      try (exists d; split; [done|]; eapply filled_less, Hf; lia); [lia|].
    destruct (match_move d0 op off k d step 8 Hf) as (d2 & _ & E & H2); try lia. rewrite E. cbn [mbind option_bind]. apply IH; [lia|done|lia]. }
  apply Hg; [lia|done|lia].
Qed.

Lemma short_match_ok d0 op off ml : 0 < off <= op -> 0 <= ml <= 18 -> op + 32 <= Zlen d0 ->
  exists d, short_match d0 (op - off) op ml off = Some d /\ filled d0 op (behind d0 op off) ml d.
Proof.
  intros Ho Hml Hd. unfold short_match. destruct (Z.leb_spec 8 off); [|apply near_copy_ok; lia].
  assert (off mod off = 0) as Hm by (apply Z.mod_same; lia).
  destruct (match_move d0 op off 0 d0 off 8 (filled_start _ _ _)) as (d1 & _ & E1 & H1); try lia.
  destruct (match_move d0 op off 8 d1 off 8 H1) as (d2 & _ & E2 & H2); try lia.
  destruct (match_move d0 op off 16 d2 off 2 H2) as (d3 & _ & E3 & H3); try lia.
  rewrite Z.add_0_r in E1. rewrite E1. cbn [mbind option_bind]. replace (op - off + 8) with (op + 8 - off) by lia. rewrite E2. cbn [mbind option_bind].
  replace (op - off + 16) with (op + 16 - off) by lia. rewrite E3. exists d3. split; [done|]. eapply filled_less, H3. lia.
Qed.

Lemma long_match_ok d0 op off ml : 0 < off <= op -> 19 <= ml -> op + ml + 32 <= Zlen d0 ->
  exists d, long_match d0 (op - off) op ml off = Some d /\ filled d0 op (behind d0 op off) ml d.
Proof.
  intros Ho Hml Hd. unfold long_match. assert (off mod off = 0) as Hm by (apply Z.mod_same; lia).
  destruct (Z.leb_spec 16 off); [|destruct (Z.leb_spec 8 off); [|apply near_copy_ok; lia]].
  - destruct (match_move d0 op off 0 d0 off 16 (filled_start _ _ _)) as (d1 & _ & E1 & H1); try lia.
    destruct (match_move d0 op off 16 d1 off 16 H1) as (d2 & _ & E2 & H2); try lia.
    rewrite Z.add_0_r in E1. rewrite E1. cbn [mbind option_bind]. replace (op - off + 16) with (op + 16 - off) by lia. rewrite E2. cbn [mbind option_bind].
    destruct (Z.ltb_spec 32 ml); [|exists d2; split; [done|]; eapply filled_less, H2; lia].
    destruct (moves_go_ok d0 op (behind d0 op off) 16 (fun dst s d => copy_apart dst s d 16) (op - off) (op + ml) (S (Z.to_nat ml)) d2 32) as (d3 & E3 & H3);
      [lia| |eapply filled_less, H2; lia|lia..|].
    + intros k d Hk Hf Hk0. destruct (match_move d0 op off k d off 16 Hf) as (d' & _ & E' & H'); try lia.
      replace (op - off + k) with (op + k - off) by lia. by exists d'.
    + exists d3. split; [done|]. by replace (op + ml - op) with ml in H3 by lia.
  - destruct (moves_go_ok d0 op (behind d0 op off) 16 (fun dst s d => dst ← copy_apart dst s d 8; copy_apart dst (s + 8) (d + 8) 8)
      (op - off) (op + ml) (S (Z.to_nat ml)) d0 0) as (d3 & E3 & H3); [lia| |apply filled_start|lia..|].
    + intros k d Hk Hf Hk0. destruct (match_move d0 op off k d off 8 Hf) as (d1 & _ & E1 & H1); try lia.
      destruct (match_move d0 op off (k + 8) d1 off 8 H1) as (d2 & _ & E2 & H2); try lia.
      replace (op - off + k) with (op + k - off) by lia. rewrite E1. cbn [mbind option_bind].
      replace (op + k - off + 8) with (op + (k + 8) - off) by lia. replace (op + k + 8) with (op + (k + 8)) by lia. exists d2. split; [done|].
      by replace (k + 16) with (k + 8 + 8) by lia.
    + rewrite !Z.add_0_r in E3. exists d3. split; [done|]. by replace (op + ml - op) with ml in H3 by lia.
Qed.

(** ** A turn is a careful sequence *)

Section turns.
Context (padded : bool) (src : bytes) (len : Z) (Hsrc : len_ok src) (Hlen : 0 < len <= Zlen src).
#[local] Abbreviation block := (take (Z.to_nat len) src).

(** Where a turn may start: what the caller of the loop promises. *)
Definition in_room (ip : Z) : Prop :=
  if padded then len + PAD_IN <= Zlen src /\ 0 <= ip <= len + 1 else 0 <= ip < len /\ ip + FAST_IN <= Zlen src.

Lemma block_len : Zlen block = len. Proof. zlen. Qed.
Lemma block_ok : len_ok block. Proof. unfold len_ok in *. rewrite block_len. lia. Qed.
Lemma in_block_at i : i < len -> get_at block i = get_at src i.
Proof. intros Hi. rewrite <- (take_drop (Z.to_nat len) src) at 2. rewrite get_at_keep; [done|]. rewrite block_len. lia. Qed.
Lemma block_u16 i : i + 2 <= len -> rd_u16 block i = rd_u16 src i.
Proof. intros Hi. unfold rd_u16. rewrite <- (take_drop (Z.to_nat len) src) at 2. rewrite get_range_keep; [done|]. rewrite block_len. lia. Qed.

Lemma var_len_past ip : len <= ip -> var_len block ip = DecodeError.
Proof. intros H. unfold var_len. rewrite drop_ge; [done|]. pose proof block_len. unfold Zlen in *. lia. Qed.

(** The literals are moved where the careful loop copies them, or left to it,
    or are past the block. *)
Lemma fast_run_ok dst ip op olim n : in_room (ip - 1) -> 0 <= op <= olim -> olim = Zlen dst - FAST_OUT -> 0 <= n <= 15 ->
  fast_run padded src len dst ip op olim n = DecodeError /\
    (with_len block 15 n ip = DecodeError \/ exists v ip', with_len block 15 n ip = Some (Ok (v, ip')) /\ ip' <= len /\ len - ip' < v) \/
  fast_run padded src len dst ip op olim n = Some (Ok None) \/
  exists d lit ip', fast_run padded src len dst ip op olim n = Some (Ok (Some (d, ip', lit))) /\ with_len block 15 n ip = Some (Ok (lit, ip')) /\
    ip <= ip' /\ n <= lit /\ (n = 15 -> ip' + lit <= len) /\ op + lit <= olim + 14 /\ (ip' + lit < len -> ip' + lit + 2 <= Zlen src) /\
    filled dst op (fun j => get_at src (ip' + j)) lit d.
Proof.
  intros Hr Hop -> Hn. unfold fast_run, in_room, FAST_IN, FAST_OUT, PAD_IN in *. pose proof block_len as Hbl. unfold len_ok in *.
  assert (0 <= ip - 1 /\ ip + 17 <= Zlen src) as [Hip Hip'] by (destruct padded; lia). unfold with_len.
  destruct (Z.ltb_spec n 15).
  { right. right. destruct (literals_ok src dst ip op 16) as (d & -> & Hf); [lia..|]. cbn [mbind option_bind]. rewrite (proj2 (Z.eqb_neq n 15)) by lia.
    exists d, n, ip. split; [done|]. split; [done|]. split; [lia|]. split; [lia|]. split; [lia|]. split; [lia|]. split; [lia|]. eapply filled_less, Hf. lia. }
  assert (n = 15) as -> by lia. cbn [Z.eqb Pos.eqb].
  destruct (var_len_bounds block ip) as [->|(v & ip' & -> & Hi & Hv)]; [lia|apply block_ok|by (left; split; [done|left])|]. cbn [obind].
  rewrite Hbl in Hi. assert (w64 (15 + v) = 15 + v) as -> by (apply Z.mod_small; lia). unfold csub. rewrite (proj2 (Z.leb_le ip' len)) by lia. cbn [mbind option_bind].
  destruct (Z.ltb_spec (len - ip') (15 + v)); [left; split; [done|right]; eexists _, _; split; [done|lia]|].
  rewrite (proj2 (Z.leb_le op _)), (proj2 (Z.leb_le ip' _)) by lia. cbn [mbind option_bind].
  rewrite (proj2 (Z.leb_le (15 + v) (Zlen src - ip'))) by lia. cbn [mbind option_bind].
  destruct (Z.ltb_spec (Zlen dst - 64 - op) (15 + v)); cbn [orb]; [by right; left|].
  destruct (negb padded && _) eqn:Ep; [by right; left|]. right. right.
  assert (ip' + 64 <= Zlen src /\ ip' + (15 + v) + 32 <= Zlen src) as [Hi1 Hi2].
  { destruct padded; cbn [negb andb] in Ep; [lia|]. apply orb_false_iff in Ep as [?%Z.ltb_ge ?%Z.ltb_ge]. lia. }
  destruct (Z.leb_spec (15 + v) 64).
  - set (f := fun j => get_at src (ip' + j)).
    destruct (literals_ok src dst ip' op 16) as (d1 & -> & F1); [lia..|]. cbn [mbind option_bind].
    assert (forall k d, 0 <= k -> k + 16 <= 64 -> filled dst op f k d -> exists d', copy_in src d (ip' + k) (op + k) 16 = Some d' /\ filled dst op f (k + 16) d') as Hm.
    { intros k d Hk Hk' Hf. apply filled_move; try done; try lia. intros j Hj. unfold f. f_equal. lia. }
    destruct (Hm 16 d1) as (d2 & -> & F2); [lia|lia|done|]. cbn [mbind option_bind].
    destruct (Hm 32 d2) as (d3 & -> & F3); [lia|lia|done|]. cbn [mbind option_bind].
    destruct (Hm 48 d3) as (d4 & -> & F4); [lia|lia|done|]. cbn [mbind option_bind].
    exists d4, (15 + v), ip'. split; [done|]. split; [done|]. split; [lia|]. split; [lia|]. split; [lia|]. split; [lia|]. split; [lia|]. eapply filled_less, F4. lia.
  - destruct (wild_copy_ok src dst ip' op (15 + v)) as (d & -> & Hf); [lia..|]. cbn [mbind option_bind]. exists d, (15 + v), ip'.
    split; [done|]. split; [done|]. split; [lia|]. split; [lia|]. split; [lia|]. split; [lia|]. split; [lia|done].
Qed.

(** What a part of a turn from [ip], [op] may answer, beside the careful one
    over an output that agrees with it. Past the block, or with an offset cut by
    its end, the turn may go on a little, to a refusal. *)
Definition went (c : option (result (bool * bytes * Z * Z))) (dst : bytes) (ip op : Z) (d : bytes) (ip' op' : Z) : Prop :=
  Zlen d = Zlen dst /\ ip < ip' <= len + 1 /\ op <= op' <= Zlen d /\
  (c = DecodeError /\ len <= ip' \/ ip' <= len /\ exists d', c = Some (Ok (false, d', ip', op')) /\ agree d d' op').
Definition simulates (dst : bytes) (ip op : Z) (t : option (result turn)) (c : option (result (bool * bytes * Z * Z))) : Prop :=
  t = DecodeError /\ c = DecodeError \/
  (exists d ip' op', t = Some (Ok (Next d ip' op')) /\ went c dst ip op d ip' op') \/
  (exists d ip' op', t = Some (Ok (Break d ip' op')) /\ went c dst ip op d ip' op') \/
  exists d op', t = Some (Ok (Last d op')) /\ Zlen d = Zlen dst /\ op <= op' <= Zlen d /\ exists d', c = Some (Ok (true, d', len, op')) /\ agree d d' op'.

Lemma fast_match_ok dst d0 token ip op : 0 <= ip < len -> ip + 2 <= Zlen src -> 0 <= op -> op + 50 <= Zlen dst < U64 -> agree dst d0 op ->
  simulates dst ip op (fast_match src len dst token ip op) (careful_match block d0 token ip op).
Proof.
  intros Hip Hip2 Hop Hroom Ha. pose proof (proj1 Ha) as Hl0. unfold simulates, fast_match, careful_match, went. cbn zeta. pose proof block_len as Hbl.
  destruct (rd_u16_is_Some src ip) as [off Eo]; [lia..|]. rewrite Eo. cbn [mbind option_bind]. pose proof (rd_u16_range _ _ _ Eo) as Hoff. unfold U16 in Hoff.
  rewrite Hbl. unfold csub. rewrite (proj2 (Z.leb_le ip len)) by lia. cbn [mbind option_bind]. destruct (nibbles token) as [_ Hm]. set (n := Z.land (b2z token) 15) in *.
  assert (op <=? w64 (off - 1) = (off =? 0) || (op <? off)) as ->.
  { unfold w64. destruct (Z.eqb_spec off 0) as [->|]; cbn [orb].
    - apply Z.leb_le. change ((0 - 1) mod U64) with (U64 - 1). lia.
    - rewrite Z.mod_small by (unfold U64; lia). destruct (Z.ltb_spec op off); [apply Z.leb_le; lia|apply Z.leb_gt; lia]. }
  assert (len - ip <? 2 = negb (ip + 2 <=? len)) as -> by (destruct (Z.leb_spec (ip + 2) len); [apply Z.ltb_ge; lia|apply Z.ltb_lt; lia]).
  destruct ((off =? 0) || (op <? off)) eqn:Eoff.
  { left. split; [done|]. destruct (Z.leb_spec (ip + 2) len); cbn [negb]; [|done]. rewrite block_u16, Eo by lia. cbn [mbind option_bind]. by rewrite Eoff. }
  apply orb_false_iff in Eoff as E2. destruct E2 as [?%Z.eqb_neq ?%Z.ltb_ge]. destruct (Z.ltb_spec n 15).
  - destruct (short_match_ok dst op off (n + MINMATCH)) as (d1 & -> & F1); [lia|unfold MINMATCH; lia|lia|]. unfold MINMATCH in *. cbn [mbind option_bind].
    pose proof (fi_len _ _ _ _ _ F1). right. left. eexists d1, _, _. split; [done|]. split; [done|]. split; [lia|]. split; [lia|].
    destruct (Z.leb_spec (ip + 2) len); cbn [negb]; [right|left; split; [done|lia]]. split; [done|]. rewrite block_u16, Eo by lia. cbn [mbind option_bind]. rewrite Eoff.
    unfold with_len. rewrite (proj2 (Z.eqb_neq _ _)) by lia. cbn [obind]. pose proof (match_checked_ok d0 op off (n + 4)) as M.
    rewrite (proj2 (Z.ltb_ge (Zlen d0 - op) _)) in M by lia. destruct M as (d1' & -> & F1'); [lia..|]. exists d1'. split; [done|].
    eapply filled_agree; [exact F1|exact F1'|done|lia|]. intros j Hj. apply Ha. pose proof (Z.mod_pos_bound j off). lia.
  - assert (n = 15) as -> by lia. destruct (var_len_bounds block (ip + 2)) as [E|(v & ip' & E & Hi & Hv)]; [lia|apply block_ok|..]; rewrite E; cbn [obind].
    { left. split; [done|]. destruct (ip + 2 <=? len) eqn:E2; cbn [negb]; [|done]. rewrite block_u16, Eo by (apply Z.leb_le in E2; lia). cbn [mbind option_bind]. rewrite Eoff.
      unfold with_len. cbn [Z.add MINMATCH Pos.add Z.eqb Pos.eqb]. by rewrite E. }
    rewrite Hbl in Hi. rewrite (proj2 (Z.leb_le (ip + 2) len)) by lia. cbn [negb]. rewrite block_u16, Eo by lia. cbn [mbind option_bind]. rewrite Eoff.
    rewrite (proj2 (Z.leb_le op (Zlen dst - 32))) by lia. cbn [mbind option_bind]. unfold with_len. change (15 + MINMATCH) with 19. cbn [Z.eqb Pos.eqb]. rewrite E. cbn [obind].
    assert (w64 (19 + v) = 19 + v) as -> by (unfold len_ok in Hsrc; apply Z.mod_small; lia).
    pose proof (match_checked_ok d0 op off (19 + v)) as M. pose proof (match_checked_ok dst op off (19 + v)) as M'. rewrite Hl0 in M'.
    assert (forall d1 d1', filled dst op (behind dst op off) (19 + v) d1 -> filled d0 op (behind d0 op off) (19 + v) d1' -> agree d1 d1' (op + (19 + v))) as Hag.
    { intros d1 d1' F1 F1'. eapply filled_agree; [exact F1|exact F1'|done|lia|]. intros j Hj. apply Ha. pose proof (Z.mod_pos_bound j off). lia. }
    destruct (Z.ltb_spec (Zlen dst - 32 - op) (19 + v)).
    + destruct (Z.ltb_spec (Zlen d0 - op) (19 + v)); [left; by rewrite M, M' by lia|]. destruct M as (d1' & -> & F1'); [lia..|]. destruct M' as (d1 & -> & F1); [lia..|].
      cbn [obind]. right. right. left. eexists d1, _, _. split; [done|]. pose proof (fi_len _ _ _ _ _ F1). split; [done|]. split; [lia|]. split; [lia|]. right.
      split; [lia|]. exists d1'. split; [done|]. by apply Hag.
    + destruct (long_match_ok dst op off (19 + v)) as (d1 & -> & F1); [lia..|]. rewrite (proj2 (Z.ltb_ge _ _)) in M by lia. destruct M as (d1' & -> & F1'); [lia..|].
      cbn [obind mbind option_bind]. right. left. eexists d1, _, _. split; [done|]. pose proof (fi_len _ _ _ _ _ F1). split; [done|]. split; [lia|]. split; [lia|]. right.
      split; [lia|]. exists d1'. split; [done|]. by apply Hag.
Qed.

Lemma simulates_rest dst dst' ip ip' op op' t c : Zlen dst' = Zlen dst -> ip <= ip' -> op <= op' -> simulates dst' ip' op' t c -> simulates dst ip op t c.
Proof.
  intros Hl Hi Ho [H|[(d & i & o & -> & H)|[(d & i & o & -> & H)|(d & o & -> & ? & ? & H)]]].
  - by left.
  - right. left. exists d, i, o. split; [done|]. destruct H as (? & ? & ? & H). split; [congruence|]. split; [lia|]. by split; [lia|].
  - right. right. left. exists d, i, o. split; [done|]. destruct H as (? & ? & ? & H). split; [congruence|]. split; [lia|]. by split; [lia|].
  - right. right. right. exists d, o. split; [done|]. split; [congruence|]. split; [lia|done].
Qed.

(** A turn that lacks its room changes nothing; any other is the careful
    sequence. *)
Lemma fast_turn_ok dst d0 ip op olim : in_room ip -> 0 <= op <= olim -> olim = Zlen dst - FAST_OUT -> Zlen dst < U64 -> agree dst d0 op ->
  fast_turn padded src len dst ip op olim = Some (Ok (Break dst ip op)) \/
  simulates dst ip op (fast_turn padded src len dst ip op olim) (careful_sequence block d0 ip op).
Proof.
  intros Hr Hop Hol H64 Ha. pose proof (proj1 Ha) as Hlen0. unfold fast_turn. cbn zeta. pose proof block_len as Hbl.
  assert (0 <= ip < Zlen src /\ ip <= len + 1) as [Hip Hip1] by (unfold in_room, FAST_IN, PAD_IN in Hr; destruct padded; lia).
  destruct (get_at_is_Some src ip) as [token Et]; [done|]. rewrite Et. cbn [mbind option_bind].
  destruct (nibbles token) as [Hn _]. set (n := Z.shiftr (b2z token) 4) in *.
  pose proof (fast_run_ok dst (ip + 1) op olim n ltac:(by replace (ip + 1 - 1) with ip by lia) Hop Hol Hn) as R. unfold FAST_OUT in Hol.
  destruct R as [[-> Hc]|[->|(d1 & lit & ip1 & -> & Hw & Hi1 & Hlit & Hfull & Hop1 & Hoff & F1)]]; cbn [obind]; [|by left|].
  { right. left. split; [done|]. unfold careful_sequence. destruct (get_at block ip) eqn:Eb; [|done].
    pose proof (get_at_lt _ _ _ Eb). rewrite in_block_at in Eb by lia. assert (b = token) as -> by congruence. fold n.
    destruct Hc as [->|(v & ip' & -> & ? & ?)]; [done|]. cbn [obind]. rewrite Hbl. unfold csub. rewrite (proj2 (Z.leb_le ip' _)), (proj2 (Z.leb_le op _)) by lia.
    cbn [mbind option_bind]. by rewrite (proj2 (Z.ltb_lt _ _)) by lia. }
  right. pose proof (fi_len _ _ _ _ _ F1) as L1. destruct (Z.leb_spec len ip) as [Hpast|Hin].
  { left. rewrite (proj2 (Z.leb_le _ _)), (proj2 (Z.eqb_neq _ _)) by lia. split; [done|]. unfold careful_sequence. by rewrite (proj2 (get_at_None block ip)) by lia. }
  assert (ip1 <= len) as Hle1.
  { destruct (with_len_bounds block 15 n (ip + 1)) as [E|(v & i & E & ? & ? & ?)]; [lia|apply block_ok|lia|lia|by rewrite Hw in E|]. rewrite Hw in E. injection E as <- <-. lia. }
  unfold careful_sequence. rewrite in_block_at, Et by done. fold n. rewrite Hw. cbn [obind]. rewrite Hbl. unfold csub.
  rewrite (proj2 (Z.leb_le ip1 _)), (proj2 (Z.leb_le op _)) by lia. cbn [mbind option_bind]. rewrite (proj2 (Z.ltb_ge (Zlen d0 - op) _)), orb_false_r by lia.
  destruct (Z.ltb_spec (len - ip1) lit).
  { left. by rewrite (proj2 (Z.leb_le _ _)), (proj2 (Z.eqb_neq _ _)) by lia. }
  destruct (literals_ok block d0 ip1 op lit) as (d1' & -> & F1'); [lia..|]. cbn [mbind option_bind].
  assert (agree d1 d1' (op + lit)) as A1.
  { eapply filled_agree; [exact F1|exact F1'|done|lia|]. intros j Hj. cbn. symmetry. apply in_block_at. lia. }
  destruct (Z.eqb_spec (ip1 + lit) len) as [E|].
  - rewrite (proj2 (Z.leb_le _ _)) by lia. right. right. right. exists d1, (op + lit). split; [done|]. split; [done|]. split; [lia|]. exists d1'. by rewrite E.
  - rewrite (proj2 (Z.leb_gt _ _)) by lia. apply (simulates_rest dst d1 ip (ip1 + lit) op (op + lit)); [done|lia|lia|]. apply fast_match_ok; [lia|lia|lia|lia|done].
Qed.

(** ** The loop *)

Lemma fast_loop_ok fuel dst d0 ip op ilim olim cf : (if padded then len + PAD_IN <= Zlen src else ilim + FAST_IN <= Zlen src /\ ilim < len) ->
  olim = Zlen dst - FAST_OUT -> 0 <= ip <= len + 1 -> 0 <= op <= Zlen dst -> Zlen dst < U64 -> agree dst d0 op ->
  len + 2 - ip <= Z.of_nat fuel -> len - ip <= Z.of_nat cf -> let c := careful_loop cf block d0 ip op in
  fast_loop fuel padded src len dst ip op ilim olim = DecodeError /\ c = DecodeError \/
  exists ended d ip' op', fast_loop fuel padded src len dst ip op ilim olim = Some (Ok (ended, d, ip', op')) /\ 0 <= ip' /\ 0 <= op' <= Zlen d /\ Zlen d = Zlen dst /\
    exists d', agree d d' op' /\ if ended : bool then c = Some (Ok (op', d')) else exists cf', c = careful_loop cf' block d' ip' op' /\ len - ip' <= Z.of_nat cf'.
Proof.
  intros Hr. revert dst d0 ip op cf. induction fuel as [|fuel IH]; intros dst d0 ip op cf Hol Hip Hop H64 Ha Hfu Hcf; [lia|].
  assert (exists ended d ip' op', Some (Ok (false, dst, ip, op)) = Some (Ok (ended, d, ip', op')) /\ 0 <= ip' /\ 0 <= op' <= Zlen d /\ Zlen d = Zlen dst /\
    exists d', agree d d' op' /\ if ended : bool then careful_loop cf block d0 ip op = Some (Ok (op', d'))
      else exists cf', careful_loop cf block d0 ip op = careful_loop cf' block d' ip' op' /\ len - ip' <= Z.of_nat cf') as Hstop.
  { exists false, dst, ip, op. split; [done|]. split; [lia|]. split; [lia|]. split; [done|]. exists d0. split; [done|]. by exists cf. }
  cbn [fast_loop]. destruct ((op <=? olim) && (padded || (ip <=? ilim))) eqn:Eg; [|by right].
  apply andb_true_iff in Eg as [Ho%Z.leb_le Hi]. assert (in_room ip) as Hroom.
  { unfold in_room, FAST_IN in *. destruct padded; cbn [orb] in Hi; [lia|]. apply Z.leb_le in Hi. lia. }
  destruct (fast_turn_ok dst d0 ip op olim Hroom) as [->|S]; [lia|done|done|done|..]; cbn [obind]; [by right|].
  pose proof block_len as Hbl.
  assert (forall d ip' op', went (careful_sequence block d0 ip op) dst ip op d ip' op' -> exists d' cf', careful_loop cf block d0 ip op = careful_loop cf' block d' ip' op' /\
    agree d d' op' /\ len - ip' <= Z.of_nat cf') as Hw.
  { intros d ip' op' (Hd & Hi' & Ho' & [[Hc Hp]|(Hp & d' & Hc & Hag)]).
    - exists d, O. split; [|split; [done|lia]]. destruct cf; cbn [careful_loop]; rewrite Hbl, (proj2 (Z.ltb_ge ip' len)) by lia; [by rewrite (proj2 (Z.ltb_ge ip len)) by lia|].
      rewrite Hc. by destruct (ip <? len).
    - destruct (decide (ip < len)) as [Hlt|]; [|lia]. destruct cf as [|cf]; [lia|]. exists d', cf. cbn [careful_loop]. rewrite Hbl, (proj2 (Z.ltb_lt ip len)), Hc by lia. cbn [obind].
      split; [done|]. split; [done|lia]. }
  destruct S as [[-> Hc]|[(d & ip' & op' & -> & H)|[(d & ip' & op' & -> & H)|(d & op' & -> & Hd & Ho' & d' & Hc & Hag)]]]; cbn [obind].
  - left. split; [done|]. destruct cf; cbn [careful_loop]; rewrite Hbl; [by rewrite (proj2 (Z.ltb_ge ip len)) by lia|]. rewrite Hc. by destruct (ip <? len).
  - destruct (Hw _ _ _ H) as (d' & cf' & -> & Hag & Hcf'). destruct H as (Hd & Hi' & Ho' & _).
    destruct (IH d d' ip' op' cf') as [?|(e & d2 & i2 & o2 & ? & ? & ? & ? & ?)]; [lia|lia|lia|lia|done|lia|done|by left|right].
    exists e, d2, i2, o2. split; [done|]. split; [done|]. split; [done|]. split; [congruence|done].
  - right. destruct (Hw _ _ _ H) as (d' & cf' & -> & Hag & Hcf'). destruct H as (Hd & Hi' & Ho' & _). exists false, d, ip', op'. split; [done|]. split; [lia|]. split; [lia|].
    split; [done|]. exists d'. split; [done|]. by exists cf'.
  - right. exists true, d, len, op'. split; [done|]. split; [lia|]. split; [lia|]. split; [done|]. exists d'. split; [done|].
    destruct (decide (ip < len)) as [Hlt|].
    + destruct cf as [|cf]; [lia|]. cbn [careful_loop]. rewrite Hbl, (proj2 (Z.ltb_lt ip len)), Hc by lia. done.
    + unfold careful_sequence in Hc. by rewrite (proj2 (get_at_None block ip)) in Hc by lia.
Qed.
End turns.

(** C14: The fast decoder is the careful one. Of any bytes, followed by any
    others, into an output of any length and contents, its unchecked reads and
    writes stay inside the two buffers, none of its moves is between ranges that
    overlap, and it answers what the careful loop answers of the block alone: it
    refuses the same blocks, and decodes the others to the same bytes. Both
    return. *)
Theorem fast_is_careful src len dst dst' : len_ok src -> Zlen dst < U64 -> 0 <= len <= Zlen src -> Zlen dst' = Zlen dst ->
  same_decode (decompress_in src len dst) (careful_loop (Z.to_nat len) (take (Z.to_nat len) src) dst' 0 0).
Proof.
  intros Hl H64 Hlen Hd. unfold decompress_in. rewrite (proj2 (Z.ltb_ge _ _)) by lia. assert (Zlen (take (Z.to_nat len) src) = len) as Hbl by zlen.
  assert (agree dst dst' 0) as Ha. { split; [done|]. intros i Hi. by rewrite !(proj2 (get_at_None _ _)) by lia. }
  assert (len_ok (take (Z.to_nat len) src)) as Hbo by (unfold len_ok in *; zlen).
  assert (forall fuel padded ilim, 0 < len -> FAST_OUT <= Zlen dst -> (if padded : bool then len + PAD_IN <= Zlen src else ilim + FAST_IN <= Zlen src /\ ilim < len) -> len + 2 <= Z.of_nat fuel ->
    same_decode (let? (ended, dst, ip, op) := fast_loop fuel padded src len dst 0 0 ilim (Zlen dst - FAST_OUT) in
      if ended : bool then Some (Ok (op, dst)) else careful_loop (Z.to_nat len) (take (Z.to_nat len) src) dst ip op)
      (careful_loop (Z.to_nat len) (take (Z.to_nat len) src) dst' 0 0)) as Hfast.
  { intros fuel padded ilim Hpos Hroom Hr Hfu. pose proof (Zlen_nonneg dst).
    destruct (fast_loop_ok padded src len Hl ltac:(lia) fuel dst dst' 0 0 ilim (Zlen dst - FAST_OUT) (Z.to_nat len)) as [[-> ->]|(e & d & i & o & -> & Hi & Ho & Hd1 & d' & Hag & He)];
      [done|done|lia|lia|done|done|lia|lia|by left|]. cbn [obind]. destruct e.
    - right. exists o, d, d'. split; [done|]. split; [done|]. by split; [lia|].
    - destruct He as (cf & -> & Hcf). apply careful_loop_same; [done|lia|lia|done|lia|lia]. }
  destruct (Z.ltb_spec 0 len); cbn [andb]; [destruct (Z.leb_spec FAST_OUT (Zlen dst)); [destruct (Z.leb_spec PAD_IN (Zlen src - len)); [|destruct (Z.leb_spec FAST_IN (Zlen src))]|]|].
  - apply Hfast; [done|done|lia|lia].
  - apply Hfast; [done|done|lia|lia].
  - cbn [obind]. apply careful_loop_same; [done|lia|pose proof (Zlen_nonneg dst); lia|done|lia|lia].
  - cbn [obind]. apply careful_loop_same; [done|lia|pose proof (Zlen_nonneg dst); lia|done|lia|lia].
  - cbn [obind]. apply careful_loop_same; [done|lia|pose proof (Zlen_nonneg dst); lia|done|lia|lia].
Qed.

(** Sixteen literals, a match of forty bytes from three back, a last literal,
    and a readable tail: the turns of both kinds. *)
Definition sample_block : bytes :=
  [xff; x01] ++ replicate 16 x61 ++ [x03; x00; x15] ++ [x10; x62].
Lemma fast_is_careful_witness : let src := sample_block ++ replicate 70 xff in
  same_decode (decompress_in src (Zlen sample_block) (zeros 130)) (careful_loop (Z.to_nat (Zlen sample_block)) (take (Z.to_nat (Zlen sample_block)) src) (zeros 130) 0 0) /\
  exists d, decompress_in src (Zlen sample_block) (zeros 130) = Some (Ok (57, d)).
Proof. intros src. split; [apply (fast_is_careful src (Zlen sample_block) (zeros 130) (zeros 130)); done|]. eexists. vm_compute. reflexivity. Defined.
