(* ===== verification/Lz4Enc.v ===== *)
(** * LZ4 blocks: the encoder

    [src/src/db/zlz4.rs], the encoder's half: the hash chains, the lazy parse,
    the search of every position and the shortest path over what it finds, and
    the writer of the sequences chosen. The tables are kept from group to group
    and never cleared but for the base that dates their entries. Whatever the
    effort, up to four steps of the lazy parse ahead, a group decodes to itself
    ([lz4_roundtrip]); at more it may not ([lazy_steps_corrupt]). *)

From S2P Require Import Prelude Lz4 Lz4Fast.

Definition LASTLITERALS : Z := 5.
Definition MFLIMIT : Z := 12.
Definition MAX_DISTANCE : Z := 65535.
Definition HASH_LOG : Z := 13.
Definition RESUME : Z := 3.
Definition MAX_INPUT : Z := 64 * 1024.
Definition INF : Z := (U32 - 1) / 4.

Record Effort := mkEffort { attempts : Z; seq_cost : Z; skip_min : Z; lazy_ : Z }.
Definition SHIPPED : Effort := mkEffort 16 0 8 1.

(** A sequence: literal start, literal count, offset, match length. *)
Definition Sequence : Type := Z * Z * Z * Z.
Record Encoder := mkEncoder {
  en_head : list Z; en_chain : list Z; en_base : Z;
  en_best : list (Z * Z); en_m_cost : list Z; en_m_from : list (Z * Z); en_p_lit : list Z;
  en_seqs : list Sequence
}.
Definition encoder_new : Encoder := mkEncoder (replicate (Z.to_nat (Z.shiftl 1 HASH_LOG)) 0) [] 0 [] [] [] [] [].

(** ** The hash chains *)

Definition max_output (n : Z) : Z := n + n / 255 + 16.
Definition ext (k : Z) : Z := if k <? 15 then 0 else w32 (1 + (k - 15) / 255).
Definition lit_step (k : Z) : Z := ext (k + 1) - ext k.
Definition lit_run (k : Z) : Z := w32 (1 + ext k + k).
Definition hash (v : Z) : Z := Z.shiftr (w32 (v * 2654435761)) (32 - HASH_LOG).

Fixpoint tz (p : positive) : Z := match p with xO p => 1 + tz p | _ => 0 end.
Definition trailing_zeros (x : Z) : Z := match x with Zpos p => tz p | _ => 64 end.

(** [common]: the words, and from where they end the bytes. *)
Fixpoint common_bytes (fuel : nat) (b : bytes) (a s max l : Z) : option Z :=
  if l <? max then
    match fuel with
    | O => None
    | S fuel => x ← get_at b (a + l); y ← get_at b (s + l); if byte_eqb x y then common_bytes fuel b a s max (l + 1) else Some l
    end
  else Some l.
Fixpoint common_words (fuel : nat) (b : bytes) (a s max l : Z) : option Z :=
  if l + 8 <=? max then
    match fuel with
    | O => None
    | S fuel =>
        x ← rd_u64 b (a + l); y ← rd_u64 b (s + l);
        let x := Z.lxor x y in
        if negb (x =? 0) then Some (l + trailing_zeros x / 8) else common_words fuel b a s max (l + 8)
    end
  else common_bytes 8 b a s max l.
Definition common (b : bytes) (a s max : Z) : option Z := common_words (Z.to_nat max) b a s max 0.

Definition insert (head chain : list Z) (s h base : Z) : option (list Z * list Z) :=
  prev ← get_at head h;
  c ← if base <? prev then w16 <$> csub s (prev - base - 1) else Some 0;
  chain ← put_range chain s [c];
  head ← put_range head h [w32 (base + s + 1)];
  Some (head, chain).

(** The match of [p] with [q] where it is longer than the best. *)
Definition longer (input : bytes) (p q max_len v best_len : Z) : option (option Z) :=
  x ← get_at input (q + best_len); y ← get_at input (p + best_len);
  if byte_eqb x y then
    w ← rd_u32 input q;
    if w =? v then l ← common input q p max_len; Some (if best_len <? l then Some l else None) else Some None
  else Some None.

(** The walk of a chain: the longest match and its offset. [window] is whether
    a position past the window ends it, as in [search] alone. A step goes to an
    earlier position, so the position is fuel. *)
Fixpoint walk_go (fuel : nat) (window : bool) (input : bytes) (p max_len v : Z) (chain : list Z) (base cand tries best_len best_off : Z) : option (Z * Z) :=
  if (base <? cand) && (0 <? tries) then
    match fuel with
    | O => None
    | S fuel =>
        let q := cand - base - 1 in
        if window && (MAX_DISTANCE <? p - q) then Some (best_len, best_off) else
        found ← longer input p q max_len v best_len;
        '(best_len, best_off, whole) ← match found with Some l => (fun off => (l, off, l =? max_len)) <$> csub p q | None => Some (best_len, best_off, false) end;
        if whole : bool then Some (best_len, best_off) else
        c ← get_at chain q;
        if c =? 0 then Some (best_len, best_off) else walk_go fuel window input p max_len v chain base (w32 (cand - c)) (tries - 1) best_len best_off
    end
  else Some (best_len, best_off).

(** [while *ins < p]. *)
Fixpoint catch_up (fuel : nat) (input : bytes) (p base ins : Z) (head chain : list Z) : option (list Z * list Z) :=
  if ins <? p then
    match fuel with
    | O => None
    | S fuel =>
        v ← rd_u32 input ins;
        '(head, chain) ← insert head chain ins (hash v) base;
        catch_up fuel input p base (ins + 1) head chain
    end
  else Some (head, chain).

(** What the searches of a group share: the first position not inserted and the
    tables. *)
Definition Tables : Type := Z * list Z * list Z.
Definition longest_at (input : bytes) (limit tries base : Z) (t : Tables) (p : Z) : option (Z * Z * Tables) :=
  let '(ins, head, chain) := t in
  '(head, chain) ← catch_up (Z.to_nat p) input p base ins head chain;
  v ← rd_u32 input p;
  max_len ← csub limit p;
  cand ← get_at head (hash v);
  '(len, off) ← walk_go (S (Z.to_nat p)) false input p max_len v chain base cand tries (MINMATCH - 1) 0;
  Some (len, off, (Z.max ins p, head, chain)).

(** ** The lazy parse *)

(** ['ahead]: the match at [s] and the steps [k] on. A turn moves [s + k] one on. *)
Fixpoint ahead_go (fuel : nat) (at_ : Tables -> Z -> option (Z * Z * Tables)) (lazy last_start : Z) (t : Tables) (s len off k : Z) : option (Z * Z * Z * Tables) :=
  if lazy <? k then Some (s, len, off, t)
  else if last_start <? s + k then Some (s, len, off, t)
  else
    match fuel with
    | O => None
    | S fuel =>
        '(l2, o2, t) ← at_ t (s + k);
        if len + k - 1 <? l2 then ahead_go fuel at_ lazy last_start t (s + k) l2 o2 1 else ahead_go fuel at_ lazy last_start t s len off (k + 1)
    end.

Fixpoint lazy_go (fuel : nat) (at_ : Tables -> Z -> option (Z * Z * Tables)) (lazy last_start : Z) (t : Tables) (s anchor : Z) (seqs : list Sequence) : option (Tables * list Sequence) :=
  if s <=? last_start then
    match fuel with
    | O => None
    | S fuel =>
        '(len, off, t) ← at_ t s;
        if len <? MINMATCH then lazy_go fuel at_ lazy last_start t (s + 1) anchor seqs else
        '(s, len, off, t) ← ahead_go (Z.to_nat (last_start + 1)) at_ lazy last_start t s len off 1;
        lazy_go fuel at_ lazy last_start t (s + len) (s + len) (seqs ++ [(anchor, s - anchor, w16 off, len)])
    end
  else Some (t, seqs).

(** The base of a group, its tables cleared where it would wrap. *)
Definition fresh_base (e : Encoder) : list Z * Z :=
  if U32 - 1 - 2 * MAX_INPUT - 2 <? en_base e then (map (fun _ => 0) (en_head e), 0) else (en_head e, en_base e).

Definition resize {A} (l : list A) (n : Z) (x : A) : list A := take (Z.to_nat n) l ++ replicate (Z.to_nat (n - Zlen l)) x.

Definition lazy_parse (e : Encoder) (input : bytes) (f : Effort) : option Encoder :=
  let n := Zlen input in
  let '(head, base) := fresh_base e in
  let chain := if Zlen (en_chain e) <? n then resize (en_chain e) n 0 else en_chain e in
  slice ← get_range chain 0 n;
  last_start ← csub n MFLIMIT; limit ← csub n LASTLITERALS;
  '((_, head, slice), seqs) ← lazy_go (Z.to_nat n) (longest_at input limit (attempts f) base) (lazy_ f) last_start (0, head, slice) 0 0 [];
  chain ← put_range chain 0 slice;
  Some (mkEncoder head chain (w32 (base + n + 1)) (en_best e) (en_m_cost e) (en_m_from e) (en_p_lit e) (reverse seqs)).

(** ** The search of every position *)

(** The run of a long match found: where, up to where, its offset. *)
Definition Run : Type := Z * Z * Z.
Definition search_at (input : bytes) (f : Effort) (base last_start limit : Z) (st : list Z * list Z * list (Z * Z) * Run) (s : Z) :
    option (list Z * list Z * list (Z * Z) * Run) :=
  let '(head, chain, best, run) := st in
  let '(from, upto, off) := run in
  v ← rd_u32 input s;
  let h := hash v in
  if (s <? ssub upto RESUME) && (from <? s) then
    best ← put_range best s [(upto - s, off)];
    '(head, chain) ← insert head chain s h base;
    Some (head, chain, best, run)
  else
    max_len ← csub limit s;
    cand ← get_at head h;
    '(best_len, best_off) ← walk_go (S (Z.to_nat s)) true input s max_len v chain base cand (attempts f) (MINMATCH - 1) 0;
    '(best, run) ← (if MINMATCH <=? best_len then
        best ← put_range best s [(best_len, w16 best_off)];
        Some (best, if skip_min f <=? best_len then (s, s + best_len, w16 best_off) else run)
      else Some (best, run));
    '(head, chain) ← insert head chain s h base;
    Some (head, chain, best, run).

Definition search (e : Encoder) (input : bytes) (f : Effort) : option Encoder :=
  let n := Zlen input in
  let '(head, base) := fresh_base e in
  last_start ← csub n MFLIMIT; limit ← csub n LASTLITERALS;
  '(head, chain, best, _) ← ofold (search_at input f base last_start limit) (seqZ 0 (last_start + 1)) (head, resize [] n 0, resize [] n (0, 0), (0, 0, 0));
  Some (mkEncoder head chain (w32 (base + n + 1)) best (en_m_cost e) (en_m_from e) (en_p_lit e) (en_seqs e)).

(** ** The shortest path *)

Definition Costs : Type := list Z * list (Z * Z).
(** A match from [i] of the offset that ends at [j], for less. *)
Definition close_at (i off c : Z) (t : Costs) (j : Z) : option Costs :=
  let '(m_cost, m_from) := t in
  old ← get_at m_cost j;
  if c <? old then m_cost ← put_range m_cost j [c]; m_from ← put_range m_from j [(i, off)]; Some (m_cost, m_from) else Some t.
(** A shorter one, where another match starts that reaches past its end. *)
Definition cut_at (best : list (Z * Z)) (i off seq reach : Z) (t : Costs) (j : Z) : option Costs :=
  b ← get_at best j;
  if (MINMATCH <=? fst b) && (reach <? j + fst b) then close_at i off (w32 (seq + ext (j - i - MINMATCH))) t j else Some t.

Definition relax_at (best : list (Z * Z)) (f : Effort) (last_start i pc pl : Z) (t : Costs) : option Costs :=
  if last_start <? i then Some t else
  '(longest, off) ← get_at best i;
  if longest <? MINMATCH then Some t else
  let check := (0 <? pl) && (0 <? i) in
  b ← (if check then get_at best (i - 1) else Some (0, 0));
  if check && (fst b =? longest + 1) && (snd b =? off) then Some t else
  let seq := w32 (pc + 3 + seq_cost f) in
  let reach := i + longest in
  t ← close_at i off (w32 (seq + ext (longest - MINMATCH))) t reach;
  let from := Z.max (i + MINMATCH) (ssub reach MINMATCH) in
  let stop := Z.min reach (last_start + 1) in
  ofold (cut_at best i off seq reach) (seqZ from (stop - from)) t.

(** The end and its price, and the run of literals at the position before. *)
Definition Path : Type := Costs * list Z * (Z * Z) * (Z * Z).
Definition shortest_at (best : list (Z * Z)) (f : Effort) (n last_start : Z) (st : Path) (i : Z) : option Path :=
  let '(t, p_lit, (end_, cost), (pc, pl)) := st in
  fresh ← get_at (fst t) i;
  let c := w32 (fresh + lit_run (n - i)) in
  let '(end_, cost) := if (0 <? i) && (fresh <? INF) && ((c <? cost) || (c =? cost) && (end_ <? i)) then (i, c) else (end_, cost) in
  let carry := if i =? 0 then INF else w32 (pc + 1 + lit_step pl) in
  let '(pc, pl) := if fresh <=? carry then (fresh, 0) else (carry, w32 (pl + 1)) in
  p_lit ← put_range p_lit i [pl];
  t ← relax_at best f last_start i pc pl t;
  Some (t, p_lit, (end_, cost), (pc, pl)).

(** Back from the end; a sequence is not empty, so the end is fuel. *)
Fixpoint back_go (fuel : nat) (m_from : list (Z * Z)) (p_lit : list Z) (e2 : Z) (seqs : list Sequence) : option (list Sequence) :=
  if 0 <? e2 then
    match fuel with
    | O => None
    | S fuel =>
        '(s, off) ← get_at m_from e2;
        lit ← get_at p_lit s;
        at_ ← csub s lit; ml ← csub e2 s;
        back_go fuel m_from p_lit at_ (seqs ++ [(at_, lit, off, ml)])
    end
  else Some seqs.

Definition shortest (e : Encoder) (input : bytes) (f : Effort) : option Encoder :=
  let n := Zlen input in
  last_start ← csub n MFLIMIT;
  best ← get_range (en_best e) 0 n;
  m_cost ← put_range (resize [] (n + 1) INF) 0 [0];
  '((m_cost, m_from), p_lit, (end_, _), _) ← ofold (shortest_at best f n last_start) (seqZ 0 (n + 1))
    ((m_cost, resize [] (n + 1) (0, 0)), resize [] (n + 1) 0, (0, lit_run n), (INF, 0));
  seqs ← back_go (Z.to_nat end_) m_from p_lit end_ (en_seqs e);
  Some (mkEncoder (en_head e) (en_chain e) (en_base e) (en_best e) m_cost m_from p_lit seqs).

(** ** The block *)

Definition set_seqs (e : Encoder) (seqs : list Sequence) : Encoder :=
  mkEncoder (en_head e) (en_chain e) (en_base e) (en_best e) (en_m_cost e) (en_m_from e) (en_p_lit e) seqs.
Definition parse (e : Encoder) (input : bytes) (f : Effort) : option Encoder :=
  let e := set_seqs e [] in
  if (Zlen input <? MFLIMIT + 1) || (attempts f =? 0) then Some e else
  if 0 <? lazy_ f then lazy_parse e input f else e ← search e input f; shortest e input f.

(** [put_len]'s loop over what is past the nibble. *)
Fixpoint put_len_go (fuel : nat) (out : bytes) (o r : Z) : option (bytes * Z) :=
  if 255 <=? r then
    match fuel with O => None | S fuel => out ← put_range out o [xff]; put_len_go fuel out (o + 1) (r - 255) end
  else out ← put_range out o [z2b r]; Some (out, o + 1).
Definition put_len (out : bytes) (o k : Z) : option (bytes * Z) := if k <? 15 then Some (out, o) else put_len_go (Z.to_nat k) out o (k - 15).

Definition emit_seq (input : bytes) (st : bytes * Z * Z) (q : Sequence) : option (bytes * Z * Z) :=
  let '(out, o, pos) := st in
  let '(lit_at, lit, off, ml) := q in
  k ← csub ml MINMATCH;
  out ← put_range out o [z2b (Z.lor (Z.shiftl (Z.min lit 15) 4) (Z.min k 15))];
  '(out, o) ← put_len out (o + 1) lit;
  lits ← get_range input lit_at (lit_at + lit);
  out ← put_range out o lits;
  out ← put_range out (o + lit) (le16 off);
  '(out, o) ← put_len out (o + lit + 2) k;
  Some (out, o, lit_at + lit + ml).

Definition emit (e : Encoder) (input out : bytes) : option (Z * bytes) :=
  '(out, o, pos) ← ofold (emit_seq input) (reverse (en_seqs e)) (out, 0, 0);
  lit ← csub (Zlen input) pos;
  out ← put_range out o [z2b (Z.shiftl (Z.min lit 15) 4)];
  '(out, o) ← put_len out (o + 1) lit;
  lits ← get_from input pos;
  out ← put_range out o lits;
  Some (o + lit, out).

(** The length written and the output, or [None] inside for a refusal. *)
Definition compress_into (e : Encoder) (input out : bytes) (f : Effort) : option (option (Z * bytes) * Encoder) :=
  let n := Zlen input in
  if (MAX_INPUT <? n) || (Zlen out <? max_output n) then Some (None, e) else
  e ← parse e input f;
  r ← emit e input out;
  Some (Some r, e).

(** ** [common] is the length two positions agree for *)

Lemma tz_pow p : 0 <= tz p /\ exists q, Zpos p = 2 ^ tz p * q.
Proof.
  induction p as [p IH|p [Hp [q Hq]]|]; cbn [tz]; [split; [lia|exists (Zpos (xI p)); lia]| |split; [lia|exists 1; lia]].
  split; [lia|]. exists q. rewrite Z.pow_add_r by lia. lia.
Qed.

Lemma trailing_zeros_lt x : 0 < x -> x mod 256 <> 0 -> trailing_zeros x / 8 = 0.
Proof.
  intros Hx Hm. destruct x as [|p|]; try lia. cbn [trailing_zeros]. destruct (tz_pow p) as [H0 [q Hq]]. apply Z.div_small. split; [done|].
  destruct (Z.lt_ge_cases (tz p) 8) as [|H8]; [done|]. exfalso. apply Hm. rewrite Hq. replace (tz p) with (8 + (tz p - 8)) by lia.
  rewrite Z.pow_add_r by lia. change (2 ^ 8) with 256. replace (256 * 2 ^ (tz p - 8) * q) with ((2 ^ (tz p - 8) * q) * 256) by lia. by apply Z.mod_mul.
Qed.

Lemma trailing_zeros_byte x : 0 < x -> trailing_zeros (256 * x) / 8 = 1 + trailing_zeros x / 8.
Proof.
  intros Hx. destruct x as [|p|]; try lia. assert (256 * Zpos p = Zpos (p~0~0~0~0~0~0~0~0)) as -> by lia. cbn [trailing_zeros tz].
  replace (1 + (1 + (1 + (1 + (1 + (1 + (1 + (1 + tz p)))))))) with (tz p + 1 * 8) by lia. rewrite Z.div_add by lia. lia.
Qed.

(** The first byte two words differ in. *)
Lemma first_differ (x y : bytes) : length x = length y -> let z := Z.lxor (le_val x) (le_val y) in z <> 0 ->
  let t := trailing_zeros z / 8 in 0 <= t < Zlen x /\ (forall i, 0 <= i < t -> get_at x i = get_at y i) /\ get_at x t <> get_at y t.
Proof.
  revert y. induction x as [|b x IH]; intros [|c y] Hl z Hz; try done. injection Hl as Hl. subst z. cbn [le_val] in *.
  pose proof (b2z_range b). pose proof (b2z_range c). pose proof (le_val_range x). pose proof (le_val_range y). pose proof (Zlen_nonneg x).
  assert (Z.lxor (b2z b + 256 * le_val x) (b2z c + 256 * le_val y) = Z.lxor (b2z b) (b2z c) + 256 * Z.lxor (le_val x) (le_val y)) as E.
  { rewrite !(Z.mul_comm 256). change 256 with (2 ^ 8).
    rewrite <- (lxor_disjoint_add (b2z b) (le_val x) 8), <- (lxor_disjoint_add (b2z c) (le_val y) 8) by lia.
    rewrite <- (lxor_disjoint_add (Z.lxor (b2z b) (b2z c)) (Z.lxor (le_val x) (le_val y)) 8) by (try lia; apply lxor_range; lia). rewrite Z.shiftl_lxor.
    rewrite !Z.lxor_assoc. f_equal. rewrite <- !Z.lxor_assoc. f_equal. apply Z.lxor_comm. }
  rewrite E in *. rewrite Zlen_cons. pose proof (lxor_range (b2z b) (b2z c) 8 ltac:(lia) ltac:(lia) ltac:(lia)).
  assert (0 <= Z.lxor (le_val x) (le_val y)) by (apply Z.lxor_nonneg; lia).
  destruct (decide (b = c)) as [<-|Hbc].
  - rewrite Z.lxor_nilpotent in *. rewrite Z.add_0_l in *. destruct (IH y Hl ltac:(lia)) as (Ht & Hag & Hd). rewrite trailing_zeros_byte by lia.
    split; [lia|]. split.
    + intros i Hi. destruct (decide (i = 0)) as [->|]; [done|]. rewrite !get_at_cons by lia. apply Hag. lia.
    + rewrite !get_at_cons by lia. by replace (1 + _ - 1) with (trailing_zeros (Z.lxor (le_val x) (le_val y)) / 8) by lia.
  - rewrite trailing_zeros_lt; [split; [lia|]; split; [lia|]|lia|].
    + rewrite !get_at_here by done. congruence.
    + rewrite Z.mul_comm, Z.mod_add, Z.mod_small by lia. intros Hx. apply Z.lxor_eq in Hx. apply b2z_inj in Hx. done.
Qed.

(** [l] bytes agree, and no more unless [max] do. *)
Definition agrees (b : bytes) (a s max l : Z) : Prop :=
  0 <= l <= max /\ (forall j, 0 <= j < l -> get_at b (a + j) = get_at b (s + j)) /\ (l < max -> get_at b (a + l) <> get_at b (s + l)).

Lemma common_ok b a s max : 0 <= a -> 0 <= s -> 0 <= max -> a + max <= Zlen b -> s + max <= Zlen b ->
  exists l, common b a s max = Some l /\ agrees b a s max l.
Proof.
  intros Ha Hs Hm Hea Hes. unfold common.
  assert (forall fuel l, 0 <= l <= max -> max - l <= Z.of_nat fuel -> (forall j, 0 <= j < l -> get_at b (a + j) = get_at b (s + j)) ->
    exists l', common_bytes fuel b a s max l = Some l' /\ agrees b a s max l') as Hb.
  { intros fuel. induction fuel as [|fuel IH]; intros l Hl Hf Hag; cbn [common_bytes]; destruct (Z.ltb_spec l max); try lia;
      try (exists l; split; [done|]; split; [lia|]; split; [done|lia]).
    destruct (get_at_is_Some b (a + l)) as [x Ex]; [lia|]. destruct (get_at_is_Some b (s + l)) as [y Ey]; [lia|]. rewrite Ex, Ey. cbn [mbind option_bind].
    destruct (byte_eqb x y) eqn:E.
    - apply byte_eqb_eq in E as ->. apply IH; [lia|lia|]. intros j Hj. destruct (decide (j = l)) as [->|]; [congruence|]. apply Hag. lia.
    - exists l. split; [done|]. split; [lia|]. split; [done|]. intros _ Heq. rewrite Ex, Ey in Heq. injection Heq as ->. by rewrite (proj2 (byte_eqb_eq y y)) in E. }
  enough (forall fuel l, 0 <= l <= max -> max - l <= Z.of_nat fuel -> (forall j, 0 <= j < l -> get_at b (a + j) = get_at b (s + j)) ->
    exists l', common_words fuel b a s max l = Some l' /\ agrees b a s max l') as H.
  { apply H; [lia|lia|]. intros. lia. }
  intros fuel. induction fuel as [|fuel IH]; intros l Hl Hf Hag; cbn [common_words]; destruct (Z.leb_spec (l + 8) max); try lia; try (apply Hb; [lia|lia|done]).
  unfold rd_u64. destruct (get_range_is_Some b (a + l) (a + l + 8)) as [x Ex]; [lia..|]. destruct (get_range_is_Some b (s + l) (s + l + 8)) as [y Ey]; [lia..|].
  rewrite Ex, Ey. cbn [fmap option_fmap option_map mbind option_bind]. pose proof (get_range_len _ _ _ _ Ex). pose proof (get_range_len _ _ _ _ Ey).
  assert (length x = length y) as Hxy by (unfold Zlen in *; lia). destruct (Z.eqb_spec (Z.lxor (le_val x) (le_val y)) 0) as [Hz|Hz]; cbn [negb].
  - apply Z.lxor_eq, le_val_inj in Hz as ->; [|done]. apply IH; [lia|lia|]. intros j Hj. destruct (decide (j < l)); [apply Hag; lia|].
    replace (a + j) with (a + l + (j - l)) by lia. replace (s + j) with (s + l + (j - l)) by lia.
    rewrite <- (get_range_get _ _ _ _ (j - l) Ex), <- (get_range_get _ _ _ _ (j - l) Ey) by lia. done.
  - destruct (first_differ x y Hxy Hz) as (Ht & Hsame & Hd). set (t := trailing_zeros _ / 8) in *. exists (l + t). split; [done|]. split; [lia|]. split.
    + intros j Hj. destruct (decide (j < l)); [apply Hag; lia|]. replace (a + j) with (a + l + (j - l)) by lia. replace (s + j) with (s + l + (j - l)) by lia.
      rewrite <- (get_range_get _ _ _ _ (j - l) Ex), <- (get_range_get _ _ _ _ (j - l) Ey) by lia. apply Hsame. lia.
    + intros _. rewrite !Z.add_assoc, <- (get_range_get _ _ _ _ t Ex), <- (get_range_get _ _ _ _ t Ey) by lia. done.
Qed.

(** ** Chains name earlier positions *)

Lemma rd_u32_ok b i : 0 <= i -> i + 4 <= Zlen b -> exists v, rd_u32 b i = Some v /\ 0 <= v < U32.
Proof. intros. destruct (rd_u32_is_Some b i) as [v E]; [lia..|]. exists v. split; [done|]. by eapply rd_u32_range. Qed.
Lemma hash_range v : 0 <= hash v < 8192.
Proof.
  unfold hash, w32, HASH_LOG. change 8192 with (2 ^ 13). pose proof (Z.mod_pos_bound (v * 2654435761) U32 ltac:(done)).
  rewrite Z.shiftr_div_pow2 by lia. unfold U32 in *. split; [apply Z.div_pos; lia|]. apply Z.div_lt_upper_bound; lia.
Qed.
Lemma put_at_ok {A} (l : list A) i x : 0 <= i < Zlen l -> exists l', put_range l i [x] = Some l' /\ Zlen l' = Zlen l /\
  forall j, get_at l' j = if decide (j = i) then Some x else get_at l j.
Proof.
  intros Hi. destruct (put_range_is_Some l i [x]) as [l' E]; [lia|rewrite Zlen_cons, Zlen_nil; lia|]. exists l'. split; [done|]. split; [by eapply put_range_len|].
  intros j. rewrite (put_range_get _ _ _ _ _ E). rewrite Zlen_cons, Zlen_nil. destruct (decide (j = i)) as [->|].
  - rewrite decide_True by lia. by rewrite get_at_here by lia.
  - by rewrite decide_False by lia.
Qed.

Section group.
Context (input : bytes) (base : Z).
#[local] Abbreviation n := (Zlen input).
#[local] Abbreviation last_start := (n - MFLIMIT).
#[local] Abbreviation limit := (n - LASTLITERALS).

(** The tables with the positions below [ins] inserted: an entry below the base
    names no position of this group, and a link goes to an earlier one. *)
Record tables_ok (ins : Z) (head chain : list Z) : Prop := {
  tb_head : Zlen head = 8192;
  tb_chain : Zlen chain = n;
  tb_entry : forall h x, get_at head h = Some x -> 0 <= x <= base + ins;
  tb_link : forall q c, 0 <= q < ins -> get_at chain q = Some c -> 0 <= c <= q
}.
Definition based : Prop := 0 <= base /\ base + n + 1 < U32 /\ n <= MAX_INPUT.

Lemma insert_ok s h head chain : based -> tables_ok s head chain -> 0 <= s < n -> 0 <= h < 8192 ->
  exists head' chain', insert head chain s h base = Some (head', chain') /\ tables_ok (s + 1) head' chain'.
Proof.
  intros (Hb & Hbn & Hn) [H1 H2 H3 H4] Hs Hh. unfold insert, MAX_INPUT in *. destruct (get_at_is_Some head h) as [prev Ep]; [lia|]. rewrite Ep. cbn [mbind option_bind].
  pose proof (H3 _ _ Ep). assert (exists c, (if base <? prev then w16 <$> csub s (prev - base - 1) else Some 0) = Some c /\ 0 <= c <= s) as (c & -> & Hc).
  { destruct (Z.ltb_spec base prev); [|exists 0; split; [done|lia]]. unfold csub. rewrite (proj2 (Z.leb_le _ _)) by lia. eexists. split; [done|]. unfold w16, U16. rewrite Z.mod_small; lia. }
  cbn [mbind option_bind]. destruct (put_at_ok chain s c) as (chain' & -> & Hlc & Hgc); [lia|]. destruct (put_at_ok head h (w32 (base + s + 1))) as (head' & -> & Hlh & Hgh); [lia|].
  cbn [mbind option_bind]. exists head', chain'. split; [done|]. assert (w32 (base + s + 1) = base + s + 1) as E by (apply Z.mod_small; lia). split; [lia|lia|..].
  - intros k x. rewrite Hgh. case_decide; [intros [= <-]; lia|]. intros Hx. apply H3 in Hx. lia.
  - intros q c' Hq. rewrite Hgc. case_decide; [intros [= <-]; lia|]. apply H4. lia.
Qed.

Lemma catch_up_ok p ins head chain fuel : based -> tables_ok ins head chain -> 0 <= ins -> ins <= p -> p + 4 <= n -> p - ins <= Z.of_nat fuel ->
  exists head' chain', catch_up fuel input p base ins head chain = Some (head', chain') /\ tables_ok p head' chain'.
Proof.
  intros Hb. revert ins head chain. induction fuel as [|fuel IH]; intros ins head chain Ht H0 Hi Hp Hf; cbn [catch_up]; destruct (Z.ltb_spec ins p); try lia;
    try (assert (ins = p) as -> by lia; by exists head, chain).
  destruct (rd_u32_ok input ins) as (v & -> & Hv); [lia..|]. cbn [mbind option_bind].
  destruct (insert_ok ins (hash v) head chain) as (head' & chain' & -> & Ht'); [done|done|lia|apply hash_range|]. cbn [mbind option_bind]. apply IH; [done|lia..].
Qed.

(** A match the format can hold: its bytes are those [off] back. *)
Record matches (p off len : Z) : Prop := {
  ma_off : 0 < off <= p /\ off <= MAX_DISTANCE;
  ma_len : MINMATCH <= len;
  ma_start : p <= last_start;
  ma_end : p + len <= limit;
  ma_same : forall j, 0 <= j < len -> get_at input (p + j) = get_at input (p + j - off)
}.
(** What a search holds as its best. *)
Definition best_ok (p len off : Z) : Prop := len = MINMATCH - 1 \/ matches p off len.

Lemma longer_ok p q v best_len : based -> 0 <= q < p -> p <= last_start -> 3 <= best_len < limit - p -> exists r, longer input p q (limit - p) v best_len = Some r /\
  forall l, r = Some l -> best_len < l /\ matches p (p - q) l.
Proof.
  intros (_ & _ & Hn) Hq Hp Hb. unfold MAX_INPUT, longer, MFLIMIT, LASTLITERALS in *. destruct (get_at_is_Some input (q + best_len)) as [x ->]; [lia|].
  destruct (get_at_is_Some input (p + best_len)) as [y ->]; [lia|]. cbn [mbind option_bind]. destruct (byte_eqb x y); [|by eexists].
  destruct (rd_u32_ok input q) as (w & -> & _); [lia..|]. cbn [mbind option_bind]. destruct (w =? v); [|by eexists].
  destruct (common_ok input q p (n - 5 - p)) as (l & -> & Hl & Hag & _); [lia..|]. cbn [mbind option_bind]. eexists. split; [done|]. intros l' E.
  destruct (Z.ltb_spec best_len l); [|done]. injection E as <-. split; [done|]. unfold MINMATCH in *.
  split; unfold MAX_DISTANCE, MINMATCH, MFLIMIT, LASTLITERALS; try lia. intros j Hj. rewrite <- Hag by lia. f_equal. lia.
Qed.

Lemma walk_ok fuel window p v chain cand tries best_len best_off head : based -> tables_ok p head chain -> 0 <= p <= last_start ->
  0 <= cand <= base + p -> cand - base <= Z.of_nat fuel -> best_ok p best_len best_off -> 3 <= best_len < limit - p ->
  exists len off, walk_go fuel window input p (limit - p) v chain base cand tries best_len best_off = Some (len, off) /\ best_ok p len off.
Proof.
  intros Hb Ht Hp. revert cand tries best_len best_off. pose proof (Zlen_nonneg input). unfold MFLIMIT in *.
  induction fuel as [|fuel IH]; intros cand tries bl bo Hc Hf Hbo Hbl; cbn [walk_go];
    destruct (Z.ltb_spec base cand); cbn [andb]; try lia; try (by exists bl, bo). destruct (0 <? tries); [|by exists bl, bo].
  destruct (window && _); [by exists bl, bo|]. destruct (longer_ok p (cand - base - 1) v bl Hb) as (r & -> & Hr); [lia|unfold MFLIMIT; lia|done|]. cbn [mbind option_bind].
  assert (exists len off, match r with Some l => (fun off => (l, off, l =? limit - p)) <$> csub p (cand - base - 1) | None => Some (bl, bo, false) end
    = Some (len, off, len =? limit - p) /\ best_ok p len off /\ 3 <= len <= limit - p) as (len & off & -> & Hbo' & Hlen).
  { destruct r as [l|]; [|exists bl, bo; rewrite (proj2 (Z.eqb_neq bl _)) by lia; split; [done|split; [done|lia]]].
    destruct (Hr l eq_refl) as [Hl Hm]. exists l, (p - (cand - base - 1)). unfold csub. rewrite (proj2 (Z.leb_le _ _)) by lia. split; [done|]. split; [by right|].
    pose proof (ma_end _ _ _ Hm). lia. }
  cbn [mbind option_bind]. destruct (Z.eqb_spec len (limit - p)); [by exists len, off|].
  destruct (get_at_is_Some chain (cand - base - 1)) as [c Ec]; [rewrite (tb_chain _ _ _ Ht); lia|]. rewrite Ec. cbn [mbind option_bind].
  pose proof (tb_link _ _ _ Ht (cand - base - 1) c ltac:(lia) Ec). destruct (Z.eqb_spec c 0); [by exists len, off|]. destruct Hb as (? & ? & ?).
  assert (w32 (cand - c) = cand - c) as -> by (apply Z.mod_small; lia). apply IH; [lia|lia|done|lia].
Qed.

Lemma longest_at_ok t tries p : based -> tables_ok (fst (fst t)) (snd (fst t)) (snd t) -> 0 <= fst (fst t) <= p -> p <= last_start ->
  exists len off head chain, longest_at input limit tries base t p = Some (len, off, (p, head, chain)) /\ tables_ok p head chain /\ best_ok p len off.
Proof.
  intros Hb Ht Hi Hp. destruct t as [[ins head] chain]. cbn [fst snd] in *. unfold longest_at, MFLIMIT, LASTLITERALS in *.
  destruct (catch_up_ok p ins head chain (Z.to_nat p)) as (head' & chain' & -> & Ht'); [done|done|lia..|]. cbn [mbind option_bind].
  destruct (rd_u32_ok input p) as (v & -> & Hv); [lia..|]. cbn [mbind option_bind]. unfold csub. rewrite (proj2 (Z.leb_le p _)) by lia. cbn [mbind option_bind].
  pose proof (hash_range v). destruct (get_at_is_Some head' (hash v)) as [cand Ec]; [rewrite (tb_head _ _ _ Ht'); lia|]. rewrite Ec. cbn [mbind option_bind].
  pose proof (tb_entry _ _ _ Ht' _ _ Ec).
  destruct (walk_ok (S (Z.to_nat p)) false p v chain' cand tries (MINMATCH - 1) 0 head') as (len & off & E & Hbo); [done|done|unfold MFLIMIT; lia|lia|lia|by left|unfold MINMATCH, LASTLITERALS; lia|].
  unfold LASTLITERALS in E. rewrite E. cbn [mbind option_bind]. exists len, off, head', chain'. split; [|done]. by rewrite Z.max_r by lia.
Qed.

(** ** The sequences chosen *)

(** Sequences that carry [pos] to [fin], literals and matches end to end. *)
Fixpoint plan (pos : Z) (l : list Sequence) (fin : Z) : Prop :=
  match l with
  | [] => pos = fin
  | (at_, lit, off, ml) :: l => at_ = pos /\ 0 <= lit /\ matches (pos + lit) off ml /\ plan (pos + lit + ml) l fin
  end.
Lemma plan_snoc pos l at_ lit off ml fin : plan pos l at_ -> 0 <= lit -> matches (at_ + lit) off ml -> fin = at_ + lit + ml -> plan pos (l ++ [(at_, lit, off, ml)]) fin.
Proof.
  intros Hp Hl Hm ->. revert pos Hp. induction l as [|[[[a b] c] d] l IH]; intros pos; cbn [plan app]; [by intros ->|]. intros (-> & ? & ? & ?). split; [done|]. split; [done|]. auto.
Qed.

Lemma ahead_go_ok tries lazy fuel ins head chain s len off k : based -> tables_ok ins head chain -> 0 <= s -> 0 <= ins <= s + k - 1 -> 1 <= k <= lazy + 1 -> matches s off len ->
  last_start + 1 - (s + k) <= Z.of_nat fuel ->
  exists s' len' off' ins' head' chain', ahead_go fuel (longest_at input limit tries base) lazy last_start (ins, head, chain) s len off k = Some (s', len', off', (ins', head', chain')) /\
    s <= s' /\ matches s' off' len' /\ tables_ok ins' head' chain' /\ 0 <= ins' <= s' + lazy.
Proof.
  intros Hb. revert ins head chain s len off k.
  induction fuel as [|fuel IH]; intros ins head chain s len off k Ht Hs Hi Hk Hm Hf; cbn [ahead_go];
    (destruct (Z.ltb_spec lazy k); [eexists _, _, _, _, _, _; split; [done|]; split; [lia|]; split; [done|]; split; [done|lia]|]);
    (destruct (Z.ltb_spec last_start (s + k)); [eexists _, _, _, _, _, _; split; [done|]; split; [lia|]; split; [done|]; split; [done|lia]|]); [lia|].
  destruct (longest_at_ok (ins, head, chain) tries (s + k)) as (l2 & o2 & head' & chain' & -> & Ht' & Hbo); cbn [fst snd]; [done|done|lia|lia|]. cbn [mbind option_bind].
  pose proof (ma_len _ _ _ Hm). destruct (Z.ltb_spec (len + k - 1) l2).
  - destruct Hbo as [->|Hm2]; [unfold MINMATCH in *; lia|].
    destruct (IH (s + k) head' chain' (s + k) l2 o2 1) as (s' & len' & off' & ins' & head2 & chain2 & E & Hs' & R); [done|lia|lia|lia|done|lia|].
    exists s', len', off', ins', head2, chain2. split; [done|]. split; [lia|done].
  - apply IH; [done|lia|lia|lia|done|lia].
Qed.

Lemma lazy_go_ok tries lazy fuel ins head chain s anchor seqs : based -> 0 <= lazy <= MINMATCH -> tables_ok ins head chain -> 0 <= ins <= s -> 0 <= anchor <= s ->
  s <= limit -> plan 0 seqs anchor -> last_start + 1 - s <= Z.of_nat fuel ->
  exists ins' head' chain' seqs' fin, lazy_go fuel (longest_at input limit tries base) lazy last_start (ins, head, chain) s anchor seqs = Some ((ins', head', chain'), seqs') /\
    tables_ok ins' head' chain' /\ 0 <= ins' <= n /\ plan 0 seqs' fin /\ fin <= limit.
Proof.
  intros Hb Hlz. revert ins head chain s anchor seqs.
  induction fuel as [|fuel IH]; intros ins head chain s anchor seqs Ht Hi Ha Hs Hp Hf; cbn [lazy_go]; destruct (Z.leb_spec s last_start) as [Hle|Hgt];
    try (exists ins, head, chain, seqs, anchor; split; [done|]; split; [done|]; split; [|split; [done|]]; unfold LASTLITERALS in *; lia); [lia|].
  destruct (longest_at_ok (ins, head, chain) tries s) as (len & off & head1 & chain1 & -> & Ht1 & Hbo); cbn [fst snd]; [done|done|lia|lia|]. cbn [mbind option_bind].
  destruct (Z.ltb_spec len MINMATCH) as [|Hlen].
  { apply IH; [done|lia|lia|unfold MFLIMIT, LASTLITERALS in *; lia|done|lia]. }
  destruct Hbo as [->|Hm]; [unfold MINMATCH in *; lia|].
  destruct (ahead_go_ok tries lazy (Z.to_nat (last_start + 1)) s head1 chain1 s len off 1) as (s2 & len2 & off2 & ins2 & head2 & chain2 & -> & Hs2 & Hm2 & Ht2 & Hi2);
    [done|done|lia|lia|lia|done|lia|]. cbn [mbind option_bind].
  pose proof Hm2 as [[Ho Hw] Hl2 _ He _]. assert (w16 off2 = off2) as -> by (unfold MAX_DISTANCE in *; apply Z.mod_small; unfold U16; lia).
  unfold MINMATCH in *. apply IH; [done|lia|lia|lia| |lia]. apply plan_snoc; [done|lia| |lia]. by replace (anchor + (s2 - anchor)) with s2 by lia.
Qed.
End group.

(** ** The encoder between groups *)

(** Every entry of the hash table is of a group before the base. *)
Record encoder_ok (e : Encoder) : Prop := {
  ec_head : Zlen (en_head e) = 8192;
  ec_base : 0 <= en_base e < U32;
  ec_entry : forall h x, get_at (en_head e) h = Some x -> 0 <= x <= en_base e
}.

Lemma get_at_replicate {A} (x : A) k i y : get_at (replicate k x) i = Some y -> y = x.
Proof. intros [_ H]%get_at_Some. by apply lookup_replicate in H as [-> _]. Qed.

Lemma encoder_new_ok : encoder_ok encoder_new.
Proof. split; cbn [encoder_new en_head en_base]; [by rewrite Zlen_replicate|done|]. intros h x ->%get_at_replicate. lia. Qed.

Lemma fresh_base_ok e input chain head base : encoder_ok e -> Zlen input <= MAX_INPUT -> fresh_base e = (head, base) -> Zlen chain = Zlen input ->
  based input base /\ tables_ok input base 0 head chain.
Proof.
  intros [H1 H2 H3] Hn E Hc. pose proof (Zlen_nonneg input). unfold fresh_base in E.
  destruct (Z.ltb_spec (U32 - 1 - 2 * MAX_INPUT - 2) (en_base e)); injection E as <- <-; unfold based, MAX_INPUT, U32 in *; (split; [lia|]).
  - split; [by rewrite Zlen_map|done| |lia]. intros h x. rewrite get_at_map. intros (y & _ & ->)%fmap_Some. lia.
  - split; [done|done| |lia]. intros h x Hx. apply H3 in Hx. lia.
Qed.

Lemma Zlen_resize {A} (l : list A) k x : 0 <= k -> Zlen (resize l k x) = k.
Proof. intros. unfold resize. zlen. Qed.

(** What a parse leaves: an encoder for the next group, and the sequences of
    this one, last first. *)
Definition parsed (input : bytes) (e : Encoder) : Prop :=
  encoder_ok e /\ exists fin, plan input 0 (reverse (en_seqs e)) fin /\ (en_seqs e = [] \/ fin <= Zlen input - LASTLITERALS).

Lemma tables_next input base ins head chain e : based input base -> tables_ok input base ins head chain -> ins <= Zlen input ->
  en_head e = head -> en_base e = w32 (base + Zlen input + 1) -> encoder_ok e.
Proof.
  intros (? & ? & ?) [T1 _ T3 _] Hi Eh Eb. pose proof (Zlen_nonneg input). assert (w32 (base + Zlen input + 1) = base + Zlen input + 1) as E by (apply Z.mod_small; lia).
  split; rewrite ?Eh, ?Eb, ?E; [done|lia|]. intros h x Hx. apply T3 in Hx. lia.
Qed.

Lemma lazy_parse_ok e input f : encoder_ok e -> MFLIMIT + 1 <= Zlen input <= MAX_INPUT -> 0 <= lazy_ f <= MINMATCH ->
  exists e', lazy_parse e input f = Some e' /\ parsed input e'.
Proof.
  intros He Hn Hl. unfold lazy_parse. destruct (fresh_base e) as [head base] eqn:Ef. unfold MFLIMIT, LASTLITERALS in *.
  set (chain := if Zlen (en_chain e) <? Zlen input then _ else _). assert (Zlen input <= Zlen chain) as Hc.
  { unfold chain. destruct (Z.ltb_spec (Zlen (en_chain e)) (Zlen input)); [rewrite Zlen_resize|]; lia. }
  destruct (get_range_is_Some chain 0 (Zlen input)) as [slice Es]; [lia..|]. rewrite Es. cbn [mbind option_bind]. pose proof (get_range_len _ _ _ _ Es) as Hsl.
  unfold csub. rewrite (proj2 (Z.leb_le 12 _)), (proj2 (Z.leb_le 5 _)) by lia. cbn [mbind option_bind].
  destruct (fresh_base_ok e input slice head base He) as [Hb Ht]; [lia|done|lia|].
  destruct (lazy_go_ok input base (attempts f) (lazy_ f) (Z.to_nat (Zlen input)) 0 head slice 0 0 []) as (ins & head' & chain' & seqs & fin & E & Ht' & Hi & Hp & Hfin);
    [done|done|done|lia|lia|unfold LASTLITERALS; lia|done|unfold MFLIMIT; lia|]. unfold MFLIMIT, LASTLITERALS in *. rewrite E. cbn [mbind option_bind].
  destruct (put_range_is_Some chain 0 chain') as [c' ->]; [lia|rewrite (tb_chain _ _ _ _ _ Ht'); lia|]. cbn [mbind option_bind]. eexists. split; [done|]. split.
  - by eapply tables_next; [exact Hb|exact Ht'|lia|..].
  - exists fin. cbn [en_seqs]. rewrite reverse_involutive. split; [done|by right].
Qed.

Lemma ofold_seqZ {A} (P : Z -> A -> Prop) (f : A -> Z -> option A) a k s : 0 <= k -> P a s ->
  (forall i s, a <= i < a + k -> P i s -> exists s', f s i = Some s' /\ P (i + 1) s') -> exists s', ofold f (seqZ a k) s = Some s' /\ P (a + k) s'.
Proof.
  intros Hk. revert a s. pattern k. apply natlike_ind; [| |done].
  - intros a s Hs _. exists s. rewrite Z.add_0_r. done.
  - clear k Hk. intros k Hk IH a s Hs Hf. rewrite seqZ_cons by lia. cbn [ofold]. destruct (Hf a s) as (s1 & -> & H1); [lia|done|]. rewrite Z.pred_succ.
    destruct (IH (a + 1) s1 H1) as (s2 & E & H2); [intros i s' Hi; apply Hf; lia|]. exists s2. replace (Z.succ a) with (a + 1) by lia. split; [done|].
    by replace (a + Z.succ k) with (a + 1 + k) by lia.
Qed.

Section found.
Context (input : bytes).
#[local] Abbreviation n := (Zlen input).
#[local] Abbreviation last_start := (n - MFLIMIT).
#[local] Abbreviation limit := (n - LASTLITERALS).

(** What [search] leaves at a position is a match there, or too short. *)
Definition finds (best : list (Z * Z)) : Prop :=
  Zlen best = n /\ forall j l o, get_at best j = Some (l, o) -> MINMATCH <= l -> matches input j o l.

Lemma matches_sub p off len k : matches input p off len -> 0 <= k -> p + k <= last_start -> MINMATCH <= len - k -> matches input (p + k) off (len - k).
Proof.
  intros [H1 H2 H3 H4 H5] Hk Hp Hl. split; [lia|lia|lia|lia|]. intros j Hj. replace (p + k + j) with (p + (k + j)) by lia. apply H5. lia.
Qed.

Lemma finds_put best s l o best' : finds best -> 0 <= s < n -> (MINMATCH <= l -> matches input s o l) -> put_range best s [(l, o)] = Some best' -> finds best'.
Proof.
  intros [Hl Hf] Hs Hm E. destruct (put_at_ok best s (l, o)) as (b & E' & Hbl & Hg); [lia|]. rewrite E in E'. injection E' as <-. split; [lia|].
  intros j l' o'. rewrite Hg. case_decide; [intros [= <- <-]; by subst|]. apply Hf.
Qed.

Definition run_ok (s : Z) (r : Run) : Prop := let '(from, upto, off) := r in upto = 0 \/ 0 <= from < s /\ matches input from off (upto - from).
Definition searched (base s : Z) (st : list Z * list Z * list (Z * Z) * Run) : Prop :=
  let '(head, chain, best, run) := st in tables_ok input base s head chain /\ finds best /\ run_ok s run.

Lemma search_at_ok base f s st : based input base -> 0 <= s <= last_start -> searched base s st ->
  exists st', search_at input f base last_start limit st s = Some st' /\ searched base (s + 1) st'.
Proof.
  intros Hb Hs. destruct st as [[[head chain] best] [[from upto] off]]. intros (Ht & Hf & Hr). unfold search_at.
  destruct (rd_u32_ok input s) as (v & -> & Hv); [lia|unfold MFLIMIT in *; lia|]. cbn [mbind option_bind]. pose proof (hash_range v) as Hh.
  assert (0 <= s < n) as Hsn by (unfold MFLIMIT in *; lia).
  destruct (insert_ok input base s (hash v) head chain Hb Ht Hsn Hh) as (head' & chain' & Ei & Ht').
  destruct ((s <? ssub upto RESUME) && (from <? s)) eqn:Eg.
  { apply andb_true_iff in Eg as [?%Z.ltb_lt ?%Z.ltb_lt]. unfold ssub, RESUME in *. destruct Hr as [->|[Hfr Hm]]; [lia|].
    destruct (put_at_ok best s (upto - s, off)) as (best' & Ep & _ & _); [destruct Hf; lia|]. rewrite Ep, Ei. cbn [mbind option_bind]. eexists. split; [done|].
    split; [done|]. split; [|right; split; [lia|done]]. eapply finds_put; [done..| |exact Ep]. intros Hl.
    replace s with (from + (s - from)) at 1 by lia. replace (upto - s) with (upto - from - (s - from)) by lia. apply matches_sub; [done|lia|lia|lia]. }
  unfold csub. rewrite (proj2 (Z.leb_le s _)) by (unfold MFLIMIT, LASTLITERALS in *; lia). cbn [mbind option_bind].
  destruct (get_at_is_Some head (hash v)) as [cand Ec]; [rewrite (tb_head _ _ _ _ _ Ht); lia|]. rewrite Ec. cbn [mbind option_bind]. pose proof (tb_entry _ _ _ _ _ Ht _ _ Ec).
  destruct (walk_ok input base (S (Z.to_nat s)) true s v chain cand (attempts f) (MINMATCH - 1) 0 head) as (len & o & -> & Hbo); [done|done|lia|lia|lia|by left|unfold MINMATCH, MFLIMIT, LASTLITERALS in *; lia|].
  cbn [mbind option_bind]. destruct (Z.leb_spec MINMATCH len) as [Hlen|].
  - destruct Hbo as [->|Hm]; [unfold MINMATCH in *; lia|]. assert (w16 o = o) as -> by (destruct Hm as [[Ho Hw] _ _ _ _]; unfold MAX_DISTANCE in *; apply Z.mod_small; unfold U16; lia).
    destruct (put_at_ok best s (len, o)) as (best' & Ep & _ & _); [destruct Hf; lia|]. rewrite Ep. cbn [mbind option_bind]. rewrite Ei. cbn [mbind option_bind]. eexists. split; [done|].
    split; [done|]. split; [eapply finds_put; [done..|exact Ep]|]. destruct (skip_min f <=? len).
    + right. split; [lia|]. by replace (s + len - s) with len by lia.
    + destruct Hr as [->|[? ?]]; [by left|right; split; [lia|done]].
  - rewrite Ei. cbn [mbind option_bind]. eexists. split; [done|]. split; [done|]. split; [done|]. destruct Hr as [->|[? ?]]; [by left|right; split; [lia|done]].
Qed.

Lemma search_ok e f : encoder_ok e -> MFLIMIT + 1 <= n <= MAX_INPUT -> exists e', search e input f = Some e' /\ encoder_ok e' /\ finds (en_best e') /\ en_seqs e' = en_seqs e.
Proof.
  intros He Hn. unfold search. destruct (fresh_base e) as [head base] eqn:Ef. unfold MFLIMIT, LASTLITERALS in *.
  unfold csub. rewrite (proj2 (Z.leb_le 12 _)), (proj2 (Z.leb_le 5 _)) by lia. cbn [mbind option_bind].
  destruct (fresh_base_ok e input (resize [] n 0) head base He) as [Hb Ht]; [lia|done|by rewrite Zlen_resize by lia|].
  destruct (ofold_seqZ (searched base) (search_at input f base last_start limit) 0 (last_start + 1) (head, resize [] n 0, resize [] n (0, 0), (0, 0, 0)))
    as ([[[head' chain'] best'] run] & E & Ht' & Hf & _); [unfold MFLIMIT; lia| |intros i s Hi Hs; apply search_at_ok; [done|lia|done]|].
  { split; [done|]. split; [|by left]. split; [by rewrite Zlen_resize by lia|]. intros j l o. unfold resize. rewrite take_nil. intros [= -> ->]%get_at_replicate. done. }
  unfold MFLIMIT, LASTLITERALS in *. rewrite E. cbn [mbind option_bind]. eexists. split; [done|]. split; [|done]. eapply tables_next; [exact Hb|exact Ht'|lia|done..].
Qed.
End found.

(** ** The shortest path's way back *)

Section path.
Context (input : bytes) (Hn : MFLIMIT + 1 <= Zlen input <= MAX_INPUT).
#[local] Abbreviation n := (Zlen input).
#[local] Abbreviation last_start := (n - MFLIMIT).

(** A position some path ends at with its last sequence closed. *)
Definition closed (m_cost : list Z) (j : Z) : Prop := exists c, get_at m_cost j = Some c /\ c < INF.
(** Every closed position but the first has the match that closes it, and the
    run before it starts at a closed position. *)
Record costs_ok (i : Z) (p_lit : list Z) (t : Costs) : Prop := {
  co_cost_len : Zlen (fst t) = n + 1;
  co_from_len : Zlen (snd t) = n + 1;
  co_range : forall j c, get_at (fst t) j = Some c -> 0 <= c <= INF;
  co_zero : get_at (fst t) 0 = Some 0;
  co_from : forall j, 0 < j -> closed (fst t) j -> exists s off lit, get_at (snd t) j = Some (s, off) /\ 0 <= s < i /\ matches input s off (j - s) /\
    get_at p_lit s = Some lit /\ 0 <= lit <= s /\ closed (fst t) (s - lit)
}.

Lemma close_at_ok i p_lit t lit off c j : costs_ok i p_lit t -> 0 <= i - 1 -> get_at p_lit (i - 1) = Some lit -> 0 <= lit <= i - 1 -> closed (fst t) (i - 1 - lit) ->
  matches input (i - 1) off (j - (i - 1)) -> 0 <= c -> exists t', close_at (i - 1) off c t j = Some t' /\ costs_ok i p_lit t' /\ forall k, closed (fst t) k -> closed (fst t') k.
Proof.
  destruct t as [m_cost m_from]. intros [L1 L2 Hr Hz Hf] Hi Hp Hl Hc Hm H0. cbn [fst snd] in *. unfold close_at. pose proof (ma_len _ _ _ _ Hm). pose proof (ma_end _ _ _ _ Hm).
  unfold MINMATCH, LASTLITERALS in *. destruct (get_at_is_Some m_cost j) as [old Eo]; [lia|]. rewrite Eo. cbn [mbind option_bind]. pose proof (Hr _ _ Eo).
  destruct (Z.ltb_spec c old); [|by exists (m_cost, m_from)].
  destruct (put_at_ok m_cost j c) as (mc & -> & Lc & Gc); [lia|]. destruct (put_at_ok m_from j (i - 1, off)) as (mf & -> & Lf & Gf); [lia|]. cbn [mbind option_bind].
  assert (forall k, closed m_cost k -> closed mc k) as Hmono.
  { intros k (c' & E & ?). unfold closed. rewrite Gc. case_decide; [exists c; split; [done|lia]|by exists c']. }
  exists (mc, mf). split; [done|]. split; [|done]. split; cbn [fst snd]; [lia|lia|..].
  - intros k c'. rewrite Gc. case_decide; [intros [= <-]; lia|]. apply Hr.
  - by rewrite Gc, decide_False by lia.
  - intros k Hk (c' & E & ?). rewrite Gf. rewrite Gc in E. case_decide.
    + subst k. exists (i - 1), off, lit. split; [done|]. split; [lia|]. split; [done|]. split; [done|]. split; [lia|by apply Hmono].
    + destruct (Hf k Hk) as (s & o & l & ? & ? & ? & ? & ? & ?); [by exists c'|]. exists s, o, l. split; [done|]. split; [done|]. split; [done|]. split; [done|]. split; [done|by apply Hmono].
Qed.

Lemma matches_less p off len len' : matches input p off len -> MINMATCH <= len' <= len -> matches input p off len'.
Proof. intros [H1 H2 H3 H4 H5] Hl. split; [lia|lia|lia|lia|]. intros j Hj. apply H5. lia. Qed.

Lemma relax_at_ok best f i p_lit t pc pl : finds input best -> costs_ok i p_lit t -> 0 <= i - 1 -> get_at p_lit (i - 1) = Some pl -> 0 <= pl <= i - 1 -> closed (fst t) (i - 1 - pl) ->
  exists t', relax_at best f last_start (i - 1) pc pl t = Some t' /\ costs_ok i p_lit t' /\ forall k, closed (fst t) k -> closed (fst t') k.
Proof.
  intros [Lb Hfi] Hco Hi Hp Hl Hc. unfold relax_at. unfold MFLIMIT in *. destruct (Z.ltb_spec (n - 12) (i - 1)); [by exists t|].
  destruct (get_at_is_Some best (i - 1)) as [[longest off] Eb]; [lia|]. rewrite Eb. cbn [mbind option_bind]. destruct (Z.ltb_spec longest MINMATCH); [by exists t|].
  pose proof (Hfi _ _ _ Eb ltac:(lia)) as Hm.
  assert (exists b, (if (0 <? pl) && (0 <? i - 1) then get_at best (i - 1 - 1) else Some (0, 0)) = Some b) as [b ->].
  { destruct (0 <? pl); cbn [andb]; [|by eexists]. destruct (Z.ltb_spec 0 (i - 1)); [|by eexists]. apply get_at_is_Some. lia. }
  cbn [mbind option_bind]. destruct (_ && (snd b =? off)); [by exists t|].
  assert (forall t0 j c, costs_ok i p_lit t0 -> (forall k, closed (fst t) k -> closed (fst t0) k) -> i - 1 + MINMATCH <= j <= i - 1 + longest -> 0 <= c ->
    exists t', close_at (i - 1) off c t0 j = Some t' /\ costs_ok i p_lit t' /\ forall k, closed (fst t) k -> closed (fst t') k) as Hclose.
  { intros t0 j c Hco0 Hmono Hj Hc0. destruct (close_at_ok i p_lit t0 pl off c j) as (t' & E & H' & Hm'); [done|done|done|done|by apply Hmono| |done|].
    - eapply matches_less; [exact Hm|lia].
    - exists t'. split; [done|]. split; [done|]. intros k Hk. by apply Hm', Hmono. }
  assert (forall z, 0 <= w32 z) as Hw by (intros z; apply Z.mod_pos_bound; done).
  destruct (Hclose t (i - 1 + longest) (w32 (w32 (pc + 3 + seq_cost f) + ext (longest - MINMATCH)))) as (t1 & -> & Ht1 & Hm1); [done|done|lia|apply Hw|]. cbn [mbind option_bind].
  set (from := Z.max _ _). set (stop := Z.min _ _). destruct (Z.le_gt_cases stop from).
  { unfold seqZ. replace (Z.to_nat (stop - from)) with 0%nat by lia. by exists t1. }
  destruct (ofold_seqZ (fun _ t' => costs_ok i p_lit t' /\ forall k, closed (fst t) k -> closed (fst t') k)
    (cut_at best (i - 1) off (w32 (pc + 3 + seq_cost f)) (i - 1 + longest)) from (stop - from) t1) as (t2 & -> & Ht2 & Hm2); [lia|done| |by exists t2].
  intros j t' Hj [Ht' Hmt]. unfold from, stop, ssub, MINMATCH in *. unfold cut_at. pose proof (ma_end _ _ _ _ Hm) as He. unfold LASTLITERALS in He. destruct (get_at_is_Some best j) as [b' ->]; [lia|]. cbn [mbind option_bind].
  destruct (_ && _); [|by exists t']. apply Hclose; [done|done|lia|apply Hw].
Qed.

Lemma lit_step_range k : 0 <= k <= MAX_INPUT -> 0 <= lit_step k <= 1.
Proof.
  intros Hk. unfold lit_step, ext, MAX_INPUT in *. assert (forall z, 0 <= z <= 70000 -> w32 (1 + z / 255) = 1 + z / 255) as Hw.
  { intros z Hz. apply Z.mod_small. unfold U32. Z.to_euclidean_division_equations; lia. }
  destruct (Z.ltb_spec (k + 1) 15), (Z.ltb_spec k 15); rewrite ?Hw by lia; Z.to_euclidean_division_equations; lia.
Qed.

(** What the pass holds before position [i]. *)
Definition path_ok (i : Z) (st : Path) : Prop :=
  let '(t, p_lit, (end_, cost), (pc, pl)) := st in
  Zlen p_lit = n + 1 /\ costs_ok i p_lit t /\ 0 <= end_ <= n /\ closed (fst t) end_ /\
  (i = 0 /\ pc = INF /\ pl = 0 \/ 0 < i /\ 0 <= pc <= 2 * i /\ 0 <= pl <= i - 1 /\ closed (fst t) (i - 1 - pl)).

Lemma costs_ok_put i p_lit t x p_lit' : costs_ok i p_lit t -> 0 <= i < Zlen p_lit -> put_range p_lit i [x] = Some p_lit' -> costs_ok (i + 1) p_lit' t.
Proof.
  intros [L1 L2 Hr Hz Hf] Hi E. split; [done|done|done|done|]. intros j Hj Hc. destruct (Hf j Hj Hc) as (s & o & l & ? & ? & ? & Hs & ? & ?).
  exists s, o, l. split; [done|]. split; [lia|]. split; [done|]. split; [|done]. destruct (put_at_ok p_lit i x Hi) as (p & E' & _ & G). rewrite E in E'. injection E' as <-.
  by rewrite G, decide_False by lia.
Qed.

Lemma shortest_at_ok best f i st : finds input best -> 0 <= i <= n -> path_ok i st -> exists st', shortest_at best f n last_start st i = Some st' /\ path_ok (i + 1) st'.
Proof.
  intros Hfi Hi. destruct st as [[[t p_lit] [end_ cost]] [pc pl]]. intros (Lp & Hco & He & Hce & Hrun). unfold shortest_at.
  destruct (get_at_is_Some (fst t) i) as [fresh Ef]; [rewrite (co_cost_len _ _ _ Hco); lia|]. rewrite Ef. cbn [mbind option_bind]. pose proof (co_range _ _ _ Hco _ _ Ef).
  set (c := w32 (fresh + _)). set (ec := if _ && _ then (i, c) else (end_, cost)).
  assert (0 <= fst ec <= n /\ closed (fst t) (fst ec)) as Hec.
  { unfold ec. destruct ((0 <? i) && (fresh <? INF) && _) eqn:Eg; cbn [fst]; [|done]. apply andb_true_iff in Eg as [[_ ?%Z.ltb_lt]%andb_true_iff _].
    split; [lia|]. by exists fresh. }
  destruct ec as [end' cost']. cbn [fst] in Hec. set (carry := if i =? 0 then INF else _). set (run := if fresh <=? carry then _ else _).
  assert (0 <= fst run <= 2 * (i + 1) /\ 0 <= snd run <= i /\ closed (fst t) (i - snd run)) as Hr.
  { unfold run, carry. clear run carry. pose proof (eq_refl : INF = 1073741823) as HI. unfold MAX_INPUT in *. destruct Hrun as [(-> & -> & ->)|(Hi0 & Hpc & Hpl & Hcl)].
    - rewrite (co_zero _ _ _ Hco) in Ef. injection Ef as <-. rewrite (proj2 (Z.eqb_eq 0 0) eq_refl), (proj2 (Z.leb_le 0 INF)) by lia. cbn [fst snd]. split; [lia|]. split; [lia|]. exists 0. split; [apply Hco|lia].
    - rewrite (proj2 (Z.eqb_neq i 0)) by lia. pose proof (lit_step_range pl ltac:(unfold MAX_INPUT; lia)). assert (w32 (pc + 1 + lit_step pl) = pc + 1 + lit_step pl) as -> by (apply Z.mod_small; unfold U32; lia).
      destruct (Z.leb_spec fresh (pc + 1 + lit_step pl)); cbn [fst snd].
      + split; [lia|]. split; [lia|]. rewrite Z.sub_0_r. exists fresh. split; [done|lia].
      + assert (w32 (pl + 1) = pl + 1) as -> by (apply Z.mod_small; unfold U32; lia). split; [lia|]. split; [lia|]. by replace (i - (pl + 1)) with (i - 1 - pl) by lia. }
  destruct run as [pc' pl']. cbn [fst snd] in Hr. destruct (put_at_ok p_lit i pl') as (p_lit' & Ep & Lp' & Gp); [lia|]. rewrite Ep. cbn [mbind option_bind].
  pose proof (costs_ok_put i p_lit t pl' p_lit' Hco ltac:(lia) Ep) as Hco'.
  destruct (relax_at_ok best f (i + 1) p_lit' t pc' pl') as (t' & E & Ht' & Hmono); rewrite ?Z.add_simpl_r in *; [done|done|lia|by rewrite Gp, decide_True by lia|lia|apply Hr|].
  rewrite E. cbn [mbind option_bind]. eexists. split; [done|]. split; [lia|]. split; [done|]. split; [lia|]. split; [apply Hmono, Hec|]. right. split; [lia|]. split; [lia|]. split; [lia|].
  rewrite Z.add_simpl_r. apply Hmono, Hr.
Qed.

Lemma back_go_ok t p_lit fin fuel e2 seqs : costs_ok (n + 1) p_lit t -> 0 <= e2 -> closed (fst t) e2 -> e2 <= Z.of_nat fuel -> plan input e2 (reverse seqs) fin ->
  exists seqs', back_go fuel (snd t) p_lit e2 seqs = Some seqs' /\ plan input 0 (reverse seqs') fin.
Proof.
  intros Hco. revert e2 seqs. induction fuel as [|fuel IH]; intros e2 seqs H0 Hc Hf Hp; cbn [back_go]; destruct (Z.ltb_spec 0 e2); try lia;
    try (exists seqs; split; [done|]; by replace 0 with e2 by lia).
  destruct (co_from _ _ _ Hco e2) as (s & off & lit & -> & Hs & Hm & Hl & Hlit & Hc'); [done|done|]. cbn [mbind option_bind]. rewrite Hl. cbn [mbind option_bind].
  pose proof (ma_len _ _ _ _ Hm). unfold MINMATCH in *. unfold csub. rewrite (proj2 (Z.leb_le lit s)), (proj2 (Z.leb_le s e2)) by lia. cbn [mbind option_bind].
  apply IH; [lia|done|lia|]. rewrite reverse_snoc. cbn [plan]. split; [done|]. split; [lia|]. replace (s - lit + lit) with s by lia. split; [done|].
  by replace (s + (e2 - s)) with e2 by lia.
Qed.

Lemma shortest_ok e f : finds input (en_best e) -> en_seqs e = [] -> encoder_ok e -> exists e', shortest e input f = Some e' /\ parsed input e'.
Proof.
  intros Hfi Hs He. unfold shortest, csub. unfold MFLIMIT in *. rewrite (proj2 (Z.leb_le 12 _)) by lia. cbn [mbind option_bind].
  assert (get_range (en_best e) 0 n = Some (en_best e)) as -> by (rewrite <- (proj1 Hfi); apply get_range_all). cbn [mbind option_bind].
  destruct (put_at_ok (resize [] (n + 1) INF) 0 0) as (mc & -> & Lc & Gc); [rewrite Zlen_resize; lia|]. rewrite Zlen_resize in Lc by lia. cbn [mbind option_bind].
  assert (forall j c, get_at mc j = Some c -> j = 0 /\ c = 0 \/ j <> 0 /\ c = INF) as Hmc.
  { intros j c. rewrite Gc. case_decide; [intros [= <-]; by left|]. unfold resize. rewrite take_nil. intros ->%get_at_replicate. by right. }
  assert (get_at mc 0 = Some 0) as H00 by (by rewrite Gc, decide_True by done).
  destruct (ofold_seqZ path_ok (shortest_at (en_best e) f n (n - 12)) 0 (n + 1) ((mc, resize [] (n + 1) (0, 0)), resize [] (n + 1) 0, (0, lit_run n), (INF, 0)))
    as ([[[t p_lit] [end_ cost]] [pc pl]] & E & Lp & Hco & Hend & Hcl & _); [lia| |intros i st Hi Hst; apply shortest_at_ok; [done|lia|done]|].
  { split; [by rewrite Zlen_resize by lia|]. split.
    - split; cbn [fst snd]; [lia|by rewrite Zlen_resize by lia| |done|].
      + intros j c Hj. destruct (Hmc _ _ Hj) as [[_ ->]|[_ ->]]; done.
      + intros j Hj (c & Hc & ?). destruct (Hmc _ _ Hc) as [[? _]|[_ ->]]; lia.
    - split; [lia|]. split; [by exists 0|by left]. }
  rewrite E. cbn [mbind option_bind]. destruct t as [m_cost m_from]. rewrite Z.add_0_l in *.
  destruct (back_go_ok (m_cost, m_from) p_lit end_ (Z.to_nat end_) end_ []) as (seqs & E2 & Hp); [done|lia|done|lia|done|]. rewrite Hs. cbn [snd] in E2. rewrite E2. cbn [mbind option_bind].
  eexists. split; [done|]. split; [by destruct He|]. exists end_. cbn [en_seqs]. split; [done|]. destruct (decide (0 < end_)) as [Hpos|].
  - right. destruct (co_from _ _ _ Hco end_ Hpos Hcl) as (s & off & lit & _ & _ & Hm & _). pose proof (ma_end _ _ _ _ Hm). lia.
  - left. assert (end_ = 0) as -> by lia. by injection E2 as <-.
Qed.
End path.

Lemma parse_ok e input f : encoder_ok e -> Zlen input <= MAX_INPUT -> 0 <= lazy_ f <= MINMATCH -> exists e', parse e input f = Some e' /\ parsed input e'.
Proof.
  intros He Hn Hl. unfold parse. set (e0 := set_seqs e []). assert (encoder_ok e0) as H0 by (by destruct He).
  destruct ((Zlen input <? MFLIMIT + 1) || (attempts f =? 0)) eqn:Eg.
  { exists e0. split; [done|]. split; [done|]. exists 0. by split; [|left]. }
  apply orb_false_iff in Eg as [?%Z.ltb_ge _]. destruct (0 <? lazy_ f); [by apply lazy_parse_ok|].
  destruct (search_ok input e0 f) as (e1 & -> & He1 & Hf & Hs); [done|done|]. cbn [mbind option_bind]. by apply shortest_ok.
Qed.

(** ** The block written *)

Definition len_tail (r : Z) : bytes := replicate (Z.to_nat (r / 255)) xff ++ [z2b (r mod 255)].
Definition len_bytes (k : Z) : bytes := if k <? 15 then [] else len_tail (k - 15).
Definition token_of (a b : Z) : byte := z2b (Z.min a 15 * 16 + Z.min b 15).
Definition sub (input : bytes) (at_ k : Z) : bytes := take (Z.to_nat k) (drop (Z.to_nat at_) input).
Definition seq_bytes (input : bytes) (q : Sequence) : bytes :=
  let '(at_, lit, off, ml) := q in [token_of lit (ml - 4)] ++ len_bytes lit ++ sub input at_ lit ++ le16 off ++ len_bytes (ml - 4).
Definition last_bytes (input : bytes) (pos : Z) : bytes :=
  let lit := Zlen input - pos in [token_of lit 0] ++ len_bytes lit ++ drop (Z.to_nat pos) input.
Definition block_of (input : bytes) (l : list Sequence) (fin : Z) : bytes := concat (map (seq_bytes input) l) ++ last_bytes input fin.

Lemma Zlen_len_bytes k : 0 <= k -> Zlen (len_bytes k) = if k <? 15 then 0 else 1 + (k - 15) / 255.
Proof.
  intros Hk. unfold len_bytes, len_tail. destruct (Z.ltb_spec k 15); [done|]. rewrite Zlen_app, Zlen_replicate, Zlen_cons, Zlen_nil.
  assert (0 <= (k - 15) / 255) by (apply Z.div_pos; lia). lia.
Qed.
Lemma Zlen_sub input at_ k : 0 <= at_ -> 0 <= k -> at_ + k <= Zlen input -> Zlen (sub input at_ k) = k.
Proof. intros. unfold sub. zlen. Qed.
Lemma get_at_sub input at_ k j : 0 <= at_ -> at_ + k <= Zlen input -> 0 <= j < k -> get_at (sub input at_ k) j = get_at input (at_ + j).
Proof.
  intros Ha Hk Hj. apply (get_range_get input at_ (at_ + k)); [|lia]. apply get_range_Some. split; [lia|]. split; [done|]. unfold sub. do 2 f_equal. lia.
Qed.
Lemma token_nibbles a b : 0 <= a -> 0 <= b -> Z.shiftr (b2z (token_of a b)) 4 = Z.min a 15 /\ Z.land (b2z (token_of a b)) 15 = Z.min b 15.
Proof.
  intros Ha Hb. unfold token_of. rewrite b2z_z2b, Z.mod_small by lia. assert (forall x, Z.land x 15 = x mod 16) as -> by (intros x; change 15 with (2 ^ 4 - 1); by rewrite land_ones_mod).
  rewrite Z.shiftr_div_pow2 by lia. change (2 ^ 4) with 16. split; Z.to_euclidean_division_equations; lia.
Qed.

(** A write at the end of what was written. *)
Lemma write_at (a b s : bytes) o : o = Zlen a -> Zlen s <= Zlen b -> exists b', put_range (a ++ b) o s = Some ((a ++ s) ++ b') /\ Zlen b' = Zlen b - Zlen s.
Proof.
  intros -> Hs. pose proof (Zlen_nonneg s). destruct (Zlen_split b (Zlen s)) as (b1 & b2 & -> & Hb); [lia|]. exists b2. rewrite put_range_app by lia. rewrite <- app_assoc. split; [done|]. rewrite Zlen_app. lia.
Qed.

Lemma put_len_ok (a b : bytes) o k : o = Zlen a -> 0 <= k -> Zlen (len_bytes k) <= Zlen b ->
  exists b', put_len (a ++ b) o k = Some ((a ++ len_bytes k) ++ b', o + Zlen (len_bytes k)) /\ Zlen b' = Zlen b - Zlen (len_bytes k).
Proof.
  intros Ho Hk. unfold put_len, len_bytes. destruct (Z.ltb_spec k 15).
  { intros _. exists b. rewrite app_nil_r, Zlen_nil, Z.add_0_r, Z.sub_0_r. done. }
  assert (forall fuel a b o r, o = Zlen a -> 0 <= r <= Z.of_nat fuel -> Zlen (len_tail r) <= Zlen b ->
    exists b', put_len_go fuel (a ++ b) o r = Some ((a ++ len_tail r) ++ b', o + Zlen (len_tail r)) /\ Zlen b' = Zlen b - Zlen (len_tail r)) as H1.
  { clear. intros fuel. induction fuel as [|fuel IH]; intros a b o r Ho Hr Hb; cbn [put_len_go]; destruct (Z.leb_spec 255 r); try lia;
      try (unfold len_tail in *; rewrite Z.div_small, Z.mod_small in * by lia; destruct (write_at a b [z2b r] o) as (b' & -> & Hb'); [done|done|]; by exists b').
    assert (len_tail r = xff :: len_tail (r - 255)) as E.
    { unfold len_tail. replace r with (r - 255 + 1 * 255) at 1 2 by lia. rewrite Z.div_add, Z.mod_add by lia.
      replace (Z.to_nat ((r - 255) / 255 + 1)) with (S (Z.to_nat ((r - 255) / 255))); [done|]. pose proof (Z.div_pos (r - 255) 255 ltac:(lia) ltac:(lia)). lia. }
    rewrite E in *. rewrite Zlen_cons in Hb. pose proof (Zlen_nonneg (len_tail (r - 255))). destruct (write_at a b [xff] o) as (b1 & -> & Hb1); [done|rewrite Zlen_cons, Zlen_nil; lia|]. cbn [mbind option_bind].
    rewrite Zlen_cons, Zlen_nil in Hb1. destruct (IH (a ++ [xff]) b1 (o + 1) (r - 255)) as (b2 & -> & Hb2); [zlen|lia|lia|]. exists b2. rewrite Zlen_cons. rewrite <- (app_assoc a). split; [|lia].
    do 2 f_equal. lia. }
  intros Hb. apply H1; [done|lia|done].
Qed.

Lemma emit_seq_ok input at_ lit off ml (a b : bytes) : 0 <= at_ -> 0 <= lit -> at_ + lit <= Zlen input -> 4 <= ml -> Zlen (seq_bytes input (at_, lit, off, ml)) <= Zlen b ->
  exists b', emit_seq input (a ++ b, Zlen a, at_) (at_, lit, off, ml) = Some ((a ++ seq_bytes input (at_, lit, off, ml)) ++ b', Zlen a + Zlen (seq_bytes input (at_, lit, off, ml)), at_ + lit + ml) /\
    Zlen b' = Zlen b - Zlen (seq_bytes input (at_, lit, off, ml)).
Proof.
  intros Ha Hl Hi Hm. unfold emit_seq, seq_bytes. rewrite !Zlen_app, Zlen_sub, Zlen_le16, Zlen_cons, Zlen_nil by lia. intros Hb.
  pose proof (Zlen_nonneg (len_bytes lit)). pose proof (Zlen_nonneg (len_bytes (ml - 4))).
  unfold csub, MINMATCH. rewrite (proj2 (Z.leb_le 4 ml)) by lia. cbn [mbind option_bind].
  assert (Z.lor (Z.shiftl (Z.min lit 15) 4) (Z.min (ml - 4) 15) = Z.min lit 15 * 16 + Z.min (ml - 4) 15) as ->.
  { rewrite Z.lor_comm, lor_disjoint_add by (change (2 ^ 4) with 16; lia). change (2 ^ 4) with 16. lia. }
  fold (token_of lit (ml - 4)). destruct (write_at a b [token_of lit (ml - 4)] (Zlen a)) as (b1 & -> & L1); [done|rewrite Zlen_cons, Zlen_nil; lia|]. rewrite Zlen_cons, Zlen_nil in L1. cbn [mbind option_bind].
  destruct (put_len_ok (a ++ [token_of lit (ml - 4)]) b1 (Zlen a + 1) lit) as (b2 & -> & L2); [zlen|lia|lia|]. cbn [mbind option_bind].
  destruct (get_range_is_Some input at_ (at_ + lit)) as [lits El]; [lia..|]. rewrite El. cbn [mbind option_bind]. apply get_range_Some in El as (_ & _ & ->). replace (at_ + lit - at_) with lit by lia. fold (sub input at_ lit).
  pose proof (Zlen_sub input at_ lit Ha Hl Hi) as Ls.
  destruct (write_at ((a ++ [token_of lit (ml - 4)]) ++ len_bytes lit) b2 (sub input at_ lit) (Zlen a + 1 + Zlen (len_bytes lit))) as (b3 & -> & L3); [zlen|lia|]. cbn [mbind option_bind].
  destruct (write_at (((a ++ [token_of lit (ml - 4)]) ++ len_bytes lit) ++ sub input at_ lit) b3 (le16 off) (Zlen a + 1 + Zlen (len_bytes lit) + lit)) as (b4 & -> & L4); [zlen|rewrite Zlen_le16; lia|]. rewrite Zlen_le16 in L4. cbn [mbind option_bind].
  destruct (put_len_ok ((((a ++ [token_of lit (ml - 4)]) ++ len_bytes lit) ++ sub input at_ lit) ++ le16 off) b4 (Zlen a + 1 + Zlen (len_bytes lit) + lit + 2) (ml - 4)) as (b5 & -> & L5);
    [zlen|lia|lia|]. cbn [mbind option_bind]. exists b5. rewrite <- !app_assoc. cbn [app]. split; [|lia]. do 2 f_equal. f_equal. lia.
Qed.

Section block.
Context (input : bytes).
#[local] Abbreviation n := (Zlen input).

Lemma plan_le pos l fin : 0 <= pos -> plan input pos l fin -> pos <= fin /\ (l = [] \/ fin <= n - LASTLITERALS).
Proof.
  revert pos. induction l as [|[[[at_ lit] off] ml] l IH]; intros pos H0; cbn [plan]; [intros ->; split; [lia|by left]|]. intros (_ & Hl & Hm & Hp).
  pose proof (ma_len _ _ _ _ Hm). pose proof (ma_end _ _ _ _ Hm). unfold MINMATCH in *. destruct (IH (pos + lit + ml) ltac:(lia) Hp) as [? [->|?]]; cbn [plan] in *; split; try lia; right; lia.
Qed.

(** A sequence is no longer than what it stands for and a 255th more. *)
Lemma seq_bytes_len at_ lit off ml : 0 <= at_ -> 0 <= lit -> at_ + lit <= n -> 4 <= ml -> 0 <= 255 * Zlen (seq_bytes input (at_, lit, off, ml)) <= 256 * (lit + ml).
Proof.
  intros. unfold seq_bytes. rewrite !Zlen_app, Zlen_sub, Zlen_le16, (Zlen_len_bytes lit), (Zlen_len_bytes (ml - 4)) by lia. change (Zlen [_]) with 1.
  destruct (Z.ltb_spec lit 15), (Z.ltb_spec (ml - 4) 15); Z.to_euclidean_division_equations; lia.
Qed.
Lemma last_bytes_len pos : 0 <= pos <= n -> 255 * Zlen (last_bytes input pos) <= 256 * (n - pos) + 495.
Proof.
  intros. unfold last_bytes. rewrite !Zlen_app, Zlen_drop, Zlen_len_bytes by lia. change (Zlen [_]) with 1. destruct (Z.ltb_spec (n - pos) 15); Z.to_euclidean_division_equations; lia.
Qed.
Lemma plan_len pos l fin : 0 <= pos -> plan input pos l fin -> 255 * Zlen (concat (map (seq_bytes input) l)) <= 256 * (fin - pos).
Proof.
  revert pos. induction l as [|[[[at_ lit] off] ml] l IH]; intros pos H0; cbn [plan map concat]; [intros ->; rewrite (@Zlen_nil byte); lia|]. intros (-> & Hl & Hm & Hp).
  pose proof (ma_len _ _ _ _ Hm). pose proof (ma_end _ _ _ _ Hm). unfold MINMATCH, LASTLITERALS in *. rewrite Zlen_app. pose proof (seq_bytes_len pos lit off ml). specialize (IH (pos + lit + ml) ltac:(lia) Hp). lia.
Qed.

Lemma emit_plan pos l fin (a b : bytes) : 0 <= pos -> plan input pos l fin -> Zlen (concat (map (seq_bytes input) l)) <= Zlen b ->
  exists b', ofold (emit_seq input) l (a ++ b, Zlen a, pos) = Some ((a ++ concat (map (seq_bytes input) l)) ++ b', Zlen (a ++ concat (map (seq_bytes input) l)), fin) /\
    Zlen b' = Zlen b - Zlen (concat (map (seq_bytes input) l)).
Proof.
  revert pos a b. induction l as [|[[[at_ lit] off] ml] l IH]; intros pos a b H0; cbn [plan map concat ofold].
  { intros -> _. exists b. rewrite app_nil_r, (@Zlen_nil byte), Z.sub_0_r. done. }
  intros (-> & Hl & Hm & Hp) Hb. rewrite Zlen_app in Hb. pose proof (ma_len _ _ _ _ Hm). pose proof (ma_end _ _ _ _ Hm). unfold MINMATCH, LASTLITERALS in *.
  set (c := concat _) in *. pose proof (Zlen_nonneg c). set (q := (pos, lit, off, ml)). destruct (emit_seq_ok input pos lit off ml a b) as (b1 & E & L1); [lia|lia|lia|lia|lia|]. fold q in E, L1, Hb |- *.
  rewrite E. cbn [mbind option_bind]. destruct (IH (pos + lit + ml) (a ++ seq_bytes input q) b1) as (b2 & E2 & L2); [lia|done|fold c; lia|]. fold c in E2, L2. rewrite Zlen_app in E2. rewrite E2.
  exists b2. rewrite <- !app_assoc, !Zlen_app. split; [|lia]. repeat f_equal; lia.
Qed.

Lemma emit_ok e out fin : plan input 0 (reverse (en_seqs e)) fin -> 0 <= fin <= n -> let block := block_of input (reverse (en_seqs e)) fin in
  Zlen block <= Zlen out -> exists rest, emit e input out = Some (Zlen block, block ++ rest) /\ Zlen (block ++ rest) = Zlen out.
Proof.
  intros Hp Hf block Hb. unfold emit, block, block_of in *. set (c := concat _) in *. rewrite Zlen_app in Hb. pose proof (Zlen_nonneg (last_bytes input fin)).
  destruct (emit_plan 0 (reverse (en_seqs e)) fin [] out) as (b1 & E & L1); [lia|done|fold c; lia|]. fold c in E, L1. cbn [app] in E. rewrite (@Zlen_nil byte) in E. rewrite E. cbn [mbind option_bind].
  unfold last_bytes in *. cbv zeta in *. set (lit := n - fin) in *. rewrite !Zlen_app, Zlen_cons, (@Zlen_nil byte) in *. pose proof (Zlen_nonneg (len_bytes lit)). pose proof (Zlen_nonneg (drop (Z.to_nat fin) input)).
  unfold csub. rewrite (proj2 (Z.leb_le fin n)) by lia. cbn [mbind option_bind]. fold lit.
  assert (z2b (Z.shiftl (Z.min lit 15) 4) = token_of lit 0) as -> by (unfold token_of; f_equal; rewrite Z.shiftl_mul_pow2 by lia; lia).
  destruct (write_at c b1 [token_of lit 0] (Zlen c)) as (b2 & -> & L2); [done|rewrite Zlen_cons, (@Zlen_nil byte); lia|]. rewrite Zlen_cons, (@Zlen_nil byte) in L2. cbn [mbind option_bind].
  destruct (put_len_ok (c ++ [token_of lit 0]) b2 (Zlen c + 1) lit) as (b3 & -> & L3); [zlen|unfold lit; lia|lia|]. cbn [mbind option_bind].
  unfold get_from. rewrite (proj2 (Z.leb_le 0 fin)), (proj2 (Z.leb_le fin n)) by lia. cbn [andb mbind option_bind].
  destruct (write_at ((c ++ [token_of lit 0]) ++ len_bytes lit) b3 (drop (Z.to_nat fin) input) (Zlen c + 1 + Zlen (len_bytes lit))) as (b4 & -> & L4); [zlen|lia|]. cbn [mbind option_bind].
  exists b4. rewrite <- !app_assoc. cbn [app]. assert (Zlen (drop (Z.to_nat fin) input) = lit) as Ld by (unfold lit; zlen). split; [do 2 f_equal; lia|]. zlen.
Qed.

(** ** The careful decoder reads it back *)

Lemma var_len_run (c : bytes) m k acc ip : 0 <= acc -> 0 <= m < 255 -> acc + 255 * Z.of_nat k + m < U64 ->
  var_len_go (replicate k xff ++ [z2b m] ++ c) acc ip = Some (Ok (acc + 255 * Z.of_nat k + m, ip + Z.of_nat k + 1)).
Proof.
  intros Ha Hm Hk. revert acc ip Ha Hk. induction k as [|k IH]; intros acc ip Ha Hk; cbn [replicate app var_len_go].
  - rewrite b2z_z2b, Z.mod_small by lia. unfold w64. rewrite Z.mod_small by lia. rewrite (proj2 (Z.eqb_neq m 255)) by lia. do 3 f_equal; lia.
  - change (b2z xff) with 255. unfold w64. rewrite Z.mod_small by lia. rewrite Z.eqb_refl. rewrite IH by lia. do 3 f_equal; lia.
Qed.
Lemma var_len_tail (a c : bytes) r : 0 <= r < U64 -> var_len (a ++ len_tail r ++ c) (Zlen a) = Some (Ok (r, Zlen a + Zlen (len_tail r))).
Proof.
  intros Hr. unfold var_len. rewrite Zlen_to_nat, drop_app_length. unfold len_tail. rewrite <- app_assoc. pose proof (Z.mod_pos_bound r 255 ltac:(lia)) as Hm. pose proof (Z.div_mod r 255 ltac:(lia)) as Hd.
  assert (0 <= r / 255) as Hq by (apply Z.div_pos; lia). set (m := r mod 255) in *. rewrite var_len_run by lia.
  rewrite Zlen_app, Zlen_replicate. change (Zlen [_]) with 1. do 3 f_equal; lia.
Qed.

Lemma with_len_bytes (a c : bytes) k m : 0 <= k -> k + m < U64 -> 0 <= m -> with_len (a ++ len_bytes k ++ c) (15 + m) (Z.min k 15 + m) (Zlen a) = Some (Ok (k + m, Zlen a + Zlen (len_bytes k))).
Proof.
  intros Hk Hb Hm. unfold with_len, len_bytes. destruct (Z.ltb_spec k 15).
  - rewrite Z.min_l, (proj2 (Z.eqb_neq _ _)) by lia. by rewrite (@Zlen_nil byte), Z.add_0_r.
  - rewrite Z.min_r, Z.eqb_refl by lia. rewrite var_len_tail by lia. cbn [obind]. do 3 f_equal. unfold w64. rewrite Z.mod_small; lia.
Qed.

(** The output holds the input as far as it was decoded. *)
Definition holds_to (d : bytes) (pos : Z) : Prop := n <= Zlen d < U64 /\ forall i, 0 <= i < pos -> get_at d i = get_at input i.

Lemma period j off f g : 0 < off -> (forall j, 0 <= j < off -> f (j - off) = g j) -> (forall k, 0 <= k <= j -> f k = f (k - off) :> option byte) -> 0 <= j -> f j = g (j mod off).
Proof.
  intros Ho Hg Hf Hj. revert Hf. pattern j. apply Zlt_0_ind; [|exact Hj]. clear j Hj. intros j IH Hj Hf. rewrite Hf by lia. destruct (decide (j < off)).
  - rewrite Z.mod_small by lia. apply Hg. lia.
  - rewrite IH; [|lia|intros k Hk; apply Hf; lia]. f_equal. rewrite <- (Z.mod_add (j - off) 1 off) by lia. f_equal. lia.
Qed.

Lemma careful_seq_ok (a c : bytes) d at_ lit off ml : 0 <= at_ -> 0 <= lit -> matches input (at_ + lit) off ml -> n <= MAX_INPUT -> holds_to d at_ ->
  exists d', careful_sequence (a ++ seq_bytes input (at_, lit, off, ml) ++ c) d (Zlen a) at_ = Some (Ok (false, d', Zlen a + Zlen (seq_bytes input (at_, lit, off, ml)), at_ + lit + ml)) /\
    holds_to d' (at_ + lit + ml) /\ Zlen d' = Zlen d.
Proof.
  intros Ha Hl Hm Hn [Hd Hs]. destruct Hm as [[Ho Hw] Hml Hst Hend Hsame]. unfold MINMATCH, MFLIMIT, LASTLITERALS, MAX_DISTANCE, MAX_INPUT in *.
  unfold seq_bytes. set (tok := token_of lit (ml - 4)). set (L := len_bytes lit). set (s := sub input at_ lit). set (K := len_bytes (ml - 4)).
  assert (Zlen s = lit) as Ls by (apply Zlen_sub; lia). destruct (token_nibbles lit (ml - 4) ltac:(lia) ltac:(lia)) as [T1 T2]. fold tok in T1, T2.
  pose proof (Zlen_nonneg L). pose proof (Zlen_nonneg K). pose proof (Zlen_nonneg c). pose proof (Zlen_nonneg a).
  remember (a ++ ([tok] ++ L ++ s ++ le16 off ++ K) ++ c) as src eqn:E.
  assert (src = a ++ tok :: (L ++ s ++ le16 off ++ K ++ c)) as S0 by (subst src; by rewrite <- !app_assoc).
  assert (src = (a ++ [tok]) ++ L ++ (s ++ le16 off ++ K ++ c)) as S1 by (subst src; by rewrite <- !app_assoc).
  assert (src = ((a ++ [tok]) ++ L) ++ s ++ (le16 off ++ K ++ c)) as S2 by (subst src; by rewrite <- !app_assoc).
  assert (src = (((a ++ [tok]) ++ L) ++ s) ++ le16 off ++ (K ++ c)) as S3 by (subst src; by rewrite <- !app_assoc).
  assert (src = ((((a ++ [tok]) ++ L) ++ s) ++ le16 off) ++ K ++ c) as S4 by (subst src; by rewrite <- !app_assoc).
  assert (Zlen src = Zlen a + 1 + Zlen L + lit + 2 + Zlen K + Zlen c) as Esrc by (rewrite S4; zlen). clear E.
  unfold careful_sequence. rewrite S0, (get_at_app_mid a tok _ (Zlen a)), <- S0 by done. rewrite T1.
  assert (with_len src 15 (Z.min lit 15) (Zlen a + 1) = Some (Ok (lit, Zlen a + 1 + Zlen L))) as ->.
  { replace (Zlen a + 1) with (Zlen (a ++ [tok])) by zlen. rewrite S1, <- (Z.add_0_r (Z.min lit 15)). change 15 with (15 + 0) at 1. unfold L.
    rewrite with_len_bytes by (try lia; unfold U64; lia). fold L. do 3 f_equal. lia. }
  cbn [obind].
  set (ip := Zlen a + 1 + Zlen L).
  unfold csub. rewrite (proj2 (Z.leb_le ip _)), (proj2 (Z.leb_le at_ (Zlen d))) by (unfold ip; lia). cbn [mbind option_bind].
  rewrite (proj2 (Z.ltb_ge (Zlen src - ip) lit)), (proj2 (Z.ltb_ge (Zlen d - at_) lit)) by (unfold ip; lia). cbn [orb].
  destruct (literals_ok src d ip at_ lit) as (d1 & -> & F1); [unfold ip; lia..|]. cbn [mbind option_bind]. rewrite (proj2 (Z.eqb_neq (ip + lit) _)) by (unfold ip; lia).
  assert (forall i, 0 <= i < at_ + lit -> get_at d1 i = get_at input i) as Hs1.
  { intros i Hi. destruct (decide (i < at_)); [rewrite (fi_below _ _ _ _ _ F1) by lia; apply Hs; lia|]. replace i with (at_ + (i - at_)) by lia. rewrite (fi_here _ _ _ _ _ F1) by lia.
    rewrite <- (get_at_sub input at_ lit (i - at_)) by lia. fold s. rewrite S2, get_at_skip by (unfold ip; zlen). rewrite get_at_keep by (unfold ip; zlen). f_equal. unfold ip. zlen. }
  unfold careful_match, csub. rewrite (proj2 (Z.leb_le (ip + lit) _)) by (unfold ip; lia). cbn [mbind option_bind]. rewrite (proj2 (Z.ltb_ge _ 2)) by (unfold ip; lia).
  assert (rd_u16 src (ip + lit) = Some off) as ->.
  { rewrite S3. apply rd_u16_app; [unfold ip; zlen|unfold U16; lia]. }
  cbn [mbind option_bind]. rewrite (proj2 (Z.eqb_neq off 0)), (proj2 (Z.ltb_ge (at_ + lit) off)) by lia. cbn [orb]. rewrite T2. change MINMATCH with 4.
  assert (with_len src (15 + 4) (Z.min (ml - 4) 15 + 4) (ip + lit + 2) = Some (Ok (ml, ip + lit + 2 + Zlen K))) as ->.
  { rewrite S4.
    replace (ip + lit + 2) with (Zlen ((((a ++ [tok]) ++ L) ++ s) ++ le16 off)) by (unfold ip; zlen). unfold K. rewrite with_len_bytes by (try lia; unfold U64; lia). do 3 f_equal. lia. }
  cbn [obind]. pose proof (fi_len _ _ _ _ _ F1) as L1. pose proof (match_checked_ok d1 (at_ + lit) off ml) as M. rewrite (proj2 (Z.ltb_ge (Zlen d1 - _) ml)) in M by lia.
  destruct M as (d2 & -> & F2); [lia..|]. cbn [obind]. exists d2. split; [replace (Zlen a + Zlen _) with (ip + lit + 2 + Zlen K) by (unfold ip; zlen); done|].
  pose proof (fi_len _ _ _ _ _ F2). split; [|lia]. split; [lia|]. intros i Hi. destruct (decide (i < at_ + lit)) as [|Hge]; [rewrite (fi_below _ _ _ _ _ F2) by lia; apply Hs1; lia|].
  replace i with (at_ + lit + (i - (at_ + lit))) by lia. rewrite (fi_here _ _ _ _ _ F2) by lia. unfold behind. pose proof (Z.mod_pos_bound (i - (at_ + lit)) off ltac:(lia)). rewrite Hs1 by lia.
  symmetry. apply (period (i - (at_ + lit)) off (fun j => get_at input (at_ + lit + j)) (fun j => get_at input (at_ + lit - off + j))); [lia| | |lia].
  - intros j Hj. f_equal. lia.
  - intros k Hk. rewrite Hsame by lia. f_equal. lia.
Qed.

Lemma careful_last_ok (a : bytes) d pos : 0 <= pos <= n -> n <= MAX_INPUT -> holds_to d pos ->
  exists d', careful_sequence (a ++ last_bytes input pos) d (Zlen a) pos = Some (Ok (true, d', Zlen (a ++ last_bytes input pos), n)) /\ holds_to d' n /\ Zlen d' = Zlen d.
Proof.
  intros Hp Hn [Hd Hs]. unfold MAX_INPUT, last_bytes in *. cbv zeta. set (lit := n - pos). set (tok := token_of lit 0). set (L := len_bytes lit). set (s := drop (Z.to_nat pos) input).
  assert (Zlen s = lit) as Ls by (unfold s, lit; zlen). destruct (token_nibbles lit 0 ltac:(unfold lit; lia) ltac:(lia)) as [T1 _]. fold tok in T1.
  pose proof (Zlen_nonneg L). pose proof (Zlen_nonneg a). remember (a ++ [tok] ++ L ++ s) as src eqn:E.
  assert (src = a ++ tok :: (L ++ s)) as S0 by (by subst src). assert (src = (a ++ [tok]) ++ L ++ s) as S1 by (subst src; by rewrite <- !app_assoc).
  assert (src = ((a ++ [tok]) ++ L) ++ s) as S2 by (subst src; by rewrite <- !app_assoc). assert (Zlen src = Zlen a + 1 + Zlen L + lit) as Esrc by (rewrite S2; zlen). clear E.
  unfold careful_sequence. rewrite S0, (get_at_app_mid a tok _ (Zlen a)), <- S0 by done. rewrite T1.
  assert (with_len src 15 (Z.min lit 15) (Zlen a + 1) = Some (Ok (lit, Zlen a + 1 + Zlen L))) as ->.
  { replace (Zlen a + 1) with (Zlen (a ++ [tok])) by zlen. rewrite S1, <- (Z.add_0_r (Z.min lit 15)). change 15 with (15 + 0) at 1. unfold L.
    rewrite with_len_bytes by (try lia; unfold U64, lit; lia). fold L. do 3 f_equal. lia. }
  cbn [obind]. set (ip := Zlen a + 1 + Zlen L). unfold csub. rewrite (proj2 (Z.leb_le ip _)), (proj2 (Z.leb_le pos (Zlen d))) by (unfold ip, lit in *; lia). cbn [mbind option_bind].
  rewrite (proj2 (Z.ltb_ge (Zlen src - ip) lit)), (proj2 (Z.ltb_ge (Zlen d - pos) lit)) by (unfold ip, lit in *; lia). cbn [orb].
  destruct (literals_ok src d ip pos lit) as (d1 & -> & F1); [unfold ip, lit in *; lia..|]. cbn [mbind option_bind]. rewrite (proj2 (Z.eqb_eq (ip + lit) _)) by (unfold ip; lia).
  exists d1. replace (ip + lit) with (Zlen src) by (unfold ip; lia). replace (pos + lit) with n by (unfold lit; lia). split; [done|]. pose proof (fi_len _ _ _ _ _ F1) as L1. split; [|done].
  split; [lia|]. intros i Hi. destruct (decide (i < pos)); [rewrite (fi_below _ _ _ _ _ F1) by lia; apply Hs; lia|]. replace i with (pos + (i - pos)) by lia.
  rewrite (fi_here _ _ _ _ _ F1) by (unfold lit; lia). rewrite S2, get_at_skip by (unfold ip; zlen). replace (ip + (i - pos) - Zlen ((a ++ [tok]) ++ L)) with (i - pos) by (unfold ip; zlen).
  rewrite <- (take_drop (Z.to_nat pos) input) at 1. fold s. rewrite get_at_skip by zlen. f_equal. zlen.
Qed.

Lemma careful_plan (a : bytes) d pos l fin fuel : 0 <= pos -> n <= MAX_INPUT -> plan input pos l fin -> 0 <= fin <= n -> holds_to d pos ->
  Zlen (block_of input l fin) <= Z.of_nat fuel -> exists d', careful_loop fuel (a ++ block_of input l fin) d (Zlen a) pos = Some (Ok (n, d')) /\ holds_to d' n /\ Zlen d' = Zlen d.
Proof.
  intros H0 Hn. revert a d pos H0 fuel. induction l as [|[[[at_ lit] off] ml] l IH]; intros a d pos H0 fuel; cbn [plan].
  - intros <- Hf Hh. unfold block_of. cbn [map concat app]. intros Hfu. assert (0 < Zlen (last_bytes input pos)) as Hpos.
    { unfold last_bytes. cbv zeta. rewrite !Zlen_app, Zlen_cons. pose proof (Zlen_nonneg (len_bytes (n - pos))). pose proof (Zlen_nonneg (drop (Z.to_nat pos) input)). pose proof (Zlen_nonneg (@nil byte)). lia. }
    destruct fuel as [|fuel]; [lia|]. cbn [careful_loop]. rewrite (proj2 (Z.ltb_lt _ _)) by (rewrite Zlen_app; lia).
    destruct (careful_last_ok a d pos) as (d' & -> & Hh' & Hl'); [lia|done|done|]. cbn [obind]. by exists d'.
  - intros (-> & Hl & Hm & Hp) Hf Hh. set (q := (pos, lit, off, ml)). set (c := block_of input l fin). assert (forall q : Sequence, block_of input (q :: l) fin = seq_bytes input q ++ c) as Eb by (intros q'; unfold block_of, c; cbn [map concat]; by rewrite <- app_assoc).
    rewrite Eb.
    rewrite Zlen_app. pose proof (ma_len _ _ _ _ Hm). pose proof (ma_end _ _ _ _ Hm). unfold MINMATCH, LASTLITERALS in *. intros Hfu.
    assert (0 < Zlen (seq_bytes input q)) as Hq. { unfold q, seq_bytes. rewrite !Zlen_app, Zlen_cons. pose proof (Zlen_nonneg (len_bytes lit)). pose proof (Zlen_nonneg (len_bytes (ml - 4))). pose proof (Zlen_nonneg (sub input pos lit)).
      pose proof (Zlen_nonneg (@nil byte)). pose proof (Zlen_le16 off). lia. }
    pose proof (Zlen_nonneg c). destruct fuel as [|fuel]; [lia|]. cbn [careful_loop]. rewrite (proj2 (Z.ltb_lt _ _)) by (rewrite !Zlen_app; lia).
    destruct (careful_seq_ok a c d pos lit off ml) as (d1 & E & Hh1 & L1); [lia|lia|done|done|done|]. fold q in E. rewrite E. cbn [obind]. rewrite <- Zlen_app, app_assoc.
    destruct (IH (a ++ seq_bytes input q) d1 (pos + lit + ml) ltac:(lia) fuel) as (d2 & E2 & Hh2 & L2); [done|done|done|fold c; lia|]. fold c in E2. rewrite E2. exists d2. split; [done|]. split; [done|congruence].
Qed.

(** ** And so does the count of its sequences *)

Lemma skip_len_var src n0 i : skip_len src n0 i = match var_len_go src n0 i with Some (Ok r) => Some r | _ => None end.
Proof. revert n0 i. induction src as [|b src IH]; intros n0 i; cbn [skip_len var_len_go]; [done|]. cbv zeta. by destruct (b2z b =? 255). Qed.

(** A length written, as the counter reads it: the nibble and its bytes. *)
Lemma skip_bytes (a c : bytes) k acc : 0 <= k < U64 -> acc = Z.min k 15 \/ acc = 0 ->
  (if Z.min k 15 =? 15 then skip_len (drop (Z.to_nat (Zlen a)) (a ++ len_bytes k ++ c)) acc (Zlen a) else Some (acc, Zlen a)) = Some (acc + (k - Z.min k 15), Zlen a + Zlen (len_bytes k)).
Proof.
  intros Hk Ha. unfold len_bytes. destruct (Z.ltb_spec k 15).
  - rewrite Z.min_l, (proj2 (Z.eqb_neq k 15)) by lia. rewrite (@Zlen_nil byte). do 2 f_equal; lia.
  - rewrite Z.min_r, Z.eqb_refl by lia. rewrite Z.min_r in Ha by lia. rewrite skip_len_var, Zlen_to_nat, drop_app_length. unfold len_tail. rewrite <- app_assoc.
    pose proof (Z.mod_pos_bound (k - 15) 255 ltac:(lia)) as Hm. pose proof (Z.div_mod (k - 15) 255 ltac:(lia)) as Hd. assert (0 <= (k - 15) / 255) as Hq by (apply Z.div_pos; lia). set (m := (k - 15) mod 255) in *.
    rewrite var_len_run by lia. rewrite Zlen_app, Zlen_replicate. change (Zlen [_]) with 1. do 2 f_equal; lia.
Qed.

Lemma sequences_step (a c : bytes) at_ lit off ml fuel k : 0 <= at_ -> 0 <= lit -> at_ + lit <= n -> n <= MAX_INPUT -> 4 <= ml <= n -> Zlen a + Zlen c < 2 ^ 60 ->
  sequences_go (S fuel) (a ++ seq_bytes input (at_, lit, off, ml) ++ c) (Zlen a) k = sequences_go fuel (a ++ seq_bytes input (at_, lit, off, ml) ++ c) (Zlen a + Zlen (seq_bytes input (at_, lit, off, ml))) (k + 1).
Proof.
  intros Ha Hl Hi Hn Hml Hsz. unfold MAX_INPUT, seq_bytes in *. set (tok := token_of lit (ml - 4)). set (s := sub input at_ lit).
  assert (Zlen s = lit) as Ls by (apply Zlen_sub; lia). destruct (token_nibbles lit (ml - 4) ltac:(lia) ltac:(lia)) as [T1 T2]. fold tok in T1, T2.
  remember (a ++ ([tok] ++ len_bytes lit ++ s ++ le16 off ++ len_bytes (ml - 4)) ++ c) as src eqn:E.
  assert (src = a ++ tok :: (len_bytes lit ++ s ++ le16 off ++ len_bytes (ml - 4) ++ c)) as S0 by (subst src; by rewrite <- !app_assoc).
  assert (src = (a ++ [tok]) ++ len_bytes lit ++ (s ++ le16 off ++ len_bytes (ml - 4) ++ c)) as S1 by (subst src; by rewrite <- !app_assoc).
  assert (src = ((((a ++ [tok]) ++ len_bytes lit) ++ s) ++ le16 off) ++ len_bytes (ml - 4) ++ c) as S4 by (subst src; by rewrite <- !app_assoc).
  set (L := Zlen (len_bytes lit)). set (K := Zlen (len_bytes (ml - 4))).
  assert (Zlen src = Zlen a + 1 + L + lit + 2 + K + Zlen c) as Esrc by (rewrite S4; unfold L, K; zlen). clear E.
  assert (0 <= L <= 300 /\ 0 <= K <= 300) as [HL HK].
  { unfold L, K. rewrite !Zlen_len_bytes by lia. destruct (Z.ltb_spec lit 15), (Z.ltb_spec (ml - 4) 15); Z.to_euclidean_division_equations; lia. }
  pose proof (Zlen_nonneg a). pose proof (Zlen_nonneg c). cbn [sequences_go]. rewrite S0, (get_at_app_mid a tok _ (Zlen a)), <- S0 by done. cbn [mbind option_bind]. rewrite T1, T2.
  assert (Zlen a + 1 = Zlen (a ++ [tok])) as Ea by zlen.
  pose proof (skip_bytes (a ++ [tok]) (s ++ le16 off ++ len_bytes (ml - 4) ++ c) lit (Z.min lit 15) ltac:(unfold U64; lia) ltac:(by left)) as K1. rewrite <- S1, <- Ea in K1. rewrite K1. cbn [mbind option_bind].
  fold L. replace (Z.min lit 15 + (lit - Z.min lit 15)) with lit by lia. unfold cadd. rewrite (proj2 (Z.ltb_lt (Zlen a + 1 + L + lit) U64)) by (unfold U64; lia). cbn [mbind option_bind].
  rewrite (proj2 (Z.eqb_neq _ (Zlen src))), (proj2 (Z.ltb_ge (Zlen src) _)) by lia.
  assert (Zlen a + 1 + L + lit + 2 = Zlen ((((a ++ [tok]) ++ len_bytes lit) ++ s) ++ le16 off)) as Eb by (unfold L; zlen).
  pose proof (skip_bytes ((((a ++ [tok]) ++ len_bytes lit) ++ s) ++ le16 off) c (ml - 4) 0 ltac:(unfold U64; lia) ltac:(by right)) as K2. rewrite <- S4, <- Eb in K2. rewrite K2. cbn [mbind option_bind]. fold K.
  f_equal. rewrite !Zlen_app, Zlen_le16. change (Zlen [_]) with 1. fold L K. lia.
Qed.

Lemma sequences_last (a : bytes) pos fuel k : 0 <= pos <= n -> n <= MAX_INPUT -> Zlen a < 2 ^ 60 -> sequences_go (S fuel) (a ++ last_bytes input pos) (Zlen a) k = Some (k + 1).
Proof.
  intros Hp Hn Hsz. unfold MAX_INPUT, last_bytes in *. cbv zeta. set (lit := n - pos). set (tok := token_of lit 0). set (s := drop (Z.to_nat pos) input).
  assert (Zlen s = lit) as Ls by (unfold s, lit; zlen). destruct (token_nibbles lit 0 ltac:(unfold lit; lia) ltac:(lia)) as [T1 _]. fold tok in T1.
  remember (a ++ [tok] ++ len_bytes lit ++ s) as src eqn:E. assert (src = a ++ tok :: (len_bytes lit ++ s)) as S0 by (by subst src).
  assert (src = (a ++ [tok]) ++ len_bytes lit ++ s) as S1 by (subst src; by rewrite <- !app_assoc). set (L := Zlen (len_bytes lit)).
  assert (Zlen src = Zlen a + 1 + L + lit) as Esrc by (rewrite S1; unfold L; zlen). clear E. pose proof (Zlen_nonneg a).
  assert (0 <= L <= 300) as HL. { unfold L. rewrite Zlen_len_bytes by (unfold lit; lia). unfold lit. destruct (Z.ltb_spec (n - pos) 15); Z.to_euclidean_division_equations; lia. }
  cbn [sequences_go]. rewrite S0, (get_at_app_mid a tok _ (Zlen a)), <- S0 by done. cbn [mbind option_bind]. rewrite T1. assert (Zlen a + 1 = Zlen (a ++ [tok])) as Ea by zlen.
  pose proof (skip_bytes (a ++ [tok]) s lit (Z.min lit 15) ltac:(unfold U64, lit; lia) ltac:(by left)) as K1. rewrite <- S1, <- Ea in K1. rewrite K1. cbn [mbind option_bind]. fold L.
  replace (Z.min lit 15 + (lit - Z.min lit 15)) with lit by lia. unfold cadd. rewrite (proj2 (Z.ltb_lt (Zlen a + 1 + L + lit) U64)) by (unfold U64, lit; lia). cbn [mbind option_bind].
  by rewrite (proj2 (Z.eqb_eq _ (Zlen src))) by lia.
Qed.

Lemma sequences_plan (a : bytes) pos l fin fuel k : 0 <= pos -> n <= MAX_INPUT -> plan input pos l fin -> 0 <= fin <= n -> (length l < fuel)%nat -> Zlen a + Zlen (block_of input l fin) < 2 ^ 60 ->
  sequences_go fuel (a ++ block_of input l fin) (Zlen a) k = Some (k + Zlen l + 1).
Proof.
  intros H0 Hn. revert a pos H0 fuel k. induction l as [|[[[at_ lit] off] ml] l IH]; intros a pos H0 fuel k; cbn [plan].
  - intros <- Hf Hfu Hs. destruct fuel as [|fuel]; [cbn in Hfu; lia|]. unfold block_of in *. cbn [map concat app] in *. rewrite sequences_last; [|lia|done|].
    + rewrite (@Zlen_nil Sequence). f_equal. lia.
    + pose proof (Zlen_nonneg (last_bytes input pos)). lia.
  - intros (-> & Hl & Hm & Hp) Hf Hfu. set (c := block_of input l fin). assert (forall q : Sequence, block_of input (q :: l) fin = seq_bytes input q ++ c) as Eb by (intros q'; unfold block_of, c; cbn [map concat]; by rewrite <- app_assoc).
    rewrite Eb, Zlen_app. intros Hs. cbn [length] in Hfu. pose proof (ma_len _ _ _ _ Hm). pose proof (ma_end _ _ _ _ Hm). unfold MINMATCH, LASTLITERALS in *. destruct fuel as [|fuel]; [lia|].
    pose proof (Zlen_nonneg (seq_bytes input (pos, lit, off, ml))). rewrite sequences_step by (try done; lia). rewrite <- Zlen_app, app_assoc. rewrite (IH _ (pos + lit + ml)); [|lia|done|done|lia|rewrite Zlen_app; fold c; lia].
    rewrite Zlen_cons. f_equal. lia.
Qed.

Lemma seqs_len (l : list Sequence) : Zlen l <= Zlen (concat (map (seq_bytes input) l)).
Proof.
  induction l as [|[[[at_ lit] off] ml] l IH]; [done|]. cbn [map concat]. rewrite Zlen_cons, Zlen_app. unfold seq_bytes at 1. cbn [app]. rewrite Zlen_cons.
  pose proof (Zlen_nonneg (len_bytes lit ++ sub input at_ lit ++ le16 off ++ len_bytes (ml - 4))). lia.
Qed.

Lemma plan_count pos l fin : 0 <= pos -> plan input pos l fin -> 4 * Zlen l <= fin - pos.
Proof.
  revert pos. induction l as [|[[[at_ lit] off] ml] l IH]; intros pos H0; cbn [plan]; [intros ->; rewrite (@Zlen_nil Sequence); lia|]. intros (_ & Hl & Hm & Hp).
  pose proof (ma_len _ _ _ _ Hm). unfold MINMATCH in *. specialize (IH (pos + lit + ml) ltac:(lia) Hp). rewrite Zlen_cons. lia.
Qed.
End block.

(** C13: A group decodes to itself. Whatever the group, of at most 64 KiB, and
    the effort, with up to four steps of the lazy parse ahead, and whatever groups
    the encoder had before: it neither panics nor refuses an output of
    [max_output] bytes, writes no more than that, and is left fit for the next
    group; what it wrote is an LZ4 block of as many sequences as it chose, its
    matches inside the format's ends, and the decoder answers the group of it,
    whatever bytes follow the block and whatever room the output has. *)
Theorem lz4_roundtrip e input f out : encoder_ok e -> Zlen input <= MAX_INPUT -> 0 <= lazy_ f <= MINMATCH -> max_output (Zlen input) <= Zlen out ->
  exists block rest e', compress_into e input out f = Some (Some (Zlen block, block ++ rest), e') /\ encoder_ok e' /\
    Zlen block <= max_output (Zlen input) /\ Zlen (block ++ rest) = Zlen out /\
    (exists fin, plan input 0 (reverse (en_seqs e')) fin /\ sequences block = Some (Zlen (en_seqs e') + 1)) /\
    forall tail dst, len_ok (block ++ tail) -> Zlen input <= Zlen dst < U64 ->
      exists d, decompress_in (block ++ tail) (Zlen block) dst = Some (Ok (Zlen input, d)) /\ Zlen d = Zlen dst /\ take (length input) d = input.
Proof.
  intros He Hn Hl Hout. unfold compress_into. pose proof (Zlen_nonneg input) as H0. rewrite (proj2 (Z.ltb_ge MAX_INPUT _)), (proj2 (Z.ltb_ge (Zlen out) _)) by lia. cbn [orb].
  destruct (parse_ok e input f He Hn Hl) as (e' & -> & He' & fin & Hp & Hend). cbn [mbind option_bind]. destruct (plan_le input 0 _ fin (Z.le_refl 0) Hp) as [Hf0 Hf1].
  assert (fin <= Zlen input) as Hfn. { unfold LASTLITERALS in *. destruct Hf1 as [E|]; [|lia]. rewrite E in Hp. cbn [plan] in Hp. lia. }
  set (l := reverse (en_seqs e')) in *. pose proof (plan_len input 0 l fin (Z.le_refl 0) Hp) as B1. pose proof (last_bytes_len input fin ltac:(lia)) as B2. pose proof (plan_count input 0 l fin (Z.le_refl 0) Hp) as B3.
  assert (Zlen (block_of input l fin) <= max_output (Zlen input)) as Hb by (unfold block_of, max_output; rewrite Zlen_app; Z.to_euclidean_division_equations; lia).
  destruct (emit_ok input e' out fin Hp) as (rest & -> & Hr); [lia|fold l; lia|]. fold l in Hr |- *. cbn [mbind option_bind]. set (block := block_of input l fin) in *. unfold max_output, MAX_INPUT in *.
  exists block, rest, e'. split; [done|]. split; [done|]. split; [done|]. split; [done|]. split.
  - exists fin. split; [done|]. unfold sequences. pose proof (sequences_plan input [] 0 l fin (S (length block)) 0) as S. cbn [app] in S. rewrite (@Zlen_nil byte) in S. fold block in S. rewrite S; try done; try lia.
    + f_equal. unfold l. rewrite Zlen_reverse. lia.
    + pose proof (seqs_len input l). unfold block, block_of. rewrite length_app. unfold Zlen in *. lia.
    + assert (Zlen input / 255 <= 65536) by (Z.to_euclidean_division_equations; lia). lia.
  - intros tail dst Hlen Hdst. pose proof (fast_is_careful (block ++ tail) (Zlen block) dst dst Hlen ltac:(lia)) as S. pose proof (Zlen_nonneg block). pose proof (Zlen_nonneg tail).
    rewrite Zlen_app in S. specialize (S ltac:(lia) eq_refl). rewrite Zlen_to_nat, take_app_length in S.
    destruct (careful_plan input [] dst 0 l fin (Z.to_nat (Zlen block))) as (d' & E & [Hd' Hh] & L'); try done; try (unfold MAX_INPUT; lia); [split; [lia|lia]|fold block; lia|].
    cbn [app] in E. fold block in E. rewrite (@Zlen_nil byte), Zlen_to_nat in E. rewrite E in S. destruct S as [[_ ?]|(k & d & d2 & S1 & S2 & Hk & Hag)]; [done|]. injection S2 as <- <-.
    exists d. split; [done|]. split; [destruct Hag; lia|]. apply get_at_ext; [rewrite Zlen_take; destruct Hag; unfold Zlen in *; lia|]. intros i Hi. rewrite Zlen_take in Hi. fold (Zlen input) in Hi.
    rewrite <- Hh by lia. rewrite <- (proj2 Hag) by lia. rewrite <- (take_drop (length input) d) at 2. rewrite get_at_keep; [done|]. rewrite Zlen_take. fold (Zlen input). lia.
Qed.

(** The bytes a call wrote. *)
Definition written (r : option (option (Z * bytes) * Encoder)) : bytes := match r with Some (Some (k, out), _) => take (Z.to_nat k) out | _ => [] end.
Lemma written_block block rest e : written (Some (Some (Zlen block, block ++ rest), e)) = block.
Proof. cbn [written]. by rewrite Zlen_to_nat, take_app_length. Qed.

Definition sample_group : bytes := map z2b (seqZ 1 12 ++ seqZ 1 12 ++ seqZ 3 10 ++ seqZ 40 8).
Lemma lz4_roundtrip_witness : exists block rest e', compress_into encoder_new sample_group (zeros 60) SHIPPED = Some (Some (Zlen block, block ++ rest), e') /\ Zlen block = 27 /\
  exists d, decompress_in (block ++ [xff]) (Zlen block) (zeros 42) = Some (Ok (42, d)) /\ take 42 d = sample_group.
Proof.
  destruct (lz4_roundtrip encoder_new sample_group SHIPPED (zeros 60) encoder_new_ok) as (block & rest & e' & E & _ & _ & _ & _ & H); [vm_compute; discriminate|done|vm_compute; discriminate|].
  assert (Zlen (written (compress_into encoder_new sample_group (zeros 60) SHIPPED)) = 27) as L by (vm_compute; reflexivity). rewrite E, written_block in L.
  exists block, rest, e'. split; [exact E|]. split; [exact L|].
  destruct (H [xff] (zeros 42)) as (d & Hd & _ & Ht); [unfold len_ok; rewrite Zlen_app, L; done|split; [vm_compute; discriminate|done]|]. exists d. split; [exact Hd|exact Ht].
Defined.

(** A match of four bytes, and no longer one within five steps. *)
Definition ahead_group : bytes := map z2b (seqZ 1 4 ++ seqZ 10 4 ++ seqZ 1 4 ++ seqZ 20 20).

(** C38: With five steps of the lazy parse ahead, which [Effort] allows, a block
    may not decode. After a match no longer than the steps looked ahead, the
    search from its end finds that position already in its own chain and takes it
    for a match at offset zero, which the decoder refuses, whether the output has
    the group's length or the slack besides. *)
Theorem lazy_steps_corrupt : let r := compress_into encoder_new ahead_group (zeros (max_output (Zlen ahead_group))) (mkEffort 16 0 8 5) in
  (exists k out e', r = Some (Some (k, out), e')) /\
  forall room, Zlen room = Zlen ahead_group \/ Zlen room = Zlen ahead_group + DECODE_SLACK -> decompress_into (written r) room = DecodeError.
Proof.
  intros r. assert (exists b, written r = b /\ len_ok b /\ (match r with Some (Some _, _) => true | _ => false end) = true /\
    careful_loop (Z.to_nat (Zlen b)) (take (Z.to_nat (Zlen b)) b) (zeros (Zlen ahead_group)) 0 0 = DecodeError /\
    careful_loop (Z.to_nat (Zlen b)) (take (Z.to_nat (Zlen b)) b) (zeros (Zlen ahead_group + DECODE_SLACK)) 0 0 = DecodeError) as (b & Eb & Hb & Hr & C1 & C2).
  { eexists. split; [vm_compute; reflexivity|]. split; [vm_compute; reflexivity|]. split; [vm_compute; reflexivity|]. split; vm_compute; reflexivity. }
  split.
  - destruct r as [[[[k out]|] e]|]; try done. by exists k, out, e.
  - rewrite Eb. intros room Hroom. unfold decompress_into. pose proof (Zlen_nonneg b). assert (Zlen ahead_group = 32) as L by done. unfold DECODE_SLACK in *.
    destruct Hroom as [E|E]; rewrite L in E, C1, C2.
    + destruct (fast_is_careful b (Zlen b) room (zeros 32) Hb) as [[-> _]|(k & d & d' & _ & E2 & _)]; [rewrite E; done|lia|by rewrite E|done|by rewrite C1 in E2].
    + destruct (fast_is_careful b (Zlen b) room (zeros (32 + 64)) Hb) as [[-> _]|(k & d & d' & _ & E2 & _)]; [rewrite E; done|lia|by rewrite E|done|by rewrite C2 in E2].
Qed.
