(* ===== verification/Sparse.v ===== *)
(** * The reader that keeps the fence alone

    [src/src/blob.rs], lines 2138 to 2769: the plans of a sparse open,
    [SparseBlob::open_with], and the walk of a range of the dictionary that
    fetches that range's directory entries and records and nothing else. A
    callback is the list of what it was handed. What is remembered between
    walks is which pieces of the section have been checked, a bit each,
    sixty-four to a word: the state of every operation here. Where a buffer
    of records lies in memory, lent by the source or copied, is a parameter:
    extents are read in place and their alignment is judged there. *)

From S2P Require Import Prelude State Varint Runs Crc Chunks BlockTable Records HashTable FlatIndex FlatRead Superblock Blob.

#[local] Open Scope state_scope.

(** ** Plans of an open *)

(** One range widened to the pieces that check it, from [sec_off] to [en]. *)
Definition round_piece (sec_off en piece : Z) (r : Z * Z) : option (Z * Z) :=
  let a := fst r in
  b ← cadd a (snd r);
  if (a <? sec_off) || (en <=? a) || (snd r =? 0) then Some r
  else
    b' ← cmul (div_ceil b piece) piece;
    let a2 := Z.max (a / piece * piece) sec_off in
    let b2 := Z.min b' en in
    Some (a2, b2 - a2).

Definition round_to_pieces (v : list (Z * Z)) (sec_off : Z) (hdr : Header) : option (list (Z * Z)) :=
  if hd_crc_off hdr =? 0 then Some v
  else
    let piece := Z.shiftl 1 (hd_piece_shift hdr) in
    en ← cadd sec_off (hd_crc_off hdr);
    mapM (round_piece sec_off en piece) v.

Definition fence_region (h : Header) (sec_len : Z) : result (Z * Z) :=
  if negb (hd_fence_n h =? 0) && ((hd_fence_offs_off h <? HEADER) || (sec_len <? hd_fence_offs_off h))
  then Err "the key index names a fence outside its section"
  else Ok (fence_span h sec_len).

(** What the plan takes from an extension: the table, the fence, the row and
    the directory, each from its copy in the head reserve where there is one. *)
Definition ext_plan (sb : Super) (x : SuperExt) (hdr : Header) (directory : bool) : list (Z * Z) :=
  [(0, open_probe); default (sb_blk_off sb, sb_blk_stored sb) (sx_table_copy x);
   match sx_fence_copy x with Some (o, l, _) => (o, l) | None => sx_fence x end] ++
  (if negb (hd_crc_off hdr =? 0) then [match sx_row_copy x with Some o => (o, snd (sx_row x)) | None => sx_row x end] else []) ++
  (if directory then [match sx_dir_copy x with Some (o, _) => (o, snd (sx_dir x)) | None => sx_dir x end] else []).

Definition finish_plan (sb : Super) (v : list (Z * Z)) : option (result (list (Z * Z))) :=
  let v := match log_probe_range sb with Some r => v ++ [r] | None => v end in
  v ← merge_ranges v; Some (Ok v).

Definition open_sparse_ranges_opts (head : bytes) (object_len : Z) (directory : bool) : option (result (list (Z * Z))) :=
  match pick_super head object_len with
  | Err e => Some (Err e)
  | Ok sb =>
      match decode_super_ext head (sb_generation sb) with
      | Some x =>
          match header_parse (sx_header x) with
          | None => Some (Err "the superblock extension's header copy does not parse")
          | Some hdr => v ← round_to_pieces (ext_plan sb x hdr directory) (sb_key_off sb) hdr; finish_plan sb v
          end
      | None => finish_plan sb [(0, open_probe); (sb_key_off sb, Z.min HEADER (sb_key_stored sb)); (sb_blk_off sb, sb_blk_stored sb)]
      end
  end.

Definition open_sparse_ranges (head : bytes) (object_len : Z) : option (result (list (Z * Z))) := open_sparse_ranges_opts head object_len false.

(** The second plan, of a section with no extension to speak for it. *)
Definition open_sparse_fence_ranges_opts (head : bytes) (object_len : Z) (index_header : bytes) (directory : bool)
    : option (result (list (Z * Z))) :=
  match pick_super head object_len with
  | Err e => Some (Err e)
  | Ok sb =>
      match decode_super_ext head (sb_generation sb) with
      | Some _ => Some (Ok [])
      | None =>
          match header_parse index_header with
          | None => Some (Err "the key index header is not the flat format this reader understands")
          | Some hdr =>
              match fence_region hdr (sb_key_stored sb) with
              | Err e => Some (Err e)
              | Ok (off, len) =>
                  at_ ← cadd (sb_key_off sb) off;
                  v ← (if directory then dir_at ← cadd (sb_key_off sb) (hd_dir_off hdr); Some [(at_, len); (dir_at, hd_nkeys hdr * 4)]
                       else Some [(at_, len)]);
                  v ← (if negb (hd_crc_off hdr =? 0) then
                         row_at ← cadd (sb_key_off sb) (hd_crc_off hdr);
                         round_to_pieces (v ++ [(row_at, checksum_row_len (hd_crc_off hdr) (hd_piece_shift hdr) (sb_key_off sb));
                                                (sb_key_off sb, HEADER)]) (sb_key_off sb) hdr
                       else Some v);
                  v ← merge_ranges v; Some (Ok v)
              end
          end
      end
  end.

Definition open_sparse_fence_ranges (head : bytes) (object_len : Z) (index_header : bytes) : option (result (list (Z * Z))) :=
  open_sparse_fence_ranges_opts head object_len index_header false.

(** Both plans through the source itself. *)
Definition sparse_open_ranges_via_opts (src : Source) (directory : bool) : option (result (list (Z * Z))) :=
  match read_at src 0 (Z.min open_probe (src_len src)) with
  | Err e => Some (Err e)
  | Ok head => open_sparse_ranges_opts head (src_len src) directory
  end.

Definition sparse_fence_ranges_via_opts (src : Source) (directory : bool) : option (result (list (Z * Z))) :=
  match read_at src 0 (Z.min open_probe (src_len src)) with
  | Err e => Some (Err e)
  | Ok head =>
      match pick_super head (src_len src) with
      | Err e => Some (Err e)
      | Ok sb =>
          match decode_super_ext head (sb_generation sb) with
          | Some _ => Some (Ok [])
          | None =>
              match read_at src (sb_key_off sb) (Z.min HEADER (sb_key_stored sb)) with
              | Err e => Some (Err e)
              | Ok hb => open_sparse_fence_ranges_opts head (src_len src) hb directory
              end
          end
      end
  end.

(** ** The reader *)

Record SparseIndex := mkSparse {
  si_off : Z;
  si_len : Z;
  si_hdr : Header;
  si_fence : bytes;
  si_crcs : bytes;
  si_dir : option (list Z);
  si_from_ext : bool
}.

(** The blocks' side of it is a [Blob] that holds no key section. *)
Record SparseBlob := mkSparseBlob { sp : SparseIndex; sp_blob : Blob }.

Definition no_index : FlatIndex := mkFlat (0, 0) (0, 0) 0 0 (0, 0) 0 0 0 0 0 0 0 (0, 0) (0, 0) 0 0 0 0 0 None.

(** The words of which pieces are checked. *)
Definition V (A : Type) : Type := SM (list Z) A.

Definition words32 (b : bytes) : list Z := map le_val (chunks_exact 4 b).

Section reader.
Context (src : Source) (buf_addr : Z -> Z).

(** *** Checking pieces *)

Definition check_piece (s : SparseIndex) (piece first_page en p : Z) : V unit :=
  do* seen := gets (fun bits => c ← get_at bits (p / 64); Some (Z.testbit c (p mod 64))) in
  do* seen := expect seen in
  if (seen : bool) then ret tt
  else
    let start := Z.max ((first_page + p) * piece) (si_off s) in
    let stop := Z.min ((first_page + p + 1) * piece) en in
    do* buf := lift (read_at src start (stop - start)) in
    do* want := require (piece_crc (si_crcs s) p) "the key index checksum row is short" in
    if negb (crc32 buf =? want) then fail "key index checksum mismatch"
    else modify (fun bits => default bits (c ← get_at bits (p / 64); put_range bits (p / 64) [Z.lor c (Z.shiftl 1 (p mod 64))])).

Fixpoint check_pieces (s : SparseIndex) (piece first_page en : Z) (ps : list Z) : V unit :=
  match ps with
  | [] => ret tt
  | p :: ps => do* tt := check_piece s piece first_page en p in check_pieces s piece first_page en ps
  end.

(** The pieces over [len] bytes of the section from [rel] on, those not
    checked yet. *)
Definition verify_span (s : SparseIndex) (rel len : Z) : V unit :=
  if (Zlen (si_crcs s) =? 0) || (len =? 0) || (hd_crc_off (si_hdr s) <=? rel) then ret tt
  else
    let piece := Z.shiftl 1 (hd_piece_shift (si_hdr s)) in
    let first_page := si_off s / piece in
    do* en := expect (cadd (si_off s) (hd_crc_off (si_hdr s))) in
    do* a := expect (cadd (si_off s) rel) in
    do* al := expect (cadd a len) in
    let b := Z.min al en in
    let p0 := a / piece - first_page in
    let p1 := div_ceil b piece - first_page in
    check_pieces s piece first_page en (seqZ p0 (p1 - p0)).

(** *** Opening *)

Definition region_fits (sec_len a len : Z) : bool :=
  (HEADER <=? a) && match cadd a len with Some e => e <=? sec_len | None => false end.

(** The fence, from its copy where the extension has one as long, and
    whether it came out of the section. *)
Definition read_fence (ext : option SuperExt) (key_off foff flen : Z) : V (bytes * bool) :=
  let from_section :=
    if 0 <? flen then do* at_ := expect (cadd key_off foff) in do* fence := lift (read_at src at_ flen) in ret (fence, true)
    else ret ([], false) in
  match (x ← ext; sx_fence_copy x) with
  | Some (o, l, crc) =>
      if (l =? flen) && (0 <? flen) then
        do* fence := lift (read_at src o flen) in
        if negb (crc32 fence =? crc) then fail "the fence copy in the head reserve does not match its checksum" else ret (fence, false)
      else from_section
  | None => from_section
  end.

Definition read_row (ext : option SuperExt) (opts : BlobOptions) (hdr : Header) (key_off sec_len : Z) : V bytes :=
  if negb (hd_crc_off hdr =? 0) && verify_index opts then
    let n := checksum_row_len (hd_crc_off hdr) (hd_piece_shift hdr) key_off in
    if match cadd (hd_crc_off hdr) n with Some e => sec_len <? e | None => true end
    then fail "the key index names a checksum row outside its section"
    else
      do* at_ := match (x ← ext; sx_row_copy x) with Some o => ret o | None => expect (cadd key_off (hd_crc_off hdr)) end in
      lift (read_at src at_ n)
  else ret [].

(** The directory where it is asked for, and whether it came out of the
    section. *)
Definition read_directory (ext : option SuperExt) (opts : BlobOptions) (hdr : Header) (key_off : Z) : V (option (list Z) * bool) :=
  if negb (resident_directory opts) then ret (None, false)
  else
    match (x ← ext; sx_dir_copy x) with
    | Some (o, crc) =>
        do* raw := lift (read_at src o (hd_nkeys hdr * 4)) in
        if negb (crc32 raw =? crc) then fail "the directory copy in the head reserve does not match its checksum"
        else ret (Some (words32 raw), false)
    | None =>
        do* at_ := expect (cadd key_off (hd_dir_off hdr)) in
        do* raw := lift (read_at src at_ (hd_nkeys hdr * 4)) in
        ret (Some (words32 raw), true)
    end.

Definition open_sparse (blk_base : Z) (opts : BlobOptions) (id : Z) : V (SparseBlob * list Z) :=
  do* sb := lift (open_head src) in
  let sec_len := sb_key_stored sb in
  do* tt := refuse_if (sec_len <? HEADER) "the key index is shorter than its header" in
  do* page := lift (read_at src 0 (Z.min SUPER (src_len src))) in
  let ext := decode_super_ext page (sb_generation sb) in
  do* hb := match ext with Some x => ret (sx_header x) | None => lift (read_at src (sb_key_off sb) HEADER) end in
  do* hdr := require (header_parse hb) "the key index is not the flat format this reader understands" in
  do* tt := refuse_if (negb (region_fits sec_len (hd_hash_off hdr) (Z.min (hd_hash_cap hdr * 8) (U64 - 1)))
                       || negb (region_fits sec_len (hd_dir_off hdr) (Z.min (hd_nkeys hdr * 4) (U64 - 1)))
                       || negb (region_fits sec_len (hd_recs_off hdr) (hd_bump hdr)))
              "the key index header names a region outside its section" in
  do* (foff, flen) := lift (fence_region hdr sec_len) in
  do* (fence, fence_from_section) := read_fence ext (sb_key_off sb) foff flen in
  do* crcs := read_row ext opts hdr (sb_key_off sb) sec_len in
  let '(toff, tlen) := default (sb_blk_off sb, sb_blk_stored sb) (x ← ext; sx_table_copy x) in
  do* blk := lift (sec_read src toff tlen) in
  do* blocks := require (mapped_parse blk_base (sec_bytes blk)) "the block table is not readable" in
  let words := replicate (Z.to_nat (div_ceil (mapped_len blocks * MAX_CHUNK_CRCS) 64)) 0 in
  do* (dir, dir_from_section) := read_directory ext opts hdr (sb_key_off sb) in
  let s := mkSparse (sb_key_off sb) sec_len hdr fence crcs dir (match ext with Some _ => true | None => false end) in
  do* tt := modify (fun _ => replicate (Z.to_nat (div_ceil (Zlen crcs / 4) 64)) 0) in
  do* tt := match ext with Some _ => ret tt | None => verify_span s 0 HEADER end in
  do* tt := (if fence_from_section then verify_span s foff flen else ret tt) in
  do* tt := (if dir_from_section then verify_span s (hd_dir_off hdr) (hd_nkeys hdr * 4) else ret tt) in
  ret (mkSparseBlob s (mkBlob (mkSec [] 0) no_index blk blocks (hd_generation hdr) (sb_timestamp sb) opts id), words).

(** *** A range of the dictionary *)

Section walk.
Context (s : SparseIndex).

Definition sparse_keys : Z := hd_nkeys (si_hdr s).
Definition has_fence : bool := match fence_parse (si_fence s) (si_hdr s) with Some _ => true | None => false end.

(** The ranks a range's keys can be at. *)
Definition rank_window (lo : bytes) (hi : option bytes) : Z * Z :=
  let n := hd_nkeys (si_hdr s) in
  match fence_parse (si_fence s) (si_hdr s) with
  | None => (0, n)
  | Some fv =>
      let r0 := fst (window fv lo n) in
      let r1 := match hi with Some h => Z.min (snd (window fv h n)) n | None => n end in
      (r0, Z.max r1 r0)
  end.

(** The entries a slice of the directory takes: one past the window, where
    there is one, for where its last record ends. *)
Definition dir_entries_of (r0 r1 : Z) : Z := r1 - r0 + (if r1 <? hd_nkeys (si_hdr s) then 1 else 0).

Definition dictionary_plan (lo : bytes) (hi : option bytes) : option (list (Z * Z)) :=
  let '(r0, r1) := rank_window lo hi in
  match si_dir s with
  | Some _ => Some []
  | None =>
      at_ ← cadd (si_off s) (hd_dir_off (si_hdr s) + r0 * 4);
      v ← round_to_pieces [(at_, dir_entries_of r0 r1 * 4)] (si_off s) (si_hdr s);
      merge_ranges v
  end.

Definition sparse_dir_slice (r0 r1 : Z) : V (list Z) :=
  let entries := dir_entries_of r0 r1 in
  match si_dir s with
  | Some d => expect (get_range d r0 (r0 + entries))
  | None =>
      do* tt := verify_span s (hd_dir_off (si_hdr s) + r0 * 4) (entries * 4) in
      do* at_ := expect (cadd (si_off s) (hd_dir_off (si_hdr s) + r0 * 4)) in
      do* raw := lift (read_at src at_ (entries * 4)) in
      ret (words32 raw)
  end.

Fixpoint rising (d : list Z) : bool :=
  match d with a :: (b :: _) as d' => (a <? b) && rising d' | _ => true end.

(** The bytes the records of a window take: where they start, how many, and
    the first one's offset among the records. *)
Definition sparse_record_span (r0 r1 : Z) (d : list Z) : V (Z * Z * Z) :=
  let h := si_hdr s in
  do* recs_abs := expect (cadd (si_off s) (hd_recs_off h)) in
  if r1 =? r0 then ret (recs_abs, 0, 0)
  else
    let m := r1 - r0 in
    do* (start, en) :=
      (if rising d then
         do* start := expect (get_at d 0) in
         do* en := (if r1 <? hd_nkeys h then expect (get_at d m) else ret (hd_recs_len h)) in
         ret (start, en)
       else
         do* d := expect (get_range d 0 m) in
         ret (match d with [] => 0 | x :: xs => fold_left Z.min xs x end, hd_bump h)) in
    if (en <? start) || (hd_bump h <? en) then fail "the directory names records outside the record region"
    else do* at_ := expect (cadd recs_abs start) in ret (at_, en - start, start).

Definition dictionary_plan_records (lo : bytes) (hi : option bytes) : V (list (Z * Z)) :=
  let '(r0, r1) := rank_window lo hi in
  do* d := sparse_dir_slice r0 r1 in
  do* (at_, len, _) := sparse_record_span r0 r1 d in
  do* v := expect (round_to_pieces [(at_, len)] (si_off s) (si_hdr s)) in
  expect (merge_ranges v).

Definition key_past (hi : option bytes) (key : bytes) : bool := match hi with Some h => bleb h key | None => false end.

(** The records at the offsets, those in the range handed on. *)
Fixpoint window_walk (addr : Z) (buf : bytes) (base : Z) (lo : bytes) (hi : option bytes) (f : bytes -> list Ext -> bytes -> bool)
    (offs : list Z) (prev : option bytes) (out : Z) : list (bytes * Exts * bytes) * result Z :=
  match offs with
  | [] => ([], Ok out)
  | d :: offs =>
      if d <? base then ([], Err "a directory entry points below the planned span")
      else
        match parse_record addr buf (d - base) with
        | None => ([], Err "a dictionary record does not decode")
        | Some (key, exts, tail, _) =>
            if match prev with Some p => bleb key p | None => false end then ([], Err "the dictionary is out of key order")
            else if bltb key lo then window_walk addr buf base lo hi f offs (Some key) out
            else if key_past hi key then ([], Ok out)
            else if f key (exts_deref exts) tail then
              let '(es, r) := window_walk addr buf base lo hi f offs (Some key) (out + 1) in ((key, exts, tail) :: es, r)
            else ([(key, exts, tail)], Ok (out + 1))
        end
  end.

Definition dictionary_walk (lo : bytes) (hi : option bytes) (f : bytes -> list Ext -> bytes -> bool)
    : V (list (bytes * Exts * bytes) * result Z) :=
  let '(r0, r1) := rank_window lo hi in
  do* d := sparse_dir_slice r0 r1 in
  do* (at_, len, base) := sparse_record_span r0 r1 d in
  do* tt := verify_span s (at_ - si_off s) len in
  do* buf := lift (read_at src at_ len) in
  do* offs := expect (get_range d 0 (r1 - r0)) in
  ret (window_walk (buf_addr at_) buf base lo hi f offs None 0).

(** Each key and how many records it has. *)
Definition dictionary_counts (lo : bytes) (hi : option bytes) (f : bytes -> Z -> bool) : V (list (bytes * Z) * result Z) :=
  let total := fun exts => fold_left Z.add (map records exts) 0 in
  do* (es, r) := dictionary_walk lo hi (fun k exts _ => f k (total exts)) in
  ret (map (fun '(k, exts, _) => (k, total (exts_deref exts))) es, r).
End walk.
End reader.
