(* ===== verification/SparsePlan.v ===== *)
(** * A walk reads what was planned for it

    A host that fetches by range fetches the directory's part of a range's
    plan, then the records', and the walk of [Sparse] then runs over what it
    holds. Proved: neither the second plan nor the walk asks for a byte
    outside the plans, the whole pieces that check the section included. *)

From S2P Require Import Prelude State Varint Runs Crc Chunks BlockTable Records HashTable FlatIndex FlatRead Superblock Blob BlobCache BlobPlan Sparse.

#[local] Open Scope state_scope.

(** Two sources that answer alike within a range. *)
Definition alike (s1 s2 : Source) (r : Z * Z) : Prop := forall off len,
  len = 0 \/ 0 < len /\ fst r <= off /\ off + len <= fst r + snd r -> src_read s1 off len = src_read s2 off len.

Lemma agree_alike v s1 s2 rs : agree v s1 s2 -> Forall range_ok rs -> merge_ranges rs = Some v -> forall r, In r rs -> alike s1 s2 r.
Proof.
  intros Ha Hok Hm r Hin off len H. apply Ha. destruct H as [?|(Hl & H1 & H2)]; [by left|]. right. split; [done|].
  destruct (merge_ranges_kept rs Hok) as (out & Ho & Hg & _ & Hc). rewrite Hm in Ho. injection Ho as <-.
  apply (gapped_one v off len Hg Hl). intros x Hx. apply Hc. exists r. split; [done|]. unfold in_range. lia.
Qed.

Lemma alike_sub s1 s2 r off len : alike s1 s2 r -> 0 <= len -> fst r <= off -> off + len <= fst r + snd r -> alike s1 s2 (off, len).
Proof. intros H Hl H1 H2 x n [->|(Hn & H3 & H4)]; apply H; [by left|]. cbn [fst snd] in *. right. lia. Qed.

(** ** One range and the pieces over it *)

Lemma rounded_in rs off hd rs' r : round_to_pieces rs off hd = Some rs' -> In r rs -> exists r', In r' rs' /\ round_to_pieces [r] off hd = Some [r'].
Proof.
  unfold round_to_pieces. destruct (hd_crc_off hd =? 0); [intros [= <-] Hin; by exists r|]. destruct (cadd off (hd_crc_off hd)) as [en|]; [|done]. cbn [option_bind mbind].
  set (g := round_piece off en _). revert rs'. induction rs as [|x rs IH]; intros rs' H Hin; [destruct Hin|]. destruct Hin as [->|Hin].
  - cbn in H. destruct (g r) as [r'|] eqn:Er; [|done]. cbn in H. destruct (mapM g rs); [|done]. injection H as <-. exists r'. split; [by left|]. cbn. by rewrite Er.
  - cbn in H. destruct (g x) as [x'|]; [|done]. cbn in H. destruct (mapM g rs) as [rs''|]; [|done]. injection H as <-.
    destruct (IH rs'' eq_refl Hin) as (r' & H1 & H2). exists r'. split; [by right|done].
Qed.

(** What a range is widened to. *)
Lemma rounded_one a l off hd r' : round_to_pieces [(a, l)] off hd = Some [r'] -> hd_crc_off hd <> 0 -> 0 <= hd_piece_shift hd -> off <= a -> 0 < l ->
  a + l <= off + hd_crc_off hd ->
  let piece := Z.shiftl 1 (hd_piece_shift hd) in
  0 < piece /\ fst r' = Z.max (a / piece * piece) off /\ fst r' + snd r' = Z.min (div_ceil (a + l) piece * piece) (off + hd_crc_off hd).
Proof.
  intros H Hc Hs Ha Hl He. cbv zeta. set (piece := Z.shiftl 1 _). assert (0 < piece) as Hp.
  { unfold piece. rewrite Z.shiftl_1_l. apply Z.pow_pos_nonneg; lia. }
  split; [done|]. unfold round_to_pieces in H. rewrite (proj2 (Z.eqb_neq _ 0)) in H by done. destruct (cadd off _) as [en|] eqn:Ee; [|done].
  apply cadd_Some in Ee as [-> _]. cbn [option_bind mbind] in H. cbn in H. fold piece in H. unfold round_piece in H. cbn [fst snd] in H.
  destruct (cadd a l) as [b|] eqn:Eb; [|done]. apply cadd_Some in Eb as [-> _]. cbn [option_bind mbind] in H.
  rewrite (proj2 (Z.ltb_ge a off)), (proj2 (Z.leb_gt (off + hd_crc_off hd) a)), (proj2 (Z.eqb_neq l 0)) in H by lia. cbn [orb] in H.
  destruct (cmul _ piece) as [b'|] eqn:Em; [|done]. apply cmul_Some in Em as [-> _]. cbn in H. injection H as <-. cbn [fst snd]. lia.
Qed.

(** A range no rounding cuts: none that starts in what the row is of runs past
    its end. *)
Definition uncut (off : Z) (hd : Header) (r : Z * Z) : Prop :=
  range_ok r /\ (off <= fst r < off + hd_crc_off hd -> 0 < snd r -> fst r + snd r <= off + hd_crc_off hd).

Lemma round_piece_uncut off hd r : 0 <= hd_piece_shift hd <= 24 -> 0 <= off -> 0 <= hd_crc_off hd -> off + hd_crc_off hd < 2 ^ 63 -> uncut off hd r ->
  exists r', round_piece off (off + hd_crc_off hd) (Z.shiftl 1 (hd_piece_shift hd)) r = Some r' /\ range_ok r' /\ fst r' <= fst r /\ fst r + snd r <= fst r' + snd r'.
Proof.
  intros Hs Ho Hc He [(H0 & H1 & H2) Hin]. assert (2 ^ 63 + 2 ^ 24 < U64) as HU by done. unfold round_piece. rewrite (proj2 (cadd_Some _ _ _)) by (split; [reflexivity|done]). cbn [option_bind mbind].
  destruct (Z.ltb_spec (fst r) off), (Z.leb_spec (off + hd_crc_off hd) (fst r)), (Z.eqb_spec (snd r) 0); cbn [orb]; try (exists r; split; [done|]; split; [done|lia]).
  specialize (Hin ltac:(lia) ltac:(lia)). assert (0 < Z.shiftl 1 (hd_piece_shift hd) <= 2 ^ 24) as Hp.
  { rewrite Z.shiftl_1_l. split; [apply Z.pow_pos_nonneg; lia|apply Z.pow_le_mono_r; lia]. }
  set (piece := Z.shiftl 1 _) in *. destruct (div_ceil_spec (fst r + snd r) piece ltac:(lia) ltac:(lia)) as [Hd1 Hd2].
  rewrite (proj2 (cmul_Some _ _ _)) by (split; [reflexivity|lia]). cbn [option_bind mbind]. eexists. split; [reflexivity|].
  pose proof (Z.mul_div_le (fst r) piece ltac:(lia)). unfold range_ok. cbn [fst snd]. lia.
Qed.

Lemma rounded_uncut rs off hd : hd_crc_off hd <> 0 -> 0 <= hd_piece_shift hd <= 24 -> 0 <= off -> 0 <= hd_crc_off hd -> off + hd_crc_off hd < 2 ^ 63 ->
  Forall (uncut off hd) rs -> exists rs', round_to_pieces rs off hd = Some rs' /\ Forall range_ok rs' /\
    Forall2 (fun r r' => fst r' <= fst r /\ fst r + snd r <= fst r' + snd r') rs rs'.
Proof.
  intros Hz Hs Ho Hc He Hrs. assert (2 ^ 63 < U64) as HU by done. unfold round_to_pieces. rewrite (proj2 (Z.eqb_neq _ _) Hz), (proj2 (cadd_Some _ _ _)) by (split; [reflexivity|lia]).
  cbn [option_bind mbind]. induction Hrs as [|r rs Hr _ (rs' & IH & H1 & H2)]; [exists []; split; [done|]; split; constructor|].
  destruct (round_piece_uncut off hd r Hs Ho Hc He Hr) as (r' & Hr1 & Hr2 & Hr3). exists (r' :: rs'). split; [cbn; rewrite Hr1; cbn; by rewrite IH|]. split; by constructor.
Qed.

Lemma check_pieces_same s1 s2 s piece fp en ps bits :
  (forall p, In p ps -> src_read s1 (Z.max ((fp + p) * piece) (si_off s)) (Z.min ((fp + p + 1) * piece) en - Z.max ((fp + p) * piece) (si_off s)) =
                        src_read s2 (Z.max ((fp + p) * piece) (si_off s)) (Z.min ((fp + p + 1) * piece) en - Z.max ((fp + p) * piece) (si_off s))) ->
  check_pieces s1 s piece fp en ps bits = check_pieces s2 s piece fp en ps bits.
Proof.
  revert bits. induction ps as [|p ps IH]; intros bits H; [done|]. cbn [check_pieces].
  assert (check_piece s1 s piece fp en p bits = check_piece s2 s piece fp en p bits) as Hc.
  { unfold check_piece, bind, gets. cbv zeta. unfold expect. destruct (c ← get_at bits (p / 64); _) as [b|]; [|done]. destruct b; [done|].
    unfold lift, read_at. rewrite (H p) by (by left). done. }
  apply bind_same; [exact Hc|]. intros [] bits' _. apply IH. intros q Hq. apply H. by right.
Qed.

(** A span's check reads inside what its range was widened to. *)
Lemma span_same s s1 s2 a l r' : round_to_pieces [(si_off s + a, l)] (si_off s) (si_hdr s) = Some [r'] -> alike s1 s2 r' ->
  (hd_crc_off (si_hdr s) = 0 -> si_crcs s = []) -> 0 <= hd_piece_shift (si_hdr s) -> 0 <= si_off s -> 0 <= a -> 0 <= l ->
  (hd_crc_off (si_hdr s) <> 0 -> a + l <= hd_crc_off (si_hdr s)) ->
  (forall bits, verify_span s1 s a l bits = verify_span s2 s a l bits) /\ alike s1 s2 (si_off s + a, l).
Proof.
  intros Hr Ha Hc Hs H0 H1 Hl He. destruct (Z.eq_dec l 0) as [->|Hl0].
  { split; [intros bits; unfold verify_span; by rewrite Z.eqb_refl, orb_true_r|]. intros x n [->|(? & ? & ?)]; [by apply Ha; left|]. cbn [fst snd] in *. lia. }
  destruct (Z.eq_dec (hd_crc_off (si_hdr s)) 0) as [Hz|Hz].
  { unfold round_to_pieces in Hr. rewrite Hz in Hr. cbn [Z.eqb] in Hr. injection Hr as <-. split; [|done]. intros bits. unfold verify_span. by rewrite (Hc Hz). }
  specialize (He Hz). destruct (rounded_one _ _ _ _ _ Hr Hz Hs ltac:(lia) ltac:(lia) ltac:(lia)) as (Hp & H2 & H3). set (piece := Z.shiftl 1 _) in *.
  destruct (div_ceil_spec (si_off s + a + l) piece Hp ltac:(lia)) as [Hd1 Hd2].
  pose proof (Z.mul_div_le (si_off s + a) piece Hp) as Hd3. pose proof (Z.mul_div_le (si_off s) piece Hp) as Hd4.
  split; [|eapply alike_sub; [exact Ha|lia|rewrite H2; nia|rewrite H3; nia]].
  intros bits. unfold verify_span. destruct (_ || _); [done|]. fold piece. unfold bind, expect.
  destruct (cadd (si_off s) (hd_crc_off (si_hdr s))) as [en|] eqn:Ee; [|done]. apply cadd_Some in Ee as [-> _].
  destruct (cadd (si_off s) a) as [x|] eqn:Ex; [|done]. apply cadd_Some in Ex as [-> _]. destruct (cadd _ l) as [y|] eqn:Ey; [|done]. apply cadd_Some in Ey as [-> _].
  rewrite Z.min_l by lia. apply check_pieces_same. intros p Hp'. apply list_elem_of_In, elem_of_seqZ in Hp'. apply Ha. set (fp := si_off s / piece) in *.
  set (c := div_ceil (si_off s + a + l) piece) in *. set (q := (si_off s + a) / piece) in *.
  destruct (Z.le_gt_cases (Z.min ((fp + p + 1) * piece) (si_off s + hd_crc_off (si_hdr s)) - Z.max ((fp + p) * piece) (si_off s)) 0) as [Hle|Hgt]; [|right].
  - left. assert (q <= fp + p < c) by lia. assert ((fp + p) * piece < si_off s + a + l) by nia. assert (si_off s + a < (fp + p + 1) * piece) by (unfold q in *; pose proof (Z.mul_succ_div_gt (si_off s + a) piece Hp); nia). lia.
  - split; [done|]. rewrite H3, H2. assert (q <= fp + p < c) by lia. split; [nia|]. nia.
Qed.

(** ** A section's walk *)

(** What an open leaves: regions in the section, before the checksum row where
    there is one, and no offset past the last there is. *)
Record sparse_ok (s : SparseIndex) : Prop := {
  sk_off : 0 <= si_off s;
  sk_n : 0 <= hd_nkeys (si_hdr s);
  sk_fence : 0 <= hd_fence_n (si_hdr s) /\ 0 <= hd_fence_stride (si_hdr s);
  sk_regions : 0 <= hd_dir_off (si_hdr s) /\ 0 <= hd_recs_off (si_hdr s) /\ 0 <= hd_bump (si_hdr s);
  sk_row : hd_crc_off (si_hdr s) = 0 -> si_crcs s = [];
  sk_shift : 0 <= hd_piece_shift (si_hdr s);
  sk_crc : hd_crc_off (si_hdr s) <> 0 -> hd_dir_off (si_hdr s) + hd_nkeys (si_hdr s) * 4 <= hd_crc_off (si_hdr s) /\
    hd_recs_off (si_hdr s) + hd_bump (si_hdr s) <= hd_crc_off (si_hdr s);
  sk_end : si_off s + hd_dir_off (si_hdr s) + hd_nkeys (si_hdr s) * 4 < U64 /\ si_off s + hd_recs_off (si_hdr s) + hd_bump (si_hdr s) < U64;
  sk_dir : match si_dir s with Some d => Forall (fun x => 0 <= x) d | None => True end
}.

Section walk.
Context (s : SparseIndex) (Hs : sparse_ok s).

Lemma rank_window_range lo hi : let '(r0, r1) := rank_window s lo hi in 0 <= r0 <= r1 /\ r1 <= hd_nkeys (si_hdr s).
Proof.
  destruct Hs as [_ Hn [Hf1 Hf2] _ _ _ _ _ _]. unfold rank_window. destruct (fence_parse (si_fence s) (si_hdr s)) as [v|] eqn:Ev; [|lia].
  unfold fence_parse in Ev. destruct (_ || _ || _) eqn:Eb; [done|]. apply orb_false_iff in Eb as [[Eb1%Z.eqb_neq Eb2%Z.eqb_neq]%orb_false_iff _].
  destruct (Z.eqb_spec (hd_fence_n (si_hdr s)) (div_ceil (hd_nkeys (si_hdr s)) (hd_fence_stride (si_hdr s)))) as [En|]; [|done]. cbn [negb] in Ev.
  assert (fv_n v = hd_fence_n (si_hdr s) /\ fv_stride v = hd_fence_stride (si_hdr s)) as [Hvn Hvs].
  { repeat match type of Ev with mbind _ ?x = Some _ => destruct x; [cbn [option_bind mbind] in Ev|done] end. by injection Ev as <-. }
  destruct (div_ceil_spec (hd_nkeys (si_hdr s)) (hd_fence_stride (si_hdr s)) ltac:(lia) Hn) as [Hd1 Hd2]. rewrite <- En in *.
  assert (0 <= fst (window v lo (hd_nkeys (si_hdr s))) <= hd_nkeys (si_hdr s)) as Hw.
  { unfold window, window_of. cbn [fst]. rewrite Hvn, Hvs. pose proof (bsearch_range (less_than (view_key v) lo) 0 (hd_fence_n (si_hdr s)) ltac:(lia)) as Hb.
    unfold ssub. nia. }
  destruct hi; lia.
Qed.

Lemma plan_range a l v : merge_ranges [(a, l)] = Some v -> v = if 0 <? l then [(a, l)] else [].
Proof. unfold merge_ranges. cbn [List.filter snd]. destruct (0 <? l); intros [= <-]; done. Qed.

(** A range planned alone: two sources alike inside the plan. *)
Lemma planned_same s1 s2 a l rs v : 0 <= a -> 0 <= l -> (hd_crc_off (si_hdr s) <> 0 -> a + l <= hd_crc_off (si_hdr s)) ->
  round_to_pieces [(si_off s + a, l)] (si_off s) (si_hdr s) = Some rs -> merge_ranges rs = Some v -> agree v s1 s2 ->
  (forall bits, verify_span s1 s a l bits = verify_span s2 s a l bits) /\ src_read s1 (si_off s + a) l = src_read s2 (si_off s + a) l.
Proof.
  intros Ha Hl Hc Hr Hm Hag. destruct Hs as [Ho _ _ _ Hrow Hsh _ _ _]. destruct (rounded_in _ _ _ _ _ Hr (or_introl eq_refl)) as (r' & Hin & Hr1).
  rewrite Hr in Hr1. injection Hr1 as ->. destruct r' as [a' l']. apply plan_range in Hm as ->.
  assert (alike s1 s2 (a', l')) as Hal.
  { intros off len [->|(Hn & H1 & H2)]; apply Hag; [by left|]. right. split; [done|]. cbn [fst snd] in *. rewrite (proj2 (Z.ltb_lt 0 l')) by lia. exists (a', l'). split; [by left|done]. }
  destruct (span_same s s1 s2 a l (a', l') Hr Hal Hrow Hsh Ho Ha Hl Hc) as [H1 H2]. split; [done|]. apply H2.
  destruct (Z.eq_dec l 0); [by left|right; cbn [fst snd]; lia].
Qed.

Lemma words32_pos b : Forall (fun x => 0 <= x) (words32 b).
Proof. unfold words32. apply Forall_map, Forall_forall. intros x _. pose proof (le_val_range x). lia. Qed.

Lemma dir_slice_same s1 s2 lo hi v r0 r1 : dictionary_plan s lo hi = Some v -> agree v s1 s2 -> rank_window s lo hi = (r0, r1) ->
  forall bits, sparse_dir_slice s1 s r0 r1 bits = sparse_dir_slice s2 s r0 r1 bits.
Proof.
  intros Hp Ha Hw bits. pose proof (rank_window_range lo hi) as Hr. rewrite Hw in Hr. unfold dictionary_plan in Hp. rewrite Hw in Hp. unfold sparse_dir_slice. cbv zeta.
  destruct Hs as [Ho Hn _ (Hd & _) _ _ Hcrc [He _] _]. destruct (si_dir s); [done|].
  assert (0 <= dir_entries_of s r0 r1 <= hd_nkeys (si_hdr s) - r0) as Hent by (unfold dir_entries_of; destruct (Z.ltb_spec r1 (hd_nkeys (si_hdr s))); lia).
  destruct (cadd (si_off s) _) as [at_|] eqn:Ea; [|done]. apply cadd_Some in Ea as [-> _]. cbn [option_bind mbind] in Hp.
  destruct (round_to_pieces _ _ _) as [rs|] eqn:Er; [|done]. cbn [option_bind mbind] in Hp.
  destruct (planned_same s1 s2 (hd_dir_off (si_hdr s) + r0 * 4) (dir_entries_of s r0 r1 * 4) rs v ltac:(lia) ltac:(lia) ltac:(lia) Er Hp Ha) as [H1 H2].
  apply bind_same; [apply H1|]. intros [] b1 _. apply bind_same; [done|]. intros x b2 Ex. unfold expect in Ex.
  injection Ex as <- <-.
  apply bind_same; [|done]. unfold lift, read_at. by rewrite H2.
Qed.

Lemma dir_slice_words s1 r0 r1 bits d bits' : sparse_dir_slice s1 s r0 r1 bits = Some (Ok d, bits') -> Forall (fun x => 0 <= x) d /\
  forall bits0 d0 bits0', sparse_dir_slice s1 s r0 r1 bits0 = Some (Ok d0, bits0') -> d0 = d.
Proof.
  destruct Hs as [_ _ _ _ _ _ _ _ Hd]. unfold sparse_dir_slice. cbv zeta. destruct (si_dir s) as [d'|].
  - unfold expect. destruct (get_range d' r0 _) as [x|] eqn:Ex; [|done]. intros [= -> <-]. split; [|intros bits0 d0 bits0' [= <- <-]; done].
    apply get_range_split in Ex as (p & q & -> & _). apply Forall_app in Hd as [_ [Hd _]%Forall_app]. done.
  - unfold bind, expect, lift. destruct (verify_span s1 s _ _ bits) as [[[[]|?] ?]|]; [|done|done]. destruct (cadd _ _) as [at_|]; [|done].
    destruct (read_at s1 at_ _) as [raw|]; [|done]. intros [= <- <-]. split; [apply words32_pos|].
    intros bits0 d0 bits0'. destruct (verify_span s1 s _ _ bits0) as [[[[]|?] ?]|]; [|done|done]. by intros [= <- <-].
Qed.

(** The span of the records, inside their region. *)
Lemma record_span_in r0 r1 d bits at_ len base bits' : sparse_record_span s r0 r1 d bits = Some (Ok (at_, len, base), bits') -> Forall (fun x => 0 <= x) d ->
  bits' = bits /\ exists a, at_ = si_off s + a /\ 0 <= a /\ 0 <= len /\ a + len <= hd_recs_off (si_hdr s) + hd_bump (si_hdr s).
Proof.
  destruct Hs as [Ho _ _ (_ & Hr & Hb) _ _ _ _ _]. intros H Hd. unfold sparse_record_span, bind, expect in H. destruct (cadd (si_off s) _) as [ra|] eqn:Ea; [|done].
  apply cadd_Some in Ea as [-> _]. destruct (r1 =? r0).
  { injection H as <- <- <- <-. split; [done|]. exists (hd_recs_off (si_hdr s)). lia. }
  assert (forall x y, 0 <= x -> (if (y <? x) || (hd_bump (si_hdr s) <? y) then fail "the directory names records outside the record region"
     else do* z := expect (cadd (si_off s + hd_recs_off (si_hdr s)) x) in ret (z, y - x, x)) bits = Some (Ok (at_, len, base), bits') ->
    bits' = bits /\ exists a, at_ = si_off s + a /\ 0 <= a /\ 0 <= len /\ a + len <= hd_recs_off (si_hdr s) + hd_bump (si_hdr s)) as Hend.
  { intros x y Hx. destruct (Z.ltb_spec y x), (Z.ltb_spec (hd_bump (si_hdr s)) y); cbn [orb]; try done. unfold bind, expect. destruct (cadd _ x) as [z|] eqn:Ez; [|done].
    apply cadd_Some in Ez as [-> _]. intros [= <- <- <- <-]. split; [done|]. exists (hd_recs_off (si_hdr s) + x). lia. }
  destruct (rising d).
  - destruct (get_at d 0) as [x|] eqn:Ex; [|done]. cbn [ret] in H. assert (0 <= x) as Hx by (apply get_at_Some in Ex as [_ Ex]; exact (Forall_lookup_1 _ _ _ _ Hd Ex)).
    destruct (r1 <? hd_nkeys (si_hdr s)); [destruct (get_at d (r1 - r0)) as [y|]; [|done]; exact (Hend x y Hx H)|exact (Hend x (hd_recs_len (si_hdr s)) Hx H)].
  - destruct (get_range d 0 (r1 - r0)) as [d'|] eqn:Ed; [|done]. refine (Hend (match d' with [] => 0 | x :: xs => fold_left Z.min xs x end) (hd_bump (si_hdr s)) _ H).
    apply get_range_split in Ed as (p & q & -> & _). apply Forall_app in Hd as [_ [Hd _]%Forall_app]. destruct d' as [|x d']; [done|].
    clear - Hd. apply Forall_cons in Hd as [Hx Hd]. revert x Hx. induction Hd as [|y d' Hy _ IH]; intros x Hx; cbn [fold_left]; [done|]. apply IH. lia.
Qed.

Lemma record_span_any r0 r1 d bits r bits' : sparse_record_span s r0 r1 d bits = Some (Ok r, bits) -> sparse_record_span s r0 r1 d bits' = Some (Ok r, bits').
Proof.
  unfold sparse_record_span, bind, expect. destruct (cadd (si_off s) _) as [ra|]; [|done]. destruct (r1 =? r0); [by intros [= ->]|].
  destruct (rising d); [destruct (get_at d 0); [|done]; cbn [ret]; destruct (r1 <? _); [destruct (get_at d (r1 - r0)); [|done]|]|destruct (get_range d 0 _); [|done]]; cbn [ret];
    (destruct (_ || _); [done|]); (destruct (cadd ra _); [|done]); by intros [= ->].
Qed.
End walk.

(** The records' plan reads inside the directory's. *)
Lemma plan_records_same s s1 s2 lo hi v bits : sparse_ok s -> dictionary_plan s lo hi = Some v -> agree v s1 s2 ->
  dictionary_plan_records s1 s lo hi bits = dictionary_plan_records s2 s lo hi bits.
Proof.
  intros Hs Hp Ha. unfold dictionary_plan_records. pose proof (dir_slice_same s Hs s1 s2 lo hi v) as Hd.
  destruct (rank_window s lo hi) as [r0 r1]. apply bind_same; [by apply Hd|done].
Qed.

(** A walk reads inside both. *)
Lemma walk_same s s1 s2 addr lo hi v bits w bits' f bits0 : sparse_ok s -> dictionary_plan s lo hi = Some v -> agree v s1 s2 ->
  dictionary_plan_records s1 s lo hi bits = Some (Ok w, bits') -> agree w s1 s2 ->
  dictionary_walk s1 addr s lo hi f bits0 = dictionary_walk s2 addr s lo hi f bits0.
Proof.
  intros Hs Hp Ha Hpl Haw. unfold dictionary_plan_records, dictionary_walk in *. pose proof (dir_slice_same s Hs s1 s2 lo hi v) as Hd.
  destruct (rank_window s lo hi) as [r0 r1] eqn:Hw. specialize (Hd r0 r1 Hp Ha eq_refl). apply bind_same; [apply Hd|]. intros d b1 Ed.
  unfold bind at 1 in Hpl. rewrite Hd in Hpl. destruct (sparse_dir_slice s2 s r0 r1 bits) as [[[d'|e] b2]|] eqn:Ed'; [|done|done].
  destruct (dir_slice_words s Hs _ _ _ _ _ _ Ed') as [Hpos Huniq]. rewrite (Huniq _ _ _ Ed) in *. clear Huniq.
  apply bind_same; [done|]. intros [[at_ len] base] b3 Es. unfold bind at 1 in Hpl.
  destruct (record_span_in s Hs _ _ _ _ _ _ _ _ Es Hpos) as (-> & a & -> & Ha0 & Hl0 & Hend).
  rewrite (record_span_any s _ _ _ _ _ b2 Es) in Hpl.
  unfold bind, expect in Hpl. destruct (round_to_pieces _ _ _) as [rs|] eqn:Er; [|done]. destruct (merge_ranges rs) as [w'|] eqn:Em; [|done].
  injection Hpl as -> <-. destruct (planned_same s Hs s1 s2 a len rs w Ha0 Hl0) as [H1 H2]; [|exact Er|exact Em|exact Haw|].
  { intros Hc. pose proof (sk_crc s Hs Hc). lia. }
  replace (si_off s + a - si_off s) with a by lia. apply bind_same; [apply H1|]. intros [] b4 _. apply bind_same; [|done]. unfold lift, read_at. by rewrite H2.
Qed.

(** C30: a walk of a range needs what its two plans name and no more. Over two
    sources that agree inside the directory's plan, however they differ
    outside, the records' plan is the same; and over two that agree inside
    that one too, the walk does the same, step for step, to what it hands on,
    the error it ends with and the pieces it remembers checking: the whole
    pieces that check a part of the section are in the plan for the part. *)
Theorem sparse_walk_planned s s1 s2 addr lo hi v : sparse_ok s -> dictionary_plan s lo hi = Some v -> agree v s1 s2 ->
  (forall bits, dictionary_plan_records s1 s lo hi bits = dictionary_plan_records s2 s lo hi bits) /\
  forall bits w bits', dictionary_plan_records s1 s lo hi bits = Some (Ok w, bits') -> agree w s1 s2 ->
    forall f bits0, dictionary_walk s1 addr s lo hi f bits0 = dictionary_walk s2 addr s lo hi f bits0.
Proof.
  intros Hs Hp Ha. split; [intros bits; by apply (plan_records_same s s1 s2 lo hi v)|]. intros bits w bits' Hpl Haw f bits0. by apply (walk_same s s1 s2 addr lo hi v bits w bits').
Qed.

(** ** One key, at work *)

(** The section of one key, and the same with its first word lost. *)
Definition walk_index : option SparseIndex := (fun h => mkSparse 0 (Zlen plan_sec) h [] [] None false) <$> header_parse plan_sec.
Definition walk_far : Source := bytes_source (x00 :: tail plan_sec).

Lemma far_alike : agree [(232, 4); (192, 28)] (bytes_source plan_sec) walk_far.
Proof.
  assert (exists b l, plan_sec = b :: l) as (b & l & E) by (eexists _, _; vm_compute; reflexivity).
  unfold walk_far. rewrite E. cbn [tail]. intros off len H. cbn [bytes_source src_read].
  assert (1 <= off \/ len = 0) as [Ho| ->].
  { destruct H as [->|(? & r & Hr & Hle & _)]; [by right|left]. destruct Hr as [<-|[<-|[]]]; cbn [fst] in Hle; lia. }
  - change (b :: l) with ([b] ++ l). change (x00 :: l) with ([x00] ++ l). rewrite !get_range_skip by (rewrite Zlen_cons, (@Zlen_nil Byte.byte); lia). done.
  - unfold get_range. rewrite !Zlen_cons, Z.add_0_r, Z.sub_diag. done.
Qed.

Lemma sparse_walk_planned_witness : exists s, walk_index = Some s /\ dictionary_plan s [] None = Some [(232, 4)] /\
  dictionary_plan_records walk_far s [] None [] = Some (Ok [(192, 28)], []) /\
  dictionary_walk walk_far (fun x => x) s [] None (fun _ _ _ => true) [] = Some (Ok ([([x61], Borrowed [plan_ext], [])], Ok 1), []).
Proof.
  eexists. split; [vm_compute; reflexivity|]. match goal with |- dictionary_plan ?x _ _ = _ /\ _ => set (s := x) end.
  assert (sparse_ok s) as Hs by (subst s; split; vm_compute; repeat (split || done || intros ?); done).
  assert (forall rs, incl rs [(232, 4); (192, 28)] -> agree rs (bytes_source plan_sec) walk_far) as Ha.
  { intros rs Hi off len [->|(H & r & Hr & H1)]; apply far_alike; [by left|]. right. split; [done|]. exists r. split; [by apply Hi|done]. }
  destruct (sparse_walk_planned s (bytes_source plan_sec) walk_far (fun x => x) [] None [(232, 4)] Hs) as [H1 H2];
    [vm_compute; reflexivity|apply Ha; intros r [<-|[]]; by left|].
  assert (dictionary_plan_records (bytes_source plan_sec) s [] None [] = Some (Ok [(192, 28)], [])) as Hp by (vm_compute; reflexivity).
  split; [vm_compute; reflexivity|]. split; [by rewrite <- H1|].
  rewrite <- (H2 [] _ _ Hp); [vm_compute; reflexivity|]. apply Ha. intros r [<-|[]]. right. by left.
Defined.
