(* ===== verification/SparseHolds.v ===== *)
(** * The sparse reader over a section

    The reader of [Sparse] over a segment the writer of [SegmentFinish] made.
    Proved here: over the section's bytes every check of its pieces passes,
    whatever was checked before, and a walk of a range of its dictionary hands
    on the entries between the bounds, in order, and nothing else. *)

From S2P Require Import Prelude State Varint Runs Crc Chunks BlockTable Records HashTable FlatIndex FlatRead FlatSection Superblock Blob BlobCache BlobPlan Fences Sparse SparsePlan.

#[local] Open Scope state_scope.

(** An index that speaks for the section [sec] of the entries [es]. *)
Record index_of (s : SparseIndex) (sec : bytes) (es : list entry) (offs : list Z) (recs : bytes) : Prop := {
  io_len : si_len s = Zlen sec;
  io_off : 0 <= si_off s /\ si_off s + Zlen sec < 2 ^ 63;
  io_dict : dictionary sec (si_hdr s) es offs recs;
  io_read : records_read recs offs es;
  io_small : Zlen recs < U32;
  io_words : 0 <= hd_fence_n (si_hdr s) /\ 0 <= hd_fence_stride (si_hdr s);
  io_asc : ascending (map entry_key es);
  io_fence : get_range sec (fst (fence_span (si_hdr s) (Zlen sec))) (fst (fence_span (si_hdr s) (Zlen sec)) + snd (fence_span (si_hdr s) (Zlen sec))) =
    Some (si_fence s);
  io_crc : HEADER <= hd_crc_off (si_hdr s) <= Zlen sec;
  io_shift : hd_piece_shift (si_hdr s) = PIECE_SHIFT;
  io_verify : verify_pieces sec (hd_crc_off (si_hdr s)) (hd_piece_shift (si_hdr s)) (si_off s) = Some (inl tt);
  io_row : si_crcs s = [] \/ get_range sec (hd_crc_off (si_hdr s)) (hd_crc_off (si_hdr s) +
    checksum_row_len (hd_crc_off (si_hdr s)) (hd_piece_shift (si_hdr s)) (si_off s)) = Some (si_crcs s);
  io_dir : match si_dir s with Some d => d = offs | None => True end
}.

(** The words of which pieces are checked, a bit for each there is. *)
Definition bits_for (s : SparseIndex) (bits : list Z) : Prop := Zlen bits = div_ceil (Zlen (si_crcs s) / 4) 64.

(** A source that holds the section. *)
Definition there (src : Source) (off : Z) (sec : bytes) : Prop := forall a b, 0 <= a <= b -> b <= Zlen sec ->
  src_read src (off + a) (b - a) = get_range sec a b.

(** ** What a walk hands on *)

(** The entries between the bounds, until the callback has had enough. *)
Definition in_bounds (lo : bytes) (hi : option bytes) (e : entry) : bool := negb (bltb (entry_key e) lo) && negb (key_past hi (entry_key e)).

Fixpoint until (f : bytes -> list Ext -> bytes -> bool) (l : list entry) : list entry :=
  match l with
  | [] => []
  | (k, x, t) :: l => (k, x, t) :: if f k (exts_deref x) t then until f l else []
  end.

Definition handed (lo : bytes) (hi : option bytes) (f : bytes -> list Ext -> bytes -> bool) (es : list entry) : list entry :=
  until f (List.filter (in_bounds lo hi) es).

Lemma ascending_mid a b c : ascending (a ++ b ++ c) -> ascending b.
Proof.
  intros H i j x y Hij Hx Hy. pose proof (get_at_lt _ _ _ Hx). pose proof (get_at_lt _ _ _ Hy). apply (H (Zlen a + i) (Zlen a + j)); [lia| |];
    rewrite get_at_skip by lia; rewrite get_at_keep by lia; [rewrite <- Hx|rewrite <- Hy]; f_equal; lia.
Qed.

Lemma filter_nothing {A} (p : A -> bool) l : (forall x, In x l -> p x = false) -> List.filter p l = [].
Proof. induction l as [|x l IH]; intros H; [done|]. cbn. rewrite (H x) by by left. apply IH. intros y Hy. apply H. by right. Qed.

Lemma past_after hi k k' : key_past hi k = true -> blt k k' -> key_past hi k' = true.
Proof. destruct hi as [h|]; [|done]. cbn. destruct (bleb_spec h k), (bleb_spec h k'); try done. intros _ Hlt. exfalso. eauto using ble_trans, blt_le. Qed.

(** Over entries in order, each read at its offset. *)
Lemma walk_go_ok addr buf base lo hi f l ds prev out : ascending (map entry_key l) -> match prev with Some p => Forall (blt p) (map entry_key l) | None => True end ->
  Forall2 (fun d e => base <= d /\ exists len, parse_record addr buf (d - base) = Some (e, len)) ds l ->
  window_walk addr buf base lo hi f ds prev out = (handed lo hi f l, Ok (out + Zlen (handed lo hi f l))).
Proof.
  intros Ha Hp Hl. revert prev out Ha Hp. induction Hl as [|d e ds l (Hd & len & Hr) Hds IH]; intros prev out Ha Hp.
  { cbn. rewrite (@Zlen_nil entry), Z.add_0_r. done. }
  destruct e as [[k x] t]. apply ascending_cons in Ha as [Ha Hk]. change (entry_key (k, x, t)) with k in *. cbn [window_walk].
  rewrite (proj2 (Z.ltb_ge d base)), Hr by done.
  assert ((match prev with Some p => bleb k p | None => false end) = false) as ->.
  { destruct prev as [p|]; [|done]. cbn [map] in Hp. apply Forall_cons in Hp as [Hp _]. destruct (bleb_spec k p) as [Hle|]; [|done]. by apply ble_not_lt in Hle. }
  unfold handed in *. cbn [List.filter]. assert (in_bounds lo hi (k, x, t) = negb (bltb k lo) && negb (key_past hi k)) as Hb by done.
  rewrite Hb. destruct (bltb k lo); cbn [negb andb]; [by apply (IH (Some k))|].
  destruct (key_past hi k) eqn:Ep; cbn [negb].
  - rewrite filter_nothing; [cbn; by rewrite (@Zlen_nil entry), Z.add_0_r|]. intros y Hy. unfold in_bounds. rewrite (past_after hi k (entry_key y)); [apply andb_false_r|done|].
    rewrite List.Forall_forall in Hk. apply Hk. by apply in_map.
  - cbn [until]. rewrite (IH (Some k)) by done. destruct (f k (exts_deref x) t).
    + rewrite Zlen_cons. do 2 f_equal. lia.
    + done.
Qed.

(** A slice of the directory, read. *)
Lemma words32_le32 ws : Forall (fun w => 0 <= w < U32) ws -> words32 (concat (map le32 ws)) = ws.
Proof.
  intros H. unfold words32. rewrite chunks_exact_concat; [|lia|].
  - rewrite List.map_map. induction H as [|w ws Hw _ IH]; [done|]. cbn [map]. by rewrite le_val_le32, IH.
  - apply Forall_map, Forall_forall. intros w _. apply length_le_bytes.
Qed.

Lemma rising_ok d : (forall i x y, get_at d i = Some x -> get_at d (i + 1) = Some y -> x < y) -> rising d = true.
Proof.
  induction d as [|a d IH]; intros H; [done|]. destruct d as [|b d]; [done|]. cbn [rising]. apply andb_true_iff. split.
  - apply Z.ltb_lt, (H 0); [by apply get_at_here|]. rewrite get_at_cons by lia. by apply get_at_here.
  - apply IH. intros i x y Hx Hy. pose proof (get_at_lt _ _ _ Hx). apply (H (i + 1)); rewrite get_at_cons by lia; [by rewrite Z.add_simpl_r|].
    replace (i + 1 + 1 - 1) with (i + 1) by lia. done.
Qed.

Section section.
Context (src : Source) (s : SparseIndex) (sec : bytes) (es : list entry) (offs : list Z) (recs : bytes).
Context (Hs : index_of s sec es offs recs) (Hsrc : there src (si_off s) sec).
Local Abbreviation hd := (si_hdr s).
Local Abbreviation piece := (Z.shiftl 1 (hd_piece_shift hd)).

(** ** Every piece checks *)

Lemma check_piece_ok p bits : si_crcs s <> [] -> bits_for s bits -> 0 <= p < piece_count (hd_crc_off hd) (hd_piece_shift hd) (si_off s) ->
  exists bits', check_piece src s piece (si_off s / piece) (si_off s + hd_crc_off hd) p bits = Some (Ok tt, bits') /\ bits_for s bits'.
Proof.
  destruct Hs as [_ (Hoff & _) _ _ _ _ _ _ Hcrc Hshift Hver Hrow _]. intros Hne Hb Hp. destruct Hrow as [?|Hrow]; [done|].
  pose proof (get_range_len _ _ _ _ Hrow) as Hrl. assert (Zlen (si_crcs s) = piece_count (hd_crc_off hd) (hd_piece_shift hd) (si_off s) * 4) as Hl by (unfold checksum_row_len in Hrl; lia).
  unfold verify_pieces in Hver. cbv zeta in Hver. destruct (cadd _ _) as [fin|] eqn:Ef; [|done]. apply cadd_Some in Ef as [-> _]. cbn [option_bind mbind] in Hver.
  rewrite Hrow in Hver. assert (0 < hd_crc_off hd) as Hcp by (assert (HEADER = 192 /\ 2 ^ 63 < U64) as [HH HU] by done; lia).
  assert (0 <= hd_piece_shift hd) as Hs0 by (rewrite Hshift; done). pose proof (pieces_at (hd_crc_off hd) (hd_piece_shift hd) (si_off s) Hcp Hs0 p Hp) as Hat.
  destruct (verify_go_sound _ _ _ _ Hver ltac:(done) _ _ _ Hat) as (b & Hgb & Hcb). rewrite Z.add_0_l in Hcb.
  unfold bits_for in *. rewrite Hl, Z.div_mul in Hb by lia.
  destruct (div_ceil_spec (piece_count (hd_crc_off hd) (hd_piece_shift hd) (si_off s)) 64 ltac:(lia) ltac:(lia)) as [_ Hd2].
  assert (0 <= p / 64 < Zlen bits) as Hpi by (split; [apply Z.div_pos; lia|apply Z.div_lt_upper_bound; lia]).
  destruct (get_at_is_Some bits (p / 64) Hpi) as [c Hc]. unfold check_piece, bind, gets, expect. rewrite Hc. cbn [option_bind mbind].
  destruct (Z.testbit c (p mod 64)); [exists bits; split; [done|by rewrite Hl, Z.div_mul by lia]|]. cbv zeta.
  assert (Z.max ((si_off s / piece + p) * piece) (si_off s) = si_off s + Z.max (p * piece - si_off s mod piece) 0 /\
    Z.min ((si_off s / piece + p + 1) * piece) (si_off s + hd_crc_off hd) = si_off s + Z.min ((p + 1) * piece - si_off s mod piece) (hd_crc_off hd)) as [-> ->].
  { assert (0 < piece) as Hpp by (rewrite Hshift; done). pose proof (Z.div_mod (si_off s) piece ltac:(lia)). lia. }
  set (x := Z.max (p * piece - _) 0) in *. set (y := Z.min ((p + 1) * piece - _) _) in *. unfold lift, read_at.
  replace (si_off s + y - (si_off s + x)) with (y - x) by lia. pose proof Hgb as (Hx & Hy & _)%get_range_Some. rewrite Hsrc by lia. rewrite Hgb. cbn [ok_or].
  unfold require. rewrite Hcb. cbn [ret]. rewrite Z.eqb_refl. cbn [negb]. unfold modify. eexists. split; [reflexivity|].
  rewrite Hc. cbn [option_bind mbind]. destruct (put_range_is_Some bits (p / 64) [Z.lor c (Z.shiftl 1 (p mod 64))]) as [bits' Hbits']; [lia|change (Zlen [_]) with 1; lia|].
  rewrite Hbits'. change (default bits (Some bits')) with bits'. rewrite (put_range_len _ _ _ _ Hbits'), Hl, Z.div_mul by lia. done.
Qed.

Lemma check_pieces_ok ps bits : si_crcs s <> [] -> bits_for s bits -> Forall (fun p => 0 <= p < piece_count (hd_crc_off hd) (hd_piece_shift hd) (si_off s)) ps ->
  exists bits', check_pieces src s piece (si_off s / piece) (si_off s + hd_crc_off hd) ps bits = Some (Ok tt, bits') /\ bits_for s bits'.
Proof.
  intros Hne Hb Hps. revert bits Hb. induction Hps as [|p ps Hp _ IH]; intros bits Hb; [by exists bits|]. cbn [check_pieces].
  destruct (check_piece_ok p bits Hne Hb Hp) as (b1 & H1 & Hb1). destruct (IH b1 Hb1) as (b2 & H2 & Hb2). exists b2. split; [|done]. unfold bind. by rewrite H1.
Qed.

Lemma span_ok a l bits : 0 <= a -> 0 <= l -> a + l <= hd_crc_off hd -> bits_for s bits ->
  exists bits', verify_span src s a l bits = Some (Ok tt, bits') /\ bits_for s bits'.
Proof.
  intros Ha Hl He Hb. assert (2 ^ 63 < U64) as HU by done. destruct Hs as [_ (Hoff & Hend) _ _ _ _ _ _ Hcrc Hshift _ _ _]. unfold verify_span.
  destruct (Z.eqb_spec (Zlen (si_crcs s)) 0) as [|Hn]; [by exists bits|]. destruct (Z.eqb_spec l 0) as [|Hl0]; [by exists bits|].
  destruct (Z.leb_spec (hd_crc_off hd) a); [by exists bits|]. cbn [orb]. cbv zeta. unfold bind, expect.
  rewrite (proj2 (cadd_Some _ _ _)) by (split; [reflexivity|lia]). rewrite (proj2 (cadd_Some (si_off s) a _)) by (split; [reflexivity|lia]).
  rewrite (proj2 (cadd_Some (si_off s + a) l _)) by (split; [reflexivity|lia]). rewrite Z.min_l by lia.
  apply check_pieces_ok; [intros E; rewrite E in Hn; done|done|]. assert (0 < piece) as Hp by (rewrite Hshift; done).
  apply List.Forall_forall. intros p Hin%list_elem_of_In%elem_of_seqZ. unfold piece_count.
  destruct (div_ceil_spec (si_off s + a + l) piece Hp ltac:(lia)) as [Hd1 Hd2]. pose proof (Z.mod_pos_bound (si_off s) piece Hp). pose proof (Z.div_mod (si_off s) piece ltac:(lia)).
  destruct (div_ceil_spec (si_off s mod piece + hd_crc_off hd) piece Hp ltac:(lia)) as [Hd3 Hd4].
  pose proof (Z.div_le_mono (si_off s) (si_off s + a) piece Hp ltac:(lia)). set (c := div_ceil _ _) in *. set (c' := div_ceil (_ mod _ + _) _) in *. split; [lia|].
  assert (p <= c - 1 - si_off s / piece) by lia. assert ((c - si_off s / piece - 1) * piece < c' * piece); [|nia]. nia.
Qed.

(** ** The window of a range *)

Lemma rank_window_ok lo hi : let '(r0, r1) := rank_window s lo hi in 0 <= r0 <= r1 /\ r1 <= Zlen es /\
  exists m, get_range es r0 r1 = Some m /\ List.filter (in_bounds lo hi) es = List.filter (in_bounds lo hi) m.
Proof.
  destruct Hs as [_ _ Hdi _ _ _ Hasc Hfe _ _ _ _ _]. pose proof (di_fence _ _ _ _ _ Hdi) as Hf. pose proof (di_n _ _ _ _ _ Hdi) as Hn. unfold fence_brackets in Hf.
  destruct (fence_span hd (Zlen sec)) as [foff flen]. destruct Hf as (_ & _ & _ & _ & region & Hreg & Hw). cbn [fst snd] in Hfe. rewrite Hfe in Hreg. injection Hreg as <-.
  unfold rank_window. rewrite Hn. destruct (fence_parse (si_fence s) hd) as [v|].
  2:{ assert (es = []) as -> by by destruct es. split; [done|]. split; [done|]. exists []. by split. }
  assert (Zlen (map entry_key es) = Zlen es) as Hm by apply Zlen_map. rewrite Hm in Hw.
  destruct (lower_bound_exists (map entry_key es) lo Hasc) as (p & Hp). rewrite Hm in Hp. specialize (Hw lo p Hp) as Hwl.
  destruct (window v lo (Zlen es)) as [a0 a1]. cbn [fst]. destruct Hwl as ([Ha0 Ha1] & Ha2 & Ha3).
  set (r1 := match hi with Some h => Z.min (snd (window v h (Zlen es))) (Zlen es) | None => Zlen es end).
  assert (r1 <= Zlen es /\ forall i e, r1 <= i -> get_at es i = Some e -> key_past hi (entry_key e) = true) as [Hr1 Hpast].
  { destruct hi as [h|]; subst r1; cbn [key_past].
    - destruct (lower_bound_exists (map entry_key es) h Hasc) as (q & Hq). rewrite Hm in Hq. specialize (Hw h q Hq). destruct (window v h (Zlen es)) as [b0 b1]. cbn [snd].
      split; [lia|]. intros i e Hi He. destruct Hq as (_ & _ & Hq). pose proof (get_at_lt _ _ _ He). destruct (Hq i) as (k & Hk & Hle); [lia|].
      rewrite get_at_map, He in Hk. injection Hk as <-. by destruct (bleb_spec h (entry_key e)).
    - split; [lia|]. intros i e Hi He. apply get_at_lt in He. lia. }
  destruct Hp as (Hp0 & Hp1 & _). split; [lia|]. split; [lia|]. destruct (get_range_is_Some es a0 (Z.max r1 a0)) as [m Hmid]; [lia..|]. exists m. split; [done|].
  apply get_range_split in Hmid as (x & y & Ees & Hx & Hy). rewrite Ees, !List.filter_app.
  rewrite (filter_nothing _ x), (filter_nothing _ y); [by rewrite app_nil_r| |].
  - intros e Hin. apply list_elem_of_In, list_elem_of_lookup_1 in Hin as [i Hi]. unfold in_bounds. rewrite (Hpast (a0 + Zlen m + Z.of_nat i) e); [apply andb_false_r|lia|].
    rewrite Ees. do 2 (rewrite get_at_skip by lia). replace (_ - _ - _) with (Z.of_nat i) by lia. by rewrite get_at_lookup.
  - intros e Hin. apply list_elem_of_In, list_elem_of_lookup_1 in Hin as [i Hi]. pose proof (lookup_lt_Some _ _ _ Hi). destruct (Hp1 (Z.of_nat i)) as (k & Hk & Hlt); [unfold Zlen in *; lia|].
    rewrite get_at_map, get_at_lookup, Ees, lookup_app_l, Hi in Hk by done. injection Hk as <-. unfold in_bounds. by destruct (bltb_spec (entry_key e) lo).
Qed.

(** ** The directory and the records of a window *)

Lemma offs_spec : exists rs, recs = concat rs /\ Zlen rs = Zlen es /\ Zlen offs = Zlen es /\ Forall (fun r => Zlen r mod 4 = 0 /\ 4 <= Zlen r) rs /\
  (forall i, 0 <= i < Zlen es -> get_at offs i = Some (Zlen (concat (take (Z.to_nat i) rs)))) /\ Forall (fun w => 0 <= w < U32) offs /\
  forall i r e addr pre post, get_at rs i = Some r -> get_at es i = Some e -> is_aligned (addr + Zlen pre) 4 = true -> Zlen (pre ++ r ++ post) < U32 ->
    exists len, parse_record addr (pre ++ r ++ post) (Zlen pre) = Some (e, len).
Proof.
  destruct Hs as [_ _ Hdi Hre Hsm _ _ _ _ _ _ _ _]. destruct Hre as (rs & [Hc Hat] & Hl & Hr). exists rs. split; [done|]. split; [done|].
  pose proof (get_range_len _ _ _ _ (di_dir _ _ _ _ _ Hdi)) as Hd. rewrite Zlen_concat_le32 in Hd. assert (Zlen offs = Zlen es) as Ho by lia. split; [done|].
  assert (forall i r, get_at rs i = Some r -> exists e, get_at es i = Some e) as Hboth by (intros i r Hi; apply get_at_is_Some; pose proof (get_at_lt _ _ _ Hi); lia).
  split; [|split; [intros i Hi; apply Hat; lia|split]].
  - apply Forall_lookup. intros i r Hi. rewrite <- get_at_lookup in Hi. destruct (Hboth _ _ Hi) as [e He]. destruct (Hr _ _ _ Hi He) as (H1 & H2 & _). by split.
  - apply Forall_lookup. intros i w Hi. pose proof Hi as Hlt%lookup_lt_Some. rewrite <- get_at_lookup in Hi. rewrite Hat in Hi by (unfold Zlen in *; lia). injection Hi as <-.
    pose proof (Zlen_concat_take_le rs (Z.to_nat (Z.of_nat i))) as Hle. rewrite <- Hc in Hle. lia.
  - intros i r e addr pre post Hi He. destruct (Hr _ _ _ Hi He) as (_ & _ & H). apply H.
Qed.

Lemma sparse_dir_ok r0 r1 : 0 <= r0 <= r1 -> r1 <= Zlen es ->
  exists d, get_range offs r0 (r0 + dir_entries_of s r0 r1) = Some d /\ r1 - r0 <= dir_entries_of s r0 r1 /\
    forall bits, bits_for s bits -> exists bits', sparse_dir_slice src s r0 r1 bits = Some (Ok d, bits') /\ bits_for s bits'.
Proof.
  intros H0 H1. destruct offs_spec as (_ & _ & _ & Ho & _ & _ & Hw & _). destruct Hs as [_ (Hoff & Hend) Hdi _ _ _ _ _ Hcrc _ _ _ Hdir].
  pose proof (di_n _ _ _ _ _ Hdi) as Hn. pose proof (di_dir_end _ _ _ _ _ Hdi) as [Hd1 Hd2]. assert (HEADER = 192 /\ 2 ^ 63 < U64) as [HH HU] by done.
  assert (r1 - r0 <= dir_entries_of s r0 r1 <= Zlen es - r0) as He by (unfold dir_entries_of; rewrite Hn; destruct (Z.ltb_spec r1 (Zlen es)); lia).
  set (n := dir_entries_of s r0 r1) in *. destruct (get_range_is_Some offs r0 (r0 + n)) as [d Hd]; [lia..|]. exists d.
  split; [done|]. split; [lia|]. intros bits Hb. unfold sparse_dir_slice. fold n. cbv zeta. destruct (si_dir s) as [d'|].
  { exists bits. subst d'. unfold expect. by rewrite Hd. }
  destruct (span_ok (hd_dir_off hd + r0 * 4) (n * 4) bits) as (b1 & Hv & Hb1); [lia..|done|]. exists b1. unfold bind, expect. rewrite Hv.
  rewrite (proj2 (cadd_Some _ _ _)) by (split; [reflexivity|lia]). unfold lift, read_at.
  replace (n * 4) with (hd_dir_off hd + (r0 + n) * 4 - (hd_dir_off hd + r0 * 4)) by lia. rewrite Hsrc by lia.
  apply get_range_split in Hd as (x & y & Eo & Hx & Hy). pose proof (di_dir _ _ _ _ _ Hdi) as Hds.
  assert (get_range (concat (map le32 offs)) (r0 * 4) ((r0 + n) * 4) = Some (concat (map le32 d))) as Hr.
  { rewrite Eo, !map_app, !concat_app. apply get_range_app; rewrite !Zlen_concat_le32; lia. }
  rewrite (get_range_sub _ _ _ _ _ _ _ Hds Hr). cbn [ok_or ret]. rewrite words32_le32.
  - done.
  - rewrite Eo in Hw. by apply Forall_app in Hw as [_ [Hw _]%Forall_app].
Qed.

(** Where the record [i] starts, and the last ends. *)
Definition start_at (rs : list bytes) (i : Z) : Z := Zlen (concat (take (Z.to_nat i) rs)).

Lemma start_at_mono rs i j : 0 <= i <= j -> start_at rs i <= start_at rs j.
Proof.
  intros H. unfold start_at. assert (take (Z.to_nat i) rs = take (Z.to_nat i) (take (Z.to_nat j) rs)) as -> by (rewrite take_take; f_equal; lia). apply Zlen_concat_take_le.
Qed.

Lemma start_at_next rs i : Forall (fun r => Zlen r mod 4 = 0 /\ 4 <= Zlen r) rs -> 0 <= i < Zlen rs -> start_at rs i < start_at rs (i + 1).
Proof.
  intros Hr Hi. destruct (get_at_is_Some rs i Hi) as [r Hx]. unfold start_at. pose proof (starts_range rs i r Hx) as Hg%get_range_len.
  apply get_at_Some in Hx as [_ Hx]. apply (Forall_lookup_1 _ _ _ _ Hr) in Hx as [_ Hx]. lia.
Qed.

Lemma start_at_four rs i : Forall (fun r => Zlen r mod 4 = 0 /\ 4 <= Zlen r) rs -> start_at rs i mod 4 = 0.
Proof.
  unfold start_at. intros Hr. apply (Forall_take _ (Z.to_nat i)) in Hr. induction Hr as [|r rs' [Hr _] _ IH]; [done|]. cbn [concat]. rewrite Zlen_app, Z.add_mod, Hr, IH by lia. done.
Qed.

Lemma start_at_end rs i : Zlen rs <= i -> start_at rs i = Zlen (concat rs).
Proof. intros H. unfold start_at. rewrite take_ge; [done|]. unfold Zlen in *. lia. Qed.

Lemma record_span_ok rs r0 r1 d bits : recs = concat rs -> Zlen rs = Zlen es -> Zlen offs = Zlen es -> Forall (fun r => Zlen r mod 4 = 0 /\ 4 <= Zlen r) rs ->
  (forall i, 0 <= i < Zlen es -> get_at offs i = Some (start_at rs i)) -> 0 <= r0 <= r1 -> r1 <= Zlen es ->
  get_range offs r0 (r0 + dir_entries_of s r0 r1) = Some d ->
  let base := if r1 =? r0 then 0 else start_at rs r0 in
  sparse_record_span s r0 r1 d bits = Some (Ok (si_off s + HEADER + base, start_at rs r1 - start_at rs r0, base), bits).
Proof.
  intros Hc Hl Ho Hr Hat H0 H1 Hd base. destruct Hs as [_ (Hoff & Hend) Hdi _ _ _ _ _ Hcrc _ _ _ _]. assert (HEADER = 192 /\ 2 ^ 63 < U64) as [HH HU] by done.
  pose proof (di_n _ _ _ _ _ Hdi) as Hn. pose proof (di_recs_end _ _ _ _ _ Hdi) as He. unfold sparse_record_span, bind, expect. rewrite (di_recs_off _ _ _ _ _ Hdi).
  pose proof (Zlen_nonneg recs). rewrite (proj2 (cadd_Some _ _ _)) by (split; [reflexivity|lia]). subst base. destruct (Z.eqb_spec r1 r0) as [->|Hne]; [by rewrite Z.sub_diag, Z.add_0_r|].
  pose proof (get_range_len _ _ _ _ Hd) as Hdl. assert (forall i, 0 <= i < Zlen d -> get_at d i = Some (start_at rs (r0 + i))) as Hdi'.
  { intros i Hi. rewrite (get_range_get _ _ _ _ i Hd) by lia. apply Hat. unfold dir_entries_of in Hdl. rewrite Hn in Hdl. destruct (Z.ltb_spec r1 (Zlen es)); lia. }
  rewrite rising_ok.
  2:{ intros i x y Hx Hy. pose proof (get_at_lt _ _ _ Hx). pose proof (get_at_lt _ _ _ Hy). rewrite Hdi' in Hx, Hy by lia. injection Hx as <-. injection Hy as <-.
      rewrite Z.add_assoc. apply start_at_next; [done|]. unfold dir_entries_of in Hdl. rewrite Hn in Hdl. destruct (Z.ltb_spec r1 (Zlen es)); lia. }
  assert (r1 - r0 <= Zlen d /\ (r1 < Zlen es -> r1 - r0 < Zlen d)) as [Hdl1 Hdl2] by (unfold dir_entries_of in Hdl; rewrite Hn in Hdl; destruct (Z.ltb_spec r1 (Zlen es)); lia).
  rewrite (Hdi' 0), Z.add_0_r by lia. cbn [ret]. rewrite Hn, (di_recs_len _ _ _ _ _ Hdi), (di_bump _ _ _ _ _ Hdi).
  pose proof (start_at_mono rs r0 r1 ltac:(lia)) as Hm. pose proof (start_at_mono rs 0 r0 ltac:(lia)) as Hm0. change (start_at rs 0) with 0 in Hm0.
  assert (start_at rs r1 <= Zlen recs) as Hm1 by (rewrite Hc; unfold start_at; apply Zlen_concat_take_le).
  assert ((if r1 <? Zlen es then match get_at d (r1 - r0) with Some a => fun s0 : list Z => Some (Ok a, s0) | None => fun _ => None end else ret (Zlen recs)) bits =
    Some (Ok (start_at rs r1), bits)) as Hen.
  { destruct (Z.ltb_spec r1 (Zlen es)).
    - rewrite Hdi' by lia. by replace (r0 + (r1 - r0)) with r1 by lia.
    - rewrite start_at_end by lia. by rewrite Hc. }
  unfold ret in *. destruct (r1 <? Zlen es); [destruct (get_at d (r1 - r0)) as [z|]; [|done]|]; injection Hen as Hen; rewrite Hen;
    rewrite (proj2 (Z.ltb_ge (start_at rs r1) (start_at rs r0))), ?Z.ltb_irrefl, ?(proj2 (Z.ltb_ge (Zlen recs) (start_at rs r1))) by lia; cbn [orb];
    rewrite (proj2 (cadd_Some (si_off s + HEADER) _ _)) by (split; [reflexivity|lia]); done.
Qed.

(** ** The walk *)

Lemma start_at_app (a b : list bytes) i : Zlen a <= i -> start_at (a ++ b) i = Zlen (concat a) + start_at b (i - Zlen a).
Proof.
  intros H. unfold start_at. rewrite take_app_ge by (unfold Zlen in *; lia). rewrite concat_app, Zlen_app. do 4 f_equal. unfold Zlen. lia.
Qed.

(** The records of a window, read where they lie in it. *)
Lemma window_records rs r0 r1 m ds addr : recs = concat rs -> Zlen rs = Zlen es -> Forall (fun r => Zlen r mod 4 = 0 /\ 4 <= Zlen r) rs ->
  (forall i, 0 <= i < Zlen es -> get_at offs i = Some (start_at rs i)) ->
  (forall i r e addr pre post, get_at rs i = Some r -> get_at es i = Some e -> is_aligned (addr + Zlen pre) 4 = true -> Zlen (pre ++ r ++ post) < U32 ->
    exists len, parse_record addr (pre ++ r ++ post) (Zlen pre) = Some (e, len)) ->
  0 <= r0 <= r1 -> get_range es r0 r1 = Some m -> get_range offs r0 r1 = Some ds -> is_aligned addr 4 = true ->
  exists buf, get_range recs (start_at rs r0) (start_at rs r1) = Some buf /\
    Forall2 (fun d e => start_at rs r0 <= d /\ exists len, parse_record addr buf (d - start_at rs r0) = Some (e, len)) ds m.
Proof.
  intros Hc Hl Hr Hat Hread H0 Hm Hds Hal. pose proof (io_small _ _ _ _ _ Hs) as Hsm. pose proof Hm as (_ & Hr1 & _)%get_range_Some.
  destruct (get_range_is_Some rs r0 r1) as [M HM]; [lia..|]. pose proof HM as (A & C & Ers & HA & HC)%get_range_split. exists (concat M).
  assert (start_at rs r0 = Zlen (concat A)) as Es0 by (rewrite Ers, start_at_app, HA, Z.sub_diag by lia; change (start_at _ 0) with 0; lia).
  assert (start_at rs r1 = Zlen (concat A) + Zlen (concat M)) as Es1.
  { rewrite Ers, (start_at_app A) by lia. rewrite (start_at_app M C) by lia. replace (r1 - Zlen A - Zlen M) with 0 by lia. change (start_at C 0) with 0. lia. }
  split; [rewrite Hc, Es0, Es1, Ers, !concat_app; by apply get_range_app|]. apply Forall2_same_length_lookup_2.
  { apply get_range_len in Hm as Hm', Hds as Hds'. apply Nat2Z.inj. etrans; [exact Hds'|symmetry; exact Hm']. }
  intros i d e Hd He. assert (get_at ds (Z.of_nat i) = Some d) as Hd' by (by rewrite get_at_lookup). assert (get_at m (Z.of_nat i) = Some e) as He' by (rewrite get_at_lookup; exact He).
  clear Hd He. rename Hd' into Hd, He' into He. pose proof (get_at_lt _ _ _ He) as Hi. pose proof (get_range_len _ _ _ _ Hm) as Hml. pose proof (get_range_len _ _ _ _ HM) as HMl.
  rewrite (get_range_get _ _ _ _ _ Hm) in He by lia. rewrite (get_range_get _ _ _ _ _ Hds) in Hd by lia. rewrite Hat in Hd by lia. injection Hd as <-.
  destruct (get_at_is_Some M (Z.of_nat i)) as [r Hx]; [lia|]. assert (get_at rs (r0 + Z.of_nat i) = Some r) as Hrs by (by rewrite <- (get_range_get _ _ _ _ _ HM) by lia).
  rewrite get_at_lookup in Hx. pose proof (take_drop_middle _ _ _ Hx) as HMs. set (pre := concat (take i M)). set (post := concat (drop (S i) M)).
  assert (concat M = pre ++ r ++ post) as -> by (by rewrite <- HMs, concat_app at 1).
  assert (start_at rs (r0 + Z.of_nat i) = start_at rs r0 + Zlen pre) as ->.
  { rewrite Es0, Ers, start_at_app by lia. replace (r0 + Z.of_nat i - Zlen A) with (Z.of_nat i) by lia. unfold start_at. rewrite Nat2Z.id, take_app_le; [done|]. unfold Zlen in *. lia. }
  split; [pose proof (Zlen_nonneg pre); lia|]. replace (start_at rs r0 + Zlen pre - start_at rs r0) with (Zlen pre) by lia.
  apply (Hread (r0 + Z.of_nat i)); [done|done| |].
  - pose proof (start_at_four M (Z.of_nat i)) as H4. unfold start_at in H4. rewrite Nat2Z.id in H4. fold pre in H4. unfold is_aligned in *. apply Z.eqb_eq in Hal. apply Z.eqb_eq.
    rewrite Z.add_mod, Hal, H4 by first [lia|(rewrite Ers in Hr; by apply Forall_app in Hr as [_ [Hr _]%Forall_app])]. done.
  - assert (Zlen (concat M) <= Zlen recs) as Hle by (rewrite Hc, Ers, !concat_app, !Zlen_app; pose proof (Zlen_nonneg (concat A)); pose proof (Zlen_nonneg (concat C)); lia).
    rewrite <- HMs, concat_app in Hle. cbn [concat] in Hle. unfold pre, post. lia.
Qed.

Lemma sparse_walk_ok addr lo hi f bits : (forall x, x mod 4 = 0 -> is_aligned (addr (si_off s + x)) 4 = true) -> bits_for s bits ->
  exists bits', dictionary_walk src addr s lo hi f bits = Some (Ok (handed lo hi f es, Ok (Zlen (handed lo hi f es))), bits') /\ bits_for s bits'.
Proof.
  intros Hal Hb. pose proof (rank_window_ok lo hi) as Hw. unfold dictionary_walk. destruct (rank_window s lo hi) as [r0 r1]. destruct Hw as (H0 & H1 & m & Hm & Hf).
  destruct offs_spec as (rs & Hc & Hl & Ho & Hr & Hat & _ & Hread). destruct (sparse_dir_ok r0 r1 H0 H1) as (d & Hdg & Hdn & Hdir). destruct (Hdir bits Hb) as (b1 & Hd & Hb1).
  pose proof (record_span_ok rs r0 r1 d b1 Hc Hl Ho Hr Hat H0 H1 Hdg) as Hsp. cbv zeta in Hsp. set (base := if r1 =? r0 then 0 else start_at rs r0) in *.
  destruct Hs as [_ (Hoff & Hend) Hdi _ _ _ Hasc _ Hcrc _ _ _ _]. assert (HEADER = 192 /\ 2 ^ 63 < U64) as [HH HU] by done. pose proof (di_recs_end _ _ _ _ _ Hdi) as He.
  pose proof (start_at_mono rs r0 r1 H0) as Hmono. assert (0 <= start_at rs r0) as Hp by apply Zlen_nonneg. assert (start_at rs r1 <= Zlen recs) as Hr1 by (rewrite Hc; apply Zlen_concat_take_le).
  assert (0 <= base <= start_at rs r0) as Hbase by (unfold base; destruct (r1 =? r0); lia). pose proof (start_at_four rs r0 Hr) as Hr4.
  assert (base mod 4 = 0) as Hb4 by (unfold base; destruct (r1 =? r0); done).
  set (len := start_at rs r1 - start_at rs r0) in *. set (at_ := si_off s + HEADER + base) in *.
  destruct (span_ok (HEADER + base) len b1) as (b2 & Hv & Hb2); [lia..|done|]. exists b2. split; [|done].
  destruct (get_range_is_Some offs r0 r1) as [ds Hds]; [lia..|]. assert (get_range d 0 (r1 - r0) = Some ds) as Hdd.
  { pose proof (get_range_len _ _ _ _ Hdg) as Hdl. destruct (get_range_is_Some d 0 (r1 - r0)) as [x Hx]; [lia..|]. rewrite Hx, <- Hds, <- (get_range_sub _ _ _ _ _ _ _ Hdg Hx). f_equal; lia. }
  assert (is_aligned (addr at_) 4 = true) as Hala by (unfold at_; rewrite <- Z.add_assoc; apply Hal; clear - Hb4 HH; rewrite HH; Z.div_mod_to_equations; lia).
  destruct (window_records rs r0 r1 m ds (addr at_) Hc Hl Hr Hat Hread H0 Hm Hds Hala) as (buf & Hbuf & Hall).
  assert (src_read src at_ len = Some buf) as Hsr.
  { unfold at_. rewrite <- Z.add_assoc. replace len with (HEADER + base + len - (HEADER + base)) by lia. rewrite Hsrc by lia. unfold base.
    destruct (Z.eqb_spec r1 r0) as [->|].
    - assert (buf = []) as -> by (apply Zlen_zero_nil; apply get_range_len in Hbuf; lia). assert (len = 0) as -> by (unfold len; lia). rewrite Z.add_0_r.
      match goal with |- get_range sec ?a ?b = _ => destruct (get_range_is_Some sec a b) as [x Hx]; [lia..|] end. rewrite Hx. f_equal. apply Zlen_zero_nil. apply get_range_len in Hx. lia.
    - rewrite <- (get_range_sub _ _ _ _ _ _ _ (di_recs _ _ _ _ _ Hdi) Hbuf). f_equal. unfold len. lia. }
  unfold bind at 1. rewrite Hd. unfold bind at 1. rewrite Hsp. unfold bind at 1. replace (at_ - si_off s) with (HEADER + base) by (unfold at_; lia). rewrite Hv.
  unfold bind, lift, read_at, expect. rewrite Hsr, Hdd. cbn [ok_or ret]. unfold ret. assert (handed lo hi f es = handed lo hi f m) as -> by (unfold handed; by rewrite Hf).
  assert (ascending (map entry_key m)) as Hma.
  { apply get_range_split in Hm as (x & y & Ees & _). rewrite Ees, !map_app in Hasc. by apply ascending_mid in Hasc. }
  rewrite (walk_go_ok (addr at_) buf base lo hi f m ds None 0 Hma I); [done|]. unfold base. destruct (Z.eqb_spec r1 r0) as [E|]; [|done].
  assert (m = []) as -> by (apply Zlen_zero_nil; apply get_range_len in Hm; lia). apply Forall2_nil_inv_r in Hall as ->. by constructor.
Qed.

(** ** The plans *)

Lemma index_sparse_ok : sparse_ok s.
Proof.
  destruct offs_spec as (_ & _ & _ & _ & _ & _ & Hw & _). destruct Hs as [_ (Hoff & Hend) Hdi _ _ Hwd _ _ Hcrc Hshift _ _ Hdir].
  assert (HEADER = 192 /\ 2 ^ 63 < U64) as [HH HU] by done. pose proof (di_n _ _ _ _ _ Hdi) as Hn. pose proof (Zlen_nonneg es). pose proof (Zlen_nonneg recs).
  pose proof (di_recs_off _ _ _ _ _ Hdi) as Hro. pose proof (di_bump _ _ _ _ _ Hdi) as Hb. pose proof (di_recs_end _ _ _ _ _ Hdi). pose proof (di_dir_end _ _ _ _ _ Hdi).
  split; [done|lia|done|lia|lia|rewrite Hshift; done|lia|lia|]. destruct (si_dir s); [|done]. subst l. eapply Forall_impl; [exact Hw|]. cbn. lia.
Qed.

Lemma plan_one a l : 0 <= a -> 0 <= l -> a + l <= hd_crc_off hd -> exists rs v, round_to_pieces [(si_off s + a, l)] (si_off s) hd = Some rs /\ merge_ranges rs = Some v.
Proof.
  intros Ha Hl He. destruct Hs as [_ (Hoff & Hend) _ _ _ _ _ _ Hcrc Hshift _ _ _]. assert (HEADER = 192 /\ 2 ^ 63 < U64) as [HH HU] by done.
  destruct (rounded_uncut [(si_off s + a, l)] (si_off s) hd) as (rs & Hrs & Hok & _); [lia|rewrite Hshift; done|lia..| |].
  - apply Forall_singleton. unfold uncut, range_ok. cbn [fst snd]. lia.
  - destruct (merge_ranges_kept rs Hok) as (v & Hv & _). by exists rs, v.
Qed.

Lemma plan_ok lo hi : exists v, dictionary_plan s lo hi = Some v.
Proof.
  pose proof (rank_window_ok lo hi) as Hw. unfold dictionary_plan. destruct (rank_window s lo hi) as [r0 r1]. destruct Hw as (H0 & H1 & _).
  destruct Hs as [_ (Hoff & Hend) Hdi _ _ _ _ _ Hcrc _ _ _ _]. assert (HEADER = 192 /\ 2 ^ 63 < U64) as [HH HU] by done.
  pose proof (di_n _ _ _ _ _ Hdi) as Hn. pose proof (di_dir_end _ _ _ _ _ Hdi) as [Hd1 Hd2]. destruct (si_dir s); [by eexists|].
  assert (0 <= dir_entries_of s r0 r1 <= Zlen es - r0) as He by (unfold dir_entries_of; rewrite Hn; destruct (Z.ltb_spec r1 (Zlen es)); lia).
  destruct (plan_one (hd_dir_off hd + r0 * 4) (dir_entries_of s r0 r1 * 4)) as (rs & v & H2 & H3); [lia..|].
  rewrite (proj2 (cadd_Some _ _ _)) by (split; [reflexivity|lia]). cbn [option_bind mbind]. rewrite H2. cbn [option_bind mbind]. by exists v.
Qed.

Lemma plan_records_ok lo hi : exists w, forall bits, bits_for s bits -> exists bits', dictionary_plan_records src s lo hi bits = Some (Ok w, bits') /\ bits_for s bits'.
Proof.
  pose proof (rank_window_ok lo hi) as Hw. unfold dictionary_plan_records. destruct (rank_window s lo hi) as [r0 r1]. destruct Hw as (H0 & H1 & _).
  destruct offs_spec as (rs & Hc & Hl & Ho & Hr & Hat & _ & _). destruct (sparse_dir_ok r0 r1 H0 H1) as (d & Hdg & _ & Hdir).
  pose proof (fun b => record_span_ok rs r0 r1 d b Hc Hl Ho Hr Hat H0 H1 Hdg) as Hsp. cbv zeta in Hsp. set (base := if r1 =? r0 then 0 else start_at rs r0) in *.
  destruct Hs as [_ (Hoff & Hend) Hdi _ _ _ _ _ Hcrc _ _ _ _]. assert (HEADER = 192) as HH by done. pose proof (di_recs_end _ _ _ _ _ Hdi) as He.
  pose proof (start_at_mono rs r0 r1 H0) as Hmono. assert (0 <= start_at rs r0) as Hp by apply Zlen_nonneg. assert (start_at rs r1 <= Zlen recs) as Hr1 by (rewrite Hc; apply Zlen_concat_take_le).
  assert (0 <= base <= start_at rs r0) as Hbase by (unfold base; destruct (r1 =? r0); lia).
  destruct (plan_one (HEADER + base) (start_at rs r1 - start_at rs r0)) as (rs' & w & H2 & H3); [lia..|]. exists w. intros bits Hb. destruct (Hdir bits Hb) as (b1 & Hd & Hb1). exists b1. split; [|done].
  unfold bind at 1. rewrite Hd. unfold bind at 1. rewrite Hsp. rewrite <- Z.add_assoc. unfold bind, expect. by rewrite H2, H3.
Qed.
End section.
