(* ===== verification/SparseRead.v ===== *)
(** * A segment opened without its index

    [SparseBlob::open_with] over a file the writer of [SegmentFinish] made,
    fetched by the plan of [open_sparse_ranges_opts] and nothing else: it
    opens from the superblock's extension, and a range of its dictionary walks
    as the segment's own entries, whose runs read as they were put. *)

From S2P Require Import Prelude State Varint Runs Crc Chunks BlockTable Records HashTable FlatIndex FlatRead FlatSection Reserve Superblock Blob BlobCache BlobPlan SegmentWriter SegmentHolds SegmentFinish SegmentRead Segment Sparse SparsePlan SparseHolds.

#[local] Open Scope state_scope.

Lemma read_part file src o l b : get_range file o (o + l) = Some b -> alike (bytes_source file) src (o, l) -> read_at src o l = Ok b.
Proof.
  intros Hg Ha. unfold read_at. rewrite <- (Ha o l); [cbn [bytes_source src_read]; by rewrite Hg|]. apply get_range_Some in Hg as (Hl & _).
  destruct (Z.eq_dec l 0); [by left|right]. cbn [fst snd]. lia.
Qed.

Lemma header_words h hd : header_parse h = Some hd -> 0 <= hd_fence_n hd /\ 0 <= hd_fence_stride hd.
Proof.
  unfold header_parse. destruct (negb _); [done|].
  repeat (match goal with |- mbind _ ?x = Some _ -> _ => let E := fresh "E" in destruct x eqn:E; [cbn [option_bind mbind]|done] | |- (if ?c then None else _) = Some _ -> _ => destruct c; [done|] | |- context [let '(_, _) := ?p in _] => destruct p end).
  intros [= <-]. cbn [hd_fence_n hd_fence_stride].
  repeat match goal with H : rd_u64 _ _ = Some _ |- _ => apply rd_u64_range in H end. lia.
Qed.

Section opened.
Context (lz4 : bytes -> bytes) (sums : bool) (set : Settings) (key_base blk_base ts generation : Z) (puts : list Put) (ets : list (Ext * bytes)).
Context (opts : BlobOptions) (id_ : Z) (Hset : settings_ok set).
Context (file header rest : bytes) (f : FlatIndex) (hd : Header) (ps : list bytes) (B : Blocks) (blk_off : Z).
Local Abbreviation sec := (header ++ rest).
Local Abbreviation K := (start_of set).
Local Abbreviation at_ := (start_of set + Zlen (header ++ rest)).
Local Abbreviation locs := (landed at_ (b_pending B) (b_blocks B)).
Local Abbreviation table := (table_bytes (b_chunk_rows B) locs).
Local Abbreviation es := (entries (st_compact_records set) puts ets).
Context (Hsec : section_ok key_base es (start_of set) header rest f hd) (Hasc : ascending (map entry_key es)).
Context (Hok : blocks_ok lz4 sums (st_compress set) (st_block_size set) ps B) (Hps : Zlen ps <= 2 ^ 30).
Context (Hg1 : get_range file (start_of set) at_ = Some sec) (Hat : at_ < 2 ^ 63).
Context (Hg3 : get_range file blk_off (blk_off + Zlen table) = Some table) (Hbase : aligned blk_base BLK_HEADER = true).
Context (page : bytes) (Hp : get_range file 0 SUPER = Some page) (Hl : SUPER <= Zlen file).
Local Abbreviation sb := (super_of [generation; generation; ts; start_of set; Zlen sec; Zlen sec; blk_off; Zlen table; Zlen table; 0; 0; 0; Zlen file; 0; 0; generation]).
Context (Hpick : pick_super page (Zlen file) = Ok sb).
Context (x : SuperExt) (Hx : decode_super_ext page generation = Some x) (Hxt : ext_true file header hd (start_of set) (Zlen sec) (blk_off, Zlen table) x).
Context (offs : list Z) (recs : bytes) (Hdi : dictionary sec hd es offs recs) (Hre : records_read recs offs es) (Hsm : Zlen recs < U32).

Local Abbreviation foff := (fst (fence_span hd (Zlen sec))).
Local Abbreviation flen := (snd (fence_span hd (Zlen sec))).
Local Abbreviation row_len := (checksum_row_len (hd_crc_off hd) (hd_piece_shift hd) K).
Local Abbreviation L := (ext_plan sb x hd (resident_directory opts)).

Lemma K_pos : 0 <= K.
Proof. destruct Hset as (_ & _ & ?). unfold start_of, SUPER. destruct (_ <? _); lia. Qed.

Lemma fence_in : 0 <= foff /\ 0 <= flen /\ foff + flen <= hd_crc_off hd /\ exists region, get_range sec foff (foff + flen) = Some region.
Proof.
  pose proof (di_fence _ _ _ _ _ Hdi) as Hf. unfold fence_brackets in Hf. destruct (fence_span hd (Zlen sec)) as [a l]. cbn [fst snd].
  destruct Hf as (_ & H1 & H2 & H3 & region & H4 & _). split; [done|]. split; [done|]. split; [done|]. by exists region.
Qed.

(** What of the section is at the source. *)
Lemma sec_file a b r : get_range sec a b = Some r -> get_range file (K + a) (K + b) = Some r.
Proof. apply (get_range_sub _ _ _ _ _ _ _ Hg1). Qed.

(** ** What the plan names *)

Lemma in_file o l b : get_range file o (o + l) = Some b -> range_ok (o, l).
Proof. intros H. pose proof (et_file _ _ _ _ _ _ _ Hxt). apply get_range_Some in H as (? & ? & _). unfold range_ok. cbn [fst snd]. lia. Qed.

Lemma uncut_in o l b : 0 <= o -> get_range sec o (o + l) = Some b -> o + l <= hd_crc_off hd \/ hd_crc_off hd <= o -> uncut K hd (K + o, l).
Proof.
  intros Ho Hg Hc. split; [apply (in_file _ _ b); rewrite <- Z.add_assoc; by apply sec_file|]. cbn [fst snd]. lia.
Qed.

Lemma uncut_before o l b : get_range file o (o + l) = Some b -> o + l <= K -> uncut K hd (o, l).
Proof. intros Hg Hb. split; [by eapply in_file|]. cbn [fst snd]. lia. Qed.

Lemma row_in : exists row, get_range sec (hd_crc_off hd) (hd_crc_off hd + row_len) = Some row.
Proof.
  pose proof (so_row _ _ _ _ _ _ _ Hsec) as Hr. pose proof (so_crc _ _ _ _ _ _ _ Hsec) as Hc. rewrite Hr. apply get_range_is_Some; unfold HEADER in *; lia.
Qed.

Lemma plan_uncut : Forall (uncut K hd) L.
Proof.
  destruct fence_in as (Hf0 & Hf1 & Hf2 & region & Hreg). destruct row_in as [row Hrow]. pose proof (di_n _ _ _ _ _ Hdi) as Hn. pose proof K_pos as HK.
  pose proof (di_dir _ _ _ _ _ Hdi) as Hdir. pose proof (di_dir_end _ _ _ _ _ Hdi) as [Hd1 Hd2]. assert (HEADER = 192) as HH by done. assert (SUPER = 4096) as HS by done.
  destruct (et_copies _ _ _ _ _ _ _ Hxt) as (lo & Hlo & Hcr & Hcf & Hcd). cbn [cp_row cp_fence cp_dir] in *. pose proof (so_crc _ _ _ _ _ _ _ Hsec) as Hc.
  unfold ext_plan. rewrite (proj2 (Z.eqb_neq (hd_crc_off hd) 0)) by lia. cbn [negb]. apply Forall_app. split; [|apply Forall_app; split].
  - apply Forall_cons. split; [|apply Forall_cons; split; [|apply Forall_singleton]].
    + split; [eapply (in_file 0 SUPER); rewrite Z.add_0_l; exact Hp|]. unfold open_probe. cbn [fst snd]. assert (SUPER <= K) by (unfold start_of; destruct Hset as (_ & _ & ?); destruct (_ <? _); lia). lia.
    + assert (default (blk_off, Zlen table) (sx_table_copy x) = (blk_off, Zlen table)) as Ht by (pose proof (et_table _ _ _ _ _ _ _ Hxt) as Ht; destruct (sx_table_copy x); [exact Ht|done]).
      change (sb_blk_off sb, sb_blk_stored sb) with (blk_off, Zlen table). rewrite Ht. split; [eapply in_file; exact Hg3|].
      pose proof (et_apart _ _ _ _ _ _ _ Hxt) as Ha. cbn [fst snd] in *. pose proof (Zlen_nonneg table). lia.
    + destruct (sx_fence_copy x) as [[[o l] crc]|].
      * destruct Hcf as ([H1 H2] & _ & -> & b & [Hb _] & _). by apply (uncut_before o flen b).
      * rewrite (et_fence _ _ _ _ _ _ _ Hxt). by apply (uncut_in foff flen region Hf0 Hreg); left.
  - apply Forall_singleton. rewrite (et_row _ _ _ _ _ _ _ Hxt). cbn [snd]. destruct (sx_row_copy x) as [o|].
    + destruct Hcr as ([H1 H2] & b & [Hb _]). by apply (uncut_before o row_len b).
    + apply (uncut_in (hd_crc_off hd) row_len row); [lia|done|right; lia].
  - destruct (resident_directory opts); [|done]. apply Forall_singleton. rewrite (et_dir _ _ _ _ _ _ _ Hxt). cbn [snd]. rewrite Hn. destruct (sx_dir_copy x) as [[o crc]|].
    + destruct Hcd as ([H1 H2] & b & [Hb _] & _). rewrite Hn in *. by apply (uncut_before o _ b).
    + eapply (uncut_in (hd_dir_off hd) (Zlen es * 4)); [lia|exact Hdir|left; lia].
Qed.

Lemma plan_made : exists L' v, round_to_pieces L K hd = Some L' /\ Forall range_ok L' /\ Forall2 (fun r r' => fst r' <= fst r /\ fst r + snd r <= fst r' + snd r') L L' /\
  merge_ranges L' = Some v /\ sparse_open_ranges_via_opts (bytes_source file) (resident_directory opts) = Some (Ok v) /\
  sparse_fence_ranges_via_opts (bytes_source file) (resident_directory opts) = Some (Ok []).
Proof.
  pose proof K_pos as HK. pose proof (so_crc _ _ _ _ _ _ _ Hsec) as Hc. destruct (so_pieces _ _ _ _ _ _ _ Hsec) as [_ Hsh]. assert (HEADER = 192) as HH by done.
  destruct (rounded_uncut L K hd ltac:(lia) ltac:(rewrite Hsh; done) HK ltac:(lia) ltac:(lia) plan_uncut) as (L' & H1 & H2 & H3).
  destruct (merge_ranges_kept L' H2) as (v & Hv & _). exists L', v. split; [done|]. split; [done|]. split; [done|]. split; [done|].
  unfold sparse_open_ranges_via_opts, sparse_fence_ranges_via_opts, open_sparse_ranges_opts, read_at. cbn [bytes_source src_len src_read]. unfold open_probe. rewrite Z.min_l, Z.add_0_l, Hp by lia. cbn [ok_or].
  rewrite Hpick. change (sb_generation sb) with generation. rewrite Hx. split; [|done]. rewrite (et_header _ _ _ _ _ _ _ Hxt), (so_hd _ _ _ _ _ _ _ Hsec).
  change (sb_key_off sb) with K. rewrite H1. cbn [option_bind mbind]. unfold finish_plan. change (log_probe_range sb) with (@None (Z * Z)). cbv iota. by rewrite Hv.
Qed.

(** ** The open *)

Section fetched.
Context (src : Source) (v : list (Z * Z)) (L' : list (Z * Z)) (HL : round_to_pieces L K hd = Some L') (Hok' : Forall range_ok L').
Context (Hw : Forall2 (fun r r' => fst r' <= fst r /\ fst r + snd r <= fst r' + snd r') L L') (Hm : merge_ranges L' = Some v).
Context (Hlen : src_len src = Zlen file) (Ha : agree v (bytes_source file) src).
Local Abbreviation ext := (Some x).

Lemma named r : In r L -> alike (bytes_source file) src r /\ exists r', round_to_pieces [r] K hd = Some [r'] /\ alike (bytes_source file) src r'.
Proof.
  intros Hin. split.
  - destruct r as [o l]. apply list_elem_of_In, list_elem_of_lookup_1 in Hin as [i Hi]. destruct (Forall2_lookup_l _ _ _ _ _ Hw Hi) as (r' & Hr' & H1 & H2). cbn [fst snd] in *.
    pose proof (agree_alike v _ _ L' Ha Hok' Hm r' ltac:(by eapply list_elem_of_In, list_elem_of_lookup_2)) as Hal.
    intros a n Hn. apply Hal. destruct Hn as [?|(? & ? & ?)]; [by left|right]. cbn [fst snd] in *. lia.
  - destruct (rounded_in _ _ _ _ _ HL Hin) as (r' & H1 & H2). exists r'. split; [done|]. by eapply agree_alike.
Qed.

Lemma fence_named : In (match sx_fence_copy x with Some (o, l, _) => (o, l) | None => sx_fence x end) L.
Proof. unfold ext_plan. apply in_or_app. left. right. right. by left. Qed.

Lemma read_fence_ok bits : exists region from, read_fence src ext K foff flen bits = Some (Ok (region, from), bits) /\ get_range sec foff (foff + flen) = Some region /\
  (from = true -> In (K + foff, flen) L).
Proof.
  destruct fence_in as (Hf0 & Hf1 & Hf2 & region & Hreg). pose proof fence_named as Hn. pose proof (et_copies _ _ _ _ _ _ _ Hxt) as (lo & Hlo & _ & Hcf & _). cbn [cp_fence] in Hcf.
  assert (HEADER = 192 /\ 2 ^ 63 < U64) as [HH HU] by done. pose proof (so_crc _ _ _ _ _ _ _ Hsec) as Hc. pose proof K_pos. exists region. unfold read_fence. cbn [option_bind mbind].
  destruct (sx_fence_copy x) as [[[o l] crc]|].
  - destruct Hcf as (_ & Hpos & -> & b & [Hb1 Hb2] & ->). exists false. split; [|by split].
    rewrite Z.eqb_refl, (proj2 (Z.ltb_lt 0 flen)) by lia. cbn [andb]. unfold bind, lift. rewrite (read_part _ _ _ _ _ Hb1 (proj1 (named _ Hn))).
    rewrite Z.eqb_refl. cbn [negb ret]. rewrite <- Z.add_assoc in Hb2. rewrite (sec_file _ _ _ Hreg) in Hb2. by injection Hb2 as <-.
  - rewrite (et_fence _ _ _ _ _ _ _ Hxt) in Hn. destruct (Z.ltb_spec 0 flen) as [Hpos|Hz].
    + exists true. split; [|by split]. unfold bind, expect, lift. rewrite (proj2 (cadd_Some _ _ _)) by (split; [reflexivity|lia]).
      rewrite (read_part file src _ _ region); [done|rewrite <- Z.add_assoc; by apply sec_file|exact (proj1 (named _ Hn))].
    + exists false. split; [|by split]. pose proof (get_range_len _ _ _ _ Hreg). assert (region = []) as -> by (apply Zlen_zero_nil; lia). done.
Qed.

Lemma read_row_ok bits : exists row, read_row src ext opts hd K (Zlen sec) bits = Some (Ok (if verify_index opts then row else []), bits) /\
  get_range sec (hd_crc_off hd) (hd_crc_off hd + row_len) = Some row.
Proof.
  destruct row_in as [row Hrow]. pose proof (et_copies _ _ _ _ _ _ _ Hxt) as (lo & Hlo & Hcr & _). cbn [cp_row] in Hcr.
  pose proof (so_row _ _ _ _ _ _ _ Hsec) as Hr. pose proof (so_crc _ _ _ _ _ _ _ Hsec) as Hc. pose proof K_pos. assert (HEADER = 192 /\ 2 ^ 63 < U64) as [HH HU] by done.
  unfold read_row. rewrite (proj2 (Z.eqb_neq (hd_crc_off hd) 0)) by lia. cbn [negb andb]. exists row. split; [|done]. destruct (verify_index opts); [|done]. cbv zeta. rewrite (proj2 (cadd_Some (hd_crc_off hd) row_len (Zlen sec))) by (split; [by rewrite Hr|lia]). rewrite Z.ltb_irrefl. cbn [option_bind mbind].
  assert (In (match sx_row_copy x with Some o => (o, snd (sx_row x)) | None => sx_row x end) L) as Hn.
  { unfold ext_plan. rewrite (proj2 (Z.eqb_neq (hd_crc_off hd) 0)) by lia. cbn [negb]. apply in_or_app. right. apply in_or_app. left. by left. }
  rewrite (et_row _ _ _ _ _ _ _ Hxt) in Hn. cbn [snd] in Hn. unfold bind. destruct (sx_row_copy x) as [o|].
  - destruct Hcr as (_ & b & [Hb1 Hb2]). cbn [ret]. unfold lift. rewrite (read_part _ _ _ _ _ Hb1 (proj1 (named _ Hn))).
    rewrite <- Z.add_assoc in Hb2. rewrite (sec_file _ _ _ Hrow) in Hb2. by injection Hb2 as <-.
  - unfold expect. rewrite (proj2 (cadd_Some _ _ _)) by (split; [reflexivity|lia]). unfold lift.
    by rewrite (read_part file src _ _ row); [|rewrite <- Z.add_assoc; by apply sec_file|exact (proj1 (named _ Hn))].
Qed.

Lemma offs_small : Forall (fun w => 0 <= w < U32) offs.
Proof.
  destruct Hre as (rs & [Hc Hato] & Hlr & _). pose proof (get_range_len _ _ _ _ (di_dir _ _ _ _ _ Hdi)) as Hd. rewrite Zlen_concat_le32 in Hd.
  apply Forall_lookup. intros i w Hi. pose proof Hi as Hlt%lookup_lt_Some. rewrite <- get_at_lookup in Hi. rewrite Hato in Hi by (unfold Zlen in *; lia). injection Hi as <-.
  pose proof (Zlen_concat_take_le rs (Z.to_nat (Z.of_nat i))) as Hle. rewrite <- Hc in Hle. lia.
Qed.

Lemma read_directory_ok bits : exists from,
  read_directory src ext opts hd K bits = Some (Ok (if resident_directory opts then Some offs else None, from), bits) /\ (from = true -> In (K + hd_dir_off hd, hd_nkeys hd * 4) L).
Proof.
  pose proof (di_dir _ _ _ _ _ Hdi) as Hdir. pose proof (di_dir_end _ _ _ _ _ Hdi) as [Hd1 Hd2]. pose proof (di_n _ _ _ _ _ Hdi) as Hn. pose proof K_pos.
  pose proof (et_copies _ _ _ _ _ _ _ Hxt) as (lo & Hlo & _ & _ & Hcd). cbn [cp_dir] in Hcd. pose proof (so_crc _ _ _ _ _ _ _ Hsec) as Hc.
  assert (HEADER = 192 /\ 2 ^ 63 < U64) as [HH HU] by done. pose proof (Zlen_nonneg es). unfold read_directory.
  destruct (Bool.bool_dec (resident_directory opts) true) as [Er|Er%Bool.not_true_is_false]; rewrite Er; cbn [negb]; [|exists false; done].
  cbn [option_bind mbind]. pose proof (words32_le32 offs offs_small) as Hwd.
  assert (In (match sx_dir_copy x with Some (o, _) => (o, snd (sx_dir x)) | None => sx_dir x end) L) as Hin.
  { unfold ext_plan. rewrite Er. apply in_or_app. right. apply in_or_app. right. by left. }
  rewrite (et_dir _ _ _ _ _ _ _ Hxt) in Hin. cbn [snd] in Hin. rewrite Hn in Hcd, Hin |- *. destruct (sx_dir_copy x) as [[o crc]|].
  - destruct Hcd as (_ & b & [Hb1 Hb2] & ->). exists false. split; [|done]. unfold bind, lift. rewrite (read_part _ _ _ _ _ Hb1 (proj1 (named _ Hin))).
    rewrite Z.eqb_refl. cbn [negb ret]. rewrite <- Z.add_assoc in Hb2. rewrite (sec_file _ _ _ Hdir) in Hb2. injection Hb2 as <-. by rewrite Hwd.
  - exists true. split; [|intros _; by rewrite Er in Hin]. unfold bind, expect, lift. rewrite (proj2 (cadd_Some _ _ _)) by (split; [reflexivity|lia]).
    rewrite (read_part file src _ _ (concat (map le32 offs))); [unfold ret; by rewrite Hwd|rewrite <- Z.add_assoc; by apply sec_file|exact (proj1 (named _ Hin))].
Qed.

(** What it keeps. *)
Definition index_made : SparseIndex := mkSparse K (Zlen sec) hd (default [] (get_range sec foff (foff + flen)))
  (if verify_index opts then default [] (get_range sec (hd_crc_off hd) (hd_crc_off hd + row_len)) else [])
  (if resident_directory opts then Some offs else None) true.
Definition blob_made : Blob := mkBlob (mkSec [] 0) no_index (mkSec table blk_off) (mkMapped BLK_HEADER (Zlen ps)) (hd_generation hd) ts opts id_.
Definition words_made : list Z := replicate (Z.to_nat (div_ceil (Zlen ps * MAX_CHUNK_CRCS) 64)) 0.

Lemma index_made_ok : index_of index_made sec es offs recs.
Proof.
  destruct fence_in as (Hf0 & Hf1 & Hf2 & region & Hreg). destruct row_in as [row Hrow]. destruct (so_pieces _ _ _ _ _ _ _ Hsec) as [Hv Hsh]. pose proof K_pos.
  split; cbn [index_made si_len si_off si_hdr si_fence si_crcs si_dir]; try done.
  - by apply header_words with header, (so_hd _ _ _ _ _ _ _ Hsec).
  - by rewrite Hreg.
  - pose proof (so_crc _ _ _ _ _ _ _ Hsec). done.
  - destruct (verify_index opts); [right; by rewrite Hrow|by left].
  - by destruct (resident_directory opts).
Qed.

Lemma there_file : there (bytes_source file) K sec.
Proof.
  intros a b H0 H1. cbn [bytes_source src_read]. replace (K + a + (b - a)) with (K + b) by lia. destruct (get_range_is_Some sec a b H0 H1) as [r Hr]. rewrite Hr. by apply sec_file.
Qed.

(** A part out of the section checks through the source that holds the plan. *)
Lemma span_fetched a l bits : In (K + a, l) L -> 0 <= a -> 0 <= l -> a + l <= hd_crc_off hd -> bits_for index_made bits ->
  exists bits', verify_span src index_made a l bits = Some (Ok tt, bits') /\ bits_for index_made bits'.
Proof.
  intros Hin H0 H1 H2 Hb. destruct (proj2 (named _ Hin)) as (r' & Hr & Hal). destruct (so_pieces _ _ _ _ _ _ _ Hsec) as [_ Hsh].
  pose proof (so_crc _ _ _ _ _ _ _ Hsec) as Hc. assert (HEADER = 192) as HH by done.
  destruct (span_same index_made (bytes_source file) src a l r') as [Hv _]; cbn [index_made si_off si_hdr si_crcs]; try done; [lia|rewrite Hsh; done|apply K_pos|].
  rewrite <- Hv. apply (span_ok _ _ _ _ _ _ index_made_ok there_file); done.
Qed.

Lemma head_named : In (0, open_probe) L /\ In (default (blk_off, Zlen table) (sx_table_copy x)) L.
Proof. split; unfold ext_plan; apply in_or_app; left; [by left|right; by left]. Qed.

Lemma open_head_ok : open_head src = Ok sb /\ read_at src 0 (Z.min SUPER (src_len src)) = Ok page.
Proof.
  assert (read_at src 0 SUPER = Ok page) as Hr by (apply (read_part file); [by rewrite Z.add_0_l|exact (proj1 (named _ (proj1 head_named)))]).
  rewrite Hlen, Z.min_l by lia. split; [|done]. unfold open_head. rewrite Hlen, (proj2 (Z.ltb_ge _ _)) by done. unfold open_probe. rewrite Hr. cbn [rbind]. by rewrite Hpick.
Qed.

Lemma table_read : sec_read src (fst (default (blk_off, Zlen table) (sx_table_copy x))) (snd (default (blk_off, Zlen table) (sx_table_copy x))) = Ok (mkSec table blk_off) /\
  mapped_parse blk_base table = Some (mkMapped BLK_HEADER (Zlen ps)).
Proof.
  pose proof (proj2 head_named) as Hin. assert (default (blk_off, Zlen table) (sx_table_copy x) = (blk_off, Zlen table)) as Ht.
  { pose proof (et_table _ _ _ _ _ _ _ Hxt) as Ht. destruct (sx_table_copy x); [exact Ht|done]. }
  rewrite Ht in *. cbn [fst snd]. split; [unfold sec_read; by rewrite (read_part file src _ _ table Hg3 (proj1 (named _ Hin)))|].
  assert (Zlen locs = Zlen ps) as Hn by exact (Zlen_locs lz4 sums set header rest ps B Hok). rewrite (mapped_parse_table (b_chunk_rows B))
    by (first [exact (table_small lz4 sums set header rest ps B Hok Hps)|exact Hbase|exact (locs_ok lz4 sums set Hset header rest ps B Hok Hps Hat)|by eapply rows_16]).
  by rewrite Hn.
Qed.

Lemma regions_fit : negb (region_fits (Zlen sec) (hd_hash_off hd) (Z.min (hd_hash_cap hd * 8) (U64 - 1))) || negb (region_fits (Zlen sec) (hd_dir_off hd) (Z.min (hd_nkeys hd * 4) (U64 - 1)))
  || negb (region_fits (Zlen sec) (hd_recs_off hd) (hd_bump hd)) = false.
Proof.
  pose proof (so_crc _ _ _ _ _ _ _ Hsec) as Hc. pose proof (di_hash _ _ _ _ _ Hdi) as (H1 & H2 & H3). pose proof (di_dir_end _ _ _ _ _ Hdi) as [H4 H5]. pose proof (di_n _ _ _ _ _ Hdi) as Hn.
  pose proof (di_recs_off _ _ _ _ _ Hdi) as H6. pose proof (di_bump _ _ _ _ _ Hdi) as H7. pose proof (di_recs_end _ _ _ _ _ Hdi) as H8. pose proof K_pos. pose proof (Zlen_nonneg recs). pose proof (Zlen_nonneg es).
  assert (HEADER = 192 /\ 2 ^ 63 < U64) as [HH HU] by done.
  assert (forall a l, HEADER <= a -> 0 <= l -> a + l <= Zlen sec -> region_fits (Zlen sec) a l = true) as Hfit.
  { intros a l Ha0 Hl0 Hal. unfold region_fits. rewrite (proj2 (Z.leb_le HEADER a)), (proj2 (cadd_Some a l _)) by (done || (split; [reflexivity|lia])). cbn [andb]. by apply Z.leb_le. }
  rewrite !Hfit by lia. done.
Qed.

Lemma open_made bits0 : exists bits, open_sparse src blk_base opts id_ bits0 = Some (Ok (mkSparseBlob index_made blob_made, words_made), bits) /\ bits_for index_made bits.
Proof.
  destruct open_head_ok as [Hh Hpg]. destruct table_read as [Ht Hmp]. destruct fence_in as (Hf0 & Hf1 & Hf2 & _). pose proof (so_crc _ _ _ _ _ _ _ Hsec) as Hc.
  destruct (read_fence_ok bits0) as (region & ff & Hfr & Hreg & Hfin). destruct (read_row_ok bits0) as (row & Hrr & Hrow). destruct (read_directory_ok bits0) as (df & Hdr & Hdin).
  pose proof (di_fence _ _ _ _ _ Hdi) as Hfb. unfold fence_brackets in Hfb. destruct (di_dir_end _ _ _ _ _ Hdi) as [Hd1 Hd2]. pose proof (di_n _ _ _ _ _ Hdi) as Hn.
  assert (HEADER = 192) as HH by done. pose proof (Zlen_nonneg es).
  assert (fence_region hd (Zlen sec) = Ok (fence_span hd (Zlen sec))) as Hfg.
  { unfold fence_region. destruct (Z.eqb_spec (hd_fence_n hd) 0) as [|Hne]; [done|]. destruct (fence_span hd (Zlen sec)). destruct Hfb as (Hfb & _). specialize (Hfb Hne).
    rewrite (proj2 (Z.ltb_ge _ _)), (proj2 (Z.ltb_ge (Zlen sec) _)) by lia. done. }
  set (words0 := replicate (Z.to_nat (div_ceil (Zlen (if verify_index opts then row else []) / 4) 64)) 0).
  assert (bits_for index_made words0) as Hb0.
  { unfold bits_for, words0. cbn [index_made si_crcs]. rewrite Hrow. change (default [] (Some row)) with row. rewrite Zlen_replicate. apply Z2Nat.id.
    unfold div_ceil. pose proof (Zlen_nonneg (if verify_index opts then row else [])). apply Z.div_pos; [|lia]. pose proof (Z.div_pos (Zlen (if verify_index opts then row else [])) 4). lia. }
  assert (exists b1, (if ff then verify_span src index_made foff flen else ret tt) words0 = Some (Ok tt, b1) /\ bits_for index_made b1) as (b1 & Hv1 & Hb1).
  { destruct ff; [|by exists words0]. apply span_fetched; auto. }
  assert (exists b2, (if df then verify_span src index_made (hd_dir_off hd) (hd_nkeys hd * 4) else ret tt) b1 = Some (Ok tt, b2) /\ bits_for index_made b2) as (b2 & Hv2 & Hb2).
  { destruct df; [|by exists b1]. apply span_fetched; [by apply Hdin|lia..|done]. }
  exists b2. split; [|done]. unfold open_sparse. unfold bind at 1, lift at 1. rewrite Hh. change (sb_key_stored sb) with (Zlen sec).
  change (sb_key_off sb) with K. change (sb_generation sb) with generation. cbv zeta. rewrite (proj2 (Z.ltb_ge (Zlen sec) HEADER)) by lia. cbn [refuse_if]. unfold bind at 1, ret at 1.
  unfold bind at 1, lift at 1. rewrite Hpg. cbv zeta. rewrite Hx. unfold bind at 1, ret at 1. rewrite (et_header _ _ _ _ _ _ _ Hxt). rewrite (so_hd _ _ _ _ _ _ _ Hsec). unfold require at 1.
  unfold bind at 1, ret at 1. rewrite regions_fit. unfold refuse_if. unfold bind at 1, ret at 1. unfold bind at 1, lift at 1. rewrite Hfg.
  rewrite (surjective_pairing (fence_span hd (Zlen sec))). cbv beta iota. unfold bind at 1. rewrite Hfr. unfold bind at 1. rewrite Hrr. cbn [option_bind mbind].
  change (sb_blk_off sb, sb_blk_stored sb) with (blk_off, Zlen table). rewrite (surjective_pairing (default (blk_off, Zlen table) (sx_table_copy x))). cbv beta iota.
  unfold bind at 1, lift at 1. rewrite Ht. unfold bind at 1. cbn [sec_bytes]. rewrite Hmp. unfold require at 1, ret at 1. cbv zeta. unfold bind at 1. rewrite Hdr.
  cbv beta iota. unfold bind at 1, modify at 1. unfold bind at 1, ret at 1.
  assert (mkSparse K (Zlen sec) hd region (if verify_index opts then row else []) (if resident_directory opts then Some offs else None) true = index_made) as ->
    by (unfold index_made; by rewrite Hreg, Hrow).
  fold words0.
  etrans; [exact (bind_runs _ _ _ _ _ Hv1)|]. etrans; [exact (bind_runs _ _ _ _ _ Hv2)|]. reflexivity.
Qed.
End fetched.
End opened.

(** ** What the reader of a segment answers *)

(** Runs are read by what the reader keeps of the blocks, and nothing else. *)
Lemma read_same d src blk_base sums key idx blk blocks g g' ts opts id_ key' idx' exts tail n rs :
  read_go d src (mkBlob key idx blk blocks g ts opts id_) blk_base sums exts tail n rs = read_go d src (mkBlob key' idx' blk blocks g' ts opts id_) blk_base sums exts tail n rs.
Proof.
  revert n rs. induction exts as [|e exts IH]; intros n rs; [done|]. cbn [read_go].
  assert (with_run d src (mkBlob key idx blk blocks g ts opts id_) blk_base sums e tail rs = with_run d src (mkBlob key' idx' blk blocks g' ts opts id_) blk_base sums e tail rs) as -> by reflexivity.
  destruct (with_run _ _ _ _ _ _ _ _) as [[[run|m] rs']|]; [|done|done]. destruct (each_value run e) as [vs [k|m]]; [|done]. unfold bind. by rewrite IH.
Qed.

(** The entries of a walk nobody stops are all there are between the bounds. *)
Lemma handed_all lo hi es : map entry_key (handed lo hi (fun _ _ _ => true) es) = List.filter (fun k => negb (bltb k lo) && negb (key_past hi k)) (map entry_key es).
Proof.
  assert (forall l, until (fun _ _ _ => true) l = l) as Hu by (induction l as [|[[k x] t] l IH]; [done|cbn [until]; by rewrite IH]).
  unfold handed. rewrite Hu. induction es as [|e es IH]; [done|]. cbn [List.filter map]. unfold in_bounds at 1. destruct (_ && _); cbn [map]; by rewrite IH.
Qed.

(** What a reader [S] that holds the fence of [file] and not its index answers
    of the puts [items], whose records are [es]. *)
Record serves_ranges (d : bytes -> bytes -> bytes * bool) (sums : bool) (file : bytes) (blk_base : Z) (S : SparseBlob) (items : list (bytes * list bytes)) (es : list entry) : Prop := {
  sr_keys : sparse_keys (sp S) = Zlen items;
  sr_entries : map entry_key es = map fst items;
  sr_plan : forall lo hi, exists v w, dictionary_plan (sp S) lo hi = Some v /\
    forall src, agree v (bytes_source file) src ->
      (forall bits, bits_for (sp S) bits -> exists bits', dictionary_plan_records src (sp S) lo hi bits = Some (Ok w, bits') /\ bits_for (sp S) bits') /\
      forall addr f bits, agree w (bytes_source file) src -> bits_for (sp S) bits -> (forall x, x mod 4 = 0 -> is_aligned (addr (si_off (sp S) + x)) 4 = true) ->
        exists bits', dictionary_walk src addr (sp S) lo hi f bits = Some (Ok (handed lo hi f es, Ok (Zlen (handed lo hi f es))), bits') /\ bits_for (sp S) bits';
  sr_values : forall i k vals x tail rs, get_at items i = Some (k, vals) -> get_at es i = Some (k, x, tail) ->
    reached d (bytes_source file) (sp_blob S) blk_base sums rs ->
    exists rs', read_exts d (bytes_source file) (sp_blob S) blk_base sums (exts_deref x) tail rs = Some (Ok (vals, Ok (Zlen vals)), rs') /\
      reached d (bytes_source file) (sp_blob S) blk_base sums rs'
}.

Lemma index_serves file s sec es offs recs lo hi : index_of s sec es offs recs -> there (bytes_source file) (si_off s) sec ->
  exists v w, dictionary_plan s lo hi = Some v /\
    forall src, agree v (bytes_source file) src ->
      (forall bits, bits_for s bits -> exists bits', dictionary_plan_records src s lo hi bits = Some (Ok w, bits') /\ bits_for s bits') /\
      forall addr f bits, agree w (bytes_source file) src -> bits_for s bits -> (forall x, x mod 4 = 0 -> is_aligned (addr (si_off s + x)) 4 = true) ->
        exists bits', dictionary_walk src addr s lo hi f bits = Some (Ok (handed lo hi f es, Ok (Zlen (handed lo hi f es))), bits') /\ bits_for s bits'.
Proof.
  intros Hi Ht. pose proof (index_sparse_ok s sec es offs recs Hi) as Hs. destruct (plan_ok s sec es offs recs Hi lo hi) as [v Hv].
  destruct (plan_records_ok (bytes_source file) s sec es offs recs Hi Ht lo hi) as (w & Hw). exists v, w. split; [done|]. intros src Ha. split.
  - intros bits Hb. rewrite <- (plan_records_same s (bytes_source file) src lo hi v) by done. by apply Hw.
  - intros addr f bits Haw Hb Hal. destruct (Hw bits Hb) as (b1 & Hw1 & _). rewrite <- (walk_same s (bytes_source file) src addr lo hi v bits w b1 f bits) by done.
    by apply (sparse_walk_ok (bytes_source file) s sec es offs recs Hi Ht).
Qed.

Lemma reached_same d src blk_base sums key idx blk blocks g g' ts opts id_ key' idx' rs :
  reached d src (mkBlob key idx blk blocks g ts opts id_) blk_base sums rs -> reached d src (mkBlob key' idx' blk blocks g' ts opts id_) blk_base sums rs.
Proof.
  intros H. induction H as [n dec at_ Hn|e rs r rs' _ IH He Hl Hx|rs dec at_ n _ IH Hn]; [by apply reached_open| |by apply reached_other].
  apply (reached_read _ _ _ _ _ e rs r rs' IH He Hl). exact Hx.
Qed.

Section serve.
Context (lz4 : bytes -> bytes) (d : bytes -> bytes -> bytes * bool) (Hlz4 : lz4_roundtrips lz4 d) (Hd : lz4_in_place d).
Context (sums sums' : bool) (set : Settings) (key_base blk_base ts generation : Z) (opts : BlobOptions) (id_ : Z).
Context (Hset : settings_ok set) (Hcheck : verify_checksums opts = true -> sums = true) (Hbase : aligned blk_base BLK_HEADER = true).
Context (items : list (bytes * list bytes)) (Hputs : Forall put_ok (puts_of items)) (Hasc : ascending (map fst items)).

Lemma finished_ranges ets file : finished_file lz4 sums set key_base ts generation (puts_of items) ets file ->
  exists v S words es, sparse_open_ranges_via_opts (bytes_source file) (resident_directory opts) = Some (Ok v) /\
    sparse_fence_ranges_via_opts (bytes_source file) (resident_directory opts) = Some (Ok []) /\
    (forall src bits0, src_len src = Zlen file -> agree v (bytes_source file) src ->
      exists bits, open_sparse src blk_base opts id_ bits0 = Some (Ok (S, words), bits) /\ bits_for (sp S) bits) /\
    serves_ranges d sums' file blk_base S items es /\
    forall dec at_, not_ours (sp_blob S) at_ -> reached d (bytes_source file) (sp_blob S) blk_base sums' (reader_of words dec at_).
Proof.
  intros (header & rest & f & hd & ps & Bs & blk_off & Hsec & Hok & Hpl & Hps & Hg1 & Hg2 & Hg3 & Hat & page & Hp & Hl & Hpick & x & Hx & Hxt).
  assert (Zlen (puts_of items) = Zlen items) as Hn by (unfold puts_of; apply Zlen_map).
  assert (keys_of (puts_of items) = map fst items) as Hk by (unfold keys_of, puts_of; rewrite List.map_map; apply List.map_ext; by intros []).
  assert (Zlen ets = Zlen (puts_of items)) as Hle by (pose proof (Forall2_length _ _ _ Hpl) as Hf2; unfold Zlen; by rewrite Hf2).
  set (es := entries (st_compact_records set) (puts_of items) ets) in *. assert (map entry_key es = map fst items) as Hes by (unfold es; by rewrite entries_keys).
  assert (ascending (map entry_key es)) as Hasc' by by rewrite Hes. destruct (so_dict _ _ _ _ _ _ _ Hsec Hasc') as (offs & recs & Hdi & Hre & Hsm).
  edestruct (plan_made set key_base ts generation (puts_of items) ets opts) as (L' & v & HL & Hok' & Hw & Hm & Hv1 & Hv2); try eassumption.
  set (S := mkSparseBlob (index_made set opts header rest hd offs) (blob_made set ts opts id_ header rest hd ps Bs blk_off)).
  exists v, S, (words_made ps), es. split; [exact Hv1|]. split; [exact Hv2|]. split; [|split].
  - intros src bits0 Hlen Ha. eapply (open_made lz4 sums set key_base blk_base ts generation (puts_of items) ets opts id_); eassumption.
  - assert (index_of (sp S) (header ++ rest) es offs recs) as Hi by (eapply index_made_ok; eassumption).
    assert (there (bytes_source file) (si_off (sp S)) (header ++ rest)) as Hthere by (eapply there_file; eassumption).
    split; [|exact Hes|intros lo hi; by apply (index_serves file (sp S) (header ++ rest) es offs recs)|].
    + unfold sparse_keys. change (hd_nkeys (si_hdr (sp S))) with (hd_nkeys hd). rewrite (di_n _ _ _ _ _ Hdi), <- (Zlen_map entry_key), Hes. apply Zlen_map.
    + intros i k vals y tail rs Hit Hen Hrs. set (B0 := blob_of set ts opts id_ header rest f ps Bs blk_off).
      assert (get_at (puts_of items) i = Some (mkPut k vals false)) as Hput by (unfold puts_of; by rewrite get_at_map, Hit).
      destruct (get_at_is_Some ets i) as [et He]; [pose proof (get_at_lt _ _ _ Hput); lia|]. pose proof (entries_at (st_compact_records set) _ _ _ _ _ Hput He) as Hent.
      fold es in Hent. rewrite Hent in Hen. injection Hen as <- <-.
      assert (reached d (bytes_source file) B0 blk_base sums' rs) as Hrs0 by (eapply reached_same; exact Hrs).
      edestruct (put_reads lz4 d Hlz4 Hd sums sums' set blk_base ts (puts_of items) ets opts id_ Hset Hcheck file header rest f ps Bs blk_off) as (rs' & Hread & Hrs'); try eassumption.
      { eapply reached_ok; [|exact Hrs0]. eapply blob_sound; eassumption. }
      exists rs'. cbn [p_values] in Hread. split.
      * rewrite exts_read_deref. unfold read_exts in *. rewrite <- Hread. apply read_same.
      * destruct Hrs' as [->|(r & He1 & He2 & He3)]; [done|]. eapply reached_same. exact (reached_read _ _ _ _ _ _ _ _ _ Hrs0 He1 He2 He3).
  - intros dec at_ Hno. by apply reached_open.
Qed.
End serve.

(** C29: a segment is read without its index. For any input a segment can hold,
    in the records-first layout (an inline limit above zero), [write_sorted] makes a file whose head alone names everything the open of a
    reader that keeps the fence needs: one plan, and no second. Over any
    source that holds that plan's ranges, whatever it answers elsewhere, the
    open succeeds, with the same reader and the same words; and for any bounds
    the reader plans the directory's part, and from a source that holds it the
    records' part, and over a source that holds both the walk hands on the
    entries between the bounds, in order, until the callback stops it, and
    says how many; whichever of the section's pieces were checked before, and
    wherever the source puts the records, so long as the section lies aligned.
    The entries are the input's keys, each with a run that reads, from whatever
    state the blocks' reads before left, as the values put under it. *)
Theorem sparse_segment lz4 d sums sums' on compact look target ts bs im generation blk_base opts id_ items :
  lz4_roundtrips lz4 d -> lz4_in_place d -> (verify_checksums opts = true -> sums = true) ->
  0 < target -> 0 < bs < U32 -> 0 < im -> 0 <= generation < U64 -> 0 <= ts < U64 -> aligned blk_base BLK_HEADER = true -> items_ok im compact items ->
  exists file v S words es, let reserve := reserve_bytes (planned_reserve target bs im compact (map lens_of (puts_of items))) in
    write_sorted lz4 sums target ts bs im on compact look generation items = Some (Ok (reserve, file)) /\
    sparse_open_ranges_via_opts (bytes_source file) (resident_directory opts) = Some (Ok v) /\
    sparse_fence_ranges_via_opts (bytes_source file) (resident_directory opts) = Some (Ok []) /\
    (forall src bits0, src_len src = Zlen file -> agree v (bytes_source file) src ->
      exists bits, open_sparse src blk_base opts id_ bits0 = Some (Ok (S, words), bits) /\ bits_for (sp S) bits) /\
    serves_ranges d sums' file blk_base S items es /\
    forall dec at_, not_ours (sp_blob S) at_ -> reached d (bytes_source file) (sp_blob S) blk_base sums' (reader_of words dec at_).
Proof.
  intros Hl Hd Hc Ht Hbs Him Hg Hts Hba Hok.
  destruct (written_file lz4 sums on compact look target ts bs im generation 0 items) as (file & ets & Hw & Hset & Hf); try done.
  edestruct (finished_ranges lz4 d Hl Hd sums sums') as (v & S & words & es & Hx); try eassumption; [by eapply items_puts|by eapply it_keys|].
  exists file, v, S, words, es. split; [exact Hw|exact Hx].
Qed.

(** ** Three keys, at work *)

(** A source that holds the ranges of a plan and nothing else. *)
Definition fetched (v : list (Z * Z)) (src : Source) : Source :=
  mkSource (src_len src) (fun off len => if (len =? 0) || existsb (fun r => (fst r <=? off) && (off + len <=? fst r + snd r)) v then src_read src off len else None).

Lemma agree_fetched v src : agree v src (fetched v src).
Proof.
  intros off len H. cbn [fetched src_read]. assert ((len =? 0) || existsb (fun r => (fst r <=? off) && (off + len <=? fst r + snd r)) v = true) as ->; [|done].
  destruct H as [->|(_ & r & Hr & H1 & H2)]; [done|]. apply orb_true_iff. right. apply existsb_exists. exists r. split; [done|]. apply andb_true_iff. split; by apply Z.leb_le.
Qed.

Lemma fetched_part a b v src : v = a ++ b -> agree a src (fetched v src) /\ agree b src (fetched v src).
Proof.
  intros ->. split; intros off len [->|(H & r & Hr & H1)]; apply agree_fetched; [by left| |by left|]; right; (split; [done|]); exists r; (split; [apply in_or_app; auto|done]).
Qed.

Lemma sparse_segment_witness : exists file v S words bits p w es bits',
  write_sorted zero_compress true 16 7 32 4 true true true 1 three_items = Some (Ok (244, file)) /\
  open_sparse (fetched v (bytes_source file)) 0 blob_options_default 5 [] = Some (Ok (S, words), bits) /\
  dictionary_plan (sp S) [x62] None = Some p /\
  dictionary_walk (fetched (p ++ w) (bytes_source file)) (fun x => x - si_off (sp S)) (sp S) [x62] None (fun _ _ _ => true) bits = Some (Ok (es, Ok (Zlen es)), bits') /\
  map entry_key es = [[x62]; [x63]].
Proof.
  destruct (sparse_segment zero_compress zero_decompress true true true true true 16 7 32 4 1 0 blob_options_default 5 three_items)
    as (file & v & S & words & es & Hw & _ & _ & Ho & [_ Hes Hp _] & _);
    [exact zero_roundtrips|exact zero_in_place|done|lia|unfold U32; lia|lia|unfold U64; lia|unfold U64; lia|done|exact three_ok|].
  destruct (Ho (fetched v (bytes_source file)) [] eq_refl (agree_fetched _ _)) as (bits & Hopen & Hb).
  destruct (Hp [x62] None) as (p & w & Hpl & Hrest). destruct (fetched_part p w (p ++ w) (bytes_source file) eq_refl) as [Ha1 Ha2].
  destruct (Hrest _ Ha1) as [_ Hwalk]. destruct (Hwalk (fun x => x - si_off (sp S)) (fun _ _ _ => true) bits Ha2 Hb) as (bits' & Hrun & _).
  { intros x Hx. unfold is_aligned. replace (si_off (sp S) + x - si_off (sp S)) with x by lia. by apply Z.eqb_eq. }
  exists file, v, S, words, bits, p, w, (handed [x62] None (fun _ _ _ => true) es), bits'. split; [exact Hw|]. split; [exact Hopen|]. split; [exact Hpl|]. split; [exact Hrun|].
  rewrite handed_all, Hes. vm_compute. reflexivity.
Defined.
