(* ===== verification/StoreRead.v ===== *)
(** * A read of the store

    The read path of [src/src/db.rs]: how a state's segments are ordered
    ([seg_order], lines 5205 to 5211), which of its sources a point read consults
    ([State], [pieces_over], lines 13668 to 17953), what a handle sees of the live
    table ([enter]), and [Reader::read_all] and [Reader::count] over them: the
    partition whose fence holds the key, the level-0 pieces over it, the frozen
    tables and the live one, oldest first, from the newest tombstone on. Left out:
    the form files ([Options::zpages] off), prefetches, counters and advice. *)

From stdpp Require Import gmap.
From S2P Require Import Prelude State Varint Runs Crc Chunks BlockTable Records HashTable FlatIndex FlatRead FlatSection Reserve Superblock Blob BlobCache OrdIndex Fences Merge Names Bloom SegmentWriter SegmentHolds SegmentFinish SegmentRead Segment Inputs Compact CompactHolds CompactRun Seg Epochs Arena MemTable MemIndex MemHolds.

#[local] Open Scope Z_scope.
#[local] Open Scope state_scope.

(** ** The order of a state's segments *)

Definition cmp_then (c d : comparison) : comparison := match c with Eq => d | _ => c end.
(** [Option<Vec<u8>>] and [Vec<u8>] compare as bytes; a level above first. *)
Definition seg_order (a b : Seg) : comparison :=
  cmp_then (sg_level b ?= sg_level a) (cmp_then (bcmp (sg_lo a) (sg_lo b)) (cmp_then (sg_seq a ?= sg_seq b) (bcmp (sg_name a) (sg_name b)))).

(** [sort_by]: stable. *)
Fixpoint insert_by (x : Seg) (l : list Seg) : list Seg :=
  match l with
  | [] => [x]
  | y :: l => match seg_order x y with Gt => y :: insert_by x l | _ => x :: y :: l end
  end.
Definition sort_segs (l : list Seg) : list Seg := fold_right insert_by [] l.

(** [partition_point] of a slice. *)
Definition point {A} (p : A -> bool) (l : list A) : Z := bsearch (fun i => match get_at l i with Some x => p x | None => false end) 0 (Zlen l).

Definition is_part (s : Seg) : bool := 0 <? sg_level s.
Definition seg_fence (s : Seg) : Fence := (sg_lo s, sg_hi s).

Definition l0_aligned_of (segs : list Seg) : bool :=
  let np := Z.to_nat (point is_part segs) in
  let parts := take np segs in
  negb (Zlen parts =? 0) && forallb (fun s => existsb (fun p => fence_eqb (seg_fence p) (seg_fence s)) parts) (drop np segs).

Fixpoint tile_go (hi : option bytes) (parts : list Seg) : bool :=
  match parts with
  | [] => match hi with None => true | Some _ => false end
  | p :: parts =>
      match hi with Some h => beqb h (sg_lo p) | None => false end &&
      negb (match sg_hi p with Some h => bleb h (sg_lo p) | None => false end) && tile_go (sg_hi p) parts
  end.
Definition partitions_tile (segs : list Seg) : bool :=
  match List.filter is_part segs with
  | [] => true
  | first :: parts =>
      (Zlen (sg_lo first) =? 0) && negb (match sg_hi first with Some h => Zlen h =? 0 | None => false end) && tile_go (sg_hi first) parts
  end.

(** ** The state a reader reads *)

Record State := mkState { sa_segs : list Seg; sa_mem : MemTable; sa_frozen : list MemTable; sa_aligned : bool; sa_tombs : bool }.

(** The state of a publish: the segments in order, what is found of them once. *)
Definition state_of (segs : list Seg) (mem : MemTable) (frozen : list MemTable) : State :=
  let segs := sort_segs segs in mkState segs mem frozen (l0_aligned_of segs) (existsb sg_tombs segs).

Definition has_tombstones (st : State) : bool := sa_tombs st || (0 <? tombs (sa_mem st)) || existsb (fun f => 0 <? tombs f) (sa_frozen st).

(** The level-0 pieces a read of a key in partition [at_] consults, and the
    first one's place in the segments. *)
Definition pieces_over (st : State) (np at_ : Z) : Z * list Seg :=
  let l0 := drop (Z.to_nat np) (sa_segs st) in
  match (if negb (sa_aligned st) || (np <=? at_) then None else get_at (sa_segs st) at_) with
  | None => (np, l0)
  | Some p =>
      let lo := sg_lo p in
      let empty := Zlen lo =? 0 in
      let before s := negb empty && ((Zlen (sg_lo s) =? 0) || bltb (sg_lo s) lo) in
      let same s := Bool.eqb (Zlen (sg_lo s) =? 0) empty && (empty || beqb (sg_lo s) lo) in
      let from := point before l0 in
      let to := from + point same (drop (Z.to_nat from) l0) in
      (np + from, take (Z.to_nat (to - from)) (drop (Z.to_nat from) l0))
  end.

(** ** What a handle sees of the live table *)

Inductive Isolation := Latest | Snapshot | Dirty.
(** The entry count and the watermark of a read: a snapshot's and the writer's
    own are those it holds. *)
Definition enter (slot : bool) (iso : Isolation) (held : Z * Z) (mem : MemTable) : Z * Z :=
  if negb slot then held
  else match iso with
       | Snapshot => held
       | Latest => (m_len (committed_at mem), m_wm (committed_at mem))
       | Dirty => (ALL, SEE_ALL)
       end.

(** ** Where a key's live values start *)

(** [iter().enumerate().rev()] up to the first that holds. *)
Fixpoint first_such {A} (p : A -> option bool) (l : list (Z * A)) : option (option Z) :=
  match l with
  | [] => Some None
  | (i, x) :: l => b ← p x; if b : bool then Some (Some i) else first_such p l
  end.
Fixpoint enumerate {A} (i : Z) (l : list A) : list (Z * A) := match l with [] => [] | x :: l => (i, x) :: enumerate (i + 1) l end.
Definition last_such {A} (p : A -> option bool) (l : list A) : option (option Z) := first_such p (rev (enumerate 0 l)).

Definition entry_tomb (t : MemTable) (found : option Entry) (wm : Z) : option bool :=
  match found with Some e => has_tomb t e wm | None => Some false end.

Section read.
Context (env : Env).
Context (by_value via_ord : bool).
Local Abbreviation kb := (ev_key_base env).
Local Abbreviation bb := (ev_blk_base env).

Definition piece_tomb (key : bytes) (s : Seg) : option bool :=
  if negb (sg_tombs s) then Some false
  else m ← may_hold s key;
    if negb m then Some false
    else Some (match blob_lookup (sg_blob s) kb key with Some exts => existsb is_tombstone (exts_deref exts) | None => false end).

Definition frozen_tomb (key : bytes) (t : MemTable) : option bool := found ← get t key ALL; entry_tomb t found SEE_ALL.

(** The source live values begin at: 0 unless a newer one ends the key's. *)
Definition live_start (st : State) (bound : Z * Z) (hash : Z) (key : bytes) (l0 : list Seg) : option Z :=
  let fr_ix := 1 + Zlen l0 in
  let mem_ix := fr_ix + Zlen (sa_frozen st) in
  if negb (has_tombstones st) then Some 0
  else
    start ← (if len (sa_mem st) =? 0 then Some 0
             else found ← get_with (sa_mem st) hash key (fst bound);
                  b ← entry_tomb (sa_mem st) found (snd bound);
                  Some (if b : bool then mem_ix else 0));
    start ← (if start =? 0 then r ← last_such (frozen_tomb key) (sa_frozen st); Some (match r with Some i => fr_ix + i | None => 0 end) else Some start);
    if start =? 0 then r ← last_such (piece_tomb key) l0; Some (match r with Some i => 1 + i | None => 0 end) else Some start.

(** ** The values *)

(** Values handed on, and how many or what failed. *)
Local Abbreviation Out := (list bytes * result Z)%type.
Definition also (m k : SM Reads Out) : SM Reads Out :=
  do* (vs, r) := m in
  match r with
  | Err e => ret (vs, Err e)
  | Ok n => do* (vs', r') := k in ret (vs ++ vs', let* n' := r' in Ok (n + n'))
  end.
Definition nothing : SM Reads Out := ret ([], Ok 0).

Definition seg_err (r : result Z) : result Z := match r with Err e => Err ("segment read: " ++ e)%string | Ok n => Ok n end.

(** A segment's values, by its place among the segments. *)
Definition seg_read (i : Z) (s : Seg) (key : bytes) : SM Reads Out :=
  do* (vs, r) := reader_at i ((if by_value then read_all_by_value else read_all) (ev_unlz4 env) (bytes_source (sg_file s)) (sg_blob s) kb bb (ev_sums env) key) in
  ret (vs, seg_err r).

(** The partition through its ordered index, where it can answer. *)
Definition part_via_ord (i : Z) (s : Seg) (key : bytes) : SM Reads (option Out) :=
  if negb (is_uniform (sg_ord s)) then ret None
  else
    let at_ := key_at (blob_idx (sg_blob s)) (key_sec (sg_blob s)) in
    let '(rank, exact) := seek_exact (sg_ord s) at_ key in
    match exact with
    | Some false => ret (Some ([], Ok 0))
    | Some true =>
        if match at_ rank with Some k => beqb k key | None => false end then
          do* (vs, r) := reader_at i (values_at (ev_unlz4 env) (bytes_source (sg_file s)) (sg_blob s) kb bb (ev_sums env) rank) in
          ret (Some (vs, seg_err r))
        else ret None
    | None => ret None
    end.

Definition read_part (i : Z) (s : Seg) (key : bytes) : SM Reads Out :=
  do* served := (if via_ord then part_via_ord i s key else ret None) in
  match served with Some out => ret out | None => seg_read i s key end.

Fixpoint read_pieces (key : bytes) (start base i : Z) (l0 : list Seg) : SM Reads Out :=
  match l0 with
  | [] => nothing
  | s :: l0 =>
      if 1 + i <? start then read_pieces key start base (i + 1) l0
      else
        do* m := expect (may_hold s key) in
        if m then also (seg_read (base + i) s key) (read_pieces key start base (i + 1) l0) else read_pieces key start base (i + 1) l0
  end.

Definition live_of (t : MemTable) (found : option Entry) (wm : Z) : option Out :=
  match found with
  | None => Some ([], Ok 0)
  | Some e => '(offs, _) ← live_chain t e wm; vs ← mapM (value_at t) offs; Some (vs, Ok (Zlen offs))
  end.

Fixpoint read_frozen (key : bytes) (start fr_ix i : Z) (frozen : list MemTable) : SM Reads Out :=
  match frozen with
  | [] => nothing
  | t :: frozen =>
      if fr_ix + i <? start then read_frozen key start fr_ix (i + 1) frozen
      else also (expect (found ← get t key ALL; live_of t found SEE_ALL)) (read_frozen key start fr_ix (i + 1) frozen)
  end.

(** The partition the key is in, where it may hold it. *)
Definition part_at (st : State) (np at_ : Z) (key : bytes) : option (option Seg) :=
  match get_at (take (Z.to_nat np) (sa_segs st)) at_ with
  | None => Some None
  | Some s => m ← may_hold s key; Some (if m : bool then Some s else None)
  end.
Definition part_point (st : State) (np : Z) (key : bytes) : Z := point (fun s => past key (sg_hi s)) (take (Z.to_nat np) (sa_segs st)).

Definition read_all (st : State) (bound : Z * Z) (key : bytes) : SM Reads Out :=
  let mem_empty := len (sa_mem st) =? 0 in
  let hash := if mem_empty then 0 else mem_hash key in
  let np := point is_part (sa_segs st) in
  let at_ := part_point st np key in
  do* part := expect (part_at st np at_ key) in
  let '(base, l0) := pieces_over st np at_ in
  let fr_ix := 1 + Zlen l0 in
  let mem_ix := fr_ix + Zlen (sa_frozen st) in
  do* start := expect (live_start st bound hash key l0) in
  also (match part with Some s => if start =? 0 then read_part at_ s key else nothing | None => nothing end)
    (also (read_pieces key start base 0 l0)
      (also (read_frozen key start fr_ix 0 (sa_frozen st))
        (if (start <=? mem_ix) && negb mem_empty then
           expect (found ← get_with (sa_mem st) hash key (fst bound); live_of (sa_mem st) found (snd bound))
         else nothing))).

(** ** Counts *)

Fixpoint count_pieces (key : bytes) (start i : Z) (l0 : list Seg) : option Z :=
  match l0 with
  | [] => Some 0
  | s :: l0 =>
      n ← (if 1 + i <? start then Some 0 else m ← may_hold s key; Some (if m : bool then Blob.count (sg_blob s) kb key else 0));
      rest ← count_pieces key start (i + 1) l0;
      Some (n + rest)
  end.

Fixpoint count_frozen (key : bytes) (start fr_ix i : Z) (frozen : list MemTable) : option Z :=
  match frozen with
  | [] => Some 0
  | t :: frozen =>
      n ← (if fr_ix + i <? start then Some 0 else found ← get t key ALL; Some (match found with Some e => n_count e | None => 0 end));
      rest ← count_frozen key start fr_ix (i + 1) frozen;
      Some (n + rest)
  end.

Definition count (st : State) (bound : Z * Z) (key : bytes) : option Z :=
  let mem_empty := len (sa_mem st) =? 0 in
  let hash := if mem_empty then 0 else mem_hash key in
  let np := point is_part (sa_segs st) in
  let at_ := part_point st np key in
  part ← part_at st np at_ key;
  let l0 := snd (pieces_over st np at_) in
  let fr_ix := 1 + Zlen l0 in
  let mem_ix := fr_ix + Zlen (sa_frozen st) in
  start ← live_start st bound hash key l0;
  let a := match part with Some s => if start =? 0 then Blob.count (sg_blob s) kb key else 0 | None => 0 end in
  b ← count_pieces key start 0 l0;
  c ← count_frozen key start fr_ix 0 (sa_frozen st);
  d ← (if (start <=? mem_ix) && negb mem_empty then
         found ← get_with (sa_mem st) hash key (fst bound);
         match found with Some e => '(offs, _) ← live_chain (sa_mem st) e (snd bound); Some (Zlen offs) | None => Some 0 end
       else Some 0);
  Some (a + b + c + d).
End read.
