(* ===== verification/StoreHolds.v ===== *)
(** * What a read of the store answers

    The read path of [StoreRead] against what the sources hold: the search for
    the partition and for the run of aligned pieces over a key, the newest
    tombstone, and the values from it on, read and counted. *)

From stdpp Require Import gmap.
From Stdlib Require Import Sorting.Sorted.
From S2P Require Import Prelude State Varint Runs Crc Chunks BlockTable Records HashTable FlatIndex FlatRead FlatSection Reserve Superblock Blob BlobCache OrdIndex Fences Merge Names Bloom SegmentWriter SegmentHolds SegmentFinish SegmentRead Segment Inputs Compact CompactHolds CompactRun Seg Epochs Arena MemTable MemIndex MemHolds StoreRead.

#[local] Open Scope Z_scope.
#[local] Open Scope state_scope.

#[local] Abbreviation Put := SegmentHolds.Put.

(** ** The newest of a list *)

Fixpoint last_true (i : Z) (bs : list bool) : option Z :=
  match bs with [] => None | b :: bs => match last_true (i + 1) bs with Some j => Some j | None => if b then Some i else None end end.

Lemma last_true_app i a b : last_true i (a ++ b) = match last_true (i + Zlen a) b with Some j => Some j | None => last_true i a end.
Proof.
  revert i. induction a as [|x a IH]; intros i; cbn [app last_true].
  - rewrite (@Zlen_nil bool), Z.add_0_r. by destruct (last_true i b).
  - rewrite IH, Zlen_cons. replace (i + 1 + Zlen a) with (i + (1 + Zlen a)) by lia. replace (1 + Zlen a) with (Zlen a + 1) by lia.
    by destruct (last_true (i + (Zlen a + 1)) b).
Qed.

Lemma last_true_shift i n bs : last_true (i + n) bs = Z.add n <$> last_true i bs.
Proof.
  revert i. induction bs as [|b bs IH]; intros i; cbn [last_true]; [done|]. replace (i + n + 1) with (i + 1 + n) by lia. rewrite IH.
  destruct (last_true (i + 1) bs); [done|]. destruct b; cbn; [|done]. f_equal. lia.
Qed.

Lemma last_true_from n bs : last_true n bs = Z.add n <$> last_true 0 bs.
Proof. exact (last_true_shift 0 n bs). Qed.

Lemma last_true_none i bs : Forall (fun b => b = false) bs -> last_true i bs = None.
Proof. intros H. revert i. induction H as [|b bs -> _ IH]; intros i; [done|]. cbn [last_true]. by rewrite IH. Qed.

Lemma last_true_range i bs j : last_true i bs = Some j -> i <= j < i + Zlen bs.
Proof.
  revert i. induction bs as [|b bs IH]; intros i; cbn [last_true]; [done|]. rewrite Zlen_cons. pose proof (Zlen_nonneg bs).
  destruct (last_true (i + 1) bs) as [k|] eqn:E; [intros [= <-]; apply IH in E; lia|]. destruct b; [|done]. intros [= <-]. lia.
Qed.

Lemma enumerate_app {A} i (a b : list A) : enumerate i (a ++ b) = enumerate i a ++ enumerate (i + Zlen a) b.
Proof.
  revert i. induction a as [|x a IH]; intros i; cbn [app enumerate]; [by rewrite (@Zlen_nil A), Z.add_0_r|]. rewrite IH, Zlen_cons. do 3 f_equal. lia.
Qed.

Lemma last_such_true {A} (p : A -> option bool) l bs : Forall2 (fun x b => p x = Some b) l bs -> last_such p l = Some (last_true 0 bs).
Proof.
  intros H. unfold last_such. revert bs H. induction l as [|x l IH] using rev_ind; intros bs H.
  - by inversion H.
  - apply Forall2_app_inv_l in H as (b1 & b2 & H1 & H2 & ->). apply Forall2_cons_inv_l in H2 as (b & ? & Hb & Hn & ->). inversion Hn; subst.
    rewrite enumerate_app, rev_app_distr. cbn [enumerate rev app first_such]. rewrite Hb. cbn [mbind option_bind].
    rewrite last_true_app. cbn [last_true]. assert (Zlen b1 = Zlen l) as -> by (unfold Zlen; by rewrite (Forall2_length _ _ _ H1)).
    destruct b; [done|]. by apply IH.
Qed.

(** ** From the newest tombstone on *)

Definition tomb_in (o : option Put) : bool := match o with Some p => p_tomb p | None => false end.
Definition vals_in (o : option Put) : list bytes := match o with Some p => p_values p | None => [] end.

(** What a tombstone ends, for [existsb] ([any_tomb] of [CompactRun]). *)
Lemma since_none vs : existsb p_tomb vs = false -> since_tomb vs = vs.
Proof. apply since_all. Qed.

Lemma tombs_in (S : list (option Put)) : existsb p_tomb (omap id S) = existsb tomb_in S.
Proof. induction S as [|[p|] S IH]; cbn; [done|by rewrite <- IH|done]. Qed.

Lemma concat_vals (S : list (option Put)) : concat (map p_values (omap id S)) = concat (map vals_in S).
Proof. induction S as [|[p|] S IH]; cbn; [done|by rewrite <- IH|done]. Qed.

Lemma omap_said {A} (f : A -> option Put) l : omap f l = omap id (map f l).
Proof. induction l as [|x l IH]; [done|]. cbn. destruct (f x); cbn; by rewrite IH. Qed.

(** The values from the newest source with a tombstone on, where the first
    has none. *)
Lemma live_from (o : option Put) (S : list (option Put)) : tomb_in o = false ->
  live_values (omap id (o :: S)) = concat (map vals_in (drop (Z.to_nat (default 0 (last_true 0 (map tomb_in (o :: S))))) (o :: S))).
Proof.
  intros Ho. assert (forall (T : list (option Put)) (i : Z), exists pre post, T = pre ++ post /\ existsb tomb_in (drop 1 post) = false /\
    (existsb tomb_in T = true -> exists x, post !! 0%nat = Some x /\ tomb_in x = true) /\ (existsb tomb_in T = false -> pre = []) /\
    last_true i (map tomb_in T) = if existsb tomb_in T then Some (i + Zlen pre) else None) as H.
  { induction T as [|x T IH]; intros i; [by exists [], []|]. destruct (IH (i + 1)) as (pre & post & -> & H1 & H2 & H3 & H4). cbn [map last_true existsb]. rewrite H4.
    destruct (existsb tomb_in (pre ++ post)) eqn:E.
    - exists (x :: pre), post. rewrite orb_true_r. split_and!; [done|done|intros _; by apply H2|done|]. f_equal. rewrite Zlen_cons. lia.
    - specialize (H3 eq_refl). subst pre. exists [], (x :: post). rewrite orb_false_r. split_and!; [done|done|by exists x|done|].
      rewrite (@Zlen_nil (option Put)), Z.add_0_r. by destruct (tomb_in x). }
  destruct (H (o :: S) 0) as (pre & post & E & H1 & H2 & H3 & ->). unfold live_values. rewrite E in *. destruct (existsb tomb_in (pre ++ post)) eqn:Et.
  - change (default 0 (Some (0 + Zlen pre))) with (0 + Zlen pre). rewrite Z.add_0_l, Zlen_to_nat, drop_app_length. rewrite omap_app. destruct (H2 eq_refl) as (x & Hx & Htx).
    destruct post as [|y post]; [done|]. cbn in Hx. injection Hx as ->. cbn [drop] in H1. rewrite drop_0 in H1. rewrite since_app. unfold any_tomb. rewrite tombs_in. cbn [existsb]. rewrite Htx. cbn [orb].
    destruct x as [p|]; [|done]. change (omap id (Some p :: post)) with (p :: omap id post). cbn [since_tomb]. rewrite tombs_in, H1.
    change (p :: omap id post) with (omap id (Some p :: post)). by rewrite concat_vals.
  - rewrite (H3 eq_refl). change (default 0 None) with 0. rewrite drop_0, since_none; [by rewrite concat_vals|]. rewrite tombs_in. by rewrite (H3 eq_refl) in Et.
Qed.

(** ** Where a key is *)

Lemma point_at {A} (p : A -> bool) l i : 0 <= i <= Zlen l -> (forall j x, j < i -> get_at l j = Some x -> p x = true) ->
  (forall j x, i <= j -> get_at l j = Some x -> p x = false) -> point p l = i.
Proof.
  intros Hi Hlt Hge. apply bsearch_point; [done| |]; intros j Hj; destruct (get_at_is_Some l j) as [x Hx]; [lia| |lia|]; rewrite Hx.
  - eapply Hlt; [|done]. lia.
  - eapply Hge; [|done]. lia.
Qed.

Lemma point_app {A} (p : A -> bool) a b : Forall (fun x => p x = true) a -> Forall (fun x => p x = false) b -> point p (a ++ b) = Zlen a.
Proof.
  intros Ha Hb. rewrite Forall_lookup in Ha, Hb. pose proof (Zlen_nonneg a). pose proof (Zlen_nonneg b). apply point_at; [rewrite Zlen_app; lia| |]; intros j x Hj [Hz Hx]%get_at_Some.
  - rewrite lookup_app_l in Hx by (unfold Zlen in Hj; lia). by eapply Ha.
  - rewrite lookup_app_r in Hx by (unfold Zlen in Hj; lia). by eapply Hb.
Qed.

Lemma tile_above m gl hi k : tile m gl hi -> Forall fence_ok gl -> blt k m -> Forall (fun g => blt k (fst g) /\ past k (snd g) = false) gl.
Proof.
  revert m. induction gl as [|g gl IH]; intros m Ht Hok Hk; [done|]. cbn [tile] in Ht. destruct Ht as [<- Ht]. apply Forall_cons in Hok as [Hg Hok]. constructor.
  - split; [done|]. apply past_spec. unfold fence_ok in Hg. destruct (snd g) as [h|]; [|done]. eauto with border.
  - destruct gl as [|g' gl]; [constructor|]. destruct Ht as (m' & Hm & Ht). unfold fence_ok in Hg. rewrite Hm in Hg. apply (IH m'); [done..|]. eauto with border.
Qed.

(** Of ranges end to end, the one a key is in. *)
Lemma tile_at lo gl k : tile lo gl None -> Forall fence_ok gl -> ble lo k -> exists i f, gl !! i = Some f /\ in_fence k f /\
  (forall j g, (j < i)%nat -> gl !! j = Some g -> past k (snd g) = true) /\
  (forall j g, (i < j)%nat -> gl !! j = Some g -> past k (snd g) = false /\ blt k (fst g)).
Proof.
  revert lo. induction gl as [|g gl IH]; intros lo Ht Hok Hk; [done|]. cbn [tile] in Ht. destruct Ht as [<- Ht]. apply Forall_cons in Hok as [Hg Hok].
  assert ((exists m, snd g = Some m /\ tile m gl None) \/ (snd g = None /\ gl = [])) as [(m & Hm & Htm)|[Hn ->]] by (destruct gl; [by right|by left]).
  - destruct (blt_or_le k m) as [Hlt|Hge].
    + exists 0%nat, g. split; [done|]. split; [split; [done|by rewrite Hm]|]. split; [intros; lia|]. intros [|j] x Hj Hx; [lia|].
      pose proof (tile_above _ _ _ _ Htm Hok Hlt) as Hall. rewrite Forall_lookup in Hall. apply and_comm. by eapply Hall.
    + destruct (IH m Htm Hok Hge) as (i & f & H1 & H2 & H3 & H4). exists (S i), f. split; [done|]. split; [done|]. split.
      * intros [|j] x Hj Hx; [|eapply H3; [|exact Hx]; lia]. injection Hx as <-. rewrite Hm. cbn [past]. by destruct (bleb_spec m k).
      * intros [|j] x Hj Hx; [lia|]. eapply H4; [|exact Hx]. lia.
  - exists 0%nat, g. split; [done|]. split; [split; [done|by rewrite Hn]|]. split; [intros; lia|]. intros [|j] x ? ?; [lia|done].
Qed.

Lemma tile_go_tile hi parts : tile_go hi parts = true -> match hi with Some h => parts <> [] /\ tile h (map seg_fence parts) None | None => parts = [] end.
Proof.
  revert hi. induction parts as [|p parts IH]; intros hi H; cbn [tile_go] in H; [by destruct hi|].
  apply andb_true_iff in H as [[Hh Hp]%andb_true_iff H]. destruct hi as [h|]; [|done]. destruct (beqb_spec h (sg_lo p)) as [E|]; [|done]. subst h. split; [done|].
  apply IH in H. cbn [map tile]. split; [done|]. cbn [seg_fence snd]. destruct (sg_hi p) as [h|]; [|by subst parts].
  destruct H as [Hne H]. destruct parts as [|q parts]; [done|]. by exists h.
Qed.

Lemma tile_go_ok hi parts : tile_go hi parts = true -> Forall fence_ok (map seg_fence parts).
Proof.
  revert hi. induction parts as [|p parts IH]; intros hi H; cbn [tile_go map] in *; [constructor|]. apply andb_true_iff in H as [[_ Hp]%andb_true_iff H].
  constructor; [|by eapply IH]. unfold fence_ok. cbn [seg_fence fst snd]. destruct (sg_hi p) as [h|]; [|done]. destruct (bleb_spec h (sg_lo p)) as [|Hn]; [done|].
  destruct (blt_or_le (sg_lo p) h); [done|contradiction].
Qed.

Lemma parts_tile parts : Forall (fun s => is_part s = true) parts -> parts <> [] -> partitions_tile parts = true ->
  tile [] (map seg_fence parts) None /\ Forall fence_ok (map seg_fence parts).
Proof.
  intros Hp Hne. unfold partitions_tile. assert (List.filter is_part parts = parts) as ->.
  { clear Hne. induction Hp as [|s parts Hs _ IH]; [done|]. cbn [List.filter]. by rewrite Hs, IH. }
  destruct parts as [|p parts]; [done|]. intros [[Hlo Hhi]%andb_true_iff H]%andb_true_iff. apply Z.eqb_eq, Zlen_zero_nil in Hlo. split.
  - apply tile_go_tile in H. cbn [map tile]. split; [done|]. cbn [seg_fence snd]. destruct (sg_hi p) as [h|]; [|by subst parts].
    destruct H as [Hn H]. destruct parts as [|q parts]; [done|]. by exists h.
  - constructor; [|by eapply tile_go_ok]. unfold fence_ok. cbn [seg_fence fst snd]. rewrite Hlo. destruct (sg_hi p) as [[|x h]|]; done.
Qed.

(** ** The segments in order *)

(** A comparison that is a total order's, but that it may take two for one. *)
Record cmp_ok {A} (c : A -> A -> comparison) : Prop := {
  co_opp : forall a b, c b a = CompOpp (c a b);
  co_trans : forall a b d, c a b <> Gt -> c b d <> Gt -> c a d <> Gt;
  co_eq : forall a b d, c a b = Eq -> c a d = c b d
}.

Lemma cmp_ok_then {A} (c d : A -> A -> comparison) : cmp_ok c -> cmp_ok d -> cmp_ok (fun a b => cmp_then (c a b) (d a b)).
Proof.
  intros [O1 T1 E1] [O2 T2 E2]. split.
  - intros a b. rewrite (O1 a b), (O2 a b). by destruct (c a b).
  - intros x y z. unfold cmp_then. intros H1 H2. destruct (c x y) eqn:Exy; [| |done].
    + rewrite (E1 _ _ z Exy). destruct (c y z); [by eapply T2|done..].
    + destruct (c x z) eqn:Exz; [|done|].
      * pose proof (E1 _ _ y Exz) as H. rewrite Exy, (O1 y z) in H. by destruct (c y z).
      * exfalso. apply (T1 x y z); [by rewrite Exy| |done]. intros Hg. by rewrite Hg in H2.
  - intros x y z. unfold cmp_then. destruct (c x y) eqn:E; [|done..]. intros H. rewrite (E1 _ _ z E). destruct (c y z); [|done..]. by apply E2.
Qed.

Lemma cmp_ok_z {A} (f : A -> Z) : cmp_ok (fun a b => f a ?= f b).
Proof.
  split.
  - intros a b. apply Z.compare_antisym.
  - intros a b d. apply Z.le_trans.
  - intros a b d H%Z.compare_eq. by rewrite H.
Qed.

Lemma cmp_ok_bytes {A} (f : A -> bytes) : cmp_ok (fun a b => bcmp (f a) (f b)).
Proof.
  split.
  - intros a b. apply bcmp_antisym.
  - intros a b d. apply ble_trans.
  - intros a b d H%bcmp_eq. by rewrite H.
Qed.

Lemma cmp_ok_flip {A} (c : A -> A -> comparison) : cmp_ok c -> cmp_ok (fun a b => c b a).
Proof.
  intros [O T E]. split; [intros a b; apply O|intros a b d H1 H2; by eapply T|]. intros a b d H. rewrite (O a d), (O b d). f_equal.
  symmetry. by apply E.
Qed.

Lemma seg_order_ok : cmp_ok seg_order.
Proof.
  apply cmp_ok_then; [apply (cmp_ok_flip (fun a b => sg_level a ?= sg_level b)), cmp_ok_z|]. apply cmp_ok_then; [apply cmp_ok_bytes|].
  apply cmp_ok_then; [apply cmp_ok_z|apply cmp_ok_bytes].
Qed.

Definition seg_le (a b : Seg) : Prop := seg_order a b <> Gt.

Lemma insert_by_perm x l : insert_by x l ≡ₚ x :: l.
Proof. induction l as [|y l IH]; cbn [insert_by]; [done|]. destruct (seg_order x y); [done..|]. rewrite IH. by constructor. Qed.

Lemma sort_segs_perm l : sort_segs l ≡ₚ l.
Proof. induction l as [|x l IH]; [done|]. change (sort_segs (x :: l)) with (insert_by x (sort_segs l)). by rewrite insert_by_perm, IH. Qed.

Lemma insert_by_sorted x l : StronglySorted seg_le l -> StronglySorted seg_le (insert_by x l).
Proof.
  induction 1 as [|y l Hs IH Hall]; cbn [insert_by]; [by repeat constructor|]. unfold seg_le in *. destruct (seg_order x y) eqn:E.
  1, 2: constructor; [by constructor|]; constructor; [by rewrite E|]; eapply Forall_impl; [exact Hall|]; intros z Hz;
    eapply (co_trans _ seg_order_ok); [|exact Hz]; by rewrite E.
  constructor; [done|]. rewrite insert_by_perm. constructor; [|done]. rewrite (co_opp _ seg_order_ok), E. done.
Qed.

Lemma sort_segs_sorted l : StronglySorted seg_le (sort_segs l).
Proof. induction l as [|x l IH]; [constructor|]. by apply insert_by_sorted. Qed.

Lemma seg_le_lo a b : seg_le a b -> sg_level a = sg_level b -> ble (sg_lo a) (sg_lo b).
Proof. unfold seg_le, seg_order, ble. intros H E. rewrite E, Z.compare_refl in H. cbn in H. by destruct (bcmp (sg_lo a) (sg_lo b)). Qed.

Lemma seg_le_level a b : seg_le a b -> sg_level b <= sg_level a.
Proof. unfold seg_le, seg_order. intros H. destruct (Z.compare_spec (sg_level b) (sg_level a)); cbn in H; [lia|lia|done]. Qed.

Lemma sorted_lookup (R : Seg -> Seg -> Prop) l i j a b : StronglySorted R l -> l !! i = Some a -> l !! j = Some b -> (i < j)%nat -> R a b.
Proof.
  intros Hs. revert i j. induction Hs as [|x l _ IH Hall]; intros i j Hi Hj Hij; [done|]. destruct j as [|j]; [lia|]. destruct i as [|i]; cbn in Hi, Hj.
  - injection Hi as ->. rewrite Forall_forall in Hall. apply Hall. by eapply list_elem_of_lookup_2.
  - eapply IH; [exact Hi|exact Hj|lia].
Qed.

(** Partitions first, and both by lower fence. *)
Lemma sorted_layout l : StronglySorted seg_le l -> Forall (fun s => sg_level s = 0 \/ sg_level s = 1) l ->
  exists parts pieces, l = parts ++ pieces /\ Forall (fun s => sg_level s = 1) parts /\ Forall (fun s => sg_level s = 0) pieces /\
    StronglySorted (fun a b => ble (sg_lo a) (sg_lo b)) pieces.
Proof.
  induction 1 as [|s l Hs IH Hall]; intros Hl; [exists [], []; repeat constructor|]. apply Forall_cons in Hl as [Hsl Hl].
  destruct (IH Hl) as (parts & pieces & -> & H1 & H2 & H3). apply Forall_app in Hall as [Ha Hb]. destruct Hsl as [E|E].
  - assert (parts = []) as ->. { destruct parts as [|p parts]; [done|]. apply Forall_cons in Ha as [Ha _], H1 as [H1 _]. apply seg_le_level in Ha. lia. }
    exists [], (s :: pieces). split; [done|]. split; [done|]. split; [by constructor|]. constructor; [done|]. rewrite Forall_forall in *. intros x Hx.
    apply seg_le_lo; [by apply Hb|]. rewrite E. symmetry. by apply H2.
  - exists (s :: parts), pieces. split; [done|]. split; [by constructor|]. by split.
Qed.

(** ** The pieces over a key *)

Lemma split_by_lo (lo : bytes) (l : list Seg) : StronglySorted (fun a b => ble (sg_lo a) (sg_lo b)) l ->
  exists a b c, l = a ++ b ++ c /\ Forall (fun s => blt (sg_lo s) lo) a /\ Forall (fun s => sg_lo s = lo) b /\ Forall (fun s => blt lo (sg_lo s)) c.
Proof.
  induction 1 as [|s l Hs (a & b & c & -> & H1 & H2 & H3) Hall]; [exists [], [], []; repeat constructor|].
  destruct (blt_or_le (sg_lo s) lo) as [Hlt|Hle]; [exists (s :: a), b, c; repeat constructor; done|].
  apply Forall_app in Hall as [Ha Hbc]. assert (a = []) as ->.
  { destruct a as [|x a]; [done|]. apply Forall_cons in Ha as [Ha _], H1 as [H1 _]. exfalso. apply (blt_irrefl lo). eauto with border. }
  apply ble_cases in Hle as [Hlt| ->]; [|exists [], (s :: b), c; repeat constructor; done].
  assert (b = []) as ->. { destruct b as [|x b]; [done|]. apply Forall_app in Hbc as [[Hb _]%Forall_cons _]. apply Forall_cons in H2 as [H2 _]. exfalso. rewrite H2 in Hb. apply (blt_irrefl lo). eauto with border. }
  exists [], [], (s :: c). repeat constructor; done.
Qed.

Lemma point_all_false {A} (p : A -> bool) l : Forall (fun x => p x = false) l -> point p l = 0.
Proof. intros H. by rewrite <- (app_nil_l l), point_app. Qed.

Lemma empty_lo (b : bytes) : (Zlen b =? 0) = beqb b [].
Proof. destruct b as [|x b]; [done|]. cbn [beqb]. apply Z.eqb_neq. rewrite Zlen_cons. pose proof (Zlen_nonneg b). lia. Qed.

Section layout.
Context (st : State) (parts pieces : list Seg).
Context (Hst : sa_segs st = parts ++ pieces).
Context (Hp1 : Forall (fun s => sg_level s = 1) parts) (Hp0 : Forall (fun s => sg_level s = 0) pieces).
Context (Hlo : StronglySorted (fun a b => ble (sg_lo a) (sg_lo b)) pieces).

Lemma parts_are : Forall (fun s => is_part s = true) parts.
Proof using Hp1. eapply Forall_impl; [exact Hp1|]. intros s E. unfold is_part. by rewrite E. Qed.
Lemma pieces_are : Forall (fun s => is_part s = false) pieces.
Proof using Hp0. eapply Forall_impl; [exact Hp0|]. intros s E. unfold is_part. by rewrite E. Qed.

Lemma parts_count : point is_part (sa_segs st) = Zlen parts.
Proof using Hst Hp1 Hp0. rewrite Hst. apply point_app; [apply parts_are|apply pieces_are]. Qed.

Lemma parts_taken : take (Z.to_nat (Zlen parts)) (sa_segs st) = parts.
Proof using Hst. rewrite Hst, Zlen_to_nat. apply take_app_length. Qed.
Lemma pieces_left : drop (Z.to_nat (Zlen parts)) (sa_segs st) = pieces.
Proof using Hst. rewrite Hst, Zlen_to_nat. apply drop_app_length. Qed.

Lemma filter_parts : List.filter is_part (sa_segs st) = parts.
Proof using Hst Hp1 Hp0.
  rewrite Hst. pose proof parts_are as H1. pose proof pieces_are as H0. clear Hst Hp1 Hp0. induction H1 as [|s l Hs _ IH]; cbn [app List.filter].
  - clear -H0. induction H0 as [|s l Hs _ IH]; [done|]. cbn [List.filter]. by rewrite Hs.
  - by rewrite Hs, IH.
Qed.

(** The one partition whose fence has the key, where there are any. *)
Lemma part_found k : partitions_tile (sa_segs st) = true ->
  let at_ := part_point st (Zlen parts) k in 0 <= at_ <= Zlen parts /\ (parts <> [] -> at_ < Zlen parts) /\
  (forall s, get_at parts at_ = Some s -> in_fence k (seg_fence s)) /\
  forall j s, get_at parts j = Some s -> in_fence k (seg_fence s) -> j = at_.
Proof using Hst Hp1 Hp0.
  intros Ht. unfold part_point. rewrite parts_taken. assert (partitions_tile parts = true) as Ht'.
  { unfold partitions_tile in *. rewrite filter_parts in Ht. assert (List.filter is_part parts = parts) as ->; [|done].
    pose proof parts_are as H1. clear -H1. induction H1 as [|s l Hs _ IH]; [done|]. cbn [List.filter]. by rewrite Hs, IH. }
  clear Ht. pose proof (Zlen_nonneg parts). destruct (decide (parts = [])) as [E|Hne].
  - rewrite E. cbn. split; [done|]. split; [done|]. split; [done|]. intros j s [_ Hs]%get_at_Some. done.
  - destruct (parts_tile parts parts_are Hne Ht') as [Htile Hok]. destruct (tile_at [] (map seg_fence parts) k Htile Hok (ble_nil k)) as (i & f & Hi & Hin & Hlt & Hgt).
    rewrite list_lookup_fmap in Hi. destruct (parts !! i) as [s|] eqn:Es; [|done]. injection Hi as <-.
    assert (i < length parts)%nat as Hlen by (by eapply lookup_lt_Some).
    assert (point (fun s => past k (sg_hi s)) parts = Z.of_nat i) as ->.
    { apply point_at; [unfold Zlen; lia| |]; intros j x Hj [Hz Hx]%get_at_Some.
      - apply (Hlt (Z.to_nat j) (seg_fence x)); [lia|]. by rewrite list_lookup_fmap, Hx.
      - destruct (decide (Z.to_nat j = i)) as [Eji|Hji]; [rewrite Eji, Es in Hx; injection Hx as <-; apply past_spec, Hin|].
        apply (Hgt (Z.to_nat j) (seg_fence x)); [lia|]. by rewrite list_lookup_fmap, Hx. }
    split; [unfold Zlen; lia|]. split; [unfold Zlen; lia|]. split.
    + intros x Hx. rewrite get_at_lookup, Es in Hx. by injection Hx as <-.
    + intros j x [Hz Hx]%get_at_Some Hinx. destruct (decide (Z.to_nat j = i)) as [|Hji]; [lia|]. exfalso.
      assert (map seg_fence parts !! Z.to_nat j = Some (seg_fence x)) as Hmx by (by rewrite list_lookup_fmap, Hx).
      destruct (decide (Z.to_nat j < i)%nat) as [Hl|Hl].
      * apply Hlt in Hmx; [|done]. destruct Hinx as [_ Hn]. apply past_spec in Hn. congruence.
      * apply Hgt in Hmx as [_ Hm]; [|lia]. destruct Hinx as [Hn _]. by apply ble_not_lt in Hn.
Qed.

(** The run of pieces a read of the key consults, and no other piece's fence
    has it. *)
Lemma pieces_found k : partitions_tile (sa_segs st) = true -> sa_aligned st = l0_aligned_of (sa_segs st) ->
  exists pre l0 post, pieces = pre ++ l0 ++ post /\
    pieces_over st (Zlen parts) (part_point st (Zlen parts) k) = (Zlen parts + Zlen pre, l0) /\
    Forall (fun s => ~ in_fence k (seg_fence s)) pre /\ Forall (fun s => ~ in_fence k (seg_fence s)) post.
Proof using Hst Hp1 Hp0 Hlo.
  intros Ht Hal. destruct (part_found k Ht) as (Hat & Hat' & Hin & Honly). set (at_ := part_point st (Zlen parts) k) in *.
  unfold pieces_over. rewrite pieces_left. destruct (negb (sa_aligned st) || (Zlen parts <=? at_)) eqn:Ea.
  { exists [], pieces, []. rewrite app_nil_r, (@Zlen_nil Seg), Z.add_0_r. split; [done|]. split; [done|]. by split. }
  apply orb_false_iff in Ea as [Ea Hlt]. apply negb_false_iff in Ea. apply Z.leb_gt in Hlt. destruct (get_at_is_Some parts at_) as [p Hp]; [lia|].
  assert (get_at (sa_segs st) at_ = Some p) as ->. { rewrite Hst. apply get_at_Some in Hp as [Hz Hp]. apply get_at_Some. split; [done|]. by apply lookup_app_l_Some. }
  rewrite Hal in Ea. unfold l0_aligned_of in Ea. rewrite parts_count, parts_taken, pieces_left in Ea. apply andb_true_iff in Ea as [_ Ea].
  assert (forall s, s ∈ pieces -> in_fence k (seg_fence s) -> sg_lo s = sg_lo p) as Hsame.
  { intros s Hs Hk. rewrite forallb_forall in Ea. specialize (Ea s (proj1 (list_elem_of_In _ _) Hs)). apply existsb_exists in Ea as (q & Hq & E).
    destruct (fence_eqb_spec (seg_fence q) (seg_fence s)) as [E'|]; [|done]. apply list_elem_of_In, list_elem_of_lookup in Hq as [j Hj].
    rewrite <- E' in Hk. apply (Honly (Z.of_nat j) q) in Hk; [|by rewrite get_at_lookup]. rewrite <- Hk, get_at_lookup, Hj in Hp. injection Hp as ->.
    unfold seg_fence in E'. congruence. }
  destruct (split_by_lo (sg_lo p) pieces Hlo) as (a & b & c & E & H1 & H2 & H3). exists a, b, c. split; [done|].
  assert (forall s, negb (Zlen (sg_lo p) =? 0) && ((Zlen (sg_lo s) =? 0) || bltb (sg_lo s) (sg_lo p)) = bltb (sg_lo s) (sg_lo p)) as Hbefore.
  { intros s. rewrite !empty_lo. destruct (sg_lo p) as [|x lo]; [|by destruct (sg_lo s)]. cbn. destruct (bltb_spec (sg_lo s) []) as [H|]; [by apply blt_nil in H|done]. }
  assert (forall s, Bool.eqb (Zlen (sg_lo s) =? 0) (Zlen (sg_lo p) =? 0) && ((Zlen (sg_lo p) =? 0) || beqb (sg_lo s) (sg_lo p)) = beqb (sg_lo s) (sg_lo p)) as Hequal.
  { intros s. rewrite !empty_lo. destruct (sg_lo p) as [|x lo]; [by destruct (sg_lo s)|]. by destruct (sg_lo s). }
  assert (point (fun s => negb (Zlen (sg_lo p) =? 0) && ((Zlen (sg_lo s) =? 0) || bltb (sg_lo s) (sg_lo p))) pieces = Zlen a) as ->.
  { rewrite E. apply point_app.
    - eapply Forall_impl; [exact H1|]. intros s Hs. cbn beta in Hs. rewrite Hbefore. by destruct (bltb_spec (sg_lo s) (sg_lo p)).
    - apply Forall_app. split; [eapply Forall_impl; [exact H2|]|eapply Forall_impl; [exact H3|]]; intros s Hs; cbn beta in Hs; rewrite Hbefore; destruct (bltb_spec (sg_lo s) (sg_lo p)) as [Hx|]; try done; exfalso.
      + rewrite Hs in Hx. by apply blt_irrefl in Hx.
      + by apply blt_asym in Hx. }
  rewrite E, Zlen_to_nat, drop_app_length.
  assert (point (fun s => Bool.eqb (Zlen (sg_lo s) =? 0) (Zlen (sg_lo p) =? 0) && ((Zlen (sg_lo p) =? 0) || beqb (sg_lo s) (sg_lo p))) (b ++ c) = Zlen b) as ->.
  { apply point_app.
    - eapply Forall_impl; [exact H2|]. intros s Hs. cbn beta in Hs. rewrite Hequal, Hs. apply beqb_refl.
    - eapply Forall_impl; [exact H3|]. intros s Hs. cbn beta in Hs. rewrite Hequal. destruct (beqb_spec (sg_lo s) (sg_lo p)) as [Hx|]; [|done]. exfalso. rewrite Hx in Hs. by apply blt_irrefl in Hs. }
  replace (Zlen a + Zlen b - Zlen a) with (Zlen b) by lia. rewrite Zlen_to_nat, take_app_length. split; [done|].
  split; apply Forall_forall; intros s Hs Hk; apply Hsame in Hk; [|rewrite E; set_solver| |rewrite E; set_solver].
  - rewrite Forall_forall in H1. specialize (H1 s Hs). cbn in H1. rewrite Hk in H1. by apply blt_irrefl in H1.
  - rewrite Forall_forall in H3. specialize (H3 s Hs). cbn in H3. rewrite Hk in H3. by apply blt_irrefl in H3.
Qed.
End layout.

(** ** What a state's sources hold *)

Definition said_put (w : list write_op) (k : bytes) : option Put := (fun s : say => mkPut k (snd s) (fst s)) <$> said w k.

(** Segments opened, each with its puts; the writes of each frozen table, oldest
    first; the live table's writes and those its last commit covers. *)
Record store_ok (env : Env) (puts_of : Seg -> list Put) (segs : list Seg) (mem : MemTable) (frozen : list MemTable)
    (fws : list (list write_op)) (w c : list write_op) : Prop := {
  sk_segs : Forall (fun s => seg_ok env s (sg_level s) (seg_fence s) (puts_of s) /\ Forall (fun k => in_fence k (seg_fence s)) (keys_of (puts_of s)) /\
    (sg_level s = 0 \/ sg_level s = 1 /\ existsb p_tomb (puts_of s) = false)) segs;
  sk_apart : NoDup (map (fun s => blob_id (sg_blob s)) segs);
  sk_tile : partitions_tile (sort_segs segs) = true;
  sk_frozen : Forall2 (fun t h => exists c, tracks t h c) frozen fws;
  sk_mem : tracks mem w c
}.

(** What a handle is shown of the live table: everything, the writer's own and a
    dirty read, or what its last commit covers. *)
Definition sees (mem : MemTable) (w c : list write_op) (bound : Z * Z) (h : list write_op) : Prop :=
  bound = enter true Dirty bound mem /\ h = w \/ bound = enter true Latest bound mem /\ h = c.

(** Every source's word of a key, oldest source first. *)
Definition store_versions (puts_of : Seg -> list Put) (segs : list Seg) (fws : list (list write_op)) (h : list write_op) (k : bytes) : list Put :=
  omap (fun s => find_put k (puts_of s)) (sort_segs segs) ++ omap (fun h => said_put h k) (fws ++ [h]).

Lemma find_put_tomb k puts : existsb p_tomb puts = false -> tomb_in (find_put k puts) = false.
Proof.
  intros H. unfold tomb_in. destruct (find_put k puts) as [p|] eqn:E; [|done]. apply find_some in E as [Hin _].
  destruct (p_tomb p) eqn:Ep; [|done]. rewrite <- H. symmetry. apply existsb_exists. by exists p.
Qed.

Lemma find_put_outside k puts f : Forall (fun k => in_fence k f) (keys_of puts) -> ~ in_fence k f -> find_put k puts = None.
Proof.
  intros H Hk. destruct (find_put k puts) as [p|] eqn:E; [|done]. exfalso. apply Hk. apply find_put_at in E as (i & Hi & <-).
  rewrite Forall_forall in H. apply H. unfold keys_of. apply get_at_Some in Hi as [_ Hi]. apply list_elem_of_fmap. exists p. split; [done|]. by eapply list_elem_of_lookup_2.
Qed.

Section answers.
Context (env : Env) (by_value via_ord : bool) (puts_of : Seg -> list Put).
Context (segs : list Seg) (mem : MemTable) (frozen : list MemTable) (fws : list (list write_op)) (w c : list write_op).
Context (Hok : store_ok env puts_of segs mem frozen fws w c).
Context (bound : Z * Z) (h : list write_op) (Hsees : sees mem w c bound h).
Local Abbreviation st := (state_of segs mem frozen).

Lemma seg_in s : s ∈ sa_segs st -> seg_ok env s (sg_level s) (seg_fence s) (puts_of s) /\ Forall (fun k => in_fence k (seg_fence s)) (keys_of (puts_of s)) /\
  (sg_level s = 0 \/ sg_level s = 1 /\ existsb p_tomb (puts_of s) = false).
Proof using Hok. intros Hs. cbn in Hs. rewrite sort_segs_perm in Hs. pose proof (sk_segs _ _ _ _ _ _ _ _ Hok) as H. rewrite Forall_forall in H. by apply H. Qed.

(** *** The tables *)

Lemma get_hashed t k upto : ordered t = false -> get t k upto = get_with t (mem_hash k) k upto.
Proof.
  intros Ho. unfold get, get_with, slot_of. rewrite Ho. destruct (probe t (mem_hash k) k) as [[i|]|]; cbn [mbind option_bind]; [|done..].
  by destruct (i <? upto).
Qed.

Lemma mem_found k : exists found, get_with mem (mem_hash k) k (fst bound) = Some found /\ found_as mem (snd bound) found (said h k).
Proof using Hok Hsees.
  destruct (tracks_finds _ _ _ k (sk_mem _ _ _ _ _ _ _ _ Hok)) as [(f1 & H1 & H2 & _) (f2 & H3 & H4)].
  destruct Hsees as [[-> ->]|[-> ->]]; cbn [enter negb fst snd]; eauto.
Qed.

Lemma mem_empty k : len mem = 0 -> said h k = None.
Proof using Hok Hsees.
  intros Hn. destruct (tracks_empty _ _ _ k (sk_mem _ _ _ _ _ _ _ _ Hok) Hn) as [H1 H2]. by destruct Hsees as [[_ ->]|[_ ->]].
Qed.

Lemma tracks_get t hw hc k : tracks t hw hc -> exists found, get t k ALL = Some found /\ found_as t SEE_ALL found (said hw k) /\
  forall e s, found = Some e -> said hw k = Some s -> n_count e = Zlen (snd s).
Proof.
  intros Ht. destruct (tracks_finds _ _ _ k Ht) as [(f & H1 & H2 & H3) _]. exists f. split; [|done].
  destruct Ht as [(g & [Hb _ _ _] & _) _]. by rewrite get_hashed by apply (b_hashed _ _ Hb).
Qed.

Lemma entry_tomb_of t wm found s : found_as t wm found s -> entry_tomb t found wm = Some (match s with Some s => fst s | None => false end).
Proof. unfold found_as, entry_tomb. destruct found as [e|], s as [s|]; naive_solver. Qed.

Lemma live_of_spec t wm found s : found_as t wm found s ->
  live_of t found wm = Some (match s with Some s => snd s | None => [] end, Ok (Zlen (match s with Some s => snd s | None => [] end))).
Proof.
  unfold found_as, live_of. destruct found as [e|], s as [s|]; try done. intros (_ & offs & Hl & Hv). rewrite Hl. cbn [mbind option_bind]. rewrite Hv. cbn [mbind option_bind].
  do 3 f_equal. apply mapM_Some, Forall2_length in Hv. unfold Zlen. lia.
Qed.

Lemma said_tomb h' k : match said h' k with Some s => fst s | None => false end = tomb_in (said_put h' k).
Proof. unfold said_put. by destruct (said h' k). Qed.
Lemma said_vals h' k : match said h' k with Some s => snd s | None => [] end = vals_in (said_put h' k).
Proof. unfold said_put. by destruct (said h' k). Qed.

Lemma frozen_tombs k : Forall2 (fun t b => frozen_tomb k t = Some b) frozen (map (fun h => tomb_in (said_put h k)) fws).
Proof using Hok.
  pose proof (sk_frozen _ _ _ _ _ _ _ _ Hok) as H. clear Hok Hsees. induction H as [|t hw ts hws [hc Ht] _ IH]; cbn [map]; [constructor|]. constructor; [|done].
  destruct (tracks_get _ _ _ k Ht) as (f & Hf & Hs & _). unfold frozen_tomb. rewrite Hf. cbn [mbind option_bind]. by rewrite (entry_tomb_of _ _ _ _ Hs), said_tomb.
Qed.

Lemma piece_tombs k l : (forall s, s ∈ l -> s ∈ sa_segs st) -> Forall (fun s => sg_level s = 0) l ->
  Forall2 (fun s b => piece_tomb env k s = Some b) l (map (fun s => tomb_in (find_put k (puts_of s))) l).
Proof using Hok.
  intros Hin Hl. induction Hl as [|s l Hs _ IH]; cbn [map]; [constructor|]. constructor; [|apply IH; intros x Hx; apply Hin; by right].
  destruct (seg_in s (Hin s ltac:(left))) as (Hso & Hf & _). pose proof (so_tombs _ _ _ _ _ Hso) as Ht. rewrite Hs in Ht. cbn [Z.eqb andb] in Ht. unfold piece_tomb. rewrite Ht.
  destruct (existsb p_tomb (puts_of s)) eqn:E; cbn [negb]; [|by rewrite find_put_tomb].
  destruct (may_hold_ok _ _ _ _ _ k Hso) as (r & Hr & _ & Hin'). rewrite Hr. cbn [mbind option_bind].
  pose proof (rp_lookup _ _ _ _ _ _ _ (so_reads _ _ _ _ _ Hso) k) as Hlk. destruct (find_put k (puts_of s)) as [p|] eqn:Ep.
  - assert (k ∈ keys_of (puts_of s)) as Hk. { apply find_put_at in Ep as (i & Hi & <-). apply get_at_Some in Hi as [_ Hi]. apply list_elem_of_fmap. exists p. split; [done|]. by eapply list_elem_of_lookup_2. }
    rewrite Hin'; [|by rewrite Forall_forall in Hf; apply Hf|done]. destruct Hlk as (exts & -> & _ & Hx). unfold any_tombstone in Hx. cbn [negb tomb_in]. by rewrite Hx.
  - rewrite Hlk. by destruct r.
Qed.

(** No source ends older values where none has a tombstone at all. *)
Lemma tombless_state k : has_tombstones st = false -> (forall s, s ∈ sa_segs st -> tomb_in (find_put k (puts_of s)) = false) /\
  Forall (fun h => tomb_in (said_put h k) = false) (fws ++ [h]).
Proof using Hok Hsees.
  unfold has_tombstones. intros [[H1 H2]%orb_false_iff H3]%orb_false_iff. split.
  - intros s Hs. destruct (seg_in s Hs) as (Hso & _ & Hl). apply find_put_tomb. pose proof (so_tombs _ _ _ _ _ Hso) as Ht. destruct Hl as [Hl|[_ Hl]]; [|done].
    rewrite Hl in Ht. cbn [Z.eqb andb] in Ht. rewrite <- Ht. destruct (sg_tombs s) eqn:E; [|done]. rewrite <- H1. symmetry. apply existsb_exists. exists s. split; [by apply list_elem_of_In|done].
  - assert (forall t hw hc h', tracks t hw hc -> (0 <? tombs t) = false -> h' = hw \/ h' = hc -> tomb_in (said_put h' k) = false) as Hone.
    { intros t hw hc h' Ht Hn Hh. apply Z.ltb_ge in Hn. assert (tombs t = 0) as Hz. { pose proof Ht as [(g & [Hb _ _ _] & _) _]. pose proof (b_tombs _ _ Hb). lia. }
      rewrite <- said_tomb. destruct (said h' k) as [s|] eqn:E; [|done]. eapply (tracks_tombless _ _ _ k); [exact Ht|exact Hz|]. destruct Hh as [-> | ->]; auto. }
    apply Forall_app. split.
    + cbn in H3. pose proof (sk_frozen _ _ _ _ _ _ _ _ Hok) as H. clear -H H3 Hone. induction H as [|t hw ts hws [hc Ht] _ IH]; [constructor|].
      cbn [existsb] in H3. apply orb_false_iff in H3 as [Ha Hb]. constructor; [|by apply IH]. by eapply Hone; [exact Ht|..|left].
    + constructor; [|constructor]. cbn in H2. eapply Hone; [exact (sk_mem _ _ _ _ _ _ _ _ Hok)|done|]. destruct Hsees as [[_ ->]|[_ ->]]; auto.
Qed.

(** Where the live values start is at the newest source with a tombstone. *)
Lemma live_start_spec k l0 pv : (forall s, s ∈ l0 -> s ∈ sa_segs st) -> Forall (fun s => sg_level s = 0) l0 -> tomb_in pv = false ->
  live_start env st bound (if len mem =? 0 then 0 else mem_hash k) k l0 =
  Some (default 0 (last_true 0 (map tomb_in (pv :: map (fun s => find_put k (puts_of s)) l0 ++ map (fun h => said_put h k) fws ++ [said_put h k])))).
Proof using Hok Hsees.
  intros Hin Hl Hpv. unfold live_start. cbn [map]. rewrite !map_app. cbn [map]. rewrite Hpv, !map_map.
  destruct (has_tombstones st) eqn:Ht; cbn [negb].
  - change (sa_mem st) with mem. change (sa_frozen st) with frozen.
    assert ((if len mem =? 0 then Some 0 else found ← get_with mem (if len mem =? 0 then 0 else mem_hash k) k (fst bound); b ← entry_tomb mem found (snd bound);
      Some (if b : bool then 1 + Zlen l0 + Zlen frozen else 0)) = Some (if tomb_in (said_put h k) then 1 + Zlen l0 + Zlen frozen else 0)) as ->.
    { destruct (Z.eqb_spec (len mem) 0) as [E|E]; [unfold said_put; by rewrite mem_empty|]. destruct (mem_found k) as (f & Hf & Hs). rewrite Hf. cbn [mbind option_bind].
      rewrite (entry_tomb_of _ _ _ _ Hs). cbn [mbind option_bind]. by rewrite said_tomb. }
    cbn [mbind option_bind]. rewrite (last_such_true _ _ _ (frozen_tombs k)), (last_such_true _ _ _ (piece_tombs k l0 Hin Hl)). cbn [mbind option_bind].
    pose proof (Zlen_nonneg l0). pose proof (Zlen_nonneg frozen). assert (Zlen (map (fun h => tomb_in (said_put h k)) fws) = Zlen frozen) as Hzf.
    { rewrite Zlen_map. unfold Zlen. by rewrite (Forall2_length _ _ _ (sk_frozen _ _ _ _ _ _ _ _ Hok)). }
    cbn [last_true]. rewrite Z.add_0_l, !last_true_app, Hzf, Zlen_map. cbn [last_true]. destruct (tomb_in (said_put h k)).
    { rewrite (proj2 (Z.eqb_neq (1 + Zlen l0 + Zlen frozen) 0)) by lia. cbn [mbind option_bind]. by rewrite (proj2 (Z.eqb_neq (1 + Zlen l0 + Zlen frozen) 0)) by lia. }
    cbn [Z.eqb]. rewrite (last_true_from (1 + Zlen l0)). destruct (last_true 0 (map (fun h0 => tomb_in (said_put h0 k)) fws)) as [i|] eqn:Ei.
    { apply last_true_range in Ei. cbn [mbind option_bind fmap option_fmap option_map]. rewrite (proj2 (Z.eqb_neq (1 + Zlen l0 + i) 0)) by lia. done. }
    cbn [mbind option_bind fmap option_fmap option_map Z.eqb]. rewrite (last_true_from 1). destruct (last_true 0 (map _ l0)); reflexivity.
  - destruct (tombless_state k Ht) as [H1 H2]. apply Forall_app in H2 as [H2 [H3 _]%Forall_cons]. cbn beta in H3. rewrite H3. rewrite last_true_none; [done|].
    constructor; [done|]. apply Forall_app. split; [|apply Forall_app; split; [|by repeat constructor]].
    + apply Forall_map, Forall_forall. intros s Hs. by apply H1, Hin.
    + by apply Forall_map.
Qed.

(** *** The segments *)

Local Abbreviation ins := (map (fun s => mkInput (sg_file s) (sg_blob s)) (sa_segs st)).

Lemma ins_hold : inputs_hold env ins (map puts_of (sa_segs st)).
Proof using Hok.
  split.
  - apply Forall2_fmap. assert (forall l, (forall s, s ∈ l -> s ∈ sa_segs st) -> Forall2 (fun s s' => holds_puts (ev_unlz4 env) (ev_sums env) (sg_file s) (ev_key_base env) (ev_blk_base env) (sg_blob s) (puts_of s')) l l) as Hall; [|by apply Hall].
    induction l as [|s l IH]; intros Hl; [constructor|]. constructor; [|apply IH; intros x Hx; apply Hl; by right]. pose proof (Hl s ltac:(left)) as Hs. destruct (seg_in s Hs) as (Hso & _). exact (so_holds _ _ _ _ _ Hso).
  - intros i j a b Ha Hb Hne. rewrite get_at_map in Ha, Hb. destruct (get_at (sa_segs st) i) as [sa|] eqn:Ea; [|done]. destruct (get_at (sa_segs st) j) as [sb|] eqn:Eb; [|done].
    injection Ha as <-. injection Hb as <-. cbn [in_blob]. intros E. apply Hne. pose proof (sk_apart _ _ _ _ _ _ _ _ Hok) as Hn.
    rewrite <- (sort_segs_perm segs) in Hn. apply get_at_Some in Ea as [Hi Ea], Eb as [Hj Eb]. cbn in Ea, Eb.
    enough (Z.to_nat i = Z.to_nat j) by lia. eapply NoDup_lookup; [exact Hn| |]; rewrite list_lookup_fmap; [by rewrite Ea|by rewrite Eb, E].
Qed.

(** A read that hands on these values and leaves the readers fit. *)
Definition gives (m : SM Reads (list bytes * result Z)) (vs : list bytes) : Prop := forall rd, readers_ok env ins rd ->
  wp m (fun a rd' => a = (vs, Ok (Zlen vs)) /\ readers_ok env ins rd') rd.

Lemma gives_nothing : gives nothing [].
Proof. intros rd Hrd. by split. Qed.

Lemma gives_expect o vs : o = Some (vs, Ok (Zlen vs)) -> gives (expect o) vs.
Proof. intros -> rd Hrd. by split. Qed.

Lemma gives_also m k a b : gives m a -> gives k b -> gives (also m k) (a ++ b).
Proof.
  intros Hm Hk rd Hrd. unfold also. apply wp_bind. eapply wp_mono; [by apply Hm|]. intros [vs r] rd1 [[= -> ->] Hr1]. apply wp_bind.
  eapply wp_mono; [by apply Hk|]. intros [vs' r'] rd2 [[= -> ->] Hr2]. split; [|done]. cbn [rbind]. by rewrite Zlen_app.
Qed.

Lemma by_value_same (d : bytes -> bytes -> bytes * bool) src B kb bb sums k : (if by_value then read_all_by_value else Blob.read_all) d src B kb bb sums k = Blob.read_all d src B kb bb sums k.
Proof.
  destruct by_value; [|done]. unfold read_all_by_value, Blob.read_all, blob_lookup_full, blob_with_lookup. rewrite with_lookup_full.
  by destruct (lookup_full _ _ _ _ _) as [[e t]|].
Qed.

Lemma vals_of puts k : values_of puts k = vals_in (find_put k puts).
Proof. reflexivity. Qed.

Lemma seg_read_gives i s k : get_at (sa_segs st) i = Some s -> gives (seg_read env by_value i s k) (vals_in (find_put k (puts_of s))).
Proof using Hok.
  intros Hi rd Hrd. unfold seg_read. rewrite by_value_same. apply wp_bind.
  assert (s ∈ sa_segs st) as Hs by (apply get_at_Some in Hi as [_ Hi]; by eapply list_elem_of_lookup_2). destruct (seg_in s Hs) as (Hso & _).
  eapply wp_mono; [apply (wp_reader_at env ins (map puts_of (sa_segs st)) ins_hold _ i (mkInput (sg_file s) (sg_blob s)) (fun a => a = (values_of (puts_of s) k, Ok (Zlen (values_of (puts_of s) k)))))|].
  - by rewrite get_at_map, Hi.
  - done.
  - apply tame_read_all.
  - intros rs Hrs. destruct (rp_read _ _ _ _ _ _ _ (so_reads _ _ _ _ _ Hso) k rs Hrs) as (rs' & Hv & Hr). by eexists _, rs'.
  - intros [vs r] rd' [[= -> ->] Hr]. by split.
Qed.

Lemma seek_exact_ext ix (f g : Z -> option bytes) k : is_uniform ix = true -> f 0 = g 0 -> seek_exact ix f k = seek_exact ix g k.
Proof.
  intros Hu H0. unfold seek_exact, seek_exact_hint. assert (outside_prefix ix f k = outside_prefix ix g k) as -> by (unfold outside_prefix; by rewrite H0).
  assert (forall lo hd, exact_at ix f lo hd k = exact_at ix g lo hd k) as He.
  2: { destruct (oi_n ix =? 0); [done|]. destruct (outside_prefix ix g k); [done|]. destruct (if lower_bound _ _ =? 0 then _ else _) as [lo hi]. cbn [snd]. apply He. }
  intros lo hd. unfold exact_at. unfold is_uniform in Hu. by destruct (oi_uniform ix).
Qed.

Lemma find_put_get puts i q : ascending (keys_of puts) -> get_at puts i = Some q -> find_put (p_key q) puts = Some q.
Proof.
  intros Ha Hi. pose proof (ascending_NoDup _ Ha) as Hn. destruct (find_put (p_key q) puts) as [x|] eqn:E.
  - apply find_put_at in E as (j & Hj & Hk). apply get_at_Some in Hi as [Hi0 Hi], Hj as [Hj0 Hj]. enough (Z.to_nat i = Z.to_nat j) as Hij by (rewrite Hij, Hj in Hi; congruence).
    eapply NoDup_lookup; [exact Hn| |]; unfold keys_of; rewrite list_lookup_fmap; [by rewrite Hi|by rewrite Hj; cbn; rewrite Hk].
  - exfalso. apply find_put_none in E. apply E. apply get_at_Some in Hi as [_ Hi]. apply list_elem_of_fmap. exists q. split; [done|]. by eapply list_elem_of_lookup_2.
Qed.

Lemma part_read_gives i s k : get_at (sa_segs st) i = Some s -> gives (read_part env by_value via_ord i s k) (vals_in (find_put k (puts_of s))).
Proof using Hok.
  intros Hi rd Hrd. unfold read_part. destruct via_ord; [|apply wp_bind; by apply seg_read_gives]. apply wp_bind. unfold part_via_ord.
  destruct (is_uniform (sg_ord s)) eqn:Eu; cbn [negb]; [|by apply seg_read_gives].
  assert (s ∈ sa_segs st) as Hs by (apply get_at_Some in Hi as [_ Hi']; by eapply list_elem_of_lookup_2). destruct (seg_in s Hs) as (Hso & _).
  destruct (so_ord _ _ _ _ _ Hso) as (p & Hp). pose proof (hp_key_at _ _ _ _ _ _ _ (so_holds _ _ _ _ _ Hso)) as Hka.
  rewrite (seek_exact_ext _ _ (get_at (keys_of (puts_of s))) k Eu (Hka 0)). pose proof (seek_spec _ _ _ Hp k) as Hsk.
  destruct (seek_exact (sg_ord s) (get_at (keys_of (puts_of s))) k) as [rank [[|]|]]; destruct Hsk as [(Hrank & Hbelow & Habove) He]; [| |by apply seg_read_gives].
  - rewrite Hka. destruct (get_at (keys_of (puts_of s)) rank) as [k'|] eqn:Ek; [|by apply seg_read_gives].
    destruct (beqb_spec k' k) as [->|]; [|by apply seg_read_gives]. unfold keys_of in Ek. rewrite get_at_map in Ek. destruct (get_at (puts_of s) rank) as [q|] eqn:Eq; [|done].
    injection Ek as Ekq. apply wp_bind.
    eapply wp_mono; [apply (wp_reader_at env ins (map puts_of (sa_segs st)) ins_hold _ i (mkInput (sg_file s) (sg_blob s)) (fun a => a = (p_values q, Ok (Zlen (p_values q)))))|].
    + by rewrite get_at_map, Hi.
    + done.
    + apply tame_values.
    + intros rs Hrs. destruct (hp_values _ _ _ _ _ _ _ (so_holds _ _ _ _ _ Hso) rank q rs Eq Hrs) as (rs' & Hv & Hr). by eexists _, rs'.
    + intros [vs r] rd' [[= -> ->] Hr]. split; [|done]. cbn [seg_err]. enough (find_put k (puts_of s) = Some q) as -> by done.
      rewrite <- Ekq. eapply find_put_get; [exact (hp_asc _ _ _ _ _ _ _ (so_holds _ _ _ _ _ Hso))|exact Eq].
  - split; [|done]. cbn. destruct (find_put k (puts_of s)) as [q|] eqn:Eq; [|done]. exfalso. apply find_put_at in Eq as (j & Hj & <-).
    pose proof (get_at_lt _ _ _ Hj) as Hlt. assert (get_at (keys_of (puts_of s)) j = Some (p_key q)) as Hkj by (unfold keys_of; by rewrite get_at_map, Hj).
    assert (Zlen (keys_of (puts_of s)) = Zlen (puts_of s)) as Hlen by (unfold keys_of; apply Zlen_map).
    rewrite (ix_n _ _ _ Hp) in *. destruct (Z.lt_trichotomy j rank) as [Hr|[->|Hr]].
    + destruct (Hbelow j ltac:(lia)) as (k' & Hk' & Hx). rewrite Hkj in Hk'. injection Hk' as <-. by apply blt_irrefl in Hx.
    + by apply He in Hkj.
    + destruct (Habove rank ltac:(lia)) as (k' & Hk' & Hx). pose proof (ix_asc _ _ _ Hp rank j _ _ Hr Hk' Hkj) as Hy. by apply ble_not_lt in Hx.
Qed.

(** *** All the sources *)

Lemma drop_from {A} (start i : Z) (x : A) l : drop (Z.to_nat (start - i)) (x :: l) = if i <? start then drop (Z.to_nat (start - (i + 1))) l else x :: l.
Proof.
  destruct (Z.ltb_spec i start).
  - replace (Z.to_nat (start - i)) with (S (Z.to_nat (start - (i + 1)))) by lia. done.
  - replace (Z.to_nat (start - i)) with 0%nat by lia. done.
Qed.

Lemma held_or_none k s : s ∈ sa_segs st -> exists m, may_hold s k = Some m /\ (m = false -> find_put k (puts_of s) = None).
Proof using Hok.
  intros Hs. destruct (seg_in s Hs) as (Hso & Hf & _). destruct (may_hold_ok _ _ _ _ _ k Hso) as (m & Hm & _ & Hin). exists m. split; [done|]. intros ->.
  destruct (find_put k (puts_of s)) as [p|] eqn:E; [|done]. exfalso. apply find_put_at in E as (i & Hi & <-). apply get_at_Some in Hi as [_ Hi].
  assert (p_key p ∈ keys_of (puts_of s)) as Hk by (apply list_elem_of_fmap; exists p; split; [done|by eapply list_elem_of_lookup_2]).
  rewrite Forall_forall in Hf. by specialize (Hin (Hf _ Hk) Hk).
Qed.

Lemma read_pieces_gives k start base l : forall i, (forall j s, get_at l j = Some s -> get_at (sa_segs st) (base + i + j) = Some s) ->
  gives (read_pieces env by_value k start base i l) (concat (map vals_in (drop (Z.to_nat (start - (1 + i))) (map (fun s => find_put k (puts_of s)) l)))).
Proof using Hok.
  induction l as [|s l IH]; intros i Hl; cbn [read_pieces map]; [rewrite drop_nil; apply gives_nothing|].
  assert (gives (read_pieces env by_value k start base (i + 1) l) (concat (map vals_in (drop (Z.to_nat (start - (1 + i + 1))) (map (fun s => find_put k (puts_of s)) l))))) as Hrest.
  { replace (1 + i + 1) with (1 + (i + 1)) by lia. apply IH. intros j x Hj. pose proof (get_at_lt _ _ _ Hj). replace (base + (i + 1) + j) with (base + i + (j + 1)) by lia.
    apply Hl. rewrite get_at_cons by lia. by replace (j + 1 - 1) with j by lia. }
  rewrite drop_from. destruct (Z.ltb_spec (1 + i) start); [done|]. replace (Z.to_nat (start - (1 + i + 1))) with 0%nat in Hrest by lia. rewrite drop_0 in Hrest. cbn [map concat].
  pose proof (Hl 0 s (get_at_here _ _ 0 eq_refl)) as Hs. rewrite Z.add_0_r in Hs.
  destruct (held_or_none k s) as (m & Hm & Hnone); [apply get_at_Some in Hs as [_ Hs]; by eapply list_elem_of_lookup_2|].
  intros rd Hrd. apply wp_bind. eapply wp_expect; [exact Hm|]. destruct m.
  - apply gives_also; [by apply seg_read_gives|done|done].
  - rewrite Hnone by done. by apply Hrest.
Qed.

Lemma read_frozen_gives k start fr_ix (ts : list MemTable) hs : Forall2 (fun t h => exists c, tracks t h c) ts hs -> forall i,
  gives (read_frozen k start fr_ix i ts) (concat (map vals_in (drop (Z.to_nat (start - (fr_ix + i))) (map (fun h => said_put h k) hs)))).
Proof using Hok.
  induction 1 as [|t hw ts hs [hc Ht] _ IH]; intros i; cbn [read_frozen map]; [rewrite drop_nil; apply gives_nothing|]. specialize (IH (i + 1)). rewrite Z.add_assoc in IH.
  rewrite drop_from. destruct (Z.ltb_spec (fr_ix + i) start); [done|]. replace (Z.to_nat (start - (fr_ix + i + 1))) with 0%nat in IH by lia. rewrite drop_0 in IH. cbn [map concat].
  apply gives_also; [|done]. apply gives_expect. destruct (tracks_get _ _ _ k Ht) as (f & Hf & Hs & _). rewrite Hf. cbn [mbind option_bind].
  by rewrite (live_of_spec _ _ _ _ Hs), said_vals.
Qed.

Lemma read_mem_gives k start mem_ix :
  gives (if (start <=? mem_ix) && negb (len mem =? 0) then
           expect (found ← get_with mem (if len mem =? 0 then 0 else mem_hash k) k (fst bound); live_of mem found (snd bound)) else nothing)
    (concat (map vals_in (drop (Z.to_nat (start - mem_ix)) [said_put h k]))).
Proof using Hok Hsees.
  destruct (Z.eqb_spec (len mem) 0) as [E|E].
  - rewrite andb_false_r. unfold said_put. rewrite (mem_empty k E). cbn [fmap option_fmap option_map].
    assert (concat (map vals_in (drop (Z.to_nat (start - mem_ix)) [None])) = []) as ->; [|apply gives_nothing]. by destruct (Z.to_nat _) as [|[|?]].
  - rewrite andb_true_r, drop_from. destruct (Z.leb_spec start mem_ix); [rewrite (proj2 (Z.ltb_ge _ _)) by lia|rewrite (proj2 (Z.ltb_lt _ _)) by lia; rewrite drop_nil; apply gives_nothing].
    apply gives_expect. destruct (mem_found k) as (f & Hf & Hs). rewrite Hf. cbn [mbind option_bind map concat]. by rewrite (live_of_spec _ _ _ _ Hs), said_vals, app_nil_r.
Qed.

(** What a read consults, and that nothing else says anything of the key. *)
Lemma consulted k : exists np base l0 pv,
  point is_part (sa_segs st) = np /\ pieces_over st np (part_point st np k) = (base, l0) /\
  (forall s, s ∈ l0 -> s ∈ sa_segs st) /\ Forall (fun s => sg_level s = 0) l0 /\ tomb_in pv = false /\
  (forall j s, get_at l0 j = Some s -> get_at (sa_segs st) (base + 0 + j) = Some s) /\
  (exists part, part_at st np (part_point st np k) k = Some part /\
    match part with Some s => get_at (sa_segs st) (part_point st np k) = Some s /\ pv = find_put k (puts_of s) | None => pv = None end) /\
  omap (fun s => find_put k (puts_of s)) (sa_segs st) = omap id (pv :: map (fun s => find_put k (puts_of s)) l0).
Proof using Hok Hsees.
  destruct (sorted_layout (sa_segs st) (sort_segs_sorted segs)) as (parts & pieces & Hst & Hp1 & Hp0 & Hlo).
  { apply Forall_forall. intros s Hs. destruct (seg_in s Hs) as (_ & _ & [?|[? _]]); auto. }
  destruct (pieces_found st parts pieces Hst Hp1 Hp0 Hlo k (sk_tile _ _ _ _ _ _ _ _ Hok) eq_refl) as (pre & l0 & post & Hpc & Hover & Hpre & Hpost).
  destruct (part_found st parts pieces Hst Hp1 Hp0 k (sk_tile _ _ _ _ _ _ _ _ Hok)) as (Hat & _ & _ & Honly).
  set (at_ := part_point st (Zlen parts) k) in *.
  assert (forall l, (forall s, s ∈ l -> s ∈ sa_segs st) -> Forall (fun s => ~ in_fence k (seg_fence s)) l -> omap (fun s => find_put k (puts_of s)) l = []) as Hnone.
  { intros l Hl Hf. induction Hf as [|s l Hs _ IH]; [done|]. cbn [omap list_omap]. destruct (seg_in s (Hl s ltac:(left))) as (_ & Hkf & _).
    rewrite (find_put_outside _ _ _ Hkf Hs). apply IH. intros x Hx. apply Hl. by right. }
  assert (forall s, s ∈ parts -> s ∈ sa_segs st) as Hpin by (intros s Hs; rewrite Hst; set_solver).
  assert (forall s, s ∈ pieces -> s ∈ sa_segs st) as Hcin by (intros s Hs; rewrite Hst; set_solver).
  assert (exists pv part, part_at st (Zlen parts) at_ k = Some part /\ tomb_in pv = false /\ omap (fun s => find_put k (puts_of s)) parts = omap id [pv] /\
    match part with Some s => get_at (sa_segs st) at_ = Some s /\ pv = find_put k (puts_of s) | None => pv = None end) as (pv & part & Hpart & Hpvt & Hparts & Hpv).
  { unfold part_at. rewrite (parts_taken st parts pieces Hst). destruct (get_at parts at_) as [s|] eqn:Es.
    - pose proof Es as Es'. apply get_at_Some in Es' as [Hz Es']. assert (s ∈ parts) as Hs by (by eapply list_elem_of_lookup_2).
      destruct (held_or_none k s (Hpin s Hs)) as (m & Hm & Hmn). rewrite Hm. cbn [mbind option_bind]. exists (find_put k (puts_of s)).
      assert (tomb_in (find_put k (puts_of s)) = false) as Htb.
      { apply find_put_tomb. destruct (seg_in s (Hpin s Hs)) as (_ & _ & [Hl|[_ ?]]); [|done]. rewrite Forall_forall in Hp1. rewrite (Hp1 s Hs) in Hl. done. }
      assert (omap (fun s => find_put k (puts_of s)) parts = omap id [find_put k (puts_of s)]) as Hom.
      { rewrite <- (take_drop_middle _ _ _ Es'), omap_app. rewrite Hnone.
        - cbn [app omap list_omap id]. rewrite (Hnone (drop _ _)).
          + done.
          + intros x Hx. apply Hpin. apply list_elem_of_lookup in Hx as [j Hj]. rewrite lookup_drop in Hj. by eapply list_elem_of_lookup_2.
          + apply Forall_forall. intros x Hx Hin. apply list_elem_of_lookup in Hx as [j Hj]. rewrite lookup_drop in Hj. apply (Honly (Z.of_nat (S (Z.to_nat at_) + j))) in Hin; [lia|by rewrite get_at_lookup].
        - intros x Hx. apply Hpin. apply list_elem_of_lookup in Hx as [j Hj]. apply lookup_take_Some in Hj as [Hj _]. by eapply list_elem_of_lookup_2.
        - apply Forall_forall. intros x Hx Hin. apply list_elem_of_lookup in Hx as [j Hj]. apply lookup_take_Some in Hj as [Hj Hlt]. apply (Honly (Z.of_nat j)) in Hin; [lia|by rewrite get_at_lookup]. }
      destruct m.
      + exists (Some s). split; [done|]. split; [done|]. split; [done|]. split; [|done]. rewrite Hst. apply get_at_Some. split; [done|]. by apply lookup_app_l_Some.
      + exists None. split; [done|]. split; [done|]. split; [done|]. by apply Hmn.
    - exists None, None. split; [done|]. split; [done|]. split; [|done]. cbn. apply Hnone; [done|]. apply Forall_forall. intros x Hx Hin.
      apply list_elem_of_lookup in Hx as [j Hj]. apply (Honly (Z.of_nat j)) in Hin; [|by rewrite get_at_lookup]. rewrite <- Hin, get_at_lookup in Es. congruence. }
  exists (Zlen parts), (Zlen parts + Zlen pre), l0, pv. split; [by apply (parts_count st parts pieces)|]. split; [exact Hover|].
  split; [intros s Hs; apply Hcin; rewrite Hpc; set_solver|].
  split; [rewrite Hpc in Hp0; by apply Forall_app in Hp0 as [_ [? _]%Forall_app]|]. split; [done|]. split; [|split; [by exists part|]].
  - intros j s [Hz Hj]%get_at_Some. rewrite Hst, Hpc, Z.add_0_r. pose proof (Zlen_nonneg parts). pose proof (Zlen_nonneg pre). apply get_at_Some. split; [lia|].
    rewrite lookup_app_r by (unfold Zlen; lia). rewrite lookup_app_r by (unfold Zlen; lia).
    apply lookup_app_l_Some. rewrite <- Hj. f_equal. unfold Zlen. lia.
  - rewrite Hst, omap_app, Hparts, Hpc, !omap_app.
    rewrite (Hnone pre), (Hnone post); [|intros s Hs; apply Hcin; rewrite Hpc; set_solver|done|intros s Hs; apply Hcin; rewrite Hpc; set_solver|done].
    rewrite app_nil_r, (omap_said (fun s => find_put k (puts_of s))). cbn. by destruct pv.
Qed.

(** The live values, source by source. *)
Lemma live_split k l0 pv : tomb_in pv = false ->
  omap (fun s => find_put k (puts_of s)) (sa_segs st) = omap id (pv :: map (fun s => find_put k (puts_of s)) l0) ->
  let start := default 0 (last_true 0 (map tomb_in (pv :: map (fun s => find_put k (puts_of s)) l0 ++ map (fun h => said_put h k) fws ++ [said_put h k]))) in
  live_values (store_versions puts_of segs fws h k) = concat (map vals_in (drop (Z.to_nat start) [pv])) ++
    concat (map vals_in (drop (Z.to_nat (start - (1 + 0))) (map (fun s => find_put k (puts_of s)) l0))) ++
    concat (map vals_in (drop (Z.to_nat (start - (1 + Zlen l0 + 0))) (map (fun h => said_put h k) fws))) ++
    concat (map vals_in (drop (Z.to_nat (start - (1 + Zlen l0 + Zlen frozen))) [said_put h k])).
Proof using Hok.
  intros Hpv Hom start. set (S := pv :: map (fun s => find_put k (puts_of s)) l0 ++ map (fun h => said_put h k) fws ++ [said_put h k]) in *.
  assert (live_values (store_versions puts_of segs fws h k) = concat (map vals_in (drop (Z.to_nat start) S))) as ->.
  { unfold start, S. rewrite <- live_from by done. f_equal. unfold store_versions. change (sort_segs segs) with (sa_segs st). rewrite Hom.
    change (pv :: map (fun s => find_put k (puts_of s)) l0 ++ map (fun h => said_put h k) fws ++ [said_put h k])
      with ((pv :: map (fun s => find_put k (puts_of s)) l0) ++ map (fun h => said_put h k) fws ++ [said_put h k]).
    rewrite !omap_app, !(omap_said (fun h => said_put h k)). done. }
  assert (Zlen frozen = Zlen fws) as Hzf. { unfold Zlen. by rewrite (Forall2_length _ _ _ (sk_frozen _ _ _ _ _ _ _ _ Hok)). }
  change S with ([pv] ++ map (fun s => find_put k (puts_of s)) l0 ++ map (fun h => said_put h k) fws ++ [said_put h k]).
  clearbody start. rewrite !drop_app, !map_app, !concat_app, !length_map.
  replace (Z.to_nat start - length [pv])%nat with (Z.to_nat (start - (1 + 0))) by (cbn [length]; lia).
  replace (Z.to_nat (start - (1 + 0)) - length l0)%nat with (Z.to_nat (start - (1 + Zlen l0 + 0))) by (unfold Zlen; lia).
  by replace (Z.to_nat (start - (1 + Zlen l0 + 0)) - length fws)%nat with (Z.to_nat (start - (1 + Zlen l0 + Zlen frozen))) by (rewrite Hzf; unfold Zlen; lia).
Qed.

Lemma last_from_nonneg bs : 0 <= default 0 (last_true 0 bs).
Proof. destruct (last_true 0 bs) as [j|] eqn:E; [|done]. apply last_true_range in E. cbn. lia. Qed.

Lemma read_gives k : gives (read_all env by_value via_ord st bound k) (live_values (store_versions puts_of segs fws h k)).
Proof using Hok Hsees.
  destruct (consulted k) as (np & base & l0 & pv & Hnp & Hover & Hin & Hl0 & Hpvt & Hplace & (part & Hpart & Hpv) & Hom).
  rewrite (live_split k l0 pv Hpvt Hom). intros rd Hrd. unfold read_all. change (sa_mem st) with mem. change (sa_frozen st) with frozen. rewrite Hnp.
  apply wp_bind. eapply wp_expect; [exact Hpart|]. rewrite Hover. apply wp_bind. eapply wp_expect; [by apply live_start_spec|].
  set (start := default 0 _). assert (0 <= start) as Hstart by apply last_from_nonneg.
  apply gives_also; [| |done].
  - assert (Z.to_nat start = Z.to_nat (start - 0)) as -> by lia. rewrite drop_from. destruct part as [s|].
    + destruct Hpv as [Hs ->]. destruct (Z.eqb_spec start 0) as [E|E]; [rewrite E|rewrite (proj2 (Z.ltb_lt _ _)) by lia; rewrite drop_nil; apply gives_nothing].
      cbn [Z.ltb Z.compare map concat]. rewrite app_nil_r. by apply part_read_gives.
    + subst pv. assert (concat (map vals_in (if 0 <? start then drop (Z.to_nat (start - (0 + 1))) [] else [None])) = []) as ->; [|apply gives_nothing].
      destruct (0 <? start); [by rewrite drop_nil|done].
  - apply gives_also; [by apply read_pieces_gives|]. apply gives_also; [by eapply read_frozen_gives, Hok|]. apply read_mem_gives.
Qed.

(** *** Counts *)

Lemma seg_count k s : s ∈ sa_segs st -> Blob.count (sg_blob s) (ev_key_base env) k = Zlen (vals_in (find_put k (puts_of s))).
Proof using Hok.
  intros Hs. destruct (seg_in s Hs) as (Hso & _). unfold Blob.count. pose proof (rp_lookup _ _ _ _ _ _ _ (so_reads _ _ _ _ _ Hso) k) as H.
  destruct (find_put k (puts_of s)) as [p|]; [|by rewrite H]. cbn [vals_in]. destruct H as (exts & -> & <- & _). unfold sum_records. generalize (exts_deref exts). clear.
  intros l. assert (forall n, fold_left (fun n e => n + records e) l n = n + sum (map records l)) as ->; [|done].
  induction l as [|e l IH]; intros n; cbn [fold_left map sum fold_right]; [lia|]. rewrite IH. unfold sum. lia.
Qed.

Lemma count_pieces_is k start l : forall i, (forall s, s ∈ l -> s ∈ sa_segs st) ->
  count_pieces env k start i l = Some (Zlen (concat (map vals_in (drop (Z.to_nat (start - (1 + i))) (map (fun s => find_put k (puts_of s)) l))))).
Proof using Hok.
  induction l as [|s l IH]; intros i Hl; cbn [count_pieces map]; [by rewrite drop_nil|]. rewrite IH by (intros x Hx; apply Hl; by right). rewrite Z.add_assoc.
  rewrite drop_from. destruct (Z.ltb_spec (1 + i) start); [done|]. replace (Z.to_nat (start - (1 + i + 1))) with 0%nat by lia. rewrite drop_0. cbn [map concat].
  destruct (held_or_none k s) as (m & Hm & Hnone); [apply Hl; by left|]. rewrite Hm. cbn [mbind option_bind]. rewrite Zlen_app. destruct m.
  - by rewrite seg_count by (apply Hl; by left).
  - by rewrite Hnone.
Qed.

Lemma count_frozen_is k start fr_ix (ts : list MemTable) hs : Forall2 (fun t h => exists c, tracks t h c) ts hs -> forall i,
  count_frozen k start fr_ix i ts = Some (Zlen (concat (map vals_in (drop (Z.to_nat (start - (fr_ix + i))) (map (fun h => said_put h k) hs))))).
Proof using Hok.
  induction 1 as [|t hw ts hs [hc Ht] _ IH]; intros i; cbn [count_frozen map]; [by rewrite drop_nil|]. rewrite IH, Z.add_assoc.
  rewrite drop_from. destruct (Z.ltb_spec (fr_ix + i) start); [done|]. replace (Z.to_nat (start - (fr_ix + i + 1))) with 0%nat by lia. rewrite drop_0. cbn [map concat].
  destruct (tracks_get _ _ _ k Ht) as (f & Hf & Hs & Hn). rewrite Hf. cbn [mbind option_bind]. rewrite Zlen_app, <- said_vals.
  unfold found_as in Hs. destruct f as [e|], (said hw k) as [x|]; try done. by rewrite (Hn e x).
Qed.

Lemma count_mem_is k start mem_ix :
  (if (start <=? mem_ix) && negb (len mem =? 0) then
     found ← get_with mem (if len mem =? 0 then 0 else mem_hash k) k (fst bound);
     match found with Some e => '(offs, _) ← live_chain mem e (snd bound); Some (Zlen offs) | None => Some 0 end
   else Some 0) = Some (Zlen (concat (map vals_in (drop (Z.to_nat (start - mem_ix)) [said_put h k])))).
Proof using Hok Hsees.
  destruct (Z.eqb_spec (len mem) 0) as [E|E].
  - rewrite andb_false_r. unfold said_put. rewrite (mem_empty k E). cbn [fmap option_fmap option_map]. by destruct (Z.to_nat _) as [|[|?]].
  - rewrite andb_true_r, drop_from. destruct (Z.leb_spec start mem_ix); [rewrite (proj2 (Z.ltb_ge _ _)) by lia|rewrite (proj2 (Z.ltb_lt _ _)) by lia; by rewrite drop_nil].
    destruct (mem_found k) as (f & Hf & Hs). rewrite Hf. cbn [mbind option_bind map concat]. rewrite app_nil_r, <- said_vals.
    unfold found_as in Hs. destruct f as [e|], (said h k) as [x|]; try done. destruct Hs as (_ & offs & Hl & Hv). rewrite Hl. cbn [mbind option_bind].
    f_equal. apply mapM_Some, Forall2_length in Hv. unfold Zlen. lia.
Qed.

Lemma count_is k : count env st bound k = Some (Zlen (live_values (store_versions puts_of segs fws h k))).
Proof using Hok Hsees.
  destruct (consulted k) as (np & base & l0 & pv & Hnp & Hover & Hin & Hl0 & Hpvt & Hplace & (part & Hpart & Hpv) & Hom).
  rewrite (live_split k l0 pv Hpvt Hom). unfold count. change (sa_mem st) with mem. change (sa_frozen st) with frozen. rewrite Hnp, Hpart, Hover. cbn [mbind option_bind snd].
  rewrite live_start_spec with (pv := pv) by done. cbn [mbind option_bind].
  set (start := default 0 _). assert (0 <= start) as Hstart by apply last_from_nonneg.
  rewrite count_pieces_is by done. cbn [mbind option_bind]. rewrite (count_frozen_is _ _ _ _ _ (sk_frozen _ _ _ _ _ _ _ _ Hok)). cbn [mbind option_bind].
  rewrite count_mem_is. cbn [mbind option_bind]. f_equal. rewrite !Zlen_app. rewrite Z.add_0_r, !Z.add_assoc. do 3 f_equal.
  assert (Z.to_nat start = Z.to_nat (start - 0)) as -> by lia. rewrite drop_from. destruct part as [s|].
  - destruct Hpv as [Hs ->]. destruct (Z.eqb_spec start 0) as [E|E]; [rewrite E|by rewrite (proj2 (Z.ltb_lt _ _)), drop_nil by lia].
    cbn [Z.ltb Z.compare map concat]. rewrite app_nil_r. apply seg_count. apply get_at_Some in Hs as [_ Hs]. by eapply list_elem_of_lookup_2.
  - subst pv. destruct (0 <? start); [by rewrite drop_nil|done].
Qed.
End answers.

(** C2: A read of the store. In a state published of opened segments -- whose
    partitions tile the keys, whose keys are inside their fences -- of frozen
    tables and of the live one, a point read hands on, and counts, the values
    the sources together have of the key from its newest tombstone on, oldest
    source first: the segments in the state's order, the frozen tables, the live
    table as far as the handle is shown it. It does so through the hash and
    through the ordered index, whatever the filters, the fences and the search
    over aligned pieces leave out, from any state earlier reads left the readers
    in; and the count, which reads no value, is of as many. *)
Theorem store_reads env by_value via_ord puts_of segs mem frozen fws w c bound h k rd : let st := state_of segs mem frozen in
  let ins := map (fun s => mkInput (sg_file s) (sg_blob s)) (sa_segs st) in
  let vs := live_values (store_versions puts_of segs fws h k) in
  store_ok env puts_of segs mem frozen fws w c -> sees mem w c bound h -> readers_ok env ins rd ->
  (exists rd', read_all env by_value via_ord st bound k rd = Some (Ok (vs, Ok (Zlen vs)), rd') /\ readers_ok env ins rd') /\
  count env st bound k = Some (Zlen vs).
Proof.
  intros st ins vs Hok Hs Hrd. split; [|by eapply count_is].
  pose proof (read_gives env by_value via_ord puts_of segs mem frozen fws w c Hok bound h Hs k rd Hrd) as H. apply wp_run in H as ([v r] & rd' & H1 & [= -> ->] & H2).
  by exists rd'.
Qed.

(** Of two pieces over one key, the newer's fence begins no lower: merges cut
    fences and never join them. *)
Definition pieces_nested (segs : list Seg) : Prop := forall a b k, a ∈ segs -> b ∈ segs -> sg_level a = 0 -> sg_level b = 0 ->
  in_fence k (seg_fence a) -> in_fence k (seg_fence b) -> sg_seq a < sg_seq b -> ble (sg_lo a) (sg_lo b).

(** C16: Where every segment is a piece or a partition (level zero or one)
    and pieces nest -- of two pieces whose fences hold a key, the one sealed
    later begins no lower, which is assumed of the segments and not proved of
    the merges that cut them -- the order a state's segments are kept in is
    their age, for any key: a partition, which holds what was merged, is
    before every piece over the key, and of two pieces over it the one sealed
    first is first. *)
Theorem segments_aged segs mem frozen i j a b k : Forall (fun s => sg_level s = 0 \/ sg_level s = 1) segs -> pieces_nested segs -> i < j ->
  get_at (sa_segs (state_of segs mem frozen)) i = Some a -> get_at (sa_segs (state_of segs mem frozen)) j = Some b ->
  in_fence k (seg_fence a) -> in_fence k (seg_fence b) -> sg_level b <= sg_level a /\ (sg_level a = 0 -> sg_seq a <= sg_seq b).
Proof.
  intros Hl Hn Hij [Hi Ha]%get_at_Some [Hj Hb]%get_at_Some Hka Hkb. cbn in Ha, Hb. assert (seg_le a b) as Hle.
  { pose proof (sort_segs_sorted segs) as Hs. eapply sorted_lookup; [exact Hs|exact Ha|exact Hb|lia]. }
  split; [by apply seg_le_level|]. intros Ha0. apply Z.le_ngt. intros Hlt.
  assert (a ∈ segs /\ b ∈ segs) as [Hai Hbi] by (split; rewrite <- sort_segs_perm; by eapply list_elem_of_lookup_2).
  pose proof (seg_le_level _ _ Hle) as Hlv. rewrite Forall_forall in Hl. assert (sg_level b = 0) as Hb0 by (destruct (Hl b Hbi); lia).
  pose proof (Hn b a k Hbi Hai Hb0 Ha0 Hkb Hka Hlt) as H1. pose proof (seg_le_lo _ _ Hle ltac:(lia)) as H2. pose proof (ble_antisym _ _ H1 H2) as E.
  unfold seg_le, seg_order in Hle. rewrite Ha0, Hb0, E, bcmp_refl in Hle. cbn in Hle. destruct (Z.compare_spec (sg_seq a) (sg_seq b)); [lia|lia|done].
Qed.

(** ** A store at work *)

Definition old_puts : list Put := [mkPut [x61] [[x00]] false; mkPut [x63] [[x09]] false].

Lemma old_puts_fit : puts_fit sample_env old_puts.
Proof.
  split; [|ascending_pair|by vm_compute].
  repeat (apply Forall_cons; split; [vm_compute; split; [done|by split]|]); by apply Forall_nil.
Qed.

Definition frozen_events : list event := [Write (Append [x63] [x03]); Commit].
Definition live_events : list event := [Write (Append [x61] [x04]); Commit; Write (Delete [x61])].

Lemma all_in_whole keys : Forall (fun k => in_fence k ([], None)) keys.
Proof. apply Forall_forall. intros k _. split; [apply ble_nil|done]. Qed.

Definition sample_puts (s : Seg) : list Put := if sg_level s =? 1 then old_puts else seg_puts.

(** A partition and a piece over it, opened, under any tables. *)
Lemma sample_segs : exists s1 s2 rd, sort_segs [s1; s2] = [s1; s2] /\ sample_puts s1 = old_puts /\ sample_puts s2 = seg_puts /\
  forall mem frozen fws w c, Forall2 (fun t h => exists c, tracks t h c) frozen fws -> tracks mem w c ->
    store_ok sample_env sample_puts [s1; s2] mem frozen fws w c /\
    readers_ok sample_env (map (fun s => mkInput (sg_file s) (sg_blob s)) (sa_segs (state_of [s1; s2] mem frozen))) rd.
Proof.
  set (n1 := par_name 1 5 ([], None)). set (n2 := pcs_name 2 9 ([], None)).
  destruct (fit_seg_file sample_env (mkBlobOptions true true false) n1 old_puts 5 sample_env_ok old_puts_fit) as (f1 & Hf1); [by vm_compute|done|].
  destruct (fit_seg_file sample_env (mkBlobOptions true true false) n2 seg_puts 5 sample_env_ok seg_puts_fit) as (f2 & Hf2); [by vm_compute|done|].
  set (disk := <[n1 := f1]> {[n2 := f2]} : Disk).
  assert (forall n, n <> n1 -> n <> n2 -> disk !! n = None) as Hno by (intros n ? ?; unfold disk; by rewrite lookup_insert_ne, lookup_singleton_ne by done).
  destruct (seg_opened sample_env disk Partition 1 5 ([], None) old_puts true true None 7) as (s1 & w1 & d1 & _ & Hs1 & _ & Hq1 & Hi1 & Hr1 & _); [apply sample_env_ok|by vm_compute|by vm_compute|done|done| |done|].
  { apply Hf1; [by apply lookup_insert_eq|]. intros oname Ho. apply Hno; intros ->; by vm_compute in Ho. }
  destruct (seg_opened sample_env disk Aligned 2 9 ([], None) seg_puts true true None 8) as (s2 & w2 & d2 & _ & Hs2 & _ & Hq2 & Hi2 & Hr2 & _); [apply sample_env_ok|by vm_compute|by vm_compute|done|done| |done|].
  { apply Hf2; [unfold disk; by rewrite lookup_insert_ne, lookup_singleton_eq by (by vm_compute)|]. intros oname Ho. apply Hno; intros ->; by vm_compute in Ho. }
  pose proof (so_level _ _ _ _ _ Hs1) as L1. pose proof (so_level _ _ _ _ _ Hs2) as L2. cbn [kind_level] in L1, L2.
  pose proof (so_fence _ _ _ _ _ Hs1) as F1. pose proof (so_fence _ _ _ _ _ Hs2) as F2.
  assert (sort_segs [s1; s2] = [s1; s2]) as Hsort by (cbn; unfold seg_order; by rewrite L1, L2).
  exists s1, s2, (mkReads [w1; w2] [] None 0). split; [done|]. split; [unfold sample_puts; by rewrite L1|]. split; [unfold sample_puts; by rewrite L2|].
  intros mem frozen fws w c Hfr Hmem. split.
  - split; [| | |exact Hfr|exact Hmem].
    + apply Forall_cons. split; [|apply Forall_cons; split; [|by apply Forall_nil]]; unfold sample_puts, seg_fence.
      * rewrite L1, F1. split; [exact Hs1|]. split; [apply all_in_whole|]. right. by split.
      * rewrite L2, F2. split; [exact Hs2|]. split; [apply all_in_whole|]. by left.
    + cbn [map]. rewrite Hi1, Hi2. apply NoDup_cons. split; [|apply NoDup_singleton]. intros H%list_elem_of_singleton. discriminate H.
    + rewrite Hsort. unfold partitions_tile, is_part. cbn [List.filter]. rewrite L1, L2. injection F1 as E1 E2. cbn. by rewrite E1, E2.
  - cbn [state_of sa_segs]. rewrite Hsort. split; [done|]. intros i b x [Hb0 Hb]%get_at_Some [_ Hx]%get_at_Some. cbn [map rd_words rd_dec rd_dec_at rd_decodes] in *.
    destruct (Z.to_nat i) as [|[|n]]; [| |done]; injection Hb as <-; injection Hx as <-; [by apply Hr1|by apply Hr2].
Qed.

(** With a frozen table and a live one: a reader at the last commit and the
    writer. *)
Lemma store_reads_witness : exists st rd, (exists rd', read_all sample_env false true st (enter true Latest (0, 0) (sa_mem st)) [x61] rd = Some (Ok ([[x00]; [x01]; [x02]; [x04]], Ok 4), rd')) /\
  (exists rd', read_all sample_env true false st (ALL, SEE_ALL) [x63] rd = Some (Ok ([[x03]], Ok 1), rd')) /\
  count sample_env st (ALL, SEE_ALL) [x61] = Some 0.
Proof.
  destruct sample_segs as (s1 & s2 & rd & Hsort & P1 & P2 & Hok).
  destruct (ofold run_event frozen_events (new, new_readers false)) as [[tf rf]|] eqn:Ef; [|by vm_compute in Ef].
  destruct (ofold run_event live_events (new, new_readers false)) as [[tm rm]|] eqn:Em; [|by vm_compute in Em].
  pose proof (tracks_run frozen_events (new, new_readers false) [] [] tf rf tracks_new ltac:(by repeat constructor) Ef) as Htf.
  pose proof (tracks_run live_events (new, new_readers false) [] [] tm rm tracks_new ltac:(by repeat constructor) Em) as Htm.
  destruct (Hok tm [tf] [[Append [x63] [x03]]] [Append [x61] [x04]; Delete [x61]] [Append [x61] [x04]]) as [Hst Hrd]; [constructor; [by eexists|constructor]|exact Htm|].
  exists (state_of [s1; s2] tm [tf]), rd.
  pose proof (store_reads sample_env false true sample_puts [s1; s2] tm [tf] _ _ _ (enter true Latest (0, 0) tm) [Append [x61] [x04]] [x61] _ Hst (or_intror (conj eq_refl eq_refl)) Hrd) as H1.
  pose proof (store_reads sample_env true false sample_puts [s1; s2] tm [tf] _ _ _ (ALL, SEE_ALL) [Append [x61] [x04]; Delete [x61]] [x63] _ Hst (or_introl (conj eq_refl eq_refl)) Hrd) as H2.
  pose proof (store_reads sample_env true false sample_puts [s1; s2] tm [tf] _ _ _ (ALL, SEE_ALL) [Append [x61] [x04]; Delete [x61]] [x61] _ Hst (or_introl (conj eq_refl eq_refl)) Hrd) as H3.
  unfold store_versions in H1, H2, H3. rewrite Hsort in H1, H2, H3. cbn [omap list_omap] in H1, H2, H3. rewrite P1, P2 in H1, H2, H3.
  destruct H1 as [(rd1 & H1 & _) _], H2 as [(rd2 & H2 & _) _], H3 as [_ H3].
  split; [exists rd1; exact H1|]. split; [exists rd2; exact H2|]. exact H3.
Defined.

Lemma piece_opened id e f : 0 <= id < U64 -> 0 <= e < U64 -> snd f <> Some [] -> exists s, sg_level s = 0 /\ sg_seq s = e /\ seg_fence s = f.
Proof.
  intros Hid He Hf. set (name := pcs_name id e f).
  destruct (fit_seg_file sample_env (mkBlobOptions true true false) name seg_puts 5 sample_env_ok seg_puts_fit) as (file & Hfile); [by vm_compute|done|].
  destruct (seg_opened sample_env {[name := file]} Aligned id e f seg_puts true true None 7) as (s & ws & d & _ & Hs & _ & Hq & _); [apply sample_env_ok|done|done|done|done| |done|].
  { apply Hfile; [by apply lookup_singleton_eq|]. intros oname Ho. apply lookup_singleton_ne. intros E.
    destruct (kind_names Aligned id e f Hid He Hf ltac:(done)) as (_ & _ & Hn). cbn [kind_name] in Hn. fold name in Hn. rewrite Hn in Ho. injection Ho as <-.
    apply (f_equal (fun l : bytes => l !! 0%nat)) in E. discriminate E. }
  exists s. split; [exact (so_level _ _ _ _ _ Hs)|]. split; [done|]. exact (so_fence _ _ _ _ _ Hs).
Qed.

(** A piece sealed over everything, and one sealed after it over half. *)
Lemma segments_aged_witness : exists a b st, sg_seq a = 9 /\ sg_seq b = 12 /\ get_at (sa_segs st) 0 = Some a /\ get_at (sa_segs st) 1 = Some b /\
  sg_level b <= sg_level a /\ (sg_level a = 0 -> sg_seq a <= sg_seq b).
Proof.
  destruct (piece_opened 3 9 ([], None)) as (a & La & Qa & Fa); [by vm_compute|by vm_compute|done|].
  destruct (piece_opened 4 12 ([x61], None)) as (b & Lb & Qb & Fb); [by vm_compute|by vm_compute|done|]. injection Fa as Fa1 Fa2. injection Fb as Fb1 Fb2.
  assert (sort_segs [b; a] = [a; b]) as Hs by (cbn; unfold seg_order; by rewrite La, Lb, Fa1, Fb1).
  exists a, b, (state_of [b; a] new []). split; [done|]. split; [done|]. cbn [state_of sa_segs]. rewrite Hs. split; [done|]. split; [done|].
  apply (segments_aged [b; a] new [] 0 1 a b [x63]); unfold state_of; cbn [sa_segs]; rewrite ?Hs; try done.
  - apply Forall_cons. split; [by left|]. apply Forall_cons. split; [by left|]. by apply Forall_nil.
  - intros x y k Hx Hy _ _ _ _. apply list_elem_of_In in Hx, Hy. destruct Hx as [<-|[<-|[]]], Hy as [<-|[<-|[]]]; rewrite ?Fa1, ?Fb1; intros Hlt; try lia; apply ble_nil.
  - unfold in_fence, seg_fence. rewrite Fa1, Fa2. split; [apply ble_nil|done].
  - unfold in_fence, seg_fence. rewrite Fb1, Fb2. by split.
Defined.
