(* ===== verification/Store.v ===== *)
(** * The writer, and its crash

    [Db] of [src/src/db.rs] over its log and its live table: [append], [put] and
    [delete] (lines 26881 to 27139), the part of [commit] that makes a batch
    durable (27168 to 27211), the replay of the log chain an open begins with
    (26591 to 26646), and the transaction, [Txn] (30466 to 30536). Left out: a
    direct run ([Options::direct_ingest] off), the replacement of a table handed
    to a seal, and what a commit does after its batch is durable -- rotation,
    upkeep, the seal. *)

From stdpp Require Import gmap.
From S2P Require Import Prelude State Varint Runs Crc Chunks BlockTable Records HashTable FlatIndex FlatRead FlatSection Reserve Superblock Blob BlobCache OrdIndex Fences Merge Names Bloom SegmentWriter SegmentHolds SegmentFinish SegmentRead Segment Inputs Compact CompactHolds CompactRun Seg Epochs Arena MemTable MemIndex Wal MemHolds MemTotal StoreRead StoreHolds.

#[local] Open Scope Z_scope.
#[local] Open Scope state_scope.

(** ** The writer *)

Inductive SyncPolicy := Always | EveryN (n : Z).

Record Db := mkDb { db_wal : Wal; db_mem : MemTable; db_readers : Readers; db_max_key : bytes; db_mem_bytes : Z; db_unsynced : Z }.

Definition raise_max (max key : bytes) : bytes := if bltb max key then key else max.

Definition append_pinned (db : Db) (key value : bytes) : option Db :=
  wal ← wal_append (db_wal db) key value;
  '(t, rd) ← MemTable.append (db_mem db) (mem_hash key) key value (db_readers db);
  Some (mkDb wal t rd (raise_max (db_max_key db) key) (db_mem_bytes db + (Zlen key + Zlen value)) (db_unsynced db)).

Definition append_batch (db : Db) (items : list (bytes * bytes)) : option Db := ofold (fun db '(k, v) => append_pinned db k v) items db.

Definition db_put (db : Db) (key value : bytes) : option Db :=
  wal ← wal_delete (db_wal db) key;
  wal ← wal_append wal key value;
  '(t, rd) ← MemTable.put (db_mem db) (mem_hash key) key value (db_readers db);
  Some (mkDb wal t rd (raise_max (db_max_key db) key) (db_mem_bytes db + (Zlen key + 16 + Zlen key + Zlen value)) (db_unsynced db)).

Definition db_delete (db : Db) (key : bytes) : option Db :=
  wal ← wal_delete (db_wal db) key;
  '(t, rd) ← MemTable.delete (db_mem db) (mem_hash key) key (db_readers db);
  Some (mkDb wal t rd (db_max_key db) (db_mem_bytes db + (Zlen key + 16)) (db_unsynced db)).

Section commits.
Context (policy : SyncPolicy) (drop_bytes : Z).

Definition sync_wal (w : Wal) : Wal := wal_drop_synced (wal_sync (wal_chain w)) drop_bytes.

Definition db_commit (db : Db) : option Db :=
  wal ← wal_mark_commit (db_wal db);
  let wal := wal_write wal in
  let mem := commit (db_mem db) in
  let unsynced := db_unsynced db + 1 in
  let due := match policy with Always => true | EveryN n => Z.max n 1 <=? unsynced end in
  Some (if due then mkDb (sync_wal wal) mem (db_readers db) (db_max_key db) (db_mem_bytes db) 0
        else mkDb wal mem (db_readers db) (db_max_key db) (db_mem_bytes db) unsynced).

(** ** A transaction *)

Definition Txn : Type := list (bytes * option bytes).
Definition txn_append (ops : Txn) (key value : bytes) : Txn := ops ++ [(key, Some value)].
Definition txn_delete (ops : Txn) (key : bytes) : Txn := ops ++ [(key, None)].

Definition touches (ops : Txn) (key : bytes) : bool := existsb (fun '(k, _) => beqb k key) ops.

Definition txn_values (ops : Txn) (key : bytes) (vals : list bytes) : list bytes :=
  fold_left (fun vals '(k, v) => if beqb k key then match v with Some v => vals ++ [v] | None => [] end else vals) ops vals.

Definition txn_count_ops (ops : Txn) (key : bytes) (n : Z) : Z :=
  fold_left (fun n '(k, v) => if beqb k key then match v with Some _ => n + 1 | None => 0 end else n) ops n.

(** What the store hands on, then the transaction's own writes in order. *)
Definition txn_read_all {S} (read : bytes -> SM S (list bytes * result Z)) (ops : Txn) (key : bytes) : SM S (list bytes * result Z) :=
  if negb (touches ops key) then read key
  else
    do* (vals, r) := read key in
    match r with
    | Err e => ret ([], Err e)
    | Ok _ => let vals := txn_values ops key vals in ret (vals, Ok (Zlen vals))
    end.

Definition txn_count (store_count : bytes -> option Z) (ops : Txn) (key : bytes) : option Z :=
  n ← store_count key; Some (txn_count_ops ops key n).

Definition txn_apply (db : Db) (op : bytes * option bytes) : option Db :=
  let '(k, v) := op in match v with Some v => append_pinned db k v | None => db_delete db k end.

Definition txn_commit (db : Db) (ops : Txn) : option Db := db ← ofold txn_apply ops db; db_commit db.
End commits.

(** ** An open *)

Definition apply_record (st : MemTable * Readers * Z) (a : applied) : option (MemTable * Readers * Z) :=
  let '(mem, rd, n) := st in
  let k := ap_key a in
  if byte_eqb (ap_kind a) WAL_DEL then
    '(mem, rd) ← MemTable.delete mem (mem_hash k) k rd; Some (mem, rd, n + (Zlen k + 16))
  else
    '(mem, rd) ← MemTable.append mem (mem_hash k) k (ap_value a) rd; Some (mem, rd, n + (Zlen k + Zlen (ap_value a))).

(** The chain of logs, by id: the table, the sequence the log has reached, the
    place of the file the writer appends to and its length to keep. *)
Fixpoint replay_logs (i : Z) (logs : list (Z * bytes)) (from valid : Z) (live : Z) (st : MemTable * Readers * Z)
    : option (result (MemTable * Readers * Z * (Z * Z * Z))) :=
  match logs with
  | [] => Some (Ok (st, (from, valid, live)))
  | (id, file) :: logs =>
      '(apps, r) ← wal_replay (Some file) id from (i =? 0);
      st ← ofold apply_record apps st;
      match r with
      | Err e => Some (Err e)
      | Ok (next, valid, ended) =>
          if ended : bool then Some (Ok (st, (from, valid, i))) else replay_logs (i + 1) logs next valid live st
      end
  end.

Definition max_key_of (t : MemTable) : option bytes :=
  ofold (fun best id => e ← entry t id; k ← MemTable.key_of t e; Some (raise_max best k)) (seqZ 0 (len t)) [].

(** A store with no segment, opened: the log kept is the chain's end, cut back
    to its last commit. *)
Definition open_log (logs : list (Z * bytes)) (sealed : Z) : option (result Db) :=
  r ← replay_logs 0 logs sealed 0 (ssub (Zlen logs) 1) (new, new_readers false, 0);
  match r with
  | Err e => Some (Err e)
  | Ok (mem, rd, n, (from, valid, live)) =>
      let mem := commit mem in
      let '(id, file) := default (0, []) (get_at logs live) in
      let file := if valid <? Zlen file then take (Z.to_nat valid) file else file in
      wal ← wal_open_append file id from;
      best ← max_key_of mem;
      Some (Ok (mkDb wal mem rd best n 0))
  end.

(** ** A run of the writer *)

Definition db_event (policy : SyncPolicy) (drop_bytes : Z) (db : Db) (ev : event) : option Db :=
  match ev with
  | Write (Append k v) => append_pinned db k v
  | Write (MemHolds.Put k v) => db_put db k v
  | Write (Delete k) => db_delete db k
  | Commit => db_commit policy drop_bytes db
  end.

(** A store made: an empty log and an empty table. *)
Definition db_create (id : Z) (kind : byte) (asym : bool) : Db := mkDb (wal_create id kind) new (new_readers asym) [] 0 0.

(** A write as the log has it, and a record as a write. *)
Definition ops_of (o : write_op) : list op :=
  match o with Append k v => [PutOp k v] | MemHolds.Put k v => [DelOp k; PutOp k v] | Delete k => [DelOp k] end.
Definition of_op (o : op) : write_op := match o with PutOp k v => Append k v | DelOp k => Delete k end.
Definition logged (h : list write_op) : list op := concat (map ops_of h).

Lemma logged_snoc h o : logged (h ++ [o]) = logged h ++ ops_of o.
Proof. unfold logged. rewrite map_app, concat_app. cbn. by rewrite app_nil_r. Qed.

Lemma fold_said h k s : fold_left (tell k) (map of_op (logged h)) s = fold_left (tell k) h s.
Proof.
  revert s. induction h as [|o h IH]; intros s; [done|]. change (logged (o :: h)) with (ops_of o ++ logged h). rewrite map_app, fold_left_app, IH. cbn [fold_left]. f_equal.
  destruct o as [k' v|k' v|k']; cbn; [done| |done]. unfold tell. cbn. by destruct (beqb k' k).
Qed.

(** What is replayed says of every key what was written says. *)
Lemma logged_said h k : said (map of_op (logged h)) k = said h k.
Proof. apply fold_said. Qed.

(** *** The log *)

Lemma recs_app seq a b : recs_bytes seq (a ++ b) = recs_bytes seq a ++ recs_bytes (seq + Zlen a) b.
Proof.
  revert seq. induction a as [|o a IH]; intros seq; cbn [app recs_bytes]; [by rewrite (@Zlen_nil op), Z.add_0_r|].
  rewrite IH, <- app_assoc, Zlen_cons. by rewrite Z.add_assoc.
Qed.

Lemma log_app seed seq a b : log_bytes seed seq (a ++ b) = log_bytes seed seq a ++ log_bytes seed (log_end seq a) b.
Proof. revert seq. induction a as [|ops a IH]; intros seq; cbn [app log_bytes log_end]; [done|]. by rewrite IH, <- app_assoc. Qed.

Lemma log_end_app seq a b : log_end seq (a ++ b) = log_end (log_end seq a) b.
Proof. revert seq. induction a as [|ops a IH]; intros seq; cbn [app log_end]; [done|]. by rewrite IH. Qed.

(** The file holds the batches committed; what is staged is the records since. *)
Record log_ok (id : Z) (w : Wal) (batches : list (list op)) (pend : list op) : Prop := {
  lg_file : exists kind, (kind = WAL_CHAINED \/ kind = WAL_LOOSE) /\ w_file w = wal_header kind ++ log_bytes (wal_seed id) 0 batches /\ w_loose w = byte_eqb kind WAL_LOOSE;
  lg_written : w_written w = Zlen (w_file w);
  lg_seed : w_seed w = wal_seed id;
  lg_pending : w_pending w = recs_bytes (log_end 0 batches) pend;
  lg_seq : w_seq w = log_end 0 batches + Zlen pend;
  lg_batches : Forall batch_ok batches;
  lg_pend : Forall Wal.op_ok pend
}.

Lemma log_ok_create id kind : kind = WAL_CHAINED \/ kind = WAL_LOOSE -> log_ok id (wal_create id kind) [] [].
Proof.
  intros Hk. split; [|by destruct Hk as [-> | ->]|done|done|done|constructor|constructor]. exists kind. split; [done|]. split; [|done]. cbn [log_bytes]. by rewrite app_nil_r.
Qed.

Lemma log_ok_op id w batches pend o : log_ok id w batches pend -> Wal.op_ok o -> exists w', wal_op w o = Some w' /\ log_ok id w' batches (pend ++ [o]) /\ w_file w' = w_file w.
Proof.
  intros [Hf Hw Hs Hp Hq Hb Hpe] Ho. rewrite wal_op_bytes by done. eexists. split; [done|]. split; [|done]. split; cbn [set_pending w_file w_loose w_written w_seed w_pending w_seq]; try done.
  - rewrite Hp, Hq, recs_app. cbn [recs_bytes]. by rewrite app_nil_r.
  - rewrite Hq, Zlen_app. change (Zlen [o]) with 1. lia.
  - apply Forall_app. by repeat constructor.
Qed.

Lemma write_at_tail (file b : bytes) : write_at file (Zlen file) b = file ++ b.
Proof. rewrite <- (app_nil_r file) at 1. rewrite write_at_end by done. by rewrite drop_nil, app_nil_r. Qed.

(** The batches after a commit. *)
Definition closed (batches : list (list op)) (pend : list op) : list (list op) := match pend with [] => batches | _ => batches ++ [pend] end.

Lemma closed_concat batches pend : concat (closed batches pend) = concat batches ++ pend.
Proof. destruct pend as [|o pend]; cbn [closed]; [by rewrite app_nil_r|]. rewrite concat_app. cbn [concat]. by rewrite app_nil_r. Qed.

Lemma log_ok_commit id w batches pend : log_ok id w batches pend -> exists w1, wal_mark_commit w = Some w1 /\ log_ok id (wal_write w1) (closed batches pend) [].
Proof.
  intros [Hf Hw Hs Hp Hq Hb Hpe]. unfold wal_mark_commit. destruct pend as [|o pend].
  - cbn [recs_bytes] in Hp. rewrite Hp. cbn [Zlen length Z.of_nat Z.eqb negb]. exists w. split; [done|]. unfold wal_write. rewrite Hp. cbn [Zlen length Z.of_nat Z.eqb closed]. by split.
  - set (ops := o :: pend) in *. assert (ops <> []) as Hne by done. pose proof (recs_nonempty (log_end 0 batches) ops Hne) as Hr. rewrite <- Hp in Hr.
    rewrite (proj2 (Z.eqb_neq _ 0)) by lia. cbn [negb].
    rewrite (wal_frame_bytes _ WAL_COMMIT [] [] (le32 (Z.lxor (crc32 (w_pending w)) (w_seed w)))); [|done|done|done].
    eexists. split; [reflexivity|]. unfold wal_write, set_pending. cbn [w_pending w_seq w_seed w_file w_written w_synced w_loose w_dropped].
    change (byte_eqb WAL_COMMIT WAL_COMMIT) with true. cbv iota. rewrite (proj2 (Z.eqb_neq _ 0)) by (rewrite Zlen_app; match goal with |- context [Zlen (frame_bytes ?a ?b)] => pose proof (Zlen_nonneg (frame_bytes a b)) end; lia).
    rewrite Hw, write_at_tail, Hp, Hs, Hq. destruct Hf as (kind & Hk & Hfile & Hloose). change (closed batches ops) with (batches ++ [ops]).
    fold (commit_frame (wal_seed id) (log_end 0 batches + Zlen ops) (recs_bytes (log_end 0 batches) ops)). fold (batch_bytes (wal_seed id) (log_end 0 batches) ops).
    split; cbn [w_file w_loose w_written w_seed w_pending w_seq]; try done.
    + exists kind. split; [done|]. split; [|done]. rewrite Hfile, <- app_assoc, log_app. cbn [log_bytes]. by rewrite app_nil_r.
    + by rewrite Zlen_app.
    + rewrite log_end_app. cbn [log_end]. rewrite (@Zlen_nil op). lia.
    + apply Forall_app. split; [done|]. constructor; [by split|constructor].
Qed.

Lemma log_ok_sync id w batches stride : log_ok id w batches [] -> log_ok id (sync_wal stride w) batches [].
Proof.
  intros H. unfold sync_wal. assert (forall w, log_ok id w batches [] -> log_ok id (wal_drop_synced w stride) batches []) as Hd.
  { intros x [Hf Hw Hs Hp Hq Hb Hpe]. unfold wal_drop_synced. destruct (stride =? 0); [by split|]. destruct (_ <=? _); by split. }
  apply Hd. clear Hd. assert (log_ok id (wal_chain w) batches []) as Hc; [|destruct Hc as [Hf Hw Hs Hp Hq Hb Hpe]; by split].
  unfold wal_chain. destruct (w_loose w) eqn:El; cbn [negb]; [|done]. destruct H as [(kind & Hk & Hf & Hl) Hw Hs Hp Hq Hb Hpe].
  assert (write_at (w_file w) (Zlen WAL_HEAD) [WAL_CHAINED] = wal_header WAL_CHAINED ++ log_bytes (wal_seed id) 0 batches) as E.
  { rewrite Hf. unfold write_at, wal_header. change (Z.to_nat (Zlen WAL_HEAD)) with (length WAL_HEAD). rewrite <- !app_assoc, take_app_length. f_equal. }
  split; cbn [w_file w_loose w_written w_seed w_pending w_seq]; try done.
  - exists WAL_CHAINED. split; [by left|]. by split.
  - rewrite E, Hw, Hf, !Zlen_app. done.
Qed.

(** *** The table and the log together *)

(** What a writer keeps: the table answers the writes taken and, below its last
    commit, those committed; the log's batches are what was committed, and what
    is staged behind them is the rest. *)
Record db_ok (id : Z) (db : Db) (w c : list write_op) : Prop := {
  dk_mem : tracks (db_mem db) w c;
  dk_log : exists batches pend, log_ok id (db_wal db) batches pend /\ concat batches = logged c /\ concat batches ++ pend = logged w
}.

Lemma db_ok_create id kind asym : kind = WAL_CHAINED \/ kind = WAL_LOOSE -> db_ok id (db_create id kind asym) [] [].
Proof. intros Hk. split; [apply tracks_new|]. exists [], []. split; [by apply log_ok_create|by split]. Qed.

(** A write a log frame and a table can take. *)
Lemma small_ops o : op_small o -> Forall Wal.op_ok (ops_of o).
Proof.
  intros [Hk Hv]. assert (forall k v, 0 < Zlen k < U16 -> CHUNK_HDR + Zlen v <= 2 ^ ARENA_SHIFT -> Wal.op_ok (PutOp k v)) as Hp.
  { intros k v H1 H2. unfold Wal.op_ok, CHUNK_HDR, ARENA_SHIFT, U16, U32 in *. cbn. lia. }
  assert (forall k, 0 < Zlen k < U16 -> Wal.op_ok (DelOp k)) as Hd. { intros k H. unfold Wal.op_ok, U16, U32 in *. cbn. rewrite (@Zlen_nil byte). lia. }
  destruct o as [k v|k v|k]; cbn [ops_of MemHolds.op_key] in *; repeat constructor; try (by apply Hd); apply Hp; tauto.
Qed.

Section writer.
Context (policy : SyncPolicy) (drop_bytes : Z).

Lemma log_ok_ops id w batches pend ops : log_ok id w batches pend -> Forall Wal.op_ok ops -> exists w', ofold wal_op ops w = Some w' /\ log_ok id w' batches (pend ++ ops) /\ w_file w' = w_file w.
Proof.
  intros Hl Ho. revert w pend Hl. induction Ho as [|o ops Ho _ IH]; intros w pend Hl; [exists w; by rewrite app_nil_r|]. cbn [ofold].
  destruct (log_ok_op id w batches pend o Hl Ho) as (w1 & -> & Hl1 & Hf1). cbn [mbind option_bind]. destruct (IH w1 _ Hl1) as (w2 & -> & Hl2 & Hf2).
  rewrite <- app_assoc in Hl2. exists w2. by rewrite Hf2, Hf1.
Qed.

(** A write is its log records and its table operation. *)
Lemma write_is db o : exists mk, db_event policy drop_bytes db (Write o) = (w ← ofold wal_op (ops_of o) (db_wal db); '(t, rd) ← run_op (db_mem db, db_readers db) o; Some (mk w t rd)) /\
  forall w t rd, db_wal (mk w t rd) = w /\ db_mem (mk w t rd) = t /\ db_readers (mk w t rd) = rd.
Proof.
  destruct o as [k v|k v|k]; cbn [db_event ops_of ofold run_op].
  - exists (fun w t rd => mkDb w t rd (raise_max (db_max_key db) k) (db_mem_bytes db + (Zlen k + Zlen v)) (db_unsynced db)). split; [|done]. unfold append_pinned, wal_op. by destruct (wal_append _ _ _).
  - exists (fun w t rd => mkDb w t rd (raise_max (db_max_key db) k) (db_mem_bytes db + (Zlen k + 16 + Zlen k + Zlen v)) (db_unsynced db)). split; [|done]. unfold db_put, wal_op.
    destruct (wal_delete _ _) as [w|]; [|done]. cbn [mbind option_bind]. by destruct (wal_append _ _ _).
  - exists (fun w t rd => mkDb w t rd (db_max_key db) (db_mem_bytes db + (Zlen k + 16)) (db_unsynced db)). split; [|done]. unfold db_delete, wal_op. by destruct (wal_delete _ _).
Qed.

Lemma event_ok id db w c ev : db_ok id db w c -> ev_small ev -> is_Some (run_event (db_mem db, db_readers db) ev) ->
  exists db', db_event policy drop_bytes db ev = Some db' /\ run_event (db_mem db, db_readers db) ev = Some (db_mem db', db_readers db') /\
    db_ok id db' (fst (note (w, c) ev)) (snd (note (w, c) ev)).
Proof.
  intros [Ht (batches & pend & Hl & Hc & Hw)] Hs [[t rd] Hrun]. destruct ev as [o|].
  - destruct (write_is db o) as (mk & -> & Hmk). destruct (log_ok_ops id _ _ _ _ Hl (small_ops o Hs)) as (w' & -> & Hl' & _). cbn [mbind option_bind].
    cbn [run_event] in *. rewrite Hrun. cbn [mbind option_bind]. eexists. split; [done|]. destruct (Hmk w' t rd) as (E1 & E2 & E3). rewrite E2, E3. split; [done|]. split.
    + rewrite E2. eapply tracks_event; [exact Ht|by apply small_fits|exact Hrun].
    + rewrite E1. exists batches, (pend ++ ops_of o). split; [done|]. cbn [note fst snd]. split; [done|]. by rewrite logged_snoc, <- Hw, app_assoc.
  - cbn [run_event] in Hrun. injection Hrun as <- <-. cbn [db_event]. unfold db_commit. destruct (log_ok_commit id _ _ _ Hl) as (w1 & -> & Hl1). cbn [mbind option_bind].
    set (due := match policy with Always => true | EveryN n => _ end). eexists. split; [reflexivity|].
    pose proof (tracks_event _ (db_readers db) w c Commit _ _ Ht I eq_refl) as Ht'. split; [by destruct due|]. split; [by destruct due|].
    exists (closed batches pend), []. split; [destruct due; [by apply log_ok_sync|done]|]. cbn [note fst snd]. by rewrite app_nil_r, closed_concat.
Qed.

Lemma run_ok id evs db w c t rd : db_ok id db w c -> Forall ev_small evs -> ofold run_event evs (db_mem db, db_readers db) = Some (t, rd) ->
  exists db', ofold (db_event policy drop_bytes) evs db = Some db' /\ db_ok id db' (fst (fold_left note evs (w, c))) (snd (fold_left note evs (w, c))).
Proof.
  intros Hok Hs. revert db w c Hok. induction Hs as [|ev evs Hev _ IH]; intros db w c Hok Hrun; [by exists db|]. cbn [ofold] in *.
  destruct (run_event (db_mem db, db_readers db) ev) as [[t1 rd1]|] eqn:E; [|done]. cbn [mbind option_bind] in Hrun.
  destruct (event_ok id db w c ev Hok Hev) as (db1 & H1 & H2 & H3); [by rewrite E|]. rewrite E in H2. injection H2 as -> ->. rewrite H1. cbn [mbind option_bind].
  destruct (IH db1 _ _ H3 Hrun) as (db' & H4 & H5). exists db'. split; [done|]. cbn [fold_left]. by rewrite (surjective_pairing (note (w, c) ev)).
Qed.
End writer.

(** ** What an open replays *)

Lemma applied_all ops seq : 0 <= seq -> ops_applied 0 seq ops = map op_applied ops.
Proof.
  revert seq. induction ops as [|o ops IH]; intros seq Hs; [done|]. cbn [ops_applied map]. by rewrite (proj2 (Z.leb_le 0 seq)), IH by lia.
Qed.

Lemma log_applied_all batches seq : 0 <= seq -> log_applied 0 seq batches = map op_applied (concat batches).
Proof.
  revert seq. induction batches as [|ops batches IH]; intros seq Hs; [done|]. cbn [log_applied concat]. pose proof (Zlen_nonneg ops).
  by rewrite applied_all, IH, map_app by lia.
Qed.

Lemma apply_is t rd n o : exists m, apply_record (t, rd, n) (op_applied o) = ('(t, rd) ← run_op (t, rd) (of_op o); Some (t, rd, m)).
Proof. destruct o as [k v|k]; [exists (n + (Zlen k + Zlen v))|exists (n + (Zlen k + 16))]; done. Qed.

Lemma apply_run ops t rd n t' rd' : ofold run_event (map (fun o => Write (of_op o)) ops) (t, rd) = Some (t', rd') ->
  exists m, ofold apply_record (map op_applied ops) (t, rd, n) = Some (t', rd', m).
Proof.
  revert t rd n. induction ops as [|o ops IH]; intros t rd n; cbn [map ofold]; [intros [= -> ->]; by exists n|].
  cbn [run_event]. destruct (apply_is t rd n o) as (m & ->). destruct (run_op (t, rd) (of_op o)) as [[t1 rd1]|]; [|done]. cbn [mbind option_bind]. apply IH.
Qed.

Lemma max_key_total t w c : tracks t w c -> is_Some (max_key_of t).
Proof.
  intros [(g & [Hb _ _ _] & _) _]. unfold max_key_of. destruct (b_entries _ _ Hb) as (_ & Hlen & _). rewrite Hlen.
  assert (forall ids best, (forall id, id ∈ ids -> 0 <= id < Zlen g) -> is_Some (ofold (fun best id => e ← entry t id; k ← MemTable.key_of t e; Some (raise_max best k)) ids best)) as H.
  { induction ids as [|id ids IH]; intros best Hin; [done|]. cbn [ofold]. destruct (get_at_is_Some g id) as [[k ch] Hg]; [apply Hin; by left|].
    destruct (b_entry _ _ Hb _ _ _ Hg) as (e & He & _ & Hkl & _ & Hk & _). assert (entry t id = Some (fat_entry e)) as -> by (unfold entry; by rewrite He). cbn [mbind option_bind].
    unfold MemTable.key_of. cbn [fat_entry n_key_off n_klen]. rewrite Hkl, Hk. cbn [mbind option_bind]. apply IH. intros x Hx. apply Hin. by right. }
  apply H. intros id Hid%elem_of_seqZ. lia.
Qed.

(** *** Within a table's room *)

Definition writes (evs : list event) : list write_op := omap (fun ev => match ev with Write o => Some o | Commit => None end) evs.
Definition tot (f : write_op -> Z) (h : list write_op) : Z := total f (map Write h).

Lemma tot_app f a b : tot f (a ++ b) = tot f a + tot f b.
Proof. unfold tot, total. induction a as [|o a IH]; cbn [app map fold_right]; [lia|]. rewrite IH. lia. Qed.

Lemma total_writes f evs : total f evs = tot f (writes evs).
Proof. unfold tot, total. induction evs as [|[o|] evs IH]; cbn; [done|by rewrite IH|by rewrite IH]. Qed.

Lemma tot_logged f m h : (forall o, tot f (map of_op (ops_of o)) <= m * f o) -> tot f (map of_op (logged h)) <= m * tot f h.
Proof.
  intros Hf. induction h as [|o h IH]; [unfold tot, total; cbn; lia|]. change (logged (o :: h)) with (ops_of o ++ logged h). rewrite map_app, tot_app.
  specialize (Hf o). unfold tot in *. cbn [map total fold_right]. fold (total f (map Write h)). lia.
Qed.

(** What was committed is the beginning of what was written. *)
Lemma note_writes evs w c r : w = c ++ r -> fst (fold_left note evs (w, c)) = w ++ writes evs /\ exists r', fst (fold_left note evs (w, c)) = snd (fold_left note evs (w, c)) ++ r'.
Proof.
  revert w c r. induction evs as [|[o|] evs IH]; intros w c r Hr; cbn [fold_left note fst snd].
  - change (writes []) with (@nil write_op). rewrite app_nil_r. split; [done|by exists r].
  - destruct (IH (w ++ [o]) c (r ++ [o])) as [H1 H2]; [by rewrite Hr, <- app_assoc|]. split; [|done]. rewrite H1. change (writes (Write o :: evs)) with (o :: writes evs). by rewrite <- app_assoc.
  - destruct (IH w w []) as [H1 H2]; [by rewrite app_nil_r|]. by split.
Qed.

(** Writes a table takes twice over: a put is logged as two records. *)
Record in_room (h : list write_op) : Prop := {
  ir_small : Forall op_small h;
  ir_vals : 2 * tot chunk_bytes h <= VAL_ROOM;
  ir_keys : 4 * tot key_bytes h < U32;
  ir_count : 2 * tot (fun _ => 1) h <= 2 ^ 28
}.

Lemma tot_nonneg f h : (forall o, 0 <= f o) -> 0 <= tot f h.
Proof. apply total_nonneg. Qed.

Lemma chunk_nonneg o : 0 <= chunk_bytes o.
Proof. destruct o as [k v|k v|k]; cbn; unfold CHUNK_HDR; try pose proof (Zlen_nonneg v); lia. Qed.

Lemma in_room_prefix a b : in_room (a ++ b) -> in_room a.
Proof.
  intros [Hs Hv Hk Hn]. rewrite tot_app in Hv, Hk, Hn. apply Forall_app in Hs as [Hs _].
  pose proof (tot_nonneg chunk_bytes b chunk_nonneg). pose proof (tot_nonneg key_bytes b ltac:(intros; apply Zlen_nonneg)). pose proof (tot_nonneg (fun _ => 1) b ltac:(lia)).
  split; [done|lia..].
Qed.

Lemma of_op_small o : op_small o -> Forall op_small (map of_op (ops_of o)).
Proof. intros [Hk Hv]. destruct o as [k v|k v|k]; cbn in *; repeat constructor; cbn; tauto || lia. Qed.

Lemma logged_small h : Forall op_small h -> Forall op_small (map of_op (logged h)).
Proof.
  induction 1 as [|o h Ho _ IH]; [constructor|]. change (logged (o :: h)) with (ops_of o ++ logged h). rewrite map_app. apply Forall_app. split; [by apply of_op_small|done].
Qed.

Lemma replay_returns h rd : in_room h -> exists t rd', ofold run_event (map (fun o => Write (of_op o)) (logged h)) (new, rd) = Some (t, rd').
Proof.
  intros [Hs Hv Hk Hn].
  pose proof (tot_logged chunk_bytes 1 h ltac:(intros [k v|k v|k]; unfold tot, total; cbn; unfold CHUNK_HDR; lia)) as H1.
  pose proof (tot_logged key_bytes 2 h ltac:(intros [k v|k v|k]; unfold tot, total; cbn; unfold key_bytes; cbn; pose proof (Zlen_nonneg k); lia)) as H2.
  pose proof (tot_logged (fun _ => 1) 2 h ltac:(intros [k v|k v|k]; unfold tot, total; cbn; lia)) as H3. unfold tot in H1, H2, H3. rewrite map_map in H1, H2, H3.
  apply run_returns; [|unfold tot in *; lia..].
  pose proof (logged_small h Hs) as Hl. rewrite Forall_map in Hl. by apply Forall_map.
Qed.

Lemma logged_back ops : logged (map of_op ops) = ops.
Proof. unfold logged. induction ops as [|[k v|k] ops IH]; [done|cbn; by rewrite IH|cbn; by rewrite IH]. Qed.

Lemma writes_of ops : fold_left note (map (fun o => Write (of_op o)) ops ++ [Commit]) ([], []) = (map of_op ops, map of_op ops).
Proof.
  rewrite fold_left_app. cbn [fold_left note]. assert (forall w c, fst (fold_left note (map (fun o => Write (of_op o)) ops) (w, c)) = w ++ map of_op ops) as H.
  { induction ops as [|o ops IH]; intros w c; cbn [map fold_left note fst snd]; [by rewrite app_nil_r|]. rewrite IH, <- app_assoc. done. }
  by rewrite H.
Qed.

(** A log of whole batches, with any part short of the whole of one more, opens
    to a store of what the batches say. *)
Lemma open_logged id kind batches torn k h : kind = WAL_CHAINED \/ kind = WAL_LOOSE -> Forall batch_ok batches -> Forall Wal.op_ok torn ->
  concat batches = logged h -> in_room h -> log_end 0 batches + Zlen torn < U64 ->
  0 <= k < Zlen (batch_bytes (wal_seed id) (log_end 0 batches) torn) ->
  Zlen (wal_header kind ++ log_bytes (wal_seed id) 0 batches) + Zlen (batch_bytes (wal_seed id) (log_end 0 batches) torn) + U32 + 8 < U64 ->
  exists db, open_log [(id, log_file id kind 0 batches torn k)] 0 = Some (Ok db) /\ db_ok id db (map of_op (logged h)) (map of_op (logged h)).
Proof.
  intros Hkind Hb Ht Hh Hroom Hle Hk Hu. pose proof (Zlen_nonneg torn). pose proof (log_end_ge 0 batches) as Hge.
  unfold open_log. cbn [replay_logs]. rewrite (wal_replay_log id 0 (0 =? 0) kind 0 batches torn k) by (done || lia || (eapply Forall_impl; [exact Hb|by intros ? []])).
  cbn [mbind option_bind]. rewrite log_applied_all, Hh by lia.
  destruct (replay_returns h (new_readers false) Hroom) as (t & rd & Hrun). destruct (apply_run _ _ _ 0 _ _ Hrun) as (m & ->). cbn [mbind option_bind replay_logs].
  change (ssub (Zlen [(id, log_file id kind 0 batches torn k)]) 1) with 0. rewrite get_at_here by done. cbn [from_option Datatypes.id].
  set (whole := wal_header kind ++ log_bytes (wal_seed id) 0 batches) in *.
  assert (log_file id kind 0 batches torn k = whole ++ take (Z.to_nat k) (batch_bytes (wal_seed id) (log_end 0 batches) torn)) as Ef by (unfold log_file, whole; by rewrite app_assoc).
  assert ((if Zlen whole <? Zlen (log_file id kind 0 batches torn k) then take (Z.to_nat (Zlen whole)) (log_file id kind 0 batches torn k) else log_file id kind 0 batches torn k) = whole) as Ecut.
  { rewrite Ef, Zlen_to_nat, take_app_length. destruct (Z.ltb_spec (Zlen whole) (Zlen (whole ++ take (Z.to_nat k) (batch_bytes (wal_seed id) (log_end 0 batches) torn)))) as [|Hle']; [done|].
    rewrite Zlen_app, Zlen_take in Hle'. assert (k = 0) as -> by lia. cbn [Z.to_nat take]. by rewrite app_nil_r. }
  rewrite Ecut. pose proof Hkind as Hk8. assert (Zlen whole = 8 + Zlen (log_bytes (wal_seed id) 0 batches)) as Hwl by (unfold whole; rewrite Zlen_app; by destruct Hk8 as [-> | ->]).
  pose proof (Zlen_nonneg (log_bytes (wal_seed id) 0 batches)). unfold wal_open_append. rewrite (proj2 (Z.eqb_neq _ 0)) by lia.
  assert (get_range whole 0 8 = Some (wal_header kind)) as ->.
  { unfold whole. apply get_range_here; [done|]. by destruct Hk8 as [-> | ->]. }
  cbn [mbind option_bind]. rewrite wal_kind_header by done.
  assert (tracks (commit t) (map of_op (logged h)) (map of_op (logged h))) as Htr.
  { pose proof (tracks_run (map (fun o => Write (of_op o)) (logged h) ++ [Commit]) (new, new_readers false) [] [] (commit t) rd tracks_new) as H'.
    rewrite writes_of in H'. cbn [fst snd] in H'. apply H'; [|rewrite ofold_app, Hrun; done]. apply Forall_app. split; [|by repeat constructor].
    apply Forall_map. pose proof (logged_small h (ir_small _ Hroom)) as Hs. rewrite Forall_map in Hs. eapply Forall_impl; [exact Hs|]. intros o Ho. by apply small_fits. }
  destruct (max_key_total _ _ _ Htr) as [best Hbest]. rewrite Hbest. cbn [mbind option_bind]. eexists. split; [reflexivity|]. split; [exact Htr|]. exists batches, []. cbn [db_wal]. split.
  - split; cbn [w_file w_loose w_written w_seed w_pending w_seq]; try done; [by exists kind|rewrite (@Zlen_nil op); lia].
  - by rewrite app_nil_r, logged_back, Hh.
Qed.

(** ** The writer, crashed *)

Lemma room_run evs rd : in_room (writes evs) -> exists t rd', ofold run_event evs (new, rd) = Some (t, rd').
Proof.
  intros [Hs Hv Hk Hn]. pose proof (tot_nonneg key_bytes (writes evs) ltac:(intros; apply Zlen_nonneg)). pose proof (tot_nonneg (fun _ => 1) (writes evs) ltac:(lia)).
  apply run_returns; [|rewrite total_writes; lia..]. clear -Hs. induction evs as [|[o|] evs IH]; [constructor| |constructor; [done|by apply IH]].
  change (writes (Write o :: evs)) with (o :: writes evs) in Hs. apply Forall_cons in Hs as [Ho Hs]. constructor; [done|by apply IH].
Qed.

Lemma small_events evs : in_room (writes evs) -> Forall ev_small evs.
Proof.
  intros [Hs _ _ _]. induction evs as [|[o|] evs IH]; [constructor| |constructor; [done|by apply IH]].
  change (writes (Write o :: evs)) with (o :: writes evs) in Hs. apply Forall_cons in Hs as [Ho Hs]. constructor; [done|by apply IH].
Qed.

(** C1: A store survives a crash. Whatever run of appends, puts, deletes and
    commits a writer took, within the room of a table, it returns, and so does a
    commit after it; and where that commit's write is cut at any byte, an open of
    what is on disk returns a store that says of every key what the writes up to
    the last whole commit say -- none of the batch that was cut, all of it where
    it was not -- and that goes on as a writer's own: what it answers is
    committed, and its log is the batches it was opened of. *)
Theorem crash_recovers id kind asym policy drop_bytes evs : kind = WAL_CHAINED \/ kind = WAL_LOOSE -> in_room (writes evs) ->
  exists db db', ofold (db_event policy drop_bytes) evs (db_create id kind asym) = Some db /\ db_commit policy drop_bytes db = Some db' /\
    db_ok id db (fst (history evs)) (snd (history evs)) /\
    forall n, w_written (db_wal db) <= n <= w_written (db_wal db') -> w_written (db_wal db') + 2 * U32 < U64 -> w_seq (db_wal db') < U64 ->
      let h := if n <? w_written (db_wal db') then snd (history evs) else fst (history evs) in
      exists db2 h2, open_log [(id, take (Z.to_nat n) (w_file (db_wal db')))] 0 = Some (Ok db2) /\ db_ok id db2 h2 h2 /\
        forall k, said h2 k = said h k /\ table_says (db_mem db2) (mem_hash k) k (m_len (committed_at (db_mem db2))) (m_wm (committed_at (db_mem db2))) = Some (said h k).
Proof.
  intros Hkind Hroom. destruct (room_run evs (new_readers asym) Hroom) as (t & rd & Hrun).
  destruct (run_ok policy drop_bytes id evs (db_create id kind asym) [] [] t rd (db_ok_create id kind asym Hkind) (small_events evs Hroom) Hrun) as (db & Hdb & Hok).
  destruct (note_writes evs [] [] [] eq_refl) as [Hw (r & Hpre)]. cbn [app] in Hw. fold (history evs) in *. rewrite <- Hw in Hroom.
  destruct (event_ok policy drop_bytes id db _ _ Commit Hok I) as (db' & Hdb' & _ & Hok'); [done|]. cbn [db_event] in Hdb'.
  exists db, db'. split; [done|]. split; [done|]. split; [done|]. intros n Hn Hsize Hseq h. subst h.
  destruct Hok as [_ (batches & pend & Hl & Hc & Hcw)]. destruct (log_ok_commit id _ _ _ Hl) as (w1 & Hm & Hl1).
  unfold db_commit in Hdb'. rewrite Hm in Hdb'. cbn [mbind option_bind] in Hdb'.
  assert (log_ok id (db_wal db') (closed batches pend) []) as Hl'.
  { injection Hdb' as <-. destruct (match policy with Always => _ | EveryN _ => _ end); [by apply log_ok_sync|done]. }
  destruct Hl as [(kd & _ & Hf0 & _) Hw0 _ _ Hq0 Hb0 Hp0]. destruct Hl' as [(kd' & Hkd' & Hf' & _) Hw' _ _ Hq' Hb' _].
  assert (Zlen (wal_header kd') = Zlen (wal_header kd)) as Hhead by done.
  set (h := if n <? w_written (db_wal db') then snd (history evs) else fst (history evs)).
  assert (exists bs torn k, take (Z.to_nat n) (w_file (db_wal db')) = log_file id kd' 0 bs torn k /\ Forall batch_ok bs /\ Forall Wal.op_ok torn /\ concat bs = logged h /\ in_room h /\
    log_end 0 bs + Zlen torn < U64 /\ 0 <= k < Zlen (batch_bytes (wal_seed id) (log_end 0 bs) torn) /\
    Zlen (wal_header kd' ++ log_bytes (wal_seed id) 0 bs) + Zlen (batch_bytes (wal_seed id) (log_end 0 bs) torn) + U32 + 8 < U64) as (bs & torn & k & -> & H1 & H2 & H3 & H4 & H5 & H6 & H7).
  - unfold h. destruct (Z.ltb_spec n (w_written (db_wal db'))) as [Hlt|Hge].
    + exists batches, pend, (n - w_written (db_wal db)). destruct pend as [|o pend].
      { cbn [closed] in Hf'. rewrite Hw0, Hf0 in Hn. rewrite Hw', Hf' in Hlt. rewrite !Zlen_app in *. lia. }
      change (closed batches (o :: pend)) with (batches ++ [o :: pend]) in *. rewrite Hw', Hf', log_app, !Zlen_app in Hlt. rewrite Hw', Hf', log_app in Hsize.
      rewrite Hw0, Hf0, Zlen_app in Hn. cbn [log_bytes] in *. rewrite app_nil_r in *. rewrite log_end_app in Hq'. cbn [log_end] in Hq'. rewrite (@Zlen_nil op) in Hq'.
      split; [|split; [done|split; [done|split; [done|split; [|split; [lia|]]]]]].
      * unfold log_file. rewrite Hf', log_app. cbn [log_bytes]. rewrite app_nil_r, Hw0, Hf0, app_assoc. pose proof (Zlen_nonneg (wal_header kd')). pose proof (Zlen_nonneg (log_bytes (wal_seed id) 0 batches)).
        rewrite take_app_ge by (rewrite length_app; unfold Zlen in *; lia). rewrite app_assoc. f_equal. f_equal. rewrite length_app, Zlen_app. unfold Zlen in *. lia.
      * rewrite Hpre in Hroom. by eapply in_room_prefix.
      * rewrite !Zlen_app in *. rewrite Hw0, Hf0, Zlen_app. split; [lia|]. unfold U32 in *. lia.
    + exists (closed batches pend), [], 0. assert (n = w_written (db_wal db')) as -> by lia. rewrite closed_concat, (@Zlen_nil op). rewrite (@Zlen_nil op) in Hq'.
      assert (Zlen (batch_bytes (wal_seed id) (log_end 0 (closed batches pend)) []) = 21) as Hcb.
      { unfold batch_bytes. cbn [recs_bytes app]. unfold commit_frame. rewrite Zlen_frame, Zlen_body. done. }
      split; [|split; [done|split; [by apply Forall_nil|split; [done|split; [done|split; [lia|]]]]]].
      * unfold log_file. cbn [Z.to_nat take]. rewrite app_nil_r, <- Hf', Hw'. apply take_ge. unfold Zlen. lia.
      * rewrite Hcb, <- Hf', <- Hw'. split; [lia|]. unfold U32 in *. lia.
  - destruct (open_logged id kd' bs torn k h Hkd' H1 H2 H3 H4 H5 H6 H7) as (db2 & Hopen & Hok2). exists db2, (map of_op (logged h)). split; [done|]. split; [done|].
    intros key. split; [apply logged_said|]. rewrite <- logged_said. destruct (tracks_finds _ _ _ key (dk_mem _ _ _ _ Hok2)) as [_ (found & Hg & Hfa)]. by eapply found_says.
Qed.

(** ** Transactions *)

Definition txn_write (op : bytes * option bytes) : write_op := match op with (k, Some v) => Append k v | (k, None) => Delete k end.

(** The values once a table's word is behind older ones. *)
Definition live_with (vs : list SegmentHolds.Put) (s : option say) : list bytes :=
  match s with Some (tomb, xs) => if tomb : bool then xs else live_values vs ++ xs | None => live_values vs end.

Lemma live_snoc vs h k : live_values (vs ++ omap (fun h => said_put h k) [h]) = live_with vs (said h k).
Proof.
  cbn [omap list_omap]. unfold said_put, live_with, live_values. destruct (said h k) as [[tomb xs]|]; cbn [fmap option_fmap option_map fst snd]; [|by rewrite app_nil_r].
  rewrite since_snoc. cbn [p_tomb p_values]. destruct tomb; [cbn; by rewrite app_nil_r|]. rewrite map_app, concat_app. cbn. by rewrite app_nil_r.
Qed.

Lemma live_with_ops vs ops k s : live_with vs (fold_left (tell k) (map txn_write ops) s) = txn_values ops k (live_with vs s).
Proof.
  revert s. unfold txn_values. induction ops as [|[k' v] ops IH]; intros s; [done|]. cbn [map fold_left]. rewrite IH. f_equal. unfold tell.
  destruct v as [v|]; cbn [txn_write MemHolds.op_key apply_op]; destruct (beqb k' k); [|done| |done].
  - destruct s as [[[] xs]|]; cbn; [done|by rewrite app_assoc|done].
  - done.
Qed.

Lemma versions_ops puts_of segs fws w ops k :
  live_values (store_versions puts_of segs fws (w ++ map txn_write ops) k) = txn_values ops k (live_values (store_versions puts_of segs fws w k)).
Proof. unfold store_versions. rewrite !omap_app, !app_assoc, !live_snoc. unfold said. rewrite fold_left_app. apply live_with_ops. Qed.

Lemma txn_untouched ops k vals : touches ops k = false -> txn_values ops k vals = vals.
Proof.
  unfold touches, txn_values. revert vals. induction ops as [|[k' v] ops IH]; intros vals; [done|]. cbn [existsb fold_left]. intros [-> H]%orb_false_iff. by apply IH.
Qed.

Lemma txn_counts ops k vals : txn_count_ops ops k (Zlen vals) = Zlen (txn_values ops k vals).
Proof.
  unfold txn_count_ops, txn_values. revert vals. induction ops as [|[k' v] ops IH]; intros vals; [done|]. cbn [fold_left]. destruct (beqb k' k); [|by apply IH].
  destruct v as [v|]; [|by apply (IH [])]. rewrite <- IH, Zlen_app. done.
Qed.

Lemma event_run policy drop_bytes db ev db' : db_event policy drop_bytes db ev = Some db' ->
  run_event (db_mem db, db_readers db) ev = Some (db_mem db', db_readers db').
Proof.
  destruct ev as [o|].
  - destruct (write_is policy drop_bytes db o) as (mk & -> & Hmk). destruct (ofold wal_op (ops_of o) (db_wal db)) as [w|]; [|done]. cbn [mbind option_bind run_event].
    destruct (run_op (db_mem db, db_readers db) o) as [[t rd]|]; [|done]. intros [= <-]. destruct (Hmk w t rd) as (_ & -> & ->). done.
  - cbn [db_event run_event]. unfold db_commit. destruct (wal_mark_commit (db_wal db)) as [w|]; [|done]. cbn [mbind option_bind].
    set (due := match policy with Always => _ | EveryN _ => _ end). intros [= <-]. by destruct due.
Qed.

Lemma events_run policy drop_bytes evs db db' : ofold (db_event policy drop_bytes) evs db = Some db' ->
  ofold run_event evs (db_mem db, db_readers db) = Some (db_mem db', db_readers db').
Proof.
  revert db. induction evs as [|ev evs IH]; intros db; cbn [ofold]; [by intros [= ->]|]. destruct (db_event policy drop_bytes db ev) as [db1|] eqn:E; [|done].
  apply event_run in E. rewrite E. cbn [mbind option_bind]. apply IH.
Qed.

(** A transaction's commit is its writes, then a commit. *)
Lemma txn_is policy drop_bytes db ops : txn_commit policy drop_bytes db ops = ofold (db_event policy drop_bytes) (map (fun o => Write (txn_write o)) ops ++ [Commit]) db.
Proof.
  unfold txn_commit. rewrite ofold_app. assert (forall db, ofold txn_apply ops db = ofold (db_event policy drop_bytes) (map (fun o => Write (txn_write o)) ops) db) as ->.
  { induction ops as [|[k v] ops IH]; intros d; [done|]. cbn [map ofold]. assert (txn_apply d (k, v) = db_event policy drop_bytes d (Write (txn_write (k, v)))) as -> by (by destruct v).
    destruct (db_event _ _ d _); [|done]. apply IH. }
  destruct (ofold _ _ db) as [d|]; [|done]. cbn. by destruct (db_commit policy drop_bytes d).
Qed.

Lemma txn_history w c ops : fold_left note (map (fun o => Write (txn_write o)) ops ++ [Commit]) (w, c) = (w ++ map txn_write ops, w ++ map txn_write ops).
Proof.
  rewrite fold_left_app. cbn [fold_left note]. assert (forall w c, fst (fold_left note (map (fun o => Write (txn_write o)) ops) (w, c)) = w ++ map txn_write ops) as H.
  { induction ops as [|o ops IH]; intros w' c'; cbn [map fold_left note fst snd]; [by rewrite app_nil_r|]. by rewrite IH, <- app_assoc. }
  by rewrite H.
Qed.

(** C3: A transaction reads what its commit will leave. Over any state of the
    store, what a transaction's read hands on and its count answers of a key,
    with the store's own reads under it, are the values the store's sources and
    its staged appends and deletes, in order behind them, together have; and
    where the staged keys are shorter than 65,536 bytes and the staged values
    than the length that marks a tombstone (two to the thirty-two, less one),
    and its commit returns, every later read of the key -- the writer's, a reader's at that
    commit -- hands on the same. A longer key is accepted and lost: the table
    keeps the low sixteen bits of its length. *)
Theorem txn_reads_commit env by_value via_ord puts_of segs frozen fws w c policy drop_bytes db (ops : Txn) k rd :
  let st := state_of segs (db_mem db) frozen in
  let ins := map (fun s => mkInput (sg_file s) (sg_blob s)) (sa_segs st) in
  let vs := live_values (store_versions puts_of segs fws (w ++ map txn_write ops) k) in
  store_ok env puts_of segs (db_mem db) frozen fws w c -> readers_ok env ins rd ->
  (exists rd', txn_read_all (read_all env by_value via_ord st (ALL, SEE_ALL)) ops k rd = Some (Ok (vs, Ok (Zlen vs)), rd') /\ readers_ok env ins rd') /\
  txn_count (count env st (ALL, SEE_ALL)) ops k = Some (Zlen vs) /\
  forall db', Forall op_fits (map txn_write ops) -> txn_commit policy drop_bytes db ops = Some db' -> forall iso held, iso <> Snapshot ->
    exists rd', read_all env by_value via_ord (state_of segs (db_mem db') frozen) (enter true iso held (db_mem db')) k rd = Some (Ok (vs, Ok (Zlen vs)), rd').
Proof.
  intros st ins vs Hok Hrd. pose proof (versions_ops puts_of segs fws w ops k) as Hvs. fold vs in Hvs.
  assert (sees (db_mem db) w c (ALL, SEE_ALL) w) as Hs by (by left). split; [|split].
  - pose proof (read_gives env by_value via_ord puts_of segs (db_mem db) frozen fws w c Hok _ w Hs k rd Hrd) as H.
    unfold txn_read_all. destruct (touches ops k) eqn:Et; cbn [negb].
    + apply wp_run in H as ([v r] & rd' & H1 & [= -> ->] & H2). exists rd'. split; [|done]. unfold bind. fold st in H1. rewrite H1. by rewrite Hvs.
    + rewrite (txn_untouched _ _ _ Et) in Hvs. rewrite <- Hvs in H. apply wp_run in H as ([v r] & rd' & H1 & [= -> ->] & H2). by exists rd'.
  - unfold txn_count. pose proof (count_is env puts_of segs (db_mem db) frozen fws w c Hok _ w Hs k) as Hn. fold st in Hn. rewrite Hn. cbn [mbind option_bind]. by rewrite txn_counts, Hvs.
  - intros db' Hf Hc iso held Hiso. rewrite txn_is in Hc. apply events_run in Hc.
    assert (Forall ev_fits (map (fun o => Write (txn_write o)) ops ++ [Commit])) as Hev.
    { apply Forall_app. split; [|by repeat constructor]. apply Forall_map. by rewrite Forall_map in Hf. }
    pose proof (tracks_run _ (db_mem db, db_readers db) w c _ _ (sk_mem _ _ _ _ _ _ _ _ Hok) Hev Hc) as Ht.
    rewrite txn_history in Ht. cbn [fst snd] in Ht. set (w' := w ++ map txn_write ops) in *.
    assert (store_ok env puts_of segs (db_mem db') frozen fws w' w') as Hok' by (destruct Hok; by split).
    assert (sees (db_mem db') w' w' (enter true iso held (db_mem db')) w') as Hs' by (destruct iso; [by right|done|by left]).
    pose proof (read_gives env by_value via_ord puts_of segs (db_mem db') frozen fws w' w' Hok' _ w' Hs' k rd Hrd) as H.
    apply wp_run in H as ([v r] & rd' & H1 & [= -> ->] & H2). by exists rd'.
Qed.

(** ** A writer at work *)

Definition sample_writes : list event := [Write (Append [x61] [x01]); Commit; Write (MemHolds.Put [x61] [x02]); Write (Delete [x62])].

(** The second batch's write cut after eleven bytes. *)
Lemma crash_recovers_witness : exists db db' db2, ofold (db_event (EveryN 3) 0) sample_writes (db_create 1 WAL_LOOSE false) = Some db /\
  db_commit (EveryN 3) 0 db = Some db' /\ open_log [(1, take 60 (w_file (db_wal db')))] 0 = Some (Ok db2) /\
  table_says (db_mem db2) (mem_hash [x61]) [x61] (m_len (committed_at (db_mem db2))) (m_wm (committed_at (db_mem db2))) = Some (Some (false, [[x01]])).
Proof.
  assert (in_room (writes sample_writes)) as Hroom.
  { split; [repeat (apply Forall_cons; split; [by vm_compute|]); by apply Forall_nil|by vm_compute..]. }
  destruct (crash_recovers 1 WAL_LOOSE false (EveryN 3) 0 sample_writes (or_intror eq_refl) Hroom) as (db & db' & H1 & H2 & _ & H).
  assert (match ofold (db_event (EveryN 3) 0) sample_writes (db_create 1 WAL_LOOSE false) with
    | Some db => match db_commit (EveryN 3) 0 db with
      | Some db' => (w_written (db_wal db) =? 49) && (w_written (db_wal db') =? 128) && (w_seq (db_wal db') =? 6) | None => false end
    | None => false end = true) as Hw by (vm_compute; reflexivity).
  rewrite H1, H2 in Hw. apply andb_true_iff in Hw as [[E1%Z.eqb_eq E2%Z.eqb_eq]%andb_true_iff E3%Z.eqb_eq].
  destruct (H 60) as (db2 & h2 & H3 & _ & H4); [rewrite E1, E2; lia|rewrite E2; by vm_compute|rewrite E3; by vm_compute|].
  exists db, db', db2. split; [exact H1|]. split; [exact H2|]. split; [exact H3|]. rewrite E2 in H4. exact (proj2 (H4 [x61])).
Defined.

Lemma txn_reads_commit_witness : exists st db db' rd, let ops := txn_append (txn_delete [] [x63]) [x63] [x07] in
  (exists rd', txn_read_all (read_all sample_env false true st (ALL, SEE_ALL)) ops [x63] rd = Some (Ok ([[x07]], Ok 1), rd')) /\
  txn_commit (EveryN 3) 0 db ops = Some db' /\
  exists rd', read_all sample_env false true (mkState (sa_segs st) (db_mem db') [] (sa_aligned st) (sa_tombs st)) (enter true Latest (0, 0) (db_mem db')) [x63] rd = Some (Ok ([[x07]], Ok 1), rd').
Proof.
  destruct sample_segs as (s1 & s2 & rd & Hsort & P1 & P2 & Hok).
  destruct (ofold (db_event (EveryN 3) 0) sample_writes (db_create 1 WAL_LOOSE false)) as [db|] eqn:E1; [|by vm_compute in E1].
  pose proof (events_run _ _ _ _ _ E1) as Hrun. pose proof (tracks_run sample_writes (new, new_readers false) [] [] _ _ tracks_new ltac:(by repeat constructor) Hrun) as Ht.
  destruct (Hok (db_mem db) [] [] _ _ ltac:(constructor) Ht) as [Hst Hrd].
  set (ops := txn_append (txn_delete [] [x63]) [x63] [x07]).
  assert (match ofold (db_event (EveryN 3) 0) sample_writes (db_create 1 WAL_LOOSE false) with Some db => match txn_commit (EveryN 3) 0 db ops with Some _ => true | None => false end | None => false end = true) as Hc by (vm_compute; reflexivity).
  rewrite E1 in Hc. destruct (txn_commit (EveryN 3) 0 db ops) as [db'|] eqn:E2; [|done].
  pose proof (txn_reads_commit sample_env false true sample_puts [s1; s2] [] [] _ _ (EveryN 3) 0 db ops [x63] rd Hst Hrd) as H.
  unfold store_versions in H. rewrite Hsort in H. cbn [omap list_omap] in H. rewrite P1, P2 in H. destruct H as [(rd1 & H1 & _) [_ H2]].
  exists (state_of [s1; s2] (db_mem db) []), db, db', rd. split; [exists rd1; exact H1|]. split; [exact E2|].
  destruct (H2 db' ltac:(by repeat constructor) E2 Latest (0, 0) ltac:(done)) as (rd2 & H3). exists rd2. exact H3.
Defined.
